(* ===== verification/_CoqProject ===== *)
-Q . S2P
Prelude.v
ProgramLogic.v
PyFloat.v
FluidService.v
PlacementPolicy.v
ModelInventory.v
TraceReplay.v
BasicFabric.v
BasicHbm.v
ReadRatePolicy.v
UciePlacement.v
TopologyConfig.v
TopologyService.v
TopologyAllocation.v
TopologyInvariant.v
FieldCodec.v
PrefetchReplay.v
MqsimService.v
BasicSystem.v
SystemInvariant.v
MaxMinRates.v
CausalService.v
CausalInvariant.v
CausalTheorems.v
CausalWorkload.v
CausalExecutor.v
ExecutorInvariant.v
ExecutorSteps.v
ExecutorBatches.v
ExecutorTheorems.v
ReliabilityLedger.v
MaintenanceDriver.v
MaintenanceInvariant.v
MaintenanceSteps.v
MaintenanceTheorems.v
MaintenanceAge.v
