(* ===== verification/Prelude.v ===== *)
(** * HBFSim: a verification development

    HBFSim evaluates High-Bandwidth Flash (HBF) as the weight memory of GPU
    inference.  Its Python code decides which expert weights stay resident in
    HBM, replays routing traces against that decision, models the stacks, links
    and media servers that the remaining reads go through, admits reads under
    thermal rate policies, and stores the simulated fields.  This library models
    that code function by function and proves what makes it correct.

    ** The parts and how they interact

    - The _capacity study_ (adapters/vllm_capacity): a frozen inventory of
      expert tensors ([ModelInventory]), the cache policies that decide what
      stays in HBM ([PlacementPolicy]) and the replay of routing traces that
      drives a policy and accounts for every access ([TraceReplay], a client of
      the other two).
    - The _prefetch study_ (scripts/eval/prefetch_replay.py): the causal replay
      of a batch against one shared read service ([PrefetchReplay]).
    - The _basic system_ (tools): the transfer fabric ([BasicFabric]: banks and
      links of the HBF and HBM stacks), the HBM media servers ([BasicHbm]),
      the client of the native flash simulator ([MqsimService]) and the
      coordinator that composes the three into one event loop ([BasicSystem],
      with its proofs in [SystemInvariant]).
    - The _rate and thermal experiments_ (experiments): the window-quantized
      byte service ([FluidService]), the temperature-driven read-rate policy
      and its window ledger ([ReadRatePolicy]), and the aggregated service of
      the four package topologies ([TopologyConfig], [TopologyService] with the
      proofs in [TopologyAllocation] and [TopologyInvariant]), whose fabric
      configuration is validated by the model of [BasicFabric]; and the
      event-driven service for causal batches ([MaxMinRates], [CausalService]
      with the proofs in [CausalInvariant] and [CausalTheorems]), which reuses
      the routes, resources and activity rules of [TopologyService].
    - The _causal workload_ (experiments/eq3_system_thermal): the dependency
      graph of a model's weight reads and computations ([CausalWorkload]) and
      the executor that offers its reads to a storage service such as
      [CausalService], takes the completions, computes, caches and migrates
      weights ([CausalExecutor], with the proofs in [ExecutorInvariant],
      [ExecutorSteps], [ExecutorBatches] and [ExecutorTheorems]).
    - _Maintenance_ (experiments/eq3_system_thermal): the ledger of the
      retention age of flash blocks ([ReliabilityLedger]), the driver that moves
      aged extents to spare blocks through jobs of a storage service
      ([MaintenanceDriver], with the proofs in [MaintenanceInvariant],
      [MaintenanceSteps] and [MaintenanceTheorems]), and the adapter between the
      two and the receipts of the service ([MaintenanceAge]).
    - The _adapter_ that places checkpoint storages on HBF modules
      ([UciePlacement]) and the _codec_ of the simulated fields ([FieldCodec]).

    ** Files and sources

    - [Prelude]: exceptions ([result], the state monad [M]), Python
      dictionaries, sorting and heaps, JSON values, sums, generic lemmas.
    - [ProgramLogic]: postconditions for [M], parameterised by the exceptions
      that are accepted; rules for bind, loops with a measure and iteration.
    - [PyFloat]: Python's float division, products and conversions on the
      binary64 of the Standard Library.
    - [FluidService]: experiments/eq3_rate_thermal/fluid_service.py.
      [FluidService.advance] is one window: validation, enqueue, max-min fair
      shares, FIFO service of cohorts, the nearest-rank p95, the checks.
    - [PlacementPolicy]: adapters/vllm_capacity/placement_policy.py: the CLOCK,
      LRU and Belady caches ([clock_access], [lru_access], [belady_access]) and
      [make_policy].
    - [ModelInventory]: adapters/vllm_capacity/model_inventory.py.
    - [TraceReplay]: adapters/vllm_capacity/trace_replay.py: the Fenwick tree,
      reuse distances, geometry, trace loading, [replay_cell].
    - [PrefetchReplay]: scripts/eval/prefetch_replay.py: [validate_nodes] and
      [replay] in both modes.
    - [BasicFabric]: tools/eq3_basic_fabric.py: configuration, reservation,
      enqueue, the stages of a transfer, [advance].
    - [BasicHbm]: tools/eq3_basic_hbm.py: configuration, arrivals, submission,
      [advance], completions and facts.
    - [MqsimService]: scripts/eval/mqsim_service.py: the handshake, the
      commands, the checks of every response and the receipt.
    - [BasicSystem]: tools/eq3_basic_system.py: the fixtures, request intake,
      [_admit], the three completion paths, [step], [run]; [open_system] is how
      tools/eq3_basic_system_actual.py opens a case.  [SystemInvariant] holds
      its invariant [Inv], the measure [mu] and the theorems on [run].
    - [ReadRatePolicy]: experiments/eq3_maintenance/read_rate_policy.py.
    - [UciePlacement]: adapters/vllm/ucie_placement.py.
    - [TopologyConfig], [TopologyService]:
      experiments/eq3_system_thermal/topology_service.py.
    - [FieldCodec]: tools/eq3_campaign_fieldcodec.py.
    - [MaxMinRates], [CausalService]:
      experiments/eq3_system_thermal/causal_service.py: the exact progressive
      filling of [_rates]; control windows, submission, admission, the event
      loop [advance_to] and its receipts.  [CausalInvariant] holds the invariant
      [causal_inv] and one lemma per operation, [CausalTheorems] the histories
      of calls and the theorems.
    - [CausalWorkload], [CausalExecutor]:
      experiments/eq3_system_thermal/causal_workload.py: [_tensor_groups] and
      [build_architecture_trace] in its metadata mode; the class
      [CausalExecutor].  [ExecutorInvariant] holds the invariant [exec_inv] with
      the lemmas on striping, identifiers, the cache and the migrations,
      [ExecutorSteps] the lemmas on [poll], [complete] and [offer_migrations],
      [ExecutorBatches] those on construction, streaming and retiring, and
      [ExecutorTheorems] the executions and the theorems.
    - [ReliabilityLedger]: experiments/eq3_system_thermal/reliability.py:
      [arrhenius_acceleration], the advance of the age of one block or of many,
      [due_reasons], the counts of media operations.
    - [MaintenanceDriver]:
      experiments/eq3_system_thermal/maintenance_driver.py: registration, the
      discovery of due extents, [poll], the four phases of an operation and
      [consume_receipt].  [MaintenanceInvariant] holds its invariant [inv] with
      the lemmas on discovery and submission, [MaintenanceSteps] the lemmas on
      completions and registration, [MaintenanceTheorems] the histories of calls
      and the theorems.
    - [MaintenanceAge]:
      experiments/eq3_system_thermal/causal_maintenance_age.py.

    Each file opens with what it holds.  A definition keeps the name of the
    function it models; an object is a record of its attributes, a method a
    function in the state monad, an exception a value of [exn].

    ** What the theorems show

    - [FluidService]: a window serves exactly the bytes its budgets allow, in
      FIFO order, and reports them; the shares are max-min fair; the reported
      p95 is the nearest-rank percentile; offered bytes are conserved over any
      sequence of windows.
    - [PlacementPolicy]: every policy refines the demand-filled cache of its
      capacity; Belady's policy has the fewest misses of all such caches; LRU
      holds the most recently used keys; CLOCK gives referenced slots a second
      chance.
    - [ModelInventory], [TraceReplay]: an accepted inventory or trace is well
      formed; the Fenwick-tree histogram equals the definition of reuse
      distance, and LRU hits exactly when the distance is below the capacity;
      a replayed cell never violates its own conservation checks.
    - [PrefetchReplay]: on any service whose clock is monotone a replay returns
      a sound report or reports the fault of the service; on a live service it
      returns a report unless its clock overflows.
    - [BasicFabric], [BasicHbm]: resources have one owner, the clock reaches
      the horizon, all accepted work drains; in every reachable state in which
      the floats express the service of the requests that arrived
      ([serviceable_all]), HBM requests are served in FIFO order with the
      declared duration, and splitting a horizon changes nothing; a request
      outside that range is lost for ever.
    - [MqsimService]: a receipt is granted only for conserved requests, bytes
      and observations; the client is a service in the sense of
      [PrefetchReplay], whatever the native process answers.
    - [BasicSystem], [SystemInvariant]: the composed system.  An invariant ties
      each request record to its reservation in the fabric, its media request
      and its native read; every step of the loop keeps it.  With any native
      process a run reports every request complete, once, served after its
      submission and complete after its service, or raises an error of that
      process, of its protocol or of the clock range; once the gate of the
      process opens it ends within a number of iterations known from the
      requests.  With a process that answers the reads that the native service
      accepts ([LiveNative]) it ends with such a report and all times in order,
      unless a read leaves the 64-bit clock or the process reports a completion
      at another time than its media callback, which the coordinator refuses.
    - [ReadRatePolicy]: budgets stay in range and obey the thermal guards; the
      feedback moves a budget by one step and exceeds its start and the minimum
      only with evidence that the gate limits delivery; the ledger never admits
      more than its quota; a shut-down stack admits nothing.
    - [UciePlacement]: placed storages are aligned, within their module and
      pairwise disjoint; a canonical layout is accepted by its own checker.
    - [TopologyConfig], [TopologyService]: allocations respect capacities and
      guards and leave no servable job behind; a window always ends; offered
      bytes equal completed plus outstanding bytes; completions are reported
      once; the default configurations are accepted; an automatic identifier
      that a caller has used blocks the next offered bytes.
    - [FieldCodec]: decoding inverts encoding for every split of the input.
    - [MaxMinRates], [CausalTheorems]: the rates are the max-min fair allocation
      of the link and media bandwidths, exactly; integer bytes follow the fluid
      to within a credit of less than a byte and finish at the computed
      nanosecond; [advance_to] reaches exactly the horizons within its control
      window and refuses all others without effect; jobs are
      admitted only against quota and state, and until nothing more fits;
      receipts report each job once with all its bytes, and quotas are charged
      for exactly the admitted bytes.  The histories include calls that raise,
      but for a first [begin_window] that raises after it assigned its window,
      which leaves a service without quotas ([assigned]).
    - [CausalWorkload]: the tensor regions are disjoint and add up to the
      official payload; the graph of a batch is acyclic, consumes every read
      and has distinct identifiers over all batches.
    - [ExecutorTheorems]: in every execution a task is done only after its
      dependencies; no operation raises and the executor always waits for a
      job, an event or an arrival; the cache respects its capacity and keeps
      what is being read; the old copy of a migrated tensor is erased only when
      nothing reads it; the parts of a tensor are those of round robin; only
      finished batches are retired.  An execution calls the operations with
      times that respect the driver's clock ([xstep]) on traces whose batches
      are well formed ([wf_batch], which [architecture_trace_well_formed] shows
      of every built trace).
    - [MaintenanceTheorems], [MaintenanceAge]: after any history of calls that
      return, with any failed jobs, in which no block is given to the driver
      twice, every block has exactly one owner; jobs program and erase
      only blocks that hold no live data; every operation has one job, and a
      completed job ends its operation or moves it to a later phase; a commit is
      a compare-and-swap on the version of an extent; through the adapter the age
      of an affected extent is accounted exactly up to the completion of its job.

    Six theorems prove defects of the code: [hbm_tiny_bandwidth_loses_request],
    [topology_auto_id_collision], [codec_long_literal],
    [causal_begin_window_not_atomic], [result_origin_constant] and
    [maintenance_register_alias].

    ** Bounds and fuel

    A [while] loop is a recursion with a bound, and running out of it is the
    outcome [OutOfFuel], which is not a Python exception.  The bounds are
    computed from the state (the length of a queue, the number of pending
    reads, one plus the bytes not yet admitted, ...), and the totality theorems
    show that they are enough: [fluid_advance_window], [policy_replay_sound],
    [fabric_advance_total], [hbm_advance_total], [topology_advance_total],
    [prefetch_replay_sound], [prefetch_replay_total] and [causal_advance_total]
    exclude [OutOfFuel].  The loop of [CausalService.advance_to] is bounded by
    the nanoseconds up to its horizon (a binary bound, [bloop]), since every
    iteration moves the clock forward.  The loop of [_resolve_ready_storage] is
    bounded by the number of tasks and the eviction loop of [_offer_cache_fill]
    by the length of the cache, and [executor_never_stuck] excludes [OutOfFuel]
    for both.  The loop of [MaintenanceDriver._begin_due] over the cohorts of a
    channel is bounded by its due extents, since every cohort takes at least one
    ([begin_cohorts_ok]).
    The loop of [BasicSystem.run] waits for a native process and has no bound
    of its own: it takes fuel as an argument.  [basic_system_sound] and
    [basic_system_total] give an amount that is enough once the gate of the
    process opens (21 iterations per request and two per nanosecond before it
    opens): with it, a run that does not end has a clock at the end of its
    range, or is impossible when the process answers.
    The decoder of [FieldCodec] takes its fuel as an argument, and
    [codec_round_trip] shows that enough fuel exists.  Python integers are
    unbounded and are [Z]; the ranges that the code checks (64-bit clocks and
    addresses, int32 field values) are written out.  Floats are binary64 with
    rounding.  A [heapq] list is the sorted list of its elements.  Where the
    code iterates a set, the model iterates it in a fixed order (of the
    configuration, or sorted); where the order shows in the results, as for the
    active jobs of [CausalService], it is an argument and the theorems hold for
    every order.

    Code outside the repository is a parameter with named laws and a concrete
    instance that satisfies them: zlib ([Zlib], [ZlibLaws]), SHA-256, the
    exponential of the C library, the timing-engine process, the native MQSim
    process ([Native], with [LiveNative]), and the read service of a prefetch
    replay ([Service], with [ForwardService] and [LiveService]).  A placement
    provider that the caller gives to [CausalExecutor.init] is an argument,
    required to answer for every target; the provider that the class builds
    itself is modelled.

    ** Not modelled

    The C++ and CUDA simulator and runtime; the adapters that launch vLLM and
    llama.cpp, rewrite PTX and patch loaders (process control, GPU state); the
    evaluation scripts that run workloads, collect traces and write files; the
    thermal solvers and their file formats (numerical code over external
    tools); the mode of [build_architecture_trace] that takes its structure from
    a captured trace file (file access and hashing); the maintenance closed loop
    and its analysis; drivers, plots and aggregators; copies of these files under
    reproduction/; tests.  The manifest lists them with the reasons. *)

(** ** Shared prelude: notations, the exception monads, the models of the Python
    data structures that the components share, and the generic lemmas about
    them. *)

From Stdlib Require Export ZArith Lia Floats.SpecFloat.
From stdpp Require Export strings pretty gmap numbers base tactics option list.

#[global] Open Scope Z_scope.

Declare Scope hbf_scope.
Delimit Scope hbf_scope with hbf.
#[global] Open Scope hbf_scope.

Create HintDb hbf.

(** ** Exceptions and results

    [result A] is the outcome of a Python call: a value or a raised
    exception.  [OutOfFuel] is not a Python exception: it is what a modelled
    [while] loop yields when the bound of the model is too small; the totality
    theorems show that the bounds suffice (for [BasicSystem.run], once the gate
    of the native process opens). *)

Inductive exn :=
| ValueError (msg : string)
| RuntimeError (msg : string)
| AssertionError (msg : string)
| KeyError (key : string)
| IndexError
| TypeError (msg : string)
| OverflowError (msg : string)
| ZeroDivisionError
| FileExistsError
| AttributeError (msg : string)
| StructError (msg : string)
| ZlibError (msg : string)
| UnsupportedComposition (msg : string)
| OutOfFuel.

Inductive result (A : Type) :=
| Ok (a : A)
| Raise (e : exn).
Arguments Ok {A} _.
Arguments Raise {A} _.

#[export] Instance exn_eq_dec : EqDecision exn.
Proof. solve_decision. Defined.

Definition rbind {A B} (m : result A) (k : A -> result B) : result B :=
  match m with Ok a => k a | Raise e => Raise e end.

(** [let? x := m in k]: run [m], stop at its exception. *)
Notation "'let?' x := m 'in' k" := (rbind m (fun x => k))
  (at level 200, x pattern, m at level 200, k at level 200, right associativity,
   format "'[v' 'let?'  x  :=  m  'in' '//' k ']'") : hbf_scope.

(** State passing with exceptions.  The state survives an exception, as the
    attributes of a Python object do. *)
Definition M (S A : Type) : Type := S -> result A * S.

Definition sret {S A} (a : A) : M S A := fun s => (Ok a, s).
Definition sbind {S A B} (m : M S A) (k : A -> M S B) : M S B := fun s =>
  match m s with
  | (Ok a, s') => k a s'
  | (Raise e, s') => (Raise e, s')
  end.

(** [let! x := m in k]: the same in the state monad. *)
Notation "'let!' x := m 'in' k" := (sbind m (fun x => k))
  (at level 200, x pattern, m at level 200, k at level 200, right associativity,
   format "'[v' 'let!'  x  :=  m  'in' '//' k ']'") : hbf_scope.

Definition raise {S A} (e : exn) : M S A := fun s => (Raise e, s).
Definition lift {S A} (r : result A) : M S A := fun s => (r, s).
Definition get {S} : M S S := fun s => (Ok s, s).
Definition put {S} (s' : S) : M S unit := fun _ => (Ok tt, s').
Definition modify {S} (f : S -> S) : M S unit := fun s => (Ok tt, f s).

(** [ensure b e k]: the guard [if not b: raise e] in front of [k]. *)
Definition ensure (b : bool) (e : exn) : result unit := if b then Ok tt else Raise e.
(** [require b e]: the same guard in the state monad. *)
Definition require {S} (b : bool) (e : exn) : M S unit := lift (ensure b e).

Definition of_option {A} (e : exn) (o : option A) : result A :=
  match o with Some a => Ok a | None => Raise e end.

Definition is_ok {A} (r : result A) : bool := match r with Ok _ => true | Raise _ => false end.

(** Loops over a collection that may raise. *)
Fixpoint foldM {A B} (f : B -> A -> result B) (l : list A) (b : B) : result B :=
  match l with
  | [] => Ok b
  | x :: l' => let? b' := f b x in foldM f l' b'
  end.

Fixpoint mapR {A B} (f : A -> result B) (l : list A) : result (list B) :=
  match l with
  | [] => Ok []
  | x :: l' => let? y := f x in let? ys := mapR f l' in Ok (y :: ys)
  end.

(** Iterating a state action over a list. *)
Fixpoint forM {S A} (l : list A) (f : A -> M S unit) : M S unit :=
  match l with
  | [] => sret tt
  | x :: l' => let! _ := f x in forM l' f
  end.

(** Iterating a state action over a list and collecting its values. *)
Fixpoint mapS {S A B} (f : A -> M S B) (l : list A) : M S (list B) :=
  match l with
  | [] => sret []
  | x :: l' => let! y := f x in let! ys := mapS f l' in sret (y :: ys)
  end.

(** The same with an accumulator. *)
Fixpoint foldS {S A B} (f : B -> A -> M S B) (l : list A) (b : B) : M S B :=
  match l with
  | [] => sret b
  | x :: l' => let! b' := f b x in foldS f l' b'
  end.

(** [ploop p step s]: at most [p] rounds of a [while] loop whose body [step]
    either continues with a new state or leaves the loop.  The bound is binary,
    so a generous one costs nothing to evaluate. *)
Fixpoint ploop {S A} (p : positive) (step : S -> result (S + A)) (s : S) : result (S + A) :=
  match p with
  | xH => step s
  | xO q => let? r := ploop q step s in match r with inl s' => ploop q step s' | inr a => Ok (inr a) end
  | xI q =>
      let? r := step s in
      match r with
      | inl s1 => let? r' := ploop q step s1 in match r' with inl s' => ploop q step s' | inr a => Ok (inr a) end
      | inr a => Ok (inr a)
      end
  end.

(** ** Integers *)

(** Python's ceiling-division idiom [(value + divisor - 1) // divisor]. *)
Definition ceil_div (a b : Z) : Z := (a + b - 1) / b.

Definition zsum (l : list Z) : Z := foldr Z.add 0 l.

Definition zmin_list (l : list Z) : option Z :=
  match l with [] => None | x :: l' => Some (foldl Z.min x l') end.
Definition zmax_list (l : list Z) : option Z :=
  match l with [] => None | x :: l' => Some (foldl Z.max x l') end.

Lemma zmax_list_spec l : match zmax_list l with None => l = [] | Some m => m ∈ l /\ forall x, x ∈ l -> x <= m end.
Proof.
  destruct l as [|a l]; [done|]. unfold zmax_list. revert a. induction l as [|b l IH]; intros a; csimpl; [set_solver by lia|].
  destruct (IH (Z.max a b)) as [Hin Hle]. split.
  - apply elem_of_cons in Hin as [->|Hin]; [|set_solver]. destruct (Z.max_spec a b) as [[_ ->]|[_ ->]]; set_solver.
  - intros x Hx. pose proof (Hle (Z.max a b) ltac:(set_solver)). rewrite !elem_of_cons in Hx.
    destruct Hx as [->|[->|Hx]]; [lia..|]. apply Hle. set_solver.
Qed.

Definition U64_MAX : Z := 2 ^ 64 - 1.

(** ** JSON-like values

    Values that reach a validator from a JSON document or an untyped caller.
    Objects have string keys, in insertion order. *)

Inductive pyval :=
| VNone
| VBool (b : bool)
| VInt (z : Z)
| VFloat (f : spec_float)
| VStr (s : string)
| VList (l : list pyval)
| VDict (d : list (string * pyval)).

(** ** Python dictionaries

    A [dict] keeps insertion order; assigning to an existing key keeps its
    position. *)

Notation dict K V := (list (K * V)) (only parsing).

Section dict.
Context {K V : Type} `{EqDecision K}.

Fixpoint dget (d : dict K V) (k : K) : option V :=
    match d with
    | [] => None
    | (k', v) :: d' => if decide (k = k') then Some v else dget d' k
    end.

Fixpoint dset (d : dict K V) (k : K) (v : V) : dict K V :=
    match d with
    | [] => [(k, v)]
    | (k', v') :: d' => if decide (k = k') then (k, v) :: d' else (k', v') :: dset d' k v
    end.

Fixpoint ddel (d : dict K V) (k : K) : dict K V :=
    match d with
    | [] => []
    | (k', v) :: d' => if decide (k = k') then d' else (k', v) :: ddel d' k
    end.

Definition dkeys (d : dict K V) : list K := fst <$> d.
Definition dvals (d : dict K V) : list V := snd <$> d.
Definition dmem (d : dict K V) (k : K) : bool :=
    match dget d k with Some _ => true | None => false end.
Definition dget_or (d : dict K V) (k : K) (v : V) : V :=
    match dget d k with Some v' => v' | None => v end.
  (** [d[k]] of a missing key raises [KeyError]. *)
Definition dindex (d : dict K V) (k : K) : result V :=
    of_option (KeyError "") (dget d k).
End dict.

(** [l[i]] and [l[i] = v] of a list, for a non-negative index. *)
Definition lget {A} (l : list A) (i : nat) : result A := of_option IndexError (l !! i).
Definition lput {A} (l : list A) (i : nat) (v : A) : result (list A) :=
  if bool_decide (i < length l)%nat then Ok (<[i := v]> l) else Raise IndexError.

(** Apply [f] to the value stored under [k] (a mutation through the shared
    reference [d[k]]). *)
Definition dupd {K V} `{EqDecision K} (d : dict K V) (k : K) (f : V -> V) : dict K V :=
  match dget d k with Some v => dset d k (f v) | None => d end.

(** [set(xs) == set(ys)] for lists of hashable values. *)
Definition same_set {A} `{EqDecision A} (xs ys : list A) : bool :=
  bool_decide (Forall (fun x => x ∈ ys) xs) && bool_decide (Forall (fun y => y ∈ xs) ys).

(** ** Sorting and priority queues

    [isort le] is Python's stable [sorted] for the preorder [le].  A [heapq]
    list is modelled by the sorted list of its elements: [h[0]] is the head,
    [heappop] removes it and [heappush] inserts in order. *)

Section sorting.
Context {A : Type} (le : A -> A -> bool).

Fixpoint sinsert (x : A) (l : list A) : list A :=
    match l with
    | [] => [x]
    | y :: l' => if le x y then x :: l else y :: sinsert x l'
    end.

Definition isort (l : list A) : list A := foldr sinsert [] l.

Fixpoint sorted (l : list A) : Prop :=
    match l with
    | [] => True
    | x :: l' => Forall (fun y => le x y = true) l' /\ sorted l'
    end.

Lemma sinsert_perm x l : sinsert x l ≡ₚ x :: l.
Proof.
    induction l as [|y l IH]; simpl; [done|].
    destruct (le x y); [done|]. rewrite IH. constructor.
Qed.

Lemma isort_perm l : isort l ≡ₚ l.
Proof. induction l as [|x l IH]; simpl; [done|]. by rewrite sinsert_perm, IH. Qed.

Lemma sinsert_elem x y l : y ∈ sinsert x l <-> y = x \/ y ∈ l.
Proof. rewrite sinsert_perm. apply elem_of_cons. Qed.

Lemma isort_elem y l : y ∈ isort l <-> y ∈ l.
Proof. by rewrite isort_perm. Qed.

Lemma isort_length l : length (isort l) = length l.
Proof. by rewrite isort_perm. Qed.

Context (le_total : forall x y, le x y = true \/ le y x = true).
Context (le_trans : forall x y z, le x y = true -> le y z = true -> le x z = true).

Lemma sinsert_sorted x l : sorted l -> sorted (sinsert x l).
Proof using le_total le_trans.
    induction l as [|y l IH]; simpl; [by auto|]. intros [Hy Hl].
    destruct (le x y) eqn:E; simpl.
    - split; [|done]. constructor; [done|].
      eapply Forall_impl; [exact Hy|]. simpl. eauto.
    - split; [|by auto]. rewrite Forall_forall. intros z [->|Hz]%sinsert_elem.
      + destruct (le_total x y); congruence.
      + rewrite Forall_forall in Hy. auto.
Qed.

Lemma isort_sorted l : sorted (isort l).
Proof using le_total le_trans. induction l; simpl; auto using sinsert_sorted. Qed.
End sorting.

(** Lexicographic orders on the tuples the sources sort and push on heaps. *)
Definition zle : Z -> Z -> bool := Z.leb.
Definition sle : string -> string -> bool := String.leb.
Definition lex {A B} `{EqDecision A} (la : A -> A -> bool) (lb : B -> B -> bool)
    (x y : A * B) : bool :=
  if decide (x.1 = y.1) then lb x.2 y.2 else la x.1 y.1.

(** Boolean total orders, closed under lexicographic pairing. *)
Class BoolOrder {A} (le : A -> A -> bool) : Prop := {
  bo_total : forall x y, le x y = true \/ le y x = true;
  bo_trans : forall x y z, le x y = true -> le y z = true -> le x z = true;
  bo_antisym : forall x y, le x y = true -> le y x = true -> x = y;
}.

Lemma bo_refl {A} (le : A -> A -> bool) `{!BoolOrder le} x : le x x = true.
Proof. by destruct (bo_total x x). Qed.

#[export] Instance zle_order : BoolOrder zle.
Proof. unfold zle. split; intros *; rewrite !Z.leb_le; lia. Qed.

#[export] Instance lex_order {A B} `{EqDecision A} (la : A -> A -> bool) (lb : B -> B -> bool)
  `{!BoolOrder la, !BoolOrder lb} : BoolOrder (lex la lb).
Proof.
  split; unfold lex.
  - intros [a b] [a' b']. simpl.
    destruct (decide (a = a')), (decide (a' = a)); try congruence; apply bo_total.
  - intros [a b] [a' b'] [a'' b'']. simpl. intros H1 H2.
    destruct (decide (a = a')) as [->|Hn1]; [destruct (decide (a' = a'')); eauto using bo_trans|].
    destruct (decide (a' = a'')) as [->|Hn2]; [by rewrite decide_False|].
    destruct (decide (a = a'')) as [->|]; [|by eapply bo_trans].
    by destruct Hn1; apply bo_antisym.
  - intros [a b] [a' b']. simpl. intros H1 H2.
    destruct (decide (a = a')) as [->|Hn]; [rewrite decide_True in H2 by done|rewrite decide_False in H2 by done].
    + f_equal. by apply bo_antisym.
    + by destruct Hn; apply bo_antisym.
Qed.

Lemma sle_cons a s b t : sle (String a s) (String b t) =
  match (Ascii.N_of_ascii a ?= Ascii.N_of_ascii b)%N with Eq => sle s t | Lt => true | Gt => false end.
Proof.
  unfold sle, String.leb. simpl. unfold Ascii.compare.
  by destruct (Ascii.N_of_ascii a ?= Ascii.N_of_ascii b)%N.
Qed.

#[export] Instance sle_order : BoolOrder sle.
Proof.
  split.
  - induction x as [|a x IH]; intros [|b y]; try (by left); try (by right). rewrite !sle_cons.
    rewrite (N.compare_antisym (Ascii.N_of_ascii a)).
    destruct (Ascii.N_of_ascii a ?= Ascii.N_of_ascii b)%N; simpl; auto.
  - induction x as [|a x IH]; intros [|b y] [|c z]; try done. rewrite !sle_cons.
    destruct (N.compare_spec (Ascii.N_of_ascii a) (Ascii.N_of_ascii b)) as [E1|E1|E1],
      (N.compare_spec (Ascii.N_of_ascii b) (Ascii.N_of_ascii c)) as [E2|E2|E2],
      (N.compare_spec (Ascii.N_of_ascii a) (Ascii.N_of_ascii c)) as [E3|E3|E3]; intros; try done; try lia; eauto.
  - intros x y. apply String.leb_antisym.
Qed.

Lemma isort_id {A} (le : A -> A -> bool) l : sorted le l -> isort le l = l.
Proof.
  induction l as [|a l IH]; simpl; [done|]. intros [Ha Hl]. rewrite IH by done.
  destruct l as [|b l]; simpl; [done|]. apply Forall_cons in Ha as [-> _]. done.
Qed.

Lemma isort_idemp {A} (le : A -> A -> bool) `{!BoolOrder le} l : isort le (isort le l) = isort le l.
Proof. apply isort_id, isort_sorted; [apply bo_total|apply bo_trans]. Qed.

(** [R] holds between any two members at different positions. *)
Definition pairwise {A} (R : A -> A -> Prop) (l : list A) : Prop :=
  forall x y l', l ≡ₚ x :: y :: l' -> R x y.

#[export] Instance pairwise_Proper {A} (R : A -> A -> Prop) : Proper ((≡ₚ) ==> iff) (pairwise R).
Proof. intros l k H. unfold pairwise. split; intros Hp x y l' E; eapply Hp; [rewrite H|rewrite <- H]; exact E. Qed.

Lemma pairwise_nil {A} (R : A -> A -> Prop) : pairwise R [].
Proof. intros x y l' E. by apply Permutation_nil_cons in E. Qed.

Lemma pairwise_cons {A} (R : A -> A -> Prop) x l : Symmetric R ->
  pairwise R (x :: l) <-> (forall y, y ∈ l -> R x y) /\ pairwise R l.
Proof.
  intros Hsym. split.
  - intros H. split.
    + intros y [k Hk]%elem_of_Permutation. eapply (H x y k). by rewrite Hk.
    + intros a b k E. eapply (H a b (x :: k)). rewrite E. by rewrite (Permutation_swap a x), (Permutation_swap b x).
  - intros [Hx Hl] a b k E.
    assert (Hin : x ∈ a :: b :: k) by (rewrite <- E; set_solver).
    apply elem_of_cons in Hin as [->|Hin]; [apply Hx; apply Permutation_cons_inv in E; rewrite E; set_solver|].
    apply elem_of_cons in Hin as [->|Hin].
    + apply Hsym, Hx. rewrite (Permutation_swap b a) in E. apply Permutation_cons_inv in E. rewrite E. set_solver.
    + apply elem_of_Permutation in Hin as [k' Hk]. apply (Hl a b k').
      rewrite Hk, (Permutation_swap x b), (Permutation_swap x a) in E. by apply Permutation_cons_inv in E.
Qed.

Lemma pairwise_snoc {A} (R : A -> A -> Prop) x l : Symmetric R ->
  pairwise R l -> (forall y, y ∈ l -> R x y) -> pairwise R (l ++ [x]).
Proof. intros Hs Hl Hx. rewrite <- Permutation_cons_append. apply pairwise_cons; auto. Qed.

Lemma pairwise_fmap {A B} (f : A -> B) (R : B -> B -> Prop) l : Symmetric R ->
  pairwise R (f <$> l) <-> pairwise (fun x y => R (f x) (f y)) l.
Proof.
  intros Hs. induction l as [|a l IH]; csimpl; [split; intros; apply pairwise_nil|].
  rewrite !pairwise_cons by (done || (intros x y; apply Hs)). rewrite IH. split; intros [H1 H2]; split; try done.
  - intros y Hy. apply H1. by apply list_elem_of_fmap_2.
  - intros y (z & -> & Hz)%list_elem_of_fmap. auto.
Qed.

Lemma sinsert_sorted_order {A} (le : A -> A -> bool) `{!BoolOrder le} x l :
  sorted le l -> sorted le (sinsert le x l).
Proof. apply sinsert_sorted; [apply bo_total|apply bo_trans]. Qed.

Lemma sorted_snoc {A} (le : A -> A -> bool) l x :
  sorted le l -> (forall y, y ∈ l -> le y x = true) -> sorted le (l ++ [x]).
Proof.
  induction l as [|a l IH]; simpl; [done|]. intros [Ha Hl] H. split.
  - apply Forall_app. split; [done|]. constructor; [|done]. apply H. set_solver.
  - apply IH; [done|]. intros y Hy. apply H. set_solver.
Qed.

Lemma sorted_app_inv {A} (le : A -> A -> bool) l k :
  sorted le (l ++ k) -> sorted le k /\ forall x y, x ∈ l -> y ∈ k -> le x y = true.
Proof.
  induction l as [|a l IH]; simpl; [set_solver|]. intros [Ha Hl]. destruct (IH Hl) as [Hk Hlk].
  split; [done|]. intros x y [->|Hx]%elem_of_cons Hy; [|by apply Hlk].
  rewrite Forall_forall in Ha. apply Ha, elem_of_app. by right.
Qed.

(** ** Lemmas on sums *)

Lemma zsum_app l k : zsum (l ++ k) = zsum l + zsum k.
Proof. unfold zsum. induction l; csimpl in *; lia. Qed.

Lemma zsum_nonneg l : Forall (fun x => 0 <= x) l -> 0 <= zsum l.
Proof. unfold zsum. induction 1; simpl; lia. Qed.

Lemma zsum_perm l k : l ≡ₚ k -> zsum l = zsum k.
Proof. unfold zsum. induction 1; simpl; lia. Qed.

(** A sum does not depend on the order of its terms. *)
#[export] Instance zsum_Proper : Proper ((≡ₚ) ==> (=)) zsum.
Proof. intros l k. apply zsum_perm. Qed.

Lemma zsum_map_add {A} (f g : A -> Z) l :
  zsum ((fun x => f x + g x) <$> l) = zsum (f <$> l) + zsum (g <$> l).
Proof. unfold zsum. induction l; csimpl in *; lia. Qed.

Lemma zsum_map_ext {A} (f g : A -> Z) l :
  (forall x, x ∈ l -> f x = g x) -> zsum (f <$> l) = zsum (g <$> l).
Proof.
  intros H. f_equal. apply list_fmap_ext. intros i x Hx. apply H.
  by apply list_elem_of_lookup_2 in Hx.
Qed.

Lemma zsum_map_le {A} (f g : A -> Z) l :
  (forall x, x ∈ l -> f x <= g x) -> zsum (f <$> l) <= zsum (g <$> l).
Proof.
  unfold zsum. induction l as [|a l IH]; csimpl; intros H; [lia|].
  pose proof (H a ltac:(set_solver)). pose proof (IH ltac:(set_solver)). lia.
Qed.

Lemma zsum_map_const {A} (c : Z) (l : list A) :
  zsum ((fun _ => c) <$> l) = c * Z.of_nat (length l).
Proof. unfold zsum. induction l; csimpl in *; lia. Qed.

Lemma zsum_map_upd {A} `{EqDecision A} (f g : A -> Z) (x : A) l :
  NoDup l -> x ∈ l -> (forall y, y ∈ l -> y <> x -> f y = g y) ->
  zsum (f <$> l) = zsum (g <$> l) - g x + f x.
Proof.
  unfold zsum. induction l as [|a l IH]; csimpl; intros Hnd Hx Hf; [set_solver|].
  apply NoDup_cons in Hnd as [Ha Hnd].
  destruct (decide (a = x)) as [->|Hne].
  - assert (H : zsum (f <$> l) = zsum (g <$> l)).
    { apply zsum_map_ext. intros y Hy. apply Hf; set_solver. }
    unfold zsum in H. lia.
  - rewrite (Hf a) by set_solver. specialize (IH Hnd ltac:(set_solver) ltac:(set_solver)). lia.
Qed.

Lemma filter_shrinks {A} (P : A -> Prop) `{forall x, Decision (P x)} (l : list A) :
  filter P l <> l -> (length (filter P l) < length l)%nat.
Proof.
  induction l as [|a l IH]; [done|]. rewrite filter_cons. case_decide; simpl.
  - intros Hne. apply -> Nat.succ_lt_mono. apply IH. congruence.
  - intros _. apply Nat.lt_succ_r, length_filter.
Qed.

Lemma filter_all {A} (P : A -> Prop) `{forall x, Decision (P x)} (l : list A) :
  (forall x, x ∈ l -> P x) -> filter P l = l.
Proof.
  induction l as [|a l IH]; [done|]. intros Hl. rewrite filter_cons_True by (apply Hl; set_solver).
  f_equal. apply IH. set_solver.
Qed.

Lemma NoDup_fmap_filter {A B} (f : A -> B) (P : A -> Prop) `{forall x, Decision (P x)} (l : list A) :
  NoDup (f <$> l) -> NoDup (f <$> filter P l).
Proof.
  induction l as [|a l IH]; [done|]. rewrite filter_cons. csimpl.
  intros [Ha Hl]%NoDup_cons. case_decide; csimpl; [|by auto].
  apply NoDup_cons. split; [|by auto]. intros (x & Hx & [_ Hin]%list_elem_of_filter)%list_elem_of_fmap.
  apply Ha. rewrite Hx. by apply list_elem_of_fmap_2.
Qed.

(** ** Lemmas on integers *)

Lemma ceil_div_spec a b : 0 < b -> b * (ceil_div a b - 1) < a <= b * ceil_div a b.
Proof. unfold ceil_div. intros H. pose proof (Z.div_mod (a + b - 1) b ltac:(lia)).
  pose proof (Z.mod_pos_bound (a + b - 1) b H). lia. Qed.

Lemma ceil_div_nonneg a b : 0 < b -> 0 <= a -> 0 <= ceil_div a b.
Proof. intros. unfold ceil_div. apply Z.div_pos; lia. Qed.

Lemma zmin_list_spec l :
  match zmin_list l with
  | None => l = []
  | Some m => m ∈ l /\ forall x, x ∈ l -> m <= x
  end.
Proof.
  destruct l as [|a l]; [done|]. unfold zmin_list.
  revert a. induction l as [|b l IH]; intros a; csimpl; [set_solver by lia|].
  destruct (IH (Z.min a b)) as [Hin Hle]. split.
  - apply elem_of_cons in Hin as [->|Hin]; [|set_solver].
    destruct (Z.min_spec a b) as [[_ ->]|[_ ->]]; set_solver.
  - intros x Hx. pose proof (Hle (Z.min a b) ltac:(set_solver)).
    rewrite !elem_of_cons in Hx. destruct Hx as [->|[->|Hx]]; [lia..|]. apply Hle. set_solver.
Qed.

(** ** Lemmas on dictionaries *)

Section dict_lemmas.
Context {K V : Type} `{EqDecision K}.
  Implicit Types (d : dict K V) (k : K) (v : V).

Lemma dget_dset_eq d k v : dget (dset d k v) k = Some v.
Proof.
    induction d as [|[k' v'] d IH]; simpl; [by rewrite decide_True|].
    destruct (decide (k = k')) as [->|]; simpl; [by rewrite decide_True|].
    by rewrite decide_False.
Qed.

Lemma dget_dset_ne d k k' v : k <> k' -> dget (dset d k v) k' = dget d k'.
Proof.
    intros Hne. induction d as [|[k1 v1] d IH]; simpl; [by rewrite decide_False|].
    destruct (decide (k = k1)) as [->|]; simpl.
    - by rewrite !decide_False.
    - by destruct (decide (k' = k1)).
Qed.

Lemma dget_dset d k k' v :
    dget (dset d k v) k' = if decide (k = k') then Some v else dget d k'.
Proof. case_decide; subst; auto using dget_dset_eq, dget_dset_ne. Qed.

Lemma dset_dset d k v v' : dset (dset d k v) k v' = dset d k v'.
Proof.
    induction d as [|[k1 v1] d IH]; simpl; [by rewrite decide_True|].
    destruct (decide (k = k1)) as [->|]; simpl; [by rewrite decide_True|].
    rewrite decide_False by done. by rewrite IH.
Qed.

Lemma dget_None d k : dget d k = None <-> k ∉ dkeys d.
Proof.
    induction d as [|[k' v] d IH]; simpl; [set_solver|].
    destruct (decide (k = k')) as [->|]; [set_solver|]. rewrite IH. set_solver.
Qed.

Lemma dget_Some_elem d k v : dget d k = Some v -> (k, v) ∈ d.
Proof.
    induction d as [|[k' v'] d IH]; simpl; [done|].
    destruct (decide (k = k')) as [->|]; intros H; simplify_eq; set_solver.
Qed.

Lemma dget_elem d k v : NoDup (dkeys d) -> (k, v) ∈ d -> dget d k = Some v.
Proof.
    induction d as [|[k' v'] d IH]; simpl; [set_solver|].
    intros [Hn Hd]%NoDup_cons [H|H]%elem_of_cons.
    - simplify_eq. by rewrite decide_True.
    - rewrite decide_False; [by auto|]. intros ->. apply Hn.
      apply list_elem_of_fmap. by exists (k', v).
Qed.

Lemma dkeys_dset_in d k v : k ∈ dkeys d -> dkeys (dset d k v) = dkeys d.
Proof.
    induction d as [|[k' v'] d IH]; simpl; [set_solver|]. intros Hk.
    destruct (decide (k = k')) as [->|]; simpl; [done|]. f_equal. apply IH. set_solver.
Qed.

Lemma dkeys_dset_notin d k v : k ∉ dkeys d -> dset d k v = d ++ [(k, v)].
Proof.
    induction d as [|[k' v'] d IH]; simpl; [done|]. intros Hk.
    rewrite decide_False by set_solver. f_equal. apply IH. set_solver.
Qed.

Lemma elem_dkeys_dset d k k' v : k' ∈ dkeys (dset d k v) <-> k' = k \/ k' ∈ dkeys d.
Proof.
    destruct (decide (k ∈ dkeys d)).
    - rewrite dkeys_dset_in by done. naive_solver.
    - rewrite dkeys_dset_notin by done. unfold dkeys. rewrite fmap_app. set_solver.
Qed.

Lemma NoDup_dkeys_dset d k v : NoDup (dkeys d) -> NoDup (dkeys (dset d k v)).
Proof.
    intros H. destruct (decide (k ∈ dkeys d)).
    - by rewrite dkeys_dset_in.
    - rewrite dkeys_dset_notin by done. unfold dkeys. rewrite fmap_app. simpl.
      apply NoDup_app. split; [done|]. split; [set_solver|]. apply NoDup_singleton.
Qed.

Lemma dget_is_Some d k : is_Some (dget d k) <-> k ∈ dkeys d.
Proof.
    rewrite <- not_eq_None_Some, dget_None.
    destruct (decide (k ∈ dkeys d)); naive_solver.
Qed.

Lemma dget_dupd d k k' f :
    dget (dupd d k f) k' = if decide (k = k') then f <$> dget d k' else dget d k'.
Proof.
    unfold dupd. destruct (dget d k) eqn:E.
    - rewrite dget_dset. case_decide; subst; by rewrite ?E.
    - case_decide; subst; by rewrite ?E.
Qed.

Lemma dkeys_dupd d k f : dkeys (dupd d k f) = dkeys d.
Proof.
    unfold dupd. destruct (dget d k) eqn:E; [|done].
    apply dkeys_dset_in, dget_is_Some. eauto.
Qed.
End dict_lemmas.

Lemma ddel_perm {K V} `{EqDecision K} (d : dict K V) k v : dget d k = Some v -> d ≡ₚ (k, v) :: ddel d k.
Proof.
  induction d as [|[k' v'] d IH]; simpl; [done|]. destruct (decide (k = k')) as [->|]; [by intros [= ->]|].
  intros Hd. rewrite (IH Hd) at 1. constructor.
Qed.

Lemma dget_ddel {K V} `{EqDecision K} (d : dict K V) k k' : NoDup (dkeys d) ->
  dget (ddel d k) k' = if decide (k = k') then None else dget d k'.
Proof.
  induction d as [|[k1 v1] d IH]; csimpl; [by case_decide|]. intros [Hn Hd]%NoDup_cons.
  destruct (decide (k = k1)) as [->|]; csimpl.
  - case_decide; [subst; by apply dget_None|]. by rewrite decide_False by congruence.
  - rewrite (IH Hd). repeat case_decide; congruence.
Qed.

#[export] Hint Resolve dget_dset_eq dget_dset_ne NoDup_dkeys_dset dget_Some_elem : hbf.

Lemma dsum_dset {K} `{EqDecision K} (d : dict K Z) k v v0 :
  dget d k = Some v0 -> zsum (dvals (dset d k v)) = zsum (dvals d) - v0 + v.
Proof.
  unfold zsum, dvals. induction d as [|[k' v'] d IH]; simpl; [done|].
  destruct (decide (k = k')); intros H; simplify_eq; csimpl; [lia|].
  specialize (IH H). simpl in *. lia.
Qed.

Lemma dsum_dset_or {K} `{EqDecision K} (d : dict K Z) k v :
  k ∈ dkeys d -> zsum (dvals (dset d k v)) = zsum (dvals d) - dget_or d k 0 + v.
Proof.
  intros [v0 H]%dget_is_Some. unfold dget_or. rewrite H. by apply dsum_dset.
Qed.

Lemma dget_or_dset {K V} `{EqDecision K} (d : dict K V) k k' v v0 :
  dget_or (dset d k v) k' v0 = if decide (k = k') then v else dget_or d k' v0.
Proof. unfold dget_or. rewrite dget_dset. by case_decide. Qed.

Lemma dsum_keys {K} `{EqDecision K} (d : dict K Z) :
  NoDup (dkeys d) -> zsum (dvals d) = zsum ((fun k => dget_or d k 0) <$> dkeys d).
Proof.
  intros Hd. unfold dvals, dkeys. rewrite <- list_fmap_compose. f_equal.
  apply list_fmap_ext. intros i [k v] Hi. simpl. unfold dget_or.
  rewrite (dget_elem d k v); [done|done|]. by apply list_elem_of_lookup_2 in Hi.
Qed.

Lemma dget_or_map {K V} `{EqDecision K} (f : K -> V) (l : list K) k v0 :
  k ∈ l -> dget_or ((fun k => (k, f k)) <$> l) k v0 = f k.
Proof.
  unfold dget_or. induction l as [|x l IH]; csimpl; [set_solver|]. intros Hk.
  destruct (decide (k = x)) as [->|]; [done|]. apply IH. set_solver.
Qed.

Lemma dkeys_map {K V} (f : K -> V) (l : list K) : dkeys ((fun k => (k, f k)) <$> l) = l.
Proof. unfold dkeys. rewrite <- list_fmap_compose. simpl. by rewrite list_fmap_id. Qed.

(** Distinct keys, and values that satisfy [Q]. *)
Definition dall {K V} `{EqDecision K} (Q : V -> Prop) (d : dict K V) : Prop :=
  NoDup (dkeys d) /\ forall k v, dget d k = Some v -> Q v.

Lemma dall_nil {K V} `{EqDecision K} (Q : V -> Prop) : dall Q ([] : dict K V).
Proof. split; [constructor|done]. Qed.

Lemma dall_dset {K V} `{EqDecision K} (Q : V -> Prop) (d : dict K V) k v : dall Q d -> Q v -> dall Q (dset d k v).
Proof.
  intros [H1 H2] Hv. split; [by apply NoDup_dkeys_dset|]. intros k' v'. rewrite dget_dset.
  case_decide; [by intros [= <-]|apply H2].
Qed.

Lemma dall_foldl {K V A} `{EqDecision K} (Q : V -> Prop) (f : dict K V -> A -> dict K V) l d :
  dall Q d -> (forall d x, x ∈ l -> dall Q d -> dall Q (f d x)) -> dall Q (foldl f d l).
Proof.
  revert d. induction l as [|x l IH]; intros d Hd Hl; [done|]. cbn [foldl]. apply IH; [apply Hl; set_solver|].
  intros d' y Hy. apply Hl. set_solver.
Qed.

Lemma dall_fmap {K V W} `{EqDecision K} (Q : V -> Prop) (R : W -> Prop) (g : V -> W) (d : dict K V) :
  dall Q d -> (forall v, Q v -> R (g v)) -> dall R ((fun '(k, v) => (k, g v)) <$> d).
Proof.
  intros [Hnd HQ] Hg. assert (Hk : dkeys ((fun '(k, v) => (k, g v)) <$> d) = dkeys d).
  { unfold dkeys. rewrite <- list_fmap_compose. apply list_fmap_ext. by intros ? [? ?] _. }
  split; [by rewrite Hk|]. intros k w Hw. apply dget_Some_elem, list_elem_of_fmap in Hw as ([k' v] & [= -> ->] & Hin).
  apply Hg, (HQ k'), dget_elem; done.
Qed.

Lemma dget_perm {K V} `{EqDecision K} (d d' : dict K V) k :
  NoDup (dkeys d) -> d ≡ₚ d' -> dget d k = dget d' k.
Proof.
  intros Hnd Hp. assert (Hnd' : NoDup (dkeys d')) by (unfold dkeys; by rewrite <- Hp).
  destruct (dget d k) as [v|] eqn:E.
  - symmetry. apply dget_elem; [done|]. rewrite <- Hp. by apply dget_Some_elem.
  - symmetry. apply dget_None. apply dget_None in E. unfold dkeys in *. by rewrite <- Hp.
Qed.

Lemma dindex_Ok {K V} `{EqDecision K} (d : dict K V) k v : dindex d k = Ok v <-> dget d k = Some v.
Proof. unfold dindex. destruct (dget d k); simpl; naive_solver. Qed.

(** ** Lemmas on the monads *)

Lemma bind_Ok {A B} (m : result A) (k : A -> result B) b :
  rbind m k = Ok b <-> exists a, m = Ok a /\ k a = Ok b.
Proof. destruct m; simpl; naive_solver. Qed.

Lemma ensure_Ok b e u : ensure b e = Ok u <-> b = true.
Proof. destruct b, u; simpl; naive_solver. Qed.

Lemma foldM_app {A B} (f : B -> A -> result B) l k b :
  foldM f (l ++ k) b = rbind (foldM f l b) (foldM f k).
Proof.
  revert b. induction l as [|x l IH]; intros b; simpl; [done|].
  destruct (f b x); simpl; [apply IH|done].
Qed.

Lemma lget_Ok {A} (l : list A) i x : l !! i = Some x -> lget l i = Ok x.
Proof. unfold lget. by intros ->. Qed.

Lemma lput_Ok {A} (l : list A) i x : (i < length l)%nat -> lput l i x = Ok (<[i := x]> l).
Proof. intros H. unfold lput. by rewrite bool_decide_eq_true_2. Qed.

(** Invariant rule for [foldM]: if every step succeeds from a state that
    satisfies [P] and re-establishes it, the whole loop succeeds. *)
Lemma foldM_inv {A B} (P : list A -> B -> Prop) (f : B -> A -> result B) l b :
  P [] b ->
  (forall done x todo b', l = done ++ x :: todo -> P done b' ->
     exists b'', f b' x = Ok b'' /\ P (done ++ [x]) b'') ->
  exists b', foldM f l b = Ok b' /\ P l b'.
Proof.
  intros H0 Hstep.
  enough (H : forall todo done b', l = done ++ todo -> P done b' ->
            exists b'', foldM f todo b' = Ok b'' /\ P l b'').
  { exact (H l [] b eq_refl H0). }
  induction todo as [|x todo IH]; intros done b' Hl HP; simpl.
  - rewrite app_nil_r in Hl. subst. eauto.
  - destruct (Hstep done x todo b' Hl HP) as (b'' & Hf & HP').
    rewrite Hf. apply (IH (done ++ [x])); [|done]. by rewrite <- app_assoc.
Qed.

(** Invariant rule for a [foldM] that is known to succeed. *)
Lemma foldM_Ok_ind {A B} (P : list A -> B -> Prop) (f : B -> A -> result B) l b b' :
  P [] b ->
  (forall done x todo b1 b2, l = done ++ x :: todo -> P done b1 -> f b1 x = Ok b2 -> P (done ++ [x]) b2) ->
  foldM f l b = Ok b' -> P l b'.
Proof.
  intros H0 Hstep.
  enough (H : forall todo done b1, l = done ++ todo -> P done b1 -> foldM f todo b1 = Ok b' -> P l b').
  { exact (H l [] b eq_refl H0). }
  induction todo as [|x todo IH]; intros done b1 Hl HP; simpl.
  - intros [= <-]. rewrite app_nil_r in Hl. by subst.
  - intros (b2 & Hf & Hrest)%bind_Ok. apply (IH (done ++ [x]) b2); [by rewrite <- app_assoc| |done]. eauto.
Qed.

Lemma sbind_step {S A B} (m : M S A) (k : A -> M S B) s a s' :
  m s = (Ok a, s') -> sbind m k s = k a s'.
Proof. unfold sbind. by intros ->. Qed.

Lemma sbind_raise {S A B} (m : M S A) (k : A -> M S B) s e s' :
  m s = (Raise e, s') -> sbind m k s = (Raise e, s').
Proof. unfold sbind. by intros ->. Qed.

Lemma sbind_assoc {S A B C} (m : M S A) (f : A -> M S B) (g : B -> M S C) s :
  sbind (sbind m f) g s = sbind m (fun a => sbind (f a) g) s.
Proof. unfold sbind. by destruct (m s) as [[a|e] s']. Qed.

Lemma lift_Ok {S A} (r : result A) (a : A) (s : S) : r = Ok a -> lift r s = (Ok a, s).
Proof. by intros ->. Qed.

Lemma require_Ok {S} (b : bool) e (s : S) : b = true -> require b e s = (Ok tt, s).
Proof. by intros ->. Qed.

Lemma mapS_inv {S A B} (P : list A -> list B -> S -> Prop) (f : A -> M S B) l s :
  P [] [] s ->
  (forall done x todo outs s', l = done ++ x :: todo -> P done outs s' ->
     exists b s'', f x s' = (Ok b, s'') /\ P (done ++ [x]) (outs ++ [b]) s'') ->
  exists outs s', mapS f l s = (Ok outs, s') /\ P l outs s'.
Proof.
  intros H0 Hstep.
  enough (H : forall todo done outs s', l = done ++ todo -> P done outs s' ->
            exists outs' s'', mapS f todo s' = (Ok outs', s'') /\ P l (outs ++ outs') s'').
  { destruct (H l [] [] s eq_refl H0) as (o & s' & ? & ?). eauto. }
  induction todo as [|x todo IH]; intros done outs s' Hl HP; simpl.
  - rewrite app_nil_r in Hl. subst. exists [], s'. by rewrite app_nil_r.
  - destruct (Hstep done x todo outs s' Hl HP) as (b & s'' & Hf & HP').
    destruct (IH (done ++ [x]) (outs ++ [b]) s'') as (o & s3 & Hm & HP3);
      [by rewrite <- app_assoc|done|].
    exists (b :: o), s3. unfold sbind. rewrite Hf, Hm. split; [done|].
    by rewrite <- app_assoc in HP3.
Qed.

Lemma foldS_inv {S A B} (P : list A -> B -> S -> Prop) (f : B -> A -> M S B) l b s :
  P [] b s ->
  (forall done x todo b' s', l = done ++ x :: todo -> P done b' s' ->
     exists b'' s'', f b' x s' = (Ok b'', s'') /\ P (done ++ [x]) b'' s'') ->
  exists b' s', foldS f l b s = (Ok b', s') /\ P l b' s'.
Proof.
  intros H0 Hstep.
  enough (H : forall todo done b' s', l = done ++ todo -> P done b' s' ->
            exists b'' s'', foldS f todo b' s' = (Ok b'', s'') /\ P l b'' s'').
  { exact (H l [] b s eq_refl H0). }
  induction todo as [|x todo IH]; intros done b' s' Hl HP; simpl.
  - rewrite app_nil_r in Hl. subst. by exists b', s'.
  - destruct (Hstep done x todo b' s' Hl HP) as (b'' & s'' & Hf & HP').
    destruct (IH (done ++ [x]) b'' s'') as (b3 & s3 & Hm & HP3); [by rewrite <- app_assoc|done|].
    exists b3, s3. unfold sbind. by rewrite Hf.
Qed.

(** Preservation rule for [foldS], whatever the outcome. *)
Lemma foldS_pres {S A B} (P : B -> S -> Prop) (I : S -> Prop) (f : B -> A -> M S B) l b s r s' :
  (forall b x s r s', P b s -> f b x s = (r, s') -> match r with Ok b' => P b' s' | Raise _ => I s' end) ->
  P b s -> foldS f l b s = (r, s') -> match r with Ok b' => P b' s' | Raise _ => I s' end.
Proof.
  intros Hf. revert b s. induction l as [|x l IH]; intros b s HP; cbn [foldS].
  - by intros [= <- <-].
  - unfold sbind. destruct (f b x s) as [[b1|e] s1] eqn:E; pose proof (Hf _ _ _ _ _ HP E) as H1; simpl in H1.
    + apply IH. done.
    + by intros [= <- <-].
Qed.

Lemma forM_inv {S A} (P : list A -> S -> Prop) (f : A -> M S unit) l s :
  P [] s ->
  (forall done x todo s', l = done ++ x :: todo -> P done s' ->
     exists s'', f x s' = (Ok tt, s'') /\ P (done ++ [x]) s'') ->
  exists s', forM l f s = (Ok tt, s') /\ P l s'.
Proof.
  intros H0 Hstep.
  enough (H : forall todo done s', l = done ++ todo -> P done s' ->
            exists s'', forM todo f s' = (Ok tt, s'') /\ P l s'').
  { exact (H l [] s eq_refl H0). }
  induction todo as [|x todo IH]; intros done s' Hl HP; simpl.
  - rewrite app_nil_r in Hl. subst. by exists s'.
  - destruct (Hstep done x todo s' Hl HP) as (s'' & Hf & HP').
    destruct (IH (done ++ [x]) s'') as (s3 & Hm & HP3); [by rewrite <- app_assoc|done|].
    exists s3. unfold sbind. by rewrite Hf.
Qed.

Lemma mapR_Ok {A B} (f : A -> result B) l l' :
  mapR f l = Ok l' <-> Forall2 (fun x y => f x = Ok y) l l'.
Proof.
  revert l'. induction l as [|x l IH]; intros l'; simpl.
  - split; [intros [= <-]; constructor|]. by inversion 1.
  - rewrite bind_Ok. split.
    + intros (y & Hy & (ys & Hys & [= <-])%bind_Ok). constructor; [done|]. by apply IH.
    + inversion 1 as [|? y ? ys Hy Hys]; subst. exists y. split; [done|].
      apply bind_Ok. exists ys. split; [by apply IH|done].
Qed.

Lemma mapR_total {A B} (f : A -> result B) l :
  (forall x, x ∈ l -> exists y, f x = Ok y) -> exists ys, mapR f l = Ok ys.
Proof.
  induction l as [|x l IH]; simpl; [eauto|]. intros H.
  destruct (H x ltac:(set_solver)) as [y ->], IH as [ys ->]; [set_solver|]. simpl. eauto.
Qed.

(** The keys of a dictionary built entry by entry from a list of keys. *)
Lemma mapR_keys {K V W} `{EqDecision K} (g : W -> K) (h : W -> result (K * V)) l d :
  (forall x k v, h x = Ok (k, v) -> k = g x) -> mapR h l = Ok d -> dkeys d = g <$> l.
Proof.
  intros Hg. rewrite mapR_Ok. induction 1 as [|x [k v] l d H Hf IH]; [done|]. csimpl. rewrite IH. f_equal. by apply Hg in H.
Qed.

Lemma mapR_elem {A B} (h : A -> result B) l d y : mapR h l = Ok d -> y ∈ d -> exists x, x ∈ l /\ h x = Ok y.
Proof.
  rewrite mapR_Ok. induction 1 as [|x z l d H Hf IH]; [set_solver|].
  intros [->|Hy]%elem_of_cons; [exists x; set_solver|]. destruct (IH Hy) as (x' & ? & ?). exists x'. set_solver.
Qed.

Lemma mapR_ran {A B} (h : A -> result B) l d x : mapR h l = Ok d -> x ∈ l -> exists y, h x = Ok y.
Proof.
  rewrite mapR_Ok. induction 1 as [|z y l d H Hf IH]; [set_solver|].
  intros [->|Hx]%elem_of_cons; [by exists y|by apply IH].
Qed.

(** A loop whose body keeps [P] and decreases the measure [mu] leaves within
    [mu s + 1] rounds, with a result that satisfies [Q]. *)
Section ploop.
Context {S A : Type} (step : S -> result (S + A)) (P : S -> Prop) (Q : A -> Prop) (mu : S -> Z).
Context (Hstep : forall s, P s ->
  exists r, step s = Ok r /\ match r with inl s' => P s' /\ mu s' < mu s | inr a => Q a end).

Lemma ploop_progress p s : P s ->
  exists r, ploop p step s = Ok r /\ match r with inl s' => P s' /\ mu s' + Zpos p <= mu s | inr a => Q a end.
Proof using Hstep.
  revert s. induction p as [q IH|q IH|]; intros s HP; cbn [ploop].
  - destruct (Hstep s HP) as (r & -> & Hr). cbn [rbind]. destruct r as [s1|a]; [|by exists (inr a)].
    destruct Hr as [HP1 Hm1]. destruct (IH s1 HP1) as (r & -> & Hr). cbn [rbind]. destruct r as [s2|a]; [|by exists (inr a)].
    destruct Hr as [HP2 Hm2]. destruct (IH s2 HP2) as (r & -> & Hr). exists r. split; [done|].
    destruct r; [|done]. destruct Hr. split; [done|lia].
  - destruct (IH s HP) as (r & -> & Hr). cbn [rbind]. destruct r as [s1|a]; [|by exists (inr a)].
    destruct Hr as [HP1 Hm1]. destruct (IH s1 HP1) as (r & -> & Hr). exists r. split; [done|].
    destruct r; [|done]. destruct Hr. split; [done|lia].
  - destruct (Hstep s HP) as (r & -> & Hr). exists r. split; [done|]. destruct r; [|done]. destruct Hr. split; [done|lia].
Qed.

Lemma ploop_terminates p s : P s -> 0 <= mu s -> mu s < Zpos p -> (forall s', P s' -> 0 <= mu s') ->
  exists a, ploop p step s = Ok (inr a) /\ Q a.
Proof using Hstep.
  intros HP H0 Hlt Hnn. destruct (ploop_progress p s HP) as (r & Hr & Hc). destruct r as [s'|a]; [|eauto].
  destruct Hc as [HP' Hm]. specialize (Hnn s' HP'). lia.
Qed.
End ploop.

(** Sums over a finite map. *)
Section msum.
Context {K V : Type} `{Countable K} (f : K -> V -> Z).
Definition msum (m : gmap K V) : Z := map_fold (fun k v n => f k v + n) 0 m.

Lemma msum_insert_new m k v : m !! k = None -> msum (<[k := v]> m) = f k v + msum m.
Proof.
  intros Hk. unfold msum. apply (map_fold_insert_L (fun k v n => f k v + n)); [|done]. intros. lia.
Qed.

Lemma msum_delete m k v : m !! k = Some v -> msum (delete k m) = msum m - f k v.
Proof.
  intros Hk. rewrite <- (insert_delete_id m k v Hk) at 2. rewrite msum_insert_new by apply lookup_delete_eq. lia.
Qed.

Lemma msum_insert m k v v' : m !! k = Some v -> msum (<[k := v']> m) = msum m - f k v + f k v'.
Proof.
  intros Hk. rewrite <- insert_delete_eq, msum_insert_new by apply lookup_delete_eq. rewrite (msum_delete m k v Hk). lia.
Qed.

Lemma msum_empty : msum ∅ = 0.
Proof. done. Qed.

Lemma msum_ext m m' : (forall k, option_map (f k) (m !! k) = option_map (f k) (m' !! k)) -> msum m = msum m'.
Proof.
  revert m'. induction m as [|k v m Hk IH] using map_ind; intros m' Hf.
  - assert (m' = ∅) as ->; [|done]. apply map_empty. intros k. specialize (Hf k). rewrite lookup_empty in Hf.
    by destruct (m' !! k).
  - pose proof (Hf k) as Hm. rewrite lookup_insert_eq in Hm. destruct (m' !! k) as [v'|] eqn:E; [|done].
    injection Hm as Hm. rewrite msum_insert_new by done. rewrite (IH (delete k m')).
    + rewrite (msum_delete _ _ _ E). lia.
    + intros k'. specialize (Hf k'). destruct (decide (k = k')) as [<-|]; [by rewrite Hk, lookup_delete_eq|].
      by rewrite lookup_delete_ne, lookup_insert_ne in * by done.
Qed.

Lemma msum_filter m (P : K * V -> Prop) `{forall x, Decision (P x)} :
  (forall k v, m !! k = Some v -> ~ P (k, v) -> f k v = 0) -> msum (filter P m) = msum m.
Proof.
  induction m as [|k v m Hk IH] using map_ind; intros Hm; [by rewrite map_filter_empty|].
  assert (Hrest : msum (filter P m) = msum m).
  { apply IH. intros k' v' Hv. apply Hm. rewrite lookup_insert_ne; [done|congruence]. }
  rewrite msum_insert_new by done. destruct (decide (P (k, v))) as [Hp|Hp].
  - rewrite map_filter_insert_True by done. rewrite msum_insert_new by (by apply map_lookup_filter_None_2; left). lia.
  - rewrite map_filter_insert_False by done. rewrite delete_id by done.
    rewrite (Hm k v) by (rewrite ?lookup_insert_eq; done). lia.
Qed.

Lemma msum_nonneg m : (forall k v, m !! k = Some v -> 0 <= f k v) -> 0 <= msum m.
Proof.
  induction m as [|k v m Hk IH] using map_ind; intros Hm; [done|]. rewrite msum_insert_new by done.
  pose proof (Hm k v ltac:(by rewrite lookup_insert_eq)). enough (0 <= msum m) by lia. apply IH. intros k' v' Hv.
  apply (Hm k' v'). rewrite lookup_insert_ne; [done|congruence].
Qed.
End msum.

(** ** More on dictionaries, sums and sorted lists *)

Lemma NoDup_dkeys_ddel {K V} `{EqDecision K} (d : dict K V) k : NoDup (dkeys d) -> NoDup (dkeys (ddel d k)).
Proof.
  intros Hn. destruct (dget d k) as [v|] eqn:E.
  - assert (Hp : dkeys d ≡ₚ k :: dkeys (ddel d k)) by (unfold dkeys; by rewrite (ddel_perm _ _ _ E) at 1).
    rewrite Hp in Hn. by apply NoDup_cons in Hn as [_ ?].
  - enough (ddel d k = d) as -> by done. clear Hn. induction d as [|[k' v'] d IH]; [done|]. cbn [dget ddel] in *.
    case_decide; [done|]. by rewrite IH.
Qed.

Lemma zsum_map_lt {A} (f g : A -> Z) l x : (forall x, x ∈ l -> f x <= g x) -> x ∈ l -> f x < g x ->
  zsum (f <$> l) < zsum (g <$> l).
Proof.
  intros Hle Hin Hlt. induction l as [|a l IH]; [by apply not_elem_of_nil in Hin|].
  rewrite !fmap_cons. cbn [zsum foldr]. fold (zsum (f <$> l)) (zsum (g <$> l)).
  pose proof (Hle a ltac:(set_solver)) as Ha. apply elem_of_cons in Hin as [->|Hin].
  - assert (zsum (f <$> l) <= zsum (g <$> l)) by (apply zsum_map_le; intros y Hy; apply Hle; set_solver). lia.
  - assert (zsum (f <$> l) < zsum (g <$> l)) by (apply IH; [intros y Hy; apply Hle; set_solver|done]). lia.
Qed.

Lemma fmap_Forall2 {A B} (f g : A -> B) l l' : Forall2 (fun x y => f x = g y) l l' -> f <$> l = g <$> l'.
Proof. induction 1 as [|x y l l' E Hl IH]; [done|]. by rewrite !fmap_cons, E, IH. Qed.

Lemma sorted_fmap {A B} (le : B -> B -> bool) (f : A -> B) l : sorted le (f <$> l) -> sorted (fun a b => le (f a) (f b)) l.
Proof. induction l as [|a l IH]; [done|]. rewrite fmap_cons. cbn [sorted]. rewrite Forall_fmap. intros [H1 H2]. auto. Qed.

Lemma dset_cases {K V} `{EqDecision K} (d : dict K V) id x id' y : dget (dset d id x) id' = Some y ->
  (id' = id /\ y = x) \/ (id' <> id /\ dget d id' = Some y).
Proof. rewrite dget_dset. case_decide as E; [intros [= <-]; left; auto|right; auto]. Qed.

Lemma imap_pair_sorted {A} (l : list A) : fst <$> imap pair l = seq 0 (length l).
Proof.
  apply list_eq. intros i. rewrite list_lookup_fmap, list_lookup_imap. destruct (l !! i) as [x|] eqn:E; cbn.
  - apply lookup_lt_Some in E. by rewrite lookup_seq_lt.
  - apply lookup_ge_None in E. by rewrite lookup_seq_ge.
Qed.

Lemma seq_sorted n k : sorted Nat.leb (seq n k).
Proof.
  revert n. induction k as [|k IH]; intros n; [done|]. cbn [seq sorted]. split; [|apply IH]. apply Forall_forall.
  intros x Hx%elem_of_seq. apply Nat.leb_le. lia.
Qed.

Lemma dvals_Forall2 {V W} (R : V -> W -> Prop) (d : dict string V) (e : dict string W) : dkeys d = dkeys e -> NoDup (dkeys d) ->
  (forall id x y, dget d id = Some x -> dget e id = Some y -> R x y) -> Forall2 R (dvals d) (dvals e).
Proof.
  revert e. induction d as [|[k x] d IH]; intros [|[k' y] e] Hk Hnd HR; try done.
  unfold dkeys in *. rewrite !fmap_cons in *. cbn [fst] in *. injection Hk as <- Hk. apply NoDup_cons in Hnd as [Hnin Hnd]. constructor.
  - apply (HR k); cbn [dget]; by rewrite decide_True.
  - apply IH; [done|done|]. intros id x' y' Hx Hy. assert (Hne : id <> k).
    { intros ->. apply Hnin. apply dget_Some_elem in Hx. apply list_elem_of_fmap. by exists (k, x'). }
    apply (HR id); cbn [dget]; by rewrite decide_False.
Qed.

(** ** Separators in strings *)

Lemma string_app_assoc (a b c : string) : (a +:+ b) +:+ c = a +:+ b +:+ c.
Proof. induction a as [|x a IH]; [done|]. change (String x ((a +:+ b) +:+ c) = String x (a +:+ b +:+ c)). by rewrite IH. Qed.
Lemma string_app_inv_head (a s t : string) : a +:+ s = a +:+ t -> s = t.
Proof. induction a as [|c a IH]; [done|]. intros [= E]. auto. Qed.

Definition colon : Ascii.ascii := Ascii.ascii_of_nat 58.
Definition dot : Ascii.ascii := Ascii.ascii_of_nat 46.

(** A string without the separator [c] is recovered from the text before the
    first separator. *)
Fixpoint free (c : Ascii.ascii) (s : string) : bool :=
  match s with EmptyString => true | String d s' => negb (Ascii.eqb d c) && free c s' end.
Notation no_colon := (free colon).

Lemma separator_inj c a b s t : free c a = true -> free c b = true -> a +:+ String c s = b +:+ String c t -> a = b /\ s = t.
Proof.
  assert (Hc : Ascii.eqb c c = true) by apply Ascii.eqb_refl.
  revert b. induction a as [|x a IH]; intros [|y b] Ha Hb E; cbn in *.
  - by injection E.
  - injection E as <- _. by rewrite Hc in Hb.
  - injection E as -> _. by rewrite Hc in Ha.
  - apply andb_true_iff in Ha as [_ Ha], Hb as [_ Hb]. injection E as -> E. destruct (IH b Ha Hb E) as [-> ->]. done.
Qed.

Lemma colon_inj a b s t : no_colon a = true -> no_colon b = true -> a +:+ ":" +:+ s = b +:+ ":" +:+ t -> a = b /\ s = t.
Proof. apply (separator_inj colon). Qed.

Section free.
Context (c : Ascii.ascii) (Hdigits : forall x, Ascii.eqb (pretty_N_char x) c = false) (Hminus : Ascii.eqb (Ascii.ascii_of_nat 45) c = false).

Lemma pretty_N_go_free x s : free c s = true -> free c (pretty_N_go x s) = true.
Proof using Hdigits.
  revert s. induction x as [x IH] using (well_founded_induction N.lt_wf_0). intros s Hs.
  destruct (decide (0 < x)%N) as [Hx|Hx]; [|assert (x = 0%N) as -> by lia; by rewrite pretty_N_go_0].
  rewrite pretty_N_go_step by done. apply IH; [apply N.div_lt; lia|]. cbn. by rewrite Hdigits.
Qed.

Lemma pretty_free (z : Z) : free c (pretty z) = true.
Proof using All.
  assert (HN : forall n : N, free c (pretty n) = true).
  { intros n. unfold pretty, pretty_N. case_decide; [|by apply pretty_N_go_free]. change (negb (Ascii.eqb (pretty_N_char 0) c) && true = true). by rewrite Hdigits. }
  destruct z as [|p|p]; [apply (HN 0%N)|apply HN|]. 
  change (negb (Ascii.eqb (Ascii.ascii_of_nat 45) c) && free c (pretty (Npos p)) = true). rewrite Hminus. apply HN.
Qed.
End free.

Lemma pretty_colon (z : Z) : no_colon (pretty z) = true.
Proof. apply pretty_free; [|done]. intros x. unfold pretty_N_char. repeat case_match; done. Qed.
Lemma pretty_dot (z : Z) : free dot (pretty z) = true.
Proof. apply pretty_free; [|done]. intros x. unfold pretty_N_char. repeat case_match; done. Qed.


(** Simplify hypotheses about successful computations. *)
Ltac inv_ok :=
  repeat match goal with
  | H : rbind _ _ = Ok _ |- _ => apply bind_Ok in H; destruct H as (? & ? & H)
  | H : ensure _ _ = Ok _ |- _ => apply ensure_Ok in H
  | H : Ok _ = Ok _ |- _ => injection H as H; subst
  | H : Raise _ = Ok _ |- _ => discriminate H
  | H : andb _ _ = true |- _ => apply andb_prop in H; destruct H
  | H : bool_decide _ = true |- _ => apply bool_decide_eq_true in H
  end.

(** Peel one check off an intake; a failed check leaves the state as it was. *)
Ltac peel E x Ex :=
  match type of E with
  | sbind (lift ?m) _ ?f = _ =>
      destruct m as [x|?] eqn:Ex;
      [rewrite (sbind_step _ _ _ _ _ (lift_Ok _ _ f eq_refl)) in E; cbn beta iota in E|by injection E as _ <-]
  end.
Ltac peel_guard E Ex :=
  match type of E with
  | sbind (require ?b _) _ ?f = _ =>
      destruct b eqn:Ex; [rewrite (sbind_step _ _ _ _ _ (require_Ok true _ f eq_refl)) in E|by injection E as _ <-]
  end.

(** Peel one step off a computation that is known to succeed. *)
Ltac peel_ok E x Ex :=
  match type of E with
  | sbind (lift ?m) _ ?f = _ =>
      destruct m as [x|?] eqn:Ex;
      [rewrite (sbind_step _ _ _ _ _ (lift_Ok _ _ f eq_refl)) in E; cbn beta iota in E|discriminate E]
  end.
Ltac peel_ok_guard E Ex :=
  match type of E with
  | sbind (require ?b _) _ ?f = _ =>
      destruct b eqn:Ex; [rewrite (sbind_step _ _ _ _ _ (require_Ok true _ f eq_refl)) in E|discriminate E]
  end.
