(* ===== verification/ProgramLogic.v ===== *)
(** * ProgramLogic: postconditions for the state-and-exception monad

    A weakest-precondition style logic for the monad [M] of the prelude.  It is
    parameterised by the exceptions that are accepted as outcomes ([fault], of an
    exception and the state it is raised in), so that one proof of a component
    shows both what its results satisfy and when it can raise which exceptions. *)

From S2P Require Import Prelude.

Module ProgramLogic.

(** A [while] loop: [body] returns [Some] to leave it. *)
Fixpoint loop {S A} (fuel : nat) (body : M S (option A)) : M S A :=
  match fuel with
  | O => raise OutOfFuel
  | Datatypes.S fuel' => let! r := body in match r with Some a => sret a | None => loop fuel' body end
  end.

(** At most [p] rounds of such a loop; the bound is binary. *)
Fixpoint rounds {S A} (p : positive) (body : M S (option A)) : M S (option A) :=
  match p with
  | xH => body
  | xO q => let! r := rounds q body in match r with Some a => sret (Some a) | None => rounds q body end
  | xI q =>
      let! r := body in
      match r with
      | Some a => sret (Some a)
      | None => let! r := rounds q body in match r with Some a => sret (Some a) | None => rounds q body end
      end
  end.
Definition bloop {S A} (p : positive) (body : M S (option A)) : M S A :=
  let! r := rounds p body in lift (of_option OutOfFuel r).

Section logic.
Context {St : Type} {fault : exn -> St -> Prop}.

(** [wp m Q s]: from [s], [m] returns a value and a state that satisfy [Q], or
    raises a fault. *)
Definition wp {A} (m : M St A) (Q : A -> St -> Prop) (s : St) : Prop :=
  match m s with (Ok a, s') => Q a s' | (Raise e, s') => fault e s' end.

Lemma wp_bind {A B} (m : M St A) (k : A -> M St B) Q s : wp m (fun a s' => wp (k a) Q s') s -> wp (sbind m k) Q s.
Proof. unfold wp, sbind. by destruct (m s) as [[a|e] s']. Qed.
Lemma wp_mono {A} (m : M St A) (Q R : A -> St -> Prop) s : wp m Q s -> (forall a s', Q a s' -> R a s') -> wp m R s.
Proof. unfold wp. destruct (m s) as [[a|e] s']; auto. Qed.
Lemma wp_ret {A} (a : A) (Q : A -> St -> Prop) s : Q a s -> wp (sret a) Q s.
Proof. done. Qed.
Lemma wp_get (Q : St -> St -> Prop) s : Q s s -> wp get Q s.
Proof. done. Qed.
Lemma wp_put s' (Q : unit -> St -> Prop) s : Q tt s' -> wp (put s') Q s.
Proof. done. Qed.
Lemma wp_modify f (Q : unit -> St -> Prop) s : Q tt (f s) -> wp (modify f) Q s.
Proof. done. Qed.
Lemma wp_lift {A} (r : result A) a (Q : A -> St -> Prop) s : r = Ok a -> Q a s -> wp (lift r) Q s.
Proof. by intros ->. Qed.
Lemma wp_require b e (Q : unit -> St -> Prop) s :
  (b = false -> fault e s) -> (b = true -> Q tt s) -> wp (require b e) Q s.
Proof. unfold wp, require, lift, ensure. destruct b; auto. Qed.

Lemma wp_raise {A} e (Q : A -> St -> Prop) s : fault e s -> wp (raise e) Q s.
Proof. done. Qed.

Lemma wp_forM {A} (P : list A -> St -> Prop) (f : A -> M St unit) l s :
  P [] s ->
  (forall done x todo s', l = done ++ x :: todo -> P done s' -> wp (f x) (fun _ => P (done ++ [x])) s') ->
  wp (forM l f) (fun _ => P l) s.
Proof.
  intros H0 Hf. enough (H : forall todo done s', l = done ++ todo -> P done s' -> wp (forM todo f) (fun _ => P l) s')
    by exact (H l [] s eq_refl H0).
  induction todo as [|x todo IH]; intros done s' Hl HP; cbn [forM].
  - rewrite app_nil_r in Hl. by subst.
  - apply wp_bind. eapply wp_mono; [by eapply Hf|]. intros [] s'' HP'. apply (IH (done ++ [x])); [|done].
    by rewrite <- app_assoc.
Qed.

(** A loop whose body keeps [P] and decreases [mu] leaves within [mu s + 1]
    rounds. *)
Lemma wp_loop {A} (P : St -> Prop) (mu : St -> nat) (Q : A -> St -> Prop) body fuel s :
  (forall s, P s -> wp body (fun r s' => match r with Some a => Q a s' | None => P s' /\ (mu s' < mu s)%nat end) s) ->
  P s -> (mu s < fuel)%nat -> wp (loop fuel body) Q s.
Proof.
  intros Hb. revert s. induction fuel as [|fuel IH]; intros s HP Hlt; [lia|]. cbn [loop]. apply wp_bind.
  eapply wp_mono; [by apply Hb|]. intros [a|] s' H; [by apply wp_ret|]. destruct H. apply IH; [done|lia].
Qed.

(** The same with an integer measure and the binary bound. *)
Lemma wp_rounds {A} (P : St -> Prop) (mu : St -> Z) (Q : A -> St -> Prop) body p :
  (forall s, P s -> wp body (fun r s' => match r with Some a => Q a s' | None => P s' /\ mu s' < mu s end) s) ->
  forall s, P s -> wp (rounds p body) (fun r s' => match r with Some a => Q a s' | None => P s' /\ mu s' + Zpos p <= mu s end) s.
Proof.
  intros Hb. assert (Htwice : forall (m : M St (option A)) n n' s, 
    (forall s, P s -> wp m (fun r s' => match r with Some a => Q a s' | None => P s' /\ mu s' + n <= mu s end) s) -> P s -> n' = n + n ->
    wp (let! r := m in match r with Some a => sret (Some a) | None => m end)
      (fun r s' => match r with Some a => Q a s' | None => P s' /\ mu s' + n' <= mu s end) s).
  { intros m n n' s Hm HP ->. apply wp_bind. eapply wp_mono; [by apply Hm|]. intros [a|] s1 H1; [by apply wp_ret|]. destruct H1 as [H1 Hlt].
    eapply wp_mono; [by apply Hm|]. intros [a|] s2 H2; [done|]. destruct H2. split; [done|lia]. }
  induction p as [q IH|q IH|]; intros s HP; cbn [rounds].
  - apply wp_bind. eapply wp_mono; [by apply Hb|]. intros [a|] s1 H1; [by apply wp_ret|]. destruct H1 as [H1 Hlt].
    eapply wp_mono; [by apply (Htwice _ (Zpos q) (2 * Zpos q)); [exact IH|done|lia]|].
    intros [a|] s2 H2; [done|]. destruct H2. split; [done|lia].
  - apply (Htwice _ (Zpos q)); [exact IH|done|lia].
  - eapply wp_mono; [by apply Hb|]. intros [a|] s1 H1; [done|]. destruct H1. split; [done|lia].
Qed.

Lemma wp_bloop {A} (P : St -> Prop) (mu : St -> Z) (Q : A -> St -> Prop) body p s :
  (forall s, P s -> wp body (fun r s' => match r with Some a => Q a s' | None => P s' /\ mu s' < mu s end) s) ->
  (forall s, P s -> 0 <= mu s) -> P s -> mu s < Zpos p -> wp (bloop p body) Q s.
Proof.
  intros Hb H0 HP Hlt. unfold bloop. apply wp_bind. eapply wp_mono; [by apply (wp_rounds P mu Q)|].
  intros [a|] s' H; [exact H|]. destruct H as [HP' Hle]. specialize (H0 s' HP'). lia.
Qed.

Lemma wp_mapS {A B} (P : list A -> list B -> St -> Prop) (f : A -> M St B) l s :
  P [] [] s ->
  (forall done x todo outs s', l = done ++ x :: todo -> P done outs s' ->
     wp (f x) (fun b => P (done ++ [x]) (outs ++ [b])) s') ->
  wp (mapS f l) (P l) s.
Proof.
  intros H0 Hf. enough (H : forall todo done outs s', l = done ++ todo -> P done outs s' ->
    wp (mapS f todo) (fun o => P l (outs ++ o)) s') by exact (H l [] [] s eq_refl H0).
  induction todo as [|x todo IH]; intros done outs s' Hl HP; cbn [mapS].
  - rewrite app_nil_r in Hl. subst. apply wp_ret. by rewrite app_nil_r.
  - apply wp_bind. eapply wp_mono; [by eapply Hf|]. intros b s'' HP'. apply wp_bind.
    eapply wp_mono; [apply (IH (done ++ [x]) (outs ++ [b])); [by rewrite <- app_assoc|done]|].
    intros o s3 H3. apply wp_ret. cbn beta in H3. by rewrite <- app_assoc in H3.
Qed.

Lemma wp_foldS {A B} (P : list A -> B -> St -> Prop) (f : B -> A -> M St B) l b s :
  P [] b s ->
  (forall done x todo b' s', l = done ++ x :: todo -> P done b' s' -> wp (f b' x) (P (done ++ [x])) s') ->
  wp (foldS f l b) (P l) s.
Proof.
  intros H0 Hf. enough (H : forall todo done b' s', l = done ++ todo -> P done b' s' -> wp (foldS f todo b') (P l) s')
    by exact (H l [] b s eq_refl H0).
  induction todo as [|x todo IH]; intros done b' s' Hl HP; cbn [foldS].
  - rewrite app_nil_r in Hl. by subst.
  - apply wp_bind. eapply wp_mono; [by eapply Hf|]. intros b'' s'' HP'. apply (IH (done ++ [x])); [|done].
    by rewrite <- app_assoc.
Qed.

(** A computation on a part of the state ([embed] puts the part back). *)
Lemma wp_zoom {Sub A} (proj : St -> Sub) (embed : Sub -> St -> St) (m : M Sub A) (Q : A -> St -> Prop) s :
  match m (proj s) with (Ok a, v) => Q a (embed v s) | (Raise e, v) => fault e (embed v s) end ->
  wp (fun s => let '(r, v) := m (proj s) in (r, embed v s)) Q s.
Proof. unfold wp. by destruct (m (proj s)) as [[a|e] v]. Qed.

Lemma wp_assoc {A B D} (m : M St A) (f : A -> M St B) (g : B -> M St D) Q s :
  wp (sbind (sbind m f) g) Q s -> wp (sbind m (fun a => sbind (f a) g)) Q s.
Proof. unfold wp. by rewrite sbind_assoc. Qed.

End logic.
Arguments wp {St} fault {A} m Q s.

(** Symbolic execution of the operations that cannot fail. *)
Ltac wp_step :=
  lazymatch goal with
  | |- wp _ (sbind _ _) _ _ => apply wp_bind
  | |- wp _ (sret _) _ _ => apply wp_ret
  | |- wp _ get _ _ => apply wp_get
  | |- wp _ (put _) _ _ => apply wp_put
  | |- wp _ (modify _) _ _ => apply wp_modify
  end.
Ltac wp_steps := repeat wp_step.

End ProgramLogic.
