(* ===== verification/PyFloat.v ===== *)
(** * Python numbers

    Python's [float] is IEEE-754 binary64, here the standard library's
    [spec_float] at precision 53 with round-to-nearest-even; [int / int] is
    the correctly rounded quotient of the exact integers, and mixing an [int]
    into a float operation first rounds it to the nearest float. *)

From S2P Require Import Prelude.

Definition prec : Z := 53.
Definition emax : Z := 1024.

(** [float(z)]; an integer that rounds beyond the largest float raises. *)
Definition float_of_int (z : Z) : result spec_float :=
  match binary_normalize prec emax z 0 false with
  | S754_infinity _ => Raise (OverflowError "int too large to convert to float")
  | f => Ok f
  end.

(** [a / b] of two integers. *)
Definition int_truediv (a b : Z) : result spec_float :=
  if b =? 0 then Raise ZeroDivisionError else
  let s := xorb (a <? 0) (b <? 0) in
  match Z.abs a, Z.abs b with
  | Zpos ma, Zpos mb =>
      let '(mz, ez, lz) := SFdiv_core_binary prec emax (Zpos ma) 0 (Zpos mb) 0 in
      match binary_round_aux prec emax s mz ez lz with
      | S754_infinity _ => Raise (OverflowError "integer division result too large for a float")
      | f => Ok f
      end
  | _, _ => Ok (S754_zero s)
  end.

Definition fmul (x y : spec_float) : spec_float := SFmul prec emax x y.
Definition fadd (x y : spec_float) : spec_float := SFadd prec emax x y.
Definition fsub (x y : spec_float) : spec_float := SFsub prec emax x y.
Definition flt (x y : spec_float) : bool := SFltb x y.
Definition fleb (x y : spec_float) : bool := SFleb x y.
Definition feq (x y : spec_float) : bool := SFeqb x y.

(** [a / b] of two floats. *)
Definition fdiv (x y : spec_float) : result spec_float :=
  match y with
  | S754_zero _ => Raise ZeroDivisionError
  | _ => Ok (SFdiv prec emax x y)
  end.

(** [math.floor]; the value of [S754_finite s m e] is [m * 2^e] with sign [s]. *)
Definition float_floor (f : spec_float) : result Z :=
  match f with
  | S754_zero _ => Ok 0
  | S754_finite s m e =>
      let z := if s then Zneg m else Zpos m in
      Ok (if 0 <=? e then z * 2 ^ e else z / 2 ^ (- e))
  | S754_infinity _ => Raise (OverflowError "cannot convert float infinity to integer")
  | S754_nan => Raise (ValueError "cannot convert float NaN to integer")
  end.

(** [math.ceil]. *)
Definition float_ceil (f : spec_float) : result Z :=
  match f with
  | S754_zero _ => Ok 0
  | S754_finite s m e =>
      let z := if s then Zneg m else Zpos m in
      Ok (if 0 <=? e then z * 2 ^ e else - ((- z) / 2 ^ (- e)))
  | S754_infinity _ => Raise (OverflowError "cannot convert float infinity to integer")
  | S754_nan => Raise (ValueError "cannot convert float NaN to integer")
  end.

(** [int(f)]: truncation toward zero. *)
Definition float_trunc (f : spec_float) : result Z :=
  match f with
  | S754_zero _ => Ok 0
  | S754_finite s m e =>
      let a := if 0 <=? e then Zpos m * 2 ^ e else Zpos m / 2 ^ (- e) in
      Ok (if s then - a else a)
  | S754_infinity _ => Raise (OverflowError "cannot convert float infinity to integer")
  | S754_nan => Raise (ValueError "cannot convert float NaN to integer")
  end.

(** Python compares an [int] with a [float] by their exact values; every
    comparison with NaN is false. *)
Definition cmp_int_float (z : Z) (f : spec_float) : option comparison :=
  match f with
  | S754_nan => None
  | S754_infinity s => Some (if s then Gt else Lt)
  | S754_zero _ => Some (z ?= 0)
  | S754_finite s m e =>
      let v := if s then Zneg m else Zpos m in
      Some (if 0 <=? e then z ?= v * 2 ^ e else z * 2 ^ (- e) ?= v)
  end.
Definition int_ge_float (z : Z) (f : spec_float) : bool :=
  match cmp_int_float z f with Some (Gt | Eq) => true | _ => false end.
Definition int_gt_float (z : Z) (f : spec_float) : bool :=
  match cmp_int_float z f with Some Gt => true | _ => false end.

(** The floats [0.0] and [1.0]. *)
Definition float_zero : spec_float := S754_zero false.
Definition float_one : spec_float := S754_finite false 4503599627370496 (-52).

(** [math.isfinite]. *)
Definition isfinite (f : spec_float) : bool :=
  match f with S754_zero _ | S754_finite _ _ _ => true | _ => false end.

(** [a // b] and [a % b] of integers. *)
Definition int_floordiv (a b : Z) : result Z :=
  if b =? 0 then Raise ZeroDivisionError else Ok (a / b).
Definition int_mod (a b : Z) : result Z :=
  if b =? 0 then Raise ZeroDivisionError else Ok (a mod b).

(** [(value + divisor - 1) // divisor] with Python's error on a zero divisor. *)
Definition ceil_div_checked (value divisor : Z) : result Z :=
  let? _ := ensure (negb (divisor =? 0)) ZeroDivisionError in Ok (ceil_div value divisor).

Lemma ceil_div_checked_Ok a b : b <> 0 -> ceil_div_checked a b = Ok (ceil_div a b).
Proof. intros H. unfold ceil_div_checked, ensure. by rewrite (proj2 (Z.eqb_neq b 0) H). Qed.

Lemma int_floordiv_Ok a b : b <> 0 -> int_floordiv a b = Ok (a / b).
Proof. intros H. unfold int_floordiv. by rewrite (proj2 (Z.eqb_neq b 0) H). Qed.

(** Python evaluates [1 / 3] to [0x1.5555555555555p-2] and [-7 / 2] to [-3.5]. *)
Example int_truediv_third : int_truediv 1 3 = Ok (S754_finite false 6004799503160661 (-54)).
Proof. reflexivity. Qed.
Example int_truediv_neg : int_truediv (-7) 2 = Ok (S754_finite true 7881299347898368 (-51)).
Proof. reflexivity. Qed.
Example floor_of_product :
  (let? x := float_of_int 1000 in let? a := int_truediv 1 3 in float_floor (fmul x a)) = Ok 333.
Proof. reflexivity. Qed.
Example float_one_is_one : float_of_int 1 = Ok float_one.
Proof. reflexivity. Qed.
Example trunc_toward_zero : (let? x := int_truediv (-7) 2 in float_trunc x) = Ok (-3).
Proof. reflexivity. Qed.
Example compare_exactly : (let? x := float_of_int (2 ^ 53) in Ok (int_gt_float (2 ^ 53 + 1) x)) = Ok true.
Proof. reflexivity. Qed.
