(* ===== verification/FluidService.v ===== *)
(** * Window-quantized byte service ([experiments/eq3_rate_thermal/fluid_service.py])

    One file, one class: [FluidService] keeps a FIFO of byte cohorts per
    (stack, channel), and serves one fixed window at a time under a byte
    budget per stack.  The budget of a stack is distributed over its channels
    by [_max_min_allocation].

    The dictionaries keyed by (stack, channel), which the source never
    iterates, are [gmap]s; the dictionaries it iterates are [dict]s in
    insertion order. *)

From S2P Require Import Prelude.

Module FluidService.

(** ** Data *)

Definition NANOSECONDS_PER_SECOND : Z := 1000000000.
Definition DEFAULT_WINDOW_NS : Z := 20000000.
Definition LATENCY_SEMANTICS : string := "FLUID_WINDOW_QUANTIZED_DELAY".
Definition BACKEND_LATENCY : string := "UNKNOWN".

Record Cohort := mkCohort { arrival_ns : Z; remaining_bytes : Z }.

Abbreviation key := (string * string)%type.

Record state := mkState {
  window_ns : Z;
  channels : dict string (list string);
  capacity_bps : gmap key Z;
  capacity_bytes : gmap key Z;
  queues : gmap key (list Cohort);
  cumulative_offered : gmap key Z;
  cumulative_delivered : gmap key Z;
  now_ns : Z;
}.

Definition set_queues (f : gmap key (list Cohort) -> gmap key (list Cohort)) (s : state) : state :=
  mkState (window_ns s) (channels s) (capacity_bps s) (capacity_bytes s) (f (queues s))
    (cumulative_offered s) (cumulative_delivered s) (now_ns s).
Definition set_offered (f : gmap key Z -> gmap key Z) (s : state) : state :=
  mkState (window_ns s) (channels s) (capacity_bps s) (capacity_bytes s) (queues s)
    (f (cumulative_offered s)) (cumulative_delivered s) (now_ns s).
Definition set_delivered (f : gmap key Z -> gmap key Z) (s : state) : state :=
  mkState (window_ns s) (channels s) (capacity_bps s) (capacity_bytes s) (queues s)
    (cumulative_offered s) (f (cumulative_delivered s)) (now_ns s).
Definition set_now (t : Z) (s : state) : state :=
  mkState (window_ns s) (channels s) (capacity_bps s) (capacity_bytes s) (queues s)
    (cumulative_offered s) (cumulative_delivered s) t.

(** [d[key]] on a dictionary keyed by (stack, channel). *)
Definition at_key {A} (m : gmap key A) (k : key) : result A :=
  of_option (KeyError (k.1 ++ "/" ++ k.2)) (m !! k).

(** ** Module functions *)

Definition _integer_bytes (value : pyval) (field : string) (positive : bool) : result Z :=
  match value with
  | VInt z =>
      if (z <? 0) || (positive && (z =? 0))
      then Raise (ValueError (field ++ " must be " ++ (if positive then "positive" else "non-negative")))
      else Ok z
  | _ => Raise (ValueError (field ++ " must be an integer byte count"))
  end.

(** The order of Python's [sorted] on (delay, bytes) samples. *)
Definition sample_le : Z * Z -> Z * Z -> bool := lex zle zle.

Fixpoint p95_scan (rank cumulative : Z) (samples : list (Z * Z)) : result (option Z) :=
  match samples with
  | [] => Raise (AssertionError "weighted percentile did not reach its rank")
  | (delay_ns, byte_count) :: rest =>
      let cumulative := cumulative + byte_count in
      if rank <=? cumulative then Ok (Some delay_ns) else p95_scan rank cumulative rest
  end.

Definition _weighted_nearest_rank_p95 (samples : list (Z * Z)) : result (option Z) :=
  let total := zsum (snd <$> samples) in
  if total =? 0 then Ok None
  else
    let rank := (95 * total + 99) / 100 in
    p95_scan rank 0 (isort sample_le samples).

Definition _delay_histogram (samples : list (Z * Z)) : list (Z * Z) :=
  let totals := foldl (fun totals '(delay_ns, byte_count) =>
                         dset totals delay_ns (dget_or totals delay_ns 0 + byte_count)) [] samples in
  (fun delay_ns => (delay_ns, dget_or totals delay_ns 0)) <$> isort zle (dkeys totals).

(** One round of the max-min loop with a positive share: every active channel
    receives [min share room]. *)
Definition mm_round (demand : dict string Z) (share : Z)
    (acc : dict string Z * Z) (channel : string) : dict string Z * Z :=
  let '(allocation, granted) := acc in
  let room := dget_or demand channel 0 - dget_or allocation channel 0 in
  let amount := Z.min share room in
  (dset allocation channel (dget_or allocation channel 0 + amount), granted + amount).

(** The [while remaining and active] loop. *)
Fixpoint mm_loop (fuel : nat) (demand allocation : dict string Z) (remaining : Z)
    (active : list string) : result (dict string Z) :=
  if (remaining =? 0) || bool_decide (active = []) then Ok allocation else
  match fuel with
  | O => Raise OutOfFuel
  | S fuel =>
      let n := Z.of_nat (length active) in
      let share := remaining / n in
      let remainder := remaining mod n in
      if share =? 0 then
        Ok (foldl (fun allocation channel => dset allocation channel (dget_or allocation channel 0 + 1))
              allocation (take (Z.to_nat remainder) active))
      else
        let '(allocation, granted) := foldl (mm_round demand share) (allocation, 0) active in
        mm_loop fuel demand allocation (remaining - granted)
          (filter (fun channel => dget_or allocation channel 0 < dget_or demand channel 0) active)
  end.

Definition _max_min_allocation (demand : dict string Z) (budget : Z) : result (dict string Z) :=
  let allocation := (fun channel => (channel, 0)) <$> dkeys demand in
  let remaining := Z.min budget (zsum (dvals demand)) in
  let active := isort sle (fst <$> filter (fun cv => 0 < cv.2) demand) in
  mm_loop (S (length active)) demand allocation remaining active.

(** ** Construction *)

Definition init_channel (window : Z) (rates : dict string pyval) (stack : string)
    (s : state) (channel : string) : result state :=
  let? raw := dindex rates channel in
  let? rate := _integer_bytes raw ("channel_capacity_Bps[" ++ stack ++ "][" ++ channel ++ "]") true in
  let key := (stack, channel) in
  Ok (mkState (window_ns s) (channels s)
        (<[key := rate]> (capacity_bps s))
        (<[key := rate * window / NANOSECONDS_PER_SECOND]> (capacity_bytes s))
        (<[key := []]> (queues s))
        (<[key := 0]> (cumulative_offered s))
        (<[key := 0]> (cumulative_delivered s))
        (now_ns s)).

Definition init_stack (window : Z) (stack_channels : dict string (list string))
    (channel_capacity_Bps : dict string (dict string pyval))
    (s : state) (stack : string) : result state :=
  let? _ := ensure (negb (bool_decide (stack = ""))) (ValueError "stack identifiers must be non-empty strings") in
  let? raw_channels := dindex stack_channels stack in
  let? _ := ensure (negb (bool_decide (raw_channels = [])) && bool_decide (NoDup raw_channels))
        (ValueError (stack ++ " must declare unique, non-empty channels")) in
  let? _ := ensure (bool_decide (Forall (fun c => c <> "") raw_channels))
        (ValueError (stack ++ " channel identifiers must be non-empty strings")) in
  let chans := isort sle raw_channels in
  let? rates := dindex channel_capacity_Bps stack in
  let? _ := ensure (same_set (dkeys rates) chans)
        (ValueError ("channel_capacity_Bps[" ++ stack ++ "] must match its channels")) in
  let s := mkState (window_ns s) (dset (channels s) stack chans) (capacity_bps s) (capacity_bytes s)
             (queues s) (cumulative_offered s) (cumulative_delivered s) (now_ns s) in
  foldM (init_channel window rates stack) chans s.

Definition init (stack_channels : dict string (list string))
    (channel_capacity_Bps : dict string (dict string pyval)) (window : pyval) : result state :=
  let? w := _integer_bytes window "window_ns" true in
  let? _ := ensure (negb (bool_decide (dkeys stack_channels = []))) (ValueError "stack_channels must not be empty") in
  let declared_stacks := dkeys stack_channels in
  let? _ := ensure (same_set (dkeys channel_capacity_Bps) declared_stacks)
        (ValueError "channel_capacity_Bps must exactly match declared stacks") in
  foldM (init_stack w stack_channels channel_capacity_Bps) (isort sle declared_stacks)
    (mkState w [] ∅ ∅ ∅ ∅ ∅ 0).

(** ** Validation of the arguments of [advance] *)

Definition validate_offered_stack (offered_by_channel : dict string (dict string pyval))
    (row : string * list string) : result (string * dict string Z) :=
  let '(stack, chans) := row in
  let supplied := dget_or offered_by_channel stack [] in
  let? _ := ensure (bool_decide (Forall (fun c => c ∈ chans) (dkeys supplied)))
        (ValueError ("unknown offered channels for " ++ stack)) in
  let? amounts := mapR (fun channel =>
     let? amount := _integer_bytes (dget_or supplied channel (VInt 0))
                ("offered_by_channel[" ++ stack ++ "][" ++ channel ++ "]") false in
     Ok (channel, amount)) chans in
  Ok (stack, amounts).

Definition _validate_offered (s : state) (offered_by_channel : dict string (dict string pyval))
    : result (dict string (dict string Z)) :=
  let? _ := ensure (bool_decide (Forall (fun k => k ∈ dkeys (channels s)) (dkeys offered_by_channel)))
        (ValueError "unknown offered stacks") in
  mapR (validate_offered_stack offered_by_channel) (channels s).

Definition _validate_budget (s : state) (budget_by_stack : dict string pyval)
    : result (dict string Z) :=
  let? _ := ensure (same_set (dkeys budget_by_stack) (dkeys (channels s)))
        (ValueError "budget_by_stack must exactly match declared stacks") in
  mapR (fun stack =>
    let? raw := dindex budget_by_stack stack in
    let? budget := _integer_bytes raw ("budget_by_stack[" ++ stack ++ "]") false in
    Ok (stack, budget)) (dkeys (channels s)).

Definition _queue_bytes (queue : list Cohort) : Z := zsum (remaining_bytes <$> queue).

(** ** One service window *)

Record channel_row := mkChannelRow {
  cr_offered_bytes : Z;
  cr_delivered_bytes : Z;
  cr_backlog_bytes : Z;
  cr_oldest_wait_ns : option Z;
  cr_latency_p95_ns : option Z;
  cr_delivered_delay_histogram_bytes : list (Z * Z);
  cr_capacity_bytes : Z;
  cr_capacity_Bps : Z;
}.

Record stack_row := mkStackRow {
  sr_offered_bytes : Z;
  sr_delivered_bytes : Z;
  sr_backlog_bytes : Z;
  sr_oldest_wait_ns : option Z;
  sr_latency_p95_ns : option Z;
  sr_delivered_delay_histogram_bytes : list (Z * Z);
  sr_budget_bytes : Z;
  sr_latency_semantics : string;
  sr_backend_latency_ns : string;
}.

Record conservation_row := mkConservation {
  cv_previous_backlog_bytes : Z;
  cv_offered_bytes : Z;
  cv_delivered_bytes : Z;
  cv_backlog_bytes : Z;
  cv_window_conserved : bool;
  cv_cumulative_offered_bytes : Z;
  cv_cumulative_delivered_bytes : Z;
  cv_cumulative_conserved : bool;
}.

Record receipt := mkReceipt {
  rc_schema_version : string;
  rc_start_ns : Z;
  rc_end_ns : Z;
  rc_window_ns : Z;
  rc_served_by_channel : dict string (dict string Z);
  rc_stacks : dict string stack_row;
  rc_channels : dict string (dict string channel_row);
  rc_per_stack_conservation : dict string (conservation_row * dict string conservation_row);
  rc_window_conserved : bool;
  rc_cumulative_conserved : bool;
  rc_semantics : dict string string;
}.

Definition semantics : dict string string := [
  ("latency", LATENCY_SEMANTICS);
  ("delivered_delay_histogram", "BYTE_WEIGHTED_WINDOW_END_DELAY_NS");
  ("undelivered_delay", "CENSORED_AS_BACKLOG_NO_DELAY_ASSIGNED");
  ("backend_latency_ns", BACKEND_LATENCY);
  ("capacity_conversion", "FLOOR_INTEGER_BYTES_PER_WINDOW");
  ("stack_budget_allocation", "INTEGER_MAX_MIN_FAIR");
  ("service_scope", "STACK_AND_CHANNEL_ONLY");
  ("endpoint_group_arbitration", "UNSUPPORTED_IN_V1");
  ("transaction_model", "NONE_FLUID_BYTES_ONLY")].

(** The [while remaining_service] loop: serve the FIFO from its front. *)
Fixpoint serve (end_ns remaining_service : Z) (queue : list Cohort)
    : result (list (Z * Z) * list Cohort) :=
  if remaining_service =? 0 then Ok ([], queue) else
  match queue with
  | [] => Raise IndexError
  | cohort :: rest =>
      let amount := Z.min remaining_service (remaining_bytes cohort) in
      let sample := (end_ns - arrival_ns cohort, amount) in
      let left := remaining_bytes cohort - amount in
      if left =? 0 then
        let? (samples, queue) := serve end_ns (remaining_service - amount) rest in
        Ok (sample :: samples, queue)
      else (* amount = remaining_service: the loop condition is now false *)
        Ok ([sample], mkCohort (arrival_ns cohort) left :: rest)
  end.

Definition oldest_wait (now : Z) (queue : list Cohort) : option Z :=
  match queue with [] => None | c :: _ => Some (now - arrival_ns c) end.

(** Body of [for channel in channels] inside the service loop. *)
Definition serve_channel (end_ns : Z) (stack : string) (offered : dict string Z)
    (allocation : dict string Z) (channel : string)
    : M state (string * (channel_row * list (Z * Z))) :=
  let key := (stack, channel) in
  let! s := get in
  let! queue := lift (at_key (queues s) key) in
  let! delivered := lift (dindex allocation channel) in
  let! (samples, queue) := lift (serve end_ns delivered queue) in
  let! _ := modify (set_queues <[key := queue]>) in
  let! total := lift (at_key (cumulative_delivered s) key) in
  let! _ := modify (set_delivered <[key := total + delivered]>) in
  let! p95 := lift (_weighted_nearest_rank_p95 samples) in
  let! amount := lift (dindex offered channel) in
  let! cap := lift (at_key (capacity_bytes s) key) in
  let! bps := lift (at_key (capacity_bps s) key) in
  sret (channel, (mkChannelRow amount delivered (_queue_bytes queue) (oldest_wait end_ns queue) p95
                    (_delay_histogram samples) cap bps, samples)).

Definition channel_demand (stack : string) (channel : string) : M state (string * Z) :=
  let! s := get in
  let! queue := lift (at_key (queues s) (stack, channel)) in
  let! cap := lift (at_key (capacity_bytes s) (stack, channel)) in
  sret (channel, Z.min (_queue_bytes queue) cap).

Abbreviation served_row := (string * (channel_row * list (Z * Z)))%type.

Definition summarize_stack (stack : string) (offered_stack : dict string Z) (budget : Z)
    (rows : list served_row) : result (string * (stack_row * dict string channel_row)) :=
  let channel_rows := (fun r : served_row => (r.1, r.2.1)) <$> rows in
  let samples := concat ((fun r : served_row => r.2.2) <$> rows) in
  let? p95 := _weighted_nearest_rank_p95 samples in
  Ok (stack, (mkStackRow
    (zsum (dvals offered_stack))
    (zsum (cr_delivered_bytes <$> dvals channel_rows))
    (zsum (cr_backlog_bytes <$> dvals channel_rows))
    (zmax_list (omap cr_oldest_wait_ns (dvals channel_rows)))
    p95 (_delay_histogram samples) budget LATENCY_SEMANTICS BACKEND_LATENCY, channel_rows)).

(** Body of [for stack, channels in self._channels.items()] of the service loop. *)
Definition serve_stack (end_ns : Z) (offered : dict string (dict string Z)) (budgets : dict string Z)
    (row : string * list string) : M state (string * (stack_row * dict string channel_row)) :=
  let '(stack, chans) := row in
  let! demand := mapS (channel_demand stack) chans in
  let! budget := lift (dindex budgets stack) in
  let! offered_stack := lift (dindex offered stack) in
  let! allocation := lift (_max_min_allocation demand budget) in
  let! rows := mapS (serve_channel end_ns stack offered_stack allocation) chans in
  lift (summarize_stack stack offered_stack budget rows).

(** Body of the loop that enqueues the arrivals of one channel. *)
Definition enqueue_channel (start_ns : Z) (stack : string) (offered : dict string Z) (channel : string)
    : M state unit :=
  let! amount := lift (dindex offered channel) in
  if amount =? 0 then sret tt else
  let key := (stack, channel) in
  let! s := get in
  let! queue := lift (at_key (queues s) key) in
  let! _ := modify (set_queues <[key := queue ++ [mkCohort start_ns amount]]>) in
  let! total := lift (at_key (cumulative_offered s) key) in
  modify (set_offered <[key := total + amount]>).

Definition enqueue_stack (start_ns : Z) (offered : dict string (dict string Z))
    (row : string * list string) : M state unit :=
  let '(stack, chans) := row in
  let! offered_stack := lift (dindex offered stack) in
  forM chans (enqueue_channel start_ns stack offered_stack).

Definition backlog_channel (stack channel : string) : M state (string * Z) :=
  let! s := get in
  let! queue := lift (at_key (queues s) (stack, channel)) in
  sret (channel, _queue_bytes queue).

Definition backlog_stack (row : string * list string) : M state (string * dict string Z) :=
  let '(stack, chans) := row in
  let! rows := mapS (backlog_channel stack) chans in
  sret (stack, rows).

(** The per-channel conservation checks. *)
Definition check_channel (stack : string) (previous offered : dict string Z)
    (rows : dict string channel_row) (channel : string) : M state (string * conservation_row) :=
  let key := (stack, channel) in
  let! s := get in
  let! previous_channel := lift (dindex previous channel) in
  let! arrivals_channel := lift (dindex offered channel) in
  let! row := lift (dindex rows channel) in
  let delivered_channel := cr_delivered_bytes row in
  let backlog_channel := cr_backlog_bytes row in
  let! _ := require (previous_channel + arrivals_channel =? delivered_channel + backlog_channel)
        (AssertionError ("window byte conservation failed for " ++ stack ++ "/" ++ channel)) in
  let! total_offered := lift (at_key (cumulative_offered s) key) in
  let! total_delivered := lift (at_key (cumulative_delivered s) key) in
  let! _ := require (total_offered =? total_delivered + backlog_channel)
        (AssertionError ("cumulative byte conservation failed for " ++ stack ++ "/" ++ channel)) in
  sret (channel, mkConservation previous_channel arrivals_channel delivered_channel backlog_channel
                   true total_offered total_delivered true).

Definition check_stack (previous offered : dict string (dict string Z))
    (rows : dict string (stack_row * dict string channel_row)) (row : string * list string)
    : M state (string * (conservation_row * dict string conservation_row)) :=
  let '(stack, chans) := row in
  let! previous_stack := lift (dindex previous stack) in
  let! offered_stack := lift (dindex offered stack) in
  let! (srow, channel_rows) := lift (dindex rows stack) in
  let! per_channel := mapS (check_channel stack previous_stack offered_stack channel_rows) chans in
  let total_previous := zsum (dvals previous_stack) in
  let total_offered := zsum (cv_cumulative_offered_bytes <$> dvals per_channel) in
  let total_delivered := zsum (cv_cumulative_delivered_bytes <$> dvals per_channel) in
  let! _ := require (total_previous + sr_offered_bytes srow =? sr_delivered_bytes srow + sr_backlog_bytes srow)
        (AssertionError ("window byte conservation failed for " ++ stack)) in
  let! _ := require (total_offered =? total_delivered + sr_backlog_bytes srow)
        (AssertionError ("cumulative byte conservation failed for " ++ stack)) in
  sret (stack, (mkConservation total_previous (sr_offered_bytes srow) (sr_delivered_bytes srow)
                  (sr_backlog_bytes srow) true total_offered total_delivered true, per_channel)).

Abbreviation window_rows := (dict string (stack_row * dict string channel_row)).
Definition served_rows (rows : window_rows) : dict string (dict string Z) :=
  (fun r : string * (stack_row * dict string channel_row) =>
     (r.1, (fun c : string * channel_row => (c.1, cr_delivered_bytes c.2)) <$> r.2.2)) <$> rows.
Definition stack_rows (rows : window_rows) : dict string stack_row := (fun r => (r.1, r.2.1)) <$> rows.
Definition channel_rows (rows : window_rows) : dict string (dict string channel_row) :=
  (fun r => (r.1, r.2.2)) <$> rows.

Definition advance (start_v end_v : pyval) (offered_by_channel : dict string (dict string pyval))
    (budget_by_stack : dict string pyval) : M state receipt :=
  let! start_ns := lift (_integer_bytes start_v "start_ns" false) in
  let! end_ns := lift (_integer_bytes end_v "end_ns" false) in
  let! s := get in
  let! _ := require (start_ns =? now_ns s) (ValueError "start_ns must equal service now_ns") in
  let! _ := require (end_ns - start_ns =? window_ns s) (ValueError "window must be exactly window_ns") in
  let! offered := lift (_validate_offered s offered_by_channel) in
  let! budgets := lift (_validate_budget s budget_by_stack) in
  let! previous_backlog := mapS backlog_stack (channels s) in
  let! _ := forM (channels s) (enqueue_stack start_ns offered) in
  let! rows := mapS (serve_stack end_ns offered budgets) (channels s) in
  let! conservation := mapS (check_stack previous_backlog offered rows) (channels s) in
  let! _ := modify (set_now end_ns) in
  sret (mkReceipt "eq3-fluid-service-v1" start_ns end_ns (window_ns s)
    (served_rows rows) (stack_rows rows) (channel_rows rows) conservation true true semantics).

(** ** Snapshot *)

Record snapshot_row := mkSnapshotRow {
  sn_backlog_bytes : Z; sn_oldest_wait_ns : option Z; sn_cohort_count : Z }.

Definition snapshot_channel (s : state) (stack channel : string) : result (string * snapshot_row) :=
  let? queue := at_key (queues s) (stack, channel) in
  Ok (channel, mkSnapshotRow (_queue_bytes queue) (oldest_wait (now_ns s) queue)
                 (Z.of_nat (length queue))).

Definition snapshot (s : state)
    : result (string * Z * dict string (Z * option Z) * dict string (dict string snapshot_row)) :=
  let? rows := mapR (fun '(stack, chans) =>
    let? chrows := mapR (snapshot_channel s stack) chans in
    Ok (stack, chrows)) (channels s) in
  Ok ("eq3-fluid-service-v1", now_ns s,
      (fun r : string * dict string snapshot_row =>
         (r.1, (zsum (sn_backlog_bytes <$> dvals r.2),
                zmax_list (omap sn_oldest_wait_ns (dvals r.2))))) <$> rows,
      rows).

(** ** Max-min allocation *)

Section max_min.
Context (demand : dict string Z) (Hkeys : NoDup (dkeys demand)).
Abbreviation D c := (dget_or demand c 0).

  (** Effect of one round on the allocation, the granted bytes and the sum. *)
Lemma mm_round_foldl share act allocation granted :
    NoDup act -> act ⊆ dkeys allocation ->
    let '(allocation', granted') := foldl (mm_round demand share) (allocation, granted) act in
    let gain c := Z.min share (D c - dget_or allocation c 0) in
    dkeys allocation' = dkeys allocation /\
    (forall c, dget_or allocation' c 0 =
       dget_or allocation c 0 + if decide (c ∈ act) then gain c else 0) /\
    granted' = granted + zsum (gain <$> act) /\
    zsum (dvals allocation') = zsum (dvals allocation) + zsum (gain <$> act).
Proof.
    revert allocation granted. induction act as [|a act IH]; intros allocation granted Hnd Hsub; csimpl.
    { unfold zsum; simpl. split_and!; try done; try lia; intros c; rewrite decide_False by set_solver; lia. }
    apply NoDup_cons in Hnd as [Ha Hnd].
    set (g := Z.min share (D a - dget_or allocation a 0)).
    specialize (IH (dset allocation a (dget_or allocation a 0 + g)) (granted + g) Hnd).
    rewrite dkeys_dset_in in IH by set_solver. specialize (IH ltac:(set_solver)).
    destruct (foldl _ _ _) as [al' g']. destruct IH as (IH1 & IH2 & IH3 & IH4).
    assert (Hsum : zsum ((fun c => Z.min share (D c - dget_or (dset allocation a (dget_or allocation a 0 + g)) c 0)) <$> act)
                 = zsum ((fun c => Z.min share (D c - dget_or allocation c 0)) <$> act)).
    { apply zsum_map_ext. intros c Hc. rewrite dget_or_dset, decide_False; [done|]. set_solver. }
    rewrite Hsum in IH3, IH4. rewrite dsum_dset_or in IH4 by set_solver.
    split_and!; [done| |unfold zsum in *; simpl; lia|unfold zsum in *; simpl; lia].
    intros c. rewrite IH2, dget_or_dset.
    destruct (decide (a = c)) as [<-|Hne].
    - rewrite (decide_False (P := a ∈ act)), decide_True by set_solver. lia.
    - destruct (decide (c ∈ act)).
      + rewrite (decide_True (P := c ∈ a :: act)) by set_solver. lia.
      + rewrite (decide_False (P := c ∈ a :: act)) by set_solver. lia.
Qed.

  (** The loop invariant: active channels are unsaturated and all stand at the
      same [level]; the others are saturated at or below it. *)
Record mm_inv (total : Z) (allocation : dict string Z) (remaining : Z)
      (active : list string) (level : Z) : Prop := {
    mi_nodup : NoDup active;
    mi_sub : active ⊆ dkeys demand;
    mi_keys : dkeys allocation = dkeys demand;
    mi_active : forall c, c ∈ active -> dget_or allocation c 0 = level /\ level < D c;
    mi_done : forall c, c ∈ dkeys demand -> c ∉ active -> dget_or allocation c 0 = D c /\ 0 <= D c <= level;
    mi_level : 0 <= level;
    mi_rem : 0 <= remaining;
    mi_total : remaining + zsum (dvals allocation) = total;
    mi_bound : total <= zsum (dvals demand);
  }.

  (** What the allocation promises. *)
Record fair_allocation (total : Z) (allocation : dict string Z) : Prop := {
    fa_keys : dkeys allocation = dkeys demand;
    fa_sum : zsum (dvals allocation) = total;
    fa_range : forall c, c ∈ dkeys demand -> 0 <= dget_or allocation c 0 <= D c;
    fa_fair : forall c c', c ∈ dkeys demand -> c' ∈ dkeys demand ->
      dget_or allocation c 0 < D c -> dget_or allocation c' 0 <= dget_or allocation c 0 + 1;
  }.

Lemma mm_inv_final total allocation remaining active level :
    mm_inv total allocation remaining active level ->
    remaining = 0 \/ active = [] -> fair_allocation total allocation.
Proof using Hkeys.
    intros [] Hend.
    assert (remaining = 0) as ->.
    { destruct Hend as [?| ->]; [done|].
      rewrite (dsum_keys allocation) in mi_total0 by congruence. rewrite (dsum_keys demand) in mi_bound0 by done.
      rewrite mi_keys0 in mi_total0.
      assert (zsum ((fun k => dget_or allocation k 0) <$> dkeys demand) = zsum ((fun k => D k) <$> dkeys demand)).
      { apply zsum_map_ext. intros c Hc. apply mi_done0; set_solver. }
      lia. }
    split; [done|lia| |].
    - intros c Hc. destruct (decide (c ∈ active)) as [H|H].
      + destruct (mi_active0 c H). lia.
      + destruct (mi_done0 c Hc H). lia.
    - intros c c' Hc Hc' Hlt. assert (c ∈ active) as H.
      { destruct (decide (c ∈ active)); [done|]. destruct (mi_done0 c Hc n). lia. }
      destruct (mi_active0 c H). destruct (decide (c' ∈ active)) as [H'|H'].
      + destruct (mi_active0 c' H'). lia.
      + destruct (mi_done0 c' Hc' H'). lia.
Qed.

Lemma mm_inv_round total allocation remaining active level share allocation' granted :
    mm_inv total allocation remaining active level ->
    0 < share -> share * Z.of_nat (length active) <= remaining ->
    foldl (mm_round demand share) (allocation, 0) active = (allocation', granted) ->
    let active' := filter (fun c => dget_or allocation' c 0 < D c) active in
    mm_inv total allocation' (remaining - granted) active' (level + share) /\
    (active' = active -> granted = share * Z.of_nat (length active)) /\
    granted <= share * Z.of_nat (length active).
Proof.
    intros [] Hshare Hle Hfold active'.
    pose proof (mm_round_foldl share active allocation 0 mi_nodup0 ltac:(by rewrite mi_keys0)) as H.
    rewrite Hfold in H. destruct H as (Hk & Hget & Hg & Hs).
    assert (Hact : forall c, c ∈ active -> dget_or allocation' c 0 = Z.min (level + share) (D c)).
    { intros c Hc. rewrite Hget, decide_True by done. destruct (mi_active0 c Hc). lia. }
    assert (Hgle : granted <= share * Z.of_nat (length active)).
    { rewrite Hg, <- (zsum_map_const share active), Z.add_0_l. apply zsum_map_le. lia. }
    split; [|split; [|done]].
    - split.
      + by apply NoDup_filter.
      + intros c [_ Hc]%list_elem_of_filter. auto.
      + congruence.
      + intros c [Hlt Hc]%list_elem_of_filter. rewrite (Hact c Hc) in Hlt |- *. lia.
      + intros c Hc Hn. destruct (decide (c ∈ active)) as [Ha|Ha].
        * assert (~ dget_or allocation' c 0 < D c) as Hge.
          { intros ?. apply Hn, list_elem_of_filter. done. }
          rewrite (Hact c Ha) in Hge |- *. destruct (mi_active0 c Ha). lia.
        * rewrite Hget, decide_False by done. destruct (mi_done0 c Hc Ha). lia.
      + lia.
      + lia.
      + lia.
      + done.
    - intros Heq. rewrite Hg, <- (zsum_map_const share active), Z.add_0_l. apply zsum_map_ext.
      intros c Hc. assert (Hc' : c ∈ active') by congruence.
      apply list_elem_of_filter in Hc' as [Hlt _]. rewrite (Hact c Hc) in Hlt. destruct (mi_active0 c Hc). lia.
Qed.

  (** The final round: the first [remaining] active channels get one byte. *)
Lemma mm_bump_foldl (act : list string) (allocation : dict string Z) :
    NoDup act -> act ⊆ dkeys allocation ->
    let allocation' := foldl (fun al c => dset al c (dget_or al c 0 + 1)) allocation act in
    dkeys allocation' = dkeys allocation /\
    (forall c, dget_or allocation' c 0 = dget_or allocation c 0 + if decide (c ∈ act) then 1 else 0) /\
    zsum (dvals allocation') = zsum (dvals allocation) + Z.of_nat (length act).
Proof.
    revert allocation. induction act as [|a act IH]; intros allocation Hnd Hsub; csimpl.
    { split_and!; try done; try lia; intros c; rewrite decide_False by set_solver; lia. }
    apply NoDup_cons in Hnd as [Ha Hnd].
    specialize (IH (dset allocation a (dget_or allocation a 0 + 1)) Hnd).
    rewrite dkeys_dset_in in IH by set_solver. specialize (IH ltac:(set_solver)).
    destruct IH as (IH1 & IH2 & IH3). rewrite dsum_dset_or in IH3 by set_solver.
    split_and!; [done| |lia]. intros c. rewrite IH2, dget_or_dset.
    destruct (decide (a = c)) as [<-|Hne].
    - rewrite (decide_False (P := a ∈ act)), decide_True by set_solver. lia.
    - destruct (decide (c ∈ act)).
      + rewrite (decide_True (P := c ∈ a :: act)) by set_solver. lia.
      + rewrite (decide_False (P := c ∈ a :: act)) by set_solver. lia.
Qed.

Lemma mm_inv_bump total allocation remaining active level :
    mm_inv total allocation remaining active level ->
    remaining <= Z.of_nat (length active) ->
    fair_allocation total
      (foldl (fun (al : dict string Z) c => dset al c (dget_or al c 0 + 1)) allocation (take (Z.to_nat remaining) active)).
Proof.
    intros [] Hle.
    destruct (mm_bump_foldl (take (Z.to_nat remaining) active) allocation) as (Hk & Hget & Hs).
    { eapply sublist_NoDup; [done|apply sublist_take]. }
    { rewrite mi_keys0. etrans; [|exact mi_sub0]. intros c Hc. eapply elem_of_take in Hc as (i & ? & ?).
      by eapply list_elem_of_lookup_2. }
    set (al := foldl _ _ _) in *.
    assert (Hal : forall c, c ∈ dkeys demand ->
      (c ∈ active /\ level < D c /\ level <= dget_or al c 0 <= level + 1) \/
      (dget_or al c 0 = D c /\ 0 <= D c <= level)).
    { intros c Hc. rewrite Hget. destruct (decide (c ∈ active)) as [Ha|Ha].
      - left. destruct (mi_active0 c Ha). case_decide; split_and!; try done; lia.
      - right. destruct (mi_done0 c Hc Ha). rewrite decide_False; [lia|].
        intros (i & ? & ?)%elem_of_take. apply Ha. by eapply list_elem_of_lookup_2. }
    rewrite length_take in Hs.
    split; [congruence|lia| |].
    - intros c Hc. destruct (Hal c Hc) as [(?&?&?)|[??]]; lia.
    - intros c c' Hc Hc' Hlt. destruct (Hal c Hc) as [(?&?&?)|[??]], (Hal c' Hc') as [(?&?&?)|[??]]; lia.
Qed.

Lemma mm_loop_spec fuel total allocation remaining active level :
    mm_inv total allocation remaining active level ->
    (remaining < Z.of_nat (length active) /\ (1 <= fuel)%nat) \/ (length active < fuel)%nat ->
    exists allocation', mm_loop fuel demand allocation remaining active = Ok allocation' /\
      fair_allocation total allocation'.
Proof using Hkeys.
    revert allocation remaining active level.
    induction fuel as [|fuel IH]; intros allocation remaining active level Hinv Hfuel; [exfalso; lia|].
    cbn [mm_loop].
    destruct ((remaining =? 0) || bool_decide (active = [])) eqn:Eend.
    { exists allocation. split; [done|]. eapply mm_inv_final; [done|].
      apply orb_prop in Eend as [?%Z.eqb_eq|?%bool_decide_eq_true]; auto. }
    apply orb_false_elim in Eend as [Hr%Z.eqb_neq Ha%bool_decide_eq_false].
    assert (Hn : 0 < Z.of_nat (length active)) by (destruct active; [done|simpl; lia]).
    set (n := Z.of_nat (length active)) in *.
    pose proof (Z.div_mod remaining n ltac:(lia)) as Hdm.
    pose proof (Z.mod_pos_bound remaining n Hn) as Hmod.
    pose proof (mi_rem _ _ _ _ _ Hinv) as Hrem.
    destruct (remaining / n =? 0) eqn:Eshare.
    - apply Z.eqb_eq in Eshare. eexists. split; [done|].
      replace (remaining mod n) with remaining by lia.
      eapply mm_inv_bump; [done|lia].
    - apply Z.eqb_neq in Eshare.
      assert (0 < remaining / n) as Hpos by (pose proof (Z.div_pos remaining n); lia).
      destruct (foldl _ _ _) as [allocation' granted] eqn:Efold.
      destruct (mm_inv_round _ _ _ _ _ _ _ _ Hinv Hpos ltac:(lia) Efold) as (Hinv' & Hsame & _).
      eapply IH; [exact Hinv'|].
      assert (Hn_le : (n <= remaining)) by nia.
      destruct (decide (filter (fun c => dget_or allocation' c 0 < D c) active = active)) as [Heq|Hne].
      + left. rewrite Heq, (Hsame Heq). lia.
      + right. set (act := filter _ _) in *.
        assert (length act < length active)%nat; [|lia].
        by apply filter_shrinks.
Qed.
End max_min.

Lemma isort_filter_active demand :
  NoDup (dkeys demand) ->
  let active := isort sle (fst <$> filter (fun cv : string * Z => 0 < cv.2) demand) in
  NoDup active /\ forall c, c ∈ active <-> c ∈ dkeys demand /\ 0 < dget_or demand c 0.
Proof.
  intros Hk active. split.
  - unfold active. rewrite isort_perm. by apply NoDup_fmap_filter.
  - intros c. unfold active. rewrite isort_elem, list_elem_of_fmap. split.
    + intros ([k v] & -> & [Hv Hin]%list_elem_of_filter). simpl in *. split.
      * apply list_elem_of_fmap. by exists (k, v).
      * unfold dget_or. by rewrite (dget_elem _ _ _ Hk Hin).
    + intros [[v Hv]%dget_is_Some Hpos]. exists (c, v). split; [done|].
      unfold dget_or in Hpos. rewrite Hv in Hpos. apply list_elem_of_filter. eauto with hbf.
Qed.

(** The allocation terminates within the fuel of the model and is a fair
    allocation of [min budget demand]. *)
Lemma max_min_spec demand budget :
  NoDup (dkeys demand) -> (forall c, c ∈ dkeys demand -> 0 <= dget_or demand c 0) -> 0 <= budget ->
  exists allocation, _max_min_allocation demand budget = Ok allocation /\
    fair_allocation demand (Z.min budget (zsum (dvals demand))) allocation.
Proof.
  intros Hk Hd Hb. unfold _max_min_allocation.
  destruct (isort_filter_active demand Hk) as [Hnd Hact].
  set (active := isort _ _) in *.
  assert (Hsum : 0 <= zsum (dvals demand)).
  { rewrite dsum_keys by done. apply zsum_nonneg, Forall_fmap, Forall_forall. auto. }
  apply (mm_loop_spec demand Hk _ _ _ _ _ 0); [|right; lia].
  split; try done; try lia.
  - intros c Hc. by apply Hact in Hc as [? _].
  - by rewrite (dkeys_map (fun _ => 0)).
  - intros c Hc. apply Hact in Hc as [Hc ?]. by rewrite (dget_or_map (fun _ => 0)).
  - intros c Hc Hn. rewrite (dget_or_map (fun _ => 0)) by done.
    specialize (Hd c Hc). rewrite Hact in Hn. destruct (decide (0 < dget_or demand c 0)); [naive_solver|]. lia.
  - rewrite (dsum_keys ((fun c => (c, 0)) <$> dkeys demand)) by by rewrite (dkeys_map (fun _ => 0)).
    rewrite (dkeys_map (fun _ => 0)).
    rewrite (zsum_map_ext _ (fun _ => 0)), zsum_map_const; [lia|].
    intros c Hc. by rewrite (dget_or_map (fun _ => 0)).
Qed.

(** ** The FIFO service loop

    Abstract view of a queue: the sequence of its bytes, each labelled with
    the arrival time of its cohort. *)

Definition expand (queue : list Cohort) : list Z :=
  concat ((fun c => replicate (Z.to_nat (remaining_bytes c)) (arrival_ns c)) <$> queue).

Definition expand_samples (samples : list (Z * Z)) : list Z :=
  concat ((fun x : Z * Z => replicate (Z.to_nat x.2) x.1) <$> samples).

Definition positive_queue (queue : list Cohort) : Prop := Forall (fun c => 0 < remaining_bytes c) queue.

Lemma queue_bytes_cons c q : _queue_bytes (c :: q) = remaining_bytes c + _queue_bytes q.
Proof. done. Qed.

Lemma queue_bytes_app q1 q2 : _queue_bytes (q1 ++ q2) = _queue_bytes q1 + _queue_bytes q2.
Proof. unfold _queue_bytes. by rewrite fmap_app, zsum_app. Qed.

Lemma queue_bytes_nonneg q : positive_queue q -> 0 <= _queue_bytes q.
Proof.
  intros Hq. apply zsum_nonneg, Forall_fmap. eapply Forall_impl; [exact Hq|]. simpl. lia.
Qed.

Lemma length_expand q : positive_queue q -> Z.of_nat (length (expand q)) = _queue_bytes q.
Proof.
  unfold expand. induction 1 as [|c q Hc Hq IH]; [done|].
  rewrite queue_bytes_cons. csimpl. rewrite length_app, length_replicate. lia.
Qed.

(** Serving [r] bytes removes exactly the first [r] bytes of the queue, in
    order, and the samples record their delays. *)
Lemma serve_spec end_ns r q :
  positive_queue q -> 0 <= r <= _queue_bytes q ->
  exists samples q', serve end_ns r q = Ok (samples, q') /\
    positive_queue q' /\ _queue_bytes q' = _queue_bytes q - r /\
    Forall (fun x => 0 < x.2) samples /\ zsum (snd <$> samples) = r /\
    expand q' = drop (Z.to_nat r) (expand q) /\
    expand_samples samples = (fun a => end_ns - a) <$> take (Z.to_nat r) (expand q).
Proof.
  intros Hq. revert r. induction Hq as [|c q Hc Hq IH]; intros r Hr.
  { assert (r = 0) as -> by (unfold _queue_bytes, zsum in Hr; simpl in Hr; lia).
    exists [], []. split_and!; try done. by constructor. }
  rewrite queue_bytes_cons in Hr. cbn [serve].
  destruct (r =? 0) eqn:E0.
  { apply Z.eqb_eq in E0 as ->. exists [], (c :: q). split_and!; try done; [by constructor|lia]. }
  apply Z.eqb_neq in E0.
  assert (Hexp : expand (c :: q) = replicate (Z.to_nat (remaining_bytes c)) (arrival_ns c) ++ expand q) by done.
  destruct (remaining_bytes c - Z.min r (remaining_bytes c) =? 0) eqn:E1.
  - apply Z.eqb_eq in E1. replace (Z.min r (remaining_bytes c)) with (remaining_bytes c) by lia.
    destruct (IH (r - remaining_bytes c) ltac:(lia)) as (smp & q' & -> & Hq' & Hb & Hs & Hsum & He & Hes).
    exists ((end_ns - arrival_ns c, remaining_bytes c) :: smp), q'. cbn [rbind].
    rewrite queue_bytes_cons. split_and!; [done|done|lia|by constructor| | |].
    + csimpl. unfold zsum in *. simpl. lia.
    + rewrite He, Hexp, drop_app_ge by (rewrite length_replicate; lia). f_equal. rewrite length_replicate. lia.
    + rewrite Hexp, take_app_ge by (rewrite length_replicate; lia).
      unfold expand_samples in *. csimpl. rewrite Hes, fmap_app, fmap_replicate, length_replicate.
      do 3 f_equal. lia.
  - apply Z.eqb_neq in E1. replace (Z.min r (remaining_bytes c)) with r by lia.
    exists [(end_ns - arrival_ns c, r)], (mkCohort (arrival_ns c) (remaining_bytes c - r) :: q).
    rewrite !queue_bytes_cons. simpl. split_and!; [done| |lia| | | |].
    + constructor; [simpl; lia|done].
    + constructor; [simpl; lia|done].
    + unfold zsum. simpl. lia.
    + rewrite Hexp, drop_app_le by (rewrite length_replicate; lia).
      unfold expand. csimpl. f_equal. rewrite drop_replicate. f_equal. lia.
    + rewrite Hexp, take_app_le by (rewrite length_replicate; lia).
      unfold expand_samples. csimpl. rewrite app_nil_r, take_replicate, fmap_replicate. f_equal. lia.
Qed.

(** ** Percentile *)

Lemma sample_le_total x y : sample_le x y = true \/ sample_le y x = true.
Proof.
  unfold sample_le, lex, zle. destruct (decide (x.1 = y.1)), (decide (y.1 = x.1)); try congruence; lia.
Qed.

Lemma sample_le_trans x y z : sample_le x y = true -> sample_le y z = true -> sample_le x z = true.
Proof.
  unfold sample_le, lex, zle.
  destruct (decide (x.1 = y.1)), (decide (y.1 = z.1)), (decide (x.1 = z.1)); try congruence; lia.
Qed.

Lemma sample_le_fst x y : sample_le x y = true -> x.1 <= y.1.
Proof. unfold sample_le, lex, zle. case_decide; lia. Qed.

(** The bytes whose delay satisfies [P]. *)
Definition bytes_where (P : Z -> bool) (samples : list (Z * Z)) : Z :=
  zsum ((fun x : Z * Z => if P x.1 then x.2 else 0) <$> samples).

Lemma bytes_where_perm P l k : l ≡ₚ k -> bytes_where P l = bytes_where P k.
Proof. intros H. unfold bytes_where. apply zsum_perm. by rewrite H. Qed.

Lemma bytes_where_le P l : Forall (fun x => 0 <= x.2) l -> 0 <= bytes_where P l <= zsum (snd <$> l).
Proof.
  unfold bytes_where, zsum. induction 1 as [|x l Hx Hl IH]; csimpl; [lia|]. destruct (P x.1); lia.
Qed.

Lemma bytes_where_zero P l : (forall x, x ∈ l -> P x.1 = false) -> bytes_where P l = 0.
Proof.
  intros H. unfold bytes_where. rewrite (zsum_map_ext _ (fun _ => 0)), zsum_map_const; [lia|].
  intros x Hx. by rewrite H.
Qed.

Lemma p95_scan_spec rank cumulative l :
  sorted sample_le l -> Forall (fun x => 0 <= x.2) l ->
  cumulative < rank <= cumulative + zsum (snd <$> l) ->
  exists d, p95_scan rank cumulative l = Ok (Some d) /\ d ∈ l.*1 /\
    cumulative + bytes_where (fun x => x <? d) l < rank <= cumulative + bytes_where (fun x => x <=? d) l.
Proof.
  revert cumulative. induction l as [|[d b] l IH]; intros cumulative; csimpl.
  { unfold zsum. simpl. lia. }
  intros [Hd Hs] [Hb Hl]%Forall_cons Hr. simpl in Hb.
  assert (Hge : forall x, x ∈ l -> d <= x.1).
  { rewrite Forall_forall in Hd. intros x Hx. by apply Hd, sample_le_fst in Hx. }
  destruct (rank <=? cumulative + b) eqn:E.
  - exists d. split; [done|]. split; [set_solver|].
    unfold bytes_where, zsum. csimpl. fold (bytes_where (fun x => x <? d) l).
    change (foldr Z.add 0 ((fun x : Z * Z => if x.1 <? d then x.2 else 0) <$> l)) with (bytes_where (fun x => x <? d) l).
    change (foldr Z.add 0 ((fun x : Z * Z => if x.1 <=? d then x.2 else 0) <$> l)) with (bytes_where (fun x => x <=? d) l).
    rewrite Z.ltb_irrefl, Z.leb_refl.
    rewrite (bytes_where_zero (fun x => x <? d)) by (intros x Hx; specialize (Hge x Hx); lia).
    pose proof (bytes_where_le (fun x => x <=? d) l Hl). lia.
  - assert (Hr' : cumulative + b < rank <= cumulative + b + zsum (snd <$> l)).
    { change (zsum (b :: (snd <$> l))) with (b + zsum (snd <$> l)) in Hr. lia. }
    destruct (IH _ Hs Hl Hr') as (d' & -> & Hin & Hlo & Hhi). exists d'. split; [done|]. split; [set_solver|].
    apply list_elem_of_fmap in Hin as ([d0 b0] & -> & Hin). simpl in *.
    specialize (Hge _ Hin). simpl in Hge.
    unfold bytes_where, zsum in Hlo, Hhi |- *. csimpl.
    destruct (d <? d0) eqn:E1; destruct (d <=? d0) eqn:E2; lia.
Qed.

Lemma p95_spec samples :
  Forall (fun x => 0 < x.2) samples ->
  let total := zsum (snd <$> samples) in
  match samples with
  | [] => _weighted_nearest_rank_p95 samples = Ok None
  | _ => exists d, _weighted_nearest_rank_p95 samples = Ok (Some d) /\ d ∈ samples.*1 /\
      100 * bytes_where (fun x => x <? d) samples < 95 * total <= 100 * bytes_where (fun x => x <=? d) samples
  end.
Proof.
  intros Hpos total. destruct samples as [|x samples]; [done|].
  assert (Htot : 0 < total).
  { unfold total. change (zsum (snd <$> x :: samples)) with (x.2 + zsum (snd <$> samples)).
    apply Forall_cons in Hpos as [? Hpos].
    assert (0 <= zsum (snd <$> samples)); [|lia].
    apply zsum_nonneg, Forall_fmap. eapply Forall_impl; [exact Hpos|]. simpl. lia. }
  unfold _weighted_nearest_rank_p95. fold total. set (l := x :: samples) in *.
  destruct (total =? 0) eqn:E; [lia|]. clear E.
  pose proof (isort_perm sample_le l) as Hperm.
  pose proof (ceil_div_spec (95 * total) 100 ltac:(lia)) as Hrank. unfold ceil_div in Hrank.
  replace (95 * total + 100 - 1) with (95 * total + 99) in Hrank by lia.
  set (rank := (95 * total + 99) / 100) in *.
  destruct (p95_scan_spec rank 0 (isort sample_le l)) as (d & Hd & Hin & Hlo & Hhi).
  - apply isort_sorted; [apply sample_le_total|apply sample_le_trans].
  - rewrite Hperm. eapply Forall_impl; [exact Hpos|]. simpl. lia.
  - rewrite Hperm. fold total. lia.
  - rewrite !(bytes_where_perm _ _ _ Hperm) in *. rewrite Hperm in Hin.
    exists d. split; [done|]. split; [done|]. lia.
Qed.

Lemma p95_ok samples :
  Forall (fun x => 0 < x.2) samples -> exists p, _weighted_nearest_rank_p95 samples = Ok p.
Proof.
  intros H%p95_spec. destruct samples; [by eexists|]. destruct H as (d & ? & _). by eexists.
Qed.

(** ** Local actions

    The loops of [advance] treat one (stack, channel) at a time.  [agree K]
    says that two states have the same configuration and the same contents at
    the keys [K]; [touch K] that they differ at most at the keys [K]. *)

Definition static (s : state) := (window_ns s, channels s, capacity_bps s, capacity_bytes s, now_ns s).

Definition same_at (k : key) (s s' : state) : Prop :=
  queues s !! k = queues s' !! k /\ cumulative_offered s !! k = cumulative_offered s' !! k /\
  cumulative_delivered s !! k = cumulative_delivered s' !! k.

Definition agree (K : list key) (s s' : state) : Prop :=
  static s = static s' /\ forall k, k ∈ K -> same_at k s s'.
Definition touch (K : list key) (s s' : state) : Prop :=
  static s = static s' /\ forall k, k ∉ K -> same_at k s s'.

Lemma touch_refl K s : touch K s s.
Proof. by split. Qed.

Lemma touch_trans K K' s1 s2 s3 : touch K s1 s2 -> touch K' s2 s3 -> touch (K ++ K') s1 s3.
Proof.
  intros [E1 H1] [E2 H2]. split; [congruence|]. intros k Hk.
  destruct (H1 k ltac:(set_solver)) as (?&?&?), (H2 k ltac:(set_solver)) as (?&?&?).
  split_and!; congruence.
Qed.

Lemma touch_agree K K' s s' : touch K s s' -> K' ## K -> agree K' s s'.
Proof. intros [E H] Hd. split; [done|]. intros k Hk. apply H. set_solver. Qed.

Lemma agree_refl K s : agree K s s.
Proof. by split. Qed.

Lemma agree_sym K s s' : agree K s s' -> agree K s' s.
Proof. intros [E H]. split; [done|]. intros k Hk. destruct (H k Hk) as (?&?&?). split; [|split]; congruence. Qed.

Lemma agree_sub K K' s s' : K' ⊆ K -> agree K s s' -> agree K' s s'.
Proof. intros HK [E H]. split; [done|]. auto. Qed.

(** [pre] and [post] only read the state at the footprint. *)
Record local {A B} (K : A -> list key) (pre : A -> state -> Prop)
    (post : A -> B -> state -> state -> Prop) : Prop := {
  local_pre : forall x s s', agree (K x) s s' -> pre x s -> pre x s';
  local_post : forall x b s1 s1' s2 s2', agree (K x) s1 s2 -> agree (K x) s1' s2' ->
    post x b s1 s1' -> post x b s2 s2';
}.

Lemma mapS_local {A B} (f : A -> M state B) (K : A -> list key) pre post (l : list A) s :
  local K pre post ->
  NoDup (concat (K <$> l)) ->
  (forall x s, x ∈ l -> pre x s -> exists b s', f x s = (Ok b, s') /\ touch (K x) s s' /\ post x b s s') ->
  Forall (fun x => pre x s) l ->
  exists outs s', mapS f l s = (Ok outs, s') /\ touch (concat (K <$> l)) s s' /\
    Forall2 (fun x b => post x b s s') l outs.
Proof.
  intros Hloc. revert s. induction l as [|x l IH]; intros s Hnd Hf Hpre; csimpl.
  { exists [], s. split; [done|]. split; [apply touch_refl|constructor]. }
  csimpl in Hnd. apply NoDup_app in Hnd as (Hx & Hdisj & Hnd).
  apply Forall_cons in Hpre as [Hprex Hpre].
  destruct (Hf x s ltac:(set_solver) Hprex) as (b & s1 & Hfx & Ht & Hpost).
  assert (Hdl : forall y, y ∈ l -> K y ## K x).
  { intros y Hy k Hk1 Hk2. apply (Hdisj k Hk2).
    apply list_elem_of_In, in_concat. exists (K y). split; [|by apply list_elem_of_In].
    apply list_elem_of_In. by apply list_elem_of_fmap_2. }
  destruct (IH s1 Hnd) as (outs & s2 & Hm & Ht2 & Hposts).
  { intros y s' Hy. apply Hf. set_solver. }
  { apply Forall_forall. intros y Hy. rewrite Forall_forall in Hpre.
    eapply (local_pre _ _ _ Hloc); [|exact (Hpre y Hy)]. eapply touch_agree; [exact Ht|]. auto. }
  exists (b :: outs), s2. unfold sbind. rewrite Hfx, Hm. split; [done|]. split.
  { by eapply touch_trans. }
  constructor.
  - eapply (local_post _ _ _ Hloc); [apply agree_refl| |exact Hpost].
    eapply touch_agree; [exact Ht2|]. set_solver.
  - rewrite Forall2_lookup in Hposts |- *. intros i. specialize (Hposts i).
    destruct (l !! i) as [y|] eqn:Ey, (outs !! i) as [b'|]; inversion Hposts as [? ? Hp|]; subst; constructor.
    eapply (local_post _ _ _ Hloc); [|apply agree_refl|exact Hp].
    apply agree_sym. eapply touch_agree; [exact Ht|]. apply Hdl. by eapply list_elem_of_lookup_2.
Qed.

Lemma forM_mapS {A} (f : A -> M state unit) l s s' outs :
  mapS f l s = (Ok outs, s') -> forM l f s = (Ok tt, s').
Proof.
  revert s outs. induction l as [|x l IH]; intros s outs; simpl.
  - by intros [= _ <-].
  - unfold sbind, sret. destruct (f x s) as [[a|e] s1]; [|done].
    destruct (mapS f l s1) as [[ys|e] s2] eqn:E; intros H; simplify_eq. exact (IH _ _ E).
Qed.

(** ** The invariant *)

(** A declared channel has all its entries, a nonnegative capacity, no empty
    cohort, and its cumulative counters differ by exactly its backlog. *)
Definition chan_ok (k : key) (s : state) : Prop :=
  exists q o d cap bps,
    queues s !! k = Some q /\ cumulative_offered s !! k = Some o /\
    cumulative_delivered s !! k = Some d /\ capacity_bytes s !! k = Some cap /\
    capacity_bps s !! k = Some bps /\ 0 <= cap /\ positive_queue q /\ o = d + _queue_bytes q.

Definition row_keys (row : string * list string) : list key := (fun c => (row.1, c)) <$> row.2.
Definition all_keys (s : state) : list key := concat (row_keys <$> channels s).

Record wf (s : state) : Prop := {
  wf_nodup : NoDup (all_keys s);
  wf_stacks : NoDup (dkeys (channels s));
  wf_window : 0 < window_ns s;
  wf_now : 0 <= now_ns s;
  wf_chan : forall k, k ∈ all_keys s -> chan_ok k s;
}.

Lemma elem_all_keys s stack chans c :
  (stack, chans) ∈ channels s -> c ∈ chans -> (stack, c) ∈ all_keys s.
Proof.
  intros H1 H2. apply list_elem_of_In, in_concat. exists (row_keys (stack, chans)).
  split; apply list_elem_of_In; [by apply list_elem_of_fmap_2|].
  unfold row_keys. simpl. by apply list_elem_of_fmap_2.
Qed.

Lemma elem_all_keys_inv s k :
  k ∈ all_keys s -> exists stack chans c, (stack, chans) ∈ channels s /\ c ∈ chans /\ k = (stack, c).
Proof.
  intros H. apply list_elem_of_In, in_concat in H as (K & HK & Hk).
  apply list_elem_of_In in HK. apply list_elem_of_fmap in HK as ([stack chans] & -> & Hin).
  apply list_elem_of_In, list_elem_of_fmap in Hk as (c & -> & Hc). eauto 10.
Qed.

Lemma NoDup_row s row : wf s -> row ∈ channels s -> NoDup (row_keys row).
Proof.
  intros [Hnd _ _ _ _]. unfold all_keys in Hnd. revert Hnd.
  induction (channels s) as [|r l IH]; csimpl; [set_solver|].
  intros (H1 & _ & H2)%NoDup_app [->|Hin]%elem_of_cons; auto.
Qed.

Lemma NoDup_chans s stack chans : wf s -> (stack, chans) ∈ channels s -> NoDup chans.
Proof. intros Hwf Hin. apply (NoDup_row _ _ Hwf) in Hin. by apply NoDup_fmap_1 in Hin. Qed.

Lemma chan_ok_agree k s s' : agree [k] s s' -> chan_ok k s -> chan_ok k s'.
Proof.
  intros [E H] (q & o & d & cap & bps & Hc). destruct (H k ltac:(set_solver)) as (H1 & H2 & H3).
  unfold static in E. injection E as ? ? Eb Ec ?.
  exists q, o, d, cap, bps. rewrite <- H1, <- H2, <- H3, <- Eb, <- Ec. done.
Qed.

Lemma at_key_Some {A} (m : gmap key A) k a : m !! k = Some a -> at_key m k = Ok a.
Proof. unfold at_key. by intros ->. Qed.

(** Run the monadic prefix of a goal whose lookups are known. *)
Ltac run :=
  repeat first
    [ progress unfold sbind, sret, get, lift, modify, require, set_queues, set_offered, set_delivered
    | progress cbn [queues cumulative_offered cumulative_delivered capacity_bytes capacity_bps
                    window_ns channels now_ns rbind ensure]
    | match goal with
      | H : _ !! ?k = Some _ |- context [at_key _ ?k] => rewrite (at_key_Some _ _ _ H)
      | H : dget ?d ?k = Some _ |- context [dindex ?d ?k] => rewrite (proj2 (dindex_Ok _ _ _) H)
      end ].

(** ** Backlog *)

Lemma backlog_channel_spec stack c s :
  chan_ok (stack, c) s ->
  exists q, queues s !! (stack, c) = Some q /\ backlog_channel stack c s = (Ok (c, _queue_bytes q), s).
Proof. intros (q & o & d & cap & bps & Hq & _). exists q. split; [done|]. unfold backlog_channel. by run. Qed.

(** The backlog rows of a list of channels. *)
Definition bytes_at (s : state) (k : key) : Z :=
  match queues s !! k with Some q => _queue_bytes q | None => 0 end.

Lemma bytes_at_Some s k q : queues s !! k = Some q -> bytes_at s k = _queue_bytes q.
Proof. unfold bytes_at. by intros ->. Qed.

Lemma backlog_channels_spec stack chans s :
  Forall (fun c => chan_ok (stack, c) s) chans ->
  mapS (backlog_channel stack) chans s = (Ok ((fun c => (c, bytes_at s (stack, c))) <$> chans), s).
Proof.
  induction 1 as [|c chans Hc _ IH]; [done|]. csimpl. unfold sbind.
  destruct (backlog_channel_spec _ _ _ Hc) as (q & Hq & ->). rewrite IH.
  unfold sret. by rewrite (bytes_at_Some _ _ _ Hq).
Qed.

Lemma backlog_stacks_spec rows s :
  Forall (fun row => Forall (fun c => chan_ok (row.1, c) s) row.2) rows ->
  mapS backlog_stack rows s =
  (Ok ((fun row : string * list string => (row.1, (fun c => (c, bytes_at s (row.1, c))) <$> row.2)) <$> rows), s).
Proof.
  induction 1 as [|[stack chans] rows Hc _ IH]; [done|]. cbn [mapS].
  assert (backlog_stack (stack, chans) s = (Ok (stack, (fun c => (c, bytes_at s (stack, c))) <$> chans), s)) as H.
  { unfold backlog_stack, sbind. by rewrite backlog_channels_spec. }
  unfold sbind. by rewrite H, IH.
Qed.

(** ** Arrivals *)

Definition arrived (start a : Z) : list Cohort := if a =? 0 then [] else [mkCohort start a].

Definition enq_post (start a : Z) (k : key) (s s' : state) : Prop :=
  exists q o, queues s !! k = Some q /\ cumulative_offered s !! k = Some o /\
    queues s' !! k = Some (q ++ arrived start a) /\ cumulative_offered s' !! k = Some (o + a) /\
    cumulative_delivered s' !! k = cumulative_delivered s !! k.

Lemma enqueue_channel_spec start stack offered c a s :
  chan_ok (stack, c) s -> dget offered c = Some a -> 0 <= a ->
  exists s', enqueue_channel start stack offered c s = (Ok tt, s') /\
    touch [(stack, c)] s s' /\ enq_post start a (stack, c) s s'.
Proof.
  intros (q & o & d & cap & bps & Hq & Ho & Hd & _) Ha Hpos. unfold enqueue_channel. run.
  unfold enq_post, arrived. destruct (a =? 0) eqn:E.
  - apply Z.eqb_eq in E as ->. exists s. split; [done|]. split; [apply touch_refl|].
    exists q, o. by rewrite app_nil_r, Z.add_0_r.
  - run. eexists. split; [done|]. split.
    + split; [done|]. intros k Hk. unfold same_at. simpl.
      rewrite !lookup_insert_ne by set_solver. done.
    + exists q, o. simpl. by rewrite !lookup_insert_eq.
Qed.

Lemma enq_post_ok start a k s s' :
  chan_ok k s -> 0 <= a -> static s = static s' -> enq_post start a k s s' -> chan_ok k s'.
Proof.
  intros (q & o & d & cap & bps & Hq & Ho & Hd & Hcap & Hbps & Hpos & Hqp & Heq) Ha E (q1 & o1 & H1 & H2 & H3 & H4 & H5).
  unfold static in E. injection E as ? ? Eb Ec ?.
  rewrite Hq in H1. rewrite Ho in H2. simplify_eq.
  exists (q1 ++ arrived start a), (d + _queue_bytes q1 + a), d, cap, bps.
  rewrite <- Eb, <- Ec, H5. split_and!; try done.
  - apply Forall_app. split; [done|]. unfold arrived. destruct (a =? 0) eqn:E0; constructor; [simpl; lia|done].
  - rewrite queue_bytes_app. unfold arrived, _queue_bytes. destruct (a =? 0) eqn:E0; unfold zsum; simpl; lia.
Qed.

Lemma enq_local {X} (K : X -> key) start (a : X -> Z) :
  local (fun x => [K x]) (fun x s => chan_ok (K x) s)
    (fun x (_ : unit) s s' => enq_post start (a x) (K x) s s').
Proof.
  split.
  - intros x s s'. apply chan_ok_agree.
  - intros x b s1 s1' s2 s2' [_ H1] [_ H2] (q & o & Hp).
    destruct (H1 (K x)) as (Ha & Hb & Hc); [set_solver|]. destruct (H2 (K x)) as (Ha' & Hb' & Hc'); [set_solver|].
    exists q, o. rewrite <- Ha, <- Hb, <- Hc, <- Ha', <- Hb', <- Hc'. done.
Qed.

Lemma concat_singletons {A B} (f : A -> B) l : concat ((fun x => [f x]) <$> l) = f <$> l.
Proof. induction l; csimpl; congruence. Qed.

Lemma Forall2_elem_l {A B} (P : A -> B -> Prop) l k x : Forall2 P l k -> x ∈ l -> exists y, y ∈ k /\ P x y.
Proof.
  intros H [i Hi]%list_elem_of_lookup. destruct (Forall2_lookup_l _ _ _ _ _ H Hi) as (y & Hy & HP).
  exists y. split; [|done]. by eapply list_elem_of_lookup_2.
Qed.

(** The amount offered to a channel by validated arguments. *)
Definition amt (offered : dict string (dict string Z)) (k : key) : Z :=
  dget_or (dget_or offered k.1 []) k.2 0.

(** What [_validate_offered] guarantees about its result. *)
Definition offered_ok (offered : dict string (dict string Z)) (rows : list (string * list string)) : Prop :=
  forall stack chans, (stack, chans) ∈ rows -> exists o, dget offered stack = Some o /\ dkeys o = chans /\
    forall c, c ∈ chans -> exists a, dget o c = Some a /\ 0 <= a.

Lemma offered_ok_amt offered rows stack chans c :
  offered_ok offered rows -> (stack, chans) ∈ rows -> c ∈ chans ->
  exists o, dget offered stack = Some o /\ dget o c = Some (amt offered (stack, c)) /\ 0 <= amt offered (stack, c).
Proof.
  intros H Hin Hc. destruct (H _ _ Hin) as (o & Ho & _ & Ha). destruct (Ha c Hc) as (a & Hac & Hpos).
  exists o. unfold amt, dget_or. simpl. by rewrite Ho, Hac.
Qed.

Lemma enqueue_stack_spec start offered stack chans s :
  offered_ok offered [(stack, chans)] -> NoDup chans ->
  Forall (fun c => chan_ok (stack, c) s) chans ->
  exists s', enqueue_stack start offered (stack, chans) s = (Ok tt, s') /\
    touch (row_keys (stack, chans)) s s' /\
    forall c, c ∈ chans -> enq_post start (amt offered (stack, c)) (stack, c) s s'.
Proof.
  intros Hoff Hnd Hok. destruct (Hoff stack chans ltac:(set_solver)) as (o & Ho & _ & _).
  destruct (mapS_local (enqueue_channel start stack o) (fun c => [(stack, c)])
              (fun c s => chan_ok (stack, c) s) (fun c _ s s' => enq_post start (amt offered (stack, c)) (stack, c) s s')
              chans s) as (outs & s' & Hm & Ht & HP).
  - apply (enq_local (fun c => (stack, c)) start (fun c => amt offered (stack, c))).
  - rewrite concat_singletons. apply NoDup_fmap_2; [|done]. by intros ?? [=].
  - intros c s0 Hc Hcs. destruct (offered_ok_amt _ _ stack chans c Hoff ltac:(set_solver) Hc) as (o' & Ho' & Hd & Hpos).
    assert (o' = o) as -> by congruence.
    destruct (enqueue_channel_spec start stack o c _ s0 Hcs Hd Hpos) as (s1 & ? & ? & ?).
    by exists tt, s1.
  - done.
  - exists s'. split; [|split].
    + unfold enqueue_stack. run. by eapply forM_mapS.
    + by rewrite concat_singletons in Ht.
    + intros c Hc. by destruct (Forall2_elem_l _ _ _ _ HP Hc) as ([] & _ & ?).
Qed.

(** Rows as local actions: lift channel facts to rows. *)
Definition row_ok (row : string * list string) (s : state) : Prop :=
  Forall (fun c => chan_ok (row.1, c) s) row.2.

Lemma row_ok_agree row s s' : agree (row_keys row) s s' -> row_ok row s -> row_ok row s'.
Proof.
  intros Ha. unfold row_ok. rewrite !Forall_forall. intros H c Hc.
  eapply chan_ok_agree; [|exact (H c Hc)]. eapply agree_sub; [|exact Ha].
  unfold row_keys. intros k ->%list_elem_of_singleton. by apply list_elem_of_fmap_2.
Qed.

Lemma agree_row row c s s' : agree (row_keys row) s s' -> c ∈ row.2 -> agree [(row.1, c)] s s'.
Proof.
  intros Ha Hc. eapply agree_sub; [|exact Ha]. intros k ->%list_elem_of_singleton. by apply list_elem_of_fmap_2.
Qed.

Lemma wf_row_ok s row : wf s -> row ∈ channels s -> row_ok row s.
Proof.
  intros Hwf Hin. apply Forall_forall. intros c Hc. apply wf_chan; [done|].
  destruct row. by eapply elem_all_keys.
Qed.

Lemma enqueue_all_spec start offered s :
  wf s -> offered_ok offered (channels s) ->
  exists s', forM (channels s) (enqueue_stack start offered) s = (Ok tt, s') /\
    static s = static s' /\
    forall k, k ∈ all_keys s -> enq_post start (amt offered k) k s s'.
Proof.
  intros Hwf Hoff.
  destruct (mapS_local (enqueue_stack start offered) row_keys row_ok
    (fun row (_ : unit) s s' => forall c, c ∈ row.2 -> enq_post start (amt offered (row.1, c)) (row.1, c) s s')
    (channels s) s) as (outs & s' & Hm & Ht & HP).
  - split; [intros; by eapply row_ok_agree|].
    intros row b s1 s1' s2 s2' H1 H2 H c Hc.
    apply (local_post _ _ _ (enq_local (fun c => (row.1, c)) start (fun c => amt offered (row.1, c))) c b s1 s1');
      [by eapply agree_row|by eapply agree_row|by apply H].
  - apply wf_nodup, Hwf.
  - intros [stack chans] s0 Hin Hrow.
    destruct (enqueue_stack_spec start offered stack chans s0) as (s1 & ? & ? & ?).
    + intros st ch [=-> ->]%list_elem_of_singleton. by apply Hoff.
    + by eapply NoDup_chans.
    + done.
    + by exists tt, s1.
  - apply Forall_forall. intros row Hin. by apply wf_row_ok.
  - exists s'. split; [by eapply forM_mapS|]. split; [apply Ht|].
    intros k (stack & chans & c & Hin & Hc & ->)%elem_all_keys_inv.
    destruct (Forall2_elem_l _ _ _ _ HP Hin) as (b & _ & H). by apply H.
Qed.

(** ** Service *)

(** What serving one channel does: the row it reports and the state change. *)
Record chan_served (end_ns a : Z) (k : key) (row : channel_row) (samples : list (Z * Z)) (s s' : state) : Prop := {
  cs_offered : cr_offered_bytes row = a;
  cs_bytes : bytes_at s' k = bytes_at s k - cr_delivered_bytes row;
  cs_backlog : cr_backlog_bytes row = bytes_at s' k;
  cs_range : exists cap, capacity_bytes s !! k = Some cap /\
     0 <= cr_delivered_bytes row <= Z.min (bytes_at s k) cap;
  cs_fifo : exists q q', queues s !! k = Some q /\ queues s' !! k = Some q' /\
     expand q' = drop (Z.to_nat (cr_delivered_bytes row)) (expand q) /\
     expand_samples samples = (fun t => end_ns - t) <$> take (Z.to_nat (cr_delivered_bytes row)) (expand q);
  cs_samples : Forall (fun x => 0 < x.2) samples;
  cs_ok : chan_ok k s';
  cs_cum : cumulative_offered s' !! k = cumulative_offered s !! k /\
     exists d, cumulative_delivered s !! k = Some d /\
       cumulative_delivered s' !! k = Some (d + cr_delivered_bytes row);
}.

Lemma serve_channel_spec end_ns stack offered allocation c a d s :
  chan_ok (stack, c) s -> dget offered c = Some a -> dget allocation c = Some d ->
  (forall cap, capacity_bytes s !! (stack, c) = Some cap -> 0 <= d <= Z.min (bytes_at s (stack, c)) cap) ->
  exists row samples s', serve_channel end_ns stack offered allocation c s = (Ok (c, (row, samples)), s') /\
    touch [(stack, c)] s s' /\ cr_delivered_bytes row = d /\ chan_served end_ns a (stack, c) row samples s s'.
Proof.
  intros (q & o & dl & cap & bps & Hq & Ho & Hd & Hcap & Hbps & Hpos & Hqp & Heq) Ha Hal Hrange.
  specialize (Hrange cap Hcap) as Hr. rewrite (bytes_at_Some _ _ _ Hq) in Hr.
  destruct (serve_spec end_ns d q Hqp ltac:(lia)) as (smp & q' & Hs & Hq' & Hb & Hsp & Hsum & Hex & Hexs).
  destruct (p95_ok smp Hsp) as [p Hp95].
  unfold serve_channel. run. rewrite Hs. run. rewrite Hp95. run.
  eexists _, smp, _. split; [done|]. split; [|split; [done|]].
  { split; [done|]. intros k Hk. unfold same_at. simpl. rewrite !lookup_insert_ne by set_solver. done. }
  assert (Hba : forall m1 m2 m3, bytes_at (mkState (window_ns s) (channels s) (capacity_bps s) (capacity_bytes s)
             (<[(stack, c) := q']> m1) m2 m3 (now_ns s)) (stack, c) = _queue_bytes q').
  { intros. apply bytes_at_Some. simpl. apply lookup_insert_eq. }
  split; cbn [cr_offered_bytes cr_delivered_bytes cr_backlog_bytes queues cumulative_offered
              cumulative_delivered capacity_bytes capacity_bps]; rewrite ?Hba, ?(bytes_at_Some _ _ _ Hq); try done.
  - by exists cap.
  - exists q, q'. by rewrite lookup_insert_eq.
  - exists q', o, (dl + d), cap, bps. simpl. rewrite !lookup_insert_eq. split_and!; try done. lia.
  - split; [done|]. exists dl. by rewrite lookup_insert_eq.
Qed.

Lemma bytes_at_agree k s s' : agree [k] s s' -> bytes_at s k = bytes_at s' k.
Proof. intros [_ H]. unfold bytes_at. destruct (H k ltac:(set_solver)) as (-> & _). done. Qed.

Lemma chan_served_agree end_ns a k row samples s1 s1' s2 s2' :
  agree [k] s1 s2 -> agree [k] s1' s2' ->
  chan_served end_ns a k row samples s1 s1' -> chan_served end_ns a k row samples s2 s2'.
Proof.
  intros H1 H2 []. pose proof (bytes_at_agree _ _ _ H1) as E1. pose proof (bytes_at_agree _ _ _ H2) as E2.
  pose proof (chan_ok_agree _ _ _ H2 cs_ok0).
  destruct H1 as [S1 H1], H2 as [S2 H2].
  destruct (H1 k ltac:(set_solver)) as (Q1 & O1 & D1), (H2 k ltac:(set_solver)) as (Q2 & O2 & D2).
  unfold static in S1. injection S1 as ? ? ? Ec ?.
  split; rewrite <- ?E1, <- ?E2, <- ?Q1, <- ?Q2, <- ?O1, <- ?O2, <- ?D1, <- ?D2, <- ?Ec; done.
Qed.

(** Loops that only read the state. *)
Lemma mapS_reader {S A B} (f : A -> M S B) (Q : A -> B -> Prop) (l : list A) (s : S) :
  (forall x, x ∈ l -> exists b, f x s = (Ok b, s) /\ Q x b) ->
  exists outs, mapS f l s = (Ok outs, s) /\ Forall2 Q l outs.
Proof.
  induction l as [|x l IH]; intros H; simpl.
  - exists []. by split; [|constructor].
  - destruct (H x ltac:(set_solver)) as (b & Hb & HQ).
    destruct IH as (outs & Ho & HF); [set_solver|].
    exists (b :: outs). unfold sbind. rewrite Hb, Ho. split; [done|]. by constructor.
Qed.

Lemma Forall2_eq_map {A B} (g : A -> B) l k : Forall2 (fun x y => y = g x) l k -> k = g <$> l.
Proof. induction 1; csimpl; congruence. Qed.

Definition cap_at (s : state) (k : key) : Z := default 0 (capacity_bytes s !! k).

(** The serviceable demand of the channels of a stack. *)
Definition demand_of (s : state) (row : string * list string) : dict string Z :=
  (fun c => (c, Z.min (bytes_at s (row.1, c)) (cap_at s (row.1, c)))) <$> row.2.

Lemma demand_of_get s row c :
  c ∈ row.2 -> dget_or (demand_of s row) c 0 = Z.min (bytes_at s (row.1, c)) (cap_at s (row.1, c)).
Proof. intros Hc. unfold demand_of. by rewrite (dget_or_map (fun c => Z.min _ _)). Qed.

Lemma demand_of_keys s row : dkeys (demand_of s row) = row.2.
Proof. apply (dkeys_map (fun c => Z.min _ _)). Qed.

Lemma demand_of_agree row s s' : agree (row_keys row) s s' -> demand_of s row = demand_of s' row.
Proof.
  intros Ha. unfold demand_of. apply list_fmap_ext. intros i c Hi%list_elem_of_lookup_2.
  rewrite (bytes_at_agree _ _ _ (agree_row _ _ _ _ Ha Hi)).
  destruct Ha as [E _]. unfold static in E. injection E as ? ? ? Ec ?. unfold cap_at. by rewrite Ec.
Qed.

Lemma chan_ok_demand k s : chan_ok k s -> 0 <= Z.min (bytes_at s k) (cap_at s k).
Proof.
  intros (q & o & d & cap & bps & Hq & _ & _ & Hc & _ & Hpos & Hqp & _).
  rewrite (bytes_at_Some _ _ _ Hq). unfold cap_at. rewrite Hc. simpl.
  pose proof (queue_bytes_nonneg q Hqp). lia.
Qed.

Lemma channel_demand_spec row s :
  row_ok row s -> mapS (channel_demand row.1) row.2 s = (Ok (demand_of s row), s).
Proof.
  intros Hok. unfold row_ok in Hok. rewrite Forall_forall in Hok.
  destruct (mapS_reader (channel_demand row.1)
    (fun c b => b = (c, Z.min (bytes_at s (row.1, c)) (cap_at s (row.1, c)))) row.2 s) as (outs & Ho & HF).
  - intros c Hc. destruct (Hok c Hc) as (q & o & d & cap & bps & Hq & _ & _ & Hcap & _).
    eexists. unfold channel_demand. run. split; [done|].
    unfold cap_at. by rewrite (bytes_at_Some _ _ _ Hq), Hcap.
  - rewrite Ho. by rewrite (Forall2_eq_map _ _ _ HF).
Qed.

(** What serving one stack does. *)
Record stack_served (end_ns : Z) (offered : dict string (dict string Z)) (budget : Z)
    (row : string * list string) (srow : stack_row) (crows : dict string channel_row) (s s' : state) : Prop := {
  ss_keys : dkeys crows = row.2;
  ss_chan : forall c, c ∈ row.2 -> exists crow samples, dget crows c = Some crow /\
     chan_served end_ns (amt offered (row.1, c)) (row.1, c) crow samples s s';
  ss_fair : fair_allocation (demand_of s row) (Z.min budget (zsum (dvals (demand_of s row))))
     ((fun cr : string * channel_row => (cr.1, cr_delivered_bytes cr.2)) <$> crows);
  ss_offered : sr_offered_bytes srow = zsum ((fun c => amt offered (row.1, c)) <$> row.2);
  ss_delivered : sr_delivered_bytes srow = zsum (cr_delivered_bytes <$> dvals crows);
  ss_backlog : sr_backlog_bytes srow = zsum (cr_backlog_bytes <$> dvals crows);
}.

Lemma offered_sum offered stack chans o :
  offered_ok offered [(stack, chans)] -> dget offered stack = Some o -> NoDup chans ->
  zsum (dvals o) = zsum ((fun c => amt offered (stack, c)) <$> chans).
Proof.
  intros Hoff Ho Hnd. destruct (Hoff stack chans ltac:(set_solver)) as (o' & Ho' & Hk & _).
  assert (o' = o) as -> by congruence. rewrite dsum_keys, Hk by congruence.
  apply zsum_map_ext. intros c Hc. unfold amt. simpl.
  assert (dget_or offered stack [] = o) as ->; [|done]. unfold dget_or. by rewrite Ho.
Qed.

Lemma serve_stack_spec end_ns offered budgets row budget s :
  offered_ok offered [row] -> NoDup row.2 -> row_ok row s ->
  dget budgets row.1 = Some budget -> 0 <= budget ->
  exists srow crows s', serve_stack end_ns offered budgets row s = (Ok (row.1, (srow, crows)), s') /\
    touch (row_keys row) s s' /\ stack_served end_ns offered budget row srow crows s s'.
Proof.
  destruct row as [stack chans]. simpl. intros Hoff Hnd Hok Hbud Hpos.
  destruct (Hoff stack chans ltac:(set_solver)) as (o & Ho & _ & _).
  pose proof (channel_demand_spec (stack, chans) s Hok) as Hdem. simpl in Hdem.
  set (demand := demand_of s (stack, chans)) in *.
  assert (Hok' := Hok). unfold row_ok in Hok'. simpl in Hok'. rewrite Forall_forall in Hok'.
  destruct (max_min_spec demand budget) as (allocation & Hal & Hfair); [| |done|].
  { unfold demand. by rewrite demand_of_keys. }
  { intros c Hc. unfold demand in *. rewrite demand_of_keys in Hc. rewrite demand_of_get by done.
    by apply chan_ok_demand, Hok'. }
  assert (Hget : forall c, c ∈ chans -> dget allocation c = Some (dget_or allocation c 0)).
  { intros c Hc. assert (c ∈ dkeys allocation) as [v Hv]%dget_is_Some.
    { rewrite (fa_keys _ _ _ Hfair). unfold demand. by rewrite demand_of_keys. }
    unfold dget_or. by rewrite Hv. }
  destruct (mapS_local (serve_channel end_ns stack o allocation) (fun c => [(stack, c)])
    (fun c s1 => chan_ok (stack, c) s1 /\ bytes_at s1 (stack, c) = bytes_at s (stack, c) /\
                 capacity_bytes s1 = capacity_bytes s)
    (fun c (b : string * (channel_row * list (Z * Z))) s1 s1' => b.1 = c /\ cr_delivered_bytes b.2.1 = dget_or allocation c 0 /\
        chan_served end_ns (amt offered (stack, c)) (stack, c) b.2.1 b.2.2 s1 s1')
    chans s) as (rows & s' & Hm & Ht & HP).
  - split.
    + intros c s1 s2 Ha (H1 & H2 & H3). split; [by eapply chan_ok_agree|].
      rewrite <- (bytes_at_agree _ _ _ Ha). split; [done|].
      destruct Ha as [E _]. unfold static in E. injection E as ? ? ? Ec ?. congruence.
    + intros c b s1 s1' s2 s2' H1 H2 (? & ? & ?). split; [done|]. split; [done|]. by eapply chan_served_agree.
  - rewrite concat_singletons. apply NoDup_fmap_2; [|done]. by intros ?? [=].
  - intros c s1 Hc (Hc1 & Hc2 & Hc3).
    destruct (offered_ok_amt _ _ stack chans c Hoff ltac:(set_solver) Hc) as (o' & Ho' & Hd & Ha).
    assert (o' = o) as -> by congruence.
    destruct (serve_channel_spec end_ns stack o allocation c _ _ s1 Hc1 Hd (Hget c Hc)) as (row & smp & s2 & H1 & H2 & H3 & H4).
    { intros cap Hcap. rewrite Hc2.
      assert (c ∈ dkeys demand) as Hcd by (unfold demand; by rewrite demand_of_keys).
      pose proof (fa_range _ _ _ Hfair c Hcd) as Hr. unfold demand in Hr. rewrite demand_of_get in Hr by done.
      assert (cap_at s (stack, c) = cap) as <- by (unfold cap_at; by rewrite <- Hc3, Hcap). exact Hr. }
    exists (c, (row, smp)), s2. done.
  - apply Forall_forall. intros c Hc. by split_and!; [apply Hok'| |].
  - assert (Hrows : rows.*1 = chans).
    { clear -HP. induction HP as [|c b l k (Hb & _) _ IH]; csimpl; congruence. }
    pose (crows := (fun r : string * (channel_row * list (Z * Z)) => (r.1, r.2.1)) <$> rows).
    assert (Hck : dkeys crows = chans).
    { unfold crows, dkeys. rewrite <- list_fmap_compose. exact Hrows. }
    assert (Hsmp : Forall (fun x => 0 < x.2) (concat ((fun r : string * (channel_row * list (Z * Z)) => r.2.2) <$> rows))).
    { clear -HP. induction HP as [|c b l k (_ & _ & Hb) _ IH]; csimpl; [constructor|].
      apply Forall_app. split; [by apply cs_samples in Hb|done]. }
    destruct (p95_ok _ Hsmp) as [p Hp95].
    eexists _, crows, s'. split; [|split].
    + unfold serve_stack. cbn [fst snd]. unfold sbind at 1. rewrite Hdem. run. rewrite Hal. run. rewrite Hm.
      unfold summarize_stack. rewrite Hp95. run. reflexivity.
    + by rewrite concat_singletons in Ht.
    + split; cbn [sr_offered_bytes sr_delivered_bytes sr_backlog_bytes fst snd]; try done.
      * intros c Hc. destruct (Forall2_elem_l _ _ _ _ HP Hc) as ([c' [crow sm]] & Hin & Hb1 & Hb2 & Hb3).
        simpl in *. subst c'. exists crow, sm. split; [|done].
        apply dget_elem; [congruence|]. unfold crows. apply list_elem_of_fmap. by exists (c, (crow, sm)).
      * assert ((fun cr : string * channel_row => (cr.1, cr_delivered_bytes cr.2)) <$> crows = allocation) as ->; [|done].
        assert (Hak : allocation = (fun c => (c, dget_or allocation c 0)) <$> chans).
        { assert (dkeys allocation = chans) as Hk.
          { rewrite (fa_keys _ _ _ Hfair). unfold demand. apply demand_of_keys. }
          rewrite <- Hk. unfold dkeys at 1. rewrite <- list_fmap_compose.
          rewrite <- (list_fmap_id allocation) at 1. apply list_fmap_ext. intros i [c v] Hi. simpl.
          unfold dget_or. rewrite (dget_elem allocation c v); [done|congruence|]. by eapply list_elem_of_lookup_2. }
        rewrite Hak. unfold crows. rewrite <- list_fmap_compose. clear -HP.
        induction HP as [|c b l k (Hb1 & Hb2 & _) _ IH]; csimpl; [done|]. rewrite IH, Hb1, Hb2. done.
      * by eapply offered_sum.
Qed.

Lemma stack_served_agree end_ns offered budget row srow crows s1 s1' s2 s2' :
  agree (row_keys row) s1 s2 -> agree (row_keys row) s1' s2' ->
  stack_served end_ns offered budget row srow crows s1 s1' ->
  stack_served end_ns offered budget row srow crows s2 s2'.
Proof.
  intros H1 H2 []. split; try done.
  - intros c Hc. destruct (ss_chan0 c Hc) as (crow & smp & ? & ?). exists crow, smp. split; [done|].
    eapply chan_served_agree; [by eapply agree_row|by eapply agree_row|done].
  - by rewrite <- (demand_of_agree _ _ _ H1).
Qed.

(** What [_validate_budget] guarantees about its result. *)
Definition budgets_ok (budgets : dict string Z) (rows : list (string * list string)) : Prop :=
  forall stack chans, (stack, chans) ∈ rows -> exists b, dget budgets stack = Some b /\ 0 <= b.

Definition budget_at (budgets : dict string Z) (stack : string) : Z := dget_or budgets stack 0.

Lemma serve_all_spec end_ns offered budgets s :
  wf s -> offered_ok offered (channels s) -> budgets_ok budgets (channels s) ->
  exists rows s', mapS (serve_stack end_ns offered budgets) (channels s) s = (Ok rows, s') /\
    static s = static s' /\
    Forall2 (fun row (b : string * (stack_row * dict string channel_row)) => b.1 = row.1 /\
       stack_served end_ns offered (budget_at budgets row.1) row b.2.1 b.2.2 s s') (channels s) rows.
Proof.
  intros Hwf Hoff Hbud.
  destruct (mapS_local (serve_stack end_ns offered budgets) row_keys row_ok
    (fun row (b : string * (stack_row * dict string channel_row)) s s' => b.1 = row.1 /\
       stack_served end_ns offered (budget_at budgets row.1) row b.2.1 b.2.2 s s')
    (channels s) s) as (rows & s' & Hm & Ht & HP).
  - split; [intros; by eapply row_ok_agree|].
    intros row b s1 s1' s2 s2' H1 H2 [? ?]. split; [done|]. by eapply stack_served_agree.
  - apply wf_nodup, Hwf.
  - intros [stack chans] s0 Hin Hrow. destruct (Hbud _ _ Hin) as (b & Hb & Hpos).
    destruct (serve_stack_spec end_ns offered budgets (stack, chans) b s0) as (srow & crows & s1 & H1 & H2 & H3); try done.
    + intros st ch [=-> ->]%list_elem_of_singleton. by apply Hoff.
    + by eapply NoDup_chans.
    + exists (stack, (srow, crows)), s1. simpl. split; [done|]. split; [done|]. split; [done|].
      unfold budget_at, dget_or. by rewrite Hb.
  - apply Forall_forall. intros row Hin. by apply wf_row_ok.
  - exists rows, s'. split; [done|]. split; [apply Ht|done].
Qed.

(** ** The conservation checks *)

(** The per-channel balance after arrivals [s -> s1] and service [s1 -> s2]. *)
Lemma balance start end_ns a k row samples s s1 s2 :
  enq_post start a k s s1 -> chan_served end_ns a k row samples s1 s2 -> 
  bytes_at s k + a = cr_delivered_bytes row + cr_backlog_bytes row.
Proof.
  intros (q & o & Hq & _ & Hq1 & _) [].
  rewrite cs_backlog0, cs_bytes0, (bytes_at_Some _ _ _ Hq1), (bytes_at_Some _ _ _ Hq), queue_bytes_app.
  unfold arrived, _queue_bytes. destruct (a =? 0) eqn:E; unfold zsum; simpl; lia.
Qed.

Lemma check_channel_spec stack previous offered rows c p a row s :
  dget previous c = Some p -> dget offered c = Some a -> dget rows c = Some row ->
  chan_ok (stack, c) s -> p + a = cr_delivered_bytes row + cr_backlog_bytes row ->
  cr_backlog_bytes row = bytes_at s (stack, c) ->
  exists b, check_channel stack previous offered rows c s = (Ok b, s) /\ b.1 = c /\
    cv_cumulative_offered_bytes b.2 = cv_cumulative_delivered_bytes b.2 + cr_backlog_bytes row.
Proof.
  intros Hp Ha Hr (q & o & d & cap & bps & Hq & Ho & Hd & _ & _ & _ & _ & Heq) Hbal Hback.
  rewrite (bytes_at_Some _ _ _ Hq) in Hback.
  unfold check_channel. run. rewrite (proj2 (Z.eqb_eq _ _) Hbal). run.
  rewrite (proj2 (Z.eqb_eq o (d + cr_backlog_bytes row)) ltac:(lia)). run.
  eexists. split; [done|]. simpl. split; [done|]. lia.
Qed.

Lemma check_stack_spec start end_ns budget previous offered rows row srow crows s s1 s2 :
  offered_ok offered [row] -> NoDup row.2 ->
  dget previous row.1 = Some ((fun c => (c, bytes_at s (row.1, c))) <$> row.2) ->
  dget rows row.1 = Some (srow, crows) ->
  (forall c, c ∈ row.2 -> enq_post start (amt offered (row.1, c)) (row.1, c) s s1) ->
  stack_served end_ns offered budget row srow crows s1 s2 ->
  exists b, check_stack previous offered rows row s2 = (Ok b, s2) /\ b.1 = row.1.
Proof.
  destruct row as [stack chans]. cbn [fst snd]. intros Hoff Hnd Hp Hr Henq Hserved.
  destruct (Hoff stack chans ltac:(set_solver)) as (o & Ho & _).
  pose proof (ss_keys _ _ _ _ _ _ _ _ Hserved) as Hck. cbn [snd] in Hck.
  assert (Hchan : forall c, c ∈ chans -> exists crow smp, dget crows c = Some crow /\
    chan_served end_ns (amt offered (stack, c)) (stack, c) crow smp s1 s2 /\
    bytes_at s (stack, c) + amt offered (stack, c) = cr_delivered_bytes crow + cr_backlog_bytes crow).
  { intros c Hc. destruct (ss_chan _ _ _ _ _ _ _ _ Hserved c Hc) as (crow & smp & Hcr & Hs).
    exists crow, smp. split; [done|]. split; [done|]. eapply balance; [by apply Henq|exact Hs]. }
  destruct (mapS_reader (check_channel stack ((fun c => (c, bytes_at s (stack, c))) <$> chans) o crows)
    (fun c b => b.1 = c /\ forall crow, dget crows c = Some crow ->
       cv_cumulative_offered_bytes b.2 = cv_cumulative_delivered_bytes b.2 + cr_backlog_bytes crow) chans s2)
    as (outs & Hm & HF).
  { intros c Hc. destruct (Hchan c Hc) as (crow & smp & Hcr & Hs & Hb).
    destruct (offered_ok_amt _ _ stack chans c Hoff ltac:(set_solver) Hc) as (o' & Ho' & Hd & _).
    assert (o' = o) as -> by congruence.
    destruct (check_channel_spec stack ((fun c => (c, bytes_at s (stack, c))) <$> chans) o crows c
                (bytes_at s (stack, c)) (amt offered (stack, c)) crow s2) as (b & Hb1 & Hb2 & Hb3); try done.
    - apply dget_elem; [by rewrite (dkeys_map (fun c => bytes_at s (stack, c)))|].
      by apply (list_elem_of_fmap_2 (fun c => (c, bytes_at s (stack, c)))).
    - apply Hs.
    - apply Hs.
    - exists b. split; [done|]. split; [done|]. intros crow' Hcr'. by simplify_eq. }
  unfold check_stack. cbn [fst snd]. run. rewrite Hm. run.
  (* stack level sums *)
  assert (Hcrows : dvals crows = (fun c => default (mkChannelRow 0 0 0 None None [] 0 0) (dget crows c)) <$> chans).
  { rewrite <- Hck. unfold dvals, dkeys. rewrite <- list_fmap_compose. apply list_fmap_ext.
    intros i [c cr] Hi%list_elem_of_lookup_2. simpl. rewrite (dget_elem crows c cr); [done|congruence|done]. }
  rewrite (ss_offered _ _ _ _ _ _ _ _ Hserved), (ss_delivered _ _ _ _ _ _ _ _ Hserved),
    (ss_backlog _ _ _ _ _ _ _ _ Hserved), Hcrows. cbn [fst snd].
  unfold dvals at 1. rewrite <- !list_fmap_compose.
  rewrite (proj2 (Z.eqb_eq _ _)).
  2:{ rewrite <- !zsum_map_add. apply zsum_map_ext. intros c Hc.
      destruct (Hchan c Hc) as (crow & smp & Hcr & Hs & Hb). simpl. rewrite Hcr. simpl. lia. }
  run. rewrite (proj2 (Z.eqb_eq _ _)).
  2:{ clear -HF Hchan. unfold dvals. rewrite <- !list_fmap_compose.
      induction HF as [|c b l k [Hb1 Hb2] _ IH]; [done|]. csimpl. unfold zsum in *. simpl.
      destruct (Hchan c ltac:(set_solver)) as (crow & smp & Hcr & _ & _).
      rewrite Hcr. simpl. rewrite (Hb2 crow Hcr).
      rewrite IH by (intros; apply Hchan; set_solver). lia. }
  run. eexists. split; [done|]. done.
Qed.

(** ** Validation *)

Lemma integer_bytes_Ok v field positive z :
  _integer_bytes v field positive = Ok z -> v = VInt z /\ (if positive then 0 < z else 0 <= z).
Proof.
  destruct v; simpl; try done. destruct ((_ <? 0) || _) eqn:E; [done|]. intros [= <-].
  split; [done|]. apply orb_false_elim in E as [E1 E2]. destruct positive; simpl in *; lia.
Qed.

Lemma Forall2_fst_keys {A B C} (R : A * B -> A * C -> Prop) l k :
  (forall x y, R x y -> y.1 = x.1) -> Forall2 R l k -> k.*1 = l.*1.
Proof. intros H. induction 1 as [|x y l k HR _ IH]; csimpl; [done|]. by rewrite IH, (H _ _ HR). Qed.

Lemma validate_offered_ok s raw offered :
  wf s -> _validate_offered s raw = Ok offered -> offered_ok offered (channels s).
Proof.
  intros Hwf H. unfold _validate_offered in H. inv_ok. apply mapR_Ok in H.
  assert (Hrow : forall row y, validate_offered_stack raw row = Ok y ->
    y.1 = row.1 /\ dkeys y.2 = row.2 /\ forall c, c ∈ row.2 -> exists a, (c, a) ∈ y.2 /\ 0 <= a).
  { intros [stack chans] y Hy. unfold validate_offered_stack in Hy. inv_ok.
    rename select (mapR _ _ = Ok _) into Hm. apply mapR_Ok in Hm. simpl. split; [done|]. split.
    - unfold dkeys. clear -Hm. induction Hm as [|c z l k Hz _ IH]; csimpl; [done|]. f_equal; [|exact IH]. clear IH. by inv_ok.
    - intros c Hc. destruct (Forall2_elem_l _ _ _ _ Hm Hc) as (z & Hz & Hcz). inv_ok.
      rename select (_integer_bytes _ _ _ = Ok _) into Hi. apply integer_bytes_Ok in Hi as [_ Hi]. eauto. }
  assert (Hkeys : dkeys offered = dkeys (channels s)).
  { eapply (Forall2_fst_keys (fun row y => validate_offered_stack raw row = Ok y)); [|done].
    intros x0 y0 Hxy. by apply Hrow. }
  intros stack chans Hin. destruct (Forall2_elem_l _ _ _ _ H Hin) as ([st o] & Ho & Hval).
  apply Hrow in Hval as (Hst & Hk & Hc). simpl in *. subst st.
  exists o. split; [|split; [done|]].
  - apply dget_elem; [|done]. rewrite Hkeys. apply wf_stacks, Hwf.
  - intros c Hcc. destruct (Hc c Hcc) as (a & Ha & Hpos). exists a. split; [|done].
    apply dget_elem; [|done]. rewrite Hk. by eapply NoDup_chans.
Qed.

Lemma validate_budget_ok s raw budgets :
  wf s -> _validate_budget s raw = Ok budgets -> budgets_ok budgets (channels s).
Proof.
  intros Hwf H. unfold _validate_budget in H. inv_ok. apply mapR_Ok in H.
  assert (Hkeys : dkeys budgets = dkeys (channels s)).
  { clear -H. unfold dkeys at 1. induction H as [|st z l k Hz _ IH]; csimpl; [done|]. f_equal; [|exact IH]. clear IH. by inv_ok. }
  intros stack chans Hin.
  assert (Hs : stack ∈ dkeys (channels s)) by (apply list_elem_of_fmap; by exists (stack, chans)).
  destruct (Forall2_elem_l _ _ _ _ H Hs) as (z & Hz & Hval). inv_ok.
  rename select (_integer_bytes _ _ _ = Ok _) into Hi. apply integer_bytes_Ok in Hi as [_ Hi].
  eexists. split; [|exact Hi]. apply dget_elem; [|done]. rewrite Hkeys. apply wf_stacks, Hwf.
Qed.

(** ** One window *)

(** What one successful window does, for validated arguments. *)
Record window_step (offered : dict string (dict string Z)) (budgets : dict string Z)
    (s s' : state) (r : receipt) : Prop := {
  ws_now : now_ns s' = now_ns s + window_ns s;
  ws_config : window_ns s' = window_ns s /\ channels s' = channels s /\
     capacity_bytes s' = capacity_bytes s /\ capacity_bps s' = capacity_bps s;
  ws_stack : forall stack chans, (stack, chans) ∈ channels s ->
     exists crows, dget (rc_channels r) stack = Some crows /\ dkeys crows = chans /\
     (* per channel: conservation, capacity, FIFO order *)
     (forall c, c ∈ chans -> exists crow q q', dget crows c = Some crow /\
        queues s !! (stack, c) = Some q /\ queues s' !! (stack, c) = Some q' /\
        let a := amt offered (stack, c) in let d := cr_delivered_bytes crow in
        _queue_bytes q + a = d + _queue_bytes q' /\
        0 <= d <= cap_at s (stack, c) /\
        expand q' = drop (Z.to_nat d) (expand (q ++ arrived (now_ns s) a))) /\
     (* per stack: the budget is exhausted or all serviceable demand is served *)
     let demand c := Z.min (bytes_at s (stack, c) + amt offered (stack, c)) (cap_at s (stack, c)) in
     zsum (cr_delivered_bytes <$> dvals crows) =
       Z.min (budget_at budgets stack) (zsum (demand <$> chans)) /\
     (* max-min fairness up to one byte *)
     (forall c c' crow crow', dget crows c = Some crow -> dget crows c' = Some crow' ->
        cr_delivered_bytes crow < demand c -> cr_delivered_bytes crow' <= cr_delivered_bytes crow + 1);
}.

Lemma advance_unfold s raw_offered raw_budget offered budgets :
  wf s -> _validate_offered s raw_offered = Ok offered -> _validate_budget s raw_budget = Ok budgets ->
  advance (VInt (now_ns s)) (VInt (now_ns s + window_ns s)) raw_offered raw_budget s =
  (let! previous_backlog := mapS backlog_stack (channels s) in
   let! _ := forM (channels s) (enqueue_stack (now_ns s) offered) in
   let! rows := mapS (serve_stack (now_ns s + window_ns s) offered budgets) (channels s) in
   let! conservation := mapS (check_stack previous_backlog offered rows) (channels s) in
   let! _ := modify (set_now (now_ns s + window_ns s)) in
   sret (mkReceipt "eq3-fluid-service-v1" (now_ns s) (now_ns s + window_ns s) (window_ns s)
           (served_rows rows) (stack_rows rows) (channel_rows rows) conservation true true semantics)) s.
Proof.
  intros Hwf Ho Hb. pose proof (wf_now _ Hwf). pose proof (wf_window _ Hwf).
  assert (Hint : forall z field, 0 <= z -> _integer_bytes (VInt z) field false = Ok z).
  { intros z field Hz. simpl. by replace (z <? 0) with false by lia. }
  unfold advance.
  rewrite (sbind_step _ _ _ (now_ns s) s) by (apply lift_Ok, Hint; lia).
  rewrite (sbind_step _ _ _ (now_ns s + window_ns s) s) by (apply lift_Ok, Hint; lia).
  rewrite (sbind_step _ _ _ s s) by done.
  rewrite (sbind_step _ _ _ tt s) by (apply require_Ok; lia).
  rewrite (sbind_step _ _ _ tt s) by (apply require_Ok; lia).
  rewrite (sbind_step _ _ _ offered s) by by apply lift_Ok.
  by rewrite (sbind_step _ _ _ budgets s) by by apply lift_Ok.
Qed.

Lemma Forall2_rows_get (rows : window_rows) (chs : list (string * list string))
    (P : string * list string -> stack_row -> dict string channel_row -> Prop) :
  NoDup (dkeys chs) ->
  Forall2 (fun row (b : string * (stack_row * dict string channel_row)) => b.1 = row.1 /\ P row b.2.1 b.2.2) chs rows ->
  forall row, row ∈ chs -> exists srow crows, dget rows row.1 = Some (srow, crows) /\ P row srow crows.
Proof.
  intros Hnd HF row Hin.
  assert (Hk : dkeys rows = dkeys chs).
  { clear -HF. unfold dkeys. induction HF as [|x y l k [H _] _ IH]; csimpl; [done|]. by rewrite H, IH. }
  destruct (Forall2_elem_l _ _ _ _ HF Hin) as ([st [srow crows]] & Hb & E & HP). simpl in *. subst st.
  exists srow, crows. split; [|done]. apply dget_elem; [|done]. by rewrite Hk.
Qed.

Lemma dget_fmap_vals {K V W} `{EqDecision K} (f : V -> W) (d : dict K V) k :
  dget ((fun x : K * V => (x.1, f x.2)) <$> d) k = f <$> dget d k.
Proof. induction d as [|[k' v] d IH]; csimpl; [done|]. by case_decide. Qed.

Lemma served_window offered budget start end_ns stack chans srow crows s s1 s2 :
  (forall c, c ∈ chans -> enq_post start (amt offered (stack, c)) (stack, c) s s1) ->
  static s = static s1 -> stack_served end_ns offered budget (stack, chans) srow crows s1 s2 ->
  dkeys crows = chans /\
  (forall c, c ∈ chans -> exists crow q q', dget crows c = Some crow /\
     queues s !! (stack, c) = Some q /\ queues s2 !! (stack, c) = Some q' /\
     let a := amt offered (stack, c) in let d := cr_delivered_bytes crow in
     _queue_bytes q + a = d + _queue_bytes q' /\ 0 <= d <= cap_at s (stack, c) /\
     expand q' = drop (Z.to_nat d) (expand (q ++ arrived start a))) /\
  let demand c := Z.min (bytes_at s (stack, c) + amt offered (stack, c)) (cap_at s (stack, c)) in
  zsum (cr_delivered_bytes <$> dvals crows) = Z.min budget (zsum (demand <$> chans)) /\
  (forall c c' crow crow', dget crows c = Some crow -> dget crows c' = Some crow' ->
     cr_delivered_bytes crow < demand c -> cr_delivered_bytes crow' <= cr_delivered_bytes crow + 1).
Proof.
  intros Henq Hst []. cbn [fst snd] in *. unfold static in Hst. injection Hst as ? ? ? Ec ?.
  assert (Hba : forall c, c ∈ chans -> bytes_at s1 (stack, c) = bytes_at s (stack, c) + amt offered (stack, c)).
  { intros c Hc. destruct (Henq c Hc) as (q & o & Hq & _ & Hq1 & _).
    rewrite (bytes_at_Some _ _ _ Hq1), (bytes_at_Some _ _ _ Hq), queue_bytes_app.
    unfold arrived, _queue_bytes. destruct (_ =? 0) eqn:E; unfold zsum; simpl; lia. }
  assert (Hcap : forall k, cap_at s1 k = cap_at s k) by (intros; unfold cap_at; by rewrite Ec).
  split; [done|]. split; [|split].
  - intros c Hc. destruct (ss_chan0 c Hc) as (crow & smp & Hcr & [_ Hby Hbk (cap & Hcp & Hr) (q1 & q' & Hq1 & Hq' & Hex & _) _ _ _]).
    destruct (Henq c Hc) as (q & o & Hq & _ & Hq1' & _). exists crow, q, q'. split_and!; try done.
    + rewrite <- (bytes_at_Some _ _ _ Hq), <- (bytes_at_Some _ _ _ Hq'). rewrite Hby, Hba by done. lia.
    + lia.
    + unfold cap_at. rewrite Ec, Hcp. simpl. lia.
    + rewrite Hex. do 2 f_equal. congruence.
  - replace (cr_delivered_bytes <$> dvals crows)
      with (dvals ((fun cr : string * channel_row => (cr.1, cr_delivered_bytes cr.2)) <$> crows)).
    2:{ unfold dvals. by rewrite <- !list_fmap_compose. }
    rewrite (fa_sum _ _ _ ss_fair0). f_equal. unfold demand_of, dvals. rewrite <- list_fmap_compose.
    apply zsum_map_ext. intros c Hc. simpl. by rewrite Hba, Hcap.
  - intros c c' crow crow' Hc Hc' Hlt.
    assert (Hin : c ∈ chans) by (rewrite <- ss_keys0; apply dget_is_Some; eauto).
    assert (Hin' : c' ∈ chans) by (rewrite <- ss_keys0; apply dget_is_Some; eauto).
    pose proof (fa_fair _ _ _ ss_fair0 c c') as Hf. rewrite demand_of_keys in Hf.
    unfold dget_or in Hf at 1 3 4. rewrite !(dget_fmap_vals cr_delivered_bytes crows), Hc, Hc' in Hf. simpl in Hf.
    apply Hf; [done|done|]. rewrite demand_of_get by done. cbn [fst]. by rewrite Hba, Hcap.
Qed.

(** One window from a well-formed state never raises. *)
Lemma advance_spec s raw_offered raw_budget offered budgets :
  wf s -> _validate_offered s raw_offered = Ok offered -> _validate_budget s raw_budget = Ok budgets ->
  exists r s', advance (VInt (now_ns s)) (VInt (now_ns s + window_ns s)) raw_offered raw_budget s = (Ok r, s') /\
    wf s' /\ window_step offered budgets s s' r.
Proof.
  intros Hwf Ho Hb. rewrite (advance_unfold _ _ _ _ _ Hwf Ho Hb).
  pose proof (validate_offered_ok _ _ _ Hwf Ho) as Hoff. pose proof (validate_budget_ok _ _ _ Hwf Hb) as Hbud.
  assert (Hrows : Forall (fun row => row_ok row s) (channels s)).
  { apply Forall_forall. intros row Hin. by apply wf_row_ok. }
  rewrite (sbind_step _ _ _ _ _ (backlog_stacks_spec _ _ Hrows)).
  destruct (enqueue_all_spec (now_ns s) offered s Hwf Hoff) as (s1 & E1 & St1 & H1).
  rewrite (sbind_step _ _ _ _ _ E1).
  assert (Hch1 : channels s1 = channels s) by (unfold static in St1; congruence).
  assert (Hwf1 : wf s1).
  { destruct Hwf. pose proof St1 as Hst. unfold static in Hst. injection Hst as Ew Ec ? ? En.
    split; unfold all_keys in *; rewrite <- ?Ec, <- ?Ew, <- ?En; try done.
    intros k Hk. eapply enq_post_ok; [by apply wf_chan0| |exact St1|by apply H1].
    destruct (elem_all_keys_inv s k Hk) as (st & ch & c & Hin & Hc & ->).
    by destruct (offered_ok_amt _ _ _ _ _ Hoff Hin Hc) as (? & _ & _ & ?). }
  destruct (serve_all_spec (now_ns s + window_ns s) offered budgets s1 Hwf1) as (rows & s2 & E2 & St2 & HF);
    [rewrite Hch1; exact Hoff|rewrite Hch1; exact Hbud|].
  rewrite Hch1 in E2, HF. rewrite (sbind_step _ _ _ _ _ E2).
  pose proof (Forall2_rows_get rows (channels s)
    (fun row srow crows => stack_served (now_ns s + window_ns s) offered (budget_at budgets row.1) row srow crows s1 s2)
    (wf_stacks _ Hwf) HF) as Hserved.
  destruct (mapS_reader (check_stack ((fun row : string * list string => (row.1, (fun c => (c, bytes_at s (row.1, c))) <$> row.2)) <$> channels s) offered rows)
     (fun row b => b.1 = row.1) (channels s) s2) as (cons & Ec & _).
  { intros [stack chans] Hin. destruct (Hserved _ Hin) as (srow & crows & Hg & Hs).
    eapply check_stack_spec; [|exact (NoDup_chans _ _ _ Hwf Hin)| |exact Hg| |exact Hs].
    - intros st ch [=-> ->]%list_elem_of_singleton. by apply Hoff.
    - apply dget_elem.
      + unfold dkeys. rewrite <- list_fmap_compose. apply (wf_stacks _ Hwf).
      + by apply (list_elem_of_fmap_2 (fun row : string * list string => (row.1, (fun c => (c, bytes_at s (row.1, c))) <$> row.2)) _ (stack, chans)).
    - intros c Hc. apply H1. by eapply elem_all_keys. }
  rewrite (sbind_step _ _ _ _ _ Ec). unfold sbind, modify, sret. eexists _, _. split; [done|].
  pose proof St1 as St1'. pose proof St2 as St2'. unfold static in St1', St2'.
  injection St1' as Ew1 Ec1 Eb1 Ey1 En1. injection St2' as Ew2 Ec2 Eb2 Ey2 En2.
  split.
  - destruct Hwf. split; unfold all_keys in *; simpl; rewrite <- ?Ec2, <- ?Ec1, <- ?Ew2, <- ?Ew1; try done; [lia|].
    intros k Hk. destruct (elem_all_keys_inv s k Hk) as (st & ch & c & Hin & Hc & ->).
    destruct (Hserved _ Hin) as (srow & crows & Hg & Hs). destruct (ss_chan _ _ _ _ _ _ _ _ Hs c Hc) as (crow & smp & _ & Hcs).
    exact (cs_ok _ _ _ _ _ _ _ Hcs).
  - split; simpl; [done|split_and!; congruence|]. intros stack chans Hin.
    destruct (Hserved _ Hin) as (srow & crows & Hg & Hs). exists crows. split.
    + unfold channel_rows. rewrite (dget_fmap_vals snd rows stack). simpl in Hg. by rewrite Hg.
    + eapply served_window; [|exact St1|exact Hs]. intros c Hc. apply H1. by eapply elem_all_keys.
Qed.

(** ** Construction establishes the invariant *)

Lemma chan_ok_fresh window stack rates c s s' :
  0 < window -> init_channel window rates stack s c = Ok s' ->
  chan_ok (stack, c) s' /\ channels s' = channels s /\ window_ns s' = window_ns s /\ now_ns s' = now_ns s /\
  forall k, k <> (stack, c) -> chan_ok k s -> chan_ok k s'.
Proof.
  intros Hw H. unfold init_channel in H. inv_ok. rename select (_integer_bytes _ _ _ = Ok _) into Hi.
  apply integer_bytes_Ok in Hi as [_ Hrate]. split_and!; try done.
  - do 5 eexists. simpl. rewrite !lookup_insert_eq. split_and!; try done.
    + apply Z.div_pos; unfold NANOSECONDS_PER_SECOND; lia.
    + constructor.
  - intros k Hk (q & o & d & cap & bps & Hc). exists q, o, d, cap, bps. simpl.
    by rewrite !lookup_insert_ne by done.
Qed.

Lemma init_channels_spec window stack rates chans s s' :
  0 < window -> NoDup chans -> foldM (init_channel window rates stack) chans s = Ok s' ->
  (forall c, c ∈ chans -> chan_ok (stack, c) s') /\
  channels s' = channels s /\ window_ns s' = window_ns s /\ now_ns s' = now_ns s /\
  forall k, k ∉ (pair stack <$> chans) -> chan_ok k s -> chan_ok k s'.
Proof.
  intros Hw Hnd H.
  refine (foldM_Ok_ind (fun done s' => (forall c, c ∈ done -> chan_ok (stack, c) s') /\
    channels s' = channels s /\ window_ns s' = window_ns s /\ now_ns s' = now_ns s /\
    forall k, k ∉ (pair stack <$> done) -> chan_ok k s -> chan_ok k s') _ _ s _ _ _ H); [split_and!; set_solver|].
  clear H.
  intros done c todo s1 s2 -> (I1 & I2 & I3 & I4 & I5) Hc.
  destruct (chan_ok_fresh _ _ _ _ _ _ Hw Hc) as (F1 & F2 & F3 & F4 & F5).
  apply NoDup_app in Hnd as (_ & Hdisj & _).
  split_and!; try congruence.
  - intros c' [Hc'| ->%list_elem_of_singleton]%elem_of_app; [|done].
    apply F5; [|by apply I1]. intros [= ->]. apply (Hdisj _ Hc'). set_solver.
  - intros k Hk Hok. rewrite fmap_app in Hk. apply F5; [set_solver|]. apply I5; [set_solver|done].
Qed.

Lemma all_keys_app (l1 l2 : list (string * list string)) :
  concat (row_keys <$> (l1 ++ l2)) = concat (row_keys <$> l1) ++ concat (row_keys <$> l2).
Proof. by rewrite fmap_app, concat_app. Qed.

Lemma row_keys_stack row k : k ∈ row_keys row -> k.1 = row.1.
Proof. unfold row_keys. by intros (c & -> & _)%list_elem_of_fmap. Qed.

Lemma all_keys_stack (s : state) k : k ∈ all_keys s -> k.1 ∈ dkeys (channels s).
Proof.
  intros (st & ch & c & Hin & _ & ->)%elem_all_keys_inv. simpl. apply list_elem_of_fmap. by exists (st, ch).
Qed.

Lemma init_stack_spec window scs rates s stack s' :
  0 < window -> wf s -> stack ∉ dkeys (channels s) ->
  init_stack window scs rates s stack = Ok s' ->
  wf s' /\ dkeys (channels s') = dkeys (channels s) ++ [stack].
Proof.
  intros Hw Hwf Hnew H. unfold init_stack in H. inv_ok. rename x0 into raw.
  rename select (foldM _ _ _ = Ok _) into Hf.
  assert (Hnd : NoDup (isort sle raw)) by (by rewrite isort_perm).
  destruct (init_channels_spec _ _ _ _ _ _ Hw Hnd Hf) as (I1 & I2 & I3 & I4 & I5).
  cbn [channels window_ns now_ns] in *. rewrite dkeys_dset_notin in I2 by done.
  assert (Hrow : row_keys (stack, isort sle raw) = pair stack <$> isort sle raw) by done.
  split; [|rewrite I2; unfold dkeys; by rewrite fmap_app].
  split.
  - unfold all_keys. rewrite I2, all_keys_app. apply NoDup_app. split; [apply (wf_nodup _ Hwf)|]. split.
    + intros k Hk. simpl. rewrite app_nil_r. intros Hk'%row_keys_stack. simpl in Hk'. apply Hnew.
      rewrite <- Hk'. by apply all_keys_stack.
    + simpl. rewrite app_nil_r, Hrow. apply NoDup_fmap_2; [|done]. by intros ?? [=].
  - rewrite I2. unfold dkeys. rewrite fmap_app. apply NoDup_app. split; [apply (wf_stacks _ Hwf)|].
    split; [set_solver|apply NoDup_singleton].
  - rewrite I3. apply (wf_window _ Hwf).
  - rewrite I4. apply (wf_now _ Hwf).
  - intros k. unfold all_keys. rewrite I2, all_keys_app. simpl. rewrite app_nil_r, elem_of_app.
    intros [Hk|Hk].
    + apply I5.
      * intros Hk'. rewrite <- Hrow in Hk'. apply row_keys_stack in Hk'. simpl in Hk'.
        apply Hnew. rewrite <- Hk'. by apply all_keys_stack.
      * exact (wf_chan _ Hwf k Hk).
    + unfold row_keys in Hk. simpl in Hk. apply list_elem_of_fmap in Hk as (c & -> & Hc). by apply I1.
Qed.

Lemma init_wf scs rates w s : NoDup (dkeys scs) -> init scs rates w = Ok s -> wf s.
Proof.
  intros Hnd H. unfold init in H. inv_ok. rename select (_integer_bytes _ _ _ = Ok _) into Hi.
  apply integer_bytes_Ok in Hi as [_ Hw].
  assert (Hnd' : NoDup (isort sle (dkeys scs))) by (by rewrite isort_perm).
  enough (wf s /\ dkeys (channels s) = isort sle (dkeys scs)) by naive_solver.
  refine (foldM_Ok_ind (fun done s => wf s /\ dkeys (channels s) = done) _ _ _ _ _ _ H).
  - split; [|done]. split; simpl; try done; [constructor..|]. intros k Hk. unfold all_keys in Hk. set_solver.
  - intros done st todo s1 s2 Hl [Hwf Hk] Hs. rewrite Hl in Hnd'. apply NoDup_app in Hnd' as (_ & Hd & _).
    assert (Hnew : st ∉ dkeys (channels s1)).
    { rewrite Hk. intros Hin. apply (Hd _ Hin). set_solver. }
    destruct (init_stack_spec _ _ _ _ _ _ Hw Hwf Hnew Hs) as [? ?]. split; [done|]. congruence.
Qed.

(** ** Reachable states *)

(** A run of the service: construction followed by windows. *)
Inductive reachable : state -> Prop :=
| reachable_init scs rates w s : NoDup (dkeys scs) -> init scs rates w = Ok s -> reachable s
| reachable_advance s start_v end_v offered budgets r s' :
    reachable s -> advance start_v end_v offered budgets s = (Ok r, s') -> reachable s'.

(** A window that returns was called at the current time with valid arguments. *)
Lemma advance_Ok_inv s start_v end_v raw_offered raw_budget r s' :
  advance start_v end_v raw_offered raw_budget s = (Ok r, s') ->
  start_v = VInt (now_ns s) /\ end_v = VInt (now_ns s + window_ns s) /\
  exists offered budgets, _validate_offered s raw_offered = Ok offered /\ _validate_budget s raw_budget = Ok budgets.
Proof.
  unfold advance. intros H.
  destruct (_integer_bytes start_v _ _) as [st|] eqn:E1; [|done].
  rewrite (sbind_step _ _ _ st s) in H by done.
  destruct (_integer_bytes end_v _ _) as [en|] eqn:E2; [|done].
  rewrite (sbind_step _ _ _ en s) in H by done. rewrite (sbind_step _ _ _ s s) in H by done.
  destruct (st =? now_ns s) eqn:E3; [|done]. rewrite (sbind_step _ _ _ tt s) in H by done.
  destruct (en - st =? window_ns s) eqn:E4; [|done]. rewrite (sbind_step _ _ _ tt s) in H by done.
  destruct (_validate_offered s raw_offered) as [o|] eqn:E5; [|done].
  rewrite (sbind_step _ _ _ o s) in H by done.
  destruct (_validate_budget s raw_budget) as [b|] eqn:E6; [|done].
  apply integer_bytes_Ok in E1 as [-> _]. apply integer_bytes_Ok in E2 as [-> _].
  apply Z.eqb_eq in E3 as ->. apply Z.eqb_eq in E4.
  split; [done|]. split; [f_equal; lia|]. eauto.
Qed.

Lemma reachable_wf s : reachable s -> wf s.
Proof.
  induction 1 as [scs rates w s Hnd Hi|s sv ev o b r s' _ IH Ha].
  - by eapply init_wf.
  - destruct (advance_Ok_inv _ _ _ _ _ _ _ Ha) as (-> & -> & offd & bu & Ho & Hb).
    destruct (advance_spec s o b offd bu IH Ho Hb) as (r' & s2 & E & Hwf & _). congruence.
Qed.

(** ** Properties *)

(** C5: one service window.  In every reachable state, a call with valid
    arguments returns (none of the conservation assertions, of the FIFO
    accesses or of the percentile scan can fail), re-establishes the
    invariant, and for every channel conserves bytes, respects the channel
    capacity and serves the queue strictly first-in first-out; for every
    stack it delivers exactly [min(budget, serviceable demand)] bytes, shared
    max-min fairly up to one byte. *)
Theorem fluid_advance_window s raw_offered raw_budget offered budgets :
  reachable s ->
  _validate_offered s raw_offered = Ok offered -> _validate_budget s raw_budget = Ok budgets ->
  exists r s', advance (VInt (now_ns s)) (VInt (now_ns s + window_ns s)) raw_offered raw_budget s = (Ok r, s') /\
    wf s' /\ window_step offered budgets s s' r.
Proof. intros H%reachable_wf. by apply advance_spec. Qed.

(** The integer max-min allocation terminates within the model's fuel for
    every nonnegative demand and budget, allocates exactly
    [min(budget, total demand)], never more than the demand of a channel, and
    gives an unsatisfied channel at most one byte less than any other. *)
Theorem fluid_max_min_fair demand budget :
  NoDup (dkeys demand) -> Forall (fun v => 0 <= v) (dvals demand) -> 0 <= budget ->
  exists allocation, _max_min_allocation demand budget = Ok allocation /\
    dkeys allocation = dkeys demand /\
    zsum (dvals allocation) = Z.min budget (zsum (dvals demand)) /\
    (forall c, c ∈ dkeys demand -> 0 <= dget_or allocation c 0 <= dget_or demand c 0) /\
    (forall c c', c ∈ dkeys demand -> c' ∈ dkeys demand ->
       dget_or allocation c 0 < dget_or demand c 0 ->
       dget_or allocation c' 0 <= dget_or allocation c 0 + 1).
Proof.
  intros Hk Hd Hb. rewrite Forall_forall in Hd.
  destruct (max_min_spec demand budget) as (al & Hal & []); try done.
  - intros c [v Hv]%dget_is_Some. unfold dget_or. rewrite Hv. apply Hd.
    apply list_elem_of_fmap. exists (c, v). eauto with hbf.
  - by exists al.
Qed.

(** The byte-weighted p95 is the nearest-rank percentile: it is one of
    the observed delays, fewer than 95% of the bytes have a smaller delay and
    at least 95% have a delay no larger; without samples there is none. *)
Theorem fluid_p95_nearest_rank samples :
  Forall (fun x => 0 < x.2) samples ->
  let total := zsum (snd <$> samples) in
  (samples = [] /\ _weighted_nearest_rank_p95 samples = Ok None) \/
  (exists d, _weighted_nearest_rank_p95 samples = Ok (Some d) /\ d ∈ samples.*1 /\
     100 * bytes_where (fun x => x <? d) samples < 95 * total <= 100 * bytes_where (fun x => x <=? d) samples).
Proof. intros H%p95_spec. destruct samples; [by left|by right]. Qed.

(** Cumulative conservation.  In every reachable state, what was ever
    offered to a channel is what was ever delivered plus its queued bytes. *)
Theorem fluid_cumulative_conservation s k :
  reachable s -> k ∈ all_keys s ->
  exists o d q, cumulative_offered s !! k = Some o /\ cumulative_delivered s !! k = Some d /\
    queues s !! k = Some q /\ o = d + _queue_bytes q /\ positive_queue q.
Proof.
  intros H%reachable_wf Hk. destruct (wf_chan _ H k Hk) as (q & o & d & cap & bps & Hc). exists o, d, q. naive_solver.
Qed.

(** *** Witnesses *)

Definition ex_channels : dict string (list string) := [("hbf0", ["1"; "0"])].
Definition ex_rates : dict string (dict string pyval) :=
  [("hbf0", [("0", VInt 1000000000); ("1", VInt 500000)])].
Definition ex_state : state :=
  match init ex_channels ex_rates (VInt DEFAULT_WINDOW_NS) with
  | Ok s => s
  | Raise _ => mkState 0 [] ∅ ∅ ∅ ∅ ∅ 0
  end.

Lemma ex_state_reachable : reachable ex_state.
Proof.
  apply (reachable_init ex_channels ex_rates (VInt DEFAULT_WINDOW_NS)).
  - apply (bool_decide_unpack _). vm_compute. exact I.
  - vm_compute. reflexivity.
Defined.

Lemma fluid_advance_window_witness :
  exists r s', advance (VInt (now_ns ex_state)) (VInt (now_ns ex_state + window_ns ex_state))
    [("hbf0", [("0", VInt 77); ("1", VInt 9)])] [("hbf0", VInt 30)] ex_state = (Ok r, s') /\
    wf s' /\ window_step [("hbf0", [("0", 77); ("1", 9)])] [("hbf0", 30)] ex_state s' r.
Proof.
  apply (fluid_advance_window ex_state); [apply ex_state_reachable|vm_compute; reflexivity|vm_compute; reflexivity].
Defined.

Lemma fluid_max_min_fair_witness :
  _max_min_allocation [("a", 5); ("b", 100); ("c", 50)] 100 = Ok [("a", 5); ("b", 48); ("c", 47)] /\
  exists allocation, _max_min_allocation [("a", 5); ("b", 100); ("c", 50)] 100 = Ok allocation /\
    dkeys allocation = ["a"; "b"; "c"].
Proof.
  split; [vm_compute; reflexivity|].
  destruct (fluid_max_min_fair [("a", 5); ("b", 100); ("c", 50)] 100) as (al & H1 & H2 & _).
  - apply (bool_decide_unpack _). vm_compute. exact I.
  - apply (bool_decide_unpack _). vm_compute. exact I.
  - lia.
  - exists al. exact (conj H1 H2).
Defined.

Lemma fluid_p95_nearest_rank_witness :
  _weighted_nearest_rank_p95 [(40, 10); (20, 90)] = Ok (Some 40) /\
  (([(40, 10); (20, 90)] = @nil (Z * Z) /\ _weighted_nearest_rank_p95 [(40, 10); (20, 90)] = Ok None) \/
   exists d, _weighted_nearest_rank_p95 [(40, 10); (20, 90)] = Ok (Some d)).
Proof.
  split; [vm_compute; reflexivity|].
  destruct (fluid_p95_nearest_rank [(40, 10); (20, 90)]) as [H|(d & H & _)].
  - apply (bool_decide_unpack _). vm_compute. exact I.
  - by left.
  - right. by exists d.
Defined.

Lemma fluid_cumulative_conservation_witness :
  exists o d q, cumulative_offered ex_state !! ("hbf0", "1") = Some o /\
    cumulative_delivered ex_state !! ("hbf0", "1") = Some d /\
    queues ex_state !! ("hbf0", "1") = Some q /\ o = d + _queue_bytes q /\ positive_queue q.
Proof.
  apply (fluid_cumulative_conservation ex_state ("hbf0", "1")).
  - apply ex_state_reachable.
  - apply (bool_decide_unpack _). vm_compute. exact I.
Defined.

End FluidService.
