(* ===== verification/PlacementPolicy.v ===== *)
(** * Expert-cache placement policies

    Model of [src/adapters/vllm_capacity/placement_policy.py]: the CLOCK, LRU
    and Belady caches that the trace replay runs.  A cache object is a record
    of its attributes, [access] a state action on it.  The theorems prove the
    three classes against one interface, [CachePolicy], and the offline policy
    optimal among everything that satisfies the interface. *)

From S2P Require Import Prelude.

Module PlacementPolicy.

(** [ExpertKey = tuple[int, int]]: layer and expert. *)
Notation ExpertKey := (prod Z Z).

Record AccessResult := { hit : bool; evicted : option ExpertKey }.

Definition Hit : AccessResult := {| hit := true; evicted := None |}.
Definition Miss (victim : option ExpertKey) : AccessResult := {| hit := false; evicted := victim |}.

Definition NEGATIVE_CAPACITY : exn := ValueError "capacity must be non-negative".

(** ** CLOCK *)

(** The capacity is kept as a natural number once the constructor has
    rejected negative ones; [_hand] and the slot numbers are list indices. *)
Record ClockCache := {
  ck_capacity : nat;
  ck_slots : list (option ExpertKey);
  ck_referenced : list bool;
  ck_index : gmap ExpertKey nat;
  ck_hand : nat;
}.

Definition clock_init (capacity : Z) : result ClockCache :=
  let? _ := ensure (0 <=? capacity) NEGATIVE_CAPACITY in
  let n := Z.to_nat capacity in
  Ok {| ck_capacity := n; ck_slots := replicate n None; ck_referenced := replicate n false;
        ck_index := ∅; ck_hand := 0%nat |}.

(** The [for index, value in enumerate(self._slots)] search for a free slot. *)
Fixpoint first_free (slots : list (option ExpertKey)) (index : nat) : option nat :=
  match slots with
  | [] => None
  | None :: _ => Some index
  | Some _ :: rest => first_free rest (S index)
  end.

(** The [while self._referenced[self._hand]] sweep. *)
Fixpoint clock_sweep (fuel capacity : nat) (referenced : list bool) (hand : nat) : result (list bool * nat) :=
  match fuel with
  | O => Raise OutOfFuel
  | S fuel' =>
      let? bit := lget referenced hand in
      if bit : bool then
        let? referenced' := lput referenced hand false in
        clock_sweep fuel' capacity referenced' ((hand + 1) mod capacity)%nat
      else Ok (referenced, hand)
  end.

(** [ClockCache.access].  One sweep visits every slot at most once before it
    meets a bit it has cleared itself, so [capacity + 1] tests are enough. *)
Definition clock_access (key : ExpertKey) (_ : Z) : M ClockCache AccessResult :=
  let! c := get in
  match ck_index c !! key with
  | Some found =>
      let! referenced := lift (lput (ck_referenced c) found true) in
      let! _ := put {| ck_capacity := ck_capacity c; ck_slots := ck_slots c;
                       ck_referenced := referenced; ck_index := ck_index c; ck_hand := ck_hand c |} in
      sret Hit
  | None =>
      if bool_decide (ck_capacity c = 0%nat) then sret (Miss None) else
      match first_free (ck_slots c) 0 with
      | Some index =>
          let! slots := lift (lput (ck_slots c) index (Some key)) in
          let! referenced := lift (lput (ck_referenced c) index true) in
          let! _ := put {| ck_capacity := ck_capacity c; ck_slots := slots; ck_referenced := referenced;
                           ck_index := <[key := index]> (ck_index c); ck_hand := ck_hand c |} in
          sret (Miss None)
      | None =>
          let! (referenced, hand) :=
            lift (clock_sweep (S (ck_capacity c)) (ck_capacity c) (ck_referenced c) (ck_hand c)) in
          let! slot := lift (lget (ck_slots c) hand) in
          let! victim := lift (of_option (AssertionError "") slot) in
          let! _ := lift (of_option (KeyError "") (ck_index c !! victim)) in
          let! slots := lift (lput (ck_slots c) hand (Some key)) in
          let! referenced' := lift (lput referenced hand true) in
          let! _ := put {| ck_capacity := ck_capacity c; ck_slots := slots; ck_referenced := referenced';
                           ck_index := <[key := hand]> (delete victim (ck_index c));
                           ck_hand := ((hand + 1) mod ck_capacity c)%nat |} in
          sret (Miss (Some victim))
      end
  end.

Definition clock_resident (c : ClockCache) : gset ExpertKey := dom (ck_index c).

(** ** LRU *)

(** The [OrderedDict] maps every key to [None], so it is its list of keys,
    least recently used first. *)
Record LruCache := { lru_capacity : nat; lru_order : list ExpertKey }.

Definition lru_init (capacity : Z) : result LruCache :=
  let? _ := ensure (0 <=? capacity) NEGATIVE_CAPACITY in
  Ok {| lru_capacity := Z.to_nat capacity; lru_order := [] |}.

(** [OrderedDict.move_to_end(key)]. *)
Definition move_to_end (key : ExpertKey) (order : list ExpertKey) : list ExpertKey :=
  filter (fun k => k <> key) order ++ [key].

Definition lru_access (key : ExpertKey) (_ : Z) : M LruCache AccessResult :=
  let! c := get in
  if bool_decide (key ∈ lru_order c) then
    let! _ := put {| lru_capacity := lru_capacity c; lru_order := move_to_end key (lru_order c) |} in
    sret Hit
  else if bool_decide (lru_capacity c = 0%nat) then sret (Miss None)
  else
    let! (victim, rest) :=
      if bool_decide (length (lru_order c) = lru_capacity c) then
        match lru_order c with
        | [] => raise (KeyError "dictionary is empty")
        | oldest :: rest => sret (Some oldest, rest)
        end
      else sret (None, lru_order c) in
    let! _ := put {| lru_capacity := lru_capacity c; lru_order := rest ++ [key] |} in
    sret (Miss victim).

Definition lru_resident (c : LruCache) : gset ExpertKey := list_to_set (lru_order c).

(** ** Belady *)

(** The floats of the source: [float(position)], [math.inf] and their
    negations.  [float] is exact on positions below 2^53, far beyond the
    length of a list, so a finite one is kept as its integer. *)
Inductive fpos := NegInf | Fin (z : Z) | PosInf.

#[export] Instance fpos_eq_dec : EqDecision fpos.
Proof. solve_decision. Defined.

Definition fneg (x : fpos) : fpos :=
  match x with NegInf => PosInf | Fin z => Fin (- z) | PosInf => NegInf end.

Definition fle (x y : fpos) : bool :=
  match x, y with
  | NegInf, _ => true
  | _, PosInf => true
  | Fin a, Fin b => a <=? b
  | _, _ => false
  end.

Definition key_le : ExpertKey -> ExpertKey -> bool := lex zle zle.

(** Heap entries [(-next_position, version, key)] with the order of tuples. *)
Notation entry := (prod fpos (prod Z ExpertKey)).
Definition entry_le : entry -> entry -> bool := lex fle (lex zle key_le).

Record BeladyCache := {
  bl_capacity : nat;
  bl_future : gmap ExpertKey (list Z);
  bl_resident : gset ExpertKey;
  bl_versions : gmap ExpertKey Z;
  bl_next : gmap ExpertKey fpos;
  bl_farthest : list entry;
}.

(** The [enumerate(accesses)] loop that records the positions of each key. *)
Fixpoint record_future (accesses : list ExpertKey) (position : Z) (future : gmap ExpertKey (list Z)) :
    gmap ExpertKey (list Z) :=
  match accesses with
  | [] => future
  | key :: rest =>
      record_future rest (position + 1)
        (<[key := default [] (future !! key) ++ [position]]> future)
  end.

Definition belady_init (capacity : Z) (accesses : list ExpertKey) : result BeladyCache :=
  let? _ := ensure (0 <=? capacity) NEGATIVE_CAPACITY in
  Ok {| bl_capacity := Z.to_nat capacity; bl_future := record_future accesses 0 ∅;
        bl_resident := ∅; bl_versions := ∅; bl_next := ∅; bl_farthest := [] |}.

(** [_advance]: consume the position of this access, return the next one. *)
Definition _advance (key : ExpertKey) (position : Z) : M BeladyCache fpos :=
  let! c := get in
  let! queue := lift (of_option (KeyError "") (bl_future c !! key)) in
  match queue with
  | [] => raise (ValueError "Belady access order differs from frozen trace")
  | p :: queue' =>
      let! _ := require (p =? position) (ValueError "Belady access order differs from frozen trace") in
      let! _ := put {| bl_capacity := bl_capacity c; bl_future := <[key := queue']> (bl_future c);
                       bl_resident := bl_resident c; bl_versions := bl_versions c;
                       bl_next := bl_next c; bl_farthest := bl_farthest c |} in
      sret (match queue' with [] => PosInf | q :: _ => Fin q end)
  end.

Definition _record_next (key : ExpertKey) (next_position : fpos) : M BeladyCache unit :=
  let! c := get in
  let version := default 0 (bl_versions c !! key) + 1 in
  put {| bl_capacity := bl_capacity c; bl_future := bl_future c; bl_resident := bl_resident c;
         bl_versions := <[key := version]> (bl_versions c);
         bl_next := <[key := next_position]> (bl_next c);
         bl_farthest := sinsert entry_le (fneg next_position, (version, key)) (bl_farthest c) |}.

(** Whether a popped entry describes the current next use of a resident key. *)
Definition entry_valid (resident : gset ExpertKey) (versions : gmap ExpertKey Z)
    (next : gmap ExpertKey fpos) (e : entry) : bool :=
  let '(negative_next, (version, key)) := e in
  bool_decide (key ∈ resident) && bool_decide (versions !! key = Some version)
  && bool_decide (Some (fneg negative_next) = next !! key).

(** The [while self._farthest] loop: pop entries until a valid one. *)
Fixpoint pop_valid (valid : entry -> bool) (heap : list entry) : option ExpertKey * list entry :=
  match heap with
  | [] => (None, [])
  | e :: heap' => if valid e then (Some e.2.2, heap') else pop_valid valid heap'
  end.

Definition _victim : M BeladyCache ExpertKey :=
  let! c := get in
  let '(key, heap) :=
    pop_valid (entry_valid (bl_resident c) (bl_versions c) (bl_next c)) (bl_farthest c) in
  let! _ := put {| bl_capacity := bl_capacity c; bl_future := bl_future c; bl_resident := bl_resident c;
                   bl_versions := bl_versions c; bl_next := bl_next c; bl_farthest := heap |} in
  lift (of_option (RuntimeError "Belady resident set has no valid victim") key).

(** [_resident.remove(victim)] and [_next.pop(victim, None)]. *)
Definition drop_victim (victim : ExpertKey) : M BeladyCache unit :=
  let! c := get in
  let! _ := require (bool_decide (victim ∈ bl_resident c)) (KeyError "") in
  put {| bl_capacity := bl_capacity c; bl_future := bl_future c;
         bl_resident := bl_resident c ∖ {[victim]}; bl_versions := bl_versions c;
         bl_next := delete victim (bl_next c); bl_farthest := bl_farthest c |}.

Definition add_resident (key : ExpertKey) : M BeladyCache unit :=
  modify (fun c => {| bl_capacity := bl_capacity c; bl_future := bl_future c;
                      bl_resident := {[key]} ∪ bl_resident c; bl_versions := bl_versions c;
                      bl_next := bl_next c; bl_farthest := bl_farthest c |}).

Definition belady_access (key : ExpertKey) (position : Z) : M BeladyCache AccessResult :=
  let! next_position := _advance key position in
  let! c := get in
  if bool_decide (key ∈ bl_resident c) then
    let! _ := _record_next key next_position in
    sret Hit
  else if bool_decide (bl_capacity c = 0%nat) then sret (Miss None)
  else
    let! victim :=
      if bool_decide (size (bl_resident c) = bl_capacity c) then
        let! v := _victim in
        let! _ := drop_victim v in
        sret (Some v)
      else sret None in
    let! _ := add_resident key in
    let! _ := _record_next key next_position in
    sret (Miss victim).

Definition belady_resident (c : BeladyCache) : gset ExpertKey := bl_resident c.

(** ** make_policy *)

Inductive policy :=
| PClock (c : ClockCache)
| PLru (c : LruCache)
| PBelady (c : BeladyCache).

(** [str.lower] as far as it can produce an ASCII string: the ASCII capitals,
    and the Kelvin sign (three UTF-8 bytes), the only other character that
    lowers to ASCII. *)
Definition lower_ascii (a : Ascii.ascii) : Ascii.ascii :=
  let n := Ascii.nat_of_ascii a in
  if ((65 <=? n) && (n <=? 90))%nat then Ascii.ascii_of_nat (n + 32) else a.

Fixpoint lower (s : string) : string :=
  match s with
  | String a rest =>
      match rest with
      | String b (String c rest') =>
          if bool_decide ((Ascii.nat_of_ascii a, Ascii.nat_of_ascii b, Ascii.nat_of_ascii c)
                          = (226, 132, 170)%nat)
          then String (Ascii.ascii_of_nat 107) (lower rest')
          else String (lower_ascii a) (lower rest)
      | _ => String (lower_ascii a) (lower rest)
      end
  | EmptyString => EmptyString
  end.

Definition make_policy (name : string) (capacity : Z) (accesses : list ExpertKey) : result policy :=
  let normalized := lower name in
  if String.eqb normalized "clock" then let? c := clock_init capacity in Ok (PClock c)
  else if String.eqb normalized "lru" then let? c := lru_init capacity in Ok (PLru c)
  else if String.eqb normalized "belady" then let? c := belady_init capacity accesses in Ok (PBelady c)
  else Raise (ValueError ("unsupported cache policy: " +:+ name)).

(** The method calls of the object [make_policy] returns. *)
Definition policy_access (key : ExpertKey) (position : Z) : M policy AccessResult := fun p =>
  match p with
  | PClock c => let '(r, c') := clock_access key position c in (r, PClock c')
  | PLru c => let '(r, c') := lru_access key position c in (r, PLru c')
  | PBelady c => let '(r, c') := belady_access key position c in (r, PBelady c')
  end.

Definition policy_resident (p : policy) : gset ExpertKey :=
  match p with
  | PClock c => clock_resident c
  | PLru c => lru_resident c
  | PBelady c => belady_resident c
  end.

(** ** The interface the replay relies on *)

(** What one access may do to the resident set [s] of a demand-filled cache
    with [cap] slots: a hit changes nothing; a miss loads the key, and evicts
    one resident key exactly when the cache is full; a cache without slots
    stays empty. *)
Definition cache_step (cap : nat) (s : gset ExpertKey) (k : ExpertKey) (r : AccessResult)
    (s' : gset ExpertKey) : Prop :=
  if bool_decide (k ∈ s) then r = Hit /\ s' = s
  else if bool_decide (cap = 0%nat) then r = Miss None /\ s' = s
  else r = Miss (evicted r) /\
    match evicted r with
    | None => (size s < cap)%nat /\ s' = {[k]} ∪ s
    | Some v => size s = cap /\ v ∈ s /\ s' = {[k]} ∪ (s ∖ {[v]})
    end.

(** [pol_ready c todo position]: the cache [c] is well formed and may be
    driven over the accesses [todo], the first one at [position]. *)
Class CachePolicy (C : Type) := {
  pol_access : ExpertKey -> Z -> M C AccessResult;
  pol_resident : C -> gset ExpertKey;
  pol_capacity : C -> nat;
  pol_ready : C -> list ExpertKey -> Z -> Prop;
  pol_bound : forall c todo position, pol_ready c todo position ->
    (size (pol_resident c) <= pol_capacity c)%nat;
  pol_law : forall c k todo position, pol_ready c (k :: todo) position ->
    exists r c', pol_access k position c = (Ok r, c')
      /\ cache_step (pol_capacity c) (pol_resident c) k r (pol_resident c')
      /\ pol_capacity c' = pol_capacity c
      /\ pol_ready c' todo (position + 1);
}.

(** ** CLOCK refines the interface *)

(** [_index] is the inverse of [_slots], and the lists have one entry per slot. *)
Record clock_inv (c : ClockCache) : Prop := {
  ci_slots : length (ck_slots c) = ck_capacity c;
  ci_refs : length (ck_referenced c) = ck_capacity c;
  ci_hand : ck_capacity c = 0%nat \/ (ck_hand c < ck_capacity c)%nat;
  ci_index : forall k i, ck_index c !! k = Some i <-> ck_slots c !! i = Some (Some k);
}.

Lemma first_free_spec slots n :
  match first_free slots n with
  | Some i => exists j, i = (n + j)%nat /\ slots !! j = Some None /\
                        (forall j', (j' < j)%nat -> exists k, slots !! j' = Some (Some k))
  | None => forall i, (i < length slots)%nat -> exists k, slots !! i = Some (Some k)
  end.
Proof.
  revert n. induction slots as [|[k|] slots IH]; intros n; simpl.
  - intros i. lia.
  - specialize (IH (S n)). destruct (first_free slots (S n)).
    + destruct IH as (j & -> & Hj & Hlt). exists (S j). split_and!; [lia|done|].
      intros [|j'] Hj'; [by exists k|]. apply Hlt. lia.
    + intros [|i] Hi; [by exists k|]. apply IH. lia.
  - exists 0%nat. split_and!; [lia|done|]. intros j'. lia.
Qed.

(** The slot [d] places after [h] in a ring of [n] slots. *)
Definition ring (n h d : nat) : nat := ((h + d) mod n)%nat.

Lemma ring_lt n h d : (0 < n)%nat -> (ring n h d < n)%nat.
Proof. intros. apply Nat.mod_upper_bound. lia. Qed.

Lemma ring_0 n h : (h < n)%nat -> ring n h 0 = h.
Proof. intros. unfold ring. rewrite Nat.add_0_r. by apply Nat.mod_small. Qed.

Lemma ring_full n h : (h < n)%nat -> ring n h n = h.
Proof.
  intros. unfold ring. replace (h + n)%nat with (h + 1 * n)%nat by lia.
  rewrite Nat.Div0.mod_add. by apply Nat.mod_small.
Qed.

Lemma ring_S n h d : ring n (ring n h 1) d = ring n h (S d).
Proof. unfold ring. rewrite Nat.Div0.add_mod_idemp_l. f_equal. lia. Qed.

Lemma ring_inj n h d d' : (d < n)%nat -> (d' < n)%nat -> ring n h d = ring n h d' -> d = d'.
Proof.
  unfold ring. intros Hd Hd' H.
  pose proof (Nat.div_mod (h + d) n ltac:(lia)). pose proof (Nat.div_mod (h + d') n ltac:(lia)).
  rewrite H in *. assert ((h + d) / n = (h + d') / n \/ (h + d) / n <> (h + d') / n)%nat as [E|E] by lia.
  - rewrite E in *. lia.
  - assert ((h + d) / n < (h + d') / n \/ (h + d') / n < (h + d) / n)%nat as [?|?] by lia; nia.
Qed.

(** The reference bits after the sweep has passed [m] slots from [h] on. *)
Fixpoint clear_ring (n : nat) (refs : list bool) (h m : nat) : list bool :=
  match m with
  | O => refs
  | S m' => clear_ring n (<[h := false]> refs) (ring n h 1) m'
  end.

Lemma clear_ring_length n refs h m : length (clear_ring n refs h m) = length refs.
Proof. revert refs h. induction m; intros; simpl; [done|]. by rewrite IHm, length_insert. Qed.

Lemma clear_ring_lookup n refs h m d :
  length refs = n -> (h < n)%nat -> (m <= n)%nat -> (d < n)%nat ->
  clear_ring n refs h m !! ring n h d =
    if bool_decide (d < m)%nat then Some false else refs !! ring n h d.
Proof.
  revert refs h d. induction m as [|m IH]; intros refs h d Hl Hh Hm Hd; cbn [clear_ring].
  { by rewrite bool_decide_eq_false_2 by lia. }
  assert (Hr : (ring n h 1 < n)%nat) by (apply ring_lt; lia).
  destruct d as [|d].
  - rewrite bool_decide_eq_true_2 by lia. rewrite ring_0 by done.
    assert (E : ring n (ring n h 1) (n - 1) = h).
    { rewrite ring_S. replace (S (n - 1)) with n by lia. by apply ring_full. }
    pose proof (IH (<[h := false]> refs) (ring n h 1) (n - 1)%nat) as Hi.
    rewrite E, length_insert in Hi. rewrite Hi by lia.
    case_bool_decide; [done|]. by rewrite list_lookup_insert_eq by lia.
  - rewrite <- ring_S, IH by (rewrite ?length_insert; lia).
    rewrite (bool_decide_ext (d < m)%nat (S d < S m)%nat) by lia. case_bool_decide; [done|].
    rewrite list_lookup_insert_ne; [done|]. rewrite ring_S. intros E.
    rewrite <- (ring_0 n h) in E at 1 by done. apply ring_inj in E; lia.
Qed.

(** The sweep passes [m] slots in ring order from [h]: every one of them is
    referenced, and it stops at the first clear bit, or after a full turn. *)
Definition swept (n : nat) (refs : list bool) (h m : nat) : Prop :=
  (m <= n)%nat /\ (forall d, (d < m)%nat -> refs !! ring n h d = Some true) /\
  (m = n \/ ((m < n)%nat /\ refs !! ring n h m = Some false)).

Lemma swept_exists n refs h : length refs = n -> (0 < n)%nat -> exists m, swept n refs h m.
Proof.
  intros Hl Hn.
  enough (H : forall j, (j <= n)%nat -> (exists m, swept n refs h m) \/
                        (forall d, (d < j)%nat -> refs !! ring n h d = Some true)).
  { destruct (H n ltac:(lia)) as [?|Hall]; [done|]. exists n. split_and!; auto. }
  induction j as [|j IH]; intros Hj; [right; lia|].
  destruct IH as [?|Hall]; [lia|by left|].
  destruct (lookup_lt_is_Some_2 refs (ring n h j)) as [[] Hb]; [rewrite Hl; apply ring_lt; lia| |].
  - right. intros d Hd. destruct (decide (d = j)) as [->|]; [done|]. apply Hall. lia.
  - left. exists j. split_and!; auto with lia.
Qed.

Lemma sweep_passes n refs h m fuel :
  length refs = n -> (h < n)%nat -> (m <= n)%nat ->
  (forall d, (d < m)%nat -> refs !! ring n h d = Some true) ->
  clock_sweep (m + fuel) n refs h = clock_sweep fuel n (clear_ring n refs h m) (ring n h m).
Proof.
  revert refs h. induction m as [|m IH]; intros refs h Hl Hh Hm Hall; simpl; [by rewrite ring_0|].
  pose proof (Hall 0%nat ltac:(lia)) as H0. rewrite ring_0 in H0 by done.
  rewrite (lget_Ok _ _ _ H0). simpl. rewrite lput_Ok by lia. simpl.
  fold (ring n h 1). rewrite IH, ring_S; [done|by rewrite length_insert|apply ring_lt; lia|lia|].
  intros d Hd. rewrite ring_S, list_lookup_insert_ne; [apply Hall; lia|].
  intros E. rewrite <- (ring_0 n h) in E at 1 by done. apply ring_inj in E; lia.
Qed.

Lemma sweep_spec n refs h m :
  length refs = n -> (h < n)%nat -> swept n refs h m ->
  clock_sweep (S n) n refs h = Ok (clear_ring n refs h m, ring n h m).
Proof.
  intros Hl Hh (Hm & Hall & Hend). replace (S n) with (m + S (n - m))%nat by lia.
  rewrite sweep_passes by done. simpl.
  assert (E : clear_ring n refs h m !! ring n h m = Some false).
  { destruct Hend as [->|[Hlt Hf]].
    - pose proof (clear_ring_lookup n refs h n 0) as Hc. rewrite ring_0 in Hc by done.
      rewrite ring_full, Hc by lia. by rewrite bool_decide_eq_true_2 by lia.
    - rewrite clear_ring_lookup by lia. by rewrite bool_decide_eq_false_2 by lia. }
  by rewrite (lget_Ok _ _ _ E).
Qed.

(** *** Counting filled slots *)

Lemma omap_id_elem (slots : list (option ExpertKey)) k :
  k ∈ omap id slots <-> exists i, slots !! i = Some (Some k).
Proof.
  rewrite list_elem_of_omap. unfold id. split.
  - intros (o & Ho & ->). by apply list_elem_of_lookup in Ho.
  - intros [i Hi]. exists (Some k). split; [|done]. by apply list_elem_of_lookup_2 in Hi.
Qed.

Lemma omap_id_NoDup (slots : list (option ExpertKey)) :
  (forall i j k, slots !! i = Some (Some k) -> slots !! j = Some (Some k) -> i = j) ->
  NoDup (omap id slots).
Proof.
  induction slots as [|o slots IH]; intros Hinj; [constructor|].
  assert (NoDup (omap id slots)).
  { apply IH. intros i j k Hi Hj. specialize (Hinj (S i) (S j) k Hi Hj). lia. }
  destruct o as [k|]; csimpl; [|done]. apply NoDup_cons. split; [|done].
  intros [i Hi]%omap_id_elem. specialize (Hinj 0%nat (S i) k eq_refl Hi). lia.
Qed.

Lemma omap_id_length (slots : list (option ExpertKey)) :
  (length (omap id slots) <= length slots)%nat.
Proof. induction slots as [|[k|] slots IH]; csimpl; lia. Qed.

Lemma omap_id_length_free (slots : list (option ExpertKey)) j :
  slots !! j = Some None -> (length (omap id slots) < length slots)%nat.
Proof.
  revert j. induction slots as [|[k|] slots IH]; intros [|j] Hj; csimpl in *; simplify_eq.
  - specialize (IH _ Hj). lia.
  - pose proof (omap_id_length slots). lia.
  - pose proof (omap_id_length slots). lia.
Qed.

Lemma omap_id_length_full (slots : list (option ExpertKey)) :
  (forall i, (i < length slots)%nat -> exists k, slots !! i = Some (Some k)) ->
  length (omap id slots) = length slots.
Proof.
  induction slots as [|[k|] slots IH]; intros Hall; csimpl; [done| |].
  - f_equal. apply IH. intros i Hi. apply (Hall (S i)). simpl. lia.
  - destruct (Hall 0%nat) as [? ?]; simpl in *; [lia|done].
Qed.

Lemma clock_resident_slots c : clock_inv c ->
  clock_resident c = list_to_set (omap id (ck_slots c)) /\
  size (clock_resident c) = length (omap id (ck_slots c)).
Proof.
  intros Hi.
  assert (E : clock_resident c = list_to_set (omap id (ck_slots c))).
  { apply set_eq. intros k. unfold clock_resident. rewrite elem_of_dom, elem_of_list_to_set, omap_id_elem.
    split; intros [i H]; exists i; by apply (ci_index _ Hi). }
  split; [done|]. rewrite E. apply size_list_to_set, omap_id_NoDup.
  intros i j k H1%(ci_index _ Hi) H2%(ci_index _ Hi). congruence.
Qed.

Lemma clock_bound c : clock_inv c -> (size (clock_resident c) <= ck_capacity c)%nat.
Proof.
  intros Hi. rewrite (proj2 (clock_resident_slots c Hi)), <- (ci_slots _ Hi). apply omap_id_length.
Qed.

(** *** Storing a key in a slot *)

(** Slot [i] is free or holds [old]; after the store it holds [key]. *)
Lemma index_store (slots : list (option ExpertKey)) (index : gmap ExpertKey nat) i old key :
  (forall k j, index !! k = Some j <-> slots !! j = Some (Some k)) ->
  slots !! i = Some old -> index !! key = None ->
  forall k j, <[key := i]> (match old with Some v => delete v index | None => index end) !! k = Some j
    <-> <[i := Some key]> slots !! j = Some (Some k).
Proof.
  intros Hix Hi Hk k j.
  assert (Hlen : (i < length slots)%nat) by (by apply lookup_lt_Some in Hi).
  destruct (decide (k = key)) as [->|Hne].
  - rewrite lookup_insert_eq. destruct (decide (j = i)) as [->|Hji].
    + by rewrite list_lookup_insert_eq.
    + rewrite list_lookup_insert_ne by done. rewrite <- Hix. split; congruence.
  - rewrite lookup_insert_ne by done. destruct (decide (j = i)) as [->|Hji].
    + rewrite list_lookup_insert_eq by done. split; [|congruence]. destruct old as [v|].
      * intros [Hv H]%lookup_delete_Some. apply Hix in H. congruence.
      * intros H%Hix. congruence.
    + rewrite list_lookup_insert_ne by done. rewrite <- Hix. destruct old as [v|]; [|done].
      rewrite lookup_delete_Some. split; [naive_solver|]. intros H. split; [|done].
      intros <-. apply Hix in Hi. congruence.
Qed.

Lemma dom_store (index : gmap ExpertKey nat) key i :
  dom (<[key := i]> index) = {[key]} ∪ dom index.
Proof. apply dom_insert_L. Qed.

(** One access of a full CLOCK: which slot is replaced, and the new bits. *)
Lemma clock_replace c key position m :
  clock_inv c -> ck_capacity c <> 0%nat -> ck_index c !! key = None ->
  (forall i, (i < length (ck_slots c))%nat -> exists k, ck_slots c !! i = Some (Some k)) ->
  swept (ck_capacity c) (ck_referenced c) (ck_hand c) m ->
  exists victim,
    let p := ring (ck_capacity c) (ck_hand c) m in
    ck_slots c !! p = Some (Some victim) /\
    clock_access key position c =
      (Ok (Miss (Some victim)),
       {| ck_capacity := ck_capacity c; ck_slots := <[p := Some key]> (ck_slots c);
          ck_referenced :=
            <[p := true]> (clear_ring (ck_capacity c) (ck_referenced c) (ck_hand c) m);
          ck_index := <[key := p]> (delete victim (ck_index c));
          ck_hand := ring (ck_capacity c) p 1 |}).
Proof.
  intros Hi Hcap Hkey Hfull Hm. pose proof (ci_slots _ Hi) as Hs. pose proof (ci_refs _ Hi) as Hr.
  destruct (ci_hand _ Hi) as [?|Hh]; [done|].
  set (p := ring (ck_capacity c) (ck_hand c) m).
  assert (Hp : (p < ck_capacity c)%nat) by (apply ring_lt; lia).
  destruct (Hfull p ltac:(lia)) as [v Hv]. exists v. split; [exact Hv|].
  unfold clock_access. erewrite sbind_step by reflexivity. rewrite Hkey.
  rewrite bool_decide_eq_false_2 by done.
  pose proof (first_free_spec (ck_slots c) 0) as Hff. destruct (first_free (ck_slots c) 0) as [i|].
  { destruct Hff as (j & -> & Hj & _).
    destruct (Hfull j ltac:(by apply lookup_lt_Some in Hj)) as [? ?]. congruence. }
  erewrite sbind_step by (apply lift_Ok, (sweep_spec _ _ _ m); auto).
  cbn beta iota. fold p. erewrite sbind_step by (apply lift_Ok, lget_Ok, Hv).
  erewrite sbind_step by (apply lift_Ok; reflexivity).
  erewrite sbind_step by (apply lift_Ok; by rewrite (proj2 (ci_index _ Hi v p) Hv)).
  erewrite sbind_step by (apply lift_Ok, lput_Ok; lia).
  erewrite sbind_step by (apply lift_Ok, lput_Ok; rewrite clear_ring_length; lia).
  reflexivity.
Qed.

Lemma clock_law c k position : clock_inv c ->
  exists r c', clock_access k position c = (Ok r, c')
    /\ cache_step (ck_capacity c) (clock_resident c) k r (clock_resident c')
    /\ ck_capacity c' = ck_capacity c /\ clock_inv c'.
Proof.
  intros Hi. pose proof (ci_slots _ Hi) as Hs. pose proof (ci_refs _ Hi) as Hr.
  pose proof (proj2 (clock_resident_slots c Hi)) as Hsize.
  unfold cache_step. destruct (ck_index c !! k) as [i|] eqn:Hk.
  { (* hit *)
    pose proof (lookup_lt_Some _ _ _ (proj1 (ci_index _ Hi k i) Hk)) as Hlt.
    eexists _, _. split.
    { unfold clock_access. erewrite sbind_step by reflexivity. rewrite Hk.
      erewrite sbind_step by (apply lift_Ok, lput_Ok; lia). reflexivity. }
    rewrite bool_decide_eq_true_2 by (apply elem_of_dom; eauto). split; [done|]. split; [done|].
    constructor; simpl; rewrite ?length_insert; apply Hi. }
  rewrite bool_decide_eq_false_2 by (unfold clock_resident; rewrite not_elem_of_dom; done).
  destruct (decide (ck_capacity c = 0%nat)) as [H0|H0].
  { (* no slots *)
    eexists _, _. split.
    { unfold clock_access. erewrite sbind_step by reflexivity. rewrite Hk.
      rewrite bool_decide_eq_true_2 by done. reflexivity. }
    rewrite bool_decide_eq_true_2 by done. done. }
  destruct (ci_hand _ Hi) as [?|Hh]; [done|].
  pose proof (first_free_spec (ck_slots c) 0) as Hff. destruct (first_free (ck_slots c) 0) as [i|] eqn:Ef.
  - (* free slot *)
    destruct Hff as (j & -> & Hj & _). simpl in *. pose proof (lookup_lt_Some _ _ _ Hj) as Hlt.
    eexists _, _. split.
    { unfold clock_access. erewrite sbind_step by reflexivity. rewrite Hk.
      rewrite bool_decide_eq_false_2 by done. rewrite Ef.
      erewrite sbind_step by (apply lift_Ok, lput_Ok; lia).
      erewrite sbind_step by (apply lift_Ok, lput_Ok; lia). reflexivity. }
    rewrite bool_decide_eq_false_2 by done. simpl. split_and!; try done.
    + rewrite Hsize, <- Hs. by apply omap_id_length_free in Hj.
    + unfold clock_resident. simpl. apply dom_store.
    + constructor; simpl; rewrite ?length_insert; auto. apply (index_store _ _ _ None); [apply Hi|done..].
  - (* replacement *)
    destruct (swept_exists _ (ck_referenced c) (ck_hand c) Hr ltac:(lia)) as [m Hm].
    destruct (clock_replace c k position m) as (v & Hv & ->); auto.
    assert (Hix : ck_index c !! v = Some (ring (ck_capacity c) (ck_hand c) m)) by (by apply Hi).
    eexists _, _. split; [reflexivity|]. rewrite bool_decide_eq_false_2 by done. simpl.
    split_and!; try done.
    + rewrite Hsize, <- Hs. by apply omap_id_length_full.
    + apply elem_of_dom. eauto.
    + unfold clock_resident. simpl. by rewrite dom_store, dom_delete_L.
    + constructor; simpl; rewrite ?length_insert, ?clear_ring_length; auto.
      * right. apply ring_lt. lia.
      * apply (index_store _ _ _ (Some v)); [apply Hi|done..].
Qed.

Lemma clock_init_inv capacity c : clock_init capacity = Ok c ->
  clock_inv c /\ clock_resident c = ∅ /\ ck_capacity c = Z.to_nat capacity /\ 0 <= capacity.
Proof.
  unfold clock_init. intros H. inv_ok. split_and!; simpl; try done; [|lia].
  constructor; simpl; rewrite ?length_replicate; auto; [destruct (Z.to_nat capacity); lia|].
  intros k i. rewrite lookup_empty. split; [done|]. intros [? ?]%lookup_replicate. done.
Qed.

#[export] Instance clock_policy : CachePolicy ClockCache := {
  pol_access := clock_access; pol_resident := clock_resident; pol_capacity := ck_capacity;
  pol_ready c _ _ := clock_inv c;
  pol_bound c _ _ := clock_bound c;
  pol_law c k _ position := clock_law c k position;
}.

(** ** LRU refines the interface *)

Record lru_inv (c : LruCache) : Prop := {
  li_nodup : NoDup (lru_order c);
  li_bound : (length (lru_order c) <= lru_capacity c)%nat;
}.

Lemma move_to_end_perm k order : NoDup order -> k ∈ order -> move_to_end k order ≡ₚ order.
Proof.
  intros Hnd Hk. unfold move_to_end. apply NoDup_Permutation; [|done|].
  - apply NoDup_app. split_and!; [by apply NoDup_filter| |apply NoDup_singleton].
    intros x [? ?]%list_elem_of_filter. by rewrite list_elem_of_singleton.
  - intros x. rewrite elem_of_app, list_elem_of_filter, list_elem_of_singleton.
    destruct (decide (x = k)) as [->|]; naive_solver.
Qed.

Lemma lru_size c : lru_inv c -> size (lru_resident c) = length (lru_order c).
Proof. intros Hi. apply size_list_to_set, Hi. Qed.

Lemma lru_law c k position : lru_inv c ->
  exists r c', lru_access k position c = (Ok r, c')
    /\ cache_step (lru_capacity c) (lru_resident c) k r (lru_resident c')
    /\ lru_capacity c' = lru_capacity c /\ lru_inv c'.
Proof.
  intros Hi. pose proof (li_nodup _ Hi) as Hnd. pose proof (li_bound _ Hi) as Hb.
  unfold cache_step. rewrite (bool_decide_ext (k ∈ lru_resident c) (k ∈ lru_order c))
    by (unfold lru_resident; by rewrite elem_of_list_to_set).
  rewrite lru_size by done. unfold lru_access. erewrite sbind_step by reflexivity.
  destruct (decide (k ∈ lru_order c)) as [Hk|Hk].
  { rewrite !(bool_decide_eq_true_2 (k ∈ _)) by done.
    pose proof (move_to_end_perm k _ Hnd Hk) as Hp.
    eexists _, _. split; [reflexivity|]. split_and!; try done.
    - unfold lru_resident. simpl. by rewrite Hp.
    - constructor; simpl; by rewrite Hp. }
  rewrite !(bool_decide_eq_false_2 (k ∈ _)) by done.
  case_bool_decide as H0; [by eexists _, _|].
  assert (Hstore : forall rest, NoDup rest -> k ∉ rest -> (length rest < lru_capacity c)%nat ->
    lru_inv {| lru_capacity := lru_capacity c; lru_order := rest ++ [k] |}).
  { intros rest Hr Hkr Hl. constructor; simpl; [|rewrite length_app; simpl; lia].
    apply NoDup_app. split_and!; [done| |apply NoDup_singleton].
    intros x Hx. rewrite list_elem_of_singleton. congruence. }
  case_bool_decide as Hfull.
  - destruct (lru_order c) as [|v rest] eqn:Ho; [simpl in Hfull; lia|].
    apply NoDup_cons in Hnd as [Hv Hnd]. rewrite not_elem_of_cons in Hk. destruct Hk as [Hkv Hk].
    eexists _, _. split; [reflexivity|]. unfold lru_resident. rewrite Ho. simpl in *.
    split_and!; try done; [set_solver| |apply Hstore; [done..|lia]].
    rewrite list_to_set_app_L. set_solver.
  - eexists _, _. split; [reflexivity|]. unfold lru_resident. simpl.
    split_and!; try done; [lia| |apply Hstore; [done..|lia]].
    rewrite list_to_set_app_L. set_solver.
Qed.

#[export] Instance lru_policy : CachePolicy LruCache.
Proof.
  refine {| pol_access := lru_access; pol_resident := lru_resident; pol_capacity := lru_capacity;
            pol_ready c _ _ := lru_inv c; pol_law c k _ position := lru_law c k position |}.
  abstract (intros c _ _ Hi; rewrite lru_size by done; apply Hi).
Defined.

Lemma lru_init_inv capacity c : lru_init capacity = Ok c ->
  lru_inv c /\ lru_order c = [] /\ lru_capacity c = Z.to_nat capacity /\ 0 <= capacity.
Proof.
  unfold lru_init. intros H. inv_ok. split_and!; simpl; try done; [|lia].
  constructor; simpl; [constructor|lia].
Qed.

(** ** Belady refines the interface *)

#[export] Instance fle_order : BoolOrder fle.
Proof.
  split.
  - intros [|a|] [|b|]; simpl; auto. rewrite !Z.leb_le. lia.
  - intros [|a|] [|b|] [|c|]; simpl; auto; try congruence. rewrite !Z.leb_le. lia.
  - intros [|a|] [|b|]; simpl; auto; try congruence. rewrite !Z.leb_le. intros. f_equal. lia.
Qed.

#[export] Instance entry_le_order : BoolOrder entry_le.
Proof. unfold entry_le, key_le. apply _. Qed.

Lemma fneg_involutive x : fneg (fneg x) = x.
Proof. destruct x; simpl; f_equal; lia. Qed.

Lemma fle_fneg x y : fle (fneg x) (fneg y) = fle y x.
Proof. destruct x, y; simpl; try done. apply eq_bool_prop_intro. rewrite !Is_true_true, !Z.leb_le. lia. Qed.

Lemma entry_le_fst e e' : entry_le e e' = true -> fle e.1 e'.1 = true.
Proof.
  unfold entry_le at 1, lex at 1. case_decide as E; [|done]. intros _. rewrite E. by destruct e', f; simpl; rewrite ?Z.leb_refl.
Qed.

(** The positions of [k] in [todo], counted from [position]. *)
Fixpoint occ (k : ExpertKey) (todo : list ExpertKey) (position : Z) : list Z :=
  match todo with
  | [] => []
  | k' :: rest => (if decide (k = k') then [position] else []) ++ occ k rest (position + 1)
  end.

(** The next use of [k]: its first position, or infinity. *)
Definition next_use (k : ExpertKey) (todo : list ExpertKey) (position : Z) : fpos :=
  match occ k todo position with [] => PosInf | q :: _ => Fin q end.

Lemma record_future_occ accesses position future k :
  default [] (record_future accesses position future !! k)
  = default [] (future !! k) ++ occ k accesses position.
Proof.
  revert position future. induction accesses as [|k' rest IH]; intros position future; simpl.
  - by rewrite app_nil_r.
  - rewrite IH. destruct (decide (k = k')) as [->|].
    + rewrite lookup_insert_eq. simpl. by rewrite <- app_assoc.
    + by rewrite lookup_insert_ne.
Qed.

Lemma next_use_ne k k' todo position : k <> k' ->
  next_use k (k' :: todo) position = next_use k todo (position + 1).
Proof. intros. unfold next_use. simpl. by rewrite decide_False. Qed.

(** A key is used within the next [t] accesses iff its next use is that near. *)
Lemma next_use_take k todo position (t : nat) :
  k ∈ take t todo <-> fle (next_use k todo position) (Fin (position + Z.of_nat t - 1)) = true.
Proof.
  unfold next_use. revert position t. induction todo as [|k' rest IH]; intros position t; simpl.
  - rewrite take_nil. set_solver.
  - destruct t as [|t]; simpl.
    + specialize (IH (position + 1) 0%nat). rewrite take_0 in IH. split; [set_solver|].
      destruct (decide (k = k')); simpl; [rewrite Z.leb_le; lia|]. intros H. apply IH.
      destruct (occ k rest (position + 1)); [done|]. simpl in *. rewrite Z.leb_le in *. lia.
    + destruct (decide (k = k')) as [->|]; simpl.
      * rewrite Z.leb_le. split; [lia|]. intros _. apply elem_of_cons. by left.
      * rewrite elem_of_cons, (IH (position + 1)).
        replace (position + 1 + Z.of_nat t - 1) with (position + Z.of_nat (S t) - 1) by lia. naive_solver.
Qed.

(** [far c todo v]: no resident key is used later than [v]. *)
Definition farthest (s : gset ExpertKey) (todo : list ExpertKey) (v : ExpertKey) : Prop :=
  forall x (t : nat), x ∈ s -> v ∈ take t todo -> x ∈ take t todo.

Lemma farthest_next s todo position v :
  (forall x, x ∈ s -> fle (next_use x todo position) (next_use v todo position) = true) ->
  farthest s todo v.
Proof.
  intros H x t Hx Hv. apply (next_use_take _ _ position). apply (next_use_take _ _ position) in Hv.
  eapply bo_trans; eauto.
Qed.

(** The heap holds the current entry of every resident key, and the recorded
    positions are those of the accesses still to come. *)
Record belady_inv (c : BeladyCache) (todo : list ExpertKey) (position : Z) : Prop := {
  bi_future : forall k, default [] (bl_future c !! k) = occ k todo position;
  bi_next : forall k, k ∈ bl_resident c -> bl_next c !! k = Some (next_use k todo position);
  bi_heap : forall k, k ∈ bl_resident c -> exists ver, bl_versions c !! k = Some ver /\
              (fneg (next_use k todo position), (ver, k)) ∈ bl_farthest c;
  bi_sorted : sorted entry_le (bl_farthest c);
  bi_bound : (size (bl_resident c) <= bl_capacity c)%nat;
}.

Lemma pop_valid_spec valid heap :
  match pop_valid valid heap with
  | (Some k, heap') => exists skipped e, heap = skipped ++ e :: heap' /\ valid e = true /\ e.2.2 = k /\
                         forall e', e' ∈ skipped -> valid e' = false
  | (None, _) => forall e, e ∈ heap -> valid e = false
  end.
Proof.
  induction heap as [|e heap IH]; simpl; [set_solver|]. destruct (valid e) eqn:E.
  - exists [], e. split_and!; try done. set_solver.
  - destruct (pop_valid valid heap) as [[k|] heap'].
    + destruct IH as (sk & e' & -> & ? & ? & ?). exists (e :: sk), e'. split_and!; try done.
      intros e'' [->|?]%elem_of_cons; auto.
    + intros e' [->|?]%elem_of_cons; auto.
Qed.

Lemma entry_valid_resident c todo position k ver :
  belady_inv c todo position -> k ∈ bl_resident c -> bl_versions c !! k = Some ver ->
  entry_valid (bl_resident c) (bl_versions c) (bl_next c) (fneg (next_use k todo position), (ver, k)) = true.
Proof.
  intros Hi Hk Hv. unfold entry_valid. rewrite fneg_involutive, (bi_next _ _ _ Hi k Hk).
  by rewrite !bool_decide_eq_true_2.
Qed.

(** The victim search finds a resident key whose next use is the farthest. *)
Lemma victim_spec c todo position :
  belady_inv c todo position -> bl_resident c <> ∅ ->
  exists v heap, _victim c = (Ok v, {| bl_capacity := bl_capacity c; bl_future := bl_future c;
      bl_resident := bl_resident c; bl_versions := bl_versions c; bl_next := bl_next c;
      bl_farthest := heap |})
    /\ v ∈ bl_resident c /\ farthest (bl_resident c) todo v /\ sorted entry_le heap
    /\ (forall x e, x ∈ bl_resident c -> x <> v -> e.2.2 = x ->
          entry_valid (bl_resident c) (bl_versions c) (bl_next c) e = true ->
          e ∈ bl_farthest c -> e ∈ heap).
Proof.
  intros Hi Hne. set (valid := entry_valid (bl_resident c) (bl_versions c) (bl_next c)).
  pose proof (pop_valid_spec valid (bl_farthest c)) as Hpop.
  unfold _victim. erewrite sbind_step by reflexivity. fold valid.
  destruct (pop_valid valid (bl_farthest c)) as [[v|] heap].
  - destruct Hpop as (sk & [neg [ver k]] & Hheap & Hval & <- & Hsk). simpl in *.
    pose proof (bi_sorted _ _ _ Hi) as Hsort. rewrite Hheap in Hsort.
    apply sorted_app_inv in Hsort as [[Hmin Hsort] _].
    unfold valid, entry_valid in Hval. rewrite !andb_true_iff, !bool_decide_eq_true in Hval.
    destruct Hval as [[Hk Hver] Hnext]. rewrite (bi_next _ _ _ Hi k Hk) in Hnext. injection Hnext as Hnext.
    exists k, heap. split; [reflexivity|]. split_and!; [done| |done|].
    + apply farthest_next with position. intros x Hx. destruct (bi_heap _ _ _ Hi x Hx) as (vx & Hvx & Hin).
      pose proof (entry_valid_resident _ _ _ _ _ Hi Hx Hvx) as Hxv.
      rewrite Hheap, elem_of_app, elem_of_cons in Hin. destruct Hin as [Hin|[Heq|Hin]].
      * apply Hsk in Hin. unfold valid in Hin. congruence.
      * injection Heq as _ _ ->. exact (bo_refl fle _).
      * rewrite Forall_forall in Hmin. apply Hmin, entry_le_fst in Hin. simpl in Hin.
        by rewrite <- Hnext, <- (fneg_involutive (next_use x _ _)), fle_fneg.
    + intros x e Hx Hxk He Hev Hin. rewrite Hheap, elem_of_app, elem_of_cons in Hin.
      destruct Hin as [Hin|[->|Hin]]; [|by simpl in He|done]. apply Hsk in Hin. congruence.
  - exfalso. destruct (set_choose_L _ Hne) as [x Hx]. destruct (bi_heap _ _ _ Hi x Hx) as (vx & Hvx & Hin).
    apply Hpop in Hin. unfold valid in Hin. by rewrite (entry_valid_resident _ _ _ _ _ Hi Hx Hvx) in Hin.
Qed.

(** [_advance] on the frozen trace: the position matches, and the value
    returned is the key's next use. *)
Lemma belady_advance_spec c k todo position :
  belady_inv c (k :: todo) position ->
  exists future,
    _advance k position c = (Ok (next_use k todo (position + 1)),
      {| bl_capacity := bl_capacity c; bl_future := future; bl_resident := bl_resident c;
         bl_versions := bl_versions c; bl_next := bl_next c; bl_farthest := bl_farthest c |})
    /\ forall x, default [] (future !! x) = occ x todo (position + 1).
Proof.
  intros Hi. pose proof (bi_future _ _ _ Hi k) as Hf. simpl in Hf. rewrite decide_True in Hf by done.
  destruct (bl_future c !! k) as [q|] eqn:Eq; simpl in Hf; [|done]. subst q.
  exists (<[k := occ k todo (position + 1)]> (bl_future c)). split.
  - unfold _advance. erewrite sbind_step by reflexivity. rewrite Eq.
    erewrite sbind_step by (apply lift_Ok; reflexivity). simpl.
    erewrite sbind_step by (apply require_Ok, Z.eqb_refl). reflexivity.
  - intros x. destruct (decide (x = k)) as [->|]; [by rewrite lookup_insert_eq|].
    rewrite lookup_insert_ne by done. rewrite (bi_future _ _ _ Hi). simpl. by rewrite decide_False.
Qed.

(** [_record_next] makes the entry of [k] current and leaves the others. *)
Lemma record_next_inv c k todo position :
  (forall x, default [] (bl_future c !! x) = occ x todo position) ->
  (forall x, x ∈ bl_resident c -> x <> k -> bl_next c !! x = Some (next_use x todo position)) ->
  (forall x, x ∈ bl_resident c -> x <> k -> exists ver, bl_versions c !! x = Some ver /\
     (fneg (next_use x todo position), (ver, x)) ∈ bl_farthest c) ->
  sorted entry_le (bl_farthest c) -> (size (bl_resident c) <= bl_capacity c)%nat ->
  exists c', _record_next k (next_use k todo position) c = (Ok tt, c')
    /\ bl_resident c' = bl_resident c /\ bl_capacity c' = bl_capacity c /\ belady_inv c' todo position.
Proof.
  intros Hf Hn Hh Hs Hb. unfold _record_next. erewrite sbind_step by reflexivity.
  unfold put. eexists. split; [reflexivity|]. split_and!; [done..|]. constructor; simpl.
  - done.
  - intros x Hx. destruct (decide (x = k)) as [->|]; [by rewrite lookup_insert_eq|].
    rewrite lookup_insert_ne by done. auto.
  - intros x Hx. destruct (decide (x = k)) as [->|Hne].
    + eexists. rewrite lookup_insert_eq. split; [done|]. apply sinsert_elem. by left.
    + destruct (Hh x Hx Hne) as (ver & Hv & Hin). exists ver. rewrite lookup_insert_ne by done.
      split; [done|]. apply sinsert_elem. by right.
  - by apply sinsert_sorted_order; [apply _|].
  - done.
Qed.

(** Loading a missing key into a cache that has room for it. *)
Lemma load_inv c k todo position :
  belady_inv c todo position -> (size (bl_resident c) < bl_capacity c)%nat ->
  exists c', (let! _ := add_resident k in _record_next k (next_use k todo position)) c = (Ok tt, c')
    /\ bl_resident c' = {[k]} ∪ bl_resident c /\ bl_capacity c' = bl_capacity c
    /\ belady_inv c' todo position.
Proof.
  intros [Hf Hn Hh Hs _] Hb. unfold add_resident. erewrite sbind_step by reflexivity.
  destruct (record_next_inv {| bl_capacity := bl_capacity c; bl_future := bl_future c;
      bl_resident := {[k]} ∪ bl_resident c; bl_versions := bl_versions c;
      bl_next := bl_next c; bl_farthest := bl_farthest c |} k todo position) as (c' & Hrec & Hr & Hc & Hi'); simpl.
  - done.
  - intros x Hx Hne. apply Hn. set_solver.
  - intros x Hx Hne. apply Hh. set_solver.
  - done.
  - rewrite size_union_alt, size_singleton.
    pose proof (subseteq_size (bl_resident c ∖ {[k]}) (bl_resident c)). set_solver by lia.
  - by exists c'.
Qed.

(** Making room in a full cache. *)
Definition evict_one : M BeladyCache (option ExpertKey) :=
  let! v := _victim in let! _ := drop_victim v in sret (Some v).

Lemma evict_inv c todo position :
  belady_inv c todo position -> bl_resident c <> ∅ ->
  exists v c', evict_one c = (Ok (Some v), c')
    /\ v ∈ bl_resident c /\ farthest (bl_resident c) todo v
    /\ bl_resident c' = bl_resident c ∖ {[v]} /\ bl_capacity c' = bl_capacity c
    /\ belady_inv c' todo position.
Proof.
  intros Hi Hne. destruct (victim_spec c todo position Hi Hne) as (v & heap & Hvic & Hvin & Hfar & Hsort & Hkeep).
  eexists v, _. split.
  { unfold evict_one. erewrite sbind_step by exact Hvic. unfold drop_victim. rewrite sbind_assoc.
    erewrite sbind_step by reflexivity. rewrite sbind_assoc. simpl.
    erewrite sbind_step by (apply require_Ok, bool_decide_eq_true_2, Hvin). reflexivity. }
  split_and!; [done..|]. constructor; simpl; [apply Hi| | |done|].
  - intros x Hx. rewrite lookup_delete_ne by set_solver. apply (bi_next _ _ _ Hi). set_solver.
  - intros x Hx. destruct (bi_heap _ _ _ Hi x) as (ver & Hv & Hin); [set_solver|]. exists ver. split; [done|].
    eapply Hkeep; simpl; [| |reflexivity| |done]; [set_solver..|].
    apply (entry_valid_resident _ _ _ _ _ Hi); [set_solver|done].
  - pose proof (bi_bound _ _ _ Hi). pose proof (subseteq_size (bl_resident c ∖ {[v]}) (bl_resident c)).
    set_solver by lia.
Qed.

(** The miss branch of [belady_access], from the state [_advance] leaves. *)
Lemma belady_miss c k todo position :
  belady_inv c todo position -> k ∉ bl_resident c -> bl_capacity c <> 0%nat ->
  exists victim c',
    (let! victim := if bool_decide (size (bl_resident c) = bl_capacity c) then evict_one else sret None in
     let! _ := add_resident k in
     let! _ := _record_next k (next_use k todo position) in sret (Miss victim)) c = (Ok (Miss victim), c')
    /\ cache_step (bl_capacity c) (bl_resident c) k (Miss victim) (bl_resident c')
    /\ (forall v, victim = Some v -> farthest (bl_resident c) todo v)
    /\ bl_capacity c' = bl_capacity c /\ belady_inv c' todo position.
Proof.
  intros Hi Hk H0. pose proof (bi_bound _ _ _ Hi) as Hb. unfold cache_step.
  rewrite (bool_decide_eq_false_2 (k ∈ _)), (bool_decide_eq_false_2 (_ = 0%nat)) by done.
  case_bool_decide as Hfull.
  - destruct (evict_inv c todo position Hi) as (v & c2 & Hev & Hv & Hfar & Hr2 & Hc2 & Hi2).
    { intros E. rewrite E, size_empty in Hfull. done. }
    destruct (load_inv c2 k todo position Hi2) as (c' & Hload & Hr & Hc & Hi').
    { rewrite Hr2, Hc2, size_difference, size_singleton by set_solver. lia. }
    exists (Some v), c'. split.
    { erewrite sbind_step by exact Hev. rewrite <- sbind_assoc. by erewrite sbind_step by exact Hload. }
    rewrite Hr, Hr2, Hc, Hc2. split_and!; try done. by intros ? [= <-].
  - destruct (load_inv c k todo position Hi) as (c' & Hload & Hr & Hc & Hi'); [lia|].
    exists None, c'. split.
    { erewrite sbind_step by reflexivity. rewrite <- sbind_assoc. by erewrite sbind_step by exact Hload. }
    split; [split; [done|]; split; [lia|done]|]. by split_and!.
Qed.

Lemma belady_law c k todo position : belady_inv c (k :: todo) position ->
  exists r c', belady_access k position c = (Ok r, c')
    /\ cache_step (bl_capacity c) (bl_resident c) k r (bl_resident c')
    /\ (forall v, evicted r = Some v -> farthest (bl_resident c) todo v)
    /\ bl_capacity c' = bl_capacity c /\ belady_inv c' todo (position + 1).
Proof.
  intros Hi. destruct (belady_advance_spec c k todo position Hi) as (future & Hadv & Hfut).
  set (c1 := {| bl_capacity := bl_capacity c; bl_future := future; bl_resident := bl_resident c;
    bl_versions := bl_versions c; bl_next := bl_next c; bl_farthest := bl_farthest c |}) in *.
  assert (Hnext : forall x, x ∈ bl_resident c -> x <> k ->
            bl_next c !! x = Some (next_use x todo (position + 1))).
  { intros x Hx Hne. rewrite <- (next_use_ne x k) by done. by apply (bi_next _ _ _ Hi). }
  assert (Hheap : forall x, x ∈ bl_resident c -> x <> k -> exists ver, bl_versions c !! x = Some ver /\
            (fneg (next_use x todo (position + 1)), (ver, x)) ∈ bl_farthest c).
  { intros x Hx Hne. rewrite <- (next_use_ne x k) by done. by apply (bi_heap _ _ _ Hi). }
  unfold belady_access. erewrite sbind_step by exact Hadv. erewrite sbind_step by reflexivity.
  change (bl_resident c1) with (bl_resident c). change (bl_capacity c1) with (bl_capacity c).
  destruct (decide (k ∈ bl_resident c)) as [Hk|Hk].
  { rewrite (bool_decide_eq_true_2 (k ∈ _)) by done. unfold cache_step. rewrite (bool_decide_eq_true_2 (k ∈ _)) by done.
    destruct (record_next_inv c1 k todo (position + 1)) as (c' & Hrec & Hr & Hc & Hi');
      [done|done|done|apply (bi_sorted _ _ _ Hi)|apply (bi_bound _ _ _ Hi)|].
    eexists _, c'. split; [by erewrite sbind_step by exact Hrec|]. by split_and!. }
  assert (Hi1 : belady_inv c1 todo (position + 1)).
  { constructor; simpl; [done| | |apply (bi_sorted _ _ _ Hi)|apply (bi_bound _ _ _ Hi)];
      intros x Hx; [apply Hnext|apply Hheap]; set_solver. }
  rewrite (bool_decide_eq_false_2 (k ∈ _)) by done.
  case_bool_decide as H0.
  { eexists _, c1. split; [reflexivity|]. unfold cache_step. rewrite bool_decide_eq_false_2 by done.
    rewrite bool_decide_eq_true_2 by done. by split_and!. }
  destruct (belady_miss c1 k todo (position + 1) Hi1 Hk H0) as (v & c' & Hm & Hrest).
  by exists (Miss v), c'.
Qed.

Lemma belady_init_inv capacity accesses c : belady_init capacity accesses = Ok c ->
  belady_inv c accesses 0 /\ bl_resident c = ∅ /\ bl_capacity c = Z.to_nat capacity /\ 0 <= capacity.
Proof.
  unfold belady_init. intros H. inv_ok. split_and!; simpl; try done; [|lia].
  constructor; cbn [bl_future bl_resident bl_capacity bl_farthest sorted]; try done;
    [|rewrite size_empty; lia].
  intros k. rewrite record_future_occ, lookup_empty. done.
Qed.

#[export] Instance belady_policy : CachePolicy BeladyCache.
Proof.
  refine {| pol_access := belady_access; pol_resident := belady_resident; pol_capacity := bl_capacity;
            pol_ready := belady_inv |}.
  - abstract (intros c todo position Hi; apply (bi_bound _ _ _ Hi)).
  - abstract (intros c k todo position Hi;
      destruct (belady_law c k todo position Hi) as (r & c' & ? & ? & _ & ? & ?); eauto 10).
Defined.

(** ** Driving a policy over a trace *)

Fixpoint drive {C} `{CachePolicy C} (todo : list ExpertKey) (position : Z) : M C (list AccessResult) :=
  match todo with
  | [] => sret []
  | k :: rest =>
      let! r := pol_access k position in
      let! rs := drive rest (position + 1) in
      sret (r :: rs)
  end.

Definition misses (rs : list AccessResult) : nat := length (filter (fun r => hit r = false) rs).

(** Runs of demand-filled caches; [P] restricts what each step may evict. *)
Inductive demand_run (P : gset ExpertKey -> list ExpertKey -> AccessResult -> Prop) (cap : nat) :
    gset ExpertKey -> list ExpertKey -> list AccessResult -> gset ExpertKey -> Prop :=
| run_done s : demand_run P cap s [] [] s
| run_step s k todo r s' rs s'' :
    cache_step cap s k r s' -> P s todo r -> demand_run P cap s' todo rs s'' ->
    demand_run P cap s (k :: todo) (r :: rs) s''.

Lemma drive_run {C} `{CachePolicy C} todo position (c : C) :
  pol_ready c todo position ->
  exists rs c', drive todo position c = (Ok rs, c') /\ pol_ready c' [] (position + Z.of_nat (length todo))
    /\ pol_capacity c' = pol_capacity c
    /\ demand_run (fun _ _ _ => True) (pol_capacity c) (pol_resident c) todo rs (pol_resident c').
Proof.
  revert position c. induction todo as [|k todo IH]; intros position c Hc; simpl.
  - exists [], c. rewrite Z.add_0_r. split_and!; try done. constructor.
  - destruct (pol_law c k todo position Hc) as (r & c1 & Hacc & Hstep & Hcap & Hc1).
    destruct (IH _ _ Hc1) as (rs & c2 & Hd & Hr & Hcap2 & Hrun).
    exists (r :: rs), c2. split; [by rewrite (sbind_step _ _ _ _ _ Hacc), (sbind_step _ _ _ _ _ Hd)|].
    rewrite Hcap in *. split_and!; [|done|by econstructor].
    by replace (position + Z.of_nat (S (length todo))) with (position + 1 + Z.of_nat (length todo)) by lia.
Qed.

(** Belady only evicts a resident key whose next use is the farthest. *)
Definition evicts_farthest (s : gset ExpertKey) (todo : list ExpertKey) (r : AccessResult) : Prop :=
  forall v, evicted r = Some v -> farthest s todo v.

Lemma belady_drive_run todo position c :
  belady_inv c todo position ->
  exists rs c', drive todo position c = (Ok rs, c') /\
    demand_run evicts_farthest (bl_capacity c) (bl_resident c) todo rs (bl_resident c').
Proof.
  revert position c. induction todo as [|k todo IH]; intros position c Hc; simpl.
  - exists [], c. split; [done|]. constructor.
  - destruct (belady_law c k todo position Hc) as (r & c1 & Hacc & Hstep & Hfar & Hcap & Hc1).
    destruct (IH _ _ Hc1) as (rs & c2 & Hd & Hrun).
    exists (r :: rs), c2. split; [by rewrite (sbind_step _ _ _ _ _ Hacc), (sbind_step _ _ _ _ _ Hd)|].
    rewrite Hcap in *. by econstructor.
Qed.

(** ** Optimality of the offline policy *)

(** How many keys of [A] occur in [l]. *)
Definition cnt (l : list ExpertKey) (A : gset ExpertKey) : nat := size (filter (fun x => x ∈ l) A).

Lemma cnt_add l A k : k ∉ A -> cnt l ({[k]} ∪ A) = ((if bool_decide (k ∈ l) then 1 else 0) + cnt l A)%nat.
Proof.
  intros Hk. unfold cnt. rewrite filter_union_L by apply _. case_bool_decide as Hl.
  - rewrite filter_singleton_L by apply _; rewrite decide_True by done. rewrite size_union by set_solver. by rewrite size_singleton.
  - rewrite filter_singleton_L by apply _; rewrite decide_False by done. by rewrite union_empty_l_L.
Qed.

Lemma cnt_del l A k : k ∈ A ->
  cnt l A = ((if bool_decide (k ∈ l) then 1 else 0) + cnt l (A ∖ {[k]}))%nat.
Proof.
  intros Hk. rewrite <- cnt_add by set_solver. f_equal. rewrite union_comm_L. symmetry.
  apply set_eq. intros x. destruct (decide (x = k)); set_solver.
Qed.

Lemma cnt_size l A : (cnt l A <= size A)%nat.
Proof. apply subseteq_size. set_solver. Qed.

Lemma cnt_all l A : (forall x, x ∈ A -> x ∈ l) -> cnt l A = size A.
Proof. intros H. unfold cnt. f_equal. apply set_eq. intros x. rewrite elem_of_filter. naive_solver. Qed.

Lemma cnt_cons l A k : k ∉ A -> cnt (k :: l) A = cnt l A.
Proof.
  intros Hk. unfold cnt. f_equal. apply set_eq. intros x. rewrite !elem_of_filter, elem_of_cons.
  split; intros [H1 H2]; split; auto. destruct H1 as [->|]; done.
Qed.

Lemma cnt_nil A : cnt [] A = 0%nat.
Proof. unfold cnt. apply size_empty_iff. intros x. rewrite elem_of_filter, elem_of_nil, elem_of_empty. naive_solver. Qed.

(** A step in terms of the keys other than the accessed one: [s0] before and
    [s1] after it, with the number of misses it costs. *)
Lemma cache_step_split cap s k r s' :
  cap <> 0%nat -> (size s <= cap)%nat -> cache_step cap s k r s' ->
  exists s1, s' = {[k]} ∪ s1 /\ k ∉ s1 /\ (S (size s1) <= cap)%nat /\
    ((k ∈ s /\ hit r = true /\ s = {[k]} ∪ s1) \/
     (k ∉ s /\ hit r = false /\ (s1 = s \/
        exists v, evicted r = Some v /\ v ∈ s /\ s1 = s ∖ {[v]} /\ size s = cap))).
Proof.
  intros H0 Hb. unfold cache_step. rewrite (bool_decide_eq_false_2 (cap = _)) by done.
  case_bool_decide as Hk.
  - intros [-> ->]. exists (s ∖ {[k]}).
    assert (E : s = {[k]} ∪ s ∖ {[k]}) by (apply set_eq; intros x; destruct (decide (x = k)); set_solver).
    split_and!; [done|set_solver| |by left].
    rewrite size_difference, size_singleton by set_solver.
    assert (size s <> 0%nat); [|lia]. intros E0%size_empty_inv. set_solver.
  - intros [-> Hr]. simpl in *. destruct (evicted r) as [v|].
    + destruct Hr as (Hs & Hv & ->). exists (s ∖ {[v]}). split_and!; [done|set_solver| |].
      * rewrite size_difference, size_singleton by set_solver. lia.
      * right. split_and!; [done..|]. right. eauto.
    + destruct Hr as (Hs & ->). exists s. split_and!; [done|done|lia|]. right. auto.
Qed.

Definition miss_cost (r : AccessResult) : nat := if hit r then 0 else 1.

(** One step of the exchange argument.  [d] is how many keys of any near-future
    prefix the farthest-first cache [A] may lack compared with [B]; every key
    it lacks has been paid for by an extra miss of [B]. *)
Lemma exchange_step cap A B k todo ra rb A' B' d :
  cap <> 0%nat -> (size A <= cap)%nat -> (size B <= cap)%nat ->
  cache_step cap A k ra A' -> evicts_farthest A todo ra -> cache_step cap B k rb B' ->
  (forall t, (cnt (take t (k :: todo)) B <= cnt (take t (k :: todo)) A + d)%nat) ->
  exists d', (forall t, (cnt (take t todo) B' <= cnt (take t todo) A' + d')%nat)
    /\ (miss_cost ra + d' <= miss_cost rb + d)%nat.
Proof.
  intros H0 HA HB Ha Hfar Hb Hd.
  destruct (cache_step_split _ _ _ _ _ H0 HA Ha) as (A1 & -> & HkA & HsA & HcA).
  destruct (cache_step_split _ _ _ _ _ H0 HB Hb) as (B1 & -> & HkB & HsB & HcB).
  assert (Hd' : forall t, (cnt (k :: take t todo) B <= cnt (k :: take t todo) A + d)%nat) by (intros t; apply (Hd (S t))).
  assert (Hin : forall t, bool_decide (k ∈ k :: take t todo) = true)
    by (intros t; apply bool_decide_eq_true_2; set_solver).
  assert (HB1 : k ∉ B -> forall t, (cnt (take t todo) B1 <= cnt (take t todo) B)%nat).
  { intros HkB' t. destruct HcB as [(? & _)|(_ & _ & [->|(v & _ & Hv & -> & _)])]; [done|done|].
    rewrite (cnt_del _ B v) by done. lia. }
  assert (HA1 : k ∉ A -> forall t, cnt (take t todo) A1 = cnt (take t todo) A \/
                                   (cap <= S (cnt (take t todo) A1))%nat).
  { intros HkA' t. destruct HcA as [(? & _)|(_ & _ & [->|(v & Hev & Hv & -> & Hfull)])]; [done|by left|].
    destruct (decide (v ∈ take t todo)) as [Hvt|Hvt].
    - right. rewrite cnt_all; [rewrite size_difference, size_singleton by set_solver; lia|].
      intros x Hx. apply (Hfar v Hev); [set_solver|done].
    - left. rewrite (cnt_del _ A v) by done. by rewrite bool_decide_eq_false_2. }
  unfold miss_cost. destruct HcA as [(HkA0 & -> & EA)|(HkA0 & -> & _)], HcB as [(HkB0 & -> & EB)|(HkB0 & -> & _)].
  - exists d. split; [|lia]. intros t. specialize (Hd' t). rewrite !cnt_add by done.
    rewrite EA, EB, !cnt_add, Hin, !cnt_cons in Hd' by done. lia.
  - exists (S d). split; [|lia]. intros t. specialize (Hd' t). specialize (HB1 HkB0 t). rewrite !cnt_add by done.
    rewrite EA, !cnt_add, Hin, (cnt_cons _ B), (cnt_cons _ A1) in Hd' by done. lia.
  - specialize (HA1 HkA0). destruct d as [|d].
    { specialize (Hd' 0%nat). rewrite EB, cnt_add, Hin, !cnt_cons, take_0 in Hd' by done.
      rewrite !cnt_nil in Hd'. lia. }
    exists d. split; [|lia]. intros t. specialize (Hd' t). specialize (HA1 t). rewrite !cnt_add by done.
    rewrite EB, cnt_add, Hin, !cnt_cons in Hd' by done. pose proof (cnt_size (take t todo) B1). lia.
  - specialize (HA1 HkA0). exists d. split; [|lia]. intros t. specialize (Hd' t). specialize (HA1 t).
    specialize (HB1 HkB0 t). rewrite !cnt_add by done. rewrite !cnt_cons in Hd' by done.
    pose proof (cnt_size (take t todo) B1). lia.
Qed.

Lemma misses_cons r rs : misses (r :: rs) = (miss_cost r + misses rs)%nat.
Proof. unfold misses, miss_cost. rewrite filter_cons. destruct (hit r); by case_decide. Qed.

Lemma cache_step_bound cap s k r s' :
  (size s <= cap)%nat -> cache_step cap s k r s' -> (size s' <= cap)%nat.
Proof.
  intros Hb Hs. destruct (decide (cap = 0%nat)) as [->|H0].
  - unfold cache_step in Hs. case_bool_decide; [by destruct Hs as [_ ->]|].
    rewrite bool_decide_eq_true_2 in Hs by done. by destruct Hs as [_ ->].
  - destruct (cache_step_split _ _ _ _ _ H0 Hb Hs) as (s1 & -> & Hk & Hs1 & _).
    rewrite size_union, size_singleton by set_solver. lia.
Qed.

(** With no slots every access misses. *)
Lemma no_slots_misses P s todo rs s' :
  demand_run P 0 s todo rs s' -> (size s <= 0)%nat -> misses rs = length todo.
Proof.
  induction 1 as [|s k todo r s' rs s'' Hs _ _ IH]; intros Hb; [done|].
  assert (s ≡ ∅) as E by (apply size_empty_iff; lia). rewrite misses_cons, IH by (by eapply cache_step_bound).
  unfold cache_step in Hs. rewrite bool_decide_eq_false_2 in Hs by set_solver.
  rewrite bool_decide_eq_true_2 in Hs by done. by destruct Hs as [-> _].
Qed.

(** Farthest-first runs have the fewest misses, up to the initial deficit. *)
Lemma exchange cap A B todo ra A' rb B' d :
  demand_run evicts_farthest cap A todo ra A' -> demand_run (fun _ _ _ => True) cap B todo rb B' ->
  (size A <= cap)%nat -> (size B <= cap)%nat ->
  (forall t, (cnt (take t todo) B <= cnt (take t todo) A + d)%nat) ->
  (misses ra <= misses rb + d)%nat.
Proof.
  intros Ha. destruct (decide (cap = 0%nat)) as [->|H0].
  { intros Hb HA HB _. rewrite (no_slots_misses _ _ _ _ _ Ha HA), (no_slots_misses _ _ _ _ _ Hb HB). lia. }
  revert B rb B' d. induction Ha as [A|A k todo r A1 ra A2 Hs Hfar Hrun IH]; intros B rb B' d Hb HA HB Hd.
  - unfold misses. simpl. lia.
  - inversion Hb as [|? ? ? rb1 B1 rbs ? HsB _ HrunB]; subst.
    destruct (exchange_step cap A B k todo r rb1 A1 B1 d) as (d' & Hd' & Hcost); try done.
    rewrite !misses_cons.
    assert (misses ra <= misses rbs + d')%nat; [|lia].
    eapply IH; eauto using cache_step_bound.
Qed.

(** ** LRU keeps the most recently used keys *)

(** The keys of a trace, most recently used first. *)
Definition recency (trace : list ExpertKey) : list ExpertKey :=
  foldl (fun stack k => k :: filter (fun x => x <> k) stack) [] trace.

Lemma recency_snoc trace k : recency (trace ++ [k]) = k :: filter (fun x => x <> k) (recency trace).
Proof. unfold recency. by rewrite foldl_app. Qed.

Lemma recency_NoDup trace : NoDup (recency trace).
Proof.
  induction trace as [|k trace IH] using rev_ind; [constructor|]. rewrite recency_snoc.
  apply NoDup_cons. split; [|by apply NoDup_filter]. rewrite list_elem_of_filter. naive_solver.
Qed.

Lemma filter_ne_id (l : list ExpertKey) k : k ∉ l -> filter (fun x => x <> k) l = l.
Proof.
  induction l as [|a l IH]; [done|]. intros [Hne Hl]%not_elem_of_cons. rewrite filter_cons_True by done.
  f_equal. auto.
Qed.

(** Removing the accessed key from the top [n] of the stack. *)
Lemma take_filter_in (l : list ExpertKey) k n :
  NoDup l -> k ∈ take (S n) l ->
  take n (filter (fun x => x <> k) l) = filter (fun x => x <> k) (take (S n) l).
Proof.
  revert n. induction l as [|a l IH]; intros n Hnd Hk; [by destruct n|].
  apply NoDup_cons in Hnd as [Ha Hnd]. rewrite firstn_cons in *.
  destruct (decide (a = k)) as [->|Hne].
  - rewrite !filter_cons_False by naive_solver. rewrite !filter_ne_id; [done| |done].
    intros (i & Hi & _)%elem_of_take. apply Ha. by apply list_elem_of_lookup_2 in Hi.
  - rewrite !filter_cons_True by done. destruct n as [|n]; [rewrite take_0 in Hk; set_solver|].
    rewrite firstn_cons. f_equal. apply IH; [done|]. set_solver.
Qed.

Lemma take_filter_notin (l : list ExpertKey) k n :
  k ∉ take n l -> take n (filter (fun x => x <> k) l) = take n l.
Proof.
  revert n. induction l as [|a l IH]; intros [|n] Hk; [done..|].
  rewrite firstn_cons in *. apply not_elem_of_cons in Hk as [Hne Hk].
  rewrite filter_cons_True by done. rewrite firstn_cons. f_equal. auto.
Qed.

Lemma filter_reverse_ne (l : list ExpertKey) k :
  filter (fun x => x <> k) (reverse l) = reverse (filter (fun x => x <> k) l).
Proof.
  induction l as [|a l IH]; [done|]. rewrite reverse_cons, filter_app, IH, !filter_cons. simpl.
  case_decide; [by rewrite reverse_cons|by rewrite app_nil_r].
Qed.

(** The order list of an LRU cache after [trace]. *)
Definition lru_after (cap : nat) (trace : list ExpertKey) : LruCache :=
  {| lru_capacity := cap; lru_order := reverse (take cap (recency trace)) |}.

Lemma lru_after_step cap trace k position :
  lru_access k position (lru_after cap trace) =
    (Ok {| hit := bool_decide (k ∈ take cap (recency trace));
           evicted := if bool_decide (k ∈ take cap (recency trace)) then None
                      else match cap with O => None | S n => recency trace !! n end |},
     lru_after cap (trace ++ [k])).
Proof.
  pose proof (recency_NoDup trace) as Hnd. unfold lru_access. erewrite sbind_step by reflexivity.
  simpl. rewrite (bool_decide_ext (k ∈ reverse _) (k ∈ take cap (recency trace))) by (by rewrite elem_of_reverse).
  unfold lru_after. rewrite recency_snoc. destruct (decide (k ∈ take cap (recency trace))) as [Hk|Hk].
  - rewrite !bool_decide_eq_true_2 by done. destruct cap as [|n]; [by rewrite take_0 in Hk; apply not_elem_of_nil in Hk|].
    rewrite firstn_cons, take_filter_in, reverse_cons, <- filter_reverse_ne by done. reflexivity.
  - rewrite !(bool_decide_eq_false_2 (k ∈ _)) by done. destruct cap as [|n]; [reflexivity|].
    rewrite bool_decide_eq_false_2 by done. rewrite firstn_cons, length_reverse, length_take.
    assert (Hn : k ∉ take n (recency trace)).
    { intros (i & Hi & Hlt)%elem_of_take. apply Hk, elem_of_take. exists i. split; [done|lia]. }
    rewrite take_filter_notin by done. rewrite reverse_cons. case_bool_decide as Hfull.
    + destruct (lookup_lt_is_Some_2 (recency trace) n ltac:(lia)) as [v Hv].
      rewrite (take_S_r _ _ _ Hv), reverse_snoc, Hv. reflexivity.
    + rewrite lookup_ge_None_2 by lia. rewrite !take_ge by lia. reflexivity.
Qed.

Lemma lru_drive cap todo trace position :
  exists rs, drive todo position (lru_after cap trace) = (Ok rs, lru_after cap (trace ++ todo)) /\
    Forall2 (fun i r => hit r = true <->
               exists k, todo !! i = Some k /\ k ∈ take cap (recency (trace ++ take i todo)))
      (seq 0 (length todo)) rs.
Proof.
  revert trace position. induction todo as [|k todo IH]; intros trace position; simpl.
  - exists []. rewrite app_nil_r. split; [done|constructor].
  - destruct (IH (trace ++ [k]) (position + 1)) as (rs & Hd & Hall). eexists. split.
    { rewrite (sbind_step _ _ _ _ _ (lru_after_step cap trace k position)).
      rewrite (sbind_step _ _ _ _ _ Hd), <- app_assoc. reflexivity. }
    constructor; simpl.
    + rewrite app_nil_r, bool_decide_eq_true. naive_solver.
    + rewrite <- fmap_S_seq. apply Forall2_fmap_l. eapply Forall2_impl; [exact Hall|].
      intros i r Hir. simpl in *. by rewrite Hir, <- app_assoc.
Qed.

(** ** The object [make_policy] returns *)

Definition policy_capacity (p : policy) : nat :=
  match p with
  | PClock c => ck_capacity c
  | PLru c => lru_capacity c
  | PBelady c => bl_capacity c
  end.

Definition policy_ready (p : policy) (todo : list ExpertKey) (position : Z) : Prop :=
  match p with
  | PClock c => clock_inv c
  | PLru c => lru_inv c
  | PBelady c => belady_inv c todo position
  end.

Lemma policy_law p k todo position : policy_ready p (k :: todo) position ->
  exists r p', policy_access k position p = (Ok r, p')
    /\ cache_step (policy_capacity p) (policy_resident p) k r (policy_resident p')
    /\ policy_capacity p' = policy_capacity p /\ policy_ready p' todo (position + 1).
Proof.
  destruct p as [c|c|c]; simpl; intros Hi.
  - destruct (clock_law c k position Hi) as (r & c' & -> & ? & ? & ?). by exists r, (PClock c').
  - destruct (lru_law c k position Hi) as (r & c' & -> & ? & ? & ?). by exists r, (PLru c').
  - destruct (belady_law c k todo position Hi) as (r & c' & -> & ? & ? & ? & ?). by exists r, (PBelady c').
Qed.

Lemma policy_bound p todo position : policy_ready p todo position ->
  (size (policy_resident p) <= policy_capacity p)%nat.
Proof.
  destruct p as [c|c|c]; simpl; intros Hi.
  - by apply clock_bound.
  - rewrite lru_size by done. apply Hi.
  - apply (bi_bound _ _ _ Hi).
Qed.

#[export] Instance policy_policy : CachePolicy policy := {
  pol_access := policy_access; pol_resident := policy_resident; pol_capacity := policy_capacity;
  pol_ready := policy_ready; pol_bound := policy_bound; pol_law := policy_law;
}.

Lemma make_policy_ready name capacity accesses p :
  make_policy name capacity accesses = Ok p ->
  policy_ready p accesses 0 /\ policy_resident p = ∅ /\ policy_capacity p = Z.to_nat capacity /\ 0 <= capacity.
Proof.
  unfold make_policy. repeat case_match; intros Hp; inv_ok; simpl.
  - by apply clock_init_inv.
  - match goal with Hl : lru_init _ = Ok _ |- _ => destruct (lru_init_inv _ _ Hl) as (? & Ho & ? & ?) end. split_and!; try done.
    unfold lru_resident. by rewrite Ho.
  - by apply belady_init_inv.
Qed.

Lemma demand_run_length P cap s todo rs s' : demand_run P cap s todo rs s' -> length rs = length todo.
Proof. induction 1; simpl; congruence. Qed.

(** C6: whatever policy [make_policy] builds for a trace, replaying that trace
    on it never raises (no index, key or assertion error in CLOCK or LRU, no
    order mismatch and no missing victim in Belady); every access is a hit
    exactly when its key is resident, a miss loads the key and evicts one
    resident key exactly when all slots are taken, and the number of resident
    keys stays within the capacity. *)
Theorem policy_replay_sound name capacity trace p :
  make_policy name capacity trace = Ok p ->
  exists rs p', drive trace 0 p = (Ok rs, p') /\ length rs = length trace
    /\ demand_run (fun _ _ _ => True) (Z.to_nat capacity) ∅ trace rs (policy_resident p')
    /\ (size (policy_resident p') <= Z.to_nat capacity)%nat.
Proof.
  intros (Hr & H0 & Hc & _)%make_policy_ready.
  destruct (drive_run (H := policy_policy) trace 0 p Hr) as (rs & p' & Hd & Hr' & Hc' & Hrun).
  simpl in *. rewrite H0, Hc in *. exists rs, p'. split_and!; try done.
  - by eapply demand_run_length.
  - rewrite <- Hc'. by eapply policy_bound.
Qed.

Definition demo_trace : list ExpertKey := [(0, 1); (0, 2); (0, 3); (0, 1); (0, 2); (0, 4); (0, 1)].

Lemma policy_replay_sound_witness :
  exists p, make_policy "Clock" 2 demo_trace = Ok p /\
  exists rs p', drive demo_trace 0 p = (Ok rs, p') /\ length rs = length demo_trace
    /\ demand_run (fun _ _ _ => True) (Z.to_nat 2) ∅ demo_trace rs (policy_resident p')
    /\ (size (policy_resident p') <= Z.to_nat 2)%nat.
Proof.
  eexists. split; [reflexivity|]. apply (policy_replay_sound "Clock"). reflexivity.
Defined.

(** C7: Belady's policy is optimal.  On the trace it was built for it has at
    most as many misses as any demand-filled policy of the same capacity that
    satisfies the interface and starts empty. *)
Theorem belady_optimal (C : Type) (HC : CachePolicy C) capacity trace b (c : C) :
  belady_init capacity trace = Ok b ->
  pol_ready c trace 0 -> pol_resident c = ∅ -> pol_capacity c = Z.to_nat capacity ->
  exists rb b' rc c', drive trace 0 b = (Ok rb, b') /\ drive trace 0 c = (Ok rc, c')
    /\ (misses rb <= misses rc)%nat.
Proof.
  intros (Hb & Hb0 & Hbc & _)%belady_init_inv Hc Hc0 Hcc.
  destruct (belady_drive_run trace 0 b Hb) as (rb & b' & Hdb & Hrb).
  destruct (drive_run trace 0 c Hc) as (rc & c' & Hdc & _ & _ & Hrc).
  exists rb, b', rc, c'. split_and!; [done..|]. rewrite Hb0, Hbc in Hrb. rewrite Hc0, Hcc in Hrc.
  rewrite <- (Nat.add_0_r (misses rc)). eapply exchange; [exact Hrb|exact Hrc|rewrite size_empty; lia..|].
  intros t. lia.
Qed.

Lemma belady_optimal_witness :
  exists b l, belady_init 2 demo_trace = Ok b /\ lru_init 2 = Ok l /\
  exists rb b' rl l', drive demo_trace 0 b = (Ok rb, b') /\ drive demo_trace 0 l = (Ok rl, l')
    /\ (misses rb <= misses rl)%nat.
Proof.
  eexists _, _. split; [reflexivity|]. split; [reflexivity|].
  apply (belady_optimal LruCache lru_policy 2 demo_trace); [reflexivity| |reflexivity|reflexivity].
  constructor; [constructor|apply Nat.le_0_l].
Defined.

(** LRU is exactly recency.  Replaying any trace from a fresh cache leaves
    in it the [capacity] most recently used distinct keys, oldest first, and an
    access hits exactly when its key is one of the [capacity] most recently
    used keys before it (so a larger cache hits whenever a smaller one does). *)
Theorem lru_hits_recent capacity trace c :
  lru_init capacity = Ok c ->
  exists rs c', drive trace 0 c = (Ok rs, c')
    /\ lru_order c' = reverse (take (Z.to_nat capacity) (recency trace))
    /\ Forall2 (fun i r => hit r = true <-> exists k, trace !! i = Some k /\
                  k ∈ take (Z.to_nat capacity) (recency (take i trace)))
         (seq 0 (length trace)) rs.
Proof.
  intros (_ & Ho & Hc & _)%lru_init_inv.
  destruct (lru_drive (Z.to_nat capacity) trace [] 0) as (rs & Hd & Hall).
  exists rs, (lru_after (Z.to_nat capacity) trace). split_and!; [|done|done].
  destruct c as [cap order]. simpl in *. subst. rewrite <- Hd. f_equal. unfold lru_after.
  change (recency []) with (@nil ExpertKey). by rewrite take_nil.
Qed.

Lemma lru_hits_recent_witness :
  exists c, lru_init 2 = Ok c /\
  exists rs c', drive demo_trace 0 c = (Ok rs, c')
    /\ lru_order c' = reverse (take (Z.to_nat 2) (recency demo_trace))
    /\ Forall2 (fun i r => hit r = true <-> exists k, demo_trace !! i = Some k /\
                  k ∈ take (Z.to_nat 2) (recency (take i demo_trace)))
         (seq 0 (length demo_trace)) rs.
Proof. eexists. split; [reflexivity|]. apply (lru_hits_recent 2). reflexivity. Defined.

(** CLOCK gives every referenced slot a second chance.  In every reachable
    state, when a missing key is accessed and all slots are taken, the sweep
    terminates; the victim is in the first slot from the hand on (in ring
    order) whose reference bit is clear, or in the hand's slot when all bits
    are set; exactly the bits passed over are cleared, the new key is
    referenced and the hand moves one past it. *)
Theorem clock_second_chance capacity trace c0 rs c key position :
  clock_init capacity = Ok c0 -> drive trace 0 c0 = (Ok rs, c) -> capacity <> 0 ->
  key ∉ clock_resident c -> size (clock_resident c) = Z.to_nat capacity ->
  let n := Z.to_nat capacity in
  exists m victim c',
    swept n (ck_referenced c) (ck_hand c) m
    /\ ck_slots c !! ring n (ck_hand c) m = Some (Some victim)
    /\ clock_access key position c = (Ok (Miss (Some victim)), c')
    /\ ck_slots c' = <[ring n (ck_hand c) m := Some key]> (ck_slots c)
    /\ (forall d, (d < n)%nat -> ck_referenced c' !! ring n (ck_hand c) d =
          if bool_decide (d = m mod n)%nat then Some true
          else if bool_decide (d < m)%nat then Some false
          else ck_referenced c !! ring n (ck_hand c) d)
    /\ ck_hand c' = ring n (ck_hand c) (S m).
Proof.
  intros (Hi0 & _ & Hc0 & Hpos)%clock_init_inv Hd Hne Hkey Hsize n.
  destruct (drive_run (H := clock_policy) trace 0 c0 Hi0) as (? & ? & E & Hi & Hcap & _). rewrite Hd in E. injection E as <- <-.
  simpl in Hi, Hcap. rewrite Hc0 in Hcap. fold n in Hcap, Hsize.
  assert (Hfull : forall i, (i < length (ck_slots c))%nat -> exists k, ck_slots c !! i = Some (Some k)).
  { intros i Hlt. destruct (lookup_lt_is_Some_2 _ _ Hlt) as [[k|] Hk]; [by exists k|].
    apply omap_id_length_free in Hk. rewrite <- (proj2 (clock_resident_slots c Hi)), (ci_slots _ Hi) in Hk. rewrite Hcap, Hsize in Hk. lia. }
  assert (Hn : (0 < n)%nat) by (unfold n; lia).
  pose proof (ci_refs _ Hi) as Hr. rewrite Hcap in Hr.
  destruct (ci_hand _ Hi) as [?|Hh]; [lia|]. rewrite Hcap in Hh.
  destruct (swept_exists n (ck_referenced c) (ck_hand c) Hr Hn) as [m Hm].
  destruct (clock_replace c key position m Hi) as (v & Hv & Hacc);
    [lia|by apply not_elem_of_dom|done|by rewrite Hcap|].
  rewrite Hcap in *. simpl in Hv. eexists m, v, _. split_and!; [done|done|exact Hacc|done| |].
  - intros d Hdn. simpl. destruct Hm as (Hmn & _).
    assert (Hmm : ring n (ck_hand c) m = ring n (ck_hand c) (m mod n)).
    { unfold ring. by rewrite Nat.Div0.add_mod_idemp_r. }
    rewrite Hmm. case_bool_decide as Hdm.
    + subst d. apply list_lookup_insert_eq. rewrite clear_ring_length, Hr. by apply ring_lt.
    + rewrite list_lookup_insert_ne; [by apply clear_ring_lookup|].
      intros Heq. apply ring_inj in Heq; [lia| |done]. apply Nat.mod_upper_bound. lia.
  - simpl. unfold ring. rewrite Nat.Div0.add_mod_idemp_l. f_equal. lia.
Qed.

Lemma clock_second_chance_witness :
  exists c0 rs c, clock_init 2 = Ok c0 /\ drive [(0, 1); (0, 2); (0, 1)] 0 c0 = (Ok rs, c) /\
  exists m victim c',
    swept 2 (ck_referenced c) (ck_hand c) m
    /\ ck_slots c !! ring 2 (ck_hand c) m = Some (Some victim)
    /\ clock_access (0, 3) 3 c = (Ok (Miss (Some victim)), c')
    /\ ck_slots c' = <[ring 2 (ck_hand c) m := Some (0, 3)]> (ck_slots c)
    /\ (forall d, (d < 2)%nat -> ck_referenced c' !! ring 2 (ck_hand c) d =
          if bool_decide (d = m mod 2)%nat then Some true
          else if bool_decide (d < m)%nat then Some false
          else ck_referenced c !! ring 2 (ck_hand c) d)
    /\ ck_hand c' = ring 2 (ck_hand c) (S m).
Proof.
  eexists _, _, _. split; [reflexivity|]. split; [vm_compute; reflexivity|].
  eapply (clock_second_chance 2 [(0, 1); (0, 2); (0, 1)]); [reflexivity|vm_compute; reflexivity|discriminate| |vm_compute; reflexivity].
  apply (bool_decide_unpack _). vm_compute. exact I.
Defined.
End PlacementPolicy.
