(* ===== verification/ModelInventory.v ===== *)
(** * The frozen expert inventory

    Model of [src/adapters/vllm_capacity/model_inventory.py].  The manifest is
    taken after [json.loads] with the field types its schema has, so that
    [int(...)] and [str(...)] of a field are the identity; a manifest with fields
    of other types that Python would convert is outside the model.  The theorem shows
    what a constructed inventory guarantees to the trace replay. *)

From S2P Require Import Prelude PlacementPolicy.
Import PlacementPolicy.

Module ModelInventory.

Record raw_tensor := {
  rt_tensor : string; rt_source_shard : string; rt_source_shard_sha256 : string;
  rt_file_offset_begin : Z; rt_file_offset_end : Z; rt_bytes : Z; rt_dtype : string; rt_shape : list Z }.

(** An entry of [expert_weights]. *)
Record raw_expert := {
  rw_layer : Z; rw_expert_id : Z; rw_total_bytes : Z;
  rw_w13_tensors : list raw_tensor; rw_w13_bytes : Z;
  rw_w2_tensor : raw_tensor; rw_w2_bytes : Z }.

Record document := {
  ModelFingerprint : string;
  num_hidden_layers : Z; doc_num_experts : Z; num_experts_per_tok : Z;
  doc_expert_weight_bytes : Z; expert_weights : list raw_expert }.

Record TensorLocation := {
  tensor : string; tensor_kind : string; source_shard : string; source_shard_sha256 : string;
  file_offset_begin : Z; file_offset_end : Z; tl_bytes : Z; dtype : string; shape : list Z }.

Record ExpertRecord := {
  layer_id : Z; expert_id : Z; total_bytes : Z; w13_bytes : Z; w2_bytes : Z;
  tensors : list TensorLocation }.

Record ModelInventory := {
  model_fingerprint : string; num_layers : Z; num_experts : Z; top_k : Z;
  expert_weight_bytes : Z; page_bytes : Z;
  experts : dict ExpertKey ExpertRecord; expert_bytes : Z }.

Definition PAGE_BYTES : Z := 16384.

Definition _tensor (raw : raw_tensor) (kind : string) : result TensorLocation :=
  let t := {| tensor := rt_tensor raw; tensor_kind := kind; source_shard := rt_source_shard raw;
              source_shard_sha256 := rt_source_shard_sha256 raw;
              file_offset_begin := rt_file_offset_begin raw; file_offset_end := rt_file_offset_end raw;
              tl_bytes := rt_bytes raw; dtype := rt_dtype raw; shape := rt_shape raw |} in
  let? _ := ensure (file_offset_end t - file_offset_begin t =? tl_bytes t)
              (ValueError ("invalid tensor offsets: " +:+ tensor t)) in
  Ok t.

Definition show_key (k : ExpertKey) : string :=
  "(" +:+ pretty k.1 +:+ ", " +:+ pretty k.2 +:+ ")".

(** The body of [for raw in document["expert_weights"]]. *)
Definition add_expert (experts : dict ExpertKey ExpertRecord) (raw : raw_expert) :
    result (dict ExpertKey ExpertRecord) :=
  let? w13 := mapR (fun item => _tensor item "w13") (rw_w13_tensors raw) in
  let? w2 := _tensor (rw_w2_tensor raw) "w2" in
  let record := {| layer_id := rw_layer raw; expert_id := rw_expert_id raw;
                   total_bytes := rw_total_bytes raw; w13_bytes := rw_w13_bytes raw;
                   w2_bytes := rw_w2_bytes raw; tensors := w13 ++ [w2] |} in
  let key := (layer_id record, expert_id record) in
  let? _ := ensure (negb (dmem experts key)) (ValueError ("duplicate expert record: " +:+ show_key key)) in
  let? _ := ensure (total_bytes record =? w13_bytes record + w2_bytes record)
              (ValueError ("expert byte mismatch: " +:+ show_key key)) in
  let? _ := ensure (total_bytes record mod PAGE_BYTES =? 0)
              (ValueError ("expert is not page aligned: " +:+ show_key key)) in
  Ok (dset experts key record).

(** [ModelInventory.__init__] on the parsed manifest.  The set of sizes has
    one element exactly when there is a first expert and all have its size. *)
Definition init (d : document) : result ModelInventory :=
  let? experts := foldM add_expert (expert_weights d) [] in
  let expected := num_hidden_layers d * doc_num_experts d in
  let? _ := ensure (Z.of_nat (length experts) =? expected)
              (ValueError ("expected " +:+ pretty expected +:+ " experts, found "
                           +:+ pretty (Z.of_nat (length experts)))) in
  let total := zsum (total_bytes <$> dvals experts) in
  let? _ := ensure (total =? doc_expert_weight_bytes d)
              (ValueError ("expert bytes " +:+ pretty total +:+ " differ from manifest "
                           +:+ pretty (doc_expert_weight_bytes d))) in
  let? size :=
    match total_bytes <$> dvals experts with
    | [] => Raise (ValueError "replay currently requires equal-sized experts")
    | size :: rest =>
        let? _ := ensure (forallb (Z.eqb size) rest)
                    (ValueError "replay currently requires equal-sized experts") in
        Ok size
    end in
  Ok {| model_fingerprint := ModelFingerprint d; num_layers := num_hidden_layers d;
        num_experts := doc_num_experts d; top_k := num_experts_per_tok d;
        expert_weight_bytes := doc_expert_weight_bytes d; page_bytes := PAGE_BYTES;
        experts := experts; expert_bytes := size |}.

Definition expert (inv : ModelInventory) (layer_id expert_id : Z) : result ExpertRecord :=
  of_option (ValueError ("unknown layer/expert: " +:+ pretty layer_id +:+ "/" +:+ pretty expert_id))
    (dget (experts inv) (layer_id, expert_id)).

(** A row of [compact_tensor_accesses]. *)
Record tensor_access := {
  ta_expert_id : Z; ta_tensor : string; ta_tensor_kind : string; ta_source_shard : string;
  ta_source_offset_begin : Z; ta_source_offset_end : Z; ta_tensor_bytes : Z;
  ta_dtype : string; ta_shape : list Z }.

Definition compact_tensor_accesses (inv : ModelInventory) (layer_id : Z) (expert_ids : list Z) :
    result (list tensor_access) :=
  let? rows := mapR (fun e =>
    let? record := expert inv layer_id e in
    Ok ((fun t => {| ta_expert_id := e; ta_tensor := tensor t; ta_tensor_kind := tensor_kind t;
                     ta_source_shard := source_shard t; ta_source_offset_begin := file_offset_begin t;
                     ta_source_offset_end := file_offset_end t; ta_tensor_bytes := tl_bytes t;
                     ta_dtype := dtype t; ta_shape := shape t |}) <$> tensors record)) expert_ids in
  Ok (concat rows).

(** ** What a constructed inventory guarantees *)

Definition tensor_ok (t : TensorLocation) : Prop := file_offset_end t - file_offset_begin t = tl_bytes t.

Definition record_ok (k : ExpertKey) (r : ExpertRecord) : Prop :=
  k = (layer_id r, expert_id r) /\ total_bytes r = w13_bytes r + w2_bytes r
  /\ (PAGE_BYTES | total_bytes r) /\ Forall tensor_ok (tensors r).

Definition experts_ok (e : dict ExpertKey ExpertRecord) : Prop :=
  NoDup (dkeys e) /\ Forall (fun kr => record_ok kr.1 kr.2) e.

Lemma tensor_spec raw kind t : _tensor raw kind = Ok t -> tensor_ok t.
Proof. unfold _tensor. intros H. inv_ok. unfold tensor_ok. simpl in *. lia. Qed.

Lemma add_expert_ok e raw e' : experts_ok e -> add_expert e raw = Ok e' -> experts_ok e'.
Proof.
  intros [Hnd Hall] H. unfold add_expert in H. inv_ok.
  repeat match goal with H : (_ =? _) = true |- _ => apply Z.eqb_eq in H end.
  match goal with H : negb (dmem _ ?k) = true |- _ => assert (Hn : k ∉ dkeys e) end.
  { apply dget_None. unfold dmem in *. by destruct (dget e _). }
  split; [by apply NoDup_dkeys_dset|]. rewrite dkeys_dset_notin by done. apply Forall_app. split; [done|].
  apply Forall_singleton. split_and!; [done|done| |].
  - by apply Z.mod_divide.
  - apply Forall_app. split; [|by apply Forall_singleton; eapply tensor_spec].
    match goal with H : mapR _ _ = Ok _ |- _ => apply mapR_Ok in H; revert H end. clear.
    induction 1; constructor; eauto using tensor_spec.
Qed.

Lemma build_experts_ok raws e : foldM add_expert raws [] = Ok e -> experts_ok e.
Proof.
  apply (foldM_Ok_ind (fun _ e => experts_ok e)).
  - split; constructor.
  - intros done raw todo e1 e2 _ H1 H2. by eapply add_expert_ok.
Qed.

Lemma forallb_eqb_const x l : forallb (Z.eqb x) l = true -> Forall (fun y => y = x) l.
Proof.
  rewrite forallb_forall, Forall_forall. intros H y Hy. symmetry. apply Z.eqb_eq, H.
  by apply list_elem_of_In.
Qed.

(** The facts about an inventory that the replay uses. *)
Record inventory_ok (inv : ModelInventory) : Prop := {
  io_experts : experts_ok (experts inv);
  io_count : Z.of_nat (length (experts inv)) = num_layers inv * num_experts inv;
  io_equal : Forall (fun kr => total_bytes kr.2 = expert_bytes inv) (experts inv);
  io_total : expert_weight_bytes inv = num_layers inv * num_experts inv * expert_bytes inv;
  io_positive : 0 < num_layers inv * num_experts inv;
  io_aligned : (PAGE_BYTES | expert_bytes inv);
  io_page : page_bytes inv = PAGE_BYTES;
}.

Lemma init_ok d inv : init d = Ok inv -> inventory_ok inv.
Proof.
  unfold init. intros H. apply bind_Ok in H as (e & He & H).
  pose proof (build_experts_ok _ _ He) as Hok. inv_ok. rename x into u1.
  destruct (total_bytes <$> dvals e) as [|sz rest] eqn:Esz; [done|]. inv_ok. simpl.
  match goal with H : forallb (Z.eqb ?s) _ = true |- _ => rename s into sz; rename H into Heq end.
  assert (Hall : Forall (fun kr : ExpertKey * ExpertRecord => total_bytes kr.2 = sz) e).
  { apply forallb_eqb_const in Heq. assert (Hs : Forall (fun y => y = sz) (total_bytes <$> dvals e)).
    { rewrite Esz. by constructor. }
    unfold dvals in Hs. rewrite <- list_fmap_compose, Forall_fmap in Hs. exact Hs. }
  assert (Hsum : zsum (total_bytes <$> dvals e) = sz * Z.of_nat (length e)).
  { rewrite <- zsum_map_const. unfold dvals. rewrite <- list_fmap_compose. apply zsum_map_ext.
    intros kr Hin. rewrite Forall_forall in Hall. by apply Hall. }
  assert (Hne : e <> []) by (by intros ->). apply Z.eqb_eq in H0, H1.
  constructor; simpl; try done; try lia.
  - rewrite Esz in Hsum. lia.
  - destruct e; [done|]. cbn [length] in *. lia.
  - destruct e as [|[k r] e]; [done|]. destruct Hok as [_ Hr]. inversion Hr as [|? ? Hkr _]; subst.
    inversion Hall; subst. simpl in *. by destruct Hkr as (_ & _ & ? & _).
Qed.
(** C27: what the constructor accepts.  The inventory holds one record for each
    of [num_layers * num_experts] distinct (layer, expert) keys; all experts
    have the same, page-aligned size, which is the sum of their two halves; the
    declared total of expert bytes is the number of experts times that size; and
    [expert] finds a record with its own key for every stored key. *)
Theorem inventory_sound d inv : init d = Ok inv ->
  Z.of_nat (length (experts inv)) = num_layers inv * num_experts inv /\ NoDup (dkeys (experts inv))
  /\ expert_weight_bytes inv = num_layers inv * num_experts inv * expert_bytes inv
  /\ (PAGE_BYTES | expert_bytes inv)
  /\ forall layer e, (layer, e) ∈ dkeys (experts inv) ->
       exists r, expert inv layer e = Ok r /\ layer_id r = layer /\ expert_id r = e
         /\ total_bytes r = expert_bytes inv /\ total_bytes r = w13_bytes r + w2_bytes r
         /\ Forall tensor_ok (tensors r).
Proof.
  intros Hi%init_ok. destruct (io_experts _ Hi) as [Hnd Hall].
  split_and!; [apply Hi|done|apply Hi|apply Hi|].
  intros layer e [r Hr]%dget_is_Some. exists r. unfold expert. rewrite Hr. split; [done|].
  apply dget_Some_elem in Hr. rewrite Forall_forall in Hall. destruct (Hall _ Hr) as ([= -> ->] & Hsum & _ & Ht).
  pose proof (io_equal _ Hi) as Heq. rewrite Forall_forall in Heq. specialize (Heq _ Hr). by split_and!.
Qed.

(** *** A concrete manifest: one layer of five experts *)

Definition demo_tensor (name : string) (offset bytes : Z) : raw_tensor :=
  {| rt_tensor := name; rt_source_shard := "shard"; rt_source_shard_sha256 := "sha";
     rt_file_offset_begin := offset; rt_file_offset_end := offset + bytes; rt_bytes := bytes;
     rt_dtype := "BF16"; rt_shape := [bytes] |}.

Definition demo_expert (e : Z) : raw_expert :=
  {| rw_layer := 0; rw_expert_id := e; rw_total_bytes := 32768;
     rw_w13_tensors := [demo_tensor "w13" (e * 32768) 16384]; rw_w13_bytes := 16384;
     rw_w2_tensor := demo_tensor "w2" (e * 32768 + 16384) 16384; rw_w2_bytes := 16384 |}.

Definition demo_document : document :=
  {| ModelFingerprint := "model"; num_hidden_layers := 1; doc_num_experts := 5; num_experts_per_tok := 1;
     doc_expert_weight_bytes := 163840; expert_weights := demo_expert <$> [0; 1; 2; 3; 4] |}.

Lemma inventory_sound_witness : exists inv, init demo_document = Ok inv /\
  (Z.of_nat (length (experts inv)) = num_layers inv * num_experts inv /\ NoDup (dkeys (experts inv))
  /\ expert_weight_bytes inv = num_layers inv * num_experts inv * expert_bytes inv
  /\ (PAGE_BYTES | expert_bytes inv)
  /\ forall layer e, (layer, e) ∈ dkeys (experts inv) ->
       exists r, expert inv layer e = Ok r /\ layer_id r = layer /\ expert_id r = e
         /\ total_bytes r = expert_bytes inv /\ total_bytes r = w13_bytes r + w2_bytes r
         /\ Forall tensor_ok (tensors r)).
Proof.
  eexists. split; [vm_compute; reflexivity|].
  apply (inventory_sound demo_document). vm_compute. reflexivity.
Defined.

End ModelInventory.
