(* ===== verification/TraceReplay.v ===== *)
(** * Trace replay

    Model of [src/adapters/vllm_capacity/trace_replay.py]: reuse distances by a
    Fenwick tree, the capacity geometry of an HBM:HBF ratio, the replay of a
    trace of expert accesses on a placement policy with its statistics and
    conservation checks, and the exchange of events with the timing engine.

    The JSON documents are taken with the field types their schemas have; the
    digest of a canonical JSON document and the timing engine (an external
    process) are parameters, and the directory of event files is the state of
    the actions that touch it. *)

From S2P Require Import Prelude PyFloat PlacementPolicy ModelInventory.
Import PlacementPolicy ModelInventory.ModelInventory.

Module TraceReplay.

Definition RATIOS : list (Z * Z) := [(1, 0); (1, 1); (1, 2); (1, 4); (1, 8); (1, 16)].
Definition POLICIES : list string := ["clock"; "lru"; "belady"].

(** [None if denominator == 0 else numerator / denominator] of integers. *)
Definition safe_ratio (numerator denominator : Z) : result (option spec_float) :=
  if denominator =? 0 then Ok None else let? q := int_truediv numerator denominator in Ok (Some q).

(** [int.bit_length]. *)
Definition bit_length (z : Z) : Z := if z =? 0 then 0 else Z.log2 (Z.abs z) + 1.

(** The two bounds of the bucket of a positive distance. *)
Definition bucket_bounds (distance : Z) : Z * Z :=
  let lower := Z.shiftl 1 (bit_length distance - 1) in
  (lower, Z.shiftl lower 1 - 1).

Definition reuse_bucket (distance : option Z) : string :=
  match distance with
  | None => "cold"
  | Some d =>
      if d =? 0 then "0" else
      let '(lower, upper) := bucket_bounds d in pretty lower +:+ "-" +:+ pretty upper
  end.

(** ** Fenwick tree

    [values] has one cell per node, node 0 unused.  Indices are positions of
    a list; a step moves by the lowest set bit [index & -index]. *)
Definition lowbit (index : Z) : Z := Z.land index (- index).

Definition fenwick_init (size : nat) : list Z := replicate (size + 1) 0.

(** The [while index < len(self.values)] loop.  The index grows at every step,
    so [len(values)] iterations are enough. *)
Fixpoint add_loop (fuel : nat) (values : list Z) (index delta : Z) : result (list Z) :=
  match fuel with
  | O => Raise OutOfFuel
  | S fuel' =>
      if index <? Z.of_nat (length values) then
        let? v := lget values (Z.to_nat index) in
        let? values' := lput values (Z.to_nat index) (v + delta) in
        add_loop fuel' values' (index + lowbit index) delta
      else Ok values
  end.

Definition fenwick_add (values : list Z) (index delta : Z) : result (list Z) :=
  add_loop (S (length values)) values (index + 1) delta.

(** The [while end > 0] loop; the end shrinks at every step. *)
Fixpoint prefix_loop (fuel : nat) (values : list Z) (end_ total : Z) : result Z :=
  match fuel with
  | O => Raise OutOfFuel
  | S fuel' =>
      if 0 <? end_ then
        let? v := lget values (Z.to_nat end_) in
        prefix_loop fuel' values (end_ - lowbit end_) (total + v)
      else Ok total
  end.

Definition fenwick_prefix (values : list Z) (end_ : Z) : result Z :=
  prefix_loop (S (Z.to_nat end_)) values end_ 0.

(** ** Traces *)

Record TraceAccess := {
  key : ExpertKey; phase : string; request_id : string; prompt_id : Z; token_step : Z; ta_layer_id : Z }.

(** One event of a trace file, after [json.loads]. *)
Record trace_event := {
  ev_schema_version : Z; ev_model_fingerprint : string; ev_layer_id : Z; ev_topk_expert_ids : list Z;
  ev_phase : string; ev_request_id : string; ev_prompt_id : Z; ev_token_step : Z }.

(** The body of the event loop of [load_trace]. *)
Definition load_event (inventory : ModelInventory) (accesses : list TraceAccess) (event : trace_event) :
    result (list TraceAccess) :=
  let? _ := ensure (ev_schema_version event =? 1) (ValueError "unsupported trace schema") in
  let? _ := ensure (String.eqb (ev_model_fingerprint event) (model_fingerprint inventory))
              (ValueError "trace/model fingerprint mismatch") in
  let layer := ev_layer_id event in
  let experts := ev_topk_expert_ids event in
  let? _ := ensure ((Z.of_nat (length experts) =? top_k inventory) && bool_decide (NoDup experts))
              (ValueError "invalid top-k expert list") in
  foldM (fun acc e =>
    let? _ := expert inventory layer e in
    Ok (acc ++ [{| key := (layer, e); phase := ev_phase event; request_id := ev_request_id event;
                   prompt_id := ev_prompt_id event; token_step := ev_token_step event;
                   ta_layer_id := layer |}])) experts accesses.

(** [load_trace] on the parsed events of its files, in order. *)
Definition load_trace (inventory : ModelInventory) (events : list trace_event) : result (list TraceAccess) :=
  let? accesses := foldM (load_event inventory) events [] in
  let? _ := ensure (negb (bool_decide (accesses = []))) (ValueError "trace contains no expert accesses") in
  Ok accesses.

(** ** Reuse distances *)

Record reuse_state := { tree : list Z; last : gmap ExpertKey Z; active : Z }.

(** One iteration of the loop of [reuse_histogram], up to the distance. *)
Definition reuse_step (st : reuse_state) (position : Z) (k : ExpertKey) : result (option Z * reuse_state) :=
  match last st !! k with
  | None =>
      let? t := fenwick_add (tree st) position 1 in
      Ok (None, {| tree := t; last := <[k := position]> (last st); active := active st + 1 |})
  | Some previous =>
      let? before := fenwick_prefix (tree st) (previous + 1) in
      let? t1 := fenwick_add (tree st) previous (-1) in
      let? t2 := fenwick_add t1 position 1 in
      Ok (Some (active st - before), {| tree := t2; last := <[k := position]> (last st); active := active st |})
  end.

Definition bump (histogram : dict string Z) (bucket : string) : dict string Z :=
  dset histogram bucket (dget_or histogram bucket 0 + 1).

Fixpoint reuse_loop (accesses : list ExpertKey) (position : Z) (st : reuse_state) (histogram : dict string Z) :
    result (dict string Z) :=
  match accesses with
  | [] => Ok histogram
  | k :: rest =>
      let? (distance, st') := reuse_step st position k in
      reuse_loop rest (position + 1) st' (bump histogram (reuse_bucket distance))
  end.

Definition reuse_init (n : nat) : reuse_state := {| tree := fenwick_init n; last := ∅; active := 0 |}.

(** [dict(sorted(histogram.items()))]: keys are distinct, so the pairs are
    ordered by key. *)
Definition reuse_histogram (accesses : list TraceAccess) : result (dict string Z) :=
  let? histogram := reuse_loop (key <$> accesses) 0 (reuse_init (length accesses)) [] in
  Ok (isort (fun a b => sle a.1 b.1) histogram).

(** ** Capacity geometry *)

Record geometry := {
  requested_ratio : string; requested_alpha : spec_float; requested_hbm_bytes : Z;
  actual_hbm_bytes : Z; actual_hbf_bytes : Z; resident_expert_weight_bytes : Z;
  page_alignment_padding_bytes : Z; achieved_alpha : option spec_float;
  achieved_ratio_hbf_over_hbm : option spec_float; cache_frame_count : Z;
  geo_page_bytes : Z; complete_expert_slots : Z; expert_slot_bytes : Z }.

Definition capacity_geometry (inventory : ModelInventory) (ratio : Z * Z) (page_bytes : Z) : result geometry :=
  let '(hbm, hbf) := ratio in
  let? requested_alpha :=
    if hbf =? 0 then float_of_int 1 else int_truediv hbm (hbm + hbf) in
  let? weight := float_of_int (expert_weight_bytes inventory) in
  let? requested_hbm := float_floor (fmul weight requested_alpha) in
  let? expert_pages := ceil_div_checked (expert_bytes inventory) page_bytes in
  let expert_slot_bytes := expert_pages * page_bytes in
  let total_experts := num_layers inventory * num_experts inventory in
  let? slots :=
    if hbf =? 0 then Ok total_experts
    else let? q := int_floordiv requested_hbm expert_slot_bytes in Ok (Z.min total_experts q) in
  let actual_hbm := slots * expert_slot_bytes in
  let resident_expert_weight_bytes := slots * expert_bytes inventory in
  let actual_hbf := Z.max 0 (expert_weight_bytes inventory - resident_expert_weight_bytes) in
  let? achieved_alpha := safe_ratio resident_expert_weight_bytes (expert_weight_bytes inventory) in
  let? achieved_ratio := safe_ratio actual_hbf resident_expert_weight_bytes in
  let? frames := int_floordiv actual_hbm page_bytes in
  Ok {| requested_ratio := pretty hbm +:+ ":" +:+ pretty hbf; requested_alpha := requested_alpha;
        requested_hbm_bytes := requested_hbm; actual_hbm_bytes := actual_hbm; actual_hbf_bytes := actual_hbf;
        resident_expert_weight_bytes := resident_expert_weight_bytes;
        page_alignment_padding_bytes := actual_hbm - resident_expert_weight_bytes;
        achieved_alpha := achieved_alpha; achieved_ratio_hbf_over_hbm := achieved_ratio;
        cache_frame_count := frames; geo_page_bytes := page_bytes;
        complete_expert_slots := slots; expert_slot_bytes := expert_slot_bytes |}.

(** ** The replay loop *)

Record object_stats := { access_count : Z; miss_count : Z; eviction_count : Z }.
Definition object_zero : object_stats := {| access_count := 0; miss_count := 0; eviction_count := 0 |}.
Record phase_row := { ph_access_count : Z; ph_hit_count : Z; ph_miss_count : Z }.
Definition phase_zero : phase_row := {| ph_access_count := 0; ph_hit_count := 0; ph_miss_count := 0 |}.

(** [d.setdefault(k, default)]: the entry stays shared, so later updates of
    the returned object are updates of the dictionary ([dupd]). *)
Definition setdefault {K V} `{EqDecision K} (d : dict K V) (k : K) (default : V) : dict K V :=
  match dget d k with Some _ => d | None => dset d k default end.

Record replay_state := {
  rp_policy : option policy;
  hits : Z; misses : Z; evictions : Z; miss_keys : list ExpertKey;
  resident_peak_objects : Z;
  per_object : dict ExpertKey object_stats;
  phase_stats : dict string phase_row }.

Definition count_access (o : object_stats) : object_stats :=
  {| access_count := access_count o + 1; miss_count := miss_count o; eviction_count := eviction_count o |}.
Definition count_miss (o : object_stats) : object_stats :=
  {| access_count := access_count o; miss_count := miss_count o + 1; eviction_count := eviction_count o |}.
Definition count_eviction (o : object_stats) : object_stats :=
  {| access_count := access_count o; miss_count := miss_count o; eviction_count := eviction_count o + 1 |}.
Definition phase_access (p : phase_row) : phase_row :=
  {| ph_access_count := ph_access_count p + 1; ph_hit_count := ph_hit_count p; ph_miss_count := ph_miss_count p |}.
Definition phase_hit (p : phase_row) : phase_row :=
  {| ph_access_count := ph_access_count p; ph_hit_count := ph_hit_count p + 1; ph_miss_count := ph_miss_count p |}.
Definition phase_miss (p : phase_row) : phase_row :=
  {| ph_access_count := ph_access_count p; ph_hit_count := ph_hit_count p; ph_miss_count := ph_miss_count p + 1 |}.

(** The cache's answer to one access: [full_preloaded] always hits. *)
Definition replay_outcome (full_preloaded : bool) (policy_ : option policy) (k : ExpertKey) (position : Z) :
    result (AccessResult * option policy) :=
  if full_preloaded then Ok (Hit, policy_)
  else match policy_ with
       | None => Raise (AssertionError "")
       | Some p =>
           match policy_access k position p with
           | (Ok r, p') => Ok (r, Some p')
           | (Raise e, _) => Raise e
           end
       end.

(** The body of [for position, access in enumerate(accesses)]. *)
Definition replay_step (full_preloaded : bool) (st : replay_state) (position : Z) (access : TraceAccess) :
    result replay_state :=
  let k := key access in
  let objects1 := dupd (setdefault (per_object st) k object_zero) k count_access in
  let phases1 := dupd (setdefault (phase_stats st) (phase access) phase_zero) (phase access) phase_access in
  let? (outcome, policy') := replay_outcome full_preloaded (rp_policy st) k position in
  let h := hit outcome in
  let objects2 := if h then objects1 else dupd objects1 k count_miss in
  let phases2 := dupd phases1 (phase access) (if h then phase_hit else phase_miss) in
  let objects3 :=
    match evicted outcome with
    | Some victim => dupd (setdefault objects2 victim object_zero) victim count_eviction
    | None => objects2
    end in
  Ok {| rp_policy := policy';
        hits := if h then hits st + 1 else hits st;
        misses := if h then misses st else misses st + 1;
        evictions := match evicted outcome with Some _ => evictions st + 1 | None => evictions st end;
        miss_keys := if h then miss_keys st else miss_keys st ++ [k];
        resident_peak_objects :=
          match policy' with
          | Some p => Z.max (resident_peak_objects st) (Z.of_nat (size (policy_resident p)))
          | None => resident_peak_objects st
          end;
        per_object := objects3; phase_stats := phases2 |}.

Fixpoint replay_loop (full_preloaded : bool) (accesses : list TraceAccess) (position : Z) (st : replay_state) :
    result replay_state :=
  match accesses with
  | [] => Ok st
  | a :: rest =>
      let? st' := replay_step full_preloaded st position a in
      replay_loop full_preloaded rest (position + 1) st'
  end.

Definition replay_start (inventory : ModelInventory) (full_preloaded : bool) (policy_ : option policy) : replay_state :=
  {| rp_policy := policy_; hits := 0; misses := 0; evictions := 0; miss_keys := [];
     resident_peak_objects := if full_preloaded then num_layers inventory * num_experts inventory else 0;
     per_object := []; phase_stats := [] |}.

(** The part of [replay_cell] up to the end of its access loop. *)
Definition replay (accesses : list TraceAccess) (inventory : ModelInventory) (slots : Z) (policy_name : string) :
    result (bool * replay_state) :=
  let full_preloaded := num_layers inventory * num_experts inventory <=? slots in
  let? policy_ :=
    if full_preloaded then Ok None
    else let? p := make_policy policy_name slots (key <$> accesses) in Ok (Some p) in
  let? st := replay_loop full_preloaded accesses 0 (replay_start inventory full_preloaded policy_) in
  Ok (full_preloaded, st).

(** ** Timing *)

(** The fields of the timing engine's JSON answer that the replay reads. *)
Record timing_result := {
  t_status : option string; t_input_expert_misses : Z; t_submitted : Z;
  t_modeled_device_service_ns : Z; t_demand_exposed_stall_ns : Z;
  t_emulator_dispatcher_wall_time_ns : Z; t_engine : string; t_scheduling_semantics : string }.

Definition quote (s : string) : string :=
  let q := String (Ascii.ascii_of_nat 34) EmptyString in q +:+ s +:+ q.
Definition newline : string := String (Ascii.ascii_of_nat 10) EmptyString.

(** The event line of one miss: [json.dumps] with sorted keys and no blanks. *)
Definition event_line (inventory : ModelInventory) (g : geometry) (sequence : Z) (k : ExpertKey) : string :=
  let flat_expert := k.1 * num_experts inventory + k.2 in
  "{" +:+ quote "bytes" +:+ ":" +:+ pretty (expert_slot_bytes g)
  +:+ "," +:+ quote "logical_address" +:+ ":" +:+ pretty (flat_expert * expert_slot_bytes g)
  +:+ "," +:+ quote "operation" +:+ ":" +:+ quote "read"
  +:+ "," +:+ quote "page_bytes" +:+ ":" +:+ pretty (geo_page_bytes g)
  +:+ "," +:+ quote "schema_version" +:+ ":1," +:+ quote "sequence" +:+ ":" +:+ pretty sequence
  +:+ "}" +:+ newline.

Fixpoint event_lines (inventory : ModelInventory) (g : geometry) (sequence : Z) (ks : list ExpertKey) : string :=
  match ks with
  | [] => ""
  | k :: rest => event_line inventory g sequence k +:+ event_lines inventory g (sequence + 1) rest
  end.

(** The event directory: file names to contents. *)
Notation event_dir := (gmap string string).

(** [hbf_profile]: the JSON document and the fields the replay reads. *)
Record profile := {
  pf_document : pyval; pf_name : option string; pf_page_bytes : Z;
  aggregate_bandwidth_bytes_per_s : Z; read_latency_ns : Z }.

Record conservation := {
  request_conservation : bool; byte_conservation : bool;
  hbf_read_conservation : bool; no_unsigned_underflow : bool }.

(** The result document of a cell, without its constant entries. *)
Record cell := {
  timing_evidence_class : string; cell_id : string; cell_policy : string; simulator_mode : string;
  cache_initialization : string; cell_geometry : geometry;
  requests_total : Z; modeled_device_time_ns : Z; emulator_wall_ns : option Z;
  hbf_actually_accessed_bytes : Z; resident_bytes_current : Z; resident_bytes_peak : Z; free_frames : Z;
  cell_hits : Z; cell_misses : Z; byte_hit_ratio : option spec_float; page_hit_ratio : option spec_float;
  clean_evictions : Z; reuse_distance_histogram : dict string Z; demand_exposed_stall_ns : Z;
  objects : list (Z * Z * Z * object_stats); phases : dict string phase_row;
  expert_access_bytes : Z; hit_bytes : Z; miss_bytes : Z; hbf_bytes_per_access : option spec_float;
  serialized_modeled_ns_per_miss : Z; total_media_reads : Z; modeled_time_semantics : string;
  timing_engine : option timing_result; cell_conservation : conservation }.

Definition ANALYTIC_SEMANTICS : string :=
  "sum of nominal read latency plus aggregate-bandwidth transfer; conservative serialized analytic bound, not HBFSim fast/hybrid or MQSim device execution".

(** The arguments of [replay_cell] that only reach the manifest. *)
Record identity := {
  git_commit : string; environment_fingerprint : string; repetition : Z; trace_fingerprint : string }.

(** The local variables the timing branches of [replay_cell] set. *)
Record timing := {
  modeled_read_ns : Z; exposed_stall_ns : Z; tm_emulator_wall_ns : option Z; tm_simulator_mode : string;
  tm_evidence_class : string; tm_semantics : string; tm_result : option timing_result }.

Section engine.
(** [canonical_sha256] of a document, and the timing engine process: mode and
    event file contents to its parsed standard output. *)
Context (canonical_sha256 : pyval -> string).
Context (run_engine : string -> string -> result timing_result).

Definition event_identity (ks : list ExpertKey) (inventory : ModelInventory) (g : geometry) : pyval :=
  VDict [("miss_keys", VList ((fun k : ExpertKey => VList [VInt k.1; VInt k.2]) <$> ks));
         ("expert_bytes", VInt (expert_bytes inventory));
         ("expert_slot_bytes", VInt (expert_slot_bytes g));
         ("page_bytes", VInt (geo_page_bytes g))].

Definition run_timing_engine (mode : string) (ks : list ExpertKey) (inventory : ModelInventory) (g : geometry) :
    M event_dir timing_result :=
  let event_path := canonical_sha256 (event_identity ks inventory g) +:+ ".jsonl" in
  let encoded := event_lines inventory g 1 ks in
  let! files := get in
  let! _ :=
    match files !! event_path with
    | Some old => require (String.eqb old encoded) (RuntimeError "timing event identity collision")
    | None => put (<[event_path := encoded]> files)
    end in
  let! res := lift (run_engine mode encoded) in
  let n := Z.of_nat (length ks) in
  let! _ := require (bool_decide (t_status res = Some "PASS") && (t_input_expert_misses res =? n))
              (RuntimeError "timing engine returned an invalid result") in
  let! pages := lift (ceil_div_checked (expert_bytes inventory) (geo_page_bytes g)) in
  let! _ := require (t_submitted res =? n * pages)
              (RuntimeError "timing engine returned an invalid result") in
  sret res.

(** The [if timing_mode == "analytic"] branches. *)
Definition cell_timing (timing_mode : string) (external : bool) (st : replay_state)
    (inventory : ModelInventory) (g : geometry) (ns_per_miss : Z) : M event_dir timing :=
  if String.eqb timing_mode "analytic" then
    let t := misses st * ns_per_miss in
    sret {| modeled_read_ns := t; exposed_stall_ns := t; tm_emulator_wall_ns := None;
            tm_simulator_mode := "analytic-profile-serial-upper-bound";
            tm_evidence_class := "ANALYTIC_PROFILE_UPPER_BOUND";
            tm_semantics := ANALYTIC_SEMANTICS; tm_result := None |}
  else
    let! _ := require external (ValueError "external timing mode requires binary/profile/event dir") in
    let! res := run_timing_engine timing_mode (miss_keys st) inventory g in
    sret {| modeled_read_ns := t_modeled_device_service_ns res;
            exposed_stall_ns := t_demand_exposed_stall_ns res;
            tm_emulator_wall_ns := Some (t_emulator_dispatcher_wall_time_ns res);
            tm_simulator_mode := t_engine res;
            tm_evidence_class :=
              if String.eqb timing_mode "mqsim" then "MQSIM_REFERENCE_MODELED" else "FAST_OR_HYBRID_MODELED";
            tm_semantics := t_scheduling_semantics res; tm_result := Some res |}.

Definition cell_manifest (ident : identity) (inventory : ModelInventory) (g : geometry) (pf : profile)
    (policy_name simulator_mode : string) : pyval :=
  VDict [("git_commit", VStr (git_commit ident)); ("model_fingerprint", VStr (model_fingerprint inventory));
         ("environment_fingerprint", VStr (environment_fingerprint ident));
         ("workload", VStr (trace_fingerprint ident)); ("ratio", VStr (requested_ratio g));
         ("actual_bytes", VInt (actual_hbm_bytes g)); ("policy", VStr policy_name);
         ("hbf_profile", VStr (default "unknown" (pf_name pf)));
         ("hbf_profile_sha256", VStr (canonical_sha256 (pf_document pf)));
         ("hbf_profile_config", pf_document pf); ("simulator_mode", VStr simulator_mode);
         ("prefetch", VDict [("readahead_pages", VInt 0)]); ("seed", VInt 0);
         ("repetition", VInt (repetition ident))].

(** The four checks before the result is returned. *)
Definition check_conservation (st : replay_state) (n : Z) (inventory : ModelInventory) (g : geometry)
    (hit_bytes miss_bytes media_read_bytes total_access_bytes expert_pages : Z) : conservation :=
  {| request_conservation := hits st + misses st =? n;
     byte_conservation := hit_bytes + miss_bytes =? total_access_bytes;
     hbf_read_conservation := (Z.of_nat (length (miss_keys st)) =? misses st)
       && (media_read_bytes =? misses st * expert_pages * geo_page_bytes g);
     no_unsigned_underflow :=
       forallb (Z.leb 0) [hits st; misses st; evictions st; hit_bytes; miss_bytes] |}.

Definition conservation_all (c : conservation) : bool :=
  request_conservation c && byte_conservation c && hbf_read_conservation c && no_unsigned_underflow c.

(** [sorted(per_object.items())]; the keys are distinct. *)
Definition object_rows (expert_bytes : Z) (d : dict ExpertKey object_stats) : list (Z * Z * Z * object_stats) :=
  (fun kv : ExpertKey * object_stats => (kv.1.1, kv.1.2, expert_bytes, kv.2))
    <$> isort (fun a b => key_le a.1 b.1) d.

Definition replay_cell (accesses : list TraceAccess) (inventory : ModelInventory) (pf : profile)
    (g : geometry) (policy_name : string) (ident : identity) (timing_mode : string) (external : bool) :
    M event_dir cell :=
  let n := Z.of_nat (length accesses) in
  let! (full_preloaded, st) := lift (replay accesses inventory (complete_expert_slots g) policy_name) in
  let expert_bytes := expert_bytes inventory in
  let total_access_bytes := n * expert_bytes in
  let hit_bytes := hits st * expert_bytes in
  let miss_bytes := misses st * expert_bytes in
  let media_read_bytes := misses st * expert_slot_bytes g in
  let! expert_pages := lift (ceil_div_checked expert_bytes (geo_page_bytes g)) in
  let! page_transfer_ns :=
    lift (ceil_div_checked (geo_page_bytes g * 1000000000) (aggregate_bandwidth_bytes_per_s pf)) in
  let serialized := expert_pages * (read_latency_ns pf + page_transfer_ns) in
  let! tm := cell_timing timing_mode external st inventory g serialized in
  let conservation :=
    check_conservation st n inventory g hit_bytes miss_bytes media_read_bytes total_access_bytes expert_pages in
  let! _ := require (conservation_all conservation) (AssertionError "replay conservation failed") in
  let total_experts := num_layers inventory * num_experts inventory in
  let resident_now :=
    if full_preloaded then total_experts
    else match rp_policy st with Some p => Z.of_nat (size (policy_resident p)) | None => 0 end in
  let! byte_hit := lift (safe_ratio hit_bytes total_access_bytes) in
  let! page_hit := lift (safe_ratio (hits st) (hits st + misses st)) in
  let! histogram := lift (reuse_histogram accesses) in
  let! per_access := lift (safe_ratio media_read_bytes n) in
  sret {| timing_evidence_class := tm_evidence_class tm;
          cell_id := canonical_sha256 (cell_manifest ident inventory g pf policy_name (tm_simulator_mode tm));
          cell_policy := policy_name; simulator_mode := tm_simulator_mode tm;
          cache_initialization := if full_preloaded then "all-experts-preloaded" else "empty";
          cell_geometry := g; requests_total := n; modeled_device_time_ns := modeled_read_ns tm;
          emulator_wall_ns := tm_emulator_wall_ns tm; hbf_actually_accessed_bytes := media_read_bytes;
          resident_bytes_current := resident_now * expert_slot_bytes g;
          resident_bytes_peak := resident_peak_objects st * expert_slot_bytes g;
          free_frames := Z.max 0 (cache_frame_count g - resident_now * expert_pages);
          cell_hits := hits st; cell_misses := misses st; byte_hit_ratio := byte_hit; page_hit_ratio := page_hit;
          clean_evictions := evictions st; reuse_distance_histogram := histogram;
          demand_exposed_stall_ns := exposed_stall_ns tm;
          objects := object_rows expert_bytes (per_object st); phases := phase_stats st;
          expert_access_bytes := total_access_bytes; hit_bytes := hit_bytes; miss_bytes := miss_bytes;
          hbf_bytes_per_access := per_access; serialized_modeled_ns_per_miss := serialized;
          total_media_reads := misses st * expert_pages; modeled_time_semantics := tm_semantics tm;
          timing_engine := tm_result tm; cell_conservation := conservation |}.
End engine.

(** ** The driver's grid

    [main] runs every selected ratio, policy and timing mode, in an order its
    seeded shuffle chooses. *)
Definition execution_plan (selected_ratios : list (Z * Z)) (selected_policies timing_modes : list string) :
    list ((Z * Z) * string * string) :=
  ratio ← selected_ratios; policy ← selected_policies; timing_mode ← timing_modes; [(ratio, policy, timing_mode)].

(** ** The Fenwick tree computes prefix sums *)

(** Every positive index is an odd multiple of its lowest set bit. *)
Lemma odd_part i : 0 < i -> exists k m, 0 <= k /\ 0 <= m /\ i = 2 ^ k * (2 * m + 1).
Proof.
  revert i. apply (well_founded_induction (Z.lt_wf 0)
    (fun i => 0 < i -> exists k m, 0 <= k /\ 0 <= m /\ i = 2 ^ k * (2 * m + 1))).
  intros i IH Hi. destruct (Z.Even_or_Odd i) as [[j Hj]|[j Hj]].
  - destruct (IH j) as (k & m & Hk & Hm & Ej); [lia..|]. exists (k + 1), m. split_and!; [lia..|].
    rewrite Z.pow_add_r by lia. rewrite Hj, Ej. lia.
  - exists 0, j. rewrite Z.pow_0_r. lia.
Qed.

Lemma lowbit_odd_part k m : 0 <= k -> lowbit (2 ^ k * (2 * m + 1)) = 2 ^ k.
Proof.
  intros Hk. unfold lowbit.
  replace (- (2 ^ k * (2 * m + 1))) with ((- (2 * m + 1)) * 2 ^ k) by lia.
  rewrite (Z.mul_comm (2 ^ k)), <- !Z.shiftl_mul_pow2, <- Z.shiftl_land by done.
  replace (- (2 * m + 1)) with (2 * Z.lnot m + 1) by (unfold Z.lnot; lia).
  assert (E : Z.land (2 * m + 1) (2 * Z.lnot m + 1) = 1); [|by rewrite E, Z.shiftl_1_l].
  apply Z.bits_inj. intros n. rewrite Z.land_spec. destruct (Z.lt_trichotomy n 0) as [Hn|[->|Hn]].
  - by rewrite !Z.testbit_neg_r.
  - by rewrite !Z.testbit_odd_0.
  - replace n with (Z.succ (n - 1)) by lia. rewrite !Z.testbit_odd_succ by lia.
    rewrite Z.lnot_spec by lia. replace 1 with (2 * 0 + 1) at 3 by lia.
    rewrite Z.testbit_odd_succ, Z.testbit_0_l by lia. by destruct (Z.testbit m (n - 1)).
Qed.

Lemma lowbit_bounds i : 0 < i -> 0 < lowbit i <= i.
Proof.
  intros Hi. destruct (odd_part i Hi) as (k & m & Hk & Hm & ->). rewrite lowbit_odd_part by done.
  pose proof (Z.pow_pos_nonneg 2 k). nia.
Qed.

(** [covers t i]: node [t] of the tree counts position [i]. *)
Definition covers (t i : Z) : Prop := t - lowbit t < i <= t.

#[export] Instance covers_dec t i : Decision (covers t i).
Proof. unfold covers. apply _. Defined.

Lemma pow2_divide j k : 0 <= j <= k -> (2 ^ j | 2 ^ k).
Proof. intros H. exists (2 ^ (k - j)). rewrite <- Z.pow_add_r by lia. f_equal. lia. Qed.

(** A multiple of [d] strictly above another is at least [d] above it. *)
Lemma multiples_gap d a b : 0 < d -> (d | a) -> (d | b) -> a < b -> a + d <= b.
Proof.
  intros Hd [x ->] [y ->] Hlt. assert (x < y) by (apply (Z.mul_lt_mono_pos_r d); lia).
  replace (x * d + d) with ((x + 1) * d) by lia. apply Z.mul_le_mono_nonneg_r; lia.
Qed.

(** The other nodes that count [i] are those that count [i + lowbit i]. *)
Lemma covers_parent t i : 0 < i -> i < t -> covers t i <-> covers t (i + lowbit i).
Proof.
  intros Hi Hlt. destruct (odd_part i Hi) as (k & m & Hk & Hm & Ei).
  destruct (odd_part t ltac:(lia)) as (j & n & Hj & Hn & Et). unfold covers.
  rewrite Ei, Et, !lowbit_odd_part, <- Ei, <- Et by done.
  pose proof (Z.pow_pos_nonneg 2 k ltac:(lia) Hk) as Pk. pose proof (Z.pow_pos_nonneg 2 j ltac:(lia) Hj) as Pj.
  assert (Hparent : i + 2 ^ k = 2 ^ (k + 1) * (m + 1)) by (rewrite Ei, Z.pow_add_r by lia; lia).
  assert (Hbase : t - 2 ^ j = 2 ^ (j + 1) * n) by (rewrite Et, Z.pow_add_r by lia; lia).
  destruct (Z_lt_le_dec k j) as [Hkj|Hkj].
  - assert (D1 : (2 ^ (k + 1) | t)).
    { rewrite Et. apply Z.divide_mul_l, pow2_divide. lia. }
    assert (D2 : (2 ^ (k + 1) | t - 2 ^ j)).
    { rewrite Hbase. apply Z.divide_mul_l, pow2_divide. lia. }
    assert (D3 : (2 ^ (k + 1) | i + 2 ^ k)) by (rewrite Hparent; apply Z.divide_factor_l).
    assert (D4 : (2 ^ k | t)) by (eapply Z.divide_trans; [apply (pow2_divide k (k + 1)); lia|done]).
    assert (D5 : (2 ^ k | i)) by (rewrite Ei; apply Z.divide_factor_l).
    assert (E2 : 2 ^ (k + 1) = 2 * 2 ^ k) by (rewrite Z.pow_add_r by lia; lia).
    pose proof (multiples_gap (2 ^ k) i t Pk D5 D4 Hlt) as Hgap.
    split; [lia|]. intros [H1 H2]. split; [|lia].
    pose proof (multiples_gap (2 ^ (k + 1)) (t - 2 ^ j) (i + 2 ^ k) ltac:(lia) D2 D3 H1). lia.
  - split.
    + intros [H1 H2]. exfalso.
      assert (D : (2 ^ j | i)) by (rewrite Ei; apply Z.divide_mul_l, pow2_divide; lia).
      assert (D' : (2 ^ j | t)) by (rewrite Et; apply Z.divide_factor_l).
      pose proof (multiples_gap (2 ^ j) i t Pj D D' Hlt). lia.
    + intros [H1 H2]. exfalso.
      assert (D : (2 ^ (j + 1) | i + 2 ^ k)).
      { rewrite Hparent. apply Z.divide_mul_l, pow2_divide. lia. }
      assert (D' : (2 ^ (j + 1) | t - 2 ^ j)) by (rewrite Hbase; apply Z.divide_factor_l).
      assert (E2 : 2 ^ (j + 1) = 2 * 2 ^ j) by (rewrite Z.pow_add_r by lia; lia).
      pose proof (multiples_gap (2 ^ (j + 1)) (t - 2 ^ j) (i + 2 ^ k) ltac:(lia) D' D H1). lia.
Qed.

(** Sum of [f] over the integers in [(a, b]]. *)
Definition range_sum (f : Z -> Z) (a b : Z) : Z :=
  zsum ((fun d => f (a + 1 + Z.of_nat d)) <$> seq 0 (Z.to_nat (b - a))).

Lemma range_sum_empty f a b : b <= a -> range_sum f a b = 0.
Proof. intros H. unfold range_sum. by replace (Z.to_nat (b - a)) with 0%nat by lia. Qed.

Lemma range_sum_split f a b c : a <= b <= c -> range_sum f a c = range_sum f a b + range_sum f b c.
Proof.
  intros H. unfold range_sum.
  replace (Z.to_nat (c - a)) with (Z.to_nat (b - a) + Z.to_nat (c - b))%nat by lia.
  rewrite seq_app, fmap_app, zsum_app. f_equal. rewrite <- (Nat.add_0_r (0 + Z.to_nat (b - a))).
  rewrite <- fmap_add_seq, <- list_fmap_compose. f_equal. apply list_fmap_ext.
  intros i x _. simpl. f_equal. lia.
Qed.

Lemma range_sum_ext f g a b : (forall i, a < i <= b -> f i = g i) -> range_sum f a b = range_sum g a b.
Proof.
  intros H. unfold range_sum. apply zsum_map_ext. intros d [_ Hd]%elem_of_seq. apply H. lia.
Qed.

Lemma range_sum_snoc f a b : a < b -> range_sum f a b = range_sum f a (b - 1) + f b.
Proof.
  intros H. rewrite (range_sum_split f a (b - 1) b) by lia. f_equal. unfold range_sum.
  replace (Z.to_nat (b - (b - 1))) with 1%nat by lia. csimpl. unfold zsum. simpl.
  rewrite Z.add_0_r. f_equal. lia.
Qed.

(** Adding [delta] at one point adds it to every sum that includes the point. *)
Definition shift_at (f : Z -> Z) (p delta i : Z) : Z := f i + if decide (i = p) then delta else 0.

Lemma range_sum_shift f p delta a b : a <= b ->
  range_sum (shift_at f p delta) a b = range_sum f a b + if decide (a < p <= b) then delta else 0.
Proof.
  intros H. replace b with (a + Z.of_nat (Z.to_nat (b - a))) by lia.
  induction (Z.to_nat (b - a)) as [|n IH].
  - rewrite !range_sum_empty by lia. case_decide; lia.
  - rewrite !(range_sum_snoc _ a (a + Z.of_nat (S n))) by lia.
    replace (a + Z.of_nat (S n) - 1) with (a + Z.of_nat n) by lia. rewrite IH. unfold shift_at.
    repeat case_decide; lia.
Qed.

(** The tree [values] represents the array [f] on positions [1..n]. *)
Definition represents (values : list Z) (f : Z -> Z) : Prop :=
  forall t, 0 < t < Z.of_nat (length values) -> values !! Z.to_nat t = Some (range_sum f (t - lowbit t) t).

Lemma fenwick_init_represents n : represents (fenwick_init n) (fun _ => 0).
Proof.
  intros t Ht. unfold fenwick_init in *. rewrite length_replicate in Ht.
  rewrite lookup_replicate_2 by lia. f_equal. unfold range_sum. by rewrite zsum_map_const.
Qed.

Lemma prefix_loop_spec values f fuel end_ total :
  represents values f -> 0 <= end_ < Z.of_nat (length values) -> (Z.to_nat end_ < fuel)%nat ->
  prefix_loop fuel values end_ total = Ok (total + range_sum f 0 end_).
Proof.
  intros Hrep. revert end_ total. induction fuel as [|fuel IH]; intros end_ total Hend Hfuel; [lia|].
  simpl. destruct (Z.ltb_spec 0 end_) as [Hpos|Hpos].
  - rewrite (lget_Ok _ _ _ (Hrep end_ ltac:(lia))). simpl. pose proof (lowbit_bounds end_ Hpos).
    rewrite IH by lia. rewrite (range_sum_split f 0 (end_ - lowbit end_) end_) by lia. f_equal. lia.
  - rewrite range_sum_empty by lia. f_equal. lia.
Qed.

Lemma fenwick_prefix_spec values f end_ :
  represents values f -> 0 <= end_ < Z.of_nat (length values) ->
  fenwick_prefix values end_ = Ok (range_sum f 0 end_).
Proof. intros. unfold fenwick_prefix. rewrite (prefix_loop_spec _ f); [done..|lia]. Qed.

(** The update loop from [i] adds [delta] to exactly the nodes that cover [i]. *)
Lemma add_loop_spec fuel values i delta :
  0 < i -> (Z.of_nat (length values) - i < Z.of_nat fuel) -> (0 < fuel)%nat ->
  exists values', add_loop fuel values i delta = Ok values' /\ length values' = length values
    /\ forall t, 0 < t < Z.of_nat (length values) ->
         values' !! Z.to_nat t = (fun v => v + if decide (covers t i) then delta else 0) <$> values !! Z.to_nat t.
Proof.
  revert values i. induction fuel as [|fuel IH]; intros values i Hi Hf Hf0; [lia|]. simpl.
  destruct (Z.ltb_spec i (Z.of_nat (length values))) as [Hlt|Hge].
  - destruct (lookup_lt_is_Some_2 values (Z.to_nat i) ltac:(lia)) as [v Hv].
    rewrite (lget_Ok _ _ _ Hv). simpl. rewrite lput_Ok by lia. simpl.
    pose proof (lowbit_bounds i Hi) as Hb.
    destruct (IH (<[Z.to_nat i := v + delta]> values) (i + lowbit i)) as (values' & Hadd & Hlen & Hval);
      [lia|rewrite length_insert; lia|lia|].
    exists values'. rewrite length_insert in *. split_and!; [done..|]. intros t Ht. rewrite Hval by done.
    destruct (Z.lt_trichotomy t i) as [Hti|[->|Hti]].
    + rewrite list_lookup_insert_ne by lia. f_equal. 
      rewrite !decide_False by (unfold covers; lia). done.
    + rewrite list_lookup_insert_eq, Hv by lia. simpl. f_equal.
      rewrite decide_False by (unfold covers; lia). rewrite decide_True by (unfold covers; lia). lia.
    + rewrite list_lookup_insert_ne by lia. by rewrite (decide_ext _ _ _ _ (covers_parent t i Hi Hti)).
  - exists values. split_and!; [done..|]. intros t Ht.
    destruct (lookup_lt_is_Some_2 values (Z.to_nat t) ltac:(lia)) as [v ->]. simpl. f_equal.
    rewrite decide_False by (unfold covers; lia). lia.
Qed.

Lemma fenwick_add_spec values f p delta :
  represents values f -> 0 <= p ->
  exists values', fenwick_add values p delta = Ok values' /\ length values' = length values
    /\ represents values' (shift_at f (p + 1) delta).
Proof.
  intros Hrep Hp.
  destruct (add_loop_spec (S (length values)) values (p + 1) delta) as (values' & Hadd & Hlen & Hval); [lia..|].
  exists values'. split_and!; [done..|]. intros t Ht. rewrite Hlen in Ht. rewrite Hval, (Hrep t Ht) by done.
  simpl. f_equal. pose proof (lowbit_bounds t ltac:(lia)). rewrite range_sum_shift by lia. done.
Qed.

(** ** Reuse distances are positions in the recency stack *)

Fixpoint stack_index (k : ExpertKey) (stack : list ExpertKey) : option Z :=
  match stack with
  | [] => None
  | x :: rest => if decide (k = x) then Some 0 else Z.succ <$> stack_index k rest
  end.

Lemma stack_index_app k A B : k ∉ A -> stack_index k (A ++ k :: B) = Some (Z.of_nat (length A)).
Proof.
  induction A as [|a A IH]; simpl; [by rewrite decide_True|]. intros [Hne HA]%not_elem_of_cons.
  rewrite decide_False, IH by done. simpl. f_equal. lia.
Qed.

Lemma stack_index_None k stack : k ∉ stack -> stack_index k stack = None.
Proof.
  induction stack as [|a A IH]; simpl; [done|]. intros [Hne HA]%not_elem_of_cons.
  by rewrite decide_False, IH.
Qed.

(** The recency stack with the position of each key's last access. *)
Notation stamped := (list (ExpertKey * Z)).
Definition push (S : stamped) (k : ExpertKey) (position : Z) : stamped :=
  (k, position) :: filter (fun e => e.1 <> k) S.

(** How many entries of the stack have tree position [i]. *)
Definition marks (S : stamped) (i : Z) : Z :=
  zsum ((fun e : ExpertKey * Z => if decide (i = e.2 + 1) then 1 else 0) <$> S).

Lemma marks_cons e S i : marks (e :: S) i = shift_at (marks S) (e.2 + 1) 1 i.
Proof. unfold marks, shift_at. csimpl. unfold zsum. simpl. lia. Qed.

Lemma marks_app A B i : marks (A ++ B) i = marks A i + marks B i.
Proof. unfold marks. by rewrite fmap_app, zsum_app. Qed.

(** Invariant of the loop at [position]: [S] is the stamped stack, with
    strictly decreasing positions, and the tree represents its marks. *)
Record reuse_inv (n : nat) (position : Z) (S : stamped) (st : reuse_state) : Prop := {
  ri_sorted : sorted (fun a b => a.2 >? b.2) S;
  ri_nodup : NoDup S.*1;
  ri_range : Forall (fun e => 0 <= e.2 < position) S;
  ri_last : forall k q, last st !! k = Some q <-> (k, q) ∈ S;
  ri_tree : represents (tree st) (marks S);
  ri_len : length (tree st) = (n + 1)%nat;
  ri_active : active st = Z.of_nat (length S);
}.

Lemma represents_ext values f g : (forall i, f i = g i) -> represents values f -> represents values g.
Proof. intros H Hr t Ht. rewrite (Hr t Ht). f_equal. apply range_sum_ext. auto. Qed.

(** Marks up to [x] count the entries stamped before [x]. *)
Lemma marks_prefix S x : Forall (fun e => 0 <= e.2) S -> 0 <= x ->
  range_sum (marks S) 0 x = zsum ((fun e : ExpertKey * Z => if decide (e.2 < x) then 1 else 0) <$> S).
Proof.
  intros HS Hx. induction HS as [|e S He _ IH].
  - unfold marks, range_sum. simpl. by rewrite zsum_map_const.
  - rewrite (range_sum_ext _ (shift_at (marks S) (e.2 + 1) 1)) by (intros; apply marks_cons).
    rewrite range_sum_shift, IH by done. csimpl. unfold zsum. simpl. repeat case_decide; lia.
Qed.

Lemma count_const {A} (P : A -> Prop) `{forall x, Decision (P x)} (b : bool) l :
  (forall x, x ∈ l -> if b then P x else ~ P x) ->
  zsum ((fun x => if decide (P x) then 1 else 0) <$> l) = if b then Z.of_nat (length l) else 0.
Proof.
  unfold zsum. induction l as [|a l IH]; intros Hl; csimpl; [by destruct b|].
  rewrite IH by set_solver. specialize (Hl a ltac:(set_solver)). destruct b; case_decide; try done; lia.
Qed.

Lemma filter_key_split (A B : stamped) k q : k ∉ A.*1 -> k ∉ B.*1 ->
  filter (fun e => e.1 <> k) (A ++ (k, q) :: B) = A ++ B.
Proof.
  intros HA HB. rewrite filter_app, filter_cons_False by naive_solver. f_equal; apply filter_all;
    intros x Hx <-; [apply HA|apply HB]; by apply list_elem_of_fmap_2.
Qed.

(** A stack that holds [k] splits at it. *)
Lemma stack_split n position S st k q : reuse_inv n position S st -> (k, q) ∈ S ->
  exists A B, S = A ++ (k, q) :: B /\ k ∉ A.*1 /\ k ∉ B.*1
    /\ (forall e, e ∈ A -> q < e.2) /\ (forall e, e ∈ B -> e.2 < q).
Proof.
  intros Hi (A & B & ->)%list_elem_of_split. exists A, B.
  pose proof (ri_nodup _ _ _ _ Hi) as Hnd. rewrite fmap_app in Hnd. csimpl in Hnd.
  apply NoDup_app in Hnd as (_ & HA & [HB _]%NoDup_cons).
  pose proof (ri_sorted _ _ _ _ Hi) as [[Hkb _] Hab]%sorted_app_inv. rewrite Forall_forall in Hkb.
  split_and!; [done| |done| |].
  - intros Hk. apply (HA k Hk). set_solver.
  - intros e He. specialize (Hab e (k, q) He ltac:(set_solver)). simpl in Hab. lia.
  - intros e He. specialize (Hkb e He). simpl in Hkb. lia.
Qed.

Lemma sorted_remove (A B : stamped) e :
  sorted (fun a b => a.2 >? b.2) (A ++ e :: B) -> sorted (fun a b => a.2 >? b.2) (A ++ B).
Proof.
  induction A as [|a A IH]; simpl; [by intros [_ ?]|]. intros [Ha HA]. split; [|by apply IH].
  apply Forall_app in Ha as [? Ha]. apply Forall_app. split; [done|]. by inversion Ha.
Qed.

(** The invariant for a stack that grows by [k] at [position]. *)
Lemma push_inv n position S S0 st st' k :
  reuse_inv n position S st -> filter (fun e => e.1 <> k) S = S0 -> 0 <= position ->
  sorted (fun a b => a.2 >? b.2) S0 -> (forall e, e ∈ S0 -> e ∈ S) ->
  last st' = <[k := position]> (last st) -> represents (tree st') (marks ((k, position) :: S0)) ->
  length (tree st') = (n + 1)%nat -> active st' = Z.of_nat (Datatypes.S (length S0)) ->
  reuse_inv n (position + 1) (push S k position) st'.
Proof.
  intros Hi HS0 Hp Hsort Hsub Hlast Htree Hlen Hact. unfold push. rewrite HS0.
  pose proof (ri_range _ _ _ _ Hi) as Hrange. rewrite Forall_forall in Hrange.
  constructor; simpl; try done.
  - split; [|done]. rewrite Forall_forall. intros e He. specialize (Hrange e (Hsub e He)). simpl. lia.
  - apply NoDup_cons. subst S0. split.
    + intros ([k' q] & Hk & [Hne _]%list_elem_of_filter)%list_elem_of_fmap. by simpl in *.
    + apply NoDup_fmap_filter, (ri_nodup _ _ _ _ Hi).
  - constructor; simpl; [lia|]. rewrite Forall_forall. intros e He. specialize (Hrange e (Hsub e He)). lia.
  - intros k' q. rewrite Hlast, elem_of_cons. subst S0. rewrite list_elem_of_filter. simpl.
    destruct (decide (k' = k)) as [->|Hne].
    + rewrite lookup_insert_eq. naive_solver.
    + rewrite lookup_insert_ne by done. rewrite (ri_last _ _ _ _ Hi). naive_solver.
Qed.

(** One iteration computes the position of the key in the recency stack. *)
Lemma reuse_step_spec n position S st k :
  reuse_inv n position S st -> 0 <= position < Z.of_nat n ->
  exists st', reuse_step st position k = Ok (stack_index k S.*1, st')
    /\ reuse_inv n (position + 1) (push S k position) st'.
Proof.
  intros Hi Hp. unfold reuse_step. destruct (last st !! k) as [q|] eqn:Hk.
  - apply (ri_last _ _ _ _ Hi) in Hk.
    destruct (stack_split _ _ _ _ _ _ Hi Hk) as (A & B & -> & HA & HB & HqA & HqB).
    pose proof (ri_range _ _ _ _ Hi) as Hrange.
    assert (Hq : 0 <= q < position) by (rewrite Forall_forall in Hrange; apply (Hrange _ Hk)).
    assert (Hnonneg : Forall (fun e : ExpertKey * Z => 0 <= e.2) (A ++ (k, q) :: B)).
    { eapply Forall_impl; [exact Hrange|]. simpl. lia. }
    rewrite (fenwick_prefix_spec _ _ _ (ri_tree _ _ _ _ Hi)) by (rewrite (ri_len _ _ _ _ Hi); lia). simpl.
    destruct (fenwick_add_spec _ _ q (-1) (ri_tree _ _ _ _ Hi)) as (t1 & -> & Hl1 & Hr1); [lia|]. simpl.
    destruct (fenwick_add_spec _ _ position 1 Hr1) as (t2 & -> & Hl2 & Hr2); [lia|]. simpl.
    assert (Hidx : stack_index k (A ++ (k, q) :: B).*1 = Some (Z.of_nat (length A))).
    { rewrite fmap_app. csimpl. rewrite stack_index_app by done. by rewrite length_fmap. }
    assert (Hnum : active st - range_sum (marks (A ++ (k, q) :: B)) 0 (q + 1) = Z.of_nat (length A)).
    { rewrite marks_prefix by (done || lia). rewrite (ri_active _ _ _ _ Hi), fmap_app, zsum_app, !length_app.
      rewrite (count_const _ false A) by (intros e He; specialize (HqA e He); lia).
      rewrite (count_const _ true ((k, q) :: B)); [simpl; lia|].
      intros e [->|He]%elem_of_cons; simpl; [lia|]. specialize (HqB e He). lia. }
    rewrite Hidx, Hnum. eexists. split; [done|].
    eapply (push_inv n position _ (A ++ B)); [exact Hi|by apply filter_key_split|lia| | |done| | |]; simpl.
    + eapply sorted_remove, (ri_sorted _ _ _ _ Hi).
    + set_solver.
    + eapply represents_ext; [|exact Hr2]. intros i. rewrite marks_cons. unfold shift_at. simpl.
      rewrite !marks_app, marks_cons. unfold shift_at. simpl. repeat case_decide; lia.
    + rewrite Hl2, Hl1. apply Hi.
    + rewrite (ri_active _ _ _ _ Hi), !length_app. simpl. lia.
  - assert (Hnot : k ∉ S.*1).
    { intros ([k' q] & -> & Hin)%list_elem_of_fmap. apply (ri_last _ _ _ _ Hi) in Hin. simpl in *. congruence. }
    destruct (fenwick_add_spec _ _ position 1 (ri_tree _ _ _ _ Hi)) as (t & -> & Hl & Hr); [lia|]. simpl.
    rewrite stack_index_None by done. eexists. split; [done|].
    assert (Hf : filter (fun e : ExpertKey * Z => e.1 <> k) S = S).
    { apply filter_all. intros e He <-. apply Hnot. by apply list_elem_of_fmap_2. }
    eapply (push_inv n position _ S); [exact Hi|done|lia|apply (ri_sorted _ _ _ _ Hi)|done|done| | |]; simpl.
    + eapply represents_ext; [|exact Hr]. intros i. by rewrite marks_cons.
    + rewrite Hl. apply Hi.
    + rewrite (ri_active _ _ _ _ Hi). lia.
Qed.

(** The reuse distance of access [i] of a trace: [None] for a first access,
    otherwise the place of its key in the recency stack of what precedes it. *)
Definition reuse_distance (trace : list ExpertKey) (i : nat) : option Z :=
  k ← trace !! i; stack_index k (recency (take i trace)).

(** It is the number of distinct other keys since the key's last access. *)
Lemma stack_index_distinct A k B : k ∉ B ->
  stack_index k (recency (A ++ k :: B)) = Some (Z.of_nat (size (list_to_set B : gset ExpertKey))).
Proof.
  intros HB.
  assert (H : exists T U, recency (A ++ k :: B) = T ++ k :: U /\ NoDup T /\ k ∉ T /\ forall x, x ∈ T <-> x ∈ B).
  { induction B as [|x B IH] using rev_ind.
    - exists [], (filter (fun x => x <> k) (recency A)). rewrite recency_snoc. split_and!; [done|constructor|set_solver|done].
    - destruct IH as (T & U & E & Hnd & Hk & HT); [set_solver|].
      replace (A ++ k :: B ++ [x]) with ((A ++ k :: B) ++ [x]) by (by rewrite <- app_assoc).
      rewrite recency_snoc, E, filter_app, filter_cons_True by set_solver.
      exists (x :: filter (fun y => y <> x) T), (filter (fun y => y <> x) U). split_and!; [done| | |].
      + apply NoDup_cons. split; [rewrite list_elem_of_filter; naive_solver|by apply NoDup_filter].
      + rewrite not_elem_of_cons, list_elem_of_filter. set_solver.
      + intros y. rewrite elem_of_cons, list_elem_of_filter, elem_of_app, list_elem_of_singleton, HT.
        destruct (decide (y = x)); naive_solver. }
  destruct H as (T & U & -> & Hnd & Hk & HT). rewrite stack_index_app by done. f_equal. f_equal.
  rewrite <- (size_list_to_set (C := gset ExpertKey) T Hnd). f_equal. apply set_eq. intros x.
  by rewrite !elem_of_list_to_set.
Qed.

Lemma stack_index_lt k stack n : NoDup stack ->
  k ∈ take n stack <-> exists d, stack_index k stack = Some d /\ d < Z.of_nat n.
Proof.
  revert n. induction stack as [|a stack IH]; intros n Hnd; simpl.
  - rewrite take_nil. split; [by intros ?%not_elem_of_nil|naive_solver].
  - apply NoDup_cons in Hnd as [Ha Hnd]. destruct n as [|n].
    + split; [by intros ?%not_elem_of_nil|]. intros (d & Hd & Hlt). exfalso. clear IH.
      case_decide; [naive_solver lia|]. revert d Hd Hlt. clear. 
      enough (H : forall d, stack_index k stack = Some d -> 0 <= d).
      { intros d Hd. destruct (stack_index k stack) eqn:E; simplify_eq/=. specialize (H _ eq_refl). lia. }
      induction stack as [|x l IH]; simpl; [done|]. intros d. case_decide; intros; simplify_eq; [done|].
      destruct (stack_index k l); simplify_eq/=. specialize (IH _ eq_refl). lia.
    + rewrite firstn_cons, elem_of_cons, (IH n Hnd). case_decide; [naive_solver lia|].
      destruct (stack_index k stack); simpl; [|naive_solver].
      split; [intros [?|(d & [= ->] & ?)]; [done|]; eexists; split; [done|lia]|].
      intros (d & [= <-] & ?). right. eexists. split; [done|lia].
Qed.

Lemma recency_elem trace k : k ∈ recency trace <-> k ∈ trace.
Proof.
  induction trace as [|x trace IH] using rev_ind; [done|].
  rewrite recency_snoc, elem_of_cons, list_elem_of_filter, elem_of_app, list_elem_of_singleton, IH.
  destruct (decide (k = x)); naive_solver.
Qed.

Lemma push_keys S k position : (push S k position).*1 = k :: filter (fun x => x <> k) S.*1.
Proof.
  unfold push. csimpl. f_equal. induction S as [|e S IH]; [done|]. csimpl. rewrite !filter_cons.
  case_decide; csimpl; [by rewrite IH|done].
Qed.

Lemma reuse_init_inv n : reuse_inv n 0 [] (reuse_init n).
Proof.
  constructor; simpl; [done|constructor|constructor| | | |done].
  - intros k q. rewrite lookup_empty. split; [done|]. by intros ?%not_elem_of_nil.
  - apply fenwick_init_represents.
  - unfold fenwick_init. by rewrite length_replicate.
Qed.

(** How many of the accesses [i] in [idx] fall in the bucket. *)
Definition bucket_count (trace : list ExpertKey) (idx : list nat) (bucket : string) : Z :=
  Z.of_nat (length (filter (fun i => reuse_bucket (reuse_distance trace i) = bucket) idx)).

Lemma bucket_count_cons trace i idx bucket :
  bucket_count trace (i :: idx) bucket =
    (if decide (reuse_bucket (reuse_distance trace i) = bucket) then 1 else 0) + bucket_count trace idx bucket.
Proof. unfold bucket_count. rewrite filter_cons. case_decide; simpl; lia. Qed.

Lemma reuse_loop_spec n todo pre S st h :
  reuse_inv n (Z.of_nat (length pre)) S st -> S.*1 = recency pre -> (length pre + length todo <= n)%nat ->
  NoDup (dkeys h) ->
  exists h', reuse_loop todo (Z.of_nat (length pre)) st h = Ok h' /\ NoDup (dkeys h')
    /\ forall b, dget_or h' b 0 =
         dget_or h b 0 + bucket_count (pre ++ todo) (seq (length pre) (length todo)) b.
Proof.
  revert pre S st h. induction todo as [|k todo IH]; intros pre S st h Hi HS Hn Hnd; cbn [reuse_loop].
  - exists h. split_and!; [done..|]. intros b. unfold bucket_count. simpl. lia.
  - simpl in Hn. destruct (reuse_step_spec n _ S st k Hi) as (st' & -> & Hi'); [lia|]. cbn [rbind].
    replace (Z.of_nat (length pre) + 1) with (Z.of_nat (length (pre ++ [k]))) in *
      by (rewrite length_app; simpl; lia).
    destruct (IH (pre ++ [k]) _ st' (bump h (reuse_bucket (stack_index k S.*1))) Hi')
      as (h' & Hloop & Hnd' & Hcount).
    + by rewrite push_keys, recency_snoc, HS.
    + rewrite length_app. simpl. lia.
    + by apply NoDup_dkeys_dset.
    + exists h'. split_and!; [done..|]. intros b. rewrite Hcount. unfold bump. rewrite dget_or_dset.
      rewrite <- app_assoc, length_app. cbn [length app seq Nat.add]. rewrite bucket_count_cons.
      rewrite Nat.add_1_r.
      assert (E : reuse_distance (pre ++ k :: todo) (length pre) = stack_index k S.*1).
      { unfold reuse_distance. rewrite list_lookup_middle by done. csimpl.
        by rewrite take_app_length, HS. }
      rewrite E. case_decide; subst; lia.
Qed.

Lemma reuse_histogram_spec accesses :
  let trace := key <$> accesses in
  exists h, reuse_histogram accesses = Ok h /\ NoDup (dkeys h) /\
    forall b, dget_or h b 0 = bucket_count trace (seq 0 (length trace)) b.
Proof.
  intros trace. destruct (reuse_loop_spec (length accesses) trace [] [] (reuse_init (length accesses)) [])
    as (h & Hloop & Hnd & Hcount); [apply reuse_init_inv|done|by unfold trace; rewrite length_fmap|constructor|].
  exists (isort (fun a b => sle a.1 b.1) h). split.
  { unfold reuse_histogram. fold trace. change (Z.of_nat (length (@nil ExpertKey))) with 0 in Hloop.
    by rewrite Hloop. }
  assert (Hp : isort (fun a b => sle a.1 b.1) h ≡ₚ h) by apply isort_perm.
  assert (Hnd' : NoDup (dkeys (isort (fun a b => sle a.1 b.1) h))) by (unfold dkeys; by rewrite Hp).
  split; [done|]. intros b. specialize (Hcount b). unfold dget_or in *. rewrite (dget_perm _ _ b Hnd' Hp).
  rewrite Hcount. simpl. lia.
Qed.

(** C30: the reuse histogram of a trace is right.  The Fenwick-tree loop never
    raises nor runs out of its bounds, and the count of every bucket is the
    number of accesses whose reuse distance falls in it, where the distance of
    an access is absent for a first access and otherwise the number of distinct
    keys accessed since the last access to the same key. *)
Theorem reuse_histogram_correct accesses :
  let trace := key <$> accesses in
  (exists h, reuse_histogram accesses = Ok h /\ NoDup (dkeys h) /\
     forall b, dget_or h b 0 = bucket_count trace (seq 0 (length trace)) b) /\
  (forall i k, trace !! i = Some k -> k ∉ take i trace -> reuse_distance trace i = None) /\
  (forall i k A B, trace !! i = Some k -> take i trace = A ++ k :: B -> k ∉ B ->
     reuse_distance trace i = Some (Z.of_nat (size (list_to_set B : gset ExpertKey)))).
Proof.
  intros trace. split_and!.
  - apply reuse_histogram_spec.
  - intros i k Hi Hk. unfold reuse_distance. rewrite Hi. csimpl. apply stack_index_None.
    by rewrite recency_elem.
  - intros i k A B Hi Ht HB. unfold reuse_distance. rewrite Hi. csimpl. rewrite Ht.
    by apply stack_index_distinct.
Qed.

(** C31: an LRU cache hits exactly the accesses whose reuse distance is below
    its capacity, so the histogram of distances predicts every LRU hit rate. *)
Theorem lru_hit_iff_reuse_distance capacity trace c :
  lru_init capacity = Ok c ->
  exists rs c', drive trace 0 c = (Ok rs, c') /\
    Forall2 (fun i r => hit r = true <-> exists d, reuse_distance trace i = Some d /\ d < capacity)
      (seq 0 (length trace)) rs.
Proof.
  intros (_ & Ho & Hc & Hpos)%lru_init_inv.
  destruct (lru_drive (Z.to_nat capacity) trace [] 0) as (rs & Hd & Hall).
  exists rs, (lru_after (Z.to_nat capacity) trace). split.
  - destruct c as [cap order]. simpl in *. subst. rewrite <- Hd. f_equal. unfold lru_after.
    change (recency []) with (@nil ExpertKey). by rewrite take_nil.
  - eapply Forall2_impl; [exact Hall|]. intros i r Hir. simpl in *. rewrite Hir. unfold reuse_distance.
    pose proof (recency_NoDup (take i trace)) as Hnd. split.
    + intros (k & Hk & Hin). apply stack_index_lt in Hin as (d & Hdk & Hlt); [|done].
      exists d. rewrite Hk. csimpl. split; [done|lia].
    + intros (d & Hdk & Hlt). destruct (trace !! i) as [k|]; [|done]. csimpl in Hdk. exists k. split; [done|].
      apply stack_index_lt; [done|]. exists d. split; [done|lia].
Qed.

Lemma lru_hit_iff_reuse_distance_witness :
  exists c, lru_init 2 = Ok c /\ exists rs c', drive demo_trace 0 c = (Ok rs, c') /\
    Forall2 (fun i r => hit r = true <-> exists d, reuse_distance demo_trace i = Some d /\ d < 2)
      (seq 0 (length demo_trace)) rs.
Proof. eexists. split; [reflexivity|]. apply (lru_hit_iff_reuse_distance 2). reflexivity. Defined.

(** ** What the replay loop counts *)

(** Sum of a counter over all entries of a statistics dictionary. *)
Definition dtotal {K V} (f : V -> Z) (d : dict K V) : Z := zsum (f <$> dvals d).

Lemma dtotal_setdefault {K V} `{EqDecision K} (f : V -> Z) (d : dict K V) k v :
  f v = 0 -> dtotal f (setdefault d k v) = dtotal f d.
Proof.
  intros Hv. unfold setdefault. destruct (dget d k) eqn:E; [done|].
  rewrite dkeys_dset_notin by (by apply dget_None). unfold dtotal, dvals.
  rewrite !fmap_app, zsum_app. csimpl. assert (zsum [f v] = 0) by (unfold zsum; simpl; lia). lia.
Qed.

Lemma dmem_setdefault {K V} `{EqDecision K} (d : dict K V) k v : is_Some (dget (setdefault d k v) k).
Proof. unfold setdefault. destruct (dget d k) eqn:E; [by rewrite E|]. rewrite dget_dset_eq. done. Qed.

Lemma dtotal_dupd {K V} `{EqDecision K} (f : V -> Z) (d : dict K V) k g c :
  is_Some (dget d k) -> (forall v, f (g v) = f v + c) -> dtotal f (dupd d k g) = dtotal f d + c.
Proof.
  intros [v0 Hv] Hg. unfold dupd. rewrite Hv. unfold dtotal, dvals, zsum.
  induction d as [|[k' v] d IH]; csimpl in *; [done|]. destruct (decide (k = k')); csimpl.
  - simplify_eq. rewrite Hg. lia.
  - rewrite IH by done. lia.
Qed.

Lemma dupd_mem {K V} `{EqDecision K} (d : dict K V) k k' g :
  is_Some (dget d k') -> is_Some (dget (dupd d k g) k').
Proof. intros [v Hv]. rewrite dget_dupd, Hv. case_decide; simpl; eauto. Qed.

Definition occurrences (k : ExpertKey) (l : list ExpertKey) : Z := Z.of_nat (length (filter (fun x => x = k) l)).

Lemma occurrences_snoc k l x : occurrences k (l ++ [x]) = occurrences k l + if decide (x = k) then 1 else 0.
Proof. unfold occurrences. rewrite filter_app, length_app, filter_cons. case_decide; simpl; lia. Qed.

(** The counter of key [k]. *)
Definition counter {K V} `{EqDecision K} (f : V -> Z) (d : dict K V) (k : K) : Z :=
  match dget d k with Some v => f v | None => 0 end.

Lemma counter_setdefault {K V} `{EqDecision K} (f : V -> Z) (d : dict K V) k v k' :
  f v = 0 -> counter f (setdefault d k v) k' = counter f d k'.
Proof.
  intros Hv. unfold counter, setdefault. destruct (dget d k) eqn:E; [done|].
  rewrite dget_dset. case_decide; subst; [by rewrite E|done].
Qed.

Lemma counter_dupd {K V} `{EqDecision K} (f : V -> Z) (d : dict K V) k g c k' :
  is_Some (dget d k) -> (forall v, f (g v) = f v + c) ->
  counter f (dupd d k g) k' = counter f d k' + if decide (k = k') then c else 0.
Proof.
  intros [v Hv] Hg. unfold counter. rewrite dget_dupd. case_decide; subst; [by rewrite Hv; simpl|].
  destruct (dget d k'); lia.
Qed.

(** The per-object and per-phase dictionaries after one access. *)
Definition objects_after (d : dict ExpertKey object_stats) (k : ExpertKey) (r : AccessResult) :
    dict ExpertKey object_stats :=
  let d1 := dupd (setdefault d k object_zero) k count_access in
  let d2 := if hit r then d1 else dupd d1 k count_miss in
  match evicted r with
  | Some victim => dupd (setdefault d2 victim object_zero) victim count_eviction
  | None => d2
  end.

Definition phases_after (d : dict string phase_row) (ph : string) (r : AccessResult) : dict string phase_row :=
  dupd (dupd (setdefault d ph phase_zero) ph phase_access) ph (if hit r then phase_hit else phase_miss).

Definition b2z (b : bool) : Z := if b then 1 else 0.
Definition evicted_b (r : AccessResult) : bool := match evicted r with Some _ => true | None => false end.

(** A counter that [count_access], [count_miss] and [count_eviction] raise by
    [ca], [cm] and [ce]. *)
Lemma objects_after_total f ca cm ce d k r :
  f object_zero = 0 -> (forall o, f (count_access o) = f o + ca) -> (forall o, f (count_miss o) = f o + cm) ->
  (forall o, f (count_eviction o) = f o + ce) ->
  dtotal f (objects_after d k r) = dtotal f d + ca + cm * b2z (negb (hit r)) + ce * b2z (evicted_b r).
Proof.
  intros H0 Ha Hm He. pose proof (dmem_setdefault d k object_zero) as Hk. unfold objects_after, evicted_b.
  set (d1 := dupd (setdefault d k object_zero) k count_access).
  assert (H1 : dtotal f d1 = dtotal f d + ca).
  { unfold d1. rewrite (dtotal_dupd _ _ _ _ ca), dtotal_setdefault by done. done. }
  set (d2 := if hit r then d1 else dupd d1 k count_miss).
  assert (H2 : dtotal f d2 = dtotal f d + ca + cm * b2z (negb (hit r))).
  { unfold d2. destruct (hit r); simpl; [lia|]. rewrite (dtotal_dupd _ _ _ _ cm); [lia|by apply dupd_mem|done]. }
  destruct (evicted r) as [v|]; simpl; [|lia].
  rewrite (dtotal_dupd _ _ _ _ ce), dtotal_setdefault; [lia|done|apply dmem_setdefault|done].
Qed.

Lemma objects_after_counter f ca cm d k r k' :
  f object_zero = 0 -> (forall o, f (count_access o) = f o + ca) -> (forall o, f (count_miss o) = f o + cm) ->
  (forall o, f (count_eviction o) = f o + 0) ->
  counter f (objects_after d k r) k' =
    counter f d k' + if decide (k = k') then ca + cm * b2z (negb (hit r)) else 0.
Proof.
  intros H0 Ha Hm He. pose proof (dmem_setdefault d k object_zero) as Hk. unfold objects_after.
  set (d1 := dupd (setdefault d k object_zero) k count_access).
  assert (H1 : counter f d1 k' = counter f d k' + if decide (k = k') then ca else 0).
  { unfold d1. rewrite (counter_dupd _ _ _ _ ca), counter_setdefault by done. done. }
  set (d2 := if hit r then d1 else dupd d1 k count_miss).
  assert (H2 : counter f d2 k' = counter f d k' + if decide (k = k') then ca + cm * b2z (negb (hit r)) else 0).
  { unfold d2. destruct (hit r); simpl; [rewrite H1; case_decide; lia|].
    rewrite (counter_dupd _ _ _ _ cm), H1; [case_decide; lia|by apply dupd_mem|done]. }
  destruct (evicted r) as [v|]; simpl; [|done].
  rewrite (counter_dupd _ _ _ _ 0), counter_setdefault, H2; [repeat case_decide; lia|done|apply dmem_setdefault|done].
Qed.

Lemma phases_after_total f ca ch cm d ph r :
  f phase_zero = 0 -> (forall o, f (phase_access o) = f o + ca) -> (forall o, f (phase_hit o) = f o + ch) ->
  (forall o, f (phase_miss o) = f o + cm) ->
  dtotal f (phases_after d ph r) = dtotal f d + ca + if hit r then ch else cm.
Proof.
  intros H0 Ha Hh Hm. pose proof (dmem_setdefault d ph phase_zero) as Hk. unfold phases_after.
  rewrite (dtotal_dupd _ _ _ _ (if hit r then ch else cm)); [|by apply dupd_mem|by destruct (hit r)].
  by rewrite (dtotal_dupd _ _ _ _ ca), dtotal_setdefault.
Qed.

(** ** Invariant of the replay loop *)

(** The cache side: either everything is preloaded, or the policy is ready for
    the rest of the trace and every miss loaded a key that is still resident
    or has been evicted. *)
Definition cache_inv (full : bool) (slots : Z) (todo : list ExpertKey) (position : Z) (st : replay_state) : Prop :=
  match rp_policy st with
  | None => full = true /\ misses st = 0 /\ evictions st = 0 /\ resident_peak_objects st <= slots
  | Some p => full = false /\ policy_ready p todo position /\ policy_capacity p = Z.to_nat slots
      /\ Z.of_nat (size (policy_resident p)) <= resident_peak_objects st <= slots
      /\ evictions st + Z.of_nat (size (policy_resident p)) = (if slots =? 0 then 0 else misses st)
  end.

Record replay_inv (full : bool) (slots : Z) (done todo : list TraceAccess) (st : replay_state) : Prop := {
  rv_cache : cache_inv full slots (key <$> todo) (Z.of_nat (length done)) st;
  rv_requests : hits st + misses st = Z.of_nat (length done);
  rv_nonneg : 0 <= hits st /\ 0 <= misses st /\ 0 <= evictions st;
  rv_keys : Z.of_nat (length (miss_keys st)) = misses st;
  rv_objects : dtotal access_count (per_object st) = Z.of_nat (length done)
    /\ dtotal miss_count (per_object st) = misses st /\ dtotal eviction_count (per_object st) = evictions st;
  rv_object : forall k, counter access_count (per_object st) k = occurrences k (key <$> done)
    /\ counter miss_count (per_object st) k = occurrences k (miss_keys st);
  rv_phases : dtotal ph_access_count (phase_stats st) = Z.of_nat (length done)
    /\ dtotal ph_hit_count (phase_stats st) = hits st /\ dtotal ph_miss_count (phase_stats st) = misses st;
}.

Lemma size_step cap s k r s' : cache_step cap s k r s' -> (size s <= cap)%nat ->
  (Z.of_nat (size s') + b2z (evicted_b r) =
     Z.of_nat (size s) + if bool_decide (cap = 0%nat) then 0 else b2z (negb (hit r))).
Proof.
  intros Hs Hb. unfold cache_step, evicted_b in *. case_bool_decide as Hk.
  - destruct Hs as [-> ->]. simpl. case_bool_decide; lia.
  - case_bool_decide as H0; [destruct Hs as [-> ->]; simpl; lia|].
    destruct Hs as [Hr Hs]. destruct (evicted r) as [v|]; rewrite Hr; cbn [b2z negb hit Miss].
    + destruct Hs as (Hfull & Hv & ->). rewrite size_union, size_singleton by set_solver.
      rewrite size_difference, size_singleton by set_solver. lia.
    + destruct Hs as (Hlt & ->). rewrite size_union, size_singleton by set_solver. lia.
Qed.

(** One access keeps the cache side of the invariant, whatever it answers. *)
Lemma replay_outcome_spec full slots k todo position st :
  0 <= slots -> cache_inv full slots (k :: todo) position st ->
  exists r policy', replay_outcome full (rp_policy st) k position = Ok (r, policy')
    /\ (hit r = true -> evicted r = None)
    /\ forall st', rp_policy st' = policy' ->
         misses st' = misses st + b2z (negb (hit r)) -> evictions st' = evictions st + b2z (evicted_b r) ->
         resident_peak_objects st' =
           match policy' with
           | Some p => Z.max (resident_peak_objects st) (Z.of_nat (size (policy_resident p)))
           | None => resident_peak_objects st
           end ->
         cache_inv full slots todo (position + 1) st'.
Proof.
  intros Hslots Hc. unfold cache_inv in Hc. unfold replay_outcome.
  destruct (rp_policy st) as [p|].
  - destruct Hc as (-> & Hr & Hcap & Hpeak & Hcount).
    destruct (policy_law p k todo position Hr) as (r & p' & -> & Hstep & Hcap' & Hr').
    exists r, (Some p'). split; [done|]. split.
    { unfold cache_step in Hstep. case_bool_decide; [by destruct Hstep as [-> _]|].
      case_bool_decide; [by destruct Hstep as [-> _]|]. by destruct Hstep as [-> _]. }
    intros st' Hp' Hm He Hpk. unfold cache_inv. rewrite Hp'. rewrite Hcap in Hstep.
    pose proof (policy_bound _ _ _ Hr) as Hb. pose proof (policy_bound _ _ _ Hr') as Hb'.
    pose proof (size_step _ _ _ _ _ Hstep ltac:(lia)) as Hsz.
    split_and!; try done; [congruence|lia|lia|].
    destruct (Z.eqb_spec slots 0) as [->|Hne]; [rewrite bool_decide_eq_true_2 in Hsz by done; lia|].
    rewrite bool_decide_eq_false_2 in Hsz by lia. lia.
  - destruct Hc as (-> & Hm0 & He0 & Hpk0). exists Hit, None. split_and!; [done..|].
    intros st' Hp' Hm He Hpk. unfold cache_inv. rewrite Hp'. simpl in *. lia.
Qed.

Lemma replay_step_eq full st position a r policy' :
  replay_outcome full (rp_policy st) (key a) position = Ok (r, policy') ->
  exists st', replay_step full st position a = Ok st' /\ rp_policy st' = policy'
    /\ hits st' = hits st + b2z (hit r) /\ misses st' = misses st + b2z (negb (hit r))
    /\ evictions st' = evictions st + b2z (evicted_b r)
    /\ miss_keys st' = miss_keys st ++ (if hit r then [] else [key a])
    /\ resident_peak_objects st' =
         match policy' with
         | Some p => Z.max (resident_peak_objects st) (Z.of_nat (size (policy_resident p)))
         | None => resident_peak_objects st
         end
    /\ per_object st' = objects_after (per_object st) (key a) r
    /\ phase_stats st' = phases_after (phase_stats st) (phase a) r.
Proof.
  intros H. unfold replay_step. rewrite H. eexists. split; [reflexivity|].
  unfold evicted_b, objects_after, phases_after. simpl.
  destruct (hit r), (evicted r); simpl; rewrite ?app_nil_r; split_and!; try done; lia.
Qed.

Lemma replay_step_inv full slots done a todo st :
  0 <= slots -> replay_inv full slots done (a :: todo) st ->
  exists st', replay_step full st (Z.of_nat (length done)) a = Ok st'
    /\ replay_inv full slots (done ++ [a]) todo st'.
Proof.
  intros Hs [Hc Hreq (Hh0 & Hm0 & He0) Hkeys (Ho1 & Ho2 & Ho3) Hobj (Hp1 & Hp2 & Hp3)].
  csimpl in Hc. destruct (replay_outcome_spec _ _ _ _ _ _ Hs Hc) as (r & p' & Hout & Hhe & Hcache).
  destruct (replay_step_eq _ _ _ _ _ _ Hout)
    as (st' & Hstep & Hpol & Hhits & Hmiss & Hev & Hmk & Hpk & Hper & Hph).
  assert (Hnn : 0 <= b2z (hit r) /\ 0 <= b2z (negb (hit r)) /\ 0 <= b2z (evicted_b r)
                /\ b2z (hit r) + b2z (negb (hit r)) = 1)
    by (destruct (hit r), (evicted_b r); simpl; lia).
  exists st'. split; [done|].
  assert (Hlen : Z.of_nat (length (done ++ [a])) = Z.of_nat (length done) + 1) by (rewrite length_app; simpl; lia).
  constructor; rewrite ?Hlen, ?Hper, ?Hph.
  - by apply Hcache.
  - lia.
  - lia.
  - rewrite Hmk, length_app. destruct (hit r); simpl in *; lia.
  - rewrite (objects_after_total access_count 1 0 0), (objects_after_total miss_count 0 1 0),
      (objects_after_total eviction_count 0 0 1) by (done || (intros; simpl; lia)). lia.
  - intros k. destruct (Hobj k) as [H1 H2].
    rewrite (objects_after_counter access_count 1 0), (objects_after_counter miss_count 0 1)
      by (done || (intros; simpl; lia)).
    rewrite H1, H2, Hmk, fmap_app. csimpl. rewrite occurrences_snoc. split; [repeat case_decide; lia|].
    destruct (hit r); simpl; [rewrite app_nil_r|rewrite occurrences_snoc]; repeat case_decide; lia.
  - rewrite (phases_after_total ph_access_count 1 0 0), (phases_after_total ph_hit_count 0 1 0),
      (phases_after_total ph_miss_count 0 0 1) by (done || (intros; simpl; lia)).
    destruct (hit r); simpl in *; lia.
Qed.

Lemma replay_loop_inv full slots todo done st :
  0 <= slots -> replay_inv full slots done todo st ->
  exists st', replay_loop full todo (Z.of_nat (length done)) st = Ok st'
    /\ replay_inv full slots (done ++ todo) [] st'.
Proof.
  intros Hs. revert done st. induction todo as [|a todo IH]; intros done st Hi; cbn [replay_loop].
  - exists st. rewrite app_nil_r. done.
  - destruct (replay_step_inv _ _ _ _ _ _ Hs Hi) as (st1 & -> & Hi1). cbn [rbind].
    destruct (IH _ _ Hi1) as (st' & Hl & Hi').
    exists st'. rewrite <- app_assoc in Hi'. split; [|done].
    rewrite <- Hl. f_equal. rewrite length_app. simpl. lia.
Qed.

Lemma make_policy_known name slots trace :
  0 <= slots -> lower name ∈ POLICIES -> exists p, make_policy name slots trace = Ok p.
Proof.
  intros Hs Hn. unfold make_policy, clock_init, lru_init, belady_init, ensure.
  rewrite (proj2 (Z.leb_le 0 slots) Hs). simpl.
  unfold POLICIES in Hn. rewrite !elem_of_cons, elem_of_nil in Hn.
  destruct Hn as [->|[->|[->|[]]]]; simpl; eauto.
Qed.

Lemma replay_spec accesses inventory slots name :
  0 <= slots -> lower name ∈ POLICIES ->
  exists full st, replay accesses inventory slots name = Ok (full, st)
    /\ replay_inv full slots accesses [] st.
Proof.
  intros Hs Hn. unfold replay.
  set (full := num_layers inventory * num_experts inventory <=? slots).
  assert (Hstart : exists pol,
    (if full then Ok None else let? p := make_policy name slots (key <$> accesses) in Ok (Some p)) = Ok pol
    /\ cache_inv full slots (key <$> accesses) 0 (replay_start inventory full pol)).
  { unfold full. destruct (Z.leb_spec (num_layers inventory * num_experts inventory) slots).
    - exists None. split; [done|]. unfold cache_inv. simpl. lia.
    - destruct (make_policy_known name slots (key <$> accesses) Hs Hn) as [p Hp]. exists (Some p). rewrite Hp.
      split; [done|]. destruct (make_policy_ready _ _ _ _ Hp) as (Hr & H0 & Hc & _). unfold cache_inv.
      cbn [replay_start rp_policy resident_peak_objects evictions misses]. rewrite H0, size_empty.
      split_and!; try done. by destruct (slots =? 0). }
  destruct Hstart as (pol & -> & Hc). cbn [rbind].
  destruct (replay_loop_inv full slots accesses [] (replay_start inventory full pol) Hs) as (st & Hl & Hi).
  { by constructor. }
  change (Z.of_nat (length (@nil TraceAccess))) with 0 in Hl. rewrite Hl. by exists full, st.
Qed.

(** ** Geometry *)

Lemma capacity_geometry_fields inventory hbm hbf page_bytes g :
  capacity_geometry inventory (hbm, hbf) page_bytes = Ok g -> 0 < page_bytes ->
  let pages := ceil_div (expert_bytes inventory) page_bytes in
  let total := num_layers inventory * num_experts inventory in
  geo_page_bytes g = page_bytes /\ expert_slot_bytes g = pages * page_bytes
  /\ complete_expert_slots g =
       (if hbf =? 0 then total else Z.min total (requested_hbm_bytes g / expert_slot_bytes g))
  /\ actual_hbm_bytes g = complete_expert_slots g * expert_slot_bytes g
  /\ resident_expert_weight_bytes g = complete_expert_slots g * expert_bytes inventory
  /\ actual_hbf_bytes g = Z.max 0 (expert_weight_bytes inventory - resident_expert_weight_bytes g)
  /\ page_alignment_padding_bytes g = actual_hbm_bytes g - resident_expert_weight_bytes g
  /\ cache_frame_count g = complete_expert_slots g * pages.
Proof.
  intros H Hp. unfold capacity_geometry in H. inv_ok.
  rewrite ceil_div_checked_Ok in * by lia. inv_ok.
  assert (Hfr : forall s, s * (ceil_div (expert_bytes inventory) page_bytes * page_bytes) / page_bytes
                = s * ceil_div (expert_bytes inventory) page_bytes).
  { intros s. rewrite Z.mul_assoc. apply Z.div_mul. lia. }
  rewrite int_floordiv_Ok in * by lia. inv_ok. simpl.
  split_and!; try done.
  destruct (hbf =? 0); inv_ok; [done|]. unfold int_floordiv in *. destruct (_ =? 0) in *; [done|]. by inv_ok.
Qed.

(** The geometry of a ratio.  For an inventory the constructor accepted,
    with non-negative expert sizes and a positive page size: a slot is the
    smallest whole number of pages that holds an expert; the slots never exceed
    the number of experts, and with an HBF tier present they fit the requested
    HBM bytes; the HBM budget counts whole frames; resident and HBF bytes
    partition the expert weights; and with the inventory's own page size there
    is no padding. *)
Theorem capacity_geometry_sound d inventory hbm hbf page_bytes g :
  init d = Ok inventory -> 0 <= expert_bytes inventory -> 0 < page_bytes ->
  capacity_geometry inventory (hbm, hbf) page_bytes = Ok g ->
  expert_bytes inventory <= expert_slot_bytes g < expert_bytes inventory + page_bytes
  /\ complete_expert_slots g <= num_layers inventory * num_experts inventory
  /\ (hbf <> 0 -> actual_hbm_bytes g <= requested_hbm_bytes g)
  /\ actual_hbm_bytes g = cache_frame_count g * page_bytes
  /\ resident_expert_weight_bytes g + actual_hbf_bytes g = expert_weight_bytes inventory
  /\ (0 <= complete_expert_slots g -> 0 <= page_alignment_padding_bytes g)
  /\ (page_bytes = ModelInventory.PAGE_BYTES -> page_alignment_padding_bytes g = 0).
Proof.
  intros Hinv%init_ok Hb Hp Hg. destruct (capacity_geometry_fields _ _ _ _ _ Hg Hp)
    as (Hpage & Hslot & Hslots & Hhbm & Hres & Hhbf & Hpad & Hframes).
  pose proof (ceil_div_spec (expert_bytes inventory) page_bytes Hp) as Hceil.
  pose proof (io_total _ Hinv) as Htot. pose proof (io_positive _ Hinv) as Hpos.
  assert (Hle : complete_expert_slots g <= num_layers inventory * num_experts inventory)
    by (rewrite Hslots; destruct (hbf =? 0); lia).
  assert (Hneg : hbf <> 0 -> expert_slot_bytes g <> 0).
  { intros Hne E. unfold capacity_geometry in Hg. inv_ok. rewrite ceil_div_checked_Ok in * by lia. inv_ok.
    rewrite Hslot in E. rewrite (proj2 (Z.eqb_neq hbf 0) Hne) in *. inv_ok.
    unfold int_floordiv in *. rewrite E in *. done. }
  split_and!; try lia.
  - intros Hne. rewrite Hhbm, Hslots, (proj2 (Z.eqb_neq hbf 0) Hne).
    assert (0 < expert_slot_bytes g) by (specialize (Hneg Hne); nia).
    pose proof (Z.mul_div_le (requested_hbm_bytes g) (expert_slot_bytes g)). nia.
  - rewrite Hres in *. nia.
  - intros Hs. rewrite Hpad, Hhbm, Hres. nia.
  - intros ->. rewrite Hpad, Hhbm, Hres, Hslot.
    destruct (io_aligned _ Hinv) as [m Hm]. rewrite Hm. unfold ceil_div.
    replace (m * PAGE_BYTES + PAGE_BYTES - 1) with (PAGE_BYTES - 1 + m * PAGE_BYTES) by lia.
    rewrite Z.div_add by done. change ((PAGE_BYTES - 1) / PAGE_BYTES) with 0. lia.
Qed.

Lemma int_truediv_cases a b : b <> 0 ->
  (exists f, int_truediv a b = Ok f) \/ exists m, int_truediv a b = Raise (OverflowError m).
Proof.
  intros Hb. unfold int_truediv. rewrite (proj2 (Z.eqb_neq b 0) Hb). repeat case_match; eauto.
Qed.

Lemma safe_ratio_cases a b :
  (exists f, safe_ratio a b = Ok f) \/ exists m, safe_ratio a b = Raise (OverflowError m).
Proof.
  unfold safe_ratio. destruct (Z.eqb_spec b 0); [by left; eexists|].
  destruct (int_truediv_cases a b) as [[f ->]|[m ->]]; simpl; eauto.
Qed.

(** The conservation checks of [replay_cell] hold whenever the loop's
    invariant does. *)
Lemma conservation_holds full slots accesses st inventory g pages :
  replay_inv full slots accesses [] st -> 0 <= expert_bytes inventory ->
  expert_slot_bytes g = pages * geo_page_bytes g ->
  conservation_all (check_conservation st (Z.of_nat (length accesses)) inventory g
    (hits st * expert_bytes inventory) (misses st * expert_bytes inventory)
    (misses st * expert_slot_bytes g) (Z.of_nat (length accesses) * expert_bytes inventory) pages) = true.
Proof.
  intros Hi Hb Hs. pose proof (rv_requests _ _ _ _ _ Hi) as Hreq. pose proof (rv_keys _ _ _ _ _ Hi) as Hk.
  destruct (rv_nonneg _ _ _ _ _ Hi) as (Hh & Hm & He).
  unfold conservation_all, check_conservation. simpl. rewrite <- Hreq, Hk, Hs.
  rewrite !andb_true_iff, !Z.eqb_eq, !Z.leb_le. repeat split; nia.
Qed.

(** Totals of the per-object rows of a cell. *)
Definition rows_total (f : object_stats -> Z) (rows : list (Z * Z * Z * object_stats)) : Z :=
  zsum ((fun row => f row.2) <$> rows).

Lemma rows_total_objects f b d : rows_total f (object_rows b d) = dtotal f d.
Proof.
  unfold rows_total, object_rows, dtotal, dvals. rewrite <- !list_fmap_compose.
  rewrite (zsum_perm _ ((f ∘ snd) <$> d)); [done|]. by rewrite isort_perm.
Qed.

(** The objects resident after the loop. *)
Definition resident_now (full : bool) (inventory : ModelInventory) (st : replay_state) : Z :=
  if full then num_layers inventory * num_experts inventory
  else match rp_policy st with Some p => Z.of_nat (size (policy_resident p)) | None => 0 end.

Lemma cache_facts accesses inventory slots name full st accs todo :
  replay accesses inventory slots name = Ok (full, st) -> replay_inv full slots accs todo st ->
  resident_now full inventory st <= slots /\ resident_peak_objects st <= slots
  /\ (slots < num_layers inventory * num_experts inventory ->
      evictions st + resident_now full inventory st = if slots =? 0 then 0 else misses st).
Proof.
  intros Hrep Hi. assert (Hfull : full = (num_layers inventory * num_experts inventory <=? slots)).
  { unfold replay in Hrep. by inv_ok. }
  pose proof (rv_cache _ _ _ _ _ Hi) as Hc. unfold cache_inv in Hc. unfold resident_now.
  destruct (rp_policy st) as [p|].
  - destruct Hc as (-> & _ & _ & Hpk & Hcount). lia.
  - destruct Hc as (-> & Hm & He & Hpk). symmetry in Hfull. apply Z.leb_le in Hfull. lia.
Qed.

(** The outcome of an analytic cell in terms of the state its loop ends in. *)
Lemma replay_cell_cases sha engine accesses inventory pf g name ident external files full st :
  replay accesses inventory (complete_expert_slots g) name = Ok (full, st) ->
  replay_inv full (complete_expert_slots g) accesses [] st ->
  0 <= expert_bytes inventory -> geo_page_bytes g <> 0 -> aggregate_bandwidth_bytes_per_s pf <> 0 ->
  let pages := ceil_div (expert_bytes inventory) (geo_page_bytes g) in
  expert_slot_bytes g = pages * geo_page_bytes g ->
  let out := replay_cell sha engine accesses inventory pf g name ident "analytic" external files in
  (exists msg, out = (Raise (OverflowError msg), files)) \/
  exists c, out = (Ok c, files) /\ conservation_all (cell_conservation c) = true
    /\ requests_total c = Z.of_nat (length accesses) /\ cell_hits c = hits st /\ cell_misses c = misses st
    /\ clean_evictions c = evictions st /\ objects c = object_rows (expert_bytes inventory) (per_object st)
    /\ phases c = phase_stats st /\ hbf_actually_accessed_bytes c = misses st * expert_slot_bytes g
    /\ total_media_reads c = misses st * pages
    /\ resident_bytes_peak c = resident_peak_objects st * expert_slot_bytes g
    /\ resident_bytes_current c = resident_now full inventory st * expert_slot_bytes g.
Proof.
  intros Hrep Hi Hb Hpg Hbw pages Hslot out.
  pose proof (conservation_holds _ _ _ _ inventory g _ Hi Hb Hslot) as Hcons.
  destruct (reuse_histogram_spec accesses) as (h & Hh & _).
  unfold out, replay_cell. rewrite (sbind_step _ _ _ _ _ (lift_Ok _ _ _ Hrep)). cbn beta iota zeta.
  rewrite (sbind_step _ _ _ _ _ (lift_Ok _ _ _ (ceil_div_checked_Ok _ _ Hpg))).
  rewrite (sbind_step _ _ _ _ _ (lift_Ok _ _ _ (ceil_div_checked_Ok _ _ Hbw))).
  erewrite sbind_step by reflexivity. fold pages.
  rewrite (sbind_step _ _ _ _ _ (require_Ok _ _ _ Hcons)).
  destruct (safe_ratio_cases (hits st * expert_bytes inventory)
             (Z.of_nat (length accesses) * expert_bytes inventory)) as [[r1 H1]|[m H1]];
    rewrite H1; [|left; by exists m].
  destruct (safe_ratio_cases (hits st) (hits st + misses st)) as [[r2 H2]|[m H2]];
    rewrite H2; [|left; by exists m].
  destruct (safe_ratio_cases (misses st * expert_slot_bytes g) (Z.of_nat (length accesses))) as [[r3 H3]|[m H3]];
    rewrite H3, Hh; [|left; by exists m].
  right. eexists. split; [reflexivity|]. by split_and!.
Qed.

(** An analytic replay of a cell either stops because a ratio of its
    report overflows a float, or returns a cell whose numbers are consistent.
    It never fails its conservation checks, and no policy error escapes: hits
    and misses add up to the accesses, globally, per object and per phase;
    the media reads cover exactly the pages of the missed experts; resident
    bytes never exceed the HBM budget, the peak included; with at least one slot
    every miss loaded an expert that is still resident or was evicted; and the
    event directory is untouched. *)
Theorem replay_cell_sound sha engine d inventory ratio page_bytes g accesses pf name ident external files :
  init d = Ok inventory -> 0 <= expert_bytes inventory -> 0 < page_bytes ->
  capacity_geometry inventory ratio page_bytes = Ok g -> 0 <= complete_expert_slots g ->
  lower name ∈ POLICIES -> aggregate_bandwidth_bytes_per_s pf <> 0 ->
  let out := replay_cell sha engine accesses inventory pf g name ident "analytic" external files in
  (exists msg, out = (Raise (OverflowError msg), files)) \/
  exists c, out = (Ok c, files)
    /\ conservation_all (cell_conservation c) = true
    /\ requests_total c = Z.of_nat (length accesses)
    /\ cell_hits c + cell_misses c = requests_total c
    /\ rows_total access_count (objects c) = requests_total c
    /\ rows_total miss_count (objects c) = cell_misses c
    /\ rows_total eviction_count (objects c) = clean_evictions c
    /\ dtotal ph_hit_count (phases c) = cell_hits c /\ dtotal ph_miss_count (phases c) = cell_misses c
    /\ hbf_actually_accessed_bytes c = total_media_reads c * page_bytes
    /\ resident_bytes_current c <= actual_hbm_bytes g /\ resident_bytes_peak c <= actual_hbm_bytes g
    /\ (complete_expert_slots g < num_layers inventory * num_experts inventory ->
        clean_evictions c * expert_slot_bytes g + resident_bytes_current c =
          if complete_expert_slots g =? 0 then 0 else cell_misses c * expert_slot_bytes g).
Proof.
  intros Hinv Hb Hp Hg Hs Hn Hbw out. destruct ratio as [hbm hbf].
  destruct (capacity_geometry_fields _ _ _ _ _ Hg Hp) as (Hpage & Hslot & Hslots & Hhbm & _ & _ & _ & _).
  destruct (replay_spec accesses inventory _ _ Hs Hn) as (full & st & Hrep & Hi).
  pose proof (ceil_div_spec (expert_bytes inventory) page_bytes Hp) as Hceil.
  assert (Hsb : 0 <= expert_slot_bytes g) by (rewrite Hslot; nia).
  destruct (replay_cell_cases sha engine accesses inventory pf g name ident external files full st
              Hrep Hi Hb ltac:(lia) Hbw ltac:(by rewrite Hpage)) as [?|(c & Hc & Hcons & Hreq & Hh & Hm & He & Hobj & Hph & Hacc & Hmed & Hpeak & Hcur)];
    [by left|].
  destruct (cache_facts _ _ _ _ _ _ _ _ Hrep Hi) as (Hres & Hpk & Hload).
  right. exists c. destruct Hi as [_ Hrq _ _ (Ho1 & Ho2 & Ho3) _ (_ & Hp2 & Hp3)].
  rewrite Hreq, Hh, Hm, He, Hobj, Hph, Hacc, Hmed, Hpeak, Hcur, !rows_total_objects, Hhbm.
  split_and!; try done.
  - rewrite Hslot, Hpage. lia.
  - by apply Z.mul_le_mono_nonneg_r.
  - by apply Z.mul_le_mono_nonneg_r.
  - intros Hlt. rewrite <- Z.mul_add_distr_r, (Hload Hlt). by destruct (complete_expert_slots g =? 0).
Qed.

(** ** A concrete model *)

Definition demo_accesses : list TraceAccess :=
  (fun k => {| key := k; phase := "decode"; request_id := "r"; prompt_id := 0; token_step := 0;
               ta_layer_id := k.1 |}) <$> demo_trace.

Definition demo_profile : profile :=
  {| pf_document := VDict []; pf_name := Some "hbf"; pf_page_bytes := 16384;
     aggregate_bandwidth_bytes_per_s := 1000000000; read_latency_ns := 3000 |}.

Definition demo_identity : identity :=
  {| git_commit := "c"; environment_fingerprint := "e"; repetition := 0; trace_fingerprint := "t" |}.

Lemma capacity_geometry_sound_witness :
  exists inventory g, init demo_document = Ok inventory /\ capacity_geometry inventory (1, 1) 16384 = Ok g
  /\ expert_bytes inventory <= expert_slot_bytes g < expert_bytes inventory + 16384
  /\ complete_expert_slots g <= num_layers inventory * num_experts inventory
  /\ (1 <> 0 -> actual_hbm_bytes g <= requested_hbm_bytes g)
  /\ actual_hbm_bytes g = cache_frame_count g * 16384
  /\ resident_expert_weight_bytes g + actual_hbf_bytes g = expert_weight_bytes inventory
  /\ (0 <= complete_expert_slots g -> 0 <= page_alignment_padding_bytes g)
  /\ (16384 = ModelInventory.PAGE_BYTES -> page_alignment_padding_bytes g = 0).
Proof.
  eexists _, _. split; [vm_compute; reflexivity|]. split; [vm_compute; reflexivity|].
  eapply (capacity_geometry_sound demo_document _ 1 1 16384); vm_compute; (reflexivity || discriminate).
Defined.

Lemma replay_cell_sound_witness :
  exists inventory g, init demo_document = Ok inventory /\ capacity_geometry inventory (1, 1) 16384 = Ok g /\
  let out := replay_cell (fun _ => "") (fun _ _ => Raise OutOfFuel) demo_accesses inventory demo_profile g "LRU"
               demo_identity "analytic" false ∅ in
  (exists msg, out = (Raise (OverflowError msg), ∅)) \/
  exists c, out = (Ok c, ∅)
    /\ conservation_all (cell_conservation c) = true
    /\ requests_total c = Z.of_nat (length demo_accesses)
    /\ cell_hits c + cell_misses c = requests_total c
    /\ rows_total access_count (objects c) = requests_total c
    /\ rows_total miss_count (objects c) = cell_misses c
    /\ rows_total eviction_count (objects c) = clean_evictions c
    /\ dtotal ph_hit_count (phases c) = cell_hits c /\ dtotal ph_miss_count (phases c) = cell_misses c
    /\ hbf_actually_accessed_bytes c = total_media_reads c * 16384
    /\ resident_bytes_current c <= actual_hbm_bytes g /\ resident_bytes_peak c <= actual_hbm_bytes g
    /\ (complete_expert_slots g < num_layers inventory * num_experts inventory ->
        clean_evictions c * expert_slot_bytes g + resident_bytes_current c =
          if complete_expert_slots g =? 0 then 0 else cell_misses c * expert_slot_bytes g).
Proof.
  eexists _, _. split; [vm_compute; reflexivity|]. split; [vm_compute; reflexivity|].
  eapply (replay_cell_sound _ _ demo_document _ (1, 1) 16384).
  - vm_compute. reflexivity.
  - vm_compute. discriminate.
  - reflexivity.
  - vm_compute. reflexivity.
  - vm_compute. discriminate.
  - apply (bool_decide_unpack _). vm_compute. exact I.
  - discriminate.
Defined.

(** The counters of a cell of the demonstration trace. *)
Definition demo_counts (name : string) : result (Z * Z * Z) :=
  let? inventory := init demo_document in
  let? g := capacity_geometry inventory (1, 1) 16384 in
  let? c := (replay_cell (fun _ => "") (fun _ _ => Raise OutOfFuel) demo_accesses inventory demo_profile g name
               demo_identity "analytic" false ∅).1 in
  Ok (cell_hits c, cell_misses c, clean_evictions c).

Example demo_lru : demo_counts "lru" = Ok (0, 7, 5).
Proof. vm_compute. reflexivity. Qed.
Example demo_belady : demo_counts "BELADY" = Ok (2, 5, 3).
Proof. vm_compute. reflexivity. Qed.
Example demo_unknown : demo_counts "fifo" = Raise (ValueError "unsupported cache policy: fifo").
Proof. vm_compute. reflexivity. Qed.

(** ** Loading a trace *)

Lemma load_event_spec inventory accesses event accesses' :
  load_event inventory accesses event = Ok accesses' ->
  exists new, accesses' = accesses ++ new /\ Z.of_nat (length new) = top_k inventory
    /\ NoDup (key <$> new) /\ Forall (fun a => is_ok (expert inventory (key a).1 (key a).2) = true) new.
Proof.
  unfold load_event. intros H. inv_ok.
  match goal with H : (_ =? top_k _) = true |- _ => apply Z.eqb_eq in H as Htop end.
  match goal with H : NoDup _ |- _ => rename H into Hnd end.
  match goal with H : foldM _ _ _ = Ok _ |- _ => revert H end. set (mk := fun e => {| key := (ev_layer_id event, e); phase := ev_phase event;
    request_id := ev_request_id event; prompt_id := ev_prompt_id event; token_step := ev_token_step event;
    ta_layer_id := ev_layer_id event |}).
  intros Hf. exists (mk <$> ev_topk_expert_ids event).
  assert (Hall : accesses' = accesses ++ (mk <$> ev_topk_expert_ids event) /\
            Forall (fun a => is_ok (expert inventory (key a).1 (key a).2) = true) (mk <$> ev_topk_expert_ids event)).
  { revert Hf. apply (foldM_Ok_ind (fun done acc => acc = accesses ++ (mk <$> done) /\
      Forall (fun a => is_ok (expert inventory (key a).1 (key a).2) = true) (mk <$> done))).
    - by rewrite app_nil_r.
    - intros done e todo b1 b2 _ [-> Hok] Hb. inv_ok. rewrite fmap_app. csimpl. rewrite <- app_assoc.
      split; [done|]. apply Forall_app. split; [done|]. apply Forall_singleton. simpl. by rewrite H. }
  destruct Hall as [-> Hall]. split_and!; [done|by rewrite length_fmap| |done].
  rewrite <- list_fmap_compose. apply NoDup_fmap_2; [|done]. intros e1 e2 [= ->]. done.
Qed.

(** A trace that loads is usable by the replay.  Every event contributes
    exactly [top_k] accesses, in order, with distinct experts, and every access
    names an expert of the inventory. *)
Theorem load_trace_sound inventory events accesses :
  load_trace inventory events = Ok accesses ->
  accesses <> [] /\ Z.of_nat (length accesses) = Z.of_nat (length events) * top_k inventory
  /\ Forall (fun a => is_ok (expert inventory (key a).1 (key a).2) = true) accesses.
Proof.
  unfold load_trace. intros H. inv_ok. split; [by case_bool_decide|].
  match goal with H : foldM _ _ _ = Ok _ |- _ => revert H end.
  apply (foldM_Ok_ind (fun done acc => Z.of_nat (length acc) = Z.of_nat (length done) * top_k inventory /\
    Forall (fun a => is_ok (expert inventory (key a).1 (key a).2) = true) acc)).
  - split; [done|constructor].
  - intros done e todo b1 b2 _ [Hl Hok] Hb. apply load_event_spec in Hb as (new & -> & Hn & _ & Hnew).
    rewrite !length_app. split; [simpl; lia|]. by apply Forall_app.
Qed.

Definition demo_event (layer e : Z) : trace_event :=
  {| ev_schema_version := 1; ev_model_fingerprint := "model"; ev_layer_id := layer; ev_topk_expert_ids := [e];
     ev_phase := "decode"; ev_request_id := "r"; ev_prompt_id := 0; ev_token_step := 0 |}.

Lemma load_trace_sound_witness :
  exists inventory accesses, init demo_document = Ok inventory /\
    load_trace inventory [demo_event 0 1; demo_event 0 4] = Ok accesses /\
  (accesses <> [] /\ Z.of_nat (length accesses) = Z.of_nat (length [demo_event 0 1; demo_event 0 4]) * top_k inventory
  /\ Forall (fun a => is_ok (expert inventory (key a).1 (key a).2) = true) accesses).
Proof.
  eexists _, _. split; [vm_compute; reflexivity|]. split; [vm_compute; reflexivity|].
  eapply (load_trace_sound _ [demo_event 0 1; demo_event 0 4]). vm_compute. reflexivity.
Defined.
End TraceReplay.
