(* ===== verification/BasicFabric.v ===== *)
(** * The HBF/HBM transfer fabric

    Model of [src/tools/eq3_basic_fabric.py]: a deterministic event engine for
    byte transfers over stack banks and links.  A configuration is validated
    from a JSON-like value.  The nested dictionaries of bank and link owners
    ([self._hbf[stack]["banks"][i]], [self._hbf[stack]["fill"]], ...) are one
    map from the path of a slot to its owner, where an absent path is [None];
    the job objects are shared by reference in the source, so lists of jobs are
    lists of request identifiers looked up in [jobs]. *)

From S2P Require Import Prelude.

Module BasicFabric.

Definition NANOSECONDS_PER_SECOND : Z := 1000000000.

(** ** Validation *)

Definition _integer (value : pyval) (label : string) (positive : bool) : result Z :=
  match value with
  | VInt z =>
      let? _ := ensure ((if positive then 1 else 0) <=? z)
                  (ValueError (label +:+ " must be " +:+ (if positive then "positive" else "non-negative"))) in
      Ok z
  | _ => Raise (ValueError (label +:+ " must be an integer"))
  end.

(** [str(sorted(keys))] of a collection of names. *)
Definition repr_sorted (keys : list string) : string :=
  "[" +:+ String.concat ", " ((fun k => "'" +:+ k +:+ "'") <$> isort sle keys) +:+ "]".

(** [_exact]: an object with exactly the given keys. *)
Definition _exact (value : pyval) (keys : list string) (label : string) : result (dict string pyval) :=
  let error := ValueError (label +:+ " must contain exactly " +:+ repr_sorted keys) in
  match value with
  | VDict d => let? _ := ensure (same_set (dkeys d) keys) error in Ok d
  | _ => Raise error
  end.

Record stage := { latency_ns : Z; bandwidth_bytes_per_s : Z }.

Definition _stage (value : pyval) (label : string) : result stage :=
  let? d := _exact value ["latency_ns"; "bandwidth_bytes_per_s"] label in
  let? raw_latency := dindex d "latency_ns" in
  let? latency := _integer raw_latency (label +:+ ".latency_ns") false in
  let? raw_bandwidth := dindex d "bandwidth_bytes_per_s" in
  let? bandwidth := _integer raw_bandwidth (label +:+ ".bandwidth_bytes_per_s") true in
  Ok {| latency_ns := latency; bandwidth_bytes_per_s := bandwidth |}.

(** [latency_ns + ceil(bytes * 1e9 / bandwidth)]. *)
Definition _duration (s : stage) (byte_count : Z) : Z :=
  latency_ns s + ceil_div (byte_count * NANOSECONDS_PER_SECOND) (bandwidth_bytes_per_s s).

Record hbm_config := { hbm_bank_count : Z; hbm_bank_capacity_bytes : Z; gpu_link : stage }.

Record hbf_config := {
  pair : option string; hbf_bank_count : Z; hbf_bank_capacity_bytes : Z;
  fill : stage; direct_link : stage; relay_link : option stage }.

Record config := { cfg_hbf : dict string hbf_config; cfg_hbm : dict string hbm_config }.

(** [sorted(d.items())] of an object: its keys are distinct. *)
Definition sorted_items {V} (d : dict string V) : dict string V := isort (fun a b => sle a.1 b.1) d.

Definition normalize_hbm (hbm : dict string hbm_config) (item : string * pyval) : result (dict string hbm_config) :=
  let '(stack, raw) := item in
  let? _ := ensure (negb (String.eqb stack "")) (ValueError "HBM stack IDs must be nonempty strings") in
  let? d := _exact raw ["bank_count"; "bank_capacity_bytes"; "gpu_link"] ("hbm." +:+ stack) in
  let? raw_count := dindex d "bank_count" in
  let? count := _integer raw_count ("hbm." +:+ stack +:+ ".bank_count") true in
  let? _ := ensure (count =? 2) (ValueError "basic HBM relay buffering requires exactly two banks") in
  let? raw_capacity := dindex d "bank_capacity_bytes" in
  let? capacity := _integer raw_capacity ("hbm." +:+ stack +:+ ".bank_capacity_bytes") true in
  let? raw_link := dindex d "gpu_link" in
  let? link := _stage raw_link ("hbm." +:+ stack +:+ ".gpu_link") in
  Ok (dset hbm stack {| hbm_bank_count := count; hbm_bank_capacity_bytes := capacity; gpu_link := link |}).

(** The pair of an HBF stack and its relay link: both or neither. *)
Definition normalize_pair (hbm : dict string hbm_config) (used : list string) (stack : string)
    (raw_pair raw_relay : pyval) : result (option string * list string * option stage) :=
  match raw_pair with
  | VNone =>
      match raw_relay with
      | VNone => Ok (None, used, None)
      | _ => Raise (ValueError ("hbf." +:+ stack +:+ ".relay_link requires an HBM pair"))
      end
  | VStr p =>
      let? _ := ensure (dmem hbm p && negb (bool_decide (p ∈ used)))
                  (ValueError ("hbf." +:+ stack +:+ ".pair must name a unique configured HBM")) in
      let? relay := _stage raw_relay ("hbf." +:+ stack +:+ ".relay_link") in
      Ok (Some p, used ++ [p], Some relay)
  | _ => Raise (ValueError ("hbf." +:+ stack +:+ ".pair must name a unique configured HBM"))
  end.

Definition normalize_hbf (hbm : dict string hbm_config) (acc : dict string hbf_config * list string)
    (item : string * pyval) : result (dict string hbf_config * list string) :=
  let '(hbf, used) := acc in
  let '(stack, raw) := item in
  let? _ := ensure (negb (String.eqb stack "")) (ValueError "HBF stack IDs must be nonempty strings") in
  let? d := _exact raw ["pair"; "bank_count"; "bank_capacity_bytes"; "fill"; "direct_link"; "relay_link"]
              ("hbf." +:+ stack) in
  let? raw_count := dindex d "bank_count" in
  let? count := _integer raw_count ("hbf." +:+ stack +:+ ".bank_count") true in
  let? _ := ensure (count =? 2) (ValueError "basic HBF buffering requires exactly two banks") in
  let? raw_pair := dindex d "pair" in
  let? raw_relay := dindex d "relay_link" in
  let? (p, used', relay) := normalize_pair hbm used stack raw_pair raw_relay in
  let? raw_capacity := dindex d "bank_capacity_bytes" in
  let? capacity := _integer raw_capacity ("hbf." +:+ stack +:+ ".bank_capacity_bytes") true in
  let? raw_fill := dindex d "fill" in
  let? fill := _stage raw_fill ("hbf." +:+ stack +:+ ".fill") in
  let? raw_direct := dindex d "direct_link" in
  let? direct := _stage raw_direct ("hbf." +:+ stack +:+ ".direct_link") in
  Ok (dset hbf stack {| pair := p; hbf_bank_count := count; hbf_bank_capacity_bytes := capacity;
                        fill := fill; direct_link := direct; relay_link := relay |}, used').

Definition _normalize (value : pyval) : result config :=
  let? d := _exact value ["evidence"; "hbf"; "hbm"] "config" in
  let? evidence := dindex d "evidence" in
  let? _ := ensure (match evidence with VStr s => String.eqb s "SCENARIO_ASSUMPTION" | _ => false end)
              (ValueError "basic fabric parameters must remain SCENARIO_ASSUMPTION") in
  let? raw_hbf := dindex d "hbf" in
  let? hbf_items :=
    match raw_hbf with
    | VDict (x :: items) => Ok (x :: items)
    | _ => Raise (ValueError "config.hbf must be a nonempty object")
    end in
  let? raw_hbm := dindex d "hbm" in
  let? hbm_items :=
    match raw_hbm with VDict items => Ok items | _ => Raise (ValueError "config.hbm must be an object") end in
  let? hbm := foldM normalize_hbm (sorted_items hbm_items) [] in
  let? (hbf, _) := foldM (normalize_hbf hbm) (sorted_items hbf_items) ([], []) in
  let? _ := ensure (bool_decide (Forall (fun s => s ∉ dkeys hbm) (dkeys hbf)))
              (ValueError "stack IDs must be unique across HBF and HBM") in
  Ok {| cfg_hbf := hbf; cfg_hbm := hbm |}.

(** ** State *)

(** The path of an owner slot. *)
Inductive slot :=
| HbfBank (stack : string) (bank : nat)
| HbfFill (stack : string)
| HbfDirect (stack : string)
| HbfRelay (stack : string)
| HbmBank (stack : string) (bank : nat)
| HbmGpu (stack : string).

#[export] Instance slot_eq_dec : EqDecision slot.
Proof. solve_decision. Defined.

Definition slot_code (s : slot) : nat * string * nat :=
  match s with
  | HbfBank k i => (0, k, i) | HbfFill k => (1, k, 0) | HbfDirect k => (2, k, 0)
  | HbfRelay k => (3, k, 0) | HbmBank k i => (4, k, i) | HbmGpu k => (5, k, 0)
  end%nat.
Definition slot_decode (c : nat * string * nat) : slot :=
  match c with
  | (0, k, i) => HbfBank k i | (1, k, _) => HbfFill k | (2, k, _) => HbfDirect k
  | (3, k, _) => HbfRelay k | (4, k, i) => HbmBank k i | (_, k, _) => HbmGpu k
  end%nat.
#[export] Instance slot_countable : Countable slot.
Proof. apply (inj_countable' slot_code slot_decode). by intros []. Defined.

Inductive source_kind := HBF | HBM.
Inductive route := Direct | Relay.

Inductive job_state :=
| WAIT_READY | BACKEND_RESERVED | BACKEND_READY_PENDING | MEDIA_READY
| HBF_FILL | READY_HBF | HBF_DIRECT | HBF_RELAY | READY_HBM | HBM_READY | HBM_GPU | DONE.

#[export] Instance source_kind_eq_dec : EqDecision source_kind.
Proof. solve_decision. Defined.
#[export] Instance route_eq_dec : EqDecision route.
Proof. solve_decision. Defined.
#[export] Instance job_state_eq_dec : EqDecision job_state.
Proof. solve_decision. Defined.

Record job := {
  request_id : string; source_stack : string; kind : source_kind; job_route : route; bytes : Z;
  ready_ns : option Z; arrival_ns : option Z; sequence : Z; state : job_state;
  hbf_bank : option nat; hbm_bank : option nat }.

Inductive event :=
| EvReserve (id resource : string) (k : source_kind) (bank : nat) (bytes arrival time : Z)
| EvStart (stage : job_state) (id resource : string) (bytes start end_ : Z) (hbf_bank hbm_bank : option nat)
| EvComplete (stage : job_state) (id : string) (bytes time : Z)
| EvBackendReady (id : string) (bytes time : Z)
| EvMediaReady (id : string) (bytes time : Z).

Record completion := {
  c_request_id : string; c_source_stack : string; c_route : route; c_bytes : Z;
  c_ready_ns : option Z; completion_ns : Z }.

(** Heap entries [(time, sequence, id)] and [(end, sequence, stage, id)]. *)
Notation timer := (prod (prod Z Z) string).
Notation running := (prod (prod (prod Z Z) job_state) string).

Record fabric := {
  cfg : config; now : Z; next_sequence : Z;
  jobs : gmap string job;
  arrivals : list timer; backend_ready : list timer; active : list running;
  completions : list completion; events : list event;
  owners : gmap slot string }.

(** Field updates of the fabric object. *)
Definition set_now (t : Z) (f : fabric) : fabric :=
  {| cfg := cfg f; now := t; next_sequence := next_sequence f; jobs := jobs f; arrivals := arrivals f;
     backend_ready := backend_ready f; active := active f; completions := completions f;
     events := events f; owners := owners f |}.
Definition set_jobs (m : gmap string job) (f : fabric) : fabric :=
  {| cfg := cfg f; now := now f; next_sequence := next_sequence f; jobs := m; arrivals := arrivals f;
     backend_ready := backend_ready f; active := active f; completions := completions f;
     events := events f; owners := owners f |}.
Definition set_arrivals (l : list timer) (f : fabric) : fabric :=
  {| cfg := cfg f; now := now f; next_sequence := next_sequence f; jobs := jobs f; arrivals := l;
     backend_ready := backend_ready f; active := active f; completions := completions f;
     events := events f; owners := owners f |}.
Definition set_backend_ready (l : list timer) (f : fabric) : fabric :=
  {| cfg := cfg f; now := now f; next_sequence := next_sequence f; jobs := jobs f; arrivals := arrivals f;
     backend_ready := l; active := active f; completions := completions f;
     events := events f; owners := owners f |}.
Definition set_active (l : list running) (f : fabric) : fabric :=
  {| cfg := cfg f; now := now f; next_sequence := next_sequence f; jobs := jobs f; arrivals := arrivals f;
     backend_ready := backend_ready f; active := l; completions := completions f;
     events := events f; owners := owners f |}.
Definition add_event (e : event) (f : fabric) : fabric :=
  {| cfg := cfg f; now := now f; next_sequence := next_sequence f; jobs := jobs f; arrivals := arrivals f;
     backend_ready := backend_ready f; active := active f; completions := completions f;
     events := events f ++ [e]; owners := owners f |}.
Definition add_completion (c : completion) (f : fabric) : fabric :=
  {| cfg := cfg f; now := now f; next_sequence := next_sequence f; jobs := jobs f; arrivals := arrivals f;
     backend_ready := backend_ready f; active := active f; completions := completions f ++ [c];
     events := events f; owners := owners f |}.
(** [slot = owner], with [None] for a free slot. *)
Definition set_owner (s : slot) (o : option string) (f : fabric) : fabric :=
  {| cfg := cfg f; now := now f; next_sequence := next_sequence f; jobs := jobs f; arrivals := arrivals f;
     backend_ready := backend_ready f; active := active f; completions := completions f;
     events := events f;
     owners := match o with Some id => <[s := id]> (owners f) | None => delete s (owners f) end |}.

(** Updates of a job object. *)
Definition with_state (st : job_state) (j : job) : job :=
  {| request_id := request_id j; source_stack := source_stack j; kind := kind j; job_route := job_route j;
     bytes := bytes j; ready_ns := ready_ns j; arrival_ns := arrival_ns j; sequence := sequence j;
     state := st; hbf_bank := hbf_bank j; hbm_bank := hbm_bank j |}.
Definition with_hbf_bank (b : option nat) (j : job) : job :=
  {| request_id := request_id j; source_stack := source_stack j; kind := kind j; job_route := job_route j;
     bytes := bytes j; ready_ns := ready_ns j; arrival_ns := arrival_ns j; sequence := sequence j;
     state := state j; hbf_bank := b; hbm_bank := hbm_bank j |}.
Definition with_hbm_bank (b : option nat) (j : job) : job :=
  {| request_id := request_id j; source_stack := source_stack j; kind := kind j; job_route := job_route j;
     bytes := bytes j; ready_ns := ready_ns j; arrival_ns := arrival_ns j; sequence := sequence j;
     state := state j; hbf_bank := hbf_bank j; hbm_bank := b |}.
Definition with_ready (t : Z) (j : job) : job :=
  {| request_id := request_id j; source_stack := source_stack j; kind := kind j; job_route := job_route j;
     bytes := bytes j; ready_ns := Some t; arrival_ns := arrival_ns j; sequence := sequence j;
     state := state j; hbf_bank := hbf_bank j; hbm_bank := hbm_bank j |}.

Definition timer_le (a b : timer) : bool := lex zle zle a.1 b.1.
Definition running_le (a b : running) : bool := lex zle zle a.1.1 b.1.1.

Definition init (value : pyval) : result fabric :=
  let? c := _normalize value in
  Ok {| cfg := c; now := 0; next_sequence := 0; jobs := ∅; arrivals := []; backend_ready := []; active := [];
        completions := []; events := []; owners := ∅ |}.

(** ** Intake *)

Definition parse_route (s : string) : option route :=
  if String.eqb s "direct" then Some Direct else if String.eqb s "relay" then Some Relay else None.

(** The identity checks the two intakes share. *)
Definition check_id (f : fabric) (id : pyval) : result string :=
  match id with
  | VStr s =>
      let? _ := ensure (negb (String.eqb s "") && negb (bool_decide (is_Some (jobs f !! s))))
                  (ValueError "request_id must be a new nonempty string") in
      Ok s
  | _ => Raise (ValueError "request_id must be a new nonempty string")
  end.

(** The route and capacity checks; [limit_hbm] is whether an HBM source is
    checked against its bank capacity ([reserve_source] does, [enqueue] does
    not). *)
Definition check_route (c : config) (stack : string) (rt : string) (byte_count : Z) (limit_hbm : bool) :
    result (source_kind * route) :=
  match dget (cfg_hbf c) stack with
  | Some row =>
      match parse_route rt with
      | None => Raise (ValueError "HBF route must be direct or relay")
      | Some r =>
          let? _ := ensure (byte_count <=? hbf_bank_capacity_bytes row)
                      (ValueError "request exceeds HBF bank capacity; chunking is external") in
          match r with
          | Direct => Ok (HBF, Direct)
          | Relay =>
              let? p := of_option (ValueError "relay requested for unpaired HBF") (pair row) in
              let? peer := dindex (cfg_hbm c) p in
              let? _ := ensure (byte_count <=? hbm_bank_capacity_bytes peer)
                          (ValueError "request exceeds HBM bank capacity; chunking is external") in
              Ok (HBF, Relay)
          end
      end
  | None =>
      match dget (cfg_hbm c) stack with
      | Some row =>
          let? _ := ensure (String.eqb rt "direct") (ValueError "HBM source accepts direct route only") in
          let? _ := ensure (negb limit_hbm || (byte_count <=? hbm_bank_capacity_bytes row))
                      (ValueError "request exceeds HBM bank capacity; chunking is external") in
          Ok (HBM, Direct)
      | None => Raise (ValueError "unknown source_stack")
      end
  end.

(** [self._jobs[id] = job] with the next sequence number. *)
Definition add_job (j : job) (f : fabric) : fabric :=
  {| cfg := cfg f; now := now f; next_sequence := next_sequence f + 1; jobs := <[request_id j := j]> (jobs f);
     arrivals := arrivals f; backend_ready := backend_ready f; active := active f;
     completions := completions f; events := events f; owners := owners f |}.

Definition enqueue (id : pyval) (stack rt : string) (bytes_ ready : pyval) : M fabric unit :=
  let! f := get in
  let! rid := lift (check_id f id) in
  let! byte_count := lift (_integer bytes_ "bytes" true) in
  let! t := lift (_integer ready "ready_ns" false) in
  let! _ := require (now f <=? t) (ValueError "ready_ns precedes current fabric time") in
  let! (k, r) := lift (check_route (cfg f) stack rt byte_count false) in
  let j := {| request_id := rid; source_stack := stack; kind := k; job_route := r; bytes := byte_count;
              ready_ns := Some t; arrival_ns := None; sequence := next_sequence f; state := WAIT_READY;
              hbf_bank := None; hbm_bank := None |} in
  put (set_arrivals (sinsert timer_le (t, next_sequence f, rid) (arrivals f)) (add_job j f)).

(** [_free_bank]: the first index whose owner is [None]. *)
Definition _free_bank (f : fabric) (mk : nat -> slot) (count : Z) : option nat :=
  head (filter (fun i => owners f !! mk i = None) (seq 0 (Z.to_nat count))).

(** The banks of a source: their slots and number. *)
Definition source_banks (c : config) (k : source_kind) (stack : string) : (nat -> slot) * Z :=
  match k with
  | HBF => (HbfBank stack, match dget (cfg_hbf c) stack with Some row => hbf_bank_count row | None => 0 end)
  | HBM => (HbmBank stack, match dget (cfg_hbm c) stack with Some row => hbm_bank_count row | None => 0 end)
  end.

Definition reserve_source (id : pyval) (stack rt : string) (bytes_ arrival : pyval) : M fabric bool :=
  let! f := get in
  let! rid := lift (check_id f id) in
  let! byte_count := lift (_integer bytes_ "bytes" true) in
  let! t := lift (_integer arrival "arrival_ns" false) in
  let! _ := require (t <=? now f) (ValueError "future request cannot reserve a bank before arrival") in
  let! (k, r) := lift (check_route (cfg f) stack rt byte_count true) in
  let '(mk, count) := source_banks (cfg f) k stack in
  match _free_bank f mk count with
  | None => sret false
  | Some bank =>
      let j := {| request_id := rid; source_stack := stack; kind := k; job_route := r; bytes := byte_count;
                  ready_ns := None; arrival_ns := Some t; sequence := next_sequence f; state := BACKEND_RESERVED;
                  hbf_bank := if decide (k = HBF) then Some bank else None;
                  hbm_bank := if decide (k = HBM) then Some bank else None |} in
      let! _ := put (add_event (EvReserve rid (stack +:+ ":bank:" +:+ pretty bank) k bank byte_count t (now f))
                       (set_owner (mk bank) (Some rid) (add_job j f))) in
      sret true
  end.

Definition reserve_hbf (id : pyval) (stack rt : string) (bytes_ arrival : pyval) : M fabric bool :=
  let! f := get in
  let! _ := require (dmem (cfg_hbf (cfg f)) stack) (ValueError "reserve_hbf requires a configured HBF source") in
  reserve_source id stack rt bytes_ arrival.

Definition NOT_RESERVED : exn := ValueError "request does not own a pending backend source reservation".

Definition mark_source_ready (id : string) (backend_completion : pyval) : M fabric unit :=
  let! f := get in
  let! j := lift (of_option NOT_RESERVED (jobs f !! id)) in
  let! _ := require (bool_decide (state j = BACKEND_RESERVED)) NOT_RESERVED in
  let! t := lift (_integer backend_completion "backend_completion_ns" false) in
  let! _ := require (now f <=? t) (ValueError "backend completion precedes current fabric time") in
  put (set_backend_ready (sinsert timer_le (t, sequence j, id) (backend_ready f))
         (set_jobs (<[id := with_ready t (with_state BACKEND_READY_PENDING j)]> (jobs f)) f)).

Definition mark_hbf_ready (id : string) (backend_completion : pyval) : M fabric unit :=
  let! f := get in
  let! j := lift (of_option (ValueError "mark_hbf_ready requires an HBF reservation") (jobs f !! id)) in
  let! _ := require (bool_decide (kind j = HBF)) (ValueError "mark_hbf_ready requires an HBF reservation") in
  mark_source_ready id backend_completion.

Definition next_event_ns (f : fabric) : option Z :=
  zmin_list ((match arrivals f with (t, _, _) :: _ => [t] | [] => [] end)
             ++ (match backend_ready f with (t, _, _) :: _ => [t] | [] => [] end)
             ++ (match active f with (t, _, _, _) :: _ => [t] | [] => [] end)).

(** ** Transfers *)

(** [_start] of the job stored under its identifier. *)
Definition _start (j : job) (stage_name : job_state) (s : stage) (resource : string)
    (hb mb : option nat) : M fabric unit :=
  modify (fun f =>
    let end_ := now f + _duration s (bytes j) in
    add_event (EvStart stage_name (request_id j) resource (bytes j) (now f) end_ hb mb)
      (set_active (sinsert running_le (end_, sequence j, stage_name, request_id j) (active f))
         (set_jobs (<[request_id j := with_state stage_name j]> (jobs f)) f))).

Definition put_job (j : job) : M fabric unit := modify (fun f => set_jobs (<[request_id j := j]> (jobs f)) f).

(** [_finish]: the job is done and its completion recorded. *)
Definition _finish (j : job) : M fabric unit :=
  let! f := get in
  let! _ := put_job (with_state DONE j) in
  modify (add_completion {| c_request_id := request_id j; c_source_stack := source_stack j;
            c_route := job_route j; c_bytes := bytes j; c_ready_ns := ready_ns j; completion_ns := now f |}).

(** [bank]: the index stored in the job; indexing with [None] raises. *)
Definition bank_index (b : option nat) : result nat :=
  of_option (TypeError "list indices must be integers or slices, not NoneType") b.

(** The HBM stack whose GPU link a job uses. *)
Definition gpu_stack (c : config) (j : job) : result string :=
  match kind j with
  | HBM => Ok (source_stack j)
  | HBF => let? row := dindex (cfg_hbf c) (source_stack j) in of_option (KeyError "None") (pair row)
  end.

Definition _complete (stage_name : job_state) (id : string) : M fabric unit :=
  let! f := get in
  let! j := lift (of_option (KeyError id) (jobs f !! id)) in
  let source := source_stack j in
  let! _ :=
    match stage_name with
    | HBF_FILL =>
        let! _ := modify (set_owner (HbfFill source) None) in
        put_job (with_state READY_HBF j)
    | HBF_DIRECT =>
        let! _ := modify (set_owner (HbfDirect source) None) in
        let! b := lift (bank_index (hbf_bank j)) in
        let! _ := modify (set_owner (HbfBank source b) None) in
        _finish (with_hbf_bank None j)
    | HBF_RELAY =>
        let! _ := modify (set_owner (HbfRelay source) None) in
        let! b := lift (bank_index (hbf_bank j)) in
        let! _ := modify (set_owner (HbfBank source b) None) in
        put_job (with_state READY_HBM (with_hbf_bank None j))
    | HBM_GPU =>
        let! stack := lift (gpu_stack (cfg f) j) in
        let! _ := modify (set_owner (HbmGpu stack) None) in
        match hbm_bank j with
        | Some b =>
            let! _ := modify (set_owner (HbmBank stack b) None) in
            _finish (with_hbm_bank None j)
        | None => _finish j
        end
    | _ => raise (AssertionError "unknown active stage")
    end in
  modify (fun g => add_event (EvComplete stage_name id (bytes j) (now g)) g).

(** [sorted(self._jobs.values(), key=sequence)], as identifiers. *)
Definition waiting (f : fabric) : list string :=
  (fun j : job => request_id j) <$> isort (fun a b => sequence a <=? sequence b) ((map_to_list (jobs f)).*2).

(** The first waiting job that satisfies a test now. *)
Fixpoint find_job (f : fabric) (test : job -> bool) (ids : list string) : option job :=
  match ids with
  | [] => None
  | id :: rest =>
      match jobs f !! id with
      | Some j => if test j then Some j else find_job f test rest
      | None => find_job f test rest
      end
  end.

(** First loop of [_admit]: one fill per HBF stack. *)
Definition admit_fill (ids : list string) (item : string * hbf_config) : M fabric unit :=
  let '(stack, row) := item in
  let! f := get in
  match owners f !! HbfFill stack with
  | Some _ => sret tt
  | None =>
      match _free_bank f (HbfBank stack) (hbf_bank_count row),
            find_job f (fun j => String.eqb (source_stack j) stack && bool_decide (state j = MEDIA_READY)) ids with
      | Some bank, Some j =>
          let! _ := modify (set_owner (HbfFill stack) (Some (request_id j))) in
          let! _ := modify (set_owner (HbfBank stack bank) (Some (request_id j))) in
          _start (with_hbf_bank (Some bank) j) HBF_FILL (fill row) (stack +:+ ":fill") (Some bank) None
      | _, _ => sret tt
      end
  end.

(** Second loop: direct and relay links of the filled jobs. *)
Definition admit_link (id : string) : M fabric unit :=
  let! f := get in
  let! j := lift (of_option (KeyError id) (jobs f !! id)) in
  if negb (bool_decide (state j = READY_HBF)) then sret tt else
  let stack := source_stack j in
  let! row := lift (dindex (cfg_hbf (cfg f)) stack) in
  match job_route j with
  | Direct =>
      match owners f !! HbfDirect stack with
      | None =>
          let! _ := modify (set_owner (HbfDirect stack) (Some id)) in
          _start j HBF_DIRECT (direct_link row) (stack +:+ ":gpu-link") (hbf_bank j) None
      | Some _ => sret tt
      end
  | Relay =>
      match owners f !! HbfRelay stack with
      | None =>
          let! p := lift (of_option (KeyError "None") (pair row)) in
          let! peer := lift (dindex (cfg_hbm (cfg f)) p) in
          match _free_bank f (HbmBank p) (hbm_bank_count peer) with
          | Some bank =>
              let! _ := modify (set_owner (HbfRelay stack) (Some id)) in
              let! _ := modify (set_owner (HbmBank p bank) (Some id)) in
              let! link := lift (of_option (TypeError "'NoneType' object is not subscriptable") (relay_link row)) in
              _start (with_hbm_bank (Some bank) j) HBF_RELAY link (stack +:+ "->" +:+ p +:+ ":relay-link")
                (hbf_bank j) (Some bank)
          | None => sret tt
          end
      | Some _ => sret tt
      end
  end.

(** Whether a job waits for the GPU link of an HBM stack. *)
Definition gpu_candidate (c : config) (stack : string) (j : job) : bool :=
  match kind j with
  | HBM => String.eqb (source_stack j) stack && bool_decide (state j = HBM_READY)
  | HBF => bool_decide ((row ← dget (cfg_hbf c) (source_stack j); pair row) = Some stack)
           && bool_decide (state j = READY_HBM)
  end.

(** Third loop: the GPU link of each HBM stack. *)
Definition admit_gpu (ids : list string) (item : string * hbm_config) : M fabric unit :=
  let '(stack, row) := item in
  let! f := get in
  match owners f !! HbmGpu stack with
  | Some _ => sret tt
  | None =>
      match find_job f (gpu_candidate (cfg f) stack) ids with
      | Some j =>
          let! _ := modify (set_owner (HbmGpu stack) (Some (request_id j))) in
          _start j HBM_GPU (gpu_link row) (stack +:+ ":gpu-link") None (hbm_bank j)
      | None => sret tt
      end
  end.

Definition _admit : M fabric unit :=
  let! f := get in
  let ids := waiting f in
  let! _ := forM (cfg_hbf (cfg f)) (admit_fill ids) in
  let! _ := forM ids admit_link in
  forM (cfg_hbm (cfg f)) (admit_gpu ids).

(** ** Time *)

(** The prefix of a heap that ends now. *)
Fixpoint pop_ending (t : Z) (heap : list running) : list running * list running :=
  match heap with
  | [] => ([], [])
  | e :: rest =>
      if e.1.1.1 =? t then let '(ending, heap') := pop_ending t rest in (e :: ending, heap') else ([], heap)
  end.

(** The [while self._backend_ready ...] loop on the heap [heap]. *)
Fixpoint drain_backend (heap : list timer) : M fabric unit :=
  match heap with
  | [] => sret tt
  | (t, _, id) :: rest =>
      let! f := get in
      if t =? now f then
        let! _ := modify (set_backend_ready rest) in
        let! j := lift (of_option (KeyError id) (jobs f !! id)) in
        let! _ := put_job (with_state (match kind j with HBF => READY_HBF | HBM => HBM_READY end) j) in
        let! _ := modify (add_event (EvBackendReady id (bytes j) (now f))) in
        drain_backend rest
      else sret tt
  end.

Fixpoint drain_arrivals (heap : list timer) : M fabric unit :=
  match heap with
  | [] => sret tt
  | (t, _, id) :: rest =>
      let! f := get in
      if t =? now f then
        let! _ := modify (set_arrivals rest) in
        let! j := lift (of_option (KeyError id) (jobs f !! id)) in
        let! _ := put_job (with_state (match kind j with HBF => MEDIA_READY | HBM => HBM_READY end) j) in
        let! _ := modify (add_event (EvMediaReady id (bytes j) (now f))) in
        drain_arrivals rest
      else sret tt
  end.

(** One iteration of the loop of [advance], at the next event time. *)
Definition advance_to (t : Z) : M fabric unit :=
  let! _ := modify (set_now t) in
  let! f := get in
  let '(ending, rest) := pop_ending t (active f) in
  let! _ := modify (set_active rest) in
  let! _ := forM ending (fun e => _complete e.1.2 e.2) in
  let! g := get in
  let! _ := drain_backend (backend_ready g) in
  let! h := get in
  let! _ := drain_arrivals (arrivals h) in
  _admit.

Fixpoint advance_loop (fuel : nat) (horizon : Z) : M fabric unit :=
  match fuel with
  | O => raise OutOfFuel
  | S fuel' =>
      let! f := get in
      match next_event_ns f with
      | None => sret tt
      | Some t => if horizon <? t then sret tt else let! _ := advance_to t in advance_loop fuel' horizon
      end
  end.

(** Each iteration moves at least one job to a later state and a job passes
    through at most a dozen of them. *)
Definition advance_fuel (f : fabric) : nat := S (12 * size (jobs f)).

Definition advance (horizon : pyval) : M fabric unit :=
  let! f := get in
  let! t := lift (_integer horizon "horizon_ns" false) in
  let! _ := require (now f <=? t) (ValueError "fabric time cannot move backwards") in
  let! _ := advance_loop (advance_fuel f) t in
  modify (set_now t).

(** [resource_state]: the owners of every configured slot and the identifiers
    of the jobs that are not done, sorted. *)
Record hbf_row := { banks : list (option string); row_fill : option string;
                    row_direct : option string; row_relay : option string }.
Record hbm_row := { row_banks : list (option string); row_gpu : option string }.

Definition resource_state (f : fabric) : Z * dict string hbf_row * dict string hbm_row * list string :=
  (now f,
   (fun '(stack, row) =>
      (stack, {| banks := (fun i => owners f !! HbfBank stack i) <$> seq 0 (Z.to_nat (hbf_bank_count row));
                 row_fill := owners f !! HbfFill stack; row_direct := owners f !! HbfDirect stack;
                 row_relay := owners f !! HbfRelay stack |})) <$> cfg_hbf (cfg f),
   (fun '(stack, row) =>
      (stack, {| row_banks := (fun i => owners f !! HbmBank stack i) <$> seq 0 (Z.to_nat (hbm_bank_count row));
                 row_gpu := owners f !! HbmGpu stack |})) <$> cfg_hbm (cfg f),
   isort sle ((fun '(id, _) => id) <$> filter (fun kv => state kv.2 <> DONE) (map_to_list (jobs f)))).

(** ** Validated configurations *)

Definition stage_ok (s : stage) : Prop := 0 <= latency_ns s /\ 0 < bandwidth_bytes_per_s s.

Record hbm_ok (row : hbm_config) : Prop := {
  ho_count : hbm_bank_count row = 2; ho_capacity : 0 < hbm_bank_capacity_bytes row; ho_gpu : stage_ok (gpu_link row) }.

Record hbf_ok (hbm : dict string hbm_config) (row : hbf_config) : Prop := {
  fo_count : hbf_bank_count row = 2; fo_capacity : 0 < hbf_bank_capacity_bytes row;
  fo_fill : stage_ok (fill row); fo_direct : stage_ok (direct_link row);
  fo_relay : match pair row, relay_link row with
             | Some p, Some s => p ∈ dkeys hbm /\ stage_ok s
             | None, None => True
             | _, _ => False
             end }.

Record config_ok (c : config) : Prop := {
  co_hbm_keys : NoDup (dkeys (cfg_hbm c)); co_hbf_keys : NoDup (dkeys (cfg_hbf c));
  co_hbm : forall s row, dget (cfg_hbm c) s = Some row -> hbm_ok row;
  co_hbf : forall s row, dget (cfg_hbf c) s = Some row -> hbf_ok (cfg_hbm c) row;
  co_disjoint : forall s, s ∈ dkeys (cfg_hbf c) -> s ∉ dkeys (cfg_hbm c);
  co_pairs : forall s s' row row' p, dget (cfg_hbf c) s = Some row -> dget (cfg_hbf c) s' = Some row' ->
    pair row = Some p -> pair row' = Some p -> s = s' }.

Lemma integer_Ok v l pos z : _integer v l pos = Ok z -> v = VInt z /\ (if pos then 1 else 0) <= z.
Proof. destruct v; simpl; try done. intros H. inv_ok. split; [done|]. lia. Qed.

Lemma stage_Ok v l s : _stage v l = Ok s -> stage_ok s.
Proof.
  unfold _stage. intros H. inv_ok.
  repeat match goal with H : _integer _ _ _ = Ok _ |- _ => apply integer_Ok in H as [_ H] end.
  split; simpl; lia.
Qed.

Lemma normalize_hbm_spec hbm item hbm' :
  NoDup (dkeys hbm) -> (forall s row, dget hbm s = Some row -> hbm_ok row) ->
  normalize_hbm hbm item = Ok hbm' ->
  NoDup (dkeys hbm') /\ (forall s row, dget hbm' s = Some row -> hbm_ok row).
Proof.
  intros Hnd Hok H. destruct item as [stack raw]. unfold normalize_hbm in H. inv_ok.
  repeat match goal with H : _integer _ _ _ = Ok _ |- _ => apply integer_Ok in H as [_ H]
         | H : _stage _ _ = Ok _ |- _ => apply stage_Ok in H end.
  split; [by apply NoDup_dkeys_dset|]. intros s row. rewrite dget_dset. case_decide; [|apply Hok].
  intros [= <-]. constructor; simpl; try done; lia.
Qed.

(** Invariant of the HBF loop: every row is valid and the pairs are among the
    used ones, each used once. *)
Definition hbf_acc_ok (hbm : dict string hbm_config) (acc : dict string hbf_config * list string) : Prop :=
  NoDup (dkeys acc.1) /\ (forall s row, dget acc.1 s = Some row -> hbf_ok hbm row)
  /\ (forall s row p, dget acc.1 s = Some row -> pair row = Some p -> p ∈ acc.2)
  /\ (forall s s' row row' p, dget acc.1 s = Some row -> dget acc.1 s' = Some row' ->
        pair row = Some p -> pair row' = Some p -> s = s').

Lemma normalize_pair_spec hbm used stack rp rr p used' relay :
  normalize_pair hbm used stack rp rr = Ok (p, used', relay) ->
  match p, relay with
  | Some q, Some s => q ∈ dkeys hbm /\ stage_ok s /\ q ∉ used /\ used' = used ++ [q]
  | None, None => used' = used
  | _, _ => False
  end.
Proof.
  unfold normalize_pair. destruct rp; try done.
  - destruct rr; try done. intros H. by inv_ok.
  - intros H. inv_ok. match goal with H : _stage _ _ = Ok _ |- _ => apply stage_Ok in H end.
    split_and!; try done.
    + apply dget_is_Some. unfold dmem in *. by destruct (dget hbm s).
    + by case_bool_decide.
Qed.

Lemma normalize_hbf_row hbm hbf used stack raw acc' :
  normalize_hbf hbm (hbf, used) (stack, raw) = Ok acc' ->
  exists row, acc'.1 = dset hbf stack row /\ hbf_ok hbm row /\
    match pair row with Some q => q ∉ used /\ acc'.2 = used ++ [q] | None => acc'.2 = used end.
Proof.
  intros H. unfold normalize_hbf in H. inv_ok.
  match goal with x : (option string * list string * option stage)%type |- _ => destruct x as [[p used'] relay] end.
  inv_ok.
  repeat match goal with H : _integer _ _ _ = Ok _ |- _ => apply integer_Ok in H as [_ H]
         | H : _stage _ _ = Ok _ |- _ => apply stage_Ok in H
         | H : normalize_pair _ _ _ _ _ = Ok _ |- _ => apply normalize_pair_spec in H; rename H into Hpair end.
  eexists. split; [reflexivity|]. simpl. split.
  - constructor; simpl; try done; try lia. destruct p, relay; try done. by destruct Hpair as (? & ? & _).
  - destruct p, relay; try done. by destruct Hpair as (_ & _ & ? & ?).
Qed.

Lemma normalize_hbf_spec hbm acc item acc' :
  hbf_acc_ok hbm acc -> normalize_hbf hbm acc item = Ok acc' -> hbf_acc_ok hbm acc'.
Proof.
  intros (Hnd & Hok & Hused & Huniq) H. destruct acc as [hbf used], item as [stack raw].
  destruct (normalize_hbf_row _ _ _ _ _ _ H) as (row0 & Ehbf & Hrow & Hpair). simpl in *.
  assert (Hget : forall s row, dget acc'.1 s = Some row -> dget hbf s = Some row \/ s = stack /\ row = row0).
  { intros s row. rewrite Ehbf, dget_dset. case_decide; [intros [= <-]; by right|by left]. }
  assert (Hnew' : forall s row p, dget hbf s = Some row -> pair row = Some p -> pair row0 <> Some p).
  { intros s row p Hs Hp E. rewrite E in Hpair. destruct Hpair as [Hn _]. apply Hn. by eapply Hused. }
  assert (Hin : forall q, q ∈ used \/ pair row0 = Some q -> q ∈ acc'.2).
  { intros q. destruct (pair row0) as [q0|]; [destruct Hpair as [_ ->]|rewrite Hpair]; set_solver. }
  split_and!.
  - rewrite Ehbf. by apply NoDup_dkeys_dset.
  - intros s row [Hs|[_ ->]]%Hget; eauto.
  - intros s row p [Hs|[_ ->]]%Hget Hp; apply Hin; eauto.
  - intros s s' row row' p [Hs|[-> ->]]%Hget [Hs'|[-> ->]]%Hget Hp Hp'; eauto.
    + by destruct (Hnew' _ _ _ Hs Hp).
    + by destruct (Hnew' _ _ _ Hs' Hp').
Qed.

Lemma build_hbm items m : foldM normalize_hbm items [] = Ok m ->
  NoDup (dkeys m) /\ forall s row, dget m s = Some row -> hbm_ok row.
Proof.
  apply (foldM_Ok_ind (fun _ m => NoDup (dkeys m) /\ forall s row, dget m s = Some row -> hbm_ok row)).
  - split; [constructor|done].
  - intros done item todo m1 m2 _ [H1 H2] Hs. by eapply normalize_hbm_spec.
Qed.

Lemma build_hbf hbm items acc : foldM (normalize_hbf hbm) items ([], []) = Ok acc -> hbf_acc_ok hbm acc.
Proof.
  apply (foldM_Ok_ind (fun _ acc => hbf_acc_ok hbm acc)).
  - split; [constructor|done].
  - intros done item todo a1 a2 _ H1 Hs. by eapply normalize_hbf_spec.
Qed.

Lemma normalize_ok v c : _normalize v = Ok c -> config_ok c.
Proof.
  intros H. unfold _normalize in H. inv_ok.
  match goal with x : (dict string hbf_config * list string)%type |- _ => destruct x as [hbf used] end. inv_ok.
  match goal with H : foldM normalize_hbm _ _ = Ok _ |- _ => apply build_hbm in H as [Hm1 Hm2] end.
  match goal with H : foldM (normalize_hbf _) _ _ = Ok _ |- _ => apply build_hbf in H as (Hf1 & Hf2 & _ & Hf4) end.
  constructor; simpl; try done.
  intros s Hs. match goal with H : Forall _ _ |- _ => rewrite Forall_forall in H; by apply H end.
Qed.

(** ** Ownership *)

(** The HBM stack a job ends on, as the source computes it. *)
Definition hbm_of (c : config) (j : job) : option string :=
  match kind j with
  | HBM => Some (source_stack j)
  | HBF => row ← dget (cfg_hbf c) (source_stack j); pair row
  end.

Definition link_slot (c : config) (j : job) : option slot :=
  match state j with
  | HBF_FILL => Some (HbfFill (source_stack j))
  | HBF_DIRECT => Some (HbfDirect (source_stack j))
  | HBF_RELAY => Some (HbfRelay (source_stack j))
  | HBM_GPU => HbmGpu <$> hbm_of c j
  | _ => None
  end.

Definition bank_slots (c : config) (j : job) : list slot :=
  (match hbf_bank j with Some b => [HbfBank (source_stack j) b] | None => [] end)
  ++ (match hbm_bank j, hbm_of c j with Some b, Some p => [HbmBank p b] | _, _ => [] end).

(** The slots a job holds: its banks, and the link of its running stage. *)
Definition held (c : config) (j : job) : list slot :=
  bank_slots c j ++ match link_slot c j with Some s => [s] | None => [] end.

(** Which banks and routes each state goes with. *)
Definition shape_ok (j : job) : bool :=
  match state j, kind j, hbf_bank j, hbm_bank j with
  | (WAIT_READY | DONE), _, None, None => true
  | (BACKEND_RESERVED | BACKEND_READY_PENDING), HBF, Some _, None => true
  | (BACKEND_RESERVED | BACKEND_READY_PENDING), HBM, None, Some _ => true
  | MEDIA_READY, HBF, None, None => true
  | (HBF_FILL | READY_HBF | HBF_DIRECT), HBF, Some _, None => true
  | HBF_RELAY, HBF, Some _, Some _ => bool_decide (job_route j = Relay)
  | (READY_HBM | HBM_GPU), HBF, None, Some _ => bool_decide (job_route j = Relay)
  | (HBM_READY | HBM_GPU), HBM, None, _ => true
  | _, _, _, _ => false
  end.

(** A job's source is configured and its route available. *)
Definition source_ok (c : config) (j : job) : Prop :=
  match kind j with
  | HBF => exists row, dget (cfg_hbf c) (source_stack j) = Some row /\ (job_route j = Relay -> is_Some (pair row))
  | HBM => is_Some (dget (cfg_hbm c) (source_stack j))
  end.

Definition is_running (s : job_state) : bool :=
  match s with HBF_FILL | HBF_DIRECT | HBF_RELAY | HBM_GPU => true | _ => false end.

Record job_ok (f : fabric) (id : string) (j : job) : Prop := {
  jo_id : request_id j = id; jo_seq : sequence j < next_sequence f; jo_bytes : 0 < bytes j;
  jo_source : source_ok (cfg f) j; jo_shape : shape_ok j = true }.

(** A timer heap lists exactly the jobs in one state, each once. *)
Definition timers_ok (st : job_state) (m : gmap string job) (l : list timer) : Prop :=
  NoDup l.*2 /\ forall id, id ∈ l.*2 <-> exists j, m !! id = Some j /\ state j = st.

(** The running stages are exactly the running jobs. *)
Definition running_ok (m : gmap string job) (l : list running) : Prop :=
  NoDup l.*2
  /\ (forall e, e ∈ l -> is_running e.1.2 = true /\ exists j, m !! e.2 = Some j /\ state j = e.1.2)
  /\ (forall id j, m !! id = Some j -> is_running (state j) = true -> id ∈ l.*2).

(** The invariant between atomic updates; [pend] are stages that have been
    taken off the heap and wait for their completion. *)
Record base_inv (f : fabric) (pend : list running) : Prop := {
  bi_cfg : config_ok (cfg f);
  bi_jobs : forall id j, jobs f !! id = Some j -> job_ok f id j;
  bi_own : forall s id, owners f !! s = Some id <-> exists j, jobs f !! id = Some j /\ s ∈ held (cfg f) j;
  bi_arrivals : timers_ok WAIT_READY (jobs f) (arrivals f);
  bi_backend : timers_ok BACKEND_READY_PENDING (jobs f) (backend_ready f);
  bi_running : running_ok (jobs f) (pend ++ active f);
}.

(** Heaps are sorted and hold no time before the current one. *)
Record time_inv (f : fabric) : Prop := {
  ti_sorted_a : sorted timer_le (arrivals f); ti_sorted_b : sorted timer_le (backend_ready f);
  ti_sorted_r : sorted running_le (active f);
  ti_arrivals : Forall (fun e => now f <= e.1.1) (arrivals f);
  ti_backend : Forall (fun e => now f <= e.1.1) (backend_ready f);
  ti_running : Forall (fun e => now f <= e.1.1.1) (active f);
}.

(** Two versions of one job object. *)
Definition same_job (j j' : job) : Prop :=
  request_id j' = request_id j /\ source_stack j' = source_stack j /\ kind j' = kind j
  /\ job_route j' = job_route j /\ bytes j' = bytes j /\ sequence j' = sequence j.

Lemma same_job_ok f id j j' f' :
  job_ok f id j -> same_job j j' -> shape_ok j' = true -> cfg f' = cfg f -> next_sequence f <= next_sequence f' ->
  job_ok f' id j'.
Proof.
  intros [Hid Hseq Hb Hsrc _] (E1 & E2 & E3 & E4 & E5 & E6) Hshape Hc Hn.
  constructor; rewrite ?E1, ?E5, ?E6; try done; [lia|]. unfold source_ok in *. by rewrite E2, E3, E4, Hc.
Qed.

(** Replacing one job: the owners must change as what it holds changes. *)
Lemma own_update f f' id j j' :
  (forall s id, owners f !! s = Some id <-> exists j, jobs f !! id = Some j /\ s ∈ held (cfg f) j) ->
  jobs f !! id = Some j -> jobs f' = <[id := j']> (jobs f) -> cfg f' = cfg f ->
  (forall s, s ∈ held (cfg f) j' -> owners f' !! s = Some id) ->
  (forall s, s ∉ held (cfg f) j' -> s ∈ held (cfg f) j -> owners f' !! s = None) ->
  (forall s, s ∉ held (cfg f) j' -> s ∉ held (cfg f) j -> owners f' !! s = owners f !! s) ->
  (forall s, s ∈ held (cfg f) j' -> s ∉ held (cfg f) j -> owners f !! s = None) ->
  forall s id, owners f' !! s = Some id <-> exists j, jobs f' !! id = Some j /\ s ∈ held (cfg f') j.
Proof.
  intros Hown Hj Hjobs Hcfg Hin Hout Hsame Hfree s id'. rewrite Hjobs, Hcfg.
  destruct (decide (s ∈ held (cfg f) j')) as [Hs|Hs].
  - rewrite (Hin s Hs). split.
    + intros [= <-]. exists j'. by rewrite lookup_insert_eq.
    + intros (j2 & Hj2 & Hs2). f_equal. destruct (decide (id = id')) as [->|Hne]; [done|].
      rewrite lookup_insert_ne in Hj2 by done.
      assert (owners f !! s = Some id') as E by (apply Hown; eauto).
      destruct (decide (s ∈ held (cfg f) j)) as [Hsj|Hsj].
      * assert (owners f !! s = Some id) by (apply Hown; eauto). congruence.
      * rewrite Hfree in E by done. done.
  - destruct (decide (s ∈ held (cfg f) j)) as [Hsj|Hsj].
    + rewrite Hout by done. split; [done|]. intros (j2 & Hj2 & Hs2). exfalso.
      destruct (decide (id = id')) as [->|Hne]; [rewrite lookup_insert_eq in Hj2; congruence|].
      rewrite lookup_insert_ne in Hj2 by done.
      assert (owners f !! s = Some id') by (apply Hown; eauto).
      assert (owners f !! s = Some id) by (apply Hown; eauto). congruence.
    + rewrite Hsame by done. rewrite Hown. destruct (decide (id = id')) as [->|Hne].
      * rewrite lookup_insert_eq. naive_solver.
      * by rewrite lookup_insert_ne.
Qed.

(** Heaps under a change of one job's state. *)
Lemma timers_keep st m l id j j' : m !! id = Some j -> state j <> st -> state j' <> st ->
  timers_ok st m l -> timers_ok st (<[id := j']> m) l.
Proof.
  intros Hj Hs Hs' [Hnd Hl]. split; [done|]. intros id'. rewrite Hl.
  destruct (decide (id = id')) as [->|]; [rewrite lookup_insert_eq|by rewrite lookup_insert_ne]. naive_solver.
Qed.

Lemma timers_drop st m e l j j' : m !! e.2 = Some j -> state j' <> st ->
  timers_ok st m (e :: l) -> timers_ok st (<[e.2 := j']> m) l.
Proof.
  intros Hj Hs' [Hnd Hl]. csimpl in *. apply NoDup_cons in Hnd as [Hn Hnd]. split; [done|]. intros id'.
  destruct (decide (e.2 = id')) as [<-|Hne].
  - rewrite lookup_insert_eq. naive_solver.
  - rewrite lookup_insert_ne by done. rewrite <- Hl, elem_of_cons. naive_solver.
Qed.

Lemma timers_add st m e l (le : timer -> timer -> bool) j' :
  (forall j, m !! e.2 = Some j -> state j <> st) -> state j' = st ->
  timers_ok st m l -> timers_ok st (<[e.2 := j']> m) (sinsert le e l).
Proof.
  intros Hj Hs' [Hnd Hl]. assert (Hp : (sinsert le e l).*2 ≡ₚ e.2 :: l.*2) by (by rewrite sinsert_perm).
  split.
  - rewrite Hp. apply NoDup_cons. split; [|done]. rewrite Hl. naive_solver.
  - intros id'. rewrite Hp, elem_of_cons, Hl. destruct (decide (e.2 = id')) as [<-|Hne].
    + rewrite lookup_insert_eq. naive_solver.
    + rewrite lookup_insert_ne by done. naive_solver.
Qed.

#[export] Instance running_ok_Proper m : Proper ((≡ₚ) ==> iff) (running_ok m).
Proof.
  intros l l' Hp. unfold running_ok. split; intros (Hnd & Hl & Hr); split_and!.
  - by rewrite <- Hp.
  - intros e. rewrite <- Hp. apply Hl.
  - intros id j. rewrite <- Hp. apply Hr.
  - by rewrite Hp.
  - intros e. rewrite Hp. apply Hl.
  - intros id j. rewrite Hp. apply Hr.
Qed.

Lemma running_keep m l id j j' : m !! id = Some j -> is_running (state j) = false -> is_running (state j') = false ->
  running_ok m l -> running_ok (<[id := j']> m) l.
Proof.
  intros Hj Hs Hs' (Hnd & Hl & Hr). split_and!; [done| |].
  - intros e He. destruct (Hl e He) as (Hrun & j2 & Hj2 & Hst). split; [done|]. exists j2. split; [|done].
    rewrite lookup_insert_ne; [done|]. intros ->. rewrite Hj in Hj2. simplify_eq. congruence.
  - intros id' j2. destruct (decide (id = id')) as [->|]; [rewrite lookup_insert_eq|rewrite lookup_insert_ne by done].
    + intros [= <-]. congruence.
    + apply Hr.
Qed.

Lemma running_drop m l e j' : is_running (state j') = false ->
  running_ok m (e :: l) -> running_ok (<[e.2 := j']> m) l.
Proof.
  intros Hs' (Hnd & Hl & Hr). csimpl in *. apply NoDup_cons in Hnd as [Hn Hnd]. split_and!; [done| |].
  - intros e' He. destruct (Hl e' ltac:(by right)) as (Hrun & j2 & Hj2 & Hst). split; [done|].
    exists j2. split; [|done]. rewrite lookup_insert_ne; [done|]. intros Heq. apply Hn. rewrite Heq.
    by apply list_elem_of_fmap_2.
  - intros id' j2. destruct (decide (e.2 = id')) as [<-|]; [rewrite lookup_insert_eq|rewrite lookup_insert_ne by done].
    + intros [= <-]. congruence.
    + intros H1 H2. specialize (Hr _ _ H1 H2). rewrite elem_of_cons in Hr. naive_solver.
Qed.

Lemma running_add m l e j j' : m !! e.2 = Some j -> is_running (state j) = false ->
  is_running (state j') = true -> state j' = e.1.2 ->
  running_ok m l -> running_ok (<[e.2 := j']> m) (e :: l).
Proof.
  intros Hj Hs Hs' He' (Hnd & Hl & Hr).
  assert (Hn : e.2 ∉ l.*2).
  { intros (e' & Heq & He)%list_elem_of_fmap. destruct (Hl e' He) as (Hrun & j2 & Hj2 & Hst).
    rewrite <- Heq in Hj2. simplify_eq. congruence. }
  split_and!.
  - csimpl. by apply NoDup_cons.
  - intros e' [->|He]%elem_of_cons.
    + rewrite lookup_insert_eq. split; [congruence|]. by exists j'.
    + destruct (Hl e' He) as (Hrun & j2 & Hj2 & Hst). split; [done|]. exists j2. split; [|done].
      rewrite lookup_insert_ne; [done|]. intros Heq. apply Hn. rewrite Heq. by apply list_elem_of_fmap_2.
  - intros id' j2. csimpl. rewrite elem_of_cons.
    destruct (decide (e.2 = id')) as [<-|]; [by left|rewrite lookup_insert_ne by done]. right. by eapply Hr.
Qed.

Lemma running_new m l id j' : m !! id = None -> is_running (state j') = false ->
  running_ok m l -> running_ok (<[id := j']> m) l.
Proof.
  intros Hn Hs' (Hnd & Hl & Hr). split_and!; [done| |].
  - intros e He. destruct (Hl e He) as (Hrun & j2 & Hj2 & Hst). split; [done|]. exists j2. split; [|done].
    rewrite lookup_insert_ne; [done|]. intros ->. congruence.
  - intros id' j2. destruct (decide (id = id')) as [->|]; [rewrite lookup_insert_eq|rewrite lookup_insert_ne by done].
    + intros [= <-]. congruence.
    + apply Hr.
Qed.

Lemma timers_new st m l id j' : m !! id = None -> state j' <> st -> timers_ok st m l -> timers_ok st (<[id := j']> m) l.
Proof.
  intros Hn Hs' [Hnd Hl]. split; [done|]. intros id'. rewrite Hl.
  destruct (decide (id = id')) as [->|]; [rewrite lookup_insert_eq|by rewrite lookup_insert_ne]. naive_solver.
Qed.

(** A stage runs for at least one nanosecond. *)
Lemma duration_pos s b : stage_ok s -> 0 < b -> 0 < _duration s b.
Proof.
  intros [Hl Hb] Hp. unfold _duration, NANOSECONDS_PER_SECOND.
  pose proof (ceil_div_spec (b * 1000000000) _ Hb). nia.
Qed.

(** *** Measure: how many states each job has left *)

Definition rank (s : job_state) : nat :=
  match s with
  | BACKEND_RESERVED => 12 | WAIT_READY => 11 | BACKEND_READY_PENDING => 11 | MEDIA_READY => 9 | HBF_FILL => 8
  | READY_HBF => 7 | HBF_DIRECT => 6 | HBF_RELAY => 6 | READY_HBM => 5 | HBM_READY => 5 | HBM_GPU => 4 | DONE => 0
  end.

Definition work (m : gmap string job) : nat := map_fold (fun _ j n => rank (state j) + n)%nat 0%nat m.

Lemma work_insert m id j j' : m !! id = Some j ->
  (work (<[id := j']> m) + rank (state j) = work m + rank (state j'))%nat.
Proof.
  intros Hj. unfold work. rewrite <- (insert_delete_id m id j Hj) at 2. rewrite <- (insert_delete_eq m).
  rewrite !map_fold_insert_L; try (intros; lia); by rewrite lookup_delete_eq.
Qed.

Lemma work_bound m : (work m <= 12 * size m)%nat.
Proof.
  unfold work. induction m as [|id j m Hn Hfirst IH] using map_first_key_ind; [done|].
  rewrite map_fold_insert_L by (done || (intros; lia)). rewrite map_size_insert_None by done.
  assert (rank (state j) <= 12)%nat by (destruct (state j); simpl; lia). lia.
Qed.

(** *** Taking and freeing slots *)

Definition take_slots (id : string) (acq : list slot) (f : fabric) : fabric :=
  foldr (fun s => set_owner s (Some id)) f acq.
Definition free_slots (rel : list slot) (f : fabric) : fabric := foldr (fun s => set_owner s None) f rel.

(** Everything but the owners. *)
Definition same_but_owners (f g : fabric) : Prop :=
  cfg g = cfg f /\ now g = now f /\ next_sequence g = next_sequence f /\ jobs g = jobs f /\ arrivals g = arrivals f
  /\ backend_ready g = backend_ready f /\ active g = active f /\ completions g = completions f.

Lemma take_slots_same id acq f : same_but_owners f (take_slots id acq f).
Proof. induction acq as [|s acq IH]; [by repeat split|]. exact IH. Qed.

Lemma free_slots_same rel f : same_but_owners f (free_slots rel f).
Proof. induction rel as [|s rel IH]; [by repeat split|]. exact IH. Qed.

Lemma take_slots_owner id acq f s :
  owners (take_slots id acq f) !! s = if decide (s ∈ acq) then Some id else owners f !! s.
Proof.
  induction acq as [|a acq IH]; [by case_decide as H; [apply not_elem_of_nil in H|]|].
  cbn [take_slots foldr set_owner owners]. fold (take_slots id acq f).
  destruct (decide (a = s)) as [->|Hne].
  - rewrite lookup_insert_eq. by rewrite decide_True by set_solver.
  - rewrite lookup_insert_ne, IH by done. apply decide_ext. set_solver.
Qed.

Lemma free_slots_owner rel f s :
  owners (free_slots rel f) !! s = if decide (s ∈ rel) then None else owners f !! s.
Proof.
  induction rel as [|a rel IH]; [by case_decide as H; [apply not_elem_of_nil in H|]|].
  cbn [free_slots foldr set_owner owners]. fold (free_slots rel f).
  destruct (decide (a = s)) as [->|Hne].
  - rewrite lookup_delete_eq. by rewrite decide_True by set_solver.
  - rewrite lookup_delete_ne, IH by done. apply decide_ext. set_solver.
Qed.

(** The invariant when one job changes, releasing [rel] and taking [acq]. *)
Lemma base_move f f' pend pend' id j j' (rel acq : list slot) :
  base_inv f pend -> jobs f !! id = Some j -> same_job j j' -> shape_ok j' = true ->
  cfg f' = cfg f -> next_sequence f' = next_sequence f -> jobs f' = <[id := j']> (jobs f) ->
  (forall s, owners f' !! s = if decide (s ∈ acq) then Some id else if decide (s ∈ rel) then None else owners f !! s) ->
  (forall s, s ∈ acq -> owners f !! s = None) -> (forall s, s ∈ rel -> s ∈ held (cfg f) j) ->
  (forall s, s ∈ held (cfg f) j' <-> s ∈ acq \/ s ∈ held (cfg f) j /\ s ∉ rel) ->
  timers_ok WAIT_READY (jobs f') (arrivals f') ->
  timers_ok BACKEND_READY_PENDING (jobs f') (backend_ready f') ->
  running_ok (jobs f') (pend' ++ active f') ->
  base_inv f' pend'.
Proof.
  intros Hi Hj Hsame Hshape Hcfg Hseq Hjobs Hown Hfree Hrel Hheld Ha Hb Hr. constructor; try done.
  - rewrite Hcfg. apply Hi.
  - intros id' j2. rewrite Hjobs. destruct (decide (id = id')) as [<-|Hne].
    + rewrite lookup_insert_eq. intros [= <-].
      eapply same_job_ok; [apply (bi_jobs _ _ Hi _ _ Hj)|done..|lia].
    + rewrite lookup_insert_ne by done. intros Hj2.
      eapply same_job_ok; [apply (bi_jobs _ _ Hi _ _ Hj2)| | |done|lia].
      * by repeat split.
      * apply (jo_shape _ _ _ (bi_jobs _ _ Hi _ _ Hj2)).
  - eapply own_update; [apply Hi|exact Hj|done|done| | | |].
    + intros s Hs. rewrite Hown. apply Hheld in Hs. case_decide; [done|].
      destruct Hs as [?|[Hs Hns]]; [done|]. rewrite decide_False by done. apply (bi_own _ _ Hi). eauto.
    + intros s Hs Hsj. rewrite Hown. rewrite Hheld in Hs. rewrite decide_False by tauto.
      destruct (decide (s ∈ rel)); tauto.
    + intros s Hs Hsj. rewrite Hown. rewrite Hheld in Hs. rewrite decide_False by tauto.
      rewrite decide_False by (intros ?%Hrel; tauto). done.
    + intros s Hs Hsj. apply Hfree. apply Hheld in Hs. tauto.
Qed.

(** *** The log of completions *)

(** A job in the heaps is due at its ready time; a job past them is ready. *)
Definition ready_ok (f : fabric) (id : string) (j : job) : Prop :=
  match state j with
  | BACKEND_RESERVED => True
  | WAIT_READY => exists e, e ∈ arrivals f /\ e.2 = id /\ ready_ns j = Some e.1.1
  | BACKEND_READY_PENDING => exists e, e ∈ backend_ready f /\ e.2 = id /\ ready_ns j = Some e.1.1
  | _ => exists r, ready_ns j = Some r /\ r <= now f
  end.

(** Nothing completes before it is ready. *)
Record timely (f : fabric) : Prop := {
  tm_jobs : forall id j, jobs f !! id = Some j -> ready_ok f id j;
  tm_log : forall c, c ∈ completions f -> exists r, c_ready_ns c = Some r /\ r <= completion_ns c }.

(** What the passage of time keeps: a reserved job and a ready time are as they
    were, and the log grows by exactly the jobs that become done. *)
Record history (f f' : fabric) : Prop := {
  hy_now : now f <= now f';
  hy_dom : forall id, is_Some (jobs f' !! id) <-> is_Some (jobs f !! id);
  hy_job : forall id j, jobs f !! id = Some j -> exists j', jobs f' !! id = Some j' /\ ready_ns j' = ready_ns j
    /\ (state j = BACKEND_RESERVED -> j' = j) /\ (state j' = BACKEND_RESERVED -> j' = j) /\ (state j = DONE -> j' = j);
  hy_log : exists log, completions f' = completions f ++ log /\ NoDup (c_request_id <$> log)
    /\ (forall c, c ∈ log -> now f <= completion_ns c <= now f')
    /\ (forall id, id ∈ c_request_id <$> log <->
          exists j j', jobs f !! id = Some j /\ state j <> DONE /\ jobs f' !! id = Some j' /\ state j' = DONE)
    /\ (forall c j, c ∈ log -> jobs f !! c_request_id c = Some j -> c_ready_ns c = ready_ns j);
  hy_timely : timely f -> timely f' }.

(** Nothing happened but, perhaps, the passage of time. *)
Lemma history_wait f f' : now f <= now f' -> jobs f' = jobs f -> completions f' = completions f ->
  arrivals f' = arrivals f -> backend_ready f' = backend_ready f -> history f f'.
Proof.
  intros En Ej Ec Ea Eb. constructor; rewrite ?Ej, ?Ec; [lia|done|intros id j Hj; exists j; auto| |].
  - exists []. rewrite app_nil_r. split_and!; try done; [constructor|intros c Hc; by apply not_elem_of_nil in Hc| |
      intros c j Hc; by apply not_elem_of_nil in Hc].
    intros id. split; [by intros ?%not_elem_of_nil|]. intros (j & j' & Hj & Hs & Hj' & Hs'). congruence.
  - intros [H1 H2]. constructor; rewrite ?Ej, ?Ec; [|done]. intros id j Hj. specialize (H1 _ _ Hj).
    unfold ready_ok in *. rewrite Ea, Eb. destruct (state j); try done; destruct H1 as (r & Hr & Hle); exists r; (split; [done|lia]).
Qed.

Lemma history_trans f g h : history f g -> history g h -> history f h.
Proof.
  intros [N1 O1 J1 (l1 & E1 & D1 & T1 & I1 & R1) M1] [N2 O2 J2 (l2 & E2 & D2 & T2 & I2 & R2) M2].
  constructor; [lia|intros id; by rewrite O2, O1| | |auto].
  - intros id j Hj. destruct (J1 _ _ Hj) as (j1 & Hj1 & Hr1 & Ha1 & Hb1 & Hc1).
    destruct (J2 _ _ Hj1) as (j2 & Hj2 & Hr2 & Ha2 & Hb2 & Hc2). exists j2. split; [done|]. split; [congruence|]. split_and!.
    + intros Hs. rewrite (Ha1 Hs) in Ha2. auto.
    + intros Hs. pose proof (Hb2 Hs) as ->. auto.
    + intros Hs. rewrite (Hc1 Hs) in Hc2. auto.
  - exists (l1 ++ l2). assert (Hdis : forall id, id ∈ c_request_id <$> l1 -> id ∉ c_request_id <$> l2).
    { intros id (j & j1 & _ & _ & Hj1 & Hs1)%I1 (j1' & _ & Hj1' & Hs1' & _)%I2. congruence. }
    split; [by rewrite E2, E1, app_assoc|]. split.
    { rewrite fmap_app. apply NoDup_app. by split_and!. }
    split; [intros c [Hc|Hc]%elem_of_app; [specialize (T1 _ Hc)|specialize (T2 _ Hc)]; lia|]. split.
    + intros id. rewrite fmap_app, elem_of_app, I1, I2. split.
      * intros [(j & j1 & Hj & Hs & Hj1 & Hs1)|(j1 & j2 & Hj1 & Hs1 & Hj2 & Hs2)].
        -- destruct (J2 _ _ Hj1) as (j2 & Hj2 & _ & _ & _ & Hd). exists j, j2. rewrite (Hd Hs1) in *. done.
        -- destruct (proj1 (O1 id) (mk_is_Some _ _ Hj1)) as [j Hj]. exists j, j2. split_and!; try done. intros Hd.
           destruct (J1 _ _ Hj) as (j1' & Hj1' & _ & _ & _ & Hk). rewrite (Hk Hd) in Hj1'. congruence.
      * intros (j & j2 & Hj & Hs & Hj2 & Hs2). destruct (J1 _ _ Hj) as (j1 & Hj1 & _).
        destruct (decide (state j1 = DONE)); [left|right]; eauto 10.
    + intros c j [Hc|Hc]%elem_of_app Hj; [by apply (R1 c j)|]. destruct (J1 _ _ Hj) as (j1 & Hj1 & Hr1 & _).
      rewrite <- Hr1. by apply R2.
Qed.

(** One job moves on, and is logged when it is done. *)
Lemma history_move f f' id j j' log :
  jobs f !! id = Some j -> jobs f' = <[id := j']> (jobs f) -> now f' = now f -> completions f' = completions f ++ log ->
  ready_ns j' = ready_ns j -> state j <> BACKEND_RESERVED -> state j' <> BACKEND_RESERVED -> state j <> DONE ->
  state j' <> WAIT_READY -> state j' <> BACKEND_READY_PENDING ->
  match log with
  | [] => state j' <> DONE
  | [c] => state j' = DONE /\ c_request_id c = id /\ completion_ns c = now f /\ c_ready_ns c = ready_ns j
  | _ => False
  end ->
  (forall e, e ∈ arrivals f -> e.2 <> id -> e ∈ arrivals f') ->
  (forall e, e ∈ backend_ready f -> e.2 <> id -> e ∈ backend_ready f') ->
  (state j = WAIT_READY -> forall e, e ∈ arrivals f -> e.2 = id -> e.1.1 <= now f) ->
  (state j = BACKEND_READY_PENDING -> forall e, e ∈ backend_ready f -> e.2 = id -> e.1.1 <= now f) ->
  history f f'.
Proof.
  intros Hj Ej En Ec Er Hs Hs' Hd Hw Hp Hlog Ha Hb Hda Hdb.
  assert (Hready : timely f -> exists r, ready_ns j = Some r /\ r <= now f).
  { intros [Ht _]. specialize (Ht _ _ Hj). unfold ready_ok in Ht. destruct (state j); try done;
      destruct Ht as (e & He & Hid & Hr); exists e.1.1; auto. }
  constructor; [lia| | | |].
  - intros id'. rewrite Ej. destruct (decide (id = id')) as [<-|]; [rewrite lookup_insert_eq, Hj; split; eauto|].
    by rewrite lookup_insert_ne.
  - intros id' j0 Hj0. rewrite Ej. destruct (decide (id = id')) as [<-|Hne].
    + rewrite lookup_insert_eq. exists j'. assert (j0 = j) as -> by congruence. split_and!; done.
    + rewrite lookup_insert_ne by done. exists j0. auto.
  - exists log. split; [done|]. destruct log as [|c [|]]; [| |done].
    + split_and!; [constructor|intros c Hc; by apply not_elem_of_nil in Hc| |intros c j0 Hc; by apply not_elem_of_nil in Hc].
      intros id'. split; [by intros ?%not_elem_of_nil|]. intros (j0 & j1 & Hj0 & Hn0 & Hj1 & Hn1). rewrite Ej in Hj1.
      destruct (decide (id = id')) as [<-|]; [rewrite lookup_insert_eq in Hj1|rewrite lookup_insert_ne in Hj1 by done]; congruence.
    + destruct Hlog as (Hd' & Hid & Hc & Hr). split_and!; [apply NoDup_singleton| | |].
      * intros c0 ->%list_elem_of_singleton. lia.
      * intros id'. cbn. rewrite list_elem_of_singleton, Hid, Ej. split.
        -- intros ->. exists j, j'. by rewrite lookup_insert_eq.
        -- intros (j0 & j1 & Hj0 & Hn0 & Hj1 & Hn1). destruct (decide (id = id')) as [<-|]; [done|].
           rewrite lookup_insert_ne in Hj1 by done. congruence.
      * intros c0 j0 ->%list_elem_of_singleton. rewrite Hid. congruence.
  - intros Ht. destruct (Hready Ht) as (r & Hr & Hle). destruct Ht as [Ht1 Ht2]. constructor.
    + intros id' j0. rewrite Ej. destruct (decide (id = id')) as [<-|Hne].
      * rewrite lookup_insert_eq. intros [= <-]. unfold ready_ok. destruct (state j'); try done; exists r; rewrite Er, En; auto.
      * rewrite lookup_insert_ne by done. intros Hj0. specialize (Ht1 _ _ Hj0). unfold ready_ok in *. rewrite En.
        destruct (state j0); try done; destruct Ht1 as (e & He & Hid & Hr0); exists e; (split; [|done]);
          (first [apply Ha|apply Hb]; [done|congruence]).
    + intros c. rewrite Ec. intros [Hc|Hc]%elem_of_app; [by apply Ht2|]. destruct log as [|c0 [|]]; [by apply not_elem_of_nil in Hc| |done].
      apply list_elem_of_singleton in Hc as ->. destruct Hlog as (_ & _ & Hc & Hr'). exists r. rewrite Hr', Hc. done.
Qed.

(** [f'] comes from [f] by starting stages only: slots are only taken, and a
    job that is not running is as it was. *)
Record starts (f f' : fabric) : Prop := {
  st_cfg : cfg f' = cfg f; st_now : now f' = now f;
  st_own : forall s, is_Some (owners f !! s) -> is_Some (owners f' !! s);
  st_jobs : forall id j, jobs f' !! id = Some j -> is_running (state j) = false -> jobs f !! id = Some j;
  st_dom : forall id, is_Some (jobs f' !! id) <-> is_Some (jobs f !! id);
  st_arr : arrivals f' = arrivals f; st_back : backend_ready f' = backend_ready f;
  st_work : (work (jobs f') <= work (jobs f))%nat;
  st_history : history f f' }.

Lemma starts_refl f : starts f f.
Proof. constructor; try done. by apply history_wait. Qed.

Lemma starts_trans f g h : starts f g -> starts g h -> starts f h.
Proof.
  intros [] []. constructor; try congruence; eauto; [|lia|by eapply history_trans].
  intros id. by rewrite st_dom1, st_dom0.
Qed.

Lemma timer_le_total a b : timer_le a b = true \/ timer_le b a = true.
Proof. apply (bo_total (le := lex zle zle)). Qed.
Lemma timer_le_trans a b c : timer_le a b = true -> timer_le b c = true -> timer_le a c = true.
Proof. apply (bo_trans (le := lex zle zle)). Qed.
Lemma running_le_total a b : running_le a b = true \/ running_le b a = true.
Proof. apply (bo_total (le := lex zle zle)). Qed.
Lemma running_le_trans a b c : running_le a b = true -> running_le b c = true -> running_le a c = true.
Proof. apply (bo_trans (le := lex zle zle)). Qed.

(** Starting a stage on slots [acq]. *)
Lemma start_inv f pend j j1 st s res hb mb (acq : list slot) :
  base_inv f pend -> time_inv f -> jobs f !! request_id j = Some j -> is_running (state j) = false ->
  state j <> WAIT_READY -> state j <> BACKEND_READY_PENDING -> state j <> BACKEND_RESERVED -> is_running st = true ->
  (rank st < rank (state j))%nat -> same_job j j1 -> ready_ns j1 = ready_ns j -> shape_ok (with_state st j1) = true -> stage_ok s ->
  (forall sl, sl ∈ acq -> owners f !! sl = None) ->
  (forall sl, sl ∈ held (cfg f) (with_state st j1) <-> sl ∈ acq \/ sl ∈ held (cfg f) j) ->
  exists f', _start j1 st s res hb mb (take_slots (request_id j) acq f) = (Ok tt, f')
    /\ base_inv f' pend /\ time_inv f' /\ starts f f'
    /\ (forall sl, sl ∈ acq -> is_Some (owners f' !! sl))
    /\ jobs f' = <[request_id j := with_state st j1]> (jobs f).
Proof.
  intros Hi Ht Hj Hnr Hw Hb Hres Hrun Hrank Hsame Hready Hshape Hs Hfree Hheld.
  destruct (take_slots_same (request_id j) acq f) as (E1 & E2 & E3 & E4 & E5 & E6 & E7 & E8).
  pose proof Hsame as (Eid & _ & _ & _ & Ebytes & Eseq).
  eexists. split.
  { unfold _start, modify, add_event, set_active, set_jobs. simpl.
    rewrite E1, E2, E3, E4, E5, E6, E7, E8, Eid, Ebytes. reflexivity. }
  assert (Hpos : 0 < _duration s (bytes j)).
  { apply duration_pos; [done|]. apply (jo_bytes _ _ _ (bi_jobs _ _ Hi _ _ Hj)). }
  set (e := (now f + _duration s (bytes j), sequence j1, st, request_id j) : running).
  split_and!.
  - eapply (base_move f _ pend pend _ j (with_state st j1) [] acq); simpl; try done.
    + intros sl. by rewrite take_slots_owner.
    + set_solver.
    + intros sl. rewrite Hheld. set_solver.
    + eapply timers_keep; [done|done| |apply Hi]. by intros E; simpl in E; subst st.
    + eapply timers_keep; [done|done| |apply Hi]. by intros E; simpl in E; subst st.
    + rewrite sinsert_perm, <- Permutation_middle.
      apply (running_add (jobs f) (pend ++ active f) e j (with_state st j1)); try done. apply Hi.
  - destruct Ht as [Hsa Hsb Hsr Hta Htb Htr]. constructor; simpl; try done.
    + apply sinsert_sorted; [apply running_le_total|apply running_le_trans|done].
    + rewrite Forall_forall. intros e' [->|He]%sinsert_elem; [simpl; lia|].
      rewrite Forall_forall in Htr. auto.
  - constructor; simpl; try done.
    + intros sl Hsl. rewrite take_slots_owner. case_decide; eauto.
    + intros id j2. destruct (decide (request_id j = id)) as [<-|Hne]; [|by rewrite lookup_insert_ne].
      rewrite lookup_insert_eq. intros [= <-]. simpl. congruence.
    + intros id. destruct (decide (request_id j = id)) as [<-|Hne]; [|by rewrite lookup_insert_ne].
      rewrite lookup_insert_eq, Hj. split; eauto.
    + pose proof (work_insert (jobs f) _ _ (with_state st j1) Hj). simpl in *. lia.
    + eapply (history_move f _ (request_id j) j (with_state st j1) []); simpl; try done; try (by destruct st).
      { by rewrite app_nil_r. }
      intros Hd. rewrite Hd in Hrank. simpl in Hrank. lia.
  - intros sl Hsl. cbn [owners]. rewrite take_slots_owner, decide_True by done. eauto.
  - done.
Qed.

(** *** Completing a stage *)

(** [f'] comes from [f] by events of the current instant that are not starts. *)
Record settles (f f' : fabric) : Prop := {
  se_cfg : cfg f' = cfg f; se_now : now f' = now f; se_active : active f' = active f;
  se_dom : forall id, is_Some (jobs f' !! id) <-> is_Some (jobs f !! id);
  se_reserved : forall id j, jobs f' !! id = Some j -> state j = BACKEND_RESERVED -> jobs f !! id = Some j;
  se_work : (work (jobs f') <= work (jobs f))%nat;
  se_history : history f f' }.

Lemma settles_refl f : settles f f.
Proof. constructor; try done. by apply history_wait. Qed.

Lemma settles_trans f g h : settles f g -> settles g h -> settles f h.
Proof.
  intros [] []. constructor; try congruence; [|eauto|lia|by eapply history_trans].
  intros id. by rewrite se_dom1, se_dom0.
Qed.

Lemma insert_reserved (m : gmap string job) id j j' id' j2 :
  (rank (state j') < rank (state j))%nat -> <[id := j']> m !! id' = Some j2 -> state j2 = BACKEND_RESERVED ->
  m !! id' = Some j2.
Proof.
  intros Hr. destruct (decide (id = id')) as [<-|]; [|by rewrite lookup_insert_ne].
  rewrite lookup_insert_eq. intros [= <-] E. rewrite E in Hr. destruct (state j); simpl in Hr; lia.
Qed.

Lemma insert_dom (m : gmap string job) id j j' id' :
  m !! id = Some j -> is_Some (<[id := j']> m !! id') <-> is_Some (m !! id').
Proof.
  intros Hj. destruct (decide (id = id')) as [<-|]; [|by rewrite lookup_insert_ne].
  rewrite lookup_insert_eq, Hj. split; eauto.
Qed.

(** A stage taken off the heap completes: its job moves to [j'], freeing [rel]. *)
Lemma release_inv f pend e j j' rel log f' :
  base_inv f (e :: pend) -> time_inv f -> jobs f !! e.2 = Some j -> is_running (state j) = true ->
  same_job j j' -> shape_ok j' = true ->
  is_running (state j') = false -> state j' <> WAIT_READY -> state j' <> BACKEND_READY_PENDING ->
  (rank (state j') < rank (state j))%nat -> ready_ns j' = ready_ns j -> completions f' = completions f ++ log ->
  match log with
  | [] => state j' <> DONE
  | [c] => state j' = DONE /\ c_request_id c = e.2 /\ completion_ns c = now f /\ c_ready_ns c = ready_ns j
  | _ => False
  end ->
  (forall s, s ∈ rel -> s ∈ held (cfg f) j) ->
  (forall s, s ∈ held (cfg f) j' <-> s ∈ held (cfg f) j /\ s ∉ rel) ->
  cfg f' = cfg f -> now f' = now f -> next_sequence f' = next_sequence f -> arrivals f' = arrivals f ->
  backend_ready f' = backend_ready f -> active f' = active f -> jobs f' = <[e.2 := j']> (jobs f) ->
  owners f' = owners (free_slots rel f) ->
  base_inv f' pend /\ time_inv f' /\ settles f f' /\ arrivals f' = arrivals f /\ backend_ready f' = backend_ready f
  /\ (work (jobs f') < work (jobs f))%nat.
Proof.
  intros Hi Ht Hj Hrun Hsame Hshape Hnr Hw Hb Hrank Hready Hcomp Hlog Hrel Hheld Hcfg Hnow Hseq Harr Hbk Hact Hjobs Hown.
  assert (Hne : state j <> WAIT_READY /\ state j <> BACKEND_READY_PENDING) by (by destruct (state j)).
  assert (Hwork : (work (jobs f') < work (jobs f))%nat).
  { rewrite Hjobs. pose proof (work_insert (jobs f) _ _ j' Hj). lia. }
  split_and!; try done.
  - eapply (base_move f f' (e :: pend) pend _ j j' rel []); try done.
    + intros s. rewrite Hown, free_slots_owner.
      by destruct (decide (s ∈ @nil slot)) as [E|_]; [apply not_elem_of_nil in E|].
    + intros s E. by apply not_elem_of_nil in E.
    + intros s. rewrite Hheld. set_solver.
    + rewrite Hjobs, Harr. eapply timers_keep; [done|tauto|done|apply Hi].
    + rewrite Hjobs, Hbk. eapply timers_keep; [done|tauto|done|apply Hi].
    + rewrite Hjobs, Hact. apply running_drop; [done|]. apply Hi.
  - destruct Ht. constructor; by rewrite ?Harr, ?Hbk, ?Hact, ?Hnow.
  - constructor; try done; [| |lia|].
    + intros id. rewrite Hjobs. by eapply insert_dom.
    + intros id j2. rewrite Hjobs. by eapply insert_reserved.
    + eapply (history_move f f' e.2 j j' log); try done; rewrite ?Harr, ?Hbk; try done; try tauto.
      * by destruct (state j).
      * intros E. rewrite E in Hrank. destruct (state j); simpl in Hrank; lia.
      * by destruct (state j).
Qed.

(** Compute a state action on a known job. *)
Ltac run_action :=
  unfold sbind, get, lift, modify, put_job, put, sret, _finish, bank_index, of_option, require, ensure;
  repeat first
    [ progress cbn beta iota zeta delta [set_owner set_jobs add_event add_completion set_active set_now jobs
        source_stack request_id kind hbf_bank hbm_bank state bytes now cfg owners with_state with_hbf_bank
        with_hbm_bank fst snd]
    | match goal with H : ?x = _ |- context [match ?x with _ => _ end] => rewrite H end ].

(** Use what is known of a job's state, kind and banks. *)
Ltac job_facts :=
  repeat match goal with
  | H : state ?j = _ |- context [state ?j] => rewrite H
  | H : kind ?j = _ |- context [kind ?j] => rewrite H
  | H : hbf_bank ?j = _ |- context [hbf_bank ?j] => rewrite H
  | H : hbm_bank ?j = _ |- context [hbm_bank ?j] => rewrite H
  | H : job_route ?j = _ |- context [job_route ?j] => rewrite H
  | H : dget _ (source_stack ?j) = Some _ |- context [dget _ (source_stack ?j)] => rewrite H
  | H : pair ?r = _ |- context [pair ?r] => rewrite H
  end.

(** The slots of a job whose state and banks are known. *)
Ltac held_tac :=
  intros ?; unfold held, bank_slots, link_slot, hbm_of;
  cbn [state kind hbf_bank hbm_bank source_stack with_state with_hbf_bank with_hbm_bank with_ready];
  job_facts; csimpl; job_facts; csimpl; job_facts; clear; set_solver.

(** The side conditions of a move of a job with known state and banks. *)
Ltac move_tac :=
  repeat match goal with H : request_id _ = _ |- _ => progress rewrite ?H end;
  first
    [ done
    | by rewrite app_nil_r
    | by job_facts
    | job_facts; simpl; lia
    | unfold shape_ok; simpl; job_facts; rewrite ?bool_decide_eq_true_2 by done; done
    | held_tac ].

(** The log entry of a job that is done now. *)
Definition done_entry (f : fabric) (id : string) (j : job) : completion :=
  {| c_request_id := id; c_source_stack := source_stack j; c_route := job_route j; c_bytes := bytes j;
     c_ready_ns := ready_ns j; completion_ns := now f |}.

Lemma complete_inv f pend e :
  base_inv f (e :: pend) -> time_inv f ->
  exists f', _complete e.1.2 e.2 f = (Ok tt, f') /\ base_inv f' pend /\ time_inv f' /\ settles f f'
    /\ arrivals f' = arrivals f /\ backend_ready f' = backend_ready f /\ (work (jobs f') < work (jobs f))%nat.
Proof.
  intros Hi Ht. destruct (bi_running _ _ Hi) as (_ & Hrun & _).
  destruct (Hrun e ltac:(set_solver)) as (He & j & Hj & Hst).
  destruct (bi_jobs _ _ Hi _ _ Hj) as [Hid _ _ Hsrc Hshape].
  destruct e as [[[t sq] st] id]. simpl in *. subst st. unfold shape_ok in Hshape. unfold source_ok in Hsrc.
  unfold _complete.
  destruct (state j) eqn:Est; try done;
    destruct (kind j) eqn:Ek, (hbf_bank j) as [b|] eqn:Eb, (hbm_bank j) as [m|] eqn:Em; try done.
  - eexists. split; [run_action; reflexivity|].
    eapply (release_inv f pend _ j (with_state READY_HBF j) [HbfFill (source_stack j)] []); simpl; try done; move_tac.
  - eexists. split; [run_action; reflexivity|].
    eapply (release_inv f pend _ j (with_state DONE (with_hbf_bank None j))
      [HbfBank (source_stack j) b; HbfDirect (source_stack j)] [done_entry f id j]); simpl; try done; move_tac.
  - destruct Hsrc as (row & Hrow & Hpair). apply bool_decide_eq_true in Hshape.
    destruct (Hpair Hshape) as [p Hp]. eexists. split; [run_action; reflexivity|].
    eapply (release_inv f pend _ j (with_state READY_HBM (with_hbf_bank None j))
      [HbfBank (source_stack j) b; HbfRelay (source_stack j)] []); simpl; try done; move_tac.
  - destruct Hsrc as (row & Hrow & Hpair). apply bool_decide_eq_true in Hshape.
    destruct (Hpair Hshape) as [p Hp].
    assert (Hg : gpu_stack (cfg f) j = Ok p) by (unfold gpu_stack, dindex; rewrite Ek, Hrow; simpl; by rewrite Hp).
    assert (Ho : hbm_of (cfg f) j = Some p) by (unfold hbm_of; rewrite Ek, Hrow; done).
    eexists. split; [run_action; reflexivity|].
    eapply (release_inv f pend _ j (with_state DONE (with_hbm_bank None j)) [HbmBank p m; HbmGpu p] [done_entry f id j]);
      simpl; try done; move_tac.
  - assert (Hg : gpu_stack (cfg f) j = Ok (source_stack j)) by (unfold gpu_stack; by rewrite Ek).
    eexists. split; [run_action; reflexivity|].
    eapply (release_inv f pend _ j (with_state DONE (with_hbm_bank None j))
      [HbmBank (source_stack j) m; HbmGpu (source_stack j)] [done_entry f id j]); simpl; try done; move_tac.
  - assert (Hg : gpu_stack (cfg f) j = Ok (source_stack j)) by (unfold gpu_stack; by rewrite Ek).
    eexists. split; [run_action; reflexivity|].
    eapply (release_inv f pend _ j (with_state DONE j) [HbmGpu (source_stack j)] [done_entry f id j]); simpl; try done; move_tac.
Qed.

(** *** Admission *)

Lemma free_bank_None f mk n :
  _free_bank f mk n = None <-> forall i, (i < Z.to_nat n)%nat -> is_Some (owners f !! mk i).
Proof.
  unfold _free_bank. rewrite head_None. split.
  - intros Hf i Hi. destruct (owners f !! mk i) eqn:E; [done|]. exfalso.
    assert (Hin : i ∈ filter (fun i => owners f !! mk i = None) (seq 0 (Z.to_nat n))).
    { apply list_elem_of_filter. split; [done|]. apply elem_of_seq. lia. }
    rewrite Hf in Hin. by apply not_elem_of_nil in Hin.
  - intros Hall. destruct (filter _ _) as [|i l] eqn:E; [done|]. exfalso.
    assert (Hin : i ∈ filter (fun i => owners f !! mk i = None) (seq 0 (Z.to_nat n))) by (rewrite E; set_solver).
    apply list_elem_of_filter in Hin as [Hi [_ Hlt]%elem_of_seq]. destruct (Hall i ltac:(lia)) as [? ?]. congruence.
Qed.

Lemma free_bank_Some f mk n i : _free_bank f mk n = Some i -> owners f !! mk i = None /\ (i < Z.to_nat n)%nat.
Proof.
  unfold _free_bank. intros (l & E)%head_Some.
  assert (Hin : i ∈ filter (fun i => owners f !! mk i = None) (seq 0 (Z.to_nat n))) by (rewrite E; set_solver).
  apply list_elem_of_filter in Hin as [Hi [_ Hlt]%elem_of_seq]. split; [done|lia].
Qed.

Lemma find_job_spec f test ids :
  match find_job f test ids with
  | Some j => exists id, id ∈ ids /\ jobs f !! id = Some j /\ test j = true
  | None => forall id j, id ∈ ids -> jobs f !! id = Some j -> test j = false
  end.
Proof.
  induction ids as [|id ids IH]; simpl; [intros id j Hin; by apply not_elem_of_nil in Hin|].
  destruct (jobs f !! id) as [j|] eqn:Ej; [destruct (test j) eqn:Et|].
  - exists id. set_solver.
  - destruct (find_job f test ids); [destruct IH as (id' & ? & ?); exists id'; set_solver|].
    intros id' j' [->|Hin]%elem_of_cons Hj'; [congruence|eauto].
  - destruct (find_job f test ids); [destruct IH as (id' & ? & ?); exists id'; set_solver|].
    intros id' j' [->|Hin]%elem_of_cons Hj'; [congruence|eauto].
Qed.

(** No job that could start is waiting for the fill of a stack, ... *)
Definition fill_sat (f : fabric) (stack : string) (row : hbf_config) : Prop :=
  is_Some (owners f !! HbfFill stack) \/ _free_bank f (HbfBank stack) (hbf_bank_count row) = None
  \/ forall id j, jobs f !! id = Some j -> source_stack j = stack -> state j <> MEDIA_READY.

(** ... for a link out of its HBF stack, ... *)
Definition link_sat (f : fabric) (id : string) : Prop :=
  forall j, jobs f !! id = Some j -> state j = READY_HBF ->
  match job_route j with
  | Direct => is_Some (owners f !! HbfDirect (source_stack j))
  | Relay => is_Some (owners f !! HbfRelay (source_stack j)) \/
      exists p peer, hbm_of (cfg f) j = Some p /\ dget (cfg_hbm (cfg f)) p = Some peer
        /\ _free_bank f (HbmBank p) (hbm_bank_count peer) = None
  end.

(** ... or for the GPU link of an HBM stack. *)
Definition gpu_sat (f : fabric) (stack : string) : Prop :=
  is_Some (owners f !! HbmGpu stack)
  \/ forall id j, jobs f !! id = Some j -> gpu_candidate (cfg f) stack j = false.

(** States in which a job waits for a slot. *)
Definition is_waiting (s : job_state) : bool :=
  match s with MEDIA_READY | READY_HBF | READY_HBM | HBM_READY => true | _ => false end.

(** Slots are only taken and no job newly waits: all of it is kept. *)
Record keeps (f g : fabric) : Prop := {
  ke_cfg : cfg g = cfg f;
  ke_own : forall s, is_Some (owners f !! s) -> is_Some (owners g !! s);
  ke_jobs : forall id j, jobs g !! id = Some j -> is_waiting (state j) = true -> jobs f !! id = Some j }.

Lemma starts_keeps f g : starts f g -> keeps f g.
Proof.
  intros Hs. constructor; [apply Hs|apply Hs|]. intros id j Hj Hw. apply (st_jobs _ _ Hs); [done|].
  by destruct (state j).
Qed.

Lemma free_bank_mono f g mk n : keeps f g -> _free_bank f mk n = None -> _free_bank g mk n = None.
Proof. intros Hs. rewrite !free_bank_None. intros H i Hi. by apply (ke_own _ _ Hs), H. Qed.

Lemma fill_sat_mono f g stack row : keeps f g -> fill_sat f stack row -> fill_sat g stack row.
Proof.
  intros Hs [H|[H|H]]; [left; by apply (ke_own _ _ Hs)|right; left; by eapply free_bank_mono|].
  right. right. intros id j Hj Hst E. eapply H; [|exact Hst|exact E]. apply (ke_jobs _ _ Hs); [done|]. by rewrite E.
Qed.

Lemma link_sat_mono f g id : keeps f g -> link_sat f id -> link_sat g id.
Proof.
  intros Hs H j Hj Hst. specialize (H j). rewrite (ke_cfg _ _ Hs).
  specialize (H ltac:(apply (ke_jobs _ _ Hs); [done|by rewrite Hst]) Hst).
  destruct (job_route j); [by apply (ke_own _ _ Hs)|].
  destruct H as [H|(p & peer & H1 & H2 & H3)]; [left; by apply (ke_own _ _ Hs)|].
  right. exists p, peer. split_and!; try done. by eapply free_bank_mono.
Qed.

Lemma gpu_candidate_waits c stack j : gpu_candidate c stack j = true -> is_waiting (state j) = true.
Proof.
  unfold gpu_candidate. destruct (kind j); intros [_ Hs]%andb_prop; apply bool_decide_eq_true in Hs; by rewrite Hs.
Qed.

Lemma gpu_sat_mono f g stack : keeps f g -> gpu_sat f stack -> gpu_sat g stack.
Proof.
  intros Hs [H|H]; [left; by apply (ke_own _ _ Hs)|]. right. intros id j Hj. rewrite (ke_cfg _ _ Hs).
  destruct (gpu_candidate (cfg f) stack j) eqn:E; [|done]. rewrite <- E.
  apply (H id). apply (ke_jobs _ _ Hs); [done|]. by eapply gpu_candidate_waits.
Qed.

Lemma waiting_elem f pend id : base_inv f pend -> id ∈ waiting f <-> is_Some (jobs f !! id).
Proof.
  intros Hi. unfold waiting. rewrite list_elem_of_fmap. split.
  - intros (j & -> & Hj). rewrite isort_elem, list_elem_of_fmap in Hj.
    destruct Hj as ([id' j'] & -> & Hj%elem_of_map_to_list). simpl.
    rewrite (jo_id _ _ _ (bi_jobs _ _ Hi _ _ Hj)). eauto.
  - intros [j Hj]. exists j. split; [by rewrite (jo_id _ _ _ (bi_jobs _ _ Hi _ _ Hj))|].
    rewrite isort_elem, list_elem_of_fmap. exists (id, j). split; [done|]. by apply elem_of_map_to_list.
Qed.

(** What a loop of [_admit] preserves. *)
Record admit_inv (f0 f : fabric) : Prop := {
  ai_base : base_inv f []; ai_time : time_inv f; ai_starts : starts f0 f }.

Lemma admit_fill_inv f0 f stack row :
  admit_inv f0 f -> base_inv f0 [] -> dget (cfg_hbf (cfg f)) stack = Some row ->
  exists f', admit_fill (waiting f0) (stack, row) f = (Ok tt, f') /\ admit_inv f0 f' /\ starts f f'
    /\ fill_sat f' stack row.
Proof.
  intros Ha Hi0 Hrow. pose proof (ai_base _ _ Ha) as Hi. unfold admit_fill.
  erewrite sbind_step by reflexivity.
  destruct (owners f !! HbfFill stack) as [o|] eqn:Efill.
  { exists f. split_and!; [done|done|apply starts_refl|left; eauto]. }
  destruct (_free_bank f (HbfBank stack) (hbf_bank_count row)) as [bank|] eqn:Ebank.
  2:{ exists f. split_and!; [done|done|apply starts_refl|right; by left]. }
  set (test := fun j : job => String.eqb (source_stack j) stack && bool_decide (state j = MEDIA_READY)).
  pose proof (find_job_spec f test (waiting f0)) as Hfind. destruct (find_job f test (waiting f0)) as [j|].
  - destruct Hfind as (id & _ & Hj & [Hsrc Hst]%andb_prop). apply String.eqb_eq in Hsrc.
    apply bool_decide_eq_true in Hst. pose proof (bi_jobs _ _ Hi _ _ Hj) as [Hid _ _ Hs Hshape].
    destruct (free_bank_Some _ _ _ _ Ebank) as [Hfree _].
    unfold shape_ok in Hshape. rewrite Hst in Hshape.
    destruct (kind j) eqn:Ek, (hbf_bank j) as [b|] eqn:Eb, (hbm_bank j) as [m|] eqn:Em; try done.
    destruct (start_inv f [] j (with_hbf_bank (Some bank) j) HBF_FILL (fill row) (stack +:+ ":fill") (Some bank) None
                [HbfBank stack bank; HbfFill stack]) as (f' & Hf' & Hi' & Ht' & Hst' & Hacq & _).
    all: try done.
    + apply Ha.
    + by rewrite Hid.
    + by rewrite Hst.
    + by rewrite Hst.
    + by rewrite Hst.
    + by rewrite Hst.
    + rewrite Hst. simpl. lia.
    + unfold shape_ok. simpl. by rewrite Ek, Em.
    + by destruct (co_hbf _ (bi_cfg _ _ Hi) _ _ Hrow).
    + set_solver.
    + subst stack. held_tac.
    + exists f'. split; [exact Hf'|]. split_and!; [|done|left; apply Hacq; set_solver].
      constructor; [done..|]. eapply starts_trans; [apply Ha|done].
  - exists f. split_and!; [done|done|apply starts_refl|]. right. right. intros id j Hj Hsrc Hst.
    assert (Hin : id ∈ waiting f0).
    { apply (waiting_elem _ _ _ Hi0), (st_dom _ _ (ai_starts _ _ Ha)). eauto. }
    specialize (Hfind id j Hin Hj). unfold test in Hfind.
    by rewrite (proj2 (String.eqb_eq _ _) Hsrc), bool_decide_eq_true_2 in Hfind.
Qed.

(** The case analysis of a waiting job by its state. *)
Ltac known_job Hi Hj Hst :=
  let Hid := fresh "Hid" in let Hs := fresh "Hsrc" in let Hshape := fresh "Hshape" in
  pose proof (bi_jobs _ _ Hi _ _ Hj) as [Hid _ _ Hs Hshape];
  unfold shape_ok in Hshape; rewrite Hst in Hshape; unfold source_ok in Hs.

Lemma start_direct f0 f id j row :
  admit_inv f0 f -> jobs f !! id = Some j -> state j = READY_HBF -> job_route j = Direct ->
  dget (cfg_hbf (cfg f)) (source_stack j) = Some row -> owners f !! HbfDirect (source_stack j) = None ->
  exists f', (let! _ := modify (set_owner (HbfDirect (source_stack j)) (Some id)) in
              _start j HBF_DIRECT (direct_link row) (source_stack j +:+ ":gpu-link") (hbf_bank j) None) f = (Ok tt, f')
    /\ admit_inv f0 f' /\ starts f f' /\ link_sat f' id.
Proof.
  intros Ha Hj Hst Hr Hrow Hfree. pose proof (ai_base _ _ Ha) as Hi. known_job Hi Hj Hst.
  destruct (kind j) eqn:Ek, (hbf_bank j) as [b|] eqn:Eb, (hbm_bank j) as [m|] eqn:Em; try done.
  destruct (start_inv f [] j j HBF_DIRECT (direct_link row) (source_stack j +:+ ":gpu-link") (Some b) None
              [HbfDirect (source_stack j)]) as (f' & Hf' & Hi' & Ht' & Hst' & _ & Hjobs).
  all: try done.
  + apply Ha.
  + by rewrite Hid.
  + by rewrite Hst.
  + by rewrite Hst.
  + by rewrite Hst.
  + by rewrite Hst.
  + rewrite Hst. simpl. lia.
  + unfold shape_ok. simpl. by rewrite Ek, Eb, Em.
  + by destruct (co_hbf _ (bi_cfg _ _ Hi) _ _ Hrow).
  + set_solver.
  + held_tac.
  + rewrite Hid in *. exists f'. split_and!; [exact Hf'| |done|].
    * constructor; [done..|]. eapply starts_trans; [apply Ha|done].
    * intros j2 Hj2 Hs2. rewrite Hjobs, lookup_insert_eq in Hj2. by simplify_eq.
Qed.

Lemma start_relay f0 f id j row p peer link bank :
  admit_inv f0 f -> jobs f !! id = Some j -> state j = READY_HBF -> job_route j = Relay ->
  dget (cfg_hbf (cfg f)) (source_stack j) = Some row -> pair row = Some p -> relay_link row = Some link ->
  dget (cfg_hbm (cfg f)) p = Some peer -> owners f !! HbfRelay (source_stack j) = None ->
  _free_bank f (HbmBank p) (hbm_bank_count peer) = Some bank ->
  exists f', (let! _ := modify (set_owner (HbfRelay (source_stack j)) (Some id)) in
              let! _ := modify (set_owner (HbmBank p bank) (Some id)) in
              let! link := lift (of_option (TypeError "'NoneType' object is not subscriptable") (relay_link row)) in
              _start (with_hbm_bank (Some bank) j) HBF_RELAY link
                (source_stack j +:+ "->" +:+ p +:+ ":relay-link") (hbf_bank j) (Some bank)) f = (Ok tt, f')
    /\ admit_inv f0 f' /\ starts f f' /\ link_sat f' id.
Proof.
  intros Ha Hj Hst Hr Hrow Hp Hlink Hpeer Hfree Hbank. pose proof (ai_base _ _ Ha) as Hi. known_job Hi Hj Hst.
  destruct (kind j) eqn:Ek, (hbf_bank j) as [b|] eqn:Eb, (hbm_bank j) as [m|] eqn:Em; try done.
  destruct (free_bank_Some _ _ _ _ Hbank) as [Hbfree _].
  destruct (start_inv f [] j (with_hbm_bank (Some bank) j) HBF_RELAY link (source_stack j +:+ "->" +:+ p +:+ ":relay-link")
              (Some b) (Some bank) [HbmBank p bank; HbfRelay (source_stack j)])
    as (f' & Hf' & Hi' & Ht' & Hst' & _ & Hjobs).
  all: try done.
  + apply Ha.
  + by rewrite Hid.
  + by rewrite Hst.
  + by rewrite Hst.
  + by rewrite Hst.
  + by rewrite Hst.
  + rewrite Hst. simpl. lia.
  + unfold shape_ok. simpl. rewrite Ek, Eb. by apply bool_decide_eq_true_2.
  + pose proof (fo_relay _ _ (co_hbf _ (bi_cfg _ _ Hi) _ _ Hrow)) as Hl. rewrite Hp, Hlink in Hl. tauto.
  + set_solver.
  + held_tac.
  + rewrite Hid, Hlink in *. exists f'. split_and!; [exact Hf'| |done|].
    * constructor; [done..|]. eapply starts_trans; [apply Ha|done].
    * intros j2 Hj2 Hs2. rewrite Hjobs, lookup_insert_eq in Hj2. by simplify_eq.
Qed.

Lemma admit_link_inv f0 f id :
  admit_inv f0 f -> is_Some (jobs f !! id) ->
  exists f', admit_link id f = (Ok tt, f') /\ admit_inv f0 f' /\ starts f f' /\ link_sat f' id.
Proof.
  intros Ha [j Hj]. pose proof (ai_base _ _ Ha) as Hi. unfold admit_link.
  erewrite sbind_step by reflexivity. rewrite Hj. erewrite sbind_step by reflexivity.
  assert (Hstay : link_sat f id -> exists f', sret tt f = (Ok tt, f') /\ admit_inv f0 f' /\ starts f f' /\ link_sat f' id).
  { intros Hs. exists f. split_and!; [done|done|apply starts_refl|done]. }
  case_bool_decide as Hst; simpl.
  2:{ apply Hstay. intros j2 Hj2 Hs2. congruence. }
  known_job Hi Hj Hst.
  destruct (kind j) eqn:Ek, (hbf_bank j) as [b|] eqn:Eb, (hbm_bank j) as [m|] eqn:Em; try done.
  destruct Hsrc as (row & Hrow & Hpair).
  erewrite sbind_step by (apply lift_Ok; by apply dindex_Ok).
  destruct (job_route j) eqn:Er.
  - destruct (owners f !! HbfDirect (source_stack j)) eqn:Eo.
    + apply Hstay. intros j2 Hj2 Hs2. simplify_eq. rewrite Er. eauto.
    + rewrite <- Eb. by apply (start_direct f0).
  - destruct (owners f !! HbfRelay (source_stack j)) eqn:Eo.
    + apply Hstay. intros j2 Hj2 Hs2. simplify_eq. rewrite Er. left. eauto.
    + destruct (Hpair eq_refl) as [p Hp].
      pose proof (fo_relay _ _ (co_hbf _ (bi_cfg _ _ Hi) _ _ Hrow)) as Hl. rewrite Hp in Hl.
      destruct (relay_link row) as [link|] eqn:Elink; [|done]. destruct Hl as [[peer Hpeer]%dget_is_Some _].
      rewrite Hp. erewrite sbind_step by reflexivity.
      erewrite sbind_step by (apply lift_Ok; by apply dindex_Ok).
      destruct (_free_bank f (HbmBank p) (hbm_bank_count peer)) as [bank|] eqn:Ebank.
      * rewrite <- Eb, <- Elink. by eapply (start_relay f0).
      * apply Hstay. intros j2 Hj2 Hs2. simplify_eq. rewrite Er. right. exists p, peer. split_and!; [|done|done].
        unfold hbm_of. by rewrite Ek, Hrow.
Qed.

Lemma gpu_candidate_spec f pend id j stack :
  base_inv f pend -> jobs f !! id = Some j -> gpu_candidate (cfg f) stack j = true ->
  hbm_of (cfg f) j = Some stack /\ (state j = HBM_READY \/ state j = READY_HBM).
Proof.
  intros Hi Hj. unfold gpu_candidate, hbm_of. destruct (kind j); intros [H1 H2]%andb_prop;
    apply bool_decide_eq_true in H2.
  - apply bool_decide_eq_true in H1. auto.
  - apply String.eqb_eq in H1. subst. auto.
Qed.

Lemma admit_gpu_inv f0 f stack row :
  admit_inv f0 f -> base_inv f0 [] -> dget (cfg_hbm (cfg f)) stack = Some row ->
  exists f', admit_gpu (waiting f0) (stack, row) f = (Ok tt, f') /\ admit_inv f0 f' /\ starts f f' /\ gpu_sat f' stack.
Proof.
  intros Ha Hi0 Hrow. pose proof (ai_base _ _ Ha) as Hi. unfold admit_gpu.
  erewrite sbind_step by reflexivity.
  destruct (owners f !! HbmGpu stack) as [o|] eqn:Egpu.
  { exists f. split_and!; [done|done|apply starts_refl|left; eauto]. }
  pose proof (find_job_spec f (gpu_candidate (cfg f) stack) (waiting f0)) as Hfind.
  destruct (find_job f (gpu_candidate (cfg f) stack) (waiting f0)) as [j|].
  - destruct Hfind as (id & _ & Hj & Hc). pose proof (gpu_candidate_waits _ _ _ Hc) as Hwt.
    assert (Hnr : is_running (state j) = false) by (by destruct (state j)).
    destruct (gpu_candidate_spec _ _ _ _ _ Hi Hj Hc) as [Ho Hst].
    pose proof (bi_jobs _ _ Hi _ _ Hj) as [Hid _ _ _ Hshape].
    destruct (start_inv f [] j j HBM_GPU (gpu_link row) (stack +:+ ":gpu-link") None (hbm_bank j)
                [HbmGpu stack]) as (f' & Hf' & Hi' & Ht' & Hst' & Hacq & _).
    all: try done.
    + apply Ha.
    + by rewrite Hid.
    + destruct Hst as [-> | ->]; done.
    + destruct Hst as [-> | ->]; done.
    + destruct Hst as [-> | ->]; done.
    + destruct Hst as [-> | ->]; simpl; lia.
    + unfold shape_ok in *. simpl. destruct Hst as [Hst|Hst]; rewrite Hst in Hshape;
        destruct (kind j), (hbf_bank j), (hbm_bank j); done.
    + by destruct (co_hbm _ (bi_cfg _ _ Hi) _ _ Hrow).
    + set_solver.
    + intros sl. unfold held, bank_slots, link_slot, hbm_of in *. simpl. rewrite Ho. clear -Hst.
      destruct Hst as [-> | ->]; csimpl; set_solver.
    + exists f'. split; [exact Hf'|]. split_and!; [|done|left; apply Hacq; set_solver].
      constructor; [done..|]. eapply starts_trans; [apply Ha|done].
  - exists f. split_and!; [done|done|apply starts_refl|]. right. intros id j Hj. eapply Hfind; [|done].
    apply (waiting_elem _ _ _ Hi0), (st_dom _ _ (ai_starts _ _ Ha)). eauto.
Qed.

(** No job that could start is waiting. *)
Record saturated (f : fabric) : Prop := {
  sa_fill : forall stack row, dget (cfg_hbf (cfg f)) stack = Some row -> fill_sat f stack row;
  sa_link : forall id, link_sat f id;
  sa_gpu : forall stack row, dget (cfg_hbm (cfg f)) stack = Some row -> gpu_sat f stack }.

Lemma admit_ok f : base_inv f [] -> time_inv f ->
  exists f', _admit f = (Ok tt, f') /\ base_inv f' [] /\ time_inv f' /\ starts f f' /\ saturated f'.
Proof.
  intros Hi Ht. pose proof (bi_cfg _ _ Hi) as Hcfg. unfold _admit. erewrite sbind_step by reflexivity.
  assert (Ha : admit_inv f f) by (constructor; [done..|apply starts_refl]).
  destruct (forM_inv (fun done g => admit_inv f g /\ Forall (fun it => fill_sat g it.1 it.2) done)
              (admit_fill (waiting f)) (cfg_hbf (cfg f)) f) as (f1 & Hf1 & Ha1 & Hs1).
  { split; [done|constructor]. }
  { intros done [stack row] todo g Hl [Hg Hd].
    destruct (admit_fill_inv f g stack row Hg Hi) as (g' & Hg' & Ha' & Hst & Hsat).
    - rewrite (st_cfg _ _ (ai_starts _ _ Hg)). apply dget_elem; [apply Hcfg|]. rewrite Hl. set_solver.
    - exists g'. split_and!; try done. apply Forall_app. split; [|by apply Forall_singleton].
      eapply Forall_impl; [exact Hd|]. intros it. by apply fill_sat_mono, starts_keeps. }
  erewrite sbind_step by exact Hf1.
  destruct (forM_inv (fun done g => admit_inv f g /\ starts f1 g /\ Forall (link_sat g) done)
              admit_link (waiting f) f1) as (f2 & Hf2 & Ha2 & Hst2 & Hs2).
  { split_and!; [done|apply starts_refl|constructor]. }
  { intros done id todo g Hl (Hg & Hst & Hd).
    destruct (admit_link_inv f g id Hg) as (g' & Hg' & Ha' & Hst' & Hsat).
    - apply (st_dom _ _ (ai_starts _ _ Hg)), (waiting_elem _ _ _ Hi). rewrite Hl. set_solver.
    - exists g'. split_and!; try done; [by eapply starts_trans|]. apply Forall_app. split; [|by apply Forall_singleton].
      eapply Forall_impl; [exact Hd|]. intros it. by apply link_sat_mono, starts_keeps. }
  erewrite sbind_step by exact Hf2.
  destruct (forM_inv (fun done g => admit_inv f g /\ starts f2 g /\ Forall (fun it => gpu_sat g it.1) done)
              (admit_gpu (waiting f)) (cfg_hbm (cfg f)) f2) as (f3 & Hf3 & Ha3 & Hst3 & Hs3).
  { split_and!; [done|apply starts_refl|constructor]. }
  { intros done [stack row] todo g Hl (Hg & Hst & Hd).
    destruct (admit_gpu_inv f g stack row Hg Hi) as (g' & Hg' & Ha' & Hst' & Hsat).
    - rewrite (st_cfg _ _ (ai_starts _ _ Hg)). apply dget_elem; [apply Hcfg|]. rewrite Hl. set_solver.
    - exists g'. split_and!; try done; [by eapply starts_trans|]. apply Forall_app. split; [|by apply Forall_singleton].
      eapply Forall_impl; [exact Hd|]. intros it. by apply gpu_sat_mono, starts_keeps. }
  exists f3. destruct Ha3 as [Hb3 Ht3 Hst03]. split_and!; [exact Hf3|done..|].
  rewrite Forall_forall in Hs1. rewrite Forall_forall in Hs2. rewrite Forall_forall in Hs3.
  constructor; rewrite ?(st_cfg _ _ Hst03).
  - intros stack row Hr. apply (fill_sat_mono f1); [by apply starts_keeps, (starts_trans _ f2)|].
    apply (Hs1 (stack, row)). by apply dget_Some_elem.
  - intros id j Hj Hst. eapply (link_sat_mono f2); [by apply starts_keeps|apply Hs2|done|done].
    apply (waiting_elem _ _ _ Hi), (st_dom _ _ Hst03). eauto.
  - intros stack row Hr. apply (Hs3 (stack, row)). by apply dget_Some_elem.
Qed.

(** *** Timers that expire *)

(** A job whose timer at the head of a heap has expired moves to [st']. *)
Lemma expire_inv f f' id j st' :
  base_inv f [] -> time_inv f -> jobs f !! id = Some j -> is_running (state j) = false ->
  shape_ok (with_state st' j) = true -> is_running st' = false -> (rank st' < rank (state j))%nat ->
  cfg f' = cfg f -> now f' = now f -> next_sequence f' = next_sequence f -> active f' = active f ->
  jobs f' = <[id := with_state st' j]> (jobs f) -> owners f' = owners f ->
  timers_ok WAIT_READY (jobs f') (arrivals f') -> timers_ok BACKEND_READY_PENDING (jobs f') (backend_ready f') ->
  history f f' -> base_inv f' [] /\ settles f f' /\ (work (jobs f') < work (jobs f))%nat.
Proof.
  intros Hi Ht Hj Hnr Hshape Hnr' Hrank Hcfg Hnow Hseq Hact Hjobs Hown Ha Hb Hhist.
  assert (Hwork : (work (jobs f') < work (jobs f))%nat).
  { rewrite Hjobs. pose proof (work_insert (jobs f) _ _ (with_state st' j) Hj). simpl in *. lia. }
  assert (Hheld : held (cfg f) (with_state st' j) = held (cfg f) j).
  { unfold held, bank_slots, link_slot, hbm_of. simpl. by destruct (state j), st'. }
  split_and!; [|constructor; try done; [| |lia]|done].
  - eapply (base_move f f' [] [] id j (with_state st' j) [] []); try done.
    + intros s. rewrite Hown.
      by destruct (decide (s ∈ @nil slot)) as [E|_]; [apply not_elem_of_nil in E|].
    + intros s E. by apply not_elem_of_nil in E.
    + intros s E. by apply not_elem_of_nil in E.
    + intros s. rewrite Hheld. set_solver.
    + rewrite Hjobs, Hact. eapply running_keep; [done|done|done|apply Hi].
  - intros id'. rewrite Hjobs. by eapply insert_dom.
  - intros id' j2. rewrite Hjobs. by eapply insert_reserved.
Qed.

(** The entries of a heap whose head is that of one job. *)
Lemma heap_others (heap rest : list timer) e0 : heap = e0 :: rest -> NoDup heap.*2 ->
  (forall e, e ∈ heap -> e.2 <> e0.2 -> e ∈ rest) /\ (forall e, e ∈ heap -> e.2 = e0.2 -> e.1.1 = e0.1.1).
Proof.
  intros -> [Hn _]%NoDup_cons. split; intros e [->|He]%elem_of_cons; try done. intros E. exfalso. apply Hn.
  rewrite <- E. by apply list_elem_of_fmap_2.
Qed.

Lemma drain_backend_inv heap f : backend_ready f = heap -> base_inv f [] -> time_inv f ->
  exists f', drain_backend heap f = (Ok tt, f') /\ base_inv f' [] /\ time_inv f' /\ settles f f'
    /\ arrivals f' = arrivals f
    /\ (match heap with e :: _ => e.1.1 = now f -> (work (jobs f') < work (jobs f))%nat | [] => True end).
Proof.
  revert f. induction heap as [|[[t sq] id] rest IH]; intros f Hheap Hi Ht; cbn [drain_backend].
  { exists f. split_and!; try done; apply settles_refl. }
  erewrite sbind_step by reflexivity. destruct (Z.eqb_spec t (now f)) as [->|Hne].
  2:{ exists f. split_and!; try done; apply settles_refl. }
  destruct (bi_backend _ _ Hi) as [Hnd Hin]. rewrite Hheap in *.
  destruct (proj1 (Hin id) ltac:(set_solver)) as (j & Hj & Hst).
  pose proof (bi_jobs _ _ Hi _ _ Hj) as [Hid _ _ _ Hshape].
  erewrite sbind_step by reflexivity. rewrite Hj. erewrite sbind_step by reflexivity.
  erewrite sbind_step by reflexivity. erewrite sbind_step by reflexivity.
  set (st' := match kind j with HBF => READY_HBF | HBM => HBM_READY end).
  set (f1 := add_event _ _).
  assert (Hjobs1 : jobs f1 = <[id := with_state st' j]> (jobs f)) by (simpl; by rewrite Hid).
  destruct (expire_inv f f1 id j st' Hi Ht Hj) as (Hi1 & Hse1 & Hw1); try done.
  - by rewrite Hst.
  - unfold shape_ok in *. rewrite Hst in Hshape. simpl. unfold st'.
    by destruct (kind j), (hbf_bank j), (hbm_bank j).
  - unfold st'. by destruct (kind j).
  - rewrite Hst. unfold st'. destruct (kind j); simpl; lia.
  - rewrite Hjobs1. eapply timers_keep; [done|by rewrite Hst|unfold st'; simpl; by destruct (kind j)|apply Hi].
  - rewrite Hjobs1. apply (timers_drop _ _ (now f, sq, id) rest j); [done|unfold st'; simpl; by destruct (kind j)|].
    rewrite <- Hheap. apply Hi.
  - destruct (heap_others _ _ _ Hheap ltac:(by rewrite Hheap)) as [Hoth Hdue].
    eapply (history_move f f1 id j (with_state st' j) []); try done; try (unfold st'; by destruct (kind j));
      rewrite ?Hst, ?Hheap; try done; [by rewrite app_nil_r|].
    intros _ e He Hid'. rewrite <- Hheap in He. specialize (Hdue e He Hid'). simpl in Hdue. lia.
  - destruct (IH f1) as (f' & Hd & Hi' & Ht' & Hse & Harr & _); [done|done| |].
    { destruct Ht as [Hsa Hsb Hsr Hta Htb Htr]. rewrite Hheap in *. destruct Hsb as [_ Hsb].
      constructor; simpl; try done. by inversion Htb. }
    exists f'. split_and!; [exact Hd|done|done|by eapply settles_trans|by rewrite Harr|].
    intros _. pose proof (se_work _ _ Hse). lia.
Qed.

Lemma drain_arrivals_inv heap f : arrivals f = heap -> base_inv f [] -> time_inv f ->
  exists f', drain_arrivals heap f = (Ok tt, f') /\ base_inv f' [] /\ time_inv f' /\ settles f f'
    /\ (match heap with e :: _ => e.1.1 = now f -> (work (jobs f') < work (jobs f))%nat | [] => True end).
Proof.
  revert f. induction heap as [|[[t sq] id] rest IH]; intros f Hheap Hi Ht; cbn [drain_arrivals].
  { exists f. split_and!; try done; apply settles_refl. }
  erewrite sbind_step by reflexivity. destruct (Z.eqb_spec t (now f)) as [->|Hne].
  2:{ exists f. split_and!; try done; apply settles_refl. }
  destruct (bi_arrivals _ _ Hi) as [Hnd Hin]. rewrite Hheap in *.
  destruct (proj1 (Hin id) ltac:(set_solver)) as (j & Hj & Hst).
  pose proof (bi_jobs _ _ Hi _ _ Hj) as [Hid _ _ _ Hshape].
  erewrite sbind_step by reflexivity. rewrite Hj. erewrite sbind_step by reflexivity.
  erewrite sbind_step by reflexivity. erewrite sbind_step by reflexivity.
  set (st' := match kind j with HBF => MEDIA_READY | HBM => HBM_READY end).
  set (f1 := add_event _ _).
  assert (Hjobs1 : jobs f1 = <[id := with_state st' j]> (jobs f)) by (simpl; by rewrite Hid).
  destruct (expire_inv f f1 id j st' Hi Ht Hj) as (Hi1 & Hse1 & Hw1); try done.
  - by rewrite Hst.
  - unfold shape_ok in *. rewrite Hst in Hshape. simpl. unfold st'.
    by destruct (kind j), (hbf_bank j), (hbm_bank j).
  - unfold st'. by destruct (kind j).
  - rewrite Hst. unfold st'. destruct (kind j); simpl; lia.
  - rewrite Hjobs1. apply (timers_drop _ _ (now f, sq, id) rest j); [done|unfold st'; simpl; by destruct (kind j)|].
    rewrite <- Hheap. apply Hi.
  - rewrite Hjobs1. eapply timers_keep; [done|by rewrite Hst|unfold st'; simpl; by destruct (kind j)|apply Hi].
  - destruct (heap_others _ _ _ Hheap ltac:(by rewrite Hheap)) as [Hoth Hdue].
    eapply (history_move f f1 id j (with_state st' j) []); try done; try (unfold st'; by destruct (kind j));
      rewrite ?Hst, ?Hheap; try done; [by rewrite app_nil_r|].
    intros _ e He Hid'. rewrite <- Hheap in He. specialize (Hdue e He Hid'). simpl in Hdue. lia.
  - destruct (IH f1) as (f' & Hd & Hi' & Ht' & Hse & _); [done|done| |].
    { destruct Ht as [Hsa Hsb Hsr Hta Htb Htr]. rewrite Hheap in *. destruct Hsa as [_ Hsa].
      constructor; simpl; try done. by inversion Hta. }
    exists f'. split_and!; [exact Hd|done|done|by eapply settles_trans|].
    intros _. pose proof (se_work _ _ Hse). lia.
Qed.

(** *** One instant, and the loop over instants *)

Record fabric_inv (f : fabric) : Prop := {
  fi_base : base_inv f []; fi_time : time_inv f; fi_sat : saturated f }.

Lemma base_inv_ext f f' pend pend' :
  cfg f' = cfg f -> next_sequence f' = next_sequence f -> jobs f' = jobs f -> owners f' = owners f ->
  arrivals f' = arrivals f -> backend_ready f' = backend_ready f -> pend' ++ active f' = pend ++ active f ->
  base_inv f pend -> base_inv f' pend'.
Proof.
  intros E1 E2 E3 E4 E5 E6 E7 [H1 H2 H3 H4 H5 H6]. constructor; rewrite ?E1, ?E3, ?E4, ?E5, ?E6, ?E7; try done.
  intros id j Hj. destruct (H2 id j Hj). constructor; by rewrite ?E1, ?E2.
Qed.

Lemma pop_ending_spec t heap ending rest :
  pop_ending t heap = (ending, rest) ->
  heap = ending ++ rest /\ (match heap with e :: _ => e.1.1.1 = t -> ending <> [] | [] => True end).
Proof.
  revert ending rest. induction heap as [|e heap IH]; intros ending rest; simpl; [by intros [= <- <-]|].
  destruct (Z.eqb_spec e.1.1.1 t) as [Ht|Ht].
  - destruct (pop_ending t heap) as [en re]. intros [= <- <-]. destruct (IH en re eq_refl) as [-> _]. done.
  - intros [= <- <-]. done.
Qed.

Lemma complete_all ending f : base_inv f ending -> time_inv f ->
  exists f', forM ending (fun e => _complete e.1.2 e.2) f = (Ok tt, f') /\ base_inv f' [] /\ time_inv f'
    /\ settles f f' /\ arrivals f' = arrivals f /\ backend_ready f' = backend_ready f
    /\ (ending <> [] -> (work (jobs f') < work (jobs f))%nat).
Proof.
  revert f. induction ending as [|e ending IH]; intros f Hi Ht; cbn [forM].
  - exists f. split_and!; try done; apply settles_refl.
  - destruct (complete_inv f ending e Hi Ht) as (f1 & Hc & Hi1 & Ht1 & Hse1 & Ha1 & Hb1 & Hw1).
    destruct (IH f1 Hi1 Ht1) as (f' & Hl & Hi' & Ht' & Hse & Ha & Hb & _).
    exists f'. rewrite (sbind_step _ _ _ _ _ Hc). split_and!; try done; [by eapply settles_trans|congruence|congruence|].
    intros _. pose proof (se_work _ _ Hse). lia.
Qed.

(** The next event is the earliest entry of the heaps. *)
Lemma next_event_spec f : time_inv f ->
  match next_event_ns f with
  | None => arrivals f = [] /\ backend_ready f = [] /\ active f = []
  | Some t => now f <= t
      /\ Forall (fun e => t <= e.1.1) (arrivals f) /\ Forall (fun e => t <= e.1.1) (backend_ready f)
      /\ Forall (fun e => t <= e.1.1.1) (active f)
      /\ ((exists e l, arrivals f = e :: l /\ e.1.1 = t) \/ (exists e l, backend_ready f = e :: l /\ e.1.1 = t)
          \/ exists e l, active f = e :: l /\ e.1.1.1 = t)
  end.
Proof.
  intros [Hsa Hsb Hsr Hta Htb Htr]. unfold next_event_ns.
  assert (Hta' : forall l : list timer, sorted timer_le l -> forall t, (match l with e :: _ => t <= e.1.1 | [] => True end) ->
            Forall (fun e => t <= e.1.1) l).
  { intros [|e l]; [constructor|]. intros [He _] t Ht. constructor; [done|]. eapply Forall_impl; [exact He|].
    intros e' Hle. unfold timer_le, lex, zle in Hle. simpl in Hle. destruct (decide _) as [E|]; [rewrite <- E|]; lia. }
  assert (Htr' : forall l : list running, sorted running_le l ->
            forall t, (match l with e :: _ => t <= e.1.1.1 | [] => True end) -> Forall (fun e => t <= e.1.1.1) l).
  { intros [|e l]; [constructor|]. intros [He _] t Ht. constructor; [done|]. eapply Forall_impl; [exact He|].
    intros e' Hle. unfold running_le, lex, zle in Hle. simpl in Hle. destruct (decide _) as [E|]; [rewrite <- E|]; lia. }
  set (ta := match arrivals f with (t, _, _) :: _ => [t] | [] => [] end).
  set (tb := match backend_ready f with (t, _, _) :: _ => [t] | [] => [] end).
  set (tr := match active f with (t, _, _, _) :: _ => [t] | [] => [] end).
  pose proof (zmin_list_spec (ta ++ tb ++ tr)) as Hmin. destruct (zmin_list _) as [t|].
  - destruct Hmin as [Hin Hle]. 
    assert (Hcase : (exists e l, arrivals f = e :: l /\ e.1.1 = t) \/ (exists e l, backend_ready f = e :: l /\ e.1.1 = t)
          \/ exists e l, active f = e :: l /\ e.1.1.1 = t).
    { rewrite !elem_of_app in Hin. unfold ta, tb, tr in Hin.
      destruct (arrivals f) as [|[[t1 ?] ?] ?], (backend_ready f) as [|[[t2 ?] ?] ?], (active f) as [|[[[t3 ?] ?] ?] ?];
        rewrite ?elem_of_nil, ?list_elem_of_singleton in Hin; naive_solver. }
    split_and!; [| | | |done].
    + destruct Hcase as [(e & l & E & <-)|[(e & l & E & <-)|(e & l & E & <-)]];
        [rewrite E in Hta; by inversion Hta|rewrite E in Htb; by inversion Htb|rewrite E in Htr; by inversion Htr].
    + apply Hta'; [done|]. destruct (arrivals f) as [|[[t1 ?] ?] ?]; [done|]. apply Hle. unfold ta. set_solver.
    + apply Hta'; [done|]. destruct (backend_ready f) as [|[[t1 ?] ?] ?]; [done|]. apply Hle. unfold tb. set_solver.
    + apply Htr'; [done|]. destruct (active f) as [|[[[t1 ?] ?] ?] ?]; [done|]. apply Hle. unfold tr. set_solver.
  - unfold ta, tb, tr in Hmin.
    destruct (arrivals f) as [|[[t1 ?] ?] ?], (backend_ready f) as [|[[t2 ?] ?] ?], (active f) as [|[[[t3 ?] ?] ?] ?];
      done.
Qed.

Lemma advance_to_inv f t : fabric_inv f -> next_event_ns f = Some t ->
  exists f', advance_to t f = (Ok tt, f') /\ fabric_inv f' /\ now f' = t /\ cfg f' = cfg f
    /\ (forall id, is_Some (jobs f' !! id) <-> is_Some (jobs f !! id)) /\ (work (jobs f') < work (jobs f))%nat
    /\ history f f'.
Proof.
  intros [Hi Ht _] Hnext. pose proof (next_event_spec f Ht) as Hev. rewrite Hnext in Hev.
  destruct Hev as (Hnow & Ha & Hb & Hr & Hcase). unfold advance_to.
  erewrite sbind_step by reflexivity. erewrite sbind_step by reflexivity. cbn [set_now active].
  destruct (pop_ending t (active f)) as [ending rest] eqn:Epop.
  destruct (pop_ending_spec _ _ _ _ Epop) as [Eact Hend]. erewrite sbind_step by reflexivity.
  set (f0 := set_active rest (set_now t f)).
  assert (Hi0 : base_inv f0 ending) by (eapply (base_inv_ext f _ []); [done..|exact Hi]).
  assert (Ht0 : time_inv f0).
  { destruct Ht as [Hsa Hsb Hsr _ _ _]. rewrite Eact in Hsr, Hr. apply sorted_app_inv in Hsr as [Hsr _].
    apply Forall_app in Hr as [_ Hr]. by constructor. }
  destruct (complete_all ending f0 Hi0 Ht0) as (f1 & Hf1 & Hi1 & Ht1 & Hse1 & Ha1 & Hb1 & Hw1).
  erewrite sbind_step by exact Hf1. erewrite sbind_step by reflexivity.
  destruct (drain_backend_inv _ f1 eq_refl Hi1 Ht1) as (f2 & Hf2 & Hi2 & Ht2 & Hse2 & Ha2 & Hw2).
  erewrite sbind_step by exact Hf2. erewrite sbind_step by reflexivity.
  destruct (drain_arrivals_inv _ f2 eq_refl Hi2 Ht2) as (f3 & Hf3 & Hi3 & Ht3 & Hse3 & Hw3).
  erewrite sbind_step by exact Hf3.
  destruct (admit_ok f3 Hi3 Ht3) as (f' & Hf' & Hi' & Ht' & Hst' & Hsat').
  exists f'. pose proof (settles_trans _ _ _ Hse1 (settles_trans _ _ _ Hse2 Hse3)) as Hse.
  split_and!; [exact Hf'|by constructor| | | | |].
  - by rewrite (st_now _ _ Hst'), (se_now _ _ Hse).
  - by rewrite (st_cfg _ _ Hst'), (se_cfg _ _ Hse).
  - intros id. by rewrite (st_dom _ _ Hst'), (se_dom _ _ Hse).
  - pose proof (st_work _ _ Hst'). pose proof (se_work _ _ Hse1). pose proof (se_work _ _ Hse2).
    pose proof (se_work _ _ Hse3). pose proof (se_now _ _ Hse1) as N1. pose proof (se_now _ _ Hse2) as N2.
    change (work (jobs f0)) with (work (jobs f)) in *. change (now f0) with t in *.
    destruct Hcase as [(e & l & E & He)|[(e & l & E & He)|(e & l & E & He)]].
    + rewrite Ha2, Ha1 in Hw3. cbn [f0 set_active set_now arrivals] in Hw3. rewrite E, N2, N1 in Hw3.
      specialize (Hw3 He). lia.
    + rewrite Hb1 in Hw2. cbn [f0 set_active set_now backend_ready] in Hw2. rewrite E, N1 in Hw2.
      specialize (Hw2 He). lia.
    + rewrite E in Hend. specialize (Hw1 (Hend He)). lia.
  - eapply history_trans; [|eapply history_trans; [apply (se_history _ _ Hse)|apply (st_history _ _ Hst')]].
    by apply history_wait.
Qed.

Lemma advance_loop_inv fuel horizon f : fabric_inv f -> (work (jobs f) < fuel)%nat -> now f <= horizon ->
  exists f', advance_loop fuel horizon f = (Ok tt, f') /\ fabric_inv f' /\ cfg f' = cfg f /\ now f' <= horizon
    /\ (match next_event_ns f' with Some t => horizon < t | None => True end) /\ history f f'
    /\ (work (jobs f') <= work (jobs f))%nat
    /\ (forall t, next_event_ns f = Some t -> t <= horizon -> (work (jobs f') < work (jobs f))%nat).
Proof.
  revert f. induction fuel as [|fuel IH]; intros f Hi Hw Hh; [lia|]. cbn [advance_loop].
  erewrite sbind_step by reflexivity. destruct (next_event_ns f) as [t|] eqn:En.
  - destruct (Z.ltb_spec horizon t).
    + exists f. rewrite En. split_and!; try done; [by apply history_wait|]. intros t' [= <-]. lia.
    + destruct (advance_to_inv f t Hi En) as (f1 & Hf1 & Hi1 & Hn1 & Hc1 & Hd1 & Hw1 & Hh1).
      erewrite sbind_step by exact Hf1.
      destruct (IH f1 Hi1) as (f' & Hl & Hi' & Hc' & Hn' & Hev & Hh' & Hw' & _); [lia|lia|].
      exists f'. split_and!; try done; [congruence|by eapply history_trans|lia|intros; lia].
  - exists f. rewrite En. split_and!; try done. by apply history_wait.
Qed.

Lemma history_reserved f f' id j : history f f' -> jobs f' !! id = Some j -> state j = BACKEND_RESERVED -> jobs f !! id = Some j.
Proof.
  intros Hh Hj Hst. destruct (proj1 (hy_dom _ _ Hh id) (mk_is_Some _ _ Hj)) as [j0 Hj0].
  destruct (hy_job _ _ Hh _ _ Hj0) as (j1 & Hj1 & _ & _ & Hb & _). assert (j1 = j) as -> by congruence. by rewrite (Hb Hst).
Qed.

(** Running the loop far enough empties the heaps. *)
Lemma advance_loop_drains n f : (work (jobs f) <= n)%nat -> fabric_inv f ->
  exists h, now f <= h /\ 0 <= h /\ forall fuel, (work (jobs f) < fuel)%nat ->
    exists f', advance_loop fuel h f = (Ok tt, f') /\ fabric_inv f' /\ next_event_ns f' = None
      /\ forall id j, jobs f' !! id = Some j -> state j = BACKEND_RESERVED -> jobs f !! id = Some j.
Proof.
  revert f. induction n as [|n IH]; intros f Hw Hi.
  all: destruct (next_event_ns f) as [t|] eqn:En;
    [destruct (advance_to_inv f t Hi En) as (f1 & Hf1 & Hi1 & Hn1 & _ & _ & Hw1 & Hh1)
    |exists (Z.max 0 (now f)); split; [lia|]; split; [lia|]; intros [|fuel] Hf; [lia|]; exists f; cbn [advance_loop];
     erewrite sbind_step by reflexivity; rewrite En; by split_and!].
  - lia.
  - destruct (IH f1 ltac:(lia) Hi1) as (h & Hh & Hh0 & Hloop). exists h.
    pose proof (next_event_spec f (fi_time _ Hi)) as Hev. rewrite En in Hev. destruct Hev as [Hnow _].
    split; [lia|]. split; [done|]. intros [|fuel] Hf; [lia|]. destruct (Hloop fuel ltac:(lia)) as (f' & Hl & Hi' & Hne & Hr).
    exists f'. cbn [advance_loop]. erewrite sbind_step by reflexivity. rewrite En.
    rewrite (proj2 (Z.ltb_ge h t)) by lia. erewrite sbind_step by exact Hf1. split_and!; try done.
    intros id j Hj Hst. eapply history_reserved; [exact Hh1| |done]. by apply Hr.
Qed.

(** *** Intake *)

Lemma saturated_mono f g : keeps f g -> saturated f -> saturated g.
Proof.
  intros Hk [H1 H2 H3]. constructor; rewrite ?(ke_cfg _ _ Hk).
  - intros stack row Hr. by eapply fill_sat_mono; [|apply H1].
  - intros id. by eapply link_sat_mono; [|apply H2].
  - intros stack row Hr. by eapply gpu_sat_mono; [|eapply H3].
Qed.

(** A new job that holds exactly the slots [acq] it takes. *)
Lemma base_new f f' j acq :
  base_inv f [] -> jobs f !! request_id j = None -> cfg f' = cfg f -> next_sequence f' = next_sequence f + 1 ->
  sequence j = next_sequence f -> 0 < bytes j -> source_ok (cfg f) j -> shape_ok j = true ->
  jobs f' = <[request_id j := j]> (jobs f) -> owners f' = owners (take_slots (request_id j) acq f) ->
  (forall s, s ∈ acq -> owners f !! s = None) -> held (cfg f) j = acq -> active f' = active f ->
  is_running (state j) = false ->
  timers_ok WAIT_READY (jobs f') (arrivals f') -> timers_ok BACKEND_READY_PENDING (jobs f') (backend_ready f') ->
  base_inv f' [].
Proof.
  intros Hi Hnew Hcfg Hseq Hs Hb Hsrc Hshape Hjobs Hown Hfree Hheld Hact Hnr Ha Hbk. constructor; try done.
  - rewrite Hcfg. apply Hi.
  - intros id j2. rewrite Hjobs. destruct (decide (request_id j = id)) as [<-|Hne].
    + rewrite lookup_insert_eq. intros [= <-]. constructor; try done; [lia|by rewrite Hcfg].
    + rewrite lookup_insert_ne by done. intros Hj2. destruct (bi_jobs _ _ Hi _ _ Hj2).
      constructor; try done; [lia|by rewrite Hcfg].
  - intros s id. rewrite Hown, take_slots_owner, Hjobs, Hcfg. case_decide as Hs'.
    + split.
      * intros [= <-]. exists j. rewrite lookup_insert_eq. by rewrite Hheld.
      * intros (j2 & Hj2 & Hin). f_equal. destruct (decide (request_id j = id)) as [|Hne]; [done|].
        rewrite lookup_insert_ne in Hj2 by done.
        assert (owners f !! s = Some id) as E by (apply (bi_own _ _ Hi); eauto). by rewrite Hfree in E.
    + rewrite (bi_own _ _ Hi). destruct (decide (request_id j = id)) as [<-|Hne].
      * rewrite lookup_insert_eq, Hnew. split; [naive_solver|]. intros (j2 & [= <-] & Hin). by rewrite Hheld in Hin.
      * by rewrite lookup_insert_ne.
  - rewrite Hact, Hjobs. apply running_new; [done|done|]. apply Hi.
Qed.

Lemma check_id_Ok f v id : check_id f v = Ok id -> jobs f !! id = None.
Proof.
  unfold check_id. destruct v; try done. intros H. inv_ok.
  match goal with H : negb (bool_decide _) = true |- _ => apply negb_true_iff, bool_decide_eq_false in H; rename H into Hn end.
  destruct (jobs f !! id) eqn:E; [|done]. exfalso. apply Hn. eauto.
Qed.

(** A route that is accepted is available from its source. *)
Lemma check_route_Ok c stack rt b lim k r :
  check_route c stack rt b lim = Ok (k, r) ->
  match k with
  | HBF => exists row, dget (cfg_hbf c) stack = Some row /\ (r = Relay -> is_Some (pair row))
  | HBM => is_Some (dget (cfg_hbm c) stack)
  end.
Proof.
  unfold check_route. destruct (dget (cfg_hbf c) stack) as [row|].
  - destruct (parse_route rt) as [r'|]; [|done]. intros H. inv_ok. destruct r'; inv_ok.
    + by exists row.
    + exists row. split; [done|]. intros _. unfold of_option in *. destruct (pair row); eauto; done.
  - destruct (dget (cfg_hbm c) stack); [|done]. intros H. inv_ok. eauto.
Qed.

Lemma enqueue_inv id stack rt b t f r f' :
  fabric_inv f -> enqueue id stack rt b t f = (r, f') -> fabric_inv f'.
Proof.
  intros [Hi Ht Hsat] E. unfold enqueue in E. erewrite sbind_step in E by reflexivity.
  peel E rid Eid. peel E bc Eb. peel E ready Et. peel_guard E Hle. peel E kr Er. destruct kr as [k rr].
  apply Z.leb_le in Hle. injection E as _ <-.
  apply check_id_Ok in Eid. apply integer_Ok in Eb as [_ Hb]. apply check_route_Ok in Er.
  set (j := {| request_id := rid; source_stack := stack; kind := k; job_route := rr; bytes := bc;
              ready_ns := Some ready; arrival_ns := None; sequence := next_sequence f; state := WAIT_READY;
              hbf_bank := None; hbm_bank := None |}).
  set (f' := set_arrivals _ _).
  constructor.
  - apply (base_new f f' j []); try done; simpl; try lia.
    + intros s Hs. by apply not_elem_of_nil in Hs.
    + apply (timers_add _ _ (ready, next_sequence f, rid)); [|done|apply Hi]. simpl. rewrite Eid. done.
    + apply timers_new; [done|done|apply Hi].
  - destruct Ht as [Hsa Hsb Hsr Hta Htb Htr]. constructor; simpl; try done.
    + apply sinsert_sorted; [apply timer_le_total|apply timer_le_trans|done].
    + rewrite Forall_forall. intros e [->|He]%sinsert_elem; [done|]. rewrite Forall_forall in Hta. auto.
  - apply (saturated_mono f); [|done]. constructor; simpl; try done.
    intros id' j'. destruct (decide (rid = id')) as [<-|]; [rewrite lookup_insert_eq; by intros [= <-]|].
    by rewrite lookup_insert_ne.
Qed.

Lemma reserve_inv id stack rt b t f r f' :
  fabric_inv f -> reserve_source id stack rt b t f = (r, f') -> fabric_inv f'.
Proof.
  intros [Hi Ht Hsat] E. unfold reserve_source in E. erewrite sbind_step in E by reflexivity.
  peel E rid Eid. peel E bc Eb. peel E arr Et. peel_guard E Hle. peel E kr Er. destruct kr as [k rr].
  destruct (source_banks (cfg f) k stack) as [mk count] eqn:Esb.
  destruct (_free_bank f mk count) as [bank|] eqn:Efree; [|by injection E as _ <-].
  injection E as _ <-.
  apply check_id_Ok in Eid. apply integer_Ok in Eb as [_ Hb]. apply check_route_Ok in Er.
  apply free_bank_Some in Efree as [Hfree _].
  set (j := {| request_id := rid; source_stack := stack; kind := k; job_route := rr; bytes := bc;
              ready_ns := None; arrival_ns := Some arr; sequence := next_sequence f; state := BACKEND_RESERVED;
              hbf_bank := if decide (k = HBF) then Some bank else None;
              hbm_bank := if decide (k = HBM) then Some bank else None |}).
  set (f' := add_event _ _).
  constructor.
  - apply (base_new f f' j [mk bank]); try done; simpl; try lia.
    + by destruct k.
    + intros s ->%list_elem_of_singleton. done.
    + unfold held, bank_slots, link_slot, hbm_of. destruct k; simpl; by injection Esb as <- _.
    + apply timers_new; [done|done|apply Hi].
    + apply timers_new; [done|done|apply Hi].
  - destruct Ht. by constructor.
  - apply (saturated_mono f); [|done]. constructor; simpl; try done.
    + intros s Hs. destruct (decide (mk bank = s)) as [<-|]; [rewrite lookup_insert_eq; eauto|by rewrite lookup_insert_ne].
    + intros id' j'. destruct (decide (rid = id')) as [<-|]; [rewrite lookup_insert_eq; by intros [= <-]|].
      by rewrite lookup_insert_ne.
Qed.

Lemma mark_inv id t f r f' : fabric_inv f -> mark_source_ready id t f = (r, f') -> fabric_inv f'.
Proof.
  intros [Hi Ht Hsat] E. unfold mark_source_ready in E. erewrite sbind_step in E by reflexivity.
  peel E j Ej. peel_guard E Hst. peel E done_ Et. peel_guard E Hle. apply Z.leb_le in Hle. injection E as _ <-.
  assert (Hj : jobs f !! id = Some j) by (unfold of_option in Ej; destruct (jobs f !! id); by simplify_eq).
  apply bool_decide_eq_true in Hst. pose proof (bi_jobs _ _ Hi _ _ Hj) as [Hid _ _ _ Hshape].
  set (j' := with_ready done_ (with_state BACKEND_READY_PENDING j)). set (f' := set_backend_ready _ _).
  constructor.
  - apply (base_move f f' [] [] id j j' [] []); try done.
    + unfold shape_ok in *. rewrite Hst in Hshape. exact Hshape.
    + intros s Hs. by apply not_elem_of_nil in Hs.
    + intros s Hs. by apply not_elem_of_nil in Hs.
    + intros s. unfold held, bank_slots, link_slot, hbm_of. simpl. rewrite Hst. set_solver.
    + eapply timers_keep; [done|by rewrite Hst|done|apply Hi].
    + apply (timers_add _ _ (done_, sequence j, id)); [|done|apply Hi]. simpl. rewrite Hj.
      intros j2 [= <-]. by rewrite Hst.
    + eapply running_keep; [done|by rewrite Hst|done|apply Hi].
  - destruct Ht as [Hsa Hsb Hsr Hta Htb Htr]. constructor; simpl; try done.
    + apply sinsert_sorted; [apply timer_le_total|apply timer_le_trans|done].
    + rewrite Forall_forall. intros e [->|He]%sinsert_elem; [done|]. rewrite Forall_forall in Htb. auto.
  - apply (saturated_mono f); [|done]. constructor; simpl; try done.
    intros id' j2. destruct (decide (id = id')) as [<-|]; [rewrite lookup_insert_eq; by intros [= <-]|].
    by rewrite lookup_insert_ne.
Qed.

(** Moving the clock to a horizon before every event. *)
Lemma set_now_inv f h : fabric_inv f -> now f <= h ->
  match next_event_ns f with Some t => h < t | None => True end -> fabric_inv (set_now h f).
Proof.
  intros [Hi Ht Hsat] Hle Hev. pose proof (next_event_spec f Ht) as Hn. constructor.
  - by eapply (base_inv_ext f _ []).
  - destruct Ht as [Hsa Hsb Hsr Hta Htb Htr]. destruct (next_event_ns f) as [t|].
    + destruct Hn as (_ & H1 & H2 & H3 & _). constructor; simpl; try done;
        (eapply Forall_impl; [eassumption|]; simpl; lia).
    + destruct Hn as (H1 & H2 & H3). constructor; simpl; rewrite ?H1, ?H2, ?H3; done.
  - apply (saturated_mono f); [|done]. by constructor.
Qed.

Lemma advance_ok f h : fabric_inv f -> now f <= h -> 0 <= h ->
  exists f', advance (VInt h) f = (Ok tt, f') /\ fabric_inv f' /\ now f' = h /\ cfg f' = cfg f
    /\ (match next_event_ns f' with Some t => h < t | None => True end) /\ history f f'
    /\ (work (jobs f') <= work (jobs f))%nat
    /\ (forall t, next_event_ns f = Some t -> t <= h -> (work (jobs f') < work (jobs f))%nat).
Proof.
  intros Hi Hle Hpos. pose proof (work_bound (jobs f)).
  destruct (advance_loop_inv (advance_fuel f) h f Hi) as (f1 & Hf1 & Hi1 & Hc1 & Hn1 & Hev & Hh1 & Hw1 & Hp1);
    [unfold advance_fuel; lia|done|].
  exists (set_now h f1). split_and!; [|by apply set_now_inv|done|done|done| |done|done].
  2:{ eapply history_trans; [exact Hh1|]. by apply history_wait. }
  unfold advance. erewrite sbind_step by reflexivity.
  erewrite sbind_step by (apply lift_Ok; simpl; by rewrite (proj2 (Z.leb_le 0 h) Hpos)).
  erewrite sbind_step by (apply require_Ok; by apply Z.leb_le). by erewrite sbind_step by exact Hf1.
Qed.

Lemma advance_inv h f r f' : fabric_inv f -> advance h f = (r, f') -> fabric_inv f'.
Proof.
  intros Hi E. pose proof E as E0. unfold advance in E. erewrite sbind_step in E by reflexivity.
  peel E t Et. peel_guard E Hle. apply integer_Ok in Et as [-> Hpos]. apply Z.leb_le in Hle.
  destruct (advance_ok f t Hi Hle Hpos) as (f1 & Hf1 & Hi1 & _). congruence.
Qed.

(** *** Intake of a request that fits *)

Lemma timely_new f f' rid j : timely f -> jobs f !! rid = None -> state j = BACKEND_RESERVED ->
  jobs f' = <[rid := j]> (jobs f) -> completions f' = completions f -> now f' = now f ->
  arrivals f' = arrivals f -> backend_ready f' = backend_ready f -> timely f'.
Proof.
  intros [H1 H2] Hn Hs Ej Ec En Ea Eb. constructor; [|by rewrite Ec]. intros id j0. rewrite Ej.
  destruct (decide (rid = id)) as [<-|]; [rewrite lookup_insert_eq|rewrite lookup_insert_ne by done].
  - intros [= <-]. unfold ready_ok. by rewrite Hs.
  - intros Hj0. specialize (H1 _ _ Hj0). unfold ready_ok in *. by rewrite En, Ea, Eb.
Qed.

Lemma work_new (m : gmap string job) id j : m !! id = None -> work (<[id := j]> m) = (rank (state j) + work m)%nat.
Proof. intros Hn. unfold work. rewrite map_fold_insert_L; [done| |done]. intros. lia. Qed.

(** A new request that fits takes a bank, or every bank of its source is taken. *)
Lemma reserve_spec f id stack rt b t : fabric_inv f -> jobs f !! id = None -> id <> "" -> 0 < b -> 0 <= t <= now f ->
  is_ok (check_route (cfg f) stack rt b true) = true ->
  exists ok f', reserve_source (VStr id) stack rt (VInt b) (VInt t) f = (Ok ok, f') /\ fabric_inv f'
    /\ if ok then
         exists j, jobs f' = <[id := j]> (jobs f) /\ state j = BACKEND_RESERVED /\ cfg f' = cfg f /\ now f' = now f
           /\ completions f' = completions f /\ next_event_ns f' = next_event_ns f /\ (timely f -> timely f')
           /\ work (jobs f') = (12 + work (jobs f))%nat
           /\ forall s, is_Some (owners f !! s) -> is_Some (owners f' !! s)
       else f' = f /\ exists s, is_Some (owners f !! s).
Proof.
  intros Hi Hn Hid Hb Ht Hr. destruct (reserve_source _ _ _ _ _ f) as [r f'] eqn:E.
  pose proof (reserve_inv _ _ _ _ _ _ _ _ Hi E) as Hi'. unfold reserve_source in E.
  assert (Hc : check_id f (VStr id) = Ok id).
  { unfold check_id. rewrite (proj2 (String.eqb_neq _ _) Hid), Hn, bool_decide_eq_false_2; [done|]. by intros []. }
  erewrite sbind_step in E by reflexivity. erewrite sbind_step in E by (apply lift_Ok; exact Hc).
  erewrite sbind_step in E by (apply lift_Ok; unfold _integer; by rewrite (proj2 (Z.leb_le 1 b)) by lia).
  erewrite sbind_step in E by (apply lift_Ok; unfold _integer; by rewrite (proj2 (Z.leb_le 0 t)) by lia).
  erewrite sbind_step in E by (apply require_Ok, Z.leb_le; lia).
  destruct (check_route _ _ _ _ _) as [[k rr]|] eqn:Er; [|done]. erewrite sbind_step in E by (by apply lift_Ok).
  cbv beta iota in E. destruct (source_banks (cfg f) k stack) as [mk count] eqn:Esb.
  destruct (_free_bank f mk count) as [bank|] eqn:Efree.
  - injection E as <- <-. exists true. eexists. split; [reflexivity|]. split; [done|]. eexists. split; [reflexivity|].
    split; [reflexivity|]. split; [done|]. split; [done|]. split; [done|]. split; [done|]. split; [|split].
    + intros Htm. eapply (timely_new f); [exact Htm|exact Hn| |reflexivity|done..]; done.
    + by apply work_new.
    + intros s Hs. cbn. destruct (decide (mk bank = s)) as [<-|]; [rewrite lookup_insert_eq; eauto|by rewrite lookup_insert_ne].
  - injection E as <- <-. exists false, f. split_and!; try done. exists (mk 0%nat).
    rewrite free_bank_None in Efree. apply Efree. apply check_route_Ok in Er. pose proof (bi_cfg _ _ (fi_base _ Hi)) as Hcfg.
    unfold source_banks in Esb. destruct k.
    + destruct Er as (row & Hrow & _). rewrite Hrow in Esb. injection Esb as _ <-.
      rewrite (fo_count _ _ (co_hbf _ Hcfg _ _ Hrow)). simpl. lia.
    + destruct Er as (row & Hrow). rewrite Hrow in Esb. injection Esb as _ <-.
      rewrite (ho_count _ (co_hbm _ Hcfg _ _ Hrow)). simpl. lia.
Qed.

(** A backend that delivers in the past is refused; otherwise the reservation
    becomes a pending transfer. *)
Lemma mark_spec f id j t : fabric_inv f -> jobs f !! id = Some j -> state j = BACKEND_RESERVED -> 0 <= now f ->
  exists r f', mark_source_ready id (VInt t) f = (r, f') /\ fabric_inv f' /\
    match r with
    | Raise e => t < now f /\ e ∈ [ValueError "backend completion precedes current fabric time";
                                   ValueError "backend_completion_ns must be non-negative"]
    | Ok _ => now f <= t /\ jobs f' = <[id := with_ready t (with_state BACKEND_READY_PENDING j)]> (jobs f)
        /\ cfg f' = cfg f /\ now f' = now f /\ completions f' = completions f /\ owners f' = owners f
        /\ (timely f -> timely f') /\ (work (jobs f') + 1 = work (jobs f))%nat
        /\ forall t0, next_event_ns f = Some t0 -> exists t1, next_event_ns f' = Some t1 /\ t1 <= t0
    end.
Proof.
  intros Hi Hj Hs Hnow. destruct (mark_source_ready id (VInt t) f) as [r f'] eqn:E.
  pose proof (mark_inv _ _ _ _ _ Hi E) as Hi'. exists r, f'. split; [done|]. split; [done|]. unfold mark_source_ready in E.
  erewrite sbind_step in E by reflexivity. erewrite sbind_step in E by (apply lift_Ok; by rewrite Hj).
  erewrite sbind_step in E by (apply require_Ok; by apply bool_decide_eq_true_2).
  destruct (Z.leb_spec (now f) t) as [Hle|Hlt].
  2:{ destruct (0 <=? t) eqn:E0.
      - erewrite sbind_step in E by (apply lift_Ok; unfold _integer; by rewrite E0).
        unfold sbind, require, lift, ensure in E. rewrite (proj2 (Z.leb_gt _ _) Hlt) in E.
        injection E as <- <-. split; [done|]. apply elem_of_cons. by left.
      - unfold sbind, lift, _integer, rbind, ensure in E. rewrite E0 in E. injection E as <- <-. split; [done|].
        apply elem_of_cons. right. apply elem_of_cons. by left. }
  erewrite sbind_step in E by (apply lift_Ok; unfold _integer; by rewrite (proj2 (Z.leb_le 0 t)) by lia).
  erewrite sbind_step in E by (apply require_Ok; by apply Z.leb_le). injection E as <- <-.
  pose proof (jo_id _ _ _ (bi_jobs _ _ (fi_base _ Hi) _ _ Hj)) as Hid.
  split; [done|]. split; [done|]. do 4 (split; [done|]). split; [|split].
  - intros [H1 H2]. constructor; [|done]. intros id' j0. cbn [jobs set_backend_ready set_jobs].
    destruct (decide (id = id')) as [<-|]; [rewrite lookup_insert_eq|rewrite lookup_insert_ne by done].
    + intros [= <-]. cbn. exists (t, sequence j, id). split; [apply sinsert_elem; by left|done].
    + intros Hj0. specialize (H1 _ _ Hj0). unfold ready_ok in *. destruct (state j0); try done.
      destruct H1 as (e & He & Hr). exists e. split; [|done]. apply sinsert_elem. by right.
  - pose proof (work_insert (jobs f) _ _ (with_ready t (with_state BACKEND_READY_PENDING j)) Hj). cbn in *. rewrite Hs in *.
    simpl in *. lia.
  - intros t0 H0. pose proof (next_event_spec _ (fi_time _ Hi)) as Hn. rewrite H0 in Hn.
    pose proof (next_event_spec _ (fi_time _ Hi')) as Hn'. destruct Hn as (_ & _ & _ & _ & Hex).
    match type of Hi' with fabric_inv ?g => destruct (next_event_ns g) as [t1|] end.
    + exists t1. split; [done|]. destruct Hn' as (_ & Ha & Hb & Hr & _). cbn in Ha, Hb, Hr. rewrite Forall_forall in Ha, Hb. rewrite Forall_forall in Hr.
      destruct Hex as [(e & l & E & <-)|[(e & l & E & <-)|(e & l & E & <-)]];
        [apply Ha|apply Hb, sinsert_elem; right|apply Hr]; rewrite E; apply elem_of_cons; by left.
    + exfalso. destruct Hn' as (Ha & Hb & Hr). cbn in Ha, Hb, Hr.
      destruct Hex as [(e & l & E & _)|[(e & l & E & _)|(e & l & E & _)]]; [congruence| |congruence].
      assert (Hin : (t, sequence j, id) ∈ sinsert timer_le (t, sequence j, id) (backend_ready f)) by (apply sinsert_elem; by left).
      rewrite Hb in Hin. by apply not_elem_of_nil in Hin.
Qed.

(** ** Reachable states *)

(** Every state a caller can bring the fabric to, failed calls included. *)
Inductive reachable : fabric -> Prop :=
| reach_init v f : init v = Ok f -> reachable f
| reach_enqueue f id stack rt b t r f' :
    reachable f -> enqueue id stack rt b t f = (r, f') -> reachable f'
| reach_reserve f id stack rt b t r f' :
    reachable f -> reserve_source id stack rt b t f = (r, f') -> reachable f'
| reach_reserve_hbf f id stack rt b t r f' :
    reachable f -> reserve_hbf id stack rt b t f = (r, f') -> reachable f'
| reach_mark f id t r f' : reachable f -> mark_source_ready id t f = (r, f') -> reachable f'
| reach_mark_hbf f id t r f' : reachable f -> mark_hbf_ready id t f = (r, f') -> reachable f'
| reach_advance f h r f' : reachable f -> advance h f = (r, f') -> reachable f'.

Lemma init_inv v f : init v = Ok f -> fabric_inv f.
Proof.
  unfold init. intros H. inv_ok. match goal with H : _normalize _ = Ok _ |- _ => apply normalize_ok in H end.
  assert (Hnone : forall st, timers_ok st ∅ []).
  { intros st. split; [constructor|]. intros id. rewrite lookup_empty. split; [by intros ?%not_elem_of_nil|naive_solver]. }
  constructor.
  - constructor; simpl; try done.
    + intros s id. rewrite lookup_empty. split; [done|]. intros (j & Hj & _). by rewrite lookup_empty in Hj.
    + split_and!; [constructor|intros e He; by apply not_elem_of_nil in He|]. intros id j. by rewrite lookup_empty.
  - by constructor.
  - constructor; simpl.
    + intros stack row _. right. right. intros id j. simpl. by rewrite lookup_empty.
    + intros id j. simpl. by rewrite lookup_empty.
    + intros stack row _. right. intros id j. simpl. by rewrite lookup_empty.
Qed.

Lemma reachable_inv f : reachable f -> fabric_inv f.
Proof.
  induction 1; eauto using init_inv, enqueue_inv, reserve_inv, mark_inv, advance_inv.
  - rename H0 into E. unfold reserve_hbf in E. erewrite sbind_step in E by reflexivity. peel_guard E Hd.
    by eapply reserve_inv.
  - rename H0 into E. unfold mark_hbf_ready in E. erewrite sbind_step in E by reflexivity.
    peel E j Ej. peel_guard E Hk. by eapply mark_inv.
Qed.

(** *** An idle fabric *)

Section idle.
Context (f : fabric) (Hinv : fabric_inv f) (Hidle : next_event_ns f = None).
Context (Hres : forall id j, jobs f !! id = Some j -> state j <> BACKEND_RESERVED).

Let Hi : base_inv f [] := fi_base f Hinv.

Lemma idle_waiting id j : jobs f !! id = Some j -> state j = DONE \/ is_waiting (state j) = true.
Proof using Hinv Hidle Hres.
  intros Hj. pose proof (next_event_spec f (fi_time _ Hinv)) as Hn. rewrite Hidle in Hn.
  destruct Hn as (Ha & Hb & Hr). specialize (Hres id j Hj).
  assert (H1 : state j <> WAIT_READY).
  { intros E. destruct (bi_arrivals _ _ Hi) as [_ H]. rewrite Ha in H.
    apply (not_elem_of_nil id), H. eauto. }
  assert (H2 : state j <> BACKEND_READY_PENDING).
  { intros E. destruct (bi_backend _ _ Hi) as [_ H]. rewrite Hb in H.
    apply (not_elem_of_nil id), H. eauto. }
  assert (H3 : is_running (state j) = false).
  { destruct (is_running (state j)) eqn:E; [|done]. destruct (bi_running _ _ Hi) as (_ & _ & H).
    specialize (H id j Hj E). rewrite Hr in H. by apply not_elem_of_nil in H. }
  destruct (state j); auto; done.
Qed.

(** Only banks are owned, by waiting jobs. *)
Lemma idle_owner s id : owners f !! s = Some id ->
  exists j, jobs f !! id = Some j /\ is_waiting (state j) = true /\ s ∈ bank_slots (cfg f) j.
Proof using Hinv Hidle Hres.
  intros (j & Hj & Hs)%(bi_own _ _ Hi). exists j. split; [done|].
  pose proof (jo_shape _ _ _ (bi_jobs _ _ Hi _ _ Hj)) as Hshape.
  unfold held in Hs. rewrite elem_of_app in Hs. destruct (idle_waiting id j Hj) as [Hd|Hw].
  - exfalso. unfold shape_ok in Hshape. unfold bank_slots, link_slot in Hs. rewrite Hd in *.
    destruct (hbf_bank j), (hbm_bank j); try done. simpl in Hs. rewrite elem_of_nil in Hs. tauto.
  - split; [done|]. unfold link_slot in Hs. destruct (state j); try done; rewrite elem_of_nil in Hs; tauto.
Qed.

Lemma idle_links_free s id : owners f !! s = Some id ->
  match s with HbfBank _ _ | HbmBank _ _ => True | _ => False end.
Proof using Hinv Hidle Hres.
  intros (j & _ & _ & Hs)%idle_owner. unfold bank_slots in Hs. rewrite elem_of_app in Hs.
  destruct s; try done; destruct (hbf_bank j), (hbm_bank j), (hbm_of (cfg f) j);
    rewrite ?elem_of_nil, ?list_elem_of_singleton in Hs; naive_solver.
Qed.

Lemma idle_no_gpu id j : jobs f !! id = Some j -> state j <> HBM_READY /\ state j <> READY_HBM.
Proof using Hinv Hidle Hres.
  intros Hj. pose proof (bi_jobs _ _ Hi _ _ Hj) as [_ _ _ Hsrc Hshape].
  enough (H : ~ (state j = HBM_READY \/ state j = READY_HBM)) by tauto. intros Hst.
  assert (Hp : exists p row, gpu_candidate (cfg f) p j = true /\ dget (cfg_hbm (cfg f)) p = Some row).
  { unfold source_ok in Hsrc. unfold shape_ok in Hshape. unfold gpu_candidate.
    destruct Hst as [Hst|Hst]; rewrite Hst in Hshape; destruct (kind j); try (by destruct (hbf_bank j), (hbm_bank j)).
    - destruct Hsrc as [row Hrow]. exists (source_stack j), row. split; [|done].
      rewrite String.eqb_refl. by apply bool_decide_eq_true_2.
    - destruct (hbf_bank j), (hbm_bank j); try done. apply bool_decide_eq_true in Hshape.
      destruct Hsrc as (row & Hrow & Hpair). destruct (Hpair Hshape) as [p Hp].
      pose proof (fo_relay _ _ (co_hbf _ (bi_cfg _ _ Hi) _ _ Hrow)) as Hl. rewrite Hp in Hl.
      destruct (relay_link row); [|done]. destruct Hl as [[peer Hpeer]%dget_is_Some _].
      exists p, peer. split; [|done]. rewrite Hrow. simpl. rewrite Hp.
      by rewrite !bool_decide_eq_true_2. }
  destruct Hp as (p & row & Hc & Hrow). destruct (sa_gpu _ (fi_sat _ Hinv) p row Hrow) as [[o Ho]|H].
  - by apply idle_links_free in Ho.
  - rewrite (H id j Hj) in Hc. done.
Qed.

Lemma idle_no_link id j : jobs f !! id = Some j -> state j <> READY_HBF.
Proof using Hinv Hidle Hres.
  intros Hj Hst. pose proof (sa_link _ (fi_sat _ Hinv) id j Hj Hst) as Hl. destruct (job_route j).
  - destruct Hl as [o Ho]. by apply idle_links_free in Ho.
  - destruct Hl as [[o Ho]|(p & peer & _ & Hpeer & Hfree)]; [by apply idle_links_free in Ho|].
    rewrite free_bank_None, (ho_count _ (co_hbm _ (bi_cfg _ _ Hi) _ _ Hpeer)) in Hfree.
    destruct (Hfree 0%nat ltac:(simpl; lia)) as [o (j2 & Hj2 & Hw & Hs)%idle_owner].
    destruct (idle_no_gpu _ _ Hj2) as [H1 H2].
    pose proof (jo_shape _ _ _ (bi_jobs _ _ Hi _ _ Hj2)) as Hshape. unfold shape_ok in Hshape.
    unfold bank_slots in Hs. destruct (state j2); try done;
      destruct (kind j2), (hbf_bank j2), (hbm_bank j2); try done; simpl in Hs;
      rewrite ?elem_of_nil, ?list_elem_of_singleton in Hs; done.
Qed.

Lemma idle_done id j : jobs f !! id = Some j -> state j = DONE.
Proof using Hinv Hidle Hres.
  intros Hj. destruct (idle_waiting id j Hj) as [|Hw]; [done|].
  destruct (idle_no_gpu _ _ Hj) as [H1 H2]. pose proof (idle_no_link _ _ Hj) as H3.
  destruct (state j) eqn:Hst; try done. exfalso.
  pose proof (bi_jobs _ _ Hi _ _ Hj) as [_ _ _ Hsrc Hshape]. unfold shape_ok in Hshape. rewrite Hst in Hshape.
  unfold source_ok in Hsrc. destruct (kind j); [|by destruct (hbf_bank j), (hbm_bank j)].
  destruct Hsrc as (row & Hrow & _). destruct (sa_fill _ (fi_sat _ Hinv) _ _ Hrow) as [[o Ho]|[Hfree|Hno]].
  - by apply idle_links_free in Ho.
  - rewrite free_bank_None, (fo_count _ _ (co_hbf _ (bi_cfg _ _ Hi) _ _ Hrow)) in Hfree.
    destruct (Hfree 0%nat ltac:(simpl; lia)) as [o (j2 & Hj2 & Hw2 & Hs)%idle_owner].
    pose proof (idle_no_link _ _ Hj2). destruct (idle_no_gpu _ _ Hj2).
    pose proof (jo_shape _ _ _ (bi_jobs _ _ Hi _ _ Hj2)) as Hshape2. unfold shape_ok in Hshape2.
    unfold bank_slots in Hs. destruct (state j2); try done.
    destruct (kind j2), (hbf_bank j2), (hbm_bank j2); try done. simpl in Hs. by rewrite elem_of_nil in Hs.
  - by apply (Hno id j Hj).
Qed.
End idle.

Lemma done_no_owner f : fabric_inv f -> (forall id j, jobs f !! id = Some j -> state j = DONE) -> owners f = ∅.
Proof.
  intros [Hi _ _] Hdone. apply map_empty. intros s. apply eq_None_not_Some. intros [id (j & Hj & Hs)%(bi_own _ _ Hi)].
  pose proof (jo_shape _ _ _ (bi_jobs _ _ Hi _ _ Hj)) as Hshape.
  unfold shape_ok in Hshape. unfold held, bank_slots, link_slot in Hs. rewrite (Hdone _ _ Hj) in *.
  destruct (hbf_bank j), (hbm_bank j); try done. by apply not_elem_of_nil in Hs.
Qed.

(** A horizon after which nothing is left to happen. *)
Lemma drain_horizon f : fabric_inv f ->
  exists h f', now f <= h /\ advance (VInt h) f = (Ok tt, f') /\ fabric_inv f' /\ next_event_ns f' = None
    /\ (forall id j, jobs f' !! id = Some j -> state j = BACKEND_RESERVED -> jobs f !! id = Some j)
    /\ (forall id, is_Some (jobs f' !! id) <-> is_Some (jobs f !! id)).
Proof.
  intros Hi. destruct (advance_loop_drains _ f (Nat.le_refl _) Hi) as (h & Hle & Hpos & Hloop).
  pose proof (work_bound (jobs f)). destruct (Hloop (advance_fuel f)) as (f1 & Hf1 & Hi1 & Hne & Hback); [unfold advance_fuel; lia|].
  destruct (advance_ok f h Hi Hle Hpos) as (f2 & Hf2 & Hi2 & Hn2 & _ & _ & Hh2 & _).
  pose proof (hy_dom _ _ Hh2) as Hd2.
  assert (E : f2 = set_now h f1).
  { unfold advance in Hf2. erewrite sbind_step in Hf2 by reflexivity.
    erewrite sbind_step in Hf2 by (apply lift_Ok; simpl; by rewrite (proj2 (Z.leb_le 0 h) Hpos)).
    erewrite sbind_step in Hf2 by (apply require_Ok; by apply Z.leb_le).
    erewrite sbind_step in Hf2 by exact Hf1. by injection Hf2. }
  exists h, f2. split_and!; try done; rewrite E; [exact Hne|exact Hback].
Qed.

(** ** Correctness *)

Definition demo_stage (latency bandwidth : Z) : pyval :=
  VDict [("latency_ns", VInt latency); ("bandwidth_bytes_per_s", VInt bandwidth)].

(** One HBF stack paired with one HBM stack. *)
Definition demo_config : pyval := VDict [
  ("evidence", VStr "SCENARIO_ASSUMPTION");
  ("hbf", VDict [("hbf0", VDict [
     ("pair", VStr "hbm0"); ("bank_count", VInt 2); ("bank_capacity_bytes", VInt 4096);
     ("fill", demo_stage 1 1000000000000); ("direct_link", demo_stage 2 1000000000000);
     ("relay_link", demo_stage 3 1000000000000)])]);
  ("hbm", VDict [("hbm0", VDict [
     ("bank_count", VInt 2); ("bank_capacity_bytes", VInt 4096); ("gpu_link", demo_stage 4 1000000000000)])])].

Definition demo_start : fabric :=
  match init demo_config with
  | Ok f => f
  | Raise _ => {| cfg := {| cfg_hbf := []; cfg_hbm := [] |}; now := 0; next_sequence := 0; jobs := ∅;
                  arrivals := []; backend_ready := []; active := []; completions := []; events := []; owners := ∅ |}
  end.

(** A direct and two relayed HBF reads, one HBM read and a backend reservation. *)
Definition demo_requests : M fabric unit :=
  let! _ := enqueue (VStr "a") "hbf0" "direct" (VInt 4096) (VInt 0) in
  let! _ := enqueue (VStr "b") "hbf0" "relay" (VInt 4096) (VInt 0) in
  let! _ := enqueue (VStr "c") "hbf0" "relay" (VInt 4096) (VInt 0) in
  let! _ := enqueue (VStr "d") "hbm0" "direct" (VInt 4096) (VInt 3) in
  let! _ := reserve_source (VStr "e") "hbf0" "direct" (VInt 4096) (VInt 0) in
  mark_source_ready "e" (VInt 7).

Definition demo_queued : fabric := snd (demo_requests demo_start).

Lemma demo_start_reachable : reachable demo_start.
Proof. apply (reach_init demo_config). vm_compute. reflexivity. Qed.

(** A reachable state stays reachable under a sequence of calls. *)
Lemma reachable_bind {A B} (m : M fabric A) (k : A -> M fabric B) :
  (forall f r f', reachable f -> m f = (r, f') -> reachable f') ->
  (forall a f r f', reachable f -> k a f = (r, f') -> reachable f') ->
  forall f r f', reachable f -> sbind m k f = (r, f') -> reachable f'.
Proof.
  intros Hm Hk f r f' Hf E. unfold sbind in E. destruct (m f) as [[a|e] f1] eqn:Em; [by eauto|].
  injection E as _ <-. eauto.
Qed.

Lemma demo_queued_reachable : reachable demo_queued.
Proof.
  unfold demo_queued. destruct (demo_requests demo_start) as [r f] eqn:E. simpl.
  revert E. generalize demo_start_reachable. generalize demo_start r f. unfold demo_requests.
  repeat (apply reachable_bind; [intros; eauto using reachable|intros _]). eauto using reachable.
Qed.

(** A configuration the constructor accepts gives every HBF and HBM stack
    exactly two banks, positive capacities and positive bandwidths; HBF and HBM
    names are disjoint; a relay link is present exactly for paired stacks, whose
    peer is configured and shared with no other stack. *)
Theorem fabric_config_sound v f : init v = Ok f ->
  let c := cfg f in
  (forall s row, dget (cfg_hbm c) s = Some row ->
     hbm_bank_count row = 2 /\ 0 < hbm_bank_capacity_bytes row /\ 0 < bandwidth_bytes_per_s (gpu_link row)) /\
  (forall s row, dget (cfg_hbf c) s = Some row ->
     hbf_bank_count row = 2 /\ 0 < hbf_bank_capacity_bytes row
     /\ dget (cfg_hbm c) s = None
     /\ (is_Some (relay_link row) <-> is_Some (pair row))
     /\ forall p, pair row = Some p -> is_Some (dget (cfg_hbm c) p)
          /\ forall s' row', dget (cfg_hbf c) s' = Some row' -> pair row' = Some p -> s' = s).
Proof.
  intros H c. assert (Hc : config_ok c) by (subst c; apply init_inv in H; apply H). clearbody c. split.
  - intros s row Hs. destruct (co_hbm _ Hc _ _ Hs) as [? ? []]. done.
  - intros s row Hs. destruct (co_hbf _ Hc _ _ Hs) as [Hn Hcap _ _ Hr]. split_and!; try done.
    + apply eq_None_not_Some. intros Hm%dget_is_Some. eapply co_disjoint; [exact Hc| |exact Hm].
      apply dget_is_Some. by exists row.
    + destruct (pair row), (relay_link row); split; intros [? ?]; try done; eauto.
    + intros p Hp. rewrite Hp in Hr. destruct (relay_link row); [|done]. destruct Hr as [Hr _].
      split; [by apply dget_is_Some|]. intros s' row' Hs' Hp'. by eapply (co_pairs _ Hc s' s).
Qed.

Lemma fabric_config_sound_witness : exists row,
  dget (cfg_hbf (cfg demo_start)) "hbf0" = Some row /\ hbf_bank_count row = 2.
Proof.
  eexists. split; [vm_compute; reflexivity|].
  apply (proj2 (fabric_config_sound demo_config demo_start ltac:(vm_compute; reflexivity)) "hbf0").
  vm_compute. reflexivity.
Defined.

(** In every reachable state a bank or link is owned by a request exactly
    when that request is in a state that holds it (its banks, and the link of the
    stage it runs): no two requests share a slot, and once every request is done
    no slot is owned. *)
Theorem fabric_ownership f : reachable f ->
  (forall s id, owners f !! s = Some id <-> exists j, jobs f !! id = Some j /\ s ∈ held (cfg f) j)
  /\ (forall id j id' j' s, jobs f !! id = Some j -> jobs f !! id' = Some j' ->
        s ∈ held (cfg f) j -> s ∈ held (cfg f) j' -> id = id')
  /\ ((forall id j, jobs f !! id = Some j -> state j = DONE) -> owners f = ∅).
Proof.
  intros Hinv%reachable_inv. pose proof (bi_own _ _ (fi_base _ Hinv)) as Hown. split_and!; [done| |].
  - intros id j id' j' s Hj Hj' Hs Hs'.
    assert (H1 : owners f !! s = Some id) by (apply Hown; eauto).
    assert (H2 : owners f !! s = Some id') by (apply Hown; eauto). congruence.
  - by apply done_no_owner.
Qed.

Lemma fabric_ownership_witness :
  owners demo_queued !! HbfBank "hbf0" 0 = Some "e" /\
  exists j, jobs demo_queued !! "e" = Some j /\ HbfBank "hbf0" 0 ∈ held (cfg demo_queued) j.
Proof.
  assert (H : owners demo_queued !! HbfBank "hbf0" 0 = Some "e") by (vm_compute; reflexivity).
  split; [exact H|]. apply (fabric_ownership demo_queued demo_queued_reachable). exact H.
Defined.

(** Advancing to any horizon that is not in the past terminates without an
    error, sets the clock to the horizon, keeps the set of requests and leaves
    only events strictly after the horizon. *)
Theorem fabric_advance_total f h : reachable f -> now f <= h -> 0 <= h ->
  exists f', advance (VInt h) f = (Ok tt, f') /\ reachable f' /\ now f' = h
    /\ (forall id, is_Some (jobs f' !! id) <-> is_Some (jobs f !! id))
    /\ match next_event_ns f' with Some t => h < t | None => True end.
Proof.
  intros Hr Hle Hpos. destruct (advance_ok f h (reachable_inv _ Hr) Hle Hpos) as (f' & Ha & _ & Hn & _ & He & Hh & _).
  exists f'. split_and!; try done; [by eapply reach_advance|apply (hy_dom _ _ Hh)].
Qed.

Lemma fabric_advance_total_witness : exists f',
  advance (VInt 15) demo_queued = (Ok tt, f') /\ now f' = 15.
Proof.
  destruct (fabric_advance_total demo_queued 15 demo_queued_reachable) as (f' & H & _ & Hn & _).
  - vm_compute. discriminate.
  - vm_compute. discriminate.
  - exists f'. split; [exact H|exact Hn].
Defined.

(** C8: the fabric never deadlocks.  From every reachable state in which no
    request waits for its backend, advancing far enough completes every request,
    with every bank and link released. *)
Theorem fabric_drains f : reachable f ->
  (forall id j, jobs f !! id = Some j -> state j <> BACKEND_RESERVED) ->
  exists h f', now f <= h /\ advance (VInt h) f = (Ok tt, f')
    /\ (forall id, is_Some (jobs f !! id) -> exists j, jobs f' !! id = Some j /\ state j = DONE)
    /\ owners f' = ∅ /\ next_event_ns f' = None.
Proof.
  intros Hr Hres. pose proof (reachable_inv _ Hr) as Hi.
  destruct (drain_horizon f Hi) as (h & f' & Hle & Ha & Hi' & Hne & Hback & Hdom).
  assert (Hd : forall id j, jobs f' !! id = Some j -> state j = DONE).
  { intros id j Hj. eapply (idle_done f' Hi' Hne); [|exact Hj].
    intros id' j' Hj' Hst. by apply (Hres id' j'); [apply Hback|]. }
  exists h, f'. split_and!; try done.
  - intros id [j Hj]%Hdom. eauto.
  - by apply done_no_owner.
Qed.

Lemma fabric_drains_witness : exists h f',
  advance (VInt h) demo_queued = (Ok tt, f') /\ owners f' = ∅.
Proof.
  destruct (fabric_drains demo_queued demo_queued_reachable) as (h & f' & _ & Ha & _ & Ho & _).
  - assert (H : map_Forall (fun (_ : string) j => state j <> BACKEND_RESERVED) (jobs demo_queued)).
    { apply (bool_decide_unpack _). vm_compute. exact I. }
    exact H.
  - exists h, f'. split; [exact Ha|exact Ho].
Defined.
End BasicFabric.
