(* ===== verification/BasicHbm.v ===== *)
(** * The HBM media servers

    Model of [src/tools/eq3_basic_hbm.py]: one FIFO media server per HBM stack.
    The request dictionaries are shared by reference in the source: they are
    stored once, under their identifier, and the queues hold identifiers.
    Bandwidths and energies are Python floats. *)

From S2P Require Import Prelude ProgramLogic PyFloat.

Module BasicHbm.

Definition SCHEMA : string := "eq3-basic-hbm-v1".
Definition EVIDENCE : string := "PARAMETRIC_HBM_SCENARIO".

Inductive operation := Read | Write.
Definition OPS : list string := ["read"; "write"].

#[export] Instance operation_eq_dec : EqDecision operation.
Proof. solve_decision. Defined.

Definition op_name (o : operation) : string := match o with Read => "read" | Write => "write" end.

(** A dictionary with exactly the keys [OPS]. *)
Record per_op (A : Type) := { on_read : A; on_write : A }.
Arguments on_read {A} _.
Arguments on_write {A} _.
Definition sel {A} (p : per_op A) (o : operation) : A := match o with Read => on_read p | Write => on_write p end.

(** ** Validation *)

Definition _integer (value : pyval) (label : string) (positive : bool) : result Z :=
  match value with
  | VInt z =>
      let? _ := ensure ((if positive then 1 else 0) <=? z) (ValueError (label +:+ " is outside its allowed range")) in
      Ok z
  | _ => Raise (ValueError (label +:+ " must be an integer"))
  end.

(** [math.nextafter(0.0, 1.0)]: the least positive float. *)
Definition least_positive : spec_float := S754_finite false 1 (-1074).

Definition _number (value : pyval) (label : string) (positive : bool) : result spec_float :=
  let? x := match value with
            | VInt z => float_of_int z
            | VFloat f => Ok f
            | _ => Raise (ValueError (label +:+ " must be numeric"))
            end in
  let? _ := ensure (isfinite x && negb (flt x (if positive then least_positive else S754_zero false)))
              (ValueError (label +:+ " is outside its allowed range")) in
  Ok x.

(** ** State *)

Inductive request_state := ARRIVED | QUEUED | MEDIA_ACTIVE | MEDIA_COMPLETE.

#[export] Instance request_state_eq_dec : EqDecision request_state.
Proof. solve_decision. Defined.

Record request := {
  request_id : string; stack_id : string; op : operation; bytes : Z; arrival_ns : Z; state : request_state;
  submit_ns : option Z; media_start_ns : option Z; media_end_ns : option Z }.

Record hbm_stack := {
  latency : per_op Z; bandwidth : per_op spec_float; energy : per_op (option spec_float);
  latency_evidence : string; bandwidth_evidence : string; energy_evidence : pyval;
  queue : list string; active : option string }.

(** The facts [_emit] records and the [extra] of each phase. *)
Inductive phase :=
| PArrival
| PSubmit
| PMediaStart (media_end media_duration fixed_media_latency bandwidth_transfer : Z)
    (latency_evidence bandwidth_evidence : string)
| PMediaComplete (media_energy_j : option spec_float) (media_energy_status : pyval).

Record fact := {
  event_id : Z; fact_phase : phase; time_ns : Z; fact_request : string; fact_stack : string;
  fact_op : operation; fact_bytes : Z; resource : string }.

Record media_completion := {
  m_request : string; m_time_ns : Z; m_stack : string; m_op : operation; m_bytes : Z;
  m_energy_j : option spec_float; m_energy_status : pyval }.

Record hbm := {
  stacks : dict string hbm_stack; now_ns : Z; requests : gmap string request;
  facts : list fact; completions : list media_completion; next_event_id : Z }.

Definition set_stacks (d : dict string hbm_stack) (h : hbm) : hbm :=
  {| stacks := d; now_ns := now_ns h; requests := requests h; facts := facts h;
     completions := completions h; next_event_id := next_event_id h |}.
Definition set_now (t : Z) (h : hbm) : hbm :=
  {| stacks := stacks h; now_ns := t; requests := requests h; facts := facts h;
     completions := completions h; next_event_id := next_event_id h |}.
Definition set_requests (m : gmap string request) (h : hbm) : hbm :=
  {| stacks := stacks h; now_ns := now_ns h; requests := m; facts := facts h;
     completions := completions h; next_event_id := next_event_id h |}.
Definition set_facts (l : list fact) (h : hbm) : hbm :=
  {| stacks := stacks h; now_ns := now_ns h; requests := requests h; facts := l;
     completions := completions h; next_event_id := next_event_id h |}.
Definition set_completions (l : list media_completion) (h : hbm) : hbm :=
  {| stacks := stacks h; now_ns := now_ns h; requests := requests h; facts := facts h;
     completions := l; next_event_id := next_event_id h |}.

Definition with_queue (q : list string) (a : option string) (st : hbm_stack) : hbm_stack :=
  {| latency := latency st; bandwidth := bandwidth st; energy := energy st;
     latency_evidence := latency_evidence st; bandwidth_evidence := bandwidth_evidence st;
     energy_evidence := energy_evidence st; queue := q; active := a |}.

Definition queued_at (t : Z) (r : request) : request :=
  {| request_id := request_id r; stack_id := stack_id r; op := op r; bytes := bytes r; arrival_ns := arrival_ns r;
     state := QUEUED; submit_ns := Some t; media_start_ns := media_start_ns r; media_end_ns := media_end_ns r |}.
Definition started_at (t e : Z) (r : request) : request :=
  {| request_id := request_id r; stack_id := stack_id r; op := op r; bytes := bytes r; arrival_ns := arrival_ns r;
     state := MEDIA_ACTIVE; submit_ns := submit_ns r; media_start_ns := Some t; media_end_ns := Some e |}.
Definition completed (r : request) : request :=
  {| request_id := request_id r; stack_id := stack_id r; op := op r; bytes := bytes r; arrival_ns := arrival_ns r;
     state := MEDIA_COMPLETE; submit_ns := submit_ns r; media_start_ns := media_start_ns r;
     media_end_ns := media_end_ns r |}.

(** ** Construction *)

(** [value.get(key)] of an object: [None] when absent. *)
Definition get_or_none (d : dict string pyval) (key : string) : pyval := dget_or d key VNone.

Definition as_dict (v : pyval) : result (dict string pyval) :=
  match v with VDict d => Ok d | _ => Raise (AttributeError "object has no attribute 'get'") end.

(** [{op: check(value[op], label) for op in OPS}] of an object with the keys [OPS]. *)
Definition over_ops {A} (check : pyval -> operation -> result A) (value : pyval) (error : string) : result (per_op A) :=
  match value with
  | VDict d =>
      let? _ := ensure (same_set (dkeys d) OPS) (ValueError error) in
      let? raw_read := dindex d "read" in
      let? r := check raw_read Read in
      let? raw_write := dindex d "write" in
      let? w := check raw_write Write in
      Ok {| on_read := r; on_write := w |}
  | _ => Raise (ValueError error)
  end.

(** The shape check alone, which the source makes for both tables first. *)
Definition covers_ops (value : pyval) (error : string) : result unit :=
  match value with
  | VDict d => ensure (same_set (dkeys d) OPS) (ValueError error)
  | _ => Raise (ValueError error)
  end.

Definition optional_number (label : string) (value : pyval) (o : operation) : result (option spec_float) :=
  match value with
  | VNone => Ok None
  | _ => let? x := _number value (label +:+ "." +:+ op_name o +:+ ".energy") false in Ok (Some x)
  end.

Definition nonempty_string (value : pyval) (error : string) : result string :=
  match value with
  | VStr s => let? _ := ensure (negb (String.eqb s "")) (ValueError error) in Ok s
  | _ => Raise (ValueError error)
  end.

Definition is_some {A} (o : option A) : bool := match o with Some _ => true | None => false end.

Definition init_stack (acc : dict string hbm_stack) (raw : pyval) : result (dict string hbm_stack) :=
  let? row := as_dict raw in
  let? s := nonempty_string (get_or_none row "stack_id") "stack_id must be a unique nonempty string" in
  let? _ := ensure (negb (dmem acc s)) (ValueError "stack_id must be a unique nonempty string") in
  let raw_latency := get_or_none row "media_latency_ns" in
  let raw_bandwidth := get_or_none row "media_bandwidth_Bps" in
  let? _ := covers_ops raw_latency (s +:+ " requires read/write media_latency_ns") in
  let? _ := covers_ops raw_bandwidth (s +:+ " requires read/write media_bandwidth_Bps") in
  let? latency := over_ops (fun v o => _integer v (s +:+ "." +:+ op_name o +:+ ".latency") false)
                    raw_latency (s +:+ " requires read/write media_latency_ns") in
  let? bandwidth := over_ops (fun v o => _number v (s +:+ "." +:+ op_name o +:+ ".bandwidth") true)
                      raw_bandwidth (s +:+ " requires read/write media_bandwidth_Bps") in
  let? energy := over_ops (optional_number s)
                   (dget_or row "energy_j_per_byte" (VDict [("read", VNone); ("write", VNone)]))
                   (s +:+ " energy_j_per_byte must cover read/write") in
  let energy_evidence := dget_or row "energy_evidence" (VStr "UNKNOWN_UNPARAMETERIZED") in
  let? latency_evidence := nonempty_string (get_or_none row "media_latency_evidence")
                             (s +:+ " requires media_latency_evidence") in
  let? bandwidth_evidence := nonempty_string (get_or_none row "media_bandwidth_evidence")
                               (s +:+ " requires media_bandwidth_evidence") in
  let? _ := ensure (negb ((is_some (on_read energy) || is_some (on_write energy))
                          && match energy_evidence with VStr e => String.prefix "UNKNOWN" e | _ => true end))
              (ValueError (s +:+ " parameterized energy requires non-UNKNOWN evidence")) in
  Ok (dset acc s {| latency := latency; bandwidth := bandwidth; energy := energy;
                    latency_evidence := latency_evidence; bandwidth_evidence := bandwidth_evidence;
                    energy_evidence := energy_evidence; queue := []; active := None |}).

Definition init (value : pyval) : result hbm :=
  let? config := as_dict value in
  let? _ := ensure (match get_or_none config "schema_version", get_or_none config "evidence_class" with
                    | VStr schema, VStr evidence => String.eqb schema SCHEMA && String.eqb evidence EVIDENCE
                    | _, _ => false
                    end) (ValueError "HBM config must explicitly select PARAMETRIC_HBM_SCENARIO") in
  match get_or_none config "stacks" with
  | VList (row :: rows) =>
      let? d := foldM init_stack (row :: rows) [] in
      Ok {| stacks := d; now_ns := 0; requests := ∅; facts := []; completions := []; next_event_id := 0 |}
  | _ => Raise (ValueError "stacks must be a nonempty list")
  end.

(** [scenario_example]: an explicit example configuration. *)
Definition scenario_example (stack_ids : list string) : pyval :=
  VDict [("schema_version", VStr SCHEMA); ("evidence_class", VStr EVIDENCE);
    ("stacks", VList ((fun s => VDict [
       ("stack_id", VStr s);
       ("media_latency_ns", VDict [("read", VInt 100); ("write", VInt 100)]);
       ("media_latency_evidence", VStr "SCENARIO_ASSUMPTION");
       ("media_bandwidth_Bps", VDict [("read", VInt 2048000000000); ("write", VInt 2048000000000)]);
       ("media_bandwidth_evidence", VStr "DERIVED_WITH_TRANSFER_ASSUMPTION: 2048-bit times 8 Gbit/s raw interface treated as media service bandwidth; not calibrated");
       ("energy_j_per_byte", VDict [("read", VNone); ("write", VNone)]);
       ("energy_evidence", VStr "UNKNOWN_UNPARAMETERIZED")]) <$> stack_ids));
    ("claim_limit", VStr "basic CPU timing scenario; not a real DRAM backend")].

(** ** Service *)

Definition put_request (r : request) : M hbm unit :=
  modify (fun h => set_requests (<[request_id r := r]> (requests h)) h).

Definition put_stack (s : string) (st : hbm_stack) : M hbm unit :=
  modify (fun h => set_stacks (dset (stacks h) s st) h).

Definition _emit (p : phase) (r : request) (t : Z) : M hbm unit :=
  modify (fun h =>
    {| stacks := stacks h; now_ns := now_ns h; requests := requests h;
       facts := facts h ++ [{| event_id := next_event_id h + 1; fact_phase := p; time_ns := t;
                               fact_request := request_id r; fact_stack := stack_id r; fact_op := op r;
                               fact_bytes := bytes r; resource := stack_id r +:+ ":media" |}];
       completions := completions h; next_event_id := next_event_id h + 1 |}).

(** [math.ceil(bytes * 1_000_000_000 / bandwidth)]: an integer divided by a
    float, rounded up. *)
Definition transfer_ns (st : hbm_stack) (o : operation) (byte_count : Z) : result Z :=
  let? x := float_of_int (byte_count * 1000000000) in
  let? q := fdiv x (sel (bandwidth st) o) in
  float_ceil q.

(** The duration and its transfer part, on the request's stack. *)
Definition duration_on (st : hbm_stack) (r : request) : result (Z * Z) :=
  let? transfer := transfer_ns st (op r) (bytes r) in
  Ok (sel (latency st) (op r) + transfer, transfer).

Definition _duration_ns (h : hbm) (r : request) : result (Z * Z) :=
  let? st := dindex (stacks h) (stack_id r) in
  duration_on st r.

Definition find_request (h : hbm) (id : string) : result request := of_option (KeyError id) (requests h !! id).

Definition _start (s : string) : M hbm unit :=
  let! h := get in
  let! st := lift (dindex (stacks h) s) in
  match active st, queue st with
  | None, id :: rest =>
      let! _ := put_stack s (with_queue rest None st) in
      let! r := lift (find_request h id) in
      let! (duration, transfer) := lift (_duration_ns h r) in
      let r' := started_at (now_ns h) (now_ns h + duration) r in
      let! _ := put_request r' in
      let! _ := put_stack s (with_queue rest (Some (request_id r)) st) in
      _emit (PMediaStart (now_ns h + duration) duration (duration - transfer) transfer
               (latency_evidence st) (bandwidth_evidence st)) r' (now_ns h)
  | _, _ => sret tt
  end.

(** The end of the request a stack serves. *)
Definition active_end (h : hbm) (id : string) : result Z :=
  let? r := find_request h id in
  of_option (KeyError "media_end_ns") (media_end_ns r).

Definition next_event_ns (h : hbm) : result (option Z) :=
  let? values := mapR (active_end h) (omap (fun '(_, st) => active st) (stacks h)) in
  Ok (zmin_list values).

(** [sorted(stack_id for ... if ... media_end_ns == now)]. *)
Definition ends_now (h : hbm) (item : string * hbm_stack) : bool :=
  match active item.2 with
  | Some id => match active_end h id with Ok t => t =? now_ns h | Raise _ => false end
  | None => false
  end.
Definition completed_stacks (h : hbm) : list string :=
  isort sle (fst <$> filter (fun item => ends_now h item = true) (stacks h)).

(** [request["bytes"] * energy_parameter], when there is a parameter. *)
Definition media_energy (st : hbm_stack) (o : operation) (byte_count : Z) : result (option spec_float) :=
  match sel (energy st) o with
  | None => Ok None
  | Some e => let? x := float_of_int byte_count in Ok (Some (fmul x e))
  end.

Definition complete_stack (s : string) : M hbm unit :=
  let! h := get in
  let! st := lift (dindex (stacks h) s) in
  let! id := lift (of_option (KeyError "None") (active st)) in
  let! r := lift (find_request h id) in
  let r' := completed r in
  let! _ := put_request r' in
  let! _ := put_stack s (with_queue (queue st) None st) in
  let! e := lift (media_energy st (op r) (bytes r)) in
  let status := match e with None => VStr "UNKNOWN_UNPARAMETERIZED" | Some _ => energy_evidence st end in
  let! _ := _emit (PMediaComplete e status) r' (now_ns h) in
  modify (fun g => set_completions (completions g ++
    [{| m_request := request_id r; m_time_ns := now_ns h; m_stack := s; m_op := op r; m_bytes := bytes r;
        m_energy_j := e; m_energy_status := status |}]) g).

(** One iteration of the loop of [advance], at the next event time. *)
Definition advance_to (t : Z) : M hbm unit :=
  let! _ := modify (set_now t) in
  let! h := get in
  let done := completed_stacks h in
  let! _ := forM done complete_stack in
  forM done _start.

Fixpoint advance_loop (fuel : nat) (target : Z) : M hbm unit :=
  match fuel with
  | O => raise OutOfFuel
  | S fuel' =>
      let! h := get in
      let! e := lift (next_event_ns h) in
      match e with
      | None => sret tt
      | Some t => if target <? t then sret tt else let! _ := advance_to t in advance_loop fuel' target
      end
  end.

(** Each iteration completes at least one request. *)
Definition advance_fuel (h : hbm) : nat := S (size (requests h)).

Definition advance (target : pyval) : M hbm unit :=
  let! t := lift (_integer target "target_ns" false) in
  let! h := get in
  let! _ := require (now_ns h <=? t) (ValueError "HBM clock cannot move backward") in
  let! _ := advance_loop (advance_fuel h) t in
  modify (set_now t).

(** ** Intake *)

(** [stack_id not in self._stacks]: an unhashable key raises. *)
Definition known_stack (h : hbm) (v : pyval) : result string :=
  match v with
  | VStr s => let? _ := ensure (dmem (stacks h) s) (ValueError "unknown HBM stack") in Ok s
  | VList _ => Raise (TypeError "unhashable type: 'list'")
  | VDict _ => Raise (TypeError "unhashable type: 'dict'")
  | _ => Raise (ValueError "unknown HBM stack")
  end.

Definition parse_op (v : pyval) : result operation :=
  match v with
  | VStr s =>
      if String.eqb s "read" then Ok Read else if String.eqb s "write" then Ok Write
      else Raise (ValueError "HBM media supports only read/write")
  | _ => Raise (ValueError "HBM media supports only read/write")
  end.

(** The validated request of [arrival]. *)
Definition check_arrival (h : hbm) (value : pyval) : result request :=
  let error := ValueError "arrival requires request_id, stack_id, op, bytes, arrival_ns" in
  let? d := match value with VDict d => Ok d | _ => Raise error end in
  let? _ := ensure (forallb (dmem d) ["request_id"; "stack_id"; "op"; "bytes"; "arrival_ns"]) error in
  let? raw_id := dindex d "request_id" in
  let? id := nonempty_string raw_id "request_id must be unique and nonempty" in
  let? _ := ensure (bool_decide (requests h !! id = None)) (ValueError "request_id must be unique and nonempty") in
  let? raw_stack := dindex d "stack_id" in
  let? s := known_stack h raw_stack in
  let? raw_op := dindex d "op" in
  let? o := parse_op raw_op in
  let? raw_bytes := dindex d "bytes" in
  let? byte_count := _integer raw_bytes "bytes" true in
  let? raw_arrival := dindex d "arrival_ns" in
  let? arrival_ := _integer raw_arrival "arrival_ns" false in
  let? _ := ensure (negb (dmem d "die" || dmem d "plane"))
              (ValueError "die/plane must remain UNKNOWN; address-derived placement is unsupported") in
  Ok {| request_id := id; stack_id := s; op := o; bytes := byte_count; arrival_ns := arrival_; state := ARRIVED;
        submit_ns := None; media_start_ns := None; media_end_ns := None |}.

Definition arrival (value : pyval) : M hbm request :=
  let! h := get in
  let! r := lift (check_arrival h value) in
  let! _ := advance (VInt (arrival_ns r)) in
  let! _ := put_request r in
  let! _ := _emit PArrival r (arrival_ns r) in
  sret r.

(** [submit]; [time] is [VNone] when the caller gives no time. *)
Definition submit (id : string) (time : pyval) : M hbm (option Z) :=
  let! h := get in
  let! r := lift (of_option (ValueError "request must arrive before submit") (requests h !! id)) in
  let! _ := require (bool_decide (state r = ARRIVED)) (ValueError "request may be submitted exactly once") in
  let! t := lift (match time with VNone => Ok (now_ns h) | _ => _integer time "submit time" false end) in
  let! _ := advance (VInt t) in
  let! _ := require (arrival_ns r <=? t) (ValueError "submit precedes arrival") in
  let r' := queued_at t r in
  let! _ := put_request r' in
  let! g := get in
  let! st := lift (dindex (stacks g) (stack_id r)) in
  let! _ := put_stack (stack_id r) (with_queue (queue st ++ [id]) (active st) st) in
  let! _ := _emit PSubmit r' t in
  let! _ := _start (stack_id r) in
  let! g' := get in
  let! final := lift (find_request g' id) in
  sret (media_start_ns final).

Definition take_facts : M hbm (list fact) :=
  let! h := get in let! _ := put (set_facts [] h) in sret (facts h).

Definition take_media_completions : M hbm (list media_completion) :=
  let! h := get in let! _ := put (set_completions [] h) in sret (completions h).

Definition refresh (s : string) : M hbm string :=
  let! h := get in
  let! _ := require (dmem (stacks h) s) (ValueError "unknown HBM stack") in
  sret "UNSUPPORTED_CAPABILITY".

(** ** Durations *)

(** A finite positive float. *)
Definition positive_float (f : spec_float) : Prop := exists m e, f = S754_finite false m e.

Record stack_params_ok (st : hbm_stack) : Prop := {
  sp_latency : forall o, 0 <= sel (latency st) o;
  sp_bandwidth : forall o, positive_float (sel (bandwidth st) o) }.

Lemma number_positive v l x : _number v l true = Ok x -> positive_float x.
Proof.
  unfold _number. intros H. inv_ok. match goal with H : negb _ = true |- _ => rename H into Hlt end.
  destruct x as [s| | |s m e]; try done. destruct s; [done|]. by exists m, e.
Qed.

Lemma binary_round_aux_sign s m e l :
  match binary_round_aux prec emax s m e l with
  | S754_zero s' | S754_infinity s' | S754_finite s' _ _ => s' = s
  | S754_nan => True
  end.
Proof.
  unfold binary_round_aux. destruct (shr_fexp prec emax m e l) as [mrs e'].
  destruct (shr_fexp prec emax _ e' loc_Exact) as [mrs'' e''].
  destruct (shr_m mrs''); [done| |done]. by destruct (e'' <=? emax - prec).
Qed.

Lemma float_of_pos z x : 0 < z -> float_of_int z = Ok x ->
  match x with S754_zero s | S754_infinity s | S754_finite s _ _ => s = false | S754_nan => True end.
Proof.
  unfold float_of_int, binary_normalize. destruct z as [|p|p]; try lia. intros _.
  unfold binary_round. destruct (shl_align _ _ _) as [mz ez].
  pose proof (binary_round_aux_sign false (Zpos mz) ez loc_Exact) as Hs.
  destruct (binary_round_aux prec emax false (Zpos mz) ez loc_Exact); intros [= <-]; done.
Qed.

Lemma div_positive_sign x y : match x with S754_zero s | S754_infinity s | S754_finite s _ _ => s = false | S754_nan => True end ->
  positive_float y ->
  match SFdiv prec emax x y with S754_zero s | S754_infinity s | S754_finite s _ _ => s = false | S754_nan => True end.
Proof.
  intros Hx (m & e & ->). unfold SFdiv. destruct x as [s|s| |s mx ex]; subst; simpl; try done.
  destruct (SFdiv_core_binary _ _ _ _ _ _) as [[mz ez] lz]. apply binary_round_aux_sign.
Qed.

Lemma float_ceil_nonneg x z : float_ceil x = Ok z ->
  match x with S754_zero s | S754_infinity s | S754_finite s _ _ => s = false | S754_nan => True end -> 0 <= z.
Proof.
  destruct x as [s|s| |s m e]; simpl; try done; [intros [= <-]; lia|]. intros [= <-] ->.
  destruct (0 <=? e) eqn:E; [apply Z.leb_le in E; pose proof (Z.pow_nonneg 2 e); lia|].
  apply Z.leb_gt in E. pose proof (Z.pow_pos_nonneg 2 (- e) ltac:(lia) ltac:(lia)).
  pose proof (Z.div_le_upper_bound (- Zpos m) (2 ^ (- e)) 0). lia.
Qed.

Lemma transfer_nonneg st o b t : stack_params_ok st -> 0 < b -> transfer_ns st o b = Ok t -> 0 <= t.
Proof.
  intros Hst Hb H. unfold transfer_ns in H. inv_ok.
  match goal with H : float_of_int _ = Ok _ |- _ => apply float_of_pos in H; [|lia]; rename H into Hx end.
  match goal with H : fdiv _ _ = Ok _ |- _ => rename H into Hd end.
  destruct (sp_bandwidth _ Hst o) as (m & e & Eb). rewrite Eb in Hd. injection Hd as <-.
  eapply float_ceil_nonneg; [eassumption|]. apply div_positive_sign; [done|]. by exists m, e.
Qed.

Lemma over_ops_Ok {A} (P : A -> Prop) (check : pyval -> operation -> result A) v e p :
  (forall v o x, check v o = Ok x -> P x) -> over_ops check v e = Ok p -> forall o, P (sel p o).
Proof. intros Hc H [|]; destruct v; try done; simpl in H; inv_ok; eauto. Qed.

(** A request whose transfer time and energy the floats can express. *)
Definition serviceable (st : hbm_stack) (o : operation) (b : Z) : bool :=
  is_ok (transfer_ns st o b) && is_ok (media_energy st o b).

Lemma is_ok_ex {A} (r : result A) : is_ok r = true -> exists a, r = Ok a.
Proof. destruct r; [eauto|done]. Qed.

(** ** FIFO schedules *)

Section schedule.
Context (reqs : gmap string request) (st : hbm_stack).

Definition submit_of (id : string) : Z :=
  match reqs !! id with Some r => default 0 (submit_ns r) | None => 0 end.

(** A request starts at the later of its submission and the end of the
    request before it, and takes its latency and transfer time. *)
Definition scheduled (prev : Z) (id : string) (e : Z) : Prop :=
  exists r t b d x, reqs !! id = Some r /\ submit_ns r = Some t /\ media_start_ns r = Some b
    /\ media_end_ns r = Some e /\ b = Z.max t prev /\ duration_on st r = Ok (d, x) /\ e = b + d.

(** The schedule of started requests, in order; [last] is when the last one ends. *)
Inductive schedule : Z -> list string -> Z -> Prop :=
| sched_nil prev : schedule prev [] prev
| sched_cons prev id e rest last : scheduled prev id e -> schedule e rest last -> schedule prev (id :: rest) last.

Definition in_state (s : request_state) (id : string) : Prop :=
  exists r, reqs !! id = Some r /\ state r = s.

Definition waits (id : string) : Prop :=
  exists r, reqs !! id = Some r /\ state r = QUEUED /\ is_Some (submit_ns r)
    /\ media_start_ns r = None /\ media_end_ns r = None.

Lemma schedule_snoc prev l e id e' : schedule prev l e -> scheduled e id e' -> schedule prev (l ++ [id]) e'.
Proof. induction 1; simpl; intros; econstructor; eauto; constructor. Qed.

Lemma schedule_snoc_inv prev l id e : schedule prev (l ++ [id]) e ->
  exists e0, schedule prev l e0 /\ scheduled e0 id e.
Proof.
  revert prev. induction l as [|a l IH]; intros prev; simpl; intros H; inversion H as [|? ? e1 ? ? Hs Hr]; subst.
  - inversion Hr; subst. exists prev. split; [constructor|done].
  - apply IH in Hr as (e0 & Hl & Hs'). exists e0. split; [by econstructor|done].
Qed.
End schedule.

Lemma scheduled_ext reqs reqs' st st' prev id e :
  reqs' !! id = reqs !! id -> (forall r, duration_on st' r = duration_on st r) ->
  scheduled reqs st prev id e -> scheduled reqs' st' prev id e.
Proof.
  intros H Hd (r & t & b & d & x & Hr & Hrest). exists r, t, b, d, x. rewrite H, Hd. by split.
Qed.

Lemma schedule_ext reqs reqs' st st' prev l e :
  (forall id, id ∈ l -> reqs' !! id = reqs !! id) -> (forall r, duration_on st' r = duration_on st r) ->
  schedule reqs st prev l e -> schedule reqs' st' prev l e.
Proof.
  intros H Hd Hs. induction Hs; econstructor.
  - eapply scheduled_ext; [|done|done]. apply H. set_solver.
  - apply IHHs. set_solver.
Qed.

(** ** Invariant *)

Definition submit_le (reqs : gmap string request) (a b : string) : bool := submit_of reqs a <=? submit_of reqs b.

(** When the server is busy the last request ends later; when it is idle, its
    queue, if any, is to be served now. *)
Definition due (reqs : gmap string request) (now : Z) (st : hbm_stack) (last : Z) : Prop :=
  match active st, queue st with
  | Some _, _ => now <= last
  | None, [] => last <= now
  | None, id :: _ => now = Z.max (submit_of reqs id) last
  end.

(** [log] is the submission order of a stack and [done] its completed prefix. *)
Record stack_ok (reqs : gmap string request) (now : Z) (s : string) (st : hbm_stack) (log done : list string) : Prop := {
  so_params : stack_params_ok st;
  so_log : log = done ++ option_list (active st) ++ queue st;
  so_nodup : NoDup log;
  so_members : forall id, id ∈ log <-> exists r, reqs !! id = Some r /\ stack_id r = s /\ state r <> ARRIVED;
  so_submits : forall id, id ∈ log -> submit_of reqs id <= now;
  so_sorted : sorted (submit_le reqs) log;
  so_done : forall id, id ∈ done -> in_state reqs MEDIA_COMPLETE id;
  so_active : forall id, active st = Some id -> in_state reqs MEDIA_ACTIVE id;
  so_queue : forall id, id ∈ queue st -> waits reqs id;
  so_sched : exists last, schedule reqs st 0 (done ++ option_list (active st)) last
               /\ due reqs now st last }.

Lemma submit_of_ext reqs reqs' id : reqs' !! id = reqs !! id -> submit_of reqs' id = submit_of reqs id.
Proof. unfold submit_of. by intros ->. Qed.

Lemma sorted_ext {A} (le le' : A -> A -> bool) l :
  (forall x y, x ∈ l -> y ∈ l -> le' x y = le x y) -> sorted le l -> sorted le' l.
Proof.
  induction l as [|a l IH]; simpl; [done|]. intros H [Ha Hl]. split.
  - rewrite Forall_forall in *. intros y Hy. rewrite H by set_solver. by apply Ha.
  - apply IH; [|done]. intros x y Hx Hy. apply H; set_solver.
Qed.

(** A stack only depends on its own submitted requests. *)
Lemma stack_ok_ext reqs reqs' now s st log done :
  (forall id, id ∈ log -> reqs' !! id = reqs !! id) ->
  (forall id r, id ∉ log -> reqs' !! id = Some r -> stack_id r = s -> state r = ARRIVED) ->
  stack_ok reqs now s st log done -> stack_ok reqs' now s st log done.
Proof.
  intros Heq Hnew H.
  assert (Hin : forall id, id ∈ done \/ id ∈ option_list (active st) \/ id ∈ queue st -> reqs' !! id = reqs !! id).
  { intros id Hid. apply Heq. rewrite (so_log _ _ _ _ _ _ H). rewrite !elem_of_app. tauto. }
  destruct H as [Hp Hl Hnd Hm Hsub Hso Hd Ha Hq (last & Hs & Hlast)]. constructor; try done.
  - intros id. split.
    + intros Hid. rewrite Heq by done. by apply Hm.
    + intros (r & Hr & Hsr & Hst). destruct (decide (id ∈ log)) as [|Hn]; [done|]. destruct Hst. by eapply Hnew.
  - intros id Hid. rewrite (submit_of_ext reqs reqs') by auto. auto.
  - eapply sorted_ext; [|done]. intros x y Hx Hy. unfold submit_le.
    by rewrite (submit_of_ext reqs reqs' x), (submit_of_ext reqs reqs' y) by auto.
  - intros id Hid. destruct (Hd id Hid) as (r & Hr & ?). exists r. rewrite Hin by auto. done.
  - intros id Hid. destruct (Ha id Hid) as (r & Hr & ?). exists r.
    rewrite Hin by (rewrite Hid; set_solver). done.
  - intros id Hid. destruct (Hq id Hid) as (r & Hr & ?). exists r. rewrite Hin by auto. done.
  - exists last. split.
    + eapply schedule_ext; [|done|done]. intros id Hid. apply Hin. rewrite elem_of_app in Hid. tauto.
    + unfold due in *. destruct (active st), (queue st) as [|id q]; try done.
      rewrite (submit_of_ext reqs reqs'); [done|]. apply Hin. set_solver.
Qed.

Lemma stack_ok_frame reqs now s st log done id r r' :
  stack_ok reqs now s st log done -> reqs !! id = Some r -> stack_id r <> s -> stack_id r' = stack_id r ->
  stack_ok (<[id := r']> reqs) now s st log done.
Proof.
  intros H Hr Hne Hs. assert (Hid : id ∉ log).
  { intros (r0 & Hr0 & Hs0 & _)%(so_members _ _ _ _ _ _ H). congruence. }
  eapply stack_ok_ext; [| |done].
  - intros id' Hid'. apply lookup_insert_ne. by intros ->.
  - intros id' r0 Hid' Hr0 Hs0. destruct (decide (id = id')) as [<-|].
    + rewrite lookup_insert_eq in Hr0. congruence.
    + rewrite lookup_insert_ne in Hr0 by done. destruct (decide (state r0 = ARRIVED)) as [|Hn]; [done|].
      destruct Hid'. apply (so_members _ _ _ _ _ _ H). eauto.
Qed.

Section stack_steps.
Context (reqs : gmap string request) (now : Z) (s : string) (st : hbm_stack) (log done : list string).
Context (H : stack_ok reqs now s st log done).
Context (id : string) (r : request) (Hr : reqs !! id = Some r) (Hs : stack_id r = s).

(** The members of the log after an update of one submitted request. *)
Lemma members_update r' (log' : list string) : stack_id r' = s -> state r' <> ARRIVED ->
  (forall id', id' ∈ log' <-> id' = id \/ id' ∈ log) ->
  forall id', id' ∈ log' <-> exists r0, <[id := r']> reqs !! id' = Some r0 /\ stack_id r0 = s /\ state r0 <> ARRIVED.
Proof using H.
  intros Hs' Hst Hlog id'. rewrite Hlog. destruct (decide (id = id')) as [<-|Hne].
  - rewrite lookup_insert_eq. split; [intros _; by exists r'|by left].
  - rewrite lookup_insert_ne by done. rewrite (so_members _ _ _ _ _ _ H). split; [by intros [->|]|by right].
Qed.

Lemma submits_update r' : submit_ns r' = submit_ns r ->
  forall id', submit_of (<[id := r']> reqs) id' = submit_of reqs id'.
Proof using Hr.
  intros Hsub id'. unfold submit_of. destruct (decide (id = id')) as [<-|].
  - by rewrite lookup_insert_eq, Hr, Hsub.
  - by rewrite lookup_insert_ne.
Qed.

Lemma others_keep (P : request -> Prop) r' id' : id' <> id ->
  (exists r0, reqs !! id' = Some r0 /\ P r0) -> exists r0, <[id := r']> reqs !! id' = Some r0 /\ P r0.
Proof using. intros Hne. by rewrite lookup_insert_ne. Qed.

(** Submission appends to the log and the queue. *)
Lemma submit_stack : state r = ARRIVED -> media_start_ns r = None -> media_end_ns r = None ->
  stack_ok (<[id := queued_at now r]> reqs) now s (with_queue (queue st ++ [id]) (active st) st) (log ++ [id]) done.
Proof using H Hr Hs.
  intros Harr Hb He. assert (Hid : id ∉ log).
  { intros (r0 & Hr0 & _ & Hn)%(so_members _ _ _ _ _ _ H). congruence. }
  assert (Hne : forall id', id' ∈ log -> id' <> id) by (intros id' Hi ->; done).
  assert (Hsub : forall id', id' ∈ log -> submit_of (<[id := queued_at now r]> reqs) id' = submit_of reqs id').
  { intros id' Hi. apply submit_of_ext, lookup_insert_ne. intros ->. done. }
  assert (Hnew : submit_of (<[id := queued_at now r]> reqs) id = now) by (unfold submit_of; by rewrite lookup_insert_eq).
  pose proof H as [Hp Hl Hnd Hm Hsu Hso Hd Ha Hq (last & Hsc & Hlast)].
  assert (Hin : forall id', id' ∈ done \/ id' ∈ option_list (active st) \/ id' ∈ queue st -> id' ∈ log).
  { intros id' Hi. rewrite Hl, !elem_of_app. tauto. }
  constructor; simpl; try done.
  - destruct Hp. by constructor.
  - rewrite Hl. by rewrite <- !app_assoc.
  - apply NoDup_app. split; [done|]. split; [set_solver|apply NoDup_singleton].
  - apply members_update; [done|done|]. set_solver.
  - intros id' [Hi| ->%list_elem_of_singleton]%elem_of_app; [|rewrite Hnew; lia]. rewrite Hsub by done. auto.
  - apply sorted_snoc.
    + eapply sorted_ext; [|exact Hso]. intros x y Hx Hy. unfold submit_le. by rewrite !Hsub.
    + intros y Hy. unfold submit_le. rewrite Hnew, Hsub by done. apply Z.leb_le. auto.
  - intros id' Hi. apply others_keep; [|by apply Hd]. auto.
  - intros id' Hi. apply others_keep; [|by apply Ha]. apply Hne, Hin. right. left. rewrite Hi. set_solver.
  - intros id' [Hi| ->%list_elem_of_singleton]%elem_of_app; [apply others_keep; [auto|by apply Hq]|].
    exists (queued_at now r). rewrite lookup_insert_eq. by split_and!.
  - exists last. split.
    + eapply (schedule_ext reqs _ st); [|done|exact Hsc].
      intros id' Hi. apply lookup_insert_ne. intros <-. apply Hid, Hin. rewrite elem_of_app in Hi. tauto.
    + unfold due in *. simpl. destruct (active st); [done|]. destruct (queue st) as [|id' q]; simpl; [rewrite Hnew; lia|].
      rewrite Hsub; [done|]. apply Hin. set_solver.
Qed.

(** The head of the queue starts at the current time. *)
Lemma start_stack rest d x : active st = None -> queue st = id :: rest -> request_id r = id ->
  duration_on st r = Ok (d, x) -> 0 <= d ->
  stack_ok (<[id := started_at now (now + d) r]> reqs) now s (with_queue rest (Some id) st) log done.
Proof using H Hr Hs.
  intros Ea Eq Hid Hdur Hd0. pose proof H as [Hp Hl Hnd Hm Hsu Hso Hd Ha Hq (last & Hsc & Hlast)].
  rewrite Ea in Hl, Ha, Hsc. rewrite Eq in Hl, Hq. simpl in Hl. assert (Hnd' := Hnd). rewrite Hl in Hnd'.
  apply NoDup_app in Hnd' as (_ & Hdis & [Hrest _]%NoDup_cons).
  destruct (Hq id ltac:(set_solver)) as (r0 & Hr0 & Hst & [t Ht] & Hb & He). assert (r0 = r) as -> by congruence.
  assert (Hdone : forall id', id' ∈ done -> id' <> id) by (intros id' Hi ->; apply (Hdis _ Hi); set_solver).
  set (r' := started_at now (now + d) r). pose proof (submits_update r' eq_refl) as Hsub.
  assert (Hin : id ∈ log) by (rewrite Hl; set_solver).
  constructor; simpl; try done.
  - destruct Hp. by constructor.
  - apply members_update; [done|done|]. set_solver.
  - intros id' Hi. rewrite Hsub. auto.
  - eapply sorted_ext; [|exact Hso]. intros y z _ _. unfold submit_le. by rewrite !Hsub.
  - intros id' Hi. apply others_keep; [auto|by apply Hd].
  - intros id' [= <-]. exists r'. by rewrite lookup_insert_eq.
  - intros id' Hi. apply others_keep; [by intros ->|]. apply Hq. set_solver.
  - exists (now + d). split; [|unfold due; simpl; lia]. apply schedule_snoc with (e := last).
    + rewrite app_nil_r in Hsc. eapply (schedule_ext reqs _ st); [|done|exact Hsc].
      intros id' Hi. apply lookup_insert_ne. intros <-. by apply (Hdone id).
    + exists r', t, now, d, x. rewrite lookup_insert_eq. split_and!; try done.
      unfold due in Hlast. rewrite Ea, Eq in Hlast. unfold submit_of in Hlast. by rewrite Hr, Ht in Hlast.
Qed.

(** The served request completes at its end. *)
Lemma finish_stack : active st = Some id -> media_end_ns r = Some now ->
  stack_ok (<[id := completed r]> reqs) now s (with_queue (queue st) None st) log (done ++ [id]).
Proof using H Hr Hs.
  intros Ea Hend. pose proof H as [Hp Hl Hnd Hm Hsu Hso Hd Ha Hq (last & Hsc & Hlast)].
  rewrite Ea in Hl, Ha, Hsc. simpl in Hl, Hsc. assert (Hnd' := Hnd). rewrite Hl in Hnd'.
  apply NoDup_app in Hnd' as (_ & Hdis & [Hrest _]%NoDup_cons).
  set (r' := completed r). pose proof (submits_update r' eq_refl) as Hsub.
  assert (Hin : id ∈ log) by (rewrite Hl; set_solver).
  apply schedule_snoc_inv in Hsc as (e0 & Hsc & (r0 & t & b & d & x & Hr0 & Ht & Hb & He & Hmax & Hdur & Hlast')).
  assert (r0 = r) as -> by congruence.
  assert (Hdone : forall id', id' ∈ done -> id' <> id) by (intros id' Hi ->; apply (Hdis _ Hi); set_solver).
  constructor; simpl; try done.
  - destruct Hp. by constructor.
  - rewrite Hl. by rewrite <- app_assoc.
  - apply members_update; [done|done|]. set_solver.
  - intros id' Hi. rewrite Hsub. auto.
  - eapply sorted_ext; [|exact Hso]. intros y z _ _. unfold submit_le. by rewrite !Hsub.
  - intros id' [Hi| ->%list_elem_of_singleton]%elem_of_app; [apply others_keep; [auto|by apply Hd]|].
    exists r'. by rewrite lookup_insert_eq.
  - intros id' Hi. apply others_keep; [by intros ->|]. by apply Hq.
  - exists now. split; [|unfold due; simpl; destruct (queue st) as [|id' q]; [done|]; rewrite Hsub;
                       specialize (Hsu id' ltac:(rewrite Hl; set_solver)); lia].
    rewrite app_nil_r. apply schedule_snoc with (e := e0).
    + eapply (schedule_ext reqs _ st); [|done|exact Hsc]. intros id' Hi. apply lookup_insert_ne. intros <-. by apply (Hdone id).
    + exists r', t, b, d, x. rewrite lookup_insert_eq. split_and!; try done. congruence.
Qed.
End stack_steps.

Record request_ok (d : dict string hbm_stack) (id : string) (r : request) : Prop := {
  ro_id : request_id r = id; ro_bytes : 0 < bytes r;
  ro_stack : exists st, dget d (stack_id r) = Some st /\ serviceable st (op r) (bytes r) = true;
  ro_fresh : state r = ARRIVED -> media_start_ns r = None /\ media_end_ns r = None }.

(** [idle] names the stacks that may be idle with a queue, between the
    completion of a request and the start of the next one. *)
Record hbm_inv (idle : list string) (h : hbm) : Prop := {
  hi_now : 0 <= now_ns h;
  hi_keys : NoDup (dkeys (stacks h));
  hi_requests : forall id r, requests h !! id = Some r -> request_ok (stacks h) id r;
  hi_stacks : forall s st, dget (stacks h) s = Some st ->
    exists log done, stack_ok (requests h) (now_ns h) s st log done;
  hi_busy : forall s st, dget (stacks h) s = Some st -> active st = None -> queue st = [] \/ s ∈ idle }.

(** Two versions of one request, and of one stack's parameters. *)
Definition same_request (r r' : request) : Prop :=
  request_id r' = request_id r /\ stack_id r' = stack_id r /\ op r' = op r /\ bytes r' = bytes r.
Definition same_params (st st' : hbm_stack) : Prop :=
  latency st' = latency st /\ bandwidth st' = bandwidth st /\ energy st' = energy st.

Lemma serviceable_params st st' o b : same_params st st' -> serviceable st' o b = serviceable st o b.
Proof. intros (_ & Hb & He). unfold serviceable, transfer_ns, media_energy. by rewrite Hb, He. Qed.

(** An update of one submitted request and of its stack. *)
Lemma update_inv idle idle' h h' st st' id r r' :
  hbm_inv idle h -> requests h !! id = Some r -> dget (stacks h) (stack_id r) = Some st ->
  same_request r r' -> state r' <> ARRIVED -> same_params st st' ->
  requests h' = <[id := r']> (requests h) -> stacks h' = dset (stacks h) (stack_id r) st' -> now_ns h' = now_ns h ->
  (exists log done, stack_ok (<[id := r']> (requests h)) (now_ns h) (stack_id r) st' log done) ->
  (active st' = None -> queue st' = [] \/ stack_id r ∈ idle') ->
  (forall s, s <> stack_id r -> s ∈ idle -> s ∈ idle') ->
  hbm_inv idle' h'.
Proof.
  intros [Hn Hk Hreq Hst Hb] Hr Hs (E1 & E2 & E3 & E4) Hnew Hp Er Es En Hstack Hidle Hother.
  assert (Hget : forall s0 st0, dget (stacks h') s0 = Some st0 ->
            s0 = stack_id r /\ st0 = st' \/ s0 <> stack_id r /\ dget (stacks h) s0 = Some st0).
  { intros s0 st0. rewrite Es, dget_dset. case_decide; [intros [= <-]; by left|by right]. }
  assert (Hserv : forall r0, (exists st0, dget (stacks h) (stack_id r0) = Some st0 /\ serviceable st0 (op r0) (bytes r0) = true) ->
            exists st0, dget (stacks h') (stack_id r0) = Some st0 /\ serviceable st0 (op r0) (bytes r0) = true).
  { intros r0 (st0 & Hs0 & Hok). rewrite Es, dget_dset. case_decide as Eq; [|by exists st0].
    exists st'. rewrite (serviceable_params st) by done. rewrite <- Eq, Hs in Hs0. by simplify_eq. }
  constructor.
  - by rewrite En.
  - rewrite Es. by apply NoDup_dkeys_dset.
  - intros id' r0 Hr0. rewrite Er in Hr0. destruct (decide (id = id')) as [<-|Hne].
    + rewrite lookup_insert_eq in Hr0. injection Hr0 as <-. destruct (Hreq _ _ Hr) as [Hi Hby Hsk _].
      constructor; [congruence|lia| |done]. apply Hserv. by rewrite E2, E3, E4.
    + rewrite lookup_insert_ne in Hr0 by done. destruct (Hreq _ _ Hr0) as [Hi Hby Hsk Hf]. constructor; auto.
  - intros s0 st0 [[-> ->]|[Hne Hs0]]%Hget; rewrite Er, En; [done|].
    destruct (Hst _ _ Hs0) as (log & done & Hok). exists log, done. by eapply stack_ok_frame.
  - intros s0 st0 [[-> ->]|[Hne Hs0]]%Hget Ha; [auto|]. destruct (Hb _ _ Hs0 Ha); auto.
Qed.

(** Requests that are not complete: the measure of the event loop. *)
Definition open_requests (m : gmap string request) : gmap string request :=
  filter (fun '(_, r) => state r <> MEDIA_COMPLETE) m.
Definition work (h : hbm) : nat := size (open_requests (requests h)).

Lemma work_same h h' id r r' : requests h !! id = Some r -> state r <> MEDIA_COMPLETE -> state r' <> MEDIA_COMPLETE ->
  requests h' = <[id := r']> (requests h) -> work h' = work h.
Proof.
  intros Hr H1 H2 E. unfold work, open_requests. rewrite E, map_filter_insert_True by done.
  rewrite map_size_insert_Some; [done|]. exists r. by apply map_lookup_filter_Some.
Qed.

Lemma work_less h h' id r r' : requests h !! id = Some r -> state r <> MEDIA_COMPLETE -> state r' = MEDIA_COMPLETE ->
  requests h' = <[id := r']> (requests h) -> (work h' < work h)%nat.
Proof.
  intros Hr H1 H2 E. unfold work, open_requests. rewrite E, map_filter_insert_False by (intros H; by apply H).
  rewrite map_filter_delete.
  assert (Hin : is_Some (filter (fun '(_, r) => state r <> MEDIA_COMPLETE) (requests h) !! id)).
  { exists r. by apply map_lookup_filter_Some. }
  destruct Hin as [x Hx]. rewrite map_size_delete, Hx.
  pose proof (proj2 (map_size_ne_0_lookup _) (ex_intro _ id (mk_is_Some _ _ Hx))). simpl. lia.
Qed.

(** *** The log of media completions *)

Definition is_complete (h : hbm) (id : string) : Prop := exists r, requests h !! id = Some r /\ state r = MEDIA_COMPLETE.
#[export] Instance is_complete_dec h id : Decision (is_complete h id).
Proof.
  destruct (requests h !! id) as [r|] eqn:E; [destruct (decide (state r = MEDIA_COMPLETE)) as [H|H]|].
  - left. by exists r.
  - right. intros (r0 & Hr0 & Hs). congruence.
  - right. intros (r0 & Hr0 & Hs). congruence.
Defined.

(** No request moves back, and the log grows by exactly the requests that
    become complete, at times that have passed. *)
Record progress (h h' : hbm) : Prop := {
  pg_now : now_ns h <= now_ns h';
  pg_state : forall id r, requests h !! id = Some r -> exists r', requests h' !! id = Some r'
    /\ (state r' = ARRIVED -> state r = ARRIVED) /\ (state r = MEDIA_COMPLETE -> state r' = MEDIA_COMPLETE);
  pg_log : exists log, completions h' = completions h ++ log /\ NoDup (m_request <$> log)
    /\ (forall c, c ∈ log -> now_ns h <= m_time_ns c <= now_ns h')
    /\ (forall id, id ∈ m_request <$> log <-> is_complete h' id /\ ~ is_complete h id) }.

Lemma progress_wait h h' : now_ns h <= now_ns h' -> requests h' = requests h -> completions h' = completions h -> progress h h'.
Proof.
  intros En Er Ec. constructor; rewrite ?Er, ?Ec; [done|intros id r Hr; eauto|]. exists []. rewrite app_nil_r.
  split_and!; [done|constructor|intros c Hc; by apply not_elem_of_nil in Hc|].
  intros id. split; [by intros ?%not_elem_of_nil|]. intros [(r & Hr & Hs) Hn]. destruct Hn. exists r. by rewrite <- Er.
Qed.

Lemma progress_complete h h' id : progress h h' -> is_complete h id -> is_complete h' id.
Proof. intros Hp (r & Hr & Hs). destruct (pg_state _ _ Hp _ _ Hr) as (r' & Hr' & _ & Hc). exists r'. auto. Qed.

Lemma progress_trans h1 h2 h3 : progress h1 h2 -> progress h2 h3 -> progress h1 h3.
Proof.
  intros P1 P2. pose proof P1 as [N1 S1 (l1 & E1 & D1 & T1 & I1)]. pose proof P2 as [N2 S2 (l2 & E2 & D2 & T2 & I2)].
  constructor; [lia| |].
  - intros id r Hr. destruct (S1 _ _ Hr) as (r1 & Hr1 & Ha & Hb), (S2 _ _ Hr1) as (r2 & Hr2 & Ha' & Hb'). exists r2. auto.
  - exists (l1 ++ l2). split_and!; [by rewrite E2, E1, app_assoc| | |].
    + rewrite fmap_app. apply NoDup_app. split_and!; try done. intros id [H1 _]%I1 [_ H2]%I2. done.
    + intros c [Hc|Hc]%elem_of_app; [specialize (T1 _ Hc)|specialize (T2 _ Hc)]; lia.
    + intros id. rewrite fmap_app, elem_of_app, I1, I2. split.
      * intros [[H1 H2]|[H1 H2]]; (split; [|]); try done; [by eapply progress_complete|].
        intros H. by apply H2, (progress_complete _ _ _ P1).
      * intros [H3 H1]. destruct (decide (is_complete h2 id)); auto.
Qed.

(** One request moves on, and is logged when it completes. *)
Lemma progress_update h h' id r r' log : requests h !! id = Some r -> requests h' = <[id := r']> (requests h) ->
  now_ns h' = now_ns h -> completions h' = completions h ++ log -> state r' <> ARRIVED -> state r <> MEDIA_COMPLETE ->
  match log with
  | [] => state r' <> MEDIA_COMPLETE
  | [c] => state r' = MEDIA_COMPLETE /\ m_request c = id /\ m_time_ns c = now_ns h
  | _ => False
  end -> progress h h'.
Proof.
  intros Hr Er En Ec Hna Hnc Hlog.
  assert (Hiff : forall id', is_complete h' id' /\ ~ is_complete h id' <-> id' = id /\ state r' = MEDIA_COMPLETE).
  { intros id'. unfold is_complete. rewrite Er. destruct (decide (id = id')) as [<-|Hne].
    - rewrite lookup_insert_eq. split; [intros [(r0 & [= <-] & Hs) _]; done|]. intros [_ Hs]. split; [eauto|].
      intros (r0 & Hr0 & Hs0). congruence.
    - rewrite lookup_insert_ne by done. split; [tauto|]. intros [-> _]. done. }
  constructor; [lia| |].
  - intros id' r0 Hr0. rewrite Er. destruct (decide (id = id')) as [<-|]; [|rewrite lookup_insert_ne by done; eauto].
    rewrite lookup_insert_eq. exists r'. split; [done|]. split; [done|]. intros Hs. congruence.
  - exists log. split; [done|]. destruct log as [|c [|]]; [| |done].
    + split_and!; [constructor|intros c Hc; by apply not_elem_of_nil in Hc|]. intros id'. rewrite Hiff.
      split; [by intros ?%not_elem_of_nil|tauto].
    + destruct Hlog as (Hs & Hid & Ht). split_and!; [apply NoDup_singleton|intros c0 ->%list_elem_of_singleton; lia|].
      intros id'. rewrite Hiff. cbn. rewrite list_elem_of_singleton, Hid. tauto.
Qed.

(** What the service steps do to the objects of a caller. *)
Record evolves (h h' : hbm) : Prop := {
  ev_dom : forall id, is_Some (requests h' !! id) <-> is_Some (requests h !! id);
  ev_arrived : forall id r, requests h !! id = Some r -> state r = ARRIVED -> requests h' !! id = Some r;
  ev_stacks : forall s st, dget (stacks h) s = Some st ->
    exists st', dget (stacks h') s = Some st' /\ same_params st st';
  ev_progress : progress h h' }.

Lemma evolves_refl h : evolves h h.
Proof. split; [done|done| |by apply progress_wait]. intros s st Hs. by exists st. Qed.

Lemma evolves_trans h1 h2 h3 : evolves h1 h2 -> evolves h2 h3 -> evolves h1 h3.
Proof.
  intros [D1 A1 S1 P1] [D2 A2 S2 P2]. split; [naive_solver|eauto| |by eapply progress_trans].
  intros s st Hs. destruct (S1 _ _ Hs) as (st' & Hs' & E1 & E2 & E3).
  destruct (S2 _ _ Hs') as (st2 & Hs2 & F1 & F2 & F3). exists st2. split; [done|]. split_and!; congruence.
Qed.

Lemma evolves_update h h' id r r' s st st' : requests h !! id = Some r -> state r <> ARRIVED ->
  dget (stacks h) s = Some st -> same_params st st' ->
  requests h' = <[id := r']> (requests h) -> stacks h' = dset (stacks h) s st' -> progress h h' -> evolves h h'.
Proof.
  intros Hr Hst Hs Hp Er Es Hpg. split; [| | |done].
  - intros id'. rewrite Er. destruct (decide (id = id')) as [<-|]; [rewrite lookup_insert_eq, Hr; split; eauto|].
    by rewrite lookup_insert_ne.
  - intros id' r0 Hr0 Ha. rewrite Er, lookup_insert_ne; [done|]. intros <-. congruence.
  - intros s0 st0 Hs0. rewrite Es, dget_dset. case_decide as E; [|by exists st0].
    exists st'. split; [done|]. subst s0. by simplify_eq.
Qed.

Lemma serviceable_duration st r : stack_params_ok st -> 0 < bytes r -> serviceable st (op r) (bytes r) = true ->
  exists d x, duration_on st r = Ok (d, x) /\ 0 <= d.
Proof.
  intros Hp Hb [[t Ht]%is_ok_ex _]%andb_prop. exists (sel (latency st) (op r) + t), t.
  unfold duration_on. rewrite Ht. split; [done|].
  pose proof (sp_latency _ Hp (op r)). pose proof (transfer_nonneg _ _ _ _ Hp Hb Ht). lia.
Qed.

Lemma start_ok idle h s st : hbm_inv idle h -> dget (stacks h) s = Some st ->
  exists h', _start s h = (Ok tt, h') /\ hbm_inv (filter (fun x => x <> s) idle) h' /\ now_ns h' = now_ns h
    /\ work h' = work h /\ evolves h h'.
Proof.
  intros Hi Hs.
  assert (Hskip : active st <> None \/ queue st = [] -> hbm_inv (filter (fun x => x <> s) idle) h).
  { intros Hno. destruct Hi as [Hn Hk Hreq Hst Hb]. constructor; try done. intros s0 st0 Hs0 Ha.
    destruct (Hb _ _ Hs0 Ha) as [|Hin]; [by left|]. destruct (decide (s0 = s)) as [->|].
    - left. assert (st0 = st) as -> by congruence. by destruct Hno.
    - right. by apply list_elem_of_filter. }
  unfold _start. erewrite sbind_step by reflexivity. erewrite sbind_step by (apply lift_Ok; by apply dindex_Ok).
  destruct (active st) as [a|] eqn:Ea; [exists h; split; [done|]; split; [by apply Hskip; left|by auto using evolves_refl]|].
  destruct (queue st) as [|id rest] eqn:Eq; [exists h; split; [done|]; split; [by apply Hskip; right|by auto using evolves_refl]|].
  destruct (hi_stacks _ _ Hi _ _ Hs) as (log & done & Hok).
  destruct (so_queue _ _ _ _ _ _ Hok id ltac:(rewrite Eq; set_solver)) as (r & Hr & Hst & _).
  assert (Hrs : stack_id r = s).
  { assert (Hin : id ∈ log) by (rewrite (so_log _ _ _ _ _ _ Hok), Eq; set_solver).
    apply (so_members _ _ _ _ _ _ Hok) in Hin as (r0 & Hr0 & ? & _). congruence. }
  destruct (hi_requests _ _ Hi _ _ Hr) as [Hid Hby (st0 & Hs0 & Hserv) _].
  rewrite Hrs, Hs in Hs0. injection Hs0 as <-.
  destruct (serviceable_duration st r (so_params _ _ _ _ _ _ Hok) Hby Hserv) as (d & x & Hdur & Hd).
  erewrite sbind_step by reflexivity.
  erewrite sbind_step by (apply lift_Ok; unfold find_request; by rewrite Hr).
  erewrite sbind_step by (apply lift_Ok; unfold _duration_ns; rewrite Hrs, (proj2 (dindex_Ok _ _ _) Hs); simpl; exact Hdur).
  cbv beta iota. erewrite sbind_step by reflexivity. erewrite sbind_step by reflexivity.
  eexists. split; [reflexivity|].
  assert (Eset : forall v, dset (dset (stacks h) s v) s (with_queue rest (Some (request_id r)) st)
                           = dset (stacks h) s (with_queue rest (Some (request_id r)) st)) by (intros; apply dset_dset).
  split_and!; simpl.
  - eapply (update_inv idle _ h _ st (with_queue rest (Some (request_id r)) st) id r (started_at (now_ns h) (now_ns h + d) r)); simpl; try done.
    + by rewrite Hrs.
    + by rewrite Hid.
    + rewrite Hrs. apply Eset.
    + exists log, done. rewrite Hrs, Hid. by eapply start_stack.
    + intros s0 Hne Hin. apply list_elem_of_filter. by rewrite Hrs in Hne.
  - done.
  - eapply (work_same _ _ id r (started_at (now_ns h) (now_ns h + d) r)); [done|by rewrite Hst|done|simpl]. by rewrite Hid.
  - eapply (evolves_update _ _ id r _ s st (with_queue rest (Some (request_id r)) st)); try done; simpl; [by rewrite Hst|by rewrite Hid|apply Eset|].
    eapply (progress_update _ _ id r (started_at (now_ns h) (now_ns h + d) r) []); simpl; try done;
      [by rewrite Hid|by rewrite app_nil_r|by rewrite Hst].
Qed.

(** A stack whose request ends at the current time. *)
Definition ending (h : hbm) (s : string) : Prop :=
  exists st id r, dget (stacks h) s = Some st /\ active st = Some id /\ requests h !! id = Some r
    /\ media_end_ns r = Some (now_ns h).

Lemma active_facts idle h s st id : hbm_inv idle h -> dget (stacks h) s = Some st -> active st = Some id ->
  exists r e, requests h !! id = Some r /\ stack_id r = s /\ state r = MEDIA_ACTIVE /\ media_end_ns r = Some e /\ now_ns h <= e.
Proof.
  intros Hi Hs Ha. destruct (hi_stacks _ _ Hi _ _ Hs) as (log & done & Hok).
  destruct (so_active _ _ _ _ _ _ Hok id Ha) as (r & Hr & Hst).
  assert (Hin : id ∈ log) by (rewrite (so_log _ _ _ _ _ _ Hok), Ha; set_solver).
  apply (so_members _ _ _ _ _ _ Hok) in Hin as (r0 & Hr0 & Hrs & _). assert (r0 = r) as -> by congruence.
  destruct (so_sched _ _ _ _ _ _ Hok) as (last & Hsc & Hdue). unfold due in Hdue. rewrite Ha in Hsc, Hdue.
  apply schedule_snoc_inv in Hsc as (e0 & _ & (r1 & t & b & d & x & Hr1 & _ & _ & He & _)).
  exists r, last. split_and!; try done. congruence.
Qed.

Lemma complete_ok idle h s : hbm_inv idle h -> ending h s ->
  exists h', complete_stack s h = (Ok tt, h') /\ hbm_inv (s :: idle) h' /\ now_ns h' = now_ns h
    /\ (work h' < work h)%nat /\ evolves h h'
    /\ (forall s', s' <> s -> ending h s' -> ending h' s').
Proof.
  intros Hi (st & id & r & Hs & Ha & Hr & Hend).
  destruct (active_facts _ _ _ _ _ Hi Hs Ha) as (r0 & e & Hr0 & Hrs & Hst & _).
  assert (r0 = r) as -> by congruence.
  destruct (hi_requests _ _ Hi _ _ Hr) as [Hid Hby (st0 & Hs0 & Hserv) _].
  rewrite Hrs, Hs in Hs0. injection Hs0 as <-. apply andb_prop in Hserv as [_ [en Hen]%is_ok_ex].
  destruct (hi_stacks _ _ Hi _ _ Hs) as (log & done & Hok).
  unfold complete_stack. erewrite sbind_step by reflexivity.
  erewrite sbind_step by (apply lift_Ok; by apply dindex_Ok).
  erewrite sbind_step by (apply lift_Ok; by rewrite Ha).
  erewrite sbind_step by (apply lift_Ok; unfold find_request; by rewrite Hr).
  erewrite sbind_step by reflexivity. erewrite sbind_step by reflexivity.
  erewrite sbind_step by (apply lift_Ok; exact Hen). erewrite sbind_step by reflexivity.
  eexists. split; [reflexivity|]. split_and!; simpl.
  - eapply (update_inv idle _ h _ st (with_queue (queue st) None st) id r (completed r)); simpl; try done.
    + by rewrite Hrs.
    + by rewrite Hid.
    + by rewrite Hrs.
    + exists log, (done ++ [id]). rewrite Hrs. by eapply finish_stack.
    + intros _. right. rewrite Hrs. set_solver.
    + intros s0 _ Hin. set_solver.
  - done.
  - eapply (work_less _ _ id r (completed r)); [done|by rewrite Hst|done|simpl]. by rewrite Hid.
  - eapply (evolves_update _ _ id r _ s st (with_queue (queue st) None st)); try done; simpl; [by rewrite Hst|by rewrite Hid|].
    eapply (progress_update _ _ id r (completed r) [_]); simpl; try done; [by rewrite Hid|by rewrite Hst].
  - intros s' Hne (st' & id' & r' & Hs' & Ha' & Hr' & He'). exists st', id', r'. simpl.
    rewrite dget_dset_ne by done. split_and!; try done. rewrite Hid, lookup_insert_ne; [done|].
    intros <-. destruct (active_facts _ _ _ _ _ Hi Hs' Ha') as (r1 & _ & Hr1 & Hrs1 & _). congruence.
Qed.

(** The members of [self._stacks] whose request ends now. *)
Lemma completed_stacks_spec idle h s : hbm_inv idle h -> s ∈ completed_stacks h <-> ending h s.
Proof.
  intros Hi. unfold completed_stacks. rewrite isort_elem, list_elem_of_fmap. split.
  - intros ([s0 st] & -> & [Hf Hin]%list_elem_of_filter). apply dget_elem in Hin; [|apply Hi]. simpl.
    unfold ends_now in Hf. simpl in Hf. destruct (active st) as [id|] eqn:Ea; [|done].
    destruct (active_facts _ _ _ _ _ Hi Hin Ea) as (r & e & Hr & _ & _ & He & _).
    unfold active_end, find_request in Hf. rewrite Hr in Hf. simpl in Hf. rewrite He in Hf. simpl in Hf.
    apply Z.eqb_eq in Hf. subst e. exists st, id, r. done.
  - intros (st & id & r & Hs & Ha & Hr & He). exists (s, st). split; [done|]. apply list_elem_of_filter.
    split; [|by apply dget_Some_elem]. unfold ends_now. simpl. rewrite Ha. unfold active_end, find_request.
    rewrite Hr. simpl. rewrite He. simpl. apply Z.eqb_refl.
Qed.

Lemma completed_stacks_NoDup idle h : hbm_inv idle h -> NoDup (completed_stacks h).
Proof. intros Hi. unfold completed_stacks. rewrite isort_perm. apply NoDup_fmap_filter. apply Hi. Qed.

Lemma next_event_spec_hbm idle h : hbm_inv idle h ->
  exists o, next_event_ns h = Ok o /\
    (forall s st id r e, dget (stacks h) s = Some st -> active st = Some id -> requests h !! id = Some r ->
       media_end_ns r = Some e -> match o with Some t => t <= e | None => False end) /\
    match o with
    | Some t => now_ns h <= t /\ exists s st id r, dget (stacks h) s = Some st /\ active st = Some id
                  /\ requests h !! id = Some r /\ media_end_ns r = Some t
    | None => True
    end.
Proof.
  intros Hi. unfold next_event_ns.
  set (ids := omap (fun '(_, st) => active st) (stacks h)).
  assert (Hids : forall id, id ∈ ids <-> exists s st, dget (stacks h) s = Some st /\ active st = Some id).
  { intros id. unfold ids. rewrite list_elem_of_omap. split.
    - intros ([s st] & Hin & Ha). exists s, st. split; [|done]. apply dget_elem; [apply Hi|done].
    - intros (s & st & Hs & Ha). exists (s, st). split; [by apply dget_Some_elem|done]. }
  assert (Hend : forall id, id ∈ ids -> exists r e, requests h !! id = Some r /\ media_end_ns r = Some e
            /\ active_end h id = Ok e /\ now_ns h <= e).
  { intros id (s & st & Hs & Ha)%Hids. destruct (active_facts _ _ _ _ _ Hi Hs Ha) as (r & e & Hr & _ & _ & He & Hle).
    exists r, e. split_and!; try done. unfold active_end, find_request. rewrite Hr. simpl. by rewrite He. }
  destruct (mapR_total (active_end h) ids) as [values Hv]; [intros id (r & e & _ & _ & He & _)%Hend; eauto|].
  rewrite Hv. simpl. eexists. split; [reflexivity|]. pose proof (zmin_list_spec values) as Hmin.
  apply mapR_Ok in Hv. split.
  - intros s st id r e Hs Ha Hr He.
    assert (Hin : id ∈ ids) by (apply Hids; eauto). destruct (Hend _ Hin) as (r0 & e0 & Hr0 & He0 & Hok & _).
    assert (e0 = e) as -> by congruence.
    assert (Hev : e ∈ values).
    { apply list_elem_of_lookup in Hin as [i Hi']. destruct (Forall2_lookup_l _ _ _ _ _ Hv Hi') as (y & Hy & Hyok).
      apply list_elem_of_lookup. exists i. congruence. }
    destruct (zmin_list values) as [t|]; [by apply Hmin|]. subst values. by apply not_elem_of_nil in Hev.
  - destruct (zmin_list values) as [t|]; [|done]. destruct Hmin as [Ht _].
    apply list_elem_of_lookup in Ht as [i Hi']. destruct (Forall2_lookup_r _ _ _ _ _ Hv Hi') as (id & Hid & Hok).
    apply list_elem_of_lookup_2 in Hid. destruct (Hend _ Hid) as (r & e & Hr & He & Hok' & Hle).
    assert (e = t) as -> by congruence. split; [done|]. apply Hids in Hid as (s & st & Hs & Ha). eauto 8.
Qed.

Lemma set_now_ok h t : hbm_inv [] h -> now_ns h <= t ->
  (forall s st id r e, dget (stacks h) s = Some st -> active st = Some id -> requests h !! id = Some r ->
     media_end_ns r = Some e -> t <= e) -> hbm_inv [] (set_now t h).
Proof.
  intros [Hn Hk Hreq Hst Hb] Hle Hact. constructor; simpl; try done; [lia|].
  intros s st Hs. destruct (Hst _ _ Hs) as (log & done & Hok). exists log, done.
  pose proof Hok as [Hp Hl Hnd Hm Hsu Hso Hd Ha Hq (last & Hsc & Hdue)]. constructor; try done.
  - intros id Hid. specialize (Hsu id Hid). lia.
  - exists last. split; [done|]. unfold due in *. destruct (active st) as [id|] eqn:Ea.
    + simpl in Hsc. apply schedule_snoc_inv in Hsc as (e0 & _ & (r & ? & ? & ? & ? & Hr & _ & _ & He & _)).
      by eapply Hact.
    + destruct (Hb _ _ Hs Ea) as [Hq0|Hin]; [rewrite Hq0 in *; lia|by apply not_elem_of_nil in Hin].
Qed.

Lemma inv_mono idle idle' h : hbm_inv idle h -> (forall s, s ∈ idle -> s ∈ idle') -> hbm_inv idle' h.
Proof.
  intros [Hn Hk Hreq Hst Hb] Hsub. constructor; try done. intros s st Hs Ha.
  destruct (Hb _ _ Hs Ha); auto.
Qed.

(** Every request that ends now completes. *)
Lemma complete_all_ok h l : hbm_inv [] h -> NoDup l -> (forall s, s ∈ l -> ending h s) ->
  exists h', forM l complete_stack h = (Ok tt, h') /\ hbm_inv l h' /\ now_ns h' = now_ns h
    /\ (work h' + length l <= work h)%nat /\ evolves h h'.
Proof.
  intros Hi Hnd Hend.
  destruct (forM_inv (fun d h' => hbm_inv d h' /\ now_ns h' = now_ns h /\ (work h' + length d <= work h)%nat
      /\ evolves h h' /\ forall s, s ∈ l -> s ∉ d -> ending h' s) complete_stack l h)
    as (h' & Hf & Hi' & Hn & Hw & He & _).
  - split_and!; [done|done|simpl; lia|apply evolves_refl|auto].
  - intros d s todo h1 El (Hi1 & Hn1 & Hw1 & He1 & Hrest).
    assert (Hs : s ∉ d). { rewrite El in Hnd. apply NoDup_app in Hnd as (_ & Hdis & _). intros H. apply (Hdis _ H). set_solver. }
    destruct (complete_ok d h1 s Hi1) as (h2 & H2 & Hi2 & Hn2 & Hw2 & He2 & Hrest2); [apply Hrest; [rewrite El; set_solver|done]|].
    exists h2. split; [done|]. split_and!.
    + eapply inv_mono; [done|set_solver].
    + congruence.
    + rewrite length_app. simpl. lia.
    + by eapply evolves_trans.
    + intros s' Hs' Hn'. apply Hrest2; [set_solver|]. apply Hrest; set_solver.
  - eauto 10.
Qed.

(** Every stack that became idle takes its next request. *)
Lemma start_all_ok h l : hbm_inv l h -> (forall s, s ∈ l -> s ∈ dkeys (stacks h)) ->
  exists h', forM l _start h = (Ok tt, h') /\ hbm_inv [] h' /\ now_ns h' = now_ns h /\ work h' = work h /\ evolves h h'.
Proof.
  intros Hi Hkeys.
  destruct (forM_inv (fun d h' => hbm_inv (filter (fun x => x ∉ d) l) h' /\ now_ns h' = now_ns h /\ work h' = work h
      /\ evolves h h') _start l h) as (h' & Hf & Hi' & Hn & Hw & He).
  - split_and!; [|done|done|apply evolves_refl]. eapply inv_mono; [done|].
    intros s Hs. apply list_elem_of_filter. set_solver.
  - intros d s todo h1 El (Hi1 & Hn1 & Hw1 & He1).
    destruct (proj2 (dget_is_Some (stacks h) s)) as [st Hs]; [apply Hkeys; rewrite El; set_solver|].
    destruct (ev_stacks _ _ He1 _ _ Hs) as (st1 & Hs1 & _).
    destruct (start_ok _ h1 s st1 Hi1 Hs1) as (h2 & H2 & Hi2 & Hn2 & Hw2 & He2).
    exists h2. split; [done|]. split_and!; [|congruence|congruence|by eapply evolves_trans].
    eapply inv_mono; [done|]. intros s'. rewrite !list_elem_of_filter. set_solver.
  - exists h'. split_and!; try done. eapply inv_mono; [done|]. intros s [H1 H2]%list_elem_of_filter. done.
Qed.

Lemma advance_to_ok h t : hbm_inv [] h -> next_event_ns h = Ok (Some t) ->
  exists h', advance_to t h = (Ok tt, h') /\ hbm_inv [] h' /\ now_ns h' = t /\ (work h' < work h)%nat /\ evolves h h'.
Proof.
  intros Hi Ht. destruct (next_event_spec_hbm _ _ Hi) as (o & Ho & Hle & Hex).
  rewrite Ho in Ht. injection Ht as ->. destruct Hex as (Hnow & s & st & id & r & Hs & Ha & Hr & He).
  assert (Hi1 : hbm_inv [] (set_now t h)) by (apply set_now_ok; [done|done|exact Hle]).
  set (h1 := set_now t h) in *. set (l := completed_stacks h1).
  assert (Hl : forall s, s ∈ l <-> ending h1 s) by (intros; by eapply completed_stacks_spec).
  destruct (complete_all_ok h1 l Hi1) as (h2 & H2 & Hi2 & Hn2 & Hw2 & He2);
    [by eapply completed_stacks_NoDup|intros ? ?; by apply Hl|].
  destruct (start_all_ok h2 l Hi2) as (h3 & H3 & Hi3 & Hn3 & Hw3 & He3).
  { intros s0 (st0 & ? & ? & Hs0 & _)%Hl. destruct (ev_stacks _ _ He2 _ _ Hs0) as (st2 & Hs2 & _).
    apply dget_is_Some. eauto. }
  exists h3. split_and!.
  - unfold advance_to. erewrite sbind_step by reflexivity. erewrite sbind_step by reflexivity.
    fold h1 l. erewrite sbind_step by exact H2. exact H3.
  - done.
  - by rewrite Hn3, Hn2.
  - assert (Hin : s ∈ l) by (apply Hl; by exists st, id, r).
    destruct l; [by apply not_elem_of_nil in Hin|]. simpl in Hw2. unfold work in *. simpl in *. lia.
  - eapply evolves_trans; [|exact He3]. destruct He2 as [? ? ? Hp]. constructor; try done.
    eapply progress_trans; [|exact Hp]. by apply progress_wait.
Qed.

(** No request of a state ends up to [t]. *)
Definition quiet_until (t : Z) (h : hbm) : Prop :=
  forall s st id r e, dget (stacks h) s = Some st -> active st = Some id -> requests h !! id = Some r ->
    media_end_ns r = Some e -> t < e.

Lemma advance_loop_ok fuel t h : hbm_inv [] h -> (work h < fuel)%nat -> now_ns h <= t ->
  exists h', advance_loop fuel t h = (Ok tt, h') /\ hbm_inv [] h' /\ now_ns h' <= t /\ evolves h h' /\ quiet_until t h'
    /\ (work h' <= work h)%nat /\ (forall t0, next_event_ns h = Ok (Some t0) -> t0 <= t -> (work h' < work h)%nat).
Proof.
  revert h. induction fuel as [|fuel IH]; intros h Hi Hw Hle; [lia|]. cbn [advance_loop].
  destruct (next_event_spec_hbm _ _ Hi) as (o & Ho & Hact & Hex).
  erewrite sbind_step by reflexivity. erewrite sbind_step by (apply lift_Ok; exact Ho).
  destruct o as [t0|].
  - destruct (t <? t0) eqn:E.
    + exists h. split_and!; [done|done|done|apply evolves_refl| |done|].
      * intros s st id r e H1 H2 H3 H4. specialize (Hact s st id r e H1 H2 H3 H4). simpl in Hact. lia.
      * intros t1 Ht1. rewrite Ho in Ht1. injection Ht1 as <-. lia.
    + destruct (advance_to_ok h t0 Hi Ho) as (h1 & H1 & Hi1 & Hn1 & Hw1 & He1).
      destruct (IH h1 Hi1 ltac:(lia) ltac:(lia)) as (h' & H' & Hi' & Hn' & He' & Hq & Hw' & _).
      exists h'. erewrite sbind_step by exact H1. split_and!; try done; [by eapply evolves_trans|lia|intros; lia].
  - exists h. split_and!; [done|done|done|apply evolves_refl| |done|].
    + intros s st id r e H1 H2 H3 H4. by specialize (Hact s st id r e H1 H2 H3 H4).
    + intros t1 Ht1. rewrite Ho in Ht1. done.
Qed.

Lemma hbm_advance_ok h t : hbm_inv [] h -> now_ns h <= t ->
  exists h', advance (VInt t) h = (Ok tt, h') /\ hbm_inv [] h' /\ now_ns h' = t /\ evolves h h' /\ quiet_until t h'
    /\ (work h' <= work h)%nat /\ (forall t0, next_event_ns h = Ok (Some t0) -> t0 <= t -> (work h' < work h)%nat).
Proof.
  intros Hi Hle. assert (Hw : (work h < advance_fuel h)%nat).
  { unfold work, advance_fuel, open_requests. apply Nat.lt_succ_r, map_subseteq_size, map_filter_subseteq. }
  destruct (advance_loop_ok _ t h Hi Hw Hle) as (h1 & H1 & Hi1 & Hn1 & He1 & Hq & Hw1 & Hp1).
  exists (set_now t h1). pose proof (hi_now _ _ Hi). split_and!.
  - unfold advance. erewrite sbind_step by (apply lift_Ok; unfold _integer; by rewrite (proj2 (Z.leb_le 0 t)) by lia).
    erewrite sbind_step by reflexivity. erewrite sbind_step by (apply require_Ok; by apply Z.leb_le).
    by erewrite sbind_step by exact H1.
  - apply set_now_ok; [done|done|]. intros s st id r e Hs Ha Hr He. specialize (Hq s st id r e Hs Ha Hr He). lia.
  - done.
  - destruct He1 as [? ? ? Hp]. constructor; try done. eapply progress_trans; [exact Hp|]. by apply progress_wait.
  - done.
  - exact Hw1.
  - exact Hp1.
Qed.

(** ** Intake *)

Lemma hbm_integer_Ok v l pos z : _integer v l pos = Ok z -> v = VInt z /\ (if pos then 1 else 0) <= z.
Proof. destruct v; simpl; try done. intros H. inv_ok. split; [done|]. lia. Qed.

Lemma known_stack_Ok h v s : known_stack h v = Ok s -> is_Some (dget (stacks h) s).
Proof.
  destruct v; simpl; try done. intros H. inv_ok. unfold dmem in *. destruct (dget (stacks h) s); [eauto|done].
Qed.

Lemma check_arrival_spec h v r : check_arrival h v = Ok r ->
  requests h !! request_id r = None /\ 0 < bytes r /\ 0 <= arrival_ns r /\ is_Some (dget (stacks h) (stack_id r))
  /\ state r = ARRIVED /\ submit_ns r = None /\ media_start_ns r = None /\ media_end_ns r = None.
Proof.
  intros H. unfold check_arrival in H. inv_ok.
  repeat match goal with H : _integer _ _ _ = Ok _ |- _ => apply hbm_integer_Ok in H as [_ H] end.
  simpl. split_and!; try done; try lia. by eapply known_stack_Ok.
Qed.

(** Whether the floats can express the service of an arriving request. *)
Definition admissible (h : hbm) (v : pyval) : bool :=
  match check_arrival h v with
  | Ok r => match dget (stacks h) (stack_id r) with
            | Some st => serviceable st (op r) (bytes r)
            | None => false
            end
  | Raise _ => true
  end.

Lemma advance_error h t : now_ns h > t -> exists e, advance (VInt t) h = (Raise (ValueError e), h).
Proof.
  intros Hlt. unfold advance, _integer. destruct (0 <=? t) eqn:E.
  - erewrite sbind_step by (apply lift_Ok; reflexivity). erewrite sbind_step by reflexivity.
    erewrite sbind_raise; [eauto|]. unfold require, ensure. by rewrite (proj2 (Z.leb_gt (now_ns h) t)) by lia.
  - erewrite sbind_raise by (unfold lift, ensure; simpl; reflexivity). eauto.
Qed.

Lemma arrival_inv h v res h' : hbm_inv [] h -> admissible h v = true -> arrival v h = (res, h') -> hbm_inv [] h'.
Proof.
  intros Hi Hadm E. unfold arrival in E. erewrite sbind_step in E by reflexivity. unfold admissible in Hadm.
  destruct (check_arrival h v) as [r|e] eqn:Ec;
    [erewrite sbind_step in E by reflexivity|erewrite sbind_raise in E by reflexivity; by injection E as _ <-].
  destruct (check_arrival_spec _ _ _ Ec) as (Hnew & Hb & Harr & [st Hst] & Hstate & _ & Hms & Hme). rewrite Hst in Hadm.
  destruct (Z_lt_le_dec (arrival_ns r) (now_ns h)) as [Hlt|Hle].
  { destruct (advance_error h (arrival_ns r) ltac:(lia)) as [e Ha].
    erewrite sbind_raise in E by exact Ha. by injection E as _ <-. }
  destruct (hbm_advance_ok h _ Hi Hle) as (h1 & H1 & Hi1 & Hn1 & [Hdom _ Hsts _] & _).
  erewrite sbind_step in E by exact H1. erewrite sbind_step in E by reflexivity.
  erewrite sbind_step in E by reflexivity. injection E as _ <-.
  assert (Hnew1 : requests h1 !! request_id r = None).
  { apply eq_None_not_Some. intros Hs%Hdom. rewrite Hnew in Hs. by destruct Hs. }
  destruct Hi1 as [Hn Hk Hreq Hsok Hbusy]. constructor; simpl; try done.
  - intros id r0. destruct (decide (request_id r = id)) as [<-|]; [rewrite lookup_insert_eq|by rewrite lookup_insert_ne; auto].
    intros [= <-]. constructor; [done|done| |done]. destruct (Hsts _ _ Hst) as (st' & Hs' & Hp). exists st'.
    split; [done|]. by rewrite (serviceable_params st).
  - intros s st0 Hs0. destruct (Hsok _ _ Hs0) as (log & done & Hok). exists log, done.
    eapply stack_ok_ext; [| |exact Hok].
    + intros id Hid. apply lookup_insert_ne. intros <-.
      apply (so_members _ _ _ _ _ _ Hok) in Hid as (r0 & Hr0 & _). congruence.
    + intros id r0 Hid. destruct (decide (request_id r = id)) as [<-|]; [rewrite lookup_insert_eq; intros [= <-]; done|].
      rewrite lookup_insert_ne by done. intros Hr0 Hs. destruct (decide (state r0 = ARRIVED)) as [|Hn0]; [done|].
      destruct Hid. apply (so_members _ _ _ _ _ _ Hok). eauto.
Qed.

(** The state after a request joined its queue and before [_start]. *)
Lemma enqueue_ok h id r st t : hbm_inv [] h -> requests h !! id = Some r -> state r = ARRIVED ->
  dget (stacks h) (stack_id r) = Some st -> now_ns h = t ->
  hbm_inv [stack_id r] (set_stacks (dset (stacks h) (stack_id r) (with_queue (queue st ++ [id]) (active st) st))
    (set_requests (<[id := queued_at t r]> (requests h)) h)).
Proof.
  intros Hi Hr Ha Hs <-. destruct (hi_stacks _ _ Hi _ _ Hs) as (log & done & Hok).
  destruct (hi_requests _ _ Hi _ _ Hr) as [Hid Hb Hst Hf]. destruct (Hf Ha) as [Hms Hme].
  eapply (update_inv [] _ h _ st (with_queue (queue st ++ [id]) (active st) st) id r (queued_at (now_ns h) r)); try done; simpl.
  - exists (log ++ [id]), done. by apply submit_stack.
  - intros _. right. set_solver.
  - set_solver.
Qed.

Lemma submit_inv h id time res h' : hbm_inv [] h -> submit id time h = (res, h') -> hbm_inv [] h'.
Proof.
  intros Hi E. unfold submit in E. erewrite sbind_step in E by reflexivity.
  peel E r Hr. peel_guard E Ha. peel E t Et. apply bool_decide_eq_true in Ha.
  assert (Hr0 : requests h !! id = Some r) by (destruct (requests h !! id); by simplify_eq/=).
  destruct (Z_lt_le_dec t (now_ns h)) as [Hlt|Hle].
  { destruct (advance_error h t ltac:(lia)) as [e Hadv].
    erewrite sbind_raise in E by exact Hadv. by injection E as _ <-. }
  destruct (hbm_advance_ok h t Hi Hle) as (h1 & H1 & Hi1 & Hn1 & He1 & _).
  pose proof (ev_arrived _ _ He1 _ _ Hr0 Ha) as Hr1.
  destruct (hi_requests _ _ Hi1 _ _ Hr1) as [Hid _ (st & Hst & _) _].
  erewrite sbind_step in E by exact H1. peel_guard E Hat.
  erewrite sbind_step in E by reflexivity. erewrite sbind_step in E by reflexivity.
  erewrite sbind_step in E by (apply lift_Ok, dindex_Ok; exact Hst).
  erewrite sbind_step in E by reflexivity. erewrite sbind_step in E by reflexivity.
  subst id. pose proof (enqueue_ok h1 _ r st t Hi1 Hr1 Ha Hst Hn1) as Hi2.
  match type of E with sbind (_start _) _ ?g = _ => assert (Hi3 : hbm_inv [stack_id r] g) end.
  { destruct Hi2 as [Q1 Q2 Q3 Q4 Q5]. constructor; [exact Q1|exact Q2|exact Q3|exact Q4|exact Q5]. }
  edestruct start_ok as (h4 & H4 & Hi4 & _ & _ & He4); [exact Hi3|simpl; apply dget_dset_eq|].
  erewrite sbind_step in E by exact H4. erewrite sbind_step in E by reflexivity.
  assert (Hi5 : hbm_inv [] h4).
  { eapply inv_mono; [exact Hi4|]. intros s [Hne Hin]%list_elem_of_filter. set_solver. }
  peel E r4 Hr4. by injection E as _ <-.
Qed.

(** *** Intake of a request that fits *)

Lemma progress_new h h' id r : requests h !! id = None -> requests h' = <[id := r]> (requests h) ->
  now_ns h' = now_ns h -> completions h' = completions h -> state r = ARRIVED -> progress h h'.
Proof.
  intros Hn Er En Ec Hs. constructor; [lia| |].
  - intros id' r0 Hr0. rewrite Er, lookup_insert_ne by congruence. eauto.
  - exists []. rewrite app_nil_r. split_and!; [done|constructor|intros c Hc; by apply not_elem_of_nil in Hc|].
    intros id'. split; [by intros ?%not_elem_of_nil|]. intros [(r0 & Hr0 & Hs0) Hno]. destruct Hno. rewrite Er in Hr0.
    destruct (decide (id = id')) as [<-|]; [rewrite lookup_insert_eq in Hr0; congruence|].
    rewrite lookup_insert_ne in Hr0 by done. by exists r0.
Qed.

Lemma work_new_hbm h h' id r : requests h !! id = None -> requests h' = <[id := r]> (requests h) -> (work h' <= work h + 1)%nat.
Proof.
  intros Hn Er. unfold work, open_requests. rewrite Er. destruct (decide (state r <> MEDIA_COMPLETE)) as [Hs|Hs].
  - rewrite map_filter_insert_True by done. rewrite map_size_insert. destruct (filter _ _ !! id); simpl; lia.
  - rewrite map_filter_insert_False by done. rewrite delete_id by done. lia.
Qed.

(** The arrival message of a request. *)
Definition arrival_message (id s : string) (o : operation) (b t : Z) : pyval :=
  VDict [("request_id", VStr id); ("stack_id", VStr s); ("op", VStr (op_name o)); ("bytes", VInt b); ("arrival_ns", VInt t)].

Definition arrived_request (id s : string) (o : operation) (b t : Z) : request :=
  {| request_id := id; stack_id := s; op := o; bytes := b; arrival_ns := t; state := ARRIVED;
     submit_ns := None; media_start_ns := None; media_end_ns := None |}.

Lemma check_arrival_message h id s o b t st : requests h !! id = None -> id <> "" -> 0 < b -> 0 <= t ->
  dget (stacks h) s = Some st -> check_arrival h (arrival_message id s o b t) = Ok (arrived_request id s o b t).
Proof.
  intros Hn Hid Hb Ht Hs. unfold check_arrival, arrival_message.
  set (d := [("request_id", VStr id); ("stack_id", VStr s); ("op", VStr (op_name o)); ("bytes", VInt b); ("arrival_ns", VInt t)]).
  assert (Hkeys : forallb (dmem d) ["request_id"; "stack_id"; "op"; "bytes"; "arrival_ns"] = true) by reflexivity.
  assert (Hop : parse_op (VStr (op_name o)) = Ok o) by (by destruct o).
  assert (Hdie : negb (dmem d "die" || dmem d "plane") = true) by reflexivity.
  assert (Hidx : forall k v, dget d k = Some v -> dindex d k = Ok v) by (intros k v Hk; by apply dindex_Ok).
  cbn [rbind]. rewrite Hkeys, (Hidx "request_id" (VStr id)), (Hidx "stack_id" (VStr s)), (Hidx "op" (VStr (op_name o))),
    (Hidx "bytes" (VInt b)), (Hidx "arrival_ns" (VInt t)), Hdie by reflexivity.
  cbn [rbind ensure nonempty_string]. rewrite (proj2 (String.eqb_neq id "") Hid). cbn [rbind ensure negb].
  rewrite (bool_decide_eq_true_2 _ Hn). cbn [rbind ensure known_stack]. unfold dmem. rewrite Hs, Hop. cbn [rbind ensure _integer].
  by rewrite (proj2 (Z.leb_le 1 b)), (proj2 (Z.leb_le 0 t)) by lia.
Qed.

Section intake.
Context (h : hbm) (id s : string) (o : operation) (b : Z) (st : hbm_stack).
Context (Hi : hbm_inv [] h) (Hn : requests h !! id = None) (Hid : id <> "") (Hb : 0 < b).
Context (Hs : dget (stacks h) s = Some st) (Hserv : serviceable st o b = true).

Lemma arrival_ok : exists h1, arrival (arrival_message id s o b (now_ns h)) h = (Ok (arrived_request id s o b (now_ns h)), h1)
  /\ hbm_inv [] h1 /\ now_ns h1 = now_ns h /\ progress h h1
  /\ (forall id', is_Some (requests h1 !! id') <-> id' = id \/ is_Some (requests h !! id'))
  /\ requests h1 !! id = Some (arrived_request id s o b (now_ns h)) /\ (work h1 <= work h + 1)%nat
  /\ (forall s st, dget (stacks h) s = Some st -> exists st', dget (stacks h1) s = Some st' /\ same_params st st').
Proof using Hi Hn Hid Hb Hs Hserv.
  pose proof (hi_now _ _ Hi) as H0. pose proof (check_arrival_message h id s o b (now_ns h) st Hn Hid Hb H0 Hs) as Hc.
  destruct (arrival (arrival_message id s o b (now_ns h)) h) as [res h1] eqn:E.
  assert (Hadm : admissible h (arrival_message id s o b (now_ns h)) = true) by (unfold admissible; rewrite Hc; cbn; by rewrite Hs).
  pose proof (arrival_inv _ _ _ _ Hi Hadm E) as Hi1. unfold arrival in E. erewrite sbind_step in E by reflexivity.
  erewrite sbind_step in E by (apply lift_Ok; exact Hc).
  destruct (hbm_advance_ok h (now_ns h) Hi (Z.le_refl _)) as (ha & Ha & Hia & Hna & He & _ & Hw & _).
  erewrite sbind_step in E by exact Ha. erewrite sbind_step in E by reflexivity. erewrite sbind_step in E by reflexivity.
  injection E as <- <-. exists (snd (_emit PArrival (arrived_request id s o b (now_ns h)) (now_ns h)
    (set_requests (<[id := arrived_request id s o b (now_ns h)]> (requests ha)) ha))).
  assert (Hna' : requests ha !! id = None).
  { apply eq_None_not_Some. intros Hx%(ev_dom _ _ He). rewrite Hn in Hx. by destruct Hx. }
  split; [done|]. split; [exact Hi1|]. split; [done|]. split.
  { eapply progress_trans; [apply (ev_progress _ _ He)|].
    eapply (progress_new _ _ id (arrived_request id s o b (now_ns h))); done. }
  split; [|split; [|split]].
  - intros id'. cbn. destruct (decide (id = id')) as [<-|Hne]; [rewrite lookup_insert_eq; split; eauto|].
    rewrite lookup_insert_ne by done. rewrite (ev_dom _ _ He id'). naive_solver.
  - cbn. by rewrite lookup_insert_eq.
  - etrans; [eapply (work_new_hbm ha _ id (arrived_request id s o b (now_ns h))); done|]. lia.
  - intros s0 st0 Hs0. by apply (ev_stacks _ _ He).
Qed.
End intake.

Lemma submit_ok h id r : hbm_inv [] h -> requests h !! id = Some r -> state r = ARRIVED -> arrival_ns r <= now_ns h ->
  exists x h2, submit id (VInt (now_ns h)) h = (Ok x, h2) /\ hbm_inv [] h2 /\ now_ns h2 = now_ns h /\ progress h h2
  /\ (forall id', is_Some (requests h2 !! id') <-> is_Some (requests h !! id'))
  /\ (exists q, requests h2 !! id = Some q /\ state q <> ARRIVED) /\ (work h2 <= work h)%nat
  /\ (forall s st, dget (stacks h) s = Some st -> exists st', dget (stacks h2) s = Some st' /\ same_params st st').
Proof.
  intros Hi Hr Ha Hle. pose proof (hi_now _ _ Hi) as H0. destruct (submit id (VInt (now_ns h)) h) as [res h2] eqn:E.
  pose proof (submit_inv _ _ _ _ _ Hi E) as Hi2. unfold submit in E. erewrite sbind_step in E by reflexivity.
  erewrite sbind_step in E by (apply lift_Ok; by rewrite Hr).
  erewrite sbind_step in E by (apply require_Ok; by apply bool_decide_eq_true_2).
  erewrite sbind_step in E by (apply lift_Ok; unfold _integer; by rewrite (proj2 (Z.leb_le 0 _) H0)).
  destruct (hbm_advance_ok h (now_ns h) Hi (Z.le_refl _)) as (h1 & H1 & Hi1 & Hn1 & He1 & _ & Hw1 & _).
  pose proof (ev_arrived _ _ He1 _ _ Hr Ha) as Hr1.
  destruct (hi_requests _ _ Hi1 _ _ Hr1) as [Hid _ (st & Hst & _) _].
  erewrite sbind_step in E by exact H1. erewrite sbind_step in E by (apply require_Ok; by apply Z.leb_le).
  erewrite sbind_step in E by reflexivity. erewrite sbind_step in E by reflexivity.
  erewrite sbind_step in E by (apply lift_Ok, dindex_Ok; exact Hst).
  erewrite sbind_step in E by reflexivity. erewrite sbind_step in E by reflexivity.
  subst id. pose proof (enqueue_ok h1 _ r st (now_ns h) Hi1 Hr1 Ha Hst Hn1) as Hiq.
  match type of E with sbind (_start _) _ ?g0 = _ => set (g := g0) in * end.
  assert (Hi3 : hbm_inv [stack_id r] g).
  { destruct Hiq as [Q1 Q2 Q3 Q4 Q5]. constructor; [exact Q1|exact Q2|exact Q3|exact Q4|exact Q5]. }
  assert (Hg : requests g = <[request_id r := queued_at (now_ns h) r]> (requests h1)) by done.
  edestruct (start_ok [stack_id r] g) as (h4 & H4 & Hi4 & Hn4 & Hw4 & He4); [exact Hi3|simpl; apply dget_dset_eq|].
  erewrite sbind_step in E by exact H4. erewrite sbind_step in E by reflexivity.
  assert (Hpg : progress h1 g).
  { eapply (progress_update _ _ (request_id r) r (queued_at (now_ns h) r) []); try done; [by rewrite app_nil_r|by rewrite Ha]. }
  assert (Hq : requests g !! request_id r = Some (queued_at (now_ns h) r)) by (rewrite Hg; apply lookup_insert_eq).
  destruct (pg_state _ _ (ev_progress _ _ He4) _ _ Hq) as (q & Hq4 & Hqa & _).
  erewrite sbind_step in E by (apply lift_Ok; unfold find_request; by rewrite Hq4). injection E as <- <-.
  exists (media_start_ns q), h4. split; [done|]. split; [done|]. split; [by rewrite Hn4|]. split; [|split; [|split; [|split]]].
  - eapply progress_trans; [apply (ev_progress _ _ He1)|]. eapply progress_trans; [exact Hpg|apply (ev_progress _ _ He4)].
  - intros id'. rewrite (ev_dom _ _ He4), Hg. destruct (decide (request_id r = id')) as [<-|].
    + rewrite lookup_insert_eq, Hr. split; eauto.
    + rewrite lookup_insert_ne by done. apply (ev_dom _ _ He1).
  - exists q. split; [done|]. intros Hx. by specialize (Hqa Hx).
  - rewrite Hw4. etrans; [|exact Hw1]. erewrite (work_same h1 g); [done|exact Hr1|by rewrite Ha| |exact Hg]. done.
  - intros s st0 Hs0. destruct (ev_stacks _ _ He1 _ _ Hs0) as (st1 & Hs1 & Hp1).
    assert (Hs2 : exists st2, dget (stacks g) s = Some st2 /\ same_params st1 st2).
    { cbn. rewrite dget_dset. case_decide as Eq; [|by exists st1]. subst s. assert (st1 = st) as -> by congruence.
      eexists. split; [reflexivity|]. done. }
    destruct Hs2 as (st2 & Hs2 & Hp2). destruct (ev_stacks _ _ He4 _ _ Hs2) as (st3 & Hs3 & Hp3). exists st3.
    split; [done|]. destruct Hp1 as (? & ? & ?), Hp2 as (? & ? & ?), Hp3 as (? & ? & ?). split_and!; congruence.
Qed.

(** *** Intake while no service ends now *)

Definition quick (st : hbm_stack) (o : operation) (b : Z) : bool :=
  match transfer_ns st o b with Ok x => sel (latency st) o + x <=? 0 | Raise _ => false end.

Lemma quick_params st st' o b : same_params st st' -> quick st' o b = quick st o b.
Proof. intros (E1 & E2 & E3). unfold quick, transfer_ns. by rewrite E1, E2. Qed.

Lemma advance_quiet h : hbm_inv [] h -> quiet_until (now_ns h) h -> advance (VInt (now_ns h)) h = (Ok tt, h).
Proof.
  intros Hi Hq. pose proof (hi_now _ _ Hi) as H0. unfold advance.
  erewrite sbind_step by (apply lift_Ok; unfold _integer; by rewrite (proj2 (Z.leb_le 0 _) H0)).
  erewrite sbind_step by reflexivity. erewrite sbind_step by (apply require_Ok, Z.leb_le; lia).
  destruct (next_event_spec_hbm _ _ Hi) as (o & Ho & _ & Hex).
  assert (Hloop : advance_loop (advance_fuel h) (now_ns h) h = (Ok tt, h)).
  { unfold advance_fuel. cbn [advance_loop]. erewrite sbind_step by reflexivity. erewrite sbind_step by (apply lift_Ok; exact Ho).
    destruct o as [t|]; [|done]. destruct Hex as (_ & s & st & id & r & Hs & Ha & Hr & He).
    specialize (Hq _ _ _ _ _ Hs Ha Hr He). by rewrite (proj2 (Z.ltb_lt _ _) Hq). }
  erewrite sbind_step by exact Hloop. by destruct h.
Qed.

Lemma arrival_quiet h id s o b h1 : hbm_inv [] h -> quiet_until (now_ns h) h -> requests h !! id = None ->
  check_arrival h (arrival_message id s o b (now_ns h)) = Ok (arrived_request id s o b (now_ns h)) ->
  arrival (arrival_message id s o b (now_ns h)) h = (Ok (arrived_request id s o b (now_ns h)), h1) ->
  quiet_until (now_ns h1) h1 /\ completions h1 = completions h.
Proof.
  intros Hi Hq Hn Hc E. unfold arrival in E. erewrite sbind_step in E by reflexivity.
  erewrite sbind_step in E by (apply lift_Ok; exact Hc). cbn [arrival_ns arrived_request] in E.
  erewrite sbind_step in E by (by apply advance_quiet). erewrite sbind_step in E by reflexivity.
  erewrite sbind_step in E by reflexivity. injection E as <-. split; [|done]. intros s0 st0 a r e Hs0 Ha Hr He. cbn in Hr, Hs0 |- *.
  destruct (decide (id = a)) as [<-|]; [rewrite lookup_insert_eq in Hr; injection Hr as <-; done|].
  rewrite lookup_insert_ne in Hr by done. by eapply Hq.
Qed.

(** The effect of starting the only queued request of an idle server. *)
Lemma start_one h s st id r d x : dget (stacks h) s = Some st -> active st = None -> queue st = [id] ->
  requests h !! id = Some r -> request_id r = id -> stack_id r = s -> duration_on st r = Ok (d, x) ->
  exists h', _start s h = (Ok tt, h') /\ requests h' = <[id := started_at (now_ns h) (now_ns h + d) r]> (requests h)
    /\ stacks h' = dset (stacks h) s (with_queue [] (Some id) st) /\ completions h' = completions h /\ now_ns h' = now_ns h.
Proof.
  intros Hs Ha Hq Hr Hid Hsid Hd. unfold _start. erewrite sbind_step by reflexivity.
  erewrite sbind_step by (apply lift_Ok; by apply dindex_Ok). rewrite Ha, Hq. erewrite sbind_step by reflexivity.
  erewrite sbind_step by (apply lift_Ok; unfold find_request; by rewrite Hr).
  erewrite sbind_step by (apply lift_Ok; unfold _duration_ns; rewrite Hsid, (proj2 (dindex_Ok _ _ _) Hs); simpl; exact Hd).
  cbv beta iota. erewrite sbind_step by reflexivity. erewrite sbind_step by reflexivity.
  eexists. split; [reflexivity|]. cbn. rewrite dset_dset, Hid. done.
Qed.

Lemma submit_quiet h id r st d x res h2 : hbm_inv [] h -> quiet_until (now_ns h) h -> requests h !! id = Some r ->
  state r = ARRIVED -> arrival_ns r <= now_ns h -> dget (stacks h) (stack_id r) = Some st ->
  duration_on st r = Ok (d, x) -> 0 < d -> submit id (VInt (now_ns h)) h = (res, h2) ->
  quiet_until (now_ns h2) h2 /\ completions h2 = completions h.
Proof.
  intros Hi Hq Hr Ha Hle Hst Hdur Hd E. pose proof (hi_now _ _ Hi) as H0. unfold submit in E. erewrite sbind_step in E by reflexivity.
  erewrite sbind_step in E by (apply lift_Ok; by rewrite Hr).
  erewrite sbind_step in E by (apply require_Ok; by apply bool_decide_eq_true_2).
  erewrite sbind_step in E by (apply lift_Ok; unfold _integer; by rewrite (proj2 (Z.leb_le 0 _) H0)).
  erewrite sbind_step in E by (by apply advance_quiet). erewrite sbind_step in E by (apply require_Ok; by apply Z.leb_le).
  erewrite sbind_step in E by reflexivity. erewrite sbind_step in E by reflexivity.
  erewrite sbind_step in E by (apply lift_Ok, dindex_Ok; exact Hst).
  erewrite sbind_step in E by reflexivity. erewrite sbind_step in E by reflexivity.
  pose proof (ro_id _ _ _ (hi_requests _ _ Hi _ _ Hr)) as Hid.
  match type of E with sbind (_start _) _ ?g0 = _ => set (g := g0) in * end.
  assert (Hg : requests g = <[id := queued_at (now_ns h) r]> (requests h)) by (unfold g; cbn; by rewrite Hid).
  assert (Hgs : stacks g = dset (stacks h) (stack_id r) (with_queue (queue st ++ [id]) (active st) st)) by done.
  assert (Hother : forall s0 st0 a, s0 <> stack_id r -> dget (stacks h) s0 = Some st0 -> active st0 = Some a -> a <> id).
  { intros s0 st0 a Hne Hs0 Ha0 ->. destruct (active_facts _ _ _ _ _ Hi Hs0 Ha0) as (r1 & _ & Hr1 & Hs1 & _). congruence. }
  assert (Hfin : forall h4, requests h4 !! id <> None -> now_ns h4 = now_ns h -> completions h4 = completions h ->
    quiet_until (now_ns h) h4 -> _start (stack_id r) g = (Ok tt, h4) -> quiet_until (now_ns h2) h2 /\ completions h2 = completions h).
  { intros h4 Hsome Hn4 Hc4 Hq4 H4. erewrite sbind_step in E by exact H4. erewrite sbind_step in E by reflexivity.
    destruct (requests h4 !! id) as [q|] eqn:Hq'; [|done].
    erewrite sbind_step in E by (apply lift_Ok; unfold find_request; by rewrite Hq'). injection E as _ <-. by rewrite Hn4. }
  destruct (active st) as [a|] eqn:Eact.
  - apply (Hfin g); try done; [rewrite Hg, lookup_insert_eq; done| |].
    + intros s0 st0 a0 r0 e Hs0 Ha0 Hr0 He. rewrite Hgs, dget_dset in Hs0. rewrite Hg in Hr0. case_decide as Es.
      * injection Hs0 as <-. cbn in Ha0. injection Ha0 as <-.
        assert (Hne : id <> a).
        { intros <-. destruct (active_facts _ _ _ _ _ Hi Hst Eact) as (r1 & _ & Hr1 & _ & Hs1 & _). congruence. }
        rewrite lookup_insert_ne in Hr0 by done. by apply (Hq (stack_id r) st a r0 e).
      * rewrite lookup_insert_ne in Hr0; [by eapply Hq|]. symmetry. by eapply Hother.
    + unfold _start. erewrite sbind_step by reflexivity.
      erewrite sbind_step by (apply lift_Ok, dindex_Ok; rewrite Hgs; apply dget_dset_eq). done.
  - assert (Hqueue : queue st = []).
    { destruct (hi_busy _ _ Hi _ _ Hst Eact) as [|Hin]; [done|]. by apply not_elem_of_nil in Hin. }
    rewrite Hqueue in *. cbn [app] in Hgs.
    destruct (start_one g (stack_id r) (with_queue [id] None st) id (queued_at (now_ns h) r) d x) as (h4 & H4 & Hr4 & Hs4 & Hc4 & Hn4);
      try done; [rewrite Hgs; apply dget_dset_eq|rewrite Hg; apply lookup_insert_eq|].
    apply (Hfin h4); try done; [rewrite Hr4, lookup_insert_eq; done|].
    intros s0 st0 a0 r0 e Hs0 Ha0 Hr0 He. rewrite Hs4, Hgs, dset_dset, dget_dset in Hs0. rewrite Hr4, Hg, insert_insert_eq in Hr0.
    case_decide as Es.
    + injection Hs0 as <-. cbn in Ha0. injection Ha0 as <-. rewrite lookup_insert_eq in Hr0. injection Hr0 as <-.
      cbn in He. injection He as <-. change (now_ns g) with (now_ns h). lia.
    + rewrite lookup_insert_ne in Hr0; [by eapply Hq|]. symmetry. by eapply Hother.
Qed.

(** A stack with unfinished work is serving a request. *)
Lemma open_active h id q : hbm_inv [] h -> requests h !! id = Some q -> state q <> ARRIVED -> state q <> MEDIA_COMPLETE ->
  exists st, dget (stacks h) (stack_id q) = Some st /\ exists a, active st = Some a.
Proof.
  intros Hi Hq Ha Hc. destruct (hi_requests _ _ Hi _ _ Hq) as [_ _ (st & Hst & _) _]. exists st. split; [done|].
  destruct (active st) as [a|] eqn:E; [by exists a|]. exfalso. destruct (hi_stacks _ _ Hi _ _ Hst) as (log & done & Hok).
  destruct (hi_busy _ _ Hi _ _ Hst E) as [Hqueue|Hin]; [|by apply not_elem_of_nil in Hin].
  assert (Hin : id ∈ log) by (apply (so_members _ _ _ _ _ _ Hok); eauto).
  rewrite (so_log _ _ _ _ _ _ Hok), E, Hqueue in Hin. cbn in Hin. rewrite app_nil_r in Hin.
  destruct (so_done _ _ _ _ _ _ Hok _ Hin) as (r0 & Hr0 & ?). congruence.
Qed.

(** ** Calls *)

(** A call of the object, which may raise. *)
Inductive call (h : hbm) : hbm -> Prop :=
| call_arrival v r h' : arrival v h = (r, h') -> call h h'
| call_submit id time r h' : submit id time h = (r, h') -> call h h'
| call_advance t r h' : advance t h = (r, h') -> call h h'
| call_facts r h' : take_facts h = (r, h') -> call h h'
| call_completions r h' : take_media_completions h = (r, h') -> call h h'.

(** Every state a caller can reach. *)
Inductive reachable : hbm -> Prop :=
| reach_init v h : init v = Ok h -> reachable h
| reach_call h h' : reachable h -> call h h' -> reachable h'.

(** The floats can express the service of every request that arrived. *)
Definition serviceable_all (h : hbm) : Prop := forall id r st,
  requests h !! id = Some r -> dget (stacks h) (stack_id r) = Some st -> serviceable st (op r) (bytes r) = true.

(** A stack queues or serves a request. *)
Definition holds (st : hbm_stack) (id : string) : Prop := id ∈ queue st \/ active st = Some id.

(** A submitted request that no stack queues or serves. *)
Definition lost (id : string) (h : hbm) : Prop :=
  (exists r, requests h !! id = Some r /\ state r = QUEUED) /\
  forall s st, dget (stacks h) s = Some st -> ~ holds st id.

(** Requests are stored under their identifier, and only submitted ones are held. *)
Record tidy (h : hbm) : Prop := {
  td_key : forall id r, requests h !! id = Some r -> request_id r = id;
  td_held : forall s st id, dget (stacks h) s = Some st -> holds st id ->
    exists r, requests h !! id = Some r /\ state r <> ARRIVED }.

(** What no call changes, whether it returns or raises: what a request asks for,
    the parameters of a stack, and that a lost request is lost. *)
Record kept (h h' : hbm) : Prop := {
  kp_tidy : tidy h';
  kp_requests : forall id r, requests h !! id = Some r -> exists r', requests h' !! id = Some r' /\ same_request r r';
  kp_stacks : forall s st, dget (stacks h) s = Some st -> exists st', dget (stacks h') s = Some st' /\ same_params st st';
  kp_lost : forall id, lost id h -> lost id h' }.

Lemma kept_frame h h' : tidy h -> requests h' = requests h -> stacks h' = stacks h -> kept h h'.
Proof.
  intros [Hk Hh] Er Es. constructor; unfold lost; rewrite ?Er, ?Es.
  - by constructor; rewrite ?Er, ?Es.
  - intros id r Hr. by exists r.
  - intros s st Hs. by exists st.
  - done.
Qed.

Lemma kept_trans h1 h2 h3 : kept h1 h2 -> kept h2 h3 -> kept h1 h3.
Proof.
  intros [_ R1 S1 L1] [K2 R2 S2 L2]. constructor; [done| | |auto].
  - intros id r Hr. destruct (R1 _ _ Hr) as (r2 & Hr2 & E1 & E2 & E3 & E4). destruct (R2 _ _ Hr2) as (r3 & Hr3 & F1 & F2 & F3 & F4).
    exists r3. split; [done|]. split_and!; congruence.
  - intros s st Hs. destruct (S1 _ _ Hs) as (st2 & Hs2 & E1 & E2 & E3). destruct (S2 _ _ Hs2) as (st3 & Hs3 & F1 & F2 & F3).
    exists st3. split; [done|]. split_and!; congruence.
Qed.

(** The stacks keep their parameters and may only take in [id]. *)
Definition moved (id : string) (h h' : hbm) : Prop := forall s,
  match dget (stacks h) s, dget (stacks h') s with
  | Some st, Some st' => same_params st st' /\ forall x, holds st' x -> x = id \/ holds st x
  | None, None => True
  | _, _ => False
  end.

Lemma moved_refl id h h' : stacks h' = stacks h -> moved id h h'.
Proof. intros E s. rewrite E. destruct (dget (stacks h) s); [|done]. split; [done|auto]. Qed.

Lemma moved_set id h h' s st st' : dget (stacks h) s = Some st -> stacks h' = dset (stacks h) s st' -> same_params st st' ->
  (forall x, holds st' x -> x = id \/ holds st x) -> moved id h h'.
Proof.
  intros Hs E Hp Hh s1. rewrite E, dget_dset. case_decide as Es; [subst s1; by rewrite Hs|].
  destruct (dget (stacks h) s1); [|done]. split; [done|auto].
Qed.

Lemma moved_get id h h' s st' : moved id h h' -> dget (stacks h') s = Some st' ->
  exists st, dget (stacks h) s = Some st /\ forall x, holds st' x -> x = id \/ holds st x.
Proof. intros Hm Hs. specialize (Hm s). rewrite Hs in Hm. destruct (dget (stacks h) s) as [st|]; [|done]. exists st. by split; [|apply Hm]. Qed.

(** An update of one submitted request and of the stacks. *)
Lemma kept_update h h' id r r' : tidy h -> requests h !! id = Some r -> same_request r r' -> state r' <> ARRIVED -> ~ lost id h ->
  requests h' = <[id := r']> (requests h) -> moved id h h' -> kept h h'.
Proof.
  intros [Hk Hh] Hr Hs Ha Hn Er Hm. constructor.
  - constructor; rewrite Er.
    + intros id1 r1 [[<- <-]|[Hne H1]]%lookup_insert_Some; [|by apply Hk]. destruct Hs as [-> _]. by apply Hk.
    + intros s st' x Hst' Hx. destruct (moved_get _ _ _ _ _ Hm Hst') as (st & Hst & Hin). destruct (decide (x = id)) as [->|Hne].
      * exists r'. by rewrite lookup_insert_eq.
      * rewrite lookup_insert_ne by done. destruct (Hin _ Hx) as [|Hx']; [done|]. by eapply Hh.
  - intros id1 r1 H1. rewrite Er. destruct (decide (id = id1)) as [<-|Hne]; [rewrite lookup_insert_eq|rewrite lookup_insert_ne by done; by exists r1].
    assert (r1 = r) as -> by congruence. by exists r'.
  - intros s st Hst. specialize (Hm s). rewrite Hst in Hm. destruct (dget (stacks h') s) as [st'|]; [|done]. exists st'. by split; [|apply Hm].
  - intros id1 Hl. assert (Hne : id1 <> id) by (by intros ->). destruct Hl as [(r1 & Hr1 & Hq) Hl]. split.
    + exists r1. by rewrite Er, lookup_insert_ne.
    + intros s st' Hst' Hx. destruct (moved_get _ _ _ _ _ Hm Hst') as (st & Hst & Hin). destruct (Hin _ Hx) as [|Hx']; [done|]. by apply (Hl s st).
Qed.

(** A new request. *)
Lemma kept_new h h' r : tidy h -> requests h !! request_id r = None -> requests h' = <[request_id r := r]> (requests h) ->
  stacks h' = stacks h -> kept h h'.
Proof.
  intros [Hk Hh] Hn Er Es. constructor; rewrite ?Es.
  - constructor; rewrite ?Er, ?Es.
    + intros id1 r1 [[<- <-]|[Hne H1]]%lookup_insert_Some; [done|by apply Hk].
    + intros s st x Hst Hx. destruct (Hh _ _ _ Hst Hx) as (r1 & Hr1 & Ha). exists r1. rewrite lookup_insert_ne by congruence. done.
  - intros id r1 Hr1. exists r1. rewrite Er, lookup_insert_ne by congruence. done.
  - intros s st Hst. by exists st.
  - intros id [(r1 & Hr1 & Hq) Hl]. split; [|by rewrite Es]. exists r1. rewrite Er, lookup_insert_ne by congruence. done.
Qed.

(** Inside a call: a request that was not submitted does not change. *)
Record steady (h h' : hbm) : Prop := {
  sd_kept : kept h h';
  sd_still : forall id, (forall r, requests h !! id = Some r -> state r = ARRIVED) -> requests h' !! id = requests h !! id }.

Lemma steady_frame h h' : tidy h -> requests h' = requests h -> stacks h' = stacks h -> steady h h'.
Proof. intros Hk Er Es. constructor; [by apply kept_frame|]. intros id _. by rewrite Er. Qed.

Lemma steady_trans h1 h2 h3 : steady h1 h2 -> steady h2 h3 -> steady h1 h3.
Proof.
  intros [K1 S1] [K2 S2]. constructor; [by eapply kept_trans|]. intros id Hid. rewrite S2; [by apply S1|]. by rewrite S1.
Qed.

Lemma steady_update h h' id r r' : tidy h -> requests h !! id = Some r -> state r <> ARRIVED -> same_request r r' -> state r' <> ARRIVED ->
  ~ lost id h -> requests h' = <[id := r']> (requests h) -> moved id h h' -> steady h h'.
Proof.
  intros Hk Hr Ha Hs Ha' Hl Er Hm. constructor; [by eapply kept_update|]. intros id1 Hid. rewrite Er. apply lookup_insert_ne. intros <-. by apply Ha, Hid.
Qed.

Notation keeps m := (forall h, tidy h -> ProgramLogic.wp (fun _ h' => steady h h') m (fun _ h' => steady h h') h).

Lemma keeps_lift {A} (r : result A) (Q : A -> hbm -> Prop) (F : exn -> hbm -> Prop) h :
  (forall a, r = Ok a -> Q a h) -> (forall e, F e h) -> ProgramLogic.wp F (lift r) Q h.
Proof. unfold ProgramLogic.wp, lift. destruct r; auto. Qed.

Lemma keeps_from {A} (m : M hbm A) h h1 : steady h h1 -> keeps m -> ProgramLogic.wp (fun _ h' => steady h h') m (fun _ h' => steady h h') h1.
Proof.
  intros H1 Hm. specialize (Hm h1 (kp_tidy _ _ (sd_kept _ _ H1))). unfold ProgramLogic.wp in *. destruct (m h1) as [[b|e] h2]; by eapply steady_trans.
Qed.

Lemma keeps_then {A B} (m : M hbm A) (k : A -> M hbm B) h : ProgramLogic.wp (fun _ h' => steady h h') m (fun _ h' => steady h h') h ->
  (forall a, keeps (k a)) -> ProgramLogic.wp (fun _ h' => steady h h') (sbind m k) (fun _ h' => steady h h') h.
Proof.
  intros Hm Hc. apply ProgramLogic.wp_bind. eapply ProgramLogic.wp_mono; [exact Hm|]. intros a h1 H1. exact (keeps_from (k a) h h1 H1 (Hc a)).
Qed.

Lemma keeps_forM {A} (f : A -> M hbm unit) l : (forall x, keeps (f x)) -> keeps (forM l f).
Proof.
  intros Hf. induction l as [|x l IH]; intros h Hk; cbn [forM]; [by apply ProgramLogic.wp_ret, steady_frame|].
  apply keeps_then; [by apply Hf|]. intros _. exact IH.
Qed.

Lemma of_option_inv {A} e (o : option A) a : of_option e o = Ok a -> o = Some a.
Proof. destruct o; simpl; congruence. Qed.

Lemma start_keeps s : keeps (_start s).
Proof.
  intros h Hk. unfold _start. ProgramLogic.wp_steps. apply keeps_lift; [|by intros; apply steady_frame]. intros st Hst%dindex_Ok.
  destruct (active st) as [a|] eqn:Ea; [by apply ProgramLogic.wp_ret, steady_frame|].
  destruct (queue st) as [|id rest] eqn:Eq; [by apply ProgramLogic.wp_ret, steady_frame|].
  assert (Hin : holds st id) by (left; rewrite Eq; apply elem_of_cons; by left).
  assert (Hnl : ~ lost id h) by (intros [_ Hl]; by apply (Hl _ _ Hst)). destruct (td_held _ Hk _ _ _ Hst Hin) as (r0 & Hr0 & Ha0).
  assert (Hsub : forall a, a = None \/ a = Some id -> forall x, holds (with_queue rest a st) x -> x = id \/ holds st x).
  { intros a Hq x [Hx|Hx]; cbn in Hx; [right; left; rewrite Eq; apply elem_of_cons; by right|left; destruct Hq; congruence]. }
  apply ProgramLogic.wp_bind, ProgramLogic.wp_modify.
  set (h1 := set_stacks (dset (stacks h) s (with_queue rest None st)) h).
  assert (H1 : steady h h1).
  { apply (steady_update h h1 id r0 r0); try done; [by rewrite insert_id|].
    apply (moved_set id h h1 s st (with_queue rest None st)); try done. apply Hsub. by left. }
  apply ProgramLogic.wp_bind, keeps_lift; [|done]. intros r Hr%of_option_inv. assert (r0 = r) as -> by congruence.
  apply ProgramLogic.wp_bind, keeps_lift; [|done]. intros [d x] _. unfold put_request, put_stack, _emit. ProgramLogic.wp_steps.
  pose proof (td_key _ Hk _ _ Hr) as Hid. eapply (steady_update h _ id r (started_at (now_ns h) (now_ns h + d) r)); try done.
  - cbn. by rewrite Hid.
  - eapply (moved_set id h _ s st (with_queue rest (Some (request_id r)) st)); try done; [cbn; apply dset_dset|].
    apply Hsub. right. by rewrite Hid.
Qed.

Lemma complete_keeps s : keeps (complete_stack s).
Proof.
  intros h Hk. unfold complete_stack. ProgramLogic.wp_steps. apply keeps_lift; [|by intros; apply steady_frame]. intros st Hst%dindex_Ok.
  apply ProgramLogic.wp_bind, keeps_lift; [|by intros; apply steady_frame]. intros id Ha%of_option_inv.
  apply ProgramLogic.wp_bind, keeps_lift; [|by intros; apply steady_frame]. intros r Hr%of_option_inv. pose proof (td_key _ Hk _ _ Hr) as Hid.
  unfold put_request, put_stack. ProgramLogic.wp_steps. match goal with |- ProgramLogic.wp _ _ _ ?v => set (h1 := v) end.
  assert (H1 : steady h h1).
  { eapply (steady_update h h1 id r (completed r)); try done.
    - destruct (td_held _ Hk s st id) as (r1 & Hr1 & Ha1); [done|by right|]. congruence.
    - intros [_ Hl]. apply (Hl _ _ Hst). by right.
    - unfold h1. cbn. by rewrite Hid.
    - eapply (moved_set id h h1 s st (with_queue (queue st) None st)); try done. intros x [Hx|Hx]; [right; by left|done]. }
  apply keeps_lift; [|done]. intros e _. unfold _emit. ProgramLogic.wp_steps. eapply steady_trans; [exact H1|].
  apply steady_frame; [apply (kp_tidy _ _ (sd_kept _ _ H1))|done|done].
Qed.

Lemma loop_keeps fuel t : keeps (advance_loop fuel t).
Proof.
  induction fuel as [|fuel IH]; intros h Hk; cbn [advance_loop]; [by apply ProgramLogic.wp_raise, steady_frame|]. ProgramLogic.wp_steps.
  apply keeps_lift; [|by intros; apply steady_frame]. intros [t0|] _; [|by apply ProgramLogic.wp_ret, steady_frame].
  destruct (t <? t0); [by apply ProgramLogic.wp_ret, steady_frame|]. apply keeps_then; [|intros _; exact IH].
  unfold advance_to. apply keeps_then; [by apply ProgramLogic.wp_modify, steady_frame|]. intros _ h1 Hk1.
  apply ProgramLogic.wp_bind, ProgramLogic.wp_get. apply keeps_then; [apply keeps_forM; [apply complete_keeps|done]|].
  intros _. apply keeps_forM, start_keeps.
Qed.

Lemma advance_keeps v : keeps (advance v).
Proof.
  intros h Hk. unfold advance. apply ProgramLogic.wp_bind, keeps_lift; [|by intros; apply steady_frame]. intros t _.
  ProgramLogic.wp_steps. apply ProgramLogic.wp_require; [by intros; apply steady_frame|]. intros _.
  apply keeps_then; [by apply loop_keeps|]. intros _ h1 Hk1. by apply ProgramLogic.wp_modify, steady_frame.
Qed.

Lemma advance_steady v h res h' : tidy h -> advance v h = (res, h') -> steady h h'.
Proof. intros Hk E. pose proof (advance_keeps v h Hk) as H. unfold ProgramLogic.wp in H. rewrite E in H. by destruct res. Qed.

Lemma start_steady s h res h' : tidy h -> _start s h = (res, h') -> steady h h'.
Proof. intros Hk E. pose proof (start_keeps s h Hk) as H. unfold ProgramLogic.wp in H. rewrite E in H. by destruct res. Qed.

Lemma arrival_kept v h res h' : tidy h -> arrival v h = (res, h') -> kept h h'.
Proof.
  intros Hk E. unfold arrival in E. erewrite sbind_step in E by reflexivity.
  destruct (check_arrival h v) as [r|e] eqn:Ec;
    [erewrite sbind_step in E by reflexivity|erewrite sbind_raise in E by reflexivity; injection E as _ <-; by apply kept_frame].
  destruct (check_arrival_spec _ _ _ Ec) as (Hnew & _). destruct (advance (VInt (arrival_ns r)) h) as [[[]|e] h1] eqn:E1.
  - destruct (advance_steady _ _ _ _ Hk E1) as [Hk1 Hs1]. erewrite sbind_step in E by exact E1. injection E as _ <-.
    eapply kept_trans; [exact Hk1|]. eapply (kept_new h1 _ r); [apply (kp_tidy _ _ Hk1)| |done|done]. rewrite Hs1; [done|]. by rewrite Hnew.
  - erewrite sbind_raise in E by exact E1. injection E as _ <-. apply (advance_steady _ _ _ _ Hk E1).
Qed.

Lemma submit_kept id time h res h' : tidy h -> submit id time h = (res, h') -> kept h h'.
Proof.
  intros Hk E. unfold submit in E. erewrite sbind_step in E by reflexivity. pose proof (kept_frame h h Hk eq_refl eq_refl) as Hrefl.
  peel E r Hr. apply of_option_inv in Hr. peel_guard E Ha. apply bool_decide_eq_true in Ha. peel E t Et.
  destruct (advance (VInt t) h) as [[[]|e] h1] eqn:E1;
    [erewrite sbind_step in E by exact E1|erewrite sbind_raise in E by exact E1; injection E as _ <-; apply (advance_steady _ _ _ _ Hk E1)].
  destruct (advance_steady _ _ _ _ Hk E1) as [Hk1 Hs1]. eapply kept_trans; [exact Hk1|]. apply kp_tidy in Hk1.
  assert (Hr1 : requests h1 !! id = Some r) by (rewrite Hs1; [done|]; intros r0; congruence).
  pose proof (td_key _ Hk1 _ _ Hr1) as Hid. assert (Hnl : ~ lost id h1) by (intros [(r0 & ? & ?) _]; congruence).
  destruct (arrival_ns r <=? t); [erewrite sbind_step in E by reflexivity|erewrite sbind_raise in E by reflexivity; injection E as _ <-; by apply kept_frame].
  do 2 erewrite sbind_step in E by reflexivity. destruct (dget (stacks h1) (stack_id r)) as [st|] eqn:Est.
  - erewrite sbind_step in E by (apply lift_Ok, dindex_Ok; exact Est). do 2 erewrite sbind_step in E by reflexivity.
    match type of E with sbind _ _ ?g = _ => set (h2 := g) in E end. assert (H2 : kept h1 h2).
    { eapply (kept_update h1 h2 id r (queued_at t r)); try done; [cbn; by rewrite Hid|].
      eapply (moved_set id h1 h2 (stack_id r) st (with_queue (queue st ++ [id]) (active st) st)); try done.
      intros x [Hx|Hx]; [apply elem_of_app in Hx as [Hx|Hx%list_elem_of_singleton]; [right; by left|by left]|right; by right]. }
    eapply kept_trans; [exact H2|]. apply kp_tidy in H2. destruct (_start (stack_id r) h2) as [[[]|e] h3] eqn:E3;
      [erewrite sbind_step in E by exact E3|erewrite sbind_raise in E by exact E3; injection E as _ <-; apply (start_steady _ _ _ _ H2 E3)].
    apply (start_steady _ _ _ _ H2) in E3 as [H3 _]. erewrite sbind_step in E by reflexivity.
    destruct (find_request h3 id); [erewrite sbind_step in E by reflexivity|erewrite sbind_raise in E by reflexivity]; by injection E as _ <-.
  - erewrite sbind_raise in E by (unfold dindex, lift; cbn; rewrite Est; reflexivity). injection E as _ <-.
    eapply (kept_update h1 _ id r (queued_at t r)); try done; [cbn; by rewrite Hid|by apply moved_refl].
Qed.

Lemma call_kept h h' : tidy h -> call h h' -> kept h h'.
Proof.
  intros Hk []; eauto using arrival_kept, submit_kept.
  - by eapply advance_steady.
  - match goal with H : take_facts _ = _ |- _ => injection H as _ <- end. by apply kept_frame.
  - match goal with H : take_media_completions _ = _ |- _ => injection H as _ <- end. by apply kept_frame.
Qed.

Lemma calls_kept h h' : tidy h -> rtc call h h' -> kept h h'.
Proof.
  intros Hk H. induction H as [h|h1 h2 h3 H12 _ IH]; [by apply kept_frame|]. pose proof (call_kept _ _ Hk H12) as K.
  eapply kept_trans; [exact K|]. by apply IH, (kp_tidy _ _ K).
Qed.

Lemma kept_serviceable h h' : kept h h' -> serviceable_all h' -> serviceable_all h.
Proof.
  intros Hk Hs id r st Hr Hst. destruct (kp_requests _ _ Hk _ _ Hr) as (r' & Hr' & _ & E1 & E2 & E3).
  destruct (kp_stacks _ _ Hk _ _ Hst) as (st' & Hst' & Hp). rewrite <- (serviceable_params _ _ _ _ Hp), <- E2, <- E3.
  apply (Hs id); [done|by rewrite E1].
Qed.

(** A request that the invariant cannot admit stays visible after its arrival. *)
Lemma arrival_admissible h v res h' : hbm_inv [] h -> arrival v h = (res, h') -> serviceable_all h' -> h' = h \/ admissible h v = true.
Proof.
  intros Hi E Hs. unfold admissible. unfold arrival in E. erewrite sbind_step in E by reflexivity.
  destruct (check_arrival h v) as [r|e] eqn:Ec; [erewrite sbind_step in E by reflexivity|by right].
  destruct (check_arrival_spec _ _ _ Ec) as (_ & _ & _ & [st Hst] & _). rewrite Hst.
  destruct (Z_lt_le_dec (arrival_ns r) (now_ns h)) as [Hlt|Hle].
  { left. destruct (advance_error h (arrival_ns r) ltac:(lia)) as [e Ha]. erewrite sbind_raise in E by exact Ha. by injection E as _ <-. }
  destruct (hbm_advance_ok h _ Hi Hle) as (h1 & H1 & _ & _ & [_ _ Hsts _] & _). erewrite sbind_step in E by exact H1. injection E as _ <-.
  right. destruct (Hsts _ _ Hst) as (st' & Hs' & Hp). rewrite <- (serviceable_params _ _ _ _ Hp).
  apply (Hs (request_id r)); [cbn; apply lookup_insert_eq|exact Hs'].
Qed.


Lemma init_stack_ok acc raw acc' :
  NoDup (dkeys acc) ->
  (forall s st, dget acc s = Some st -> stack_params_ok st /\ queue st = [] /\ active st = None) ->
  init_stack acc raw = Ok acc' ->
  NoDup (dkeys acc') /\
  (forall s st, dget acc' s = Some st -> stack_params_ok st /\ queue st = [] /\ active st = None).
Proof.
  intros Hnd Hok H. unfold init_stack in H. inv_ok. split; [by apply NoDup_dkeys_dset|].
  intros s st. rewrite dget_dset. case_decide; [|apply Hok]. intros [= <-]. simpl. split_and!; [|done|done].
  constructor; simpl.
  - eapply (over_ops_Ok (fun z => 0 <= z)); [|eassumption]. intros v o z Hz. simpl in Hz. by apply hbm_integer_Ok in Hz as [_ Hz].
  - eapply (over_ops_Ok positive_float); [|eassumption]. intros v o z Hz. simpl in Hz. by apply number_positive in Hz.
Qed.

Lemma hbm_init_inv v h : init v = Ok h -> hbm_inv [] h.
Proof.
  unfold init. intros H. inv_ok. destruct (get_or_none _ "stacks") as [| | | | |[|row rows]|]; try done. inv_ok.
  match goal with H : foldM init_stack _ _ = Ok _ |- _ => rename H into Hf end.
  apply (foldM_Ok_ind (fun _ d => NoDup (dkeys d) /\ forall s st, dget d s = Some st ->
    stack_params_ok st /\ queue st = [] /\ active st = None)) in Hf as [Hnd Hok].
  - constructor; simpl; try done.
    + intros s st Hs. destruct (Hok _ _ Hs) as (Hp & Hq & Ha). exists [], []. constructor; try done.
      * by rewrite Ha, Hq.
      * constructor.
      * intros id. rewrite elem_of_nil. split; [done|]. intros (r & Hr & _). by rewrite lookup_empty in Hr.
      * intros id Hid. by apply not_elem_of_nil in Hid.
      * intros id Hid. congruence.
      * intros id Hid. rewrite Hq in Hid. by apply not_elem_of_nil in Hid.
      * exists 0. rewrite Ha. split; [constructor|]. unfold due. by rewrite Ha, Hq.
    + intros s st Hs Ha. left. by apply (Hok _ _ Hs).
  - split; [constructor|done].
  - intros d raw todo d1 d2 _ [Hd1 Hd2] Hs. by eapply init_stack_ok.
Qed.

Lemma hbm_advance_inv h v r h' : hbm_inv [] h -> advance v h = (r, h') -> hbm_inv [] h'.
Proof.
  intros Hi E. pose proof E as E0. unfold advance in E. peel E t Et. erewrite sbind_step in E by reflexivity.
  peel_guard E Hle. apply Z.leb_le in Hle. apply hbm_integer_Ok in Et as [-> _].
  destruct (hbm_advance_ok h t Hi Hle) as (h1 & H1 & Hi1 & _). congruence.
Qed.

Lemma inv_tidy h : hbm_inv [] h -> tidy h.
Proof.
  intros Hi. constructor; [intros id r Hr; apply (hi_requests _ _ Hi _ _ Hr)|]. intros s st id Hs Hh.
  destruct (hi_stacks _ _ Hi _ _ Hs) as (log & done & Hok).
  assert (Hin : id ∈ log).
  { rewrite (so_log _ _ _ _ _ _ Hok), !elem_of_app. destruct Hh as [|Ha]; [auto|]. right. left. rewrite Ha. by apply list_elem_of_singleton. }
  apply (so_members _ _ _ _ _ _ Hok) in Hin as (r & Hr & _ & Ha). by exists r.
Qed.

Lemma hbm_reachable_tidy h : reachable h -> tidy h.
Proof. induction 1 as [v h H|h h' _ IH H]; [by eapply inv_tidy, hbm_init_inv|]. by apply (kp_tidy h h'), call_kept. Qed.

Lemma hbm_reachable_inv h : reachable h -> serviceable_all h -> hbm_inv [] h.
Proof.
  induction 1 as [v h H|h h' Hr IH H]; intros Hs; [by eapply hbm_init_inv|].
  specialize (IH (kept_serviceable _ _ (call_kept _ _ (hbm_reachable_tidy _ Hr) H) Hs)). destruct H; eauto using submit_inv, hbm_advance_inv.
  - edestruct arrival_admissible as [->|Ha]; [exact IH|eassumption|exact Hs|exact IH|by eapply arrival_inv].
  - match goal with H : take_facts _ = _ |- _ => injection H as _ <- end. destruct IH. by constructor.
  - match goal with H : take_media_completions _ = _ |- _ => injection H as _ <- end. destruct IH. by constructor.
Qed.

(** ** Splitting an advance *)

Lemma loop_fuel f1 f2 t h : hbm_inv [] h -> (work h < f1)%nat -> (work h < f2)%nat ->
  advance_loop f1 t h = advance_loop f2 t h.
Proof.
  revert f2 h. induction f1 as [|f1 IH]; intros [|f2] h Hi H1 H2; try lia. cbn [advance_loop].
  destruct (next_event_spec_hbm _ _ Hi) as (o & Ho & _). unfold sbind, lift, get. rewrite Ho.
  destruct o as [t0|]; [|done]. destruct (t <? t0); [done|].
  destruct (advance_to_ok h t0 Hi Ho) as (h1 & E1 & Hi1 & _ & Hw & _). rewrite E1. apply IH; [done|lia|lia].
Qed.

Lemma next_event_set_now t h : next_event_ns (set_now t h) = next_event_ns h.
Proof. done. Qed.

(** The loop to [b] passes through the state of the loop to [a]. *)
Lemma loop_split fuel fuel' a b h ha : hbm_inv [] h -> (work h < fuel)%nat -> a <= b ->
  advance_loop fuel a h = (Ok tt, ha) -> hbm_inv [] ha -> (work ha < fuel')%nat ->
  exists hb, advance_loop fuel b h = (Ok tt, hb) /\
    exists hb', advance_loop fuel' b (set_now a ha) = (Ok tt, hb') /\ set_now b hb' = set_now b hb.
Proof.
  intros Hi Hw Hab Ea Hia Hw'. revert h Hi Hw Ea. induction fuel as [|fuel IH]; intros h Hi Hw Ea; [lia|].
  cbn [advance_loop] in *. destruct (next_event_spec_hbm _ _ Hi) as (o & Ho & _).
  unfold sbind at 1, get in Ea. unfold sbind at 1, lift in Ea. rewrite Ho in Ea.
  unfold sbind at 1, get. unfold sbind at 1, lift. rewrite Ho.
  destruct o as [t0|].
  - destruct (a <? t0) eqn:E.
    + injection Ea as <-. destruct fuel' as [|fuel']; [lia|]. cbn [advance_loop].
      unfold sbind at 2, get. unfold sbind at 2, lift. rewrite next_event_set_now, Ho.
      destruct (b <? t0) eqn:E'; [by exists h; split; [|exists (set_now a h)]|].
      destruct (advance_to_ok h t0 Hi Ho) as (h1 & E1 & Hi1 & Hn1 & Hw1 & _).
      unfold sbind. change (advance_to t0 (set_now a h)) with (advance_to t0 h). rewrite E1.
      rewrite (loop_fuel fuel fuel') by (try done; lia).
      destruct (advance_loop_ok fuel' b h1) as (hb & Hb & _); [done|lia|lia|].
      by exists hb; split; [|exists hb].
    + rewrite (proj2 (Z.ltb_ge b t0)) by lia.
      destruct (advance_to_ok h t0 Hi Ho) as (h1 & E1 & Hi1 & _ & Hw1 & _).
      unfold sbind in Ea. rewrite E1 in Ea. unfold sbind at 1. rewrite E1. apply IH; [done|lia|done].
  - injection Ea as <-. destruct fuel' as [|fuel']; [lia|]. cbn [advance_loop].
    unfold sbind, get, lift. rewrite next_event_set_now, Ho. by exists h; split; [|exists (set_now a h)].
Qed.

(** ** Correctness *)

(** C25: each HBM stack is a FIFO server.  In every state a caller can reach, by
    calls that return or raise, in which the floats express the service time and
    energy of every request that arrived, the stack's submitted requests, in submission order, are the started ones followed by the queue;
    every started request begins at the later of its submission and the end of
    the request before it and takes its latency plus transfer time; and the
    server is never idle while a request is queued. *)
Theorem hbm_fifo_schedule h s st : reachable h -> serviceable_all h -> dget (stacks h) s = Some st ->
  exists started last,
    (forall id, id ∈ started ++ queue st <-> exists r, requests h !! id = Some r /\ stack_id r = s /\ state r <> ARRIVED)
    /\ NoDup (started ++ queue st) /\ sorted (submit_le (requests h)) (started ++ queue st)
    /\ schedule (requests h) st 0 started last
    /\ (forall id, id ∈ queue st -> waits (requests h) id)
    /\ (active st = None -> queue st = []).
Proof.
  intros Hr Hsv Hs. pose proof (hbm_reachable_inv _ Hr Hsv) as Hi. destruct (hi_stacks _ _ Hi _ _ Hs) as (log & done & Hok).
  pose proof Hok as [Hp Hl Hnd Hm Hsu Hso Hd Ha Hq (last & Hsc & _)]. rewrite app_assoc in Hl. rewrite Hl in Hm, Hnd, Hso.
  exists (done ++ option_list (active st)), last. split_and!; try done.
  intros Hn. destruct (hi_busy _ _ Hi _ _ Hs Hn) as [|Hin]; [done|]. by apply not_elem_of_nil in Hin.
Qed.

(** Advancing such a state to a time that is not in the past terminates
    without error, sets the clock, loses no request, and completes every request
    whose service ends by then. *)
Theorem hbm_advance_total h t : reachable h -> serviceable_all h -> now_ns h <= t ->
  exists h', advance (VInt t) h = (Ok tt, h') /\ reachable h' /\ now_ns h' = t
    /\ (forall id, is_Some (requests h' !! id) <-> is_Some (requests h !! id))
    /\ (forall id r e, requests h' !! id = Some r -> media_end_ns r = Some e -> e <= t -> state r = MEDIA_COMPLETE).
Proof.
  intros Hr Hsv Hle. destruct (hbm_advance_ok h t (hbm_reachable_inv _ Hr Hsv) Hle) as (h' & H' & Hi' & Hn & [Hdom _ _ _] & Hq & _).
  exists h'. split_and!; try done; [by eapply reach_call, call_advance|].
  intros id r e Hid He Het. destruct (hi_requests _ _ Hi' _ _ Hid) as [_ _ (st & Hst & _) Hf].
  destruct (hi_stacks _ _ Hi' _ _ Hst) as (log & done & Hok).
  destruct (decide (state r = ARRIVED)) as [Ha|Hna]; [destruct (Hf Ha); congruence|].
  assert (Hin : id ∈ log) by (apply (so_members _ _ _ _ _ _ Hok); eauto).
  rewrite (so_log _ _ _ _ _ _ Hok), !elem_of_app in Hin. destruct Hin as [Hd|[Ha|Hw]].
  - destruct (so_done _ _ _ _ _ _ Hok _ Hd) as (r0 & Hr0 & ?). congruence.
  - destruct (active st) as [a|] eqn:Ea; [|by apply not_elem_of_nil in Ha]. apply list_elem_of_singleton in Ha as ->.
    specialize (Hq _ _ _ _ _ Hst Ea Hid He). lia.
  - destruct (so_queue _ _ _ _ _ _ Hok _ Hw) as (r0 & Hr0 & _ & _ & _ & ?). congruence.
Qed.

(** How a caller slices time does not matter: advancing to [a] and then to
    [b] leaves exactly the state, facts and completions of advancing to [b]. *)
Theorem hbm_advance_split h a b : reachable h -> serviceable_all h -> now_ns h <= a -> a <= b ->
  (let! _ := advance (VInt a) in advance (VInt b)) h = advance (VInt b) h.
Proof.
  intros Hr Hsv Hna Hab. pose proof (hbm_reachable_inv _ Hr Hsv) as Hi. pose proof (hi_now _ _ Hi).
  assert (Hfuel : forall g, (work g < advance_fuel g)%nat).
  { intros g. unfold work, advance_fuel, open_requests. apply Nat.lt_succ_r, map_subseteq_size, map_filter_subseteq. }
  destruct (advance_loop_ok _ a h Hi (Hfuel h) Hna) as (ha & Ha & Hia & Hn & _).
  destruct (loop_split _ (advance_fuel ha) a b h ha Hi (Hfuel h) Hab Ha Hia (Hfuel ha)) as (hb & Hb & hb' & Hb' & E).
  assert (Hadv : forall g g' t, now_ns g <= t -> 0 <= t -> advance_loop (advance_fuel g) t g = (Ok tt, g') ->
            advance (VInt t) g = (Ok tt, set_now t g')).
  { intros g g' t Hle Hpos Hg. unfold advance.
    erewrite sbind_step by (apply lift_Ok; unfold _integer; by rewrite (proj2 (Z.leb_le 0 t)) by lia).
    erewrite sbind_step by reflexivity. erewrite sbind_step by (apply require_Ok; by apply Z.leb_le).
    by erewrite sbind_step by exact Hg. }
  erewrite sbind_step by (by apply Hadv; [|lia|]). rewrite (Hadv _ hb') by (try done; simpl; lia).
  rewrite (Hadv h hb) by (try done; lia). by rewrite E.
Qed.

(** *** Concrete runs *)

Definition empty_hbm : hbm :=
  {| stacks := []; now_ns := 0; requests := ∅; facts := []; completions := []; next_event_id := 0 |}.

Definition demo_start : hbm := match init (scenario_example ["hbm0"]) with Ok h => h | Raise _ => empty_hbm end.

Definition demo_request (id : string) (b t : Z) : pyval :=
  VDict [("request_id", VStr id); ("stack_id", VStr "hbm0"); ("op", VStr "read"); ("bytes", VInt b); ("arrival_ns", VInt t)].

Definition demo_a : hbm := snd (arrival (demo_request "a" 4096 0) demo_start).
Definition demo_b : hbm := snd (arrival (demo_request "b" 4096 0) demo_a).
Definition demo_sa : hbm := snd (submit "a" VNone demo_b).
(** Two reads submitted at times 0 and 7: [a] is served, [b] waits. *)
Definition demo_queued : hbm := snd (submit "b" (VInt 7) demo_sa).

Lemma surjective_run {S A} (m : M S A) s : m s = (fst (m s), snd (m s)).
Proof. by destruct (m s). Qed.

Lemma demo_queued_reachable_hbm : reachable demo_queued.
Proof.
  assert (H0 : reachable demo_start) by (apply (reach_init (scenario_example ["hbm0"])); vm_compute; reflexivity).
  assert (H1 : reachable demo_a) by (eapply reach_call; [exact H0|]; apply (call_arrival _ (demo_request "a" 4096 0) _ _ (surjective_run _ _))).
  assert (H2 : reachable demo_b) by (eapply reach_call; [exact H1|]; apply (call_arrival _ (demo_request "b" 4096 0) _ _ (surjective_run _ _))).
  assert (H3 : reachable demo_sa) by (eapply reach_call; [exact H2|]; apply (call_submit _ "a" VNone _ _ (surjective_run _ _))).
  eapply reach_call; [exact H3|]. apply (call_submit _ "b" (VInt 7) _ _ (surjective_run _ _)).
Qed.

(** [serviceable_all] of a concrete state, by evaluation. *)
Definition serviceable_allb (h : hbm) : bool :=
  forallb (fun '(_, r) => match dget (stacks h) (stack_id r) with Some st => serviceable st (op r) (bytes r) | None => true end)
    (map_to_list (requests h)).

Lemma serviceable_allb_true h : serviceable_allb h = true -> serviceable_all h.
Proof.
  intros H id r st Hr Hst. unfold serviceable_allb in H. rewrite forallb_forall in H.
  specialize (H (id, r)). cbn in H. rewrite Hst in H. apply H. by apply list_elem_of_In, elem_of_map_to_list.
Qed.

Lemma hbm_fifo_schedule_witness : exists st, dget (stacks demo_queued) "hbm0" = Some st /\ queue st = ["b"] /\
  exists started last, schedule (requests demo_queued) st 0 started last.
Proof.
  eexists. split; [vm_compute; reflexivity|]. split; [reflexivity|].
  edestruct (hbm_fifo_schedule demo_queued "hbm0") as (started & last & _ & _ & _ & H & _);
    [exact demo_queued_reachable_hbm|apply serviceable_allb_true; vm_compute; reflexivity|vm_compute; reflexivity|]. exists started, last. exact H.
Defined.

Lemma hbm_advance_total_witness : exists h', advance (VInt 204) demo_queued = (Ok tt, h') /\ now_ns h' = 204.
Proof.
  destruct (hbm_advance_total demo_queued 204 demo_queued_reachable_hbm) as (h' & H & _ & Hn & _).
  - apply serviceable_allb_true. vm_compute. reflexivity.
  - vm_compute. discriminate.
  - exists h'. split; [exact H|exact Hn].
Defined.

Lemma hbm_advance_split_witness :
  (let! _ := advance (VInt 150) in advance (VInt 204)) demo_queued = advance (VInt 204) demo_queued.
Proof.
  apply (hbm_advance_split demo_queued 150 204 demo_queued_reachable_hbm).
  - apply serviceable_allb_true. vm_compute. reflexivity.
  - vm_compute. discriminate.
  - vm_compute. discriminate.
Defined.

(** A stack whose read bandwidth is the least positive float. *)
Definition slow_config : pyval :=
  VDict [("schema_version", VStr SCHEMA); ("evidence_class", VStr EVIDENCE);
    ("stacks", VList [VDict [("stack_id", VStr "hbm0");
       ("media_latency_ns", VDict [("read", VInt 100); ("write", VInt 100)]);
       ("media_latency_evidence", VStr "SCENARIO_ASSUMPTION");
       ("media_bandwidth_Bps", VDict [("read", VFloat least_positive); ("write", VInt 1)]);
       ("media_bandwidth_evidence", VStr "SCENARIO_ASSUMPTION")]])].

(** [_start] drops a queued request whose transfer time it cannot compute. *)
Lemma start_unserviceable g s st id r e : dget (stacks g) s = Some st -> active st = None -> queue st = [id] ->
  requests g !! id = Some r -> stack_id r = s -> transfer_ns st (op r) (bytes r) = Raise e ->
  _start s g = (Raise e, set_stacks (dset (stacks g) s (with_queue [] None st)) g).
Proof.
  intros Hs Ha Hq Hr Hsr He. unfold _start. erewrite sbind_step by reflexivity. erewrite sbind_step by (apply lift_Ok, dindex_Ok; exact Hs).
  rewrite Ha, Hq. erewrite sbind_step by reflexivity. erewrite sbind_step by (apply lift_Ok; unfold find_request; by rewrite Hr).
  unfold _duration_ns, dindex, duration_on. rewrite Hsr, Hs. cbn. rewrite He. reflexivity.
Qed.

(** C32: submitting a request whose transfer time is not a finite float loses it.
    Whenever the request arrived, the clock can advance to the submission time
    and the request's stack is idle there, [submit] raises the error of the float
    computation, and after any further calls the request is [QUEUED] but no
    stack queues or serves it. *)
Theorem hbm_tiny_bandwidth_loses_request h h1 id r t st e :
  reachable h -> requests h !! id = Some r -> state r = ARRIVED -> arrival_ns r <= t ->
  advance (VInt t) h = (Ok tt, h1) -> dget (stacks h1) (stack_id r) = Some st -> queue st = [] -> active st = None ->
  transfer_ns st (op r) (bytes r) = Raise e ->
  exists h2, submit id (VInt t) h = (Raise e, h2) /\ forall h3, rtc call h2 h3 -> lost id h3.
Proof.
  intros Hrch Hr Ha Hat Hadv Hst Hq Hac He. pose proof (hbm_reachable_tidy _ Hrch) as Hk.
  destruct (advance_steady _ _ _ _ Hk Hadv) as [Hk1 Hs1]. apply kp_tidy in Hk1.
  assert (Hr1 : requests h1 !! id = Some r) by (rewrite Hs1; [done|]; intros r0; congruence). pose proof (td_key _ Hk1 _ _ Hr1) as Hid.
  assert (Ht : _integer (VInt t) "submit time" false = Ok t).
  { unfold advance in Hadv. unfold _integer in *. by destruct (0 <=? t). }
  destruct (submit id (VInt t) h) as [res h2] eqn:E. pose proof (submit_kept _ _ _ _ _ Hk E) as K2. apply kp_tidy in K2.
  unfold submit in E. erewrite sbind_step in E by reflexivity. erewrite sbind_step in E by (apply lift_Ok; by rewrite Hr).
  erewrite sbind_step in E by (apply require_Ok; by apply bool_decide_eq_true). erewrite sbind_step in E by (apply lift_Ok; exact Ht).
  erewrite sbind_step in E by exact Hadv. erewrite sbind_step in E by (apply require_Ok; by apply Z.leb_le).
  do 2 erewrite sbind_step in E by reflexivity. erewrite sbind_step in E by (apply lift_Ok, dindex_Ok; exact Hst).
  do 2 erewrite sbind_step in E by reflexivity.
  match type of E with sbind (_start _) _ ?g = _ => set (g0 := g) in E end.
  assert (Hs0 : dget (stacks g0) (stack_id r) = Some (with_queue (queue st ++ [id]) (active st) st)) by apply dget_dset_eq.
  assert (Hr0 : requests g0 !! id = Some (queued_at t r)) by (cbn; rewrite Hid; apply lookup_insert_eq).
  erewrite sbind_raise in E by (eapply start_unserviceable; [exact Hs0|exact Hac|cbn; by rewrite Hq|exact Hr0|done|exact He]).
  injection E as <- <-. eexists. split; [reflexivity|]. intros h3 H3. apply (kp_lost _ _ (calls_kept _ _ K2 H3)). split; [by exists (queued_at t r)|].
  intros s0 st0. cbn. rewrite dset_dset, dget_dset. case_decide as Es; [intros [= <-] [Hx|Hx]; [by apply not_elem_of_nil in Hx|done]|].
  intros Hs3 Hx. destruct (td_held _ Hk1 _ _ _ Hs3 Hx) as (r0 & ? & ?). congruence.
Qed.

Definition slow_start : hbm := match init slow_config with Ok h => h | Raise _ => empty_hbm end.
Definition slow_arrived : hbm := snd (arrival (demo_request "a" 4096 0) slow_start).

(** The constructor accepts [slow_config], and its first read is lost. *)
Lemma hbm_tiny_bandwidth_loses_request_witness : exists e h2, submit "a" (VInt 3) slow_arrived = (Raise (OverflowError e), h2) /\ lost "a" h2.
Proof.
  assert (H1 : reachable slow_arrived).
  { eapply (reach_call slow_start); [apply (reach_init slow_config); vm_compute; reflexivity|].
    apply (call_arrival _ (demo_request "a" 4096 0) _ _ (surjective_run _ _)). }
  destruct (requests slow_arrived !! "a") as [r|] eqn:Er; [|vm_compute in Er; discriminate Er].
  assert (r = arrived_request "a" "hbm0" Read 4096 0) as -> by (vm_compute in Er; injection Er as <-; reflexivity).
  edestruct (hbm_tiny_bandwidth_loses_request slow_arrived (snd (advance (VInt 3) slow_arrived)) "a" (arrived_request "a" "hbm0" Read 4096 0) 3) as (h2 & H2 & Hl);
    [exact H1|exact Er|reflexivity|vm_compute; discriminate|vm_compute; reflexivity|vm_compute; reflexivity|
     reflexivity|reflexivity|vm_compute; reflexivity|].
  eexists _, h2. split; [exact H2|]. apply Hl, rtc_refl.
Defined.

End BasicHbm.
