(* ===== verification/ReadRatePolicy.v ===== *)
(** * The read-rate admission policy

    Model of [src/experiments/eq3_maintenance/read_rate_policy.py]: validated
    profiles and window facts, the policy that turns the facts of a completed
    window into byte budgets for the next one, and the token ledger that
    consumes those budgets.  Strategy and guard names are the source's strings;
    fractions are Python floats. *)

From S2P Require Import Prelude PyFloat.

Module ReadRatePolicy.

Definition STRATEGIES : list string :=
  ["guard_only"; "thermal_hysteresis_guard"; "read_rate_feedback_thermal_guard_v1"].
Definition GUARDS : list string := ["normal"; "light"; "severe"; "shutdown"].

(** ** Data *)

Record EngineeringProfile := {
  profile_id : string; enabled : bool; strategy : string; window_ns : Z; target_bytes_per_s : Z;
  target_latency_p95_ns : option Z; tolerance_fraction : spec_float; step_bytes : Z;
  minimum_budget_bytes : Z; maximum_budget_bytes : Z; severe_budget_bytes : Z;
  smoothing_excess_fraction : spec_float; light_fraction : spec_float; source_class : string }.

(** [__post_init__] of the profile. *)
Definition check_profile (p : EngineeringProfile) : result unit :=
  let? _ := ensure (bool_decide (strategy p ∈ STRATEGIES)) (ValueError "unsupported read-rate strategy") in
  let? _ := ensure (negb ((window_ns p <=? 0) || (target_bytes_per_s p <? 0) || (step_bytes p <? 0)))
              (ValueError "time, target, and step must be nonnegative") in
  let? _ := ensure (negb (negb (fleb float_zero (tolerance_fraction p) && flt (tolerance_fraction p) float_one)
                          || flt (smoothing_excess_fraction p) float_zero
                          || negb (fleb float_zero (light_fraction p) && fleb (light_fraction p) float_one)))
              (ValueError "invalid tolerance") in
  let? _ := ensure ((0 <=? minimum_budget_bytes p) && (minimum_budget_bytes p <=? maximum_budget_bytes p))
              (ValueError "invalid budget bounds") in
  let? _ := ensure ((0 <=? severe_budget_bytes p) && (severe_budget_bytes p <=? maximum_budget_bytes p))
              (ValueError "invalid severe budget") in
  let? _ := ensure (negb (enabled p && (target_bytes_per_s p <=? 0)))
              (ValueError "enabled policy requires an explicit positive target") in
  ensure (match target_latency_p95_ns p with Some t => negb (t <=? 0) | None => true end)
    (ValueError "target_latency_p95_ns must be positive when configured").

Record StackWindowFacts := {
  stack_id : string; offered_bytes : Z; delivered_bytes : Z; backlog_bytes : Z; oldest_wait_ns : Z;
  latency_p95_ns : option Z; censored_requests : Z; gate_limited : bool;
  backend_busy_fraction : option spec_float; resource_busy : option bool; maintenance_due_bytes : Z;
  maintenance_earliest_deadline_ns : option Z; retry_count : option Z; uecc_count : option Z }.

Definition check_stack_facts (f : StackWindowFacts) : result unit :=
  let? _ := ensure (negb (String.eqb (stack_id f) "")) (ValueError "stack_id is required") in
  let? _ := ensure (negb (existsb (fun v => v <? 0)
                [offered_bytes f; delivered_bytes f; backlog_bytes f; oldest_wait_ns f; censored_requests f;
                 maintenance_due_bytes f])) (ValueError "window counters must be nonnegative") in
  ensure (match backend_busy_fraction f with
          | Some b => fleb float_zero b && fleb b float_one
          | None => true
          end) (ValueError "backend_busy_fraction must be in [0,1]").

Record WindowFacts := {
  start_ns : Z; end_ns : Z; guard_state : string; stacks : list StackWindowFacts;
  current_budget_bytes : dict string Z; hysteresis_budget_bytes : dict string Z;
  shared_endpoint_caps_bytes : dict string Z; route_endpoints : dict string (list string);
  guard_states : dict string string; endpoint_guard_states : dict string string }.

Definition subset (xs ys : list string) : bool := bool_decide (Forall (fun x => x ∈ ys) xs).
Definition all_guards (xs : list string) : bool := bool_decide (Forall (fun x => x ∈ GUARDS) xs).

Definition check_facts (f : WindowFacts) : result unit :=
  let? _ := ensure (negb ((start_ns f <? 0) || (end_ns f <=? start_ns f)))
              (ValueError "window must be a positive half-open interval") in
  let? _ := ensure (bool_decide (guard_state f ∈ GUARDS)) (ValueError "unknown thermal guard state") in
  let ids := stack_id <$> stacks f in
  let? _ := ensure (bool_decide (NoDup ids) && same_set ids (dkeys (current_budget_bytes f)))
              (ValueError "stack/current-budget coverage mismatch") in
  let? _ := ensure (negb (existsb (fun v => v <? 0) (dvals (current_budget_bytes f))))
              (ValueError "budgets must be nonnegative") in
  let? _ := ensure (subset (dkeys (route_endpoints f)) ids) (ValueError "route_endpoints contains unknown stack") in
  let? _ := ensure (subset (dkeys (guard_states f)) ids && all_guards (dvals (guard_states f)))
              (ValueError "guard_states contains unknown stack or state") in
  ensure (subset (dkeys (endpoint_guard_states f)) (dkeys (shared_endpoint_caps_bytes f))
          && all_guards (dvals (endpoint_guard_states f)))
    (ValueError "endpoint_guard_states contains unknown endpoint or state").

Inductive action := HOLD | STOP | DECREASE | INCREASE.

#[export] Instance action_eq_dec : EqDecision action.
Proof. solve_decision. Defined.

(** [action.lower()]. *)
Definition action_lower (a : action) : string :=
  match a with HOLD => "hold" | STOP => "stop" | DECREASE => "decrease" | INCREASE => "increase" end.

Record StackDecision := {
  d_stack_id : string; budget_bytes : Z; d_action : action; outcome : string; reasons : list string }.

Record Decision := {
  d_enabled : bool; d_strategy : string; applies_to_window_start_ns : Z;
  stack_decisions : list StackDecision; shared_endpoint_budget_bytes : dict string Z }.

(** The policy object: its profile, and per stack the previous facts, budget
    and kind of decision. *)
Record policy := { profile : EngineeringProfile; previous : dict string (StackWindowFacts * Z * string) }.

Definition init (p : EngineeringProfile) : policy := {| profile := p; previous := [] |}.

(** ** Decisions *)

Definition _bounded (p : EngineeringProfile) (value : Z) : Z :=
  Z.min (maximum_budget_bytes p) (Z.max (minimum_budget_bytes p) value).

Definition _protected_budget (p : EngineeringProfile) (s : string) (facts : WindowFacts) : result (Z * option string) :=
  let guard_ := dget_or (guard_states facts) s (guard_state facts) in
  if String.eqb guard_ "shutdown" then Ok (0, Some "THERMAL_SHUTDOWN") else
  if String.eqb guard_ "severe" then Ok (severe_budget_bytes p, Some "THERMAL_SEVERE") else
  if String.eqb (strategy p) "guard_only" then Ok (maximum_budget_bytes p, None) else
  if String.eqb (strategy p) "thermal_hysteresis_guard" then
    Ok (dget_or (hysteresis_budget_bytes facts) s (maximum_budget_bytes p), None)
  else
    let? current := dindex (current_budget_bytes facts) s in
    match String.eqb guard_ "light" && negb (String.eqb (strategy p) "guard_only"),
          dget (hysteresis_budget_bytes facts) s with
    | true, Some h => Ok (Z.min current h, Some "THERMAL_LIGHT_CAP")
    | _, _ =>
        if String.eqb guard_ "normal" && (current =? 0) then Ok (minimum_budget_bytes p, None)
        else Ok (current, None)
    end.

(** [INCREASE], [DECREASE] or [HOLD] by comparison with the current budget. *)
Definition compare_action (budget original : Z) : action :=
  if original <? budget then INCREASE else if budget <? original then DECREASE else HOLD.

Definition or_zero (o : option Z) : Z := match o with Some z => z | None => 0 end.

(** Whether the last increase brought no delivery. *)
Definition rolls_back (prev : option (StackWindowFacts * Z * string)) (current : Z) (o : StackWindowFacts) : bool :=
  match prev with
  | Some (prior, prior_budget, kind) =>
      String.eqb kind "increase"
      && (prior_budget <? current) && (delivered_bytes o <=? delivered_bytes prior)
      && ((backlog_bytes prior <? backlog_bytes o)
          || match latency_p95_ns o, latency_p95_ns prior with
             | Some l, Some l' => l' <? l
             | _, _ => false
             end)
  | None => false
  end.

Definition backend_idle (o : StackWindowFacts) : bool :=
  match backend_busy_fraction o, resource_busy o with
  | Some b, Some false => flt b float_one
  | _, _ => false
  end.

(** The read-rate feedback of one stack: budget, action, outcome, reasons. *)
Definition feedback (p : EngineeringProfile) (target : spec_float) (prev : option (StackWindowFacts * Z * string))
    (current : Z) (o : StackWindowFacts) : Z * action * string * list string :=
  let demand_bytes := Z.max (offered_bytes o) (delivered_bytes o + backlog_bytes o) in
  let enough_demand := int_ge_float demand_bytes target in
  let latency_met := match target_latency_p95_ns p with
                     | None => true
                     | Some t => match latency_p95_ns o with Some l => l <=? t | None => false end
                     end in
  let met_rate := int_ge_float (delivered_bytes o) (fmul target (fsub float_one (tolerance_fraction p))) && latency_met in
  let reliability_bad := 0 <? or_zero (uecc_count o) in
  if negb enough_demand then (current, HOLD, "INSUFFICIENT_DEMAND", ["DEMAND_BELOW_TARGET"]) else
  if reliability_bad then (current, HOLD, "UNMET_TARGET", ["OBSERVED_UECC"]) else
  if met_rate then
    let excess := int_gt_float (delivered_bytes o) (fmul target (fadd float_one (smoothing_excess_fraction p))) in
    if excess && (minimum_budget_bytes p <? current) then
      (_bounded p (current - step_bytes p), DECREASE, "STABLE", ["OVERDELIVERY_SMOOTHING"])
    else (current, HOLD, "STABLE", ["TARGET_MET_HOLD"])
  else
    let facts_unknown := match backend_busy_fraction o, resource_busy o with Some _, Some _ => false | _, _ => true end in
    let '(budget, act, why) :=
      if rolls_back prev current o then (_bounded p (current - step_bytes p), DECREASE, "ROLLBACK_NO_DELIVERY_GAIN")
      else if gate_limited o && (0 <? backlog_bytes o) && backend_idle o then
        (_bounded p (current + step_bytes p), INCREASE, "GATE_LIMITED_BACKEND_IDLE")
      else if facts_unknown then (current, HOLD, "BOTTLENECK_UNKNOWN_HOLD")
      else if match backend_busy_fraction o with Some b => feq b float_one | None => false end
              || match resource_busy o with Some b => b | None => false end
      then (current, HOLD, "BACKEND_OR_RESOURCE_BUSY_HOLD")
      else (current, HOLD, "NO_EVIDENCE_TO_INCREASE_HOLD") in
    (budget, act, "UNMET_TARGET", why :: (if maintenance_due_bytes o =? 0 then [] else ["MAINTENANCE_DUE_VISIBLE"])).

Definition remember (s : string) (o : StackWindowFacts) (current : Z) (kind : string) : M policy unit :=
  modify (fun st => {| profile := profile st; previous := dset (previous st) s (o, current, kind) |}).

(** One iteration of the loop over the stacks. *)
Definition evaluate_stack (facts : WindowFacts) (target : spec_float) (o : StackWindowFacts) : M policy StackDecision :=
  let! st := get in
  let p := profile st in
  let s := stack_id o in
  let! original := lift (dindex (current_budget_bytes facts) s) in
  if negb (enabled p) then
    sret {| d_stack_id := s; budget_bytes := original; d_action := HOLD; outcome := "DISABLED";
            reasons := ["DEFAULT_OFF"] |}
  else
  let! (current, thermal) := lift (_protected_budget p s facts) in
  match thermal with
  | Some why =>
      let act := if current =? 0 then STOP else if current <? original then DECREASE
                 else if original <? current then INCREASE else HOLD in
      let! _ := remember s o current "guard" in
      sret {| d_stack_id := s; budget_bytes := current; d_action := act; outcome := "THERMAL_GUARD"; reasons := [why] |}
  | None =>
      if String.eqb (strategy p) "guard_only" then
        let budget := _bounded p current in
        sret {| d_stack_id := s; budget_bytes := budget; d_action := compare_action budget original;
                outcome := "GUARD_ONLY"; reasons := ["NO_ORDINARY_RATE_FEEDBACK"] |}
      else if String.eqb (strategy p) "thermal_hysteresis_guard" then
        let budget := _bounded p current in
        sret {| d_stack_id := s; budget_bytes := budget; d_action := compare_action budget original;
                outcome := "THERMAL_HYSTERESIS"; reasons := ["EXISTING_HYSTERESIS_CAP"] |}
      else
        let '(budget, act, out, why) := feedback p target (dget (previous st) s) current o in
        let! _ := remember s o current (action_lower act) in
        sret {| d_stack_id := s; budget_bytes := budget; d_action := act; outcome := out; reasons := why |}
  end.

(** The cap of a shared endpoint under its thermal guard. *)
Definition endpoint_budget (p : EngineeringProfile) (facts : WindowFacts) (item : string * Z) : result (string * Z) :=
  let '(key, value) := item in
  let guard_ := dget_or (endpoint_guard_states facts) key (guard_state facts) in
  if String.eqb guard_ "shutdown" then Ok (key, 0)
  else if String.eqb guard_ "severe" then Ok (key, Z.min value (severe_budget_bytes p))
  else if String.eqb guard_ "light" && negb (String.eqb (strategy p) "guard_only") then
    let? x := float_of_int value in
    let? z := float_trunc (fmul x (light_fraction p)) in
    Ok (key, z)
  else Ok (key, value).

Definition evaluate (facts : WindowFacts) : M policy Decision :=
  let! st := get in
  let p := profile st in
  let! _ := require (end_ns facts - start_ns facts =? window_ns p)
              (ValueError "facts window differs from engineering profile") in
  let! target := lift (int_truediv (target_bytes_per_s p * window_ns p) 1000000000) in
  let! decisions := mapS (evaluate_stack facts target) (stacks facts) in
  let! endpoint := lift (if enabled p then mapR (endpoint_budget p facts) (shared_endpoint_caps_bytes facts)
                         else Ok (shared_endpoint_caps_bytes facts)) in
  sret {| d_enabled := enabled p; d_strategy := strategy p; applies_to_window_start_ns := end_ns facts;
          stack_decisions := decisions; shared_endpoint_budget_bytes := endpoint |}.

(** ** The token ledger *)

Record ledger := { l_enabled : bool; l_stack : dict string Z; l_endpoint : dict string Z }.

Definition ledger_init (d : Decision) : ledger :=
  {| l_enabled := d_enabled d;
     l_stack := foldl (fun m row => dset m (d_stack_id row) (budget_bytes row)) [] (stack_decisions d);
     l_endpoint := shared_endpoint_budget_bytes d |}.

(** [set(route_endpoints)], as a list without duplicates. *)
Definition names_of (route : list string) : list string := remove_dups route.

Definition can_consume (s : string) (route : list string) (byte_count : Z) (l : ledger) : result bool :=
  let? _ := ensure (0 <=? byte_count) (ValueError "byte_count must be nonnegative") in
  if negb (l_enabled l) then Ok true else
  let names := names_of route in
  let? _ := ensure (dmem (l_stack l) s && forallb (dmem (l_endpoint l)) names)
              (ValueError "unknown stack or route endpoint") in
  Ok ((byte_count <=? dget_or (l_stack l) s 0)
      && forallb (fun name => byte_count <=? dget_or (l_endpoint l) name 0) names).

Definition try_consume (s : string) (route : list string) (byte_count : Z) : M ledger bool :=
  let! l := get in
  let! ok := lift (can_consume s route byte_count l) in
  if negb ok then sret false else
  if negb (l_enabled l) then sret true else
  let charge d name := dset d name (dget_or d name 0 - byte_count) in
  let! _ := put {| l_enabled := l_enabled l; l_stack := charge (l_stack l) s;
                   l_endpoint := foldl charge (l_endpoint l) (names_of route) |} in
  sret true.

(** ** What a decision promises *)

Definition guard_of (facts : WindowFacts) (s : string) : string := dget_or (guard_states facts) s (guard_state facts).

(** The budget the feedback rule starts from: the current one, or the minimum
    when a stopped stack resumes under a normal guard. *)
Definition start_budget (p : EngineeringProfile) (facts : WindowFacts) (s : string) : Z :=
  let current := dget_or (current_budget_bytes facts) s 0 in
  if String.eqb (guard_of facts s) "normal" && (current =? 0) then minimum_budget_bytes p else current.

(** The gate, not the backend, limits the delivery of a stack. *)
Definition evidence (o : StackWindowFacts) : Prop :=
  gate_limited o = true /\ 0 < backlog_bytes o /\ backend_idle o = true.

(** The contract of one stack decision of an enabled policy. *)
Record decision_ok (p : EngineeringProfile) (facts : WindowFacts) (o : StackWindowFacts) (row : StackDecision) : Prop := {
  do_id : d_stack_id row = stack_id o;
  (** Only a negative hysteresis budget, which nothing rejects, gives a negative budget. *)
  do_range : Z.min 0 (dget_or (hysteresis_budget_bytes facts) (stack_id o) 0) <= budget_bytes row
    <= Z.max (maximum_budget_bytes p) (dget_or (current_budget_bytes facts) (stack_id o) 0);
  do_shutdown : guard_of facts (stack_id o) = "shutdown" -> budget_bytes row = 0 /\ d_action row = STOP;
  do_severe : guard_of facts (stack_id o) = "severe" -> budget_bytes row = severe_budget_bytes p;
  do_light : strategy p = "read_rate_feedback_thermal_guard_v1" -> guard_of facts (stack_id o) = "light" ->
    forall h, dget (hysteresis_budget_bytes facts) (stack_id o) = Some h ->
    budget_bytes row = Z.min (dget_or (current_budget_bytes facts) (stack_id o) 0) h;
  do_static : strategy p <> "read_rate_feedback_thermal_guard_v1" -> outcome row <> "THERMAL_GUARD" ->
    minimum_budget_bytes p <= budget_bytes row <= maximum_budget_bytes p;
  (** Feedback keeps the budget it starts from or moves it by one step into the bounds. *)
  do_feedback : strategy p = "read_rate_feedback_thermal_guard_v1" -> outcome row <> "THERMAL_GUARD" ->
    let start := start_budget p facts (stack_id o) in
    (d_action row = HOLD /\ budget_bytes row = start)
    \/ (d_action row = DECREASE /\ budget_bytes row = _bounded p (start - step_bytes p))
    \/ (d_action row = INCREASE /\ budget_bytes row = _bounded p (start + step_bytes p) /\ evidence o);
  (** Whatever the action is called, a budget above both its start and the minimum
      needs evidence, and is at most one step above its start. *)
  do_evidence : strategy p = "read_rate_feedback_thermal_guard_v1" -> outcome row <> "THERMAL_GUARD" ->
    let start := start_budget p facts (stack_id o) in
    Z.max (minimum_budget_bytes p) start < budget_bytes row -> evidence o /\ budget_bytes row <= start + step_bytes p }.

Record profile_ok (p : EngineeringProfile) : Prop := {
  po_strategy : strategy p ∈ STRATEGIES; po_step : 0 <= step_bytes p;
  po_budget : 0 <= minimum_budget_bytes p <= maximum_budget_bytes p;
  po_severe : 0 <= severe_budget_bytes p <= maximum_budget_bytes p }.

Lemma check_profile_ok p u : check_profile p = Ok u -> profile_ok p.
Proof.
  unfold check_profile. intros H. inv_ok.
  repeat match goal with H : negb _ = true |- _ => apply negb_true_iff in H
         | H : orb _ _ = false |- _ => apply orb_false_elim in H as [? H] end.
  constructor; try done; lia.
Qed.

Record facts_ok (facts : WindowFacts) : Prop := {
  fk_ids : NoDup (stack_id <$> stacks facts);
  fk_cover : forall o, o ∈ stacks facts -> exists z, dget (current_budget_bytes facts) (stack_id o) = Some z /\ 0 <= z }.

Lemma existsb_neg_false l : existsb (fun v => v <? 0) l = false -> forall v, v ∈ l -> 0 <= v.
Proof.
  intros H v Hv. destruct (Z_lt_le_dec v 0) as [Hlt|]; [|done].
  assert (E : existsb (fun v => v <? 0) l = true); [|congruence].
  apply existsb_exists. exists v. split; [by apply list_elem_of_In|]. by apply Z.ltb_lt.
Qed.

Lemma check_facts_ok facts u : check_facts facts = Ok u -> facts_ok facts.
Proof.
  unfold check_facts. intros H. inv_ok. match goal with H : same_set _ _ = true |- _ => unfold same_set in H end. inv_ok.
  constructor; [done|]. intros o Ho.
  match goal with H : Forall (fun x => x ∈ dkeys _) _ |- _ => rewrite Forall_forall in H; rename H into Hc end.
  destruct (proj2 (dget_is_Some (current_budget_bytes facts) (stack_id o))) as [z Hz].
  { apply Hc. by apply list_elem_of_fmap_2. }
  exists z. split; [done|]. match goal with H : negb (existsb _ (dvals _)) = true |- _ => apply negb_true_iff in H; rename H into Hn end.
  eapply existsb_neg_false; [exact Hn|]. apply list_elem_of_fmap. exists (stack_id o, z). split; [done|].
  by apply dget_Some_elem.
Qed.

Lemma bounded_range p z : profile_ok p -> minimum_budget_bytes p <= _bounded p z <= maximum_budget_bytes p.
Proof. intros [_ _ H _]. unfold _bounded. lia. Qed.

(** The branches of the feedback rule. *)
Lemma feedback_spec p target prev current o b a out why : feedback p target prev current o = (b, a, out, why) ->
  out <> "THERMAL_GUARD" /\
  ((a = HOLD /\ b = current) \/ (a = DECREASE /\ b = _bounded p (current - step_bytes p))
   \/ (a = INCREASE /\ b = _bounded p (current + step_bytes p) /\ evidence o)).
Proof.
  intros H. unfold feedback in H.
  destruct (negb (int_ge_float _ _)); [simplify_eq; auto|].
  destruct (0 <? or_zero _); [simplify_eq; auto|].
  destruct (_ && _); [destruct (_ && _); simplify_eq; auto|].
  destruct (rolls_back prev current o); [simplify_eq; auto|].
  destruct (gate_limited o && (0 <? backlog_bytes o) && backend_idle o) eqn:E.
  { simplify_eq. split; [done|]. right. right. apply andb_prop in E as [[H3 H4]%andb_prop H5]. apply Z.ltb_lt in H4. by split_and!. }
  destruct (match backend_busy_fraction o with Some _ => _ | None => _ end); [simplify_eq; auto|].
  destruct (_ || _); simplify_eq; auto.
Qed.

Lemma strategy_cases p : profile_ok p -> strategy p = "guard_only" \/ strategy p = "thermal_hysteresis_guard"
  \/ strategy p = "read_rate_feedback_thermal_guard_v1".
Proof. intros [H _ _ _]. unfold STRATEGIES in H. set_solver. Qed.

Section evaluate.
Context (p : EngineeringProfile) (facts : WindowFacts) (target : spec_float).
Context (Hp : profile_ok p) (Hen : enabled p = true) (Hf : facts_ok facts).

(** What the thermal guard leaves of the budget. *)
Lemma protected_spec s z : dget (current_budget_bytes facts) s = Some z -> 0 <= z ->
  exists current why, _protected_budget p s facts = Ok (current, why) /\
    match why with
    | Some _ => Z.min 0 (dget_or (hysteresis_budget_bytes facts) s 0) <= current <= Z.max (maximum_budget_bytes p) z
        /\ (guard_of facts s = "shutdown" -> current = 0)
        /\ (guard_of facts s = "severe" -> current = severe_budget_bytes p)
        /\ (guard_of facts s = "light" -> forall h, dget (hysteresis_budget_bytes facts) s = Some h -> current = Z.min z h)
    | None => guard_of facts s <> "shutdown" /\ guard_of facts s <> "severe" /\
        (strategy p = "read_rate_feedback_thermal_guard_v1" ->
           (guard_of facts s = "light" -> dget (hysteresis_budget_bytes facts) s = None) /\ current = start_budget p facts s)
    end.
Proof using Hp Hf.
  intros Hz Hpos. destruct Hp as [_ _ Hb Hs]. unfold _protected_budget. fold (guard_of facts s).
  destruct (String.eqb_spec (guard_of facts s) "shutdown") as [E|E]; [rewrite E; eexists _, _; split; [done|]; simpl; split_and!; try done; lia|].
  destruct (String.eqb_spec (guard_of facts s) "severe") as [E'|E']; [rewrite E'; eexists _, _; split; [done|]; simpl; split_and!; try done; lia|].
  destruct (String.eqb_spec (strategy p) "guard_only") as [E1|E1]; [eexists _, _; split; [done|]; simpl; by rewrite E1|].
  destruct (String.eqb_spec (strategy p) "thermal_hysteresis_guard") as [E2|E2]; [eexists _, _; split; [done|]; simpl; by rewrite E2|].
  rewrite (proj2 (dindex_Ok _ _ _) Hz). cbn [rbind]. rewrite andb_true_r.
  assert (Hrest : exists current why, (if String.eqb (guard_of facts s) "normal" && (z =? 0)
            then Ok (minimum_budget_bytes p, None) else Ok (z, None)) = Ok (current, why) /\
            why = @None string /\ current = start_budget p facts s)
    by (unfold start_budget, dget_or; rewrite Hz; destruct (_ && _); eauto 6).
  destruct (String.eqb_spec (guard_of facts s) "light") as [El|El].
  - destruct (dget (hysteresis_budget_bytes facts) s) as [h|] eqn:Eh.
    + eexists _, _. split; [done|]. rewrite El. unfold dget_or. rewrite Eh. split_and!; try done; try lia. intros _ h' [= <-]. done.
    + destruct Hrest as (c & w & -> & -> & Hc). by eexists _, _.
  - destruct Hrest as (c & w & -> & -> & Hc). by eexists _, _.
Qed.

Lemma start_range s : 0 <= dget_or (current_budget_bytes facts) s 0 ->
  0 <= start_budget p facts s <= Z.max (minimum_budget_bytes p) (dget_or (current_budget_bytes facts) s 0).
Proof using Hp. intros H. destruct Hp as [_ _ Hb _]. unfold start_budget. destruct (_ && _); lia. Qed.

Lemma evaluate_stack_spec o st : o ∈ stacks facts -> profile st = p ->
  exists row st', evaluate_stack facts target o st = (Ok row, st') /\ profile st' = p /\ decision_ok p facts o row.
Proof using Hp Hen Hf.
  intros Ho Hprof. destruct (fk_cover _ Hf o Ho) as (z & Hz & Hpos).
  destruct (protected_spec _ _ Hz Hpos) as (current & why & Hpb & Hspec).
  assert (Hzo : dget_or (current_budget_bytes facts) (stack_id o) 0 = z) by (unfold dget_or; by rewrite Hz).
  unfold evaluate_stack. erewrite sbind_step by reflexivity. rewrite Hprof.
  erewrite sbind_step by (apply lift_Ok, dindex_Ok; exact Hz). rewrite Hen. cbn [negb].
  erewrite sbind_step by (apply lift_Ok; exact Hpb). cbv beta iota.
  pose proof (bounded_range p current Hp) as Hbr. destruct why as [w|].
  - destruct Hspec as (Hr & Hsd & Hsv & Hlt). erewrite sbind_step by reflexivity. eexists _, _. split; [reflexivity|].
    split; [done|]. constructor; simpl; rewrite ?Hzo; try done. intros E. rewrite (Hsd E). done.
  - destruct Hspec as (Hns & Hnv & Hcur). pose proof Hp as [_ Hstep Hb _].
    destruct (strategy_cases p Hp) as [E|[E|E]]; rewrite E; cbn [String.eqb Ascii.eqb Bool.eqb];
      [eexists _, _; split; [reflexivity|]; split; [done|]; constructor; simpl; rewrite ?Hzo, ?E; try done; lia..|].
    destruct (Hcur E) as [Hnl ->]. destruct (feedback p target _ (start_budget p facts (stack_id o)) o) as [[[b a] out] wh] eqn:Ef.
    apply feedback_spec in Ef as [Hout Hcase]. pose proof (start_range (stack_id o)) as Hsr. rewrite Hzo in Hsr. specialize (Hsr Hpos).
    erewrite sbind_step by reflexivity. eexists _, _. split; [reflexivity|]. split; [done|].
    unfold _bounded in *. constructor; cbn [d_stack_id budget_bytes d_action outcome]; rewrite ?Hzo; try done.
    + destruct Hcase as [[_ ->]|[[_ ->]|(_ & -> & _)]]; lia.
    + intros _ El h Eh. by rewrite (Hnl El) in Eh.
    + intros _ _ Hlt. destruct Hcase as [[_ ->]|[[_ ->]|(_ & -> & Hev)]]; [lia|lia|]. split; [done|]. lia.
Qed.

Lemma evaluate_decisions st : profile st = p -> exists rows st',
  mapS (evaluate_stack facts target) (stacks facts) st = (Ok rows, st') /\ profile st' = p
  /\ Forall2 (decision_ok p facts) (stacks facts) rows.
Proof using Hp Hen Hf.
  intros Hprof.
  destruct (mapS_inv (fun done outs s => profile s = p /\ Forall2 (decision_ok p facts) done outs)
              (evaluate_stack facts target) (stacks facts) st) as (rows & st' & Hm & Hq & Hall).
  - split; [done|constructor].
  - intros done x todo outs s' El [Hs Hd].
    destruct (evaluate_stack_spec x s') as (row & s2 & He & Hs2 & Hrow); [rewrite El; set_solver|done|].
    exists row, s2. split; [done|]. split; [done|]. apply Forall2_app; [done|]. by constructor.
  - eauto.
Qed.
End evaluate.

(** ** Consuming the budgets *)

Record attempt := { a_stack : string; a_route : list string; a_bytes : Z }.

(** Attempts one after another: those admitted, and the ledger left. *)
Fixpoint admit_all (atts : list attempt) (l : ledger) : list attempt * ledger :=
  match atts with
  | [] => ([], l)
  | a :: rest =>
      let '(r, l') := try_consume (a_stack a) (a_route a) (a_bytes a) l in
      let '(adm, l'') := admit_all rest l' in
      (match r with Ok true => a :: adm | _ => adm end, l'')
  end.

Definition left_stack (l : ledger) (s : string) : Z := dget_or (l_stack l) s 0.
Definition left_endpoint (l : ledger) (e : string) : Z := dget_or (l_endpoint l) e 0.

(** Bytes the admitted attempts took from a stack, and through an endpoint. *)
Definition taken_stack (adm : list attempt) (s : string) : Z :=
  zsum ((fun a => if decide (a_stack a = s) then a_bytes a else 0) <$> adm).
Definition taken_endpoint (adm : list attempt) (e : string) : Z :=
  zsum ((fun a => if decide (e ∈ a_route a) then a_bytes a else 0) <$> adm).

Lemma charge_names n (names : list string) (d : dict string Z) e : NoDup names ->
  dget_or (foldl (fun d name => dset d name (dget_or d name 0 - n)) d names) e 0
  = dget_or d e 0 - (if decide (e ∈ names) then n else 0).
Proof.
  revert d. induction names as [|x names IH]; intros d Hnd; cbn [foldl];
    [rewrite decide_False; [lia|apply not_elem_of_nil]|].
  apply NoDup_cons in Hnd as [Hx Hnd]. rewrite IH by done. rewrite dget_or_dset.
  destruct (decide (x = e)) as [->|Hne].
  - rewrite decide_False by done. rewrite decide_True by set_solver. lia.
  - destruct (decide (e ∈ names)); [rewrite decide_True by set_solver|rewrite decide_False by set_solver]; lia.
Qed.

Lemma try_consume_spec l s route n r l' : l_enabled l = true -> try_consume s route n l = (r, l') ->
  l_enabled l' = true /\
  ((r = Ok true /\ 0 <= n
    /\ (forall s', left_stack l' s' = left_stack l s' - (if decide (s = s') then n else 0))
    /\ (forall e, left_endpoint l' e = left_endpoint l e - (if decide (e ∈ route) then n else 0))
    /\ n <= left_stack l s /\ forall e, e ∈ route -> n <= left_endpoint l e)
   \/ (r <> Ok true /\ l' = l)).
Proof.
  intros Hen E. unfold try_consume in E. erewrite sbind_step in E by reflexivity.
  destruct (can_consume s route n l) as [ok|e] eqn:Ec;
    [erewrite sbind_step in E by (apply lift_Ok; reflexivity)
    |erewrite sbind_raise in E by reflexivity; injection E as <- <-; split; [done|by right]].
  unfold can_consume in Ec. rewrite Hen in Ec. cbn [negb] in Ec.
  apply bind_Ok in Ec as (u1 & Hn%ensure_Ok & Ec). apply bind_Ok in Ec as (u2 & _ & [= <-]).
  destruct (_ && _) eqn:Eok; cbn [negb] in E; [|injection E as <- <-; split; [done|by right]].
  rewrite Hen in E. cbn [negb] in E. erewrite sbind_step in E by reflexivity. injection E as <- <-.
  apply andb_prop in Eok as [Hs He]. apply Z.leb_le in Hs, Hn. split; [done|]. left. split_and!; try done.
  - intros s'. unfold left_stack. cbn [l_stack]. rewrite dget_or_dset. case_decide; subst; lia.
  - intros e. unfold left_endpoint. cbn [l_endpoint]. rewrite charge_names by apply NoDup_remove_dups.
    destruct (decide (e ∈ route)); [rewrite decide_True|rewrite decide_False]; try done;
      unfold names_of; by rewrite elem_of_remove_dups.
  - intros e Hin. rewrite forallb_forall in He. apply Z.leb_le, He, list_elem_of_In.
    unfold names_of. by apply elem_of_remove_dups.
Qed.

Lemma admit_all_spec atts l adm l' : l_enabled l = true -> admit_all atts l = (adm, l') ->
  Forall (fun a => 0 <= a_bytes a) adm
  /\ (forall s, left_stack l' s = left_stack l s - taken_stack adm s)
  /\ (forall e, left_endpoint l' e = left_endpoint l e - taken_endpoint adm e)
  /\ (forall s, 0 <= left_stack l s -> 0 <= left_stack l' s)
  /\ (forall e, 0 <= left_endpoint l e -> 0 <= left_endpoint l' e).
Proof.
  revert l adm l'. induction atts as [|a atts IH]; intros l adm l' Hen E; simpl in E.
  { injection E as <- <-. unfold taken_stack, taken_endpoint. simpl. split_and!; intros; try lia; done. }
  destruct (try_consume (a_stack a) (a_route a) (a_bytes a) l) as [r l1] eqn:Et.
  destruct (admit_all atts l1) as [adm1 l2] eqn:Ea. injection E as <- <-.
  apply try_consume_spec in Et as [Hen1 Hcase]; [|done].
  destruct (IH l1 adm1 l2 Hen1 Ea) as (Hb & Hs & He & Hs0 & He0).
  destruct Hcase as [(-> & Hn & Hls & Hle & Hns & Hne)|[Hr ->]].
  - split_and!.
    + by constructor.
    + intros s. rewrite Hs, Hls. unfold taken_stack. csimpl. unfold zsum. simpl. lia.
    + intros e. rewrite He, Hle. unfold taken_endpoint. csimpl. unfold zsum. simpl. lia.
    + intros s H0. apply Hs0. rewrite Hls. case_decide; subst; lia.
    + intros e H0. apply He0. rewrite Hle. case_decide as Hd; [|lia]. specialize (Hne e Hd). lia.
  - destruct r as [[|]|]; try done; by split_and!.
Qed.

Lemma ledger_init_stack rows d0 s b : NoDup (d_stack_id <$> rows) ->
  (exists row, row ∈ rows /\ d_stack_id row = s /\ budget_bytes row = b) ->
  dget_or (foldl (fun m row => dset m (d_stack_id row) (budget_bytes row)) d0 rows) s 0 = b.
Proof.
  revert d0. induction rows as [|x rows IH]; intros d0 Hnd (row & Hin & Hid & Hb); [by apply not_elem_of_nil in Hin|].
  csimpl in Hnd. apply NoDup_cons in Hnd as [Hx Hnd]. simpl. apply elem_of_cons in Hin as [->|Hin]; [|eauto].
  assert (Hkeep : forall rows d, d_stack_id x ∉ d_stack_id <$> rows ->
            dget_or (foldl (fun m row => dset m (d_stack_id row) (budget_bytes row)) d rows) (d_stack_id x) 0
            = dget_or d (d_stack_id x) 0).
  { clear. intros rows. induction rows as [|y rows IH]; intros d Hy; simpl; [done|]. csimpl in Hy.
    rewrite IH by set_solver. rewrite dget_or_dset, decide_False; [done|]. set_solver. }
  rewrite <- Hid, Hkeep by done. by rewrite dget_or_dset, decide_True.
Qed.

Lemma evaluate_rows p prev facts d st' : profile_ok p -> enabled p = true -> facts_ok facts ->
  evaluate facts {| profile := p; previous := prev |} = (Ok d, st') ->
  Forall2 (decision_ok p facts) (stacks facts) (stack_decisions d) /\ d_enabled d = true.
Proof.
  intros Hp Hen Hf E. unfold evaluate in E. erewrite sbind_step in E by reflexivity. cbn [profile] in E.
  peel_ok_guard E Hw. peel_ok E target Ht.
  destruct (evaluate_decisions p facts target Hp Hen Hf {| profile := p; previous := prev |} eq_refl)
    as (rows & st1 & Hm & _ & Hall).
  erewrite sbind_step in E by exact Hm. peel_ok E endpoint He. by injection E as <- _.
Qed.

(** ** Correctness *)

(** C33: for a valid enabled profile and valid facts, every decision of a window
    is for its stack and keeps the budget at most the larger of the maximum and
    the current budget, and at least zero unless the stack's hysteresis budget
    is negative; it stops a shut-down stack, gives a severe one exactly the
    severe budget and a light one under feedback at most its hysteresis budget;
    the static strategies stay within their bounds; and feedback starts from the
    current budget (the minimum, for a stopped stack under a normal guard), holds
    it or moves it by one step into the bounds, and exceeds both its start and
    the minimum only when the gate limits delivery while the backend is idle,
    then by at most one step. *)
Theorem rate_policy_decisions p prev facts d st' :
  check_profile p = Ok tt -> enabled p = true -> check_facts facts = Ok tt ->
  evaluate facts {| profile := p; previous := prev |} = (Ok d, st') ->
  Forall2 (decision_ok p facts) (stacks facts) (stack_decisions d).
Proof.
  intros Hp%check_profile_ok Hen Hf%check_facts_ok E. by eapply evaluate_rows.
Qed.

(** Whatever attempts are made on the ledger of an enabled decision, each
    admitted one is charged once to its stack and once to every endpoint of its
    route, rejected and invalid ones change nothing, and no budget that starts
    non-negative is overdrawn. *)
Theorem rate_ledger_accounting d atts adm l' : d_enabled d = true ->
  admit_all atts (ledger_init d) = (adm, l') ->
  (forall s, left_stack l' s = left_stack (ledger_init d) s - taken_stack adm s) /\
  (forall e, left_endpoint l' e = left_endpoint (ledger_init d) e - taken_endpoint adm e) /\
  (forall s, 0 <= left_stack (ledger_init d) s -> taken_stack adm s <= left_stack (ledger_init d) s) /\
  (forall e, 0 <= left_endpoint (ledger_init d) e -> taken_endpoint adm e <= left_endpoint (ledger_init d) e).
Proof.
  intros Hen E. destruct (admit_all_spec _ (ledger_init d) _ _ Hen E) as (_ & Hs & He & Hs0 & He0). split_and!; try done.
  - intros s H0. specialize (Hs0 s H0). rewrite Hs in Hs0. lia.
  - intros e H0. specialize (He0 e H0). rewrite He in He0. lia.
Qed.

(** The bytes of one admitted attempt are part of what its stack gave. *)
Lemma taken_member adm a : Forall (fun a => 0 <= a_bytes a) adm -> a ∈ adm -> a_bytes a <= taken_stack adm (a_stack a).
Proof.
  intros Hall. unfold taken_stack, zsum. induction Hall as [|x adm Hx Hall IH]; intros Hin; [by apply not_elem_of_nil in Hin|].
  csimpl. assert (Hpos : 0 <= foldr Z.add 0 ((fun b => if decide (a_stack b = a_stack a) then a_bytes b else 0) <$> adm)).
  { apply zsum_nonneg. apply Forall_fmap. eapply Forall_impl; [exact Hall|]. intros b Hb. simpl. by case_decide. }
  apply elem_of_cons in Hin as [->|Hin]; [rewrite decide_True by done; lia|].
  specialize (IH Hin). case_decide; lia.
Qed.

(** Thermal shutdown stops admission end to end: with the decision of a
    valid enabled policy, no attempt on a shut-down stack is ever admitted
    except for zero bytes. *)
Theorem rate_shutdown_admits_nothing p prev facts d st' o atts adm l' a :
  check_profile p = Ok tt -> enabled p = true -> check_facts facts = Ok tt ->
  evaluate facts {| profile := p; previous := prev |} = (Ok d, st') ->
  o ∈ stacks facts -> guard_of facts (stack_id o) = "shutdown" ->
  admit_all atts (ledger_init d) = (adm, l') -> a ∈ adm -> a_stack a = stack_id o -> a_bytes a = 0.
Proof.
  intros Hp%check_profile_ok Hen Hf%check_facts_ok E Ho Hg Ha Hin Hst.
  destruct (evaluate_rows p prev facts d st' Hp Hen Hf E) as [Hall Hde].
  assert (Hids : d_stack_id <$> stack_decisions d = stack_id <$> stacks facts).
  { clear -Hall. induction Hall as [|x y l l' H _ IH]; csimpl; [done|]. by rewrite IH, (do_id _ _ _ _ H). }
  assert (H0 : left_stack (ledger_init d) (stack_id o) = 0).
  { unfold left_stack, ledger_init. cbn [l_stack]. apply ledger_init_stack; [rewrite Hids; apply Hf|].
    apply list_elem_of_lookup in Ho as [i Hi]. destruct (Forall2_lookup_l _ _ _ _ _ Hall Hi) as (row & Hrow & Hok).
    exists row. split; [by eapply list_elem_of_lookup_2|]. split; [apply Hok|]. by apply (do_shutdown _ _ _ _ Hok). }
  destruct (admit_all_spec _ (ledger_init d) _ _ Hde Ha) as (Hb & Hs & _ & Hs0 & _).
  pose proof (taken_member _ _ Hb Hin) as Ht. rewrite Hst in Ht. specialize (Hs0 (stack_id o) ltac:(lia)).
  rewrite Hs, H0 in Hs0. rewrite Forall_forall in Hb. specialize (Hb a Hin). simpl in Hb. lia.
Qed.

(** *** A concrete window *)

Definition demo_profile : EngineeringProfile :=
  {| profile_id := "demo"; enabled := true; strategy := "read_rate_feedback_thermal_guard_v1";
     window_ns := 1000000000; target_bytes_per_s := 1000; target_latency_p95_ns := None;
     tolerance_fraction := S754_zero false; step_bytes := 100; minimum_budget_bytes := 200;
     maximum_budget_bytes := 2000; severe_budget_bytes := 50; smoothing_excess_fraction := S754_zero false;
     light_fraction := float_one; source_class := "ENGINEERING_PROFILE_SCENARIO_ASSUMPTION" |}.

Definition demo_stack (s : string) : StackWindowFacts :=
  {| stack_id := s; offered_bytes := 1500; delivered_bytes := 600; backlog_bytes := 900; oldest_wait_ns := 5;
     latency_p95_ns := None; censored_requests := 0; gate_limited := true;
     backend_busy_fraction := Some (S754_zero false); resource_busy := Some false; maintenance_due_bytes := 0;
     maintenance_earliest_deadline_ns := None; retry_count := None; uecc_count := None |}.

Definition demo_facts : WindowFacts :=
  {| start_ns := 0; end_ns := 1000000000; guard_state := "normal"; stacks := [demo_stack "a"; demo_stack "b"];
     current_budget_bytes := [("a", 600); ("b", 600)]; hysteresis_budget_bytes := [];
     shared_endpoint_caps_bytes := [("e", 1000)]; route_endpoints := []; guard_states := [("b", "shutdown")];
     endpoint_guard_states := [] |}.

Definition no_decision : Decision :=
  {| d_enabled := true; d_strategy := ""; applies_to_window_start_ns := 0; stack_decisions := [];
     shared_endpoint_budget_bytes := [] |}.
Definition demo_decision : Decision :=
  match fst (evaluate demo_facts (init demo_profile)) with Ok d => d | Raise _ => no_decision end.

Definition demo_attempts : list attempt :=
  [{| a_stack := "a"; a_route := ["e"; "e"]; a_bytes := 400 |}; {| a_stack := "b"; a_route := ["e"]; a_bytes := 1 |};
   {| a_stack := "a"; a_route := ["e"]; a_bytes := 400 |}; {| a_stack := "b"; a_route := []; a_bytes := 0 |}].

(** The gate-limited stack gains one step, the shut-down one stops; of the
    four attempts the first and the last are admitted, and the shared endpoint
    is charged once. *)
Example demo_budgets : (budget_bytes <$> stack_decisions demo_decision) = [700; 0].
Proof. vm_compute. reflexivity. Qed.
Example demo_admitted :
  (a_bytes <$> fst (admit_all demo_attempts (ledger_init demo_decision))) = [400; 0]
  /\ left_endpoint (snd (admit_all demo_attempts (ledger_init demo_decision))) "e" = 600.
Proof. vm_compute. done. Qed.

Lemma rate_policy_decisions_witness :
  Forall2 (decision_ok demo_profile demo_facts) (stacks demo_facts) (stack_decisions demo_decision).
Proof.
  eapply (rate_policy_decisions demo_profile [] demo_facts demo_decision).
  - vm_compute. reflexivity.
  - reflexivity.
  - vm_compute. reflexivity.
  - vm_compute. reflexivity.
Defined.

Lemma rate_ledger_accounting_witness :
  taken_stack (fst (admit_all demo_attempts (ledger_init demo_decision))) "a" <= 700.
Proof.
  destruct (admit_all demo_attempts (ledger_init demo_decision)) as [adm l'] eqn:E.
  apply (rate_ledger_accounting demo_decision demo_attempts adm l'); [reflexivity|exact E|].
  vm_compute. discriminate.
Defined.

Lemma rate_shutdown_admits_nothing_witness :
  a_bytes {| a_stack := "b"; a_route := []; a_bytes := 0 |} = 0.
Proof.
  eapply (rate_shutdown_admits_nothing demo_profile [] demo_facts demo_decision _ (demo_stack "b") demo_attempts).
  - vm_compute. reflexivity.
  - reflexivity.
  - vm_compute. reflexivity.
  - vm_compute. reflexivity.
  - right. left.
  - vm_compute. reflexivity.
  - vm_compute. reflexivity.
  - right. left.
  - reflexivity.
Defined.
End ReadRatePolicy.
