(* ===== verification/UciePlacement.v ===== *)
(** * UCIe weight placement

    Model of [src/adapters/vllm/ucie_placement.py]: the canonical layout of the
    147 weight storages over 4 stacks of 16 modules, and the manifest that binds
    a live selection to it.  The parsed JSON documents are [pyval]s; the digests
    of the files and the existence of the output file are inputs of the model.
    The pattern [\d+] is modelled on ASCII digits: Python's also matches other
    Unicode digits, which no storage name of the frozen layout has. *)

From S2P Require Import Prelude PyFloat.

Module UciePlacement.

Definition SCHEMA : string := "hbfsim.ucie.canonical_layout.v1".
Definition MANIFEST_SCHEMA : string := "hbfsim.ucie.host_placement.v1".
Definition PAGE_BYTES : Z := 16384.
Definition STACK_COUNT : Z := 4.
Definition STACK_CAPACITY : Z := 512 * 1024 ^ 3.
Definition MODULES_PER_STACK : Z := 16.
Definition MODULE_CAPACITY : Z := STACK_CAPACITY / MODULES_PER_STACK.
Definition FROZEN_LAYOUT_SHA256 : string := "f17794781aa8b649576dfdee10d6cd87138a727dc73b1b00e07ed65c2879810d".
Definition FROZEN_LEDGER_SHA256 : string := "666fb5bb13bb4206f30bd74986708ec0dc6a34d01ebd22d0e470c76dc10b4fda".
Definition TOTAL_STORAGE_COUNT : Z := 147.
Definition TOTAL_STORAGE_BYTES : Z := 13838323712.

Definition _GLOBALS : dict string (Z * Z) :=
  [("model.embed_tokens.weight", (1, 4)); ("model.norm.weight", (2, 4)); ("lm_head.weight", (3, 4))].

(** ** Values *)

Definition _integer (value : pyval) (name : string) (positive : bool) : result Z :=
  match value with
  | VInt z =>
      let? _ := ensure (negb ((z <? (if positive then 1 else 0)) || (U64_MAX <? z))) (ValueError ("invalid " +:+ name)) in
      Ok z
  | _ => Raise (ValueError ("invalid " +:+ name))
  end.

Definition _extent (length page_bytes : Z) : result Z :=
  let? _ := _integer (VInt length) "length" true in
  let? _ := _integer (VInt page_bytes) "page_bytes" true in
  let? _ := ensure (length <=? U64_MAX - (page_bytes - 1)) (ValueError "media extent overflow") in
  Ok (ceil_div length page_bytes * page_bytes).

(** [v == z] for a JSON value and an integer: Python compares numbers by value. *)
Definition eq_int (v : pyval) (z : Z) : bool :=
  match v with
  | VInt x => x =? z
  | VBool b => (if b then 1 else 0) =? z
  | VFloat f => match cmp_int_float z f with Some Eq => true | _ => false end
  | _ => false
  end.
Definition eq_str (v : pyval) (s : string) : bool := match v with VStr x => String.eqb x s | _ => false end.

(** [v.get(key)]. *)
Definition as_dict (v : pyval) : result (dict string pyval) :=
  match v with VDict d => Ok d | _ => Raise (AttributeError "object has no attribute 'get'") end.
Definition get_or_none (d : dict string pyval) (key : string) : pyval := dget_or d key VNone.

Definition alias_string (v : pyval) : result string :=
  match v with
  | VStr s => let? _ := ensure (negb (String.eqb s "")) (ValueError "invalid storage alias") in Ok s
  | _ => Raise (ValueError "invalid storage alias")
  end.

Definition _alias_key (v : pyval) : result (list string) :=
  match v with
  | VList (x :: l) =>
      let? aliases := mapR alias_string (x :: l) in
      let? _ := ensure (bool_decide (NoDup aliases)) (ValueError "duplicate alias within storage") in
      Ok (isort sle aliases)
  | _ => Raise (ValueError "missing storage aliases")
  end.

(** ** The module of a storage *)

Fixpoint strip_prefix (p s : string) : option string :=
  match p, s with
  | EmptyString, _ => Some s
  | String a p', String b s' => if Ascii.eqb a b then strip_prefix p' s' else None
  | _, _ => None
  end.

Definition is_digit (c : Ascii.ascii) : bool :=
  let n := Ascii.nat_of_ascii c in (48 <=? n)%nat && (n <=? 57)%nat.

(** The longest prefix of digits, and the rest. *)
Fixpoint span_digits (s : string) : string * string :=
  match s with
  | EmptyString => (EmptyString, EmptyString)
  | String c s' => if is_digit c then let '(d, rest) := span_digits s' in (String c d, rest) else (EmptyString, s)
  end.

(** [_LAYER.match(alias).group(1)] for the pattern [^model\.layers\.(\d+)\.]. *)
Definition layer_match (alias : string) : option string :=
  match strip_prefix "model.layers." alias with
  | Some rest =>
      match span_digits rest with
      | (String c d, String t _) => if Ascii.eqb t (Ascii.ascii_of_nat 46) then Some (String c d) else None
      | _ => None
      end
  | None => None
  end.

(** [int(digits)]. *)
Fixpoint digits_value (acc : Z) (s : string) : Z :=
  match s with
  | EmptyString => acc
  | String c s' => digits_value (10 * acc + (Z.of_nat (Ascii.nat_of_ascii c) - 48)) s'
  end.

Definition _module_for (aliases : list string) : result (Z * Z) :=
  let global_hits := filter (fun a => dmem _GLOBALS a = true) aliases in
  let layer_hits := remove_dups (omap layer_match aliases) in
  match global_hits, aliases with
  | [hit], [_] => dindex _GLOBALS hit
  | _, _ =>
      match global_hits, layer_hits with
      | [], [digits] =>
          let? _ := ensure (forallb (fun a => match layer_match a with Some _ => true | None => false end) aliases)
                      (ValueError "mixed or unsupported storage alias group") in
          let layer := digits_value 0 digits in
          let? _ := ensure (negb ((layer <? 0) || (15 <? layer))) (ValueError "layer outside frozen 16-layer model") in
          Ok (layer mod STACK_COUNT, (layer / STACK_COUNT) mod MODULES_PER_STACK)
      | _, _ => Raise (ValueError "mixed or unsupported storage alias group")
      end
  end.

(** ** The canonical layout *)

Record row := { aliases : list string; storage_bytes : Z; stack_id : Z; module_id : Z }.
Record placement := { p_row : row; media_extent_bytes : Z; canonical_physical_address : Z }.

(** One entry of the ledger; [observed] collects every alias seen. *)
Definition read_entry (acc : list string * list row) (entry : pyval) : result (list string * list row) :=
  let '(observed, rows) := acc in
  let? d := as_dict entry in
  let? al := _alias_key (get_or_none d "aliases") in
  let? _ := ensure (negb (existsb (fun a => bool_decide (a ∈ observed)) al))
              (ValueError "alias belongs to multiple storages") in
  let? length := _integer (get_or_none d "storage_bytes") "storage_bytes" true in
  let? (stack, module) := _module_for al in
  Ok (observed ++ al, rows ++ [{| aliases := al; storage_bytes := length; stack_id := stack; module_id := module |}]).

(** Tuples of strings compare lexicographically. *)
Fixpoint alias_le (a b : list string) : bool :=
  match a, b with
  | [], _ => true
  | _ :: _, [] => false
  | x :: a', y :: b' => if String.eqb x y then alias_le a' b' else sle x y
  end.

Definition place_row (acc : dict (Z * Z) Z * list placement) (r : row) : result (dict (Z * Z) Z * list placement) :=
  let '(next_offset, out) := acc in
  let slot := (stack_id r, module_id r) in
  let offset := dget_or next_offset slot 0 in
  let? extent := _extent (storage_bytes r) PAGE_BYTES in
  let? _ := ensure (extent <=? MODULE_CAPACITY - offset) (ValueError "storage exceeds 32GiB module capacity") in
  Ok (dset next_offset slot (offset + extent),
      out ++ [{| p_row := r; media_extent_bytes := extent;
                 canonical_physical_address := stack_id r * STACK_CAPACITY + module_id r * MODULE_CAPACITY + offset |}]).

(** [build_canonical_layout] on the digest and the parsed ledger. *)
Definition build_canonical_layout (digest : string) (ledger : pyval) : result (list placement) :=
  let? _ := ensure (String.eqb digest FROZEN_LEDGER_SHA256) (ValueError "unrecognized full-model ledger bytes") in
  let? d := as_dict ledger in
  let? _ := ensure (eq_str (get_or_none d "schema") "hbfsim.full_coverage_target_ledger.v1"
                    && eq_int (get_or_none d "total_storage_count") TOTAL_STORAGE_COUNT
                    && eq_int (get_or_none d "total_storage_bytes") TOTAL_STORAGE_BYTES)
              (ValueError "unexpected full-model ledger identity") in
  let? entries := match get_or_none d "entries" with
                  | VList l => let? _ := ensure (Z.of_nat (length l) =? TOTAL_STORAGE_COUNT)
                                           (ValueError "incomplete full-model ledger") in Ok l
                  | _ => Raise (ValueError "incomplete full-model ledger")
                  end in
  let? (_, rows) := foldM read_entry entries ([], []) in
  let? raw_total := dindex d "total_storage_bytes" in
  let? _ := ensure (eq_int raw_total (zsum (storage_bytes <$> rows))) (ValueError "full-model byte total mismatch") in
  let? (_, placements) := foldM place_row (isort (fun a b => alias_le (aliases a) (aliases b)) rows) ([], []) in
  Ok placements.

(** The JSON document of a layout. *)
Definition placement_fields (p : placement) : dict string pyval :=
  [("aliases", VList (VStr <$> aliases (p_row p))); ("storage_bytes", VInt (storage_bytes (p_row p)));
         ("stack_id", VInt (stack_id (p_row p))); ("module_id", VInt (module_id (p_row p)));
         ("media_extent_bytes", VInt (media_extent_bytes p));
         ("canonical_physical_address", VInt (canonical_physical_address p))].
Definition placement_json (p : placement) : pyval := VDict (placement_fields p).
Definition layout_json (digest : string) (placements : list placement) : pyval :=
  VDict [("schema", VStr SCHEMA); ("page_bytes", VInt PAGE_BYTES); ("stack_count", VInt STACK_COUNT);
         ("stack_capacity_bytes", VInt STACK_CAPACITY); ("modules_per_stack", VInt MODULES_PER_STACK);
         ("source_ledger_sha256", VStr digest); ("total_storage_count", VInt TOTAL_STORAGE_COUNT);
         ("total_storage_bytes", VInt TOTAL_STORAGE_BYTES); ("placements", VList (placement_json <$> placements))].

(** ** The manifest *)

Record canonical_row := { c_storage_bytes : Z; c_address : Z }.

(** State of the validation loop: rows by alias tuple, seen aliases, intervals. *)
Record check_state := {
  by_alias : dict (list string) canonical_row; seen_alias : list string; physical : list (Z * Z) }.

Definition check_placement (page_bytes : Z) (acc : check_state) (raw : pyval) : result check_state :=
  let? d := as_dict raw in
  let? al := _alias_key (get_or_none d "aliases") in
  let? _ := ensure (negb (existsb (fun a => bool_decide (a ∈ seen_alias acc)) al))
              (ValueError "duplicate canonical alias") in
  let? length := _integer (get_or_none d "storage_bytes") "storage_bytes" true in
  let? stack := _integer (get_or_none d "stack_id") "stack_id" false in
  let? module := _integer (get_or_none d "module_id") "module_id" false in
  let? address := _integer (get_or_none d "canonical_physical_address") "physical address" false in
  let? extent := _extent length page_bytes in
  let error := ValueError "invalid canonical module placement" in
  let? _ := ensure (negb ((STACK_COUNT <=? stack) || (MODULES_PER_STACK <=? module))) error in
  let? expected := _module_for al in
  let? _ := ensure (bool_decide ((stack, module) = expected)
                    && eq_int (get_or_none d "media_extent_bytes") extent
                    && (address mod page_bytes =? 0)
                    && (stack * STACK_CAPACITY + module * MODULE_CAPACITY <=? address)
                    && (address + extent <=? stack * STACK_CAPACITY + (module + 1) * MODULE_CAPACITY)) error in
  Ok {| by_alias := dset (by_alias acc) al {| c_storage_bytes := length; c_address := address |};
        seen_alias := seen_alias acc ++ al; physical := physical acc ++ [(address, address + extent)] |}.

(** [any(a[1] > b[0] for a, b in zip(physical, physical[1:]))]. *)
Fixpoint overlapping (l : list (Z * Z)) : bool :=
  match l with
  | a :: ((b :: _) as rest) => (b.1 <? a.2) || overlapping rest
  | _ => false
  end.

(** The identity checks and the validation of every placement. *)
Definition check_layout (page_bytes : Z) (layout : pyval) : result check_state :=
  let? d := as_dict layout in
  let error := ValueError "invalid canonical layout identity" in
  let? _ := ensure (eq_str (get_or_none d "schema") SCHEMA && eq_int (get_or_none d "page_bytes") page_bytes
                    && eq_int (get_or_none d "stack_count") STACK_COUNT
                    && eq_int (get_or_none d "stack_capacity_bytes") STACK_CAPACITY
                    && eq_int (get_or_none d "modules_per_stack") MODULES_PER_STACK
                    && eq_int (get_or_none d "total_storage_count") TOTAL_STORAGE_COUNT
                    && eq_int (get_or_none d "total_storage_bytes") TOTAL_STORAGE_BYTES) error in
  let? rows := match get_or_none d "placements" with
               | VList l => let? _ := ensure (Z.of_nat (length l) =? TOTAL_STORAGE_COUNT) error in Ok l
               | _ => Raise error
               end in
  let? st := foldM (check_placement page_bytes) rows {| by_alias := []; seen_alias := []; physical := [] |} in
  let? _ := ensure (negb (overlapping (isort (lex zle zle) (physical st)))) (ValueError "overlapping canonical objects") in
  let? _ := ensure (zsum (c_storage_bytes <$> dvals (by_alias st)) =? TOTAL_STORAGE_BYTES)
              (ValueError "canonical byte total mismatch") in
  Ok st.

(** A live storage object and the amount it registers. *)
Record storage := { s_aliases : pyval; s_address : pyval; s_size : pyval }.

Record manifest_row := {
  range_id : Z; file_offset : Z; m_length : Z; m_page_bytes : Z; registered_address : Z; m_physical : Z;
  endpoint_id : Z; generation : Z }.
Record binding := {
  b_aliases : list string; live_address : Z; b_length : Z; predicted_range_id : Z; predicted_file_offset : Z;
  b_physical : Z }.

Record bind_state := {
  m_rows : list manifest_row; bindings : list binding; offset : Z; seen_storage : list (list string);
  seen_address : list Z; previous_address : Z; index : Z }.

Definition bind_storage (page_bytes : Z) (st : check_state) (acc : bind_state) (pair : storage * pyval) :
    result bind_state :=
  let '(s, raw_amount) := pair in
  let? al := _alias_key (s_aliases s) in
  let? address := _integer (s_address s) "live storage address" true in
  let? size := _integer (s_size s) "live storage bytes" true in
  let? amount := _integer raw_amount "registered bytes" true in
  let error := ValueError "live selection differs from canonical storage/order" in
  let? item := of_option error (dget (by_alias st) al) in
  let? _ := ensure (negb (bool_decide (al ∈ seen_storage acc)
                          || existsb (fun a => negb (bool_decide (a ∈ seen_alias st))) al
                          || negb (size =? c_storage_bytes item) || negb (amount =? size)
                          || (address <=? previous_address acc) || bool_decide (address ∈ seen_address acc)
                          || (U64_MAX - size <? address))) error in
  let? extent := _extent amount page_bytes in
  let? _ := ensure (offset acc <=? U64_MAX - extent) (ValueError "file offset overflow") in
  Ok {| m_rows := m_rows acc ++ [{| range_id := index acc; file_offset := offset acc; m_length := amount;
                                    m_page_bytes := page_bytes; registered_address := address;
                                    m_physical := c_address item; endpoint_id := 7; generation := 1 |}];
        bindings := bindings acc ++ [{| b_aliases := al; live_address := address; b_length := amount;
                                        predicted_range_id := index acc; predicted_file_offset := offset acc;
                                        b_physical := c_address item |}];
        offset := offset acc + extent; seen_storage := seen_storage acc ++ [al];
        seen_address := seen_address acc ++ [address]; previous_address := address; index := index acc + 1 |}.

(** [generate_manifest] on the digest and the parsed layout, and on whether the
    output file exists; the rows and bindings it writes and returns. *)
Definition generate_manifest (digest : string) (layout : pyval) (registered : list (storage * pyval))
    (raw_page_bytes : pyval) (output_exists : bool) : result (list manifest_row * list binding) :=
  let? page_bytes := _integer raw_page_bytes "page_bytes" true in
  let? _ := ensure (String.eqb digest FROZEN_LAYOUT_SHA256) (ValueError "unrecognized frozen canonical layout bytes") in
  let? st := check_layout page_bytes layout in
  let? _ := ensure ((0 <? Z.of_nat (length registered)) && (Z.of_nat (length registered) <=? TOTAL_STORAGE_COUNT))
              (ValueError "empty or oversized registered selection") in
  let? final := foldM (bind_storage page_bytes st) registered
                  {| m_rows := []; bindings := []; offset := 0; seen_storage := []; seen_address := [];
                     previous_address := -1; index := 1 |} in
  let? _ := ensure (negb output_exists) FileExistsError in
  Ok (m_rows final, bindings final).

(** ** Rows and regions *)

Lemma capacities : MODULE_CAPACITY = 34359738368 /\ STACK_CAPACITY = 16 * MODULE_CAPACITY /\ MODULE_CAPACITY mod PAGE_BYTES = 0.
Proof. by vm_compute. Qed.

(** Where the region of a module starts. *)
Definition base (stack module : Z) : Z := stack * STACK_CAPACITY + module * MODULE_CAPACITY.

Definition slot_ok (s m : Z) : Prop := 0 <= s < STACK_COUNT /\ 0 <= m < MODULES_PER_STACK.

Lemma module_for_range al s m : _module_for al = Ok (s, m) -> slot_ok s m.
Proof.
  unfold _module_for, slot_ok. intros H.
  assert (Hg : forall a, dindex _GLOBALS a = Ok (s, m) -> 0 <= s < STACK_COUNT /\ 0 <= m < MODULES_PER_STACK).
  { intros a Ha%dindex_Ok%dget_Some_elem. unfold _GLOBALS in Ha. unfold STACK_COUNT, MODULES_PER_STACK.
    rewrite !elem_of_cons, elem_of_nil in Ha. naive_solver lia. }
  assert (Hl : forall layer, 0 <= layer mod STACK_COUNT < STACK_COUNT
            /\ 0 <= (layer / STACK_COUNT) mod MODULES_PER_STACK < MODULES_PER_STACK).
  { intros layer. split; apply Z.mod_pos_bound; done. }
  destruct (filter _ al) as [|g1 [|g2 gs]].
  - destruct (remove_dups _) as [|d1 [|d2 ds]]; try done. inv_ok. apply Hl.
  - destruct al as [|a1 [|a2 al]]; try done. by eapply Hg.
  - by destruct al as [|a1 [|a2 al]].
Qed.

(** Distinct slots have disjoint regions. *)
Lemma base_disjoint s m s' m' : slot_ok s m -> slot_ok s' m' -> (s, m) <> (s', m') ->
  base s m + MODULE_CAPACITY <= base s' m' \/ base s' m' + MODULE_CAPACITY <= base s m.
Proof.
  unfold slot_ok, base, STACK_COUNT, MODULES_PER_STACK. destruct capacities as (Ec & Es & _). intros H1 H2 Hne.
  assert (16 * s + m <> 16 * s' + m') by (intros E; apply Hne; f_equal; lia). lia.
Qed.

Lemma integer_Ok_u64 v l pos z : _integer v l pos = Ok z -> v = VInt z /\ (if pos then 1 else 0) <= z <= U64_MAX.
Proof. destruct v; simpl; try done. intros H. inv_ok. split; [done|]. lia. Qed.

Lemma extent_spec len page e : _extent len page = Ok e ->
  0 < page /\ 0 < len /\ e mod page = 0 /\ len <= e < len + page.
Proof.
  unfold _extent. intros H. inv_ok.
  repeat match goal with H : _integer _ _ _ = Ok _ |- _ => apply integer_Ok_u64 in H as [[= <-] H] end.
  pose proof (ceil_div_spec len page ltac:(lia)). split_and!; try lia. apply Z.mod_mul. lia.
Qed.

Lemma extent_fun len page : 1 <= len <= U64_MAX - (page - 1) -> 1 <= page <= U64_MAX ->
  _extent len page = Ok (ceil_div len page * page).
Proof.
  intros H1 H2. unfold _extent, _integer, ensure.
  replace (negb ((len <? 1) || (U64_MAX <? len))) with true by lia.
  replace (negb ((page <? 1) || (U64_MAX <? page))) with true by lia. cbn [rbind].
  by replace (len <=? U64_MAX - (page - 1)) with true by lia.
Qed.

Lemma alias_key_Ok v al : _alias_key v = Ok al ->
  NoDup al /\ al <> [] /\ isort sle al = al /\ Forall (fun s => s <> "") al.
Proof.
  unfold _alias_key. destruct v as [| | | | |[|x l]|]; try done. intros H. inv_ok.
  match goal with H : mapR _ _ = Ok _ |- _ => apply mapR_Ok in H; rename H into Hm end. split_and!.
  - by rewrite isort_perm.
  - intros E. apply (f_equal length) in E. rewrite isort_length in E. apply Forall2_length in Hm. simpl in *. congruence.
  - apply isort_idemp, _.
  - rewrite isort_perm. apply Forall_forall. intros s Hs. apply list_elem_of_lookup in Hs as [i Hi].
    destruct (Forall2_lookup_r _ _ _ _ _ Hm Hi) as (v & _ & Hv). unfold alias_string in Hv. destruct v; try done.
    inv_ok. intros ->. done.
Qed.

(** Writing the aliases out and reading them back. *)
Lemma alias_key_roundtrip v al : _alias_key v = Ok al -> _alias_key (VList (VStr <$> al)) = Ok al.
Proof.
  intros (Hnd & Hne & Hs & Hf)%alias_key_Ok. unfold _alias_key. destruct al as [|a al]; [done|]. rewrite fmap_cons.
  assert (Hm : forall l, Forall (fun s => s <> "") l -> mapR alias_string (VStr <$> l) = Ok l).
  { clear. induction 1 as [|s l Hs _ IH]; csimpl; [done|]. rewrite IH.
    destruct (String.eqb_spec s "") as [->|]; done. }
  change (VStr a :: (VStr <$> al)) with (VStr <$> a :: al). rewrite (Hm (a :: al) Hf). cbn [rbind].
  rewrite bool_decide_eq_true_2 by done. cbn [ensure rbind]. by rewrite Hs.
Qed.

(** What the ledger loop knows of a row. *)
Record row_ok (r : row) : Prop := {
  rk_key : exists v, _alias_key v = Ok (aliases r);
  rk_module : _module_for (aliases r) = Ok (stack_id r, module_id r);
  rk_bytes : 0 < storage_bytes r }.

Lemma existsb_seen (seen al : list string) : existsb (fun a => bool_decide (a ∈ seen)) al = false ->
  forall a, a ∈ al -> a ∉ seen.
Proof.
  intros H a Ha Hin. assert (E : existsb (fun a => bool_decide (a ∈ seen)) al = true); [|congruence].
  apply existsb_exists. exists a. split; [by apply list_elem_of_In|]. by apply bool_decide_eq_true_2.
Qed.

Definition rows_ok (observed : list string) (rows : list row) : Prop :=
  Forall row_ok rows /\ NoDup observed /\ observed = mjoin (aliases <$> rows).

Lemma read_entry_ok observed rows entry observed' rows' :
  rows_ok observed rows -> read_entry (observed, rows) entry = Ok (observed', rows') ->
  rows_ok observed' rows' /\ length rows' = S (length rows).
Proof.
  intros (Hr & Hnd & Ho) H. unfold read_entry in H. inv_ok.
  match goal with H : (let? (_, _) := ?m in _) = _ |- _ => idtac | x : (Z * Z)%type |- _ => destruct x as [s m] end. inv_ok.
  match goal with H : _integer _ _ _ = Ok _ |- _ => apply integer_Ok_u64 in H as [_ Hb] end.
  match goal with H : _alias_key _ = Ok ?a |- _ => rename H into Hk; rename a into al end.
  match goal with H : negb _ = true |- _ => apply negb_true_iff in H; rename H into Hs end.
  pose proof (alias_key_Ok _ _ Hk) as (Hal & _). split; [|rewrite length_app; simpl; lia]. split_and!.
  - apply Forall_app. split; [done|]. constructor; [|done]. constructor; simpl; [by eexists|done|lia].
  - apply NoDup_app. split_and!; [done| |done]. intros a Ha Ha'. by eapply existsb_seen.
  - rewrite fmap_app. csimpl. rewrite join_app. simpl. by rewrite app_nil_r.
Qed.

(** ** The placement loop *)

Record placed_ok (p : placement) : Prop := {
  pk_row : row_ok (p_row p);
  pk_extent : _extent (storage_bytes (p_row p)) PAGE_BYTES = Ok (media_extent_bytes p);
  pk_region : base (stack_id (p_row p)) (module_id (p_row p)) <= canonical_physical_address p
    /\ canonical_physical_address p + media_extent_bytes p
       <= base (stack_id (p_row p)) (module_id (p_row p)) + MODULE_CAPACITY;
  pk_aligned : canonical_physical_address p mod PAGE_BYTES = 0 }.

Definition interval (p : placement) : Z * Z :=
  (canonical_physical_address p, canonical_physical_address p + media_extent_bytes p).
Definition disjoint (x y : Z * Z) : Prop := x.2 <= y.1 \/ y.2 <= x.1.

#[export] Instance disjoint_sym : Symmetric disjoint.
Proof. intros x y [H|H]; [by right|by left]. Qed.

Definition slot_of (p : placement) : Z * Z := (stack_id (p_row p), module_id (p_row p)).

Record place_inv (done : list row) (offs : dict (Z * Z) Z) (out : list placement) : Prop := {
  pi_rows : p_row <$> out = done;
  pi_placed : Forall placed_ok out;
  pi_disjoint : pairwise (fun p q => disjoint (interval p) (interval q)) out;
  pi_offsets : forall slot, 0 <= dget_or offs slot 0 <= MODULE_CAPACITY /\ dget_or offs slot 0 mod PAGE_BYTES = 0;
  pi_bound : forall p, p ∈ out -> (interval p).2 <= base (stack_id (p_row p)) (module_id (p_row p)) + dget_or offs (slot_of p) 0 }.

Lemma base_aligned s m : base s m mod PAGE_BYTES = 0.
Proof.
  unfold base. destruct capacities as (Ec & Es & Em).
  replace (s * STACK_CAPACITY + m * MODULE_CAPACITY) with ((16 * s + m) * (MODULE_CAPACITY / PAGE_BYTES) * PAGE_BYTES).
  - apply Z.mod_mul. done.
  - rewrite Es, Ec. change (34359738368 / PAGE_BYTES) with 2097152. change PAGE_BYTES with 16384. lia.
Qed.

Lemma place_row_ok done offs out r offs' out' : place_inv done offs out -> row_ok r ->
  place_row (offs, out) r = Ok (offs', out') -> place_inv (done ++ [r]) offs' out'.
Proof.
  intros [Hr Hp Hd Ho Hb] Hrow H. unfold place_row in H. inv_ok.
  match goal with H : _extent _ _ = Ok ?e |- _ => rename H into He; rename e into ext end.
  match goal with H : (ext <=? _) = true |- _ => apply Z.leb_le in H; rename H into Hfit end.
  pose proof (extent_spec _ _ _ He) as (_ & Hpos & Hmod & Hext).
  set (slot := (stack_id r, module_id r)) in *. destruct (Ho slot) as [Hoff Hal].
  set (p := {| p_row := r; media_extent_bytes := ext; canonical_physical_address := _ |}).
  assert (Ea : canonical_physical_address p = base (stack_id r) (module_id r) + dget_or offs slot 0) by done.
  assert (Hmodsum : (dget_or offs slot 0 + ext) mod PAGE_BYTES = 0) by (rewrite Z.add_mod, Hal, Hmod by done; done).
  constructor.
  - by rewrite fmap_app.
  - apply Forall_app. split; [done|]. constructor; [|done]. constructor; [done|done| |].
    + rewrite Ea. simpl. lia.
    + rewrite Ea, Z.add_mod, base_aligned, Hal by done. done.
  - apply pairwise_snoc; [intros x y; apply disjoint_sym|done|]. intros q Hq. specialize (Hb q Hq).
    rewrite Forall_forall in Hp. pose proof (Hp q Hq) as [[_ Hm _] _ Hreg _].
    unfold disjoint, interval in *. rewrite Ea. simpl in *.
    destruct (decide (slot_of q = slot)) as [E|Hne].
    + right. rewrite E in Hb. unfold slot_of, slot in E. injection E as E1 E2. rewrite E1, E2 in Hb. lia.
    + destruct (base_disjoint (stack_id r) (module_id r) (stack_id (p_row q)) (module_id (p_row q))) as [Hx|Hx].
      * eapply module_for_range, Hrow.
      * by eapply module_for_range.
      * intros E. apply Hne. unfold slot_of, slot. congruence.
      * left. lia.
      * right. lia.
  - intros slot'. rewrite dget_or_dset. case_decide; [|apply Ho]. split; [lia|done].
  - intros q [Hq| ->%list_elem_of_singleton]%elem_of_app.
    + rewrite dget_or_dset. specialize (Hb q Hq). case_decide as E; [|done]. rewrite <- E in Hb. lia.
    + rewrite dget_or_dset, decide_True by done. unfold interval. rewrite Ea. simpl. lia.
Qed.

Lemma place_all_ok rows offs out : Forall row_ok rows -> foldM place_row rows ([], []) = Ok (offs, out) ->
  place_inv rows offs out.
Proof.
  intros Hr Hf. change (place_inv rows (offs, out).1 (offs, out).2).
  eapply (foldM_Ok_ind (fun done acc => place_inv done acc.1 acc.2)); [| |exact Hf].
  - constructor; simpl; [done|done|apply pairwise_nil| |set_solver]. intros slot. unfold dget_or. simpl.
    destruct capacities as (-> & _). done.
  - intros done r todo [o1 l1] [o2 l2] E Hi Hs. eapply place_row_ok; [exact Hi| |exact Hs].
    rewrite Forall_forall in Hr. apply Hr. rewrite E. set_solver.
Qed.

Lemma read_all_ok entries observed rows : foldM read_entry entries ([], []) = Ok (observed, rows) ->
  rows_ok observed rows /\ length rows = length entries.
Proof.
  intros Hf. apply (foldM_Ok_ind (fun done acc => rows_ok acc.1 acc.2 /\ length acc.2 = length done)) in Hf; [done| |].
  - split; [|done]. split_and!; [constructor|constructor|done].
  - intros done r todo [o1 l1] [o2 l2] E [Hi Hl] Hs. simpl in *.
    destruct (read_entry_ok _ _ _ _ _ Hi Hs) as [H1 H2]. split; [done|]. rewrite length_app. simpl. lia.
Qed.

(** Everything the constructor of the layout establishes. *)
Record layout_ok (ps : list placement) : Prop := {
  lo_count : Z.of_nat (length ps) = TOTAL_STORAGE_COUNT;
  lo_bytes : zsum ((fun p => storage_bytes (p_row p)) <$> ps) = TOTAL_STORAGE_BYTES;
  lo_aliases : NoDup (mjoin ((fun p => aliases (p_row p)) <$> ps));
  lo_placed : Forall placed_ok ps;
  lo_disjoint : pairwise (fun p q => disjoint (interval p) (interval q)) ps }.

Lemma eq_int_same v a b : eq_int v a = true -> eq_int v b = true -> a = b.
Proof.
  destruct v as [|x|x|f| | |]; simpl; try done; try lia. unfold cmp_int_float.
  destruct f as [s|s| |s m e]; try done; [by destruct (Z.compare_spec a 0), (Z.compare_spec b 0); subst|by destruct s|].
  destruct (0 <=? e) eqn:E.
  - by destruct (Z.compare_spec a ((if s then Z.neg m else Z.pos m) * 2 ^ e)),
      (Z.compare_spec b ((if s then Z.neg m else Z.pos m) * 2 ^ e)); subst.
  - pose proof (Z.pow_pos_nonneg 2 (- e) ltac:(lia) ltac:(lia)).
    destruct (Z.compare_spec (a * 2 ^ (- e)) (if s then Z.neg m else Z.pos m)),
      (Z.compare_spec (b * 2 ^ (- e)) (if s then Z.neg m else Z.pos m)); try done. intros _ _. nia.
Qed.

Lemma build_layout_ok digest ledger ps : build_canonical_layout digest ledger = Ok ps -> layout_ok ps.
Proof.
  unfold build_canonical_layout. intros H. inv_ok.
  match goal with x : (list string * list row)%type |- _ => destruct x as [observed rows] end. inv_ok.
  match goal with x : (dict (Z * Z) Z * list placement)%type |- _ => destruct x as [offs out] end. inv_ok.
  match goal with H : foldM read_entry _ _ = Ok _ |- _ => apply read_all_ok in H as [(Hr & Hnd & Ho) Hl] end.
  match goal with H : foldM place_row _ _ = Ok _ |- _ => apply place_all_ok in H as [Hrows Hp Hd _ _]; [|by rewrite isort_perm] end.
  assert (Hperm : p_row <$> ps ≡ₚ rows) by (rewrite Hrows; apply isort_perm).
  assert (Hlen : length ps = length rows) by (rewrite <- (length_fmap p_row ps); by rewrite Hperm).
  match goal with H : dindex _ _ = Ok _ |- _ => apply dindex_Ok in H; rename H into Hd0 end.
  constructor; try done.
  - rewrite Hlen, Hl. match goal with H : match get_or_none _ "entries" with _ => _ end = Ok _ |- _ => rename H into He end.
    destruct (get_or_none _ "entries"); try done. inv_ok. lia.
  - change ((fun p => storage_bytes (p_row p)) <$> ps) with ((storage_bytes ∘ p_row) <$> ps).
    rewrite list_fmap_compose, Hperm.
    match goal with H : eq_int (get_or_none _ "total_storage_bytes") _ = true |- _ => rename H into Htot end.
    unfold get_or_none, dget_or in Htot. rewrite Hd0 in Htot. by eapply eq_int_same.
  - change ((fun p => aliases (p_row p)) <$> ps) with ((aliases ∘ p_row) <$> ps).
    rewrite list_fmap_compose, Hperm, <- Ho. done.
Qed.

(** ** Overlap *)

Lemma lex_fst (a b : Z * Z) : lex zle zle a b = true -> a.1 <= b.1.
Proof. unfold lex, zle. case_decide; [lia|]. apply Z.leb_le. Qed.

Definition proper_interval (x : Z * Z) : Prop := x.1 < x.2.

Lemma not_overlapping_pairwise l : sorted (lex zle zle) l -> Forall proper_interval l ->
  overlapping l = false <-> pairwise disjoint l.
Proof.
  induction l as [|a l IH]; intros Hs Hp; [split; [intros; apply pairwise_nil|done]|].
  destruct Hs as [Ha Hs]. apply Forall_cons in Hp as [Hpa Hp]. rewrite pairwise_cons by apply _.
  rewrite <- (IH Hs Hp). destruct l as [|b l]; [split; [by split; [set_solver|]|done]|].
  cbn [overlapping]. rewrite orb_false_iff, Z.ltb_ge. apply Forall_cons in Ha as [Hab Ha].
  assert (Hpb := Forall_inv Hp). unfold proper_interval in *. apply lex_fst in Hab. split; intros [H1 H2]; split; try done.
  - intros y [->|Hy]%elem_of_cons; left; [lia|]. destruct Hs as [Hb _]. rewrite Forall_forall in Hb.
    specialize (Hb y Hy). apply lex_fst in Hb. lia.
  - destruct (H1 b ltac:(set_solver)) as [|]; lia.
Qed.

Lemma isort_intervals_sorted l : sorted (lex zle zle) (isort (lex zle zle) l).
Proof. apply isort_sorted; [apply bo_total|apply bo_trans]. Qed.

Lemma overlapping_isort l : Forall proper_interval l ->
  overlapping (isort (lex zle zle) l) = false <-> pairwise disjoint l.
Proof.
  intros Hp. rewrite not_overlapping_pairwise; [|apply isort_intervals_sorted|by rewrite isort_perm].
  by rewrite isort_perm.
Qed.

(** ** The validation loop *)

Definition row_extent (page : Z) (c : canonical_row) : Z := ceil_div (c_storage_bytes c) page * page.
Definition row_interval (page : Z) (c : canonical_row) : Z * Z := (c_address c, c_address c + row_extent page c).

Record crow_ok (page : Z) (c : canonical_row) : Prop := {
  ck_bytes : 0 < c_storage_bytes c <= row_extent page c;
  ck_aligned : c_address c mod page = 0;
  ck_region : exists s m, slot_ok s m /\ base s m <= c_address c
    /\ c_address c + row_extent page c <= base s m + MODULE_CAPACITY }.

Record check_inv (page : Z) (st : check_state) : Prop := {
  ci_keys : NoDup (dkeys (by_alias st));
  ci_seen : forall al, al ∈ dkeys (by_alias st) -> al <> [] /\ forall a, a ∈ al -> a ∈ seen_alias st;
  ci_physical : physical st = (row_interval page <$> dvals (by_alias st));
  ci_rows : Forall (crow_ok page) (dvals (by_alias st)) }.

Lemma base_next s m : s * STACK_CAPACITY + (m + 1) * MODULE_CAPACITY = base s m + MODULE_CAPACITY.
Proof. unfold base. lia. Qed.

Lemma check_placement_inv page st raw st' : check_inv page st -> check_placement page st raw = Ok st' ->
  check_inv page st'.
Proof.
  intros [Hk Hs Hp Hr] H. unfold check_placement in H. inv_ok.
  repeat match goal with H : _integer _ _ _ = Ok _ |- _ => apply integer_Ok_u64 in H as [_ H] end.
  match goal with H : _alias_key _ = Ok ?a |- _ => apply alias_key_Ok in H as (Hnd & Hne & _); rename a into al end.
  match goal with H : negb (existsb _ _) = true |- _ => apply negb_true_iff in H; rename H into Hnew end.
  match goal with H : _extent _ _ = Ok _ |- _ => pose proof (extent_spec _ _ _ H) as (Hpg & _ & _ & Hext); rename H into He end.
  match goal with H : _module_for _ = Ok ?e |- _ => rename H into Hmod; subst e end.
  apply module_for_range in Hmod.
  assert (Hal : al ∉ dkeys (by_alias st)).
  { intros Hin. destruct al as [|a al]; [done|]. eapply (existsb_seen _ _ Hnew a); [set_solver|].
    apply (Hs _ Hin). set_solver. }
  unfold _extent in He. inv_ok.
  match goal with H : (_ mod _ =? 0) = true |- _ => apply Z.eqb_eq in H; rename H into Ha end.
  match goal with H : (_ + _ <=? _) = true |- _ => apply Z.leb_le in H; rewrite base_next in H; rename H into Hhi end.
  match goal with H : (_ * STACK_CAPACITY + _ <=? _) = true |- _ => apply Z.leb_le in H; rename H into Hlo end.
  constructor; simpl.
  - by apply NoDup_dkeys_dset.
  - intros al' [->|Hin]%elem_dkeys_dset; [split; [done|set_solver]|]. destruct (Hs _ Hin) as [Hne' Hin']. split; [done|].
    intros a Ha'. apply elem_of_app. left. auto.
  - rewrite dkeys_dset_notin by done. unfold dvals. rewrite !fmap_app. csimpl. by rewrite Hp.
  - rewrite dkeys_dset_notin by done. unfold dvals. rewrite fmap_app. apply Forall_app. split; [done|].
    constructor; [|done]. constructor; unfold row_extent; simpl; [lia|done|]. eauto 8.
Qed.

(** What an accepted layout guarantees. *)
Record canon_ok (page : Z) (st : check_state) : Prop := {
  cn_inv : check_inv page st;
  cn_disjoint : pairwise (fun c d => disjoint (row_interval page c) (row_interval page d)) (dvals (by_alias st));
  cn_bytes : zsum (c_storage_bytes <$> dvals (by_alias st)) = TOTAL_STORAGE_BYTES }.

Lemma check_layout_ok page layout st : check_layout page layout = Ok st -> canon_ok page st.
Proof.
  unfold check_layout. intros H. inv_ok.
  match goal with H : foldM (check_placement _) _ _ = Ok _ |- _ =>
    apply (foldM_Ok_ind (fun _ st => check_inv page st)) in H; [rename H into Hi| |] end.
  - match goal with H : negb (overlapping _) = true |- _ => apply negb_true_iff in H; rename H into Ho end.
    constructor; [done| |by apply Z.eqb_eq]. rewrite (ci_physical _ _ Hi) in Ho.
    apply overlapping_isort in Ho; [by rewrite pairwise_fmap in Ho by apply _|].
    apply Forall_fmap. eapply Forall_impl; [apply Hi|]. intros c [Hc _ _]. unfold proper_interval, row_interval. simpl. lia.
  - constructor; simpl; [constructor|set_solver|done|constructor].
  - intros done raw todo b1 b2 _ Hb Hs. by eapply check_placement_inv.
Qed.

(** *** The built layout is accepted *)

Lemma json_fields p :
  get_or_none (placement_fields p) "aliases" = VList (VStr <$> aliases (p_row p))
  /\ get_or_none (placement_fields p) "storage_bytes" = VInt (storage_bytes (p_row p))
  /\ get_or_none (placement_fields p) "stack_id" = VInt (stack_id (p_row p))
  /\ get_or_none (placement_fields p) "module_id" = VInt (module_id (p_row p))
  /\ get_or_none (placement_fields p) "media_extent_bytes" = VInt (media_extent_bytes p)
  /\ get_or_none (placement_fields p) "canonical_physical_address" = VInt (canonical_physical_address p).
Proof. by split_and!. Qed.

Lemma address_u64 p : placed_ok p -> 0 <= canonical_physical_address p <= U64_MAX.
Proof.
  intros [[_ Hm _] He [Hlo Hhi] _]. apply extent_spec in He as (_ & Hpos & _ & He). apply module_for_range in Hm.
  unfold slot_ok, base, STACK_COUNT, MODULES_PER_STACK in *.
  change STACK_CAPACITY with 549755813888 in *. change MODULE_CAPACITY with 34359738368 in *.
  change U64_MAX with 18446744073709551615. lia.
Qed.

Lemma integer_in v l (pos : bool) : (if pos then 1 else 0) <= v <= U64_MAX -> _integer (VInt v) l pos = Ok v.
Proof. intros H. unfold _integer, ensure. by replace (negb _) with true by (destruct pos; lia). Qed.

(** The state after a placement was accepted. *)
Definition accept (st : check_state) (p : placement) : check_state :=
  {| by_alias := dset (by_alias st) (aliases (p_row p))
       {| c_storage_bytes := storage_bytes (p_row p); c_address := canonical_physical_address p |};
     seen_alias := seen_alias st ++ aliases (p_row p); physical := physical st ++ [interval p] |}.

Lemma check_placement_accepts st p : placed_ok p -> (forall a, a ∈ aliases (p_row p) -> a ∉ seen_alias st) ->
  check_placement PAGE_BYTES st (placement_json p) = Ok (accept st p).
Proof.
  intros Hp Hnew. pose proof (address_u64 p Hp) as Haddr. destruct Hp as [[[v Hk] Hm Hb] He [Hlo Hhi] Hal].
  pose proof (module_for_range _ _ _ Hm) as Hslot. pose proof (extent_spec _ _ _ He) as (_ & _ & _ & Hext).
  assert (Hb64 : 1 <= storage_bytes (p_row p) <= U64_MAX).
  { unfold _extent in He. apply bind_Ok in He as (z & Hz & _). by apply integer_Ok_u64 in Hz as [[= <-] Hz]. }
  unfold check_placement, placement_json. cbn [as_dict rbind].
  destruct (json_fields p) as (-> & -> & -> & -> & -> & ->).
  rewrite (alias_key_roundtrip _ _ Hk). cbn [rbind].
  replace (existsb (fun a => bool_decide (a ∈ seen_alias st)) (aliases (p_row p))) with false.
  2: { symmetry. apply not_true_iff_false. intros (a & Ha & Hin)%existsb_exists.
       apply bool_decide_eq_true in Hin. apply list_elem_of_In in Ha. by apply (Hnew a). }
  cbn [negb ensure rbind].
  rewrite integer_in by done. cbn [rbind].
  unfold slot_ok, STACK_COUNT, MODULES_PER_STACK in Hslot.
  rewrite !integer_in by (try done; unfold U64_MAX; lia). cbn [rbind]. rewrite He. cbn [rbind].
  replace (negb _) with true by (unfold STACK_COUNT, MODULES_PER_STACK; lia). cbn [ensure rbind]. rewrite Hm. cbn [rbind].
  rewrite bool_decide_eq_true_2 by done. cbn [eq_int]. rewrite Z.eqb_refl, Hal, base_next.
  unfold base in *. cbn [andb]. replace (_ <=? canonical_physical_address p) with true by lia.
  by replace (_ <=? _ + MODULE_CAPACITY) with true by lia.
Qed.

Lemma check_all_accepts ps st : Forall placed_ok ps ->
  NoDup (seen_alias st ++ mjoin ((fun p => aliases (p_row p)) <$> ps)) ->
  foldM (check_placement PAGE_BYTES) (placement_json <$> ps) st = Ok (foldl accept st ps).
Proof.
  revert st. induction ps as [|p ps IH]; intros st Hp Hnd; [done|]. apply Forall_cons in Hp as [Hp Hps].
  csimpl in Hnd. rewrite fmap_cons. cbn [foldM]. rewrite check_placement_accepts; [|done|].
  - cbn [rbind foldl]. apply IH; [done|]. cbn [accept seen_alias]. by rewrite <- app_assoc.
  - intros a Ha Hin. apply NoDup_app in Hnd as (_ & Hdis & _). apply (Hdis a Hin), elem_of_app. by left.
Qed.

Lemma accept_all ps st : (forall p, p ∈ ps -> aliases (p_row p) <> []) ->
  (forall al, al ∈ dkeys (by_alias st) -> forall a, a ∈ al -> a ∈ seen_alias st) ->
  NoDup (seen_alias st ++ mjoin ((fun p => aliases (p_row p)) <$> ps)) ->
  by_alias (foldl accept st ps) = by_alias st ++ ((fun p => (aliases (p_row p),
      {| c_storage_bytes := storage_bytes (p_row p); c_address := canonical_physical_address p |})) <$> ps)
  /\ physical (foldl accept st ps) = physical st ++ (interval <$> ps).
Proof.
  revert st. induction ps as [|p ps IH]; intros st Hne Hseen Hnd; [by rewrite !app_nil_r|]. csimpl in Hnd. cbn [foldl].
  assert (Hnew : aliases (p_row p) ∉ dkeys (by_alias st)).
  { intros Hin. destruct (aliases (p_row p)) as [|a al] eqn:E; [by apply (Hne p); [set_solver|]|].
    apply NoDup_app in Hnd as (_ & Hdis & _). apply (Hdis a); [|set_solver]. apply (Hseen _ Hin). set_solver. }
  destruct (IH (accept st p)) as [H1 H2].
  - intros q Hq. apply Hne. set_solver.
  - intros al Hal a Ha. cbn [accept seen_alias by_alias] in *. apply elem_of_app.
    apply elem_dkeys_dset in Hal as [->|Hal]; [by right|left; by eapply Hseen].
  - cbn [accept seen_alias]. by rewrite <- app_assoc.
  - rewrite H1, H2. cbn [accept by_alias physical]. rewrite dkeys_dset_notin by done. csimpl. by rewrite <- !app_assoc.
Qed.

(** ** The binding loop *)

Definition m_extent (page : Z) (r : manifest_row) : Z := ceil_div (m_length r) page * page.
Definition file_interval (page : Z) (r : manifest_row) : Z * Z := (file_offset r, file_offset r + m_extent page r).
Definition media_interval (page : Z) (r : manifest_row) : Z * Z := (m_physical r, m_physical r + m_extent page r).

(** A manifest row is a canonical row under its aliases. *)
Definition bound_to (st : check_state) (al : list string) (r : manifest_row) : Prop :=
  exists c, dget (by_alias st) al = Some c /\ m_length r = c_storage_bytes c /\ m_physical r = c_address c.

Record bind_inv (page : Z) (st : check_state) (acc : bind_state) : Prop := {
  bd_index : range_id <$> m_rows acc = seqZ 1 (index acc - 1);
  bd_count : index acc = 1 + Z.of_nat (length (m_rows acc));
  bd_storage : NoDup (seen_storage acc);
  bd_bound : Forall2 (bound_to st) (seen_storage acc) (m_rows acc);
  bd_offset : 0 <= offset acc <= U64_MAX /\ offset acc mod page = 0;
  bd_files : Forall (fun r => file_offset r mod page = 0 /\ 0 <= file_offset r
                       /\ (file_interval page r).2 <= offset acc) (m_rows acc);
  bd_disjoint : pairwise (fun r q => disjoint (file_interval page r) (file_interval page q)) (m_rows acc);
  bd_media : pairwise (fun r q => disjoint (media_interval page r) (media_interval page q)) (m_rows acc);
  bd_addresses : sorted Z.ltb (registered_address <$> m_rows acc)
    /\ Forall (fun r => registered_address r <= previous_address acc) (m_rows acc);
  bd_bindings : (fun r => (m_length r, registered_address r, range_id r, file_offset r, m_physical r)) <$> m_rows acc
    = (fun b => (b_length b, live_address b, predicted_range_id b, predicted_file_offset b, b_physical b)) <$> bindings acc }.

(** Two different canonical rows do not overlap. *)
Lemma canon_rows_disjoint page st al c al' c' : canon_ok page st ->
  dget (by_alias st) al = Some c -> dget (by_alias st) al' = Some c' -> al <> al' ->
  disjoint (row_interval page c) (row_interval page c').
Proof.
  intros [Hi Hd _] H1 H2 Hne. apply dget_Some_elem in H1, H2.
  apply elem_of_Permutation in H1 as [l1 E1]. rewrite E1 in H2.
  apply elem_of_cons in H2 as [H2|H2]; [congruence|]. apply elem_of_Permutation in H2 as [l2 E2].
  apply (Hd c c' (snd <$> l2)). unfold dvals. rewrite E1, E2. done.
Qed.

Lemma sorted_ltb_snoc l x : sorted Z.ltb l -> Forall (fun y => y < x) l -> sorted Z.ltb (l ++ [x]).
Proof.
  induction l as [|a l IH]; simpl; [done|]. intros [Ha Hl] [Hax Hlx]%Forall_cons. split; [|by apply IH].
  apply Forall_app. split; [done|]. constructor; [|done]. lia.
Qed.

Lemma bind_storage_inv page st acc pr acc' : canon_ok page st -> bind_inv page st acc ->
  bind_storage page st acc pr = Ok acc' -> bind_inv page st acc'.
Proof.
  intros Hc [Hidx Hcnt Hst Hb [Ho Hom] Hf Hd Hm [Has Hap] Hbd] H. destruct pr as [s raw]. unfold bind_storage in H. inv_ok.
  match goal with H : of_option _ _ = Ok ?c |- _ => rename H into Hit; rename c into item end.
  match goal with H : _extent _ _ = Ok _ |- _ => pose proof (extent_spec _ _ _ H) as (Hpg & Hpos & Hem & Hext); rename H into He end.
  match goal with H : negb (_ || _) = true |- _ => apply negb_true_iff in H; rewrite !orb_false_iff in H;
    destruct H as ((((((Hnew & _) & Hsz) & Ham) & Hprev) & _) & _) end.
  match goal with H : (offset acc <=? _) = true |- _ => apply Z.leb_le in H; rename H into Hov end.
  apply bool_decide_eq_false in Hnew. apply negb_false_iff, Z.eqb_eq in Hsz, Ham. apply Z.leb_gt in Hprev.
  assert (Hget : dget (by_alias st) x = Some item) by (destruct (dget (by_alias st) x); by simplify_eq/=).
  unfold _extent in He. inv_ok. constructor; cbn [m_rows bindings offset seen_storage previous_address index].
  - rewrite fmap_app, Hidx. csimpl. replace (index acc + 1 - 1) with (index acc - 1 + 1) by lia.
    rewrite seqZ_app by lia. replace (1 + (index acc - 1)) with (index acc) by lia. done.
  - rewrite length_app. simpl. lia.
  - apply NoDup_app. split_and!; [done|set_solver|apply NoDup_singleton].
  - apply Forall2_app; [done|]. constructor; [|done]. exists item. split_and!; [done| |done]. simpl. congruence.
  - split; [lia|]. rewrite Z.add_mod, Hom, Hem by lia. done.
  - apply Forall_app. split.
    + eapply Forall_impl; [exact Hf|]. simpl. intros r (H1' & H2' & H3'). split_and!; try done. lia.
    + constructor; [|done]. unfold file_interval, m_extent. simpl. split_and!; try done; lia.
  - apply pairwise_snoc; [intros r q; apply disjoint_sym|done|]. intros r Hr. right.
    rewrite Forall_forall in Hf. unfold file_interval at 2. simpl. apply (Hf r Hr).
  - apply pairwise_snoc; [intros r q; apply disjoint_sym|done|]. intros r Hr.
    apply list_elem_of_lookup in Hr as [i Hi]. destruct (Forall2_lookup_r _ _ _ _ _ Hb Hi) as (al & Hal & c & Hg & Hl & Hph).
    assert (Hne : x <> al) by (intros ->; apply Hnew; by eapply list_elem_of_lookup_2).
    pose proof (canon_rows_disjoint page st x item al c Hc Hget Hg Hne) as Hdis.
    unfold media_interval, row_interval, m_extent, row_extent in *. simpl. rewrite Hl, Hph. congruence.
  - split.
    + rewrite fmap_app. apply sorted_ltb_snoc; [done|]. apply Forall_fmap. eapply Forall_impl; [exact Hap|].
      simpl. intros r Hr. unfold compose. lia.
    + apply Forall_app. split; [|by constructor]. eapply Forall_impl; [exact Hap|]. simpl. lia.
  - rewrite !fmap_app, Hbd. done.
Qed.

Lemma bind_all_ok page st registered acc : canon_ok page st ->
  foldM (bind_storage page st) registered
    {| m_rows := []; bindings := []; offset := 0; seen_storage := []; seen_address := []; previous_address := -1; index := 1 |}
  = Ok acc -> bind_inv page st acc /\ length (m_rows acc) = length registered.
Proof.
  intros Hc Hf. apply (foldM_Ok_ind (fun done acc => bind_inv page st acc /\ length (m_rows acc) = length done)) in Hf; [done| |].
  - split; [|done]. constructor; simpl; try done; try apply pairwise_nil; constructor.
  - intros done pr todo a1 a2 _ [Hi Hl] Hs. split; [by eapply bind_storage_inv|]. rewrite length_app, <- Hl.
    unfold bind_storage in Hs. destruct pr. inv_ok. cbn [m_rows]. by rewrite length_app.
Qed.

Lemma alias_lists_NoDup {A B} (f : A -> list B) l : (forall x, x ∈ l -> f x <> []) -> NoDup (mjoin (f <$> l)) -> NoDup (f <$> l).
Proof.
  induction l as [|a l IH]; csimpl; intros Hne Hnd; [constructor|]. apply NoDup_app in Hnd as (_ & Hdis & Hnd).
  apply NoDup_cons. split; [|apply IH; [|done]; intros x Hx; apply Hne; set_solver].
  intros (x & E & Hx)%list_elem_of_fmap. destruct (f a) as [|b bs] eqn:Ea; [apply (Hne a); [set_solver|done]|].
  apply (Hdis b); [set_solver|]. apply list_elem_of_join. exists (f x). split; [rewrite <- E; set_solver|].
  by apply list_elem_of_fmap_2.
Qed.

(** ** Correctness *)

(** C28: a canonical layout built from a ledger has 147 placements of 13838323712
    bytes in all with no alias twice; each lies page-aligned inside the region of
    the module its layer names, rounded up to whole pages, and no two overlap. *)
Theorem canonical_layout_sound digest ledger ps : build_canonical_layout digest ledger = Ok ps ->
  Z.of_nat (length ps) = TOTAL_STORAGE_COUNT
  /\ zsum ((fun p => storage_bytes (p_row p)) <$> ps) = TOTAL_STORAGE_BYTES
  /\ NoDup (mjoin ((fun p => aliases (p_row p)) <$> ps))
  /\ (forall p, p ∈ ps ->
        _module_for (aliases (p_row p)) = Ok (stack_id (p_row p), module_id (p_row p))
        /\ 0 <= stack_id (p_row p) < STACK_COUNT /\ 0 <= module_id (p_row p) < MODULES_PER_STACK
        /\ canonical_physical_address p mod PAGE_BYTES = 0 /\ media_extent_bytes p mod PAGE_BYTES = 0
        /\ storage_bytes (p_row p) <= media_extent_bytes p < storage_bytes (p_row p) + PAGE_BYTES
        /\ base (stack_id (p_row p)) (module_id (p_row p)) <= canonical_physical_address p
        /\ canonical_physical_address p + media_extent_bytes p
           <= base (stack_id (p_row p)) (module_id (p_row p)) + MODULE_CAPACITY)
  /\ pairwise (fun p q => disjoint (interval p) (interval q)) ps.
Proof.
  intros [Hc Hb Ha Hp Hd]%build_layout_ok. split_and!; try done. intros p Hin. rewrite Forall_forall in Hp.
  destruct (Hp p Hin) as [[_ Hm _] He Hr Hal]. destruct (module_for_range _ _ _ Hm).
  destruct (extent_spec _ _ _ He) as (_ & _ & Hmod & Hext). destruct Hr. split_and!; try done; lia.
Qed.

(** The document of a built layout passes every check the manifest generator
    makes of it, which recovers each storage's size and address under its
    aliases. *)
Theorem canonical_layout_accepted digest ledger ps d : build_canonical_layout digest ledger = Ok ps ->
  exists st, check_layout PAGE_BYTES (layout_json d ps) = Ok st /\
    forall p, p ∈ ps -> dget (by_alias st) (aliases (p_row p))
      = Some {| c_storage_bytes := storage_bytes (p_row p); c_address := canonical_physical_address p |}.
Proof.
  intros [Hc Hb Ha Hp Hd]%build_layout_ok.
  set (st0 := {| by_alias := []; seen_alias := []; physical := [] |}).
  assert (Hne : forall p, p ∈ ps -> aliases (p_row p) <> []).
  { intros p Hin. rewrite Forall_forall in Hp. destruct (Hp p Hin) as [[[v Hk] _ _] _ _ _]. by apply alias_key_Ok in Hk as (_ & ? & _). }
  pose proof (check_all_accepts ps st0 Hp Ha) as Hf.
  destruct (accept_all ps st0) as [Hby Hph]; [done|intros al Hal; by apply not_elem_of_nil in Hal|done|]. simpl in Hby, Hph.
  assert (Hproper : Forall proper_interval (interval <$> ps)).
  { apply Forall_fmap. eapply Forall_impl; [exact Hp|]. intros p [_ He _ _]. apply extent_spec in He.
    unfold compose, proper_interval, interval. simpl. lia. }
  set (st := foldl accept st0 ps) in *. exists st. split.
  - unfold check_layout, layout_json. cbn [as_dict rbind].
    replace (get_or_none _ "placements") with (VList (placement_json <$> ps)) by done.
    replace (_ && _) with true by done. cbn [ensure rbind]. rewrite length_fmap, Hc, Z.eqb_refl. cbn [ensure rbind].
    fold st0. rewrite Hf. cbn [rbind]. fold st. rewrite Hph, (proj2 (overlapping_isort _ Hproper)) by (by apply pairwise_fmap; [apply _|]).
    cbn [negb ensure rbind]. rewrite Hby. unfold dvals. rewrite <- !list_fmap_compose.
    replace (zsum _) with TOTAL_STORAGE_BYTES by (symmetry; exact Hb). by rewrite Z.eqb_refl.
  - intros p Hin. apply dget_elem; [|rewrite Hby; apply list_elem_of_fmap; by exists p].
    rewrite Hby. unfold dkeys. rewrite <- list_fmap_compose. by apply alias_lists_NoDup.
Qed.

(** A manifest the generator returns has one row per registered storage,
    numbered from one; the rows' file ranges start at page boundaries, follow
    one another without overlap and stay below 2^64; their live addresses are
    strictly increasing; their media ranges are page-aligned, lie inside one
    module's region each and are pairwise disjoint; and the bindings repeat the
    rows. *)
Theorem manifest_sound digest layout registered raw_page ex page rows bs :
  generate_manifest digest layout registered raw_page ex = Ok (rows, bs) -> raw_page = VInt page ->
  length rows = length registered
  /\ range_id <$> rows = seqZ 1 (Z.of_nat (length registered))
  /\ (forall r, r ∈ rows -> file_offset r mod page = 0 /\ 0 <= file_offset r
        /\ file_offset r + m_extent page r <= U64_MAX
        /\ 0 < m_length r <= m_extent page r /\ m_physical r mod page = 0
        /\ exists s m, slot_ok s m /\ base s m <= m_physical r
             /\ m_physical r + m_extent page r <= base s m + MODULE_CAPACITY)
  /\ pairwise (fun r q => disjoint (file_interval page r) (file_interval page q)) rows
  /\ pairwise (fun r q => disjoint (media_interval page r) (media_interval page q)) rows
  /\ sorted Z.ltb (registered_address <$> rows)
  /\ (fun r => (m_length r, registered_address r, range_id r, file_offset r, m_physical r)) <$> rows
     = (fun b => (b_length b, live_address b, predicted_range_id b, predicted_file_offset b, b_physical b)) <$> bs.
Proof.
  intros H ->. unfold generate_manifest in H. inv_ok.
  match goal with H : _integer _ _ _ = Ok _ |- _ => apply integer_Ok_u64 in H as [[= <-] _] end.
  match goal with H : check_layout _ _ = Ok _ |- _ => apply check_layout_ok in H; rename H into Hc end.
  match goal with H : foldM _ _ _ = Ok _ |- _ => apply bind_all_ok in H as [[Hidx Hcnt Hst Hb Ho Hf Hd Hm Ha Hbd] Hl]; [|done] end.
  split_and!; try done.
  - rewrite Hidx. f_equal. lia.
  - intros r Hr. rewrite Forall_forall in Hf. destruct (Hf r Hr) as (H1' & H2' & H3'). unfold file_interval in H3'. simpl in H3'.
    apply list_elem_of_lookup in Hr as [i Hi]. destruct (Forall2_lookup_r _ _ _ _ _ Hb Hi) as (al & _ & c & Hg & Hlen & Hph).
    pose proof (ci_rows _ _ (cn_inv _ _ Hc)) as Hrows. rewrite Forall_forall in Hrows.
    destruct (Hrows c) as [Hby Hal (s & m & Hslot & Hlo & Hhi)].
    { apply list_elem_of_fmap. exists (al, c). split; [done|]. by apply dget_Some_elem. }
    unfold m_extent, row_extent in *. rewrite Hlen, Hph. rewrite Hlen in H3'. split_and!; try done; [lia|lia|lia|]. eauto.
  - apply Ha.
Qed.

(** *** A concrete ledger *)

Definition demo_entry (i : nat) : pyval :=
  VDict [("aliases", VList [VStr ("model.layers." +:+ pretty (i mod 16)%nat +:+ ".w" +:+ pretty i)]);
         ("storage_bytes", VInt (if (i =? 146)%nat then 114323712 else 94000000))].
Definition demo_ledger : pyval :=
  VDict [("schema", VStr "hbfsim.full_coverage_target_ledger.v1"); ("total_storage_count", VInt 147);
         ("total_storage_bytes", VInt 13838323712); ("entries", VList (demo_entry <$> seq 0 147))].
Definition demo_layout : list placement :=
  match build_canonical_layout FROZEN_LEDGER_SHA256 demo_ledger with Ok ps => ps | Raise _ => [] end.
Definition demo_storage (i : nat) (address : Z) : storage * pyval :=
  ({| s_aliases := VList [VStr ("model.layers." +:+ pretty (i mod 16)%nat +:+ ".w" +:+ pretty i)];
      s_address := VInt address; s_size := VInt 94000000 |}, VInt 94000000).
Definition demo_manifest : result (list manifest_row * list binding) :=
  generate_manifest FROZEN_LAYOUT_SHA256 (layout_json FROZEN_LEDGER_SHA256 demo_layout)
    [demo_storage 5 4096; demo_storage 21 200000000] (VInt PAGE_BYTES) false.

Lemma demo_layout_built : build_canonical_layout FROZEN_LEDGER_SHA256 demo_ledger = Ok demo_layout.
Proof. vm_compute. reflexivity. Qed.

Lemma canonical_layout_sound_witness : Z.of_nat (length demo_layout) = TOTAL_STORAGE_COUNT.
Proof. exact (proj1 (canonical_layout_sound FROZEN_LEDGER_SHA256 demo_ledger demo_layout demo_layout_built)). Defined.

Lemma canonical_layout_accepted_witness :
  exists st, check_layout PAGE_BYTES (layout_json FROZEN_LEDGER_SHA256 demo_layout) = Ok st.
Proof.
  destruct (canonical_layout_accepted FROZEN_LEDGER_SHA256 demo_ledger demo_layout FROZEN_LEDGER_SHA256 demo_layout_built)
    as [st [H _]].
  exists st. exact H.
Defined.

Lemma manifest_sound_witness : exists rows bs, demo_manifest = Ok (rows, bs) /\ range_id <$> rows = seqZ 1 2.
Proof.
  assert (H : exists rows bs, demo_manifest = Ok (rows, bs)) by (eexists _, _; vm_compute; reflexivity).
  destruct H as (rows & bs & H). exists rows, bs. split; [exact H|].
  exact (proj1 (proj2 (manifest_sound FROZEN_LAYOUT_SHA256 (layout_json FROZEN_LEDGER_SHA256 demo_layout)
            [demo_storage 5 4096; demo_storage 21 200000000] (VInt PAGE_BYTES) false PAGE_BYTES rows bs H eq_refl))).
Defined.
End UciePlacement.
