(* ===== verification/TopologyConfig.v ===== *)
(** * Topology service configuration

    Model of the configuration part of
    [src/experiments/eq3_system_thermal/topology_service.py]: the default
    engineering configurations of the four topologies and the validation that
    turns a JSON-like document into the configuration of the service.  The
    fabric part is validated by [BasicFabric], as in the source. *)

From S2P Require Import Prelude BasicFabric.

Module TopologyConfig.

Definition NANOSECONDS_PER_SECOND : Z := 1000000000.
Definition WINDOW_NS : Z := 20000000.

Inductive topology := MixedDirect | AllHbfDirect | Relay | Dash.

#[export] Instance topology_eq_dec : EqDecision topology.
Proof. solve_decision. Defined.

Definition topology_name (t : topology) : string :=
  match t with MixedDirect => "mixed_direct" | AllHbfDirect => "all_hbf_direct" | Relay => "relay" | Dash => "dash" end.
Definition TOPOLOGIES : list topology := [MixedDirect; AllHbfDirect; Relay; Dash].

Inductive operation := Read | Retry | RefreshRead | Program | Erase | Migration.

#[export] Instance operation_eq_dec : EqDecision operation.
Proof. solve_decision. Defined.

Definition operation_name (o : operation) : string :=
  match o with
  | Read => "read" | Retry => "retry" | RefreshRead => "refresh_read" | Program => "program"
  | Erase => "erase" | Migration => "migration"
  end.
(** [sorted(OPERATIONS)]. *)
Definition OPERATIONS : list operation := [Erase; Migration; Program; Read; RefreshRead; Retry].
Definition is_read_operation (o : operation) : bool := match o with Read | Retry => true | _ => false end.
Definition is_maintenance_operation (o : operation) : bool := negb (is_read_operation o).

Definition MAINTENANCE_POLICY : string := "LIGHT_SEVERE_EXEMPT_SHUTDOWN_BLOCKED".

(** The member of a set of names equal to a value. *)
Definition lookup_name {A} (name : A -> string) (l : list A) (s : string) : option A :=
  head (filter (fun a => name a = s) l).

(** [value in {...}] for a set of strings: an unhashable value raises. *)
Definition member {A} (name : A -> string) (l : list A) (v : pyval) : result (option A) :=
  match v with
  | VStr s => Ok (lookup_name name l s)
  | VList _ => Raise (TypeError "unhashable type: 'list'")
  | VDict _ => Raise (TypeError "unhashable type: 'dict'")
  | _ => Ok None
  end.

Definition _integer (value : pyval) (label : string) (positive : bool) : result Z :=
  BasicFabric._integer value label positive.
Definition _exact (value : pyval) (keys : list string) (label : string) : result (dict string pyval) :=
  BasicFabric._exact value keys label.

Definition _stage (latency_ns bandwidth_Bps : Z) : pyval :=
  VDict [("latency_ns", VInt latency_ns); ("bandwidth_bytes_per_s", VInt bandwidth_Bps)].

(** A normalized [Fraction]: numerator and denominator in lowest terms. *)
Record fraction := { numerator : Z; denominator : Z }.
Definition Fraction (n d : Z) : fraction :=
  {| numerator := n / Z.gcd n d; denominator := d / Z.gcd n d |}.

Definition media_cost_from_service_rate (read_equivalent_Bps operation_payload_Bps : pyval) : result fraction :=
  let? read_rate := _integer read_equivalent_Bps "read_equivalent_Bps" true in
  let? operation_rate := _integer operation_payload_Bps "operation_payload_Bps" true in
  Ok (Fraction read_rate operation_rate).

(** ** Default configurations *)

Definition default_hbf (paired : bool) (i : nat) : string * pyval :=
  ("hbf" +:+ pretty i, VDict [
     ("pair", if paired then VStr ("hbm" +:+ pretty i) else VNone);
     ("bank_count", VInt 2); ("bank_capacity_bytes", VInt (8 * 1024 * 1024));
     ("fill", _stage 10 2048000000000); ("direct_link", _stage 10 2048000000000);
     ("relay_link", if paired then _stage 10 2048000000000 else VNone)]).

Definition default_hbm (i : nat) : string * pyval :=
  ("hbm" +:+ pretty i, VDict [
     ("bank_count", VInt 2); ("bank_capacity_bytes", VInt (4 * 1024 * 1024)); ("gpu_link", _stage 10 2048000000000)]).

Definition default_dash_route (channel : nat) : string * pyval :=
  (pretty channel, VStr (if (channel mod 2 =? 0)%nat then "direct" else "relay")).

Definition default_config (t : pyval) (stack_count : option Z) : result pyval :=
  let? o := member topology_name TOPOLOGIES t in
  let? topo := of_option (ValueError "unknown topology") o in
  let expected := if decide (topo = AllHbfDirect) then 8 else 4 in
  let? _ := ensure (default expected stack_count =? expected)
              (ValueError (topology_name topo +:+ " requires " +:+ pretty expected +:+ " HBF stacks in the v1 fixture")) in
  let paired := match topo with Relay | Dash => true | _ => false end in
  let hbm_count := if decide (topo = AllHbfDirect) then 0%nat else 4%nat in
  let hbf := default_hbf paired <$> seq 0 (Z.to_nat expected) in
  let hbm := default_hbm <$> seq 0 hbm_count in
  let all_stacks := isort sle (remove_dups ((hbf ++ hbm).*1)) in
  let channels := (fun stack => (stack, VDict ((fun c => (pretty c, VInt 96000000000)) <$> seq 0 16))) <$> all_stacks in
  let dash_routes := if decide (topo = Dash)
                     then (fun row => (row.1, VDict (default_dash_route <$> seq 0 16))) <$> hbf else [] in
  Ok (VDict [
    ("schema_version", VStr "eq3-topology-fluid-config-v1"); ("evidence", VStr "SCENARIO_ASSUMPTION");
    ("topology", VStr (topology_name topo)); ("window_ns", VInt WINDOW_NS);
    ("fabric", VDict [("evidence", VStr "SCENARIO_ASSUMPTION"); ("hbf", VDict hbf); ("hbm", VDict hbm)]);
    ("channels", VDict channels); ("dash_routes", VDict dash_routes);
    ("operation_media_cost", VDict ((fun o => (operation_name o, VDict [("numerator", VInt 1); ("denominator", VInt 1)]))
                                    <$> OPERATIONS));
    ("operation_cost_evidence", VStr "ENGINEERING_FIXTURE_DEFAULT_ONE_FORMAL_PROFILE_MUST_OVERRIDE");
    ("maintenance_guard_policy", VStr MAINTENANCE_POLICY)]).

(** ** Validation *)

Definition _lcm (left right : Z) : Z := left * right / Z.gcd left right.

Record config := {
  topo : topology; fabric : BasicFabric.config; channels : dict string (dict string Z);
  dash_routes : dict string (dict string BasicFabric.route);
  cost : dict operation fraction; work_scale : Z }.

Definition eq_str (v : pyval) (s : string) : bool := match v with VStr x => String.eqb x s | _ => false end.

(** [sorted(raw.items())] checked to positive rates. *)
Definition normalize_channels (raw_channels : dict string pyval) (stack : string) : result (string * dict string Z) :=
  let? raw := dindex raw_channels stack in
  match raw with
  | VDict (item :: items) =>
      let? rates := foldM (fun acc '(channel, rate) =>
          let? _ := ensure (negb (String.eqb channel "")) (ValueError "channel IDs must be nonempty strings") in
          let? z := _integer rate ("channels." +:+ stack +:+ "." +:+ channel) true in
          Ok (dset acc channel z)) (BasicFabric.sorted_items (item :: items)) [] in
      Ok (stack, rates)
  | _ => Raise (ValueError ("channels." +:+ stack +:+ " must be nonempty"))
  end.

(** [set(value)] of an arbitrary value, as far as it consists of strings. *)
Definition key_set (v : pyval) : result (list (option string)) :=
  match v with
  | VDict d => Ok (Some <$> dkeys d)
  | VStr s => Ok ((fun c => Some (String c EmptyString)) <$> String.list_ascii_of_string s)
  | VList l => mapR (fun x => match x with
                              | VStr s => Ok (Some s)
                              | VList _ | VDict _ => Raise (TypeError "unhashable type")
                              | _ => Ok None
                              end) l
  | _ => Raise (TypeError "object is not iterable")
  end.

Definition route_name (r : BasicFabric.route) : string :=
  match r with BasicFabric.Direct => "direct" | BasicFabric.Relay => "relay" end.
Definition ROUTES : list BasicFabric.route := [BasicFabric.Direct; BasicFabric.Relay].

(** The routes of one HBF stack in the DASH topology. *)
Definition normalize_dash (raw_routes : dict string pyval) (chans : dict string (dict string Z)) (stack : string) :
    result (string * dict string BasicFabric.route) :=
  let? raw := dindex raw_routes stack in
  let? own := dindex chans stack in
  let? keys := key_set raw in
  let? _ := ensure (same_set keys (Some <$> dkeys own)) (ValueError "DASH routes must exactly cover HBF channels") in
  match raw with
  | VDict d =>
      let? routes := mapR (fun '(channel, v) => let? r := member route_name ROUTES v in Ok (channel, r)) d in
      let? routes := mapR (fun '(channel, r) =>
          let? r := of_option (ValueError "DASH channel route must be direct or relay") r in Ok (channel, r)) routes in
      Ok (stack, routes)
  | _ => Raise (AttributeError "object has no attribute 'values'")
  end.

Definition normalize_cost (costs : dict string pyval) (acc : dict operation fraction * Z) (o : operation) :
    result (dict operation fraction * Z) :=
  let '(normalized, scale) := acc in
  let? raw := dindex costs (operation_name o) in
  let? row := _exact raw ["numerator"; "denominator"] ("cost." +:+ operation_name o) in
  let? raw_numerator := dindex row "numerator" in
  let? n := _integer raw_numerator ("cost." +:+ operation_name o +:+ ".numerator") true in
  let? raw_denominator := dindex row "denominator" in
  let? d := _integer raw_denominator ("cost." +:+ operation_name o +:+ ".denominator") true in
  let value := Fraction n d in
  Ok (dset normalized o value, _lcm scale (denominator value)).

Definition has_pair (item : string * BasicFabric.hbf_config) : bool :=
  match BasicFabric.pair item.2 with Some _ => true | None => false end.

(** The checks of the pairs against the topology. *)
Definition check_pairs (topo : topology) (f : BasicFabric.config) : result unit :=
  let hbf := BasicFabric.cfg_hbf f in
  let no_hbm := match BasicFabric.cfg_hbm f with [] => true | _ => false end in
  match topo with
  | AllHbfDirect =>
      let? _ := ensure no_hbm (ValueError "all_hbf_direct cannot contain in-package HBM") in
      ensure (negb (existsb has_pair hbf)) (ValueError "direct topologies cannot silently configure relay pairs")
  | MixedDirect =>
      ensure (negb (existsb has_pair hbf)) (ValueError "direct topologies cannot silently configure relay pairs")
  | Relay | Dash =>
      ensure (negb (no_hbm || existsb (fun r => negb (has_pair r)) hbf))
        (ValueError "relay and DASH require explicit HBF/HBM pairs")
  end.

(** [set(hbf) | set(hbm)], sorted. *)
Definition all_stacks (f : BasicFabric.config) : list string :=
  isort sle (remove_dups (dkeys (BasicFabric.cfg_hbf f) ++ dkeys (BasicFabric.cfg_hbm f))).

Definition CONFIG_KEYS : list string :=
  ["schema_version"; "evidence"; "topology"; "window_ns"; "fabric"; "channels"; "dash_routes";
   "operation_media_cost"; "operation_cost_evidence"; "maintenance_guard_policy"].

Definition _normalize (value : pyval) : result config :=
  let? d := _exact value CONFIG_KEYS "config" in
  let field key := dget_or d key VNone in
  let? _ := ensure (eq_str (field "schema_version") "eq3-topology-fluid-config-v1")
              (ValueError "unsupported topology fluid config schema") in
  let? _ := ensure (eq_str (field "evidence") "SCENARIO_ASSUMPTION")
              (ValueError "topology fluid parameters must remain SCENARIO_ASSUMPTION") in
  let? o := member topology_name TOPOLOGIES (field "topology") in
  let? topo := of_option (ValueError "unsupported topology") o in
  let? w := _integer (field "window_ns") "window_ns" true in
  let? _ := ensure (w =? WINDOW_NS) (ValueError "v1 requires a 20 ms window") in
  let? _ := ensure (eq_str (field "maintenance_guard_policy") MAINTENANCE_POLICY)
              (ValueError "maintenance guard policy differs from the preserved contract") in
  let? f := BasicFabric._normalize (field "fabric") in
  let? _ := check_pairs topo f in
  let stacks := all_stacks f in
  let? raw_channels := match field "channels" with
                       | VDict c => let? _ := ensure (same_set (dkeys c) stacks)
                           (ValueError "channels must exactly cover configured HBF and HBM stacks") in Ok c
                       | _ => Raise (ValueError "channels must exactly cover configured HBF and HBM stacks")
                       end in
  let? chans := mapR (normalize_channels raw_channels) stacks in
  let? routes :=
    match topo, field "dash_routes" with
    | Dash, VDict r =>
        let? _ := ensure (same_set (dkeys r) (dkeys (BasicFabric.cfg_hbf f)))
                    (ValueError "DASH routes must exactly cover HBF stacks") in
        mapR (normalize_dash r chans) (dkeys (BasicFabric.cfg_hbf f))
    | Dash, _ => Raise (ValueError "DASH routes must exactly cover HBF stacks")
    | _, VDict [] => Ok []
    | _, _ => Raise (ValueError "dash_routes must be empty outside DASH topology")
    end in
  let? costs := match field "operation_media_cost" with
                | VDict c => let? _ := ensure (same_set (dkeys c) (operation_name <$> OPERATIONS))
                    (ValueError "operation_media_cost must exactly cover supported operations") in Ok c
                | _ => Raise (ValueError "operation_media_cost must exactly cover supported operations")
                end in
  let? (cost, scale) := foldM (normalize_cost costs) OPERATIONS ([], 1) in
  let? _ := ensure (scale <=? 1000000) (ValueError "operation media-cost denominator scale is too large") in
  Ok {| topo := topo; fabric := f; channels := chans; dash_routes := routes; cost := cost; work_scale := scale |}.

(** ** Validated configurations *)

Record cost_ok (scale : Z) (f : fraction) : Prop := {
  ck_numerator : 0 < numerator f; ck_denominator : 0 < denominator f; ck_divides : (denominator f | scale) }.

Record cfg_ok (c : config) : Prop := {
  co_fabric : BasicFabric.config_ok (fabric c);
  co_stacks : dkeys (channels c) = all_stacks (fabric c);
  co_rates : forall st row, dget (channels c) st = Some row ->
    NoDup (dkeys row) /\ forall ch rate, dget row ch = Some rate -> 0 < rate;
  co_paired : topo c = Relay \/ topo c = Dash ->
    forall st row, dget (BasicFabric.cfg_hbf (fabric c)) st = Some row -> is_Some (BasicFabric.pair row);
  co_dash : topo c = Dash -> forall st own, st ∈ dkeys (BasicFabric.cfg_hbf (fabric c)) -> dget (channels c) st = Some own ->
    exists routes, dget (dash_routes c) st = Some routes /\ forall ch, ch ∈ dkeys own -> ch ∈ dkeys routes;
  co_cost : forall o, exists f, dget (cost c) o = Some f /\ cost_ok (work_scale c) f;
  co_scale : 0 < work_scale c <= 1000000 }.

Lemma all_stacks_elem f st :
  st ∈ all_stacks f <-> st ∈ dkeys (BasicFabric.cfg_hbf f) \/ st ∈ dkeys (BasicFabric.cfg_hbm f).
Proof. unfold all_stacks. rewrite isort_elem, elem_of_remove_dups, elem_of_app. done. Qed.

Lemma all_stacks_NoDup f : NoDup (all_stacks f).
Proof. unfold all_stacks. rewrite isort_perm. apply NoDup_remove_dups. Qed.

Lemma Fraction_pos n d : 0 < n -> 0 < d -> 0 < numerator (Fraction n d) /\ 0 < denominator (Fraction n d).
Proof.
  intros Hn Hd. unfold Fraction. simpl.
  assert (Hg : 0 < Z.gcd n d).
  { pose proof (Z.gcd_nonneg n d). assert (Z.gcd n d <> 0) by (intros E; apply Z.gcd_eq_0 in E; lia). lia. }
  split; apply Z.div_str_pos; split; try done; apply Z.divide_pos_le; try done;
    [apply Z.gcd_divide_l|apply Z.gcd_divide_r].
Qed.

Lemma lcm_spec a b : 0 < a -> 0 < b -> 0 < _lcm a b /\ (a | _lcm a b) /\ (b | _lcm a b).
Proof.
  intros Ha Hb. unfold _lcm.
  assert (Hg : 0 < Z.gcd a b).
  { pose proof (Z.gcd_nonneg a b). assert (Z.gcd a b <> 0) by (intros E; apply Z.gcd_eq_0 in E; lia). lia. }
  destruct (Z.gcd_divide_l a b) as [x Hx], (Z.gcd_divide_r a b) as [y Hy].
  assert (E : a * b / Z.gcd a b = a * y).
  { rewrite Hy at 1. rewrite Z.mul_assoc. by apply Z.div_mul; lia. }
  rewrite E. assert (0 < y) by nia. split; [nia|]. split; [by exists y; lia|].
  exists x. rewrite Hx at 1. rewrite Hy at 2. ring.
Qed.

Lemma cost_ok_weaken s s' f : cost_ok s f -> (s | s') -> cost_ok s' f.
Proof. intros [H1 H2 H3] Hd. constructor; try done. by etrans. Qed.

Lemma normalize_cost_spec costs acc o acc' :
  0 < acc.2 -> (forall o' f, dget acc.1 o' = Some f -> cost_ok acc.2 f) -> normalize_cost costs acc o = Ok acc' ->
  0 < acc'.2 /\ (forall o' f, dget acc'.1 o' = Some f -> cost_ok acc'.2 f) /\
  dkeys acc'.1 = dkeys (dset acc.1 o (Fraction 1 1)).
Proof.
  destruct acc as [normalized scale]. simpl. intros Hs Hok H. inv_ok. cbn [fst snd].
  repeat match goal with H : _integer _ _ _ = Ok _ |- _ => apply BasicFabric.integer_Ok in H as [_ H] end.
  match goal with |- context [Fraction ?n ?d] => destruct (Fraction_pos n d) as [Hn Hd]; [lia|lia|]; set (v := Fraction n d) in * end.
  destruct (lcm_spec scale (denominator v) Hs Hd) as (Hl1 & Hl2 & Hl3). split; [done|]. split.
  - intros o' f. rewrite dget_dset. case_decide; [intros [= <-]; by constructor|].
    intros Hf. eapply cost_ok_weaken; eauto.
  - destruct (decide (o ∈ dkeys normalized)); [by rewrite !dkeys_dset_in|].
    rewrite !dkeys_dset_notin by done. unfold dkeys. by rewrite !fmap_app.
Qed.

Lemma normalize_costs_spec costs cost scale : foldM (normalize_cost costs) OPERATIONS ([], 1) = Ok (cost, scale) ->
  0 < scale /\ forall o, exists f, dget cost o = Some f /\ cost_ok scale f.
Proof.
  intros H.
  pose proof (foldM_Ok_ind (fun l acc => 0 < acc.2 /\ (forall o f, dget acc.1 o = Some f -> cost_ok acc.2 f) /\
                              (forall o, o ∈ l -> o ∈ dkeys acc.1))
    (normalize_cost costs) OPERATIONS ([], 1) (cost, scale)) as Hind.
  destruct Hind as (H1 & H2 & H3); [split_and!; simpl; [lia|done|set_solver]| |done|].
  - intros l x todo a1 a2 _ (Hs & Hok & Hk) E. destruct (normalize_cost_spec _ _ _ _ Hs Hok E) as (Hs' & Hok' & Hk').
    split_and!; [done|done|]. intros o Ho. rewrite Hk'. apply elem_dkeys_dset. apply elem_of_app in Ho as [Ho|Ho]; [by right; apply Hk|].
    left. set_solver.
  - split; [done|]. intros o. assert (Ho : o ∈ OPERATIONS) by (destruct o; unfold OPERATIONS; set_solver).
    destruct (proj2 (dget_is_Some cost o) (H3 o Ho)) as [f Hf]. exists f. split; [done|]. by apply (H2 o).
Qed.

Lemma normalize_channels_spec raw st st' row : normalize_channels raw st = Ok (st', row) ->
  st' = st /\ NoDup (dkeys row) /\ forall ch rate, dget row ch = Some rate -> 0 < rate.
Proof.
  unfold normalize_channels. intros H. inv_ok.
  match goal with H : match ?x with _ => _ end = Ok _ |- _ => destruct x as [| | | | | |[|item items]]; try discriminate H end.
  inv_ok. split; [done|].
  match goal with H : foldM _ _ _ = Ok _ |- _ => revert H end.
  apply (foldM_Ok_ind (fun _ acc => NoDup (dkeys acc) /\ forall ch rate, dget acc ch = Some rate -> 0 < rate)).
  { split; [constructor|done]. }
  intros l [ch v] todo a1 a2 _ [Hn Hr] E. inv_ok.
  match goal with H : _integer _ _ _ = Ok _ |- _ => apply BasicFabric.integer_Ok in H as [_ H] end.
  split; [by apply NoDup_dkeys_dset|]. intros ch' rate. rewrite dget_dset. case_decide; [intros [= <-]; lia|apply Hr].
Qed.


Lemma same_set_elem {A} `{EqDecision A} (xs ys : list A) x : same_set xs ys = true -> x ∈ xs <-> x ∈ ys.
Proof. unfold same_set. intros H. inv_ok. rewrite !Forall_forall in *. naive_solver. Qed.

Lemma normalize_dash_spec raw chans st st' routes : normalize_dash raw chans st = Ok (st', routes) ->
  st' = st /\ forall own ch, dget chans st = Some own -> ch ∈ dkeys own -> ch ∈ dkeys routes.
Proof.
  unfold normalize_dash. intros H. inv_ok.
  match goal with H : match ?x with _ => _ end = Ok _ |- _ => destruct x as [| | | | | |d]; try discriminate H end.
  inv_ok. split; [done|]. intros own ch Hown Hch.
  repeat match goal with H : dindex _ _ = Ok _ |- _ => apply dindex_Ok in H end. simplify_eq.
  match goal with Hk : key_set _ = Ok _, Hs : same_set _ _ = true |- _ => simpl in Hk; inv_ok; rename Hs into Hss end.
  assert (Hd : ch ∈ dkeys d).
  { assert (Hin : Some ch ∈ Some <$> dkeys d).
    { apply (same_set_elem _ _ _ Hss). by apply list_elem_of_fmap_2. }
    apply list_elem_of_fmap in Hin as (? & [= <-] & ?). done. }
  match goal with H1 : mapR _ d = Ok ?m, H2 : mapR _ ?m = Ok _ |- _ =>
    apply (mapR_keys fst) in H1; [apply (mapR_keys fst) in H2; [|intros [? ?] ? ? ?; by inv_ok]|intros [? ?] ? ? ?; by inv_ok] end.
  unfold dkeys in *. congruence.
Qed.

Lemma check_pairs_spec t f : check_pairs t f = Ok tt -> t = Relay \/ t = Dash ->
  forall st row, dget (BasicFabric.cfg_hbf f) st = Some row -> is_Some (BasicFabric.pair row).
Proof.
  intros H Ht st row Hrow. assert (Hb : existsb (fun r => negb (has_pair r)) (BasicFabric.cfg_hbf f) = false).
  { destruct Ht as [-> | ->]; simpl in H; inv_ok; match goal with H : negb _ = true |- _ => apply negb_true_iff, orb_false_iff in H; by destruct H end. }
  apply not_eq_None_Some. intros E.
  assert (Ht' : existsb (fun r => negb (has_pair r)) (BasicFabric.cfg_hbf f) = true); [|congruence].
  apply existsb_exists. exists (st, row). split; [by apply list_elem_of_In, dget_Some_elem|]. unfold has_pair. simpl. by rewrite E.
Qed.

(** Every accepted document is a sound configuration. *)
Lemma normalize_spec v c : _normalize v = Ok c -> cfg_ok c.
Proof.
  intros H. unfold _normalize in H. inv_ok.
  match goal with x : (dict operation fraction * Z)%type |- _ => destruct x as [cost scale] end. inv_ok.
  match goal with H : BasicFabric._normalize _ = Ok _ |- _ => apply BasicFabric.normalize_ok in H as Hfab end.
  match goal with H : foldM (normalize_cost _) _ _ = Ok _ |- _ => apply normalize_costs_spec in H as [Hscale Hcost] end.
  match goal with H : check_pairs _ _ = Ok ?u |- _ => destruct u; rename H into Hpairs end.
  match goal with H : mapR (normalize_channels _) _ = Ok ?x |- _ => rename H into Hch; rename x into chans end.
  match goal with H : match ?t with MixedDirect => _ | _ => _ end = Ok ?x |- _ => rename H into Hdash; rename x into routes; rename t into tp end.
  match goal with f : BasicFabric.config |- _ => rename f into fab end.
  assert (Hkeys : dkeys chans = all_stacks fab).
  { apply (mapR_keys id) in Hch; [by rewrite list_fmap_id in Hch|]. intros st st' row E. by apply normalize_channels_spec in E as [-> _]. }
  constructor; cbn [topo fabric channels dash_routes TopologyConfig.cost work_scale]; try done.
  - intros st row Hrow%dget_Some_elem. destruct (mapR_elem _ _ _ _ Hch Hrow) as (st0 & _ & E).
    by apply normalize_channels_spec in E as (_ & ?).
  - by apply check_pairs_spec.
  - intros -> st own Hst Hown.
    match type of Hdash with match ?v with _ => _ end = Ok _ => destruct v as [| | | | | |r]; try discriminate Hdash end.
    apply bind_Ok in Hdash as (? & _ & Hm).
    assert (Hk : dkeys routes = dkeys (BasicFabric.cfg_hbf fab)).
    { apply (mapR_keys id) in Hm; [by rewrite list_fmap_id in Hm|]. intros a b d E. by apply normalize_dash_spec in E as [-> _]. }
    destruct (proj2 (dget_is_Some routes st)) as [rs Hrs]; [by rewrite Hk|]. exists rs. split; [done|].
    apply dget_Some_elem in Hrs. destruct (mapR_elem _ _ _ _ Hm Hrs) as (st0 & _ & E).
    apply normalize_dash_spec in E as [-> E]. intros ch. by apply E.
  - split; [done|]. lia.
Qed.

(** ** The default configurations *)

(** For each of the four topologies [default_config] yields a document that
    [_normalize] accepts, with the requested topology, 16 channels of
    96 GB/s per stack and unit operation costs; a stack count other than the
    fixture's is refused. *)
Theorem default_config_accepted (t : topology) :
  (exists v c, default_config (VStr (topology_name t)) None = Ok v /\ _normalize v = Ok c /\ topo c = t /\
     work_scale c = 1 /\ (forall st row, dget (channels c) st = Some row -> dvals row = replicate 16 96000000000) /\
     (forall o, dget (cost c) o = Some {| numerator := 1; denominator := 1 |})) /\
  (forall n, n <> (if decide (t = AllHbfDirect) then 8 else 4) ->
     is_ok (default_config (VStr (topology_name t)) (Some n)) = false).
Proof.
  split.
  - destruct t; (eexists _, _; split; [vm_compute; reflexivity|]; split; [vm_compute; reflexivity|];
      split; [reflexivity|]; split; [reflexivity|]; split; [|by intros []]);
      (intros st row Hrow%dget_Some_elem; cbn [channels] in Hrow;
       repeat (apply elem_of_cons in Hrow as [[= -> ->]|Hrow]; [reflexivity|]); by apply not_elem_of_nil in Hrow).
  - intros n Hn. destruct t; unfold default_config; cbn [member topology_name]; 
      (match goal with |- context [lookup_name ?f ?l ?s] =>
         let x := eval vm_compute in (lookup_name f l s) in change (lookup_name f l s) with x end);
      cbn [rbind of_option default]; (rewrite (proj2 (Z.eqb_neq n _)); [done|]);
      revert Hn; by vm_compute.
Qed.

Lemma default_config_accepted_witness : exists v c, default_config (VStr "dash") None = Ok v /\ _normalize v = Ok c /\ topo c = Dash.
Proof.
  destruct (default_config_accepted Dash) as [(v & c & H1 & H2 & H3 & _) _]. exists v, c. exact (conj H1 (conj H2 H3)).
Defined.
End TopologyConfig.
