(* ===== verification/TopologyService.v ===== *)
(** * The aggregated topology service

    Model of [TopologyService] of
    [src/experiments/eq3_system_thermal/topology_service.py]: byte cohorts of
    many jobs share media channels, fabric links and endpoint budgets over fixed
    windows.  Job objects are shared by reference in the source: they are stored
    once, under their identifier, and queues, heaps and allocations hold
    identifiers. *)

From S2P Require Import Prelude BasicFabric TopologyConfig.

Module TopologyService.
Import TopologyConfig.

Notation route := BasicFabric.route.
Notation stage := BasicFabric.stage.

Record job := {
  job_id : string; stack : string; channel : string; op : operation; job_route : option route;
  arrival_ns : Z; total_bytes : Z; admission_remaining_bytes : Z; completed_bytes : Z; sequence : Z;
  foreground : bool; external : bool; maintenance_id : option string; metadata : pyval;
  first_service_ns : option Z; last_service_ns : option Z; completion_ns : option Z; pending_batches : Z }.

Notation key := (prod string string).
(** Heap entries [(completion, sequence, job, bytes)]. *)
Notation batch := (prod (prod (prod Z Z) string) Z).

Record service := {
  cfg : config; now : Z; next_sequence : Z; auto_id : Z; jobs : gmap string job;
  known_ids : gset string; external_active : gset string; queues : dict key (list string);
  inflight : list batch; completion_ids_seen : gset string; maintenance_ids_seen : gset string;
  cumulative_offered : gmap key Z; cumulative_completed : gmap key Z; foreground_backlog : gmap key Z }.

(** The keys of [self._queues], in the order of the configuration. *)
Definition channel_keys (c : config) : list key := '(s, m) ← channels c; pair s <$> dkeys m.
Definition zero_map (l : list key) : gmap key Z := list_to_map ((fun k => (k, 0)) <$> l).

Definition init (value : pyval) : result service :=
  let? c := _normalize value in
  let keys := channel_keys c in
  Ok {| cfg := c; now := 0; next_sequence := 0; auto_id := 0; jobs := ∅; known_ids := ∅; external_active := ∅;
        queues := (fun k => (k, [])) <$> keys; inflight := []; completion_ids_seen := ∅; maintenance_ids_seen := ∅;
        cumulative_offered := zero_map keys; cumulative_completed := zero_map keys; foreground_backlog := zero_map keys |}.

(** ** Field updates *)

Definition set_jobs (m : gmap string job) (s : service) : service :=
  {| cfg := cfg s; now := now s; next_sequence := next_sequence s; auto_id := auto_id s; jobs := m;
     known_ids := known_ids s; external_active := external_active s; queues := queues s; inflight := inflight s;
     completion_ids_seen := completion_ids_seen s; maintenance_ids_seen := maintenance_ids_seen s;
     cumulative_offered := cumulative_offered s; cumulative_completed := cumulative_completed s;
     foreground_backlog := foreground_backlog s |}.
Definition set_queues (q : dict key (list string)) (s : service) : service :=
  {| cfg := cfg s; now := now s; next_sequence := next_sequence s; auto_id := auto_id s; jobs := jobs s;
     known_ids := known_ids s; external_active := external_active s; queues := q; inflight := inflight s;
     completion_ids_seen := completion_ids_seen s; maintenance_ids_seen := maintenance_ids_seen s;
     cumulative_offered := cumulative_offered s; cumulative_completed := cumulative_completed s;
     foreground_backlog := foreground_backlog s |}.
Definition set_inflight (l : list batch) (s : service) : service :=
  {| cfg := cfg s; now := now s; next_sequence := next_sequence s; auto_id := auto_id s; jobs := jobs s;
     known_ids := known_ids s; external_active := external_active s; queues := queues s; inflight := l;
     completion_ids_seen := completion_ids_seen s; maintenance_ids_seen := maintenance_ids_seen s;
     cumulative_offered := cumulative_offered s; cumulative_completed := cumulative_completed s;
     foreground_backlog := foreground_backlog s |}.
Definition set_auto_id (n : Z) (s : service) : service :=
  {| cfg := cfg s; now := now s; next_sequence := next_sequence s; auto_id := n; jobs := jobs s;
     known_ids := known_ids s; external_active := external_active s; queues := queues s; inflight := inflight s;
     completion_ids_seen := completion_ids_seen s; maintenance_ids_seen := maintenance_ids_seen s;
     cumulative_offered := cumulative_offered s; cumulative_completed := cumulative_completed s;
     foreground_backlog := foreground_backlog s |}.
Definition bump_sequence (s : service) : service :=
  {| cfg := cfg s; now := now s; next_sequence := next_sequence s + 1; auto_id := auto_id s; jobs := jobs s;
     known_ids := known_ids s; external_active := external_active s; queues := queues s; inflight := inflight s;
     completion_ids_seen := completion_ids_seen s; maintenance_ids_seen := maintenance_ids_seen s;
     cumulative_offered := cumulative_offered s; cumulative_completed := cumulative_completed s;
     foreground_backlog := foreground_backlog s |}.
Definition set_now (t : Z) (s : service) : service :=
  {| cfg := cfg s; now := t; next_sequence := next_sequence s; auto_id := auto_id s; jobs := jobs s;
     known_ids := known_ids s; external_active := external_active s; queues := queues s; inflight := inflight s;
     completion_ids_seen := completion_ids_seen s; maintenance_ids_seen := maintenance_ids_seen s;
     cumulative_offered := cumulative_offered s; cumulative_completed := cumulative_completed s;
     foreground_backlog := foreground_backlog s |}.

Definition with_remaining (z : Z) (j : job) : job :=
  {| job_id := job_id j; stack := stack j; channel := channel j; op := op j; job_route := job_route j;
     arrival_ns := arrival_ns j; total_bytes := total_bytes j; admission_remaining_bytes := z;
     completed_bytes := completed_bytes j; sequence := sequence j; foreground := foreground j; external := external j;
     maintenance_id := maintenance_id j; metadata := metadata j; first_service_ns := first_service_ns j;
     last_service_ns := last_service_ns j; completion_ns := completion_ns j; pending_batches := pending_batches j |}.
(** A batch of the job was admitted in a window. *)
Definition with_batch (service_start end_ns : Z) (j : job) : job :=
  {| job_id := job_id j; stack := stack j; channel := channel j; op := op j; job_route := job_route j;
     arrival_ns := arrival_ns j; total_bytes := total_bytes j; admission_remaining_bytes := admission_remaining_bytes j;
     completed_bytes := completed_bytes j; sequence := sequence j; foreground := foreground j; external := external j;
     maintenance_id := maintenance_id j; metadata := metadata j;
     first_service_ns := Some (default service_start (first_service_ns j)); last_service_ns := Some end_ns;
     completion_ns := completion_ns j; pending_batches := pending_batches j + 1 |}.
(** A batch of the job was completed. *)
Definition without_batch (byte_count : Z) (j : job) : job :=
  {| job_id := job_id j; stack := stack j; channel := channel j; op := op j; job_route := job_route j;
     arrival_ns := arrival_ns j; total_bytes := total_bytes j; admission_remaining_bytes := admission_remaining_bytes j;
     completed_bytes := completed_bytes j + byte_count; sequence := sequence j; foreground := foreground j;
     external := external j; maintenance_id := maintenance_id j; metadata := metadata j;
     first_service_ns := first_service_ns j; last_service_ns := last_service_ns j; completion_ns := completion_ns j;
     pending_batches := pending_batches j - 1 |}.
Definition with_completion (t : Z) (j : job) : job :=
  {| job_id := job_id j; stack := stack j; channel := channel j; op := op j; job_route := job_route j;
     arrival_ns := arrival_ns j; total_bytes := total_bytes j; admission_remaining_bytes := admission_remaining_bytes j;
     completed_bytes := completed_bytes j; sequence := sequence j; foreground := foreground j; external := external j;
     maintenance_id := maintenance_id j; metadata := metadata j; first_service_ns := first_service_ns j;
     last_service_ns := last_service_ns j; completion_ns := Some t; pending_batches := pending_batches j |}.

(** ** Routes *)

(** A value used as a dictionary key: a string, another hashable, or an error. *)
Definition as_key (v : pyval) : result (option string) :=
  match v with
  | VStr s => Ok (Some s)
  | VList _ => Raise (TypeError "unhashable type: 'list'")
  | VDict _ => Raise (TypeError "unhashable type: 'dict'")
  | _ => Ok None
  end.

Definition is_hbm (c : config) (s : string) : bool := dmem (BasicFabric.cfg_hbm (fabric c)) s.
Definition is_hbf (c : config) (s : string) : bool := dmem (BasicFabric.cfg_hbf (fabric c)) s.

Definition _default_route (c : config) (raw_stack raw_channel : pyval) : result route :=
  let? s := as_key raw_stack in
  if match s with Some s => is_hbm c s | None => false end then Ok BasicFabric.Direct else
  match topo c with
  | MixedDirect | AllHbfDirect => Ok BasicFabric.Direct
  | Relay => Ok BasicFabric.Relay
  | Dash =>
      let? rows := match s with Some s => dindex (dash_routes c) s | None => Raise (KeyError "") end in
      let? ch := as_key raw_channel in
      match ch with Some ch => dindex rows ch | None => Raise (KeyError "") end
  end.

Definition _validate_route (c : config) (s ch : string) (raw : pyval) : result route :=
  let? expected := _default_route c (VStr s) (VStr ch) in
  if is_hbm c s then
    let? _ := ensure (eq_str raw "direct") (ValueError "HBM local work must use direct route") in Ok BasicFabric.Direct
  else
    match topo c with
    | Dash =>
        let? o := member route_name ROUTES raw in
        of_option (ValueError "DASH HBF work must use direct or relay route") o
    | _ =>
        let? _ := ensure (eq_str raw (route_name expected)) (ValueError "route differs from topology") in Ok expected
    end.

(** [d[k] += n]. *)
Definition gadd (m : gmap key Z) (k : key) (n : Z) : result (gmap key Z) :=
  let? v := of_option (KeyError "") (m !! k) in Ok (<[k := v + n]> m).

(** ** New jobs *)

Definition fresh_id (s : service) (v : pyval) : result string :=
  match v with
  | VStr id =>
      let? _ := ensure (negb (String.eqb id "") && negb (bool_decide (id ∈ known_ids s)))
                  (ValueError "job_id must be a new nonempty string") in
      Ok id
  | _ => Raise (ValueError "job_id must be a new nonempty string")
  end.

(** [stack not in channels or channel not in channels[stack]]. *)
Definition known_channel (c : config) (raw_stack raw_channel : pyval) : result key :=
  let error := ValueError "job names an unknown stack/channel" in
  let? s := as_key raw_stack in
  let? s := of_option error s in
  let? row := of_option error (dget (channels c) s) in
  let? ch := as_key raw_channel in
  let? ch := of_option error ch in
  let? _ := ensure (dmem row ch) error in
  Ok (s, ch).

Definition maintenance_name (s : service) (v : pyval) : result (option string) :=
  match v with
  | VNone => Ok None
  | VStr m =>
      let? _ := ensure (negb (String.eqb m "")) (ValueError "maintenance_id must be a nonempty string") in
      let? _ := ensure (negb (bool_decide (m ∈ maintenance_ids_seen s))) (ValueError "maintenance_id was already completed") in
      Ok (Some m)
  | _ => Raise (ValueError "maintenance_id must be a nonempty string")
  end.

(** The job [_add_job] creates, after all its checks. *)
Definition new_job (s : service) (raw_id raw_stack raw_channel raw_operation raw_route : pyval)
    (byte_count arrival : Z) (fg ext : bool) (raw_maintenance raw_metadata : pyval) : result job :=
  let? id := fresh_id s raw_id in
  let? (st, ch) := known_channel (cfg s) raw_stack raw_channel in
  let? o := member operation_name OPERATIONS raw_operation in
  let? o := of_option (ValueError "unsupported operation") o in
  let? r := _validate_route (cfg s) st ch raw_route in
  let? m := maintenance_name s raw_maintenance in
  let? md := match raw_metadata with
             | VNone => Ok (VDict [])
             | VDict d => Ok (VDict d)
             | _ => Raise (ValueError "metadata must be an object")
             end in
  Ok {| job_id := id; stack := st; channel := ch; op := o; job_route := if is_read_operation o then Some r else None;
        arrival_ns := arrival; total_bytes := byte_count; admission_remaining_bytes := byte_count; completed_bytes := 0;
        sequence := next_sequence s; foreground := fg; external := ext; maintenance_id := m; metadata := md;
        first_service_ns := None; last_service_ns := None; completion_ns := None; pending_batches := 0 |}.

Definition job_key (j : job) : key := (stack j, channel j).

Definition insert_job (j : job) : M service unit :=
  let! s := get in
  let! q := lift (dindex (queues s) (job_key j)) in
  let! offered := lift (if foreground j then gadd (cumulative_offered s) (job_key j) (total_bytes j) else Ok (cumulative_offered s)) in
  let! backlog := lift (if foreground j then gadd (foreground_backlog s) (job_key j) (total_bytes j) else Ok (foreground_backlog s)) in
  put {| cfg := cfg s; now := now s; next_sequence := next_sequence s + 1; auto_id := auto_id s;
         jobs := <[job_id j := j]> (jobs s); known_ids := {[job_id j]} ∪ known_ids s;
         external_active := if external j then {[job_id j]} ∪ external_active s else external_active s;
         queues := dset (queues s) (job_key j) (q ++ [job_id j]); inflight := inflight s;
         completion_ids_seen := completion_ids_seen s; maintenance_ids_seen := maintenance_ids_seen s;
         cumulative_offered := offered; cumulative_completed := cumulative_completed s; foreground_backlog := backlog |}.

Definition _add_job (raw_id raw_stack raw_channel raw_operation raw_route : pyval)
    (byte_count arrival : Z) (fg ext : bool) (raw_maintenance raw_metadata : pyval) : M service job :=
  let! s := get in
  let! j := lift (new_job s raw_id raw_stack raw_channel raw_operation raw_route byte_count arrival fg ext
                    raw_maintenance raw_metadata) in
  let! _ := insert_job j in
  sret j.

(** ** Resources of a job *)

Definition _endpoints (c : config) (j : job) : result (list string) :=
  match job_route j with
  | Some BasicFabric.Relay =>
      let? row := dindex (BasicFabric.cfg_hbf (fabric c)) (stack j) in
      let? p := of_option (KeyError "None") (BasicFabric.pair row) in
      Ok (if decide (stack j = p) then [stack j] else [stack j; p])
  | _ => Ok [stack j]
  end.

Definition media_name (s ch : string) : string := s +:+ ":channel:" +:+ ch +:+ ":media".
Definition gpu_link_name (s : string) : string := s +:+ ":gpu-link".
Definition fill_name (s : string) : string := s +:+ ":fill".
Definition relay_name (s p : string) : string := s +:+ "->" +:+ p +:+ ":relay-link".
Definition endpoint_name (s : string) : string := "endpoint:" +:+ s.

Definition media_stage (rate : Z) : stage := {| BasicFabric.latency_ns := 0; BasicFabric.bandwidth_bytes_per_s := rate |}.

Definition _phase_resources (c : config) (j : job) : result (list (string * stage * Z)) :=
  let scale := work_scale c in
  let? row := dindex (channels c) (stack j) in
  let? media_rate := dindex row (channel j) in
  let? media_cost := dindex (cost c) (op j) in
  let media_coeff := numerator media_cost * (scale / denominator media_cost) in
  let media := (media_name (stack j) (channel j), media_stage media_rate, media_coeff) in
  if negb (is_read_operation (op j)) then Ok [media] else
  match dget (BasicFabric.cfg_hbm (fabric c)) (stack j) with
  | Some peer => Ok [media; (gpu_link_name (stack j), BasicFabric.gpu_link peer, scale)]
  | None =>
      let? row := dindex (BasicFabric.cfg_hbf (fabric c)) (stack j) in
      let fill := (fill_name (stack j), BasicFabric.fill row, scale) in
      match job_route j with
      | Some BasicFabric.Direct => Ok [media; fill; (gpu_link_name (stack j), BasicFabric.direct_link row, scale)]
      | _ =>
          let? p := of_option (KeyError "None") (BasicFabric.pair row) in
          let? link := of_option (TypeError "'NoneType' object is not subscriptable") (BasicFabric.relay_link row) in
          let? peer := dindex (BasicFabric.cfg_hbm (fabric c)) p in
          Ok [media; fill; (relay_name (stack j) p, link, scale); (gpu_link_name p, BasicFabric.gpu_link peer, scale)]
      end
  end.

(** The buffers a read passes: stack, bank count, bank capacity. *)
Definition _buffer_specs (c : config) (j : job) : result (list (string * Z * Z)) :=
  match dget (BasicFabric.cfg_hbf (fabric c)) (stack j) with
  | Some row =>
      let own := (stack j, BasicFabric.hbf_bank_count row, BasicFabric.hbf_bank_capacity_bytes row) in
      match job_route j with
      | Some BasicFabric.Relay =>
          let? p := of_option (KeyError "None") (BasicFabric.pair row) in
          let? peer := dindex (BasicFabric.cfg_hbm (fabric c)) p in
          Ok [own; (p, BasicFabric.hbm_bank_count peer, BasicFabric.hbm_bank_capacity_bytes peer)]
      | _ => Ok [own]
      end
  | None =>
      let? row := dindex (BasicFabric.cfg_hbm (fabric c)) (stack j) in
      Ok [(stack j, BasicFabric.hbm_bank_count row, BasicFabric.hbm_bank_capacity_bytes row)]
  end.

Definition _buffer_capacity (c : config) (j : job) : result Z :=
  match dget (BasicFabric.cfg_hbf (fabric c)) (stack j) with
  | Some row =>
      match job_route j with
      | Some BasicFabric.Relay =>
          let? p := of_option (KeyError "None") (BasicFabric.pair row) in
          let? peer := dindex (BasicFabric.cfg_hbm (fabric c)) p in
          Ok (Z.min (BasicFabric.hbf_bank_capacity_bytes row) (BasicFabric.hbm_bank_capacity_bytes peer))
      | _ => Ok (BasicFabric.hbf_bank_capacity_bytes row)
      end
  | None =>
      match dget (BasicFabric.cfg_hbm (fabric c)) (stack j) with
      | Some row => Ok (BasicFabric.hbm_bank_capacity_bytes row)
      | None => Ok (total_bytes j)
      end
  end.

(** [duration] of a phase: latency plus the transfer of scaled work. *)
Definition phase_duration (scale : Z) (st : stage) (coefficient amount : Z) : Z :=
  BasicFabric.latency_ns st
  + ceil_div (amount * coefficient * NANOSECONDS_PER_SECOND) (BasicFabric.bandwidth_bytes_per_s st * scale).

Definition _pipeline_completion (c : config) (j : job) (byte_count service_start : Z) : result Z :=
  let? phases := _phase_resources c j in
  let? capacity := _buffer_capacity c j in
  let chunk := Z.min byte_count capacity in
  let first_chunk := (fun '(_, st, coefficient) => phase_duration (work_scale c) st coefficient chunk) <$> phases in
  if byte_count <=? chunk then Ok (service_start + zsum first_chunk)
  else
    let turns := ceil_div byte_count chunk in
    Ok (service_start + zsum first_chunk + (turns - 1) * default 0 (zmax_list first_chunk)).

(** ** Activity facts *)

Inductive phase :=
  MediaRead | MediaProgram | MediaErase | SourceBase | GpuDrain | DirectGpuLink | RelaySend | RelayReceive | PartnerGpuDrain.

#[export] Instance phase_eq_dec : EqDecision phase.
Proof. solve_decision. Defined.

(** Phases whose name starts with ["media_"]. *)
Definition is_media_phase (p : phase) : bool := match p with MediaRead | MediaProgram | MediaErase => true | _ => false end.
(** The link phases, in the order of their names. *)
Definition LINK_PHASES : list phase := [DirectGpuLink; GpuDrain; PartnerGpuDrain; RelayReceive; RelaySend].

Record activity := {
  act_phase : phase; act_operation : string; act_stack : string; act_channel : string; act_bytes : Z;
  act_route : option route; act_start : Z; act_end : Z; act_resource : string; act_partner : option string }.

Definition base_name (s : string) : string := s +:+ ":base".

Definition _activity_rows (c : config) (j : job) (byte_count start_ns end_ns : Z) : result (list activity) :=
  let add p resource st partner operation :=
    {| act_phase := p; act_operation := operation; act_stack := st; act_channel := channel j; act_bytes := byte_count;
       act_route := job_route j; act_start := start_ns; act_end := end_ns; act_resource := resource;
       act_partner := partner |} in
  let own p resource := add p resource (stack j) None (operation_name (op j)) in
  let media := media_name (stack j) (channel j) in
  let media_rows :=
    match op j with
    | Migration => [add MediaRead media (stack j) None "migration_read"; add MediaProgram media (stack j) None "migration_program"]
    | Read | Retry | RefreshRead => [own MediaRead media]
    | Program => [own MediaProgram media]
    | Erase => [own MediaErase media]
    end in
  let rows := media_rows ++ [own SourceBase (base_name (stack j))] in
  if negb (is_read_operation (op j)) then Ok rows else
  if is_hbm c (stack j) then Ok (rows ++ [own GpuDrain (gpu_link_name (stack j))]) else
  match job_route j with
  | Some BasicFabric.Direct => Ok (rows ++ [own DirectGpuLink (gpu_link_name (stack j))])
  | _ =>
      let? row := dindex (BasicFabric.cfg_hbf (fabric c)) (stack j) in
      let? p := of_option (KeyError "None") (BasicFabric.pair row) in
      let name := operation_name (op j) in
      Ok (rows ++ [add RelaySend (relay_name (stack j) p) (stack j) (Some p) name;
                   add RelayReceive (base_name p) p (Some p) name;
                   add PartnerGpuDrain (gpu_link_name p) p (Some p) name])
  end.

(** ** Completion of admitted batches *)

(** The dictionaries and lists that [_complete_batches] fills. *)
Record completions := {
  by_channel : gmap key Z; by_job : dict string Z; delay_samples : dict string (list (Z * Z));
  completion_ids : list string; maintenance_ids : list string }.

Definition find_job (m : gmap string job) (id : string) : result job := of_option (KeyError id) (m !! id).

(** The foreground accounting of a completed batch. *)
Definition deliver (j : job) (t byte_count : Z) (acc : completions) : M service completions :=
  let! s := get in
  let! channel_total := lift (gadd (by_channel acc) (job_key j) byte_count) in
  let! completed := lift (gadd (cumulative_completed s) (job_key j) byte_count) in
  let! backlog := lift (gadd (foreground_backlog s) (job_key j) (- byte_count)) in
  let! samples := lift (dindex (delay_samples acc) (stack j)) in
  let! _ := put {| cfg := cfg s; now := now s; next_sequence := next_sequence s; auto_id := auto_id s; jobs := jobs s;
                   known_ids := known_ids s; external_active := external_active s; queues := queues s;
                   inflight := inflight s; completion_ids_seen := completion_ids_seen s;
                   maintenance_ids_seen := maintenance_ids_seen s; cumulative_offered := cumulative_offered s;
                   cumulative_completed := completed; foreground_backlog := backlog |} in
  sret {| by_channel := channel_total; by_job := by_job acc;
          delay_samples := dset (delay_samples acc) (stack j) (samples ++ [(t - arrival_ns j, byte_count)]);
          completion_ids := completion_ids acc; maintenance_ids := maintenance_ids acc |}.

Definition see_completion (id : string) (s : service) : service :=
  {| cfg := cfg s; now := now s; next_sequence := next_sequence s; auto_id := auto_id s; jobs := jobs s;
     known_ids := known_ids s; external_active := external_active s; queues := queues s; inflight := inflight s;
     completion_ids_seen := {[id]} ∪ completion_ids_seen s; maintenance_ids_seen := maintenance_ids_seen s;
     cumulative_offered := cumulative_offered s; cumulative_completed := cumulative_completed s;
     foreground_backlog := foreground_backlog s |}.
Definition see_maintenance (m : string) (s : service) : service :=
  {| cfg := cfg s; now := now s; next_sequence := next_sequence s; auto_id := auto_id s; jobs := jobs s;
     known_ids := known_ids s; external_active := external_active s; queues := queues s; inflight := inflight s;
     completion_ids_seen := completion_ids_seen s; maintenance_ids_seen := {[m]} ∪ maintenance_ids_seen s;
     cumulative_offered := cumulative_offered s; cumulative_completed := cumulative_completed s;
     foreground_backlog := foreground_backlog s |}.

(** Report the job as complete, once per identifier. *)
Definition report_done (j : job) (t : Z) (acc : completions) : M service completions :=
  let! _ := modify (fun s => set_jobs (<[job_id j := with_completion t j]> (jobs s)) s) in
  let! s := get in
  let report_job := external j && negb (bool_decide (job_id j ∈ completion_ids_seen s)) in
  let! _ := if report_job then modify (see_completion (job_id j)) else sret tt in
  let report_maintenance :=
    match maintenance_id j with
    | Some m => if bool_decide (m ∈ maintenance_ids_seen s) then None else Some m
    | None => None
    end in
  let! _ := match report_maintenance with Some m => modify (see_maintenance m) | None => sret tt end in
  sret {| by_channel := by_channel acc; by_job := by_job acc; delay_samples := delay_samples acc;
          completion_ids := completion_ids acc ++ (if report_job then [job_id j] else []);
          maintenance_ids := maintenance_ids acc ++ option_list report_maintenance |}.

Definition complete_batch (acc : completions) (b : batch) : M service completions :=
  let '(t, _, id, byte_count) := b in
  let! s := get in
  let! j := lift (find_job (jobs s) id) in
  let j := without_batch byte_count j in
  let! _ := put (set_jobs (<[id := j]> (jobs s)) s) in
  let acc := {| by_channel := by_channel acc;
                by_job := dset (by_job acc) id (dget_or (by_job acc) id 0 + byte_count);
                delay_samples := delay_samples acc; completion_ids := completion_ids acc;
                maintenance_ids := maintenance_ids acc |} in
  let! acc := if foreground j then deliver j t byte_count acc else sret acc in
  if (admission_remaining_bytes j =? 0) && (pending_batches j =? 0) then report_done j t acc else sret acc.

Fixpoint complete_loop (l : list batch) (horizon_ns : Z) (acc : completions) : M service completions :=
  match l with
  | [] => sret acc
  | b :: rest =>
      if b.1.1.1 <=? horizon_ns then
        let! _ := modify (set_inflight rest) in
        let! acc := complete_batch acc b in
        complete_loop rest horizon_ns acc
      else sret acc
  end.

Definition _complete_batches (horizon_ns : Z) (acc : completions) : M service completions :=
  let! s := get in complete_loop (inflight s) horizon_ns acc.

Definition _histogram (samples : list (Z * Z)) : list (Z * Z) :=
  let totals := foldl (fun d '(delay, n) => dset d delay (dget_or d delay 0 + n)) [] samples in
  (fun delay => (delay, dget_or totals delay 0)) <$> isort zle (dkeys totals).

(** ** Intake of a window *)

Inductive endpoint_state := Normal | Light | Severe | Shutdown.

#[export] Instance endpoint_state_eq_dec : EqDecision endpoint_state.
Proof. solve_decision. Defined.

Definition state_name (e : endpoint_state) : string :=
  match e with Normal => "normal" | Light => "light" | Severe => "severe" | Shutdown => "shutdown" end.
Definition STATES : list endpoint_state := [Normal; Light; Severe; Shutdown].

Record window_input := {
  w_start : Z; w_end : Z; w_budgets : dict string Z; w_states : dict string endpoint_state }.

(** The checks on the window, the budgets and the endpoint states.  The source
    iterates over a set of stacks here; the model uses the configured order. *)
Definition check_window (s : service) (start_ns end_ns : pyval) (offered_stacks : list string)
    (budgets endpoint_states : dict string pyval) : result window_input :=
  let? start := _integer start_ns "start_ns" false in
  let? stop := _integer end_ns "end_ns" false in
  let? _ := ensure ((start =? now s) && (stop - start =? WINDOW_NS))
              (ValueError "advance requires the next contiguous fixed window") in
  let stacks := dkeys (channels (cfg s)) in
  let? _ := ensure (same_set (dkeys budgets) stacks && same_set (dkeys endpoint_states) stacks)
              (ValueError "budgets and endpoint_states must exactly cover configured stacks") in
  let? checked := mapR (fun st => let? z := _integer (dget_or budgets st VNone) ("budgets." +:+ st) false in Ok (st, z)) stacks in
  let? states := mapR (fun st =>
      let? o := member state_name STATES (dget_or endpoint_states st VNone) in
      let? e := of_option (ValueError "unknown endpoint state") o in Ok (st, e)) stacks in
  let? _ := ensure (bool_decide (Forall (fun st => st ∈ stacks) offered_stacks)) (ValueError "unknown offered stacks") in
  Ok {| w_start := start; w_end := stop; w_budgets := checked; w_states := states |}.

Definition auto_name (n : Z) : string := "foreground:" +:+ pretty n.

(** One offered amount becomes a foreground read job. *)
Definition offer_channel (start : Z) (st : string) (offered : gmap key Z) (item : string * pyval) : M service (gmap key Z) :=
  let '(ch, raw) := item in
  let! n := lift (_integer raw ("offered." +:+ st +:+ "." +:+ ch) false) in
  if n =? 0 then sret offered else
  let! s := get in
  let id := auto_name (auto_id s) in
  let! _ := put (set_auto_id (auto_id s + 1) s) in
  let! r := lift (_default_route (cfg s) (VStr st) (VStr ch)) in
  let! _ := _add_job (VStr id) (VStr st) (VStr ch) (VStr "read") (VStr (route_name r)) n start true false VNone (VDict []) in
  lift (gadd offered (st, ch) n).

Definition offer_stack (start : Z) (offered : gmap key Z) (item : string * dict string pyval) : M service (gmap key Z) :=
  let '(st, raw_channels) := item in
  let! s := get in
  let! own := lift (dindex (channels (cfg s)) st) in
  let! _ := require (bool_decide (Forall (fun ch => ch ∈ dkeys own) (dkeys raw_channels)))
              (ValueError ("unknown channels for " +:+ st)) in
  foldS (offer_channel start st) raw_channels offered.

Definition EXTRA_REQUIRED : list string := ["job_id"; "stack"; "channel"; "operation"; "bytes"; "arrival_ns"].
Definition EXTRA_OPTIONAL : list string := ["route"; "maintenance_id"; "metadata"].

Definition is_none (v : pyval) : bool := match v with VNone => true | _ => false end.

Definition admit_extra (start stop : Z) (offered : gmap key Z) (raw : pyval) : M service (gmap key Z) :=
  match raw with
  | VDict d =>
      let! _ := require (bool_decide (Forall (fun k => k ∈ dkeys d) EXTRA_REQUIRED)
                         && bool_decide (Forall (fun k => k ∈ EXTRA_REQUIRED ++ EXTRA_OPTIONAL) (dkeys d)))
                  (ValueError "extra job has missing or unknown fields") in
      let field k := dget_or d k VNone in
      let! arrival := lift (_integer (field "arrival_ns") "extra_job.arrival_ns" false) in
      let! _ := require ((start <=? arrival) && (arrival <? stop))
                  (ValueError "extra job arrival must lie in the current half-open window") in
      let! s := get in
      let! r := lift (_default_route (cfg s) (field "stack") (field "channel")) in
      let raw_route := dget_or d "route" (VStr (route_name r)) in
      let fg := eq_str (field "operation") "read" && is_none (field "maintenance_id") in
      let! n := lift (_integer (field "bytes") "extra_job.bytes" true) in
      let! j := _add_job (field "job_id") (field "stack") (field "channel") (field "operation") raw_route n arrival
                  fg true (field "maintenance_id") (dget_or d "metadata" (VDict [])) in
      if fg then lift (gadd offered (job_key j) n) else sret offered
  | _ => raise (ValueError "extra job has missing or unknown fields")
  end.

(** ** Capacities of a window *)

Definition media_specs (c : config) : dict string stage :=
  foldl (fun d '(st, row) => foldl (fun d '(ch, rate) => dset d (media_name st ch) (media_stage rate)) d row) [] (channels c).

(** The fill stage, direct link and, for a paired stack, relay link of an HBF stack. *)
Definition add_links (d : dict string stage) (item : string * BasicFabric.hbf_config) : result (dict string stage) :=
  let '(st, row) := item in
  let d := dset (dset d (fill_name st) (BasicFabric.fill row)) (gpu_link_name st) (BasicFabric.direct_link row) in
  match BasicFabric.pair row with
  | Some p =>
      let? link := of_option (TypeError "'NoneType' object is not subscriptable") (BasicFabric.relay_link row) in
      Ok (dset d (relay_name st p) link)
  | None => Ok d
  end.

Definition resource_specs (c : config) : result (dict string stage) :=
  let? links := foldM add_links (BasicFabric.cfg_hbf (fabric c)) (media_specs c) in
  Ok (foldl (fun d '(st, row) => dset d (gpu_link_name st) (BasicFabric.gpu_link row)) links (BasicFabric.cfg_hbm (fabric c))).

(** Scaled work a stage can do in a window after one startup latency. *)
Definition stage_capacity (window scale : Z) (st : stage) : Z :=
  Z.max 0 (window - BasicFabric.latency_ns st) * BasicFabric.bandwidth_bytes_per_s st * scale / NANOSECONDS_PER_SECOND.

Definition initial_capacity (c : config) (w : window_input) : result (dict string Z) :=
  let? specs := resource_specs c in
  let links := (fun '(r, st) => (r, stage_capacity (w_end w - w_start w) (work_scale c) st)) <$> specs in
  Ok (foldl (fun d '(st, budget) => dset d (endpoint_name st) (budget * work_scale c)) links (w_budgets w)).

(** ** Candidates of a round *)

Record blocked_row := { b_job : string; b_bytes : Z; b_reasons : list string; b_maintenance : bool }.

(** The state of the allocation loop.  [blocked_seen] of the source is the set
    of the identifiers in [blocked]. *)
Record alloc := {
  a_jobs : gmap string job; a_queues : dict key (list string); residual : dict string Z;
  allocations : dict string Z; blocked : list blocked_row }.

Definition is_maintenance (j : job) : bool :=
  is_maintenance_operation (op j) || match maintenance_id j with Some _ => true | None => false end.

Inductive class := MaintenanceClass (o : operation) | ForegroundClass (r : option route).

#[local] Existing Instance BasicFabric.route_eq_dec.
#[export] Instance class_eq_dec : EqDecision class.
Proof. solve_decision. Defined.

Definition scheduling_class (j : job) : class :=
  if is_maintenance j then MaintenanceClass (op j) else ForegroundClass (job_route j).

(** [first_by_class.setdefault] over a queue, in the order of the job sequence. *)
Definition first_by_class (js : list job) : list job :=
  isort (fun a b => sequence a <=? sequence b)
    (dvals (foldl (fun d j => if dmem d (scheduling_class j) then d else dset d (scheduling_class j) j) [] js)).

(** The queue without fully admitted jobs, with the jobs it holds. *)
Definition prune_queue (m : gmap string job) (q : list string) : result (list job) :=
  let? js := mapR (find_job m) q in
  Ok (filter (fun j => 0 < admission_remaining_bytes j) js).

(** Endpoint states that stop a job: maintenance runs unless shut down. *)
Definition stops (maintenance : bool) (st : endpoint_state) : bool :=
  match st with Shutdown => true | Severe => negb maintenance | _ => false end.

Definition guard_reasons (maintenance : bool) (states : list (string * endpoint_state)) : list string :=
  (fun row => row.1 +:+ ":" +:+ state_name row.2) <$> filter (fun row => stops maintenance row.2 = true) states.

Definition coefficients (c : config) (j : job) : result (dict string Z) :=
  let? phases := _phase_resources c j in
  let? endpoints := _endpoints c j in
  let own := foldl (fun d '(r, _, n) => dset d r n) [] phases in
  Ok (if is_maintenance j then own else foldl (fun d e => dset d (endpoint_name e) (work_scale c)) own endpoints).

Notation cand := (prod string (list (prod string Z))) (only parsing).

(** One job of a queue: skipped, blocked by an endpoint, or a candidate. *)
Definition consider (c : config) (w : window_input) (acc : list blocked_row * list cand) (j : job) :
    result (list blocked_row * list cand) :=
  let '(rows, cands) := acc in
  if w_end w <=? arrival_ns j then Ok (rows, cands) else
  let? endpoints := _endpoints c j in
  let? states := mapR (fun e => let? st := dindex (w_states w) e in Ok (e, st)) endpoints in
  match guard_reasons (is_maintenance j) states with
  | [] => let? coefs := coefficients c j in Ok (rows, cands ++ [(job_id j, coefs)])
  | reasons =>
      if bool_decide (job_id j ∈ b_job <$> rows) then Ok (rows, cands)
      else Ok (rows ++ [{| b_job := job_id j; b_bytes := admission_remaining_bytes j; b_reasons := reasons;
                           b_maintenance := is_maintenance j |}], cands)
  end.

Definition consider_queue (c : config) (w : window_input) (m : gmap string job)
    (acc : dict key (list string) * list blocked_row * list cand) (k : key) :
    result (dict key (list string) * list blocked_row * list cand) :=
  let '(qs, rows, cands) := acc in
  let? q := dindex qs k in
  let? js := prune_queue m q in
  let? (rows, cands) := foldM (consider c w) (first_by_class js) (rows, cands) in
  Ok (dset qs k (job_id <$> js), rows, cands).

Definition candidate (c : config) (w : window_input) (a : alloc) : result (alloc * list cand) :=
  let? (qs, rows, cands) := foldM (consider_queue c w (a_jobs a)) (isort (lex sle sle) (dkeys (a_queues a)))
                              (a_queues a, blocked a, []) in
  Ok ({| a_jobs := a_jobs a; a_queues := qs; residual := residual a; allocations := allocations a; blocked := rows |}, cands).

(** ** The allocation loop *)

Definition fits (res : dict string Z) (coefs : dict string Z) : bool :=
  forallb (fun '(r, n) => n <=? dget_or res r 0) coefs.

(** Work of all active jobs per byte on a resource. *)
Definition users (active : list cand) (r : string) : Z := zsum ((fun x => dget_or x.2 r 0) <$> active).

Definition remaining_of (m : gmap string job) (id : string) : result Z :=
  let? j := find_job m id in Ok (admission_remaining_bytes j).

Definition consume (coefs : dict string Z) (amount : Z) (res : dict string Z) : result (dict string Z) :=
  foldM (fun d '(r, n) => let? v := dindex d r in Ok (dset d r (v - amount * n))) coefs res.

(** Admit [amount] bytes of a job. *)
Definition allocate (x : cand) (amount : Z) (a : alloc) : result alloc :=
  let? res := consume x.2 amount (residual a) in
  let? j := find_job (a_jobs a) x.1 in
  Ok {| a_jobs := <[x.1 := with_remaining (admission_remaining_bytes j - amount) j]> (a_jobs a); a_queues := a_queues a;
        residual := res; allocations := dset (allocations a) x.1 (dget_or (allocations a) x.1 0 + amount);
        blocked := blocked a |}.

(** The pass of single bytes, when the equal share is below one byte. *)
Definition allocate_unit (acc : alloc * bool) (x : cand) : result (alloc * bool) :=
  let '(a, progress) := acc in
  let? enough := foldM (fun b '(r, n) => if b : bool then let? v := dindex (residual a) r in Ok (n <=? v) else Ok false) x.2 true in
  if enough then let? a := allocate x 1 a in Ok (a, true) else Ok (a, progress).

Definition allocate_share (share : Z) (a : alloc) (x : cand) : result alloc :=
  let? n := remaining_of (a_jobs a) x.1 in
  allocate x (Z.min share n) a.

Definition share_bounds (a : alloc) (active : list cand) : result (list Z) :=
  let? own := mapR (fun x => remaining_of (a_jobs a) x.1) active in
  Ok (own ++ omap (fun '(r, v) => if users active r =? 0 then None else Some (v / users active r)) (residual a)).

Definition round (c : config) (w : window_input) (a : alloc) : result (alloc + alloc) :=
  let? (a, cands) := candidate c w a in
  match filter (fun x => fits (residual a) x.2 = true) cands with
  | [] => Ok (inr a)
  | active =>
      let? bounds := share_bounds a active in
      let? share := of_option (ValueError "min() iterable argument is empty") (zmin_list bounds) in
      if share <=? 0 then
        let? (a, progress) := foldM allocate_unit active (a, false) in
        Ok (if progress : bool then inl a else inr a)
      else let? a := foldM (allocate_share share) active a in Ok (inl a)
  end.

(** Bytes not yet admitted: each round that continues admits at least one. *)
Definition unadmitted (m : gmap string job) : Z := msum (fun _ j => admission_remaining_bytes j) m.

Definition allocation_loop (c : config) (w : window_input) (a : alloc) : result alloc :=
  let? r := ploop (Z.to_pos (1 + unadmitted (a_jobs a))) (round c w) a in
  match r with inl _ => Raise OutOfFuel | inr a => Ok a end.

(** ** Settlement of the window *)

Record buffer_row := {
  bf_job : string; bf_source : string; bf_stack : string; bf_route : option route; bf_bank_count : Z;
  bf_bank_capacity : Z; bf_maximum_occupancy : Z; bf_turnovers : Z; bf_bytes : Z;
  bf_pipeline_estimate : Z; bf_settled : Z }.

Definition buffer_rows (c : config) (j : job) (amount estimate stop : Z) : result (list buffer_row) :=
  if negb (is_read_operation (op j)) then Ok [] else
  let? specs := _buffer_specs c j in
  Ok ((fun '(st, bank_count, bank_capacity) =>
         {| bf_job := job_id j; bf_source := stack j; bf_stack := st; bf_route := job_route j; bf_bank_count := bank_count;
            bf_bank_capacity := bank_capacity; bf_maximum_occupancy := Z.min amount (bank_count * bank_capacity);
            bf_turnovers := ceil_div amount bank_capacity; bf_bytes := amount; bf_pipeline_estimate := estimate;
            bf_settled := stop |}) <$> specs).

(** The order of heap entries. *)
Definition batch_le : batch -> batch -> bool := lex (lex (lex zle zle) sle) zle.

(** An admitted amount becomes a batch that completes at the end of the window. *)
Definition settle (w : window_input) (acc : list activity * list buffer_row) (item : string * Z) :
    M service (list activity * list buffer_row) :=
  let '(activities, buffers) := acc in
  let '(id, amount) := item in
  let! s := get in
  let! j := lift (find_job (jobs s) id) in
  let service_start := Z.max (w_start w) (arrival_ns j) in
  let! estimate := lift (_pipeline_completion (cfg s) j amount service_start) in
  let j := with_batch service_start (w_end w) j in
  let! _ := put (bump_sequence (set_inflight (sinsert batch_le (w_end w, next_sequence s, id, amount) (inflight s))
                   (set_jobs (<[id := j]> (jobs s)) s))) in
  let! rows := lift (_activity_rows (cfg s) j amount (w_start w) (w_end w)) in
  let! bufs := lift (buffer_rows (cfg s) j amount estimate (w_end w)) in
  sret (activities ++ rows, buffers ++ bufs).

(** [sorted(allocations.items(), key=sequence)]. *)
Definition by_sequence (m : gmap string job) (al : dict string Z) : result (list (string * Z)) :=
  let? rows := mapR (fun '(id, n) => let? j := find_job m id in Ok (sequence j, (id, n))) al in
  Ok (snd <$> isort (fun a b => a.1 <=? b.1) rows).

(** ** The receipt *)

Record stack_row := {
  st_offered : Z; st_delivered : Z; st_backlog : Z; st_oldest_wait : option Z; st_histogram : list (Z * Z);
  st_media_bytes : Z; st_link_bytes : list (phase * Z); st_cumulative_offered : Z; st_cumulative_delivered : Z }.

Definition gindex (m : gmap key Z) (k : key) : result Z := of_option (KeyError "") (m !! k).
(** [sum(m[(stack, channel)] for channel in channels)]. *)
Definition channel_sum (m : gmap key Z) (st : string) (chs : list string) : result Z :=
  let? l := mapR (fun ch => gindex m (st, ch)) chs in Ok (zsum l).

Definition bytes_of (P : phase -> bool) (rows : list activity) : Z :=
  zsum (act_bytes <$> filter (fun r => P (act_phase r) = true) rows).

(** The waits of the oldest queued jobs of a stack. *)
Definition waiting (s : service) (stop : Z) (st : string) (chs : list string) : result (list Z) :=
  foldM (fun acc ch =>
      let? q := dindex (queues s) (st, ch) in
      match q with
      | [] => Ok acc
      | id :: _ => let? j := find_job (jobs s) id in Ok (acc ++ [stop - arrival_ns j])
      end) chs [].

Definition stack_report (s : service) (w : window_input) (offered : gmap key Z) (acc : completions)
    (activities : list activity) (item : string * dict string Z) : result (string * stack_row) :=
  let '(st, row) := item in
  let chs := dkeys row in
  let? backlog := channel_sum (foreground_backlog s) st chs in
  let? waits := waiting s (w_end w) st chs in
  let rows := filter (fun r => act_stack r = st) activities in
  let? offered_now := channel_sum offered st chs in
  let? delivered := channel_sum (by_channel acc) st chs in
  let? samples := dindex (delay_samples acc) st in
  let? total_offered := channel_sum (cumulative_offered s) st chs in
  let? total_completed := channel_sum (cumulative_completed s) st chs in
  let? _ := ensure (total_offered =? total_completed + backlog)
              (AssertionError ("foreground byte conservation failed for " +:+ st)) in
  Ok (st, {| st_offered := offered_now; st_delivered := delivered; st_backlog := backlog;
             st_oldest_wait := zmax_list waits; st_histogram := _histogram samples;
             st_media_bytes := bytes_of is_media_phase rows;
             st_link_bytes := (fun p => (p, bytes_of (fun q => bool_decide (q = p)) rows))
                                <$> filter (fun p => p ∈ act_phase <$> rows) LINK_PHASES;
             st_cumulative_offered := total_offered; st_cumulative_delivered := total_completed |}).

Definition served_row (acc : completions) (item : string * dict string Z) : result (string * dict string Z) :=
  let '(st, row) := item in
  let? cells := mapR (fun ch => let? n := gindex (by_channel acc) (st, ch) in Ok (ch, n)) (dkeys row) in
  Ok (st, cells).

Record resource_row := { rr_capacity : Z; rr_used : Z; rr_remaining : Z; rr_scale : Z; rr_endpoint : bool }.

Definition resource_report (c : config) (res : dict string Z) (item : string * Z) : result (string * resource_row) :=
  let '(r, capacity) := item in
  let? rest := dindex res r in
  Ok (r, {| rr_capacity := capacity; rr_used := capacity - rest; rr_remaining := rest; rr_scale := work_scale c;
            rr_endpoint := String.prefix "endpoint:" r |}).

(** A progress row: the job as it stands after the window, and the bytes of the window. *)
Record progress_row := { pr_job : job; pr_admitted : Z; pr_served : Z; pr_remaining : Z }.

Definition job_progress (s : service) (al : dict string Z) (acc : completions) : result (list progress_row) :=
  let ids := elements (external_active s ∪ list_to_set (completion_ids acc)) in
  let? js := mapR (find_job (jobs s)) ids in
  Ok ((fun j => {| pr_job := j; pr_admitted := dget_or al (job_id j) 0; pr_served := dget_or (by_job acc) (job_id j) 0;
                   pr_remaining := total_bytes j - completed_bytes j |})
        <$> isort (fun a b => sequence a <=? sequence b) js).

Definition route_key (j : job) : string :=
  stack j +:+ ":" +:+ match job_route j with Some r => route_name r | None => "internal" end +:+ ":" +:+ operation_name (op j).

Definition route_rows (m : gmap string job) (al : dict string Z) : result (dict string Z) :=
  foldM (fun d '(id, n) =>
      let? j := find_job m id in Ok (dset d (route_key j) (dget_or d (route_key j) 0 + n))) al [].

Record receipt := {
  rc_start : Z; rc_end : Z; rc_topology : topology; rc_served : dict string (dict string Z);
  rc_stacks : dict string stack_row; rc_activities : list activity; rc_route_phase_bytes : dict string Z;
  rc_resources : dict string resource_row; rc_buffers : list buffer_row; rc_blocked : list blocked_row;
  rc_progress : list progress_row; rc_completion_ids : list string; rc_maintenance_ids : list string }.

(** Forget the jobs that completed. *)
Definition retire (s : service) : service :=
  let done_ids := dom (filter (fun '(_, j) => is_Some (completion_ns j)) (jobs s)) in
  {| cfg := cfg s; now := now s; next_sequence := next_sequence s; auto_id := auto_id s;
     jobs := filter (fun '(_, j) => completion_ns j = None) (jobs s);
     known_ids := known_ids s; external_active := external_active s ∖ done_ids; queues := queues s;
     inflight := inflight s; completion_ids_seen := completion_ids_seen s; maintenance_ids_seen := maintenance_ids_seen s;
     cumulative_offered := cumulative_offered s; cumulative_completed := cumulative_completed s;
     foreground_backlog := foreground_backlog s |}.

(** ** The window *)

(** All new jobs of the window; the result is [offered_this_window]. *)
Definition intake (w : window_input) (offered : dict string (dict string pyval)) (extra_jobs : list pyval) :
    M service (gmap key Z) :=
  let! s := get in
  let! o := foldS (offer_stack (w_start w)) offered (zero_map (dkeys (queues s))) in
  foldS (admit_extra (w_start w) (w_end w)) extra_jobs o.

(** Allocation of the window's capacities over the queued jobs. *)
Definition allocate_window (w : window_input) : M service (dict string Z * alloc) :=
  let! s := get in
  let! capacity := lift (initial_capacity (cfg s) w) in
  let! a := lift (allocation_loop (cfg s) w {| a_jobs := jobs s; a_queues := queues s; residual := capacity;
                                               allocations := []; blocked := [] |}) in
  let! _ := put (set_queues (a_queues a) (set_jobs (a_jobs a) s)) in
  sret (capacity, a).

Definition no_completions (s : service) : completions :=
  {| by_channel := zero_map (dkeys (queues s)); by_job := [];
     delay_samples := (fun st => (st, [])) <$> dkeys (channels (cfg s)); completion_ids := []; maintenance_ids := [] |}.

(** Batches of the allocated amounts, and their completion. *)
Definition settle_window (w : window_input) (al : dict string Z) :
    M service (list activity * list buffer_row * completions) :=
  let! s := get in
  let! items := lift (by_sequence (jobs s) al) in
  let! (activities, buffers) := foldS (settle w) items ([], []) in
  let! s := get in
  let! acc := _complete_batches (w_end w) (no_completions s) in
  sret (activities, buffers, acc).

Definition report (s : service) (w : window_input) (offered : gmap key Z) (capacity : dict string Z) (a : alloc)
    (activities : list activity) (buffers : list buffer_row) (acc : completions) : result receipt :=
  let c := cfg s in
  let? served := mapR (served_row acc) (channels c) in
  let? stacks := mapR (stack_report s w offered acc activities) (channels c) in
  let? resources := mapR (resource_report c (residual a)) capacity in
  let? progress := job_progress s (allocations a) acc in
  let? routes := route_rows (jobs s) (allocations a) in
  Ok {| rc_start := w_start w; rc_end := w_end w; rc_topology := topo c; rc_served := served; rc_stacks := stacks;
        rc_activities := activities; rc_route_phase_bytes := routes; rc_resources := resources; rc_buffers := buffers;
        rc_blocked := blocked a; rc_progress := progress; rc_completion_ids := completion_ids acc;
        rc_maintenance_ids := maintenance_ids acc |}.

Definition advance (start_ns end_ns : pyval) (offered : dict string (dict string pyval))
    (budgets endpoint_states : dict string pyval) (extra_jobs : list pyval) : M service receipt :=
  let! s := get in
  let! w := lift (check_window s start_ns end_ns (dkeys offered) budgets endpoint_states) in
  let! o := intake w offered extra_jobs in
  let! (capacity, a) := allocate_window w in
  let! (activities, buffers, acc) := settle_window w (allocations a) in
  let! s := get in
  let! r := lift (report s w o capacity a activities buffers acc) in
  let! _ := modify (fun s => retire (set_now (w_end w) s)) in
  sret r.
End TopologyService.
