(* ===== verification/TopologyAllocation.v ===== *)
(** * Allocation of a topology window

    Proofs about the allocation loop of [TopologyService.advance]: the loop
    leaves within its bound, never exceeds a capacity, accounts for every unit
    of work, respects the endpoint guards and stops only when no waiting head of
    a class can be served any more. *)

From S2P Require Import Prelude BasicFabric TopologyConfig TopologyService.

Module TopologyAllocation.
Import TopologyConfig TopologyService.

#[local] Existing Instance BasicFabric.route_eq_dec.

(** ** Jobs that fit their configuration *)

Record job_ok (c : config) (j : job) : Prop := {
  jo_channel : exists row rate, dget (channels c) (stack j) = Some row /\ dget row (channel j) = Some rate;
  jo_read : is_read_operation (op j) = true -> is_Some (job_route j);
  jo_relay : job_route j = Some BasicFabric.Relay ->
    exists row p, dget (BasicFabric.cfg_hbf (fabric c)) (stack j) = Some row /\ BasicFabric.pair row = Some p }.

Lemma job_ok_stack c j : cfg_ok c -> job_ok c j -> stack j ∈ all_stacks (fabric c).
Proof. intros Hc Hj. destruct (jo_channel _ _ Hj) as (row & _ & H & _). rewrite <- (co_stacks _ Hc). apply dget_is_Some. eauto. Qed.

Lemma hbf_pair c st row p : cfg_ok c -> dget (BasicFabric.cfg_hbf (fabric c)) st = Some row -> BasicFabric.pair row = Some p ->
  (exists link, BasicFabric.relay_link row = Some link) /\
  exists peer, dget (BasicFabric.cfg_hbm (fabric c)) p = Some peer.
Proof.
  intros Hc Hrow Hp. pose proof (BasicFabric.fo_relay _ _ (BasicFabric.co_hbf _ (co_fabric _ Hc) _ _ Hrow)) as H.
  rewrite Hp in H. destruct (BasicFabric.relay_link row) as [link|]; [|done]. destruct H as [H _].
  split; [by eexists|]. by apply dget_is_Some in H.
Qed.

Lemma media_coefficient c f : cfg_ok c -> cost_ok (work_scale c) f -> 0 < numerator f * (work_scale c / denominator f).
Proof.
  intros Hc [Hn Hd Hdiv]. pose proof (co_scale _ Hc). apply Z.mul_pos_pos; [done|].
  apply Z.div_str_pos. split; [done|]. apply Z.divide_pos_le; [lia|done].
Qed.

(** The phases of a job: the medium first; coefficients are positive and stages
    have a positive bandwidth. *)
Lemma phase_resources_stages c j : cfg_ok c -> job_ok c j -> exists media ph, _phase_resources c j = Ok (media :: ph) /\
  Forall (fun p => 0 < p.2 /\ 0 <= BasicFabric.latency_ns p.1.2 /\ 0 < BasicFabric.bandwidth_bytes_per_s p.1.2) (media :: ph).
Proof.
  intros Hc Hj. unfold _phase_resources. destruct (jo_channel _ _ Hj) as (row & rate & Hrow & Hrate).
  rewrite (proj2 (dindex_Ok _ _ _) Hrow). cbn [rbind]. rewrite (proj2 (dindex_Ok _ _ _) Hrate). cbn [rbind].
  destruct (co_cost _ Hc (op j)) as (f & Hf & Hfok). rewrite (proj2 (dindex_Ok _ _ _) Hf). cbn [rbind].
  pose proof (media_coefficient _ _ Hc Hfok) as Hm. pose proof (co_scale _ Hc) as Hs.
  pose proof (proj2 (co_rates _ Hc _ _ Hrow) _ _ Hrate) as Hpos. pose proof (co_fabric _ Hc) as Hfab.
  destruct (is_read_operation (op j)) eqn:Er; cbn [negb]; [|eexists _, []; split; [done|]; repeat constructor; simpl; lia].
  destruct (dget (BasicFabric.cfg_hbm (fabric c)) (stack j)) as [peer|] eqn:Eh.
  { destruct (BasicFabric.co_hbm _ Hfab _ _ Eh) as [_ _ []]. eexists _, _. split; [done|]. repeat constructor; simpl; lia. }
  assert (Hin : stack j ∈ dkeys (BasicFabric.cfg_hbf (fabric c))).
  { pose proof (job_ok_stack _ _ Hc Hj) as Hst. apply all_stacks_elem in Hst as [?|Hst]; [done|].
    apply dget_None in Eh. done. }
  apply dget_is_Some in Hin as [hrow Hhrow]. rewrite (proj2 (dindex_Ok _ _ _) Hhrow). cbn [rbind].
  destruct (BasicFabric.co_hbf _ Hfab _ _ Hhrow) as [_ _ [] [] Hrelay].
  destruct (jo_read _ _ Hj Er) as [r Hr]. rewrite Hr. destruct r.
  - eexists _, _. split; [done|]. repeat constructor; simpl; lia.
  - destruct (jo_relay _ _ Hj Hr) as (row' & p & Hrow' & Hp). simplify_eq.
    destruct (hbf_pair _ _ _ _ Hc Hhrow Hp) as ([link Hl] & [peer Hpeer]).
    rewrite Hp, Hl. cbn [of_option rbind]. rewrite (proj2 (dindex_Ok _ _ _) Hpeer). cbn [rbind].
    rewrite Hp, Hl in Hrelay. destruct Hrelay as [_ []]. destruct (BasicFabric.co_hbm _ Hfab _ _ Hpeer) as [_ _ []].
    eexists _, _. split; [done|]. repeat constructor; simpl; lia.
Qed.

Lemma phase_resources_total c j : cfg_ok c -> job_ok c j ->
  exists ph, _phase_resources c j = Ok ph /\ Forall (fun p => 0 < p.2) ph.
Proof.
  intros Hc Hj. destruct (phase_resources_stages _ _ Hc Hj) as (media & ph & H & Hf). exists (media :: ph). split; [done|].
  eapply Forall_impl; [exact Hf|]. by intros p [].
Qed.

Lemma endpoints_total c j : cfg_ok c -> job_ok c j ->
  exists es, _endpoints c j = Ok es /\ forall e, e ∈ es -> e ∈ dkeys (channels c).
Proof.
  intros Hc Hj. pose proof (job_ok_stack _ _ Hc Hj) as Hst. rewrite (co_stacks _ Hc).
  unfold _endpoints. destruct (job_route j) as [[]|] eqn:Er; try (eexists; split; [done|]; set_solver).
  destruct (jo_relay _ _ Hj Er) as (row & p & Hrow & Hp).
  destruct (hbf_pair _ _ _ _ Hc Hrow Hp) as (_ & [peer Hpeer]).
  rewrite (proj2 (dindex_Ok _ _ _) Hrow). cbn [rbind]. rewrite Hp. cbn [of_option rbind].
  eexists. split; [done|]. intros e He. assert (He' : e = stack j \/ e = p) by (case_decide; set_solver).
  destruct He' as [-> | ->]; [done|]. apply all_stacks_elem. right. apply dget_is_Some. eauto.
Qed.

(** ** Building dictionaries of positive numbers *)

Definition positive (d : dict string Z) : Prop := dall (fun n => 0 < n) d.

Lemma coefficients_total c j : cfg_ok c -> job_ok c j ->
  exists d, coefficients c j = Ok d /\ positive d.
Proof.
  intros Hc Hj. unfold coefficients.
  destruct (phase_resources_total _ _ Hc Hj) as (ph & -> & Hph), (endpoints_total _ _ Hc Hj) as (es & -> & _).
  cbn [rbind]. rewrite Forall_forall in Hph. pose proof (co_scale _ Hc).
  assert (Hown : positive (foldl (fun (d : dict string Z) '(r, _, n) => dset d r n) [] ph)).
  { apply dall_foldl; [apply dall_nil|]. intros d [[r st] n] Hin Hd. apply dall_dset; [done|]. exact (Hph _ Hin). }
  eexists. split; [done|]. destruct (is_maintenance j); [done|].
  apply dall_foldl; [done|]. intros d e _ Hd. apply dall_dset; [done|lia].
Qed.

(** ** One window *)

Section window.
Context (c : config) (w : window_input) (jobs0 : gmap string job) (queues0 : dict key (list string)) (capacity : dict string Z).

(** What the loop may assume of the jobs, the queues and the window. *)
Record start_ok : Prop := {
  so_cfg : cfg_ok c;
  so_jobs : forall id j, jobs0 !! id = Some j -> job_id j = id /\ job_ok c j /\ 0 < admission_remaining_bytes j;
  so_queue_keys : NoDup (dkeys queues0);
  so_queues : forall k q, dget queues0 k = Some q -> NoDup q /\ forall id, id ∈ q -> exists j, jobs0 !! id = Some j /\ job_key j = k;
  so_states : forall st, st ∈ dkeys (channels c) -> is_Some (dget (w_states w) st);
  so_capacity : NoDup (dkeys capacity) /\ forall r v, dget capacity r = Some v -> 0 <= v }.
Context (Hso : start_ok).

(** Bytes admitted for a job so far, and the job with what is left. *)
Definition admitted (al : dict string Z) (id : string) : Z := dget_or al id 0.
Definition spend (al : dict string Z) (j : job) : job :=
  with_remaining (admission_remaining_bytes j - admitted al (job_id j)) j.

(** Work per byte of a job on a resource. *)
Definition work_of (id : string) (r : string) : Z :=
  match jobs0 !! id with
  | Some j => match coefficients c j with Ok d => dget_or d r 0 | Raise _ => 0 end
  | None => 0
  end.
Definition used_work (al : dict string Z) (r : string) : Z := zsum ((fun x => x.2 * work_of x.1 r) <$> al).

(** No endpoint of the job stops it. *)
Definition allowed (j : job) : Prop :=
  arrival_ns j < w_end w /\
  exists es, _endpoints c j = Ok es /\
    forall e, e ∈ es -> exists st, dget (w_states w) e = Some st /\ stops (is_maintenance j) st = false.

Definition live (m : gmap string job) (q : list string) : list string :=
  filter (fun id => match m !! id with Some j => 0 <? admission_remaining_bytes j | None => false end = true) q.

Record alloc_inv (a : alloc) : Prop := {
  ai_jobs : forall id, a_jobs a !! id = spend (allocations a) <$> jobs0 !! id;
  ai_left : forall id j, jobs0 !! id = Some j -> admitted (allocations a) id <= admission_remaining_bytes j;
  ai_keys : NoDup (dkeys (allocations a));
  ai_alloc : forall id n, dget (allocations a) id = Some n -> 0 < n /\ exists j, jobs0 !! id = Some j /\ allowed j;
  ai_res_keys : dkeys (residual a) = dkeys capacity;
  ai_res : forall r v, dget capacity r = Some v ->
    dget (residual a) r = Some (v - used_work (allocations a) r) /\ 0 <= v - used_work (allocations a) r;
  ai_queue_keys : dkeys (a_queues a) = dkeys queues0;
  ai_queues : forall k q0, dget queues0 k = Some q0 ->
    exists q, dget (a_queues a) k = Some q /\ sublist q q0 /\ live (a_jobs a) q = live (a_jobs a) q0 }.

Lemma spend_id al j : job_id (spend al j) = job_id j.
Proof. done. Qed.

Lemma coefficients_spend al j : coefficients c (spend al j) = coefficients c j.
Proof. done. Qed.

Lemma ai_find a id j0 : alloc_inv a -> jobs0 !! id = Some j0 -> a_jobs a !! id = Some (spend (allocations a) j0).
Proof. intros Ha Hj. by rewrite (ai_jobs _ Ha), Hj. Qed.

Lemma ai_find_inv a id j : alloc_inv a -> a_jobs a !! id = Some j ->
  exists j0, jobs0 !! id = Some j0 /\ j = spend (allocations a) j0 /\ job_id j = id.
Proof using Hso.
  intros Ha. rewrite (ai_jobs _ Ha). intros (j0 & Hj & ->)%fmap_Some. exists j0. split_and!; try done.
  by destruct (so_jobs Hso _ _ Hj).
Qed.

(** *** Candidates of a queue *)

(** The jobs of a live queue. *)
Definition job_list (m : gmap string job) (q : list string) : list job := omap (fun id => m !! id) q.

Lemma prune_queue_spec m q : (forall id, id ∈ q -> is_Some (m !! id)) ->
  prune_queue m q = Ok (job_list m (live m q)).
Proof.
  intros H. unfold prune_queue.
  assert (E : mapR (find_job m) q = Ok (job_list m q)).
  { induction q as [|id q IH]; [done|]. cbn [mapR]. destruct (H id ltac:(set_solver)) as [j Hj].
    unfold find_job at 1. rewrite Hj. cbn [of_option rbind]. rewrite IH by set_solver. cbn [rbind job_list omap list_omap]. by rewrite Hj. }
  rewrite E. cbn [rbind]. f_equal. clear E. induction q as [|id q IH]; [done|].
  destruct (H id ltac:(set_solver)) as [j Hj]. unfold live. rewrite filter_cons. rewrite Hj.
  cbn [job_list omap list_omap]. rewrite Hj. rewrite filter_cons. fold (job_list m q). rewrite IH by set_solver.
  destruct (0 <? admission_remaining_bytes j) eqn:E; case_decide; try lia; case_decide; try done.
  cbn [job_list omap list_omap]. by rewrite Hj.
Qed.

Lemma job_list_elem m q j : j ∈ job_list m q <-> exists id, id ∈ q /\ m !! id = Some j.
Proof. unfold job_list. by rewrite list_elem_of_omap. Qed.

Lemma job_list_ids m q : (forall id j, id ∈ q -> m !! id = Some j -> job_id j = id) ->
  (forall id, id ∈ q -> is_Some (m !! id)) -> job_id <$> job_list m q = q.
Proof.
  induction q as [|id q IH]; [done|]. intros H1 H2. destruct (H2 id ltac:(set_solver)) as [j Hj].
  cbn [job_list omap list_omap]. rewrite Hj. csimpl. rewrite (H1 id j) by set_solver. f_equal. apply IH; set_solver.
Qed.

(** [setdefault] over a list: one value per class, the first one. *)
Notation setdefault :=
  (foldl (fun (d : dict class job) j => if dmem d (scheduling_class j) then d else dset d (scheduling_class j) j)).

Lemma setdefault_spec js (d : dict class job) : NoDup (dkeys d) -> (forall k j, (k, j) ∈ d -> k = scheduling_class j) ->
  NoDup (dkeys (setdefault d js)) /\
  (forall k j, (k, j) ∈ setdefault d js -> k = scheduling_class j /\ ((k, j) ∈ d \/ j ∈ js)) /\
  (forall k, k ∈ dkeys d \/ k ∈ scheduling_class <$> js -> k ∈ dkeys (setdefault d js)).
Proof.
  revert d. induction js as [|j js IH]; intros d Hnd Hd; cbn [foldl].
  { split_and!; [done| |set_solver]. intros k j Hj. split; [eauto|by left]. }
  unfold dmem. destruct (dget d (scheduling_class j)) as [v|] eqn:E; cbn [dmem].
  - destruct (IH d Hnd Hd) as (H1 & H2 & H3). split_and!; [done| |].
    + intros k j' Hj. destruct (H2 _ _ Hj) as [? [?|?]]; (split; [done|]); [by left|by right; right].
    + intros k [Hk|Hk]; apply H3; [by left|]. csimpl in Hk. apply elem_of_cons in Hk as [->|Hk]; [left|by right].
      apply dget_is_Some. eauto.
  - assert (Hn : scheduling_class j ∉ dkeys d) by by apply dget_None.
    destruct (IH (dset d (scheduling_class j) j)) as (H1 & H2 & H3).
    { by apply NoDup_dkeys_dset. }
    { rewrite dkeys_dset_notin by done. intros k j' [Hj|Hj]%elem_of_app; [eauto|]. set_solver. }
    split_and!; [done| |].
    + intros k j' Hj. destruct (H2 _ _ Hj) as [-> [Hin|?]]; (split; [done|]); [|by right; right].
      rewrite dkeys_dset_notin in Hin by done. apply elem_of_app in Hin as [Hin|[= _ ->]%list_elem_of_singleton]; [by left|by right; left].
    + intros k Hk. apply H3. rewrite elem_dkeys_dset. csimpl in Hk. rewrite elem_of_cons in Hk. naive_solver.
Qed.

(** [first_by_class] keeps the first job of every class. *)
Lemma first_by_class_spec js :
  (forall j, j ∈ first_by_class js -> j ∈ js) /\ NoDup (scheduling_class <$> first_by_class js) /\
  (forall j, j ∈ js -> exists j', j' ∈ first_by_class js /\ scheduling_class j' = scheduling_class j).
Proof.
  destruct (setdefault_spec js [] ltac:(constructor) ltac:(set_solver)) as (H1 & H2 & H3).
  unfold first_by_class. match goal with |- context [isort _ (dvals ?x)] => set (d := x) in * end.
  assert (Hk : dkeys d = scheduling_class <$> dvals d).
  { unfold dkeys, dvals. rewrite <- list_fmap_compose. apply list_fmap_ext. intros i [k j] Hi%list_elem_of_lookup_2. by apply H2. }
  split_and!.
  - intros j. rewrite isort_elem. intros ([k j'] & -> & Hin)%list_elem_of_fmap. destruct (H2 _ _ Hin) as [_ [?|?]]; set_solver.
  - rewrite isort_perm, <- Hk. done.
  - intros j Hj. assert (Hin : scheduling_class j ∈ dkeys d) by (apply H3; right; by apply list_elem_of_fmap_2).
    rewrite Hk in Hin. apply list_elem_of_fmap in Hin as (j' & ? & ?). exists j'. by rewrite isort_elem.
Qed.

Lemma guard_reasons_nil maintenance states :
  guard_reasons maintenance states = [] <-> forall e st, (e, st) ∈ states -> stops maintenance st = false.
Proof.
  unfold guard_reasons. split.
  - intros H%fmap_nil_inv e st Hin. destruct (stops maintenance st) eqn:E; [|done].
    assert (Hf : (e, st) ∈ filter (fun row : string * endpoint_state => stops maintenance row.2 = true) states)
      by by apply list_elem_of_filter.
    rewrite H in Hf. by apply not_elem_of_nil in Hf.
  - intros H. rewrite (elem_of_nil_inv (filter _ states)); [done|].
    intros [e st] [Hs Hin]%list_elem_of_filter. simpl in Hs. rewrite (H e st Hin) in Hs. done.
Qed.

Lemma consider_spec rows cands j : job_ok c j ->
  exists rows', (exists coefs, consider c w (rows, cands) j = Ok (rows', cands ++ [(job_id j, coefs)]) /\
                   coefficients c j = Ok coefs /\ allowed j)
             \/ (consider c w (rows, cands) j = Ok (rows', cands) /\ ~ allowed j).
Proof using Hso.
  intros Hj. unfold consider. destruct (Z.leb_spec (w_end w) (arrival_ns j)) as [Ht|Ht].
  { exists rows. right. split; [done|]. intros [? _]. lia. }
  destruct (endpoints_total _ _ (so_cfg Hso) Hj) as (es & Hes & Hin). rewrite Hes. cbn [rbind].
  destruct (mapR_total (fun e => let? st := dindex (w_states w) e in Ok (e, st)) es) as [states Hst].
  { intros e He. destruct (so_states Hso e (Hin e He)) as [st Hs]. exists (e, st). by rewrite (proj2 (dindex_Ok _ _ _) Hs). }
  rewrite Hst. cbn [rbind].
  assert (Hall : guard_reasons (is_maintenance j) states = [] <-> allowed j).
  { rewrite guard_reasons_nil. split.
    - intros H. split; [done|]. exists es. split; [done|]. intros e He.
      destruct (so_states Hso e (Hin e He)) as [st Hs]. exists st. split; [done|]. apply (H e).
      rewrite mapR_Ok in Hst. apply list_elem_of_lookup in He as [i Hi].
      destruct (Forall2_lookup_l _ _ _ _ _ Hst Hi) as (y & Hy & E). rewrite (proj2 (dindex_Ok _ _ _) Hs) in E.
      injection E as <-. by apply list_elem_of_lookup_2 in Hy.
    - intros [_ (es' & Hes' & H)] e st He. assert (es' = es) as -> by congruence. destruct (mapR_elem _ _ _ _ Hst He) as (e' & He' & E). inv_ok.
      destruct (H _ He') as (st' & Hs & ?). match goal with H : dindex _ _ = Ok _ |- _ => apply dindex_Ok in H end. by simplify_eq. }
  destruct (guard_reasons (is_maintenance j) states) as [|reason reasons] eqn:E.
  - destruct (coefficients_total _ _ (so_cfg Hso) Hj) as (d & Hd & _). exists rows. left. exists d. rewrite Hd.
    split_and!; [done|done|]. by apply Hall.
  - assert (Hn : ~ allowed j) by (rewrite <- Hall; done). case_bool_decide; eexists; right; by split.
Qed.

Lemma consider_list_spec js rows cands : (forall j, j ∈ js -> job_ok c j) ->
  exists rows' new, foldM (consider c w) js (rows, cands) = Ok (rows', cands ++ new) /\ sublist (new.*1) (job_id <$> js) /\
    (forall x, x ∈ new -> exists j, j ∈ js /\ x.1 = job_id j /\ coefficients c j = Ok x.2 /\ allowed j) /\
    (forall j, j ∈ js -> allowed j -> exists x, x ∈ new /\ x.1 = job_id j /\ coefficients c j = Ok x.2).
Proof using Hso.
  revert rows cands. induction js as [|j js IH]; intros rows cands Hjs.
  { exists rows, []. rewrite app_nil_r. split_and!; try done; set_solver. }
  cbn [foldM]. destruct (consider_spec rows cands j) as (rows1 & [(coefs & -> & Hco & Hal)|[-> Hn]]); [set_solver| |];
    cbn [rbind].
  - destruct (IH rows1 (cands ++ [(job_id j, coefs)])) as (rows' & new & -> & Hs & H1 & H2); [set_solver|].
    exists rows', ((job_id j, coefs) :: new). rewrite <- app_assoc. split_and!; [done|by constructor| |].
    + intros x [->|Hx]%elem_of_cons; [exists j; set_solver|]. destruct (H1 x Hx) as (j' & ? & ?). exists j'. set_solver.
    + intros j' [->|Hj]%elem_of_cons Ha; [exists (job_id j, coefs); set_solver|].
      destruct (H2 j' Hj Ha) as (x & ? & ?). exists x. set_solver.
  - destruct (IH rows1 cands) as (rows' & new & -> & Hs & H1 & H2); [set_solver|].
    exists rows', new. split_and!; [done|by constructor| |].
    + intros x Hx. destruct (H1 x Hx) as (j' & ? & ?). exists j'. set_solver.
    + intros j' [->|Hj]%elem_of_cons Ha; [done|by apply H2].
Qed.

(** A candidate: a live job that its endpoints admit, with its coefficients. *)
Definition cand_ok (a : alloc) (x : cand) : Prop :=
  exists j0, jobs0 !! x.1 = Some j0 /\ coefficients c j0 = Ok x.2 /\ allowed j0 /\
    0 < admission_remaining_bytes j0 - admitted (allocations a) x.1.

(** Every allowed first job of a class is among the candidates. *)
Definition heads_in (m : gmap string job) (q : list string) (cands : list cand) : Prop :=
  forall j, j ∈ first_by_class (job_list m (live m q)) -> allowed j ->
    exists x, x ∈ cands /\ x.1 = job_id j /\ coefficients c j = Ok x.2.

Lemma queue_jobs a k q : alloc_inv a -> dget (a_queues a) k = Some q ->
  NoDup q /\ forall id, id ∈ q -> exists j0, jobs0 !! id = Some j0 /\ job_key j0 = k.
Proof using Hso.
  intros Ha Hq. assert (Hk : k ∈ dkeys queues0) by (rewrite <- (ai_queue_keys _ Ha); apply dget_is_Some; eauto).
  apply dget_is_Some in Hk as [q0 Hq0]. destruct (ai_queues _ Ha _ _ Hq0) as (q' & Hq' & Hs & _). simplify_eq.
  destruct (so_queues Hso _ _ Hq0) as [Hnd Hin]. split; [by eapply sublist_NoDup|].
  intros id Hid. apply Hin. by eapply elem_of_sublist.
Qed.

Lemma live_sublist m q : sublist (live m q) q.
Proof. unfold live. induction q as [|id q IH]; [done|]. rewrite filter_cons. case_decide; by constructor. Qed.

Lemma live_idemp m q : live m (live m q) = live m q.
Proof. apply filter_all. by intros id [? _]%list_elem_of_filter. Qed.

(** The candidates that one queue contributes. *)
Lemma consider_queue_spec a k q qs rows cands : alloc_inv a -> dget (a_queues a) k = Some q -> dget qs k = Some q ->
  exists rows' new, consider_queue c w (a_jobs a) (qs, rows, cands) k = Ok (dset qs k (live (a_jobs a) q), rows', cands ++ new) /\
    NoDup (new.*1) /\ heads_in (a_jobs a) q new /\
    (forall x, x ∈ new -> cand_ok a x /\ exists j0, jobs0 !! x.1 = Some j0 /\ job_key j0 = k).
Proof using Hso.
  intros Ha Haq Hq. destruct (queue_jobs _ _ _ Ha Haq) as [Hnd Hin].
  assert (Hsome : forall id, id ∈ q -> is_Some (a_jobs a !! id)).
  { intros id Hid. destruct (Hin id Hid) as (j0 & Hj0 & _). rewrite (ai_find _ _ _ Ha Hj0). eauto. }
  set (lq := live (a_jobs a) q). set (js := job_list (a_jobs a) lq).
  assert (Hlq : forall id, id ∈ lq -> id ∈ q) by (intros id Hid; eapply elem_of_sublist; [exact Hid|apply live_sublist]).
  assert (Hjs : forall j, j ∈ js -> exists j0, jobs0 !! job_id j = Some j0 /\ j = spend (allocations a) j0 /\ job_id j ∈ lq).
  { intros j (id & Hid & Hj)%job_list_elem. destruct (ai_find_inv _ _ _ Ha Hj) as (j0 & Hj0 & -> & E).
    exists j0. rewrite E. done. }
  assert (Hids : job_id <$> js = lq).
  { apply job_list_ids; [|by auto]. intros id j _ Hj. by destruct (ai_find_inv _ _ _ Ha Hj) as (? & _ & _ & ?). }
  unfold consider_queue. rewrite (proj2 (dindex_Ok _ _ _) Hq). cbn [rbind]. rewrite prune_queue_spec by done. cbn [rbind].
  fold lq js. destruct (first_by_class_spec js) as (Hf1 & Hf2 & _).
  destruct (consider_list_spec (first_by_class js) rows cands) as (rows' & new & -> & Hsub & Hn1 & Hn2).
  { intros j Hj%Hf1. destruct (Hjs j Hj) as (j0 & Hj0 & -> & _). destruct (so_jobs Hso _ _ Hj0) as (_ & [? ? ?] & _). by constructor. }
  cbn [rbind]. rewrite Hids. exists rows', new. split_and!; [done| |exact Hn2|].
  - eapply sublist_NoDup; [|exact Hsub]. apply NoDup_fmap_2_strong; [|by eapply NoDup_fmap_1].
    intros j j' (j0 & H1 & -> & _)%Hf1%Hjs (j0' & H2 & -> & _)%Hf1%Hjs E. rewrite E in H1. by simplify_eq.
  - intros x Hx. destruct (Hn1 x Hx) as (j & Hj%Hf1 & E1 & Hco & Hal). destruct (Hjs j Hj) as (j0 & Hj0 & Ej & Hlive).
    rewrite E1. split; [|exists j0; split; [done|]].
    + exists j0. rewrite E1. subst j. split_and!; try done.
      unfold lq, live in Hlive. apply list_elem_of_filter in Hlive as [Hp _]. rewrite (ai_find _ _ _ Ha Hj0) in Hp.
      by apply Z.ltb_lt in Hp.
    + destruct (Hin _ (Hlq _ Hlive)) as (j1 & ? & ?). by simplify_eq.
Qed.

Lemma NoDup_app_fst (l k : list cand) : NoDup (l.*1) -> NoDup (k.*1) -> (forall x y, x ∈ l -> y ∈ k -> x.1 <> y.1) ->
  NoDup ((l ++ k).*1).
Proof.
  intros Hl Hk Hd. rewrite fmap_app. apply NoDup_app. split_and!; try done.
  intros id (x & -> & Hx)%list_elem_of_fmap (y & E & Hy)%list_elem_of_fmap. by apply (Hd x y).
Qed.

Lemma heads_in_mono m q cands cands' : heads_in m q cands -> (forall x, x ∈ cands -> x ∈ cands') -> heads_in m q cands'.
Proof. intros H Hin j Hj Ha. destruct (H j Hj Ha) as (x & ? & ?). exists x. auto. Qed.

(** What one evaluation of [candidate] establishes. *)
Record candidates (a a' : alloc) (cands : list cand) : Prop := {
  cs_inv : alloc_inv a';
  cs_jobs : a_jobs a' = a_jobs a; cs_residual : residual a' = residual a; cs_allocations : allocations a' = allocations a;
  cs_nodup : NoDup (cands.*1);
  cs_ok : forall x, x ∈ cands -> cand_ok a' x;
  cs_queues : forall k q0, dget queues0 k = Some q0 ->
    dget (a_queues a') k = Some (live (a_jobs a') q0) /\ heads_in (a_jobs a') q0 cands }.

(** The scan of the queues, after the keys [scanned_keys]. *)
Definition scanned (a : alloc) (scanned_keys : list key) (acc : dict key (list string) * list blocked_row * list cand) : Prop :=
  let '(qs, rows, cands) := acc in
  dkeys qs = dkeys (a_queues a) /\
  (forall k q, dget (a_queues a) k = Some q -> dget qs k = Some (if decide (k ∈ scanned_keys) then live (a_jobs a) q else q)) /\
  NoDup (cands.*1) /\
  (forall x, x ∈ cands -> cand_ok a x /\ exists j0, jobs0 !! x.1 = Some j0 /\ job_key j0 ∈ scanned_keys) /\
  (forall k q, k ∈ scanned_keys -> dget (a_queues a) k = Some q -> heads_in (a_jobs a) q cands).

Lemma scan_step a ks k acc : alloc_inv a -> k ∈ dkeys (a_queues a) -> k ∉ ks -> scanned a ks acc ->
  exists acc', consider_queue c w (a_jobs a) acc k = Ok acc' /\ scanned a (ks ++ [k]) acc'.
Proof using Hso.
  intros Ha Hin Hkd. destruct acc as [[qs rows] cands]. intros (Hk & Hqs & Hnd & Hok & Hheads).
  apply dget_is_Some in Hin as [q Hq]. pose proof (Hqs k q Hq) as Hq'. rewrite decide_False in Hq' by done.
  destruct (consider_queue_spec a k q qs rows cands Ha Hq Hq') as (rows' & new & E & Hn1 & Hn2 & Hn3).
  eexists. split; [exact E|]. split_and!.
  - rewrite dkeys_dset_in; [done|]. apply dget_is_Some. eauto.
  - intros k' q1 Hq1. rewrite dget_dset. case_decide as Ek.
    + subst k'. simplify_eq. by rewrite decide_True by set_solver.
    + rewrite (Hqs _ _ Hq1). f_equal.
      destruct (decide (k' ∈ ks)); [rewrite decide_True by set_solver|rewrite decide_False by set_solver]; done.
  - apply NoDup_app_fst; try done. intros x y Hx Hy Exy. destruct (Hok x Hx) as (_ & j0 & Hj0 & Hd).
    destruct (Hn3 y Hy) as (_ & j1 & Hj1 & E1). rewrite Exy in Hj0. by simplify_eq.
  - intros x [Hx|Hx]%elem_of_app; [destruct (Hok x Hx) as (? & j0 & ? & ?)|destruct (Hn3 x Hx) as (? & j0 & ? & ?)];
      (split; [done|]); exists j0; set_solver.
  - intros k' q1 Hk' Hq1. apply elem_of_app in Hk' as [Hk'|Hk'%list_elem_of_singleton].
    + eapply heads_in_mono; [by eapply Hheads|]. set_solver.
    + simplify_eq. eapply heads_in_mono; [exact Hn2|]. set_solver.
Qed.

Lemma candidate_spec a : alloc_inv a -> exists a' cands, candidate c w a = Ok (a', cands) /\ candidates a a' cands.
Proof using Hso.
  intros Ha. unfold candidate.
  destruct (foldM_inv (scanned a) (consider_queue c w (a_jobs a)) (isort (lex sle sle) (dkeys (a_queues a)))
    (a_queues a, blocked a, [])) as ([[qs rows] cands] & -> & Hk & Hqs & Hnd & Hok & Hheads).
  - split_and!; [done| |constructor|set_solver|set_solver]. intros k q Hq. by rewrite decide_False by set_solver.
  - intros ks k todo acc El Hacc. apply scan_step; try done.
    + apply (isort_elem (lex sle sle)). rewrite El. set_solver.
    + assert (Hndl : NoDup (ks ++ k :: todo)).
      { rewrite <- El, isort_perm, (ai_queue_keys _ Ha). apply (so_queue_keys Hso). }
      apply NoDup_app in Hndl as (_ & Hd & _). intros Hkd. apply (Hd k Hkd). set_solver.
  - cbn [rbind]. eexists _, cands. split; [done|]. set (m := a_jobs a) in *.
    assert (Hall : forall k q0, dget queues0 k = Some q0 -> exists q, dget (a_queues a) k = Some q /\ dget qs k = Some (live m q0)
                     /\ live m q = live m q0 /\ k ∈ isort (lex sle sle) (dkeys (a_queues a))).
    { intros k q0 Hq0. destruct (ai_queues _ Ha _ _ Hq0) as (q & Hq & Hs & El). exists q. split; [done|].
      assert (Hin : k ∈ isort (lex sle sle) (dkeys (a_queues a))) by (apply isort_elem, dget_is_Some; eauto).
      rewrite (Hqs _ _ Hq), decide_True by done. unfold m. by rewrite El. }
    constructor; cbn [a_jobs a_queues residual allocations]; try done.
    + destruct Ha. constructor; cbn [a_jobs a_queues residual allocations]; try done; [congruence|].
      intros k q0 Hq0. destruct (Hall _ _ Hq0) as (q & Hq & Hl & _). exists (live m q0).
      split_and!; [done|apply live_sublist|apply live_idemp].
    + intros x Hx. apply (Hok x Hx).
    + intros k q0 Hq0. destruct (Hall _ _ Hq0) as (q & Hq & Hl & El & Hin). split; [done|].
      unfold heads_in. rewrite <- El. by apply (Hheads k q).
Qed.

(** *** Admitting bytes *)

Lemma consume_spec coefs amount res : NoDup (dkeys coefs) -> (forall r, r ∈ dkeys coefs -> r ∈ dkeys res) ->
  exists res', consume coefs amount res = Ok res' /\ dkeys res' = dkeys res /\
    forall r, dget res' r = (fun v => v - amount * dget_or coefs r 0) <$> dget res r.
Proof.
  unfold consume. revert res. induction coefs as [|[r0 n0] coefs IH]; intros res Hnd Hin; cbn [foldM].
  { exists res. split_and!; try done. intros r. destruct (dget res r); simpl; [f_equal; cbn; lia|done]. }
  csimpl in Hnd. apply NoDup_cons in Hnd as [Hn Hnd].
  destruct (proj2 (dget_is_Some res r0)) as [v Hv]; [apply Hin; set_solver|].
  rewrite (proj2 (dindex_Ok _ _ _) Hv). cbn [rbind].
  assert (Hk : dkeys (dset res r0 (v - amount * n0)) = dkeys res) by (apply dkeys_dset_in, dget_is_Some; eauto).
  destruct (IH (dset res r0 (v - amount * n0)) Hnd) as (res' & -> & Hk' & Hg); [intros r Hr; rewrite Hk; apply Hin; set_solver|].
  exists res'. split_and!; [done|congruence|]. intros r. rewrite Hg, dget_dset. unfold dget_or. cbn [dget].
  destruct (decide (r0 = r)) as [->|Hne].
  - rewrite (decide_True _ _ eq_refl). rewrite Hv. rewrite (proj2 (dget_None coefs r)) by done. simpl. f_equal. lia.
  - by rewrite decide_False by congruence.
Qed.

Lemma weighted_sum_add (al : dict string Z) id amount (f : string -> Z) :
  zsum ((fun x => x.2 * f x.1) <$> dset al id (dget_or al id 0 + amount)) =
  zsum ((fun x => x.2 * f x.1) <$> al) + amount * f id.
Proof.
  unfold dget_or, zsum. induction al as [|[k v] al IH]; [csimpl; lia|]. cbn [dget dset].
  destruct (decide (id = k)) as [->|]; csimpl in *; lia.
Qed.

Lemma used_work_add al id amount r :
  used_work (dset al id (dget_or al id 0 + amount)) r = used_work al r + amount * work_of id r.
Proof. apply (weighted_sum_add al id amount (fun id => work_of id r)). Qed.

Lemma live_mono m m' q q0 :
  (forall id, (match m' !! id with Some j => 0 <? admission_remaining_bytes j | None => false end) = true ->
              (match m !! id with Some j => 0 <? admission_remaining_bytes j | None => false end) = true) ->
  live m q = live m q0 -> live m' q = live m' q0.
Proof.
  intros H. enough (E : forall q, live m' (live m q) = live m' q) by (intros E1; by rewrite <- (E q), <- (E q0), E1).
  intros q1. unfold live. apply list_filter_filter_l. exact H.
Qed.

(** The effect of admitting [amount] bytes of one candidate. *)
Record admits (x : cand) (amount : Z) (a a' : alloc) : Prop := {
  ad_inv : alloc_inv a';
  ad_residual : forall r, dget_or (residual a') r 0 = dget_or (residual a) r 0 - amount * dget_or x.2 r 0;
  ad_admitted : forall id, admitted (allocations a') id = admitted (allocations a) id + (if decide (x.1 = id) then amount else 0);
  ad_unadmitted : unadmitted (a_jobs a') = unadmitted (a_jobs a) - amount }.

Definition has_capacity (a : alloc) (amount : Z) (coefs : dict string Z) : Prop :=
  forall r n, dget coefs r = Some n -> amount * n <= dget_or (residual a) r 0.

Lemma cand_positive a x : cand_ok a x -> positive x.2 /\ forall r, work_of x.1 r = dget_or x.2 r 0.
Proof using Hso.
  intros (j0 & Hj0 & Hco & _ & _). destruct (so_jobs Hso _ _ Hj0) as (_ & Hok & _).
  destruct (coefficients_total _ _ (so_cfg Hso) Hok) as (d & Hd & Hpos). split; [congruence|].
  intros r. unfold work_of. by rewrite Hj0, Hco.
Qed.

Lemma capacity_keys a amount x : cand_ok a x -> 0 < amount -> has_capacity a amount x.2 ->
  forall r, r ∈ dkeys x.2 -> r ∈ dkeys (residual a).
Proof using Hso.
  intros Hx Ham Hcap r Hr. destruct (cand_positive _ _ Hx) as [[_ Hpos] _]. apply dget_is_Some in Hr as [n Hn].
  apply dget_is_Some. pose proof (Hcap r n Hn). pose proof (Hpos r n Hn). unfold dget_or in *.
  destruct (dget (residual a) r); [eauto|]. nia.
Qed.

Lemma residual_nonneg a r v : alloc_inv a -> dget (residual a) r = Some v -> 0 <= v.
Proof.
  intros Ha Hv. assert (Hr : r ∈ dkeys capacity) by (rewrite <- (ai_res_keys _ Ha); apply dget_is_Some; eauto).
  apply dget_is_Some in Hr as [u Hu]. destruct (ai_res _ Ha _ _ Hu) as [E ?]. by simplify_eq.
Qed.

Lemma admitted_nonneg a id : alloc_inv a -> 0 <= admitted (allocations a) id.
Proof.
  intros Ha. unfold admitted, dget_or. destruct (dget (allocations a) id) eqn:E; [|done]. apply (ai_alloc _ Ha) in E as [? _]. lia.
Qed.

Lemma admitted_add al id amount i :
  admitted (dset al id (dget_or al id 0 + amount)) i = admitted al i + (if decide (id = i) then amount else 0).
Proof. unfold admitted. rewrite dget_or_dset. case_decide; [by subst|lia]. Qed.

Lemma alloc_inv_add a a' id j0 amount : alloc_inv a -> jobs0 !! id = Some j0 -> allowed j0 -> 0 < amount ->
  amount <= admission_remaining_bytes j0 - admitted (allocations a) id ->
  (forall i, a_jobs a' !! i = spend (allocations a') <$> jobs0 !! i) ->
  allocations a' = dset (allocations a) id (dget_or (allocations a) id 0 + amount) -> a_queues a' = a_queues a ->
  dkeys (residual a') = dkeys (residual a) ->
  (forall r, dget (residual a') r = (fun v => v - amount * work_of id r) <$> dget (residual a) r) ->
  (forall r v, dget (residual a) r = Some v -> amount * work_of id r <= v) -> alloc_inv a'.
Proof using Hso.
  intros Ha Hj0 Hal Ham Hle Hjobs Eal Eq Erk Hres Hcap.
  assert (Hadm : forall i, admitted (allocations a') i = admitted (allocations a) i + (if decide (id = i) then amount else 0)).
  { intros i. rewrite Eal. apply admitted_add. }
  constructor.
  - done.
  - intros i j Hj. rewrite Hadm. case_decide; [subst; simplify_eq; lia|]. pose proof (ai_left _ Ha _ _ Hj). lia.
  - rewrite Eal. apply NoDup_dkeys_dset, Ha.
  - intros i n. rewrite Eal, dget_dset. case_decide; [|apply Ha]. intros [= <-]. subst i. split; [|by eauto].
    pose proof (admitted_nonneg a id Ha). unfold admitted in *. lia.
  - rewrite Erk. apply Ha.
  - intros r v Hv. rewrite Eal, used_work_add, Hres. destruct (ai_res _ Ha _ _ Hv) as [Hr Hnn]. rewrite Hr.
    split; [simpl; f_equal; lia|]. specialize (Hcap _ _ Hr). lia.
  - rewrite Eq. apply Ha.
  - intros k q0 Hq0. rewrite Eq. destruct (ai_queues _ Ha _ _ Hq0) as (q & Hq & Hs & El). exists q. split_and!; [done|done|].
    eapply live_mono; [|exact El]. intros i. rewrite Hjobs, (ai_jobs _ Ha). destruct (jobs0 !! i) as [j|] eqn:Ej; [|done].
    simpl. destruct (so_jobs Hso _ _ Ej) as (-> & _). rewrite Hadm. intros Hlt%Z.ltb_lt. apply Z.ltb_lt. case_decide; lia.
Qed.

Lemma allocate_spec a x amount : alloc_inv a -> cand_ok a x -> 0 < amount ->
  (forall j, jobs0 !! x.1 = Some j -> amount <= admission_remaining_bytes j - admitted (allocations a) x.1) ->
  has_capacity a amount x.2 -> exists a', allocate x amount a = Ok a' /\ admits x amount a a'.
Proof using Hso.
  intros Ha Hx Ham Hle Hcap. destruct (cand_positive _ _ Hx) as [[Hnd Hpos] Hwork].
  pose proof (capacity_keys a amount x Hx Ham Hcap) as Hkeys.
  destruct Hx as (j0 & Hj0 & Hco & Hal & Hrem). specialize (Hle _ Hj0). destruct x as [id coefs]. simpl in *.
  destruct (so_jobs Hso _ _ Hj0) as (Eid & _ & _).
  unfold allocate. cbn [fst snd]. destruct (consume_spec coefs amount (residual a) Hnd Hkeys) as (res' & -> & Hrk & Hrg).
  cbn [rbind]. unfold find_job. rewrite (ai_find _ _ _ Ha Hj0). cbn [of_option rbind].
  eexists. split; [done|]. constructor; cbn [a_jobs residual allocations fst snd].
  - eapply (alloc_inv_add a _ id j0 amount); cbn [a_jobs residual allocations a_queues]; try done.
    + intros i. destruct (decide (id = i)) as [<-|Hne].
      * rewrite lookup_insert_eq, Hj0. cbn [fmap option_fmap option_map]. f_equal. unfold spend, with_remaining.
        cbn [admission_remaining_bytes]. rewrite Eid, admitted_add, decide_True by done. f_equal. lia.
      * rewrite lookup_insert_ne by done. rewrite (ai_jobs _ Ha). destruct (jobs0 !! i) as [j|] eqn:Ej; [|done].
        simpl. f_equal. unfold spend. destruct (so_jobs Hso _ _ Ej) as (-> & _). rewrite admitted_add, decide_False by done.
        by rewrite Z.add_0_r.
    + intros r. by rewrite Hwork.
    + intros r v Hv. rewrite Hwork. destruct (dget coefs r) as [n|] eqn:En; unfold dget_or; rewrite En.
      * specialize (Hcap r n En). unfold dget_or in Hcap. by rewrite Hv in Hcap.
      * pose proof (residual_nonneg _ _ _ Ha Hv). lia.
  - intros r. unfold dget_or at 1. rewrite Hrg. unfold dget_or. destruct (dget (residual a) r) eqn:Er; simpl; [done|].
    destruct (dget coefs r) as [n|] eqn:En; [|lia]. apply dget_None in Er. destruct Er. apply Hkeys, dget_is_Some. eauto.
  - intros i. apply admitted_add.
  - unfold unadmitted. rewrite (msum_insert _ _ _ _ _ (ai_find _ _ _ Ha Hj0)). simpl. lia.
Qed.

(** *** A round *)

Lemma fits_capacity a coefs : fits (residual a) coefs = true -> has_capacity a 1 coefs.
Proof.
  unfold fits. intros H r n Hn. rewrite forallb_forall in H. specialize (H (r, n)).
  apply dget_Some_elem, list_elem_of_In in Hn. specialize (H Hn). simpl in H. lia.
Qed.

Lemma fits_false a coefs : NoDup (dkeys coefs) -> fits (residual a) coefs = false ->
  exists r n, dget coefs r = Some n /\ dget_or (residual a) r 0 < n.
Proof.
  intros Hnd. unfold fits. induction coefs as [|[r n] coefs IH]; [done|]. csimpl in *. apply NoDup_cons in Hnd as [Hn Hnd].
  intros [H|H]%andb_false_iff.
  - exists r, n. rewrite decide_True by done. split; [done|]. lia.
  - destruct (IH Hnd H) as (r' & n' & Hg & Hlt). exists r', n'. rewrite decide_False; [done|].
    intros ->. apply Hn, dget_is_Some. eauto.
Qed.

Lemma users_app active active' r : users (active ++ active') r = users active r + users active' r.
Proof. unfold users. by rewrite fmap_app, zsum_app. Qed.

Lemma users_nonneg a active r : (forall x, x ∈ active -> cand_ok a x) -> 0 <= users active r.
Proof using Hso.
  intros H. apply zsum_nonneg, Forall_forall. intros n (x & -> & Hx)%list_elem_of_fmap.
  destruct (cand_positive _ _ (H x Hx)) as [[_ Hpos] _]. unfold dget_or. destruct (dget x.2 r) eqn:E; [|done]. apply Hpos in E. lia.
Qed.

(** The candidates that fit one byte: what both passes start from. *)
Record active_ok (a : alloc) (active : list cand) : Prop := {
  ac_inv : alloc_inv a; ac_nodup : NoDup (active.*1);
  ac_ok : forall x, x ∈ active -> cand_ok a x; ac_fits : forall x, x ∈ active -> fits (residual a) x.2 = true }.

Lemma active_keys a active x r : active_ok a active -> x ∈ active -> r ∈ dkeys x.2 -> r ∈ dkeys capacity.
Proof using Hso.
  intros Hac Hx Hr. rewrite <- (ai_res_keys _ (ac_inv _ _ Hac)). apply (capacity_keys a 1 x); try done.
  - by apply (ac_ok _ _ Hac).
  - by apply fits_capacity, (ac_fits _ _ Hac).
Qed.

(** A pass over the active candidates, up to [done]. *)
Record passed (a : alloc) (active visited : list cand) (a' : alloc) : Prop := {
  pa_inv : alloc_inv a';
  pa_other : forall id, id ∉ visited.*1 -> admitted (allocations a') id = admitted (allocations a) id }.

Lemma passed_ok a active visited x todo a' : active = visited ++ x :: todo -> active_ok a active -> passed a active visited a' ->
  cand_ok a' x /\ x.1 ∉ visited.*1.
Proof.
  intros -> Hac Hp. assert (Hn : x.1 ∉ visited.*1).
  { pose proof (ac_nodup _ _ Hac) as Hnd. rewrite fmap_app in Hnd. apply NoDup_app in Hnd as (_ & Hd & _).
    intros Hin. apply (Hd _ Hin). csimpl. set_solver. }
  split; [|done]. destruct (ac_ok _ _ Hac x ltac:(set_solver)) as (j0 & ? & ? & ? & ?). exists j0.
  by rewrite (pa_other _ _ _ _ Hp).
Qed.

Lemma passed_step a active visited x amount a' a'' : passed a active visited a' -> admits x amount a' a'' ->
  passed a active (visited ++ [x]) a''.
Proof.
  intros Hp Had. constructor; [apply Had|]. intros id Hid. rewrite fmap_app in Hid. csimpl in Hid.
  rewrite (ad_admitted _ _ _ _ Had), decide_False by set_solver. rewrite (pa_other _ _ _ _ Hp) by set_solver. lia.
Qed.

Lemma remaining_of_spec a id j0 : alloc_inv a -> jobs0 !! id = Some j0 ->
  remaining_of (a_jobs a) id = Ok (admission_remaining_bytes j0 - admitted (allocations a) id).
Proof using Hso.
  intros Ha Hj. unfold remaining_of, find_job. rewrite (ai_find _ _ _ Ha Hj). simpl. by destruct (so_jobs Hso _ _ Hj) as [-> _].
Qed.

Lemma share_pass a active share : active_ok a active -> 0 < share ->
  (forall x j, x ∈ active -> jobs0 !! x.1 = Some j -> share <= admission_remaining_bytes j - admitted (allocations a) x.1) ->
  (forall r v, dget (residual a) r = Some v -> share * users active r <= v) ->
  exists a', foldM (allocate_share share) active a = Ok a' /\ alloc_inv a' /\
    unadmitted (a_jobs a') = unadmitted (a_jobs a) - share * Z.of_nat (length active).
Proof using Hso.
  intros Hac Hs Hrem Hcap.
  destruct (foldM_inv (fun visited a' => passed a active visited a' /\
      (forall r, dget_or (residual a') r 0 = dget_or (residual a) r 0 - share * users visited r) /\
      unadmitted (a_jobs a') = unadmitted (a_jobs a) - share * Z.of_nat (length visited))
    (allocate_share share) active a) as (a' & E & Hp & _ & Hu).
  - split_and!; [constructor; [apply Hac|done]|intros r; cbn; lia|cbn; lia].
  - intros visited x todo a' El (Hp & Hr & Hu). destruct (passed_ok _ _ _ _ _ _ El Hac Hp) as [Hx Hnv].
    assert (Hin : x ∈ active) by (rewrite El; set_solver). unfold allocate_share.
    destruct Hx as (j0 & Hj0 & Hx). rewrite (remaining_of_spec _ _ _ (pa_inv _ _ _ _ Hp) Hj0). cbn [rbind].
    rewrite (pa_other _ _ _ _ Hp _ Hnv). specialize (Hrem x j0 Hin Hj0) as Hle. rewrite Z.min_l by done.
    destruct (allocate_spec a' x share) as (a'' & Ea & Had).
    + apply Hp.
    + exists j0. done.
    + done.
    + intros j Hj. simplify_eq. rewrite (pa_other _ _ _ _ Hp _ Hnv). done.
    + intros r n Hn. rewrite Hr.
      assert (Hk : r ∈ dkeys (residual a)).
      { rewrite (ai_res_keys _ (ac_inv _ _ Hac)). eapply (active_keys a active x); try done. apply dget_is_Some. eauto. }
      apply dget_is_Some in Hk as [v Hv]. specialize (Hcap r v Hv). unfold dget_or at 1. rewrite Hv.
      rewrite El, users_app in Hcap. change (x :: todo) with ([x] ++ todo) in Hcap. rewrite users_app in Hcap.
      assert (Ex : users [x] r = n) by (unfold users, dget_or; csimpl; rewrite Hn; cbn; lia). rewrite Ex in Hcap.
      pose proof (users_nonneg a todo r) as Htodo. assert (0 <= users todo r) by (apply Htodo; intros; apply Hac; rewrite El; set_solver). nia.
    + exists a''. split; [done|]. split_and!.
      * by eapply passed_step.
      * intros r. rewrite (ad_residual _ _ _ _ Had), Hr, users_app. unfold users at 3. csimpl. cbn. lia.
      * rewrite (ad_unadmitted _ _ _ _ Had), Hu, length_app. simpl. lia.
  - exists a'. split_and!; [done|apply Hp|done].
Qed.

Lemma enough_spec res coefs b : (forall r, r ∈ dkeys coefs -> r ∈ dkeys res) ->
  foldM (fun b '(r, n) => if b : bool then let? v := dindex res r in Ok (n <=? v) else Ok false) coefs b
  = Ok (b && fits res coefs).
Proof.
  revert b. induction coefs as [|[r n] coefs IH]; intros b H; cbn [foldM]; [by rewrite andb_true_r|].
  destruct (proj2 (dget_is_Some res r)) as [v Hv]; [apply H; set_solver|].
  destruct b; cbn [rbind].
  - rewrite (proj2 (dindex_Ok _ _ _) Hv). cbn [rbind]. rewrite IH by set_solver. unfold fits. cbn [forallb].
    unfold dget_or. by rewrite Hv.
  - by rewrite IH by set_solver.
Qed.

Lemma unit_pass a active : active_ok a active -> active <> [] ->
  exists a', foldM allocate_unit active (a, false) = Ok (a', true) /\ alloc_inv a' /\ unadmitted (a_jobs a') < unadmitted (a_jobs a).
Proof using Hso.
  intros Hac Hne.
  destruct (foldM_inv (fun visited '(a', p) => passed a active visited a' /\
      (visited = [] -> residual a' = residual a /\ unadmitted (a_jobs a') = unadmitted (a_jobs a)) /\
      (visited <> [] -> p = true /\ unadmitted (a_jobs a') < unadmitted (a_jobs a)))
    allocate_unit active (a, false)) as ([a' p] & E & Hp & _ & Hu).
  - split_and!; [constructor; [apply Hac|done]|done|done].
  - intros visited x todo [a' p] El (Hp & Hr & Hu). destruct (passed_ok _ _ _ _ _ _ El Hac Hp) as [Hx Hnv].
    assert (Hin : x ∈ active) by (rewrite El; set_solver). unfold allocate_unit. rewrite enough_spec.
    2: { intros r Hr'. rewrite (ai_res_keys _ (pa_inv _ _ _ _ Hp)). by eapply (active_keys a active x). }
    cbn [rbind andb]. destruct (fits (residual a') x.2) eqn:Ef.
    + destruct (allocate_spec a' x 1) as (a'' & Ea & Had); [apply Hp|done|done| |by apply fits_capacity|].
      { intros j Hj. destruct Hx as (j0 & Hj0 & _ & _ & ?). simplify_eq. lia. }
      rewrite Ea. cbn [rbind]. eexists. split; [done|]. pose proof (ad_unadmitted _ _ _ _ Had) as Hua.
      split_and!; [by eapply passed_step|by destruct visited|].
      intros _. split; [done|]. destruct (decide (visited = [])) as [->|Hv]; [destruct Hr; [done|]; lia|]. destruct (Hu Hv). lia.
    + eexists. split; [done|]. split_and!.
      * destruct Hp as [H1 H2]. constructor; [done|]. intros id Hid. apply H2. rewrite fmap_app in Hid. set_solver.
      * by destruct visited.
      * intros _. destruct (decide (visited = [])) as [->|Hv]; [|by apply Hu].
        destruct (Hr eq_refl) as [Er _]. rewrite Er, (ac_fits _ _ Hac x Hin) in Ef. done.
  - destruct (Hu Hne) as [-> ?]. exists a'. split_and!; [done|apply Hp|done].
Qed.

Lemma share_bounds_spec a active : active_ok a active -> active <> [] ->
  exists bounds share, share_bounds a active = Ok bounds /\ zmin_list bounds = Some share /\
    (forall x j, x ∈ active -> jobs0 !! x.1 = Some j -> share <= admission_remaining_bytes j - admitted (allocations a) x.1) /\
    (forall r v, dget (residual a) r = Some v -> 0 < share -> share * users active r <= v).
Proof using Hso.
  intros Hac Hne. unfold share_bounds.
  destruct (mapR_total (fun x => remaining_of (a_jobs a) x.1) active) as [own Hown].
  { intros x Hx. destruct (ac_ok _ _ Hac x Hx) as (j0 & Hj0 & _). rewrite (remaining_of_spec _ _ _ (ac_inv _ _ Hac) Hj0). eauto. }
  rewrite Hown. cbn [rbind]. eexists. pose proof (zmin_list_spec
    (own ++ omap (fun '(r, v) => if users active r =? 0 then None else Some (v / users active r)) (residual a))) as Hmin.
  destruct (zmin_list _) as [share|] eqn:Em in Hmin.
  2: { apply app_eq_nil in Hmin as [-> _]. rewrite mapR_Ok in Hown. by apply Forall2_nil_inv_r in Hown. }
  destruct Hmin as [_ Hmin]. exists share. split_and!; [done|exact Em| |].
  - intros x j Hx Hj. apply Hmin, elem_of_app. left. rewrite mapR_Ok in Hown. apply list_elem_of_lookup in Hx as [i Hi].
    destruct (Forall2_lookup_l _ _ _ _ _ Hown Hi) as (y & Hy & E). rewrite (remaining_of_spec _ _ _ (ac_inv _ _ Hac) Hj) in E.
    injection E as <-. by apply list_elem_of_lookup_2 in Hy.
  - intros r v Hv Hs. pose proof (users_nonneg a active r (ac_ok _ _ Hac)) as Hu.
    pose proof (residual_nonneg _ _ _ (ac_inv _ _ Hac) Hv). destruct (Z.eqb_spec (users active r) 0) as [E|E]; [lia|].
    assert (Hb : share <= v / users active r).
    { apply Hmin, elem_of_app. right. apply list_elem_of_omap. exists (r, v). split; [by apply dget_Some_elem|].
      by rewrite (proj2 (Z.eqb_neq _ _) E). }
    pose proof (Z.mul_div_le v (users active r)). nia.
Qed.

(** When the loop stops: the queues hold the jobs with bytes left, and no head of
    a class that its endpoints admit fits one more byte. *)
Definition exhausted (a : alloc) : Prop :=
  forall k q0, dget queues0 k = Some q0 ->
    dget (a_queues a) k = Some (live (a_jobs a) q0) /\
    forall j, j ∈ first_by_class (job_list (a_jobs a) (live (a_jobs a) q0)) -> allowed j ->
      exists coefs r n, coefficients c j = Ok coefs /\ dget coefs r = Some n /\ dget_or (residual a) r 0 < n.

Lemma round_spec a : alloc_inv a -> exists r, round c w a = Ok r /\
  match r with
  | inl a' => alloc_inv a' /\ unadmitted (a_jobs a') < unadmitted (a_jobs a)
  | inr a' => alloc_inv a' /\ exhausted a'
  end.
Proof using Hso.
  intros Ha. unfold round. destruct (candidate_spec a Ha) as (a1 & cands & -> & Hc). cbn [rbind].
  set (active := filter (fun x : cand => fits (residual a1) x.2 = true) cands).
  assert (Hac : active_ok a1 active).
  { constructor; [apply Hc| | |].
    - apply NoDup_fmap_filter, Hc.
    - intros x [_ Hx]%list_elem_of_filter. by apply (cs_ok _ _ _ Hc).
    - by intros x [Hx _]%list_elem_of_filter. }
  assert (Hu : unadmitted (a_jobs a1) = unadmitted (a_jobs a)) by by rewrite (cs_jobs _ _ _ Hc).
  destruct (decide (active = [])) as [E|Hne].
  - rewrite E. eexists. split; [done|]. split; [apply Hc|]. intros k q0 Hq0. destruct (cs_queues _ _ _ Hc _ _ Hq0) as [Hq Hh].
    split; [done|]. intros j Hj Hal. destruct (Hh j Hj Hal) as (x & Hx & _ & Hco).
    destruct (cand_positive _ _ (cs_ok _ _ _ Hc x Hx)) as [[Hnd _] _].
    destruct (fits (residual a1) x.2) eqn:Ef.
    + assert (x ∈ active) by by apply list_elem_of_filter. rewrite E in *. by apply not_elem_of_nil in H.
    + destruct (fits_false _ _ Hnd Ef) as (r & n & ? & ?). by exists x.2, r, n.
  - destruct (share_bounds_spec _ _ Hac Hne) as (bounds & share & Hb & Hm & Hrem & Hcap).
    destruct active as [|x0 active0] eqn:Eac; [done|]. rewrite Hb. cbn [rbind]. rewrite Hm. cbn [of_option rbind].
    destruct (Z.leb_spec share 0) as [Hs|Hs].
    + destruct (unit_pass _ _ Hac Hne) as (a' & -> & Hi & Hlt). cbn [rbind]. eexists. split; [done|]. split; [done|lia].
    + destruct (share_pass _ _ share Hac Hs Hrem) as (a' & -> & Hi & Hlt); [intros r v Hv; by apply Hcap|].
      cbn [rbind]. eexists. split; [done|]. split; [done|]. cbn [length] in Hlt. nia.
Qed.

Lemma unadmitted_nonneg a : alloc_inv a -> 0 <= unadmitted (a_jobs a).
Proof using Hso.
  intros Ha. apply msum_nonneg. intros id j Hj. destruct (ai_find_inv _ _ _ Ha Hj) as (j0 & Hj0 & -> & _). simpl.
  destruct (so_jobs Hso _ _ Hj0) as (-> & _). pose proof (ai_left _ Ha _ _ Hj0). lia.
Qed.

Lemma initial_alloc : alloc_inv {| a_jobs := jobs0; a_queues := queues0; residual := capacity; allocations := []; blocked := [] |}.
Proof using Hso.
  constructor; cbn [a_jobs a_queues residual allocations]; try done.
  - intros id. destruct (jobs0 !! id) as [j|]; [|done]. simpl. f_equal. unfold spend. cbn. rewrite Z.sub_0_r. by destruct j.
  - intros id j Hj. destruct (so_jobs Hso _ _ Hj) as (_ & _ & ?). unfold admitted, dget_or. simpl. lia.
  - constructor.
  - intros r v Hv. unfold used_work. simpl. rewrite Z.sub_0_r. split; [done|]. by apply (proj2 (so_capacity Hso) r).
  - intros k q0 Hq. by exists q0.
Qed.

Lemma allocation_loop_spec : exists a,
  allocation_loop c w {| a_jobs := jobs0; a_queues := queues0; residual := capacity; allocations := []; blocked := [] |} = Ok a /\
  alloc_inv a /\ exhausted a.
Proof using Hso.
  unfold allocation_loop. cbn [a_jobs]. pose proof (unadmitted_nonneg _ initial_alloc) as Hnn. cbn [a_jobs] in Hnn.
  destruct (ploop_terminates (round c w) alloc_inv (fun a => alloc_inv a /\ exhausted a) (fun a => unadmitted (a_jobs a)) round_spec
    (Z.to_pos (1 + unadmitted jobs0)) _ initial_alloc) as (a & -> & Ha); cbn [a_jobs].
  - done.
  - lia.
  - apply unadmitted_nonneg.
  - cbn [rbind]. exists a. done.
Qed.
End window.
End TopologyAllocation.
