(* ===== verification/TopologyInvariant.v ===== *)
(** * Invariant of the topology service

    The state invariant of [TopologyService] between windows, its preservation by
    every call of [advance] whatever its arguments, and what a receipt says:
    bounded resources, conserved foreground bytes, completions reported once. *)

From S2P Require Import Prelude BasicFabric TopologyConfig TopologyService TopologyAllocation.

Module TopologyInvariant.
Import TopologyConfig TopologyService TopologyAllocation.

(** Foreground bytes of a channel that a job still owes. *)
Definition owed (k : key) (j : job) : Z :=
  if foreground j && bool_decide (job_key j = k) then total_bytes j - completed_bytes j else 0.
Definition outstanding (m : gmap string job) (k : key) : Z := msum (fun _ j => owed k j) m.

(** A job between two windows: nothing in flight, something left to admit. *)
Record idle (s : service) (id : string) (j : job) : Prop := {
  id_name : job_id j = id; id_ok : job_ok (cfg s) j; id_left : 0 < admission_remaining_bytes j;
  id_done : 0 <= completed_bytes j; id_total : completed_bytes j + admission_remaining_bytes j = total_bytes j;
  id_pending : pending_batches j = 0; id_open : completion_ns j = None; id_known : id ∈ known_ids s }.

(** The per-channel totals: offered bytes are completed or outstanding. *)
Definition books (s : service) : Prop :=
  forall k, k ∈ channel_keys (cfg s) -> exists o n,
    cumulative_offered s !! k = Some o /\ cumulative_completed s !! k = Some n /\
    foreground_backlog s !! k = Some (outstanding (jobs s) k) /\ o = n + outstanding (jobs s) k.

Record svc_inv (s : service) : Prop := {
  si_cfg : cfg_ok (cfg s);
  si_jobs : forall id j, jobs s !! id = Some j -> idle s id j;
  si_queue_keys : dkeys (queues s) = channel_keys (cfg s);
  si_queues : forall k q, dget (queues s) k = Some q ->
    NoDup q /\ forall id, id ∈ q -> exists j, jobs s !! id = Some j /\ job_key j = k;
  si_queued : forall id j, jobs s !! id = Some j -> exists q, dget (queues s) (job_key j) = Some q /\ id ∈ q;
  si_inflight : inflight s = [];
  si_books : books s;
  si_external : forall id, id ∈ external_active s <-> exists j, jobs s !! id = Some j /\ external j = true;
  si_seen : forall id, id ∈ completion_ids_seen s -> id ∈ known_ids s /\ jobs s !! id = None }.

(** ** Keys *)

Lemma channel_keys_elem c st ch : (st, ch) ∈ channel_keys c <-> exists row, (st, row) ∈ channels c /\ ch ∈ dkeys row.
Proof.
  unfold channel_keys. rewrite list_elem_of_bind. split.
  - intros ([st' row] & Hk & Hin). apply list_elem_of_fmap in Hk as (ch' & [= -> ->] & Hc). eauto.
  - intros (row & Hin & Hc). exists (st, row). split; [by apply list_elem_of_fmap_2|done].
Qed.

Lemma channels_get c st row : cfg_ok c -> (st, row) ∈ channels c -> dget (channels c) st = Some row.
Proof. intros Hc. apply dget_elem. rewrite (co_stacks _ Hc). apply all_stacks_NoDup. Qed.

Lemma channel_keys_NoDup c : cfg_ok c -> NoDup (channel_keys c).
Proof.
  intros Hc. assert (Hnd : NoDup (dkeys (channels c))) by (rewrite (co_stacks _ Hc); apply all_stacks_NoDup).
  assert (Hrow : forall st row, (st, row) ∈ channels c -> NoDup (dkeys row)).
  { intros st row Hin. by apply (co_rates _ Hc st), channels_get. }
  unfold channel_keys. revert Hnd Hrow. generalize (channels c). clear. intros l.
  induction l as [|[st row] l IH]; intros Hnd Hrow; [constructor|]. csimpl in *. apply NoDup_cons in Hnd as [Hn Hnd].
  apply NoDup_app. split_and!.
  - apply NoDup_fmap_2; [intros ? ? [= ]; done|]. apply (Hrow st). set_solver.
  - intros k (ch & -> & _)%list_elem_of_fmap ([st' row'] & Hk & Hin)%list_elem_of_bind.
    apply list_elem_of_fmap in Hk as (? & [= -> ->] & _). apply Hn. by apply (list_elem_of_fmap_2 fst) in Hin.
  - apply IH; [done|]. intros st' row' Hin. apply (Hrow st'). set_solver.
Qed.

Lemma job_ok_key c j : cfg_ok c -> job_ok c j -> job_key j ∈ channel_keys c.
Proof.
  intros Hc Hj. destruct (jo_channel _ _ Hj) as (row & rate & Hrow & Hrate). apply channel_keys_elem. exists row.
  split; [by apply dget_Some_elem|]. apply dget_is_Some. eauto.
Qed.

Lemma zero_map_lookup l k : k ∈ l -> zero_map l !! k = Some 0.
Proof.
  intros Hk. unfold zero_map. induction l as [|a l IH]; [set_solver|]. csimpl. destruct (decide (a = k)) as [->|].
  - by rewrite lookup_insert_eq.
  - rewrite lookup_insert_ne by done. apply IH. set_solver.
Qed.

Lemma init_svc v s : init v = Ok s -> svc_inv s.
Proof.
  unfold init. intros H. inv_ok. match goal with H : _normalize _ = Ok _ |- _ => apply normalize_spec in H as Hc end.
  constructor; cbn [cfg jobs queues inflight external_active completion_ids_seen]; try done; try set_solver.
  - apply dkeys_map.
  - intros k q Hq. apply dget_Some_elem, list_elem_of_fmap in Hq as (k' & [= -> ->] & _). split; [constructor|set_solver].
  - intros k Hk. exists 0, 0. cbn [cfg jobs cumulative_offered cumulative_completed foreground_backlog] in *. by rewrite (zero_map_lookup _ _ Hk).
Qed.

(** ** New jobs *)

Definition fresh_job (s : service) (j : job) (n : Z) (fg : bool) : Prop :=
  job_ok (cfg s) j /\ job_id j ∉ known_ids s /\ total_bytes j = n /\ admission_remaining_bytes j = n /\
  completed_bytes j = 0 /\ foreground j = fg /\ pending_batches j = 0 /\ completion_ns j = None.

Lemma validate_route_relay c st ch raw : cfg_ok c -> st ∈ all_stacks (fabric c) ->
  _validate_route c st ch raw = Ok BasicFabric.Relay ->
  exists row p, dget (BasicFabric.cfg_hbf (fabric c)) st = Some row /\ BasicFabric.pair row = Some p.
Proof.
  intros Hc Hst H. unfold _validate_route in H. inv_ok.
  destruct (is_hbm c st) eqn:Ehbm; [by inv_ok|].
  assert (Hin : st ∈ dkeys (BasicFabric.cfg_hbf (fabric c))).
  { apply all_stacks_elem in Hst as [?|Hst]; [done|]. apply dget_is_Some in Hst as [? E]. unfold is_hbm, dmem in Ehbm. by rewrite E in Ehbm. }
  apply dget_is_Some in Hin as [row Hrow].
  assert (Ht : topo c = Relay \/ topo c = Dash).
  { match goal with H : _default_route _ _ _ = Ok _ |- _ => unfold _default_route in H; cbn [as_key rbind] in H; rewrite Ehbm in H; rename H into Hd end.
    destruct (topo c); auto; inv_ok; congruence. }
  destruct (co_paired _ Hc Ht st row Hrow) as [p Hp]. eauto.
Qed.

Lemma known_channel_spec c rs rc k : known_channel c rs rc = Ok k ->
  exists row rate, dget (channels c) k.1 = Some row /\ dget row k.2 = Some rate.
Proof.
  unfold known_channel. intros H. inv_ok.
  repeat match goal with H : of_option _ ?o = Ok _ |- _ => destruct o eqn:?; [injection H as <-|discriminate H] end.
  match goal with H : dmem ?row ?ch = true |- _ => unfold dmem in H; destruct (dget row ch) eqn:?; [|discriminate H] end. simpl. eauto.
Qed.

Lemma new_job_spec s ri rs rc ro rr n t fg ext rm rd j : cfg_ok (cfg s) ->
  new_job s ri rs rc ro rr n t fg ext rm rd = Ok j -> fresh_job s j n fg.
Proof.
  intros Hc H. unfold new_job in H. inv_ok. match goal with k : key |- _ => destruct k as [st ch] end. inv_ok.
  match goal with H : known_channel _ _ _ = Ok _ |- _ => apply known_channel_spec in H as (row & rate & Hrow & Hrate) end. simpl in *.
  match goal with H : fresh_id _ _ = Ok _ |- _ => unfold fresh_id in H; destruct ri; try discriminate H; inv_ok end.
  unfold fresh_job. cbn. split_and!; try done.
  - constructor; cbn.
    + eauto.
    + intros Hr. rewrite Hr. eauto.
    + match goal with |- (if ?b then _ else _) = _ -> _ => destruct b; [|done] end. intros [= ->].
      eapply validate_route_relay; [done| |done]. rewrite <- (co_stacks _ Hc). apply dget_is_Some. eauto.
  - match goal with H : negb (bool_decide _) = true |- _ => apply negb_true_iff, bool_decide_eq_false in H end. done.
Qed.

(** Intake touches neither the clock nor the reported completions. *)
Definition quiet (s s' : service) : Prop := now s' = now s /\ completion_ids_seen s' = completion_ids_seen s.

(** [d[k] += n] behind a condition. *)
Definition bump (b : bool) (k : key) (n : Z) (m : gmap key Z) : gmap key Z :=
  if b then match m !! k with Some v => <[k := v + n]> m | None => m end else m.

Lemma gadd_bump (b : bool) m k n v : m !! k = Some v -> (if b then gadd m k n else Ok m) = Ok (bump b k n m).
Proof. intros H. unfold bump, gadd. rewrite H. by destruct b. Qed.

Lemma bump_lookup (b : bool) m k n k' v : m !! k' = Some v ->
  bump b k n m !! k' = Some (v + if b && bool_decide (k = k') then n else 0).
Proof.
  intros H. unfold bump. destruct b; [|by rewrite Z.add_0_r]. simpl. case_bool_decide as E.
  - subst. rewrite H. by rewrite lookup_insert_eq.
  - rewrite Z.add_0_r. destruct (m !! k); [by rewrite lookup_insert_ne|done].
Qed.

Lemma owed_job k j : owed k j = if foreground j && bool_decide (job_key j = k) then total_bytes j - completed_bytes j else 0.
Proof. done. Qed.

Section insert_job.
Context (s : service) (j : job) (n : Z) (fg : bool).
Context (Hs : svc_inv s) (Hf : fresh_job s j n fg) (Hn : 0 < n).

Definition inserted (q : list string) : service :=
  {| cfg := cfg s; now := now s; next_sequence := next_sequence s + 1; auto_id := auto_id s;
     jobs := <[job_id j := j]> (jobs s); known_ids := {[job_id j]} ∪ known_ids s;
     external_active := if external j then {[job_id j]} ∪ external_active s else external_active s;
     queues := dset (queues s) (job_key j) (q ++ [job_id j]); inflight := inflight s;
     completion_ids_seen := completion_ids_seen s; maintenance_ids_seen := maintenance_ids_seen s;
     cumulative_offered := bump (foreground j) (job_key j) (total_bytes j) (cumulative_offered s);
     cumulative_completed := cumulative_completed s;
     foreground_backlog := bump (foreground j) (job_key j) (total_bytes j) (foreground_backlog s) |}.

Lemma fresh_none : jobs s !! job_id j = None.
Proof using Hs Hf.
  destruct Hf as (_ & Hnew & _). destruct (jobs s !! job_id j) as [j'|] eqn:E; [|done]. by apply (si_jobs _ Hs), id_known in E.
Qed.

Lemma inserted_lookup id j' : <[job_id j := j]> (jobs s) !! id = Some j' ->
  id = job_id j /\ j' = j \/ id <> job_id j /\ jobs s !! id = Some j'.
Proof using.
  destruct (decide (id = job_id j)) as [->|Hne]; [rewrite lookup_insert_eq; intros [= <-]; by left|].
  rewrite lookup_insert_ne by done. by right.
Qed.

Lemma inserted_books q : books (inserted q).
Proof using Hs Hf Hn.
  destruct Hf as (_ & _ & Ht & _ & Hc & _). intros k Hk. destruct (si_books _ Hs _ Hk) as (o & d & Ho & Hd & Hb & E).
  assert (Hout : outstanding (<[job_id j := j]> (jobs s)) k = outstanding (jobs s) k + owed k j).
  { unfold outstanding. rewrite msum_insert_new by apply fresh_none. lia. }
  cbn [inserted cumulative_offered cumulative_completed foreground_backlog jobs cfg]. rewrite Hout.
  eexists _, d. split_and!; [by apply bump_lookup|done|erewrite bump_lookup by exact Hb|]; rewrite owed_job, Ht, Hc.
  - f_equal. f_equal. case_match; lia.
  - rewrite E. case_match; lia.
Qed.

Lemma inserted_inv q : dget (queues s) (job_key j) = Some q -> svc_inv (inserted q).
Proof using Hs Hf Hn.
  intros Hq. pose proof fresh_none as Hnone. destruct Hf as (Hok & Hnew & Htot & Hrem & Hcomp & Hfg & Hpend & Hopen).
  assert (Hold : forall id j', jobs s !! id = Some j' -> id <> job_id j) by (intros id j' H ->; congruence).
  constructor; cbn [inserted cfg jobs queues inflight external_active completion_ids_seen].
  - apply Hs.
  - intros id j' [[-> ->]|[_ H]]%inserted_lookup.
    + constructor; cbn; try done; try lia. set_solver.
    + destruct (si_jobs _ Hs _ _ H). constructor; cbn; try done. set_solver.
  - rewrite dkeys_dset_in; [apply Hs|]. apply dget_is_Some. eauto.
  - intros k q'. rewrite dget_dset. case_decide as Ek.
    + intros [= <-]. subst k. destruct (si_queues _ Hs _ _ Hq) as [Hnd Hin]. split.
      * apply NoDup_app. split_and!; [done| |apply NoDup_singleton]. intros id Hid ->%list_elem_of_singleton.
        destruct (Hin _ Hid) as (j' & ? & _). congruence.
      * intros id [Hid| ->%list_elem_of_singleton]%elem_of_app; [|exists j; by rewrite lookup_insert_eq].
        destruct (Hin _ Hid) as (j' & Hj' & ?). exists j'. by rewrite lookup_insert_ne by (symmetry; eauto).
    + intros Hq'. destruct (si_queues _ Hs _ _ Hq') as [Hnd Hin]. split; [done|]. intros id Hid.
      destruct (Hin _ Hid) as (j' & Hj' & ?). exists j'. by rewrite lookup_insert_ne by (symmetry; eauto).
  - intros id j' [[-> ->]|[_ H]]%inserted_lookup; [exists (q ++ [job_id j]); rewrite dget_dset_eq; set_solver|].
    destruct (si_queued _ Hs _ _ H) as (q' & Hq' & Hin). rewrite dget_dset. case_decide as Ek; [|by eauto].
    rewrite <- Ek in Hq'. simplify_eq. eexists. split; [done|]. set_solver.
  - apply Hs.
  - apply inserted_books.
  - intros id. destruct (decide (id = job_id j)) as [->|Hne].
    + rewrite lookup_insert_eq. assert (Hne : job_id j ∉ external_active s).
      { intros (? & ? & _)%(si_external _ Hs). congruence. }
      destruct (external j) eqn:Ee; (split; [|intros (j0 & [= <-] & ?)]); try congruence; try done; [by exists j|set_solver].
    + rewrite lookup_insert_ne by done. rewrite <- (si_external _ Hs id). destruct (external j); set_solver.
  - intros id Hid. destruct (si_seen _ Hs _ Hid) as [Hkn Hno]. split; [set_solver|].
    rewrite lookup_insert_ne; [done|]. intros <-. done.
Qed.

Lemma insert_job_spec : exists s', insert_job j s = (Ok tt, s') /\ svc_inv s' /\ cfg s' = cfg s /\ quiet s s'.
Proof using Hs Hf Hn.
  assert (Hk : job_key j ∈ channel_keys (cfg s)) by (apply job_ok_key; [apply Hs|apply Hf]).
  destruct (proj2 (dget_is_Some (queues s) (job_key j))) as [q Hq]; [by rewrite (si_queue_keys _ Hs)|].
  destruct (si_books _ Hs _ Hk) as (o & d & Ho & Hd & Hb & Ebook). exists (inserted q).
  split; [|split_and!; [by apply inserted_inv|done|done]].
  unfold insert_job. erewrite sbind_step by reflexivity. cbv beta.
  erewrite sbind_step by (apply lift_Ok; apply dindex_Ok; exact Hq). cbv beta.
  by rewrite (gadd_bump _ _ _ _ _ Ho), (gadd_bump _ _ _ _ _ Hb).
Qed.
End insert_job.

(** Intake either fails and leaves the service as it was, or adds one job. *)
Lemma add_job_pres s ri rs rc ro rr n t fg ext rm rd r s' : svc_inv s -> 0 < n ->
  _add_job ri rs rc ro rr n t fg ext rm rd s = (r, s') ->
  svc_inv s' /\ cfg s' = cfg s /\ quiet s s' /\ forall j, r = Ok j -> job_key j ∈ channel_keys (cfg s).
Proof.
  intros Hs Hn. unfold _add_job. erewrite sbind_step by reflexivity. cbv beta.
  destruct (new_job s ri rs rc ro rr n t fg ext rm rd) as [j|e] eqn:E.
  - apply new_job_spec in E as Hf; [|apply Hs]. rewrite (sbind_step _ _ _ _ _ (lift_Ok _ _ s eq_refl)).
    destruct (insert_job_spec s j n fg Hs Hf Hn) as (s1 & H1 & Hs1 & Hc & Ht). rewrite (sbind_step _ _ _ _ _ H1).
    intros [= <- <-]. split_and!; try done. intros j' [= <-]. apply job_ok_key; [apply Hs|apply Hf].
  - rewrite (sbind_raise _ _ _ e s) by done. by intros [= <- <-].
Qed.

(** ** Intake *)

Lemma svc_inv_auto_id s n : svc_inv s -> svc_inv (set_auto_id n s).
Proof. intros [H1 H2 H3 H4 H5 H6 H7 H8 H9]. constructor; try done. intros id j Hj. by destruct (H2 _ _ Hj). Qed.

(** The intake of a window that started in state [s0]. *)
Definition intake_inv (s0 : service) (offered : gmap key Z) (s : service) : Prop :=
  svc_inv s /\ cfg s = cfg s0 /\ quiet s0 s /\ forall k, k ∈ channel_keys (cfg s0) -> is_Some (offered !! k).
Definition kept (s0 s : service) : Prop := svc_inv s /\ cfg s = cfg s0 /\ quiet s0 s.

Lemma gadd_total (offered : gmap key Z) (k : key) n (keys : list key) : (forall k, k ∈ keys -> is_Some (offered !! k)) -> k ∈ keys ->
  exists o', gadd offered k n = Ok o' /\ forall k, k ∈ keys -> is_Some (o' !! k).
Proof.
  intros H Hk. destruct (H k Hk) as [v Hv]. unfold gadd. rewrite Hv. eexists. split; [done|]. intros k' Hk'.
  destruct (decide (k = k')) as [->|]; [rewrite lookup_insert_eq; eauto|rewrite lookup_insert_ne by done; auto].
Qed.

(** Adding a job and booking its bytes in [offered_this_window]. *)
Lemma add_and_book s0 offered s ri rs rc ro rr n t fg ext rm rd (kf : job -> key) (b : bool) r s' :
  intake_inv s0 offered s -> 0 < n -> (forall j, job_key j ∈ channel_keys (cfg s0) -> kf j ∈ channel_keys (cfg s0)) ->
  sbind (_add_job ri rs rc ro rr n t fg ext rm rd) (fun j => if b then lift (gadd offered (kf j) n) else sret offered) s = (r, s') ->
  match r with Ok o' => intake_inv s0 o' s' | Raise _ => kept s0 s' end.
Proof.
  intros (Hs & Hc & Ht & Ho) Hn Hkf. unfold sbind.
  destruct (_add_job ri rs rc ro rr n t fg ext rm rd s) as [[j|e] s1] eqn:E;
    destruct (add_job_pres _ _ _ _ _ _ _ _ _ _ _ _ _ _ Hs Hn E) as (Hs1 & Hc1 & Ht1 & Hj).
  - destruct b; [|intros [= <- <-]; split_and!; unfold quiet in *; intuition congruence].
    destruct (gadd_total offered (kf j) n _ Ho) as (o' & -> & Ho').
    + apply Hkf. rewrite <- Hc. by apply Hj.
    + intros [= <- <-]. split_and!; unfold quiet in *; intuition congruence.
  - intros [= <- <-]. split_and!; unfold quiet in *; intuition congruence.
Qed.

(** Run one check of the intake; when it fails, the state is the one it started from. *)
Ltac intake_fail E Hi := injection E as <- <-; destruct Hi as (? & ? & ? & ?); by split_and!.
Ltac intake_step E Hi x Ex :=
  match type of E with
  | sbind (lift ?m) _ ?s = _ =>
      destruct m as [x|?] eqn:Ex;
      [rewrite (sbind_step _ _ _ _ _ (lift_Ok _ _ s eq_refl)) in E|rewrite (sbind_raise _ _ _ _ s) in E by done; intake_fail E Hi]
  | sbind (require ?b _) _ ?s = _ =>
      destruct b eqn:Ex;
      [rewrite (sbind_step _ _ _ _ _ (require_Ok true _ s eq_refl)) in E
      |rewrite (sbind_raise _ _ _ _ s) in E by done; intake_fail E Hi]
  end.

Lemma offer_channel_pres s0 t st row offered item s r s' : dget (channels (cfg s0)) st = Some row -> item.1 ∈ dkeys row ->
  intake_inv s0 offered s -> offer_channel t st offered item s = (r, s') ->
  match r with Ok o' => intake_inv s0 o' s' | Raise _ => kept s0 s' end.
Proof.
  intros Hrow Hch Hi E. destruct item as [ch raw]. unfold offer_channel in E.
  intake_step E Hi n En. apply BasicFabric.integer_Ok in En as [_ Hn].
  destruct (Z.eqb_spec n 0) as [->|Hne]; [by injection E as <- <-|].
  rewrite (sbind_step _ _ s s s) in E by done. erewrite sbind_step in E by reflexivity. cbv beta in E.
  assert (Hi' : intake_inv s0 offered (set_auto_id (auto_id s + 1) s)).
  { destruct Hi as (? & ? & ? & ?). split_and!; try done. by apply svc_inv_auto_id. }
  intake_step E Hi' rt Er.
  eapply (add_and_book s0 offered _ _ _ _ _ _ _ _ _ _ _ _ (fun _ => (st, ch)) true); [exact Hi'| | |exact E]; [cbn in Hn; lia|].
  intros _ _. apply channel_keys_elem. exists row. split; [by apply dget_Some_elem|done].
Qed.

Lemma offer_stack_pres s0 t offered item s r s' : intake_inv s0 offered s -> offer_stack t offered item s = (r, s') ->
  match r with Ok o' => intake_inv s0 o' s' | Raise _ => kept s0 s' end.
Proof.
  intros Hi E. destruct item as [st raw]. unfold offer_stack in E. rewrite (sbind_step _ _ s s s) in E by done.
  assert (Hc : cfg s = cfg s0) by apply Hi. rewrite Hc in E.
  intake_step E Hi row Er. apply dindex_Ok in Er. intake_step E Hi u Hall. apply bool_decide_eq_true in Hall. rewrite Forall_forall in Hall.
  revert Hi E. assert (Hsub : forall x, x ∈ raw -> x.1 ∈ dkeys row) by (intros x Hx; apply Hall; by apply list_elem_of_fmap_2).
  clear Hall Hc. revert offered s. induction raw as [|item raw IH]; intros offered s Hi; cbn [foldS].
  - by intros [= <- <-].
  - unfold sbind. destruct (offer_channel t st offered item s) as [[o1|e] s1] eqn:E1;
      pose proof (offer_channel_pres s0 t st row offered item s _ _ Er (Hsub item ltac:(set_solver)) Hi E1) as H1; simpl in H1.
    + apply IH; [set_solver|done].
    + by intros [= <- <-].
Qed.

Lemma admit_extra_pres s0 t0 t1 offered raw s r s' : intake_inv s0 offered s -> admit_extra t0 t1 offered raw s = (r, s') ->
  match r with Ok o' => intake_inv s0 o' s' | Raise _ => kept s0 s' end.
Proof.
  intros Hi E. unfold admit_extra in E. destruct raw; try (cbv [raise] in E; intake_fail E Hi).
  intake_step E Hi u Ef. intake_step E Hi t Et. intake_step E Hi u' Ew.
  rewrite (sbind_step _ _ s s s) in E by done.
  intake_step E Hi rt Er. intake_step E Hi n En. apply BasicFabric.integer_Ok in En as [_ Hn].
  eapply (add_and_book s0 offered _ _ _ _ _ _ _ _ _ _ _ _ job_key); [exact Hi| |done|exact E]; cbn in Hn; lia.
Qed.

(** Whatever the offered amounts and extra jobs, the intake keeps the invariant. *)
Lemma intake_pres w offered extra s r s' : svc_inv s -> intake w offered extra s = (r, s') ->
  match r with Ok o' => intake_inv s o' s' | Raise _ => kept s s' end.
Proof.
  intros Hs E. unfold intake in E. rewrite (sbind_step _ _ s s s) in E by done. unfold sbind in E.
  assert (H0 : intake_inv s (zero_map (dkeys (queues s))) s).
  { split_and!; try done. intros k Hk. rewrite (si_queue_keys _ Hs), zero_map_lookup by done. eauto. }
  destruct (foldS (offer_stack (w_start w)) offered (zero_map (dkeys (queues s))) s) as [[o1|e] s1] eqn:E1.
  - pose proof (foldS_pres (intake_inv s) (kept s) _ _ _ _ _ _ (offer_stack_pres s (w_start w)) H0 E1) as H1. simpl in H1.
    by apply (foldS_pres (intake_inv s) (kept s) _ _ _ _ _ _ (admit_extra_pres s (w_start w) (w_end w)) H1 E).
  - injection E as <- <-. exact (foldS_pres (intake_inv s) (kept s) _ _ _ _ _ _ (offer_stack_pres s (w_start w)) H0 E1).
Qed.

(** ** Allocation *)

Lemma resource_specs_total c : cfg_ok c -> exists specs, resource_specs c = Ok specs /\ dall BasicFabric.stage_ok specs.
Proof.
  intros Hc. pose proof (co_fabric _ Hc) as Hf. unfold resource_specs.
  assert (Hm : dall BasicFabric.stage_ok (media_specs c)).
  { apply dall_foldl; [apply dall_nil|]. intros d [st row] Hin Hd. apply dall_foldl; [done|]. intros d' [ch rate] Hch Hd'.
    apply dall_dset; [done|]. apply channels_get in Hin; [|done]. destruct (co_rates _ Hc _ _ Hin) as [Hnd Hr].
    split; cbn; [done|]. eapply Hr. by apply dget_elem. }
  destruct (foldM_inv (fun _ d => dall BasicFabric.stage_ok d) add_links (BasicFabric.cfg_hbf (fabric c)) _ Hm) as (links & -> & Hl).
  - intros l [st row] todo d El Hd.
    assert (Hrow : dget (BasicFabric.cfg_hbf (fabric c)) st = Some row) by (apply dget_elem; [apply Hf|]; rewrite El; set_solver).
    destruct (BasicFabric.co_hbf _ Hf _ _ Hrow) as [_ _ H1 H2 H3].
    assert (Hd2 : dall BasicFabric.stage_ok (dset (dset d (fill_name st) (BasicFabric.fill row)) (gpu_link_name st) (BasicFabric.direct_link row)))
      by (repeat apply dall_dset; done).
    unfold add_links. destruct (BasicFabric.pair row), (BasicFabric.relay_link row); try done; eexists; (split; [done|]); [|done].
    apply dall_dset; [done|]. apply H3.
  - cbn [rbind]. eexists. split; [done|]. apply dall_foldl; [done|]. intros d [st row] Hin Hd. apply dall_dset; [done|].
    apply (BasicFabric.ho_gpu row), (BasicFabric.co_hbm _ Hf st), dget_elem; [apply Hf|done].
Qed.

Lemma initial_capacity_total c w : cfg_ok c -> (forall st b, (st, b) ∈ w_budgets w -> 0 <= b) ->
  exists capacity, initial_capacity c w = Ok capacity /\ dall (fun v => 0 <= v) capacity.
Proof.
  intros Hc Hb. unfold initial_capacity. destruct (resource_specs_total c Hc) as (specs & -> & Hsp). cbn [rbind].
  pose proof (co_scale _ Hc). eexists. split; [done|]. apply dall_foldl.
  - eapply (dall_fmap _ _ (stage_capacity (w_end w - w_start w) (work_scale c))); [exact Hsp|].
    intros st [_ Hbw]. unfold stage_capacity. apply Z.div_pos; [|done]. repeat apply Z.mul_nonneg_nonneg; lia.
  - intros d [st b] Hin Hd. apply dall_dset; [done|]. specialize (Hb _ _ Hin). nia.
Qed.

(** What an accepted window provides. *)
Record window_ok (s : service) (w : window_input) : Prop := {
  wo_start : w_start w = now s; wo_end : w_end w = now s + WINDOW_NS;
  wo_budgets : forall st b, (st, b) ∈ w_budgets w -> 0 <= b;
  wo_states : dkeys (w_states w) = dkeys (channels (cfg s)) }.

Lemma check_window_spec s t0 t1 ks budgets states w : check_window s t0 t1 ks budgets states = Ok w -> window_ok s w.
Proof.
  unfold check_window. intros H. inv_ok. constructor; cbn [w_start w_end w_budgets w_states].
  - lia.
  - lia.
  - intros st b Hin. match goal with H : mapR _ _ = Ok ?l, Hin : _ ∈ ?l |- _ => destruct (mapR_elem _ _ _ _ H Hin) as (? & _ & ?) end.
    inv_ok. match goal with H : _integer _ _ _ = Ok b |- _ => apply BasicFabric.integer_Ok in H as [_ H] end. cbn in *. lia.
  - match goal with H : mapR _ _ = Ok ?l |- dkeys ?l = _ => apply (mapR_keys id) in H; [by rewrite list_fmap_id in H|] end.
    intros st st' e E. by inv_ok.
Qed.

Lemma inv_start_ok s w capacity : svc_inv s -> window_ok s w -> dall (fun v => 0 <= v) capacity ->
  start_ok (cfg s) w (jobs s) (queues s) capacity.
Proof.
  intros Hs Hw Hcap. constructor.
  - apply Hs.
  - intros id j Hj. by destruct (si_jobs _ Hs _ _ Hj).
  - rewrite (si_queue_keys _ Hs). apply channel_keys_NoDup, Hs.
  - apply Hs.
  - intros st Hst. apply dget_is_Some. by rewrite (wo_states _ _ Hw).
  - done.
Qed.

(** The state after the allocation: jobs with their admitted bytes taken off. *)
Record allocated (s : service) (w : window_input) (capacity : dict string Z) (a : alloc) (s' : service) : Prop := {
  al_start : start_ok (cfg s) w (jobs s) (queues s) capacity;
  al_inv : alloc_inv (cfg s) w (jobs s) (queues s) capacity a;
  al_exhausted : exhausted (cfg s) w (queues s) a;
  al_state : s' = set_queues (a_queues a) (set_jobs (a_jobs a) s) }.

Lemma allocate_window_total s w : svc_inv s -> window_ok s w ->
  exists capacity a s', allocate_window w s = (Ok (capacity, a), s') /\ allocated s w capacity a s' /\
    initial_capacity (cfg s) w = Ok capacity.
Proof.
  intros Hs Hw. unfold allocate_window. rewrite (sbind_step _ _ s s s) by done.
  destruct (initial_capacity_total (cfg s) w (si_cfg _ Hs) (wo_budgets _ _ Hw)) as (capacity & Ec & Hcap).
  rewrite (sbind_step _ _ s _ s (lift_Ok _ _ s Ec)).
  pose proof (inv_start_ok _ _ _ Hs Hw Hcap) as Hso. destruct (allocation_loop_spec _ _ _ _ _ Hso) as (a & Ea & Ha & Hx).
  rewrite (sbind_step _ _ s _ s (lift_Ok _ _ s Ea)). erewrite sbind_step by reflexivity.
  exists capacity, a, (set_queues (a_queues a) (set_jobs (a_jobs a) s)). split_and!; [done| |done]. by constructor.
Qed.

(** ** Settlement *)

Lemma buffer_capacity_total c j : cfg_ok c -> job_ok c j -> exists n, _buffer_capacity c j = Ok n.
Proof.
  intros Hc Hj. unfold _buffer_capacity. destruct (dget (BasicFabric.cfg_hbf (fabric c)) (stack j)) as [row|] eqn:E.
  - destruct (job_route j) as [[]|] eqn:Er; eauto. destruct (jo_relay _ _ Hj Er) as (row' & p & Hrow & Hp). simplify_eq.
    destruct (hbf_pair _ _ _ _ Hc E Hp) as (_ & peer & Hpeer). rewrite Hp. cbn [of_option rbind].
    rewrite (proj2 (dindex_Ok _ _ _) Hpeer). eauto.
  - case_match; eauto.
Qed.

Lemma pipeline_total c j n t : cfg_ok c -> job_ok c j -> exists e, _pipeline_completion c j n t = Ok e.
Proof.
  intros Hc Hj. unfold _pipeline_completion. destruct (phase_resources_total _ _ Hc Hj) as (ph & -> & _).
  destruct (buffer_capacity_total _ _ Hc Hj) as (cap & ->). cbn [rbind]. case_match; eauto.
Qed.

Lemma buffer_specs_total c j : cfg_ok c -> job_ok c j -> exists specs, _buffer_specs c j = Ok specs.
Proof.
  intros Hc Hj. unfold _buffer_specs.
  destruct (dget (BasicFabric.cfg_hbf (fabric c)) (stack j)) as [row|] eqn:E.
  - destruct (job_route j) as [[]|] eqn:Er; eauto. destruct (jo_relay _ _ Hj Er) as (row' & p & Hrow & Hp). simplify_eq.
    destruct (hbf_pair _ _ _ _ Hc E Hp) as (_ & peer & Hpeer). rewrite Hp. cbn [of_option rbind].
    rewrite (proj2 (dindex_Ok _ _ _) Hpeer). eauto.
  - apply dget_None in E. pose proof (job_ok_stack _ _ Hc Hj) as Hst. apply all_stacks_elem in Hst as [?|Hst]; [done|].
    apply dget_is_Some in Hst as [row Hrow]. rewrite (proj2 (dindex_Ok _ _ _) Hrow). eauto.
Qed.

Lemma buffer_rows_total c j n e t : cfg_ok c -> job_ok c j -> exists rows, buffer_rows c j n e t = Ok rows.
Proof.
  intros Hc Hj. unfold buffer_rows. destruct (is_read_operation (op j)); cbn [negb]; [|eauto].
  destruct (buffer_specs_total _ _ Hc Hj) as (specs & ->). cbn [rbind]. eauto.
Qed.

Lemma activity_rows_total c j n t0 t1 : cfg_ok c -> job_ok c j -> exists rows, _activity_rows c j n t0 t1 = Ok rows.
Proof.
  intros Hc Hj. unfold _activity_rows. cbv zeta. destruct (is_read_operation (op j)) eqn:Eo; cbn [negb]; [|eauto].
  destruct (is_hbm c (stack j)); [eauto|]. destruct (jo_read _ _ Hj Eo) as [r Hr]. rewrite Hr. destruct r; [eauto|].
  destruct (jo_relay _ _ Hj Hr) as (row & p & Hrow & Hp). rewrite (proj2 (dindex_Ok _ _ _) Hrow). cbn [rbind].
  rewrite Hp. cbn [of_option rbind]. eauto.
Qed.

(** What settlement and completion leave alone. *)
Record frame (s s' : service) : Prop := {
  fr_cfg : cfg s' = cfg s; fr_now : now s' = now s; fr_known : known_ids s' = known_ids s;
  fr_external : external_active s' = external_active s; fr_queues : queues s' = queues s;
  fr_offered : cumulative_offered s' = cumulative_offered s }.

Definition settle_job (w : window_input) (j : job) : job := with_batch (Z.max (w_start w) (arrival_ns j)) (w_end w) j.

(** The settlement of the items [items] from state [s] to [s']. *)
Record settled (w : window_input) (s : service) (items : list (string * Z)) (s' : service) : Prop := {
  se_frame : frame s s'; se_seen : completion_ids_seen s' = completion_ids_seen s;
  se_completed : cumulative_completed s' = cumulative_completed s; se_backlog : foreground_backlog s' = foreground_backlog s;
  se_jobs : forall id, jobs s' !! id = (fun j => if decide (id ∈ items.*1) then settle_job w j else j) <$> jobs s !! id;
  se_batches : (fun b : batch => (b.1.2, b.2)) <$> inflight s' ≡ₚ items;
  se_times : forall b, b ∈ inflight s' -> b.1.1.1 = w_end w }.

Lemma settle_step w s items id n acc s' j : cfg_ok (cfg s) -> settled w s items s' -> id ∉ items.*1 -> jobs s !! id = Some j ->
  job_ok (cfg s) j -> exists acc' s'', settle w acc (id, n) s' = (Ok acc', s'') /\ settled w s (items ++ [(id, n)]) s''.
Proof.
  intros Hc Hse Hid Hj Hok. destruct acc as [acts bufs]. unfold settle.
  assert (Ec : cfg s' = cfg s) by apply Hse.
  assert (Hj' : find_job (jobs s') id = Ok j).
  { unfold find_job. rewrite (se_jobs _ _ _ _ Hse), Hj. simpl. by rewrite decide_False. }
  rewrite (sbind_step _ _ s' s' s') by done. rewrite (sbind_step _ _ s' _ s' (lift_Ok _ _ s' Hj')). cbv beta zeta.
  rewrite Ec. destruct (pipeline_total (cfg s) j n (Z.max (w_start w) (arrival_ns j)) Hc Hok) as [e He].
  rewrite (sbind_step _ _ s' _ s' (lift_Ok _ _ s' He)). erewrite sbind_step by reflexivity. cbv beta.
  assert (Hok' : job_ok (cfg s) (settle_job w j)) by (destruct Hok; by constructor).
  destruct (activity_rows_total (cfg s) (settle_job w j) n (w_start w) (w_end w) Hc Hok') as [rows Hr].
  destruct (buffer_rows_total (cfg s) (settle_job w j) n e (w_end w) Hc Hok') as [bs Hb].
  rewrite (sbind_step _ _ _ _ _ (lift_Ok _ _ _ Hr)), (sbind_step _ _ _ _ _ (lift_Ok _ _ _ Hb)).
  eexists _, _. split; [done|]. destruct Hse as [[? ? ? ? ? ?] ? ? ? Hjobs Hbat Htimes].
  constructor; cbn [completion_ids_seen cumulative_completed foreground_backlog jobs inflight bump_sequence set_inflight set_jobs]; try done.
  - intros i. rewrite fmap_app. destruct (decide (id = i)) as [<-|Hne].
    + rewrite lookup_insert_eq, Hj. simpl. by rewrite decide_True by set_solver.
    + rewrite lookup_insert_ne, Hjobs by done. destruct (jobs s !! i); simpl; [|done]. f_equal.
      destruct (decide (i ∈ items.*1)); [rewrite decide_True by set_solver|rewrite decide_False by set_solver]; done.
  - rewrite (fmap_Permutation _ _ _ (sinsert_perm _ _ _)). csimpl. rewrite Hbat. by rewrite Permutation_app_comm.
  - intros b Hb'. apply sinsert_elem in Hb' as [->|Hb']; [done|auto].
Qed.

Lemma settle_items w s items acc : cfg_ok (cfg s) -> inflight s = [] -> NoDup (items.*1) ->
  (forall id, id ∈ items.*1 -> exists j, jobs s !! id = Some j /\ job_ok (cfg s) j) ->
  exists acc' s', foldS (settle w) items acc s = (Ok acc', s') /\ settled w s items s'.
Proof.
  intros Hc Hin Hnd Hj. apply (foldS_inv (fun visited _ s' => settled w s visited s')).
  - constructor; try done; [|by rewrite Hin|rewrite Hin; set_solver].
    intros id. destruct (jobs s !! id); done.
  - intros visited [id n] todo acc' s' El Hse. rewrite El, fmap_app in Hnd, Hj.
    destruct (Hj id) as (j & Hjj & Hok); [csimpl; set_solver|]. eapply settle_step; try done.
    apply NoDup_app in Hnd as (_ & Hd & _). intros Hin'. apply (Hd _ Hin'). csimpl. set_solver.
Qed.

Lemma by_sequence_total m al : (forall id, id ∈ dkeys al -> is_Some (m !! id)) ->
  exists items, by_sequence m al = Ok items /\ items ≡ₚ al.
Proof.
  intros H. unfold by_sequence.
  destruct (mapR_total (fun '(id, n) => let? j := find_job m id in Ok (sequence j, (id, n))) al) as [rows Hr].
  { intros [id n] Hin. destruct (H id) as [j Hj]; [by apply (list_elem_of_fmap_2 fst) in Hin|]. unfold find_job. rewrite Hj. eexists. done. }
  rewrite Hr. cbn [rbind]. eexists. split; [done|]. rewrite (fmap_Permutation _ _ _ (isort_perm _ _)).
  rewrite mapR_Ok in Hr. clear H. induction Hr as [|[id n] y al rows E Hr IH]; [done|]. csimpl. inv_ok. by rewrite IH.
Qed.

(** ** Completion *)

(** The last batch of a fully admitted job. *)
Definition finished (j : job) : bool := (admission_remaining_bytes j =? 0) && (pending_batches j - 1 =? 0).
Definition finish_job (t n : Z) (j : job) : job :=
  if finished j then with_completion t (without_batch n j) else without_batch n j.

(** The effect of completing one batch of [n] bytes of job [j]. *)
Record completes (t n : Z) (j : job) (acc : completions) (s : service) (acc' : completions) (s' : service) : Prop := {
  cm_frame : frame s s'; cm_jobs : jobs s' = <[job_id j := finish_job t n j]> (jobs s);
  cm_completed : cumulative_completed s' = bump (foreground j) (job_key j) n (cumulative_completed s);
  cm_backlog : foreground_backlog s' = bump (foreground j) (job_key j) (- n) (foreground_backlog s);
  cm_channel : by_channel acc' = bump (foreground j) (job_key j) n (by_channel acc);
  cm_delays : dkeys (delay_samples acc') = dkeys (delay_samples acc);
  cm_ids : completion_ids acc' = completion_ids acc ++
    (if finished j && external j && negb (bool_decide (job_id j ∈ completion_ids_seen s)) then [job_id j] else []);
  cm_seen : completion_ids_seen s' =
    (if finished j && external j && negb (bool_decide (job_id j ∈ completion_ids_seen s))
     then {[job_id j]} ∪ completion_ids_seen s else completion_ids_seen s);
  cm_inflight : inflight s' = inflight s }.

Lemma deliver_spec j t n acc s : (forall k, k = job_key j ->
    is_Some (by_channel acc !! k) /\ is_Some (cumulative_completed s !! k) /\ is_Some (foreground_backlog s !! k)) ->
  stack j ∈ dkeys (delay_samples acc) ->
  exists samples, deliver j t n acc s =
    (Ok {| by_channel := bump true (job_key j) n (by_channel acc); by_job := by_job acc;
           delay_samples := dset (delay_samples acc) (stack j) samples;
           completion_ids := completion_ids acc; maintenance_ids := maintenance_ids acc |},
     {| cfg := cfg s; now := now s; next_sequence := next_sequence s; auto_id := auto_id s; jobs := jobs s;
        known_ids := known_ids s; external_active := external_active s; queues := queues s;
        inflight := inflight s; completion_ids_seen := completion_ids_seen s;
        maintenance_ids_seen := maintenance_ids_seen s; cumulative_offered := cumulative_offered s;
        cumulative_completed := bump true (job_key j) n (cumulative_completed s);
        foreground_backlog := bump true (job_key j) (- n) (foreground_backlog s) |}).
Proof.
  intros H Hst. destruct (H _ eq_refl) as ([x Hx] & [d Hd] & [b Hb]). apply dget_is_Some in Hst as [q Hq].
  exists (q ++ [(t - arrival_ns j, n)]). unfold deliver.
  pose proof (gadd_bump true _ _ n _ Hx) as E1. pose proof (gadd_bump true _ _ n _ Hd) as E2.
  pose proof (gadd_bump true _ _ (-n) _ Hb) as E3. cbv iota in E1, E2, E3.
  unfold sbind, get, lift, put, sret. by rewrite E1, E2, E3, (proj2 (dindex_Ok _ _ _) Hq).
Qed.

(** The part of [complete_batch] after the accounting. *)
Lemma report_done_spec j t acc s : exists acc' s', report_done j t acc s = (Ok acc', s') /\
  jobs s' = <[job_id j := with_completion t j]> (jobs s) /\ frame s s' /\
  cumulative_completed s' = cumulative_completed s /\ foreground_backlog s' = foreground_backlog s /\
  inflight s' = inflight s /\ by_channel acc' = by_channel acc /\ delay_samples acc' = delay_samples acc /\
  let new := external j && negb (bool_decide (job_id j ∈ completion_ids_seen s)) in
  completion_ids acc' = completion_ids acc ++ (if new then [job_id j] else []) /\
  completion_ids_seen s' = (if new then {[job_id j]} ∪ completion_ids_seen s else completion_ids_seen s).
Proof.
  unfold report_done, sbind, modify, get, sret. cbn [completion_ids_seen set_jobs].
  destruct (external j && negb (bool_decide (job_id j ∈ completion_ids_seen s)));
    destruct (maintenance_id j) as [m|]; try case_bool_decide; eexists _, _; (split; [reflexivity|]); by split_and!.
Qed.

Lemma complete_batch_spec acc t q id n s j : jobs s !! id = Some j -> job_id j = id ->
  is_Some (by_channel acc !! job_key j) -> is_Some (cumulative_completed s !! job_key j) ->
  is_Some (foreground_backlog s !! job_key j) -> stack j ∈ dkeys (delay_samples acc) ->
  exists acc' s', complete_batch acc (t, q, id, n) s = (Ok acc', s') /\ completes t n j acc s acc' s'.
Proof.
  intros Hj Eid H1 H2 H3 Hst. unfold complete_batch.
  rewrite (sbind_step _ _ s s s) by done. erewrite sbind_step by (unfold find_job; rewrite Hj; reflexivity).
  cbv beta zeta. erewrite sbind_step by reflexivity. cbv beta.
  set (s1 := set_jobs _ s). set (acc1 := Build_completions _ _ _ _ _).
  assert (Hdel : exists acc2 s2, (if foreground (without_batch n j) then deliver (without_batch n j) t n acc1 else sret acc1) s1
            = (Ok acc2, s2) /\ jobs s2 = jobs s1 /\ frame s s2 /\
            cumulative_completed s2 = bump (foreground j) (job_key j) n (cumulative_completed s) /\
            foreground_backlog s2 = bump (foreground j) (job_key j) (- n) (foreground_backlog s) /\
            by_channel acc2 = bump (foreground j) (job_key j) n (by_channel acc) /\
            dkeys (delay_samples acc2) = dkeys (delay_samples acc) /\ completion_ids acc2 = completion_ids acc /\
            completion_ids_seen s2 = completion_ids_seen s /\ inflight s2 = inflight s).
  { cbn [foreground without_batch]. destruct (foreground j) eqn:Ef.
    - destruct (deliver_spec (without_batch n j) t n acc1 s1) as [samples ->]; [by intros k ->|done|].
      eexists _, _. split; [reflexivity|]. split_and!; try done. cbn. apply dkeys_dset_in. done.
    - eexists _, _. split; [reflexivity|]. by split_and!. }
  destruct Hdel as (acc2 & s2 & E & Ejobs & Hfr & Ec & Eb & Ech & Ed & Ei & Es & Ein).
  rewrite (sbind_step _ _ _ _ _ E). cbn [admission_remaining_bytes pending_batches without_batch]. fold (finished j).
  assert (Ej1 : jobs s2 = <[id := without_batch n j]> (jobs s)) by by rewrite Ejobs.
  destruct (finished j) eqn:Efin.
  - destruct (report_done_spec (without_batch n j) t acc2 s2) as (acc3 & s3 & -> & F1 & F2 & F3 & F4 & F5 & F6 & F7 & F8 & F9).
    cbn [job_id external without_batch] in *. rewrite Es in F8, F9. exists acc3, s3. split; [done|].
    constructor; try congruence.
    + destruct Hfr, F2. constructor; congruence.
    + rewrite F1, Ej1, <- Eid, insert_insert_eq. unfold finish_job. by rewrite Efin.
    + rewrite Efin, F8, Ei. done.
    + rewrite Efin, F9. done.
  - exists acc2, s2. split; [done|]. constructor; try congruence.
    + rewrite Ej1, <- Eid. unfold finish_job. by rewrite Efin.
    + rewrite Efin, app_nil_r. done.
    + rewrite Efin. done.
Qed.

Section completion.
Context (s3 : service) (t : Z) (al : dict string Z).

(** The allocated jobs, each with one batch in flight. *)
Record in_flight : Prop := {
  if_cfg : cfg_ok (cfg s3); if_books : books s3; if_keys : NoDup (dkeys al);
  if_jobs : forall id, id ∈ dkeys al -> exists j, jobs s3 !! id = Some j /\ job_id j = id /\ job_ok (cfg s3) j /\
    pending_batches j = 1 /\ id ∉ completion_ids_seen s3 }.
Context (Hif : in_flight).

Record completing (visited : list string) (acc : completions) (s : service) : Prop := {
  cp_frame : frame s3 s;
  cp_jobs : forall id, jobs s !! id = (fun j => if decide (id ∈ visited) then finish_job t (admitted al id) j else j) <$> jobs s3 !! id;
  cp_books : books s;
  cp_channel : forall k, k ∈ channel_keys (cfg s3) -> exists x d, by_channel acc !! k = Some x /\
    cumulative_completed s3 !! k = Some d /\ cumulative_completed s !! k = Some (d + x);
  cp_delays : dkeys (delay_samples acc) = dkeys (channels (cfg s3));
  cp_nodup : NoDup (completion_ids acc);
  cp_ids : forall id, id ∈ completion_ids acc <->
    id ∈ visited /\ exists j, jobs s3 !! id = Some j /\ external j = true /\ admission_remaining_bytes j = 0;
  cp_seen : forall id, id ∈ completion_ids_seen s <-> id ∈ completion_ids_seen s3 \/ id ∈ completion_ids acc }.

Lemma owed_finish k n j : owed k (finish_job t n j) = owed k j - (if foreground j && bool_decide (job_key j = k) then n else 0).
Proof using.
  unfold owed, finish_job. destruct (finished j); cbn [foreground total_bytes completed_bytes job_key with_completion without_batch];
    change (job_key (with_completion t (without_batch n j))) with (job_key j);
    change (job_key (without_batch n j)) with (job_key j); case_match; lia.
Qed.

Lemma completes_books n j acc s acc' s' : books s -> jobs s !! job_id j = Some j -> completes t n j acc s acc' s' -> books s'.
Proof using.
  intros Hb Hj [Hfr Ej Ec Eb _ _ _ _ _] k Hk. rewrite (fr_cfg _ _ Hfr) in Hk. destruct (Hb k Hk) as (o & d & Ho & Hd & Hbk & E).
  assert (Hout : outstanding (jobs s') k = outstanding (jobs s) k - (if foreground j && bool_decide (job_key j = k) then n else 0)).
  { rewrite Ej. unfold outstanding. rewrite (msum_insert _ _ _ _ _ Hj), owed_finish. lia. }
  exists o. eexists. rewrite Hout, Ec, Eb, (fr_offered _ _ Hfr). split_and!; [done|by apply bump_lookup|erewrite bump_lookup by exact Hbk|].
  - f_equal. case_match; lia.
  - case_match; lia.
Qed.

Lemma complete_step visited acc s id n q : completing visited acc s -> (id, n) ∈ al -> id ∉ visited ->
  exists acc' s', complete_batch acc (t, q, id, n) s = (Ok acc', s') /\ completing (visited ++ [id]) acc' s' /\ inflight s' = inflight s.
Proof using Hif.
  intros Hcp Hin Hnv. destruct (if_jobs Hif id) as (j & Hj3 & Eid & Hok & Hpend & Hns); [by apply (list_elem_of_fmap_2 fst) in Hin|].
  assert (Hn : admitted al id = n) by (unfold admitted, dget_or; by rewrite (dget_elem _ _ _ (if_keys Hif) Hin)).
  assert (Hj : jobs s !! id = Some j) by (rewrite (cp_jobs _ _ _ Hcp), Hj3; simpl; by rewrite decide_False).
  pose proof (job_ok_key _ _ (if_cfg Hif) Hok) as Hk.
  destruct (cp_channel _ _ _ Hcp _ Hk) as (x & d & Hx & Hd & Hd'). pose proof (fr_cfg _ _ (cp_frame _ _ _ Hcp)) as Ecfg.
  destruct (cp_books _ _ _ Hcp (job_key j)) as (o & d' & _ & _ & Hb & _); [by rewrite Ecfg|].
  destruct (complete_batch_spec acc t q id n s j) as (acc' & s' & E & Hc); try done; [by eauto..| |].
  { rewrite (cp_delays _ _ _ Hcp). destruct (jo_channel _ _ Hok) as (row & _ & Hrow & _). apply dget_is_Some. eauto. }
  exists acc', s'. split; [done|]. split; [|apply Hc].
  assert (Hnew : id ∉ completion_ids_seen s).
  { intros [?|(? & _)%(cp_ids _ _ _ Hcp)]%(cp_seen _ _ _ Hcp); done. }
  assert (Hfin : finished j = (admission_remaining_bytes j =? 0)) by (unfold finished; rewrite Hpend; by rewrite andb_true_r).
  pose proof (completes_books n j acc s acc' s' (cp_books _ _ _ Hcp) ltac:(by rewrite Eid) Hc) as Hbooks.
  destruct Hc as [Hfr Ej Ec Eb Ech Ed Ei Es _]. rewrite Eid, Hfin in *.
  rewrite (bool_decide_eq_false_2 (id ∈ completion_ids_seen s)) in Ei, Es by done. rewrite andb_true_r in Ei, Es.
  assert (Hids : forall i, i ∈ completion_ids acc' <-> i ∈ completion_ids acc \/ (i = id /\ external j = true /\ admission_remaining_bytes j = 0)).
  { intros i. rewrite Ei. destruct (Z.eqb_spec (admission_remaining_bytes j) 0), (external j); simpl; set_solver. }
  constructor; try done.
  - destruct Hfr, (cp_frame _ _ _ Hcp). constructor; congruence.
  - intros i. rewrite Ej. destruct (decide (id = i)) as [<-|Hne].
    + rewrite lookup_insert_eq, Hj3. simpl. rewrite decide_True by set_solver. by rewrite Hn.
    + rewrite lookup_insert_ne, (cp_jobs _ _ _ Hcp) by done. destruct (jobs s3 !! i); [|done]. cbn [fmap option_fmap option_map]. f_equal.
      destruct (decide (i ∈ visited)); [rewrite decide_True by set_solver|rewrite decide_False by set_solver]; done.
  - intros k Hk'. destruct (cp_channel _ _ _ Hcp _ Hk') as (x1 & d1 & Hx1 & Hd1 & Hd1'). rewrite Ech, Ec.
    eexists _, d1. split_and!; [by apply bump_lookup|done|erewrite bump_lookup by exact Hd1'; f_equal; lia].
  - rewrite Ed. apply Hcp.
  - rewrite Ei. case_match; [|rewrite app_nil_r; apply Hcp]. apply NoDup_app. split_and!; [apply Hcp| |apply NoDup_singleton].
    intros i Hi ->%list_elem_of_singleton. apply (cp_ids _ _ _ Hcp) in Hi as [? _]. done.
  - intros i. rewrite Hids, (cp_ids _ _ _ Hcp). split.
    + intros [(? & ?)|(-> & ? & ?)]; [split; [set_solver|done]|]. split; [set_solver|]. by exists j.
    + intros [[?| ->%list_elem_of_singleton]%elem_of_app (j' & Hj' & ?)]; [left; eauto|]. right. by simplify_eq.
  - intros i. rewrite Hids, Es. pose proof (cp_seen _ _ _ Hcp i).
    destruct (Z.eqb_spec (admission_remaining_bytes j) 0), (external j); set_solver.
Qed.

Lemma complete_loop_spec l visited acc s : completing visited acc s -> inflight s = l ->
  (forall b, b ∈ l -> b.1.1.1 = t /\ (b.1.2, b.2) ∈ al) -> NoDup (visited ++ ((fun b : batch => b.1.2) <$> l)) ->
  exists acc' s', complete_loop l t acc s = (Ok acc', s') /\
    completing (visited ++ ((fun b : batch => b.1.2) <$> l)) acc' s' /\ inflight s' = [].
Proof using Hif.
  revert visited acc s. induction l as [|[[[t' q] id] n] l IH]; intros visited acc s Hcp Hl Hb Hnd.
  - exists acc, s. by rewrite app_nil_r.
  - destruct (Hb (t', q, id, n)) as [Et Hin]; [set_solver|]. simpl in Et, Hin. subst t'.
    cbn [complete_loop fst snd]. rewrite Z.leb_refl. erewrite sbind_step by reflexivity.
    assert (Hcp' : completing visited acc (set_inflight l s)).
    { destruct Hcp as [[] ? ? ? ? ? ? ?]. by constructor. }
    destruct (complete_step visited acc (set_inflight l s) id n q Hcp' Hin) as (acc1 & s1 & E & Hcp1 & Hl1).
    { apply NoDup_app in Hnd as (_ & Hd & _). intros Hv. apply (Hd _ Hv). csimpl. set_solver. }
    rewrite (sbind_step _ _ _ _ _ E). destruct (IH (visited ++ [id]) acc1 s1) as (acc2 & s2 & E2 & Hcp2 & Hl2); [done|done| | |].
    + intros b Hbl. apply Hb. set_solver.
    + rewrite <- app_assoc. exact Hnd.
    + exists acc2, s2. rewrite <- app_assoc in Hcp2. done.
Qed.
End completion.

(** ** A whole window *)

(** A job after the window, from its state after the intake. *)
Definition final_job (w : window_input) (al : dict string Z) (id : string) (j : job) : job :=
  if decide (id ∈ dkeys al) then finish_job (w_end w) (admitted al id) (settle_job w (spend al j)) else spend al j.

Record closing (s : service) (w : window_input) (a : alloc) (acc : completions) (s' : service) : Prop := {
  cl_cfg : cfg s' = cfg s; cl_now : now s' = now s; cl_known : known_ids s' = known_ids s;
  cl_external : external_active s' = external_active s; cl_queues : queues s' = a_queues a;
  cl_jobs : forall id, jobs s' !! id = final_job w (allocations a) id <$> jobs s !! id;
  cl_books : books s';
  cl_channel : forall k, k ∈ channel_keys (cfg s) -> exists x d, by_channel acc !! k = Some x /\
    cumulative_completed s !! k = Some d /\ cumulative_completed s' !! k = Some (d + x);
  cl_delays : dkeys (delay_samples acc) = dkeys (channels (cfg s));
  cl_nodup : NoDup (completion_ids acc);
  cl_ids : forall id, id ∈ completion_ids acc <-> exists j, jobs s !! id = Some j /\ external j = true /\
    id ∈ dkeys (allocations a) /\ admitted (allocations a) id = admission_remaining_bytes j;
  cl_seen : forall id, id ∈ completion_ids_seen s' <-> id ∈ completion_ids_seen s \/ id ∈ completion_ids acc;
  cl_inflight : inflight s' = [] }.

Lemma books_ext s s' : cfg s' = cfg s -> cumulative_offered s' = cumulative_offered s ->
  cumulative_completed s' = cumulative_completed s -> foreground_backlog s' = foreground_backlog s ->
  (forall k, outstanding (jobs s') k = outstanding (jobs s) k) -> books s -> books s'.
Proof. intros E1 E2 E3 E4 E5 Hb k Hk. rewrite E2, E3, E4, E5. apply Hb. congruence. Qed.

Lemma outstanding_map (m m' : gmap string job) (f : string -> job -> job) k : (forall id, m' !! id = f id <$> m !! id) ->
  (forall id j, owed k (f id j) = owed k j) -> outstanding m' k = outstanding m k.
Proof. intros Hm Ho. apply msum_ext. intros id. rewrite Hm. destruct (m !! id); simpl; [|done]. by rewrite Ho. Qed.

Section closing_proof.
Context (s : service) (w : window_input) (capacity : dict string Z) (a : alloc).
Context (Hs : svc_inv s) (Ha : alloc_inv (cfg s) w (jobs s) (queues s) capacity a).
(** The state after the allocation. *)
Notation s2 := (set_queues (a_queues a) (set_jobs (a_jobs a) s)).

Lemma allocated_job id : id ∈ dkeys (allocations a) -> exists j, jobs s !! id = Some j /\ idle s id j.
Proof using Hs Ha.
  intros [n Hn]%dget_is_Some. apply (ai_alloc _ _ _ _ _ _ Ha) in Hn as [_ (j & Hj & _)]. exists j. split; [done|]. by apply Hs.
Qed.

Lemma settle_stage : exists items acts s3, by_sequence (jobs s2) (allocations a) = Ok items /\ items ≡ₚ allocations a /\
  foldS (settle w) items ([], []) s2 = (Ok acts, s3) /\ settled w s2 items s3.
Proof using Hs Ha.
  destruct (by_sequence_total (jobs s2) (allocations a)) as (items & Ei & Hitems).
  { intros id (j & Hj & _)%allocated_job. cbn. rewrite (ai_jobs _ _ _ _ _ _ Ha), Hj. eauto. }
  assert (Hkeys : items.*1 ≡ₚ dkeys (allocations a)) by (by apply fmap_Permutation).
  destruct (settle_items w s2 items ([], [])) as (acts & s3 & E3 & Hse); [apply Hs|apply Hs|rewrite Hkeys; apply Ha| |].
  - intros id Hid. rewrite Hkeys in Hid. destruct (allocated_job id Hid) as (j & Hj & Hidle). exists (spend (allocations a) j).
    cbn. rewrite (ai_jobs _ _ _ _ _ _ Ha), Hj. split; [done|]. destruct (id_ok _ _ _ Hidle). by constructor.
  - by exists items, acts, s3.
Qed.

Lemma settled_lookup items s3 id : items ≡ₚ allocations a -> settled w s2 items s3 ->
  jobs s3 !! id = (fun j => if decide (id ∈ dkeys (allocations a)) then settle_job w (spend (allocations a) j) else spend (allocations a) j)
                  <$> jobs s !! id.
Proof using Hs Ha.
  intros Hi Hse. assert (Hkeys : items.*1 ≡ₚ dkeys (allocations a)) by (by apply fmap_Permutation).
  rewrite (se_jobs _ _ _ _ Hse). cbn [jobs set_queues set_jobs]. rewrite (ai_jobs _ _ _ _ _ _ Ha).
  destruct (jobs s !! id); [|done]. cbn [fmap option_fmap option_map]. f_equal.
  destruct (decide (id ∈ items.*1)) as [Hin|Hin]; rewrite Hkeys in Hin; [by rewrite decide_True|by rewrite decide_False].
Qed.

Lemma settled_books items s3 : items ≡ₚ allocations a -> settled w s2 items s3 -> books s3.
Proof using Hs Ha.
  intros Hi Hse. pose proof (fun id => settled_lookup items s3 id Hi Hse) as Hj. destruct Hse as [[F1 F2 F3 F4 F5 F6] G1 G2 G3 _ _ _].
  eapply (books_ext s); [done..| |apply Hs]. intros k.
  eapply (outstanding_map _ _ (fun id j => if decide (id ∈ dkeys (allocations a)) then settle_job w (spend (allocations a) j)
                                           else spend (allocations a) j)); [exact Hj|]. intros id j. by case_decide.
Qed.

Lemma settled_in_flight items s3 : items ≡ₚ allocations a -> settled w s2 items s3 -> in_flight s3 (allocations a).
Proof using Hs Ha.
  intros Hi Hse. pose proof (se_frame _ _ _ _ Hse) as Hfr. constructor.
  - rewrite (fr_cfg _ _ Hfr). apply Hs.
  - by eapply settled_books.
  - apply Ha.
  - intros id Hid. destruct (allocated_job id Hid) as (j & Hj & [? [] ? ? ? Hp ? ?]).
    rewrite (settled_lookup items s3 id Hi Hse), Hj. cbn [fmap option_fmap option_map]. rewrite decide_True by done.
    eexists. split; [done|]. split_and!; [done|rewrite (fr_cfg _ _ Hfr); by constructor|cbn; lia|].
    rewrite (se_seen _ _ _ _ Hse). cbn. intros Hseen. apply (si_seen _ Hs) in Hseen as [_ ?]. congruence.
Qed.

Lemma settled_completing items s3 : items ≡ₚ allocations a -> settled w s2 items s3 ->
  completing s3 (w_end w) (allocations a) [] (no_completions s3) s3.
Proof using Hs Ha.
  intros Hi Hse. pose proof (settled_books items s3 Hi Hse) as Hb. constructor; try done.
  - intros id. by destruct (jobs s3 !! id).
  - intros k Hk. destruct (Hb k Hk) as (o & d & _ & Hd & _). exists 0, d. cbn [by_channel no_completions].
    rewrite zero_map_lookup, Z.add_0_r; [done|]. rewrite (fr_queues _ _ (se_frame _ _ _ _ Hse)). cbn [queues set_queues].
    rewrite (ai_queue_keys _ _ _ _ _ _ Ha), (si_queue_keys _ Hs). by rewrite (fr_cfg _ _ (se_frame _ _ _ _ Hse)) in Hk.
  - apply dkeys_map.
  - constructor.
  - intros id. cbn. set_solver.
  - intros id. cbn. set_solver.
Qed.

Lemma completing_closing items s3 visited acc s4 : items ≡ₚ allocations a -> settled w s2 items s3 ->
  visited ≡ₚ dkeys (allocations a) -> completing s3 (w_end w) (allocations a) visited acc s4 -> inflight s4 = [] ->
  closing s w a acc s4.
Proof using Hs Ha.
  intros Hi Hse Hv Hc Hl. pose proof (fun id => settled_lookup items s3 id Hi Hse) as Hj3.
  destruct (cp_frame _ _ _ _ _ _ Hc) as [E1 E2 E3 E4 E5 E6], (se_frame _ _ _ _ Hse) as [F1 F2 F3 F4 F5 F6].
  cbn in F1, F2, F3, F4, F5, F6. constructor; try congruence.
  - intros id. rewrite (cp_jobs _ _ _ _ _ _ Hc), Hj3. destruct (jobs s !! id); [|done]. cbn [fmap option_fmap option_map]. f_equal.
    unfold final_job. destruct (decide (id ∈ visited)) as [Hin|Hin]; rewrite Hv in Hin; [by rewrite !decide_True|by rewrite !decide_False].
  - apply Hc.
  - intros k Hk. rewrite <- F1 in Hk. destruct (cp_channel _ _ _ _ _ _ Hc k Hk) as (x & d & ? & Hd & ?). exists x, d.
    rewrite (se_completed _ _ _ _ Hse) in Hd. done.
  - rewrite (cp_delays _ _ _ _ _ _ Hc). congruence.
  - apply Hc.
  - intros id. rewrite (cp_ids _ _ _ _ _ _ Hc), Hv, Hj3. split.
    + intros (Hin & j' & Hj & He & Hr). destruct (jobs s !! id) as [j|] eqn:E; [|done]. cbn [fmap option_fmap option_map] in Hj.
      rewrite decide_True in Hj by done. injection Hj as <-. cbn in He, Hr. exists j. split_and!; try done.
      rewrite (id_name _ _ _ (si_jobs _ Hs _ _ E)) in Hr. lia.
    + intros (j & Hj & He & Hin & Hr). rewrite Hj. cbn [fmap option_fmap option_map]. rewrite decide_True by done.
      split; [done|]. eexists. split_and!; [done|done|]. cbn. rewrite (id_name _ _ _ (si_jobs _ Hs _ _ Hj)). lia.
  - intros id. rewrite (cp_seen _ _ _ _ _ _ Hc), (se_seen _ _ _ _ Hse). done.
Qed.

Lemma settle_window_total : exists acts bufs acc s', settle_window w (allocations a) s2 = (Ok (acts, bufs, acc), s') /\ closing s w a acc s'.
Proof using Hs Ha.
  destruct settle_stage as (items & [acts bufs] & s3 & Ei & Hi & E3 & Hse).
  unfold settle_window. rewrite (sbind_step _ _ s2 s2 s2) by done. rewrite (sbind_step _ _ s2 _ s2 (lift_Ok _ _ s2 Ei)).
  rewrite (sbind_step _ _ _ _ _ E3). cbv beta iota. rewrite (sbind_step _ _ s3 s3 s3) by done.
  assert (Hkeys : (fun b : batch => b.1.2) <$> inflight s3 ≡ₚ dkeys (allocations a)).
  { unfold dkeys. rewrite <- Hi, <- (se_batches _ _ _ _ Hse), <- list_fmap_compose. done. }
  destruct (complete_loop_spec s3 (w_end w) (allocations a) (settled_in_flight _ _ Hi Hse) (inflight s3) [] (no_completions s3) s3
    (settled_completing _ _ Hi Hse) eq_refl) as (acc & s4 & E4 & Hc & Hl).
  { intros b Hb. split; [by apply (se_times _ _ _ _ Hse)|]. rewrite <- Hi, <- (se_batches _ _ _ _ Hse).
    apply list_elem_of_fmap. by exists b. }
  { rewrite app_nil_l, Hkeys. apply Ha. }
  exists acts, bufs, acc, s4. split; [|by eapply completing_closing].
  assert (E5 : _complete_batches (w_end w) (no_completions s3) s3 = (Ok acc, s4)) by exact E4.
  by rewrite (sbind_step _ _ _ _ _ E5).
Qed.
End closing_proof.

(** ** The receipt *)

Lemma channel_sum_total m st chs : (forall ch, ch ∈ chs -> is_Some (m !! (st, ch))) ->
  channel_sum m st chs = Ok (zsum ((fun ch => default 0 (m !! (st, ch))) <$> chs)).
Proof.
  intros H. unfold channel_sum.
  assert (E : mapR (fun ch => gindex m (st, ch)) chs = Ok ((fun ch => default 0 (m !! (st, ch))) <$> chs)); [|by rewrite E].
  induction chs as [|ch chs IH]; [done|]. cbn [mapR]. unfold gindex at 1. destruct (H ch ltac:(set_solver)) as [v Hv].
  rewrite Hv. cbn [of_option rbind]. rewrite IH by set_solver. csimpl. by rewrite Hv.
Qed.

Section report_proof.
Context (s : service) (w : window_input) (offered : gmap key Z) (capacity : dict string Z) (a : alloc) (acc : completions) (s' : service).
Context (Hs : svc_inv s) (Ha : alloc_inv (cfg s) w (jobs s) (queues s) capacity a) (Hx : exhausted (cfg s) w (queues s) a).
Context (Hc : closing s w a acc s') (Ho : forall k, k ∈ channel_keys (cfg s) -> is_Some (offered !! k)).

Lemma row_keys st row ch : (st, row) ∈ channels (cfg s) -> ch ∈ dkeys row -> (st, ch) ∈ channel_keys (cfg s).
Proof using Hs Ha Hx Hc Ho. intros H1 H2. apply channel_keys_elem. eauto. Qed.

Lemma closing_job id j : jobs s !! id = Some j -> exists j', jobs s' !! id = Some j' /\ j' = final_job w (allocations a) id j.
Proof using Hs Ha Hx Hc Ho. intros Hj. rewrite (cl_jobs _ _ _ _ _ Hc), Hj. by eexists. Qed.

Lemma queue_after k : k ∈ channel_keys (cfg s) -> exists q0, dget (queues s) k = Some q0 /\
  dget (queues s') k = Some (live (a_jobs a) q0).
Proof using Hs Ha Hx Hc Ho.
  intros Hk. rewrite <- (si_queue_keys _ Hs) in Hk. apply dget_is_Some in Hk as [q0 Hq0]. exists q0. split; [done|].
  rewrite (cl_queues _ _ _ _ _ Hc). by apply (Hx k q0).
Qed.

Lemma waiting_total t st row : (st, row) ∈ channels (cfg s) -> exists l, waiting s' t st (dkeys row) = Ok l.
Proof using Hs Ha Hx Hc Ho.
  intros Hrow. unfold waiting. destruct (foldM_inv (fun _ _ => True) (fun acc ch =>
      let? q := dindex (queues s') (st, ch) in
      match q with [] => Ok acc | id :: _ => let? j := find_job (jobs s') id in Ok (acc ++ [t - arrival_ns j]) end)
    (dkeys row) []) as (l & E & _); [done| |by exists l].
  intros visited ch todo l El _. destruct (queue_after (st, ch)) as (q0 & Hq0 & Hq); [eapply row_keys; [done|]; rewrite El; set_solver|].
  rewrite (proj2 (dindex_Ok _ _ _) Hq). cbn [rbind]. destruct (live (a_jobs a) q0) as [|id q] eqn:Eq; [by eexists|].
  assert (Hid : id ∈ q0) by (eapply elem_of_sublist; [|apply (live_sublist (a_jobs a))]; rewrite Eq; set_solver).
  destruct (si_queues _ Hs _ _ Hq0) as [_ Hin]. destruct (Hin id Hid) as (j & Hj & _). destruct (closing_job id j Hj) as (j' & Hj' & _).
  unfold find_job. rewrite Hj'. by eexists.
Qed.

(** The conservation check of the source never fires. *)
Lemma stack_report_total acts item : item ∈ channels (cfg s) -> exists row, stack_report s' w offered acc acts item = Ok row.
Proof using Hs Ha Hx Hc Ho.
  intros Hin. destruct item as [st row]. unfold stack_report.
  assert (Hch : forall ch, ch ∈ dkeys row -> (st, ch) ∈ channel_keys (cfg s)) by (intros; by eapply row_keys).
  assert (Hb : forall ch, ch ∈ dkeys row -> exists o n, cumulative_offered s' !! (st, ch) = Some o /\ cumulative_completed s' !! (st, ch) = Some n
            /\ foreground_backlog s' !! (st, ch) = Some (outstanding (jobs s') (st, ch)) /\ o = n + outstanding (jobs s') (st, ch)).
  { intros ch Hin'. apply (cl_books _ _ _ _ _ Hc). rewrite (cl_cfg _ _ _ _ _ Hc). auto. }
  rewrite (channel_sum_total (foreground_backlog s')) by (intros ch Hin'; destruct (Hb ch Hin') as (? & ? & ? & ? & ? & _); eauto).
  cbn [rbind]. destruct (waiting_total (w_end w) st row Hin) as [l ->]. cbn [rbind].
  rewrite (channel_sum_total offered) by auto. cbn [rbind].
  rewrite (channel_sum_total (by_channel acc)) by (intros ch Hin'; destruct (cl_channel _ _ _ _ _ Hc _ (Hch ch Hin')) as (? & ? & ? & _); eauto).
  cbn [rbind]. destruct (proj2 (dget_is_Some (delay_samples acc) st)) as [q Hq].
  { rewrite (cl_delays _ _ _ _ _ Hc). by apply (list_elem_of_fmap_2 fst) in Hin. }
  rewrite (proj2 (dindex_Ok _ _ _) Hq). cbn [rbind].
  rewrite (channel_sum_total (cumulative_offered s')) by (intros ch Hin'; destruct (Hb ch Hin') as (? & ? & ? & ? & ? & _); eauto).
  rewrite (channel_sum_total (cumulative_completed s')) by (intros ch Hin'; destruct (Hb ch Hin') as (? & ? & ? & ? & ? & _); eauto).
  cbn [rbind]. rewrite <- zsum_map_add.
  rewrite (zsum_map_ext (fun ch => default 0 (cumulative_offered s' !! (st, ch)))
             (fun ch => default 0 (cumulative_completed s' !! (st, ch)) + default 0 (foreground_backlog s' !! (st, ch)))).
  - rewrite Z.eqb_refl. cbn [ensure rbind]. by eexists.
  - intros ch Hin'. destruct (Hb ch Hin') as (o & n & -> & -> & -> & ->). done.
Qed.

Lemma report_total acts bufs : exists r, report s' w offered capacity a acts bufs acc = Ok r.
Proof using Hs Ha Hx Hc Ho.
  unfold report. rewrite (cl_cfg _ _ _ _ _ Hc).
  destruct (mapR_total (served_row acc) (channels (cfg s))) as [served ->].
  { intros [st row] Hin. unfold served_row. destruct (mapR_total (fun ch => let? n := gindex (by_channel acc) (st, ch) in Ok (ch, n)) (dkeys row)) as [cells ->];
      [|by eexists]. intros ch Hch. destruct (cl_channel _ _ _ _ _ Hc (st, ch)) as (x & ? & Hx' & _); [by eapply row_keys|].
    unfold gindex. rewrite Hx'. by eexists. }
  cbn [rbind]. destruct (mapR_total (stack_report s' w offered acc acts) (channels (cfg s))) as [stacks ->].
  { intros item Hin. by apply stack_report_total. }
  cbn [rbind]. destruct (mapR_total (resource_report (cfg s) (residual a)) capacity) as [resources ->].
  { intros [r v] Hin. unfold resource_report. destruct (proj2 (dget_is_Some (residual a) r)) as [v' Hv'];
      [rewrite (ai_res_keys _ _ _ _ _ _ Ha); by apply (list_elem_of_fmap_2 fst) in Hin|].
    rewrite (proj2 (dindex_Ok _ _ _) Hv'). by eexists. }
  assert (Hfind : forall id, is_Some (jobs s !! id) -> exists j, find_job (jobs s') id = Ok j).
  { intros id [j Hj]. destruct (closing_job id j Hj) as (j' & Hj' & _). exists j'. unfold find_job. by rewrite Hj'. }
  cbn [rbind]. unfold job_progress. destruct (mapR_total (find_job (jobs s'))
    (elements (external_active s' ∪ list_to_set (completion_ids acc)))) as [js ->].
  { intros id Hid. apply Hfind. rewrite elem_of_elements, (cl_external _ _ _ _ _ Hc) in Hid. apply elem_of_union in Hid as [Hid|Hid].
    - apply (si_external _ Hs) in Hid as (j & -> & _). by eexists.
    - apply elem_of_list_to_set, (cl_ids _ _ _ _ _ Hc) in Hid as (j & -> & _). by eexists. }
  cbn [rbind]. unfold route_rows. match goal with |- context [foldM ?f ?l ?b] => destruct (foldM_inv (fun _ _ => True) f l b) as (routes & -> & _) end.
  - done.
  - intros visited [id n] todo d El _. destruct (Hfind id) as [j ->]; [|by eexists].
    destruct (ai_alloc _ _ _ _ _ _ Ha id n) as [_ (j & -> & _)]; [|by eexists].
    apply dget_elem; [apply Ha|]. rewrite El. set_solver.
  - by eexists.
Qed.
End report_proof.

(** ** The next window *)

Record final_ok (s : service) (n : Z) (j j' : job) : Prop := {
  fo_name : job_id j' = job_id j; fo_job : job_ok (cfg s) j'; fo_key : job_key j' = job_key j;
  fo_external : external j' = external j; fo_left : admission_remaining_bytes j' = admission_remaining_bytes j - n;
  fo_done : completed_bytes j' = completed_bytes j + n; fo_total : total_bytes j' = total_bytes j;
  fo_pending : pending_batches j' = 0; fo_open : completion_ns j' = None <-> admission_remaining_bytes j - n <> 0 }.

Lemma final_job_spec s w al id j : idle s id j -> (id ∉ dkeys al -> admitted al id = 0) ->
  final_ok s (admitted al id) j (final_job w al id j).
Proof.
  intros [Hid Hok Hl Hd Ht Hp Ho Hk] Hn. unfold final_job, finish_job, finished, settle_job, spend. rewrite Hid.
  cbn [with_batch with_remaining admission_remaining_bytes pending_batches]. rewrite Hp.
  assert (Hok' : forall j', stack j' = stack j -> channel j' = channel j -> op j' = op j -> job_route j' = job_route j -> job_ok (cfg s) j').
  { intros j' E1 E2 E3 E4. destruct Hok. constructor; rewrite ?E1, ?E2, ?E3, ?E4; done. }
  change (0 + 1 - 1 =? 0) with true. rewrite andb_true_r. case_decide as Hin.
  - destruct (Z.eqb_spec (admission_remaining_bytes j - admitted al id) 0) as [E|E];
      (constructor; [done|by apply Hok'|done|done|done|done|done|cbn; lia|cbn; rewrite ?Ho; by split]).
  - constructor; [done|by apply Hok'|done|done|done|cbn; rewrite Hn by done; lia|done|done|].
    cbn. rewrite Ho, Hn by done. split; [lia|done].
Qed.

Section next_window.
Context (s : service) (w : window_input) (capacity : dict string Z) (a : alloc) (acc : completions) (s' : service).
Context (Hs : svc_inv s) (Ha : alloc_inv (cfg s) w (jobs s) (queues s) capacity a) (Hx : exhausted (cfg s) w (queues s) a).
Context (Hc : closing s w a acc s').

Lemma admitted_out id : id ∉ dkeys (allocations a) -> admitted (allocations a) id = 0.
Proof using. intros H%dget_None. unfold admitted, dget_or. by rewrite H. Qed.

Lemma closing_final id j' : jobs s' !! id = Some j' ->
  exists j, jobs s !! id = Some j /\ idle s id j /\ final_ok s (admitted (allocations a) id) j j' /\
    admitted (allocations a) id <= admission_remaining_bytes j.
Proof using Hs Ha Hc.
  rewrite (cl_jobs _ _ _ _ _ Hc). intros (j & Hj & ->)%fmap_Some. exists j. pose proof (si_jobs _ Hs _ _ Hj) as Hidle.
  split_and!; [done|done| |by apply (ai_left _ _ _ _ _ _ Ha)]. apply final_job_spec; [done|apply admitted_out].
Qed.

(** The jobs that survive are those with bytes left to admit. *)
Lemma retire_lookup id j' : jobs (retire s') !! id = Some j' <-> jobs s' !! id = Some j' /\ 0 < admission_remaining_bytes j'.
Proof using Hs Ha Hc.
  cbn [retire jobs]. rewrite map_lookup_filter_Some. split; intros [Hj H]; (split; [done|]);
    destruct (closing_final _ _ Hj) as (j & _ & _ & [_ _ _ _ El _ _ _ Eo] & Hle).
  - apply Eo in H. lia.
  - apply Eo. lia.
Qed.

Lemma live_left id j' q0 : id ∈ q0 -> jobs s' !! id = Some j' -> (id ∈ live (a_jobs a) q0 <-> 0 < admission_remaining_bytes j').
Proof using Hs Ha Hc.
  intros Hq Hj. destruct (closing_final _ _ Hj) as (j & Hj0 & Hidle & Hf & _). unfold live. rewrite list_elem_of_filter.
  rewrite (ai_find _ _ _ _ _ _ _ _ Ha Hj0). cbn [spend with_remaining admission_remaining_bytes]. rewrite (id_name _ _ _ Hidle), (fo_left _ _ _ _ Hf).
  rewrite Z.ltb_lt. naive_solver.
Qed.

Lemma retire_books t : books (retire (set_now t s')).
Proof using Hs Ha Hc.
  eapply (books_ext s'); try done; [|apply Hc]. intros k. cbn [retire set_now jobs]. apply msum_filter. intros id j' Hj Hn.
  destruct (closing_final _ _ Hj) as (j & _ & [] & [] & Hle). unfold owed. case_match; [|done].
  assert (admission_remaining_bytes j - admitted (allocations a) id = 0); [|lia].
  destruct (decide (admission_remaining_bytes j - admitted (allocations a) id = 0)); [done|]. destruct Hn. tauto.
Qed.

Lemma retire_external t id : id ∈ external_active (retire (set_now t s')) <->
  exists j, jobs (retire (set_now t s')) !! id = Some j /\ external j = true.
Proof using Hs Ha Hc.
  cbn [retire set_now external_active jobs]. rewrite elem_of_difference, (cl_external _ _ _ _ _ Hc), (si_external _ Hs). split.
  - intros [(j & Hj & He) Hnd].
    assert (Hj' : jobs s' !! id = Some (final_job w (allocations a) id j)) by by rewrite (cl_jobs _ _ _ _ _ Hc), Hj.
    destruct (closing_final _ _ Hj') as (j1 & Hj1 & _ & Hf & _). simplify_eq. eexists. split.
    + apply map_lookup_filter_Some. split; [exact Hj'|]. destruct (completion_ns _) eqn:E; [|done].
      destruct Hnd. apply elem_of_dom. eexists. apply map_lookup_filter_Some. split; [exact Hj'|]. rewrite E. by eexists.
    + by rewrite (fo_external _ _ _ _ Hf).
  - intros (j' & [Hj' Hopen]%map_lookup_filter_Some & He). destruct (closing_final _ _ Hj') as (j & Hj & _ & Hf & _).
    split; [exists j; by rewrite <- (fo_external _ _ _ _ Hf)|]. intros (j2 & [Hj2 Hdone]%map_lookup_filter_Some)%elem_of_dom.
    simplify_eq. rewrite Hopen in Hdone. by apply is_Some_None in Hdone.
Qed.

Lemma retire_seen t id : id ∈ completion_ids_seen (retire (set_now t s')) ->
  id ∈ known_ids (retire (set_now t s')) /\ jobs (retire (set_now t s')) !! id = None.
Proof using Hs Ha Hc.
  cbn [retire set_now completion_ids_seen known_ids jobs]. rewrite (cl_known _ _ _ _ _ Hc), (cl_seen _ _ _ _ _ Hc).
  intros [Hseen|Hid].
  - destruct (si_seen _ Hs _ Hseen) as [Hk Hj]. split; [done|]. apply map_lookup_filter_None_2. left.
    by rewrite (cl_jobs _ _ _ _ _ Hc), Hj.
  - apply (cl_ids _ _ _ _ _ Hc) in Hid as (j & Hj & _ & _ & Heq). split; [apply (si_jobs _ Hs _ _ Hj)|].
    apply map_lookup_filter_None_2. right. intros j' Hj' Hopen. destruct (closing_final _ _ Hj') as (j1 & Hj1 & _ & Hf & _).
    simplify_eq. apply (fo_open _ _ _ _ Hf) in Hopen. lia.
Qed.

Lemma retire_inv t : svc_inv (retire (set_now t s')).
Proof using Hs Ha Hx Hc.
  assert (Hlook : forall id j', jobs (retire (set_now t s')) !! id = Some j' <-> jobs s' !! id = Some j' /\ 0 < admission_remaining_bytes j')
    by (intros; apply retire_lookup).
  assert (Hqueue : forall k q, dget (queues s') k = Some q -> exists q0, dget (queues s) k = Some q0 /\ q = live (a_jobs a) q0).
  { intros k q Hq. assert (Hk : k ∈ dkeys (queues s)) by (rewrite <- (ai_queue_keys _ _ _ _ _ _ Ha), <- (cl_queues _ _ _ _ _ Hc); apply dget_is_Some; eauto).
    apply dget_is_Some in Hk as [q0 Hq0]. exists q0. split; [done|]. destruct (Hx _ _ Hq0) as [Hq' _].
    rewrite <- (cl_queues _ _ _ _ _ Hc) in Hq'. congruence. }
  constructor; cbn [retire set_now cfg queues inflight].
  - rewrite (cl_cfg _ _ _ _ _ Hc). apply Hs.
  - intros id j' [Hj Hpos]%Hlook. destruct (closing_final _ _ Hj) as (j & _ & [] & [] & Hle).
    pose proof (admitted_nonneg _ _ _ _ _ a id Ha).
    constructor; cbn [retire set_now cfg known_ids]; rewrite ?(cl_cfg _ _ _ _ _ Hc), ?(cl_known _ _ _ _ _ Hc); try done; try lia; try congruence.
    apply fo_open0. lia.
  - rewrite (cl_cfg _ _ _ _ _ Hc), (cl_queues _ _ _ _ _ Hc), (ai_queue_keys _ _ _ _ _ _ Ha). apply Hs.
  - intros k q (q0 & Hq0 & ->)%Hqueue. destruct (si_queues _ Hs _ _ Hq0) as [Hnd Hin].
    split; [eapply sublist_NoDup; [exact Hnd|apply live_sublist]|]. intros id Hid.
    assert (Hid0 : id ∈ q0) by (eapply elem_of_sublist; [exact Hid|apply live_sublist]). destruct (Hin id Hid0) as (j & Hj & Ek).
    assert (Hj' : jobs s' !! id = Some (final_job w (allocations a) id j)) by by rewrite (cl_jobs _ _ _ _ _ Hc), Hj.
    eexists. split; [apply Hlook; split; [exact Hj'|by eapply live_left]|].
    destruct (closing_final _ _ Hj') as (j1 & Hj1 & _ & Hf & _). simplify_eq. apply (fo_key _ _ _ _ Hf).
  - intros id j' [Hj Hpos]%Hlook. destruct (closing_final _ _ Hj) as (j & Hj0 & _ & Hf & _). rewrite (fo_key _ _ _ _ Hf).
    destruct (si_queued _ Hs _ _ Hj0) as (q0 & Hq0 & Hin). exists (live (a_jobs a) q0). split.
    + rewrite (cl_queues _ _ _ _ _ Hc). by apply (Hx _ _ Hq0).
    + by eapply live_left.
  - apply Hc.
  - apply retire_books.
  - apply retire_external.
  - apply retire_seen.
Qed.
End next_window.

(** ** Calls of [advance] *)

(** A call that passed its checks and its intake: the stages of the window. *)
Record window_run (s : service) (w : window_input) (offered : gmap key Z) (s1 : service) (capacity : dict string Z) (a : alloc)
    (acc : completions) (s2 : service) (acts : list activity) (bufs : list buffer_row) (r : receipt) : Prop := {
  wr_window : window_ok s w; wr_intake : intake_inv s offered s1;
  wr_alloc : alloc_inv (cfg s1) w (jobs s1) (queues s1) capacity a; wr_exhausted : exhausted (cfg s1) w (queues s1) a;
  wr_closing : closing s1 w a acc s2; wr_report : report s2 w offered capacity a acts bufs acc = Ok r }.

Lemma advance_stages s t0 t1 offered budgets states extra w o s1 : svc_inv s ->
  check_window s t0 t1 (dkeys offered) budgets states = Ok w -> intake w offered extra s = (Ok o, s1) ->
  exists capacity a acc s2 acts bufs r, window_run s w o s1 capacity a acc s2 acts bufs r /\
    advance t0 t1 offered budgets states extra s = (Ok r, retire (set_now (w_end w) s2)).
Proof.
  intros Hs Hw Hin. pose proof (check_window_spec _ _ _ _ _ _ _ Hw) as Hwo. pose proof (intake_pres _ _ _ _ _ _ Hs Hin) as Hi.
  simpl in Hi. destruct Hi as (Hs1 & Hc1 & [Ht1 He1] & Ho).
  assert (Hwo1 : window_ok s1 w) by (destruct Hwo; constructor; rewrite ?Hc1, ?Ht1; done).
  destruct (allocate_window_total s1 w Hs1 Hwo1) as (capacity & a & s2' & Ea & [_ Ha Hx ->] & _).
  destruct (settle_window_total s1 w capacity a Hs1 Ha) as (acts & bufs & acc & s2 & Es & Hcl).
  pose proof Ho as Ho1. rewrite <- Hc1 in Ho1. destruct (report_total s1 w o capacity a acc s2 Hs1 Ha Hx Hcl Ho1 acts bufs) as [r Hr].
  exists capacity, a, acc, s2, acts, bufs, r. split; [by constructor|].
  unfold advance. rewrite (sbind_step _ _ s s s) by done. rewrite (sbind_step _ _ _ _ _ (lift_Ok _ _ s Hw)).
  rewrite (sbind_step _ _ _ _ _ Hin), (sbind_step _ _ _ _ _ Ea). cbv beta iota. rewrite (sbind_step _ _ _ _ _ Es). cbv beta iota.
  rewrite (sbind_step _ _ s2 s2 s2) by done. by rewrite (sbind_step _ _ _ _ _ (lift_Ok _ _ s2 Hr)).
Qed.

(** The outcome of a call, in terms of its first two stages. *)
Lemma advance_outcome s t0 t1 offered budgets states extra : svc_inv s ->
  match check_window s t0 t1 (dkeys offered) budgets states with
  | Raise e => advance t0 t1 offered budgets states extra s = (Raise e, s)
  | Ok w =>
      match intake w offered extra s with
      | (Raise e, s1) => advance t0 t1 offered budgets states extra s = (Raise e, s1) /\ kept s s1
      | (Ok o, s1) => exists capacity a acc s2 acts bufs r, window_run s w o s1 capacity a acc s2 acts bufs r /\
          advance t0 t1 offered budgets states extra s = (Ok r, retire (set_now (w_end w) s2))
      end
  end.
Proof.
  intros Hs. destruct (check_window s t0 t1 (dkeys offered) budgets states) as [w|e] eqn:Hw.
  - destruct (intake w offered extra s) as [[o|e] s1] eqn:Hi; [by apply advance_stages|]. pose proof (intake_pres _ _ _ _ _ _ Hs Hi).
    split; [|done]. unfold advance. rewrite (sbind_step _ _ s s s) by done. rewrite (sbind_step _ _ _ _ _ (lift_Ok _ _ s Hw)).
    by rewrite (sbind_raise _ _ _ _ _ Hi).
  - unfold advance. rewrite (sbind_step _ _ s s s) by done. by rewrite (sbind_raise _ _ _ e s) by (by rewrite Hw).
Qed.

Lemma window_run_inv s w o s1 capacity a acc s2 acts bufs r : window_run s w o s1 capacity a acc s2 acts bufs r ->
  svc_inv (retire (set_now (w_end w) s2)).
Proof. intros [_ (Hs1 & _) Ha Hx Hc _]. by eapply retire_inv. Qed.

(** States of the service after any calls, with the completions reported so far. *)
Inductive reachable (v : pyval) : service -> list string -> Prop :=
| reachable_init s : init v = Ok s -> reachable v s []
| reachable_ok s log t0 t1 offered budgets states extra r s' :
    reachable v s log -> advance t0 t1 offered budgets states extra s = (Ok r, s') -> reachable v s' (log ++ rc_completion_ids r)
| reachable_raise s log t0 t1 offered budgets states extra e s' :
    reachable v s log -> advance t0 t1 offered budgets states extra s = (Raise e, s') -> reachable v s' log.

(** What every call does to the invariant and to the reported completions. *)
Lemma advance_ok_run s t0 t1 offered budgets states extra r s' : svc_inv s ->
  advance t0 t1 offered budgets states extra s = (Ok r, s') ->
  exists w o s1 capacity a acc s2 acts bufs, window_run s w o s1 capacity a acc s2 acts bufs r /\ s' = retire (set_now (w_end w) s2) /\
    check_window s t0 t1 (dkeys offered) budgets states = Ok w /\ intake w offered extra s = (Ok o, s1).
Proof.
  intros Hs E. pose proof (advance_outcome s t0 t1 offered budgets states extra Hs) as H.
  destruct (check_window s t0 t1 (dkeys offered) budgets states) as [w|e] eqn:Hw; [|congruence].
  destruct (intake w offered extra s) as [[o|e] s1] eqn:Hi; [|destruct H; congruence].
  destruct H as (capacity & a & acc & s2 & acts & bufs & r' & Hr & E'). rewrite E in E'. injection E' as <- ->.
  by exists w, o, s1, capacity, a, acc, s2, acts, bufs.
Qed.

Lemma advance_raise_kept s t0 t1 offered budgets states extra e s' : svc_inv s ->
  advance t0 t1 offered budgets states extra s = (Raise e, s') -> s' = s \/ exists w, intake w offered extra s = (Raise e, s') /\ kept s s'.
Proof.
  intros Hs E. pose proof (advance_outcome s t0 t1 offered budgets states extra Hs) as H.
  destruct (check_window s t0 t1 (dkeys offered) budgets states) as [w|e'] eqn:Hw; [|left; congruence].
  destruct (intake w offered extra s) as [[o|e'] s1] eqn:Hi; [destruct H as (? & ? & ? & ? & ? & ? & ? & _ & ?); congruence|].
  destruct H as [E' Hk]. rewrite E in E'. injection E' as <- <-. right. by exists w.
Qed.

Lemma topology_reachable_inv v s log : reachable v s log -> svc_inv s.
Proof.
  induction 1 as [s H|s log t0 t1 o b st ex r s' _ IH E|s log t0 t1 o b st ex e s' _ IH E].
  - by eapply init_svc.
  - destruct (advance_ok_run _ _ _ _ _ _ _ _ _ IH E) as (w & o1 & s1 & cap & a & acc & s2 & acts & bufs & Hr & -> & _). by eapply window_run_inv.
  - by destruct (advance_raise_kept _ _ _ _ _ _ _ _ _ IH E) as [->|(w & _ & ? & _)].
Qed.

Lemma used_work_nonneg c w jobs0 queues0 capacity a r : start_ok c w jobs0 queues0 capacity ->
  alloc_inv c w jobs0 queues0 capacity a -> 0 <= used_work c jobs0 (allocations a) r.
Proof.
  intros Hso Ha. apply zsum_nonneg, Forall_forall. intros x ([id n] & -> & Hin)%list_elem_of_fmap. cbn [fst snd].
  destruct (ai_alloc _ _ _ _ _ _ Ha id n) as [Hn (j & Hj & _)]; [by apply dget_elem; [apply Ha|]|].
  apply Z.mul_nonneg_nonneg; [lia|]. unfold work_of. rewrite Hj.
  destruct (coefficients_total c j (so_cfg _ _ _ _ _ Hso)) as (d & -> & [_ Hpos]); [by apply (so_jobs _ _ _ _ _ Hso _ _ Hj)|].
  unfold dget_or. destruct (dget d r) eqn:E; [apply Hpos in E; lia|done].
Qed.

Lemma progress_row_found s al acc rows id j : job_progress s al acc = Ok rows -> jobs s !! id = Some j -> id ∈ completion_ids acc ->
  exists row, row ∈ rows /\ pr_job row = j /\ pr_remaining row = total_bytes j - completed_bytes j.
Proof.
  unfold job_progress. intros H Hj Hid. inv_ok. match goal with H : mapR _ _ = Ok ?l |- _ => rename H into Hm; rename l into js end.
  assert (Hin : j ∈ js).
  { rewrite mapR_Ok in Hm. assert (He : id ∈ elements (external_active s ∪ list_to_set (completion_ids acc))) by set_solver.
    apply list_elem_of_lookup in He as [i Hi]. destruct (Forall2_lookup_l _ _ _ _ _ Hm Hi) as (j' & Hj' & E).
    unfold find_job in E. rewrite Hj in E. injection E as <-. by apply list_elem_of_lookup_2 in Hj'. }
  eexists. split; [apply list_elem_of_fmap_2, isort_elem, Hin|]. done.
Qed.

Lemma report_fields s w o capacity a acts bufs acc r : report s w o capacity a acts bufs acc = Ok r ->
  rc_completion_ids r = completion_ids acc /\ job_progress s (allocations a) acc = Ok (rc_progress r).
Proof. unfold report. intros H. by inv_ok. Qed.

(** The completions of one window: new ones only, each fully served. *)
Lemma window_completions s w o s1 capacity a acc s2 acts bufs r : window_run s w o s1 capacity a acc s2 acts bufs r ->
  NoDup (rc_completion_ids r) /\
  forall id, id ∈ rc_completion_ids r -> id ∉ completion_ids_seen s1 /\
    exists row, row ∈ rc_progress r /\ job_id (pr_job row) = id /\ pr_remaining row = 0.
Proof.
  intros [_ (Hs1 & _) Ha _ Hc Hr]. apply report_fields in Hr as [Eids Hp]. rewrite Eids. split; [apply Hc|].
  intros id Hid. pose proof Hid as (j & Hj & He & Hin & Hall)%(cl_ids _ _ _ _ _ Hc). split.
  - intros Hseen. apply (si_seen _ Hs1) in Hseen as [_ ?]. congruence.
  - assert (Hj' : jobs s2 !! id = Some (final_job w (allocations a) id j)) by by rewrite (cl_jobs _ _ _ _ _ Hc), Hj.
    destruct (progress_row_found _ _ _ _ _ _ Hp Hj' Hid) as (row & Hrow & Ej & Erem). exists row. split; [done|]. rewrite Ej, Erem.
    destruct (closing_final _ _ _ _ _ _ Hs1 Ha Hc _ _ Hj') as (j1 & Hj1 & Hidle & Hf & _). simplify_eq.
    rewrite (fo_name _ _ _ _ Hf), (fo_total _ _ _ _ Hf), (fo_done _ _ _ _ Hf), Hall, <- (id_total _ _ _ Hidle).
    split; [apply Hidle|lia].
Qed.


(** Reported completions are remembered and their jobs are gone. *)
Lemma reachable_log v s log : reachable v s log -> NoDup log /\ forall id, id ∈ log <-> id ∈ completion_ids_seen s.
Proof.
  induction 1 as [s H|s log t0 t1 o b st ex r s' Hr [IH1 IH2] E|s log t0 t1 o b st ex e s' Hr [IH1 IH2] E].
  - unfold init in H. inv_ok. split; [constructor|]. intros id. cbn. set_solver.
  - destruct (advance_ok_run _ _ _ _ _ _ _ _ _ (topology_reachable_inv _ _ _ Hr) E) as (w & o1 & s1 & cap & a & acc & s2 & acts & bufs & Hw & -> & _).
    destruct (window_completions _ _ _ _ _ _ _ _ _ _ _ Hw) as [Hnd Hnew]. destruct Hw as [_ (_ & _ & [_ Es] & _) _ _ Hc Hrep].
    apply report_fields in Hrep as [Eids _]. rewrite Es in Hnew. split.
    + apply NoDup_app. split_and!; [done| |done]. intros id Hid%IH2 Hin. by destruct (Hnew id Hin).
    + intros id. cbn [retire set_now completion_ids_seen]. rewrite (cl_seen _ _ _ _ _ Hc), Es, elem_of_app, IH2, Eids. done.
  - destruct (advance_raise_kept _ _ _ _ _ _ _ _ _ (topology_reachable_inv _ _ _ Hr) E) as [->|(w & _ & _ & _ & _ & Es)]; [done|].
    split; [done|]. by rewrite Es.
Qed.

(** ** Claims *)

(** A relay configuration with one HBF/HBM pair of two channels each, and a
    window with offered reads and an external program. *)
Definition demo_channels : pyval := VDict [("0", VInt 96000000000); ("1", VInt 48000000000)].
Definition demo_document : pyval := VDict [
  ("schema_version", VStr "eq3-topology-fluid-config-v1"); ("evidence", VStr "SCENARIO_ASSUMPTION");
  ("topology", VStr "relay"); ("window_ns", VInt WINDOW_NS);
  ("fabric", VDict [("evidence", VStr "SCENARIO_ASSUMPTION"); ("hbf", VDict [default_hbf true 0]); ("hbm", VDict [default_hbm 0])]);
  ("channels", VDict [("hbf0", demo_channels); ("hbm0", demo_channels)]); ("dash_routes", VDict []);
  ("operation_media_cost", VDict ((fun o => (operation_name o, VDict [("numerator", VInt (match o with Program => 7 | _ => 1 end));
                                                                      ("denominator", VInt (match o with Program => 2 | _ => 1 end))])) <$> OPERATIONS));
  ("operation_cost_evidence", VStr "fixture"); ("maintenance_guard_policy", VStr MAINTENANCE_POLICY)].
Definition demo_offered : dict string (dict string pyval) := [("hbf0", [("0", VInt 500000); ("1", VInt 7)]); ("hbm0", [("1", VInt 90)])].
Definition demo_budgets : dict string pyval := [("hbf0", VInt 1000); ("hbm0", VInt 950)].
Definition demo_states : dict string pyval := [("hbf0", VStr "light"); ("hbm0", VStr "normal")].
Definition demo_extra : list pyval := [
  VDict [("job_id", VStr "scrub"); ("stack", VStr "hbf0"); ("channel", VStr "1"); ("operation", VStr "program");
         ("bytes", VInt 4096); ("arrival_ns", VInt 17); ("maintenance_id", VStr "m1")]].

Definition demo_run : result (service * receipt * service) :=
  let? s := init demo_document in
  match advance (VInt 0) (VInt WINDOW_NS) demo_offered demo_budgets demo_states demo_extra s with
  | (Ok r, s') => Ok (s, r, s')
  | (Raise e, _) => Raise e
  end.

Lemma demo_run_ok : exists s r s', demo_run = Ok (s, r, s') /\ init demo_document = Ok s /\
  advance (VInt 0) (VInt WINDOW_NS) demo_offered demo_budgets demo_states demo_extra s = (Ok r, s') /\
  rc_completion_ids r = ["scrub"] /\ rc_served r = [("hbf0", [("0", 853); ("1", 7)]); ("hbm0", [("0", 0); ("1", 90)])].
Proof.
  destruct demo_run as [[[s r] s']|e] eqn:E; [|vm_compute in E; discriminate E].
  assert (Hx : rbind demo_run (fun x => Ok (rc_completion_ids x.1.2, rc_served x.1.2))
              = Ok (["scrub"], [("hbf0", [("0", 853); ("1", 7)]); ("hbm0", [("0", 0); ("1", 90)])])) by (vm_compute; reflexivity).
  rewrite E in Hx. cbn [rbind fst snd] in Hx. injection Hx as H1 H2.
  exists s, r, s'. unfold demo_run in E. apply bind_Ok in E as (s0 & Hi & E).
  destruct (advance _ _ _ _ _ _ s0) as [[r0|e0] s0'] eqn:Ea; [|discriminate E]. injection E as -> -> ->. done.
Qed.

(** C24: a call of [advance] in any reachable state fails only in its argument
    checks, which leave the service as it was, or in its intake, which leaves the
    clock and the books consistent; once the intake succeeds the window always
    produces a receipt and the clock moves to its end: the allocation loop stays
    within its bound, no dictionary access fails and the conservation check never
    fires. *)
Theorem topology_advance_total v s log t0 t1 offered budgets states extra : reachable v s log ->
  match check_window s t0 t1 (dkeys offered) budgets states with
  | Raise e => advance t0 t1 offered budgets states extra s = (Raise e, s)
  | Ok w =>
      match intake w offered extra s with
      | (Raise e, s1) => advance t0 t1 offered budgets states extra s = (Raise e, s1) /\ now s1 = now s /\ books s1
      | (Ok o, s1) => exists r s', advance t0 t1 offered budgets states extra s = (Ok r, s') /\ now s' = now s + WINDOW_NS /\
          rc_end r = now s'
      end
  end.
Proof.
  intros Hr. pose proof (advance_outcome s t0 t1 offered budgets states extra (topology_reachable_inv _ _ _ Hr)) as H.
  destruct (check_window s t0 t1 (dkeys offered) budgets states) as [w|e]; [|done].
  destruct (intake w offered extra s) as [[o|e] s1].
  - destruct H as (cap & a & acc & s2 & acts & bufs & r & [Hw _ _ _ _ Hrep] & E). exists r, (retire (set_now (w_end w) s2)).
    split; [done|]. split; [apply Hw|]. unfold report in Hrep. by inv_ok.
  - destruct H as (E & Hs1 & _ & [Ht _]). split_and!; [done|done|apply Hs1].
Qed.

Lemma topology_advance_total_witness : exists s, init demo_document = Ok s /\
  exists r s', advance (VInt 0) (VInt WINDOW_NS) demo_offered demo_budgets demo_states demo_extra s = (Ok r, s') /\
    now s' = now s + WINDOW_NS /\ rc_end r = now s'.
Proof.
  destruct demo_run_ok as (s & r & s' & _ & Hi & Ha & _ & _). exists s. split; [exact Hi|].
  pose proof (topology_advance_total demo_document s [] (VInt 0) (VInt WINDOW_NS) demo_offered demo_budgets demo_states demo_extra
    (reachable_init _ _ Hi)) as H.
  destruct (check_window s (VInt 0) (VInt WINDOW_NS) (dkeys demo_offered) demo_budgets demo_states) as [w|e]; [|congruence].
  destruct (intake w demo_offered demo_extra s) as [[o|e] s1]; [exact H|destruct H; congruence].
Defined.

(** C23: in every window of a reachable service, whatever was offered, the
    allocation spends exactly [amount * coefficient] scaled work units per admitted
    job on each resource and never more than the resource's capacity in the
    window; it admits no job beyond its bytes, none over an endpoint that stops
    it (severe or shut down for foreground work, shut down for maintenance); and
    it stops only when every first waiting job of a class that its endpoints
    admit lacks room for one more byte on some resource. *)
Theorem topology_allocation_sound v s log t0 t1 offered budgets states extra w o s1 : reachable v s log ->
  check_window s t0 t1 (dkeys offered) budgets states = Ok w -> intake w offered extra s = (Ok o, s1) ->
  exists capacity a s2, allocate_window w s1 = (Ok (capacity, a), s2) /\ initial_capacity (cfg s1) w = Ok capacity /\
    (forall r n, dget capacity r = Some n ->
       dget (residual a) r = Some (n - used_work (cfg s1) (jobs s1) (allocations a) r) /\
       0 <= used_work (cfg s1) (jobs s1) (allocations a) r <= n) /\
    (forall id n, dget (allocations a) id = Some n -> exists j, jobs s1 !! id = Some j /\
       0 < n <= admission_remaining_bytes j /\ allowed (cfg s1) w j) /\
    exhausted (cfg s1) w (queues s1) a.
Proof.
  intros Hr Hw Hi. pose proof (intake_pres _ _ _ _ _ _ (topology_reachable_inv _ _ _ Hr) Hi) as H. simpl in H.
  destruct H as (Hs1 & Hc1 & [Ht1 _] & _). pose proof (check_window_spec _ _ _ _ _ _ _ Hw) as Hwo.
  assert (Hwo1 : window_ok s1 w) by (destruct Hwo; constructor; rewrite ?Hc1, ?Ht1; done).
  destruct (allocate_window_total s1 w Hs1 Hwo1) as (capacity & a & s2 & E & [Hso Ha Hx _] & Ec).
  exists capacity, a, s2. split_and!; [done|done| | |done].
  - intros r n Hn. destruct (ai_res _ _ _ _ _ _ Ha _ _ Hn) as [Hres Hnn]. split; [done|].
    pose proof (used_work_nonneg _ _ _ _ _ _ r Hso Ha). lia.
  - intros id n Hn. pose proof (ai_alloc _ _ _ _ _ _ Ha _ _ Hn) as (Hpos & j & Hj & Hal). exists j. split_and!; try done.
    pose proof (ai_left _ _ _ _ _ _ Ha _ _ Hj) as Hl. unfold admitted, dget_or in Hl. by rewrite Hn in Hl.
Qed.

Lemma topology_allocation_sound_witness : exists s w o s1, init demo_document = Ok s /\
  check_window s (VInt 0) (VInt WINDOW_NS) (dkeys demo_offered) demo_budgets demo_states = Ok w /\
  intake w demo_offered demo_extra s = (Ok o, s1) /\
  exists capacity a s2, allocate_window w s1 = (Ok (capacity, a), s2) /\ exhausted (cfg s1) w (queues s1) a.
Proof.
  destruct demo_run_ok as (s & r & s' & _ & Hi & Ha & _ & _).
  destruct (advance_ok_run _ _ _ _ _ _ _ _ _ (init_svc _ _ Hi) Ha) as (w & o & s1 & _ & _ & _ & _ & _ & _ & _ & _ & Hw & Hin).
  exists s, w, o, s1. split; [exact Hi|]. split; [exact Hw|]. split; [exact Hin|].
  destruct (topology_allocation_sound demo_document s [] _ _ _ _ _ _ w o s1 (reachable_init _ _ Hi) Hw Hin)
    as (capacity & a & s2 & E & _ & _ & _ & Hx).
  exists capacity, a, s2. split; [exact E|exact Hx].
Defined.

(** C34: between any two calls, failed or not, every channel's cumulative offered
    bytes are its completed bytes plus the bytes that its foreground jobs still
    owe, the reported backlog is exactly that outstanding amount, and every
    unfinished job waits in the queue of its channel with
    [completed + remaining = total]. *)
Theorem topology_books v s log : reachable v s log ->
  (forall k, k ∈ channel_keys (cfg s) -> exists o n, cumulative_offered s !! k = Some o /\ cumulative_completed s !! k = Some n /\
     foreground_backlog s !! k = Some (outstanding (jobs s) k) /\ o = n + outstanding (jobs s) k /\ 0 <= outstanding (jobs s) k) /\
  (forall id j, jobs s !! id = Some j -> job_id j = id /\ 0 < admission_remaining_bytes j /\
     completed_bytes j + admission_remaining_bytes j = total_bytes j /\
     exists q, dget (queues s) (job_key j) = Some q /\ NoDup q /\ id ∈ q) /\
  inflight s = [].
Proof.
  intros Hr. pose proof (topology_reachable_inv _ _ _ Hr) as Hs. split_and!; [| |apply Hs].
  - intros k Hk. destruct (si_books _ Hs k Hk) as (o & n & H1 & H2 & H3 & H4). exists o, n. split_and!; try done.
    apply msum_nonneg. intros id j Hj. destruct (si_jobs _ Hs _ _ Hj). unfold owed. case_match; lia.
  - intros id j Hj. destruct (si_jobs _ Hs _ _ Hj), (si_queued _ Hs _ _ Hj) as (q & Hq & Hin). split_and!; try done.
    exists q. split_and!; try done. by apply (si_queues _ Hs _ _ Hq).
Qed.

Lemma topology_books_witness : exists s r s', init demo_document = Ok s /\
  advance (VInt 0) (VInt WINDOW_NS) demo_offered demo_budgets demo_states demo_extra s = (Ok r, s') /\ inflight s' = [].
Proof.
  destruct demo_run_ok as (s & r & s' & _ & Hi & Ha & _ & _). exists s, r, s'. split; [exact Hi|]. split; [exact Ha|].
  exact (proj2 (proj2 (topology_books demo_document s' _ (reachable_ok _ _ _ _ _ _ _ _ _ _ _ (reachable_init _ _ Hi) Ha)))).
Defined.

(** Over any history of calls no external job is reported complete twice, a
    reported job is no longer held by the service, and the receipt that reports it
    shows it with no bytes remaining. *)
Theorem topology_completions_once v s log t0 t1 offered budgets states extra r s' : reachable v s log ->
  advance t0 t1 offered budgets states extra s = (Ok r, s') ->
  NoDup (log ++ rc_completion_ids r) /\
  forall id, id ∈ rc_completion_ids r -> jobs s' !! id = None /\
    exists row, row ∈ rc_progress r /\ job_id (pr_job row) = id /\ pr_remaining row = 0.
Proof.
  intros Hr E. pose proof (reachable_ok _ _ _ _ _ _ _ _ _ _ _ Hr E) as Hr'. destruct (reachable_log _ _ _ Hr') as [Hnd Hlog].
  split; [done|]. intros id Hid. split.
  - apply (si_seen _ (topology_reachable_inv _ _ _ Hr')), Hlog, elem_of_app. by right.
  - destruct (advance_ok_run _ _ _ _ _ _ _ _ _ (topology_reachable_inv _ _ _ Hr) E) as (w & o1 & s1 & cap & a & acc & s2 & acts & bufs & Hw & _).
    by destruct (window_completions _ _ _ _ _ _ _ _ _ _ _ Hw) as [_ Hnew]; destruct (Hnew id Hid).
Qed.

Lemma topology_completions_once_witness : exists s r s', init demo_document = Ok s /\
  advance (VInt 0) (VInt WINDOW_NS) demo_offered demo_budgets demo_states demo_extra s = (Ok r, s') /\
  rc_completion_ids r = ["scrub"] /\ jobs s' !! "scrub" = None.
Proof.
  destruct demo_run_ok as (s & r & s' & _ & Hi & Ha & Hc & _). exists s, r, s'. split; [exact Hi|]. split; [exact Ha|].
  split; [exact Hc|].
  destruct (topology_completions_once demo_document s [] _ _ _ _ _ _ r s' (reachable_init _ _ Hi) Ha) as [_ H].
  apply H. rewrite Hc. apply list_elem_of_here.
Defined.

(** ** Automatic identifiers *)

Lemma default_route_total c st own ch : cfg_ok c -> dget (channels c) st = Some own -> ch ∈ dkeys own ->
  exists r, _default_route c (VStr st) (VStr ch) = Ok r.
Proof.
  intros Hc Hown Hch. unfold _default_route. cbn [as_key rbind]. destruct (is_hbm c st) eqn:Eh; [eauto|].
  destruct (topo c) eqn:Et; eauto. assert (Hst : st ∈ dkeys (BasicFabric.cfg_hbf (fabric c))).
  { assert (Hin : st ∈ dkeys (channels c)) by (apply dget_is_Some; eauto). rewrite (co_stacks _ Hc) in Hin.
    apply all_stacks_elem in Hin as [?|[? E]%dget_is_Some]; [done|]. unfold is_hbm, dmem in Eh. by rewrite E in Eh. }
  destruct (co_dash _ Hc Et _ _ Hst Hown) as (routes & Hr & Hsub). rewrite (proj2 (dindex_Ok _ _ _) Hr). cbn [rbind].
  apply Hsub, dget_is_Some in Hch as [r Hr']. exists r. by apply dindex_Ok.
Qed.

Section collision.
Context (s : service) (t : Z) (Hc : cfg_ok (cfg s)) (Hknown : auto_name (auto_id s) ∈ known_ids s).

(** The service after a refused automatic job. *)
Definition refused : result (gmap key Z) * service :=
  (Raise (ValueError "job_id must be a new nonempty string"), set_auto_id (auto_id s + 1) s).

Lemma offer_channel_collides st own ch n offered : dget (channels (cfg s)) st = Some own -> ch ∈ dkeys own -> 0 <= n ->
  offer_channel t st offered (ch, VInt n) s = if n =? 0 then (Ok offered, s) else refused.
Proof using Hc Hknown.
  intros Hown Hch Hn. unfold offer_channel.
  erewrite sbind_step by (apply lift_Ok; unfold _integer; cbn; by rewrite (proj2 (Z.leb_le 0 n))).
  destruct (n =? 0); [done|]. do 2 erewrite sbind_step by reflexivity.
  destruct (default_route_total _ _ _ _ Hc Hown Hch) as [r Hr]. erewrite sbind_step by (apply lift_Ok; exact Hr).
  unfold _add_job. apply sbind_raise. erewrite sbind_step by reflexivity. apply sbind_raise. unfold new_job, fresh_id.
  cbn [known_ids set_auto_id]. rewrite (bool_decide_eq_true_2 _ Hknown), andb_false_r. reflexivity.
Qed.

Lemma offer_channels_collide st own raw offered : dget (channels (cfg s)) st = Some own ->
  (forall ch v, (ch, v) ∈ raw -> ch ∈ dkeys own /\ exists n, v = VInt n /\ 0 <= n) ->
  (foldS (offer_channel t st) raw offered s = (Ok offered, s) /\ forall ch v, (ch, v) ∈ raw -> v = VInt 0)
  \/ foldS (offer_channel t st) raw offered s = refused.
Proof using Hc Hknown.
  intros Hown. induction raw as [|[ch v] raw IH]; intros Hraw; cbn [foldS]; [left; split; [done|]; intros ? ? Hin; by apply not_elem_of_nil in Hin|].
  destruct (Hraw ch v) as (Hch & n & -> & Hn); [apply elem_of_cons; by left|].
  pose proof (offer_channel_collides st own ch n offered Hown Hch Hn) as E. destruct (Z.eqb_spec n 0) as [->|_].
  - erewrite sbind_step by exact E. destruct IH as [[E1 Hz]|E1]; [intros ch' v' Hin; apply Hraw, elem_of_cons; by right| |by right].
    left. split; [done|]. intros ch' v' [[= -> ->]|Hin]%elem_of_cons; [done|by eapply Hz].
  - right. by erewrite sbind_raise by exact E.
Qed.

Lemma offer_stacks_collide l offered :
  (forall st raw, (st, raw) ∈ l -> exists own, dget (channels (cfg s)) st = Some own /\
     forall ch v, (ch, v) ∈ raw -> ch ∈ dkeys own /\ exists n, v = VInt n /\ 0 <= n) ->
  (foldS (offer_stack t) l offered s = (Ok offered, s) /\ forall st raw ch v, (st, raw) ∈ l -> (ch, v) ∈ raw -> v = VInt 0)
  \/ foldS (offer_stack t) l offered s = refused.
Proof using Hc Hknown.
  induction l as [|[st raw] l IH]; intros Hl; cbn [foldS]; [left; split; [done|]; intros ? ? ? ? Hin; by apply not_elem_of_nil in Hin|].
  destruct (Hl st raw) as (own & Hown & Hraw); [apply elem_of_cons; by left|].
  assert (E : offer_stack t offered (st, raw) s = foldS (offer_channel t st) raw offered s).
  { unfold offer_stack. erewrite sbind_step by reflexivity. erewrite sbind_step by (apply lift_Ok, dindex_Ok; exact Hown).
    erewrite sbind_step; [done|]. apply require_Ok, bool_decide_eq_true, Forall_forall. intros ch [[ch' v] [-> Hin]]%list_elem_of_fmap.
    by destruct (Hraw _ _ Hin). }
  destruct (offer_channels_collide st own raw offered Hown Hraw) as [[E1 Hz]|E1]; rewrite E1 in E.
  - erewrite sbind_step by exact E. destruct IH as [[E2 Hz2]|E2]; [intros st' raw' Hin; apply Hl, elem_of_cons; by right| |by right].
    left. split; [done|]. intros st' raw' ch v [[= -> ->]|Hin]%elem_of_cons Hv; [by eapply Hz|by eapply Hz2].
  - right. unfold refused in *. by erewrite sbind_raise by exact E.
Qed.
End collision.

(** C35: job identifiers a caller chooses share a name space with the automatic
    foreground identifiers.  In every reachable state whose next automatic
    identifier is already known, each well-formed window that offers a positive
    number of bytes on a configured channel raises in the middle of its intake,
    whatever its extra jobs; it has no effect but to move the counter. *)
Theorem topology_auto_id_collision v s log t0 t1 offered budgets states extra w st raw ch n : reachable v s log ->
  auto_name (auto_id s) ∈ known_ids s ->
  check_window s t0 t1 (dkeys offered) budgets states = Ok w ->
  (forall st raw, (st, raw) ∈ offered -> exists own, dget (channels (cfg s)) st = Some own /\
     forall ch v, (ch, v) ∈ raw -> ch ∈ dkeys own /\ exists n, v = VInt n /\ 0 <= n) ->
  (st, raw) ∈ offered -> (ch, VInt n) ∈ raw -> 0 < n ->
  advance t0 t1 offered budgets states extra s =
    (Raise (ValueError "job_id must be a new nonempty string"), set_auto_id (auto_id s + 1) s).
Proof.
  intros Hr Hknown Hw Hoff Hst Hch Hn. pose proof (topology_reachable_inv _ _ _ Hr) as Hs.
  unfold advance. erewrite sbind_step by reflexivity. erewrite sbind_step by (apply lift_Ok; exact Hw). apply sbind_raise.
  unfold intake. erewrite sbind_step by reflexivity.
  destruct (offer_stacks_collide s (w_start w) (si_cfg _ Hs) Hknown offered (zero_map (dkeys (queues s))) Hoff) as [[_ Hz]|E].
  - specialize (Hz _ _ _ _ Hst Hch). injection Hz as ->. lia.
  - by erewrite sbind_raise by exact E.
Qed.

(** An external job whose identifier has the form of an automatic one. *)
Definition colliding_extra : list pyval := [
  VDict [("job_id", VStr "foreground:1"); ("stack", VStr "hbf0"); ("channel", VStr "1"); ("operation", VStr "erase");
         ("bytes", VInt 1); ("arrival_ns", VInt 0)]].
Definition one_read : dict string (dict string pyval) := [("hbf0", [("0", VInt 10)])].

Definition collision_run : result (service * receipt * service) :=
  let? s := init demo_document in
  match advance (VInt 0) (VInt WINDOW_NS) one_read demo_budgets demo_states colliding_extra s with
  | (Ok r, s') => Ok (s, r, s')
  | (Raise e, _) => Raise e
  end.

(** What the witness needs of the state after the first window. *)
Definition ready (s : service) : bool :=
  (auto_id s =? 1) && bool_decide (auto_name 1 ∈ known_ids s)
  && is_ok (check_window s (VInt WINDOW_NS) (VInt (2 * WINDOW_NS)) (dkeys one_read) demo_budgets demo_states)
  && bool_decide (dkeys <$> dget (channels (cfg s)) "hbf0" = Some ["0"; "1"]).

(** The service accepts such a job, and refuses the next window. *)
Lemma topology_auto_id_collision_witness : exists s r s', collision_run = Ok (s, r, s') /\
  advance (VInt WINDOW_NS) (VInt (2 * WINDOW_NS)) one_read demo_budgets demo_states [] s' =
    (Raise (ValueError "job_id must be a new nonempty string"), set_auto_id 2 s').
Proof.
  assert (Hx : rbind collision_run (fun x => Ok (ready x.2)) = Ok true) by (vm_compute; reflexivity).
  destruct collision_run as [[[s r] s']|e] eqn:E; [|discriminate Hx]. exists s, r, s'. split; [reflexivity|].
  unfold collision_run in E. apply bind_Ok in E as (s0 & Hi & E).
  destruct (advance _ _ _ _ _ colliding_extra s0) as [[r0|e0] s0'] eqn:Ea; [|discriminate E]. injection E as -> -> ->.
  cbn [rbind snd] in Hx. injection Hx as Hx. unfold ready in Hx. rewrite !andb_true_iff, !bool_decide_eq_true in Hx.
  destruct Hx as [[[Ha%Z.eqb_eq Hk] Hw] Hd]. destruct (check_window s' _ _ _ _ _) as [w|] eqn:Ew; [|discriminate Hw].
  destruct (dget (channels (cfg s')) "hbf0") as [own|] eqn:Eo; [|discriminate Hd]. injection Hd as Hd.
  replace (set_auto_id 2 s') with (set_auto_id (auto_id s' + 1) s') by (rewrite Ha; reflexivity).
  apply (topology_auto_id_collision demo_document s' _ _ _ _ _ _ [] w "hbf0" [("0", VInt 10)] "0" 10
           (reachable_ok _ _ _ _ _ _ _ _ _ _ _ (reachable_init _ _ Hi) Ea)).
  - rewrite Ha. exact Hk.
  - exact Ew.
  - intros st raw [[= -> ->]|Hin]%elem_of_cons; [|by apply not_elem_of_nil in Hin]. exists own. split; [exact Eo|].
    intros ch v [[= -> ->]|Hin]%elem_of_cons; [|by apply not_elem_of_nil in Hin]. rewrite Hd. split; [apply list_elem_of_here|].
    exists 10. split; [reflexivity|lia].
  - apply list_elem_of_here.
  - apply list_elem_of_here.
  - lia.
Defined.
End TopologyInvariant.
