(* ===== verification/FieldCodec.v ===== *)
(** * The lossless field codec

    Model of [src/tools/eq3_campaign_fieldcodec.py]: temperature maps printed as
    text rows are stored as zlib-compressed records of int32 milli-kelvin deltas
    against the previous frame, other lines as literals, and decoded back byte
    for byte.  Bytes are integers below 256.  The zlib and SHA-256 libraries are
    an interface ([Zlib]) and a parameter. *)

From S2P Require Import Prelude.

Module FieldCodec.

Notation bytes := (list Z) (only parsing).

(** ** The compression library *)

(** [zlib.compressobj] and [zlib.decompressobj]: [decompress d x n] feeds [x] and
    returns output together with the object whose attributes [unconsumed_tail],
    [unused_data] and [eof] the caller reads. *)
Class Zlib := {
  cstate : Type; compressobj : Z -> cstate; compress : cstate -> bytes -> bytes * cstate; flush : cstate -> bytes;
  dstate : Type; decompressobj : dstate; decompress : dstate -> bytes -> Z -> result (bytes * dstate);
  unconsumed_tail : dstate -> bytes; unused_data : dstate -> bytes; eof : dstate -> bool }.

(** The stream a compressor writes for the given pieces. *)
Fixpoint compress_all `{Zlib} (c : cstate) (pieces : list bytes) : bytes :=
  match pieces with
  | [] => flush c
  | x :: rest => let '(out, c') := compress c x in out ++ compress_all c' rest
  end.

(** What the codec relies on: [owes d todo p] says that decompressor [d], still to
    be fed the bytes [todo], will produce the output [p].  A fresh one owes what
    was compressed; feeding a part consumes some input or yields some output, keeps
    the rest in [unconsumed_tail] and leaves no [unused_data]; at the end of the
    input nothing is owed and [eof] is set. *)
Class ZlibLaws `{Zlib} := {
  owes : dstate -> bytes -> bytes -> Prop;
  owes_start : forall level pieces, owes decompressobj (compress_all (compressobj level) pieces) (concat pieces);
  owes_step : forall d x rest p n, owes d (x ++ rest) p -> x <> [] -> 0 < n ->
    exists out d' p' used, decompress d x n = Ok (out, d') /\ p = out ++ p' /\ unused_data d' = [] /\
      x = used ++ unconsumed_tail d' /\ owes d' (unconsumed_tail d' ++ rest) p' /\ (used <> [] \/ out <> []);
  owes_end : forall d p, owes d [] p -> p = [] /\ eof d = true }.

(** ** Byte strings *)

Definition code (s : string) : bytes := (fun c => Z.of_N (Ascii.N_of_ascii c)) <$> String.list_ascii_of_string s.

Definition MAGIC : bytes := code "EQ3TMK1" ++ [10].
Definition CHUNK : Z := 65536.
Definition NEWLINE : Z := 10.

(** [bytes.strip] and [bytes.split] drop and split at ASCII whitespace. *)
Definition is_space (b : Z) : bool := (b =? 32) || ((9 <=? b) && (b <=? 13)).
Fixpoint lstrip (l : bytes) : bytes :=
  match l with [] => [] | b :: l' => if is_space b then lstrip l' else l end.
Definition strip (l : bytes) : bytes := reverse (lstrip (reverse (lstrip l))).

Fixpoint split_words (l : bytes) (word : bytes) : list bytes :=
  let emit ws := match word with [] => ws | _ => word :: ws end in
  match l with
  | [] => emit []
  | b :: l' => if is_space b then emit (split_words l' []) else split_words l' (word ++ [b])
  end.

(** [data.split(b'\n')]: complete lines and the rest. *)
Fixpoint split_lines (l : bytes) (line : bytes) : list bytes * bytes :=
  match l with
  | [] => ([], line)
  | b :: l' =>
      if b =? NEWLINE then let '(lines, rest) := split_lines l' [] in (line :: lines, rest)
      else split_lines l' (line ++ [b])
  end.

Definition is_digit (b : Z) : bool := (48 <=? b) && (b <=? 57).
Definition int_of (digits : bytes) : Z := foldl (fun n b => 10 * n + (b - 48)) 0 digits.
(** [str(n)] of a non-negative integer; a number has at most one digit per bit. *)
Fixpoint decimal_go (fuel : nat) (n : Z) (acc : bytes) : bytes :=
  match fuel with
  | O => acc
  | S fuel' => let acc := (48 + n mod 10) :: acc in if n <? 10 then acc else decimal_go fuel' (n / 10) acc
  end.
Definition decimal (n : Z) : bytes := decimal_go (S (Z.to_nat (Z.log2 n))) n [].

(** Little-endian unsigned and signed 32-bit integers. *)
Definition pack_u32 (n : Z) : bytes := [n mod 256; n / 256 mod 256; n / 65536 mod 256; n / 16777216 mod 256].
Definition UINT_pack (n : Z) : result bytes :=
  if (0 <=? n) && (n <? 2 ^ 32) then Ok (pack_u32 n) else Raise (StructError "argument out of range").
Definition unpack_u32 (l : bytes) : Z :=
  match l with [a; b; c; d] => a + 256 * b + 65536 * c + 16777216 * d | _ => 0 end.
Definition pack_i32 (n : Z) : bytes := pack_u32 (n mod 2 ^ 32).
Definition unpack_i32 (l : bytes) : Z := let u := unpack_u32 l in if u <? 2 ^ 31 then u else u - 2 ^ 32.
Fixpoint unpack_all (n : nat) (l : bytes) : list Z :=
  match n with O => [] | S n' => unpack_i32 (take 4 l) :: unpack_all n' (drop 4 l) end.

Definition HEADER_pack (nx ny frames : Z) : result bytes :=
  let? a := UINT_pack nx in let? b := UINT_pack ny in let? c := UINT_pack frames in Ok (a ++ b ++ c).

Definition int32 (v : Z) : bool := (- 2 ^ 31 <=? v) && (v <? 2 ^ 31).

(** ** Canonical numbers *)

Definition native_value (value : Z) : bytes :=
  let sign := if value <? 0 then [45] else [] in
  let v := Z.abs value in
  let text := sign ++ decimal (v / 1000) ++ [46; 48 + v mod 1000 / 100; 48 + v mod 100 / 10; 48 + v mod 10] in
  replicate (7 - length text) 32 ++ text ++ [32; 32].

Definition native_row (values : list Z) : bytes := concat (native_value <$> values) ++ [NEWLINE].

Fixpoint digits_of (l : bytes) : bytes :=
  match l with b :: l' => if is_digit b then b :: digits_of l' else [] | [] => [] end.

(** The optional minus sign. *)
Definition sign_of (t : bytes) : bool * bytes :=
  match t with b :: t' => if b =? 45 then (true, t') else (false, t) | [] => (false, []) end.

(** [TOKEN.fullmatch]: an optional minus sign, digits, a point, three digits.  The
    result is the sign and the two digit strings. *)
Definition token_parts (t : bytes) : option (bool * bytes * bytes) :=
  let '(negative, t) := sign_of t in
  match digits_of t, drop (length (digits_of t)) t with
  | (_ :: _) as whole, [46; a; b; c] =>
      if is_digit a && is_digit b && is_digit c then Some (negative, whole, [a; b; c]) else None
  | _, _ => None
  end.

(** The value of a matched token; [int] refuses more than 4300 digits. *)
Definition token_value (parts : bool * bytes * bytes) : result Z :=
  let '(negative, whole, fraction) := parts in
  let? _ := ensure (bool_decide (length whole <= 4300)%nat)
              (ValueError "Exceeds the limit (4300 digits) for integer string conversion") in
  let value := (int_of whole * 1000 + int_of fraction) * (if negative then -1 else 1) in
  let? _ := ensure (int32 value) (ValueError "milli-K outside int32 range") in
  Ok value.

(** ** Encoder *)

Section codec.
Context {Z0 : Zlib}.
Context (sha256 : bytes -> string).

Record encoder := {
  nx : Z; ny : Z; frames : Z; z : cstate; file : bytes; previous : list Z; pending : bytes; rows : Z;
  byte_count : Z; digest : bytes }.

Definition dimensions_ok (nx ny frames : Z) : bool :=
  negb ((Z.min (Z.min nx ny) frames <? 1) || (400000 <? nx * ny)).

(** [Encoder(path, ...)]; [exists_] tells whether the path exists already. *)
Definition init (exists_ : bool) (nx ny frames level : Z) : result encoder :=
  let? _ := ensure (dimensions_ok nx ny frames && ((0 <=? level) && (level <=? 9)))
              (ValueError "invalid codec dimensions/level") in
  let? _ := ensure (negb exists_) FileExistsError in
  let? header := HEADER_pack nx ny frames in
  Ok {| nx := nx; ny := ny; frames := frames; z := compressobj level; file := MAGIC ++ header;
        previous := replicate (Z.to_nat (nx * ny)) 0; pending := []; rows := 0; byte_count := 0; digest := [] |}.

Definition set_pending (p : bytes) (e : encoder) : encoder :=
  {| nx := nx e; ny := ny e; frames := frames e; z := z e; file := file e; previous := previous e; pending := p;
     rows := rows e; byte_count := byte_count e; digest := digest e |}.
Definition count_data (data : bytes) (e : encoder) : encoder :=
  {| nx := nx e; ny := ny e; frames := frames e; z := z e; file := file e; previous := previous e; pending := pending e;
     rows := rows e; byte_count := byte_count e + Z.of_nat (length data); digest := digest e ++ data |}.
(** [self.file.write(self.z.compress(record))]. *)
Definition write_record (record : bytes) (e : encoder) : encoder :=
  let '(out, z') := compress (z e) record in
  {| nx := nx e; ny := ny e; frames := frames e; z := z'; file := file e ++ out; previous := previous e; pending := pending e;
     rows := rows e; byte_count := byte_count e; digest := digest e |}.
Definition set_row (offset : nat) (values : list Z) (e : encoder) : encoder :=
  {| nx := nx e; ny := ny e; frames := frames e; z := z e; file := file e; previous := list_inserts offset values (previous e);
     pending := pending e; rows := rows e + 1; byte_count := byte_count e; digest := digest e |}.

Definition line_bound (nx : Z) : Z := Z.max CHUNK (nx * 32).
(** Blank lines and lines that start with a percent sign are kept as they are. *)
Definition is_literal (line : bytes) : bool :=
  match strip line with [] => true | b :: _ => b =? 37 end.

(** The values of a numeric row, with every check of the row itself. *)
Definition row_values (nx : Z) (line : bytes) : result (list Z) :=
  let error := ValueError "not a finite three-decimal canonical numeric row" in
  let tokens := split_words (strip line) [] in
  let? _ := ensure (Z.of_nat (length tokens) =? nx) error in
  let? parts := mapR (fun t => of_option error (token_parts t)) tokens in
  let? values := mapR token_value parts in
  let? _ := ensure (bool_decide (native_row values = line))
              (ValueError "native row is not exactly reconstructible canonical format") in
  Ok values.

Definition row_offset (rows ny nx : Z) : nat := Z.to_nat (rows mod ny * nx).

(** [v - previous[offset + i]] for the values of a row. *)
Definition row_deltas (previous : list Z) (offset : nat) (values : list Z) : result (list Z) :=
  mapR (fun '(i, v) => let? p := lget previous (offset + i) in Ok (v - p)) (imap pair values).

Definition feed_line (line : bytes) : M encoder unit :=
  let! e := get in
  if is_literal line then
    let! n := lift (UINT_pack (Z.of_nat (length line))) in
    modify (write_record (76 :: n ++ line))
  else
    let! values := lift (row_values (nx e) line) in
    let! _ := require (rows e <? frames e * ny e) (ValueError "extra native rows") in
    let offset := row_offset (rows e) (ny e) (nx e) in
    let! deltas := lift (row_deltas (previous e) offset values) in
    let! _ := require (forallb int32 deltas) (ValueError "frame delta outside int32 range") in
    let! _ := modify (write_record (68 :: concat (pack_i32 <$> deltas))) in
    modify (set_row offset values).

Definition feed (data : bytes) : M encoder unit :=
  let! _ := modify (count_data data) in
  let! e := get in
  let '(lines, rest) := split_lines (pending e ++ data) [] in
  let! _ := put (set_pending rest e) in
  let! _ := require (Z.of_nat (length rest) <=? line_bound (nx e)) (ValueError "unbounded native line") in
  forM lines (fun line => feed_line (line ++ [NEWLINE])).

Record receipt := { native_sha256 : string; native_bytes : Z; compressed_bytes : Z; r_frames : Z; r_rows : Z }.

(** [finish]: the receipt and the final content of the file. *)
Definition finish (e : encoder) : result (receipt * bytes) :=
  let? _ := ensure (bool_decide (pending e = []) && (rows e =? frames e * ny e)) (ValueError "truncated native fields") in
  let content := file e ++ flush (z e) in
  Ok ({| native_sha256 := sha256 (digest e); native_bytes := byte_count e; compressed_bytes := Z.of_nat (length content);
         r_frames := frames e; r_rows := rows e |}, content).

(** ** Decoder *)

Record decoder := {
  d_nx : Z; d_ny : Z; d_frames : Z; d_previous : list Z; d_rows : Z; d_z : dstate; d_packed : bytes; d_pending : bytes;
  d_exhausted : bool; d_stream : bytes; d_lines : list bytes }.

(** One record at the head of [pending]: [None] when it is not complete yet,
    otherwise the line it stands for, its length and the new frame state. *)
Definition decode_record (nx ny frames : Z) (previous : list Z) (rows : Z) (pending : bytes) :
    result (option (bytes * nat * list Z * Z)) :=
  match pending with
  | 68 :: body =>
      let length_ := (1 + Z.to_nat nx * 4)%nat in
      if (length pending <? length_)%nat then Ok None else
      let? _ := ensure (rows <? ny * frames) (ValueError "extra codec rows") in
      let offset := row_offset rows ny nx in
      let? values := mapR (fun '(i, d) => let? p := lget previous (offset + i) in Ok (p + d))
                       (imap pair (unpack_all (Z.to_nat nx) body)) in
      let? _ := ensure (forallb int32 values) (ValueError "decoded value outside int32") in
      Ok (Some (native_row values, length_, list_inserts offset values previous, rows + 1))
  | 76 :: body =>
      if (length pending <? 5)%nat then Ok None else
      let count := unpack_u32 (take 4 body) in
      let? _ := ensure (count <=? line_bound nx) (ValueError "literal exceeds bounded line") in
      let length_ := (5 + Z.to_nat count)%nat in
      if (length pending <? length_)%nat then Ok None else
      let literal := take (Z.to_nat count) (drop 4 body) in
      let? _ := ensure (bool_decide (last literal = Some NEWLINE) && is_literal literal) (ValueError "invalid literal line") in
      Ok (Some (literal, length_, previous, rows))
  | _ => Raise (ValueError "invalid codec record")
  end.

Definition decoded (line : bytes) (length_ : nat) (previous : list Z) (rows : Z) (d : decoder) : decoder :=
  {| d_nx := d_nx d; d_ny := d_ny d; d_frames := d_frames d; d_previous := previous; d_rows := rows; d_z := d_z d;
     d_packed := d_packed d; d_pending := drop length_ (d_pending d); d_exhausted := d_exhausted d; d_stream := d_stream d;
     d_lines := d_lines d ++ [line] |}.

(** [while pending]: every complete record leaves the buffer. *)
Fixpoint drain (fuel : nat) : M decoder unit :=
  match fuel with
  | O => raise OutOfFuel
  | S fuel' =>
      let! d := get in
      match d_pending d with
      | [] => sret tt
      | _ =>
          let! r := lift (decode_record (d_nx d) (d_ny d) (d_frames d) (d_previous d) (d_rows d) (d_pending d)) in
          match r with
          | None => sret tt
          | Some (line, length_, previous, rows) => let! _ := put (decoded line length_ previous rows d) in drain fuel'
          end
      end
  end.

(** [packed = stream.read(CHUNK)] when the decompressor has no input left. *)
Definition read_chunk (d : decoder) : decoder :=
  if bool_decide (d_packed d = []) && negb (d_exhausted d) then
    let chunk := take (Z.to_nat CHUNK) (d_stream d) in
    {| d_nx := d_nx d; d_ny := d_ny d; d_frames := d_frames d; d_previous := d_previous d; d_rows := d_rows d; d_z := d_z d;
       d_packed := chunk; d_pending := d_pending d; d_exhausted := bool_decide (chunk = []);
       d_stream := drop (Z.to_nat CHUNK) (d_stream d); d_lines := d_lines d |}
  else d.

Definition decompressed (out : bytes) (z' : dstate) (d : decoder) : decoder :=
  {| d_nx := d_nx d; d_ny := d_ny d; d_frames := d_frames d; d_previous := d_previous d; d_rows := d_rows d; d_z := z';
     d_packed := unconsumed_tail z'; d_pending := d_pending d ++ out; d_exhausted := d_exhausted d; d_stream := d_stream d;
     d_lines := d_lines d |}.

Definition inflate : M decoder unit :=
  let! d := get in
  match d_packed d with
  | [] => sret tt
  | _ =>
      let! (out, z') := lift (decompress (d_z d) (d_packed d) CHUNK) in
      let! _ := put (decompressed out z' d) in
      require (bool_decide (unused_data z' = [])) (ValueError "trailing compressed payload")
  end.

Fixpoint decode_loop (fuel : nat) : M decoder unit :=
  match fuel with
  | O => raise OutOfFuel
  | S fuel' =>
      let! _ := modify read_chunk in
      let! _ := inflate in
      let! d := get in
      let! _ := drain (S (length (d_pending d))) in
      let! d := get in
      if d_exhausted d && bool_decide (d_packed d = []) then sret tt else decode_loop fuel'
  end.

(** The lines the generator yields, and how it ends. *)
Definition decoded_lines (fuel : nat) (content : bytes) : list bytes * result unit :=
  let header := take 12 (drop (length MAGIC) content) in
  let nx := unpack_u32 (take 4 header) in
  let ny := unpack_u32 (take 4 (drop 4 header)) in
  let frames := unpack_u32 (drop 8 header) in
  let check :=
    let? _ := ensure (bool_decide (take (length MAGIC) content = MAGIC)) (ValueError "codec magic mismatch") in
    let? _ := ensure (bool_decide (length header = 12%nat)) (ValueError "truncated codec header") in
    ensure (dimensions_ok nx ny frames) (ValueError "invalid codec dimensions") in
  match check with
  | Raise e => ([], Raise e)
  | Ok _ =>
      let '(r, d) := decode_loop fuel
        {| d_nx := nx; d_ny := ny; d_frames := frames; d_previous := replicate (Z.to_nat (nx * ny)) 0; d_rows := 0;
           d_z := decompressobj; d_packed := []; d_pending := []; d_exhausted := false;
           d_stream := drop (length MAGIC + 12) content; d_lines := [] |} in
      (d_lines d,
       let? _ := r in
       ensure (eof (d_z d) && bool_decide (d_pending d = []) && (d_rows d =? d_ny d * d_frames d))
         (ValueError "truncated codec stream or frames"))
  end.

(** ** Replay *)

(** [while data := stream.read(CHUNK)]. *)
Fixpoint chunks (fuel : nat) (source : bytes) : list bytes :=
  match fuel, source with
  | S fuel', _ :: _ => take (Z.to_nat CHUNK) source :: chunks fuel' (drop (Z.to_nat CHUNK) source)
  | _, _ => []
  end.

Definition encode (exists_ : bool) (pieces : list bytes) (nx ny frames level : Z) : result (receipt * bytes) :=
  let? e := init exists_ nx ny frames level in
  let '(r, e') := forM pieces feed e in
  let? _ := r in
  finish e'.

Definition replay (fuel : nat) (exists_ : bool) (source : bytes) (nx ny frames level : Z) : result receipt :=
  let? (r, content) := encode exists_ (chunks (length source) source) nx ny frames level in
  let '(lines, outcome) := decoded_lines fuel content in
  let? _ := outcome in
  let? _ := ensure (bool_decide (sha256 (concat lines) = native_sha256 r) &&
                    (Z.of_nat (length (concat lines)) =? native_bytes r))
              (ValueError "byte lossless verification failed") in
  Ok r.

(** ** Packed integers *)

Lemma unpack_pack_u32 n : 0 <= n < 2 ^ 32 -> unpack_u32 (pack_u32 n) = n.
Proof.
  intros H. unfold unpack_u32, pack_u32.
  replace (n / 65536) with (n / 256 / 256) by (rewrite Z.div_div by lia; done).
  replace (n / 16777216) with (n / 256 / 256 / 256) by (rewrite !Z.div_div by lia; done).
  pose proof (Z.div_mod n 256 ltac:(lia)). pose proof (Z.div_mod (n / 256) 256 ltac:(lia)).
  pose proof (Z.div_mod (n / 256 / 256) 256 ltac:(lia)). pose proof (Z.div_mod (n / 256 / 256 / 256) 256 ltac:(lia)).
  assert (n / 256 / 256 / 256 / 256 = 0) by (rewrite !Z.div_div by lia; apply Z.div_small; lia). lia.
Qed.

Lemma unpack_pack_i32 n : int32 n = true -> unpack_i32 (pack_i32 n) = n.
Proof.
  unfold int32, unpack_i32, pack_i32. intros H. pose proof (Z.mod_pos_bound n (2 ^ 32) ltac:(lia)) as Hb.
  rewrite unpack_pack_u32 by done.
  destruct (Z.ltb_spec n 0) as [Hn|Hn].
  - assert (E : n mod 2 ^ 32 = n + 2 ^ 32) by (symmetry; apply (Z.mod_unique _ _ (-1)); lia). rewrite E.
    destruct (Z.ltb_spec (n + 2 ^ 32) (2 ^ 31)); lia.
  - rewrite Z.mod_small by lia. destruct (Z.ltb_spec n (2 ^ 31)); lia.
Qed.

Lemma unpack_all_pack ds rest : forallb int32 ds = true -> unpack_all (length ds) (concat (pack_i32 <$> ds) ++ rest) = ds.
Proof.
  induction ds as [|d ds IH]; [done|]. cbn [forallb]. intros [Hd Hds]%andb_prop.
  change (concat (pack_i32 <$> d :: ds)) with (pack_i32 d ++ concat (pack_i32 <$> ds)). rewrite <- app_assoc.
  change (unpack_i32 (pack_i32 d) :: unpack_all (length ds) (concat (pack_i32 <$> ds) ++ rest) = d :: ds).
  by rewrite unpack_pack_i32, IH.
Qed.

Lemma length_packs ds : length (concat (pack_i32 <$> ds)) = (length ds * 4)%nat.
Proof. induction ds as [|d ds IH]; [done|]. change (4 + length (concat (pack_i32 <$> ds)) = (4 + length ds * 4))%nat. by rewrite IH. Qed.

(** ** Records *)

(** The record that encodes a line in the frame state [(prev, n)]. *)
Inductive record_for (nx ny frames : Z) : list Z -> Z -> bytes -> bytes -> list Z -> Z -> Prop :=
| literal_record prev n line : is_literal line = true -> last line = Some NEWLINE -> Z.of_nat (length line) < 2 ^ 32 ->
    record_for nx ny frames prev n line (76 :: pack_u32 (Z.of_nat (length line)) ++ line) prev n
| delta_record prev n values deltas : Z.of_nat (length values) = nx -> n < frames * ny -> forallb int32 values = true ->
    forallb int32 deltas = true -> row_deltas prev (row_offset n ny nx) values = Ok deltas ->
    record_for nx ny frames prev n (native_row values) (68 :: concat (pack_i32 <$> deltas))
      (list_inserts (row_offset n ny nx) values prev) (n + 1).

Lemma row_deltas_undo prev offset values deltas : row_deltas prev offset values = Ok deltas ->
  length deltas = length values /\
  mapR (fun '(i, d) => let? p := lget prev (offset + i) in Ok (p + d)) (imap pair deltas) = Ok values.
Proof.
  unfold row_deltas. rewrite !mapR_Ok. intros H. pose proof (Forall2_length _ _ _ H) as Hl. rewrite length_imap in Hl.
  split; [done|]. apply Forall2_same_length_lookup. split; [by rewrite length_imap|].
  intros i [i' d] v Hi Hv. rewrite list_lookup_imap in Hi. destruct (deltas !! i) as [d'|] eqn:Ed; [|done]. injection Hi as <- <-.
  destruct (Forall2_lookup_r _ _ _ _ _ H Ed) as ([j v'] & Hj & E). rewrite list_lookup_imap, Hv in Hj. injection Hj as <- <-.
  inv_ok. match goal with H : lget _ _ = Ok _ |- _ => rewrite H end. simpl. f_equal. lia.
Qed.

Lemma record_nonempty nx ny frames prev n line rec prev' n' : record_for nx ny frames prev n line rec prev' n' -> rec <> [].
Proof. by destruct 1. Qed.

Section record.
Context (nx ny frames : Z) (prev : list Z) (n : Z) (line rec : bytes) (prev' : list Z) (n' : Z).
Context (Hr : record_for nx ny frames prev n line rec prev' n') (Hb : Z.of_nat (length line) <= line_bound nx \/ hd 0 rec = 68).

Lemma decode_record_whole rest : decode_record nx ny frames prev n (rec ++ rest) = Ok (Some (line, length rec, prev', n')).
Proof using Hr Hb.
  destruct Hr as [prev n line Hlit Hlast Hlen|prev n values deltas Hl Hn Hv Hd Hrow].
  - cbn [app decode_record]. destruct Hb as [Hb'|]; [|done].
    assert (El : length (76 :: (pack_u32 (Z.of_nat (length line)) ++ line) ++ rest) = (5 + length line + length rest)%nat)
      by (cbn; rewrite length_app; lia). rewrite El.
    destruct (Nat.ltb_spec (5 + length line + length rest) 5); [lia|].
    replace (take 4 ((pack_u32 (Z.of_nat (length line)) ++ line) ++ rest)) with (pack_u32 (Z.of_nat (length line))) by done.
    rewrite unpack_pack_u32 by lia. rewrite (proj2 (Z.leb_le _ _)) by done. cbn [ensure rbind]. rewrite Nat2Z.id.
    destruct (Nat.ltb_spec (5 + length line + length rest) (5 + length line)); [lia|].
    replace (drop 4 ((pack_u32 (Z.of_nat (length line)) ++ line) ++ rest)) with (line ++ rest) by done.
    rewrite take_app_length, bool_decide_eq_true_2, Hlit by done. cbn [andb ensure rbind].
    reflexivity.
  - destruct (row_deltas_undo _ _ _ _ Hrow) as [Hlen Hundo]. cbn [app decode_record].
    assert (En : Z.to_nat nx = length deltas) by lia. rewrite En.
    assert (El : length (68 :: concat (pack_i32 <$> deltas) ++ rest) = (1 + length deltas * 4 + length rest)%nat)
      by (cbn; rewrite length_app, length_packs; lia). rewrite El.
    destruct (Nat.ltb_spec (1 + length deltas * 4 + length rest) (1 + length deltas * 4)); [lia|].
    rewrite (proj2 (Z.ltb_lt _ _)) by lia. cbn [ensure rbind]. rewrite unpack_all_pack by done. rewrite Hundo. cbn [rbind].
    rewrite Hv. cbn [ensure rbind length]. by rewrite length_packs.
Qed.

Lemma decode_record_partial part future rest : part <> [] -> part ++ future = rec ++ rest -> (length part < length rec)%nat ->
  decode_record nx ny frames prev n part = Ok None.
Proof using Hr Hb.
  intros Hne E Hlt. destruct part as [|b body]; [done|]. clear Hne.
  destruct Hr as [prev n line Hlit Hlast Hlen|prev n values deltas Hl Hn Hv Hd Hrow]; injection E as -> E; cbn [decode_record].
  - destruct Hb as [Hb'|]; [|done]. cbn [length] in *. rewrite length_app in Hlt. cbn [pack_u32 length] in Hlt.
    destruct (Nat.ltb_spec (S (length body)) 5) as [?|H5]; [done|].
    assert (Et : take 4 body = pack_u32 (Z.of_nat (length line))).
    { assert (Ht : take 4 (body ++ future) = take 4 ((pack_u32 (Z.of_nat (length line)) ++ line) ++ rest)) by by rewrite E.
      rewrite take_app_le in Ht by lia. exact Ht. }
    rewrite Et, unpack_pack_u32 by lia. rewrite (proj2 (Z.leb_le _ _)) by done. cbn [ensure rbind]. rewrite Nat2Z.id.
    destruct (Nat.ltb_spec (S (length body)) (5 + length line)); [done|lia].
  - destruct (row_deltas_undo _ _ _ _ Hrow) as [Hlen _]. cbn [length] in *. rewrite length_packs in Hlt.
    destruct (Nat.ltb_spec (S (length body)) (1 + Z.to_nat nx * 4)); [done|lia].
Qed.
End record.

(** ** The encoder's records *)

Inductive chain (nx ny frames : Z) : list Z -> Z -> list bytes -> list bytes -> list Z -> Z -> Prop :=
| chain_nil prev n : chain nx ny frames prev n [] [] prev n
| chain_cons prev n line rec prev1 n1 lines recs prev2 n2 :
    record_for nx ny frames prev n line rec prev1 n1 -> chain nx ny frames prev1 n1 lines recs prev2 n2 ->
    chain nx ny frames prev n (line :: lines) (rec :: recs) prev2 n2.

Lemma chain_snoc nx ny frames prev n lines recs prev1 n1 line rec prev2 n2 :
  chain nx ny frames prev n lines recs prev1 n1 -> record_for nx ny frames prev1 n1 line rec prev2 n2 ->
  chain nx ny frames prev n (lines ++ [line]) (recs ++ [rec]) prev2 n2.
Proof. induction 1; intros Hr; simpl; econstructor; eauto. constructor. Qed.

(** [e'] is [e] after writing the record of a line. *)
Record wrote (line : bytes) (e e' : encoder) (rec : bytes) : Prop := {
  wt_record : record_for (nx e) (ny e) (frames e) (previous e) (rows e) line rec (previous e') (rows e');
  wt_dims : nx e' = nx e /\ ny e' = ny e /\ frames e' = frames e;
  wt_kept : pending e' = pending e /\ byte_count e' = byte_count e /\ digest e' = digest e;
  wt_file : forall more, file e' ++ compress_all (z e') more = file e ++ compress_all (z e) (rec :: more) }.

Lemma write_record_spec rec e : let e' := write_record rec e in
  nx e' = nx e /\ ny e' = ny e /\ frames e' = frames e /\ pending e' = pending e /\ byte_count e' = byte_count e /\
  digest e' = digest e /\ previous e' = previous e /\ rows e' = rows e /\
  forall more, file e' ++ compress_all (z e') more = file e ++ compress_all (z e) (rec :: more).
Proof.
  unfold write_record. cbn [compress_all]. destruct (compress (z e) rec) as [out z']. cbn. split_and!; try done.
  intros more. by rewrite <- app_assoc.
Qed.

Lemma row_values_spec n line values : row_values n line = Ok values ->
  Z.of_nat (length values) = n /\ native_row values = line /\ forallb int32 values = true.
Proof.
  unfold row_values. intros H. inv_ok.
  match goal with H1 : mapR _ ?ts = Ok ?ps, H2 : mapR token_value ?ps = Ok _ |- _ => rename H1 into Hp; rename H2 into Hv end.
  apply mapR_Ok in Hp, Hv. apply Forall2_length in Hp. pose proof (Forall2_length _ _ _ Hv). split_and!; [lia|done|].
  apply forallb_forall. intros v Hin%list_elem_of_In. apply list_elem_of_lookup in Hin as [i Hi].
  destruct (Forall2_lookup_r _ _ _ _ _ Hv Hi) as ([[neg whole] frac] & _ & E). unfold token_value in E. by inv_ok.
Qed.

Lemma UINT_pack_spec n l : UINT_pack n = Ok l -> 0 <= n < 2 ^ 32 /\ l = pack_u32 n.
Proof. unfold UINT_pack. destruct ((0 <=? n) && (n <? 2 ^ 32)) eqn:E; [|done]. intros [= <-]. split; [lia|done]. Qed.

Lemma feed_line_spec line e e' : last line = Some NEWLINE -> feed_line line e = (Ok tt, e') -> exists rec, wrote line e e' rec.
Proof.
  intros Hlast E. unfold feed_line in E. rewrite (sbind_step _ _ e e e) in E by done. destruct (is_literal line) eqn:Hlit.
  - peel_ok E n En. apply UINT_pack_spec in En as [Hn ->].
    set (rec := 76 :: pack_u32 (Z.of_nat (length line)) ++ line) in *. exists rec.
    assert (e' = write_record rec e) as -> by (by apply (f_equal snd) in E).
    destruct (write_record_spec rec e) as (E1 & E2 & E3 & E4 & E5 & E6 & E7 & E8 & E9).
    constructor; [rewrite E7, E8; apply literal_record; [done|done|lia]|done|done|done].
  - peel_ok E values Ev. apply row_values_spec in Ev as (Hl & Hline & Hv). peel_ok_guard E Hrows. cbv zeta in E.
    peel_ok E deltas Ed. peel_ok_guard E Hd. erewrite sbind_step in E by reflexivity.
    set (rec := 68 :: concat (pack_i32 <$> deltas)) in *. exists rec. set (offset := row_offset _ _ _) in *.
    assert (e' = set_row offset values (write_record rec e)) as -> by (by apply (f_equal snd) in E).
    destruct (write_record_spec rec e) as (E1 & E2 & E3 & E4 & E5 & E6 & E7 & E8 & E9).
    constructor; cbn [set_row nx ny frames previous rows pending byte_count digest file z]; [|done|done|exact E9].
    rewrite E7, E8, <- Hline. apply delta_record; try done; lia.
Qed.

(** Many lines. *)
Lemma feed_lines_spec lines e e' : forM lines (fun line => feed_line (line ++ [NEWLINE])) e = (Ok tt, e') ->
  exists recs, chain (nx e) (ny e) (frames e) (previous e) (rows e) ((.++ [NEWLINE]) <$> lines) recs (previous e') (rows e') /\
    (nx e' = nx e /\ ny e' = ny e /\ frames e' = frames e) /\
    (pending e' = pending e /\ byte_count e' = byte_count e /\ digest e' = digest e) /\
    forall more, file e' ++ compress_all (z e') more = file e ++ compress_all (z e) (recs ++ more).
Proof.
  revert e. induction lines as [|line lines IH]; intros e E; cbn [forM] in E.
  - injection E as <-. exists []. split_and!; try done. constructor.
  - unfold sbind in E. destruct (feed_line (line ++ [NEWLINE]) e) as [[[]|?] e1] eqn:E1; [|discriminate E].
    apply feed_line_spec in E1 as (rec & [Hr (D1 & D2 & D3) (K1 & K2 & K3) Hf]); [|by rewrite last_snoc].
    destruct (IH e1 E) as (recs & Hc & (D1' & D2' & D3') & (K1' & K2' & K3') & Hf'). exists (rec :: recs).
    rewrite D1, D2, D3 in Hc. split_and!; try congruence.
    + csimpl. econstructor; [exact Hr|exact Hc].
    + intros more. rewrite Hf', Hf. done.
Qed.

Lemma split_lines_spec l line : let '(lines, rest) := split_lines l line in concat ((.++ [NEWLINE]) <$> lines) ++ rest = line ++ l.
Proof.
  revert line. induction l as [|b l IH]; intros line; cbn [split_lines]; [by rewrite app_nil_r|].
  destruct (Z.eqb_spec b NEWLINE) as [->|].
  - specialize (IH []). destruct (split_lines l []) as [lines rest]. csimpl. rewrite <- !app_assoc. by rewrite IH.
  - specialize (IH (line ++ [b])). destruct (split_lines l (line ++ [b])) as [lines rest]. rewrite IH. by rewrite <- app_assoc.
Qed.

(** ** Whole encodings *)

Lemma split_lines_app a b line : split_lines (a ++ b) line =
  let '(l1, r1) := split_lines a line in let '(l2, r2) := split_lines b r1 in (l1 ++ l2, r2).
Proof.
  revert line. induction a as [|x a IH]; intros line; cbn [app split_lines].
  - by destruct (split_lines b line).
  - destruct (x =? NEWLINE); rewrite IH.
    + destruct (split_lines a []) as [l1 r1]. by destruct (split_lines b r1).
    + done.
Qed.

Lemma split_lines_none l line : Forall (fun b => b <> NEWLINE) l -> split_lines l line = ([], line ++ l).
Proof.
  intros H. revert line. induction H as [|b l Hb Hl IH]; intros line; cbn [split_lines]; [by rewrite app_nil_r|].
  rewrite (proj2 (Z.eqb_neq _ _)) by done. rewrite IH. by rewrite <- app_assoc.
Qed.

Lemma split_lines_rest l line : Forall (fun b => b <> NEWLINE) line -> Forall (fun b => b <> NEWLINE) (split_lines l line).2.
Proof.
  revert line. induction l as [|b l IH]; intros line Hl; cbn [split_lines]; [done|].
  destruct (Z.eqb_spec b NEWLINE) as [->|Hb].
  - specialize (IH [] ltac:(constructor)). by destruct (split_lines l []).
  - apply IH. apply Forall_app. split; [done|]. by constructor.
Qed.

Lemma chain_app nx ny frames prev n l r prev1 n1 l' r' prev2 n2 : chain nx ny frames prev n l r prev1 n1 ->
  chain nx ny frames prev1 n1 l' r' prev2 n2 -> chain nx ny frames prev n (l ++ l') (r ++ r') prev2 n2.
Proof. induction 1; intros H'; simpl; [done|]. econstructor; eauto. Qed.

(** The encoder after some pieces: its records are those of the complete lines. *)
Record fed (e0 : encoder) (data : bytes) (recs : list bytes) (e : encoder) : Prop := {
  fd_dims : nx e = nx e0 /\ ny e = ny e0 /\ frames e = frames e0;
  fd_chain : chain (nx e0) (ny e0) (frames e0) (previous e0) (rows e0)
    ((.++ [NEWLINE]) <$> (split_lines data []).1) recs (previous e) (rows e);
  fd_pending : pending e = (split_lines data []).2;
  fd_data : digest e = data /\ byte_count e = Z.of_nat (length data);
  fd_file : forall more, file e ++ compress_all (z e) more = file e0 ++ compress_all (z e0) (recs ++ more) }.

Lemma feed_spec e0 data recs e piece e' : fed e0 data recs e -> feed piece e = (Ok tt, e') ->
  exists recs', fed e0 (data ++ piece) recs' e'.
Proof.
  intros [(D1 & D2 & D3) Hc Hp [Hd Hb] Hf] E. unfold feed in E.
  erewrite sbind_step in E by reflexivity. rewrite (sbind_step _ _ (count_data piece e) (count_data piece e) (count_data piece e)) in E by done.
  cbn [pending count_data] in E.
  assert (Es : split_lines (data ++ piece) [] =
      ((split_lines data []).1 ++ (split_lines (pending e ++ piece) []).1, (split_lines (pending e ++ piece) []).2)).
  { rewrite !split_lines_app, Hp. pose proof (split_lines_rest data [] ltac:(constructor)) as Hr.
    rewrite (split_lines_none (split_lines data []).2 [] Hr), app_nil_l. destruct (split_lines data []) as [l1 r1]. cbn [fst snd].
    by destruct (split_lines piece r1). }
  destruct (split_lines (pending e ++ piece) []) as [lines rest]. cbn [fst snd] in Es.
  erewrite sbind_step in E by reflexivity. peel_ok_guard E Hrest.
  destruct (feed_lines_spec lines _ e' E) as (recs' & Hc' & (D1' & D2' & D3') & (K1 & K2 & K3) & Hf').
  cbn [nx ny frames previous rows set_pending count_data pending byte_count digest file z] in *.
  exists (recs ++ recs'). constructor; rewrite ?Es; cbn [fst snd].
  - split_and!; congruence.
  - rewrite fmap_app. rewrite D1, D2, D3 in Hc'. by eapply chain_app.
  - done.
  - rewrite K2, K3, Hd, Hb, length_app. split; [done|lia].
  - intros more. by rewrite Hf', Hf, app_assoc.
Qed.

Lemma feed_all_spec e0 pieces data recs e e' : fed e0 data recs e -> forM pieces feed e = (Ok tt, e') ->
  exists recs', fed e0 (data ++ concat pieces) recs' e'.
Proof.
  revert data recs e. induction pieces as [|piece pieces IH]; intros data recs e Hf E; cbn [forM] in E.
  - injection E as <-. exists recs. cbn. by rewrite app_nil_r.
  - unfold sbind in E. destruct (feed piece e) as [[[]|?] e1] eqn:E1; [|discriminate E].
    destruct (feed_spec _ _ _ _ _ _ Hf E1) as [recs1 Hf1]. destruct (IH _ _ _ Hf1 E) as [recs2 Hf2]. exists recs2.
    cbn [concat]. by rewrite app_assoc.
Qed.

Lemma init_fed b nx ny frames level e : init b nx ny frames level = Ok e -> fed e [] [] e.
Proof. unfold init. intros H. inv_ok. constructor; try done. constructor. Qed.

(** The lines of a text, with their line ends. *)
Definition text_lines (data : bytes) : list bytes := (.++ [NEWLINE]) <$> (split_lines data []).1.

(** A finished encoding: its content is the header and the compressed records. *)
Record encoding (data : bytes) (nx ny frames level : Z) (r : receipt) (content : bytes) : Prop := {
  en_dims : dimensions_ok nx ny frames = true; en_frames : 0 <= frames < 2 ^ 32;
  en_text : concat (text_lines data) = data;
  en_receipt : native_sha256 r = sha256 data /\ native_bytes r = Z.of_nat (length data);
  en_content : exists recs prev, content = MAGIC ++ (pack_u32 nx ++ pack_u32 ny ++ pack_u32 frames) ++ compress_all (compressobj level) recs /\
    chain nx ny frames (replicate (Z.to_nat (nx * ny)) 0) 0 (text_lines data) recs prev (frames * ny) }.

Lemma encode_spec b pieces x y f level r content : encode b pieces x y f level = Ok (r, content) ->
  encoding (concat pieces) x y f level r content.
Proof.
  unfold encode. intros H. apply bind_Ok in H as (e & Hi & H).
  destruct (forM pieces feed e) as [[[]|?] e'] eqn:E; [|discriminate H]. cbn [rbind] in H.
  destruct (feed_all_spec e pieces [] [] e e' (init_fed _ _ _ _ _ _ Hi) E) as [recs Hf]. rewrite app_nil_l in Hf.
  unfold finish in H. inv_ok. match goal with H : pending _ = [] |- _ => rename H into Hp end.
  match goal with H : (rows _ =? _) = true |- _ => apply Z.eqb_eq in H; rename H into Hrows end.
  unfold init in Hi. inv_ok. unfold HEADER_pack in *. inv_ok.
  repeat match goal with H : UINT_pack _ = Ok _ |- _ => apply UINT_pack_spec in H as [? ->] end.
  destruct Hf as [(D1 & D2 & D3) Hc Hpe [Hd Hb] Hfile].
  cbn [nx ny frames previous rows digest byte_count pending file z] in *.
  constructor; cbn [native_sha256 native_bytes]; [done|done| | |].
  - unfold text_lines. pose proof (split_lines_spec (concat pieces) []) as Hs. destruct (split_lines (concat pieces) []) as [ls rest].
    cbn [fst snd] in *. rewrite Hp in Hpe. subst rest. by rewrite app_nil_r in Hs.
  - by rewrite Hd, Hb.
  - exists recs, (previous e'). split; [|by rewrite Hrows, D2, D3 in Hc].
    specialize (Hfile []). cbn [compress_all] in Hfile. rewrite Hfile, app_nil_r. by rewrite <- !app_assoc.
Qed.

(** ** The decoder *)

(** The records of the bounded lines that are still to come. *)
Record expects (d : decoder) (lines recs : list bytes) (p : bytes) (prev : list Z) (n : Z) : Prop := {
  ex_chain : chain (d_nx d) (d_ny d) (d_frames d) (d_previous d) (d_rows d) lines recs prev n;
  ex_bound : forall line, line ∈ lines -> Z.of_nat (length line) <= line_bound (d_nx d);
  ex_payload : d_pending d ++ p = concat recs }.

(** The parts of the decoder that [drain] does not touch. *)
Definition same_input (d d' : decoder) : Prop :=
  d_nx d' = d_nx d /\ d_ny d' = d_ny d /\ d_frames d' = d_frames d /\ d_z d' = d_z d /\ d_packed d' = d_packed d /\
  d_exhausted d' = d_exhausted d /\ d_stream d' = d_stream d.

Lemma drain_spec fuel d lines recs p prev n : (length (d_pending d) < fuel)%nat -> expects d lines recs p prev n ->
  exists d' lines1 lines2 recs2, drain fuel d = (Ok tt, d') /\ lines = lines1 ++ lines2 /\ d_lines d' = d_lines d ++ lines1 /\
    same_input d d' /\ expects d' lines2 recs2 p prev n /\
    (d_pending d' = [] \/ exists rec rest, recs2 = rec :: rest /\ (length (d_pending d') < length rec)%nat).
Proof.
  revert d lines recs. induction fuel as [|fuel IH]; intros d lines recs Hfuel Hex; [lia|]. cbn [drain].
  rewrite (sbind_step _ _ d d d) by done. destruct (d_pending d) as [|b body] eqn:Ep.
  { exists d, [], lines, recs. rewrite app_nil_r. split_and!; try done. by left. }
  destruct Hex as [Hc Hb Hp]. rewrite Ep in Hp. inversion Hc as [? ?|prev0 n0 line rec prev1 n1 lines0 recs0 prev2 n2 Hr Hc0]; subst; [done|].
  clear Hc. rename lines0 into lines, recs0 into recs, Hc0 into Hc.
  cbn [concat] in Hp. set (pend := b :: body) in *.
  destruct (Nat.lt_ge_cases (length pend) (length rec)) as [Hlt|Hge].
  - erewrite sbind_step by (apply lift_Ok; eapply (decode_record_partial _ _ _ _ _ _ _ _ _ Hr); [left; apply Hb; set_solver|done|exact Hp|exact Hlt]).
    cbv beta iota. exists d, [], (line :: lines), (rec :: recs). rewrite app_nil_r. split_and!; try done.
    + constructor; [by econstructor|done|]. by rewrite Ep.
    + right. exists rec, recs. by rewrite Ep.
  - assert (Hpend : exists rest, pend = rec ++ rest /\ rest ++ p = concat recs).
    { exists (drop (length rec) pend). assert (Ht : take (length rec) pend = rec).
      { assert (Ht : take (length rec) (pend ++ p) = rec) by (rewrite Hp; apply take_app_length).
        by rewrite take_app_le in Ht. }
      split; [rewrite <- Ht at 1; by rewrite take_drop|].
      assert (Hd : drop (length rec) (pend ++ p) = concat recs) by (rewrite Hp; apply drop_app_length).
      by rewrite drop_app_le in Hd. }
    destruct Hpend as (rest & Er & Hrest).
    erewrite sbind_step by (apply lift_Ok; rewrite Er; eapply (decode_record_whole _ _ _ _ _ _ _ _ _ Hr); left; apply Hb; set_solver).
    cbv beta iota. erewrite sbind_step by reflexivity.
    set (d1 := decoded line (length rec) prev1 n1 d).
    assert (Ed1 : d_pending d1 = rest) by (unfold d1; cbn [decoded d_pending]; rewrite Ep; fold pend; rewrite Er; apply drop_app_length).
    destruct (IH d1 lines recs) as (d' & l1 & l2 & r2 & E & El & Elines & Hsame & Hex & Hend).
    + rewrite Ed1. assert (length pend = length rec + length rest)%nat by (rewrite Er; apply length_app).
      pose proof (record_nonempty _ _ _ _ _ _ _ _ _ Hr) as Hne. destruct rec; [done|]. cbn [length] in *. lia.
    + constructor; [exact Hc|intros l Hl; apply Hb; set_solver|by rewrite Ed1].
    + exists d', (line :: l1), l2, r2. split_and!; try done; [by subst lines|]. rewrite Elines. unfold d1. cbn [decoded d_lines].
      by rewrite <- app_assoc.
Qed.

Context {L : ZlibLaws}.

Record dec_inv (d : decoder) (lines recs : list bytes) (p : bytes) (prev : list Z) (n : Z) : Prop := {
  di_expects : expects d lines recs p prev n;
  di_owes : owes (d_z d) (d_packed d ++ d_stream d) p;
  di_exhausted : d_exhausted d = true -> d_stream d = [] }.

(** Input and output still to come. *)
Definition work_left (d : decoder) (p : bytes) : nat := (length (d_packed d ++ d_stream d) + length p)%nat.

Lemma read_chunk_spec d lines recs p prev n : dec_inv d lines recs p prev n ->
  dec_inv (read_chunk d) lines recs p prev n /\ d_lines (read_chunk d) = d_lines d /\ work_left (read_chunk d) p = work_left d p /\
  (d_packed (read_chunk d) = [] -> d_exhausted (read_chunk d) = true).
Proof.
  intros Hinv. pose proof Hinv as [[Hc Hb Hp] Ho He]. unfold read_chunk. case_bool_decide as Epk; cbn [andb]; [|by split_and!].
  destruct (d_exhausted d) eqn:Eex; cbn [negb]; [by split_and!|].
  set (chunk := take (Z.to_nat CHUNK) (d_stream d)). set (rest := drop (Z.to_nat CHUNK) (d_stream d)).
  assert (Es : d_packed d ++ d_stream d = chunk ++ rest) by (rewrite Epk; unfold chunk, rest; by rewrite take_drop).
  split_and!; [|done|unfold work_left; cbn [d_packed d_stream]; by rewrite Es|cbn [d_packed d_exhausted]; intros ->; done].
  constructor; cbn [d_z d_packed d_stream d_exhausted]; [by constructor|by rewrite <- Es|].
  intros Hch%bool_decide_eq_true. unfold chunk in Hch. unfold rest. destruct (d_stream d); [by rewrite drop_nil|].
  assert (Z.to_nat CHUNK <> 0%nat) as Hn by (unfold CHUNK; lia). destruct (Z.to_nat CHUNK); [done|]. discriminate Hch.
Qed.

Lemma inflate_spec d lines recs p prev n : dec_inv d lines recs p prev n -> d_packed d <> [] ->
  exists d' p', inflate d = (Ok tt, d') /\ dec_inv d' lines recs p' prev n /\ d_lines d' = d_lines d /\ (work_left d' p' < work_left d p)%nat.
Proof.
  intros [[Hc Hb Hp] Ho He] Hne. destruct (owes_step (d_z d) (d_packed d) (d_stream d) p CHUNK Ho Hne ltac:(done))
    as (out & z' & p' & used & E & Ep & Hun & Eu & Ho' & Hprog).
  unfold inflate. rewrite (sbind_step _ _ d d d) by done. destruct (d_packed d) as [|b pk] eqn:Epk; [done|]. rewrite <- Epk in *.
  erewrite sbind_step by (apply lift_Ok; exact E). cbv beta iota. erewrite sbind_step by reflexivity.
  exists (decompressed out z' d), p'. rewrite (require_Ok _ _ _ (bool_decide_eq_true_2 _ Hun)).
  split_and!; [done| |done|].
  - constructor; [constructor; [done|done|]|done|done]. cbn [decompressed d_pending]. by rewrite <- app_assoc, <- Ep.
  - unfold work_left. cbn [decompressed d_packed d_stream]. rewrite Eu, Ep, !length_app.
    destruct Hprog as [H|H]; [destruct used; [done|]|destruct out; [done|]]; cbn [length]; lia.
Qed.

(** Draining keeps the decoder's invariant and leaves at most a partial record. *)
Lemma drain_inv d lines recs p prev n : dec_inv d lines recs p prev n ->
  exists d' lines1 lines2 recs2, drain (S (length (d_pending d))) d = (Ok tt, d') /\ lines = lines1 ++ lines2 /\
    d_lines d' = d_lines d ++ lines1 /\ same_input d d' /\ dec_inv d' lines2 recs2 p prev n /\
    (d_pending d' = [] \/ exists rec rest, recs2 = rec :: rest /\ (length (d_pending d') < length rec)%nat).
Proof.
  intros [Hex Ho He]. destruct (drain_spec (S (length (d_pending d))) d lines recs p prev n ltac:(lia) Hex)
    as (d' & l1 & l2 & r2 & E & El & Elines & Hsame & Hex' & Hend).
  exists d', l1, l2, r2. split_and!; try done. destruct Hsame as (_ & _ & _ & Ez & Epk & Eex & Est).
  constructor; [done|by rewrite Ez, Epk, Est|by rewrite Eex, Est].
Qed.

(** What the loop leaves behind. *)
Definition ended (d0 d : decoder) (lines : list bytes) (n : Z) : Prop :=
  d_lines d = d_lines d0 ++ lines /\ d_pending d = [] /\ eof (d_z d) = true /\ d_rows d = n /\
  d_ny d = d_ny d0 /\ d_frames d = d_frames d0.

(** At the end of the input nothing is left. *)
Lemma end_of_input d lines recs p prev n : dec_inv d lines recs p prev n -> d_exhausted d = true -> d_packed d = [] ->
  (d_pending d = [] \/ exists rec rest, recs = rec :: rest /\ (length (d_pending d) < length rec)%nat) ->
  d_pending d = [] /\ lines = [] /\ d_rows d = n /\ eof (d_z d) = true.
Proof.
  intros [[Hc Hb Hp] Ho He] Hex Hpk Hend. rewrite Hpk, (He Hex) in Ho. apply owes_end in Ho as [-> Heof]. rewrite app_nil_r in Hp.
  destruct Hend as [H0|(rec & rest & -> & Hlt)]; [|rewrite Hp in Hlt; cbn [concat] in Hlt; rewrite length_app in Hlt; lia].
  rewrite H0 in Hp. inversion Hc as [|? ? ? rec ? ? ? recs' ? ? Hr _]; subst; [done|].
  apply record_nonempty in Hr. by destruct rec.
Qed.

Lemma decode_loop_spec fuel d lines recs p prev n : (work_left d p + 1 < fuel)%nat -> dec_inv d lines recs p prev n ->
  exists d', decode_loop fuel d = (Ok tt, d') /\ ended d d' lines n.
Proof.
  revert d lines recs p. induction fuel as [|fuel IH]; intros d lines recs p Hfuel Hinv; [lia|]. cbn [decode_loop].
  erewrite sbind_step by reflexivity. destruct (read_chunk_spec _ _ _ _ _ _ Hinv) as (Hinv1 & El1 & Ew1 & Hex1).
  assert (Ed1 : d_ny (read_chunk d) = d_ny d /\ d_frames (read_chunk d) = d_frames d) by (unfold read_chunk; by case_match).
  set (d1 := read_chunk d) in *.
  assert (Hinf : exists d2 p2, inflate d1 = (Ok tt, d2) /\ dec_inv d2 lines recs p2 prev n /\ d_lines d2 = d_lines d /\
            d_ny d2 = d_ny d /\ d_frames d2 = d_frames d /\
            ((d_packed d2 = [] /\ d_exhausted d2 = true) \/ (work_left d2 p2 < work_left d p)%nat)).
  { destruct (decide (d_packed d1 = [])) as [Epk|Hne].
    - exists d1, p. unfold inflate. rewrite (sbind_step _ _ d1 d1 d1) by done. rewrite Epk. split_and!; try done; try apply Ed1.
      left. auto.
    - destruct (inflate_spec _ _ _ _ _ _ Hinv1 Hne) as (d2 & p2 & E & Hinv2 & El2 & Hw).
      assert (Ed2 : d_ny d2 = d_ny d1 /\ d_frames d2 = d_frames d1).
      { unfold inflate in E. rewrite (sbind_step _ _ d1 d1 d1) in E by done. destruct (d_packed d1); [done|]. peel_ok E r Er.
        destruct r as [out z']. erewrite sbind_step in E by reflexivity. apply (f_equal snd) in E. cbn [snd] in E. by rewrite <- E. }
      exists d2, p2. destruct Ed1, Ed2. split_and!; try done; try congruence. right. lia. }
  destruct Hinf as (d2 & p2 & E2 & Hinv2 & El2 & Eny & Efr & Hcase).
  rewrite (sbind_step _ _ _ _ _ E2). rewrite (sbind_step _ _ d2 d2 d2) by done.
  destruct (drain_inv _ _ _ _ _ _ Hinv2) as (d3 & l1 & l2 & r2 & E3 & El & El3 & (_ & S2 & S3 & S4 & S5 & S6 & S7) & Hinv3 & Hend).
  rewrite (sbind_step _ _ _ _ _ E3). rewrite (sbind_step _ _ d3 d3 d3) by done.
  destruct (d_exhausted d3 && bool_decide (d_packed d3 = [])) eqn:Estop.
  - apply andb_prop in Estop as [Hx Hk%bool_decide_eq_true].
    destruct (end_of_input _ _ _ _ _ _ Hinv3 Hx Hk Hend) as (Hp0 & -> & Hrows & Heof). exists d3. split; [done|].
    split_and!; try done; try congruence. by rewrite El, app_nil_r, El3, El2.
  - destruct Hcase as [[Epk Eex]|Hw]; [rewrite S5, S6, Epk, Eex in Estop; by rewrite bool_decide_eq_true_2 in Estop|].
    destruct (IH d3 l2 r2 p2) as (d' & E' & (F1 & F2 & F3 & F4 & F5 & F6)); [unfold work_left in *; rewrite S5, S7; lia|done|].
    exists d'. split; [done|]. split_and!; try done; try congruence. by rewrite F1, El3, El2, El, app_assoc.
Qed.

Lemma decoded_lines_spec data x y f level r content : encoding data x y f level r content ->
  (forall line, line ∈ text_lines data -> Z.of_nat (length line) <= line_bound x) ->
  (exists fuel0, forall fuel, (fuel0 <= fuel)%nat -> decoded_lines fuel content = (text_lines data, Ok tt)).
Proof.
  intros [Hdim Hfr Htext _ (recs & prev & -> & Hc)] Hb.
  assert (Hxy : 0 <= x < 2 ^ 32 /\ 0 <= y < 2 ^ 32) by (unfold dimensions_ok in Hdim; nia).
  exists (length (compress_all (compressobj level) recs) + length (concat recs) + 2)%nat. intros fuel' Hfuel.
  set (payload := compress_all (compressobj level) recs) in *. unfold decoded_lines.
  rewrite take_app_length, drop_app_length.
  change (take 12 ((pack_u32 x ++ pack_u32 y ++ pack_u32 f) ++ payload)) with (pack_u32 x ++ pack_u32 y ++ pack_u32 f).
  change (take 4 (pack_u32 x ++ pack_u32 y ++ pack_u32 f)) with (pack_u32 x).
  change (take 4 (drop 4 (pack_u32 x ++ pack_u32 y ++ pack_u32 f))) with (pack_u32 y).
  change (drop 8 (pack_u32 x ++ pack_u32 y ++ pack_u32 f)) with (pack_u32 f).
  rewrite !unpack_pack_u32 by lia. rewrite !bool_decide_eq_true_2 by done. rewrite Hdim. cbn [ensure rbind].
  rewrite <- drop_drop, drop_app_length. change (drop 12 ((pack_u32 x ++ pack_u32 y ++ pack_u32 f) ++ payload)) with payload.
  match goal with |- context [decode_loop fuel' ?d0] => set (d := d0) end.
  destruct (decode_loop_spec fuel' d (text_lines data) recs (concat recs) prev (f * y)) as (d' & -> & (H1 & H2 & H3 & H4 & H5 & H6)).
  - unfold work_left, d. cbn [d_packed d_stream]. rewrite app_nil_l. lia.
  - constructor; [by constructor|apply owes_start|done].
  - cbn [rbind]. rewrite H1, H2, H3, H4, H5, H6. cbn [d d_ny d_frames d_lines]. rewrite bool_decide_eq_true_2 by done.
    rewrite (Z.mul_comm y f), Z.eqb_refl. done.
Qed.

(** ** Canonical rows *)

Lemma decimal_go_value fuel n acc : 0 <= n < 2 ^ Z.of_nat fuel -> (0 < fuel)%nat ->
  foldl (fun n b => 10 * n + (b - 48)) 0 (decimal_go fuel n acc) = foldl (fun n b => 10 * n + (b - 48)) n acc.
Proof.
  revert n acc. induction fuel as [|fuel IH]; intros n acc Hn Hf; [lia|]. cbn [decimal_go].
  destruct (Z.ltb_spec n 10) as [Hs|Hs].
  - cbn [foldl]. f_equal. rewrite Z.mod_small by lia. lia.
  - assert (Hp : 2 ^ Z.of_nat (S fuel) = 2 * 2 ^ Z.of_nat fuel) by (rewrite Nat2Z.inj_succ, Z.pow_succ_r by lia; done).
    rewrite IH.
    + cbn [foldl]. f_equal. pose proof (Z.div_mod n 10). lia.
    + split; [apply Z.div_pos; lia|]. apply Z.div_lt_upper_bound; lia.
    + destruct fuel; [cbn in Hp; lia|lia].
Qed.

Lemma decimal_go_digits fuel n acc : 0 <= n -> Forall (fun b => is_digit b = true) acc ->
  Forall (fun b => is_digit b = true) (decimal_go fuel n acc) /\ (length (decimal_go fuel n acc) <= fuel + length acc)%nat.
Proof.
  revert n acc. induction fuel as [|fuel IH]; intros n acc Hn Ha; cbn [decimal_go]; [split; [done|lia]|].
  assert (Hd : Forall (fun b => is_digit b = true) ((48 + n mod 10) :: acc)).
  { constructor; [|done]. unfold is_digit. pose proof (Z.mod_pos_bound n 10). lia. }
  destruct (n <? 10); [split; [done|cbn [length]; lia]|].
  destruct (IH (n / 10) ((48 + n mod 10) :: acc)) as [H1 H2]; [by apply Z.div_pos|done|]. cbn [length] in H2. split; [done|lia].
Qed.

Lemma decimal_spec n : 0 <= n < 2 ^ 32 -> int_of (decimal n) = n /\ Forall (fun b => is_digit b = true) (decimal n) /\
  decimal n <> [] /\ (length (decimal n) <= 33)%nat.
Proof.
  intros Hn. unfold decimal, int_of. destruct (decimal_go_digits (S (Z.to_nat (Z.log2 n))) n [] ltac:(lia) ltac:(constructor)) as [Hd Hl].
  pose proof (Z.log2_nonneg n). assert (Hlog : Z.log2 n < 32).
  { destruct (Z.eq_dec n 0) as [->|]; [done|]. apply Z.log2_lt_pow2; lia. }
  split_and!; [|done| |cbn [length] in Hl; lia].
  - rewrite decimal_go_value; [done| |lia]. split; [lia|]. rewrite Nat2Z.inj_succ, Z2Nat.id by lia.
    destruct (Z.eq_dec n 0) as [->|]; [done|]. apply Z.log2_lt_pow2; lia.
  - cbn [decimal_go]. destruct (n <? 10); [done|].
    assert (Hne : forall fuel m acc, acc <> [] -> decimal_go fuel m acc <> []).
    { induction fuel as [|fuel IH]; intros m acc Ha; cbn [decimal_go]; [done|]. destruct (m <? 10); [done|]. by apply IH. }
    by apply Hne.
Qed.

(** The text of a value, without its padding. *)
Definition value_text (value : Z) : bytes :=
  let v := Z.abs value in
  (if value <? 0 then [45] else []) ++ decimal (v / 1000) ++ [46; 48 + v mod 1000 / 100; 48 + v mod 100 / 10; 48 + v mod 10].

Lemma native_value_text value : native_value value = replicate (7 - length (value_text value)) 32 ++ value_text value ++ [32; 32].
Proof. done. Qed.

Lemma digits_of_app l b rest : Forall (fun b => is_digit b = true) l -> is_digit b = false -> digits_of (l ++ b :: rest) = l.
Proof. intros Hl Hb. induction Hl as [|x l Hx Hl IH]; cbn [app digits_of]; [by rewrite Hb|]. by rewrite Hx, IH. Qed.

Section value.
Context (value : Z) (Hv : int32 value = true).

Lemma value_digits : let v := Z.abs value in 0 <= v / 1000 < 2 ^ 32 /\ 0 <= v mod 1000 / 100 < 10 /\ 0 <= v mod 100 / 10 < 10 /\
  0 <= v mod 10 < 10 /\ v = 1000 * (v / 1000) + 100 * (v mod 1000 / 100) + 10 * (v mod 100 / 10) + v mod 10.
Proof using Hv.
  unfold int32 in Hv. intros v. assert (0 <= v <= 2 ^ 31) by lia. clearbody v. clear Hv.
  pose proof (Z.div_mod v 1000). pose proof (Z.mod_pos_bound v 1000). pose proof (Z.div_mod (v mod 1000) 100).
  pose proof (Z.mod_pos_bound (v mod 1000) 100). pose proof (Z.div_mod (v mod 100) 10). pose proof (Z.mod_pos_bound (v mod 100) 10).
  assert ((v mod 1000) mod 100 = v mod 100) by (apply Z.mod_mod_divide; by exists 10).
  assert ((v mod 100) mod 10 = v mod 10) by (apply Z.mod_mod_divide; by exists 10).
  assert (0 <= v / 1000) by (apply Z.div_pos; lia). assert (0 <= v mod 1000 / 100) by (apply Z.div_pos; lia).
  assert (0 <= v mod 100 / 10) by (apply Z.div_pos; lia). lia.
Qed.

Lemma value_text_parts : token_parts (value_text value) =
  Some (value <? 0, decimal (Z.abs value / 1000),
        [48 + Z.abs value mod 1000 / 100; 48 + Z.abs value mod 100 / 10; 48 + Z.abs value mod 10]).
Proof using Hv.
  destruct value_digits as (Hw & Ha & Hb & Hc & _). destruct (decimal_spec _ Hw) as (_ & Hd & Hne & _).
  unfold token_parts, value_text. set (w := decimal _) in *. set (tl := [46; _; _; _]).
  assert (E : sign_of ((if value <? 0 then [45] else []) ++ w ++ tl) = (value <? 0, w ++ tl)).
  { destruct (value <? 0); [done|]. cbn [app]. destruct w as [|b w']; [done|]. apply Forall_cons in Hd as [Hb' _]. cbn [app sign_of].
    unfold is_digit in Hb'. by rewrite (proj2 (Z.eqb_neq b 45)) by lia. }
  rewrite E. unfold tl. rewrite (digits_of_app w 46) by done. rewrite drop_app_length.
  destruct w as [|b w'] eqn:Ew; [done|]. unfold is_digit.
  rewrite !(proj2 (Z.leb_le _ _)) by lia. done.
Qed.
End value.

Lemma value_text_value value : int32 value = true -> exists parts, token_parts (value_text value) = Some parts /\ token_value parts = Ok value.
Proof.
  intros Hv. eexists. split; [by apply value_text_parts|]. destruct (value_digits value Hv) as (Hw & Ha & Hb & Hc & E).
  destruct (decimal_spec _ Hw) as (Hi & _ & _ & Hl). unfold token_value. rewrite bool_decide_eq_true_2 by lia. cbn [ensure rbind].
  rewrite Hi. replace (int_of [_; _; _]) with (Z.abs value - 1000 * (Z.abs value / 1000)) by (cbn [int_of foldl]; lia).
  assert (Ev : (Z.abs value / 1000 * 1000 + (Z.abs value - 1000 * (Z.abs value / 1000))) * (if value <? 0 then -1 else 1) = value).
  { destruct (Z.ltb_spec value 0); lia. }
  rewrite Ev, Hv. done.
Qed.

(** The text of a value is one word. *)
Lemma value_text_word value : int32 value = true -> value_text value <> [] /\ Forall (fun b => is_space b = false) (value_text value) /\
  exists b l, value_text value = b :: l /\ b <> 37.
Proof.
  intros Hv. destruct (value_digits value Hv) as (Hw & Ha & Hb & Hc & _). destruct (decimal_spec _ Hw) as (_ & Hd & Hne & _).
  unfold value_text. set (w := decimal _) in *. split_and!.
  - destruct (value <? 0); [done|]. by destruct w.
  - rewrite !Forall_app. split_and!.
    + destruct (value <? 0); by repeat constructor.
    + eapply Forall_impl; [exact Hd|]. cbn. intros b Hb'. unfold is_digit, is_space in *. lia.
    + repeat constructor; unfold is_space; lia.
  - destruct (value <? 0); [by eexists _, _|]. destruct w as [|b w']; [done|]. exists b. eexists. split; [done|].
    apply Forall_cons in Hd as [Hb' _]. unfold is_digit in Hb'. lia.
Qed.

Lemma split_word text rest word : Forall (fun b => is_space b = false) text -> split_words (text ++ rest) word = split_words rest (word ++ text).
Proof.
  intros H. revert word. induction H as [|b text Hb Ht IH]; intros word; cbn [app split_words]; [by rewrite app_nil_r|].
  rewrite Hb, IH. by rewrite <- app_assoc.
Qed.

Lemma split_spaces sp rest : Forall (fun b => is_space b = true) sp -> split_words (sp ++ rest) [] = split_words rest [].
Proof. induction 1 as [|b sp Hb Hs IH]; cbn [app split_words]; [done|]. by rewrite Hb. Qed.

Lemma split_native value rest : int32 value = true -> split_words (native_value value ++ rest) [] = value_text value :: split_words rest [].
Proof.
  intros Hv. destruct (value_text_word value Hv) as (Hne & Hs & _). rewrite native_value_text, <- !app_assoc.
  rewrite split_spaces by (apply Forall_replicate; done). rewrite split_word by done. cbn [app split_words].
  destruct (value_text value); [done|]. done.
Qed.

Lemma split_row values : forallb int32 values = true -> split_words (native_row values) [] = value_text <$> values.
Proof.
  unfold native_row. induction values as [|v values IH]; [done|]. cbn [forallb]. intros [Hv Hvs]%andb_prop. csimpl.
  rewrite <- app_assoc, split_native by done. by rewrite IH.
Qed.

Lemma lstrip_spec l : exists sp, l = sp ++ lstrip l /\ Forall (fun b => is_space b = true) sp /\
  match lstrip l with [] => True | b :: _ => is_space b = false end.
Proof.
  induction l as [|b l (sp & E & Hs & Hh)]; cbn [lstrip]; [by exists []|]. destruct (is_space b) eqn:Eb.
  - exists (b :: sp). split_and!; [by rewrite E at 1|by constructor|done].
  - exists []. by rewrite Eb.
Qed.

(** [strip] removes spaces on both sides. *)
Lemma strip_spec l : exists sp1 sp2, l = sp1 ++ strip l ++ sp2 /\ Forall (fun b => is_space b = true) sp1 /\
  Forall (fun b => is_space b = true) sp2.
Proof.
  destruct (lstrip_spec l) as (sp & E & Hs & _). destruct (lstrip_spec (reverse (lstrip l))) as (sp' & E' & Hs' & _).
  exists sp, (reverse sp'). split_and!; [|done|by apply Forall_reverse]. unfold strip. rewrite <- reverse_app, <- E', reverse_involutive. done.
Qed.

Lemma split_strip l : split_words (strip l) [] = split_words l [].
Proof.
  destruct (strip_spec l) as (sp1 & sp2 & E & H1 & H2). rewrite E at 2. rewrite split_spaces by done. clear E H1.
  generalize (strip l), ([] : bytes). intros t. induction t as [|b t IH]; intros word; cbn [app split_words].
  - destruct H2 as [|b sp2 Hb Hs]; [done|]. cbn [split_words]. rewrite Hb.
    assert (E : split_words sp2 [] = []) by (rewrite <- (app_nil_r sp2), split_spaces by done; done). by rewrite E.
  - destruct (is_space b); [by rewrite IH|apply IH].
Qed.

(** The first character that is not a space decides whether a line is literal. *)
Lemma is_literal_head sp b l : Forall (fun b => is_space b = true) sp -> is_space b = false -> is_literal (sp ++ b :: l) = (b =? 37).
Proof.
  intros Hs Hb. assert (E : lstrip (sp ++ b :: l) = b :: l).
  { induction Hs as [|x sp Hx Hs IH]; cbn [app lstrip]; [by rewrite Hb|]. by rewrite Hx. }
  unfold is_literal, strip. rewrite E, reverse_cons.
  assert (Hr : exists t, lstrip (reverse l ++ [b]) = t ++ [b]).
  { induction (reverse l) as [|x t IH]; cbn [app lstrip]; [rewrite Hb; by exists []|]. destruct (is_space x); [done|]. by exists (x :: t). }
  destruct Hr as [t ->]. by rewrite reverse_app.
Qed.

Lemma row_values_canonical values : forallb int32 values = true ->
  row_values (Z.of_nat (length values)) (native_row values) = Ok values /\ (values <> [] -> is_literal (native_row values) = false).
Proof.
  intros Hv. split.
  - unfold row_values. rewrite split_strip, split_row, length_fmap by done. rewrite Z.eqb_refl. cbn [ensure rbind].
    assert (Hp : exists parts, mapR (fun t => of_option (ValueError "not a finite three-decimal canonical numeric row") (token_parts t))
                   (value_text <$> values) = Ok parts /\ mapR token_value parts = Ok values).
    { induction values as [|v values IH]; [by exists []|]. cbn [forallb] in Hv. apply andb_prop in Hv as [H1 H2].
      destruct (IH H2) as (parts & E1 & E2), (value_text_value v H1) as (p & Ep & Ev). exists (p :: parts). csimpl.
      rewrite Ep. cbn [of_option rbind]. rewrite E1. cbn [rbind mapR]. by rewrite Ev, E2. }
    destruct Hp as (parts & -> & E). cbn [rbind]. rewrite E. cbn [rbind]. by rewrite bool_decide_eq_true_2.
  - intros Hne. destruct values as [|v values]; [done|]. cbn [forallb] in Hv. apply andb_prop in Hv as [H1 _].
    destruct (value_text_word v H1) as (_ & Hs & b & l & Et & Hb). unfold native_row. csimpl. rewrite native_value_text, <- !app_assoc, Et.
    cbn [app]. rewrite is_literal_head; [by apply Z.eqb_neq|by apply Forall_replicate|]. rewrite Et in Hs. by apply Forall_cons in Hs as [? _].
Qed.

Lemma concat_chunks fuel source : (length source <= fuel)%nat -> concat (chunks fuel source) = source.
Proof.
  revert source. induction fuel as [|fuel IH]; intros source Hl; destruct source as [|b source]; try done; [cbn [length] in Hl; lia|].
  cbn [chunks concat]. rewrite IH; [by rewrite take_drop|]. rewrite length_drop. cbn [length] in *.
  assert (0 < Z.to_nat CHUNK)%nat by (unfold CHUNK; lia). lia.
Qed.

(** The offset of a row lies inside the frame. *)
Lemma row_offset_bound n y x : 0 <= n -> 0 < y -> 0 < x -> (row_offset n y x + Z.to_nat x <= Z.to_nat (x * y))%nat.
Proof. intros Hn Hy Hx. unfold row_offset. pose proof (Z.mod_pos_bound n y Hy). nia. Qed.

Lemma row_deltas_total prev offset values : (offset + length values <= length prev)%nat ->
  (forall i v p, values !! i = Some v -> prev !! (offset + i)%nat = Some p -> int32 (v - p) = true) ->
  exists deltas, row_deltas prev offset values = Ok deltas /\ forallb int32 deltas = true.
Proof.
  intros Hl Hd. unfold row_deltas.
  destruct (mapR_total (fun '(i, v) => let? p := lget prev (offset + i) in Ok (v - p)) (imap pair values)) as [deltas E].
  { intros [i v] Hin. apply list_elem_of_lookup in Hin as [k Hk]. rewrite list_lookup_imap in Hk.
    destruct (values !! k) as [v'|] eqn:Ev; [|done]. injection Hk as -> ->. apply lookup_lt_Some in Ev.
    destruct (lookup_lt_is_Some_2 prev (offset + i)) as [p Hp]; [lia|]. exists (v - p). by rewrite (lget_Ok _ _ _ Hp). }
  exists deltas. split; [done|]. apply forallb_forall. intros d Hin%list_elem_of_In. destruct (mapR_elem _ _ _ _ E Hin) as ([i v] & Hx & Ed).
  inv_ok. apply list_elem_of_lookup in Hx as [k Hk]. rewrite list_lookup_imap in Hk. destruct (values !! k) eqn:Ev; [|done].
  injection Hk as -> ->. unfold lget in *. destruct (prev !! (offset + i)%nat) eqn:Ep; [|done]. cbn [of_option] in *. inv_ok. by eapply Hd.
Qed.
End codec.

(** ** An instance of the library interface *)

(** A toy format: every byte is preceded by 1, the stream ends with 0. *)
Record toy := { toy_half : bool; toy_end : bool; toy_tail : bytes; toy_unused : bytes }.

Fixpoint toy_go (x : bytes) (n : nat) (half : bool) : bytes * toy :=
  match x with
  | [] => ([], {| toy_half := half; toy_end := false; toy_tail := []; toy_unused := [] |})
  | b :: x' =>
      if half then
        match n with
        | O => ([], {| toy_half := true; toy_end := false; toy_tail := x; toy_unused := [] |})
        | S n' => let '(out, d) := toy_go x' n' false in (b :: out, d)
        end
      else if b =? 1 then toy_go x' n true
      else ([], {| toy_half := false; toy_end := true; toy_tail := []; toy_unused := x' |})
  end.

Definition toy_enc (x : bytes) : bytes := concat ((fun b => [1; b]) <$> x).

#[export] Instance toy_zlib : Zlib := {|
  cstate := unit; compressobj := fun _ => tt; compress := fun _ x => (toy_enc x, tt); flush := fun _ => [0];
  dstate := toy; decompressobj := {| toy_half := false; toy_end := false; toy_tail := []; toy_unused := [] |};
  decompress := fun d x n => Ok (toy_go x (Z.to_nat n) (toy_half d));
  unconsumed_tail := toy_tail; unused_data := toy_unused; eof := toy_end |}.

(** The bytes that encode the output [p], in the middle of a pair or not. *)
Definition toy_todo (half : bool) (p : bytes) : bytes :=
  if half then drop 1 (toy_enc p ++ [0]) else toy_enc p ++ [0].

Definition toy_owes (d : toy) (todo p : bytes) : Prop :=
  if toy_end d then todo = [] /\ p = [] else todo = toy_todo (toy_half d) p /\ (toy_half d = true -> p <> []).

Lemma toy_go_spec x rest n half p : x ++ rest = toy_todo half p -> (half = true -> p <> []) ->
  let '(out, d) := toy_go x n half in exists p' used, p = out ++ p' /\ toy_unused d = [] /\ x = used ++ toy_tail d /\
    toy_owes d (toy_tail d ++ rest) p' /\ (x <> [] -> (0 < n)%nat -> used <> []).
Proof.
  revert n half p. induction x as [|b x IH]; intros n half p E Hp; cbn [toy_go].
  { exists p, []. by split_and!. }
  destruct half.
  - destruct p as [|c p]; [by destruct Hp|]. injection E as -> E. destruct n as [|n].
    + exists (c :: p), []. cbn [toy_unused toy_tail toy_owes toy_end toy_half]. split_and!; try done; [|lia].
      change (c :: (x ++ rest) = c :: (toy_enc p ++ [0])). f_equal. exact E.
    + specialize (IH n false p E ltac:(done)). destruct (toy_go x n false) as [out d]. destruct IH as (p' & used & -> & Hu & Ex & Ho & _).
      exists p', (c :: used). split_and!; try done. by rewrite Ex at 1.
  - destruct p as [|c p].
    + injection E as -> E. apply app_eq_nil in E as [-> ->]. cbn. exists [], [0]. by split_and!.
    + injection E as -> E. cbn [Z.eqb Pos.eqb]. specialize (IH n true (c :: p) E ltac:(done)). destruct (toy_go x n true) as [out d].
      destruct IH as (p' & used & -> & Hu & Ex & Ho & _). exists p', (1 :: used). split_and!; try done. by rewrite Ex at 1.
Qed.

#[export] Instance toy_laws : ZlibLaws.
Proof.
  refine {| owes := toy_owes |}.
  - intros level pieces. split; [|done]. induction pieces as [|x pieces IH]; [done|].
    change (toy_enc x ++ compress_all (compressobj level) pieces = toy_enc (x ++ concat pieces) ++ [0]).
    etransitivity; [apply (f_equal (app (toy_enc x))), IH|]. 
    assert (Happ : toy_enc (x ++ concat pieces) = toy_enc x ++ toy_enc (concat pieces)) by (unfold toy_enc; by rewrite fmap_app, concat_app).
    rewrite Happ, <- app_assoc. done.
  - intros d x rest p n Ho Hx Hn. unfold toy_owes in Ho. destruct (toy_end d) eqn:Ee.
    { destruct Ho as [Ho _]. apply app_eq_nil in Ho as [-> _]. done. }
    destruct Ho as [Ho Hp]. pose proof (toy_go_spec x rest (Z.to_nat n) (toy_half d) p Ho Hp) as H.
    cbn [decompress toy_zlib]. destruct (toy_go x (Z.to_nat n) (toy_half d)) as [out d']. destruct H as (p' & used & H1 & H2 & H3 & H4 & H5).
    exists out, d', p', used. split_and!; try done. left. apply H5; [done|lia].
  - intros d p. unfold toy_owes. cbn [eof toy_zlib]. destruct (toy_end d); [by intros [_ ->]|]. intros [E Hp].
    unfold toy_todo in E. destruct (toy_half d); [|by destruct (toy_enc p)]. destruct p as [|c p]; [by destruct Hp|done].
Qed.

(** ** Claims *)

(** A header, a frame, a blank line and a second frame, in two pieces. *)
Definition demo_text : bytes :=
  code "% t = 0" ++ [NEWLINE] ++ native_row [300000; -1500] ++ [NEWLINE] ++ native_row [300250; -1499].
Definition demo_pieces : list bytes := [take 20 demo_text; drop 20 demo_text].
Definition demo_sha (l : bytes) : string := pretty (int_of l).

Lemma demo_encodes : exists r content, encode demo_sha false demo_pieces 2 1 2 6 = Ok (r, content) /\ concat demo_pieces = demo_text.
Proof.
  destruct (encode demo_sha false demo_pieces 2 1 2 6) as [[r content]|e] eqn:E; [|vm_compute in E; discriminate E].
  exists r, content. by split; [|vm_compute].
Qed.

Lemma demo_bounded : forall line, line ∈ text_lines (concat demo_pieces) -> Z.of_nat (length line) <= line_bound 2.
Proof.
  assert (H : forallb (fun line => Z.of_nat (length line) <=? line_bound 2) (text_lines (concat demo_pieces)) = true) by (vm_compute; reflexivity).
  intros line Hin%list_elem_of_In. rewrite forallb_forall in H. specialize (H line Hin). lia.
Qed.

(** C26: decoding what the encoder wrote gives back the text, byte for byte,
    however it was cut into pieces: for every finished encoding whose lines are
    within the decoder's line bound, with enough iterations the decoder yields
    exactly the lines of the text and ends without an error. *)
Theorem codec_round_trip {Z0 : Zlib} {L : ZlibLaws} (sha256 : bytes -> string) pieces nx ny frames level r content :
  encode sha256 false pieces nx ny frames level = Ok (r, content) ->
  (forall line, line ∈ text_lines (concat pieces) -> Z.of_nat (length line) <= line_bound nx) ->
  exists lines fuel0, concat lines = concat pieces /\
    forall fuel, (fuel0 <= fuel)%nat -> decoded_lines fuel content = (lines, Ok tt).
Proof.
  intros He Hb. apply encode_spec in He. destruct (decoded_lines_spec _ _ _ _ _ _ _ _ He Hb) as [fuel0 Hf].
  exists (text_lines (concat pieces)), fuel0. split; [apply (en_text _ _ _ _ _ _ _ _ He)|done].
Qed.

Lemma codec_round_trip_witness : exists r content, encode demo_sha false demo_pieces 2 1 2 6 = Ok (r, content) /\
  exists lines fuel0, concat lines = demo_text /\ forall fuel, (fuel0 <= fuel)%nat -> decoded_lines fuel content = (lines, Ok tt).
Proof.
  destruct demo_encodes as (r & content & E & Et). exists r, content. split; [exact E|]. rewrite <- Et.
  exact (codec_round_trip demo_sha demo_pieces 2 1 2 6 r content E demo_bounded).
Defined.

(** [replay] of a text that the encoder accepts, with lines within the bound,
    returns the encoder's receipt: the verification of digest and length never
    fails, and they are the digest and the length of the text. *)
Theorem codec_replay_verified {Z0 : Zlib} {L : ZlibLaws} (sha256 : bytes -> string) source nx ny frames level r content :
  encode sha256 false (chunks (length source) source) nx ny frames level = Ok (r, content) ->
  (forall line, line ∈ text_lines source -> Z.of_nat (length line) <= line_bound nx) ->
  native_sha256 r = sha256 source /\ native_bytes r = Z.of_nat (length source) /\
  exists fuel0, forall fuel, (fuel0 <= fuel)%nat -> replay sha256 fuel false source nx ny frames level = Ok r.
Proof.
  intros E Hb. apply encode_spec in E as He. rewrite concat_chunks in He by done.
  destruct (en_receipt _ _ _ _ _ _ _ _ He) as [Hd Hn]. split_and!; [done|done|].
  destruct (decoded_lines_spec _ _ _ _ _ _ _ _ He Hb) as [fuel0 Hf]. exists fuel0. intros fuel Hfuel. unfold replay.
  rewrite E. cbn [rbind]. rewrite (Hf fuel Hfuel). cbn [rbind]. rewrite (en_text _ _ _ _ _ _ _ _ He), Hd, Hn.
  by rewrite bool_decide_eq_true_2, Z.eqb_refl.
Qed.

Lemma codec_replay_verified_witness : exists r, encode demo_sha false (chunks (length demo_text) demo_text) 2 1 2 6 = Ok r /\
  exists fuel0, forall fuel, (fuel0 <= fuel)%nat -> replay demo_sha fuel false demo_text 2 1 2 6 = Ok r.1.
Proof.
  destruct (encode demo_sha false (chunks (length demo_text) demo_text) 2 1 2 6) as [[r content]|e] eqn:E; [|vm_compute in E; discriminate E].
  exists (r, content). split; [reflexivity|]. apply (codec_replay_verified demo_sha demo_text 2 1 2 6 r content E).
  destruct demo_encodes as (_ & _ & _ & Et). rewrite <- Et. exact demo_bounded.
Defined.

(** The encoder accepts every canonical row: a row of [nx] int32 values as
    [native_value] prints them, whose deltas against the previous frame fit in 32
    bits, is parsed back to exactly these values and stored as the next row. *)
Theorem codec_accepts_canonical {Z0 : Zlib} (e : encoder) (values : list Z) : 0 < nx e -> 0 < ny e ->
  0 <= rows e < frames e * ny e -> length (previous e) = Z.to_nat (nx e * ny e) -> Z.of_nat (length values) = nx e ->
  forallb int32 values = true ->
  (forall i v p, values !! i = Some v -> previous e !! (row_offset (rows e) (ny e) (nx e) + i)%nat = Some p -> int32 (v - p) = true) ->
  exists e', feed_line (native_row values) e = (Ok tt, e') /\ rows e' = rows e + 1 /\
    previous e' = list_inserts (row_offset (rows e) (ny e) (nx e)) values (previous e).
Proof.
  intros Hx Hy Hr Hp Hl Hv Hd. destruct (row_values_canonical values Hv) as [Hrv Hlit].
  unfold feed_line. rewrite (sbind_step _ _ e e e) by done. rewrite Hlit by (intros ->; cbn in Hl; lia). rewrite <- Hl, Hrv.
  rewrite (sbind_step _ _ e values e) by done. rewrite (sbind_step _ _ _ _ _ (require_Ok _ _ e (proj2 (Z.ltb_lt _ _) (proj2 Hr)))).
  rewrite Hl. destruct (row_deltas_total (previous e) (row_offset (rows e) (ny e) (nx e)) values) as (deltas & Ed & Hdd); [|done|].
  { pose proof (row_offset_bound (rows e) (ny e) (nx e)). lia. }
  cbv zeta. rewrite (sbind_step _ _ _ _ _ (lift_Ok _ _ e Ed)), (sbind_step _ _ _ _ _ (require_Ok _ _ e Hdd)).
  erewrite sbind_step by reflexivity. destruct (write_record_spec (68 :: concat (pack_i32 <$> deltas)) e) as (_ & _ & _ & _ & _ & _ & E7 & E8 & _).
  eexists. split; [reflexivity|]. cbn [set_row rows previous]. by rewrite E7, E8.
Qed.

Definition demo_encoder : encoder :=
  {| nx := 2; ny := 1; frames := 2; z := tt; file := []; previous := [0; 0]; pending := []; rows := 0; byte_count := 0; digest := [] |}.

Lemma codec_accepts_canonical_witness : exists e', feed_line (native_row [-2147483648; 7]) demo_encoder = (Ok tt, e') /\
  previous e' = [-2147483648; 7].
Proof.
  destruct (codec_accepts_canonical demo_encoder [-2147483648; 7] eq_refl eq_refl ltac:(done) eq_refl eq_refl eq_refl) as (e' & E & _ & Hp).
  - intros [|[|i]] v p Hv Hp; [| |discriminate Hv]; vm_compute in Hv, Hp; injection Hv as <-; injection Hp as <-; reflexivity.
  - exists e'. split; [exact E|exact Hp].
Defined.

(** C36: the encoder bounds only unfinished lines: it accepts a complete comment or
    blank line longer than the bound, whose record the decoder then refuses. *)
Theorem codec_long_literal {Z0 : Zlib} (e : encoder) body rest ny frames prev n : pending e = [] ->
  Forall (fun b => b <> NEWLINE) body -> is_literal (body ++ [NEWLINE]) = true ->
  line_bound (nx e) < Z.of_nat (length (body ++ [NEWLINE])) < 2 ^ 32 ->
  let line := body ++ [NEWLINE] in
  let record := 76 :: pack_u32 (Z.of_nat (length line)) ++ line in
  feed line e = (Ok tt, write_record record (set_pending [] (count_data line e))) /\
  decode_record (nx e) ny frames prev n (record ++ rest) = Raise (ValueError "literal exceeds bounded line").
Proof.
  intros Hp Hb Hlit Hl line record. split.
  - unfold feed. erewrite sbind_step by reflexivity. rewrite (sbind_step _ _ (count_data line e) (count_data line e) (count_data line e)) by done.
    cbn [pending count_data]. rewrite Hp, app_nil_l. unfold line at 1. rewrite split_lines_app, split_lines_none by done.
    cbn [app split_lines Z.eqb NEWLINE Pos.eqb]. erewrite sbind_step by reflexivity. cbn [length].
    rewrite (sbind_step _ _ _ _ _ (require_Ok _ _ _ (proj2 (Z.leb_le (Z.of_nat 0) (line_bound (nx (count_data line e)))) ltac:(unfold line_bound, CHUNK; lia)))).
    cbn [forM]. fold line. unfold feed_line. rewrite sbind_assoc. rewrite (sbind_step _ _ (set_pending [] (count_data line e)) (set_pending [] (count_data line e)) (set_pending [] (count_data line e))) by done.
    unfold line at 1. rewrite Hlit. rewrite sbind_assoc.
    rewrite (sbind_step _ _ _ (pack_u32 (Z.of_nat (length line))) (set_pending [] (count_data line e))); [done|].
    apply lift_Ok. unfold UINT_pack. fold line in Hl. by rewrite (proj2 (Z.leb_le _ _)), (proj2 (Z.ltb_lt _ _)) by lia.
  - unfold record. cbn [app decode_record]. fold line in Hl.
    assert (El : length (76 :: (pack_u32 (Z.of_nat (length line)) ++ line) ++ rest) = (5 + length line + length rest)%nat)
      by (cbn; rewrite length_app; lia). rewrite El.
    destruct (Nat.ltb_spec (5 + length line + length rest) 5); [lia|].
    replace (take 4 ((pack_u32 (Z.of_nat (length line)) ++ line) ++ rest)) with (pack_u32 (Z.of_nat (length line))) by done.
    rewrite unpack_pack_u32 by lia. by rewrite (proj2 (Z.leb_gt _ _)) by lia.
Qed.

Lemma codec_long_literal_witness : let line := (37 :: replicate (Z.to_nat CHUNK) 32) ++ [NEWLINE] in
  exists e', feed line demo_encoder = (Ok tt, e') /\
    decode_record 2 1 2 [0; 0] 0 (76 :: pack_u32 (Z.of_nat (length line)) ++ line) = Raise (ValueError "literal exceeds bounded line").
Proof.
  assert (Hl : Z.of_nat (length ((37 :: replicate (Z.to_nat CHUNK) 32) ++ [NEWLINE])) = 65538).
  { rewrite length_app. cbn [length]. rewrite length_replicate. unfold CHUNK. lia. }
  assert (Hb : Forall (fun b => b <> NEWLINE) (37 :: replicate (Z.to_nat CHUNK) 32)).
  { constructor; [discriminate|]. apply Forall_replicate. discriminate. }
  destruct (codec_long_literal demo_encoder (37 :: replicate (Z.to_nat CHUNK) 32) [] 1 2 [0; 0] 0 eq_refl Hb) as [H1 H2].
  - apply (is_literal_head [] 37); [constructor|reflexivity].
  - rewrite Hl. split; reflexivity.
  - eexists. split; [exact H1|]. rewrite app_nil_r in H2. exact H2.
Defined.
End FieldCodec.
