(* ===== verification/PrefetchReplay.v ===== *)
(** * PrefetchReplay: the causal layer-synchronous prefetch replay

    Models [scripts/eval/prefetch_replay.py]: the validation of a composed
    trace and the replay that reserves whole experts in an LRU cache, submits
    reads to one shared service, waits for the demanded experts of every layer
    and, under [one_layer_ahead], predicts the experts of the next layer from
    the routes already observed.

    The service is not part of the file: it is any object with a clock, a
    [submit] and an [until] method (class [Service]).  What the replay relies
    on is a contract that the theorems take as a hypothesis: [ForwardService]
    (submitting never moves the clock back) for soundness, [LiveService] (every
    submitted read completes, within the clock range) for totality.

    The local variables that [replay] shares with its nested functions are the
    fields of the state [st].  Integers are typed, so the [type(x) is int]
    guards of the source are the types of the fields; a JSON [null] where an
    integer is expected is [None].  The constant labels of the report
    ([schema_version], [model], [scope], ...) are left out. *)

From S2P Require Import Prelude.
From S2P Require Import ProgramLogic.
Import ProgramLogic.

Module PrefetchReplay.

Definition POLICIES : list string := ["none"; "on_demand"; "one_layer_ahead"].
Definition MAX_TIME : Z := Z.shiftl 1 63 - 1.

(** A key is a pair of layer and expert. *)
Notation key := (Z * Z)%type (only parsing).
Definition kle : key -> key -> bool := lex zle zle.

Record object := { o_bytes : Z; transfer_bytes : Z; o_address : Z }.

(** A field that may be absent ([None]) or hold [null] ([Some None]). *)
Notation field := (option (option Z)) (only parsing).
Record node := { n_step : Z; n_layer : Z; compute_ns : field; route_gap_ns : field;
                 members : dict string (list Z) }.

(** ** The service *)

Record submission := { s_request_id : Z; s_issue_ns : Z; s_address : Z; s_bytes : Z }.
Record completion := { c_request_id : Z; reported_complete : Z }.

Class Service (S : Type) := {
  clock : S -> Z;
  submit : submission -> M S unit;
  until : Z -> M S (option completion) }.

(** ** Validation *)

Definition nonnegative (value : option Z) (name : string) : result Z :=
  match value with
  | Some v => if v <? 0 then Raise (ValueError (name +:+ " must be a nonnegative integer")) else Ok v
  | None => Raise (ValueError (name +:+ " must be a nonnegative integer"))
  end.

Definition object_ok (k : key) (o : object) : bool :=
  (0 <=? k.1) && (0 <=? k.2) && (0 <? o_bytes o) && (o_bytes o <=? transfer_bytes o)
  && (transfer_bytes o mod 512 =? 0) && (transfer_bytes o <=? 4294967295)
  && (0 <=? o_address o) && (o_address o mod 512 =? 0).

(** The experts a node demands, [{(layer, e) for ids in members.values() for e in ids}], in
    sorted order. *)
Definition demand_of (n : node) : list key :=
  isort kle (remove_dups ((fun e => (n_layer n, e)) <$> concat (dvals (members n)))).

Definition transfer (objects : dict key object) (k : key) : result Z :=
  let? o := dindex objects k in Ok (transfer_bytes o).
(** [sum(objects[k]['transfer_bytes'] for k in keys)]. *)
Definition transfers (objects : dict key object) (keys : list key) : result Z :=
  let? sizes := mapR (transfer objects) keys in Ok (zsum sizes).

Definition check_interval (route_horizon last : bool) (n : node) : result unit :=
  if route_horizon then
    match compute_ns n, route_gap_ns n with
    | None, Some gap =>
        if last then ensure (bool_decide (gap = None)) (ValueError "terminal route gap must remain missing")
        else
          let? g := nonnegative gap "route gap" in
          ensure (g <=? MAX_TIME) (ValueError "route gap exceeds clock range")
    | _, _ => Raise (ValueError "route horizon requires separate gap semantics")
    end
  else
    let? v := of_option (KeyError "compute_ns") (compute_ns n) in
    let? c := nonnegative v "compute interval" in
    ensure (c <=? MAX_TIME) (ValueError "compute interval exceeds clock range").

(** The active members: a step may drop members and never adds one. *)
Definition check_members (prior_members : option (list string)) (n : node) : result (option (list string)) :=
  let names := dkeys (members n) in
  let? _ := ensure (negb (bool_decide (names = [])) && forallb (fun m => negb (bool_decide (m = ""))) names)
              (ValueError "invalid active sequence identities") in
  if n_layer n =? 0 then
    let? _ := ensure (match prior_members with
                      | Some prior => bool_decide (Forall (fun m => m ∈ prior) names)
                      | None => true
                      end) (ValueError "TRACE_COMPOSED cannot introduce new active members") in
    Ok (Some names)
  else
    let? _ := ensure (match prior_members with Some prior => same_set names prior | None => false end)
                (ValueError "active members differ within one composed step") in
    Ok prior_members.

Definition check_route (objects : dict key object) (layer : Z) (ids : list Z) : result unit :=
  let? _ := ensure (negb (bool_decide (ids = [])) && bool_decide (NoDup ids)) (ValueError "invalid top-k route") in
  ensure (forallb (fun e => dmem objects (layer, e)) ids) (ValueError "route expert outside inventory").

Definition check_node (objects : dict key object) (capacity_bytes layers : Z) (route_horizon : bool) (count : nat)
    (prior_members : option (list string)) (x : nat * node) : result (option (list string)) :=
  let '(ordinal, n) := x in
  let? _ := ensure ((n_step n =? Z.of_nat ordinal / layers) && (n_layer n =? Z.of_nat ordinal mod layers))
              (ValueError "trace must contain complete ordered step/layer coverage") in
  let? _ := check_interval route_horizon (Nat.eqb ordinal (count - 1)) n in
  let? prior := check_members prior_members n in
  let? _ := mapR (check_route objects (n_layer n)) (dvals (members n)) in
  let? demand := transfers objects (demand_of n) in
  let? _ := ensure (demand <=? capacity_bytes) (ValueError "INFEASIBLE batch whole-expert working set exceeds cache") in
  Ok prior.

Definition validate_nodes (nodes : list node) (objects : dict key object) (capacity_bytes : Z)
    (initial_resident : list key) (route_horizon : bool) : result Z :=
  let? _ := ensure (negb (bool_decide (length nodes = 0%nat)) && negb (bool_decide (length objects = 0%nat)))
              (ValueError "INFEASIBLE empty trace/object set/capacity") in
  let? capacity := nonnegative (Some capacity_bytes) "capacity" in
  let? _ := ensure (negb (capacity =? 0)) (ValueError "INFEASIBLE empty trace/object set/capacity") in
  let? top := of_option (ValueError "max() arg is an empty sequence") (zmax_list (fst <$> dkeys objects)) in
  let layers := top + 1 in
  let? _ := ensure (forallb (fun '(k, o) => object_ok k o) objects) (ValueError "invalid whole-expert object") in
  let? _ := ensure (bool_decide (NoDup initial_resident) && forallb (dmem objects) initial_resident)
              (ValueError "invalid initial resident identity") in
  let? resident := transfers objects initial_resident in
  let? _ := ensure (resident <=? capacity_bytes) (ValueError "INFEASIBLE initial residency exceeds capacity") in
  let? _ := foldM (check_node objects capacity_bytes layers route_horizon (length nodes)) (imap pair nodes) None in
  let? _ := ensure (Z.of_nat (length nodes) mod layers =? 0) (ValueError "incomplete final step") in
  Ok layers.

(** ** The state of a replay *)

Record entry := { e_request : option Z; e_ready : option Z }.

(** A route that was observed: [history[member, layer]]. *)
Record observation := { ob_step : Z; visible_at_ns : Z; ob_experts : list Z }.
Notation evidence := (list (string * observation)) (only parsing).
Record basis := { observations : evidence; basis_visible_at_ns : Z }.

Inductive origin_kind := Demand | Prefetch.
#[export] Instance origin_kind_eq_dec : EqDecision origin_kind.
Proof. solve_decision. Defined.

Record row := {
  request_id : Z; expert : key; origin : origin_kind; issue_ns : Z; ready_ns : option Z;
  first_demand_ns : option Z; consume_ns : option Z; eviction_ns : option Z;
  prediction_basis : option basis; r_bytes : Z; expert_payload_bytes : Z; logical_address : Z;
  classification : option string; ready_at_horizon_ns : field }.

Inductive lookup_state := READY | PENDING | MISSING.
#[export] Instance lookup_state_eq_dec : EqDecision lookup_state.
Proof. solve_decision. Defined.
Record lookup := { l_expert : key; l_bytes : Z; l_state : lookup_state; l_request_id : option Z }.

Inductive out_node :=
| Computed (step layer : Z) (active : nat) (visible compute_start compute_end residual : Z) (demand : list key)
| Observed (step layer : Z) (active : nat) (visible modeled_consume next_visible gap residual : Z)
    (demand : list key) (demand_lookup : list lookup)
| Unserved (step layer : Z) (active : nat) (visible : Z) (demand : list key) (demand_lookup : list lookup)
    (terminal_unserved_demand_bytes terminal_not_ready_bytes : Z) (candidate_not_issued : dict key evidence).

Record eviction := { ev_expert : key; ev_time_ns : Z; ev_request_id : option Z }.
Record skip := { sk_expert : key; sk_time_ns : Z }.

Record st (S : Type) := mkSt {
  service : S; cache : dict key entry; requests : list row; history : dict (string * Z) observation;
  output_nodes : list out_node; evictions : list eviction; skipped : list skip; pending : gset Z;
  used : Z; peak : Z; hits : Z; misses : Z; prefix_miss_bytes : Z }.
Arguments mkSt {S}.
Arguments service {S}. Arguments cache {S}. Arguments requests {S}. Arguments history {S}.
Arguments output_nodes {S}. Arguments evictions {S}. Arguments skipped {S}. Arguments pending {S}.
Arguments used {S}. Arguments peak {S}. Arguments hits {S}. Arguments misses {S}. Arguments prefix_miss_bytes {S}.

(** The part of the report that both modes share. *)
Record ledger := {
  rep_policy : string; rep_capacity_bytes : Z; peak_reserved_bytes : Z; final_reserved_bytes : Z;
  demand_lookups : Z; cache_hits : Z; cache_misses : Z; traffic_bytes : Z; rep_requests : list row;
  rep_nodes : list out_node; rep_evictions : list eviction; prefetch_skipped : list skip }.

Inductive report :=
| ComputeReport (decode_complete_ns drained_service_ns total_compute_ns : Z) (l : ledger)
| HorizonReport (observed_route_span_ns projected_terminal_visible_ns prefix_residual_ns drain_end_ns : Z)
    (prefix_nodes : nat) (pending_at_horizon : list Z) (prefix_ready_miss_bytes terminal_unserved_bytes : Z)
    (l : ledger).

(** ** Row and state updates *)

Definition set_ready (t : Z) (r : row) : row :=
  {| request_id := request_id r; expert := expert r; origin := origin r; issue_ns := issue_ns r; ready_ns := Some t;
     first_demand_ns := first_demand_ns r; consume_ns := consume_ns r; eviction_ns := eviction_ns r;
     prediction_basis := prediction_basis r; r_bytes := r_bytes r; expert_payload_bytes := expert_payload_bytes r;
     logical_address := logical_address r; classification := classification r;
     ready_at_horizon_ns := ready_at_horizon_ns r |}.
Definition set_first (t : Z) (r : row) : row :=
  {| request_id := request_id r; expert := expert r; origin := origin r; issue_ns := issue_ns r; ready_ns := ready_ns r;
     first_demand_ns := match first_demand_ns r with None => Some t | d => d end;
     consume_ns := consume_ns r; eviction_ns := eviction_ns r;
     prediction_basis := prediction_basis r; r_bytes := r_bytes r; expert_payload_bytes := expert_payload_bytes r;
     logical_address := logical_address r; classification := classification r;
     ready_at_horizon_ns := ready_at_horizon_ns r |}.
Definition set_consume (t : Z) (r : row) : row :=
  {| request_id := request_id r; expert := expert r; origin := origin r; issue_ns := issue_ns r; ready_ns := ready_ns r;
     first_demand_ns := first_demand_ns r; consume_ns := match consume_ns r with None => Some t | c => c end;
     eviction_ns := eviction_ns r;
     prediction_basis := prediction_basis r; r_bytes := r_bytes r; expert_payload_bytes := expert_payload_bytes r;
     logical_address := logical_address r; classification := classification r;
     ready_at_horizon_ns := ready_at_horizon_ns r |}.
Definition set_evicted (t : Z) (r : row) : row :=
  {| request_id := request_id r; expert := expert r; origin := origin r; issue_ns := issue_ns r; ready_ns := ready_ns r;
     first_demand_ns := first_demand_ns r; consume_ns := consume_ns r; eviction_ns := Some t;
     prediction_basis := prediction_basis r; r_bytes := r_bytes r; expert_payload_bytes := expert_payload_bytes r;
     logical_address := logical_address r; classification := classification r;
     ready_at_horizon_ns := ready_at_horizon_ns r |}.
Definition set_horizon (r : row) : row :=
  {| request_id := request_id r; expert := expert r; origin := origin r; issue_ns := issue_ns r; ready_ns := ready_ns r;
     first_demand_ns := first_demand_ns r; consume_ns := consume_ns r; eviction_ns := eviction_ns r;
     prediction_basis := prediction_basis r; r_bytes := r_bytes r; expert_payload_bytes := expert_payload_bytes r;
     logical_address := logical_address r; classification := classification r;
     ready_at_horizon_ns := Some (ready_ns r) |}.
Definition set_class (c : string) (r : row) : row :=
  {| request_id := request_id r; expert := expert r; origin := origin r; issue_ns := issue_ns r; ready_ns := ready_ns r;
     first_demand_ns := first_demand_ns r; consume_ns := consume_ns r; eviction_ns := eviction_ns r;
     prediction_basis := prediction_basis r; r_bytes := r_bytes r; expert_payload_bytes := expert_payload_bytes r;
     logical_address := logical_address r; classification := Some c; ready_at_horizon_ns := ready_at_horizon_ns r |}.

(** [OrderedDict.move_to_end]. *)
Definition move_to_end {V} (d : dict key V) (k : key) : result (dict key V) :=
  let? v := dindex d k in Ok (ddel d k ++ [(k, v)]).

(** [d.setdefault(k, []).append(x)]. *)
Definition append_to {V} (d : dict key (list V)) (k : key) (x : V) : dict key (list V) :=
  dset d k (dget_or d k [] ++ [x]).

(** The position of request [rid] in [requests]. *)
Definition slot (rid : Z) : nat := Z.to_nat (rid - 1).

Section replay.
Context {S : Type} `{!Service S}.
Notation M := (M (st S)).

Definition set_service (v : S) (s : st S) : st S :=
  mkSt v (cache s) (requests s) (history s) (output_nodes s) (evictions s) (skipped s) (pending s)
    (used s) (peak s) (hits s) (misses s) (prefix_miss_bytes s).
Definition set_cache (c : dict key entry) (s : st S) : st S :=
  mkSt (service s) c (requests s) (history s) (output_nodes s) (evictions s) (skipped s) (pending s)
    (used s) (peak s) (hits s) (misses s) (prefix_miss_bytes s).
Definition set_requests (l : list row) (s : st S) : st S :=
  mkSt (service s) (cache s) l (history s) (output_nodes s) (evictions s) (skipped s) (pending s)
    (used s) (peak s) (hits s) (misses s) (prefix_miss_bytes s).
Definition set_history (h : dict (string * Z) observation) (s : st S) : st S :=
  mkSt (service s) (cache s) (requests s) h (output_nodes s) (evictions s) (skipped s) (pending s)
    (used s) (peak s) (hits s) (misses s) (prefix_miss_bytes s).
Definition add_node (o : out_node) (s : st S) : st S :=
  mkSt (service s) (cache s) (requests s) (history s) (output_nodes s ++ [o]) (evictions s) (skipped s) (pending s)
    (used s) (peak s) (hits s) (misses s) (prefix_miss_bytes s).
Definition add_eviction (e : eviction) (s : st S) : st S :=
  mkSt (service s) (cache s) (requests s) (history s) (output_nodes s) (evictions s ++ [e]) (skipped s) (pending s)
    (used s) (peak s) (hits s) (misses s) (prefix_miss_bytes s).
Definition add_skip (k : skip) (s : st S) : st S :=
  mkSt (service s) (cache s) (requests s) (history s) (output_nodes s) (evictions s) (skipped s ++ [k]) (pending s)
    (used s) (peak s) (hits s) (misses s) (prefix_miss_bytes s).
Definition set_pending (p : gset Z) (s : st S) : st S :=
  mkSt (service s) (cache s) (requests s) (history s) (output_nodes s) (evictions s) (skipped s) p
    (used s) (peak s) (hits s) (misses s) (prefix_miss_bytes s).
Definition set_used (u : Z) (s : st S) : st S :=
  mkSt (service s) (cache s) (requests s) (history s) (output_nodes s) (evictions s) (skipped s) (pending s)
    u (peak s) (hits s) (misses s) (prefix_miss_bytes s).
Definition set_peak (p : Z) (s : st S) : st S :=
  mkSt (service s) (cache s) (requests s) (history s) (output_nodes s) (evictions s) (skipped s) (pending s)
    (used s) p (hits s) (misses s) (prefix_miss_bytes s).
Definition set_counts (h m b : Z) (s : st S) : st S :=
  mkSt (service s) (cache s) (requests s) (history s) (output_nodes s) (evictions s) (skipped s) (pending s)
    (used s) (peak s) h m b.

Definition now (s : st S) : Z := clock (service s).

(** A call of a method of the service. *)
Definition call {A} (m : Prelude.M S A) : M A := fun s =>
  let '(r, v) := m (service s) in (r, set_service v s).

(** [requests[rid-1]] and a mutation of that row. *)
Definition request (rid : Z) : M row := let! s := get in lift (lget (requests s) (slot rid)).
Definition update (rid : Z) (f : row -> row) : M unit :=
  let! s := get in
  let! r := lift (lget (requests s) (slot rid)) in
  put (set_requests (<[slot rid := f r]> (requests s)) s).

(** [cache[k]]. *)
Definition entry_of (k : key) : M entry := let! s := get in lift (dindex (cache s) k).

(** ** The nested functions of [replay] *)

Context (objects : dict key object) (capacity_bytes : Z).

Definition receive (horizon : Z) : M (option completion) :=
  let! before := get in
  let! c := call (until horizon) in
  let! s := get in
  let! _ := require ((now before <=? now s) && (now s <=? horizon)) (ValueError "service clock violated horizon") in
  match c with
  | Some c =>
      let rid := c_request_id c in
      let! _ := require (bool_decide (rid ∈ pending s)) (ValueError "duplicate/unknown completion") in
      let! r := request rid in
      let ready := reported_complete c in
      let! _ := require ((issue_ns r <=? ready) && (ready <=? now s)) (ValueError "nonmonotonic service completion") in
      let! _ := update rid (set_ready ready) in
      let! e := entry_of (expert r) in
      let! _ := modify (fun s => set_cache (dset (cache s) (expert r) {| e_request := e_request e; e_ready := Some ready |}) s) in
      let! _ := modify (fun s => set_pending (pending s ∖ {[rid]}) s) in
      sret (Some c)
  | None =>
      let! _ := require (now s =? horizon) (ValueError "service returned before horizon without completion") in
      sret None
  end.

Definition advance (horizon : Z) : M unit :=
  let! _ := require (horizon <=? MAX_TIME) (ValueError "replay clock overflow") in
  let! s := get in
  loop (Datatypes.S (size (pending s)))
    (let! c := receive horizon in sret (match c with Some _ => None | None => Some tt end)).

Definition wait_one : M unit :=
  let! s := get in
  let! _ := require (negb (bool_decide (pending s = ∅)))
              (ValueError "pending service failed to complete in clock range") in
  let! c := receive MAX_TIME in
  require (match c with Some _ => true | None => false end)
    (ValueError "pending service failed to complete in clock range").

(** The ready entries that are not protected, oldest first. *)
Definition reclaimable (protected : list key) (d : dict key entry) : list key :=
  fst <$> filter (fun '(k, e) => k ∉ protected /\ e_ready e <> None) d.

Definition evict (victim : key) : M unit :=
  let! e := entry_of victim in
  let! _ := modify (fun s => set_cache (ddel (cache s) victim) s) in
  let! size := lift (transfer objects victim) in
  let! _ := modify (fun s => set_used (used s - size) s) in
  let! _ := modify (fun s => add_eviction {| ev_expert := victim; ev_time_ns := now s; ev_request_id := e_request e |} s) in
  match e_request e with
  | Some rid => let! s := get in update rid (set_evicted (now s))
  | None => sret tt
  end.

Definition reserve_round (size : Z) (protected : list key) (speculative : bool) : M (option bool) :=
  let! s := get in
  if used s + size <=? capacity_bytes then
    let! _ := put (set_used (used s + size) s) in sret (Some true)
  else
    match reclaimable protected (cache s) with
    | [] => if speculative then sret (Some false) else let! _ := wait_one in sret None
    | victim :: _ => let! _ := evict victim in sret None
    end.

Definition reserve (k : key) (protected : list key) (speculative : bool) : M bool :=
  let! size := lift (transfer objects k) in
  let! s := get in
  let! room := if speculative then
                 let! total := lift (transfers objects (reclaimable protected (cache s))) in
                 sret (used s + size - total <=? capacity_bytes)
               else sret true in
  if negb room then sret false else
  loop (Datatypes.S (length (cache s) + base.size (pending s))) (reserve_round size protected speculative).

Definition issue (k : key) (o : origin_kind) (protected : list key) (b : option basis) : M bool :=
  let! s := get in
  if dmem (cache s) k then sret true else
  let! reserved := reserve k protected (bool_decide (o = Prefetch)) in
  if negb reserved then sret false else
  let! s := get in
  let rid := Z.of_nat (length (requests s)) + 1 in
  let! obj := lift (dindex objects k) in
  let r := {| request_id := rid; expert := k; origin := o; issue_ns := now s; ready_ns := None;
              first_demand_ns := None; consume_ns := None; eviction_ns := None; prediction_basis := b;
              r_bytes := transfer_bytes obj; expert_payload_bytes := o_bytes obj; logical_address := o_address obj;
              classification := None; ready_at_horizon_ns := None |} in
  let! _ := call (submit {| s_request_id := rid; s_issue_ns := now s; s_address := o_address obj;
                            s_bytes := transfer_bytes obj |}) in
  let! _ := modify (fun s => set_requests (requests s ++ [r]) s) in
  let! _ := modify (fun s => set_pending ({[rid]} ∪ pending s) s) in
  let! _ := modify (fun s => set_cache (dset (cache s) k {| e_request := Some rid; e_ready := None |}) s) in
  let! _ := modify (fun s => set_peak (Z.max (peak s) (used s)) s) in
  sret true.

(** ** One node of the trace *)

Definition e_is_ready (e : option entry) : bool :=
  match e with Some {| e_ready := Some _ |} => true | _ => false end.

(** The lookup of one demanded expert, before anything is issued. *)
Definition look_up (terminal : bool) (visible : Z) (k : key) : M lookup :=
  let! s := get in
  let e := dget (cache s) k in
  let! size := lift (transfer objects k) in
  let! _ := put (if e_is_ready e then set_counts (hits s + 1) (misses s) (prefix_miss_bytes s) s
                 else set_counts (hits s) (misses s + 1)
                        (if terminal then prefix_miss_bytes s else prefix_miss_bytes s + size) s) in
  let! _ := match e with
            | Some {| e_request := Some rid |} => update rid (set_first visible)
            | _ => sret tt
            end in
  sret {| l_expert := k; l_bytes := size;
          l_state := if e_is_ready e then READY else match e with Some _ => PENDING | None => MISSING end;
          l_request_id := match e with Some e => e_request e | None => None end |}.

Definition observe (n : node) (visible : Z) (s : st S) : st S :=
  set_history (foldl (fun h '(m, ids) => dset h (m, n_layer n)
                        {| ob_step := n_step n; visible_at_ns := visible; ob_experts := ids |})
                 (history s) (members n)) s.

(** The experts of [target] that the current members used last, with the
    routes that show it. *)
Definition predict (h : dict (string * Z) observation) (target : Z) (names : list string) : dict key evidence :=
  foldl (fun acc m =>
      match dget h (m, target) with
      | Some o => foldl (fun acc e => append_to acc (target, e) (m, o)) acc (isort zle (ob_experts o))
      | None => acc
      end) [] (isort sle names).
(** [sorted(d.items())]: the keys are distinct, so only they are compared. *)
Definition sorted_items {V} (d : dict key V) : dict key V := isort (fun x y => kle x.1 y.1) d.

Definition wait_ready (k : key) : M unit :=
  let! s := get in
  loop (Datatypes.S (size (pending s)))
    (let! e := entry_of k in
     match e_ready e with
     | Some _ => sret (Some tt)
     | None => let! _ := wait_one in sret None
     end).

(** [any(cache[k]['ready_ns'] is None for k in keys)], left to right. *)
Fixpoint any_unready (d : dict key entry) (keys : list key) : result bool :=
  match keys with
  | [] => Ok false
  | k :: keys' =>
      let? e := dindex d k in
      match e_ready e with None => Ok true | Some _ => any_unready d keys' end
  end.

Definition wait_all (keys : list key) : M unit :=
  let! s := get in
  loop (Datatypes.S (size (pending s)))
    (let! s := get in
     let! unready := lift (any_unready (cache s) keys) in
     if unready then let! _ := wait_one in sret None else sret (Some tt)).

Definition touch_first (visible : Z) (k : key) : M unit :=
  let! e := entry_of k in
  match e_request e with Some rid => update rid (set_first visible) | None => sret tt end.

Definition demand_one (policy : string) (visible : Z) (demand : list key) (k : key) : M unit :=
  let! _ := issue k Demand demand None in
  let! _ := touch_first visible k in
  if String.eqb policy "none" then wait_ready k else sret tt.

Definition consume_one (compute_start : Z) (k : key) : M unit :=
  let! s := get in
  let! c := lift (move_to_end (cache s) k) in
  let! _ := put (set_cache c s) in
  let! e := entry_of k in
  match e_request e with Some rid => update rid (set_consume compute_start) | None => sret tt end.

Definition prefetch_one (protected : list key) (x : key * evidence) : M unit :=
  let '(k, ev) := x in
  let! latest := lift (of_option (ValueError "max() arg is an empty sequence")
                         (zmax_list ((fun '(_, o) => visible_at_ns o) <$> ev))) in
  let! ok := issue k Prefetch protected (Some {| observations := ev; basis_visible_at_ns := latest |}) in
  if ok then sret tt else modify (fun s => add_skip {| sk_expert := k; sk_time_ns := now s |} s).

(** The interval that follows a served node: [node['route_gap_ns']] or
    [node['compute_ns']]. *)
Definition gap_of (route_horizon : bool) (n : node) : result Z :=
  match (if route_horizon then route_gap_ns n else compute_ns n) with
  | None => Raise (KeyError (if route_horizon then "route_gap_ns" else "compute_ns"))
  | Some None => Raise (TypeError "unsupported operand")
  | Some (Some g) => Ok g
  end.

(** The last node of a route horizon: its demand is observed and not served. *)
Definition finish_terminal (layers : Z) (n : node) (visible : Z) (looked : list lookup) : M unit :=
  let! s := get in
  let candidate := predict (history s) ((n_layer n + 1) mod layers) (dkeys (members n)) in
  put (add_node (Unserved (n_step n) (n_layer n) (length (members n)) visible (demand_of n) looked
         (zsum (l_bytes <$> looked)) (zsum (l_bytes <$> filter (fun l => l_state l <> READY) looked))
         (sorted_items candidate)) s).

Definition serve_node (layers : Z) (policy : string) (route_horizon : bool) (n : node) (visible : Z)
    (looked : list lookup) : M unit :=
  let demand := demand_of n in
  let! _ := forM demand (demand_one policy visible demand) in
  let! _ := wait_all demand in
  let! s := get in
  let compute_start := now s in
  let! _ := forM demand (consume_one compute_start) in
  let! s := get in
  let! _ := if String.eqb policy "one_layer_ahead" then
              forM (sorted_items (predict (history s) ((n_layer n + 1) mod layers) (dkeys (members n))))
                (prefetch_one demand)
            else sret tt in
  let! gap := lift (gap_of route_horizon n) in
  let end_ := compute_start + gap in
  let! _ := advance end_ in
  modify (add_node
    (if route_horizon
     then Observed (n_step n) (n_layer n) (length (members n)) visible compute_start end_ gap (compute_start - visible)
            demand looked
     else Computed (n_step n) (n_layer n) (length (members n)) visible compute_start end_ (compute_start - visible)
            demand)).

Definition step_node (layers : Z) (policy : string) (route_horizon : bool) (count : nat) (x : nat * node) : M unit :=
  let '(ordinal, n) := x in
  let! s := get in
  let! _ := advance (now s) in
  let! s := get in
  let visible := now s in
  let terminal := route_horizon && Nat.eqb ordinal (count - 1) in
  let! _ := modify (observe n visible) in
  let! looked := mapS (look_up terminal visible) (demand_of n) in
  if terminal then finish_terminal layers n visible looked
  else serve_node layers policy route_horizon n visible looked.

(** ** The report *)

Definition drain : M unit :=
  let! s := get in
  loop (Datatypes.S (size (pending s)))
    (let! s := get in
     if bool_decide (pending s = ∅) then sret (Some tt) else let! _ := wait_one in sret None).

Definition classify (route_horizon : bool) (r : row) : result row :=
  match origin r, consume_ns r with
  | Demand, _ => Ok (set_class "demand" r)
  | Prefetch, None =>
      Ok (set_class (if negb route_horizon then "useless"
                     else if bool_decide (first_demand_ns r <> None) then "censored_terminal"
                     else if bool_decide (eviction_ns r <> None) then "useless_prefix"
                     else "censored_horizon") r)
  | Prefetch, Some _ =>
      match ready_ns r, first_demand_ns r with
      | Some a, Some d => Ok (set_class (if a <=? d then "useful" else "late") r)
      | _, _ => Raise (TypeError "'<=' not supported")
      end
  end.

Definition residual_of (o : out_node) : result Z :=
  match o with
  | Computed _ _ _ _ _ _ r _ | Observed _ _ _ _ _ _ _ r _ _ => Ok r
  | Unserved _ _ _ _ _ _ _ _ _ => Raise (TypeError "unsupported operand")
  end.
Definition unserved_of (o : option out_node) : result Z :=
  match o with
  | Some (Unserved _ _ _ _ _ _ b _ _) => Ok b
  | Some _ => Raise (KeyError "terminal_unserved_demand_bytes")
  | None => Raise IndexError
  end.

Definition ledger_of (policy : string) (s : st S) : ledger :=
  {| rep_policy := policy; rep_capacity_bytes := capacity_bytes; peak_reserved_bytes := peak s;
     final_reserved_bytes := used s; demand_lookups := hits s + misses s; cache_hits := hits s;
     cache_misses := misses s; traffic_bytes := zsum (r_bytes <$> requests s); rep_requests := requests s;
     rep_nodes := output_nodes s; rep_evictions := evictions s; prefetch_skipped := skipped s |}.

Definition report_of (nodes : list node) (policy : string) (route_horizon : bool) (decode_complete : Z)
    (pending_at : list Z) (s : st S) : result report :=
  if route_horizon then
    let? gaps := mapR (gap_of true) (take (length nodes - 1) nodes) in
    let? residuals := mapR residual_of (take (length (output_nodes s) - 1) (output_nodes s)) in
    let? _ := ensure ((zsum gaps + zsum residuals =? decode_complete) && Nat.eqb (length (output_nodes s)) (length nodes))
                (ValueError "route horizon clock/coverage conservation failed") in
    let? unserved := unserved_of (list.last (output_nodes s)) in
    Ok (HorizonReport (zsum gaps) decode_complete (zsum residuals) (now s) (length nodes - 1) pending_at
          (prefix_miss_bytes s) unserved (ledger_of policy s))
  else
    let? gaps := mapR (gap_of false) nodes in
    Ok (ComputeReport decode_complete (now s) (zsum gaps) (ledger_of policy s)).

(** Everything after the loop over the nodes. *)
Definition finish (nodes : list node) (policy : string) (route_horizon : bool) : M report :=
  let! s := get in
  let decode_complete := now s in
  let pending_at := isort zle (elements (pending s)) in
  let! _ := if route_horizon then modify (fun s => set_requests (set_horizon <$> requests s) s) else sret tt in
  let! _ := drain in
  let! s := get in
  let! rows := lift (mapR (classify route_horizon) (requests s)) in
  let! _ := put (set_requests rows s) in
  let! _ := require (bool_decide (NoDup (request_id <$> rows)) && forallb (fun r => bool_decide (ready_ns r <> None)) rows)
              (ValueError "request conservation failed") in
  let! s := get in
  lift (report_of nodes policy route_horizon decode_complete pending_at s).

Definition initial (service : S) (initial_resident : list key) (u : Z) : st S :=
  mkSt service ((fun k => (k, {| e_request := None; e_ready := Some 0 |})) <$> initial_resident)
    [] [] [] [] [] ∅ u u 0 0 0.

(** [replay]: the report, or the exception; the service it was given is
    consumed. *)
Definition replay (nodes : list node) (initial_resident : list key) (policy : string) (service : S)
    (route_horizon : bool) : result report :=
  let? _ := ensure (bool_decide (policy ∈ POLICIES)) (ValueError "unsupported prefetch policy") in
  let? layers := validate_nodes nodes objects capacity_bytes initial_resident route_horizon in
  let? _ := ensure (clock service =? 0) (ValueError "replay requires a fresh service clock") in
  let? u := transfers objects initial_resident in
  fst ((let! _ := forM (imap pair nodes) (step_node layers policy route_horizon (length nodes)) in
        finish nodes policy route_horizon) (initial service initial_resident u)).

(** ** What the replay relies on *)

(** A call of [until] that keeps the contract: the clock advances up to the
    horizon, a completion is one of the outstanding reads [P] (a map from
    request to issue time), and at the end of the clock range nothing is left
    outstanding. *)
Definition outcome_ok (s : S) (h : Z) (P : gmap Z Z) (c : option completion) (s' : S) : Prop :=
  clock s <= clock s' <= h /\
  match c with
  | None => clock s' = h /\ (P = ∅ \/ h <> MAX_TIME)
  | Some c => exists t, P !! c_request_id c = Some t /\ t <= reported_complete c <= clock s'
  end.
Definition left_over (P : gmap Z Z) (c : option completion) : gmap Z Z :=
  match c with Some c => delete (c_request_id c) P | None => P end.

(** Submitting a read never moves the clock back. *)
Class ForwardService : Prop :=
  submit_forward : forall r (s s' : S), submit r s = (Ok tt, s') -> clock s <= clock s'.

(** Every submitted read completes; [outstanding s P] relates the service to
    its outstanding reads. *)
Class LiveService (outstanding : S -> gmap Z Z -> Prop) : Prop := {
  live_until : forall s P h, outstanding s P -> clock s <= h <= MAX_TIME ->
    exists c s', until h s = (Ok c, s') /\ outcome_ok s h P c s' /\ outstanding s' (left_over P c);
  live_submit : forall s P r, outstanding s P -> P !! s_request_id r = None -> s_issue_ns r = clock s ->
    exists s', submit r s = (Ok tt, s') /\ clock s' = clock s /\ outstanding s' (<[s_request_id r := s_issue_ns r]> P) }.

(** The violations of the contract that the replay detects. *)
Definition overflow : exn := ValueError "replay clock overflow".
Definition protocol_errors : list exn :=
  [ValueError "service clock violated horizon"; ValueError "duplicate/unknown completion";
   ValueError "nonmonotonic service completion"; ValueError "service returned before horizon without completion";
   ValueError "pending service failed to complete in clock range"].
(** The exceptions that the service itself raises. *)
Definition service_raises (e : exn) : Prop :=
  exists s s', (exists r, submit r s = (Raise e, s')) \/ (exists h, until h s = (Raise e, s')).

(** The two contracts as one: under a [loose] contract the service may do
    anything but move the clock back when a read is submitted, and every
    violation that the replay detects is a [fault]. *)
Record Contract := {
  fault : exn -> Prop; loose : Prop; link : S -> gmap Z Z -> Prop;
  ct_until : forall s P h, link s P -> loose \/ clock s <= h <= MAX_TIME ->
    match until h s with
    | (Raise e, _) => fault e
    | (Ok c, s') => (loose \/ outcome_ok s h P c s') /\ link s' (left_over P c)
    end;
  ct_submit : forall s P r, link s P -> loose \/ P !! s_request_id r = None /\ s_issue_ns r = clock s ->
    match submit r s with
    | (Raise e, _) => fault e
    | (Ok _, s') => clock s <= clock s' /\ (loose \/ clock s' = clock s) /\
                    link s' (<[s_request_id r := s_issue_ns r]> P)
    end;
  ct_overflow : fault overflow;
  ct_loose : loose -> forall e, e ∈ protocol_errors -> fault e }.

Definition forward_contract `{!ForwardService} : Contract.
Proof.
  refine {| fault := fun e => service_raises e \/ e ∈ overflow :: protocol_errors; loose := True; link := fun _ _ => True |}.
  - intros s P h _ _. destruct (until h s) as [[c|e] s'] eqn:E; [auto|]. left. exists s, s'. eauto.
  - intros s P r _ _. destruct (submit r s) as [[[]|e] s'] eqn:E; [|left; exists s, s'; eauto].
    split; [by eapply submit_forward|auto].
  - right. apply elem_of_cons. by left.
  - intros _ e He. right. apply elem_of_cons. by right.
Defined.

Definition live_contract outstanding `{!LiveService outstanding} : Contract.
Proof.
  refine {| fault := fun e => e = overflow; loose := False; link := outstanding |}.
  - intros s P h Hl [[]|Hh]. destruct (live_until s P h Hl Hh) as (c & s' & -> & ? & ?). auto.
  - intros s P r Hl [[]|[Hn Hi]]. destruct (live_submit s P r Hl Hn Hi) as (s' & -> & ? & ?). split; [lia|auto].
  - done.
  - done.
Defined.

(** ** The proof of the replay against a contract *)
Section verify.
Context (C : Contract).
Notation wp := (ProgramLogic.wp (fun e _ => fault C e)).

(** Project the fields of an updated state. *)
Ltac st_simpl :=
  cbn [service cache requests history output_nodes evictions skipped pending used peak hits misses prefix_miss_bytes
       set_service set_cache set_requests set_history add_node add_eviction add_skip set_pending set_used set_peak
       set_counts request_id expert origin issue_ns ready_ns first_demand_ns consume_ns eviction_ns prediction_basis
       r_bytes expert_payload_bytes logical_address set_ready set_first set_consume set_evicted e_request e_ready] in *.

(** ** The invariant *)

Definition sz (k : key) : Z := match dget objects k with Some o => transfer_bytes o | None => 0 end.
Definition known (k : key) : Prop := is_Some (dget objects k).

(** A request row at time [t]: its events are in causal order. *)
Record row_ok (t : Z) (i : nat) (r : row) : Prop := {
  ro_id : request_id r = Z.of_nat i + 1;
  ro_object : exists o, dget objects (expert r) = Some o /\ r_bytes r = transfer_bytes o /\
    expert_payload_bytes r = o_bytes o /\ logical_address r = o_address o;
  ro_issue : issue_ns r <= t;
  ro_ready : forall a, ready_ns r = Some a -> issue_ns r <= a <= t;
  ro_first : forall d, first_demand_ns r = Some d -> d <= t;
  ro_consume : forall c, consume_ns r = Some c -> c <= t /\
    exists a d, ready_ns r = Some a /\ a <= c /\ first_demand_ns r = Some d /\ d <= c;
  ro_evict : forall v, eviction_ns r = Some v -> v <= t /\ exists a, ready_ns r = Some a /\ a <= v;
  ro_basis : match prediction_basis r with
             | None => origin r = Demand
             | Some b => origin r = Prefetch /\ observations b <> [] /\ basis_visible_at_ns b <= issue_ns r /\
                 Forall (fun x => visible_at_ns x.2 <= basis_visible_at_ns b) (observations b)
             end }.

Definition entry_ok (rows : list row) (k : key) (e : entry) : Prop :=
  match e_request e with
  | None => e_ready e <> None
  | Some rid => exists i r, rid = Z.of_nat i + 1 /\ rows !! i = Some r /\ expert r = k /\ e_ready e = ready_ns r
  end.

(** Row [i] is an outstanding read. *)
Definition waiting (rows : list row) (rid : Z) (r : row) : Prop :=
  exists i, rid = Z.of_nat i + 1 /\ rows !! i = Some r /\ ready_ns r = None.

Definition history_ok (t : Z) (h : dict (string * Z) observation) : Prop :=
  forall m l o, dget h (m, l) = Some o -> visible_at_ns o <= t /\ Forall (fun e => known (l, e)) (ob_experts o).

(** The bookkeeping of a replay, without the reservation counters. *)
Record core_inv (s : st S) : Prop := {
  i_nodup : NoDup (dkeys (cache s));
  i_known : Forall known (dkeys (cache s));
  i_rows : forall i r, requests s !! i = Some r -> row_ok (now s) i r;
  i_entries : forall k e, dget (cache s) k = Some e -> entry_ok (requests s) k e;
  i_pending : forall rid, rid ∈ pending s <-> exists r, waiting (requests s) rid r;
  i_inflight : forall rid r, waiting (requests s) rid r ->
    dget (cache s) (expert r) = Some {| e_request := Some rid; e_ready := None |};
  i_link : exists P, link C (service s) P /\
    forall rid t, P !! rid = Some t <-> exists r, waiting (requests s) rid r /\ issue_ns r = t;
  i_history : history_ok (now s) (history s);
  i_range : loose C \/ now s <= MAX_TIME }.

(** [extra] bytes are reserved beyond the cached experts. *)
Definition inv_with (extra : Z) (s : st S) : Prop :=
  core_inv s /\ used s = zsum (sz <$> dkeys (cache s)) + extra /\ used s <= capacity_bytes /\
  zsum (sz <$> dkeys (cache s)) <= peak s <= capacity_bytes.
Definition inv : st S -> Prop := inv_with 0.

(** What every step keeps: the clock is monotone, the log of nodes and
    lookups, the protected entries and the demand times. *)
Definition log (s : st S) := (history s, output_nodes s, hits s, misses s, prefix_miss_bytes s).
(** The same request later in the replay. *)
Definition later_row (r r' : row) : Prop :=
  ready_at_horizon_ns r' = ready_at_horizon_ns r /\ (forall d, first_demand_ns r = Some d -> first_demand_ns r' = Some d).
Record frame (prot : list key) (s s' : st S) : Prop := {
  f_now : now s <= now s';
  f_log : log s' = log s;
  f_keep : forall k e, k ∈ prot -> dget (cache s) k = Some e ->
    exists e', dget (cache s') k = Some e' /\ e_request e' = e_request e /\ (e_ready e <> None -> e_ready e' = e_ready e);
  f_rows : forall i r, requests s !! i = Some r -> exists r', requests s' !! i = Some r' /\ later_row r r' }.

(** ** Rows and rows of the table *)

Lemma row_ok_mono t t' i r : row_ok t i r -> t <= t' -> row_ok t' i r.
Proof.
  intros [] Ht. constructor; try done; try lia.
  - intros a Ha. specialize (ro_ready0 a Ha). lia.
  - intros d Hd. specialize (ro_first0 d Hd). lia.
  - intros c Hc. destruct (ro_consume0 c Hc). split; [lia|done].
  - intros v Hv. destruct (ro_evict0 v Hv). split; [lia|done].
Qed.

Lemma row_ok_ready t i r a : row_ok t i r -> ready_ns r = None -> issue_ns r <= a <= t -> row_ok t i (set_ready a r).
Proof.
  intros [] Hn Ha. constructor; cbn; try done.
  - by intros a' [= <-].
  - intros c Hc. destruct (ro_consume0 c Hc) as (_ & a' & d & Hr & _). congruence.
  - intros v Hv. destruct (ro_evict0 v Hv) as (_ & a' & Hr & _). congruence.
Qed.

Lemma row_ok_first t i r d : row_ok t i r -> d <= t -> row_ok t i (set_first d r).
Proof.
  intros [] Hd. constructor; cbn; try done.
  - intros d'. destruct (first_demand_ns r) as [d0|]; intros [= <-]; auto.
  - intros c Hc. destruct (ro_consume0 c Hc) as (Hct & a & d' & Ha & Hac & Hf & Hdc). split; [done|]. exists a, d'. by rewrite Hf.
Qed.

Lemma row_ok_consume t i r c a d : row_ok t i r -> c <= t -> ready_ns r = Some a -> a <= c ->
  first_demand_ns r = Some d -> d <= c -> row_ok t i (set_consume c r).
Proof.
  intros [] Hc Ha Hac Hd Hdc. constructor; cbn; try done.
  intros c'. destruct (consume_ns r) as [c0|]; intros [= <-]; [by apply ro_consume0|]. split; [done|]. by exists a, d.
Qed.

Lemma row_ok_evicted t i r a : row_ok t i r -> ready_ns r = Some a -> row_ok t i (set_evicted t r).
Proof.
  intros [] Ha. constructor; cbn; try done. intros v [= <-]. split; [done|]. exists a. split; [done|].
  apply ro_ready0 in Ha. lia.
Qed.

Lemma slot_of (i : nat) : slot (Z.of_nat i + 1) = i.
Proof. unfold slot. lia. Qed.

(** Two tables of requests agree on experts, issue times and readiness. *)
Definition same_keys (rows rows' : list row) : Prop :=
  forall i, (fun r => (expert r, issue_ns r, ready_ns r)) <$> rows !! i = (fun r => (expert r, issue_ns r, ready_ns r)) <$> rows' !! i.

#[local] Instance same_keys_sym : Symmetric same_keys.
Proof. intros l l' H i. by rewrite H. Qed.

Lemma same_keys_row rows rows' i r : same_keys rows rows' -> rows !! i = Some r ->
  exists r', rows' !! i = Some r' /\ expert r' = expert r /\ issue_ns r' = issue_ns r /\ ready_ns r' = ready_ns r.
Proof. intros H Hr. specialize (H i). rewrite Hr in H. destruct (rows' !! i) as [r'|]; [|done]. exists r'. by injection H as -> -> ->. Qed.

Lemma same_keys_entry rows rows' k e : same_keys rows rows' -> entry_ok rows k e -> entry_ok rows' k e.
Proof.
  intros H. unfold entry_ok. destruct (e_request e) as [rid|]; [|done]. intros (i & r & -> & Hr & <- & ->).
  destruct (same_keys_row _ _ _ _ H Hr) as (r' & Hr' & He & _ & Hd). exists i, r'. rewrite He, Hd. done.
Qed.

Lemma same_keys_waiting rows rows' rid r : same_keys rows rows' -> waiting rows rid r ->
  exists r', waiting rows' rid r' /\ expert r' = expert r /\ issue_ns r' = issue_ns r.
Proof.
  intros H (i & -> & Hr & Hn). destruct (same_keys_row _ _ _ _ H Hr) as (r' & Hr' & He & Hi & Hd).
  exists r'. split; [|done]. exists i. rewrite Hd. done.
Qed.

Lemma same_keys_insert rows i r f : rows !! i = Some r -> expert (f r) = expert r -> issue_ns (f r) = issue_ns r ->
  ready_ns (f r) = ready_ns r -> same_keys rows (<[i := f r]> rows).
Proof.
  intros Hr He Hi Hd j. destruct (decide (i = j)) as [<-|].
  - rewrite Hr, list_lookup_insert_eq by (by eapply lookup_lt_Some). cbn. by rewrite He, Hi, Hd.
  - by rewrite list_lookup_insert_ne.
Qed.

(** A change of the table that keeps the keys and the row invariant. *)
Lemma core_inv_rows s rows : core_inv s -> same_keys (requests s) rows ->
  (forall i r, rows !! i = Some r -> row_ok (now s) i r) -> core_inv (set_requests rows s).
Proof.
  intros [] Hk Hrows. constructor; cbn; try done.
  - intros k e He. by eapply same_keys_entry; [|apply i_entries0].
  - intros rid. rewrite i_pending0. split; intros (r & Hw).
    + destruct (same_keys_waiting _ _ _ _ Hk Hw) as (r' & ? & _). by exists r'.
    + destruct (same_keys_waiting _ _ _ _ (symmetry Hk) Hw) as (r' & ? & _). by exists r'.
  - intros rid r Hw. destruct (same_keys_waiting _ _ _ _ (symmetry Hk) Hw) as (r' & Hw' & <- & _). by apply i_inflight0.
  - destruct i_link0 as (P & HP & Hl). exists P. split; [done|]. intros rid t. rewrite Hl. split; intros (r & Hw & <-).
    + destruct (same_keys_waiting _ _ _ _ Hk Hw) as (r' & ? & _ & ?). by exists r'.
    + destruct (same_keys_waiting _ _ _ _ (symmetry Hk) Hw) as (r' & ? & _ & ?). by exists r'.
Qed.

(** [update] of a row that keeps its key. *)
Lemma update_row s i r f (Q : unit -> st S -> Prop) :
  requests s !! i = Some r -> Q tt (set_requests (<[i := f r]> (requests s)) s) -> wp (update (Z.of_nat i + 1) f) Q s.
Proof.
  intros Hr HQ. unfold update. apply wp_bind, wp_get, wp_bind. rewrite slot_of.
  eapply wp_lift; [by apply lget_Ok|]. by apply wp_put.
Qed.

Lemma rows_insert_ok (Q : nat -> row -> Prop) (rows : list row) i (r : row) (f : row -> row) :
  (forall j r', rows !! j = Some r' -> Q j r') -> Q i (f r) -> forall j r', <[i := f r]> rows !! j = Some r' -> Q j r'.
Proof.
  intros Ha Hf j r' Hj. destruct (decide (i = j)) as [<-|].
  - apply list_lookup_insert_Some in Hj as [(_ & <- & _)|[? _]]; done.
  - rewrite list_lookup_insert_ne in Hj by done. auto.
Qed.

Lemma inv_with_rows x s rows : inv_with x s -> same_keys (requests s) rows ->
  (forall i r, rows !! i = Some r -> row_ok (now s) i r) -> inv_with x (set_requests rows s).
Proof. intros (Hc & Hu & Hb & Hp) ??. split; [by apply core_inv_rows|done]. Qed.

#[local] Instance later_row_preorder : PreOrder later_row.
Proof. split; [by split|]. intros r1 r2 r3 [H1 H2] [G1 G2]. split; [congruence|auto]. Qed.

Lemma later_row_insert (rows : list row) i r r0 : rows !! i = Some r0 -> later_row r0 r ->
  forall j r', rows !! j = Some r' -> exists r'', <[i := r]> rows !! j = Some r'' /\ later_row r' r''.
Proof.
  intros Hi Hl j r' Hj. destruct (decide (i = j)) as [<-|].
  - rewrite list_lookup_insert_eq by (by eapply lookup_lt_Some). exists r. split; [done|]. congruence.
  - rewrite list_lookup_insert_ne by done. by exists r'.
Qed.

(** The frame of a change of one row that keeps its demand time. *)
Lemma frame_rows prot s i r f : requests s !! i = Some r -> later_row r (f r) ->
  frame prot s (set_requests (<[i := f r]> (requests s)) s).
Proof.
  intros Hr Hf. constructor; st_simpl; [done|done|eauto|by eapply later_row_insert].
Qed.

Lemma frame_refl prot s : frame prot s s.
Proof. constructor; [done|done| |]; eauto. intros i r Hr. by exists r. Qed.

Lemma frame_trans prot s1 s2 s3 : frame prot s1 s2 -> frame prot s2 s3 -> frame prot s1 s3.
Proof.
  intros [H1 H2 H3 H4] [G1 G2 G3 G4]. constructor; [lia|congruence| |].
  - intros k e Hk He. destruct (H3 k e Hk He) as (e' & He' & Hr & Hy). destruct (G3 k e' Hk He') as (e'' & He'' & Hr' & Hy').
    exists e''. split; [done|]. split; [congruence|]. intros Hn. rewrite <- (Hy Hn). apply Hy'. by rewrite Hy.
  - intros i r Hr. destruct (H4 i r Hr) as (r' & Hr' & Hl'). destruct (G4 i r' Hr') as (r'' & Hr'' & Hl''). exists r''.
    split; [done|]. by etransitivity.
Qed.

(** A change of the state that keeps the cache and the requests. *)
Lemma frame_same prot s s' : now s <= now s' -> log s' = log s -> (forall k, dget (cache s') k = dget (cache s) k) ->
  requests s' = requests s -> frame prot s s'.
Proof.
  intros Hn Hl Hc Hr. constructor; [done|done| |].
  - intros k e _ He. exists e. by rewrite Hc.
  - intros i r Hi. exists r. by rewrite Hr.
Qed.

(** ** Receiving completions *)

Lemma log_now s s' : log s' = log s -> history s' = history s.
Proof. by intros [= ->]. Qed.

(** The outstanding reads as the service sees them. *)
Definition outstanding (rows : list row) (P : gmap Z Z) : Prop :=
  forall rid t, P !! rid = Some t <-> exists r, waiting rows rid r /\ issue_ns r = t.

Lemma core_inv_service s v P : core_inv s -> link C v P -> outstanding (requests s) P -> clock (service s) <= clock v ->
  (loose C \/ clock v <= MAX_TIME) -> core_inv (set_service v s).
Proof.
  intros [] Hl HP Hv Hm. constructor; try done.
  - intros i r Hr. eapply row_ok_mono; [by apply i_rows0|done].
  - by exists P.
  - intros m l o Ho. destruct (i_history0 m l o Ho). split; [|done]. unfold now in *. cbn in *. lia.
Qed.

(** A completion marks its row and its cache entry ready. *)
Definition completed (i : nat) (r : row) (a : Z) (s : st S) : st S :=
  let rid := Z.of_nat i + 1 in
  set_pending (pending s ∖ {[rid]})
    (set_cache (dset (cache s) (expert r) {| e_request := Some rid; e_ready := Some a |})
      (set_requests (<[i := set_ready a r]> (requests s)) s)).

Lemma waiting_completed rows i r a rid r' : rows !! i = Some r ->
  waiting (<[i := set_ready a r]> rows) rid r' <-> waiting rows rid r' /\ rid <> Z.of_nat i + 1.
Proof.
  intros Hi. split.
  - intros (j & -> & Hj & Hn). destruct (decide (i = j)) as [<-|Hne].
    + rewrite list_lookup_insert_eq in Hj by (by eapply lookup_lt_Some). by simplify_eq.
    + rewrite list_lookup_insert_ne in Hj by done. split; [by exists j|lia].
  - intros [(j & -> & Hj & Hn) Hne]. exists j. rewrite list_lookup_insert_ne by lia. done.
Qed.

Lemma core_inv_completed s v P i r a : core_inv s -> requests s !! i = Some r -> ready_ns r = None ->
  outstanding (requests s) P -> link C v (delete (Z.of_nat i + 1) P) -> clock (service s) <= clock v ->
  (loose C \/ clock v <= MAX_TIME) -> issue_ns r <= a <= clock v -> core_inv (completed i r a (set_service v s)).
Proof.
  intros Hc Hi Hn HP Hl Hv Hm Ha. unfold outstanding in HP. pose proof Hc as [].
  assert (Hw : waiting (requests s) (Z.of_nat i + 1) r) by (by exists i).
  pose proof (i_inflight0 _ _ Hw) as He.
  assert (Hin : expert r ∈ dkeys (cache s)) by (apply dget_is_Some; eauto).
  constructor; unfold completed; st_simpl.
  - by rewrite dkeys_dset_in.
  - by rewrite dkeys_dset_in.
  - apply rows_insert_ok.
    + intros j r' Hj. eapply row_ok_mono; [by apply i_rows0|done].
    + apply row_ok_ready; [|done|done]. eapply row_ok_mono; [by apply i_rows0|done].
  - intros k e. rewrite dget_dset. case_decide as Hk.
    + intros [= <-]. exists i, (set_ready a r). rewrite list_lookup_insert_eq by (by eapply lookup_lt_Some). done.
    + intros Hk'. specialize (i_entries0 k e Hk'). unfold entry_ok in *. destruct (e_request e); [|done].
      destruct i_entries0 as (j & r' & -> & Hj & <- & Hr). exists j, r'. rewrite list_lookup_insert_ne; [done|].
      intros <-. congruence.
  - intros rid. rewrite elem_of_difference, elem_of_singleton, i_pending0.
    setoid_rewrite (waiting_completed _ _ _ _ _ _ Hi). naive_solver.
  - intros rid r' [Hw' Hne]%(waiting_completed _ _ _ _ _ _ Hi). rewrite dget_dset_ne; [by apply i_inflight0|].
    intros Heq. pose proof (i_inflight0 _ _ Hw') as He'. rewrite <- Heq, He in He'. congruence.
  - exists (delete (Z.of_nat i + 1) P). split; [done|]. intros rid t. rewrite lookup_delete_Some, HP.
    setoid_rewrite (waiting_completed _ _ _ _ _ _ Hi). naive_solver.
  - intros m l o Ho. destruct (i_history0 m l o Ho). split; [|done]. unfold now in *. cbn in *. lia.
  - done.
Qed.

Lemma frame_service prot s v : clock (service s) <= clock v -> frame prot s (set_service v s).
Proof. intros Hv. by apply frame_same. Qed.

Lemma frame_completed prot s i r a : requests s !! i = Some r ->
  dget (cache s) (expert r) = Some {| e_request := Some (Z.of_nat i + 1); e_ready := None |} ->
  frame prot s (completed i r a s).
Proof.
  intros Hi Hn. constructor; unfold completed; st_simpl; [done|done| |by eapply later_row_insert].
  intros k e _ He. rewrite dget_dset. case_decide as Hk; [|eauto]. subst k.
  rewrite Hn in He. injection He as <-. eexists. split; [done|]. done.
Qed.

Record received (x : Z) (s : st S) (h : Z) (c : option completion) (s' : st S) : Prop := {
  rv_inv : inv_with x s';
  rv_frame : forall prot, frame prot s s';
  rv_keys : dkeys (cache s') = dkeys (cache s);
  rv_horizon : now s' <= h;
  rv_outcome : match c with
               | Some _ => (size (pending s') < size (pending s))%nat
               | None => now s' = h /\ (loose C \/ pending s = ∅ \/ h <> MAX_TIME)
               end }.

Lemma protocol_fault e (Q : Prop) : loose C \/ Q -> e ∈ protocol_errors -> ~ Q -> fault C e.
Proof. intros [Hl|HQ] He Hn; [by apply ct_loose|done]. Qed.

Lemma receive_wp x s h : inv_with x s -> loose C \/ now s <= h <= MAX_TIME ->
  wp (receive h) (received x s h) s.
Proof.
  intros (Hc & Hu & Hb & Hp) Hh. pose proof Hc as []. destruct i_link0 as (P & Hl & HP).
  unfold receive. apply wp_bind, wp_get, wp_bind. unfold wp at 1, call.
  pose proof (ct_until C (service s) P h Hl Hh) as Hct.
  destruct (until h (service s)) as [[c|e] v]; [|done]. destruct Hct as [Ho Hl'].
  apply wp_bind, wp_get, wp_bind, wp_require.
  { intros Hf. eapply protocol_fault; [exact Ho|set_solver|]. intros [Hr _]. unfold now in Hf. cbn in Hf. lia. }
  intros Ht. unfold now in Ht. cbn in Ht. assert (clock (service s) <= clock v <= h) as Hv by lia.
  assert (Hrange : loose C \/ clock v <= MAX_TIME) by (destruct Hh; [auto|right; lia]).
  destruct c as [c|]; cbn [left_over] in Hl'.
  - apply wp_bind, wp_require.
    { intros Hf%bool_decide_eq_false. eapply protocol_fault; [exact Ho|set_solver|]. intros (_ & t & Ht' & _).
      apply Hf. cbn. apply i_pending0. apply HP in Ht' as (r & Hw & _). eauto. }
    intros Hin%bool_decide_eq_true. cbn in Hin. pose proof Hin as (r & i & Hrid & Hi & Hn)%i_pending0. rewrite Hrid in *.
    apply wp_bind. unfold request. apply wp_bind, wp_get. rewrite slot_of. eapply wp_lift; [by apply lget_Ok|].
    apply wp_bind, wp_require.
    { intros Hf. eapply protocol_fault; [exact Ho|set_solver|]. intros (_ & t & Ht' & Ht2).
      rewrite Hrid in Ht'. apply HP in Ht' as (r' & (j & Hj & Hj' & _) & <-). assert (j = i) as -> by lia.
      rewrite Hi in Hj'. injection Hj' as <-. unfold now in Hf. cbn in Hf. lia. }
    intros Hrt. unfold now in Hrt. cbn in Hrt.
    assert (Hw : waiting (requests s) (Z.of_nat i + 1) r) by (by exists i).
    apply wp_bind, (update_row _ _ r); [done|]. apply wp_bind. unfold entry_of. apply wp_bind, wp_get.
    eapply wp_lift; [apply dindex_Ok, i_inflight0; exact Hw|].
    apply wp_bind, wp_modify, wp_bind, wp_modify, wp_ret.
    change (received x s h (Some c) (completed i r (reported_complete c) (set_service v s))).
    assert (Hk : dkeys (cache (completed i r (reported_complete c) (set_service v s))) = dkeys (cache s)).
    { unfold completed. st_simpl. apply dkeys_dset_in, dget_is_Some. eauto. }
    assert (Hc' : core_inv (completed i r (reported_complete c) (set_service v s)))
      by (apply (core_inv_completed s v P); (done || lia)).
    constructor.
    + split; [done|]. rewrite Hk. done.
    + intros prot. eapply frame_trans; [apply (frame_service prot s v); lia|]. apply frame_completed; [done|].
      by apply i_inflight0.
    + done.
    + unfold now, completed. st_simpl. lia.
    + unfold completed. st_simpl. rewrite size_difference by set_solver. rewrite size_singleton.
      enough (size (pending s) <> 0%nat) by lia. apply size_non_empty_iff. set_solver.
  - apply wp_bind, wp_require.
    { intros Hf. eapply protocol_fault; [exact Ho|set_solver|]. intros (_ & Ht' & _). unfold now in Hf. cbn in Hf. lia. }
    intros Heq%Z.eqb_eq. apply wp_ret. constructor.
    + split; [apply (core_inv_service s v P); (done || lia)|done].
    + intros prot. apply frame_service. lia.
    + done.
    + unfold now. st_simpl. lia.
    + split; [done|]. destruct Ho as [?|(_ & _ & [HP0|?])]; auto. right. left. apply set_eq. intros rid.
      rewrite i_pending0. split; [|set_solver]. intros (r & Hw). assert (Hs : P !! rid = Some (issue_ns r)) by (apply HP; eauto).
      rewrite HP0 in Hs. done.
Qed.

Context (Hobj : forall k o, dget objects k = Some o -> 0 < transfer_bytes o).

(** What [receive] keeps, over several rounds. *)
Definition waited (x : Z) (s s' : st S) : Prop :=
  inv_with x s' /\ (forall prot, frame prot s s') /\ dkeys (cache s') = dkeys (cache s).

Lemma waited_refl x s : inv_with x s -> waited x s s.
Proof. intros Hi. split; [done|]. split; [|done]. intros prot. apply frame_refl. Qed.

Lemma waited_trans x s1 s2 s3 : waited x s1 s2 -> waited x s2 s3 -> waited x s1 s3.
Proof.
  intros (_ & F1 & K1) (I2 & F2 & K2). split; [done|]. split; [|congruence]. intros prot. by eapply frame_trans.
Qed.

Lemma advance_wp s h : inv s -> loose C \/ now s <= h ->
  wp (advance h) (fun _ s' => waited 0 s s' /\ now s' = h) s.
Proof.
  intros Hi Hh. unfold advance. apply wp_bind, wp_require; [intros _; apply ct_overflow|]. intros Hm%Z.leb_le.
  apply wp_bind, wp_get.
  apply (wp_loop (fun s' => waited 0 s s' /\ (loose C \/ now s' <= h)) (fun s' => size (pending s'))); [|by auto using waited_refl|lia].
  intros s1 [Hw Hn]. apply wp_bind. eapply wp_mono; [apply (receive_wp 0); [apply Hw|destruct Hn; [auto|right; lia]]|].
  intros c s2 [Hi2 Hf2 Hk2 Hh2 Ho]. apply wp_ret. assert (Hw2 : waited 0 s1 s2) by done.
  destruct c; [|split; [by eapply waited_trans|apply Ho]]. split; [|done]. split; [by eapply waited_trans|auto].
Qed.

Lemma wait_one_wp x s : inv_with x s -> pending s <> ∅ ->
  wp wait_one (fun _ s' => waited x s s' /\ (size (pending s') < size (pending s))%nat) s.
Proof.
  intros Hi Hp. unfold wait_one. apply wp_bind, wp_get, wp_bind, wp_require.
  { rewrite bool_decide_eq_false_2 by done. done. }
  intros _. apply wp_bind. eapply wp_mono.
  { apply (receive_wp x); [done|]. destruct (i_range _ (proj1 Hi)); [auto|right; lia]. }
  intros c s' [Hi' Hf Hk Hh Ho]. apply wp_require.
  - destruct c; [done|]. intros _. destruct Ho as [_ [?|[?|?]]]; [|done|done]. apply ct_loose; [done|set_solver].
  - destruct c; [|done]. intros _. done.
Qed.

(** ** Reserving space *)

Lemma core_inv_cache s c : core_inv s -> NoDup (dkeys c) -> Forall known (dkeys c) ->
  (forall k e, dget c k = Some e -> dget (cache s) k = Some e) ->
  (forall k e, dget (cache s) k = Some e -> e_ready e = None -> dget c k = Some e) -> core_inv (set_cache c s).
Proof. intros [] Hn Hk H1 H2. constructor; try done; cbn; eauto. Qed.

Lemma core_inv_ext s s' : core_inv s -> service s' = service s -> cache s' = cache s -> requests s' = requests s ->
  history s' = history s -> pending s' = pending s -> core_inv s'.
Proof.
  destruct s, s'. cbn. intros [] -> -> -> -> ->. constructor; done.
Qed.

Lemma inv_move x s k e : inv_with x s -> dget (cache s) k = Some e ->
  inv_with x (set_cache (ddel (cache s) k ++ [(k, e)]) s).
Proof.
  intros (Hc & Hu & Hb & Hp) He. pose proof (ddel_perm _ _ _ He) as Hperm. pose proof (i_nodup _ Hc) as Hnd.
  assert (Hp' : cache s ≡ₚ ddel (cache s) k ++ [(k, e)]) by (rewrite <- Permutation_cons_append; exact Hperm).
  assert (Hks : dkeys (cache s) ≡ₚ dkeys (ddel (cache s) k ++ [(k, e)])) by (unfold dkeys; by rewrite <- Hp').
  split; [|by st_simpl; rewrite <- Hks]. apply core_inv_cache; [done| | | |].
  - by rewrite <- Hks.
  - rewrite <- Hks. apply Hc.
  - intros k' e' Hk'. rewrite (dget_perm _ _ k' Hnd Hp'). done.
  - intros k' e' Hk' _. rewrite <- (dget_perm _ _ k' Hnd Hp'). done.
Qed.

Lemma evict_wp s k e : inv s -> dget (cache s) k = Some e -> e_ready e <> None ->
  wp (evict k) (fun _ s' => inv s' /\ (forall prot, k ∉ prot -> frame prot s s') /\ service s' = service s /\
    pending s' = pending s /\ dkeys (cache s) ≡ₚ k :: dkeys (cache s')) s.
Proof using Hobj.
  intros (Hc & Hu & Hb & Hp) He Hr. pose proof (ddel_perm _ _ _ He) as Hperm. pose proof (i_nodup _ Hc) as Hnd.
  assert (Hks : dkeys (cache s) ≡ₚ k :: dkeys (ddel (cache s) k)) by exact (fmap_Permutation fst _ _ Hperm).
  assert (Hknown : Forall known (k :: dkeys (ddel (cache s) k))) by (rewrite <- Hks; apply Hc).
  apply Forall_cons in Hknown as [[o Ho] Hkn].
  assert (Hsum : zsum (sz <$> dkeys (cache s)) = sz k + zsum (sz <$> dkeys (ddel (cache s) k))) by (by rewrite Hks).
  assert (Hsz : sz k = transfer_bytes o) by (unfold sz; by rewrite Ho).
  assert (Hpos : 0 < sz k) by (rewrite Hsz; eauto).
  pose proof (dget_ddel (cache s) k) as Hget.
  set (s1 := set_used (used s - transfer_bytes o) (set_cache (ddel (cache s) k) s)).
  assert (Hi1 : inv s1).
  { split; [|unfold s1; st_simpl; lia]. apply (core_inv_ext (set_cache (ddel (cache s) k) s)); [|done..]. apply core_inv_cache; [done| |done| |].
    - rewrite Hks in Hnd. by apply NoDup_cons in Hnd as [_ ?].
    - intros k' e'. rewrite Hget by done. by case_decide.
    - intros k' e' Hk' Hn. rewrite Hget by done. case_decide; [|done]. subst. congruence. }
  set (s2 := add_eviction {| ev_expert := k; ev_time_ns := now s1; ev_request_id := e_request e |} s1).
  assert (Hi2 : inv s2) by (destruct Hi1; split; [by apply (core_inv_ext s1)|done]).
  assert (Hf2 : forall prot, k ∉ prot -> frame prot s s2).
  { intros prot Hk. constructor; st_simpl; [done|done| |intros i r Hir; by exists r]. intros k' e' Hk' He'. exists e'.
    rewrite Hget by done. rewrite decide_False by congruence. done. }
  unfold evict. apply wp_bind. unfold entry_of. apply wp_bind, wp_get.
  eapply wp_lift; [by apply dindex_Ok|]. apply wp_bind, wp_modify, wp_bind.
  eapply wp_lift; [unfold transfer; rewrite (proj2 (dindex_Ok _ _ _) Ho); done|].
  apply wp_bind, wp_modify, wp_bind, wp_modify. fold s1 s2.
  pose proof (i_entries _ Hc _ _ He) as Hent. unfold entry_ok in Hent.
  destruct (e_request e) as [rid|] eqn:Er; [|by apply wp_ret].
  destruct Hent as (i & r & -> & Hi & Hx & Hready). destruct (ready_ns r) as [a|] eqn:Ea; [|congruence].
  apply wp_bind, wp_get, (update_row _ _ r); [done|].
  assert (Hrow : row_ok (now s2) i r) by (by apply Hc).
  split; [|split; [|done]].
  - apply inv_with_rows; [done|by apply same_keys_insert|]. apply rows_insert_ok; [apply Hi2|]. by eapply row_ok_evicted.
  - intros prot Hk. eapply frame_trans; [by apply Hf2|]. by apply frame_rows.
Qed.

Lemma sz_nonneg k : 0 <= sz k.
Proof using Hobj. unfold sz. destruct (dget objects k) eqn:E; [|lia]. pose proof (Hobj _ _ E). lia. Qed.

Lemma zsum_sz_nonneg l : 0 <= zsum (sz <$> l).
Proof using Hobj. apply zsum_nonneg, Forall_fmap, Forall_true. intros k. apply sz_nonneg. Qed.

(** Distinct protected experts fit with a protected one that is missing. *)
Lemma protected_fit (l prot : list key) k : NoDup l -> (forall k', k' ∈ l -> k' ∈ prot) -> k ∈ prot -> k ∉ l ->
  zsum (sz <$> l) + sz k <= zsum (sz <$> prot).
Proof using Hobj.
  intros Hnd Hs Hk Hn. assert (Hsub : k :: l ⊆+ prot).
  { apply NoDup_submseteq; [by apply NoDup_cons|]. intros k' [->|?]%elem_of_cons; auto. }
  apply submseteq_Permutation in Hsub as [rest ->]. rewrite fmap_app, zsum_app. pose proof (zsum_sz_nonneg rest).
  change (zsum (sz <$> k :: l)) with (sz k + zsum (sz <$> l)). lia.
Qed.

Lemma transfers_known l : Forall known l -> transfers objects l = Ok (zsum (sz <$> l)).
Proof.
  intros Hl. unfold transfers. enough (mapR (transfer objects) l = Ok (sz <$> l)) as -> by done.
  apply mapR_Ok. induction Hl as [|k l [o Ho] Hl IH]; csimpl; constructor; [|done].
  unfold transfer, sz. rewrite (proj2 (dindex_Ok _ _ _) Ho), Ho. done.
Qed.

Lemma reclaimable_elem prot d k : NoDup (dkeys d) -> k ∈ reclaimable prot d ->
  exists e, dget d k = Some e /\ e_ready e <> None /\ k ∉ prot.
Proof.
  intros Hnd ([k' e] & -> & [[H1 H2] Hin]%list_elem_of_filter)%list_elem_of_fmap. exists e. split; [by apply dget_elem|done].
Qed.

Lemma reclaimable_nil prot d k e : reclaimable prot d = [] -> dget d k = Some e -> e_ready e <> None -> k ∈ prot.
Proof.
  intros Hn Hd He. destruct (decide (k ∈ prot)); [done|]. exfalso. apply dget_Some_elem in Hd.
  assert (Hin : k ∈ reclaimable prot d); [|by rewrite Hn in Hin; set_solver]. apply list_elem_of_fmap. exists (k, e). split; [done|].
  by apply list_elem_of_filter.
Qed.

(** A set of experts that fits in the cache together. *)
Definition fits (prot : list key) : Prop := NoDup prot /\ Forall known prot /\ zsum (sz <$> prot) <= capacity_bytes.

Section reserve.
Context (s0 : st S) (k : key) (prot : list key) (spec : bool).
Context (Hk : known k) (Hprot : spec = false -> k ∈ prot /\ fits prot).

Definition reserving (s : st S) : Prop :=
  frame prot s0 s /\ k ∉ dkeys (cache s) /\ (spec = true -> service s = service s0).

Lemma reserve_round_wp s : inv s -> reserving s ->
  wp (reserve_round (sz k) prot spec) (fun r s' => reserving s' /\
    match r with
    | Some true => inv_with (sz k) s'
    | Some false => inv s' /\ spec = true
    | None => inv s' /\ (length (cache s') + size (pending s') < length (cache s) + size (pending s))%nat
    end) s.
Proof using Hprot Hobj Hk.
  intros Hi Hres. pose proof Hres as (Hf & Hn & Hs). pose proof Hi as (Hc & Hu & Hb & Hp). unfold reserve_round. apply wp_bind, wp_get.
  destruct (Z.leb_spec (used s + sz k) capacity_bytes) as [Hfit|Hfull].
  { apply wp_bind, wp_put, wp_ret. split.
    - split; [|done]. eapply frame_trans; [exact Hf|]. by apply frame_same.
    - split; [by apply (core_inv_ext s)|]. st_simpl. lia. }
  destruct (reclaimable prot (cache s)) as [|v rest] eqn:Er.
  - destruct (spec) eqn:Es; [by apply wp_ret|]. destruct Hprot as (Hkp & Hnd & _ & Hcap); [done|].
    assert (Hpend : pending s <> ∅).
    { intros H0. enough (zsum (sz <$> dkeys (cache s)) + sz k <= zsum (sz <$> prot)) by lia.
      apply protected_fit; [apply Hc| |done|done]. intros k' [e He]%dget_is_Some. eapply reclaimable_nil; [done..|].
      pose proof (i_entries _ Hc _ _ He) as Hent. unfold entry_ok in Hent. destruct (e_request e) as [rid|]; [|done].
      destruct Hent as (i & r & -> & Hir & _ & ->). intros Hnone. assert (Z.of_nat i + 1 ∈ pending s); [|set_solver].
      apply (i_pending _ Hc). exists r, i. done. }
    apply wp_bind. eapply wp_mono; [by apply (wait_one_wp 0)|]. intros _ s' ((Hi' & Hf' & Hks) & Hsz). apply wp_ret. split.
    + split; [by eapply frame_trans|]. split; [by rewrite Hks|congruence].
    + split; [done|]. enough (length (cache s') = length (cache s)) by lia.
      apply (f_equal length) in Hks. unfold dkeys in Hks. by rewrite !length_fmap in Hks.
  - assert (Hv : v ∈ reclaimable prot (cache s)) by (rewrite Er; set_solver).
    apply reclaimable_elem in Hv as (e & He & Hr & Hvp); [|apply Hc].
    apply wp_bind. eapply wp_mono; [by eapply evict_wp|]. intros _ s' (Hi' & Hf' & Hsv & Hpe & Hks). apply wp_ret. split.
    + split; [eapply frame_trans; [exact Hf|by apply Hf']|]. split; [|intros; rewrite Hsv; auto].
      intros Hin. apply Hn. rewrite Hks. set_solver.
    + split; [done|]. rewrite Hpe. apply Permutation_length in Hks. unfold dkeys in Hks. cbn in Hks.
      rewrite !length_fmap in Hks. lia.
Qed.

Lemma reserve_wp : inv s0 -> k ∉ dkeys (cache s0) ->
  wp (reserve k prot spec) (fun b s' => reserving s' /\
    if b then inv_with (sz k) s' else inv s' /\ spec = true) s0.
Proof using Hprot Hobj Hk.
  intros Hi Hn. assert (Hr0 : reserving s0) by (split; [apply frame_refl|done]).
  unfold reserve. apply wp_bind. eapply (wp_lift _ (sz k)).
  { destruct Hk as [o Ho]. unfold transfer, sz. by rewrite (proj2 (dindex_Ok _ _ _) Ho), Ho. }
  apply wp_bind, wp_get, wp_bind.
  apply (wp_mono _ (fun room s' => s' = s0 /\ (room = false -> spec = true))).
  { destruct spec; [|by apply wp_ret]. apply wp_bind. eapply wp_lift; [|by apply wp_ret]. apply transfers_known.
    rewrite Forall_forall. intros k' (e & He & _)%reclaimable_elem; [|apply Hi].
    pose proof (i_known _ (proj1 Hi)) as Hkn. rewrite Forall_forall in Hkn. apply Hkn, dget_is_Some. eauto. }
  intros room s1 [-> Hroom]. destruct room; cbn [negb]; [|apply wp_ret; auto].
  apply (wp_loop (fun s' => inv s' /\ reserving s') (fun s' => length (cache s') + size (pending s'))%nat); [|done|lia].
  intros s1 [Hi1 Hr1]. eapply wp_mono; [by apply reserve_round_wp|]. intros [[]|] s2 (Hr2 & H2); [done..|]. destruct H2. done.
Qed.
End reserve.

(** ** Issuing a read *)

Definition basis_ok (t : Z) (o : origin_kind) (b : option basis) : Prop :=
  match b with
  | None => o = Demand
  | Some b => o = Prefetch /\ observations b <> [] /\ basis_visible_at_ns b <= t /\
      Forall (fun x => visible_at_ns x.2 <= basis_visible_at_ns b) (observations b)
  end.

Definition new_row (t : Z) (rows : list row) (k : key) (o : origin_kind) (b : option basis) (obj : object) : row :=
  {| request_id := Z.of_nat (length rows) + 1; expert := k; origin := o; issue_ns := t; ready_ns := None;
     first_demand_ns := None; consume_ns := None; eviction_ns := None; prediction_basis := b;
     r_bytes := transfer_bytes obj; expert_payload_bytes := o_bytes obj; logical_address := o_address obj;
     classification := None; ready_at_horizon_ns := None |}.

Definition issued (v : S) (k : key) (r : row) (s : st S) : st S :=
  set_cache (dset (cache s) k {| e_request := Some (Z.of_nat (length (requests s)) + 1); e_ready := None |})
    (set_pending ({[Z.of_nat (length (requests s)) + 1]} ∪ pending s)
      (set_requests (requests s ++ [r]) (set_service v s))).

Lemma waiting_snoc rows r rid r' : ready_ns r = None ->
  waiting (rows ++ [r]) rid r' <-> waiting rows rid r' \/ rid = Z.of_nat (length rows) + 1 /\ r' = r.
Proof.
  intros Hr. split.
  - intros (i & -> & Hi & Hn). apply lookup_snoc_Some in Hi as [[Hlt Hi]|[-> ->]]; [|by right]. left. by exists i.
  - intros [(i & -> & Hi & Hn)|[-> ->]].
    + exists i. split; [done|]. split; [|done]. by apply lookup_app_l_Some.
    + exists (length rows). split; [done|]. split; [|done]. by apply list_lookup_middle.
Qed.

Lemma core_inv_issued s v k o b obj P : core_inv s -> dget objects k = Some obj -> k ∉ dkeys (cache s) ->
  basis_ok (now s) o b -> clock (service s) <= clock v -> (loose C \/ clock v = clock (service s)) ->
  outstanding (requests s) P -> link C v (<[Z.of_nat (length (requests s)) + 1 := now s]> P) ->
  core_inv (issued v k (new_row (now s) (requests s) k o b obj) s).
Proof.
  intros Hc Ho Hk Hb Hv Hx HP Hl. pose proof Hc as []. unfold outstanding in HP.
  set (r := new_row (now s) (requests s) k o b obj). assert (Hrn : ready_ns r = None) by done.
  assert (Hks : dset (cache s) k {| e_request := Some (Z.of_nat (length (requests s)) + 1); e_ready := None |} =
    cache s ++ [(k, {| e_request := Some (Z.of_nat (length (requests s)) + 1); e_ready := None |})]) by (by apply dkeys_dset_notin).
  assert (Hnw : forall r', ~ waiting (requests s) (Z.of_nat (length (requests s)) + 1) r').
  { intros r' (i & Hi & Hlt%lookup_lt_Some & _). lia. }
  constructor; unfold issued; st_simpl.
  - by apply NoDup_dkeys_dset.
  - rewrite Hks. unfold dkeys. rewrite fmap_app. apply Forall_app. split; [done|]. constructor; [by exists obj|constructor].
  - intros i r' [[_ Hi]|[-> <-]]%lookup_snoc_Some.
    + eapply row_ok_mono; [by apply i_rows0|done].
    + constructor; try done. by exists obj.
  - intros k' e. rewrite dget_dset. case_decide as E.
    + intros [= <-]. subst k'. exists (length (requests s)), r. split; [done|]. split; [by apply list_lookup_middle|done].
    + intros He. specialize (i_entries0 _ _ He). unfold entry_ok in *. destruct (e_request e); [|done].
      destruct i_entries0 as (i & r' & -> & Hi & ? & ?). exists i, r'. split; [done|]. split; [|done]. by apply lookup_app_l_Some.
  - intros rid. setoid_rewrite (waiting_snoc _ _ _ _ Hrn). rewrite elem_of_union, elem_of_singleton, i_pending0. naive_solver.
  - intros rid r' [Hw|[-> ->]]%(waiting_snoc _ _ _ _ Hrn); [|apply dget_dset_eq]. pose proof (i_inflight0 _ _ Hw) as He.
    rewrite dget_dset_ne; [done|]. intros ->. apply Hk, dget_is_Some. eauto.
  - eexists. split; [exact Hl|]. intros rid t. setoid_rewrite (waiting_snoc _ _ _ _ Hrn).
    rewrite lookup_insert_Some, HP. naive_solver.
  - intros m l o' Ho'. destruct (i_history0 m l o' Ho'). split; [|done]. unfold now in *. cbn in *. lia.
  - unfold now in *. cbn in *. destruct Hx as [?| ->]; auto.
Qed.

Lemma zsum_sz_snoc l k : zsum (sz <$> l ++ [k]) = zsum (sz <$> l) + sz k.
Proof. rewrite fmap_app, zsum_app. f_equal. change (sz k + 0 = sz k). lia. Qed.

Lemma issue_wp s k o prot b : inv s -> known k -> basis_ok (now s) o b -> (o = Demand -> k ∈ prot /\ fits prot) ->
  wp (issue k o prot b) (fun ok s' => inv s' /\ frame prot s s' /\
    (o = Demand -> k ∈ dkeys (cache s')) /\ (o = Prefetch -> loose C \/ now s' = now s)) s.
Proof using Hobj.
  intros Hi Hk Hb Hprot. unfold issue. apply wp_bind, wp_get.
  destruct (dmem (cache s) k) eqn:Em.
  { apply wp_ret. split; [done|]. split; [apply frame_refl|]. split; [|auto]. intros _. apply dget_is_Some. unfold dmem in Em.
    by destruct (dget (cache s) k). }
  assert (Hn : k ∉ dkeys (cache s)) by (apply dget_None; unfold dmem in Em; by destruct (dget (cache s) k)).
  apply wp_bind. eapply wp_mono.
  { apply (reserve_wp s k prot (bool_decide (o = Prefetch))); [done| |done|done].
    intros Hd%bool_decide_eq_false. apply Hprot. by destruct o. }
  intros ok s1 ((Hf & Hn1 & Hsv) & H1).
  destruct ok; cbn [negb].
  2:{ apply wp_ret. destruct H1 as [Hi1 Ho]. split; [done|]. split; [done|].
    apply bool_decide_eq_true in Ho as Ho'. split; [congruence|]. intros _. right. unfold now. by rewrite Hsv. }
  apply wp_bind, wp_get, wp_bind. destruct Hk as [obj Hobj1]. eapply wp_lift; [by apply dindex_Ok|].
  destruct H1 as (Hc & Hu & Hcap & Hp). destruct (i_link _ Hc) as (P & Hl & HP).
  apply wp_bind. unfold wp at 1, call.
  assert (Hfresh : P !! (Z.of_nat (length (requests s1)) + 1) = None).
  { apply eq_None_not_Some. intros [t (r & (i & Hi' & Hlt%lookup_lt_Some & _) & _)%HP]. lia. }
  pose proof (ct_submit C (service s1) P {| s_request_id := Z.of_nat (length (requests s1)) + 1; s_issue_ns := now s1;
    s_address := o_address obj; s_bytes := transfer_bytes obj |} Hl) as Hct.
  specialize (Hct ltac:(right; done)). destruct (submit _ _) as [[[]|e] v]; [|done]. cbn in Hct. destruct Hct as (Hv & Hx & Hl').
  do 4 (apply wp_bind, wp_modify). apply wp_ret.
  assert (Hb1 : basis_ok (now s1) o b).
  { destruct b as [b|]; [|done]. destruct Hb as (? & ? & ? & ?). split; [done|]. split; [done|]. split; [|done].
    pose proof (f_now _ _ _ Hf). lia. }
  pose proof (core_inv_issued s1 v k o b obj P Hc Hobj1 Hn1 Hb1 Hv Hx HP Hl') as Hc2.
  assert (Hks : cache (issued v k (new_row (now s1) (requests s1) k o b obj) s1) =
    cache s1 ++ [(k, {| e_request := Some (Z.of_nat (length (requests s1)) + 1); e_ready := None |})]) by (by apply dkeys_dset_notin).
  assert (Hsum : zsum (sz <$> dkeys (cache (issued v k (new_row (now s1) (requests s1) k o b obj) s1))) = used s1).
  { rewrite Hks, Hu. unfold dkeys. rewrite fmap_app. apply zsum_sz_snoc. }
  set (s2 := issued v k (new_row (now s1) (requests s1) k o b obj) s1) in *.
  change (inv (set_peak (Z.max (peak s2) (used s2)) s2) /\ frame prot s (set_peak (Z.max (peak s2) (used s2)) s2) /\
    (o = Demand -> k ∈ dkeys (cache s2)) /\ (o = Prefetch -> loose C \/ now s2 = now s)).
  split; [|split; [|split]].
  - split; [by apply (core_inv_ext s2)|]. change (used s2) with (used s1). change (peak s2) with (peak s1).
    st_simpl. rewrite Hsum. change (used s2) with (used s1). lia.
  - eapply frame_trans; [exact Hf|]. constructor; [done|done| |].
    + intros k' e' _ He'. exists e'. split; [|done]. change (dget (cache s2) k' = Some e'). unfold s2, issued. st_simpl.
      rewrite dget_dset_ne; [done|]. intros ->. apply Hn1, dget_is_Some. eauto.
    + intros i r Hr. exists r. split; [|done]. change (requests s2 !! i = Some r). by apply lookup_app_l_Some.
  - intros _. rewrite Hks. unfold dkeys. rewrite fmap_app. set_solver.
  - intros ->. rewrite bool_decide_eq_true_2 in Hsv by done. destruct Hx as [?|Hx]; [by left|]. right.
    change (clock v = now s). rewrite Hx, Hsv by done. done.
Qed.

(** ** Serving one node *)

Lemma update_wp s i r f : inv s -> requests s !! i = Some r -> row_ok (now s) i (f r) ->
  expert (f r) = expert r -> issue_ns (f r) = issue_ns r -> ready_ns (f r) = ready_ns r ->
  later_row r (f r) ->
  wp (update (Z.of_nat i + 1) f) (fun _ s' => s' = set_requests (<[i := f r]> (requests s)) s /\
    inv s' /\ forall prot, frame prot s s') s.
Proof.
  intros Hi Hr Hok H1 H2 H3 H4. apply (update_row _ _ r); [done|]. split; [done|]. split; [|by intros; apply frame_rows].
  apply inv_with_rows; [done|by apply same_keys_insert|]. by apply rows_insert_ok; [apply Hi|].
Qed.

(** The demanded expert is reserved, and its read (if any) has its demand
    time. *)
Definition demanded (s : st S) (k : key) : Prop :=
  exists e, dget (cache s) k = Some e /\
    forall i, e_request e = Some (Z.of_nat i + 1) -> exists r d, requests s !! i = Some r /\ first_demand_ns r = Some d.
Definition ready_in (s : st S) (k : key) : Prop := exists e, dget (cache s) k = Some e /\ e_ready e <> None.

Lemma demanded_frame prot s s' k : frame prot s s' -> k ∈ prot -> demanded s k -> demanded s' k.
Proof.
  intros Hf Hk (e & He & Hd). destruct (f_keep _ _ _ Hf k e Hk He) as (e' & He' & Hr & _). exists e'. split; [done|].
  rewrite Hr. intros i Hi. destruct (Hd i Hi) as (r & d & Hir & Hrd). destruct (f_rows _ _ _ Hf i r Hir) as (r' & ? & _ & Hl).
  exists r', d. auto.
Qed.

Lemma ready_frame prot s s' k : frame prot s s' -> k ∈ prot -> ready_in s k -> ready_in s' k.
Proof.
  intros Hf Hk (e & He & Hr). destruct (f_keep _ _ _ Hf k e Hk He) as (e' & He' & _ & Hy). exists e'. split; [done|].
  by rewrite Hy.
Qed.

Lemma unready_pending s k e : core_inv s -> dget (cache s) k = Some e -> e_ready e = None -> pending s <> ∅.
Proof.
  intros Hc He Hn. pose proof (i_entries _ Hc _ _ He) as Hent. unfold entry_ok in Hent.
  destruct (e_request e) as [rid|]; [|done]. destruct Hent as (i & r & -> & Hir & _ & Hr).
  assert (Z.of_nat i + 1 ∈ pending s); [|set_solver]. apply (i_pending _ Hc). exists r, i. split; [done|]. split; [done|congruence].
Qed.

Lemma look_up_wp terminal s k : inv s -> known k ->
  wp (look_up terminal (now s) k) (fun _ s' => inv s' /\ service s' = service s /\ history s' = history s /\
    output_nodes s' = output_nodes s /\ hits s' + misses s' = hits s + misses s + 1) s.
Proof.
  intros Hi [o Ho]. unfold look_up. apply wp_bind, wp_get, wp_bind.
  eapply wp_lift; [unfold transfer; rewrite (proj2 (dindex_Ok _ _ _) Ho); done|]. apply wp_bind, wp_put.
  set (s1 := if e_is_ready _ then set_counts _ _ _ _ else _).
  assert (Hs1 : service s1 = service s /\ cache s1 = cache s /\ requests s1 = requests s /\ history s1 = history s /\
    pending s1 = pending s /\ used s1 = used s /\ peak s1 = peak s /\ output_nodes s1 = output_nodes s /\
    hits s1 + misses s1 = hits s + misses s + 1).
  { unfold s1. destruct (e_is_ready _); st_simpl; repeat split; lia. }
  destruct Hs1 as (E1 & E2 & E3 & E4 & E5 & E6 & E7 & E8 & E9).
  assert (Hi1 : inv s1).
  { destruct Hi as (Hc & Hrest). split; [by apply (core_inv_ext s)|]. rewrite E2, E6, E7. done. }
  apply wp_bind. apply (wp_mono _ (fun _ s' => inv s' /\ service s' = service s /\ history s' = history s /\
    output_nodes s' = output_nodes s /\ hits s' + misses s' = hits s + misses s + 1)); [|intros _ s' H; by apply wp_ret].
  destruct (dget (cache s) k) as [[[rid|] er]|] eqn:Ek; [|by apply wp_ret..].
  pose proof (i_entries _ (proj1 Hi) _ _ Ek) as (i & r & -> & Hir & _ & _).
  eapply wp_mono.
  { apply (update_wp s1 i r); [done|by rewrite E3| |done..|].
    - apply row_ok_first; [apply Hi1; by rewrite E3|]. unfold now. by rewrite E1.
    - split; [done|]. cbn. by intros d ->. }
  intros _ s' (-> & Hi' & _). split; [done|]. st_simpl. done.
Qed.

(** Waiting for entries to become ready. *)
Lemma wait_ready_wp s k : inv s -> k ∈ dkeys (cache s) -> wp (wait_ready k) (fun _ s' => waited 0 s s') s.
Proof.
  intros Hi Hk. unfold wait_ready. apply wp_bind, wp_get.
  apply (wp_loop (waited 0 s) (fun s' => size (pending s'))); [|by apply waited_refl|lia].
  intros s1 Hw. pose proof Hw as (Hi1 & _ & Hks). rewrite <- Hks in Hk. apply dget_is_Some in Hk as [e He].
  apply wp_bind. unfold entry_of. apply wp_bind, wp_get. eapply wp_lift; [by apply dindex_Ok|].
  destruct (e_ready e) eqn:Er; [by apply wp_ret|]. apply wp_bind.
  eapply wp_mono; [apply (wait_one_wp 0); [done|by eapply unready_pending; [apply Hi1|..]]|].
  intros _ s2 [Hw2 Hlt]. apply wp_ret. split; [by eapply waited_trans|done].
Qed.

Lemma any_unready_spec d keys : (forall k, k ∈ keys -> k ∈ dkeys d) ->
  exists b, any_unready d keys = Ok b /\
    if b then exists k e, dget d k = Some e /\ e_ready e = None
    else forall k, k ∈ keys -> exists e, dget d k = Some e /\ e_ready e <> None.
Proof.
  induction keys as [|k keys IH]; intros Hk; cbn [any_unready]; [exists false; set_solver|].
  destruct (proj2 (dget_is_Some d k)) as [e He]; [apply Hk; set_solver|]. rewrite (proj2 (dindex_Ok _ _ _) He). cbn [rbind].
  destruct (e_ready e) eqn:Er; [|exists true; split; [done|]; by exists k, e].
  destruct IH as (b & -> & Hb); [set_solver|]. exists b. split; [done|]. destruct b; [done|].
  intros k' [->|Hin]%elem_of_cons; [|auto]. exists e. split; [done|congruence].
Qed.

Lemma wait_all_wp s keys : inv s -> (forall k, k ∈ keys -> k ∈ dkeys (cache s)) ->
  wp (wait_all keys) (fun _ s' => waited 0 s s' /\ forall k, k ∈ keys -> ready_in s' k) s.
Proof.
  intros Hi Hk. unfold wait_all. apply wp_bind, wp_get.
  apply (wp_loop (waited 0 s) (fun s' => size (pending s'))); [|by apply waited_refl|lia].
  intros s1 Hw. pose proof Hw as (Hi1 & _ & Hks). apply wp_bind, wp_get, wp_bind.
  destruct (any_unready_spec (cache s1) keys) as (b & Hb & Hc); [by rewrite Hks|]. eapply wp_lift; [done|].
  destruct b; [|by apply wp_ret]. destruct Hc as (k & e & He & Hr). apply wp_bind.
  eapply wp_mono; [apply (wait_one_wp 0); [done|by eapply unready_pending; [apply Hi1|..]]|].
  intros _ s2 [Hw2 Hlt]. apply wp_ret. split; [by eapply waited_trans|done].
Qed.

Lemma demand_one_wp policy visible s prot k : inv s -> fits prot -> k ∈ prot -> visible <= now s ->
  wp (demand_one policy visible prot k) (fun _ s' => inv s' /\ frame prot s s' /\ demanded s' k) s.
Proof using Hobj.
  intros Hi Hfit Hk Hv. pose proof Hfit as (_ & Hkn & _). rewrite Forall_forall in Hkn.
  unfold demand_one. apply wp_bind. eapply wp_mono; [by apply (issue_wp s k Demand prot None); auto|].
  intros _ s1 (Hi1 & Hf1 & Hin & _). specialize (Hin eq_refl). apply dget_is_Some in Hin as [e He].
  apply wp_bind. apply (wp_mono _ (fun _ s' => inv s' /\ frame prot s s' /\ demanded s' k)).
  - unfold touch_first. apply wp_bind. unfold entry_of. apply wp_bind, wp_get. eapply wp_lift; [by apply dindex_Ok|].
    pose proof (i_entries _ (proj1 Hi1) _ _ He) as Hent. unfold entry_ok in Hent.
    destruct (e_request e) as [rid|] eqn:Er; [|apply wp_ret; split; [done|]; split; [done|]; exists e; split; [done|congruence]].
    destruct Hent as (i & r & -> & Hir & _ & _). eapply wp_mono.
    { apply (update_wp s1 i r); [done|done| |done..|].
      - apply row_ok_first; [by apply Hi1|]. pose proof (f_now _ _ _ Hf1). lia.
      - split; [done|]. cbn. by intros d ->. }
    intros _ s2 (-> & Hi2 & Hf2). split; [done|]. split; [by eapply frame_trans|]. exists e. split; [done|].
    rewrite Er. intros j [= Hj]. assert (j = i) as -> by lia. st_simpl.
    rewrite list_lookup_insert_eq by (by eapply lookup_lt_Some). exists (set_first visible r).
    st_simpl. destruct (first_demand_ns r); eauto.
  - intros _ s2 (Hi2 & Hf2 & Hd2). destruct (String.eqb policy "none"); [|by apply wp_ret].
    eapply wp_mono; [apply wait_ready_wp; [done|]; apply dget_is_Some; destruct Hd2 as (e' & ? & _); eauto|].
    intros _ s3 (Hi3 & Hf3 & _). split; [done|]. split; [by eapply frame_trans|]. by eapply demanded_frame.
Qed.

Lemma consume_one_wp s prot k : inv s -> k ∈ prot -> demanded s k -> ready_in s k ->
  wp (consume_one (now s) k) (fun _ s' => inv s' /\ frame prot s s' /\ service s' = service s) s.
Proof.
  intros Hi Hk (e & He & Hd) (e' & He' & Hr). rewrite He in He'. injection He' as <-.
  unfold consume_one. apply wp_bind, wp_get, wp_bind.
  eapply wp_lift; [unfold move_to_end; rewrite (proj2 (dindex_Ok _ _ _) He); done|]. apply wp_bind, wp_put.
  pose proof (inv_move 0 s k e Hi He) as Hi1. set (s1 := set_cache _ s) in *.
  assert (Hget : forall k', dget (cache s1) k' = dget (cache s) k').
  { intros k'. symmetry. apply dget_perm; [apply Hi|]. unfold s1. st_simpl. rewrite <- Permutation_cons_append. by apply ddel_perm. }
  assert (Hf1 : frame prot s s1).
  { by apply frame_same. }
  apply wp_bind. unfold entry_of. apply wp_bind, wp_get. eapply wp_lift; [apply dindex_Ok; by rewrite Hget|].
  pose proof (i_entries _ (proj1 Hi) _ _ He) as Hent. unfold entry_ok in Hent.
  destruct (e_request e) as [rid|] eqn:Er; [|by apply wp_ret]. destruct Hent as (i & r & -> & Hir & _ & Hready).
  destruct (Hd i eq_refl) as (r' & d & Hr' & Hfd). rewrite Hir in Hr'. injection Hr' as <-.
  destruct (ready_ns r) as [a|] eqn:Ea; [|congruence]. pose proof (i_rows _ (proj1 Hi) i r Hir) as Hrow.
  eapply wp_mono.
  { apply (update_wp s1 i r); [done|done| |done..]. apply (row_ok_consume _ _ _ (now s) a d); [done|done|done| |done|].
    - by apply (ro_ready _ _ _ Hrow).
    - by apply (ro_first _ _ _ Hrow). }
  intros _ s2 (-> & Hi2 & Hf2). split; [done|]. split; [by eapply frame_trans|done].
Qed.

(** ** Predictions *)

(** A prediction names an expert of the inventory and rests on routes that
    were visible at time [t]. *)
Definition prediction_ok (t : Z) (x : key * list (string * observation)) : Prop :=
  known x.1 /\ x.2 <> [] /\ Forall (fun y => visible_at_ns y.2 <= t) x.2.

Lemma append_to_ok t d k x : Forall (prediction_ok t) d -> known k -> visible_at_ns x.2 <= t ->
  Forall (prediction_ok t) (append_to d k x).
Proof.
  intros Hd Hk Hx. unfold append_to. assert (Hv : Forall (fun y => visible_at_ns y.2 <= t) (dget_or d k [] ++ [x])).
  { apply Forall_app. split; [|by repeat constructor]. unfold dget_or. destruct (dget d k) as [l|] eqn:E; [|constructor].
    rewrite Forall_forall in Hd. by apply (Hd (k, l)), dget_Some_elem. }
  revert Hv. generalize (dget_or d k []) as l. intros l Hv.
  induction Hd as [|[k' l'] d H1 Hd IH]; csimpl; [repeat constructor; [done|by destruct l|done]|].
  case_decide; constructor; [|done..|done]. split; [done|]. split; [by destruct l|done].
Qed.

Lemma predict_ok t h target names : history_ok t h -> Forall (prediction_ok t) (predict h target names).
Proof.
  intros Hh. unfold predict. generalize (isort sle names) as ms.
  enough (H : forall ms acc, Forall (prediction_ok t) acc -> Forall (prediction_ok t) (foldl _ acc ms))
    by (intros ms; apply H; constructor).
  induction ms as [|m ms IH]; intros acc Hacc; [done|]. cbn [foldl]. apply IH. destruct (dget h (m, target)) as [o|] eqn:E; [|done].
  destruct (Hh m target o E) as [Hv Hk]. revert acc Hacc.
  assert (Hk' : Forall (fun e => known (target, e)) (isort zle (ob_experts o))) by (by rewrite isort_perm).
  induction Hk' as [|e es He Hes IHe]; intros acc Hacc; [done|]. cbn [foldl]. apply IHe. by apply append_to_ok.
Qed.

Lemma prefetch_one_wp s prot x : inv s -> prediction_ok (now s) x ->
  wp (prefetch_one prot x) (fun _ s' => inv s' /\ frame prot s s' /\ (loose C \/ now s' = now s)) s.
Proof using Hobj.
  destruct x as [k ev]. intros Hi (Hk & Hne & Hv). cbn in *. unfold prefetch_one. apply wp_bind.
  pose proof (zmax_list_spec ((fun '(_, o) => visible_at_ns o) <$> ev)) as Hm.
  destruct (zmax_list _) as [m|]; [|by apply fmap_nil_inv in Hm]. destruct Hm as [Hin Hmax].
  eapply wp_lift; [done|]. apply wp_bind. rewrite Forall_forall in Hv. eapply wp_mono.
  { apply (issue_wp s k Prefetch prot); [done|done| |done]. split; [done|]. split; [done|]. split.
    - apply list_elem_of_fmap in Hin as ([n o] & -> & Ho). by apply (Hv (n, o)).
    - rewrite Forall_forall. intros [n o] Ho. cbn. apply Hmax. apply list_elem_of_fmap. by exists (n, o). }
  intros ok s1 (Hi1 & Hf1 & _ & Hn1). destruct ok; [apply wp_ret; auto|]. apply wp_modify.
  split; [destruct Hi1; split; [by apply (core_inv_ext s1)|done]|]. split; [|by apply Hn1].
  eapply frame_trans; [done|]. by apply frame_same.
Qed.

(** ** A whole node *)

Definition visible_of (o : out_node) : Z :=
  match o with Computed _ _ _ v _ _ _ _ | Observed _ _ _ v _ _ _ _ _ _ | Unserved _ _ _ v _ _ _ _ _ => v end.
Definition end_of (o : out_node) : Z :=
  match o with Computed _ _ _ _ _ e _ _ | Observed _ _ _ _ _ e _ _ _ _ => e | Unserved _ _ _ v _ _ _ _ _ => v end.

(** The row of the report for a node: what it demanded, how long it waited and
    when it ended. *)
Definition out_ok (route_horizon : bool) (count : nat) (x : nat * node) (o : out_node) : Prop :=
  let terminal := route_horizon && Nat.eqb x.1 (count - 1) in
  match o with
  | Computed st l a v cs ce r d =>
      route_horizon = false /\ st = n_step x.2 /\ l = n_layer x.2 /\ a = length (members x.2) /\ d = demand_of x.2 /\
      v <= cs /\ r = cs - v /\ exists g, gap_of route_horizon x.2 = Ok g /\ ce = cs + g
  | Observed st l a v cs ce g r d looked =>
      route_horizon = true /\ terminal = false /\ st = n_step x.2 /\ l = n_layer x.2 /\ a = length (members x.2) /\
      d = demand_of x.2 /\ v <= cs /\ r = cs - v /\ gap_of route_horizon x.2 = Ok g /\ ce = cs + g
  | Unserved st l a v d looked unserved not_ready cand =>
      terminal = true /\ st = n_step x.2 /\ l = n_layer x.2 /\ a = length (members x.2) /\ d = demand_of x.2
  end.

(** Each node becomes visible when the previous one ends. *)
Fixpoint timeline (t : Z) (outs : list out_node) (t' : Z) : Prop :=
  match outs with [] => t = t' | o :: outs' => visible_of o = t /\ timeline (end_of o) outs' t' end.

Lemma timeline_snoc t outs t' o : timeline t outs t' -> visible_of o = t' -> timeline t (outs ++ [o]) (end_of o).
Proof. revert t. induction outs as [|o' outs IH]; intros t; cbn; [intros <- ?; done|]. intros [? ?] ?. auto. Qed.

Record node_ok (route_horizon terminal : bool) (n : node) : Prop := {
  no_fits : fits (demand_of n);
  no_members : forall m ids, (m, ids) ∈ members n -> Forall (fun e => known (n_layer n, e)) ids;
  no_gap : terminal = false -> exists g, gap_of route_horizon n = Ok g /\ 0 <= g }.

Lemma add_node_inv s o : inv s -> inv (add_node o s).
Proof. intros [Hc ?]. split; [by apply (core_inv_ext s)|done]. Qed.

(** The demand of a node is issued and awaited. *)
Lemma demand_phase_wp policy s demand : inv s -> fits demand ->
  wp (let! _ := forM demand (demand_one policy (now s) demand) in wait_all demand)
    (fun _ s' => inv s' /\ frame demand s s' /\ forall k, k ∈ demand -> demanded s' k /\ ready_in s' k) s.
Proof using Hobj.
  intros Hi Hfit. apply wp_bind. eapply wp_mono.
  { apply (wp_forM (fun done s' => inv s' /\ frame demand s s' /\ forall k, k ∈ done -> demanded s' k)).
    - split; [done|]. split; [apply frame_refl|set_solver].
    - intros done k todo s' Hl (Hi' & Hf' & Hd'). assert (Hk : forall k', k' ∈ done \/ k' = k -> k' ∈ demand) by set_solver.
      eapply wp_mono; [apply (demand_one_wp policy (now s) s' demand k); [done|done|set_solver|apply Hf']|].
      intros _ s2 (Hi2 & Hf2 & Hd2). split; [done|]. split; [by eapply frame_trans|].
      intros k' [Hin| ->%list_elem_of_singleton]%elem_of_app; [|done]. eapply demanded_frame; eauto. }
  intros _ s1 (Hi1 & Hf1 & Hd1). eapply wp_mono.
  { apply wait_all_wp; [done|]. intros k (e & He & _)%Hd1. apply dget_is_Some. eauto. }
  intros _ s2 ((Hi2 & Hf2 & _) & Hr2). split; [done|]. split; [by eapply frame_trans|]. intros k Hk. split; [|auto].
  eapply demanded_frame; [apply Hf2|exact Hk|auto].
Qed.

Lemma consume_phase_wp s demand : inv s -> (forall k, k ∈ demand -> demanded s k /\ ready_in s k) ->
  wp (forM demand (consume_one (now s))) (fun _ s' => inv s' /\ frame demand s s' /\ service s' = service s) s.
Proof.
  intros Hi Hd. apply (wp_forM (fun done s' => inv s' /\ frame demand s s' /\ service s' = service s)).
  - split; [done|]. split; [apply frame_refl|done].
  - intros done k todo s' Hl (Hi' & Hf' & Hs'). assert (Hk : k ∈ demand) by set_solver. destruct (Hd k Hk) as [Hdk Hrk].
    assert (Hnow : now s = now s') by (unfold now; by rewrite Hs'). rewrite Hnow. eapply wp_mono.
    { apply (consume_one_wp s' demand k); [done|done|by eapply demanded_frame|by eapply ready_frame]. }
    intros _ s3 (Hi3 & Hf3 & Hs3). split; [done|]. split; [by eapply frame_trans|congruence].
Qed.

Lemma prefetch_phase_wp s prot items : inv s -> Forall (prediction_ok (now s)) items ->
  wp (forM items (prefetch_one prot)) (fun _ s' => inv s' /\ frame prot s s' /\ (loose C \/ now s' = now s)) s.
Proof using Hobj.
  intros Hi Hx. rewrite Forall_forall in Hx.
  apply (wp_forM (fun done s' => inv s' /\ frame prot s s' /\ (loose C \/ now s' = now s))).
  - split; [done|]. split; [apply frame_refl|auto].
  - intros done x todo s' Hl (Hi' & Hf' & Hn'). eapply wp_mono; [apply (prefetch_one_wp s' prot x); [done|]|].
    + destruct (Hx x) as (Hk & Hne & Hv); [set_solver|]. split; [done|]. split; [done|]. eapply Forall_impl; [exact Hv|].
      cbn. intros y Hy. pose proof (f_now _ _ _ Hf'). lia.
    + intros _ s4 (Hi4 & Hf4 & Hn4). split; [done|]. split; [by eapply frame_trans|].
      destruct Hn' as [?|Hn'], Hn4 as [?|Hn4]; auto. right. congruence.
Qed.

Lemma serve_node_wp layers policy rh n s looked : inv s -> node_ok rh false n ->
  wp (serve_node layers policy rh n (now s) looked) (fun _ s' => inv s' /\
    hits s' + misses s' = hits s + misses s /\ exists o, output_nodes s' = output_nodes s ++ [o] /\
    visible_of o = now s /\ end_of o = now s' /\
    forall count i, rh && Nat.eqb i (count - 1) = false -> out_ok rh count (i, n) o) s.
Proof using Hobj.
  intros Hi [Hfit _ Hg]. destruct (Hg eq_refl) as (g & Hgap & Hg0). unfold serve_node.
  set (demand := demand_of n) in *. apply wp_assoc, wp_bind. eapply wp_mono; [by apply demand_phase_wp|].
  intros _ s2 (Hi2 & Hf2 & Hd2). apply wp_bind, wp_get, wp_bind. eapply wp_mono; [by apply consume_phase_wp|].
  intros _ s3 (Hi3 & Hf3 & Hs3). apply wp_bind, wp_get, wp_bind.
  apply (wp_mono _ (fun _ s' => inv s' /\ frame demand s3 s' /\ (loose C \/ now s' = now s3))).
  { destruct (String.eqb policy "one_layer_ahead"); [|apply wp_ret; split; [done|]; split; [apply frame_refl|auto]].
    apply prefetch_phase_wp; [done|]. unfold sorted_items. rewrite isort_perm. apply predict_ok, Hi3. }
  intros _ s4 (Hi4 & Hf4 & Hn4). apply wp_bind. eapply wp_lift; [exact Hgap|]. apply wp_bind.
  assert (Hn23 : now s3 = now s2) by (unfold now; by rewrite Hs3).
  eapply wp_mono; [apply (advance_wp s4); [done|]; destruct Hn4; [auto|right; lia]|].
  intros _ s5 ((Hi5 & Hf5 & _) & Hn5). apply wp_modify.
  assert (Hall : frame demand s s5) by (do 3 (eapply frame_trans; [eassumption|]); apply Hf5).
  pose proof (f_log _ _ _ Hall) as Hlog. injection Hlog as Hh Ho Hhit Hmiss _. pose proof (f_now _ _ _ Hf2) as Hv.
  split; [by apply add_node_inv|]. split; [st_simpl; lia|]. eexists. split; [st_simpl; by rewrite Ho|].
  destruct rh; cbn [visible_of end_of]; (split; [done|]; split; [done|]); intros count i Hlast; unfold out_ok; cbn [fst snd];
    repeat (split; [done|]); eauto.
Qed.

Lemma observe_inv n s : inv s -> (forall m ids, (m, ids) ∈ members n -> Forall (fun e => known (n_layer n, e)) ids) ->
  inv (observe n (now s) s).
Proof.
  intros [[] Hrest] Hm. split; [|done]. constructor; try done. unfold observe. st_simpl. change (now _) with (now s).
  enough (Hfold : forall l h, history_ok (now s) h -> (forall m ids, (m, ids) ∈ l -> Forall (fun e => known (n_layer n, e)) ids) ->
    history_ok (now s) (foldl _ h l)) by (by apply Hfold).
  induction l as [|[m ids] l IH]; intros h Hh Hl; [done|].
  cbn [foldl]. apply IH; [|intros m' ids' Hin; apply (Hl m'); set_solver]. intros m' l' o. rewrite dget_dset. case_decide as E; [|apply Hh].
  intros [= <-]. simplify_eq. split; [done|]. cbn. apply (Hl m'). set_solver.
Qed.

Definition step_post (rh : bool) (count : nat) (x : nat * node) (s s' : st S) : Prop :=
  inv s' /\ hits s' + misses s' = hits s + misses s + Z.of_nat (length (demand_of x.2)) /\
  exists o, output_nodes s' = output_nodes s ++ [o] /\ visible_of o = now s /\ end_of o = now s' /\ out_ok rh count x o.

Lemma step_node_wp layers policy rh count i n s : inv s -> node_ok rh (rh && Nat.eqb i (count - 1)) n ->
  wp (step_node layers policy rh count (i, n)) (fun _ => step_post rh count (i, n) s) s.
Proof using Hobj.
  intros Hi Hok. unfold step_node. apply wp_bind, wp_get, wp_bind. eapply wp_mono; [apply advance_wp; [done|right; lia]|].
  intros _ s1 ((Hi1 & Hf1 & _) & Hn1). pose proof (f_log _ _ _ (Hf1 [])) as Hlog. injection Hlog as _ Ho1 Hh1 Hm1 _.
  apply wp_bind, wp_get, wp_bind, wp_modify. pose proof (observe_inv n s1 Hi1 (no_members _ _ _ Hok)) as Hi2.
  set (s2 := observe n (now s1) s1) in *. apply wp_bind. eapply wp_mono.
  { apply (wp_mapS (fun done _ s' => inv s' /\ service s' = service s2 /\ output_nodes s' = output_nodes s2 /\
      hits s' + misses s' = hits s2 + misses s2 + Z.of_nat (length done))).
    - cbn. split; [done|]. split; [done|]. split; [done|lia].
    - intros done k todo outs s' Hl (Hi' & Hs' & Ho' & Hc'). assert (Hnow : now s1 = now s') by (unfold now; by rewrite Hs').
      rewrite Hnow. eapply wp_mono.
      { apply look_up_wp; [done|]. destruct (no_fits _ _ _ Hok) as (_ & Hkn & _). rewrite Forall_forall in Hkn. apply Hkn. rewrite Hl. set_solver. }
      intros _ s3 (Hi3 & Hs3 & _ & Ho3 & Hc3). split; [done|]. split; [congruence|]. split; [congruence|]. rewrite length_app. change (length [k]) with 1%nat. lia. }
  intros looked s3 (Hi3 & Hs3 & Ho3 & Hc3). assert (Hn3 : now s1 = now s3) by (unfold now; by rewrite Hs3).
  change (output_nodes s2) with (output_nodes s1) in Ho3. change (hits s2) with (hits s1) in Hc3. change (misses s2) with (misses s1) in Hc3.
  destruct (rh && Nat.eqb i (count - 1)) eqn:Et.
  - unfold finish_terminal. apply wp_bind, wp_get, wp_put. split; [by apply add_node_inv|]. split; [change (hits s3 + misses s3 = hits s + misses s + Z.of_nat (length (demand_of n))); lia|].
    eexists. split; [st_simpl; by rewrite Ho3, Ho1|]. cbn. rewrite Et. split; [done|]. split; [done|]. repeat (split; [done|]). done.
  - rewrite Hn3. eapply wp_mono; [by apply serve_node_wp|]. intros _ s4 (Hi4 & Hc4 & o & Ho4 & Hv & He & Hout).
    split; [done|]. cbn [snd]. split; [lia|]. exists o. split; [congruence|]. split; [congruence|]. split; [done|]. by apply Hout.
Qed.

(** The state after the first nodes of the trace. *)
Definition progress (rh : bool) (count : nat) (done : list (nat * node)) (s : st S) : Prop :=
  inv s /\ Forall2 (out_ok rh count) done (output_nodes s) /\ timeline 0 (output_nodes s) (now s) /\
  hits s + misses s = zsum ((fun x => Z.of_nat (length (demand_of x.2))) <$> done).

Lemma nodes_wp layers policy rh count xs s : progress rh count [] s ->
  (forall i n, (i, n) ∈ xs -> node_ok rh (rh && Nat.eqb i (count - 1)) n) ->
  wp (forM xs (step_node layers policy rh count)) (fun _ => progress rh count xs) s.
Proof using Hobj.
  intros H0 Hok. apply (wp_forM (progress rh count)); [done|].
  intros done [i n] todo s' Hl (Hi & Hout & Ht & Hc). eapply wp_mono; [apply step_node_wp; [done|apply Hok; set_solver]|].
  intros _ s2 (Hi2 & Hc2 & o & Ho & Hv & He & Hox). split; [done|]. rewrite Ho. split; [|split].
  - apply Forall2_app; [done|]. by constructor.
  - rewrite <- He. by eapply timeline_snoc.
  - rewrite fmap_app, zsum_app, Hc2, Hc. unfold zsum at 3. cbn. lia.
Qed.

(** ** The report *)

Lemma drain_wp s : inv s -> wp drain (fun _ s' => waited 0 s s' /\ pending s' = ∅) s.
Proof.
  intros Hi. unfold drain. apply wp_bind, wp_get.
  apply (wp_loop (waited 0 s) (fun s' => size (pending s'))); [|by apply waited_refl|lia].
  intros s1 Hw. apply wp_bind, wp_get. destruct (bool_decide (pending s1 = ∅)) eqn:E.
  - apply wp_ret. split; [done|]. by apply bool_decide_eq_true in E.
  - apply bool_decide_eq_false in E. apply wp_bind. eapply wp_mono; [by apply (wait_one_wp 0); [apply Hw|]|].
    intros _ s2 [Hw2 Hlt]. apply wp_ret. split; [by eapply waited_trans|done].
Qed.

(** What the classification of a read says. *)
Definition class_ok (r : row) : Prop := exists c, classification r = Some c /\
  (c = "demand" <-> origin r = Demand) /\
  (c = "useful" \/ c = "late" <-> origin r = Prefetch /\ consume_ns r <> None) /\
  (c = "useful" -> exists a d t, ready_ns r = Some a /\ first_demand_ns r = Some d /\ consume_ns r = Some t /\ a <= d <= t) /\
  (c = "late" -> exists a d t, ready_ns r = Some a /\ first_demand_ns r = Some d /\ consume_ns r = Some t /\ d < a <= t).

Definition row_final (t : Z) (i : nat) (r : row) : Prop := row_ok t i r /\ ready_ns r <> None /\ class_ok r.

Lemma classify_ok rh t i r : row_ok t i r -> ready_ns r <> None ->
  exists r', classify rh r = Ok r' /\ row_final t i r' /\ ready_at_horizon_ns r' = ready_at_horizon_ns r.
Proof.
  intros Hok Hr. assert (Hkeep : forall c, row_ok t i (set_class c r)) by (intros c; destruct Hok; by constructor).
  enough (exists c, classify rh r = Ok (set_class c r) /\ class_ok (set_class c r)) as (c & Hc & Hcl).
  { exists (set_class c r). split; [done|]. split; [|done]. split; [done|]. split; done. }
  unfold classify. destruct (origin r) eqn:Eo; [|destruct (consume_ns r) as [u|] eqn:Ec].
  - eexists. split; [done|]. exists "demand". cbn. rewrite Eo. naive_solver.
  - destruct (ro_consume _ _ _ Hok u Ec) as (Hu & a & d & Ha & Hau & Hd & Hdu). rewrite Ha, Hd.
    eexists. split; [done|]. eexists. split; [done|]. cbn. rewrite Eo, Ec, Ha, Hd.
    destruct (Z.leb_spec a d).
    + split; [done|]. split; [naive_solver|]. split; [|done]. intros _. exists a, d, u. repeat (split; [done|]). lia.
    + split; [done|]. split; [naive_solver|]. split; [done|]. intros _. exists a, d, u. repeat (split; [done|]). lia.
  - eexists. split; [done|]. eexists. split; [done|]. cbn. rewrite Eo, Ec.
    repeat case_match; naive_solver.
Qed.

Lemma classify_all rh t rows : (forall i r, rows !! i = Some r -> row_ok t i r /\ ready_ns r <> None) ->
  exists rows', mapR (classify rh) rows = Ok rows' /\ (forall i r, rows' !! i = Some r -> row_final t i r) /\
    forall i r, rows !! i = Some r -> exists r', rows' !! i = Some r' /\ ready_at_horizon_ns r' = ready_at_horizon_ns r.
Proof.
  intros Hrows. destruct (mapR_total (classify rh) rows) as [rows' Hm].
  { intros r [i Hi]%list_elem_of_lookup. destruct (Hrows i r Hi) as [H1 H2]. destruct (classify_ok rh t i r H1 H2) as (r' & ? & _). eauto. }
  exists rows'. split; [done|]. apply mapR_Ok in Hm. split.
  - intros i r' Hi. destruct (Forall2_lookup_r _ _ _ _ _ Hm Hi) as (r & Hr & Hc).
    destruct (Hrows i r Hr) as [H1 H2]. destruct (classify_ok rh t i r H1 H2) as (r2 & Hc2 & Hf & _). congruence.
  - intros i r Hr. destruct (Forall2_lookup_l _ _ _ _ _ Hm Hr) as (r' & Hr' & Hc). exists r'. split; [done|].
    destruct (Hrows i r Hr) as [H1 H2]. destruct (classify_ok rh t i r H1 H2) as (r2 & Hc2 & _ & Hh). congruence.
Qed.

Lemma ids_NoDup t (rows : list row) : (forall i r, rows !! i = Some r -> row_final t i r) -> NoDup (request_id <$> rows).
Proof.
  intros Hr. apply NoDup_alt. intros i j x Hi Hj. rewrite list_lookup_fmap in Hi, Hj.
  destruct (rows !! i) as [ri|] eqn:Ei, (rows !! j) as [rj|] eqn:Ej; try done. cbn in *.
  destruct (Hr i ri Ei) as [[]], (Hr j rj Ej) as [[]]. injection Hi as Hi. injection Hj as Hj. lia.
Qed.

Lemma timeline_app t a b t' : timeline t (a ++ b) t' <-> exists m, timeline t a m /\ timeline m b t'.
Proof.
  revert t. induction a as [|o a IH]; intros t; cbn; [naive_solver|]. rewrite IH. naive_solver.
Qed.

(** Along the served nodes, time is the sum of the intervals and the waits. *)
Lemma timeline_sum rh count xs outs t t' : Forall2 (out_ok rh count) xs outs -> timeline t outs t' ->
  (forall x, x ∈ xs -> rh && Nat.eqb x.1 (count - 1) = false) ->
  exists gs rs, mapR (gap_of rh) (snd <$> xs) = Ok gs /\ mapR residual_of outs = Ok rs /\
    t' = t + zsum gs + zsum rs /\ Forall (fun r => 0 <= r) rs.
Proof.
  intros Hf. revert t. induction Hf as [|x o xs outs Ho Hf IH]; intros t Ht Hx.
  - cbn in Ht. subst. exists [], []. split; [done|]. split; [done|]. split; [cbn; lia|constructor].
  - destruct Ht as [Hv Ht]. destruct (IH _ Ht) as (gs & rs & Hg & Hr & -> & Hp); [set_solver|].
    assert (Ho' : exists g r, gap_of rh x.2 = Ok g /\ residual_of o = Ok r /\ 0 <= r /\ end_of o = t + g + r).
    { specialize (Hx x ltac:(set_solver)). destruct o; cbn in *.
      - destruct Ho as (_ & _ & _ & _ & _ & ? & -> & g & Hgap & ->). exists g. eexists. split; [done|]. split; [done|]. lia.
      - destruct Ho as (_ & _ & _ & _ & _ & _ & ? & -> & Hgap & ->). eexists _, _. split; [done|]. split; [done|]. lia.
      - destruct Ho. congruence. }
    destruct Ho' as (g & r & Hgap & Hres & Hr0 & He). exists (g :: gs), (r :: rs). csimpl. rewrite Hgap, Hres. cbn [rbind].
    rewrite Hg, Hr. split; [done|]. split; [done|]. split; [unfold zsum in *; cbn; lia|by constructor].
Qed.

(** What the report promises, whatever the mode; [t] is the time at which the
    service is drained. *)
Definition ledger_ok (nodes : list node) (policy : string) (rh : bool) (t : Z) (l : ledger) : Prop :=
  rep_policy l = policy /\ rep_capacity_bytes l = capacity_bytes /\
  0 <= final_reserved_bytes l <= peak_reserved_bytes l /\ peak_reserved_bytes l <= capacity_bytes /\
  cache_hits l + cache_misses l = demand_lookups l /\
  demand_lookups l = zsum ((fun n => Z.of_nat (length (demand_of n))) <$> nodes) /\
  Forall2 (out_ok rh (length nodes)) (imap pair nodes) (rep_nodes l) /\
  (forall i r, rep_requests l !! i = Some r -> row_final t i r).

(** A read that was outstanding when the trace ended. *)
Definition late_at_horizon (rows : list row) (rid : Z) : Prop :=
  exists i r, rid = Z.of_nat i + 1 /\ rows !! i = Some r /\ ready_at_horizon_ns r = Some None.

Definition report_ok (nodes : list node) (policy : string) (rh : bool) (rep : report) : Prop :=
  match rep with
  | ComputeReport decode drained compute l =>
      rh = false /\ decode <= drained /\ ledger_ok nodes policy rh drained l /\ timeline 0 (rep_nodes l) decode /\
      exists gaps waits, mapR (gap_of false) nodes = Ok gaps /\ mapR residual_of (rep_nodes l) = Ok waits /\
        compute = zsum gaps /\ Forall (fun w => 0 <= w) waits /\ decode = compute + zsum waits
  | HorizonReport span visible residual drained prefix pend _ unserved l =>
      rh = true /\ visible <= drained /\ ledger_ok nodes policy rh drained l /\ timeline 0 (rep_nodes l) visible /\
      prefix = (length nodes - 1)%nat /\ 0 <= residual /\ visible = span + residual /\
      (forall rid, rid ∈ pend -> late_at_horizon (rep_requests l) rid) /\
      exists gaps, mapR (gap_of true) (take prefix nodes) = Ok gaps /\ span = zsum gaps
  end.

Lemma out_ok_last rh count x o : out_ok rh count x o -> rh && Nat.eqb x.1 (count - 1) = true -> end_of o = visible_of o /\ exists b, unserved_of (Some o) = Ok b.
Proof.
  destruct o; cbn; [|naive_solver congruence|eauto]. intros [-> _]. done.
Qed.

Lemma imap_pair_snd {A} (l : list A) : snd <$> imap pair l = l.
Proof. rewrite fmap_imap. apply list_eq. intros i. rewrite list_lookup_imap. by destruct (l !! i). Qed.

Lemma report_of_ok nodes policy rh decode pend s : nodes <> [] -> 0 <= used s <= peak s ->
  peak s <= capacity_bytes -> decode <= now s ->
  (forall i r, requests s !! i = Some r -> row_final (now s) i r) ->
  (rh = true -> forall rid, rid ∈ pend -> late_at_horizon (requests s) rid) ->
  Forall2 (out_ok rh (length nodes)) (imap pair nodes) (output_nodes s) -> timeline 0 (output_nodes s) decode ->
  hits s + misses s = zsum ((fun n => Z.of_nat (length (demand_of n))) <$> nodes) ->
  exists rep, report_of nodes policy rh decode pend s = Ok rep /\ report_ok nodes policy rh rep.
Proof.
  intros Hne Hu Hp Hdec Hrows Hpend Hout Ht Hcount.
  assert (Hl : ledger_ok nodes policy rh (now s) (ledger_of policy s)).
  { unfold ledger_ok. cbn. done. }
  pose proof (Forall2_length _ _ _ Hout) as Hlen. rewrite length_imap in Hlen. unfold report_of. destruct rh.
  - destruct (exists_last Hne) as (ns & n & ->). rewrite imap_app in Hout. cbn in Hout.
    apply Forall2_app_inv_l in Hout as (outs & lasts & Hpre & Hlast & Ho). rewrite Ho in *.
    apply Forall2_cons_inv_l in Hlast as (o & rest & Hox & Hnil & ->). apply Forall2_nil_inv_l in Hnil as ->.
    rewrite length_app in *. change (length [n]) with 1%nat in *. change (length [o]) with 1%nat in *.
    pose proof (Forall2_length _ _ _ Hpre) as Hlen'. rewrite length_imap in Hlen'.
    apply timeline_app in Ht as (m & Ht1 & Ht2). cbn in Ht2. destruct Ht2 as [Hvo Hdo].
    destruct (timeline_sum _ _ _ _ _ _ Hpre Ht1) as (gs & rs & Hg & Hr & Hm & Hpos).
    { intros [i x] (j & Hj)%list_elem_of_lookup. rewrite list_lookup_imap in Hj. destruct (ns !! j) eqn:E; [|done].
      apply lookup_lt_Some in E. cbn in Hj. simplify_eq. cbn. apply Nat.eqb_neq. lia. }
    destruct (out_ok_last _ _ _ _ Hox) as (He & b & Hb'); [cbn; apply Nat.eqb_eq; lia|].
    rewrite imap_pair_snd in Hg. rewrite !take_app_length' by lia. rewrite Hg, Hr. cbn [rbind].
    assert (Hsum : zsum gs + zsum rs = decode) by lia.
    rewrite Hsum, Z.eqb_refl, (proj2 (Nat.eqb_eq _ _)) by lia. cbn [andb ensure rbind]. rewrite last_snoc, Hb'. cbn [rbind].
    eexists. split; [done|]. split; [done|]. split; [done|]. split; [exact Hl|]. cbn [ledger_of rep_nodes rep_requests].
    split; [rewrite Ho; apply timeline_app; exists m; by cbn|]. split; [by rewrite length_app|].
    split; [by apply zsum_nonneg|]. split; [lia|]. split; [by apply Hpend|]. exists gs. by rewrite take_app_length' by lia.
  - destruct (timeline_sum _ _ _ _ _ _ Hout Ht) as (gs & rs & Hg & Hr & Hm & Hpos); [done|].
    rewrite imap_pair_snd in Hg. rewrite Hg. cbn [rbind]. eexists. split; [done|]. split; [done|]. split; [done|].
    split; [exact Hl|]. split; [done|]. exists gs, rs. split; [done|]. split; [done|]. split; [done|]. split; [done|]. lia.
Qed.

Lemma horizon_rows s : inv s -> inv (set_requests (set_horizon <$> requests s) s).
Proof.
  intros Hi. apply inv_with_rows; [done| |].
  - intros i. rewrite list_lookup_fmap. by destruct (requests s !! i).
  - intros i r Hr. rewrite list_lookup_fmap in Hr. destruct (requests s !! i) as [r'|] eqn:E; [|done]. injection Hr as <-.
    destruct Hi as [Hc _]. destruct (i_rows _ Hc i r' E). by constructor.
Qed.

Lemma finish_wp nodes policy rh s : nodes <> [] -> progress rh (length nodes) (imap pair nodes) s ->
  wp (finish nodes policy rh) (fun rep _ => report_ok nodes policy rh rep) s.
Proof using Hobj.
  intros Hne (Hi & Hout & Ht & Hcount). unfold finish. apply wp_bind, wp_get, wp_bind.
  apply (wp_mono _ (fun _ s1 => inv s1 /\ now s1 = now s /\ log s1 = log s /\
    (rh = true -> forall rid, rid ∈ pending s -> late_at_horizon (requests s1) rid))).
  { destruct rh; [apply wp_modify|by apply wp_ret]. split; [by apply horizon_rows|]. split; [done|]. split; [done|].
    intros _ rid (r & i & -> & Hr & Hn)%(i_pending _ (proj1 Hi)). exists i, (set_horizon r). split; [done|]. st_simpl.
    rewrite list_lookup_fmap, Hr. cbn. by rewrite Hn. }
  intros _ s1 (Hi1 & Hn1 & Hlog1 & Hlate1). apply wp_bind. eapply wp_mono; [by apply drain_wp|].
  intros _ s2 ((Hi2 & Hf2 & _) & Hp2). apply wp_bind, wp_get, wp_bind.
  pose proof (f_now _ _ _ (Hf2 [])) as Hn2. pose proof (f_log _ _ _ (Hf2 [])) as Hlog2. rewrite Hlog1 in Hlog2.
  injection Hlog2 as _ Ho Hh Hm _.
  destruct (classify_all rh (now s2) (requests s2)) as (rows & Hrows & Hfinal & Hkeep).
  { intros i r Hr. split; [by apply Hi2|]. intros Hnone. assert (Hin : Z.of_nat i + 1 ∈ pending s2); [|by rewrite Hp2 in Hin].
    apply (i_pending _ (proj1 Hi2)). exists r, i. done. }
  eapply wp_lift; [exact Hrows|]. apply wp_bind, wp_put, wp_bind, wp_require.
  { intros Hf. exfalso. apply andb_false_iff in Hf as [Hf|Hf].
    - apply bool_decide_eq_false in Hf. apply Hf. by eapply ids_NoDup.
    - rewrite <- not_true_iff_false in Hf. apply Hf, forallb_forall. intros r [i Hr]%list_elem_of_In%list_elem_of_lookup.
      apply bool_decide_eq_true. by destruct (Hfinal i r Hr) as (_ & ? & _). }
  intros _. apply wp_bind, wp_get.
  destruct (report_of_ok nodes policy rh (now s) (isort zle (elements (pending s))) (set_requests rows s2)) as (rep & Hrep & Hok).
  - done.
  - destruct Hi2 as (_ & Hu2 & _ & Hp2'). pose proof (zsum_sz_nonneg (dkeys (cache s2))). st_simpl. lia.
  - destruct Hi2 as (_ & _ & _ & Hp2'). st_simpl. lia.
  - change (now s <= now s2). lia.
  - exact Hfinal.
  - intros Hrh rid Hrid. rewrite isort_elem in Hrid. destruct (Hlate1 Hrh rid) as (i & r & -> & Hr & Hh1).
    { by apply elem_of_elements. }
    destruct (f_rows _ _ _ (Hf2 []) i r Hr) as (r2 & Hr2 & Hh2 & _). destruct (Hkeep i r2 Hr2) as (r3 & Hr3 & Hh3).
    exists i, r3. split; [done|]. split; [done|]. congruence.
  - st_simpl. by rewrite Ho.
  - st_simpl. by rewrite Ho.
  - st_simpl. rewrite Hh, Hm, Hcount. rewrite <- (imap_pair_snd nodes) at 2. by rewrite <- list_fmap_compose.
  - by eapply wp_lift.
Qed.

Lemma initial_progress rh count v resident u : link C v ∅ -> clock v = 0 -> fits resident ->
  u = zsum (sz <$> resident) -> progress rh count [] (initial v resident u).
Proof.
  intros Hl Hv (Hnd & Hk & Hcap) ->.
  assert (Hks : dkeys (cache (initial v resident (zsum (sz <$> resident)))) = resident) by apply dkeys_map.
  split; [|split; [constructor|split; [by cbn|done]]]. split; [|rewrite Hks; cbn; lia].
  constructor.
  - by rewrite Hks.
  - by rewrite Hks.
  - done.
  - intros k e He. apply dget_Some_elem, list_elem_of_fmap in He as (k' & [= -> ->] & _). done.
  - intros rid. split; [set_solver|]. intros (r & i & _ & Hi & _). done.
  - intros rid r (i & _ & Hi & _). done.
  - exists ∅. split; [done|]. intros rid t. rewrite lookup_empty. split; [done|]. intros (r & (i & _ & Hi & _) & _). done.
  - done.
  - right. unfold now. cbn. rewrite Hv. done.
Qed.

Lemma run_wp nodes layers policy rh v resident u : nodes <> [] -> link C v ∅ -> clock v = 0 -> fits resident ->
  u = zsum (sz <$> resident) ->
  (forall i n, (i, n) ∈ imap pair nodes -> node_ok rh (rh && Nat.eqb i (length nodes - 1)) n) ->
  wp (let! _ := forM (imap pair nodes) (step_node layers policy rh (length nodes)) in finish nodes policy rh)
    (fun rep _ => report_ok nodes policy rh rep) (initial v resident u).
Proof using Hobj.
  intros Hne Hl Hv Hfit Hu Hok. apply wp_bind. eapply wp_mono; [by apply nodes_wp; [apply initial_progress|]|].
  intros [] s Hp. by apply finish_wp.
Qed.
End verify.

(** ** What validation establishes *)

Lemma nonnegative_Ok v name x : nonnegative v name = Ok x -> v = Some x /\ 0 <= x.
Proof. unfold nonnegative. destruct v as [z|]; [|done]. destruct (Z.ltb_spec z 0); [done|]. intros [= ->]. done. Qed.

Lemma check_interval_ok rh last n u : check_interval rh last n = Ok u ->
  rh && last = false -> exists g, gap_of rh n = Ok g /\ 0 <= g.
Proof.
  unfold check_interval, gap_of. destruct rh; cbn.
  - destruct (compute_ns n), (route_gap_ns n) as [gap|]; try done. destruct last; [done|]. intros H _. inv_ok.
    match goal with H : nonnegative _ _ = Ok ?g |- _ => apply nonnegative_Ok in H as [-> ?]; by exists g end.
  - intros H _. inv_ok. destruct (compute_ns n) as [v|]; [|done]. cbn in *. inv_ok.
    match goal with H : nonnegative _ _ = Ok ?g |- _ => apply nonnegative_Ok in H as [-> ?]; by exists g end.
Qed.

Lemma demand_elem n k : k ∈ demand_of n <-> exists m ids e, (m, ids) ∈ members n /\ e ∈ ids /\ k = (n_layer n, e).
Proof.
  unfold demand_of. rewrite isort_elem, elem_of_remove_dups, list_elem_of_fmap. split.
  - intros (e & -> & He). apply list_elem_of_In, in_concat in He as (ids & Hin & He). apply list_elem_of_In in Hin.
    apply list_elem_of_fmap in Hin as ([m ids'] & -> & Hm). exists m, ids', e. split; [done|]. split; [by apply list_elem_of_In|done].
  - intros (m & ids & e & Hm & He & ->). exists e. split; [done|]. apply list_elem_of_In, in_concat. exists ids.
    split; [|by apply list_elem_of_In]. apply list_elem_of_In, list_elem_of_fmap. by exists (m, ids).
Qed.

Lemma dmem_known k : dmem objects k = true -> known k.
Proof. unfold dmem, known. destruct (dget objects k); [eauto|done]. Qed.

Lemma check_node_ok layers rh count prior i n prior' :
  check_node objects capacity_bytes layers rh count prior (i, n) = Ok prior' ->
  node_ok rh (rh && Nat.eqb i (count - 1)) n.
Proof.
  unfold check_node. intros H. inv_ok.
  match goal with H : mapR _ _ = Ok _ |- _ => rename H into Hroutes end.
  match goal with H : transfers _ _ = Ok _ |- _ => rename H into Hsum end.
  match goal with H : check_interval _ _ _ = Ok _ |- _ => rename H into Hint end.
  assert (Hm : forall m ids, (m, ids) ∈ members n -> Forall (fun e => known (n_layer n, e)) ids).
  { intros m ids Hin. assert (Hr : exists u, check_route objects (n_layer n) ids = Ok u).
    { apply mapR_Ok in Hroutes. assert (Hv : ids ∈ dvals (members n)) by (apply list_elem_of_fmap; by exists (m, ids)).
      apply list_elem_of_lookup in Hv as [j Hj]. destruct (Forall2_lookup_l _ _ _ _ _ Hroutes Hj) as (u & _ & ?). eauto. }
    destruct Hr as [u Hr]. unfold check_route in Hr. inv_ok. rewrite Forall_forall. intros e He. apply dmem_known.
    match goal with H : forallb _ ids = true |- _ => rewrite forallb_forall in H; apply H end. by apply list_elem_of_In. }
  assert (Hk : Forall known (demand_of n)).
  { rewrite Forall_forall. intros k (m & ids & e & Hin & He & ->)%demand_elem. specialize (Hm m ids Hin).
    rewrite Forall_forall in Hm. auto. }
  constructor; [|done|].
  - split; [unfold demand_of; rewrite isort_perm; apply NoDup_remove_dups|]. split; [done|].
    rewrite (transfers_known _ Hk) in Hsum. injection Hsum as <-. lia.
  - intros Ht. by eapply check_interval_ok.
Qed.

Lemma foldM_each {A B} (f : B -> A -> result B) l b b' x : foldM f l b = Ok b' -> x ∈ l -> exists b1 b2, f b1 x = Ok b2.
Proof.
  revert b. induction l as [|y l IH]; intros b Hf Hx; [set_solver|]. cbn in Hf. apply bind_Ok in Hf as (b1 & H1 & Hf).
  apply elem_of_cons in Hx as [->|Hx]; eauto.
Qed.

Lemma validate_ok nodes resident rh layers : validate_nodes nodes objects capacity_bytes resident rh = Ok layers ->
  nodes <> [] /\ (forall k o, dget objects k = Some o -> 0 < transfer_bytes o) /\ fits resident /\
  forall i n, (i, n) ∈ imap pair nodes -> node_ok rh (rh && Nat.eqb i (length nodes - 1)) n.
Proof.
  unfold validate_nodes. intros H. inv_ok.
  match goal with H : foldM _ _ _ = Ok _ |- _ => rename H into Hfold end.
  match goal with H : transfers _ _ = Ok _ |- _ => rename H into Hsum end.
  match goal with H : forallb (dmem objects) _ = true |- _ => rename H into Hres end.
  match goal with H : forallb _ objects = true |- _ => rename H into Hobjs end.
  assert (Hk : Forall known resident).
  { rewrite Forall_forall. intros k Hk. apply dmem_known. rewrite forallb_forall in Hres. apply Hres. by apply list_elem_of_In. }
  split; [by destruct nodes|]. split; [|split].
  - intros k o Ho%dget_Some_elem%list_elem_of_In. rewrite forallb_forall in Hobjs. specialize (Hobjs _ Ho). cbn in Hobjs.
    unfold object_ok in Hobjs. lia.
  - split; [done|]. split; [done|]. rewrite (transfers_known _ Hk) in Hsum. injection Hsum as <-. lia.
  - intros i n Hin. destruct (foldM_each _ _ _ _ _ Hfold Hin) as (b1 & b2 & Hb). by eapply check_node_ok.
Qed.

(** The replay of a valid trace: a report that keeps its promises, or a fault
    of the service. *)
Lemma replay_contract (C : Contract) nodes resident policy v rh layers :
  policy ∈ POLICIES -> validate_nodes nodes objects capacity_bytes resident rh = Ok layers -> clock v = 0 -> link C v ∅ ->
  match replay nodes resident policy v rh with
  | Ok rep => report_ok nodes policy rh rep
  | Raise e => fault C e
  end.
Proof.
  intros Hpol Hval Hv Hl. destruct (validate_ok _ _ _ _ Hval) as (Hne & Hobj & Hfit & Hok).
  unfold replay. rewrite bool_decide_eq_true_2 by done. cbn [ensure rbind]. rewrite Hval. cbn [rbind]. rewrite Hv, Z.eqb_refl.
  cbn [ensure rbind]. rewrite transfers_known by apply Hfit. cbn [rbind].
  pose proof (run_wp C Hobj nodes layers policy rh v resident _ Hne Hl Hv Hfit eq_refl Hok) as Hwp. unfold wp in Hwp.
  destruct (sbind _ _ _) as [[rep|e] s]; exact Hwp.
Qed.

(** C3: the replay of a validated trace on any service that never moves the
    clock back when a read is submitted either returns a sound report or
    raises an exception of the service, one of the detected protocol
    violations or the overflow of its clock, and nothing else (no lookup fails
    and every loop ends).  A
    sound report: reservations stay within the capacity; every demanded expert
    is one hit or one miss; every node becomes visible when the previous one
    ends and the total time is the sum of the intervals and of the
    (non-negative) waits; every read completes, is consumed only when it is
    ready and demanded, and a predicted read rests on routes that were visible
    when it was issued; and a read is classified useful or late exactly when
    it is a prediction that was consumed, by whether it was ready when first
    demanded. *)
Theorem prefetch_replay_sound nodes resident policy v rh layers : ForwardService ->
  policy ∈ POLICIES -> validate_nodes nodes objects capacity_bytes resident rh = Ok layers -> clock v = 0 ->
  match replay nodes resident policy v rh with
  | Ok rep => report_ok nodes policy rh rep
  | Raise e => service_raises e \/ e ∈ overflow :: protocol_errors
  end.
Proof.
  intros HF Hpol Hval Hv. exact (replay_contract forward_contract nodes resident policy v rh layers Hpol Hval Hv I).
Qed.

(** C4: on a service that completes every submitted read within the clock
    range, the replay of a validated trace returns its report; the only
    exception is the overflow of the replay clock.  In particular a
    reservation for a demanded expert never gets stuck, although every entry
    that is not ready or is demanded by the node is pinned. *)
Theorem prefetch_replay_total nodes resident policy v rh layers (reads : S -> gmap Z Z -> Prop) :
  LiveService reads -> reads v ∅ -> policy ∈ POLICIES ->
  validate_nodes nodes objects capacity_bytes resident rh = Ok layers -> clock v = 0 ->
  (exists rep, replay nodes resident policy v rh = Ok rep /\ report_ok nodes policy rh rep) \/
  replay nodes resident policy v rh = Raise overflow.
Proof.
  intros HL H0 Hpol Hval Hv. pose proof (replay_contract (live_contract reads) nodes resident policy v rh layers Hpol Hval Hv H0) as H.
  destruct (replay nodes resident policy v rh) as [rep|e]; [eauto|]. right. by rewrite H.
Qed.
End replay.

(** ** A constant-delay service

    The serial oracle of [scripts/eval/test_prefetch_replay.py], with its
    completion times capped to the clock range. *)
Record oracle := { q_now : Z; q_delay : Z; q_pending : list (Z * Z) }.

Definition oracle_submit (r : submission) : M oracle unit :=
  modify (fun o =>
    let busy := match last (q_pending o) with Some (t, _) => t | None => 0 end in
    {| q_now := q_now o; q_delay := q_delay o;
       q_pending := q_pending o ++ [(Z.min MAX_TIME (Z.max (q_now o) busy + q_delay o), s_request_id r)] |}).

Definition oracle_until (h : Z) : M oracle (option completion) :=
  let! o := get in
  let! _ := require (q_now o <=? h) (ValueError "backdated horizon") in
  match q_pending o with
  | (t, rid) :: rest =>
      if t <=? h then
        let! _ := put {| q_now := t; q_delay := q_delay o; q_pending := rest |} in
        sret (Some {| c_request_id := rid; reported_complete := t |})
      else let! _ := put {| q_now := h; q_delay := q_delay o; q_pending := q_pending o |} in sret None
  | [] => let! _ := put {| q_now := h; q_delay := q_delay o; q_pending := [] |} in sret None
  end.

#[export] Instance oracle_service : Service oracle := {| clock := q_now; submit := oracle_submit; until := oracle_until |}.

(** Completion times are in order, from [t] on, within the clock range. *)
Fixpoint in_order (t : Z) (l : list (Z * Z)) : Prop :=
  match l with [] => True | (r, _) :: l' => t <= r <= MAX_TIME /\ in_order r l' end.

Lemma in_order_snoc t l r id : in_order t l -> (match last l with Some (b, _) => b | None => t end) <= r <= MAX_TIME ->
  in_order t (l ++ [(r, id)]).
Proof.
  revert t. induction l as [|[a i] l IH]; intros t; [by intros; split|]. intros [Ha Hl] Hr. split; [done|]. apply IH; [done|].
  destruct l as [|x l]; [done|]. change (last ((a, i) :: x :: l)) with (last (x :: l)) in Hr.
  destruct (last (x :: l)) as [[]|] eqn:E; [done|]. by apply last_None in E.
Qed.

Lemma in_order_weaken t t' l : in_order t l -> t' <= t -> in_order t' l.
Proof. destruct l as [|[a i] l]; [done|]. intros [? ?] ?. split; [lia|done]. Qed.

Lemma in_order_last t l : in_order t l -> match last l with Some (b, _) => t <= b | None => True end.
Proof.
  revert t. induction l as [|[a i] l IH]; intros t; [done|]. intros [Ha Hl]. specialize (IH _ Hl).
  destruct l as [|x l]; [cbn; lia|]. change (last ((a, i) :: x :: l)) with (last (x :: l)). destruct (last (x :: l)) as [[b j]|]; [lia|done].
Qed.

Definition oracle_reads (o : oracle) (P : gmap Z Z) : Prop :=
  q_now o <= MAX_TIME /\ 0 <= q_delay o /\ in_order (q_now o) (q_pending o) /\ NoDup (snd <$> q_pending o) /\
  (forall id, is_Some (P !! id) <-> id ∈ snd <$> q_pending o) /\
  (forall id t r, P !! id = Some t -> (r, id) ∈ q_pending o -> t <= r).

Lemma oracle_until_live s P h : oracle_reads s P -> q_now s <= h <= MAX_TIME ->
  exists c s', oracle_until h s = (Ok c, s') /\ outcome_ok s h P c s' /\ oracle_reads s' (left_over P c).
Proof.
  intros (Hn & Hd & Ho & Hnd & HP & Ht) Hh. unfold oracle_until.
  rewrite (sbind_step get _ s s s eq_refl), (sbind_step _ _ s tt s) by (apply require_Ok; lia).
  destruct (q_pending s) as [|[t rid] rest] eqn:E.
  - eexists None, _. split; [done|]. split.
    + split; [cbn; lia|]. split; [done|]. left. apply map_empty. intros i. apply eq_None_not_Some. rewrite HP. cbn. set_solver.
    + repeat split; cbn; try done; try lia; try apply HP; set_solver.
  - destruct Ho as [Hr Ho]. apply NoDup_cons in Hnd as [Hfresh Hnd]. destruct (Z.leb_spec t h).
    + eexists (Some _), _. split; [done|]. destruct (proj2 (HP rid)) as [ti Hti]; [cbn; set_solver|]. split.
      * split; [cbn; lia|]. exists ti. split; [done|]. cbn. specialize (Ht rid ti t Hti ltac:(set_solver)). lia.
      * repeat split; cbn; try done; try lia.
        -- intros Hx. destruct (decide (id = rid)) as [->|]; [by rewrite lookup_delete_eq in Hx; destruct Hx|].
           rewrite lookup_delete_ne in Hx by done. apply HP in Hx. cbn in Hx. set_solver.
        -- intros Hx. rewrite lookup_delete_ne by (intros <-; done). apply HP. cbn. set_solver.
        -- intros id t' r [_ Hp]%lookup_delete_Some Hin. apply (Ht id); [done|]. set_solver.
    + eexists None, _. split; [done|]. split.
      * split; [cbn; lia|]. split; [done|]. right. lia.
      * split; [cbn; lia|]. split; [done|]. split; [cbn; split; [lia|done]|]. split; [by apply NoDup_cons|].
        split; [exact HP|exact Ht].
Qed.

Lemma oracle_submit_live s P r : oracle_reads s P -> P !! s_request_id r = None -> s_issue_ns r = q_now s ->
  exists s', oracle_submit r s = (Ok tt, s') /\ q_now s' = q_now s /\
    oracle_reads s' (<[s_request_id r := s_issue_ns r]> P).
Proof.
  intros (Hn & Hd & Ho & Hnd & HP & Ht) Hfresh Hi. eexists. split; [done|]. split; [done|].
  assert (Hnew : s_request_id r ∉ snd <$> q_pending s) by (rewrite <- HP, Hfresh; by intros [? ?]).
  set (busy := match last (q_pending s) with Some (t, _) => t | None => 0 end).
  split; [done|]. split; [done|]. cbn. fold busy. split; [|split; [|split]].
  - apply in_order_snoc; [done|]. pose proof (in_order_last _ _ Ho) as Hl. subst busy.
    assert (Hmax : match last (q_pending s) with Some (b, _) => b <= MAX_TIME | None => True end).
    { clear -Ho. revert Ho. generalize (q_now s). induction (q_pending s) as [|[a i] l IH]; intros z; [done|]. intros [Ha Hl].
      specialize (IH _ Hl). destruct l as [|x l]; [apply Ha|]. exact IH. }
    destruct (last (q_pending s)) as [[b j]|]; lia.
  - rewrite fmap_app. apply NoDup_app. split; [done|]. split; [|apply NoDup_singleton]. cbn. set_solver.
  - intros id. rewrite fmap_app, elem_of_app, <- HP, lookup_insert_is_Some. cbn. rewrite list_elem_of_singleton.
    destruct (decide (s_request_id r = id)) as [->|]; naive_solver.
  - intros id t r' Hp [Hin|[= -> ->]%list_elem_of_singleton]%elem_of_app.
    + rewrite lookup_insert_ne in Hp; [by eapply Ht|]. intros <-. apply Hnew, list_elem_of_fmap. by exists (r', s_request_id r).
    + rewrite lookup_insert_eq in Hp. injection Hp as <-. lia.
Qed.

#[export] Instance oracle_live : LiveService oracle_reads.
Proof. split; [apply oracle_until_live|apply oracle_submit_live]. Qed.

#[export] Instance oracle_forward : ForwardService (S := oracle).
Proof. intros r s s' [= <-]. done. Qed.

(** The gold trace of the source's tests: three layers of two experts, two
    steps, one member, a delay of 10 and intervals of 20. *)
Definition demo_objects : dict (Z * Z) object :=
  [((0, 0), {| o_bytes := 512; transfer_bytes := 512; o_address := 0 |});
   ((0, 1), {| o_bytes := 512; transfer_bytes := 512; o_address := 512 |});
   ((1, 0), {| o_bytes := 512; transfer_bytes := 512; o_address := 1024 |});
   ((1, 1), {| o_bytes := 512; transfer_bytes := 512; o_address := 1536 |});
   ((2, 0), {| o_bytes := 512; transfer_bytes := 512; o_address := 2048 |});
   ((2, 1), {| o_bytes := 512; transfer_bytes := 512; o_address := 2560 |})].
Definition demo_node (step layer : Z) : node :=
  {| n_step := step; n_layer := layer; compute_ns := Some (Some 20); route_gap_ns := None; members := [("a", [0])] |}.
Definition demo_route (step layer : Z) (gap : option Z) : node :=
  {| n_step := step; n_layer := layer; compute_ns := None; route_gap_ns := Some gap; members := [("a", [0])] |}.
Definition demo_nodes : list node :=
  [demo_node 0 0; demo_node 0 1; demo_node 0 2; demo_node 1 0; demo_node 1 1; demo_node 1 2].
Definition demo_routes : list node :=
  [demo_route 0 0 (Some 20); demo_route 0 1 (Some 20); demo_route 0 2 (Some 20);
   demo_route 1 0 (Some 20); demo_route 1 1 (Some 20); demo_route 1 2 None].
Definition demo_oracle : oracle := {| q_now := 0; q_delay := 10; q_pending := [] |}.

(** The issue, completion and consumption times of the horizon test. *)
Example demo_horizon_gold :
  match replay demo_objects 1024 demo_routes [] "one_layer_ahead" demo_oracle true with
  | Ok (HorizonReport span visible residual _ _ _ _ _ l) =>
      span = 100 /\ visible = 130 /\ residual = 30 /\
      issue_ns <$> rep_requests l = [0; 30; 60; 70; 90; 110] /\
      ready_ns <$> rep_requests l = [Some 10; Some 40; Some 70; Some 80; Some 100; Some 120] /\
      consume_ns <$> rep_requests l = [Some 10; Some 40; Some 70; Some 90; Some 110; None]
  | _ => False
  end.
Proof. vm_compute. repeat split. Qed.

Lemma prefetch_replay_sound_witness :
  is_ok (replay demo_objects 1024 demo_routes [] "one_layer_ahead" demo_oracle true) = true /\
  match replay demo_objects 1024 demo_routes [] "one_layer_ahead" demo_oracle true with
  | Ok rep => report_ok demo_objects 1024 demo_routes "one_layer_ahead" true rep
  | Raise e => service_raises (S := oracle) e \/ e ∈ overflow :: protocol_errors
  end.
Proof.
  split; [vm_compute; reflexivity|].
  refine (prefetch_replay_sound demo_objects 1024 demo_routes [] "one_layer_ahead" demo_oracle true 3 oracle_forward _ _ _).
  - apply (bool_decide_unpack _). vm_compute. exact I.
  - vm_compute. reflexivity.
  - reflexivity.
Defined.

Lemma prefetch_replay_total_witness :
  (exists rep, replay demo_objects 1024 demo_nodes [(2, 1)] "none" demo_oracle false = Ok rep /\
     report_ok demo_objects 1024 demo_nodes "none" false rep) \/
  replay demo_objects 1024 demo_nodes [(2, 1)] "none" demo_oracle false = Raise overflow.
Proof.
  refine (prefetch_replay_total demo_objects 1024 demo_nodes [(2, 1)] "none" demo_oracle false 3 oracle_reads oracle_live _ _ _ _).
  - split; [done|]. split; [done|]. split; [done|]. split; [constructor|]. split; [|done].
    intros id. rewrite lookup_empty. split; [by intros [? ?]|set_solver].
  - apply (bool_decide_unpack _). vm_compute. exact I.
  - vm_compute. reflexivity.
  - reflexivity.
Defined.
End PrefetchReplay.
