(* ===== verification/MqsimService.v ===== *)
(** * MqsimService: the client of the native flash simulator

    Models [scripts/eval/mqsim_service.py]: [MqsimService] sends commands to a
    native MQSim process, checks every response (the clock never moves back,
    a horizon is respected, identities are known and complete once) and grants
    a receipt at the end only when requests, bytes and media observations are
    conserved.

    The process is native: it is a parameter, the class [Native] of what it
    answers to its greeting, to a command and on exit; nothing is assumed of
    its answers.  A response is its decoded record: the value of a field that
    the client reads as an integer is an integer, except [now_ns], whose type
    the client checks itself.  Opening and closing the process, its pipes and
    the transcript files are input/output and are left out. *)

From S2P Require Import Prelude.
From S2P Require Import PyFloat.
From S2P Require Import ProgramLogic.
From S2P Require Import PrefetchReplay.
Import ProgramLogic.

Module MqsimService.

(** ** The protocol *)

(** Where a read goes: an address, or a page of a named stack. *)
Inductive place := Address (address : Z) | Page (stack : string) (stack_local_page : Z).

Record request := { request_id : Z; issue_ns : Z; bytes : Z; where_ : place }.

Inductive command := Submit (r : request) | TrySubmit (r : request) | Until (deadline_ns : Z) | Finish.

Record gate := { submitted : bool; backend_arrival_ns : Z; disposition : Z; target_ns : option Z; reason : string }.
Record completion := { c_request_id : Z; reported_complete : Z }.
Record receipt := { status : string; pending : Z; issued : Z; completed : Z; issued_bytes : Z; completed_bytes : Z }.
(** A media observation. *)
Record event := {
  ev_kind : Z; ev_request_id : Z; ev_bytes : Z; ev_arrival_ns : Z; ev_time_ns : Z; device_outstanding : Z;
  ev_reported_complete : Z }.

(** What a response carries besides its time and its observations. *)
Inductive body :=
| Header (h : dict string pyval)
| Accepted (n : pyval)
| Gate (g : gate)
| Completion (c : option completion)
| Receipt (r : receipt)
| Other.

Record response := { now_ns : pyval; events : list event; native_command_events : list pyval; content : body }.

Class Native (P : Type) := {
  greeting : P -> result response * P;
  exchange : command -> P -> result response * P;
  exit_code : P -> result Z }.

(** ** The client *)

Record service (P : Type) := mkService {
  process : P; header : dict string pyval; now : Z; requests : dict Z request; completions : dict Z completion;
  observations : list event; native_observations : list pyval; finished : bool }.
Arguments mkService {P}. Arguments process {P}. Arguments header {P}. Arguments now {P}. Arguments requests {P}.
Arguments completions {P}. Arguments observations {P}. Arguments native_observations {P}. Arguments finished {P}.

Section client.
Context {P : Type} `{!Native P}.
Notation M := (M (service P)).

Definition set_process (p : P) (s : service P) : service P :=
  mkService p (header s) (now s) (requests s) (completions s) (observations s) (native_observations s) (finished s).
Definition set_requests (d : dict Z request) (s : service P) : service P :=
  mkService (process s) (header s) (now s) d (completions s) (observations s) (native_observations s) (finished s).
Definition set_completions (d : dict Z completion) (s : service P) : service P :=
  mkService (process s) (header s) (now s) (requests s) d (observations s) (native_observations s) (finished s).
Definition set_finished (s : service P) : service P :=
  mkService (process s) (header s) (now s) (requests s) (completions s) (observations s) (native_observations s) true.

(** A response that was received: its clock and its observations. *)
Definition received (t : Z) (r : response) (s : service P) : service P :=
  mkService (process s) (header s) t (requests s) (completions s) (observations s ++ events r)
    (native_observations s ++ native_command_events r) (finished s).

(** [read], on the answer [answer] of the process. *)
Definition read (answer : P -> result response * P) : M response :=
  let! s := get in
  let '(a, p) := answer (process s) in
  let! _ := put (set_process p s) in
  let! r := lift a in
  let error := ValueError "native service clock moved backward" in
  let! t := lift (match now_ns r with VInt t => Ok t | _ => Raise error end) in
  let! _ := require (now s <=? t) error in
  let! _ := modify (received t r) in
  sret r.

(** [command]; writing to the pipe is part of the exchange. *)
Definition send (c : command) : M response :=
  let! s := get in
  let! _ := require (negb (finished s)) (ValueError "native service already finished") in
  read (exchange c).

(** [type(v) is int] and its value. *)
Definition as_int (v : option pyval) : option Z := match v with Some (VInt z) => Some z | _ => None end.
Definition is_text (v : option pyval) (text : string) : bool :=
  match v with Some (VStr t) => String.eqb t text | _ => false end.

Definition source : string := "MQSIM_SIMULATED".

(** [value == z] of a JSON value. *)
Definition equals_int (value : pyval) (z : Z) : bool :=
  match value with
  | VInt x => x =? z
  | VBool b => (if b then 1 else 0) =? z
  | VFloat f => bool_decide (cmp_int_float z f = Some Eq)
  | _ => false
  end.

Definition header_ok (h : dict string pyval) (now : Z) : bool :=
  equals_int (dget_or h "schema_version" VNone) 1
  && is_text (dget h "service_source") source && is_text (dget h "provenance") "PROJECTED"
  && is_text (dget h "scope") "READ_ONLY_MEDIA_SERVICE_NOT_HARDWARE"
  && (match as_int (dget h "queue_depth") with Some q => 1 <=? q | None => false end)
  && (now =? 0).

(** [__init__] from the started process to the end of the handshake. *)
Definition init (p : P) : result (service P) :=
  let error := ValueError "native service header mismatch" in
  match read greeting (mkService p [] 0 [] [] [] [] false) with
  | (Raise e, _) => Raise e
  | (Ok r, s) =>
      match content r with
      | Header h =>
          let? _ := ensure (header_ok h (now s)) error in
          let? pending := dindex h "pending" in
          let? _ := ensure (equals_int pending 0) error in
          Ok (mkService (process s) h (now s) [] [] (observations s) (native_observations s) false)
      | _ => Raise error
      end
  end.

Definition fresh (r : request) : M unit :=
  let! s := get in
  require (negb (dmem (requests s) (request_id r))) (ValueError "duplicate service request ID").

Definition remember (r : request) : M unit := modify (fun s => set_requests (dset (requests s) (request_id r) r) s).

Definition submit (r : request) : M unit :=
  let! _ := fresh r in
  let! answer := send (Submit r) in
  let! _ := require (match content answer with Accepted n => equals_int n 1 | _ => false end)
              (ValueError "native service did not accept one request") in
  remember r.

(** [accepted["issue_ns"] = t] on a copy of a request. *)
Definition issued_at (t : Z) (r : request) : request :=
  {| request_id := request_id r; issue_ns := t; bytes := bytes r; where_ := where_ r |}.

Definition try_submit (r : request) : M gate :=
  let! _ := fresh r in
  let! answer := send (TrySubmit r) in
  let! d := lift (match content answer with Gate d => Ok d | _ => Raise (KeyError "gate") end) in
  let! _ := if submitted d then remember (issued_at (backend_arrival_ns d) r) else sret tt in
  sret d.

Definition until (horizon : Z) : M (option completion) :=
  let! answer := send (Until horizon) in
  let! c := lift (match content answer with Completion c => Ok c | _ => Raise (KeyError "completion") end) in
  let! s := get in
  let! _ := require (negb ((horizon <? now s) || (bool_decide (c = None) && negb (now s =? horizon))))
              (ValueError "native service violated external clock horizon") in
  let! _ :=
    match c with
    | None => sret tt
    | Some c =>
        let! _ := require (dmem (requests s) (c_request_id c) && negb (dmem (completions s) (c_request_id c)))
                    (ValueError "native service returned duplicate/unknown completion") in
        modify (fun s => set_completions (dset (completions s) (c_request_id c) c) s)
    end in
  sret c.

(** ** The receipt *)

Notation lifecycle := (dict Z event) (only parsing).

Definition queue_depth (s : service P) : Z := default 0 (as_int (dget (header s) "queue_depth")).

(** One observation filed under its request and kind. *)
Definition file_event (s : service P) (acc : dict Z (dict Z event)) (e : event) : result (dict Z (dict Z event)) :=
  let error := ValueError "native observation identity/QD mismatch" in
  let? row := of_option error (dget acc (ev_request_id e)) in
  let? _ := ensure (bool_decide (ev_kind e ∈ [0; 1; 2]) && negb (dmem row (ev_kind e))) error in
  let? r := dindex (requests s) (ev_request_id e) in
  let? _ := ensure ((ev_bytes e =? bytes r) && (ev_arrival_ns e =? issue_ns r)
                    && (0 <=? device_outstanding e) && (device_outstanding e <=? queue_depth s)) error in
  Ok (dset acc (ev_request_id e) (dset row (ev_kind e) e)).

(** The three observations of one request. *)
Definition check_lifecycle (s : service P) (item : Z * dict Z event) : result unit :=
  let '(rid, row) := item in
  let? _ := ensure (same_set (dkeys row) [0; 1; 2]) (ValueError "native observation conservation failed") in
  let? e0 := dindex row 0 in
  let? e1 := dindex row 1 in
  let? e2 := dindex row 2 in
  let? r := dindex (requests s) rid in
  let? c := dindex (completions s) rid in
  let times := [ev_time_ns e0; ev_time_ns e1; ev_time_ns e2] in
  ensure ((ev_time_ns e0 =? issue_ns r) && bool_decide (isort zle times = times)
          && (ev_time_ns e2 <=? reported_complete c) && (ev_reported_complete e2 =? reported_complete c))
    (ValueError "native request lifecycle mismatch").

Definition conserved (s : service P) (code : Z) (r : receipt) : bool :=
  (code =? 0) && String.eqb (status r) "FINISHED" && (pending r =? 0)
  && same_set (dkeys (requests s)) (dkeys (completions s))
  && (issued r =? Z.of_nat (length (requests s))) && (completed r =? Z.of_nat (length (requests s)))
  && (issued_bytes r =? zsum (bytes <$> dvals (requests s))) && (completed_bytes r =? issued_bytes r).

Definition finish : M receipt :=
  let! answer := send Finish in
  let! s := get in
  let! code := lift (exit_code (process s)) in
  let error := ValueError "native service finish conservation failed" in
  let! r := lift (match content answer with Receipt r => Ok r | _ => Raise error end) in
  let! _ := require (conserved s code r) error in
  let! rows := lift (foldM (file_event s) (observations s) ((fun rid => (rid, [])) <$> dkeys (requests s))) in
  let! _ := lift (mapR (check_lifecycle s) rows) in
  let! _ := modify set_finished in
  sret r.

(** ** The states of a client *)

Inductive reachable : service P -> Prop :=
| reach_init p s : init p = Ok s -> reachable s
| reach_submit s r a s' : reachable s -> submit r s = (a, s') -> reachable s'
| reach_try s r a s' : reachable s -> try_submit r s = (a, s') -> reachable s'
| reach_until s t a s' : reachable s -> until t s = (a, s') -> reachable s'
| reach_finish s a s' : reachable s -> finish s = (a, s') -> reachable s'.

(** Requests and completions are filed once, and only requests complete. *)
Record client_inv (s : service P) : Prop := {
  ci_now : 0 <= now s;
  ci_requests : NoDup (dkeys (requests s));
  ci_completions : NoDup (dkeys (completions s));
  ci_known : forall id, id ∈ dkeys (completions s) -> id ∈ dkeys (requests s);
  ci_ids : forall id r, dget (requests s) id = Some r -> request_id r = id }.

(** What a call leaves behind when it only exchanges a message. *)
Record talks (s s' : service P) : Prop := {
  tk_header : header s' = header s; tk_now : now s <= now s'; tk_requests : requests s' = requests s;
  tk_completions : completions s' = completions s;
  tk_observations : exists more, observations s' = observations s ++ more;
  tk_finished : finished s' = finished s }.

Lemma talks_refl s p : talks s (set_process p s).
Proof. constructor; try done. exists []. by rewrite app_nil_r. Qed.

Lemma read_talks answer s a s' : read answer s = (a, s') ->
  talks s s' /\ forall r, a = Ok r -> observations s' = observations s ++ events r.
Proof.
  unfold read. intros E. erewrite sbind_step in E by reflexivity.
  destruct (answer (process s)) as [[r|e] p]; erewrite sbind_step in E by reflexivity; [|injection E as <- <-; split; [apply talks_refl|done]].
  erewrite sbind_step in E by reflexivity.
  destruct (now_ns r) as [| |t| | | |]; try (injection E as <- <-; split; [apply talks_refl|done]).
  erewrite sbind_step in E by reflexivity. unfold sbind at 1, require, lift, ensure in E.
  destruct (now s <=? t) eqn:Ht; [|injection E as <- <-; split; [apply talks_refl|done]].
  injection E as <- <-. apply Z.leb_le in Ht. split; [|by intros r0 [= <-]]. constructor; try done. by exists (events r).
Qed.

Lemma send_talks c s a s' : send c s = (a, s') ->
  talks s s' /\ forall r, a = Ok r -> observations s' = observations s ++ events r /\ finished s = false.
Proof.
  unfold send. intros E. erewrite sbind_step in E by reflexivity. unfold sbind, require, lift, ensure in E.
  destruct (negb (finished s)) eqn:Hf.
  - apply read_talks in E as [Ht Ho]. split; [done|]. intros r Hr. split; [by apply Ho|]. by destruct (finished s).
  - injection E as <- <-. split; [|done]. constructor; try done. exists []. by rewrite app_nil_r.
Qed.

Lemma talks_inv s s' : talks s s' -> client_inv s -> client_inv s'.
Proof. intros [_ Hn Hr Hc _ _] []. constructor; rewrite ?Hr, ?Hc; try done. lia. Qed.

Lemma remember_inv s r : client_inv s -> dget (requests s) (request_id r) = None ->
  client_inv (set_requests (dset (requests s) (request_id r) r) s).
Proof.
  intros [] Hn. constructor; cbn; try done; [by apply NoDup_dkeys_dset|intros id Hid; apply elem_dkeys_dset; auto|].
  intros id r'. rewrite dget_dset. case_decide; [|eauto]. by intros [= <-].
Qed.

(** *** Each call, whether it succeeds or raises *)

Lemma fresh_spec r s a s' : fresh r s = (a, s') -> s' = s /\ forall u, a = Ok u -> dget (requests s) (request_id r) = None.
Proof.
  unfold fresh. intros E. erewrite sbind_step in E by reflexivity. unfold require, lift, ensure in E. injection E as <- <-.
  split; [done|]. intros u. destruct (dmem _ _) eqn:Hm; [done|]. intros _. unfold dmem in Hm. by destruct (dget _ _).
Qed.

Lemma submit_spec r s a s' : submit r s = (a, s') -> client_inv s -> client_inv s' /\ now s <= now s'.
Proof.
  unfold submit. intros E Hi. unfold sbind at 1 in E. destruct (fresh r s) as [[[]|e] s1] eqn:E1;
    apply fresh_spec in E1 as [-> Hf]; [|by injection E as _ <-]. specialize (Hf tt eq_refl).
  unfold sbind at 1 in E. destruct (send (Submit r) s) as [[d|e] s1] eqn:E1;
    apply send_talks in E1 as [Ht _]; pose proof (talks_inv _ _ Ht Hi) as Hi1; pose proof (tk_now _ _ Ht);
    [|by injection E as _ <-].
  unfold sbind, require, lift, ensure in E. destruct (match content d with Accepted _ => _ | _ => _ end); [|by injection E as _ <-].
  injection E as _ <-. split; [|done]. apply remember_inv; [done|]. by rewrite (tk_requests _ _ Ht).
Qed.

Lemma try_submit_spec r s a s' : try_submit r s = (a, s') -> client_inv s ->
  client_inv s' /\ now s <= now s' /\ forall d, a = Ok d ->
    dget (requests s) (request_id r) = None /\ completions s' = completions s /\ header s' = header s
    /\ requests s' = (if submitted d then dset (requests s) (request_id r) (issued_at (backend_arrival_ns d) r) else requests s).
Proof.
  unfold try_submit. intros E Hi. unfold sbind at 1 in E. destruct (fresh r s) as [[[]|e] s1] eqn:E1;
    apply fresh_spec in E1 as [-> Hf]; [|by injection E as <- <-]. specialize (Hf tt eq_refl).
  unfold sbind at 1 in E. destruct (send (TrySubmit r) s) as [[d|e] s1] eqn:E1;
    apply send_talks in E1 as [Ht _]; pose proof (talks_inv _ _ Ht Hi) as Hi1; destruct Ht as [Hh Hn Hr Hc _ _];
    [|by injection E as <- <-].
  unfold sbind at 1, lift in E. destruct (content d) as [| |d'| | |]; try by injection E as <- <-.
  unfold sbind in E. destruct (submitted d') eqn:Hs; injection E as <- <-.
  - split; [apply (remember_inv s1 (issued_at (backend_arrival_ns d') r)); [done|by rewrite Hr]|].
    split; [done|]. intros d0 [= <-]. rewrite Hs. cbn. by rewrite Hr.
  - split; [done|]. split; [done|]. intros d0 [= <-]. by rewrite Hs.
Qed.

(** A decision of the gate is the one that the process answered. *)
Lemma try_submit_asked r s d s' : try_submit r s = (Ok d, s') -> exists a p', exchange (TrySubmit r) (process s) = (Ok a, p') /\ content a = Gate d.
Proof.
  unfold try_submit. intros E. unfold sbind at 1 in E. destruct (fresh r s) as [[[]|e] s1] eqn:E1; [|done].
  apply fresh_spec in E1 as [-> _]. unfold sbind at 1 in E. destruct (send (TrySubmit r) s) as [[a|e] s1] eqn:E2; [|done].
  assert (Ea : exists p', exchange (TrySubmit r) (process s) = (Ok a, p')).
  { unfold send, read, sbind, get, require, lift, ensure, put, modify, sret in E2. destruct (negb (finished s)); [|done].
    destruct (exchange (TrySubmit r) (process s)) as [[a'|e] p']; [|done]. exists p'.
    destruct (now_ns a'); try done. destruct (now s <=? z); [|done]. by injection E2 as -> _. }
  destruct Ea as [p' Ea]. exists a, p'. split; [done|]. unfold sbind at 1, lift in E. destruct (content a) as [| |d'| | |]; try done.
  unfold sbind in E. by destruct (submitted d'); injection E as -> _.
Qed.

Lemma until_spec t s a s' : until t s = (a, s') -> client_inv s ->
  client_inv s' /\ now s <= now s' /\ forall c, a = Ok c ->
    now s' <= t /\ requests s' = requests s /\ header s' = header s /\
    match c with
    | None => now s' = t /\ completions s' = completions s
    | Some c => c_request_id c ∈ dkeys (requests s) /\ dget (completions s) (c_request_id c) = None
                /\ completions s' = dset (completions s) (c_request_id c) c
    end.
Proof.
  unfold until. intros E Hi. unfold sbind at 1 in E. destruct (send (Until t) s) as [[d|e] s1] eqn:E1;
    apply send_talks in E1 as [Ht _]; pose proof (talks_inv _ _ Ht Hi) as Hi1; destruct Ht as [Hh Hn Hr Hc _ _];
    [|by injection E as <- <-].
  unfold sbind at 1, lift in E. destruct (content d) as [| | |c| |]; try by injection E as <- <-.
  unfold sbind at 1, get in E. unfold sbind at 1, require, lift, ensure in E.
  destruct (negb _) eqn:Hb in E; [|by injection E as <- <-].
  apply negb_true_iff, orb_false_iff in Hb as [H1%Z.ltb_ge H2].
  destruct c as [c|]; unfold sbind in E.
  - destruct (dmem _ _ && _) eqn:Hb in E; [|by injection E as <- <-].
    apply andb_prop in Hb as [Hm Hm']. injection E as <- <-.
    assert (Hk : c_request_id c ∈ dkeys (requests s1)).
    { apply dget_is_Some. unfold dmem in Hm. by destruct (dget _ _). }
    assert (Hk' : dget (completions s1) (c_request_id c) = None).
    { unfold dmem in Hm'. by destruct (dget _ _). }
    rewrite Hr in Hk. rewrite Hc in Hk'. split; [|split; [done|]].
    + destruct Hi1. constructor; cbn; try done; [by apply NoDup_dkeys_dset|].
      intros id [->|Hid]%elem_dkeys_dset; [by rewrite Hr|by apply ci_known0].
    + intros c0 [= <-]. cbn. by rewrite Hc.
  - injection E as <- <-. split; [done|]. split; [done|]. intros c [= <-]. cbn [bool_decide] in H2.
    rewrite bool_decide_eq_true_2 in H2 by done. apply negb_false_iff, Z.eqb_eq in H2. split; [done|]. by rewrite Hr, Hh.
Qed.

Lemma file_events s l rows : foldM (file_event s) l ((fun rid => (rid, [])) <$> dkeys (requests s)) = Ok rows ->
  dkeys rows = dkeys (requests s)
  /\ (forall e, e ∈ l -> ev_request_id e ∈ dkeys (requests s))
  /\ forall rid row, dget rows rid = Some row -> NoDup (dkeys row)
       /\ dvals row = filter (fun e => ev_request_id e = rid) l
       /\ forall k e, (k, e) ∈ row -> ev_kind e = k /\ exists r, dget (requests s) rid = Some r
            /\ ev_bytes e = bytes r /\ ev_arrival_ns e = issue_ns r /\ 0 <= device_outstanding e <= queue_depth s.
Proof.
  intros H. refine (foldM_Ok_ind (fun l rows => dkeys rows = dkeys (requests s)
    /\ (forall e, e ∈ l -> ev_request_id e ∈ dkeys (requests s))
    /\ forall rid row, dget rows rid = Some row -> NoDup (dkeys row)
       /\ dvals row = filter (fun e => ev_request_id e = rid) l
       /\ forall k e, (k, e) ∈ row -> ev_kind e = k /\ exists r, dget (requests s) rid = Some r
            /\ ev_bytes e = bytes r /\ ev_arrival_ns e = issue_ns r /\ 0 <= device_outstanding e <= queue_depth s)
    _ _ _ _ _ _ H); clear H rows.
  - split; [apply dkeys_map|]. split; [intros e He; by apply not_elem_of_nil in He|].
    intros rid row Hr%dget_Some_elem%list_elem_of_fmap. destruct Hr as (k & [= -> ->] & _).
    split; [constructor|]. split; [done|]. intros k' e He. by apply not_elem_of_nil in He.
  - intros done e todo rows rows' _ (Hk & Hin & Hrow) H. unfold file_event in H. inv_ok.
    match goal with H : of_option _ (dget rows _) = Ok ?r |- _ => rename r into row; rename H into Hg end.
    destruct (dget rows (ev_request_id e)) as [row0|] eqn:Hg'; [|done]. injection Hg as ->.
    match goal with H : dindex _ _ = Ok ?r0 |- _ => rename r0 into r; apply dindex_Ok in H; rename H into Hr end.
    match goal with H : negb (dmem row _) = true |- _ => rename H into Hm end.
    assert (Hnk : ev_kind e ∉ dkeys row).
    { apply dget_None. unfold dmem in Hm. by destruct (dget row _). }
    assert (Hke : ev_request_id e ∈ dkeys rows) by (apply dget_is_Some; eauto).
    split; [by rewrite dkeys_dset_in|]. split.
    { intros e' [He'|He']%elem_of_app; [by apply Hin|]. apply list_elem_of_singleton in He' as ->. by rewrite <- Hk. }
    intros rid row'. rewrite dget_dset, filter_app, filter_cons, filter_nil. case_decide as Hd.
    + intros [= <-]. subst rid. destruct (Hrow _ _ Hg') as (Hnd & Hv & Hev). rewrite ?decide_True by done.
      rewrite dkeys_dset_notin by done. split; [|split].
      * unfold dkeys. rewrite fmap_app. apply NoDup_app. split; [done|]. split; [|apply NoDup_singleton].
        intros k Hk1 Hk2. apply list_elem_of_singleton in Hk2 as ->. by apply Hnk.
      * unfold dvals in *. rewrite fmap_app. by rewrite Hv.
      * intros k e' [He|He]%elem_of_app; [by apply Hev|]. apply list_elem_of_singleton in He as [= -> ->].
        split; [done|]. exists r. split; [done|]. lia.
    + intros Hr'. rewrite ?decide_False by done. rewrite app_nil_r. by apply Hrow.
Qed.

(** Three distinct keys make up a row. *)
Lemma row_three (row : dict Z event) : NoDup (dkeys row) -> same_set (dkeys row) [0; 1; 2] = true ->
  exists e0 e1 e2, dget row 0 = Some e0 /\ dget row 1 = Some e1 /\ dget row 2 = Some e2 /\ dvals row ≡ₚ [e0; e1; e2].
Proof.
  intros Hnd Hs. assert (Hk : forall k, k ∈ dkeys row <-> k ∈ [0; 1; 2]).
  { unfold same_set in Hs. apply andb_prop in Hs as [H1 H2]. apply bool_decide_eq_true in H1, H2.
    rewrite Forall_forall in H1, H2. intros k. split; auto. }
  destruct (proj2 (dget_is_Some row 0)) as [e0 H0]; [apply Hk; set_solver|].
  destruct (proj2 (dget_is_Some row 1)) as [e1 H1]; [apply Hk; set_solver|].
  destruct (proj2 (dget_is_Some row 2)) as [e2 H2]; [apply Hk; set_solver|].
  exists e0, e1, e2. split_and!; try done.
  enough (E : row ≡ₚ [(0, e0); (1, e1); (2, e2)]) by (unfold dvals; by rewrite E).
  apply NoDup_Permutation.
  - by eapply NoDup_fmap_1.
  - apply (NoDup_fmap_1 fst). by apply (bool_decide_unpack _).
  - intros [k e]. split.
    + intros He. assert (Hin : k ∈ dkeys row) by (apply list_elem_of_fmap; by exists (k, e)).
      apply Hk in Hin. pose proof (dget_elem _ _ _ Hnd He) as Hg. set_solver.
    + intros He. apply dget_Some_elem. set_solver.
Qed.

(** ** Correctness *)

(** The media history of a request: its three observations, in order of time,
    from the issue of the request to its reported completion. *)
Definition history_ok (depth : Z) (obs : list event) (rid : Z) (r : request) (c : completion) : Prop :=
  exists e0 e1 e2,
    filter (fun e => ev_request_id e = rid) obs ≡ₚ [e0; e1; e2]
    /\ ev_kind e0 = 0 /\ ev_kind e1 = 1 /\ ev_kind e2 = 2
    /\ issue_ns r = ev_time_ns e0 /\ ev_time_ns e0 <= ev_time_ns e1 <= ev_time_ns e2
    /\ ev_time_ns e2 <= reported_complete c /\ ev_reported_complete e2 = reported_complete c
    /\ Forall (fun e => ev_bytes e = bytes r /\ ev_arrival_ns e = issue_ns r /\ 0 <= device_outstanding e <= depth) [e0; e1; e2].

(** Every observation belongs to a request, and every request to a completion
    and a media history. *)
Definition histories_ok (depth : Z) (reqs : dict Z request) (comps : dict Z completion) (obs : list event) : Prop :=
  (forall e, e ∈ obs -> ev_request_id e ∈ dkeys reqs)
  /\ forall rid r, dget reqs rid = Some r -> exists c, dget comps rid = Some c /\ history_ok depth obs rid r c.

(** The receipt covers exactly the requests. *)
Definition covers (s : service P) (r : receipt) : Prop :=
  pending r = 0 /\ issued r = Z.of_nat (length (requests s)) /\ completed r = Z.of_nat (length (requests s))
  /\ issued_bytes r = zsum (bytes <$> dvals (requests s)) /\ completed_bytes r = zsum (bytes <$> dvals (requests s)).

Lemma three_sorted a b c : isort zle [a; b; c] = [a; b; c] <-> a <= b <= c.
Proof.
  split.
  - intros H. pose proof (isort_sorted zle (bo_total (le := zle)) (bo_trans (le := zle)) [a; b; c]) as Hs.
    rewrite H in Hs. cbn in Hs. destruct Hs as (H1 & H2 & _). rewrite Forall_forall in H1, H2. unfold zle in *.
    assert (a <=? b = true) by (apply H1; set_solver). assert (b <=? c = true) by (apply H2; set_solver). lia.
  - intros H. apply isort_id. cbn. unfold zle. rewrite !Forall_cons, !Forall_nil, !Z.leb_le. split_and!; try done; lia.
Qed.

(** The filed observations of a request pass the last check exactly when they
    are its media history. *)
Lemma lifecycle_history s rid row r : client_inv s -> dget (requests s) rid = Some r -> NoDup (dkeys row) ->
  dvals row = filter (fun e => ev_request_id e = rid) (observations s) ->
  (forall k e, (k, e) ∈ row -> ev_kind e = k /\ exists r, dget (requests s) rid = Some r
     /\ ev_bytes e = bytes r /\ ev_arrival_ns e = issue_ns r /\ 0 <= device_outstanding e <= queue_depth s) ->
  check_lifecycle s (rid, row) = Ok tt ->
  exists c, dget (completions s) rid = Some c /\ history_ok (queue_depth s) (observations s) rid r c.
Proof.
  intros Hi Hr Hnd Hv Hev H. unfold check_lifecycle in H.
  apply bind_Ok in H as (? & Hset%ensure_Ok & H). destruct (row_three row Hnd Hset) as (e0 & e1 & e2 & H0 & H1 & H2 & Hp).
  unfold dindex in H. rewrite H0, H1, H2, Hr in H. cbn [rbind] in H. destruct (dget (completions s) rid) as [c|]; [|done].
  cbn [rbind] in H. apply ensure_Ok in H. exists c. split; [done|].
  apply andb_prop in H as [H Hc2]. apply andb_prop in H as [H Hc1]. apply andb_prop in H as [Hc0 Hs].
  apply bool_decide_eq_true, three_sorted in Hs.
  exists e0, e1, e2. rewrite <- Hv. split; [done|].
  apply dget_Some_elem in H0, H1, H2.
  destruct (Hev _ _ H0) as (? & r0 & Hr0 & ?), (Hev _ _ H1) as (? & r1 & Hr1 & ?), (Hev _ _ H2) as (? & r2 & Hr2 & ?).
  assert (r0 = r /\ r1 = r /\ r2 = r) as (-> & -> & ->) by (split_and!; congruence).
  split_and!; try done; try lia. rewrite !Forall_cons, Forall_nil. split_and!; first [done|lia].
Qed.

(** Reaching the end of [finish]. *)
Lemma finish_Ok s r s' : finish s = (Ok r, s') ->
  exists s1 code rows, talks s s1 /\ finished s = false /\ s' = set_finished s1 /\ conserved s1 code r = true
    /\ foldM (file_event s1) (observations s1) ((fun rid => (rid, [])) <$> dkeys (requests s1)) = Ok rows
    /\ is_ok (mapR (check_lifecycle s1) rows) = true.
Proof.
  unfold finish. intros E. unfold sbind at 1 in E. destruct (send Finish s) as [[d|e] s1] eqn:E1; [|done].
  apply send_talks in E1 as [Ht Ho]. destruct (Ho d eq_refl) as [_ Hf].
  erewrite sbind_step in E by reflexivity. peel_ok E code Hcode. peel_ok E r0 Hr0. peel_ok_guard E Hc.
  peel_ok E rows Hrows. peel_ok E us Hus. injection E as <- <-.
  exists s1, code, rows. split_and!; try done. by rewrite Hus.
Qed.

Lemma reachable_client s : reachable s -> client_inv s.
Proof.
  induction 1 as [p s Hs|s r a s' _ IH E|s r a s' _ IH E|s t a s' _ IH E|s a s' _ IH E].
  - unfold init in Hs. destruct (read _ _) as [[r|e] s1] eqn:E; [|done]. destruct (content r); try done. inv_ok.
    apply read_talks in E as [[_ Hn _ _ _ _] _]. cbn in Hn. constructor; cbn; try done; constructor.
  - by eapply submit_spec.
  - by eapply try_submit_spec.
  - by eapply until_spec.
  - unfold finish in E. unfold sbind at 1 in E. destruct (send Finish s) as [[d|e] s1] eqn:E1;
      apply send_talks in E1 as [Ht _]; pose proof (talks_inv _ _ Ht IH) as Hi1; [|by injection E as _ <-].
    erewrite sbind_step in E by reflexivity. peel E code Hcode. peel E r0 Hr0. peel_guard E Hc.
    peel E rows Hrows. peel E us Hus. injection E as _ <-. destruct Hi1. by constructor.
Qed.

(** Filing a complete history succeeds. *)
Lemma file_histories s : client_inv s -> histories_ok (queue_depth s) (requests s) (completions s) (observations s) ->
  exists rows, foldM (file_event s) (observations s) ((fun rid => (rid, [])) <$> dkeys (requests s)) = Ok rows.
Proof.
  intros Hi [Hin Hall].
  edestruct (foldM_inv (fun done rows => dkeys rows = dkeys (requests s)
    /\ forall rid row, dget rows rid = Some row -> dkeys row = ev_kind <$> filter (fun e => ev_request_id e = rid) done)
    (file_event s) (observations s)) as (rows & H & _); [| |by eauto].
  - split; [apply dkeys_map|]. intros rid row Hr%dget_Some_elem%list_elem_of_fmap. by destruct Hr as (k & [= -> ->] & _).
  - intros done e todo rows Hl (Hk & Hrow). assert (He : e ∈ observations s) by (rewrite Hl; set_solver).
    pose proof (Hin _ He) as Hkey. pose proof Hkey as Hkey'. rewrite <- Hk in Hkey'.
    apply dget_is_Some in Hkey as [r Hr]. apply dget_is_Some in Hkey' as [row Hg].
    destruct (Hall _ _ Hr) as (c & Hc & e0 & e1 & e2 & Hp & K0 & K1 & K2 & _ & _ & _ & _ & Hf).
    assert (Hmem : e ∈ [e0; e1; e2]) by (rewrite <- Hp; by apply list_elem_of_filter).
    rewrite Forall_forall in Hf. destruct (Hf _ Hmem) as (Hb & Ha & Hd).
    assert (Hnd : NoDup (ev_kind <$> filter (fun e' => ev_request_id e' = ev_request_id e) (observations s))).
    { rewrite Hp. cbn. rewrite K0, K1, K2. by apply (bool_decide_unpack _). }
    assert (Hnew : ev_kind e ∉ dkeys row).
    { rewrite (Hrow _ _ Hg). rewrite Hl, filter_app, filter_cons, decide_True, fmap_app, fmap_cons in Hnd by done.
      apply NoDup_app in Hnd as (_ & Hnd & _). intros Hbad. by apply (Hnd _ Hbad), elem_of_cons; left. }
    unfold file_event. rewrite Hg. cbn [of_option rbind].
    rewrite bool_decide_eq_true_2 by set_solver. unfold dmem. rewrite (proj2 (dget_None _ _) Hnew).
    unfold dindex. rewrite Hr. cbn [rbind negb andb ensure of_option].
    rewrite Hb, Ha, !Z.eqb_refl, (proj2 (Z.leb_le _ _)), (proj2 (Z.leb_le _ _)) by lia. cbn.
    eexists. split; [reflexivity|]. split.
    + rewrite dkeys_dset_in; [done|]. apply dget_is_Some; eauto.
    + intros rid row'. rewrite dget_dset, filter_app, filter_cons, filter_nil. case_decide as E.
      * intros [= <-]. subst. rewrite ?decide_True, dkeys_dset_notin by done. unfold dkeys. rewrite !fmap_app. cbn.
        by rewrite <- (Hrow _ _ Hg).
      * intros Hr'. rewrite ?decide_False, app_nil_r by done. by apply Hrow.
Qed.
(** A complete history passes the last check. *)
Lemma history_lifecycle s rid row r c : dget (requests s) rid = Some r -> dget (completions s) rid = Some c ->
  NoDup (dkeys row) -> dvals row = filter (fun e => ev_request_id e = rid) (observations s) ->
  (forall k e, (k, e) ∈ row -> ev_kind e = k) -> history_ok (queue_depth s) (observations s) rid r c ->
  check_lifecycle s (rid, row) = Ok tt.
Proof.
  intros Hr Hc Hnd Hv Hev (e0 & e1 & e2 & Hp & K0 & K1 & K2 & Hi & H01 & H2 & Hrep & _). rewrite <- Hv in Hp.
  assert (Hmem : forall e, e ∈ [e0; e1; e2] -> dget row (ev_kind e) = Some e).
  { intros e He. rewrite <- Hp in He. apply list_elem_of_fmap in He as ([k e'] & -> & He). cbn.
    rewrite (Hev _ _ He). by apply dget_elem. }
  pose proof (Hmem e0 ltac:(set_solver)) as G0. pose proof (Hmem e1 ltac:(set_solver)) as G1.
  pose proof (Hmem e2 ltac:(set_solver)) as G2. rewrite K0 in G0. rewrite K1 in G1. rewrite K2 in G2.
  assert (Hset : same_set (dkeys row) [0; 1; 2] = true).
  { unfold same_set. apply andb_true_intro. split; apply bool_decide_eq_true; apply Forall_forall; intros k Hk.
    - apply list_elem_of_fmap in Hk as ([k' e] & -> & He). cbn. rewrite <- (Hev _ _ He).
      assert (He' : e ∈ [e0; e1; e2]) by (rewrite <- Hp; apply list_elem_of_fmap; by exists (k', e)).
      set_solver.
    - apply dget_is_Some. set_solver. }
  unfold check_lifecycle. rewrite Hset. cbn [ensure rbind]. unfold dindex. rewrite G0, G1, G2, Hr, Hc. cbn [of_option rbind].
  rewrite Hi, Hrep, !Z.eqb_refl, (proj2 (Z.leb_le _ _) H2), (bool_decide_eq_true_2 _ (proj2 (three_sorted _ _ _) H01)). done.
Qed.

(** What [finish] establishes. *)
Lemma finish_spec (s s' : service P) (r : receipt) : client_inv s -> finish s = (Ok r, s') ->
  finished s' = true /\ requests s' = requests s /\ completions s' = completions s
  /\ covers s r /\ histories_ok (queue_depth s) (requests s) (completions s) (observations s').
Proof.
  intros Hi (s1 & code & rows & Ht & Hf & -> & Hc & Hfile & Hall)%finish_Ok.
  pose proof (talks_inv _ _ Ht Hi) as Hi1. destruct Ht as [Hh _ Hr Hco _ _].
  destruct (file_events _ _ _ Hfile) as (Hk & Hin & Hrow). cbn. rewrite Hr in *.
  assert (Hq : queue_depth s1 = queue_depth s) by (unfold queue_depth; by rewrite Hh).
  unfold conserved in Hc. repeat (apply andb_prop in Hc as [Hc ?]). rewrite Hr in *.
  split_and!; try done.
  - unfold covers. split_and!; lia.
  - split; [done|]. intros rid req Hreq.
    assert (Hkey : rid ∈ dkeys rows) by (rewrite Hk; apply dget_is_Some; eauto).
    apply dget_is_Some in Hkey as [row Hg]. destruct (Hrow _ _ Hg) as (Hnd & Hv & Hev).
    destruct (mapR (check_lifecycle s1) rows) as [us|] eqn:Hus; [|done].
    rewrite <- Hq, <- Hco. eapply (lifecycle_history s1 rid row); try done; [by rewrite Hr|by rewrite Hr|].
    apply dget_Some_elem in Hg. destruct (mapR_ran _ _ _ _ Hus Hg) as ([] & Hx). done.
Qed.

(** C29: a receipt is granted only for conserved work.  When [finish] returns,
    every observation the process ever reported belongs to an accepted request;
    every accepted request completed and has exactly three observations, one of
    each kind, with its byte count and issue time, in order of time between its
    issue and its reported completion; the receipt counts exactly the accepted
    requests and their bytes; and the client is closed. *)
Theorem mqsim_receipt_sound (s s' : service P) (r : receipt) : reachable s -> finish s = (Ok r, s') ->
  finished s' = true /\ requests s' = requests s /\ completions s' = completions s
  /\ covers s r /\ histories_ok (queue_depth s) (requests s) (completions s) (observations s').
Proof. intros Hi%reachable_client. by apply finish_spec. Qed.

(** ** A well-behaved process

    The reads that the native service serves: [try_submit] of
    [benchmarks/replay/hbf_mqsim_service.cpp] ends the process on any other.  An identity is
    a positive 64-bit number; a read is one page of the profile, a multiple of 512
    bytes, of a stack of the stack map, within the capacity; and the total of the
    bytes accepted so far stays within 64 bits. *)
Record geometry := { g_page_bytes : Z; g_capacity_bytes : Z; g_stacks : list string }.

Definition U32_MAX : Z := 4294967295.

(** The global page of a page of a stack. *)
Definition external_page (g : geometry) (stack : string) (page : Z) : option Z :=
  (fun x => page * Z.of_nat (length (g_stacks g)) + Z.of_nat x.1) <$> list_find (eq stack) (g_stacks g).

Definition readable (g : geometry) (issued : Z) (r : request) : bool :=
  (0 <? request_id r) && (request_id r <=? U64_MAX)
  && (0 <? bytes r) && (bytes r <=? U32_MAX) && (bytes r mod 512 =? 0) && (bytes r =? g_page_bytes g) && (bytes r <=? g_capacity_bytes g)
  && (issued <=? U64_MAX - bytes r)
  && match where_ r with
     | Page k p => match external_page g k p with
                   | Some n => (0 <=? p) && (n <? g_capacity_bytes g / g_page_bytes g)
                   | None => false
                   end
     | Address _ => false
     end.

(** What a client relies on to make progress: a read that the service serves is
    answered; a horizon is answered, though one beyond the clock range may be
    refused; a gate defers a read only before [open_ns], to a later time; the
    horizon is respected and a completion comes with its one media callback
    (kind 2), not after the reported time, which an aggregate bandwidth bound may
    delay; and once everything completed the receipt and the observations are
    right.  [link] relates the process to what its client recorded: the time, the
    requests, the completions and the observations. *)
Class LiveNative (g : geometry) (depth open_ns : Z)
    (link : P -> Z -> dict Z request -> dict Z completion -> list event -> Prop) : Prop := {
  ln_try : forall p now reqs comps obs r,
    link p now reqs comps obs -> dget reqs (request_id r) = None -> issue_ns r = now ->
    readable g (zsum (bytes <$> dvals reqs)) r = true ->
    exists a p' d, exchange (TrySubmit r) p = (Ok a, p') /\ now_ns a = VInt now /\ content a = Gate d /\
      if submitted d
      then backend_arrival_ns d = now
           /\ link p' now (dset reqs (request_id r) (issued_at now r)) comps (obs ++ events a)
      else disposition d = 1 /\ now < open_ns /\ (exists t, target_ns d = Some t /\ now < t)
           /\ link p' now reqs comps (obs ++ events a);
  ln_until : forall p now reqs comps obs t,
    link p now reqs comps obs -> now <= t ->
    (U64_MAX < t /\ exists e p', exchange (Until t) p = (Raise e, p')) \/
    exists a p' now' c, exchange (Until t) p = (Ok a, p') /\ now_ns a = VInt now' /\ content a = Completion c
      /\ now <= now' <= t /\
      match c with
      | None => now' = t /\ link p' now' reqs comps (obs ++ events a)
      | Some c => c_request_id c ∈ dkeys reqs /\ c_request_id c ∉ dkeys comps /\ now <= reported_complete c
          /\ (exists e, filter (fun e => ev_kind e = 2 /\ ev_request_id e = c_request_id c) (obs ++ events a) = [e]
                /\ ev_time_ns e <= reported_complete c)
          /\ link p' now' reqs (dset comps (c_request_id c) c) (obs ++ events a)
      end;
  ln_finish : forall p now reqs comps obs,
    link p now reqs comps obs -> (forall id, id ∈ dkeys reqs <-> id ∈ dkeys comps) ->
    exists a p' n r, exchange Finish p = (Ok a, p') /\ now_ns a = VInt n /\ now <= n /\ content a = Receipt r
      /\ exit_code p' = Ok 0 /\ status r = "FINISHED" /\ pending r = 0
      /\ issued r = Z.of_nat (length reqs) /\ completed r = Z.of_nat (length reqs)
      /\ issued_bytes r = zsum (bytes <$> dvals reqs) /\ completed_bytes r = zsum (bytes <$> dvals reqs)
      /\ histories_ok depth reqs comps (obs ++ events a) }.

(** *** The calls of a client of such a process *)
Section live.
Context {g : geometry} {depth open_ns : Z} {link : P -> Z -> dict Z request -> dict Z completion -> list event -> Prop}.
Context `{!LiveNative g depth open_ns link}.

Definition linked (s : service P) : Prop :=
  finished s = false /\ queue_depth s = depth /\ link (process s) (now s) (requests s) (completions s) (observations s).

(** An answered command. *)
Lemma send_answered c s a p t : finished s = false -> exchange c (process s) = (Ok a, p) -> now_ns a = VInt t -> now s <= t ->
  send c s = (Ok a, received t a (set_process p s)).
Proof.
  intros Hf He Ht Hle. unfold send, read, sbind, get, require, lift, ensure. rewrite Hf. cbn [negb]. rewrite He.
  unfold put. rewrite Ht, (proj2 (Z.leb_le _ _) Hle). done.
Qed.

Lemma live_try s r : client_inv s -> linked s -> dget (requests s) (request_id r) = None -> issue_ns r = now s ->
  readable g (zsum (bytes <$> dvals (requests s))) r = true ->
  exists d s', try_submit r s = (Ok d, s') /\ linked s' /\ now s' = now s /\
    if submitted d then backend_arrival_ns d = now s
    else disposition d = 1 /\ now s < open_ns /\ exists t, target_ns d = Some t /\ now s < t.
Proof using LiveNative0.
  intros Hi (Hf & Hq & Hl) Hn Ht Hrd. destruct (ln_try _ _ _ _ _ _ Hl Hn Ht Hrd) as (a & p' & d & He & Hna & Hc & Hd).
  unfold try_submit. erewrite sbind_step by (unfold fresh, sbind, get, require, lift, dmem; by rewrite Hn).
  erewrite sbind_step by (by apply send_answered; [..|apply Z.le_refl]). erewrite sbind_step by (unfold lift; by rewrite Hc).
  exists d. destruct (submitted d) eqn:Hs; unfold sbind, remember, modify, sret; (eexists; split; [reflexivity|]); cbn.
  - destruct Hd as [Ha Hl']. rewrite Ha. done.
  - destruct Hd as (? & ? & ? & Hl'). done.
Qed.

Lemma live_until s t : client_inv s -> linked s -> now s <= t ->
  (U64_MAX < t /\ exists e s', until t s = (Raise e, s')) \/ exists c s', until t s = (Ok c, s') /\ linked s' /\
    match c with
    | None => True
    | Some c => now s <= reported_complete c /\
        exists e, filter (fun e => ev_kind e = 2 /\ ev_request_id e = c_request_id c) (observations s') = [e]
          /\ ev_time_ns e <= reported_complete c
    end.
Proof using LiveNative0.
  intros Hi (Hf & Hq & Hl) Ht. destruct (ln_until _ _ _ _ _ _ Hl Ht) as [[Hmax (e & p' & He)]|(a & p' & t' & c & He & Hna & Hc & Hle & Hd)].
  { left. split; [done|]. unfold until, send, read, sbind, get, require, lift, ensure. rewrite Hf. cbn [negb]. rewrite He. eauto. }
  right. unfold until. erewrite sbind_step by (apply send_answered; [done|exact He|exact Hna|lia]).
  erewrite sbind_step by (unfold lift; by rewrite Hc). erewrite sbind_step by reflexivity.
  exists c. destruct c as [c|].
  - destruct Hd as (Hk & Hk' & Hr & He' & Hl').
    assert (Hg : negb ((t <? t') || bool_decide (Some c = None) && negb (t' =? t)) = true).
    { rewrite (bool_decide_eq_false_2 (Some c = None)) by done. rewrite (proj2 (Z.ltb_ge _ _)) by lia. done. }
    erewrite sbind_step by (by apply require_Ok).
    unfold sbind at 1. erewrite sbind_step by (apply require_Ok; cbn; unfold dmem;
      apply dget_is_Some in Hk as [? ->]; by rewrite (proj2 (dget_None _ _) Hk')).
    eexists. split; [reflexivity|]. done.
  - destruct Hd as (-> & Hl').
    assert (Hg : negb ((t <? t) || bool_decide ((None : option completion) = None) && negb (t =? t)) = true).
    { by rewrite Z.ltb_irrefl, Z.eqb_refl, andb_false_r. }
    erewrite sbind_step by (by apply require_Ok).
    eexists. split; [reflexivity|]. done.
Qed.

Lemma live_finish s : client_inv s -> linked s -> (forall id, id ∈ dkeys (requests s) <-> id ∈ dkeys (completions s)) ->
  exists r s', finish s = (Ok r, s').
Proof using LiveNative0.
  intros Hi (Hf & Hq & Hl) Hk.
  destruct (ln_finish _ _ _ _ _ Hl Hk) as (a & p' & n & r & He & Hna & Hn & Hc & Hx & Hs & Hp & H1 & H2 & H3 & H4 & Hh).
  unfold finish. set (s1 := received n a (set_process p' s)).
  assert (Hsend : send Finish s = (Ok a, s1)) by (by apply send_answered).
  assert (Hi1 : client_inv s1) by (eapply talks_inv; [|exact Hi]; eapply send_talks; exact Hsend).
  erewrite sbind_step by exact Hsend. erewrite sbind_step by reflexivity. erewrite sbind_step by (apply lift_Ok; exact Hx).
  erewrite sbind_step by (apply lift_Ok; by rewrite Hc).
  assert (Hco : conserved s1 0 r = true).
  { unfold conserved. cbn. rewrite Hs, Hp, H1, H2, H3, H4, !Z.eqb_refl. cbn.
    unfold same_set. rewrite !andb_true_r. apply andb_true_intro. split; apply bool_decide_eq_true, Forall_forall; apply Hk. }
  erewrite sbind_step by (by apply require_Ok). rewrite <- Hq in Hh.
  destruct (file_histories s1 Hi1 Hh) as [rows Hrows]. erewrite sbind_step by (apply lift_Ok; exact Hrows).
  destruct (file_events _ _ _ Hrows) as (Hkeys & _ & Hrow).
  destruct (mapR_total (check_lifecycle s1) rows) as [us Hus].
  { intros [rid row] Hin. exists tt. assert (Hg : dget rows rid = Some row).
    { apply dget_elem; [|done]. rewrite Hkeys. apply (ci_requests _ Hi1). }
    destruct (Hrow _ _ Hg) as (Hnd & Hv & Hev).
    assert (Hkey : rid ∈ dkeys (requests s1)) by (rewrite <- Hkeys; apply dget_is_Some; eauto).
    apply dget_is_Some in Hkey as [req Hreq]. destruct (proj2 Hh _ _ Hreq) as (c & Hgc & Hist).
    eapply history_lifecycle; try done. intros k e Hke. by apply (Hev _ _ Hke). }
  erewrite sbind_step by (apply lift_Ok; exact Hus). eexists _, _. reflexivity.
Qed.
End live.
End client.

(** ** The client as the service of the prefetch replay *)

Section prefetch.
Context {P : Type} `{!Native P}.

Definition of_submission (x : PrefetchReplay.submission) : request :=
  {| request_id := PrefetchReplay.s_request_id x; issue_ns := PrefetchReplay.s_issue_ns x;
     bytes := PrefetchReplay.s_bytes x; where_ := Address (PrefetchReplay.s_address x) |}.
Definition to_completion (c : completion) : PrefetchReplay.completion :=
  {| PrefetchReplay.c_request_id := c_request_id c; PrefetchReplay.reported_complete := reported_complete c |}.

#[export] Instance client_service : PrefetchReplay.Service (service P) := {|
  PrefetchReplay.clock := now;
  PrefetchReplay.submit x := submit (of_submission x);
  PrefetchReplay.until h := let! c := until h in sret (to_completion <$> c) |}.

(** Whatever the process answers, the client's clock never moves back: the
    contract of the prefetch replay holds. *)
#[export] Instance client_forward : PrefetchReplay.ForwardService (S := service P).
Proof.
  intros x s s' E. change (submit (of_submission x) s = (Ok tt, s')) in E. unfold submit, sbind at 1 in E. destruct (fresh _ s) as [[[]|e] s1] eqn:E1; [|done].
  apply fresh_spec in E1 as [-> _]. unfold sbind at 1 in E. destruct (send _ s) as [[d|e] s1] eqn:E2; [|done].
  apply send_talks in E2 as [Ht _]. peel_ok_guard E Hg. injection E as <-. exact (tk_now _ _ Ht).
Qed.
End prefetch.

(** ** A device with a constant latency, gated until a given time *)
Section device.
Context (delay open_ns : Z) (g : geometry).

Record device := { dv_now : Z; dv_queue : list (Z * request); dv_issued : list request }.

Definition observe (kind : Z) (r : request) (t reported : Z) : event :=
  {| ev_kind := kind; ev_request_id := request_id r; ev_bytes := bytes r; ev_arrival_ns := issue_ns r;
     ev_time_ns := t; device_outstanding := 1; ev_reported_complete := reported |}.

Definition reply (t : Z) (l : list event) (b : body) : result response :=
  Ok {| now_ns := VInt t; events := l; native_command_events := []; content := b |}.

Definition take (r : request) (d : device) : device :=
  {| dv_now := dv_now d; dv_queue := dv_queue d ++ [(dv_now d + delay, r)]; dv_issued := dv_issued d ++ [r] |}.

Definition accept (r : request) : list event := [observe 0 r (issue_ns r) 0; observe 1 r (issue_ns r) 0].

Definition answer (c : command) (d : device) : result response * device :=
  match c with
  | Submit r => (reply (dv_now d) (accept r) (Accepted (VInt 1)), take r d)
  | TrySubmit r =>
      if negb (readable g (zsum (bytes <$> dv_issued d)) r) then (Raise (ValueError "invalid gated read extent, identity or arrival"), d)
      else if dv_now d <? open_ns
      then (reply (dv_now d) [] (Gate {| submitted := false; backend_arrival_ns := 0; disposition := 1;
                                          target_ns := Some open_ns; reason := "gate closed" |}), d)
      else let r' := issued_at (dv_now d) r in
           (reply (dv_now d) (accept r') (Gate {| submitted := true; backend_arrival_ns := dv_now d; disposition := 0;
                                                   target_ns := None; reason := "" |}), take r' d)
  | Until t =>
      match dv_queue d with
      | (e, r) :: rest =>
          if e <=? t
          then (reply e [observe 2 r e e] (Completion (Some {| c_request_id := request_id r; reported_complete := e |})),
                {| dv_now := e; dv_queue := rest; dv_issued := dv_issued d |})
          else (reply t [] (Completion None), {| dv_now := t; dv_queue := dv_queue d; dv_issued := dv_issued d |})
      | [] => (reply t [] (Completion None), {| dv_now := t; dv_queue := []; dv_issued := dv_issued d |})
      end
  | Finish =>
      let n := Z.of_nat (length (dv_issued d)) in
      let b := zsum (bytes <$> dv_issued d) in
      (reply (dv_now d) [] (Receipt {| status := "FINISHED"; pending := Z.of_nat (length (dv_queue d)); issued := n;
                                        completed := n; issued_bytes := b; completed_bytes := b |}), d)
  end.

Definition device_header : dict string pyval := [
  ("schema_version", VInt 1); ("service_source", VStr source); ("provenance", VStr "PROJECTED");
  ("scope", VStr "READ_ONLY_MEDIA_SERVICE_NOT_HARDWARE"); ("queue_depth", VInt 8); ("pending", VInt 0);
  ("page_bytes", VInt (g_page_bytes g))].

#[export] Instance device_native : Native device := {|
  greeting d := (reply (dv_now d) [] (Header device_header), d);
  exchange := answer;
  exit_code _ := Ok 0 |}.

Definition fresh_device : device := {| dv_now := 0; dv_queue := []; dv_issued := [] |}.

(** What the device remembers of the requests. *)
Definition served (r : request) : list event := accept r ++ [observe 2 r (issue_ns r + delay) (issue_ns r + delay)].

Record device_link (d : device) (t : Z) (reqs : dict Z request) (comps : dict Z completion) (obs : list event) : Prop := {
  dl_now : dv_now d = t;
  dl_issued : dv_issued d = dvals reqs;
  dl_keys : NoDup (dkeys reqs);
  dl_ids : forall id r, dget reqs id = Some r -> request_id r = id;
  dl_sorted : sorted (fun a b => a.1 <=? b.1) (dv_queue d);
  dl_times : Forall (fun x => t <= x.1 <= t + delay /\ x.1 = issue_ns x.2 + delay) (dv_queue d);
  dl_nodup : NoDup (request_id <$> (dv_queue d).*2);
  dl_queue : forall id, id ∈ request_id <$> (dv_queue d).*2 <-> id ∈ dkeys reqs /\ id ∉ dkeys comps;
  dl_queued : Forall (fun x => dget reqs (request_id x.2) = Some x.2) (dv_queue d);
  dl_completed : forall id, id ∈ dkeys comps -> id ∈ dkeys reqs;
  dl_comps : forall id c, dget comps id = Some c -> c_request_id c = id /\
    forall r, dget reqs id = Some r -> reported_complete c = issue_ns r + delay;
  dl_known : forall e, e ∈ obs -> ev_request_id e ∈ dkeys reqs;
  dl_events : forall id r, dget reqs id = Some r ->
    filter (fun e => ev_request_id e = id) obs = if decide (id ∈ dkeys comps) then served r else accept r }.

Context (Hdelay : 0 <= delay).

Lemma observe_ids r (l : list event) id : Forall (fun e => ev_request_id e = request_id r) l ->
  filter (fun e => ev_request_id e = id) l = if decide (request_id r = id) then l else [].
Proof using.
  intros Hl. case_decide as E.
  - apply filter_all. intros e He. rewrite Forall_forall in Hl. rewrite (Hl _ He). done.
  - induction Hl as [|e l He Hl IH]; [done|]. rewrite filter_cons, decide_False by congruence. done.
Qed.

Lemma accept_ids r : Forall (fun e => ev_request_id e = request_id r) (accept r).
Proof using. by repeat constructor. Qed.

Lemma device_try d t reqs comps obs r : device_link d t reqs comps obs -> dget reqs (request_id r) = None ->
  device_link (take (issued_at t r) d) t (dset reqs (request_id r) (issued_at t r)) comps
    (obs ++ accept (issued_at t r)).
Proof using Hdelay.
  intros H Hn. pose proof H as []. set (r' := issued_at t r). pose proof (proj1 (dget_None _ _) Hn) as Hnk.
  assert (Hq : request_id r ∉ request_id <$> (dv_queue d).*2) by (rewrite dl_queue0; tauto).
  assert (Hc : request_id r ∉ dkeys comps) by (intros Hc; by apply Hnk, dl_completed0).
  assert (Hne : forall id, id ∈ dkeys reqs -> id <> request_id r) by (intros id Hid ->; done).
  constructor; cbn [dv_now dv_queue dv_issued take].
  - done.
  - rewrite dl_issued0, dkeys_dset_notin by done. unfold dvals. by rewrite fmap_app.
  - by apply NoDup_dkeys_dset.
  - intros id r0. rewrite dget_dset. case_decide; [|eauto]. by intros [= <-].
  - apply sorted_snoc; [done|]. intros y Hy. rewrite Forall_forall in dl_times0. destruct (dl_times0 _ Hy). cbn. lia.
  - apply Forall_app. split; [done|]. rewrite Forall_singleton. cbn. lia.
  - rewrite !fmap_app. apply NoDup_app. split; [done|]. split; [|apply NoDup_singleton].
    intros id H1 H2. apply list_elem_of_singleton in H2 as ->. done.
  - intros id. rewrite !fmap_app, elem_of_app, dl_queue0, elem_dkeys_dset. cbn. rewrite list_elem_of_singleton.
    split; [intros [[? ?]| ->]; auto|]. intros [[-> |?] ?]; auto.
  - apply Forall_app. split; [|rewrite Forall_singleton; apply dget_dset_eq].
    eapply Forall_impl; [exact dl_queued0|]. intros [e q] Hg. cbn in *. rewrite dget_dset_ne; [done|].
    intros E. rewrite <- E in Hg. congruence.
  - intros id Hid. apply elem_dkeys_dset. right. by apply dl_completed0.
  - intros id c Hid. destruct (dl_comps0 _ _ Hid) as [Hid' Hr]. split; [done|]. intros r0. rewrite dget_dset_ne; [apply Hr|].
    intros <-. apply Hc, dget_is_Some. eauto.
  - intros e [He|He]%elem_of_app; apply elem_dkeys_dset; [right; by apply dl_known0|left].
    pose proof (accept_ids r') as Ha. rewrite Forall_forall in Ha. by apply Ha.
  - intros id r0. rewrite dget_dset, filter_app, (observe_ids r' _ id (accept_ids r')). cbn [request_id r' issued_at].
    case_decide as E.
    + intros [= <-]. subst id. rewrite decide_False by done. rewrite ?decide_True by done.
      enough (filter (fun e => ev_request_id e = request_id r) obs = []) as -> by done.
      destruct (filter _ obs) as [|e l] eqn:Ef; [done|]. assert (He : e ∈ e :: l) by set_solver.
      rewrite <- Ef in He. apply list_elem_of_filter in He as [E' He]. apply dl_known0 in He. rewrite E' in He. done.
    + intros Hr0. rewrite ?(decide_False (P := request_id r = id)) by done. rewrite app_nil_r. by apply dl_events0.
Qed.

Lemma device_idle d t t' reqs comps obs : device_link d t reqs comps obs -> t <= t' ->
  Forall (fun x => t' <= x.1) (dv_queue d) ->
  device_link {| dv_now := t'; dv_queue := dv_queue d; dv_issued := dv_issued d |} t' reqs comps (obs ++ []).
Proof using.
  intros [] Hle Hq. rewrite app_nil_r. constructor; cbn; try done. rewrite Forall_forall in *. intros x Hx.
  specialize (Hq x Hx). destruct (dl_times0 x Hx). lia.
Qed.

(** The next completion. *)
Lemma device_complete d t reqs comps obs e r rest : device_link d t reqs comps obs -> dv_queue d = (e, r) :: rest ->
  let c := {| c_request_id := request_id r; reported_complete := e |} in
  let obs' := obs ++ [observe 2 r e e] in
  t <= e /\ request_id r ∈ dkeys reqs /\ request_id r ∉ dkeys comps
  /\ filter (fun x => ev_kind x = 2 /\ ev_request_id x = request_id r) obs' = [observe 2 r e e]
  /\ device_link {| dv_now := e; dv_queue := rest; dv_issued := dv_issued d |} e reqs (dset comps (request_id r) c) obs'.
Proof using Hdelay.
  intros [] Eq c obs'. rewrite Eq in *. cbn in dl_sorted0, dl_nodup0. destruct dl_sorted0 as [Hs1 Hs2].
  apply NoDup_cons in dl_nodup0 as [Hn1 Hn2]. apply Forall_cons in dl_times0 as [[Ht He] Htimes].
  apply Forall_cons in dl_queued0 as [Hr Hqueued]. cbn in *.
  destruct (proj1 (dl_queue0 (request_id r))) as [Hk Hc]; [set_solver|].
  pose proof (dl_events0 _ _ Hr) as Hev. rewrite decide_False in Hev by done.
  assert (Ho : ev_request_id (observe 2 r e e) = request_id r) by done.
  split; [lia|]. split; [done|]. split; [done|]. split; [|constructor; cbn; try done].
  - unfold obs'. rewrite <- list_filter_filter. rewrite filter_app, Hev. cbn [filter]. unfold accept.
    rewrite (filter_cons _ (observe 2 r e e)), decide_True by done. done.
  - rewrite Forall_forall in *. intros x Hx. specialize (Hs1 x Hx). destruct (Htimes x Hx). lia.
  - intros id. rewrite elem_dkeys_dset. pose proof (dl_queue0 id) as Hid. rewrite elem_of_cons in Hid.
    destruct (decide (id = request_id r)) as [->|Hne]; [split; [done|]; tauto|]. tauto.
  - intros id [->|Hid]%elem_dkeys_dset; [done|by apply dl_completed0].
  - intros id c0. rewrite dget_dset. case_decide as E; [|apply dl_comps0]. intros [= <-]. subst id. split; [done|].
    intros r0 Hr0. cbn. assert (r0 = r) as -> by congruence. lia.
  - intros x [Hx|Hx]%elem_of_app; [by apply dl_known0|]. apply list_elem_of_singleton in Hx as ->. done.
  - intros id r0 Hr0. unfold obs'. rewrite filter_app, (dl_events0 _ _ Hr0), filter_cons, filter_nil.
    destruct (decide (id = request_id r)) as [->|Hne].
    + assert (r0 = r) as -> by congruence. rewrite decide_False, !decide_True by (done || (apply elem_dkeys_dset; by left)).
      unfold served. by rewrite <- He.
    + rewrite (decide_False (P := ev_request_id _ = id)) by (cbn; congruence). rewrite app_nil_r.
      destruct (decide (id ∈ dkeys comps)) as [Hin|Hin].
      * rewrite decide_True; [done|]. apply elem_dkeys_dset. by right.
      * rewrite decide_False; [done|]. rewrite elem_dkeys_dset. naive_solver.
Qed.

#[export] Instance device_live : LiveNative (Native0 := device_native) g 8 open_ns device_link.
Proof using Hdelay.
  constructor.
  - intros d t reqs comps obs r Hl Hn Ht Hrd. cbn. pose proof (dl_now _ _ _ _ _ Hl) as Hnow. rewrite Hnow, (dl_issued _ _ _ _ _ Hl), Hrd. cbn.
    destruct (t <? open_ns) eqn:E; (eexists _, _, _; split; [reflexivity|]; split; [done|]; split; [reflexivity|]; cbn).
    + apply Z.ltb_lt in E. rewrite app_nil_r. split_and!; eauto.
    + split; [done|]. by apply device_try.
  - intros d t reqs comps obs t' Hl Hle. right. cbn. destruct (dv_queue d) as [|[e r] rest] eqn:Eq.
    + eexists _, _, t', None. split; [reflexivity|]. split; [done|]. split; [done|]. split; [lia|]. split; [done|].
      pose proof (device_idle d t t' reqs comps obs Hl Hle) as Hd. rewrite Eq in Hd. by apply Hd.
    + destruct (device_complete _ _ _ _ _ _ _ _ Hl Eq) as (H1 & H2 & H3 & H4 & H5). destruct (e <=? t') eqn:E.
      * apply Z.leb_le in E. eexists _, _, e, (Some _). split; [reflexivity|]. split; [done|]. split; [done|].
        split; [lia|]. cbn. split_and!; [done..|lia| |done]. eexists. split; [done|]. cbn. lia.
      * apply Z.leb_gt in E. eexists _, _, t', None. split; [reflexivity|]. split; [done|]. split; [done|].
        split; [lia|]. split; [done|]. pose proof (device_idle d t t' reqs comps obs Hl Hle) as Hd. rewrite Eq in Hd.
        apply Hd. pose proof (dl_sorted _ _ _ _ _ Hl) as Hs. rewrite Eq in Hs. destruct Hs as [Hs _].
        constructor; [cbn; lia|]. rewrite Forall_forall in *. intros x Hx. specialize (Hs x Hx). cbn in Hs. lia.
  - intros d t reqs comps obs Hl Hk. cbn. pose proof Hl as []. eexists _, _, t, _. rewrite dl_now0.
    split; [reflexivity|]. split; [done|]. split; [lia|]. split; [reflexivity|]. cbn. rewrite app_nil_r, dl_issued0.
    assert (Hq : dv_queue d = []).
    { destruct (dv_queue d) as [|x q] eqn:Eq; [done|]. exfalso.
      destruct (proj1 (dl_queue0 (request_id x.2))) as [H1 H2]; [set_solver|]. by apply H2, Hk. }
    rewrite Hq. unfold dvals. rewrite length_fmap. split_and!; try done. split; [done|].
    intros id r Hr. assert (Hid : id ∈ dkeys comps) by (apply Hk, dget_is_Some; eauto).
    pose proof (dl_events0 _ _ Hr) as Hev. rewrite decide_True in Hev by done.
    unfold served, accept in Hev. cbn [app] in Hev. apply dget_is_Some in Hid as [c Hc]. exists c. split; [done|]. destruct (dl_comps0 _ _ Hc) as [_ Hrep].
    specialize (Hrep _ Hr). unfold history_ok. rewrite Hev. eexists _, _, _. split; [reflexivity|]. cbn.
    split_and!; try done; try lia. repeat (apply Forall_cons; split; [cbn; lia|]). constructor.
Qed.
End device.

(** *** A concrete run: two reads, gated until time 5, on a device of latency 50. *)
#[local] Existing Instance device_native.

Definition demo_geometry : geometry :=
  {| g_page_bytes := 512; g_capacity_bytes := 1048576; g_stacks := ["hbf0"; "hbf1"; "hbf2"; "hbf3"; "hbf4"; "hbf5"; "hbf6"; "hbf7"] |}.
Definition demo_client : result (service device) := @init device (device_native 50 5 demo_geometry) fresh_device.
Definition empty_client : service device := mkService fresh_device [] 0 [] [] [] [] false.
Definition demo_open : service device := match demo_client with Ok s => s | Raise _ => empty_client end.
Definition demo_read (id t : Z) : request := {| request_id := id; issue_ns := t; bytes := 512; where_ := Page "hbf0" id |}.
Definition demo_calls : list (M (service device) unit) :=
  let N := device_native 50 5 demo_geometry in
  [ (let! _ := @try_submit device N (demo_read 1 0) in sret tt); (let! _ := @until device N 5 in sret tt);
    (let! _ := @try_submit device N (demo_read 1 5) in sret tt); (let! _ := @try_submit device N (demo_read 2 5) in sret tt);
    (let! _ := @until device N 100 in sret tt); (let! _ := @until device N 100 in sret tt) ].
Definition demo_done : service device := foldl (fun s m => snd (m s)) demo_open demo_calls.

Lemma calls_reachable (l : list (M (service device) unit)) s :
  Forall (fun m => forall s, @reachable device (device_native 50 5 demo_geometry) s -> @reachable device (device_native 50 5 demo_geometry) (snd (m s))) l ->
  @reachable device (device_native 50 5 demo_geometry) s -> @reachable device (device_native 50 5 demo_geometry) (foldl (fun s m => snd (m s)) s l).
Proof. intros Hl. revert s. induction Hl as [|m l Hm Hl IH]; cbn; auto. Qed.

Lemma demo_done_reachable : @reachable device (device_native 50 5 demo_geometry) demo_done.
Proof.
  apply calls_reachable; [|apply (reach_init fresh_device); vm_compute; reflexivity].
  repeat (apply Forall_cons; split); [..|apply Forall_nil; done];
    intros s Hs; unfold sbind; match goal with |- context [?m s] => destruct (m s) as [[a|e] s'] eqn:E end; cbn;
    solve [by eapply reach_try | by eapply reach_until].
Qed.

Lemma mqsim_receipt_sound_witness : exists r s',
  @finish device (device_native 50 5 demo_geometry) demo_done = (Ok r, s') /\ covers demo_done r /\ length (requests demo_done) = 2%nat.
Proof.
  destruct (@finish device (device_native 50 5 demo_geometry) demo_done) as [[r|e] s'] eqn:E; [|vm_compute in E; discriminate E].
  exists r, s'. split; [reflexivity|]. split; [|vm_compute; reflexivity].
  exact (proj1 (proj2 (proj2 (proj2 (@mqsim_receipt_sound device (device_native 50 5 demo_geometry) demo_done s' r demo_done_reachable E))))).
Defined.
End MqsimService.
