(* ===== verification/BasicSystem.v ===== *)
(** * BasicSystem: the coordinator of the basic system

    Models [tools/eq3_basic_system.py]: [BasicSystem] composes the transfer
    fabric ([BasicFabric]), the HBM media servers ([BasicHbm]) and the native
    flash simulator MQSim into one event loop, and [engineering_fixture]
    declares a small system of each topology.

    The flash simulator is reached through its client ([MqsimService]), on any
    native process.  The request records that the source shares by
    reference between [_records], [_waiting] and [not_arrived] are stored once,
    in [records], and the lists hold identifiers.  The constant [limits] of the
    report are left out. *)

From S2P Require Import Prelude.
From S2P Require Import ProgramLogic.
From S2P Require Import BasicFabric.
From S2P Require Import BasicHbm.
From S2P Require Import MqsimService.
Import ProgramLogic.

Module BasicSystem.

Definition MODES : list string := ["all_hbf_direct"; "mixed_direct"; "relay"; "dash"].
Definition MAX_HORIZON_NS : Z := Z.shiftl 1 64 - 1.

Definition _integer (value : pyval) (label : string) (positive : bool) : result Z :=
  match value with
  | VInt z =>
      let? _ := ensure ((if positive then 1 else 0) <=? z) (ValueError (label +:+ " is outside its allowed range")) in
      Ok z
  | _ => Raise (ValueError (label +:+ " must be an integer"))
  end.

(** [value in names] for a set of strings: an unhashable value raises. *)
Definition in_names (value : pyval) (names : list string) : result bool :=
  match value with
  | VStr s => Ok (bool_decide (s ∈ names))
  | VList _ => Raise (TypeError "unhashable type: 'list'")
  | VDict _ => Raise (TypeError "unhashable type: 'dict'")
  | _ => Ok false
  end.
Definition is_str (value : pyval) (s : string) : bool := match value with VStr t => String.eqb t s | _ => false end.

(** ** The engineering fixture *)

Definition fixture_stage (latency : Z) : pyval :=
  VDict [("latency_ns", VInt latency); ("bandwidth_bytes_per_s", VInt 1000000000000)].

Definition paired (mode : string) : bool := String.eqb mode "relay" || String.eqb mode "dash".

Definition fixture_hbf (mode : string) (page_bytes : Z) (i : nat) : string * pyval :=
  ("hbf" +:+ pretty i, VDict [
    ("pair", if paired mode then VStr ("hbm" +:+ pretty i) else VNone);
    ("bank_count", VInt 2); ("bank_capacity_bytes", VInt page_bytes);
    ("fill", fixture_stage 1); ("direct_link", fixture_stage 2);
    ("relay_link", if paired mode then fixture_stage 3 else VNone)]).

Definition fixture_hbm (page_bytes : Z) (i : nat) : string * pyval :=
  ("hbm" +:+ pretty i, VDict [
    ("bank_count", VInt 2); ("bank_capacity_bytes", VInt page_bytes); ("gpu_link", fixture_stage 4)]).

Definition per_op (v : pyval) : pyval := VDict [("read", v); ("write", v)].

Definition fixture_media (i : nat) : pyval := VDict [
  ("stack_id", VStr ("hbm" +:+ pretty i));
  ("media_latency_ns", per_op (VInt 10)); ("media_latency_evidence", VStr "SCENARIO_ASSUMPTION");
  ("media_bandwidth_Bps", per_op (VInt 1000000000000)); ("media_bandwidth_evidence", VStr "SCENARIO_ASSUMPTION");
  ("energy_j_per_byte", per_op VNone); ("energy_evidence", VStr "UNKNOWN_UNPARAMETERIZED")].

Definition fixture_routes (mode : string) : list string :=
  if String.eqb mode "dash" then ["direct"; "relay"; "direct"; "relay"]
  else if String.eqb mode "relay" then ["relay"; "relay"; "relay"]
  else ["direct"; "direct"; "direct"].

Definition fixture_hbf_requests (mode : string) (page_bytes : Z) (i : nat) : list pyval :=
  imap (fun local_page route => VDict [
    ("request_id", VStr ("hbf" +:+ pretty i +:+ "-" +:+ route +:+ "-" +:+ pretty local_page));
    ("stack", VStr ("hbf" +:+ pretty i)); ("stack_local_page", VInt (Z.of_nat local_page)); ("route", VStr route);
    ("bytes", VInt page_bytes); ("arrival_ns", VInt 0); ("operation", VStr "read")]) (fixture_routes mode).

Definition fixture_hbm_requests (page_bytes : Z) (i : nat) : list pyval :=
  (fun local_index => VDict [
    ("request_id", VStr ("hbm" +:+ pretty i +:+ "-direct-" +:+ pretty local_index));
    ("stack", VStr ("hbm" +:+ pretty i)); ("route", VStr "direct");
    ("bytes", VInt page_bytes); ("arrival_ns", VInt 0); ("operation", VStr "read")]) <$> seq 0 3.

(** The declaration: its fabric and HBM configurations and its requests. *)
Record fixture := { fx_mode : string; fx_fabric : pyval; fx_hbm : option pyval; fx_requests : list pyval }.

Definition engineering_fixture (mode : string) (page_bytes : pyval) : result fixture :=
  let? _ := ensure (bool_decide (mode ∈ MODES)) (ValueError "unknown basic-system topology mode") in
  let? page := _integer page_bytes "page_bytes" true in
  let all := String.eqb mode "all_hbf_direct" in
  let hbf_count := if all then 8%nat else 4%nat in
  let hbm_count := if all then 0%nat else 4%nat in
  Ok {| fx_mode := mode;
        fx_fabric := VDict [("evidence", VStr "SCENARIO_ASSUMPTION");
                            ("hbf", VDict (fixture_hbf mode page <$> seq 0 hbf_count));
                            ("hbm", VDict (fixture_hbm page <$> seq 0 hbm_count))];
        fx_hbm := if all then None
                  else Some (VDict [("schema_version", VStr "eq3-basic-hbm-v1");
                                    ("evidence_class", VStr "PARAMETRIC_HBM_SCENARIO");
                                    ("stacks", VList (fixture_media <$> seq 0 hbm_count));
                                    ("claim_limit", VStr "small basic-system CPU fixture; not a real DRAM backend")]);
        fx_requests := concat (fixture_hbf_requests mode page <$> seq 0 hbf_count)
                       ++ concat (fixture_hbm_requests page <$> seq 0 hbm_count) |}.

(** ** The state *)

Inductive backend := HBF | HBM.
Inductive record_state :=
| EXTERNAL_WAIT | SOURCE_RESERVED | GATE_WAIT | BACKEND_PENDING | FABRIC_PENDING | COMPLETE.
#[export] Instance backend_eq_dec : EqDecision backend.
Proof. solve_decision. Defined.
#[export] Instance record_state_eq_dec : EqDecision record_state.
Proof. solve_decision. Defined.

Record record := {
  request_id : string; sequence : nat; kind : backend; stack : string; route : string; bytes : Z; arrival_ns : Z;
  operation : string; stack_local_page : option Z; state : record_state; backend_request_id : option Z;
  gate_decision : option MqsimService.gate; gate_target_ns : option Z; external_wait_ns : option Z;
  backend_submit_ns : option Z; backend_completion_ns : option Z; backend_media_ns : option Z;
  fabric_completion_ns : option Z; final_completion_ns : option Z }.

Record system (P : Type) := mkSystem {
  mode : string; mqsim : MqsimService.service P; hbm : option BasicHbm.hbm; fabric : BasicFabric.fabric;
  now_ns : Z; records : dict string record; waiting : list string; mq_pending : dict Z string;
  next_backend_id : Z; fabric_completion_count : nat; hbm_facts : list BasicHbm.fact }.
Arguments mkSystem {P}.
Arguments mode {P}. Arguments mqsim {P}. Arguments hbm {P}. Arguments fabric {P}. Arguments now_ns {P}.
Arguments records {P}. Arguments waiting {P}. Arguments mq_pending {P}. Arguments next_backend_id {P}.
Arguments fabric_completion_count {P}. Arguments hbm_facts {P}.

Section system.
Context {P : Type} `{!MqsimService.Native P}.
Notation M := (M (system P)).

Definition set_mqsim (v : MqsimService.service P) (s : system P) : system P :=
  mkSystem (mode s) v (hbm s) (fabric s) (now_ns s) (records s) (waiting s) (mq_pending s) (next_backend_id s)
    (fabric_completion_count s) (hbm_facts s).
Definition set_hbm (h : BasicHbm.hbm) (s : system P) : system P :=
  mkSystem (mode s) (mqsim s) (Some h) (fabric s) (now_ns s) (records s) (waiting s) (mq_pending s) (next_backend_id s)
    (fabric_completion_count s) (hbm_facts s).
Definition set_fabric (f : BasicFabric.fabric) (s : system P) : system P :=
  mkSystem (mode s) (mqsim s) (hbm s) f (now_ns s) (records s) (waiting s) (mq_pending s) (next_backend_id s)
    (fabric_completion_count s) (hbm_facts s).
Definition set_now (t : Z) (s : system P) : system P :=
  mkSystem (mode s) (mqsim s) (hbm s) (fabric s) t (records s) (waiting s) (mq_pending s) (next_backend_id s)
    (fabric_completion_count s) (hbm_facts s).
Definition set_records (d : dict string record) (s : system P) : system P :=
  mkSystem (mode s) (mqsim s) (hbm s) (fabric s) (now_ns s) d (waiting s) (mq_pending s) (next_backend_id s)
    (fabric_completion_count s) (hbm_facts s).
Definition set_waiting (l : list string) (s : system P) : system P :=
  mkSystem (mode s) (mqsim s) (hbm s) (fabric s) (now_ns s) (records s) l (mq_pending s) (next_backend_id s)
    (fabric_completion_count s) (hbm_facts s).
Definition set_mq_pending (d : dict Z string) (s : system P) : system P :=
  mkSystem (mode s) (mqsim s) (hbm s) (fabric s) (now_ns s) (records s) (waiting s) d (next_backend_id s)
    (fabric_completion_count s) (hbm_facts s).
Definition set_next_backend_id (n : Z) (s : system P) : system P :=
  mkSystem (mode s) (mqsim s) (hbm s) (fabric s) (now_ns s) (records s) (waiting s) (mq_pending s) n
    (fabric_completion_count s) (hbm_facts s).
Definition set_count (n : nat) (s : system P) : system P :=
  mkSystem (mode s) (mqsim s) (hbm s) (fabric s) (now_ns s) (records s) (waiting s) (mq_pending s) (next_backend_id s)
    n (hbm_facts s).
Definition set_facts (l : list BasicHbm.fact) (s : system P) : system P :=
  mkSystem (mode s) (mqsim s) (hbm s) (fabric s) (now_ns s) (records s) (waiting s) (mq_pending s) (next_backend_id s)
    (fabric_completion_count s) l.

(** ** Updates of a request record *)

Definition with_decision (d : MqsimService.gate) (r : record) : record :=
  {| request_id := request_id r; sequence := sequence r; kind := kind r; stack := stack r; route := route r;
     bytes := bytes r; arrival_ns := arrival_ns r; operation := operation r; stack_local_page := stack_local_page r;
     state := state r; backend_request_id := backend_request_id r; gate_decision := Some d;
     gate_target_ns := gate_target_ns r; external_wait_ns := external_wait_ns r; backend_submit_ns := backend_submit_ns r;
     backend_completion_ns := backend_completion_ns r; backend_media_ns := backend_media_ns r;
     fabric_completion_ns := fabric_completion_ns r; final_completion_ns := final_completion_ns r |}.
(** [SOURCE_RESERVED] with its backend identifier. *)
Definition reserved (backend_id : Z) (r : record) : record :=
  {| request_id := request_id r; sequence := sequence r; kind := kind r; stack := stack r; route := route r;
     bytes := bytes r; arrival_ns := arrival_ns r; operation := operation r; stack_local_page := stack_local_page r;
     state := SOURCE_RESERVED; backend_request_id := Some backend_id; gate_decision := gate_decision r;
     gate_target_ns := gate_target_ns r; external_wait_ns := external_wait_ns r; backend_submit_ns := backend_submit_ns r;
     backend_completion_ns := backend_completion_ns r; backend_media_ns := backend_media_ns r;
     fabric_completion_ns := fabric_completion_ns r; final_completion_ns := final_completion_ns r |}.
(** [GATE_WAIT] until [t]. *)
Definition gated (t : Z) (r : record) : record :=
  {| request_id := request_id r; sequence := sequence r; kind := kind r; stack := stack r; route := route r;
     bytes := bytes r; arrival_ns := arrival_ns r; operation := operation r; stack_local_page := stack_local_page r;
     state := GATE_WAIT; backend_request_id := backend_request_id r; gate_decision := gate_decision r;
     gate_target_ns := Some t; external_wait_ns := external_wait_ns r; backend_submit_ns := backend_submit_ns r;
     backend_completion_ns := backend_completion_ns r; backend_media_ns := backend_media_ns r;
     fabric_completion_ns := fabric_completion_ns r; final_completion_ns := final_completion_ns r |}.
(** [BACKEND_PENDING], submitted at [t]; [request.pop("gate_target_ns")]. *)
Definition submitted_at (t : Z) (r : record) : record :=
  {| request_id := request_id r; sequence := sequence r; kind := kind r; stack := stack r; route := route r;
     bytes := bytes r; arrival_ns := arrival_ns r; operation := operation r; stack_local_page := stack_local_page r;
     state := BACKEND_PENDING; backend_request_id := backend_request_id r; gate_decision := gate_decision r;
     gate_target_ns := None; external_wait_ns := Some (t - arrival_ns r); backend_submit_ns := Some t;
     backend_completion_ns := backend_completion_ns r; backend_media_ns := backend_media_ns r;
     fabric_completion_ns := fabric_completion_ns r; final_completion_ns := final_completion_ns r |}.
(** [FABRIC_PENDING]: the backend delivered at [t]. *)
Definition delivered_at (t : Z) (r : record) : record :=
  {| request_id := request_id r; sequence := sequence r; kind := kind r; stack := stack r; route := route r;
     bytes := bytes r; arrival_ns := arrival_ns r; operation := operation r; stack_local_page := stack_local_page r;
     state := FABRIC_PENDING; backend_request_id := backend_request_id r; gate_decision := gate_decision r;
     gate_target_ns := gate_target_ns r; external_wait_ns := external_wait_ns r; backend_submit_ns := backend_submit_ns r;
     backend_completion_ns := Some t; backend_media_ns := Some t;
     fabric_completion_ns := fabric_completion_ns r; final_completion_ns := final_completion_ns r |}.
(** [COMPLETE]: the fabric delivered at [t]. *)
Definition completed_at (t backend : Z) (r : record) : record :=
  {| request_id := request_id r; sequence := sequence r; kind := kind r; stack := stack r; route := route r;
     bytes := bytes r; arrival_ns := arrival_ns r; operation := operation r; stack_local_page := stack_local_page r;
     state := COMPLETE; backend_request_id := backend_request_id r; gate_decision := gate_decision r;
     gate_target_ns := gate_target_ns r; external_wait_ns := external_wait_ns r; backend_submit_ns := backend_submit_ns r;
     backend_completion_ns := backend_completion_ns r; backend_media_ns := backend_media_ns r;
     fabric_completion_ns := Some t; final_completion_ns := Some (Z.max backend t) |}.

(** [self._records[id]] and a mutation of that record. *)
Definition find (id : string) : M record := let! s := get in lift (of_option (KeyError id) (dget (records s) id)).
Definition update (id : string) (f : record -> record) : M unit :=
  let! r := find id in modify (fun s => set_records (dset (records s) id (f r)) s).

(** Calls of the three backends. *)
Definition call_mqsim {A} (m : Prelude.M (MqsimService.service P) A) : M A := fun s => let '(r, v) := m (mqsim s) in (r, set_mqsim v s).
Definition call_fabric {A} (m : Prelude.M BasicFabric.fabric A) : M A := fun s =>
  let '(r, f) := m (fabric s) in (r, set_fabric f s).
Definition call_hbm {A} (m : Prelude.M BasicHbm.hbm A) : M A := fun s =>
  match hbm s with
  | Some h => let '(r, h') := m h in (r, set_hbm h' s)
  | None => (Raise (AttributeError "'NoneType' object has no attribute"), s)
  end.

Definition hbf_names (s : system P) : list string := dkeys (BasicFabric.cfg_hbf (BasicFabric.cfg (fabric s))).
Definition hbm_names (s : system P) : list string := dkeys (BasicFabric.cfg_hbm (BasicFabric.cfg (fabric s))).

(** ** Construction and intake *)

Definition init (m : string) (q : MqsimService.service P) (h : option BasicHbm.hbm) (f : BasicFabric.fabric) : result (system P) :=
  let? _ := ensure (bool_decide (m ∈ MODES)) (ValueError "unknown basic-system topology mode") in
  let s := mkSystem m q h f 0 [] [] [] 1 0 [] in
  let? _ := ensure (negb (String.eqb m "all_hbf_direct" && negb (bool_decide (hbm_names s = []))))
              (ValueError "all_hbf_direct cannot configure in-package HBM") in
  let? _ := ensure (negb (paired m && (bool_decide (hbf_names s = []) || bool_decide (hbm_names s = []))))
              (ValueError "relay and DASH require explicit HBF/HBM pairs") in
  Ok s.

Definition REQUIRED : list string := ["request_id"; "stack"; "route"; "bytes"; "arrival_ns"; "operation"].

(** The route rules of a topology for an HBF source. *)
Definition check_hbf_route (m : string) (rt : pyval) : result unit :=
  let? _ := ensure (negb ((String.eqb m "all_hbf_direct" || String.eqb m "mixed_direct") && negb (is_str rt "direct")))
              (ValueError "this topology exposes only direct HBF package paths") in
  let? _ := ensure (negb (String.eqb m "relay" && negb (is_str rt "relay")))
              (ValueError "cascaded topology exposes no HBF direct GPU path") in
  if String.eqb m "dash" then
    let? ok := in_names rt ["direct"; "relay"] in ensure ok (ValueError "DASH HBF route must be direct or relay")
  else Ok tt.

(** The kind of source of a request and its page. *)
Definition check_source (s : system P) (d : dict string pyval) (st rt op : pyval) : result (backend * option Z) :=
  let? hbf := in_names st (hbf_names s) in
  if hbf then
    let? _ := ensure (is_str op "read") (ValueError "basic MQSim HBF path is read-only") in
    let? raw_page := of_option (ValueError "HBF request requires persistent stack_local_page") (dget d "stack_local_page") in
    let? page := _integer raw_page "stack_local_page" false in
    let? _ := check_hbf_route (mode s) rt in
    Ok (HBF, Some page)
  else
    let? in_hbm := in_names st (hbm_names s) in
    if in_hbm then
      let? _ := ensure (negb (String.eqb (mode s) "all_hbf_direct" || negb (is_str rt "direct")))
                  (ValueError "HBM is local/direct only where configured") in
      let? ok := in_names op ["read"; "write"] in
      let? _ := ensure ok (ValueError "basic HBM path supports read/write only") in
      Ok (HBM, None)
    else Raise (ValueError "request names an unconfigured stack").

(** The text of a value that was checked to be one of some strings. *)
Definition text (value : pyval) : string := match value with VStr s => s | _ => "" end.

Definition check_request (s : system P) (raw : pyval) (seq : nat) : result record :=
  let error := ValueError "request lacks required identity, path, extent, or arrival" in
  let? d := match raw with VDict d => Ok d | _ => Raise error end in
  let? _ := ensure (forallb (dmem d) REQUIRED) error in
  let? raw_id := dindex d "request_id" in
  let? id := match raw_id with
             | VStr i => let? _ := ensure (negb (String.eqb i "") && negb (dmem (records s) i))
                                     (ValueError "request_id must be unique and nonempty") in Ok i
             | _ => Raise (ValueError "request_id must be unique and nonempty")
             end in
  let? st := dindex d "stack" in
  let? rt := dindex d "route" in
  let? op := dindex d "operation" in
  let? (k, page) := check_source s d st rt op in
  let? raw_bytes := dindex d "bytes" in
  let? byte_count := _integer raw_bytes "bytes" true in
  let? raw_arrival := dindex d "arrival_ns" in
  let? arrival := _integer raw_arrival "arrival_ns" false in
  let? _ := ensure (match k, dget_or (MqsimService.header (mqsim s)) "page_bytes" VNone with
                    | HBM, _ | _, VNone => true
                    | HBF, page_bytes => MqsimService.equals_int page_bytes byte_count
                    end)
              (ValueError "HBF request must equal the mapped MQSim profile page size") in
  Ok {| request_id := id; sequence := seq; kind := k; stack := text st; route := text rt; bytes := byte_count;
        arrival_ns := arrival; operation := text op; stack_local_page := page; state := EXTERNAL_WAIT;
        backend_request_id := None; gate_decision := None; gate_target_ns := None; external_wait_ns := None;
        backend_submit_ns := None; backend_completion_ns := None; backend_media_ns := None;
        fabric_completion_ns := None; final_completion_ns := None |}.

Definition _validate_request (x : nat * pyval) : M unit :=
  let '(seq, raw) := x in
  let! s := get in
  let! r := lift (check_request s raw seq) in
  put (set_records (dset (records s) (request_id r) r) s).

(** ** Admission *)

Definition _try_hbf_submit (id : string) : M unit :=
  let! r := find id in
  let! s := get in
  let! backend_id := lift (of_option (KeyError "backend_request_id") (backend_request_id r)) in
  let! page := lift (of_option (KeyError "stack_local_page") (stack_local_page r)) in
  let! d := call_mqsim (MqsimService.try_submit
              {| MqsimService.request_id := backend_id; MqsimService.issue_ns := now_ns s; MqsimService.bytes := bytes r;
                 MqsimService.where_ := MqsimService.Page (stack r) page |}) in
  let! _ := update id (with_decision d) in
  if MqsimService.submitted d then
    let! _ := update id (submitted_at (MqsimService.backend_arrival_ns d)) in
    modify (fun s => set_mq_pending (dset (mq_pending s) backend_id id) s)
  else
    match MqsimService.disposition d =? 1, MqsimService.target_ns d with
    | true, Some t =>
        let! _ := require (now_ns s <? t) (RuntimeError "MQSim gate returned a nonfuture defer target") in
        update id (gated t)
    | _, _ => raise (UnsupportedComposition ("UNSUPPORTED_COMPOSITION: MQSim gate rejected request: " +:+ MqsimService.reason d))
    end.

Definition hbm_arrival_value (r : record) (t : Z) : pyval :=
  VDict [("request_id", VStr (request_id r)); ("stack_id", VStr (stack r)); ("op", VStr (operation r));
         ("bytes", VInt (bytes r)); ("arrival_ns", VInt t)].

(** One iteration of the loop of [_admit]: whether it made progress. *)
Definition admit_one (progress : bool) (id : string) : M bool :=
  let! r := find id in
  let! s := get in
  match state r with
  | GATE_WAIT =>
      let! t := lift (of_option (KeyError "gate_target_ns") (gate_target_ns r)) in
      if t <=? now_ns s then let! _ := _try_hbf_submit id in sret true else sret progress
  | EXTERNAL_WAIT =>
      if now_ns s <? arrival_ns r then sret progress else
      let! ok := call_fabric (BasicFabric.reserve_source (VStr id) (stack r) (route r) (VInt (bytes r)) (VInt (arrival_ns r))) in
      if negb ok then sret progress else
      let! _ :=
        match kind r with
        | HBF =>
            let backend_id := next_backend_id s in
            let! _ := modify (set_next_backend_id (backend_id + 1)) in
            let! _ := update id (reserved backend_id) in
            _try_hbf_submit id
        | HBM =>
            let! _ := update id (submitted_at (now_ns s)) in
            let! _ := call_hbm (BasicHbm.arrival (hbm_arrival_value r (now_ns s))) in
            let! _ := call_hbm (BasicHbm.submit id (VInt (now_ns s))) in
            sret tt
        end in
      sret true
  | _ => sret progress
  end.

(** [sorted(rows, key=lambda row: row["sequence"])], as identifiers. *)
Definition by_sequence (s : system P) (ids : list string) : list string :=
  request_id <$> isort (fun a b => Nat.leb (sequence a) (sequence b)) (omap (fun id => dget (records s) id) ids).

Definition _admit : M bool :=
  let! s := get in foldS admit_one (by_sequence s (waiting s)) false.

(** ** Completions *)

Definition _raw_mqsim_completion (backend_id reported : Z) : M Z :=
  let! s := get in
  match filter (fun e => MqsimService.ev_kind e = 2 /\ MqsimService.ev_request_id e = backend_id)
          (MqsimService.observations (mqsim s)) with
  | [o] =>
      let! _ := require (MqsimService.ev_time_ns o =? reported)
                  (UnsupportedComposition "UNSUPPORTED_COMPOSITION: MQSim aggregate bound differs from media callback") in
      sret (MqsimService.ev_time_ns o)
  | _ => raise (UnsupportedComposition "UNSUPPORTED_COMPOSITION: missing unique MQSim media callback")
  end.

Definition _accept_mqsim_completion (c : option MqsimService.completion) : M unit :=
  match c with
  | None => sret tt
  | Some c =>
      let! s := get in
      let! id := lift (of_option (RuntimeError "duplicate or unknown MQSim completion") (dget (mq_pending s) (MqsimService.c_request_id c))) in
      let! _ := put (set_mq_pending (ddel (mq_pending s) (MqsimService.c_request_id c)) s) in
      let! _ := find id in
      let! raw := _raw_mqsim_completion (MqsimService.c_request_id c) (MqsimService.reported_complete c) in
      let! _ := update id (delivered_at (MqsimService.reported_complete c)) in
      call_fabric (BasicFabric.mark_source_ready id (VInt (MqsimService.reported_complete c)))
  end.

Definition accept_hbm (c : BasicHbm.media_completion) : M unit :=
  let id := BasicHbm.m_request c in
  let! r := find id in
  let! _ := require (bool_decide (state r = BACKEND_PENDING)) (RuntimeError "duplicate or unknown HBM completion") in
  let! _ := update id (delivered_at (BasicHbm.m_time_ns c)) in
  call_fabric (BasicFabric.mark_source_ready id (VInt (BasicHbm.m_time_ns c))).

Definition _accept_hbm_completions : M unit :=
  let! s := get in
  match hbm s with
  | None => sret tt
  | Some _ =>
      let! cs := call_hbm BasicHbm.take_media_completions in
      let! _ := forM cs accept_hbm in
      let! facts := call_hbm BasicHbm.take_facts in
      modify (fun s => set_facts (hbm_facts s ++ facts) s)
  end.

Definition accept_fabric (c : BasicFabric.completion) : M unit :=
  let id := BasicFabric.c_request_id c in
  let! r := find id in
  let! _ := require (bool_decide (state r = FABRIC_PENDING)) (RuntimeError "duplicate or premature fabric completion") in
  let! backend := lift (of_option (TypeError "'>' not supported") (backend_completion_ns r)) in
  update id (completed_at (BasicFabric.completion_ns c) backend).

Definition _accept_fabric_completions : M unit :=
  let! s := get in
  let cs := BasicFabric.completions (fabric s) in
  let! _ := forM (drop (fabric_completion_count s) cs) accept_fabric in
  modify (set_count (length cs)).

(** ** The event loop *)

Definition _next_horizon (not_arrived : list string) : M (option Z) :=
  let! s := get in
  let arrivals := omap (fun id => arrival_ns <$> dget (records s) id) not_arrived in
  let! gates := lift (mapR (fun r => of_option (KeyError "gate_target_ns") (gate_target_ns r))
                        (filter (fun r => state r = GATE_WAIT) (dvals (records s)))) in
  let! media := match hbm s with Some h => lift (BasicHbm.next_event_ns h) | None => sret None end in
  let candidates := arrivals ++ gates ++ option_list media ++ option_list (BasicFabric.next_event_ns (fabric s)) in
  sret (match zmin_list candidates with
        | Some t => Some t
        | None => match mq_pending s with [] => None | _ => Some MAX_HORIZON_NS end
        end).

Definition later (s : system P) (ids : list string) : list string :=
  filter (fun id => (match dget (records s) id with Some r => now_ns s <? arrival_ns r | None => false end) = true) ids.

(** The body of the loop, without the filter of [not_arrived]. *)
Definition step (not_arrived : list string) : M unit :=
  let! _ := _admit in
  let! horizon := _next_horizon not_arrived in
  let! s := get in
  let! t := lift (of_option (RuntimeError "basic system deadlocked with no legal event") horizon) in
  let! _ := require (now_ns s <=? t) (RuntimeError "basic system deadlocked with no legal event") in
  let! c := call_mqsim (MqsimService.until t) in
  let! _ := modify (fun s => set_now (MqsimService.now (mqsim s)) s) in
  let! s := get in
  let! _ := match hbm s with Some _ => call_hbm (BasicHbm.advance (VInt (now_ns s))) | None => sret tt end in
  let! _ := _accept_mqsim_completion c in
  let! _ := _accept_hbm_completions in
  let! _ := call_fabric (BasicFabric.advance (VInt (now_ns s))) in
  _accept_fabric_completions.

Definition all_complete (s : system P) : bool := forallb (fun r => bool_decide (state r = COMPLETE)) (dvals (records s)).

Fixpoint run_loop (fuel : nat) (not_arrived : list string) : M unit :=
  match fuel with
  | O => raise OutOfFuel
  | S fuel' =>
      let! s := get in
      if all_complete s then sret tt else
      let left := later s not_arrived in
      let! _ := step left in
      run_loop fuel' left
  end.

(** ** The report *)

Definition occupied (o : option string) : bool := bool_decide (o <> None).
Definition leaked (f : BasicFabric.fabric) : bool :=
  let '(_, hbf, hbm_, unfinished) := BasicFabric.resource_state f in
  negb (bool_decide (unfinished = []))
  || existsb (fun row => existsb occupied (BasicFabric.banks row)
               || existsb occupied [BasicFabric.row_fill row; BasicFabric.row_direct row; BasicFabric.row_relay row]) (dvals hbf)
  || existsb (fun row => existsb occupied (BasicFabric.row_banks row) || occupied (BasicFabric.row_gpu row)) (dvals hbm_).

Record report := {
  topology_mode : string; time_ns : Z; completions : list record; stack_request_counts : dict string nat;
  mqsim_receipt : MqsimService.receipt; mqsim_native_events : list pyval; rep_hbm_facts : list BasicHbm.fact;
  fabric_events : list BasicFabric.event; external_gddr : bool }.

(** [sorted(self._hbf | self._hbm)]. *)
Definition stack_names (s : system P) : list string := isort sle (remove_dups (hbf_names s ++ hbm_names s)).

Definition run (fuel : nat) (requests : list pyval) : M report :=
  let! _ := forM (imap pair requests) _validate_request in
  let! s := get in
  let not_arrived := request_id <$> isort (fun a b => lex zle Nat.leb (arrival_ns a, sequence a) (arrival_ns b, sequence b)) (dvals (records s)) in
  let! _ := put (set_waiting not_arrived s) in
  let! _ := run_loop fuel not_arrived in
  let! receipt := call_mqsim MqsimService.finish in
  let! s := get in
  let! _ := require (negb (leaked (fabric s))) (RuntimeError "fabric resource ownership leaked after completion") in
  let rows := isort (fun a b => Nat.leb (sequence a) (sequence b)) (dvals (records s)) in
  sret {| topology_mode := mode s; time_ns := now_ns s; completions := rows;
          stack_request_counts := (fun k => (k, length (filter (fun r => stack r = k) rows))) <$> stack_names s;
          mqsim_receipt := receipt; mqsim_native_events := MqsimService.native_observations (mqsim s); rep_hbm_facts := hbm_facts s;
          fabric_events := BasicFabric.events (fabric s); external_gddr := String.eqb (mode s) "all_hbf_direct" |}.

(** ** One case of [tools/eq3_basic_system_actual.py]

    The backends of a declaration, on a started native process. *)
Definition open_system (p : P) (fx : fixture) : result (system P) :=
  let? q := MqsimService.init p in
  let? h := match fx_hbm fx with None => Ok None | Some v => let? h := BasicHbm.init v in Ok (Some h) end in
  let? f := BasicFabric.init (fx_fabric fx) in
  init (fx_mode fx) q h f.
End system.
End BasicSystem.
