(* ===== verification/SystemInvariant.v ===== *)
(** * SystemInvariant: the coordinator keeps its promises

    The correctness of [BasicSystem]: an invariant that ties every request
    record to its reservation in the fabric, its media request and its native
    read, kept by every step of the event loop; a measure that every iteration
    decreases; and the two theorems on [run], one for any native process and
    one for a process that answers. *)

From S2P Require Import Prelude.
From S2P Require Import ProgramLogic.
From S2P Require Import BasicFabric.
From S2P Require Import BasicHbm.
From S2P Require Import MqsimService.
From S2P Require Import BasicSystem.
Import ProgramLogic BasicSystem.

Module SystemInvariant.

(** What a request is, as opposed to how far it got. *)
Definition base (r : record) :=
  (request_id r, sequence r, kind r, stack r, route r, bytes r, arrival_ns r, operation r, stack_local_page r).

Lemma base_eq r r' : base r = base r' ->
  request_id r = request_id r' /\ sequence r = sequence r' /\ kind r = kind r' /\ stack r = stack r' /\ route r = route r'
  /\ bytes r = bytes r' /\ arrival_ns r = arrival_ns r' /\ operation r = operation r' /\ stack_local_page r = stack_local_page r'.
Proof. unfold base. intros [= -> -> -> -> -> -> -> -> ->]. done. Qed.

(** A request that its source can carry: the fabric accepts its route and size,
    and the HBM server has a finite, positive service time for it. *)
Definition fits (c : BasicFabric.config) (h : option BasicHbm.hbm) (r : record) : bool :=
  is_ok (BasicFabric.check_route c (stack r) (route r) (bytes r) true)
  && match kind r with
     | HBF => true
     | HBM => match h with
              | Some h =>
                  match dget (BasicHbm.stacks h) (stack r), BasicHbm.parse_op (VStr (operation r)) with
                  | Some st, Ok o => BasicHbm.serviceable st o (bytes r) && negb (BasicHbm.quick st o (bytes r))
                  | _, _ => false
                  end
              | None => false
              end
     end.

(** A request that the native service serves, if it is a read. *)
Definition served_by (g : MqsimService.geometry) (r : record) : bool :=
  match kind r, stack_local_page r with
  | HBF, Some p => MqsimService.readable g 0 {| MqsimService.request_id := 1; MqsimService.issue_ns := 0; MqsimService.bytes := bytes r;
                                                MqsimService.where_ := MqsimService.Page (stack r) p |}
  | HBF, None => false
  | HBM, _ => true
  end.

(** What validation establishes. *)
Record valid (id : string) (r : record) : Prop := {
  va_id : request_id r = id; va_name : id <> ""; va_bytes : 0 < bytes r; va_arrival : 0 <= arrival_ns r;
  va_page : kind r = HBF -> is_Some (stack_local_page r); va_op : kind r = HBM -> operation r ∈ ["read"; "write"] }.

Section verify.
Context {P : Type} `{!MqsimService.Native P}.
Notation system := (system P).
Notation service := (MqsimService.service P).

(** ** The contract with the flash simulator

    Under a strict contract every command is answered, within the clock range and
    for the reads that the process serves ([ct_serves], which also knows the bytes
    already issued); under a loose one a violation is a [fault].  When the gates
    open, a read is deferred only before [open_ns]. *)
Record contract := {
  strict : bool; gates : bool; ct_fault : exn -> Prop; open_ns : Z; ct_link : service -> Prop; ct_serves : Z -> MqsimService.request -> Prop;
  ct_try : forall v r, MqsimService.client_inv v -> ct_link v ->
    dget (MqsimService.requests v) (MqsimService.request_id r) = None ->
    (strict = true -> MqsimService.issue_ns r = MqsimService.now v) ->
    ct_serves (zsum (MqsimService.bytes <$> dvals (MqsimService.requests v))) r ->
    match MqsimService.try_submit r v with
    | (Raise e, _) => ct_fault e
    | (Ok d, v') => ct_link v' /\
        (gates = true -> MqsimService.submitted d = false -> MqsimService.disposition d = 1 -> MqsimService.issue_ns r < open_ns) /\
        (strict = true -> MqsimService.now v' = MqsimService.now v /\
        if MqsimService.submitted d then MqsimService.backend_arrival_ns d = MqsimService.now v
        else MqsimService.disposition d = 1
             /\ exists t, MqsimService.target_ns d = Some t /\ MqsimService.now v < t)
    end;
  ct_until : forall v t, MqsimService.client_inv v -> ct_link v -> (strict = true -> MqsimService.now v <= t) ->
    match MqsimService.until t v with
    | (Raise e, _) => ct_fault e \/ strict = true /\ MAX_HORIZON_NS < t
    | (Ok c, v') => ct_link v' /\ (strict = true ->
        match c with
        | None => True
        | Some c => MqsimService.now v <= MqsimService.reported_complete c /\ exists e,
            filter (fun e => MqsimService.ev_kind e = 2 /\ MqsimService.ev_request_id e = MqsimService.c_request_id c)
              (MqsimService.observations v') = [e]
        end)
    end;
  ct_finish : forall v, MqsimService.client_inv v -> ct_link v ->
    (forall id, id ∈ dkeys (MqsimService.requests v) <-> id ∈ dkeys (MqsimService.completions v)) ->
    match MqsimService.finish v with (Raise e, _) => ct_fault e | (Ok _, _) => True end }.

(** ** The invariant *)

Definition reserved_job (s : system) (id : string) : Prop :=
  exists j, BasicFabric.jobs (fabric s) !! id = Some j /\ BasicFabric.state j = BasicFabric.BACKEND_RESERVED.

(** The times of a request that its backend works on. *)
Definition submitted_ok (strict : bool) (r : record) : Prop :=
  exists a, backend_submit_ns r = Some a /\ external_wait_ns r = Some (a - arrival_ns r)
    /\ (strict = true \/ kind r = HBM -> arrival_ns r <= a).

(** The times of a request that its backend delivered. *)
Definition delivered_ok (strict : bool) (r : record) (t : Z) : Prop :=
  submitted_ok strict r /\ backend_completion_ns r = Some t /\ backend_media_ns r = Some t
  /\ (strict = true \/ kind r = HBM -> forall a, backend_submit_ns r = Some a -> a <= t).

(** The times of a complete request. *)
Definition complete_ok (strict : bool) (r : record) : Prop :=
  exists t c, delivered_ok strict r t /\ t <= c /\ fabric_completion_ns r = Some c /\ final_completion_ns r = Some c.

(** How far a request got, and what the components hold of it.  [u] are the HBM
    completions and [v] the fabric completions not yet accepted. *)
Definition link (strict : bool) (u v : list string) (s : system) (id : string) (r : record) : Prop :=
  match state r with
  | EXTERNAL_WAIT =>
      BasicFabric.jobs (fabric s) !! id = None /\ backend_request_id r = None
      /\ backend_completion_ns r = None /\ forall h, hbm s = Some h -> BasicHbm.requests h !! id = None
  | SOURCE_RESERVED => False
  | GATE_WAIT =>
      reserved_job s id /\ kind r = HBF /\ arrival_ns r <= BasicFabric.now (fabric s) /\ exists b t, backend_request_id r = Some b /\ gate_target_ns r = Some t
        /\ b ∉ dkeys (MqsimService.requests (mqsim s))
  | BACKEND_PENDING =>
      reserved_job s id /\ submitted_ok strict r /\
      (strict = true \/ kind r = HBM -> forall a, backend_submit_ns r = Some a -> a <= BasicFabric.now (fabric s)) /\
      match kind r with
      | HBF => exists b, backend_request_id r = Some b /\ dget (mq_pending s) b = Some id
      | HBM => exists h q, hbm s = Some h /\ BasicHbm.requests h !! id = Some q /\ BasicHbm.state q <> BasicHbm.ARRIVED
                 /\ (BasicHbm.is_complete h id <-> id ∈ u)
      end
  | FABRIC_PENDING =>
      exists j t, BasicFabric.jobs (fabric s) !! id = Some j /\ BasicFabric.state j <> BasicFabric.BACKEND_RESERVED
        /\ (BasicFabric.state j = BasicFabric.DONE <-> id ∈ v)
        /\ BasicFabric.ready_ns j = Some t /\ delivered_ok strict r t
  | COMPLETE =>
      complete_ok strict r /\ (forall c, fabric_completion_ns r = Some c -> c <= BasicFabric.now (fabric s))
      /\ exists j, BasicFabric.jobs (fabric s) !! id = Some j /\ BasicFabric.state j = BasicFabric.DONE
  end.

(** A read that was submitted, and the client's record of it. *)
Definition offered (r : record) : bool :=
  match state r with BACKEND_PENDING | FABRIC_PENDING | COMPLETE => true | _ => false end.
Definition matches (x : MqsimService.request) (r : record) : Prop :=
  MqsimService.bytes x = bytes r /\ backend_submit_ns r = Some (MqsimService.issue_ns x)
  /\ exists p, stack_local_page r = Some p /\ MqsimService.where_ x = MqsimService.Page (stack r) p.

(** The client's requests are exactly the submitted HBF requests. *)
Record native_reads (d : dict string record) (q : dict Z MqsimService.request) : Prop := {
  nr_known : forall b x, dget q b = Some x -> exists id r, dget d id = Some r /\ backend_request_id r = Some b
    /\ kind r = HBF /\ offered r = true /\ matches x r;
  nr_all : forall id r, dget d id = Some r -> kind r = HBF -> offered r = true ->
    exists b, backend_request_id r = Some b /\ b ∈ dkeys q }.

(** The counters: how many reads are numbered, how many bytes are issued, and the
    completion that a read was delivered with. *)
Definition numbered (r : record) : Z := match backend_request_id r with Some _ => 1 | None => 0 end.
Definition hbf_bytes (r : record) : Z := match kind r with HBF => bytes r | HBM => 0 end.
Definition issued (r : record) : Z := if offered r then hbf_bytes r else 0.

Record books (d : dict string record) (v : service) (next : Z) : Prop := {
  bk_next : next = 1 + zsum (numbered <$> dvals d);
  bk_issued : zsum (MqsimService.bytes <$> dvals (MqsimService.requests v)) = zsum (issued <$> dvals d);
  bk_kind : forall id r b, dget d id = Some r -> backend_request_id r = Some b -> kind r = HBF /\ 0 < b;
  bk_reported : forall id r b t, dget d id = Some r -> backend_request_id r = Some b -> backend_completion_ns r = Some t ->
    exists c, dget (MqsimService.completions v) b = Some c /\ MqsimService.reported_complete c = t }.

(** Facts of the whole state; [X] are the requests whose record is being
    updated, [recs0] the validated requests. *)
Record Inv (C : contract) (recs0 : dict string record) (u v X : list string) (s : system) : Prop := {
  iv_client : MqsimService.client_inv (mqsim s);
  iv_fabric : BasicFabric.fabric_inv (fabric s);
  iv_timely : BasicFabric.timely (fabric s);
  iv_fnow : 0 <= BasicFabric.now (fabric s);
  iv_hbm : forall h, hbm s = Some h -> BasicHbm.hbm_inv [] h;
  iv_keys : dkeys (records s) = dkeys recs0;
  iv_base : forall id r0 r, dget recs0 id = Some r0 -> dget (records s) id = Some r -> base r = base r0;
  iv_fits : forall id r0, dget recs0 id = Some r0 -> fits (BasicFabric.cfg (fabric s)) (hbm s) r0 = true;
  iv_jobs : forall id, is_Some (BasicFabric.jobs (fabric s) !! id) -> id ∈ dkeys recs0;
  iv_media : forall h id, hbm s = Some h -> is_Some (BasicHbm.requests h !! id) -> ~ BasicHbm.is_complete h id ->
    exists r, dget (records s) id = Some r /\ state r = BACKEND_PENDING /\ kind r = HBM;
  iv_link : forall id r, id ∉ X -> dget (records s) id = Some r -> link (strict C) u v s id r;
  iv_pkeys : NoDup (dkeys (mq_pending s));
  iv_pending : forall b id, dget (mq_pending s) b = Some id ->
    exists r, dget (records s) id = Some r /\ state r = BACKEND_PENDING /\ kind r = HBF /\ backend_request_id r = Some b;
  iv_ids : forall id r b, dget (records s) id = Some r -> backend_request_id r = Some b -> b < next_backend_id s;
  iv_inj : forall id id' r r' b, dget (records s) id = Some r -> dget (records s) id' = Some r' ->
    backend_request_id r = Some b -> backend_request_id r' = Some b -> id = id';
  iv_native : forall b, b ∈ dkeys (MqsimService.requests (mqsim s)) -> b < next_backend_id s;
  iv_reads : native_reads (records s) (MqsimService.requests (mqsim s));
  iv_books : books (records s) (mqsim s) (next_backend_id s) }.

(** At rest between calls: the clocks agree and everything is accepted. *)
Record Rest (C : contract) (recs0 : dict string record) (X : list string) (s : system) : Prop := {
  re_inv : Inv C recs0 [] [] X s;
  re_waiting : waiting s ≡ₚ dkeys recs0;
  re_clock : now_ns s <= MqsimService.now (mqsim s);
  re_strict : strict C = true -> MqsimService.now (mqsim s) = now_ns s;
  re_fabric : BasicFabric.now (fabric s) = now_ns s;
  re_hbm : forall h, hbm s = Some h -> BasicHbm.now_ns h = now_ns s /\ BasicHbm.quiet_until (now_ns s) h
    /\ BasicHbm.completions h = [];
  re_link : ct_link C (mqsim s);
  re_mq : forall b, b ∈ dkeys (mq_pending s) <->
    b ∈ dkeys (MqsimService.requests (mqsim s)) /\ b ∉ dkeys (MqsimService.completions (mqsim s));
  re_count : fabric_completion_count s = length (BasicFabric.completions (fabric s)) }.

(** ** The measure *)

Definition weight (open_ns now : Z) (r : record) : Z :=
  (if now <? arrival_ns r then 1 else 0) +
  match state r with
  | EXTERNAL_WAIT | SOURCE_RESERVED => 20 + 2 * Z.max 0 open_ns
  | GATE_WAIT => let t := default 0 (gate_target_ns r) in
                 3 + 2 * Z.max 0 (open_ns - t) + (if now <? t then 1 else 0)
  | BACKEND_PENDING => 2
  | FABRIC_PENDING => 1
  | COMPLETE => 0
  end.

Definition mu (open_ns : Z) (s : system) : Z :=
  zsum (weight open_ns (now_ns s) <$> dvals (records s))
  + Z.of_nat (BasicFabric.work (BasicFabric.jobs (fabric s)))
  + match hbm s with Some h => Z.of_nat (BasicHbm.work h) | None => 0 end.

(** The times the loop can be asked to reach, and a run that leaves the range of
    the clock. *)
Definition event_times (s : system) : list Z :=
  (arrival_ns <$> dvals (records s)) ++ omap gate_target_ns (dvals (records s))
  ++ match hbm s with
     | Some h => match BasicHbm.next_event_ns h with Ok o => option_list o | Raise _ => [] end
     | None => []
     end
  ++ option_list (BasicFabric.next_event_ns (fabric s)).

Definition overdue (s : system) : Prop :=
  MAX_HORIZON_NS <= now_ns s \/ exists t, MAX_HORIZON_NS < t /\ t ∈ event_times s.

(** The error of a completion whose reported time differs from that of its media
    callback, and such a completion. *)
Definition bound_differs : exn :=
  UnsupportedComposition "UNSUPPORTED_COMPOSITION: MQSim aggregate bound differs from media callback".
Definition bound_active (s : system) : Prop := exists b c e,
  dget (MqsimService.completions (mqsim s)) b = Some c /\ e ∈ MqsimService.observations (mqsim s) /\
  MqsimService.ev_kind e = 2 /\ MqsimService.ev_request_id e = b /\ MqsimService.ev_time_ns e <> MqsimService.reported_complete c.

(** What the coordinator reports of a process that breaks its contract. *)
Definition protocol (e : exn) : Prop :=
  e ∈ [RuntimeError "MQSim gate returned a nonfuture defer target";
       UnsupportedComposition "UNSUPPORTED_COMPOSITION: missing unique MQSim media callback"; bound_differs;
       ValueError "backend completion precedes current fabric time"; ValueError "backend_completion_ns must be non-negative"]
  \/ exists why, e = UnsupportedComposition ("UNSUPPORTED_COMPOSITION: MQSim gate rejected request: " +:+ why).

(** The coordinator finds no legal event once its clock has left the 64-bit range. *)
Definition out_of_range (e : exn) (s : system) : Prop :=
  e = RuntimeError "basic system deadlocked with no legal event" /\ MAX_HORIZON_NS < now_ns s.

Definition sys_fault (C : contract) (e : exn) (s : system) : Prop :=
  ct_fault C e \/ strict C = false /\ protocol e \/ strict C = true /\ (overdue s \/ e = bound_differs /\ bound_active s)
  \/ e = OutOfFuel /\ (gates C = true -> MAX_HORIZON_NS <= now_ns s) \/ out_of_range e s.

(** ** Updates of one record *)

Lemma zsum_dset {K V} `{EqDecision K} (f : V -> Z) (d : dict K V) k v v' : dget d k = Some v ->
  zsum (f <$> dvals (dset d k v')) = zsum (f <$> dvals d) - f v + f v'.
Proof.
  unfold dvals. induction d as [|[k0 v0] d IH]; [done|]. cbn [dget dset]. case_decide as E.
  - intros [= ->]. rewrite !fmap_cons. cbn. lia.
  - intros Hd. rewrite !fmap_cons. cbn [zsum foldr snd]. specialize (IH Hd). unfold zsum in IH. lia.
Qed.

(** A record that was not submitted, or stays submitted, keeps the reads. *)
Lemma reads_update d q id r r' : native_reads d q -> dget d id = Some r -> base r' = base r ->
  (offered r = true -> offered r' = true /\ backend_request_id r' = backend_request_id r /\ backend_submit_ns r' = backend_submit_ns r) ->
  (offered r = false -> kind r = HBF -> offered r' = false) -> native_reads (dset d id r') q.
Proof.
  intros [Hk Ha] Hr Hb Hon Hoff. apply base_eq in Hb as (E1 & E2 & E3 & E4 & E5 & E6 & E7 & E8 & E9). constructor.
  - intros b x Hx. destruct (Hk b x Hx) as (id1 & r1 & Hr1 & Hb1 & Hk1 & Ho1 & Hm1).
    destruct (decide (id = id1)) as [<-|Hne]; [|exists id1, r1; by rewrite dget_dset_ne].
    assert (r1 = r) as -> by congruence. destruct (Hon Ho1) as (Ho' & Hb' & Hs'). exists id, r'. rewrite dget_dset_eq, Hb', E3.
    unfold matches in *. by rewrite E4, E6, E9, Hs'.
  - intros id1 r1 [[-> ->]|[Hne Hr1]]%dset_cases Hk1 Ho1; [|by apply (Ha id1)]. rewrite E3 in Hk1.
    destruct (offered r) eqn:Ho; [|by rewrite (Hoff eq_refl Hk1) in Ho1]. destruct (Hon eq_refl) as (_ & -> & _). by apply (Ha id).
Qed.

Lemma reads_submit d q id r r' b x : native_reads d q -> dget d id = Some r -> offered r = false -> kind r' = HBF ->
  offered r' = true -> backend_request_id r' = Some b -> matches x r' -> b ∉ dkeys q ->
  native_reads (dset d id r') (dset q b x).
Proof.
  intros [Hk Ha] Hr Hoff Hk' Ho' Hb' Hm Hnew. constructor.
  - intros b1 x1. rewrite dget_dset. case_decide as E.
    + intros [= <-]. subst b1. exists id, r'. by rewrite dget_dset_eq.
    + intros Hx. destruct (Hk b1 x1 Hx) as (id1 & r1 & Hr1 & Hrest). exists id1, r1. rewrite dget_dset_ne; [done|].
      intros <-. assert (r1 = r) as -> by congruence. destruct Hrest as (_ & _ & ? & _). congruence.
  - intros id1 r1 [[-> ->]|[Hne Hr1]]%dset_cases Hk1 Ho1.
    + exists b. split; [done|]. apply elem_dkeys_dset. by left.
    + destruct (Ha id1 r1 Hr1 Hk1 Ho1) as (b1 & Hb1 & Hin). exists b1. split; [done|]. apply elem_dkeys_dset. by right.
Qed.

(** A record that changes without being numbered or issued keeps the books. *)
Lemma books_update d (v v' : service) next id r r' : books d v next -> dget d id = Some r -> numbered r' = numbered r -> issued r' = issued r ->
  backend_request_id r' = backend_request_id r -> kind r' = kind r -> MqsimService.requests v' = MqsimService.requests v ->
  (forall b c, dget (MqsimService.completions v) b = Some c -> dget (MqsimService.completions v') b = Some c) ->
  (forall b t, backend_request_id r = Some b -> backend_completion_ns r' = Some t -> backend_completion_ns r = Some t \/
     exists c, dget (MqsimService.completions v') b = Some c /\ MqsimService.reported_complete c = t) ->
  books (dset d id r') v' next.
Proof.
  intros [Hn Hi Hk Hp] Hr En Ei Eb Ek Er Hc Ht. constructor.
  - rewrite (zsum_dset _ _ _ _ _ Hr). lia.
  - rewrite Er, (zsum_dset _ _ _ _ _ Hr). lia.
  - intros id1 r1 b [[-> ->]|[_ Hr1]]%dset_cases; [rewrite Eb, Ek; by apply (Hk id)|by apply (Hk id1)].
  - intros id1 r1 b t [[-> ->]|[_ Hr1]]%dset_cases Hb Hb'.
    + rewrite Eb in Hb. destruct (Ht b t Hb Hb') as [Hold|Hnew]; [|done]. destruct (Hp id r b t Hr Hb Hold) as (c & ? & ?). eauto.
    + destruct (Hp id1 r1 b t Hr1 Hb Hb') as (c & ? & ?). eauto.
Qed.

Lemma books_number d v next id r r' : books d v next -> dget d id = Some r -> backend_request_id r = None -> kind r = HBF ->
  backend_request_id r' = Some next -> kind r' = HBF -> issued r' = issued r -> backend_completion_ns r' = None ->
  books (dset d id r') v (next + 1).
Proof.
  intros [Hn Hi Hk Hp] Hr Hb Hh Hb' Hh' Ei Hc.
  assert (Hpos : 0 <= zsum (numbered <$> dvals d)).
  { apply zsum_nonneg, Forall_forall. intros x (r1 & -> & _)%list_elem_of_fmap. unfold numbered. by case_match. }
  constructor.
  - rewrite (zsum_dset _ _ _ _ _ Hr). assert (numbered r = 0 /\ numbered r' = 1) as [-> ->] by (unfold numbered; by rewrite Hb, Hb'). lia.
  - rewrite (zsum_dset _ _ _ _ _ Hr). lia.
  - intros id1 r1 b [[-> ->]|[_ Hr1]]%dset_cases; [|by apply (Hk id1)]. rewrite Hb'. intros [= <-]. split; [done|lia].
  - intros id1 r1 b t [[-> ->]|[_ Hr1]]%dset_cases; [congruence|by apply (Hp id1)].
Qed.

Lemma books_submit d (v v' : service) next id r r' b x : books d v next -> dget d id = Some r -> numbered r' = numbered r ->
  backend_request_id r' = backend_request_id r -> kind r = HBF -> kind r' = HBF -> offered r = false -> offered r' = true -> bytes r' = MqsimService.bytes x ->
  backend_completion_ns r' = backend_completion_ns r -> MqsimService.completions v' = MqsimService.completions v ->
  b ∉ dkeys (MqsimService.requests v) -> MqsimService.requests v' = dset (MqsimService.requests v) b x -> books (dset d id r') v' next.
Proof.
  intros [Hn Hi Hk Hp] Hr En Eb Ek Ek' Ho Ho' Ex Ec Ev Hnew Er. constructor.
  - rewrite (zsum_dset _ _ _ _ _ Hr). lia.
  - rewrite Er, (zsum_dset _ _ _ _ _ Hr). unfold dvals at 1. rewrite dkeys_dset_notin, !fmap_app, zsum_app by done. unfold dvals in Hi at 1. rewrite Hi.
    assert (issued r = 0 /\ issued r' = MqsimService.bytes x) as [-> ->] by (unfold issued, hbf_bytes; by rewrite Ho, Ho', Ek', Ex). cbn. lia.
  - intros id1 r1 b1 [[-> ->]|[_ Hr1]]%dset_cases; [|by apply (Hk id1)]. rewrite Eb. intros Hb. split; [done|]. by apply (Hk id r).
  - intros id1 r1 b1 t [[-> ->]|[_ Hr1]]%dset_cases; rewrite Ev; [rewrite Eb, Ec; by apply (Hp id)|by apply (Hp id1)].
Qed.

Lemma zsum_map_gap {A} (f g : A -> Z) l x : (forall x, x ∈ l -> f x <= g x) -> x ∈ l -> zsum (f <$> l) + (g x - f x) <= zsum (g <$> l).
Proof.
  intros Hle Hx. induction l as [|y l IH]; [by apply not_elem_of_nil in Hx|]. rewrite !fmap_cons. cbn [zsum foldr].
  change (foldr Z.add 0 ?k) with (zsum k). pose proof (Hle y ltac:(set_solver)) as Hy. apply elem_of_cons in Hx as [->|Hx].
  - assert (zsum (f <$> l) <= zsum (g <$> l)) by (apply zsum_map_le; intros z Hz; apply Hle; set_solver). lia.
  - specialize (IH ltac:(intros z Hz; apply Hle; set_solver) Hx). lia.
Qed.

(** Every HBF request is one that the process serves, whatever its number. *)
Definition served_requests (C : contract) (recs0 : dict string record) : Prop := forall id r0 p b t i,
  dget recs0 id = Some r0 -> kind r0 = HBF -> stack_local_page r0 = Some p -> 0 < b <= zsum (hbf_bytes <$> dvals recs0) ->
  0 <= i -> i + bytes r0 <= zsum (hbf_bytes <$> dvals recs0) ->
  ct_serves C i {| MqsimService.request_id := b; MqsimService.issue_ns := t; MqsimService.bytes := bytes r0;
                   MqsimService.where_ := MqsimService.Page (stack r0) p |}.

Context (C : contract) (recs0 : dict string record) (Hnodup : NoDup (dkeys recs0))
  (Hvalid : forall id r, dget recs0 id = Some r -> valid id r) (Hserved : served_requests C recs0).
Notation wp := (wp (sys_fault C)).
Notation rest := (Rest C recs0).
Notation inv := (Inv C recs0).

(** Project the fields of an updated state. *)
Ltac sy_simpl :=
  cbn [mode mqsim hbm fabric now_ns records waiting mq_pending next_backend_id fabric_completion_count hbm_facts
       set_mqsim set_hbm set_fabric set_now set_records set_waiting set_mq_pending set_next_backend_id set_count set_facts] in *.

Lemma wp_find id r (Q : record -> system -> Prop) s : dget (records s) id = Some r -> Q r s -> wp (find id) Q s.
Proof using. intros Hr HQ. unfold find. wp_steps. eapply wp_lift; [|exact HQ]. by rewrite Hr. Qed.

Lemma wp_update id f r (Q : unit -> system -> Prop) s : dget (records s) id = Some r ->
  Q tt (set_records (dset (records s) id (f r)) s) -> wp (update id f) Q s.
Proof using. intros Hr HQ. unfold update. apply wp_bind. eapply wp_find; [exact Hr|]. by apply wp_modify. Qed.

(** A record that changes keeps its place. *)
Lemma keys_update (d : dict string record) id r r' : dkeys d = dkeys recs0 -> dget d id = Some r ->
  dkeys (dset d id r') = dkeys recs0.
Proof using. intros Hk Hr. rewrite dkeys_dset_in; [done|]. apply dget_is_Some. eauto. Qed.

Lemma record_known u v X s id r : inv u v X s -> dget (records s) id = Some r -> exists r0, dget recs0 id = Some r0
  /\ base r = base r0 /\ valid id r.
Proof using Hvalid.
  intros Hi Hr. assert (Hk : id ∈ dkeys recs0) by (rewrite <- (iv_keys _ _ _ _ _ _ Hi); apply dget_is_Some; eauto).
  apply dget_is_Some in Hk as [r0 Hr0]. pose proof (iv_base _ _ _ _ _ _ Hi _ _ _ Hr0 Hr) as Hb.
  exists r0. split; [done|]. split; [done|]. destruct (Hvalid _ _ Hr0).
  apply base_eq in Hb as (E1 & E2 & E3 & E4 & E5 & E6 & E7 & E8 & E9). constructor; rewrite ?E1, ?E3, ?E6, ?E7, ?E8, ?E9; done.
Qed.

(** What every request asked for is unchanged, in the order of intake. *)
Lemma record_rows u v X s : inv u v X s -> Forall2 (fun r r0 => base r = base r0) (dvals (records s)) (dvals recs0).
Proof using Hnodup.
  intros []. apply dvals_Forall2; [done|by rewrite iv_keys0|]. intros id r r0 Hr Hr0. by apply (iv_base0 id).
Qed.

Lemma fits_params c h h' r :
  (forall s st, dget (BasicHbm.stacks h) s = Some st ->
     exists st', dget (BasicHbm.stacks h') s = Some st' /\ BasicHbm.same_params st st') ->
  fits c (Some h) r = true -> fits c (Some h') r = true.
Proof using.
  intros Hparams [Hroute Hx]%andb_prop. unfold fits. rewrite Hroute, andb_true_l. destruct (kind r); [done|].
  destruct (dget (BasicHbm.stacks h) (stack r)) as [st|] eqn:Hs; [|done]. destruct (Hparams _ _ Hs) as (st' & -> & Hsame).
  destruct (BasicHbm.parse_op _); [|done]. by rewrite (BasicHbm.serviceable_params st), (BasicHbm.quick_params st).
Qed.

(** The link of a request that a step does not touch. *)
Lemma link_ext st u v (s s' : system) id r :
  BasicFabric.jobs (fabric s') !! id = BasicFabric.jobs (fabric s) !! id ->
  BasicFabric.now (fabric s) <= BasicFabric.now (fabric s') -> hbm s' = hbm s ->
  (forall b, backend_request_id r = Some b -> dget (mq_pending s) b = Some id -> dget (mq_pending s') b = Some id) ->
  (forall b, backend_request_id r = Some b -> b ∉ dkeys (MqsimService.requests (mqsim s)) ->
     b ∉ dkeys (MqsimService.requests (mqsim s'))) ->
  link st u v s id r -> link st u v s' id r.
Proof using.
  intros Ej En Eh Hp Hq Hl. unfold link, reserved_job in *. rewrite Ej, Eh. destruct (state r); try done.
  - destruct Hl as (Hr & Hk & Ha & b & t & Hb & Ht & Hn). split; [done|]. split; [done|]. split; [lia|]. exists b, t. auto.
  - destruct Hl as (Hr & Hs & Ha & Hm). split; [done|]. split; [done|]. split; [intros Hc a Hsub; specialize (Ha Hc a Hsub); lia|].
    destruct (kind r); [|done]. destruct Hm as (b & Hb & Hg). exists b. auto.
  - destruct Hl as (Hc & Hle & Hd). split; [done|]. split; [|done]. intros c Hf. specialize (Hle c Hf). lia.
Qed.

Lemma rest_open s id : rest [] s -> rest [id] s.
Proof using.
  intros []. constructor; try done. destruct re_inv0. constructor; try done. intros id' r _. apply iv_link0, not_elem_of_nil.
Qed.

(** ** Admission *)

(** The record of a read that was offered to the flash simulator. *)
Lemma rest_offer s id r r' b (v' : service) (sub : bool) :
  rest [id] s -> dget (records s) id = Some r -> kind r = HBF -> backend_request_id r = Some b ->
  b ∉ dkeys (MqsimService.requests (mqsim s)) -> reserved_job s id ->
  arrival_ns r <= now_ns s -> base r' = base r -> backend_request_id r' = Some b ->
  MqsimService.client_inv v' -> ct_link C v' -> MqsimService.now (mqsim s) <= MqsimService.now v' ->
  (strict C = true -> MqsimService.now v' = MqsimService.now (mqsim s)) ->
  MqsimService.completions v' = MqsimService.completions (mqsim s) ->
  (forall b', b' ∈ dkeys (MqsimService.requests v') <->
     (sub = true /\ b' = b) \/ b' ∈ dkeys (MqsimService.requests (mqsim s))) ->
  native_reads (dset (records s) id r') (MqsimService.requests v') -> books (dset (records s) id r') v' (next_backend_id s) ->
  (if sub then state r' = BACKEND_PENDING /\ submitted_ok (strict C) r' /\
     (strict C = true -> forall a, backend_submit_ns r' = Some a -> a <= now_ns s)
   else state r' = GATE_WAIT /\ is_Some (gate_target_ns r')) ->
  rest [] (set_mq_pending (if sub then dset (mq_pending s) b id else mq_pending s)
             (set_records (dset (records s) id r') (set_mqsim v' s))).
Proof using Hnodup Hvalid Hserved.
  intros [Hi Hwt Hck Hst Hf Hh Hl Hmq Hct] Hr Hk Hb Hnb Hres Harr Hbase Hb' Hcv Hlv Hnow Hns Hcomp Hreqs Hreads Hbooks Hnew.
  destruct (base_eq _ _ Hbase) as (_ & _ & Ek & _ & _ & _ & Ea & _).
  assert (Hnp : dget (mq_pending s) b = None).
  { apply dget_None. intros Hin%Hmq. tauto. }
  pose proof Hi as []. sy_simpl.
  constructor; sy_simpl; try done; [|lia| |].
  - constructor; sy_simpl; try done.
    + by eapply keys_update.
    + intros id' r0 r1 Hr0 [[-> ->]|[Hne Hr1]]%dset_cases; [|by eapply iv_base0]. rewrite Hbase. by eapply iv_base0.
    + intros h id' Hh0 H1 H2. destruct (iv_media0 h id' Hh0 H1 H2) as (r1 & Hr1 & Hs1 & Hk1). exists r1.
      rewrite dget_dset_ne; [done|]. intros <-. congruence.
    + intros id' r1 _ [[-> ->]|[Hne Hr1]]%dset_cases.
      * unfold link. destruct sub; destruct Hnew as (Es & Hx).
        -- rewrite Es. split; [done|]. destruct Hx as [Hsub Hle]. split; [done|]. rewrite Ek, Hk. split.
           ++ intros [Hc|Hc]; [|done]. sy_simpl. rewrite Hf. by apply Hle.
           ++ exists b. split; [done|]. apply dget_dset_eq.
        -- rewrite Es. destruct Hx as [t Ht]. split; [done|]. split; [congruence|]. split; [sy_simpl; lia|].
           exists b, t. split; [done|]. split; [done|].
           rewrite Hreqs. intros [[? _]|?]; done.
      * eapply link_ext; [..|apply (iv_link0 id' r1); [set_solver|done]]; sy_simpl; try done.
        -- intros b' Hb1 Hg. destruct sub; [|done]. rewrite dget_dset_ne; [done|]. intros <-. congruence.
        -- intros b' Hb1 Hn1. rewrite Hreqs. intros [[_ ->]|?]; [|done]. apply Hne. by eapply iv_inj0.
    + destruct sub; [by apply NoDup_dkeys_dset|done].
    + intros b' id'. destruct sub.
      * rewrite dget_dset. case_decide as E.
        -- intros [= <-]. subst b'. exists r'. rewrite dget_dset_eq. destruct Hnew as [? _]. split_and!; try done. congruence.
        -- intros Hg. destruct (iv_pending0 _ _ Hg) as (r1 & Hr1 & H1 & H2 & H3). exists r1. rewrite dget_dset_ne; [done|].
           intros <-. congruence.
      * intros Hg. destruct (iv_pending0 _ _ Hg) as (r1 & Hr1 & H1 & H2 & H3). exists r1. rewrite dget_dset_ne; [done|].
        intros <-. assert (b' = b) by congruence. subst b'. congruence.
    + intros id' r1 b' [[-> ->]|[Hne Hr1]]%dset_cases Hb1; [|by eapply iv_ids0]. assert (b' = b) as -> by congruence. by eapply iv_ids0.
    + intros id1 id2 r1 r2 b' [[-> ->]|[Hne1 Hr1]]%dset_cases [[-> ->]|[Hne2 Hr2]]%dset_cases Hb1 Hb2; try done;
        [| |by eapply iv_inj0]; assert (b' = b) as -> by congruence; by eapply iv_inj0.
    + intros b' [[_ ->]|Hin]%Hreqs; [by eapply iv_ids0|by apply iv_native0].
  - intros Hs. rewrite (Hns Hs). by apply Hst.
  - intros b'. rewrite Hcomp, Hreqs. destruct sub.
    + rewrite elem_dkeys_dset, Hmq. split; [intros [->|?]; [split; [auto|]|tauto]|intros [[[_ ->]|?] ?]; auto].
      intros Hin. apply Hnb. destruct (iv_client0). by apply ci_known.
    + rewrite Hmq. split; [tauto|]. intros [[[? _]|?] ?]; done.
Qed.

(** What admitting one request changes. *)
Record grows (id : string) (s s' : system) : Prop := {
  gr_now : now_ns s' = now_ns s; gr_waiting : waiting s' = waiting s;
  gr_others : forall id', id' <> id -> dget (records s') id' = dget (records s) id';
  gr_owners : forall sl, is_Some (BasicFabric.owners (fabric s) !! sl) -> is_Some (BasicFabric.owners (fabric s') !! sl);
  gr_complete : forall r', dget (records s') id = Some r' -> state r' = COMPLETE -> dget (records s) id = Some r' }.

Lemma grows_refl id s : grows id s s.
Proof using. by constructor. Qed.

(** A read that was not offered yet is one that the process serves. *)
Lemma read_served s id r b p t : rest [id] s -> dget (records s) id = Some r -> kind r = HBF -> backend_request_id r = Some b ->
  stack_local_page r = Some p -> offered r = false ->
  ct_serves C (zsum (MqsimService.bytes <$> dvals (MqsimService.requests (mqsim s))))
    {| MqsimService.request_id := b; MqsimService.issue_ns := t; MqsimService.bytes := bytes r; MqsimService.where_ := MqsimService.Page (stack r) p |}.
Proof using Hnodup Hvalid Hserved.
  intros Hrest Hr Hk Hb Hp Hoff. pose proof (re_inv _ _ _ _ Hrest) as Hi. destruct (iv_books _ _ _ _ _ _ Hi) as [Hn Hs Hpos _].
  destruct (record_known _ _ _ _ _ _ Hi Hr) as (r0 & Hr0 & Hbase & Hv). pose proof (record_rows _ _ _ _ Hi) as Hrows.
  apply base_eq in Hbase as (E1 & E2 & E3 & E4 & E5 & E6 & E7 & E8 & E9).
  assert (Hin : r ∈ dvals (records s)) by (apply list_elem_of_fmap; exists (id, r); split; [done|by apply dget_Some_elem]).
  assert (Hbytes : forall r1, r1 ∈ dvals (records s) -> numbered r1 <= hbf_bytes r1 /\ 0 <= issued r1 <= hbf_bytes r1).
  { intros r1 ([id1 r1'] & -> & Hin1)%list_elem_of_fmap. apply dget_elem in Hin1; [|by rewrite (iv_keys _ _ _ _ _ _ Hi)].
    destruct (record_known _ _ _ _ _ _ Hi Hin1) as (_ & _ & _ & Hv1). pose proof (va_bytes _ _ Hv1) as Hpos1. cbn [snd].
    split; [|unfold issued, hbf_bytes; repeat case_match; lia]. unfold numbered. destruct (backend_request_id r1') as [b1|] eqn:Hb1.
    - unfold hbf_bytes. destruct (Hpos _ _ _ Hin1 Hb1) as [-> _]. lia.
    - unfold hbf_bytes. case_match; lia. }
  assert (Hsum : zsum (hbf_bytes <$> dvals recs0) = zsum (hbf_bytes <$> dvals (records s))).
  { f_equal. symmetry. apply fmap_Forall2. eapply Forall2_impl; [exact Hrows|]. intros r1 r2 Hb1. unfold hbf_bytes.
    by destruct (base_eq _ _ Hb1) as (_ & _ & -> & _ & _ & -> & _). }
  rewrite E4, E6. apply (Hserved id); [done|congruence|congruence| | |]; rewrite ?Hs, ?Hsum.
  - split; [by apply (Hpos id r)|]. pose proof (iv_ids _ _ _ _ _ _ Hi _ _ _ Hr Hb) as Hlt.
    assert (zsum (numbered <$> dvals (records s)) <= zsum (hbf_bytes <$> dvals (records s))); [|lia].
    apply zsum_map_le. intros r1 Hr1. by apply Hbytes.
  - apply zsum_nonneg, Forall_forall. intros x (r1 & -> & H1)%list_elem_of_fmap. by apply Hbytes.
  - pose proof (zsum_map_gap issued hbf_bytes (dvals (records s)) r) as Hg.
    assert (Hi0 : issued r = 0) by (unfold issued; by rewrite Hoff). assert (Hb0 : hbf_bytes r = bytes r0) by (unfold hbf_bytes; by rewrite Hk).
    rewrite Hi0, Hb0 in Hg. pose proof (Hg ltac:(intros x Hx; by apply Hbytes) Hin). lia.
Qed.

(** A read is offered to the flash simulator: it is submitted or deferred. *)
Lemma try_submit_wp s id r b : rest [id] s -> dget (records s) id = Some r -> kind r = HBF ->
  backend_request_id r = Some b -> b ∉ dkeys (MqsimService.requests (mqsim s)) -> reserved_job s id ->
  arrival_ns r <= now_ns s -> offered r = false ->
  wp (_try_hbf_submit id) (fun _ s' => rest [] s' /\ grows id s s' /\ hbm s' = hbm s /\ fabric s' = fabric s /\
    exists r', dget (records s') id = Some r' /\ state r' <> EXTERNAL_WAIT /\ records s' = dset (records s) id r' /\
      (state r' = GATE_WAIT -> exists t, gate_target_ns r' = Some t /\ now_ns s < t) /\
      (gates C = true -> weight (open_ns C) (now_ns s) r' <= 2 + 2 * Z.max 0 (open_ns C - now_ns s))) s.
Proof using Hnodup Hvalid Hserved.
  intros Hrest Hr Hk Hb Hnb Hres Harr Hoff. pose proof (re_inv _ _ _ _ Hrest) as Hi.
  destruct (record_known _ _ _ _ _ _ Hi Hr) as (r0 & Hr0 & Hbase & Hv). destruct (va_page _ _ Hv Hk) as [pg Hpg].
  unfold _try_hbf_submit. apply wp_bind. eapply wp_find; [exact Hr|]. apply wp_bind, wp_get. apply wp_bind.
  eapply wp_lift; [by rewrite Hb|]. apply wp_bind. eapply wp_lift; [by rewrite Hpg|]. apply wp_bind.
  set (q := {| MqsimService.request_id := b; MqsimService.issue_ns := now_ns s; MqsimService.bytes := bytes r;
               MqsimService.where_ := MqsimService.Page (stack r) pg |}).
  assert (Hfresh : dget (MqsimService.requests (mqsim s)) (MqsimService.request_id q) = None) by (by apply dget_None).
  assert (Hissue : strict C = true -> MqsimService.issue_ns q = MqsimService.now (mqsim s)).
  { intros Hs. symmetry. by apply (re_strict _ _ _ _ Hrest). }
  assert (Hq : ct_serves C (zsum (MqsimService.bytes <$> dvals (MqsimService.requests (mqsim s)))) q) by (by eapply read_served).
  pose proof (ct_try C _ q (iv_client _ _ _ _ _ _ Hi) (re_link _ _ _ _ Hrest) Hfresh Hissue Hq) as Hct.
  apply wp_zoom. destruct (MqsimService.try_submit q (mqsim s)) as [[d|e] v'] eqn:E; [|by left].
  destruct Hct as (Hl' & Hgates & Hstrict). destruct (MqsimService.try_submit_spec _ _ _ _ E (iv_client _ _ _ _ _ _ Hi)) as (Hcv & Hnow & Hok).
  destruct (Hok d eq_refl) as (_ & Hcomp & _ & Hreqs).
  apply wp_bind. eapply wp_update; [exact Hr|]. cbn [set_records set_mqsim records].
  assert (Hg1 : forall x, dget (dset (records s) id x) id = Some x) by (intros; apply dget_dset_eq).
  destruct (MqsimService.submitted d) eqn:Hsub.
  - apply wp_bind. eapply wp_update; [apply Hg1|]. apply wp_modify. sy_simpl. rewrite dset_dset.
    set (r' := submitted_at (MqsimService.backend_arrival_ns d) (with_decision d r)).
    split; [|split; [|split; [done|split; [done|]]]].
    + apply (rest_offer s id r r' b v' true); try done.
      * intros Hs. by destruct (Hstrict Hs).
      * intros b'. rewrite Hreqs, elem_dkeys_dset. naive_solver.
      * rewrite Hreqs. apply (reads_submit _ _ _ r); try done; [apply (iv_reads _ _ _ _ _ _ Hi)|]. split; [done|]. split; [done|]. by exists pg.
      * apply (books_submit _ (mqsim s) _ _ _ r _ b (MqsimService.issued_at (MqsimService.backend_arrival_ns d) q)); try done. apply (iv_books _ _ _ _ _ _ Hi).
      * split; [done|]. split.
        -- eexists. split; [reflexivity|]. split; [done|]. intros [Hs|Hc]; [|change (kind r = HBM) in Hc; congruence]. destruct (Hstrict Hs) as [_ ->].
           rewrite (re_strict _ _ _ _ Hrest Hs). done.
        -- intros Hs a [= <-]. destruct (Hstrict Hs) as [_ ->]. by rewrite (re_strict _ _ _ _ Hrest Hs).
    + constructor; sy_simpl; try done; [intros id' Hne; by rewrite dget_dset_ne|]. intros r1. rewrite Hg1. by intros [= <-].
    + exists r'. split; [apply Hg1|]. split; [done|]. split; [done|]. split; [done|]. intros _.
      unfold weight. cbn [r' submitted_at with_decision arrival_ns state]. rewrite (proj2 (Z.ltb_ge _ _) Harr). lia.
  - destruct (MqsimService.disposition d =? 1) eqn:Hdisp, (MqsimService.target_ns d) as [t|] eqn:Ht;
      try (apply wp_raise; right; destruct (strict C) eqn:Hs; [|left; split; [done|]; right; eauto]; exfalso;
           destruct (Hstrict eq_refl) as (_ & Hd1 & t' & Ht' & _); [lia || congruence]).
    apply wp_bind, wp_require.
    { intros Hf. right. destruct (strict C) eqn:Hs; [|left; split; [done|]; left; set_solver]. exfalso.
      destruct (Hstrict eq_refl) as (_ & _ & t' & [= <-] & Hlt). rewrite (re_strict _ _ _ _ Hrest Hs) in Hlt. lia. }
    intros Hlt%Z.ltb_lt. eapply wp_update; [apply Hg1|]. sy_simpl. rewrite dset_dset.
    set (r' := gated t (with_decision d r)).
    split; [|split; [|split; [done|split; [done|]]]].
    + apply (rest_offer s id r r' b v' false); try done.
      * intros Hs. by destruct (Hstrict Hs).
      * intros b'. rewrite Hreqs. naive_solver.
      * rewrite Hreqs. apply (reads_update _ _ _ r); try done; [apply (iv_reads _ _ _ _ _ _ Hi)|]. by rewrite Hoff.
      * apply (books_update _ (mqsim s) _ _ _ r); try done; [apply (iv_books _ _ _ _ _ _ Hi)| |by rewrite Hcomp|by left].
        unfold issued. by rewrite Hoff.
    + constructor; sy_simpl; try done; [intros id' Hne; by rewrite dget_dset_ne|]. intros r1. rewrite Hg1. by intros [= <-].
    + exists r'. split; [apply Hg1|]. split; [done|]. split; [done|]. split; [intros _; by exists t|]. intros Hg.
      assert (Hop : now_ns s < open_ns C) by (apply Z.eqb_eq in Hdisp; exact (Hgates Hg eq_refl Hdisp)).
      change (weight (open_ns C) (now_ns s) r') with ((if now_ns s <? arrival_ns r then 1 else 0)
        + (3 + 2 * Z.max 0 (open_ns C - t) + (if now_ns s <? t then 1 else 0))).
      rewrite (proj2 (Z.ltb_ge _ _) Harr). destruct (now_ns s <? t); lia.
Qed.

(** The reservation of a bank for request [id]. *)
Lemma rest_reserve s id r f' j : rest [] s -> dget (records s) id = Some r -> state r = EXTERNAL_WAIT ->
  BasicFabric.fabric_inv f' -> BasicFabric.jobs f' = <[id := j]> (BasicFabric.jobs (fabric s)) ->
  BasicFabric.cfg f' = BasicFabric.cfg (fabric s) -> BasicFabric.now f' = BasicFabric.now (fabric s) ->
  BasicFabric.completions f' = BasicFabric.completions (fabric s) ->
  (BasicFabric.timely (fabric s) -> BasicFabric.timely f') -> rest [id] (set_fabric f' s).
Proof using Hnodup Hvalid Hserved.
  intros Hrest Hr Hst Hif Ej Ec En El Htm. pose proof Hrest as []. pose proof re_inv0 as [].
  assert (Hk : id ∈ dkeys recs0) by (rewrite <- iv_keys0; apply dget_is_Some; eauto).
  constructor; sy_simpl; rewrite ?En, ?El; try done. constructor; sy_simpl; rewrite ?Ec, ?En; try done.
  - by apply Htm.
  - intros id'. rewrite Ej. destruct (decide (id = id')) as [<-|]; [done|]. rewrite lookup_insert_ne by done. apply iv_jobs0.
  - intros id' r1 Hne Hr1. eapply link_ext; [..|apply (iv_link0 id' r1); [set_solver|done]]; sy_simpl; try done; [|by rewrite En].
    rewrite Ej, lookup_insert_ne; [done|]. set_solver.
Qed.

(** The reserved request gets its backend identifier. *)
Lemma rest_number s id r : rest [id] s -> dget (records s) id = Some r -> state r = EXTERNAL_WAIT -> kind r = HBF ->
  backend_request_id r = None -> backend_completion_ns r = None ->
  rest [id] (set_records (dset (records s) id (reserved (next_backend_id s) r)) (set_next_backend_id (next_backend_id s + 1) s)).
Proof using Hnodup Hvalid Hserved.
  intros Hrest Hr Hst Hk Hnb Hnc. pose proof Hrest as []. pose proof re_inv0 as []. set (r' := reserved (next_backend_id s) r).
  assert (Hkeep : forall id' r1, dget (records s) id' = Some r1 -> state r1 <> EXTERNAL_WAIT -> dget (dset (records s) id r') id' = Some r1).
  { intros id' r1 Hr1 Hs1. rewrite dget_dset_ne; [done|]. intros <-. congruence. }
  constructor; sy_simpl; try done. constructor; sy_simpl; try done.
    + by eapply keys_update.
    + intros id' r0 r1 Hr0 [[-> ->]|[Hne Hr1]]%dset_cases; [|by eapply iv_base0]. by apply (iv_base0 id r0 r).
    + intros h id' Hh0 H1 H2. destruct (iv_media0 h id' Hh0 H1 H2) as (r1 & Hr1 & Hs1 & Hk1). exists r1.
      split; [apply Hkeep; [done|by rewrite Hs1]|done].
    + intros id' r1 Hne' [[-> ->]|[Hne Hr1]]%dset_cases; [set_solver|]. exact (iv_link0 id' r1 Hne' Hr1).
    + intros b id' Hg. destruct (iv_pending0 _ _ Hg) as (r1 & Hr1 & H1 & H2 & H3). exists r1.
      split; [apply Hkeep; [done|by rewrite H1]|done].
    + intros id' r1 b [[-> ->]|[Hne Hr1]]%dset_cases; [cbn; intros [= <-]; lia|]. intros Hb. specialize (iv_ids0 _ _ _ Hr1 Hb). lia.
    + intros id1 id2 r1 r2 b [[-> ->]|[Hne1 Hr1]]%dset_cases [[-> ->]|[Hne2 Hr2]]%dset_cases Hb1 Hb2; try done; [| |by eapply iv_inj0].
      * cbn in Hb1. injection Hb1 as <-. specialize (iv_ids0 _ _ _ Hr2 Hb2). lia.
      * cbn in Hb2. injection Hb2 as <-. specialize (iv_ids0 _ _ _ Hr1 Hb1). lia.
    + intros b Hb. specialize (iv_native0 b Hb). lia.
    + apply (reads_update _ _ _ r); try done. unfold offered. by rewrite Hst.
    + apply (books_number _ _ _ _ r); try done. unfold issued, offered. by rewrite Hst.
Qed.

(** The reserved request becomes a media request. *)
Lemma rest_media s id r h h' : rest [id] s -> dget (records s) id = Some r -> state r = EXTERNAL_WAIT -> kind r = HBM ->
  arrival_ns r <= now_ns s -> reserved_job s id -> hbm s = Some h -> BasicHbm.requests h !! id = None ->
  BasicHbm.hbm_inv [] h' -> BasicHbm.now_ns h' = BasicHbm.now_ns h -> BasicHbm.progress h h' ->
  (forall id', is_Some (BasicHbm.requests h' !! id') <-> id' = id \/ is_Some (BasicHbm.requests h !! id')) ->
  (exists q, BasicHbm.requests h' !! id = Some q /\ BasicHbm.state q <> BasicHbm.ARRIVED) ->
  (forall s st, dget (BasicHbm.stacks h) s = Some st ->
     exists st', dget (BasicHbm.stacks h') s = Some st' /\ BasicHbm.same_params st st') ->
  BasicHbm.completions h' = BasicHbm.completions h -> BasicHbm.quiet_until (BasicHbm.now_ns h') h' ->
  rest [] (set_hbm h' (set_records (dset (records s) id (submitted_at (now_ns s) r)) s)).
Proof using Hnodup Hvalid Hserved.
  intros Hrest Hr Hst Hk Harr Hres Hh Hfresh Hih Hn Hp Hdom (q & Hq & Hqa) Hparams Hcomp Hquiet.
  pose proof Hrest as []. pose proof re_inv0 as []. set (r' := submitted_at (now_ns s) r).
  destruct (re_hbm0 h Hh) as (Hhn & _ & Hnone).
  assert (Hsame : forall id', BasicHbm.is_complete h' id' <-> BasicHbm.is_complete h id').
  { intros id'. split; [|by apply BasicHbm.progress_complete]. intros Hc. destruct (BasicHbm.pg_log _ _ Hp) as (log & El & _ & _ & Il).
    rewrite Hcomp in El. assert (log = []) as -> by (by apply (app_inv_head (BasicHbm.completions h)); rewrite app_nil_r).
    destruct (BasicHbm.is_complete_dec h id'); [done|]. exfalso. apply (not_elem_of_nil id'). by apply Il. }
  assert (Hkeep : forall id' r1, dget (records s) id' = Some r1 -> state r1 <> EXTERNAL_WAIT -> dget (dset (records s) id r') id' = Some r1).
  { intros id' r1 Hr1 Hs1. rewrite dget_dset_ne; [done|]. intros <-. congruence. }
  constructor; sy_simpl; try done.
  - constructor; sy_simpl; try done.
    + intros h1 [= <-]. done.
    + by eapply keys_update.
    + intros id' r0 r1 Hr0 [[-> ->]|[Hne Hr1]]%dset_cases; [|by eapply iv_base0]. by apply (iv_base0 id r0 r).
    + intros id' r0 Hr0. specialize (iv_fits0 id' r0 Hr0). rewrite Hh in iv_fits0. by eapply fits_params.
    + intros h1 id' [= <-] Hx Hnc. destruct (decide (id' = id)) as [->|Hne]; [exists r'; rewrite dget_dset_eq; done|].
      apply Hdom in Hx as [?|Hx]; [done|]. rewrite Hsame in Hnc. destruct (iv_media0 h id' Hh Hx Hnc) as (r1 & Hr1 & Hs1 & Hk1).
      exists r1. split; [apply Hkeep; [done|by rewrite Hs1]|done].
    + intros id' r1 _ [[-> ->]|[Hne Hr1]]%dset_cases.
      * unfold link. cbn. split; [done|]. split.
        { eexists. split; [reflexivity|]. split; [done|]. intros _. done. }
        split; [intros _ a [= <-]; lia|]. rewrite Hk. exists h', q. split; [done|]. split; [done|]. split; [done|].
        rewrite Hsame. split; [|by intros ?%not_elem_of_nil]. intros (r1 & Hr1 & _). congruence.
      * assert (Hl : link (strict C) [] [] s id' r1) by (apply iv_link0; [set_solver|done]).
        unfold link in *. sy_simpl. destruct (state r1) eqn:Es; try done.
        -- destruct Hl as (H1 & H2 & H2' & H3). split; [done|]. split; [done|]. split; [done|]. intros h1 [= <-].
           apply eq_None_not_Some. intros [->|Hin]%Hdom; [done|]. rewrite (H3 h Hh) in Hin. by destruct Hin.
        -- destruct Hl as (H1 & H2 & H3 & H4). split; [done|]. split; [done|]. split; [done|]. destruct (kind r1); [done|].
           destruct H4 as (h1 & q1 & Hh1 & Hq1 & Ha1 & Hc1). assert (h1 = h) as -> by congruence.
           destruct (BasicHbm.pg_state _ _ Hp _ _ Hq1) as (q2 & Hq2 & Ha2 & _). exists h', q2. split; [done|]. split; [done|].
           split; [auto|]. by rewrite Hsame.
    + intros b id' Hg. destruct (iv_pending0 _ _ Hg) as (r1 & Hr1 & H1 & H2 & H3). exists r1.
      split; [apply Hkeep; [done|by rewrite H1]|done].
    + intros id' r1 b [[-> ->]|[Hne Hr1]]%dset_cases; [|by eapply iv_ids0]. by apply (iv_ids0 id r).
    + intros id1 id2 r1 r2 b [[-> ->]|[Hne1 Hr1]]%dset_cases [[-> ->]|[Hne2 Hr2]]%dset_cases Hb1 Hb2; try done;
        [by eapply (iv_inj0 id id2 r r2)|by eapply (iv_inj0 id1 id r1 r)|by eapply iv_inj0].
    + apply (reads_update _ _ _ r); try done; unfold offered; rewrite Hst; [done|intros _; congruence].
    + apply (books_update _ (mqsim s) _ _ _ r); try done; [|by left]. unfold issued, hbf_bytes. change (kind r') with (kind r). rewrite Hk. by repeat case_match.
  - intros h1 [= <-]. split; [congruence|]. split; [|congruence]. by rewrite <- Hhn, <- Hn.
Qed.

Lemma wp_hbm {A} (m : M BasicHbm.hbm A) h (Q : A -> system -> Prop) s : hbm s = Some h ->
  match m h with (Ok a, h') => Q a (set_hbm h' s) | (Raise e, h') => sys_fault C e (set_hbm h' s) end ->
  wp (call_hbm m) Q s.
Proof using. intros Hh Hm. unfold ProgramLogic.wp, call_hbm. rewrite Hh. by destruct (m h) as [[a|e] h']. Qed.

(** Nothing is left to do for request [id] now. *)
Definition settled (s : system) (id : string) : Prop := forall r, dget (records s) id = Some r ->
  (state r = GATE_WAIT -> exists t, gate_target_ns r = Some t /\ now_ns s < t)
  /\ (state r = EXTERNAL_WAIT -> now_ns s < arrival_ns r \/ exists sl, is_Some (BasicFabric.owners (fabric s) !! sl)).

Lemma mu_update s s' id r r' : dget (records s) id = Some r -> records s' = dset (records s) id r' -> now_ns s' = now_ns s ->
  mu (open_ns C) s' = mu (open_ns C) s - weight (open_ns C) (now_ns s) r + weight (open_ns C) (now_ns s) r'
    + Z.of_nat (BasicFabric.work (BasicFabric.jobs (fabric s'))) - Z.of_nat (BasicFabric.work (BasicFabric.jobs (fabric s)))
    + match hbm s' with Some h => Z.of_nat (BasicHbm.work h) | None => 0 end
    - match hbm s with Some h => Z.of_nat (BasicHbm.work h) | None => 0 end.
Proof using. intros Hr Er En. unfold mu. rewrite Er, En, (zsum_dset _ _ _ _ _ Hr). lia. Qed.

(** The media request of a reserved HBM request. *)
Lemma media_wp s id r : rest [id] s -> dget (records s) id = Some r -> state r = EXTERNAL_WAIT -> kind r = HBM ->
  arrival_ns r <= now_ns s -> reserved_job s id -> (forall h, hbm s = Some h -> BasicHbm.requests h !! id = None) ->
  wp (let! _ := update id (submitted_at (now_ns s)) in
      let! _ := call_hbm (BasicHbm.arrival (hbm_arrival_value r (now_ns s))) in
      let! _ := call_hbm (BasicHbm.submit id (VInt (now_ns s))) in sret tt)
    (fun _ s' => rest [] s' /\ grows id s s' /\ fabric s' = fabric s /\
       records s' = dset (records s) id (submitted_at (now_ns s) r) /\
       exists h h', hbm s = Some h /\ hbm s' = Some h' /\ (BasicHbm.work h' <= BasicHbm.work h + 1)%nat) s.
Proof using Hnodup Hvalid Hserved.
  intros Hrest Hr Hst Hk Harr Hres Hnone. pose proof (re_inv _ _ _ _ Hrest) as Hi.
  destruct (record_known _ _ _ _ _ _ Hi Hr) as (r0 & Hr0 & Hbase & Hv). pose proof (iv_fits _ _ _ _ _ _ Hi _ _ Hr0) as Hfit.
  apply base_eq in Hbase as (E1 & E2 & E3 & E4 & E5 & E6 & E7 & E8 & E9).
  unfold fits in Hfit. rewrite <- E3, Hk, <- E4, <- E6, <- E8 in Hfit. apply andb_prop in Hfit as [_ Hfit].
  destruct (hbm s) as [h|] eqn:Hh; [|done]. destruct (dget (BasicHbm.stacks h) (stack r)) as [st|] eqn:Hstk; [|done].
  destruct (BasicHbm.parse_op (VStr (operation r))) as [o|] eqn:Hop; [|done].
  assert (Hname : operation r = BasicHbm.op_name o).
  { cbn in Hop. destruct (String.eqb_spec (operation r) "read"); [by injection Hop as <-|].
    destruct (String.eqb_spec (operation r) "write"); [by injection Hop as <-|done]. }
  apply andb_prop in Hfit as [Hfit Hquick]. destruct (re_hbm _ _ _ _ Hrest h Hh) as (Hhn & Hquiet & _). pose proof (iv_hbm _ _ _ _ _ _ Hi h Hh) as Hih.
  destruct (BasicHbm.arrival_ok h id (stack r) o (bytes r) st Hih (Hnone h eq_refl) (va_name _ _ Hv) (va_bytes _ _ Hv) Hstk Hfit)
    as (h1 & Ha1 & Hi1 & Hn1 & Hp1 & Hd1 & Hq1 & Hw1 & Hs1).
  destruct (BasicHbm.submit_ok h1 id _ Hi1 Hq1 eq_refl) as (x & h2 & Ha2 & Hi2 & Hn2 & Hp2 & Hd2 & Hq2 & Hw2 & Hs2); [cbn; lia|].
  assert (Hdur : exists st1 d x, dget (BasicHbm.stacks h1) (stack r) = Some st1
    /\ BasicHbm.duration_on st1 (BasicHbm.arrived_request id (stack r) o (bytes r) (BasicHbm.now_ns h)) = Ok (d, x) /\ 0 < d).
  { destruct (Hs1 _ _ Hstk) as (st1 & Hst1 & Hsame). exists st1. rewrite <- (BasicHbm.quick_params st st1 _ _ Hsame) in Hquick.
    rewrite <- (BasicHbm.serviceable_params st st1 _ _ Hsame) in Hfit.
    unfold BasicHbm.duration_on, BasicHbm.quick, BasicHbm.serviceable in *. cbn [BasicHbm.arrived_request BasicHbm.op BasicHbm.bytes] in *.
    destruct (BasicHbm.transfer_ns st1 o (bytes r)) as [y|]; [|done]. eexists _, _. split; [done|]. split; [reflexivity|]. lia. }
  destruct Hdur as (st1 & d & y & Hst1 & Hdur & Hd). rewrite <- Hhn in Hquiet.
  destruct (BasicHbm.arrival_quiet _ _ _ _ _ _ Hih Hquiet (Hnone h eq_refl)
    (BasicHbm.check_arrival_message h id (stack r) o (bytes r) _ st (Hnone h eq_refl) (va_name _ _ Hv) (va_bytes _ _ Hv)
       (BasicHbm.hi_now _ _ Hih) Hstk) Ha1) as [Hquiet1 Hcomp1].
  destruct (BasicHbm.submit_quiet _ _ _ _ _ _ _ _ Hi1 Hquiet1 Hq1 eq_refl ltac:(cbn; lia) Hst1 Hdur Hd Ha2) as [Hquiet2 Hcomp2].
  assert (Hmsg : hbm_arrival_value r (now_ns s) = BasicHbm.arrival_message id (stack r) o (bytes r) (BasicHbm.now_ns h)).
  { unfold hbm_arrival_value, BasicHbm.arrival_message. by rewrite (va_id _ _ Hv), Hname, Hhn. }
  apply wp_bind. eapply wp_update; [exact Hr|]. apply wp_bind. eapply wp_hbm; [exact Hh|]. rewrite Hmsg, Ha1.
  apply wp_bind. eapply wp_hbm; [reflexivity|]. rewrite <- Hhn, <- Hn1, Ha2. apply wp_ret. rewrite Hn1, Hhn.
  split; [|split; [|split; [done|split; [done|]]]].
  - apply (rest_media s id r h h2); try done; [by apply Hnone|by rewrite Hn2|by eapply BasicHbm.progress_trans| | |congruence].
    + intros id'. by rewrite Hd2, Hd1.
    + intros s0 st0 Hs0. destruct (Hs1 _ _ Hs0) as (sa & Hsa & P1 & P2 & P3).
      destruct (Hs2 _ _ Hsa) as (st2 & Hst2 & Q1 & Q2 & Q3). exists st2. split; [done|]. split_and!; congruence.
  - constructor; sy_simpl; try done; [intros id' Hne; by rewrite dget_dset_ne|]. intros r1. rewrite dget_dset_eq. by intros [= <-].
  - exists h, h2. split_and!; try done. lia.
Qed.

Lemma admit_one_wp s id prog : rest [] s -> id ∈ dkeys recs0 ->
  wp (admit_one prog id) (fun _ s' => rest [] s' /\ grows id s s' /\
    settled s' id /\ (gates C = true -> mu (open_ns C) s' <= mu (open_ns C) s)) s.
Proof using Hnodup Hvalid Hserved.
  intros Hrest Hid. pose proof (re_inv _ _ _ _ Hrest) as Hi. pose proof Hid as Hid'. rewrite <- (iv_keys _ _ _ _ _ _ Hi) in Hid'.
  apply dget_is_Some in Hid' as [r Hr]. destruct (record_known _ _ _ _ _ _ Hi Hr) as (r0 & Hr0 & Hbase & Hv).
  pose proof (iv_link _ _ _ _ _ _ Hi id r (not_elem_of_nil _) Hr) as Hl.
  assert (Hskip : (state r <> GATE_WAIT) -> (state r = EXTERNAL_WAIT -> now_ns s < arrival_ns r) ->
    rest [] s /\ grows id s s /\ settled s id /\ (gates C = true -> mu (open_ns C) s <= mu (open_ns C) s)).
  { intros H1 H2. split; [done|]. split; [apply grows_refl|]. split; [|lia]. intros r1 Hr1.
    assert (r1 = r) as -> by congruence. split; [done|]. auto. }
  unfold admit_one. apply wp_bind. eapply wp_find; [exact Hr|]. apply wp_bind, wp_get. unfold link in Hl.
  destruct (state r) eqn:Est; try (apply wp_ret; by apply Hskip).
  - destruct (Z.ltb_spec (now_ns s) (arrival_ns r)) as [Hlt|Hle]; [apply wp_ret; by apply Hskip|].
    destruct Hl as (Hnj & Hnb & Hnc & Hnh). apply wp_bind, wp_zoom. pose proof (iv_fits _ _ _ _ _ _ Hi _ _ Hr0) as Hfit.
    apply base_eq in Hbase as (E1 & E2 & E3 & E4 & E5 & E6 & E7 & E8 & E9). unfold fits in Hfit.
    rewrite <- E4, <- E5, <- E6 in Hfit. apply andb_prop in Hfit as [Hroute _]. pose proof (re_fabric _ _ _ _ Hrest) as Hfn.
    destruct (BasicFabric.reserve_spec (fabric s) id (stack r) (route r) (bytes r) (arrival_ns r)
      (iv_fabric _ _ _ _ _ _ Hi) Hnj (va_name _ _ Hv) (va_bytes _ _ Hv)) as (ok & f' & Hres & Hif & Hok);
      [pose proof (va_arrival _ _ Hv); lia|done|]. rewrite Hres. destruct ok; cbn [negb].
    2:{ destruct Hok as [-> Hfull]. apply wp_ret. split; [by destruct s|]. split; [by destruct s|]. split; [|by destruct s].
        intros r1 Hr1. assert (r1 = r) as -> by (cbn in Hr1; congruence). rewrite Est. split; [done|]. intros _. by right. }
    destruct Hok as (j & Ej & Hj & Ec & En & El & _ & Htm & Hw & Hown).
    pose proof (rest_reserve s id r f' j Hrest Hr Est Hif Ej Ec En El Htm) as Hrest1. set (s1 := set_fabric f' s) in *.
    assert (Hjob : reserved_job s1 id) by (exists j; cbn; rewrite Ej, lookup_insert_eq; done).
    apply wp_bind. destruct (kind r) eqn:Hk.
    + apply wp_bind, wp_modify. apply wp_bind. eapply wp_update; [exact Hr|].
      pose proof (rest_number s1 id r Hrest1 Hr Est Hk Hnb Hnc) as Hrest2.
      change (next_backend_id s) with (next_backend_id s1). set (s2 := set_records _ _) in *.
      assert (Hr2 : dget (records s2) id = Some (reserved (next_backend_id s1) r)) by apply dget_dset_eq.
      eapply wp_mono; [eapply (try_submit_wp s2 id _ (next_backend_id s1)); try done|].
      * intros Hin%(iv_native _ _ _ _ _ _ Hi). cbn in Hin. lia.
      * intros _ s3 (Hrest3 & [G1 G2 G3 G4 G5] & Hh3 & Hf3 & r3 & Hr3 & Hs3 & Erec & Hg & Hwt). apply wp_ret.
        split; [done|]. split.
        { constructor; sy_simpl; try done.
          - intros id' Hne. rewrite (G3 _ Hne). unfold s2. sy_simpl. by rewrite dget_dset_ne.
          - intros sl Hsl. apply G4. by apply Hown.
          - intros r' Hr' Hc. assert (r' = r3) as -> by congruence. specialize (G5 _ Hr3 Hc). rewrite Hr2 in G5.
            injection G5 as <-. done. }
        split.
        { intros r1 Hr1. assert (r1 = r3) as -> by congruence. split; [|done]. intros Hg3. rewrite G1. by apply Hg. }
        intros Hgt. specialize (Hwt Hgt). rewrite (mu_update s s3 id r r3 Hr); [|by rewrite Erec; unfold s2; sy_simpl; rewrite dset_dset|done].
        rewrite Hf3, Hh3. change (fabric s2) with f'. change (hbm s2) with (hbm s). rewrite Hw.
        change (now_ns s2) with (now_ns s) in Hwt. pose proof (iv_fnow _ _ _ _ _ _ Hi).
        unfold weight at 1. rewrite Est, (proj2 (Z.ltb_ge _ _) Hle). lia.
    + eapply wp_mono; [apply (media_wp s1 id r); try done|].
      intros _ s3 (Hrest3 & [G1 G2 G3 G4 G5] & Hf3 & Erec & h & h' & Hh & Hh' & Hwk). apply wp_ret.
      split; [done|]. split.
      { constructor; sy_simpl; try done. intros sl Hsl. apply G4. by apply Hown. }
      assert (Hr3 : dget (records s3) id = Some (submitted_at (now_ns s) r)) by (rewrite Erec; apply dget_dset_eq). split.
      { intros r1 Hr1. assert (r1 = submitted_at (now_ns s) r) as -> by congruence. done. }
      intros _. rewrite (mu_update s s3 id r _ Hr Erec G1). rewrite Hf3, Hh'. change (hbm s1) with (hbm s) in Hh. rewrite Hh.
      change (fabric s1) with f'. rewrite Hw. unfold weight.
      cbn [submitted_at state arrival_ns]. rewrite Est, (proj2 (Z.ltb_ge _ _) Hle). lia.
  - destruct Hl as (Hres & Hk & Harr & b & t & Hb & Ht & Hnb). rewrite (re_fabric _ _ _ _ Hrest) in Harr. apply wp_bind. eapply wp_lift; [by rewrite Ht|].
    destruct (Z.leb_spec t (now_ns s)) as [Hle|Hlt].
    2:{ apply wp_ret. split; [done|]. split; [apply grows_refl|]. split; [|lia]. intros r1 Hr1.
        assert (r1 = r) as -> by congruence. rewrite Est. split; [|done]. intros _. by exists t. }
    apply wp_bind. eapply wp_mono; [eapply (try_submit_wp s id r b (rest_open s id Hrest)); try done; by unfold offered; rewrite Est|].
    intros _ s3 (Hrest3 & Hg3 & Hh3 & Hf3 & r3 & Hr3 & Hs3 & Erec & Hg & Hwt). apply wp_ret. split; [done|]. split; [done|].
    split.
    { intros r1 Hr1. assert (r1 = r3) as -> by congruence. split; [|done]. intros Hgw. rewrite (gr_now _ _ _ Hg3). by apply Hg. }
    intros Hgt. specialize (Hwt Hgt). rewrite (mu_update s s3 id r r3 Hr Erec (gr_now _ _ _ Hg3)). rewrite Hf3, Hh3.
    assert (Hw : weight (open_ns C) (now_ns s) r = 3 + 2 * Z.max 0 (open_ns C - t)); [|lia].
    unfold weight. rewrite Est, Ht. cbn. rewrite (proj2 (Z.ltb_ge _ _) Harr), (proj2 (Z.ltb_ge _ _) Hle). lia.
Qed.

Lemma by_sequence_perm s : rest [] s -> by_sequence s (waiting s) ≡ₚ dkeys recs0.
Proof using Hnodup Hvalid Hserved.
  intros Hrest. pose proof (re_inv _ _ _ _ Hrest) as Hi. rewrite <- (re_waiting _ _ _ _ Hrest). unfold by_sequence. rewrite isort_perm.
  assert (Hall : forall id, id ∈ waiting s -> exists r, dget (records s) id = Some r /\ request_id r = id).
  { intros id Hin. rewrite (re_waiting _ _ _ _ Hrest), <- (iv_keys _ _ _ _ _ _ Hi) in Hin. apply dget_is_Some in Hin as [r Hr].
    destruct (record_known _ _ _ _ _ _ Hi Hr) as (_ & _ & _ & Hv). exists r. split; [done|]. apply (va_id _ _ Hv). }
  induction (waiting s) as [|id l IH]; [done|]. destruct (Hall id ltac:(set_solver)) as (r & Hr & Hid). csimpl.
  rewrite Hr. csimpl. rewrite Hid, IH; [done|]. intros id' Hin. apply Hall. set_solver.
Qed.

(** What admission leaves. *)
Record admitted (s s' : system) : Prop := {
  ad_rest : rest [] s';
  ad_now : now_ns s' = now_ns s;
  ad_complete : forall id r', dget (records s') id = Some r' -> state r' = COMPLETE -> dget (records s) id = Some r' }.

Lemma settled_keep id id' s s' : grows id s s' -> id' <> id -> settled s id' -> settled s' id'.
Proof using.
  intros [G1 G2 G3 G4 G5] Hne Hs r Hr. rewrite (G3 _ Hne) in Hr. destruct (Hs r Hr) as [H1 H2]. rewrite G1.
  split; [done|]. intros He. destruct (H2 He) as [|[sl Hsl]]; [by left|]. right. eauto.
Qed.

Lemma admit_wp s : rest [] s -> wp _admit (fun _ s' => admitted s s' /\
  (gates C = true -> mu (open_ns C) s' <= mu (open_ns C) s) /\ forall id, id ∈ dkeys recs0 -> settled s' id) s.
Proof using Hnodup Hvalid Hserved.
  intros Hrest. unfold _admit. apply wp_bind, wp_get. pose proof (by_sequence_perm s Hrest) as Hp.
  set (l := by_sequence s (waiting s)) in *. assert (Hnd : NoDup l) by (by rewrite Hp).
  eapply wp_mono; [apply (wp_foldS (fun done _ s' => admitted s s' /\
    (gates C = true -> mu (open_ns C) s' <= mu (open_ns C) s) /\ forall id, id ∈ done -> settled s' id))|].
  - split; [by constructor|]. split; [lia|]. intros id Hin. by apply not_elem_of_nil in Hin.
  - intros done id todo prog s1 El ([Hr1 Hn1 Hc1] & Hmu1 & Hset1).
    assert (Hid : id ∈ dkeys recs0) by (rewrite <- Hp, El; set_solver).
    eapply wp_mono; [by apply (admit_one_wp s1 id prog)|]. intros _ s2 (Hr2 & Hg & Hset2 & Hmu2). pose proof Hg as [G1 G2 G3 G4 G5]. split.
    + constructor; [done|congruence|]. intros id' r' Hr' Hst. apply Hc1; [|done]. destruct (decide (id' = id)) as [->|Hne]; [auto|].
      by rewrite <- (G3 _ Hne).
    + split; [intros Hs; specialize (Hmu1 Hs); specialize (Hmu2 Hs); lia|].
      intros id' [Hin|Hin]%elem_of_app; [|apply list_elem_of_singleton in Hin as ->; done].
      eapply settled_keep; [exact Hg| |by apply Hset1]. intros ->. rewrite El in Hnd. apply NoDup_app in Hnd as (_ & Hd & _).
      apply (Hd _ Hin). set_solver.
  - intros _ s' (Ha & Hmu & Hset). split; [done|]. split; [done|].
    intros id Hin. apply Hset. by rewrite Hp.
Qed.

(** ** The horizon *)

Definition media_events (s : system) : list Z :=
  match hbm s with
  | Some h => match BasicHbm.next_event_ns h with Ok o => option_list o | Raise _ => [] end
  | None => []
  end.

Definition candidates (s : system) (left : list string) : list Z :=
  omap (fun id => arrival_ns <$> dget (records s) id) left
  ++ omap gate_target_ns (filter (fun r => state r = GATE_WAIT) (dvals (records s)))
  ++ media_events s ++ option_list (BasicFabric.next_event_ns (fabric s)).

Lemma gates_Ok (l : list record) : (forall r, r ∈ l -> is_Some (gate_target_ns r)) ->
  mapR (fun r => of_option (KeyError "gate_target_ns") (gate_target_ns r)) l = Ok (omap gate_target_ns l).
Proof using Hnodup Hvalid Hserved.
  induction l as [|r l IH]; [done|]. intros Hl. destruct (Hl r ltac:(set_solver)) as [t Ht]. csimpl. rewrite Ht. csimpl.
  rewrite IH; [done|]. intros r' Hr'. apply Hl. set_solver.
Qed.

Lemma record_of_val X u v s r : inv u v X s -> r ∈ dvals (records s) -> exists id, dget (records s) id = Some r.
Proof using Hnodup.
  intros Hi Hin. apply list_elem_of_fmap in Hin as ([id r'] & -> & Hin). exists id. apply dget_elem; [|done].
  by rewrite (iv_keys _ _ _ _ _ _ Hi).
Qed.

Lemma horizon_wp s left : rest [] s -> wp (_next_horizon left) (fun o s' => s' = s /\
  o = match zmin_list (candidates s left) with
      | Some t => Some t
      | None => match mq_pending s with [] => None | _ => Some MAX_HORIZON_NS end
      end) s.
Proof using Hnodup Hvalid Hserved.
  intros Hrest. pose proof (re_inv _ _ _ _ Hrest) as Hi. unfold _next_horizon. apply wp_bind, wp_get. apply wp_bind.
  eapply wp_lift.
  { apply gates_Ok. intros r [Hg Hin]%list_elem_of_filter. destruct (record_of_val _ _ _ _ _ Hi Hin) as [id Hr].
    pose proof (iv_link _ _ _ _ _ _ Hi id r (not_elem_of_nil _) Hr) as Hl. unfold link in Hl. rewrite Hg in Hl.
    destruct Hl as (_ & _ & _ & b & t & _ & Ht & _). eauto. }
  apply wp_bind. unfold candidates, media_events. destruct (hbm s) as [h|] eqn:Hh.
  - destruct (BasicHbm.next_event_spec_hbm _ _ (iv_hbm _ _ _ _ _ _ Hi h Hh)) as (o & Ho & _).
    eapply wp_lift; [exact Ho|]. rewrite Ho. by apply wp_ret.
  - apply wp_ret. by apply wp_ret.
Qed.

(** A candidate is a future event of the state. *)
Lemma horizon_candidate s left t : rest [] s -> (forall id, id ∈ dkeys recs0 -> settled s id) ->
  (forall id, id ∈ left -> exists r, dget (records s) id = Some r /\ now_ns s < arrival_ns r) ->
  t ∈ candidates s left -> now_ns s <= t /\ t ∈ event_times s /\
    ((exists id r, dget (records s) id = Some r /\ arrival_ns r = t /\ now_ns s < t)
     \/ (exists id r, dget (records s) id = Some r /\ state r = GATE_WAIT /\ gate_target_ns r = Some t /\ now_ns s < t)
     \/ (exists h, hbm s = Some h /\ BasicHbm.next_event_ns h = Ok (Some t))
     \/ BasicFabric.next_event_ns (fabric s) = Some t).
Proof using Hnodup Hvalid Hserved.
  intros Hrest Hset Hleft Hin. pose proof (re_inv _ _ _ _ Hrest) as Hi. unfold candidates in Hin. unfold event_times.
  rewrite !elem_of_app in *. destruct Hin as [Hin|[Hin|[Hin|Hin]]].
  - apply list_elem_of_omap in Hin as (id & Hid & Hx). destruct (Hleft _ Hid) as (r & Hr & Hlt). rewrite Hr in Hx. cbn in Hx.
    injection Hx as <-. split; [lia|]. split; [left; apply list_elem_of_fmap_2, list_elem_of_fmap; exists (id, r); split; [done|by apply dget_Some_elem]|].
    left. eauto.
  - apply list_elem_of_omap in Hin as (r & [Hg Hv]%list_elem_of_filter & Ht). destruct (record_of_val _ _ _ _ _ Hi Hv) as [id Hr].
    destruct (Hset id) with (r := r) as [Hs _]; [rewrite <- (iv_keys _ _ _ _ _ _ Hi); apply dget_is_Some; eauto|done|].
    destruct (Hs Hg) as (t' & Ht' & Hlt). assert (t' = t) as -> by congruence. split; [lia|]. split; [|eauto 10].
    right. left. apply list_elem_of_omap. eauto.
  - unfold media_events in Hin. destruct (hbm s) as [h|] eqn:Hh; [|by apply not_elem_of_nil in Hin].
    destruct (BasicHbm.next_event_spec_hbm _ _ (iv_hbm _ _ _ _ _ _ Hi h Hh)) as (o & Ho & _ & Hex). rewrite Ho in *.
    destruct o as [t'|]; [|by apply not_elem_of_nil in Hin]. apply list_elem_of_singleton in Hin as ->.
    destruct (re_hbm _ _ _ _ Hrest h Hh) as (Hn & _). split; [lia|]. split; [right; right; left; by apply list_elem_of_singleton|].
    right. right. left. eauto.
  - destruct (BasicFabric.next_event_ns (fabric s)) as [t'|] eqn:Hf; [|by apply not_elem_of_nil in Hin].
    apply list_elem_of_singleton in Hin as ->.
    pose proof (BasicFabric.next_event_spec _ (BasicFabric.fi_time _ (iv_fabric _ _ _ _ _ _ Hi))) as Hn. rewrite Hf in Hn.
    rewrite (re_fabric _ _ _ _ Hrest) in Hn. split; [lia|]. split; [right; right; right; by apply list_elem_of_singleton|]. auto.
Qed.

(** Nothing left to wait for means that everything is complete. *)
Lemma no_deadlock s left : rest [] s -> (forall id, id ∈ dkeys recs0 -> settled s id) ->
  (forall id r, dget (records s) id = Some r -> now_ns s < arrival_ns r -> id ∈ left) ->
  candidates s left = [] -> mq_pending s = [] -> forall id r, dget (records s) id = Some r -> state r = COMPLETE.
Proof using Hnodup Hvalid Hserved.
  intros Hrest Hset Hleft Hc Hp. pose proof (re_inv _ _ _ _ Hrest) as Hi. pose proof (iv_fabric _ _ _ _ _ _ Hi) as Hf.
  unfold candidates in Hc. apply app_nil in Hc as [Ha Hc]. apply app_nil in Hc as [Hg Hc]. apply app_nil in Hc as [Hm Hc].
  assert (Hgate : forall id r, dget (records s) id = Some r -> state r <> GATE_WAIT).
  { intros id r Hr Hst. pose proof (iv_link _ _ _ _ _ _ Hi id r (not_elem_of_nil _) Hr) as Hl. unfold link in Hl. rewrite Hst in Hl.
    destruct Hl as (_ & _ & _ & b & t & _ & Ht & _). apply (not_elem_of_nil t). rewrite <- Hg. apply list_elem_of_omap.
    exists r. split; [|done]. apply list_elem_of_filter. split; [done|]. apply list_elem_of_fmap. exists (id, r).
    split; [done|by apply dget_Some_elem]. }
  assert (Hnext : BasicFabric.next_event_ns (fabric s) = None) by (by destruct (BasicFabric.next_event_ns (fabric s))).
  assert (Hbp : forall id r, dget (records s) id = Some r -> state r <> BACKEND_PENDING).
  { intros id r Hr Hst. pose proof (iv_link _ _ _ _ _ _ Hi id r (not_elem_of_nil _) Hr) as Hl. unfold link in Hl. rewrite Hst in Hl.
    destruct Hl as (_ & _ & _ & Hl). destruct (kind r).
    - destruct Hl as (b & _ & Hb). by rewrite Hp in Hb.
    - destruct Hl as (h & q & Hh & Hq & Hqa & Hiff). unfold media_events in Hm. rewrite Hh in Hm.
      pose proof (iv_hbm _ _ _ _ _ _ Hi h Hh) as Hih. destruct (BasicHbm.next_event_spec_hbm _ _ Hih) as (o & Ho & Hact & _).
      rewrite Ho in Hm. destruct o; [done|].
      assert (Hnc : BasicHbm.state q <> BasicHbm.MEDIA_COMPLETE).
      { intros Hx. apply (not_elem_of_nil id). apply Hiff. by exists q. }
      destruct (BasicHbm.open_active _ _ _ Hih Hq Hqa Hnc) as (st & Hst' & a & Ha').
      destruct (BasicHbm.active_facts _ _ _ _ _ Hih Hst' Ha') as (r1 & e & Hr1 & _ & _ & He & _).
      exact (Hact _ _ _ _ _ Hst' Ha' Hr1 He). }
  assert (Hres : forall id j, BasicFabric.jobs (fabric s) !! id = Some j -> BasicFabric.state j <> BasicFabric.BACKEND_RESERVED).
  { intros id j Hj Hst. pose proof (iv_jobs _ _ _ _ _ _ Hi id (mk_is_Some _ _ Hj)) as Hk. rewrite <- (iv_keys _ _ _ _ _ _ Hi) in Hk.
    apply dget_is_Some in Hk as [r Hr]. pose proof (iv_link _ _ _ _ _ _ Hi id r (not_elem_of_nil _) Hr) as Hl. unfold link in Hl.
    destruct (state r) eqn:Es; [|done|by apply (Hgate id r)|by apply (Hbp id r)| |].
    - destruct Hl as [Hl _]. congruence.
    - destruct Hl as (j0 & t & Hj0 & Hnr & _). congruence.
    - destruct Hl as (_ & _ & j0 & Hj0 & Hd). congruence. }
  pose proof (BasicFabric.idle_done _ Hf Hnext Hres) as Hdone. pose proof (BasicFabric.done_no_owner _ Hf Hdone) as Hfree.
  intros id r Hr. pose proof (iv_link _ _ _ _ _ _ Hi id r (not_elem_of_nil _) Hr) as Hl. unfold link in Hl.
  destruct (state r) eqn:Es; [|done|by destruct (Hgate id r)|by destruct (Hbp id r)| |done].
  - exfalso. destruct (Hset id) with (r := r) as [_ Hx]; [rewrite <- (iv_keys _ _ _ _ _ _ Hi); apply dget_is_Some; eauto|done|].
    destruct (Hx Es) as [Hlt|[sl Hsl]].
    + specialize (Hleft _ _ Hr Hlt). apply (not_elem_of_nil (arrival_ns r)). rewrite <- Ha. apply list_elem_of_omap.
      exists id. by rewrite Hr.
    + rewrite Hfree, lookup_empty in Hsl. by destruct Hsl.
  - exfalso. destruct Hl as (j & t & Hj & _ & Hd & _). apply (not_elem_of_nil id), Hd. by apply Hdone in Hj.
Qed.

(** ** Time passes *)

Lemma inv_native u v X s (w : service) t : inv u v X s -> MqsimService.client_inv w ->
  MqsimService.requests w = MqsimService.requests (mqsim s) ->
  (forall b c, dget (MqsimService.completions (mqsim s)) b = Some c -> dget (MqsimService.completions w) b = Some c) ->
  inv u v X (set_now t (set_mqsim w s)).
Proof using.
  intros [] Hw Er Hc. constructor; sy_simpl; try done; [|by rewrite Er..|].
  - intros id r Hid Hr. eapply link_ext; [..|by apply iv_link0]; sy_simpl; try done. by rewrite Er.
  - destruct iv_books0 as [H1 H2 H3 H4]. constructor; rewrite ?Er; try done. intros id r b t' Hr Hb Ht.
    destruct (H4 id r b t' Hr Hb Ht) as (c & ? & ?). eauto.
Qed.

(** The media servers advance: what they complete waits to be accepted. *)
Lemma inv_media v X s h h' log : inv [] v X s -> hbm s = Some h -> BasicHbm.hbm_inv [] h' -> BasicHbm.evolves h h' ->
  (forall id, id ∈ BasicHbm.m_request <$> log <-> BasicHbm.is_complete h' id /\ ~ BasicHbm.is_complete h id) ->
  inv (BasicHbm.m_request <$> log) v X (set_hbm h' s).
Proof using.
  intros [] Hh Hi' [Hdom Harr Hst Hp] Hlog. constructor; sy_simpl; try done.
  - by intros h1 [= <-].
  - intros id r0 Hr0. specialize (iv_fits0 id r0 Hr0). rewrite Hh in iv_fits0. by eapply fits_params.
  - intros h1 id [= <-] Hx%Hdom Hn. apply (iv_media0 h id Hh Hx). intros Hc. by apply Hn, (BasicHbm.progress_complete h).
  - intros id r Hid Hr. specialize (iv_link0 id r Hid Hr). unfold link, reserved_job in *. sy_simpl.
    destruct (state r); try done.
    + destruct iv_link0 as (H1 & H2 & H2' & H3). split; [done|]. split; [done|]. split; [done|]. intros h1 [= <-]. apply eq_None_not_Some.
      intros Hx%Hdom. rewrite (H3 h Hh) in Hx. by destruct Hx.
    + destruct iv_link0 as (H1 & H2 & H3 & H4). split; [done|]. split; [done|]. split; [done|]. destruct (kind r); [done|].
      destruct H4 as (h1 & q & Hh1 & Hq & Ha & Hc). assert (h1 = h) as -> by congruence.
      destruct (BasicHbm.pg_state _ _ Hp _ _ Hq) as (q' & Hq' & Ha' & _). exists h', q'. split; [done|]. split; [done|].
      split; [auto|]. rewrite Hlog. split; [|tauto]. intros Hc'. split; [done|]. intros Hx%Hc. by apply not_elem_of_nil in Hx.
Qed.

(** The fabric advances: what it completes waits to be accepted. *)
Lemma inv_transfer s f' log : inv [] [] [] s -> BasicFabric.fabric_inv f' -> BasicFabric.history (fabric s) f' ->
  BasicFabric.cfg f' = BasicFabric.cfg (fabric s) ->
  (forall id, id ∈ BasicFabric.c_request_id <$> log <-> exists j j', BasicFabric.jobs (fabric s) !! id = Some j
     /\ BasicFabric.state j <> BasicFabric.DONE /\ BasicFabric.jobs f' !! id = Some j' /\ BasicFabric.state j' = BasicFabric.DONE) ->
  inv [] (BasicFabric.c_request_id <$> log) [] (set_fabric f' s).
Proof using.
  intros [] Hi' [Hn Hdom Hjob _ Htm] Hc Hlog. constructor; sy_simpl; rewrite ?Hc; try done; [auto|lia| |].
  - intros id Hx%Hdom. auto.
  - assert (Hres : forall id, reserved_job s id -> reserved_job (set_fabric f' s) id).
    { intros id (j & Hj & Hs). destruct (Hjob _ _ Hj) as (j' & Hj' & _ & He & _). exists j'. split; [done|]. by rewrite (He Hs). }
    intros id r Hid Hr. specialize (iv_link0 id r Hid Hr). unfold link in *. sy_simpl. destruct (state r); try done.
    + destruct iv_link0 as (H1 & H2). split; [|done]. apply eq_None_not_Some. intros Hx%Hdom. rewrite H1 in Hx. by destruct Hx.
    + destruct iv_link0 as (H1 & H2 & H3 & H4). split; [auto|]. split; [done|]. split; [lia|done].
    + destruct iv_link0 as (H1 & H2 & H3 & H4). split; [auto|]. split; [done|]. split; [|done].
      intros Hk a Ha. specialize (H3 Hk a Ha). lia.
    + destruct iv_link0 as (j & t & Hj & Hnr & Hd & Hrd & Hdel). destruct (Hjob _ _ Hj) as (j' & Hj' & Er & _ & Hx & _).
      exists j', t. split; [done|]. split; [intros Hs; apply Hnr; by rewrite <- (Hx Hs)|]. split; [|by rewrite Er].
      assert (Hnd : BasicFabric.state j <> BasicFabric.DONE) by (intros Hs%Hd; by apply not_elem_of_nil in Hs).
      rewrite Hlog. split; [intros Hs; eauto 10|]. intros (j1 & j2 & _ & _ & H2 & H3). congruence.
    + destruct iv_link0 as (H1 & H2 & j & Hj & Hd). split; [done|]. split; [intros c Hf; specialize (H2 c Hf); lia|].
      destruct (Hjob _ _ Hj) as (j' & Hj' & _ & _ & _ & He). exists j'. split; [done|]. by rewrite (He Hd).
Qed.

(** A request whose transfer completed awaits that completion. *)
Lemma transfer_pending s f' (log : list BasicFabric.completion) id : inv [] [] [] s ->
  (forall id, id ∈ BasicFabric.c_request_id <$> log <-> exists j j', BasicFabric.jobs (fabric s) !! id = Some j
     /\ BasicFabric.state j <> BasicFabric.DONE /\ BasicFabric.jobs f' !! id = Some j' /\ BasicFabric.state j' = BasicFabric.DONE) ->
  BasicFabric.history (fabric s) f' -> id ∈ BasicFabric.c_request_id <$> log ->
  exists r, dget (records s) id = Some r /\ state r = FABRIC_PENDING.
Proof using.
  intros [] Hlog Hh Hin. apply Hlog in Hin as (j & j' & Hj & Hnd & Hj' & Hd).
  destruct (BasicFabric.hy_job _ _ Hh _ _ Hj) as (j0 & Hj0 & _ & He & _). assert (j0 = j') as -> by congruence.
  pose proof (iv_jobs0 id (mk_is_Some _ _ Hj)) as Hk. rewrite <- iv_keys0 in Hk. apply dget_is_Some in Hk as [r Hr].
  exists r. split; [done|]. specialize (iv_link0 id r (not_elem_of_nil _) Hr). unfold link, reserved_job in iv_link0.
  assert (Hnr : BasicFabric.state j <> BasicFabric.BACKEND_RESERVED).
  { intros Hs. rewrite (He Hs) in Hd. congruence. }
  destruct (state r); [|done| | |done|]; exfalso.
  - destruct iv_link0 as [? _]. congruence.
  - destruct iv_link0 as ((? & ? & ?) & _). congruence.
  - destruct iv_link0 as ((? & ? & ?) & _). congruence.
  - destruct iv_link0 as (_ & _ & ? & ? & ?). congruence.
Qed.

(** ** A backend delivers, the fabric delivers *)

Lemma inv_deliver u u' s id r j t f' pend : inv u [] [] s -> dget (records s) id = Some r -> state r = BACKEND_PENDING ->
  (kind r = HBM -> id ∈ u) -> (forall id', id' ∈ u' <-> id' ∈ u /\ id' <> id) ->
  (strict C = true \/ kind r = HBM -> BasicFabric.now (fabric s) <= t) ->
  (forall b, backend_request_id r = Some b -> exists c, dget (MqsimService.completions (mqsim s)) b = Some c /\ MqsimService.reported_complete c = t) ->
  NoDup (dkeys pend) -> (forall b id', dget pend b = Some id' <-> dget (mq_pending s) b = Some id' /\ id' <> id) ->
  BasicFabric.fabric_inv f' -> BasicFabric.timely f' -> BasicFabric.cfg f' = BasicFabric.cfg (fabric s) ->
  BasicFabric.now f' = BasicFabric.now (fabric s) ->
  BasicFabric.jobs f' = <[id := BasicFabric.with_ready t (BasicFabric.with_state BasicFabric.BACKEND_READY_PENDING j)]>
    (BasicFabric.jobs (fabric s)) ->
  inv u' [] [] (set_fabric f' (set_records (dset (records s) id (delivered_at t r)) (set_mq_pending pend s))).
Proof using.
  intros [] Hr Hst Hu Hu' Ht Hrep Hnd Hpend Hif Htm Ec En Ej. constructor; sy_simpl; rewrite ?Ec, ?En; try done.
  - by eapply keys_update.
  - intros id' r0 r1 Hr0 [[-> ->]|[Hne Hr1]]%dset_cases; [|by eapply iv_base0]. by apply (iv_base0 id r0 r).
  - intros id'. rewrite Ej. destruct (decide (id = id')) as [<-|]; [|rewrite lookup_insert_ne by done; apply iv_jobs0].
    intros _. rewrite <- iv_keys0. apply dget_is_Some. eauto.
  - intros h id' Hh Hx Hnc. destruct (iv_media0 h id' Hh Hx Hnc) as (r1 & Hr1 & Hs1 & Hk1). exists r1.
    rewrite dget_dset_ne; [done|]. intros <-. assert (r1 = r) as -> by congruence.
    pose proof (iv_link0 _ _ (not_elem_of_nil _) Hr) as Hl. unfold link in Hl. rewrite Hst, Hk1 in Hl.
    destruct Hl as (_ & _ & _ & h1 & q & Hh1 & _ & _ & Hc). assert (h1 = h) as -> by congruence. by apply Hnc, Hc, Hu.
  - intros id' r1 _ [[-> ->]|[Hne Hr1]]%dset_cases.
    + pose proof (iv_link0 _ _ (not_elem_of_nil _) Hr) as Hl. unfold link in Hl. rewrite Hst in Hl.
      destruct Hl as (_ & Hsub & Ha & _). unfold link. cbn [state delivered_at]. sy_simpl. eexists _, t.
      rewrite Ej, lookup_insert_eq. split; [reflexivity|]. split; [done|].
      split; [split; [done|by intros ?%not_elem_of_nil]|]. split; [done|]. split; [exact Hsub|]. split; [done|]. split; [done|].
      intros Hk a Hsa. specialize (Ha Hk a Hsa). specialize (Ht Hk). lia.
    + specialize (iv_link0 id' r1 (not_elem_of_nil _) Hr1). unfold link, reserved_job in *. sy_simpl.
      rewrite Ej, lookup_insert_ne, En by done. destruct (state r1); try done.
      destruct iv_link0 as (H1 & H2 & H3 & H4). split; [done|]. split; [done|]. split; [done|]. destruct (kind r1).
      * destruct H4 as (b & Hb & Hg). exists b. split; [done|]. by apply Hpend.
      * destruct H4 as (h & q & Hh & Hq & Ha & Hc). exists h, q. split; [done|]. split; [done|]. split; [done|]. rewrite Hu', Hc. tauto.
  - intros b id' [Hg Hne]%Hpend. destruct (iv_pending0 _ _ Hg) as (r1 & Hr1 & H1). exists r1. by rewrite dget_dset_ne.
  - intros id' r1 b [[-> ->]|[Hne Hr1]]%dset_cases; [|by eapply iv_ids0]. by apply (iv_ids0 id r).
  - intros id1 id2 r1 r2 b [[-> ->]|[Hne1 Hr1]]%dset_cases [[-> ->]|[Hne2 Hr2]]%dset_cases Hb1 Hb2; try done;
      [by eapply (iv_inj0 id id2 r r2)|by eapply (iv_inj0 id1 id r1 r)|by eapply iv_inj0].
  - apply (reads_update _ _ _ r); try done. by unfold offered; rewrite Hst.
  - apply (books_update _ (mqsim s) _ _ _ r); try done; [by unfold issued, offered; rewrite Hst|]. intros b t' Hb [= <-]. right. by apply Hrep.
Qed.

Lemma inv_complete v v' s id r t c : inv [] v [] s -> dget (records s) id = Some r -> state r = FABRIC_PENDING ->
  (exists j, BasicFabric.jobs (fabric s) !! id = Some j /\ BasicFabric.ready_ns j = Some t) -> id ∈ v ->
  t <= c <= BasicFabric.now (fabric s) -> (forall id', id' ∈ v' <-> id' ∈ v /\ id' <> id) ->
  inv [] v' [] (set_records (dset (records s) id (completed_at c t r)) s) /\ backend_completion_ns r = Some t.
Proof using.
  intros [] Hr Hst (j & Hj & Hrd) Hin Hc Hv'.
  pose proof (iv_link0 _ _ (not_elem_of_nil _) Hr) as Hl. unfold link in Hl. rewrite Hst in Hl.
  destruct Hl as (j0 & t0 & Hj0 & _ & Hd & Hrd0 & Hdel). assert (j0 = j) as -> by congruence. assert (t0 = t) as -> by congruence.
  split; [|apply Hdel]. constructor; sy_simpl; try done.
  - by eapply keys_update.
  - intros id' r0 r1 Hr0 [[-> ->]|[Hne Hr1]]%dset_cases; [|by eapply iv_base0]. by apply (iv_base0 id r0 r).
  - intros h id' Hh Hx Hnc. destruct (iv_media0 h id' Hh Hx Hnc) as (r1 & Hr1 & Hs1 & Hk1). exists r1.
    rewrite dget_dset_ne; [done|]. intros <-. congruence.
  - intros id' r1 _ [[-> ->]|[Hne Hr1]]%dset_cases.
    + unfold link. cbn [state completed_at]. sy_simpl. split; [|split; [intros c' [= <-]; lia|exists j; split; [done|by apply Hd]]].
      exists t, c. split; [exact Hdel|]. split; [lia|]. split; [done|]. cbn. f_equal. lia.
    + specialize (iv_link0 id' r1 (not_elem_of_nil _) Hr1). unfold link, reserved_job in *. sy_simpl.
      destruct (state r1); try done. destruct iv_link0 as (j1 & t1 & H1 & H2 & H3 & H4). exists j1, t1.
      split; [done|]. split; [done|]. split; [|done]. rewrite H3, Hv'. tauto.
  - intros b id' Hg. destruct (iv_pending0 _ _ Hg) as (r1 & Hr1 & H1 & H2). exists r1. rewrite dget_dset_ne; [done|].
    intros <-. congruence.
  - intros id' r1 b [[-> ->]|[Hne Hr1]]%dset_cases; [|by eapply iv_ids0]. by apply (iv_ids0 id r).
  - intros id1 id2 r1 r2 b [[-> ->]|[Hne1 Hr1]]%dset_cases [[-> ->]|[Hne2 Hr2]]%dset_cases Hb1 Hb2; try done;
      [by eapply (iv_inj0 id id2 r r2)|by eapply (iv_inj0 id1 id r1 r)|by eapply iv_inj0].
  - apply (reads_update _ _ _ r); try done. by unfold offered; rewrite Hst.
  - apply (books_update _ (mqsim s) _ _ _ r); try done; [by unfold issued, offered; rewrite Hst|by left].
Qed.

(** ** The second half of an iteration *)

(** The clock has moved; [k] is the native completion and [cs] are the HBM
    completions still to be accepted. *)
Record Mid (k : option Z) (cs : list BasicHbm.media_completion) (s : system) : Prop := {
  md_inv : inv (BasicHbm.m_request <$> cs) [] [] s;
  md_once : NoDup (BasicHbm.m_request <$> cs);
  md_times : forall c, c ∈ cs -> BasicFabric.now (fabric s) <= BasicHbm.m_time_ns c
    /\ exists r, dget (records s) (BasicHbm.m_request c) = Some r /\ state r = BACKEND_PENDING /\ kind r = HBM;
  md_waiting : waiting s ≡ₚ dkeys recs0;
  md_clock : MqsimService.now (mqsim s) = now_ns s;
  md_fabric : BasicFabric.now (fabric s) <= now_ns s;
  md_hbm : forall h, hbm s = Some h -> BasicHbm.now_ns h = now_ns s /\ BasicHbm.quiet_until (now_ns s) h;
  md_link : ct_link C (mqsim s);
  md_mq : forall b, b ∈ dkeys (mq_pending s) <-> k = Some b \/
    (b ∈ dkeys (MqsimService.requests (mqsim s)) /\ b ∉ dkeys (MqsimService.completions (mqsim s)));
  md_count : fabric_completion_count s = length (BasicFabric.completions (fabric s)) }.

(** The measure went down, or nothing was delivered. *)
Definition delivers (s s' : system) : Prop :=
  mu (open_ns C) s' < mu (open_ns C) s \/ mu (open_ns C) s' <= mu (open_ns C) s /\ fabric s' = fabric s.

Lemma delivers_trans s1 s2 s3 : delivers s1 s2 -> delivers s2 s3 -> delivers s1 s3.
Proof using. unfold delivers. intros [?|[? E1]] [?|[? E2]]; [left; lia..|right]. split; [lia|congruence]. Qed.

Lemma deliver_wp k k' cs cs' s id r t pend : Mid k cs s -> dget (records s) id = Some r -> state r = BACKEND_PENDING ->
  (kind r = HBM -> id ∈ BasicHbm.m_request <$> cs) ->
  (forall id', id' ∈ BasicHbm.m_request <$> cs' <-> id' ∈ BasicHbm.m_request <$> cs /\ id' <> id) ->
  NoDup (BasicHbm.m_request <$> cs') -> (forall c, c ∈ cs' -> c ∈ cs) ->
  (strict C = true \/ kind r = HBM -> BasicFabric.now (fabric s) <= t) ->
  (forall b, backend_request_id r = Some b -> exists c, dget (MqsimService.completions (mqsim s)) b = Some c /\ MqsimService.reported_complete c = t) ->
  NoDup (dkeys pend) -> (forall b id', dget pend b = Some id' <-> dget (mq_pending s) b = Some id' /\ id' <> id) ->
  (forall b, b ∈ dkeys pend <-> k' = Some b \/
    (b ∈ dkeys (MqsimService.requests (mqsim s)) /\ b ∉ dkeys (MqsimService.completions (mqsim s)))) ->
  wp (let! _ := update id (delivered_at t) in call_fabric (BasicFabric.mark_source_ready id (VInt t)))
    (fun _ s' => Mid k' cs' s' /\ mu (open_ns C) s' < mu (open_ns C) s /\ hbm s' = hbm s /\ now_ns s' = now_ns s)
    (set_mq_pending pend s).
Proof using Hnodup Hvalid Hserved.
  intros Hm Hr Hst Hin Hcs' Hnd' Hsub Ht Hrep Hndp Hpend Hmq'. pose proof Hm as []. pose proof md_inv0 as [].
  pose proof (iv_link0 _ _ (not_elem_of_nil _) Hr) as Hl. unfold link in Hl. rewrite Hst in Hl. destruct Hl as ((j & Hj & Hjs) & _ & _ & _).
  apply wp_bind. eapply wp_update; [exact Hr|]. apply wp_zoom. sy_simpl.
  destruct (BasicFabric.mark_spec (fabric s) id j t iv_fabric0 Hj Hjs iv_fnow0) as (res & f' & -> & Hif & Hres).
  destruct res as [[]|e].
  2:{ destruct Hres as [Hlt He]. right. destruct (strict C) eqn:Hs; [exfalso; specialize (Ht (or_introl eq_refl)); lia|].
      left. split; [done|]. left. set_solver. }
  destruct Hres as (Hle & Ej & Ec & En & Ecs & Eo & Htm & Hw & _). specialize (Htm iv_timely0).
  assert (Hx := inv_deliver _ (BasicHbm.m_request <$> cs') s id r j t f' pend md_inv0 Hr Hst Hin Hcs' Ht Hrep Hndp Hpend Hif Htm Ec En Ej).
  sy_simpl. split; [|split; [|done]].
  - constructor; sy_simpl; rewrite ?En, ?Ecs; try done. intros c Hc. destruct (md_times0 c (Hsub c Hc)) as (H1 & r1 & H2 & H3).
    split; [done|]. exists r1. rewrite dget_dset_ne; [done|].
    assert (Hcm : BasicHbm.m_request c ∈ BasicHbm.m_request <$> cs') by (by apply list_elem_of_fmap_2).
    apply Hcs' in Hcm as [_ ?]. congruence.
  - rewrite (mu_update s _ id r (delivered_at t r) Hr); sy_simpl; [|done..]. unfold weight. cbn [state delivered_at arrival_ns].
    rewrite Hst. lia.
Qed.

(** The native completion. *)
Lemma accept_native_wp c cs s : Mid (MqsimService.c_request_id <$> c) cs s ->
  (forall c0, c = Some c0 -> dget (MqsimService.completions (mqsim s)) (MqsimService.c_request_id c0) = Some c0 /\
    (strict C = true -> BasicFabric.now (fabric s) <= MqsimService.reported_complete c0 /\ exists e,
       filter (fun e => MqsimService.ev_kind e = 2 /\ MqsimService.ev_request_id e = MqsimService.c_request_id c0)
         (MqsimService.observations (mqsim s)) = [e])) ->
  wp (_accept_mqsim_completion c) (fun _ s' => Mid None cs s' /\ delivers s s' /\
    (c <> None -> mu (open_ns C) s' < mu (open_ns C) s) /\ hbm s' = hbm s /\ now_ns s' = now_ns s) s.
Proof using Hnodup Hvalid Hserved.
  intros Hm Hc. destruct c as [c|]; cbn [_accept_mqsim_completion].
  2:{ apply wp_ret. split; [done|]. split; [right; split; [lia|done]|done]. }
  destruct (Hc c eq_refl) as [Hdone Hobs]. clear Hc. set (b := MqsimService.c_request_id c) in *.
  pose proof (md_inv _ _ _ Hm) as Hi. pose proof Hi as [].
  assert (Hin : b ∈ dkeys (mq_pending s)) by (apply (md_mq _ _ _ Hm); by left).
  apply dget_is_Some in Hin as [id Hg]. destruct (iv_pending0 _ _ Hg) as (r & Hr & Hst & Hk & Hb).
  apply wp_bind, wp_get. apply wp_bind. eapply wp_lift; [by rewrite Hg|]. apply wp_bind, wp_put. apply wp_bind.
  eapply wp_find; [exact Hr|]. apply wp_bind.
  assert (Hpend : forall b' id', dget (ddel (mq_pending s) b) b' = Some id' <-> dget (mq_pending s) b' = Some id' /\ id' <> id).
  { intros b' id'. rewrite dget_ddel by done. case_decide as E.
    - subst b'. split; [done|]. intros [Hg' Hne]. congruence.
    - split; [|tauto]. intros Hg'. split; [done|]. intros ->. destruct (iv_pending0 _ _ Hg') as (r1 & Hr1 & _ & _ & Hb1). congruence. }
  unfold _raw_mqsim_completion. apply wp_bind, wp_get. sy_simpl.
  assert (Hcont : wp (let! _ := update id (delivered_at (MqsimService.reported_complete c)) in
      call_fabric (BasicFabric.mark_source_ready id (VInt (MqsimService.reported_complete c))))
    (fun _ s' => Mid None cs s' /\ delivers s s' /\ (Some c <> None -> mu (open_ns C) s' < mu (open_ns C) s)
       /\ hbm s' = hbm s /\ now_ns s' = now_ns s)
    (set_mq_pending (ddel (mq_pending s) b) s)).
  { eapply wp_mono; [eapply (deliver_wp _ None cs cs s id r _ _ Hm Hr Hst)|].
    - congruence.
    - intros id'. split; [|tauto]. intros Hin. split; [done|]. intros ->. apply list_elem_of_fmap in Hin as (c0 & -> & Hc0).
      destruct (md_times _ _ _ Hm _ Hc0) as (_ & r1 & Hr1 & _ & Hk1). congruence.
    - apply (md_once _ _ _ Hm).
    - done.
    - intros [Hs|?]; [by apply Hobs|congruence].
    - intros b' Hb'. exists c. split; [|done]. replace b' with b by congruence. exact Hdone.
    - by apply NoDup_dkeys_ddel.
    - exact Hpend.
    - intros b'. rewrite <- dget_is_Some, dget_ddel by done. case_decide as E.
      + subst b'. split; [by intros []|]. intros [?|[_ Hn]]; [done|]. destruct Hn. apply dget_is_Some. eauto.
      + rewrite dget_is_Some, (md_mq _ _ _ Hm). cbn. split; [intros [[= ?]|?]; [done|by right]|intros [?|?]; [done|by right]].
    - intros _ s' (H1 & H2 & H3 & H4). split; [done|]. split; [by left|]. done. }
  destruct (filter _ _) as [|e [|]] eqn:Hf.
  - apply wp_raise. right. destruct (strict C) eqn:Hs; [|left; split; [done|]; left; set_solver].
    exfalso. destruct (Hobs eq_refl) as (_ & e & He). congruence.
  - apply wp_bind, wp_require.
    + intros Hne%Z.eqb_neq. right. destruct (strict C) eqn:Hs; [right; left|left; split; [done|]; left; set_solver].
      split; [done|]. right. split; [done|]. assert (He : e ∈ [e]) by (by apply list_elem_of_singleton). rewrite <- Hf in He.
      apply list_elem_of_filter in He as [[He1 He2] He3]. by exists b, c, e.
    + intros _. apply wp_ret. exact Hcont.
  - apply wp_raise. right. destruct (strict C) eqn:Hs; [|left; split; [done|]; left; set_solver].
    exfalso. destruct (Hobs eq_refl) as (_ & e' & He). congruence.
Qed.

(** The HBM completions. *)
Lemma accept_media_wp cs s : Mid None cs s ->
  wp (forM cs accept_hbm) (fun _ s' => Mid None [] s' /\ delivers s s' /\ hbm s' = hbm s /\ now_ns s' = now_ns s) s.
Proof using Hnodup Hvalid Hserved.
  intros Hm. eapply wp_mono; [apply (wp_forM (fun done s' => exists todo, cs = done ++ todo /\ Mid None todo s'
    /\ delivers s s' /\ hbm s' = hbm s /\ now_ns s' = now_ns s))|].
  - exists cs. split; [done|]. split; [done|]. split; [right; split; [lia|done]|done].
  - intros done c todo s1 El (todo' & El' & Hm1 & Hd1 & Hh1 & Hn1).
    assert (todo' = c :: todo) as -> by (apply (app_inv_head done); congruence).
    destruct (md_times _ _ _ Hm1 c ltac:(set_solver)) as (Ht & r & Hr & Hst & Hk).
    pose proof (md_once _ _ _ Hm1) as Hnd. rewrite fmap_cons in Hnd. apply NoDup_cons in Hnd as [Hnin Hnd].
    unfold accept_hbm. apply wp_bind. eapply wp_find; [exact Hr|]. apply wp_bind, wp_require.
    { intros Hf. by rewrite bool_decide_eq_true_2 in Hf. }
    intros _. pose proof (md_inv _ _ _ Hm1) as Hi1. replace s1 with (set_mq_pending (mq_pending s1) s1) by (by destruct s1).
    eapply wp_mono; [eapply (deliver_wp None None (c :: todo) todo s1 (BasicHbm.m_request c) r); try done|].
    + intros _. apply elem_of_cons. by left.
    + intros id'. rewrite fmap_cons, elem_of_cons. split; [|intros [[->|?] ?]; done]. intros Hin. split; [by right|]. by intros ->.
    + intros c0 Hc0. by apply elem_of_cons; right.
    + intros b Hb. destruct (bk_kind _ _ _ (iv_books _ _ _ _ _ _ Hi1) _ _ _ Hr Hb). congruence.
    + apply (iv_pkeys _ _ _ _ _ _ Hi1).
    + intros b id'. split; [|tauto]. intros Hg. split; [done|]. intros ->.
      destruct (iv_pending _ _ _ _ _ _ Hi1 _ _ Hg) as (r1 & Hr1 & _ & Hk1 & _). congruence.
    + apply (md_mq _ _ _ Hm1).
    + intros _ s2 (Hm2 & Hmu & Hh2 & Hn2). exists todo. rewrite <- app_assoc. split; [done|]. split; [done|].
      split; [eapply delivers_trans; [exact Hd1|by left]|]. split; congruence.
  - intros _ s' (todo & El & Hm' & Hrest). assert (todo = []) as -> by (apply (app_inv_head cs); by rewrite app_nil_r). done.
Qed.

(** Reading the logs of the media servers changes nothing else. *)
Lemma mid_hbm k cs s h h' : Mid k cs s -> hbm s = Some h -> BasicHbm.requests h' = BasicHbm.requests h ->
  BasicHbm.stacks h' = BasicHbm.stacks h -> BasicHbm.now_ns h' = BasicHbm.now_ns h ->
  Mid k cs (set_hbm h' s) /\ mu (open_ns C) (set_hbm h' s) = mu (open_ns C) s.
Proof using.
  intros Hm Hh Er Es En. split.
  2:{ unfold mu. sy_simpl. rewrite Hh. unfold BasicHbm.work. by rewrite Er. }
  destruct Hm. constructor; sy_simpl; try done.
  - destruct md_inv0. constructor; sy_simpl; try done.
    + intros h1 [= <-]. destruct (iv_hbm0 h Hh) as [H1 H2 H3 H4 H5]. constructor; rewrite ?Er, ?Es, ?En; done.
    + intros id r0 Hr0. specialize (iv_fits0 id r0 Hr0). unfold fits in *. rewrite Hh in iv_fits0. by rewrite Es.
    + intros h1 id [= <-]. unfold BasicHbm.is_complete. rewrite Er. by apply iv_media0.
    + intros id r Hid Hr. specialize (iv_link0 id r Hid Hr). unfold link, reserved_job in *. sy_simpl.
      destruct (state r); try done.
      * destruct iv_link0 as (H1 & H2 & H2' & H3). split; [done|]. split; [done|]. split; [done|]. intros h1 [= <-]. rewrite Er. auto.
      * destruct iv_link0 as (H1 & H2 & H3 & H4). split; [done|]. split; [done|]. split; [done|]. destruct (kind r); [done|].
        destruct H4 as (h1 & q & Hh1 & Hq & Ha & Hc). assert (h1 = h) as -> by congruence. exists h', q.
        unfold BasicHbm.is_complete in *. by rewrite Er.
  - intros h1 [= <-]. destruct (md_hbm0 h Hh) as [H1 H2]. split; [congruence|]. unfold BasicHbm.quiet_until in *. by rewrite Er, Es.
Qed.

Lemma mid_facts k cs s l : Mid k cs s -> Mid k cs (set_facts l s).
Proof using. intros []. constructor; try done. by destruct md_inv0. Qed.

(** All the HBM completions are taken and accepted. *)
Lemma accept_hbm_wp cs s : Mid None cs s -> match hbm s with Some h => BasicHbm.completions h = cs | None => cs = [] end ->
  wp _accept_hbm_completions (fun _ s' => Mid None [] s' /\ delivers s s' /\ now_ns s' = now_ns s
    /\ forall h, hbm s' = Some h -> BasicHbm.completions h = []) s.
Proof using Hnodup Hvalid Hserved.
  intros Hm Hcs. unfold _accept_hbm_completions. apply wp_bind, wp_get. destruct (hbm s) as [h|] eqn:Hh.
  2:{ apply wp_ret. rewrite Hcs in Hm. split; [done|]. split; [right; split; [lia|done]|]. split; [done|]. by rewrite Hh. }
  apply wp_bind. eapply wp_hbm; [exact Hh|]. cbn [BasicHbm.take_media_completions sbind get put sret]. rewrite Hcs.
  destruct (mid_hbm None cs s h (BasicHbm.set_completions [] h) Hm Hh) as [Hm1 Emu]; [done..|].
  apply wp_bind. eapply wp_mono; [by apply accept_media_wp|]. intros _ s2 (Hm2 & Hd2 & Hh2 & Hn2). sy_simpl.
  apply wp_bind. eapply wp_hbm; [exact Hh2|]. cbn [BasicHbm.take_facts sbind get put sret]. apply wp_modify.
  destruct (mid_hbm None [] s2 _ (BasicHbm.set_facts [] (BasicHbm.set_completions [] h)) Hm2 Hh2) as [Hm3 Emu3]; [done..|].
  split; [by apply mid_facts|]. split; [|split; [done|by intros h' [= <-]]].
  unfold delivers in *. change (mu (open_ns C) (set_facts ?l ?x)) with (mu (open_ns C) x). rewrite Emu3. rewrite Emu in Hd2.
  exact Hd2.
Qed.

(** Everything delivered is accepted by the records. *)
Lemma accept_fabric_wp log s : inv [] (BasicFabric.c_request_id <$> log) [] s -> NoDup (BasicFabric.c_request_id <$> log) ->
  (forall c, c ∈ log -> exists r j t, dget (records s) (BasicFabric.c_request_id c) = Some r /\ state r = FABRIC_PENDING
     /\ BasicFabric.jobs (fabric s) !! BasicFabric.c_request_id c = Some j /\ BasicFabric.ready_ns j = Some t
     /\ t <= BasicFabric.completion_ns c <= BasicFabric.now (fabric s)) ->
  wp (forM log accept_fabric) (fun _ s' => inv [] [] [] s' /\ exists d, s' = set_records d s /\ mu (open_ns C) s' <= mu (open_ns C) s) s.
Proof using Hnodup Hvalid Hserved.
  intros Hi Hnd Hlog. eapply wp_mono; [apply (wp_forM (fun done s' => exists todo d, log = done ++ todo /\ s' = set_records d s
    /\ inv [] (BasicFabric.c_request_id <$> todo) [] s' /\ mu (open_ns C) s' <= mu (open_ns C) s
    /\ forall c, c ∈ todo -> dget d (BasicFabric.c_request_id c) = dget (records s) (BasicFabric.c_request_id c)))|].
  - exists log, (records s). split; [done|]. split; [by destruct s|]. split; [done|]. split; [lia|done].
  - intros done c todo s1 El (todo' & d & El' & -> & Hi1 & Hmu & Hkeep).
    assert (todo' = c :: todo) as -> by (apply (app_inv_head done); congruence).
    destruct (Hlog c) as (r & j & t & Hr & Hst & Hj & Hrd & Ht); [rewrite El; set_solver|].
    assert (Hr1 : dget d (BasicFabric.c_request_id c) = Some r) by (rewrite Hkeep; [done|set_solver]).
    rewrite El, fmap_app, fmap_cons in Hnd. apply NoDup_app in Hnd as (_ & _ & Hnd). apply NoDup_cons in Hnd as [Hnin Hnd].
    destruct (inv_complete _ (BasicFabric.c_request_id <$> todo) (set_records d s) _ r t (BasicFabric.completion_ns c) Hi1 Hr1 Hst)
      as [Hi2 Hbc]; [eauto|apply elem_of_cons; by left|done| |].
    { intros id'. rewrite fmap_cons, elem_of_cons. split; [|intros [[->|?] ?]; done]. intros Hin. split; [by right|]. by intros ->. }
    unfold accept_fabric. apply wp_bind. eapply wp_find; [exact Hr1|]. apply wp_bind, wp_require.
    { intros Hf. by rewrite bool_decide_eq_true_2 in Hf. }
    intros _. apply wp_bind. eapply wp_lift; [by rewrite Hbc|]. eapply wp_update; [exact Hr1|]. sy_simpl.
    exists todo, (dset d (BasicFabric.c_request_id c) (completed_at (BasicFabric.completion_ns c) t r)).
    split; [by rewrite <- app_assoc|]. split; [done|]. split; [exact Hi2|]. split.
    + rewrite (mu_update (set_records d s) _ (BasicFabric.c_request_id c) r (completed_at (BasicFabric.completion_ns c) t r) Hr1); sy_simpl; [|done..].
      unfold weight. cbn [state completed_at arrival_ns]. rewrite Hst. lia.
    + intros c' Hc'. rewrite dget_dset_ne; [apply Hkeep; set_solver|]. intros E. apply Hnin. rewrite E. by apply list_elem_of_fmap_2.
  - intros _ s' (todo & d & El & -> & Hi' & Hmu & _). assert (todo = []) as -> by (apply (app_inv_head log); by rewrite app_nil_r).
    split; [done|]. by exists d.
Qed.

(** The fabric catches up and the system is at rest again. *)
Lemma transfer_wp s : Mid None [] s -> (forall h, hbm s = Some h -> BasicHbm.completions h = []) ->
  wp (let! _ := call_fabric (BasicFabric.advance (VInt (now_ns s))) in _accept_fabric_completions)
    (fun _ s' => rest [] s' /\ now_ns s' = now_ns s /\ mu (open_ns C) s' <= mu (open_ns C) s /\
       forall t, BasicFabric.next_event_ns (fabric s) = Some t -> t <= now_ns s -> mu (open_ns C) s' < mu (open_ns C) s) s.
Proof using Hnodup Hvalid Hserved.
  intros Hm Hempty. pose proof (md_inv _ _ _ Hm) as Hi. pose proof Hi as [].
  destruct (BasicFabric.advance_ok (fabric s) (now_ns s) iv_fabric0 (md_fabric _ _ _ Hm)) as
    (f' & Hadv & Hif & Hn & Hcf & _ & Hh & Hw & Hws); [pose proof (md_fabric _ _ _ Hm); lia|].
  destruct (BasicFabric.hy_log _ _ Hh) as (log & El & Hnd & Htimes & Hids & Hready).
  apply wp_bind, wp_zoom. rewrite Hadv. unfold _accept_fabric_completions. apply wp_bind, wp_get.
  pose proof (inv_transfer s f' log Hi Hif Hh Hcf Hids) as Hi1. cbn [set_fabric fabric fabric_completion_count].
  rewrite El, (md_count _ _ _ Hm), drop_app_length. apply wp_bind.
  assert (Hmu : mu (open_ns C) (set_fabric f' s) = mu (open_ns C) s + Z.of_nat (BasicFabric.work (BasicFabric.jobs f'))
    - Z.of_nat (BasicFabric.work (BasicFabric.jobs (fabric s)))) by (unfold mu; sy_simpl; lia).
  eapply wp_mono; [apply (accept_fabric_wp log _ Hi1 Hnd)|].
  - intros c Hc. assert (Hid : BasicFabric.c_request_id c ∈ BasicFabric.c_request_id <$> log) by (by apply list_elem_of_fmap_2).
    destruct (transfer_pending s f' log _ Hi Hids Hh Hid) as (r & Hr & Hst). apply Hids in Hid as (j & j' & Hj & _ & Hj' & _).
    destruct (BasicFabric.tm_log _ (BasicFabric.hy_timely _ _ Hh iv_timely0) c) as (t & Hrt & Hle); [rewrite El; set_solver|].
    exists r, j', t. sy_simpl. split; [done|]. split; [done|]. split; [done|]. split; [|destruct (Htimes c Hc); lia].
    destruct (BasicFabric.hy_job _ _ Hh _ _ Hj) as (j0 & Hj0 & Erd & _). rewrite <- (Hready c j Hc Hj) in Erd. congruence.
  - intros _ s' (Hi' & d & -> & Hmu'). apply wp_modify. rewrite Hmu in Hmu'.
    change (mu (open_ns C) (set_count ?n ?x)) with (mu (open_ns C) x). split; [|split; [done|split; [lia|]]].
    + destruct Hm. constructor; sy_simpl; try done.
      * by destruct Hi'.
      * by rewrite md_clock0.
      * intros h Hh1. destruct (md_hbm0 h Hh1). auto.
      * intros b. rewrite md_mq0. split; [intros [?|?]; done|auto].
      * by rewrite El.
    + intros t Ht Hle. specialize (Hws t Ht Hle). lia.
Qed.

(** ** One iteration *)

Lemma weight_later o t t' r : t <= t' -> weight o t' r <= weight o t r.
Proof using Hnodup Hvalid. intros Hle. unfold weight. destruct (state r); repeat case_match; lia. Qed.

(** The weights go down as time passes, and further when an event comes due. *)
Lemma weights_later (s : system) t' : now_ns s <= t' ->
  zsum (weight (open_ns C) t' <$> dvals (records s)) <= zsum (weight (open_ns C) (now_ns s) <$> dvals (records s)) /\
  forall id r t, dget (records s) id = Some r -> now_ns s < t <= t' ->
    arrival_ns r = t \/ (state r = GATE_WAIT /\ gate_target_ns r = Some t) ->
    zsum (weight (open_ns C) t' <$> dvals (records s)) < zsum (weight (open_ns C) (now_ns s) <$> dvals (records s)).
Proof using Hnodup Hvalid Hserved.
  intros Hle. split; [apply zsum_map_le; intros r _; by apply weight_later|].
  intros id r t Hr Ht Hdue. apply (zsum_map_lt _ _ _ r); [intros r1 _; by apply weight_later| |].
  - apply list_elem_of_fmap. exists (id, r). split; [done|]. by apply dget_Some_elem.
  - unfold weight. destruct Hdue as [Ha|[Hs Hg]].
    + rewrite Ha. destruct (Z.ltb_spec t' t), (Z.ltb_spec (now_ns s) t); try lia. destruct (state r); repeat case_match; lia.
    + rewrite Hs, Hg. cbn. destruct (Z.ltb_spec t' t), (Z.ltb_spec (now_ns s) t); try lia. repeat case_match; lia.
Qed.

(** What [until] brings back. *)
Record ticked (s : system) (t : Z) (c : option MqsimService.completion) (w : service) : Prop := {
  ti_client : MqsimService.client_inv w;
  ti_link : ct_link C w;
  ti_time : now_ns s <= MqsimService.now w <= t;
  ti_requests : MqsimService.requests w = MqsimService.requests (mqsim s);
  ti_completions : match c with
    | None => MqsimService.now w = t /\ MqsimService.completions w = MqsimService.completions (mqsim s)
    | Some c => MqsimService.c_request_id c ∈ dkeys (MqsimService.requests (mqsim s))
        /\ dget (MqsimService.completions (mqsim s)) (MqsimService.c_request_id c) = None
        /\ MqsimService.completions w = dset (MqsimService.completions (mqsim s)) (MqsimService.c_request_id c) c
    end;
  ti_strict : strict C = true -> match c with
    | None => True
    | Some c => now_ns s <= MqsimService.reported_complete c /\ exists e,
        filter (fun e => MqsimService.ev_kind e = 2 /\ MqsimService.ev_request_id e = MqsimService.c_request_id c)
          (MqsimService.observations w) = [e]
    end }.

Lemma until_wp s t : rest [] s -> now_ns s <= t -> (strict C = true -> MAX_HORIZON_NS < t -> overdue s) ->
  wp (call_mqsim (MqsimService.until t)) (fun c s' => exists w, s' = set_mqsim w s /\ ticked s t c w) s.
Proof using Hnodup Hvalid Hserved.
  intros Hrest Hle Hod. pose proof (re_inv _ _ _ _ Hrest) as Hi. apply wp_zoom.
  assert (Hst : strict C = true -> MqsimService.now (mqsim s) <= t) by (intros Hs; by rewrite (re_strict _ _ _ _ Hrest Hs)).
  pose proof (ct_until C _ t (iv_client _ _ _ _ _ _ Hi) (re_link _ _ _ _ Hrest) Hst) as Hct.
  destruct (MqsimService.until t (mqsim s)) as [[c|e] w] eqn:E.
  - destruct (MqsimService.until_spec _ _ _ _ E (iv_client _ _ _ _ _ _ Hi)) as (Hcw & Hnow & Hok).
    destruct (Hok c eq_refl) as (Hnt & Hreq & _ & Hc). destruct Hct as [Hl Hstrict]. exists w. split; [done|].
    pose proof (re_clock _ _ _ _ Hrest). constructor; try done; [lia|]. intros Hs. specialize (Hstrict Hs).
    by rewrite (re_strict _ _ _ _ Hrest Hs) in Hstrict.
  - destruct Hct as [Hf|[Hs Hmax]]; [by left|]. right. right. left. split; [done|]. left. exact (Hod Hs Hmax).
Qed.

(** A completion that the client has recorded stays. *)
Lemma ti_kept s t c w : ticked s t c w -> forall b x, dget (MqsimService.completions (mqsim s)) b = Some x -> dget (MqsimService.completions w) b = Some x.
Proof using.
  intros Htk b x Hx. pose proof (ti_completions _ _ _ _ Htk) as Hc. destruct c as [c|]; [|by destruct Hc as [_ ->]].
  destruct Hc as (_ & Hn & ->). rewrite dget_dset_ne; [done|]. intros E. rewrite E in Hn. congruence.
Qed.

(** The media servers catch up with the native clock. *)
Lemma media_tick_wp s t c w : rest [] s -> ticked s t c w ->
  let s1 := set_now (MqsimService.now w) (set_mqsim w s) in
  wp (match hbm s1 with Some _ => call_hbm (BasicHbm.advance (VInt (now_ns s1))) | None => sret tt end)
    (fun _ s2 => exists cs, Mid (MqsimService.c_request_id <$> c) cs s2 /\ now_ns s2 = MqsimService.now w /\ mqsim s2 = w
       /\ fabric s2 = fabric s /\ match hbm s2 with Some h => BasicHbm.completions h = cs | None => cs = [] end
       /\ mu (open_ns C) s2 <= mu (open_ns C) s
       /\ (forall id r t', dget (records s) id = Some r -> now_ns s < t' <= MqsimService.now w ->
             arrival_ns r = t' \/ (state r = GATE_WAIT /\ gate_target_ns r = Some t') -> mu (open_ns C) s2 < mu (open_ns C) s)
       /\ (forall h t', hbm s = Some h -> BasicHbm.next_event_ns h = Ok (Some t') -> t' <= MqsimService.now w ->
             mu (open_ns C) s2 < mu (open_ns C) s)) s1.
Proof using Hnodup Hvalid Hserved.
  intros Hrest Htk s1. pose proof (inv_native _ _ _ s w (MqsimService.now w) (re_inv _ _ _ _ Hrest) (ti_client _ _ _ _ Htk) (ti_requests _ _ _ _ Htk) (ti_kept _ _ _ _ Htk)) as Hi1.
  destruct (ti_time _ _ _ _ Htk) as [Hle _]. destruct (weights_later s _ Hle) as [Hw Hws].
  assert (Hmq : forall b, b ∈ dkeys (mq_pending s) <-> (MqsimService.c_request_id <$> c) = Some b \/
    (b ∈ dkeys (MqsimService.requests w) /\ b ∉ dkeys (MqsimService.completions w))).
  { intros b. rewrite (re_mq _ _ _ _ Hrest), (ti_requests _ _ _ _ Htk). pose proof (ti_completions _ _ _ _ Htk) as Hc.
    destruct c as [c|]; cbn.
    - destruct Hc as (H1 & H2 & ->). rewrite elem_dkeys_dset. apply dget_None in H2.
      destruct (decide (MqsimService.c_request_id c = b)) as [<-|Hne]; [tauto|]. split; [intros [? ?]; right; split; [done|]; intros [?|?]; congruence|].
      intros [[= ?]|[? ?]]; [done|]. split; [done|]. tauto.
    - destruct Hc as (_ & ->). split; [auto|]. intros [?|?]; done. }
  destruct (hbm s1) as [h|] eqn:Hh; change (hbm s1) with (hbm s) in Hh.
  - destruct (re_hbm _ _ _ _ Hrest h Hh) as (Hhn & _ & Hnone).
    destruct (BasicHbm.hbm_advance_ok h (MqsimService.now w) (iv_hbm _ _ _ _ _ _ Hi1 h Hh)) as (h' & Hadv & Hih & Hn' & Hev & Hq & Hwk & Hwks); [lia|].
    eapply wp_hbm; [exact Hh|]. change (now_ns s1) with (MqsimService.now w). rewrite Hadv.
    destruct (BasicHbm.pg_log _ _ (BasicHbm.ev_progress _ _ Hev)) as (log & El & Hnd & Htimes & Hids). rewrite Hnone in El. cbn in El.
    exists log. unfold s1. sy_simpl. split; [|split; [done|split; [done|split; [done|split; [done|]]]]].
    + destruct Hrest. constructor; sy_simpl; try done.
      * by apply (inv_media [] [] s1 h).
      * intros m Hm. split; [destruct (Htimes m Hm); lia|].
        assert (Hid : BasicHbm.m_request m ∈ BasicHbm.m_request <$> log) by (by apply list_elem_of_fmap_2).
        apply Hids in Hid as [Hc' Hnc]. apply (iv_media _ _ _ _ _ _ Hi1 h _ Hh); [|done]. apply (BasicHbm.ev_dom _ _ Hev).
        destruct Hc' as (q & Hq' & _). eauto.
      * lia.
      * intros h1 [= <-]. done.
      * apply (ti_link _ _ _ _ Htk).
    + unfold mu. sy_simpl. rewrite Hh. split; [lia|]. split.
      * intros id r t' Hr Ht' Hdue. specialize (Hws id r t' Hr Ht' Hdue). lia.
      * intros h1 t' [= <-] Hev' Ht'. specialize (Hwks t' Hev' Ht'). lia.
  - apply wp_ret. exists []. unfold s1. sy_simpl. rewrite Hh. split; [|split; [done|split; [done|split; [done|split; [done|]]]]].
    + destruct Hrest. constructor; sy_simpl; try done.
      * constructor.
      * intros m Hm. by apply not_elem_of_nil in Hm.
      * lia.
      * rewrite Hh. done.
      * apply (ti_link _ _ _ _ Htk).
    + unfold mu. sy_simpl. rewrite Hh. split; [lia|]. split; [|done].
      intros id r t' Hr Ht' Hdue. specialize (Hws id r t' Hr Ht' Hdue). lia.
Qed.

(** [left] are the requests that have not arrived. *)
Definition awaits (left : list string) (s : system) : Prop :=
  forall id, id ∈ left <-> exists r, dget (records s) id = Some r /\ now_ns s < arrival_ns r.

Lemma arrival_same s s' id r : rest [] s -> rest [] s' -> dget (records s) id = Some r ->
  exists r', dget (records s') id = Some r' /\ arrival_ns r' = arrival_ns r.
Proof using Hnodup Hvalid Hserved.
  intros Hs Hs' Hr. pose proof (re_inv _ _ _ _ Hs) as Hi. pose proof (re_inv _ _ _ _ Hs') as Hi'.
  destruct (record_known _ _ _ _ _ _ Hi Hr) as (r0 & Hr0 & Hb & _).
  assert (Hk : id ∈ dkeys (records s')) by (rewrite (iv_keys _ _ _ _ _ _ Hi'); apply dget_is_Some; eauto).
  apply dget_is_Some in Hk as [r' Hr']. exists r'. split; [done|].
  pose proof (iv_base _ _ _ _ _ _ Hi' _ _ _ Hr0 Hr') as Hb'. rewrite <- Hb in Hb'. by apply base_eq in Hb' as (_ & _ & _ & _ & _ & _ & ? & _).
Qed.

Lemma awaits_same left s s' : rest [] s -> rest [] s' -> now_ns s' = now_ns s -> awaits left s -> awaits left s'.
Proof using Hnodup Hvalid Hserved.
  intros Hs Hs' En Ha id. rewrite (Ha id). split; intros (r & Hr & Hlt).
  - destruct (arrival_same s s' id r Hs Hs' Hr) as (r' & Hr' & E). exists r'. split; [done|]. lia.
  - destruct (arrival_same s' s id r Hs' Hs Hr) as (r' & Hr' & E). exists r'. split; [done|]. lia.
Qed.

(** The horizon is legal, or the run is over or out of range. *)
Lemma horizon_legal s left : rest [] s -> (forall id, id ∈ dkeys recs0 -> settled s id) -> awaits left s ->
  (exists id r, dget (records s) id = Some r /\ state r <> COMPLETE) ->
  match zmin_list (candidates s left) with
  | Some t => now_ns s <= t /\ t ∈ candidates s left
  | None => mq_pending s <> []
  end.
Proof using Hnodup Hvalid Hserved.
  intros Hrest Hset Hleft (id & r & Hr & Hnc). pose proof (zmin_list_spec (candidates s left)) as Hz.
  destruct (zmin_list _) as [t|].
  - destruct Hz as [Hin _]. split; [|done]. apply (horizon_candidate s left t Hrest Hset); [|done].
    intros id' Hid'. by apply Hleft in Hid'.
  - intros Hp. apply Hnc. eapply (no_deadlock s left Hrest Hset); [|exact Hz|exact Hp|exact Hr].
    intros id' r' Hr' Hlt. apply Hleft. eauto.
Qed.

(** The native clock moved to [t]: something came due. *)
Lemma due s left t s2 : rest [] s -> (forall id, id ∈ dkeys recs0 -> settled s id) -> awaits left s ->
  t ∈ candidates s left ->
  (forall id r t', dget (records s) id = Some r -> now_ns s < t' <= t ->
     arrival_ns r = t' \/ (state r = GATE_WAIT /\ gate_target_ns r = Some t') -> mu (open_ns C) s2 < mu (open_ns C) s) ->
  (forall h t', hbm s = Some h -> BasicHbm.next_event_ns h = Ok (Some t') -> t' <= t -> mu (open_ns C) s2 < mu (open_ns C) s) ->
  mu (open_ns C) s2 < mu (open_ns C) s \/ BasicFabric.next_event_ns (fabric s) = Some t.
Proof using Hnodup Hvalid Hserved.
  intros Hrest Hset Hleft Hin Hrec Hmedia.
  destruct (horizon_candidate s left t Hrest Hset) as (_ & _ & [H1|[H2|[H3|H4]]]); [intros id' Hid'; by apply Hleft in Hid'|done|..].
  - destruct H1 as (id & r & Hr & Ha & Hlt). left. eapply (Hrec id r t); [done|lia|by left].
  - destruct H2 as (id & r & Hr & Hs & Hg & Hlt). left. eapply (Hrec id r t); [done|lia|by right].
  - destruct H3 as (h & Hh & He). left. by eapply (Hmedia h t); [..|lia].
  - by right.
Qed.

Lemma step_wp s left : rest [] s -> awaits left s -> (exists id r, dget (records s) id = Some r /\ state r <> COMPLETE) ->
  wp (step left) (fun _ s' => rest [] s' /\ now_ns s <= now_ns s'
    /\ (gates C = true -> mu (open_ns C) s' < mu (open_ns C) s \/ MAX_HORIZON_NS <= now_ns s')) s.
Proof using Hnodup Hvalid Hserved.
  intros Hrest Hleft (id & r & Hr & Hnc). unfold step. apply wp_bind. eapply wp_mono; [by apply admit_wp|].
  intros _ s1 ([Hr1 Hn1 Hc1] & Hmu1 & Hset). pose proof (awaits_same left s s1 Hrest Hr1 Hn1 Hleft) as Hleft1.
  assert (Hopen : exists id r, dget (records s1) id = Some r /\ state r <> COMPLETE).
  { destruct (arrival_same s s1 id r Hrest Hr1 Hr) as (r' & Hr' & _). exists id, r'. split; [done|]. intros Hx.
    specialize (Hc1 _ _ Hr' Hx). congruence. }
  apply wp_bind. eapply wp_mono; [by apply horizon_wp|]. intros o s1' [-> Ho]. apply wp_bind, wp_get. apply wp_bind.
  pose proof (horizon_legal s1 left Hr1 Hset Hleft1 Hopen) as Hlegal.
  destruct o as [t|]; [eapply wp_lift; [done|]|exfalso; destruct (zmin_list _); [done|by destruct (mq_pending s1)]].
  apply wp_bind, wp_require.
  { intros Hf%Z.leb_gt. destruct (zmin_list _) as [t'|]; [assert (t' = t) as -> by congruence; lia|]. destruct (mq_pending s1); [done|].
    assert (t = MAX_HORIZON_NS) as -> by congruence. right. right. right. right. done. }
  intros Hle%Z.leb_le. apply wp_bind. eapply wp_mono; [apply (until_wp s1 t Hr1 Hle)|].
  { intros _ Hmax. destruct (zmin_list _) as [t'|].
    - assert (t' = t) as -> by congruence. right. exists t. split; [done|].
      apply (horizon_candidate s1 left t Hr1); [done| |apply Hlegal]. intros id' Hid'. by apply Hleft1 in Hid'.
    - destruct (mq_pending s1); [done|]. assert (t = MAX_HORIZON_NS) as -> by congruence. lia. }
  intros c s2 (w & -> & Htk). apply wp_bind, wp_modify. apply wp_bind, wp_get. apply wp_bind.
  eapply wp_mono; [apply (media_tick_wp s1 t c w Hr1 Htk)|].
  intros _ s3 (cs & Hm3 & Hn3 & Hw3 & Hf3 & Hcs & Hmu3 & Hrec & Hmedia). pose proof (ti_time _ _ _ _ Htk) as Htime.
  change (now_ns (set_now (MqsimService.now (mqsim (set_mqsim w s1))) (set_mqsim w s1))) with (MqsimService.now w).
  apply wp_bind. eapply wp_mono; [apply (accept_native_wp c cs s3 Hm3)|].
  { intros c0 ->. rewrite Hw3, Hf3, (re_fabric _ _ _ _ Hr1). split; [|apply (ti_strict _ _ _ _ Htk)].
    destruct (ti_completions _ _ _ _ Htk) as (_ & _ & ->). apply dget_dset_eq. }
  intros _ s4 (Hm4 & Hd4 & Hmu4 & Hh4 & Hn4). apply wp_bind. eapply wp_mono; [apply (accept_hbm_wp cs s4 Hm4); by rewrite Hh4|].
  intros _ s5 (Hm5 & Hd5 & Hn5 & He5). replace (MqsimService.now w) with (now_ns s5) by congruence.
  eapply wp_mono; [by apply transfer_wp|]. intros _ s6 (Hr6 & Hn6 & Hmu6 & Hev6). split; [done|]. split; [lia|].
  intros Hs. specialize (Hmu1 Hs). pose proof (delivers_trans _ _ _ Hd4 Hd5) as Hd.
  assert (Hdle : mu (open_ns C) s5 <= mu (open_ns C) s3) by (destruct Hd as [?|[? _]]; lia).
  destruct c as [c|]; [left; assert (mu (open_ns C) s4 < mu (open_ns C) s3) by (by apply Hmu4); destruct Hd5 as [?|[? _]]; lia|].
  destruct (ti_completions _ _ _ _ Htk) as [Ht _]. destruct (zmin_list _) as [t'|].
  2:{ right. destruct (mq_pending s1); [done|]. assert (t = MAX_HORIZON_NS) as -> by congruence. lia. }
  left. assert (t' = t) as -> by congruence. destruct Hlegal as [_ Hin]. rewrite Ht in Hrec, Hmedia.
  destruct (due s1 left t s3 Hr1 Hset Hleft1 Hin Hrec Hmedia) as [Hlt|Hev]; [lia|].
  destruct Hd as [Hlt|[_ Ef]]; [lia|]. assert (mu (open_ns C) s6 < mu (open_ns C) s5); [|lia].
  apply (Hev6 t); [congruence|lia].
Qed.

(** ** The loop *)

Lemma mu_nonneg s : 0 <= mu (open_ns C) s.
Proof using.
  unfold mu. assert (0 <= zsum (weight (open_ns C) (now_ns s) <$> dvals (records s))); [|destruct (hbm s); lia].
  apply zsum_nonneg, Forall_forall. intros x (r & -> & _)%list_elem_of_fmap. unfold weight. destruct (state r); repeat case_match; lia.
Qed.

Lemma loop_wp fuel left s : rest [] s ->
  (forall id r, dget (records s) id = Some r -> now_ns s < arrival_ns r -> id ∈ left) ->
  (gates C = true -> mu (open_ns C) s < Z.of_nat fuel \/ MAX_HORIZON_NS <= now_ns s) ->
  wp (run_loop fuel left) (fun _ s' => rest [] s' /\ all_complete s' = true) s.
Proof using Hnodup Hvalid Hserved.
  revert left s. induction fuel as [|fuel IH]; intros left s Hrest Hleft Hmu.
  - apply wp_raise. right. right. right. left. split; [done|]. intros Hs. destruct (Hmu Hs); [|done]. pose proof (mu_nonneg s). lia.
  - cbn [run_loop]. apply wp_bind, wp_get. destruct (all_complete s) eqn:Hall; [by apply wp_ret|].
    assert (Hopen : exists id r, dget (records s) id = Some r /\ state r <> COMPLETE).
    { unfold all_complete in Hall. apply not_true_iff_false in Hall. rewrite forallb_forall in Hall.
      destruct (decide (Exists (fun r => state r <> COMPLETE) (dvals (records s)))) as [Hex|Hno].
      - apply Exists_exists in Hex as (r & Hin & Hx). destruct (record_of_val _ _ _ _ _ (re_inv _ _ _ _ Hrest) Hin) as [id Hid]. eauto.
      - exfalso. apply Hall. intros r Hin%list_elem_of_In. apply bool_decide_eq_true. destruct (decide (state r = COMPLETE)); [done|].
        destruct Hno. apply Exists_exists. eauto. }
    assert (Haw : awaits (later s left) s).
    { intros id. unfold later. rewrite list_elem_of_filter. split.
      - intros [Hx _]. destruct (dget (records s) id) as [r|]; [|done]. exists r. split; [done|]. by apply Z.ltb_lt.
      - intros (r & Hr & Hlt). rewrite Hr. split; [by apply Z.ltb_lt|]. by eapply Hleft. }
    apply wp_bind. eapply wp_mono; [by apply step_wp|]. intros _ s' (Hrest' & Hle & Hdec). apply IH; [done| |].
    + intros id r Hr Hlt. destruct (arrival_same s' s id r Hrest' Hrest Hr) as (r' & Hr' & E). apply Haw. exists r'. split; [done|]. lia.
    + intros Hs. destruct (Hdec Hs); [|by right]. destruct (Hmu Hs); [left; lia|right; lia].
Qed.

(** ** The report *)

Definition is_hbf (r : record) : Prop := kind r = HBF.
#[local] Instance is_hbf_dec r : Decision (is_hbf r).
Proof using. unfold is_hbf. apply _. Defined.

Lemma reads_base {A} (f : record -> A) l l' : (forall r r', base r = base r' -> f r = f r') ->
  Forall2 (fun r r0 => base r = base r0) l l' -> f <$> filter is_hbf l = f <$> filter is_hbf l'.
Proof using.
  intros Hf. induction 1 as [|r r' l l' Hb Hl IH]; [done|]. rewrite !filter_cons.
  assert (Hh : is_hbf r <-> is_hbf r') by (unfold is_hbf; by destruct (base_eq _ _ Hb) as (_ & _ & -> & _)).
  destruct (decide (is_hbf r)); [rewrite !decide_True by tauto|by rewrite !decide_False by tauto].
  rewrite !fmap_cons, IH. f_equal. by apply Hf.
Qed.

Lemma filter_dvals (d : dict string record) : filter is_hbf (dvals d) = snd <$> filter (fun kv => is_hbf kv.2) d.
Proof using.
  unfold dvals. induction d as [|[k r] d IH]; [done|]. rewrite fmap_cons, !filter_cons. cbn [snd]. case_decide; [|done].
  by rewrite fmap_cons, IH.
Qed.

(** The client's requests pair up with the HBF requests. *)
Lemma reads_perm d q : NoDup (dkeys d) -> NoDup (dkeys q) -> native_reads d q ->
  (forall id id' r r' b, dget d id = Some r -> dget d id' = Some r' -> backend_request_id r = Some b ->
     backend_request_id r' = Some b -> id = id') ->
  (forall id r, dget d id = Some r -> offered r = true) ->
  (fun bx => (Some bx.1, MqsimService.bytes bx.2)) <$> q ≡ₚ (fun r => (backend_request_id r, bytes r)) <$> filter is_hbf (dvals d).
Proof using.
  intros Hnd Hnq [Hk Ha] Hinj Hoff. rewrite filter_dvals, <- list_fmap_compose. unfold compose.
  apply NoDup_Permutation.
  - apply (NoDup_fmap_2_strong _ q); [|by apply (NoDup_fmap_1 fst)]. intros [b x] [b' x'] Hx Hx' [= -> _]. f_equal.
    apply (dget_elem q) in Hx, Hx'; [congruence|done..].
  - apply NoDup_fmap_2_strong; [|apply NoDup_filter; by apply (NoDup_fmap_1 fst)].
    intros [id r] [id' r'] [Hh Hin]%list_elem_of_filter [Hh' Hin']%list_elem_of_filter [= E _].
    apply (dget_elem d) in Hin, Hin'; [|done..]. destruct (Ha id r Hin Hh (Hoff _ _ Hin)) as (b & Hb & _).
    assert (id = id') as <- by (eapply (Hinj id id' r r' b); congruence). congruence.
  - intros [o n]. rewrite !list_elem_of_fmap. split.
    + intros ([b x] & [= -> ->] & Hx). apply dget_elem in Hx; [|done]. destruct (Hk b x Hx) as (id & r & Hr & Hb & Hh & _ & Hm & _).
      exists (id, r). cbn. split; [congruence|]. apply list_elem_of_filter. split; [done|]. by apply dget_Some_elem.
    + intros ([id r] & [= -> ->] & [Hh Hin]%list_elem_of_filter). apply dget_elem in Hin; [|done]. cbn in *.
      destruct (Ha id r Hin Hh (Hoff _ _ Hin)) as (b & Hb & Hq). apply dget_is_Some in Hq as [x Hx].
      destruct (Hk b x Hx) as (id' & r' & Hr' & Hb' & _ & _ & Hm & _). assert (id' = id) as -> by (by eapply Hinj).
      exists (b, x). cbn. split; [congruence|]. by apply dget_Some_elem.
Qed.

(** A report of a run on the validated requests [recs]: one complete row per
    request, in order of intake, asking for what was asked, served after its
    submission and complete after it was served, within the time of the run, and
    submitted after its arrival for an HBM request (under a strict contract, for
    every request); the requests are counted per stack;
    and the receipt of the flash simulator covers exactly the HBF reads. *)
Record sound (strict : bool) (recs : list record) (rep : report) : Prop := {
  sd_rows : base <$> completions rep = base <$> recs;
  sd_done : forall r, r ∈ completions rep -> state r = COMPLETE /\ complete_ok strict r
    /\ exists c, final_completion_ns r = Some c /\ c <= time_ns rep;
  sd_order : forall r a t, r ∈ completions rep -> backend_submit_ns r = Some a -> backend_completion_ns r = Some t -> a <= t;
  sd_counts : forall k n, (k, n) ∈ stack_request_counts rep -> n = length (filter (fun r => stack r = k) recs);
  sd_reads : let reads := filter is_hbf recs in let receipt := mqsim_receipt rep in
    MqsimService.pending receipt = 0
    /\ MqsimService.issued receipt = Z.of_nat (length reads) /\ MqsimService.completed receipt = Z.of_nat (length reads)
    /\ MqsimService.issued_bytes receipt = zsum (bytes <$> reads) /\ MqsimService.completed_bytes receipt = zsum (bytes <$> reads) }.

Lemma stacks_base k l l' : Forall2 (fun r r0 => base r = base r0) l l' ->
  length (filter (fun r => stack r = k) l) = length (filter (fun r => stack r = k) l').
Proof using.
  induction 1 as [|r r' l l' Hb Hl IH]; [done|]. rewrite !filter_cons. destruct (base_eq _ _ Hb) as (_ & _ & _ & -> & _).
  case_decide; [|done]. cbn. by rewrite IH.
Qed.

(** A fabric whose requests are all done holds nothing. *)
Lemma nothing_leaked f : BasicFabric.fabric_inv f ->
  (forall id j, BasicFabric.jobs f !! id = Some j -> BasicFabric.state j = BasicFabric.DONE) -> leaked f = false.
Proof using.
  intros Hf Hdone. pose proof (BasicFabric.done_no_owner _ Hf Hdone) as Hfree. unfold leaked, BasicFabric.resource_state.
  match goal with |- context [isort sle (_ <$> ?x)] => assert (Hun : x = []) end.
  { destruct (filter _ _) as [|[id j] l] eqn:E; [done|]. exfalso.
    assert (Hin : (id, j) ∈ (id, j) :: l) by (apply elem_of_cons; by left). rewrite <- E in Hin.
    apply list_elem_of_filter in Hin as [Hn Hj%elem_of_map_to_list]. by apply Hn, (Hdone id). }
  assert (Hbanks : forall (mk : nat -> BasicFabric.slot) n, existsb occupied ((fun i => BasicFabric.owners f !! mk i) <$> seq 0 n) = false).
  { intros mk n. apply not_true_iff_false. intros (o & Ho & Hx)%existsb_exists. apply list_elem_of_In, list_elem_of_fmap in Ho as (i & -> & _).
    by rewrite Hfree, lookup_empty in Hx. }
  rewrite Hun. cbn [fmap list_fmap isort foldr]. rewrite bool_decide_eq_true_2 by done. apply orb_false_intro; [apply orb_false_intro; [done|]|].
  - apply not_true_iff_false. intros (row & Hrow & Hx)%existsb_exists.
    apply list_elem_of_In, list_elem_of_fmap in Hrow as ([k row'] & -> & Hrow). apply list_elem_of_fmap in Hrow as ([k1 c] & [= <- ->] & _).
    cbn [snd BasicFabric.banks BasicFabric.row_fill BasicFabric.row_direct BasicFabric.row_relay] in Hx.
    rewrite Hbanks, Hfree, !lookup_empty in Hx. done.
  - apply not_true_iff_false. intros (row & Hrow & Hx)%existsb_exists.
    apply list_elem_of_In, list_elem_of_fmap in Hrow as ([k row'] & -> & Hrow). apply list_elem_of_fmap in Hrow as ([k1 c] & [= <- ->] & _).
    cbn [snd BasicFabric.row_banks BasicFabric.row_gpu] in Hx. rewrite Hbanks, Hfree, lookup_empty in Hx. done.
Qed.

Lemma all_complete_spec s : rest [] s -> all_complete s = true -> forall id r, dget (records s) id = Some r -> state r = COMPLETE.
Proof using.
  intros _ Hall id r Hr. unfold all_complete in Hall. rewrite forallb_forall in Hall. eapply bool_decide_unpack, Is_true_true, Hall, list_elem_of_In.
  apply list_elem_of_fmap. exists (id, r). split; [done|]. by apply dget_Some_elem.
Qed.

(** The tail of [run]: the receipt, the leak check and the report. *)
Definition close_run : M system report :=
  let! receipt := call_mqsim MqsimService.finish in
  let! s := get in
  let! _ := require (negb (leaked (fabric s))) (RuntimeError "fabric resource ownership leaked after completion") in
  let rows := isort (fun a b => Nat.leb (sequence a) (sequence b)) (dvals (records s)) in
  sret {| topology_mode := mode s; time_ns := now_ns s; completions := rows;
          stack_request_counts := (fun k => (k, length (filter (fun r => stack r = k) rows))) <$> stack_names s;
          mqsim_receipt := receipt; mqsim_native_events := MqsimService.native_observations (mqsim s); rep_hbm_facts := hbm_facts s;
          fabric_events := BasicFabric.events (fabric s); external_gddr := String.eqb (mode s) "all_hbf_direct" |}.

(** Whatever the process, a read was served after it was submitted: its media history was checked. *)
Lemma served_order s (obs : list MqsimService.event) depth id r a t : rest [] s ->
  MqsimService.histories_ok depth (MqsimService.requests (mqsim s)) (MqsimService.completions (mqsim s)) obs ->
  dget (records s) id = Some r -> state r = COMPLETE -> backend_submit_ns r = Some a -> backend_completion_ns r = Some t -> a <= t.
Proof using.
  intros Hrest [_ Hh] Hr Hst Ha Ht. pose proof (re_inv _ _ _ _ Hrest) as Hi. destruct (kind r) eqn:Hk.
  - destruct (nr_all _ _ (iv_reads _ _ _ _ _ _ Hi) _ _ Hr Hk) as (b & Hb & Hq); [by unfold offered; rewrite Hst|].
    apply dget_is_Some in Hq as [x Hx]. destruct (nr_known _ _ (iv_reads _ _ _ _ _ _ Hi) _ _ Hx) as (id' & r' & Hr' & Hb' & _ & _ & _ & Hs & _).
    assert (id' = id) as -> by (by eapply (iv_inj _ _ _ _ _ _ Hi)). assert (r' = r) as -> by congruence.
    destruct (bk_reported _ _ _ (iv_books _ _ _ _ _ _ Hi) _ _ _ _ Hr Hb Ht) as (c & Hc & <-).
    destruct (Hh _ _ Hx) as (c' & Hc' & e0 & e1 & e2 & _ & _ & _ & _ & H1 & H2 & H3 & _). assert (c' = c) as -> by congruence.
    assert (a = MqsimService.issue_ns x) as -> by congruence. lia.
  - pose proof (iv_link _ _ _ _ _ _ Hi id r (not_elem_of_nil _) Hr) as Hl. unfold link in Hl. rewrite Hst in Hl.
    destruct Hl as ((t' & c & (_ & Ht' & _ & Hle) & _) & _). assert (t' = t) as -> by congruence. apply Hle; [by right|done].
Qed.

Lemma close_wp s : rest [] s -> all_complete s = true -> sorted Nat.leb (sequence <$> dvals recs0) ->
  wp close_run (fun rep _ => sound (strict C) (dvals recs0) rep) s.
Proof using Hnodup Hvalid Hserved.
  intros Hrest Hall Hseq. pose proof (re_inv _ _ _ _ Hrest) as Hi. pose proof Hi as []. pose proof (all_complete_spec s Hrest Hall) as Hdone.
  assert (Hp : mq_pending s = []).
  { destruct (mq_pending s) as [|[b id] l] eqn:E; [done|]. exfalso. destruct (iv_pending0 b id) as (r & Hr & Hs & _).
    - cbn. by rewrite decide_True.
    - rewrite (Hdone _ _ Hr) in Hs. done. }
  assert (Hkeys : forall b, b ∈ dkeys (MqsimService.requests (mqsim s)) <-> b ∈ dkeys (MqsimService.completions (mqsim s))).
  { intros b. split; [|apply (MqsimService.ci_known _ iv_client0)]. intros Hb.
    destruct (decide (b ∈ dkeys (MqsimService.completions (mqsim s)))) as [|Hn]; [done|]. exfalso.
    assert (Hin : b ∈ dkeys (mq_pending s)) by (by apply (re_mq _ _ _ _ Hrest)). rewrite Hp in Hin. by apply not_elem_of_nil in Hin. }
  unfold close_run. apply wp_bind, wp_zoom. pose proof (ct_finish C _ iv_client0 (re_link _ _ _ _ Hrest) Hkeys) as Hct.
  destruct (MqsimService.finish (mqsim s)) as [[rc|e] w] eqn:Ef; [|by left].
  destruct (MqsimService.finish_spec _ _ _ iv_client0 Ef) as (_ & _ & _ & Hcov & Hhist).
  apply wp_bind, wp_get. apply wp_bind, wp_require.
  { cbn [set_mqsim fabric]. rewrite (nothing_leaked _ iv_fabric0); [done|]. intros id j Hj.
    pose proof (iv_jobs0 id (mk_is_Some _ _ Hj)) as Hk. rewrite <- iv_keys0 in Hk. apply dget_is_Some in Hk as [r Hr].
    specialize (iv_link0 id r (not_elem_of_nil _) Hr). unfold link in iv_link0. rewrite (Hdone _ _ Hr) in iv_link0.
    destruct iv_link0 as (_ & _ & j' & Hj' & Hd). congruence. }
  intros _. apply wp_ret. sy_simpl. pose proof (record_rows _ _ _ _ Hi) as Hrows.
  assert (Hsort : isort (fun a b => Nat.leb (sequence a) (sequence b)) (dvals (records s)) = dvals (records s)).
  { apply isort_id. assert (Hs : sequence <$> dvals (records s) = sequence <$> dvals recs0).
    { apply fmap_Forall2. eapply Forall2_impl; [exact Hrows|]. intros r r0 Hb. by destruct (base_eq _ _ Hb) as (_ & -> & _). }
    rewrite <- Hs in Hseq. by apply sorted_fmap. }
  rewrite Hsort. constructor; cbn [completions time_ns stack_request_counts mqsim_receipt].
  - by apply fmap_Forall2.
  - intros r Hin. destruct (record_of_val _ _ _ _ _ Hi Hin) as [id Hr]. pose proof (Hdone _ _ Hr) as Hst. split; [done|].
    specialize (iv_link0 id r (not_elem_of_nil _) Hr). unfold link in iv_link0. rewrite Hst in iv_link0.
    destruct iv_link0 as (Hok & Hle & _). split; [done|]. destruct Hok as (t & c & _ & _ & Hf & Hfin). exists c. split; [done|].
    rewrite <- (re_fabric _ _ _ _ Hrest). by apply Hle.
  - intros r a t Hin Ha Ht. destruct (record_of_val _ _ _ _ _ Hi Hin) as [id Hr]. exact (served_order s _ _ id r a t Hrest Hhist Hr (Hdone _ _ Hr) Ha Ht).
  - intros k n (k' & [= <- ->] & _)%list_elem_of_fmap. by apply stacks_base.
  - assert (Hoff : forall id r, dget (records s) id = Some r -> offered r = true).
    { intros id r Hr. unfold offered. by rewrite (Hdone _ _ Hr). }
    pose proof (reads_perm (records s) (MqsimService.requests (mqsim s)) ltac:(by rewrite iv_keys0)
      (MqsimService.ci_requests _ iv_client0) iv_reads0 iv_inj0 Hoff) as Hperm.
    assert (Hb : bytes <$> filter is_hbf (dvals (records s)) = bytes <$> filter is_hbf (dvals recs0)).
    { apply reads_base; [|done]. intros r r' E. by destruct (base_eq _ _ E) as (_ & _ & _ & _ & _ & -> & _). }
    assert (Hlen : length (MqsimService.requests (mqsim s)) = length (filter is_hbf (dvals recs0))).
    { apply Permutation_length in Hperm. rewrite !length_fmap in Hperm. rewrite Hperm.
      apply (f_equal length) in Hb. by rewrite !length_fmap in Hb. }
    assert (Hsum : zsum (MqsimService.bytes <$> dvals (MqsimService.requests (mqsim s))) = zsum (bytes <$> filter is_hbf (dvals recs0))).
    { rewrite <- Hb. apply zsum_perm. apply (fmap_Permutation snd) in Hperm. rewrite <- !list_fmap_compose in Hperm.
      unfold dvals at 1. rewrite <- list_fmap_compose. exact Hperm. }
    destruct Hcov as (Hc1 & Hc2 & Hc3 & Hc4 & Hc5). cbv zeta. rewrite Hc1, Hc2, Hc3, Hc4, Hc5, Hlen, Hsum. done.
Qed.
End verify.

(** ** Intake *)

Section runs.
Context {P : Type} `{!MqsimService.Native P}.
Notation system := (system P).
Notation service := (MqsimService.service P).

(** The record [r] says what the [i]-th request asks for. *)
Record asks (raw : pyval) (i : nat) (r : record) : Prop := {
  as_sequence : sequence r = i;
  as_fields : exists d, raw = VDict d /\ dget d "request_id" = Some (VStr (request_id r))
    /\ dget d "stack" = Some (VStr (stack r)) /\ dget d "route" = Some (VStr (route r))
    /\ dget d "operation" = Some (VStr (operation r)) /\ dget d "bytes" = Some (VInt (bytes r))
    /\ dget d "arrival_ns" = Some (VInt (arrival_ns r))
    /\ (kind r = HBF -> exists p, stack_local_page r = Some p /\ dget d "stack_local_page" = Some (VInt p)) }.

(** A record before the run. *)
Definition untouched (r : record) : Prop := state r = EXTERNAL_WAIT /\ backend_request_id r = None /\ backend_completion_ns r = None.

Lemma intake_integer v label pos z : _integer v label pos = Ok z -> v = VInt z /\ (if pos then 1 else 0) <= z.
Proof.
  destruct v; try done. unfold _integer. intros E. destruct ((if pos then 1 else 0) <=? z0) eqn:Hle; [|done].
  injection E as <-. split; [done|]. by apply Z.leb_le.
Qed.

Lemma in_names_Ok v names : in_names v names = Ok true -> exists s, v = VStr s /\ s ∈ names.
Proof. destruct v; try done. cbn. intros [= Hx%bool_decide_eq_true]. eauto. Qed.

Lemma is_str_true v s : is_str v s = true -> v = VStr s.
Proof. destruct v; try done. cbn. by intros ->%String.eqb_eq. Qed.

Lemma hbf_route_Ok m rt : m ∈ MODES -> check_hbf_route m rt = Ok tt -> exists s, rt = VStr s.
Proof.
  intros Hm. unfold check_hbf_route, MODES in *. rewrite !elem_of_cons in Hm.
  destruct Hm as [->|[->|[->|[->|Hx]]]]; [..|by apply not_elem_of_nil in Hx]; cbn.
  - destruct (is_str rt "direct") eqn:E; [|done]. apply is_str_true in E. eauto.
  - destruct (is_str rt "direct") eqn:E; [|done]. apply is_str_true in E. eauto.
  - destruct (is_str rt "relay") eqn:E; [|done]. apply is_str_true in E. eauto.
  - destruct (in_names rt _) as [[]|] eqn:E; try done. apply in_names_Ok in E as (s & -> & _). eauto.
Qed.

Lemma check_source_Ok (s : system) d st rt op k page : mode s ∈ MODES -> check_source s d st rt op = Ok (k, page) ->
  st = VStr (text st) /\ rt = VStr (text rt) /\ op = VStr (text op) /\
  match k with
  | HBF => exists p, page = Some p /\ dget d "stack_local_page" = Some (VInt p)
  | HBM => text op ∈ ["read"; "write"]
  end.
Proof.
  intros Hm. unfold check_source. destruct (in_names st (hbf_names s)) as [[]|] eqn:E1; [..|done]; cbn [rbind].
  - apply in_names_Ok in E1 as (t & -> & _). destruct (is_str op "read") eqn:E2; [|done]. apply is_str_true in E2 as ->.
    cbn [ensure rbind]. destruct (dget d "stack_local_page") as [raw|]; [|done]. cbn [of_option rbind].
    destruct (_integer raw _ _) as [p|] eqn:E3; [|done]. apply intake_integer in E3 as [-> _]. cbn [rbind].
    destruct (check_hbf_route (mode s) rt) as [[]|] eqn:E4; [|done]. apply hbf_route_Ok in E4 as [r ->]; [|done].
    cbn. intros [= <- <-]. eauto 10.
  - destruct (in_names st (hbm_names s)) as [[]|] eqn:E2; [|done..]. apply in_names_Ok in E2 as (t & -> & _). cbn [rbind].
    destruct (negb _) eqn:E3; [|done]. cbn [ensure rbind]. apply negb_true_iff, orb_false_iff in E3 as [_ E3].
    apply negb_false_iff, is_str_true in E3 as ->. destruct (in_names op _) as [[]|] eqn:E4; [|done..]. cbn.
    apply in_names_Ok in E4 as (o & -> & Ho). intros [= <- <-]. done.
Qed.

Lemma check_request_Ok (s : system) raw i r : mode s ∈ MODES -> check_request s raw i = Ok r ->
  asks raw i r /\ valid (request_id r) r /\ untouched r /\ dget (records s) (request_id r) = None.
Proof.
  intros Hm. unfold check_request. destruct raw as [| | | | | |d]; try done. cbn [rbind].
  destruct (forallb (dmem d) REQUIRED); [|done]. cbn [ensure rbind]. unfold dindex.
  destruct (dget d "request_id") as [rid|] eqn:E1; [|done]. cbn [of_option rbind]. destruct rid as [| | | |rid| |]; try done.
  destruct (negb (String.eqb rid "") && _) eqn:E2; [|done]. cbn [ensure rbind]. apply andb_prop in E2 as [Hne Hnew].
  destruct (dget d "stack") as [st|] eqn:E3; [|done]. cbn [of_option rbind].
  destruct (dget d "route") as [rt|] eqn:E4; [|done]. cbn [of_option rbind].
  destruct (dget d "operation") as [op|] eqn:E5; [|done]. cbn [of_option rbind].
  destruct (check_source s d st rt op) as [[k page]|] eqn:E6; [|done]. cbn [rbind].
  apply check_source_Ok in E6 as (Hst & Hrt & Hop & Hk); [|done].
  destruct (dget d "bytes") as [rb|] eqn:E7; [|done]. cbn [of_option rbind].
  destruct (_integer rb _ _) as [b|] eqn:E8; [|done]. apply intake_integer in E8 as [-> Hb]. cbn [rbind].
  destruct (dget d "arrival_ns") as [ra|] eqn:E9; [|done]. cbn [of_option rbind].
  destruct (_integer ra _ _) as [a|] eqn:E10; [|done]. apply intake_integer in E10 as [-> Ha]. cbn [rbind].
  match goal with |- context [ensure ?c _] => destruct c; [|done] end. intros [= <-]. split; [|split; [|split; [done|]]].
  - constructor; [done|]. exists d. cbn. split; [done|]. rewrite E3, E4, E5. split_and!; try congruence. intros ->. eauto.
  - constructor; cbn; try lia; [done| | |].
    + intros ->. done.
    + intros ->. destruct Hk as (p & -> & _). eauto.
    + by intros ->.
  - cbn. unfold dmem in Hnew. by destruct (dget (records s) rid).
Qed.

(** What intake leaves: one record per request, in order. *)
Lemma validate_spec (s0 : system) requests s1 : mode s0 ∈ MODES -> records s0 = [] ->
  forM (imap pair requests) _validate_request s0 = (Ok tt, s1) ->
  exists d, s1 = set_records d s0 /\ NoDup (dkeys d) /\ (forall id r, dget d id = Some r -> valid id r /\ untouched r)
    /\ Forall2 (fun x r => asks x.2 x.1 r) (imap pair requests) (dvals d).
Proof.
  intros Hm H0 E.
  assert (Hw : wp (fun _ _ => True) (forM (imap pair requests) _validate_request) (fun _ s' =>
    exists d, s' = set_records d s0 /\ NoDup (dkeys d) /\ (forall id r, dget d id = Some r -> valid id r /\ untouched r)
      /\ Forall2 (fun x r => asks x.2 x.1 r) (imap pair requests) (dvals d)) s0).
  { apply (wp_forM (fun done s' => exists d, s' = set_records d s0 /\ NoDup (dkeys d)
      /\ (forall id r, dget d id = Some r -> valid id r /\ untouched r) /\ Forall2 (fun x r => asks x.2 x.1 r) done (dvals d))).
    - exists []. split; [rewrite <- H0; by destruct s0|]. split; [constructor|]. split; [done|constructor].
    - intros done [i raw] todo s' _ (d & -> & Hnd & Hall & Hrows). unfold _validate_request. apply wp_bind, wp_get. apply wp_bind.
      destruct (check_request _ raw i) as [r|e] eqn:Ec; [|by unfold ProgramLogic.wp, lift]. eapply wp_lift; [done|]. apply wp_put.
      apply check_request_Ok in Ec as (Ha & Hv & Hu & Hnew); [|done]. cbn in Hnew. exists (dset d (request_id r) r).
      split; [done|]. split; [by apply NoDup_dkeys_dset|]. split.
      + intros id r1 [[-> ->]|[_ Hr1]]%dset_cases; [done|]. by apply Hall.
      + unfold dvals. rewrite dkeys_dset_notin, fmap_app by (by apply dget_None). apply Forall2_app; [done|]. apply Forall2_cons. split; [done|constructor]. }
  unfold ProgramLogic.wp in Hw. by rewrite E in Hw.
Qed.

(** ** The run *)

(** A system that was just opened. *)
Record opened (s : system) : Prop := {
  op_mode : mode s ∈ MODES;
  op_client : MqsimService.client_inv (mqsim s);
  op_requests : MqsimService.requests (mqsim s) = [];
  op_now : now_ns s = 0 /\ MqsimService.now (mqsim s) = 0 /\ BasicFabric.now (fabric s) = 0;
  op_fabric : BasicFabric.fabric_inv (fabric s) /\ BasicFabric.jobs (fabric s) = ∅ /\ BasicFabric.completions (fabric s) = [];
  op_hbm : forall h, hbm s = Some h -> BasicHbm.hbm_inv [] h /\ BasicHbm.requests h = ∅ /\ BasicHbm.completions h = []
    /\ BasicHbm.now_ns h = 0;
  op_empty : records s = [] /\ mq_pending s = [] /\ next_backend_id s = 1 /\ fabric_completion_count s = 0%nat }.

Lemma client_opened p (q : service) : MqsimService.init p = Ok q ->
  MqsimService.client_inv q /\ MqsimService.requests q = [] /\ MqsimService.now q = 0 /\ MqsimService.finished q = false
  /\ MqsimService.completions q = [].
Proof.
  intros E. split; [by apply MqsimService.reachable_client, (MqsimService.reach_init p)|]. unfold MqsimService.init in E.
  destruct (MqsimService.read _ _) as [[r|e] s] eqn:Er; [|done]. destruct (MqsimService.content r); try done.
  destruct (MqsimService.header_ok _ _) eqn:Eh; [|done]. cbn [ensure rbind] in E.
  destruct (dindex _ _) as [pd|]; [|done]. cbn [rbind] in E. destruct (MqsimService.equals_int pd 0); [|done]. injection E as <-.
  cbn. unfold MqsimService.header_ok in Eh. apply andb_prop in Eh as [_ Eh]. split; [done|]. split; [|done]. lia.
Qed.

Lemma open_system_opened p fx (s : system) : open_system p fx = Ok s -> opened s.
Proof.
  unfold open_system. destruct (MqsimService.init p) as [q|] eqn:Eq; [|done]. cbn [rbind].
  destruct (client_opened p q Eq) as (Hc & Hr & Hn & _).
  destruct (match fx_hbm fx with None => _ | Some v => _ end) as [h|] eqn:Eh; [|done]. cbn [rbind].
  destruct (BasicFabric.init (fx_fabric fx)) as [f|] eqn:Ef; [|done]. cbn [rbind]. unfold init.
  destruct (bool_decide (fx_mode fx ∈ MODES)) eqn:Em; [|done]. cbn [ensure rbind]. apply bool_decide_eq_true in Em.
  match goal with |- context [ensure ?c _] => destruct c; [|done] end. cbn [ensure rbind].
  match goal with |- context [ensure ?c _] => destruct c; [|done] end. intros [= <-].
  pose proof (BasicFabric.init_inv _ _ Ef) as Hf. unfold BasicFabric.init in Ef.
  destruct (BasicFabric._normalize _) as [c|]; [|done]. injection Ef as <-. constructor; cbn; try done.
  intros h0 ->. destruct (fx_hbm fx) as [v|]; [|done]. destruct (BasicHbm.init v) as [h1|] eqn:Ei; [|done]. cbn in Eh. injection Eh as <-.
  split; [by eapply BasicHbm.hbm_init_inv|]. unfold BasicHbm.init in Ei. destruct (BasicHbm.as_dict v) as [config|]; [|done]. cbn [rbind] in Ei.
  match type of Ei with context [ensure ?c _] => destruct c; [|done] end. cbn [ensure rbind] in Ei.
  destruct (BasicHbm.get_or_none config "stacks") as [| | | | |[|row rows]|]; try done.
  destruct (foldM _ _ _) as [d|]; [|done]. cbn [rbind] in Ei. by injection Ei as <-.
Qed.

Lemma ids_keys (d : dict string record) : NoDup (dkeys d) -> (forall id r, dget d id = Some r -> request_id r = id) ->
  request_id <$> dvals d = dkeys d.
Proof.
  intros Hnd Hid. unfold dvals, dkeys. rewrite <- list_fmap_compose. apply list_fmap_ext. intros i [k r] Hi. cbn.
  apply Hid, dget_elem; [done|]. by eapply list_elem_of_lookup_2.
Qed.

(** The loop starts at rest. *)
Lemma opened_rest C (s0 : system) d l : opened s0 -> ct_link C (mqsim s0) -> MqsimService.completions (mqsim s0) = [] ->
  NoDup (dkeys d) -> (forall id r, dget d id = Some r -> valid id r /\ untouched r) ->
  (forall id r, dget d id = Some r -> fits (BasicFabric.cfg (fabric s0)) (hbm s0) r = true) -> l ≡ₚ dkeys d ->
  Rest C d [] (set_waiting l (set_records d s0)).
Proof.
  intros [Hm Hc Hr (Hn1 & Hn2 & Hn3) (Hf1 & Hf2 & Hf3) Hh (He1 & He2 & He3 & He4)] Hl Hcomp Hnd Hall Hfits Hp.
  constructor; cbn [now_ns mqsim fabric hbm waiting mq_pending fabric_completion_count set_waiting set_records]; try done.
  - constructor; cbn [now_ns mqsim fabric hbm waiting mq_pending records next_backend_id set_waiting set_records]; try done.
    + constructor; [|rewrite Hf3; by intros c ?%not_elem_of_nil]. intros id j. rewrite Hf2. by rewrite lookup_empty.
    + lia.
    + intros h Hh'. by apply Hh.
    + intros id r0 r Hr0 Hr'. congruence.
    + intros id. rewrite Hf2, lookup_empty. by intros [].
    + intros h id Hh'. destruct (Hh h Hh') as (_ & -> & _). rewrite lookup_empty. by intros [].
    + intros id r _ Hr'. destruct (Hall id r Hr') as [_ (Hst & Hb & Hbc)]. unfold link. rewrite Hst. cbn. rewrite Hf2, lookup_empty.
      split; [done|]. split; [done|]. split; [done|]. intros h Hh'. destruct (Hh h Hh') as (_ & -> & _). apply lookup_empty.
    + rewrite He2. constructor.
    + rewrite He2. done.
    + intros id r b Hr' Hb. destruct (Hall id r Hr') as [_ (_ & Hn & _)]. congruence.
    + intros id id' r r' b Hr' _ Hb. destruct (Hall id r Hr') as [_ (_ & Hn & _)]. congruence.
    + rewrite Hr. by intros b ?%not_elem_of_nil.
    + constructor; [by rewrite Hr|]. intros id r Hr' _ Ho. destruct (Hall id r Hr') as [_ [Hst _]]. unfold offered in Ho. by rewrite Hst in Ho.
    + assert (Hzero : forall f : record -> Z, (forall id r, dget d id = Some r -> f r = 0) -> zsum (f <$> dvals d) = 0).
      { intros f Hf. rewrite (list_fmap_ext f (fun _ => 0) (dvals d)); [rewrite zsum_map_const; lia|].
        intros i r Hi. apply list_elem_of_lookup_2, list_elem_of_fmap in Hi as ([id r'] & -> & Hin). apply (Hf id). by apply dget_elem. }
      constructor.
      * rewrite He3, Hzero; [done|]. intros id r Hr'. destruct (Hall id r Hr') as [_ (_ & Hn & _)]. unfold numbered. by rewrite Hn.
      * rewrite Hr, Hzero; [done|]. intros id r Hr'. destruct (Hall id r Hr') as [_ (Hst & _)]. unfold issued, offered. by rewrite Hst.
      * intros id r b Hr' Hb. destruct (Hall id r Hr') as [_ (_ & Hn & _)]. congruence.
      * intros id r b t Hr' Hb. destruct (Hall id r Hr') as [_ (_ & Hn & _)]. congruence.
  - lia.
  - intros _. lia.
  - lia.
  - intros h Hh'. destruct (Hh h Hh') as (_ & Hq & Hcs & Hn). split; [lia|]. split; [|done]. intros s st id r e _ _ Hx.
    by rewrite Hq, lookup_empty in Hx.
  - intros b. rewrite He2, Hr. split; [by intros ?%not_elem_of_nil|]. by intros [?%not_elem_of_nil _].
  - by rewrite He4, Hf3.
Qed.

(** What the report says of each request given. *)
Lemma asks_base raw i r r' : base r = base r' -> asks raw i r -> asks raw i r'.
Proof.
  intros (E1 & E2 & E3 & E4 & E5 & E6 & E7 & E8 & E9)%base_eq [Hs Hd]. constructor; [congruence|].
  destruct Hd as (d & Hd). exists d. by rewrite <- E1, <- E3, <- E4, <- E5, <- E6, <- E7, <- E8, <- E9.
Qed.

Lemma asked_rows (xs : list (nat * pyval)) rows rows' : base <$> rows' = base <$> rows ->
  Forall2 (fun x r => asks x.2 x.1 r) xs rows -> Forall2 (fun x r => asks x.2 x.1 r) xs rows'.
Proof.
  intros E H1. revert rows' E. induction H1 as [|x r xs rows Ha Hl IH]; intros [|r' rows'] E; try done.
  rewrite !fmap_cons in E. injection E as E1 E2. apply Forall2_cons. split; [|by apply IH]. eapply asks_base; [|exact Ha].
  unfold base. congruence.
Qed.

Lemma coordinator_wp C (s0 s1 : system) requests fuel : opened s0 -> ct_link C (mqsim s0) -> MqsimService.completions (mqsim s0) = [] ->
  forM (imap pair requests) _validate_request s0 = (Ok tt, s1) ->
  forallb (fits (BasicFabric.cfg (fabric s0)) (hbm s0)) (dvals (records s1)) = true ->
  served_requests C (records s1) -> (gates C = true -> mu (open_ns C) s1 < Z.of_nat fuel) ->
  wp (sys_fault C) (run fuel requests) (fun rep _ => sound (strict C) (dvals (records s1)) rep
    /\ Forall2 (fun x r => asks x.2 x.1 r) (imap pair requests) (completions rep)) s0.
Proof.
  intros Hop Hl Hcomp Hval Hfit Hserved Hfuel. destruct (validate_spec s0 requests s1 (op_mode _ Hop) (proj1 (op_empty _ Hop)) Hval)
    as (d & -> & Hnd & Hall & Hrows). cbn [records set_records] in *.
  assert (Hv : forall id r, dget d id = Some r -> valid id r) by (intros id r Hr; by apply Hall).
  assert (Hf : forall id r, dget d id = Some r -> fits (BasicFabric.cfg (fabric s0)) (hbm s0) r = true).
  { intros id r Hr. rewrite forallb_forall in Hfit. apply Hfit, list_elem_of_In, list_elem_of_fmap. exists (id, r).
    split; [done|by apply dget_Some_elem]. }
  assert (Hseq : sorted Nat.leb (sequence <$> dvals d)).
  { replace (sequence <$> dvals d) with (fst <$> imap pair requests); [rewrite imap_pair_sorted; apply seq_sorted|].
    clear -Hrows. induction Hrows as [|x r xs rs Ha Hr IH]; [done|]. by rewrite !fmap_cons, IH, (as_sequence _ _ _ Ha). }
  unfold run. apply wp_bind. unfold ProgramLogic.wp at 1. rewrite Hval. apply wp_bind, wp_get.
  cbn [records set_records]. set (l := request_id <$> _). assert (Hp : l ≡ₚ dkeys d).
  { unfold l. rewrite isort_perm, ids_keys; [done|done|]. intros id r Hr. apply (va_id _ _ (Hv _ _ Hr)). }
  apply wp_bind, wp_put. pose proof (opened_rest C s0 d l Hop Hl Hcomp Hnd Hall Hf Hp) as Hrest.
  apply wp_bind. eapply wp_mono; [apply (loop_wp C d Hnd Hv Hserved fuel l _ Hrest)|].
  - intros id r Hr _. rewrite Hp. apply dget_is_Some. eauto.
  - intros Hs. left. exact (Hfuel Hs).
  - intros _ s' [Hrest' Hall']. eapply wp_mono; [exact (close_wp C d Hnd Hv Hserved s' Hrest' Hall' Hseq)|]. intros rep s2 Hsound.
    split; [done|]. eapply asked_rows; [apply (sd_rows _ _ _ Hsound)|done].
Qed.

(** *** Any native process *)

(** An error that a call of the flash simulator raised. *)
Definition native_error (e : exn) : Prop :=
  exists v : service, MqsimService.client_inv v /\
    ((exists r, fst (MqsimService.try_submit r v) = Raise e) \/ (exists t, fst (MqsimService.until t v) = Raise e)
     \/ fst (MqsimService.finish v) = Raise e).

(** The gate of the process opens at [gate_ns]: a read issued later is not deferred. *)
Definition opens_by (gate_ns : Z) : Prop := forall (p : P) r a p' d,
  MqsimService.exchange (MqsimService.TrySubmit r) p = (Ok a, p') -> MqsimService.content a = MqsimService.Gate d ->
  MqsimService.submitted d = false -> MqsimService.disposition d = 1 -> MqsimService.issue_ns r < gate_ns.

Definition any_native (gate : option Z) (Hgate : forall g, gate = Some g -> opens_by g) : contract.
Proof.
  refine {| strict := false; gates := bool_decide (is_Some gate); ct_fault := native_error; open_ns := default 0 gate;
            ct_link := fun _ => True; ct_serves := fun _ _ => True |}.
  - intros v r Hi _ _ _ _. destruct (MqsimService.try_submit r v) as [[d|e] v'] eqn:E.
    + split; [done|]. split; [|done]. intros [g ->]%bool_decide_eq_true Hs Hd. destruct (MqsimService.try_submit_asked _ _ _ _ E) as (a & p' & Hx & Hc).
      by eapply (Hgate g eq_refl).
    + exists v. split; [done|]. left. exists r. by rewrite E.
  - intros v t Hi _ _. destruct (MqsimService.until t v) as [[c|e] v'] eqn:E; [done|].
    left. exists v. split; [done|]. right. left. exists t. by rewrite E.
  - intros v Hi _ _. destruct (MqsimService.finish v) as [[rc|e] v'] eqn:E; [done|].
    exists v. split; [done|]. right. right. by rewrite E.
Defined.

Lemma open_system_client p fx (s : system) : open_system p fx = Ok s -> MqsimService.init p = Ok (mqsim s).
Proof.
  unfold open_system. destruct (MqsimService.init p) as [q|]; [|done]. cbn [rbind].
  destruct (match fx_hbm fx with None => _ | Some v => _ end) as [h|]; [|done]. cbn [rbind].
  destruct (BasicFabric.init (fx_fabric fx)) as [f|]; [|done]. cbn [rbind]. unfold init.
  do 3 (match goal with |- context [ensure ?c _] => destruct c; [|done] end; cbn [ensure rbind]). by intros [= <-].
Qed.

Lemma opened_completions p fx (s : system) : open_system p fx = Ok s -> MqsimService.completions (mqsim s) = [].
Proof. intros Ho%open_system_client. by destruct (client_opened p _ Ho) as (_ & _ & _ & _ & Hc). Qed.

(** The measure of a system before its run. *)
Lemma start_weight o (s0 s1 : system) requests : opened s0 -> forM (imap pair requests) _validate_request s0 = (Ok tt, s1) ->
  mu o s1 <= Z.of_nat (length requests) * (21 + 2 * Z.max 0 o).
Proof.
  intros Hop Hval. destruct (validate_spec s0 requests s1 (op_mode _ Hop) (proj1 (op_empty _ Hop)) Hval) as (d & -> & Hnd & Hall & Hrows).
  unfold mu. cbn [set_records records fabric hbm now_ns].
  assert (Hw : zsum (weight o (now_ns s0) <$> dvals d) <= zsum ((fun _ : record => 21 + 2 * Z.max 0 o) <$> dvals d)).
  { apply zsum_map_le. intros r ([id r'] & -> & Hin)%list_elem_of_fmap. destruct (Hall id r') as [_ [Hst _]]; [by apply dget_elem|].
    unfold weight. cbn. rewrite Hst. case_match; lia. }
  rewrite zsum_map_const in Hw. apply Forall2_length in Hrows. rewrite length_imap in Hrows. rewrite <- Hrows in Hw.
  destruct (op_fabric _ Hop) as (_ & -> & _). assert (Hbw : BasicFabric.work ∅ = 0%nat) by (unfold BasicFabric.work; by rewrite map_fold_empty).
  rewrite Hbw. destruct (hbm s0) as [h|] eqn:Hh; [|lia]. destruct (op_hbm _ Hop h Hh) as (_ & Hq & _).
  assert (Hhw : BasicHbm.work h = 0%nat) by (unfold BasicHbm.work, BasicHbm.open_requests; by rewrite Hq, map_filter_empty, map_size_empty).
  lia.
Qed.

(** C1: the basic system is safe with any flash simulator.  Whatever the native
    process answers, a run over accepted requests that their sources can carry
    either reports soundly -- one complete row per request, in order, asking for
    what was asked, each served not before its submission and complete not before
    it was served, HBM requests submitted not before their arrival, and a receipt
    for exactly the HBF reads -- or ends with an error of the native service, with
    an error that names a violation of its protocol, or beyond the 64-bit range of
    the clock; or it has not ended within its number of iterations.  From 21
    iterations per request, and two more per nanosecond before the gate of the
    process opens, the last is possible only when the clock has reached the end of
    its range: the loop never waits for an event that does not come.  No request is
    lost or completed twice, no component is driven out of its contract, and no
    bank or link is left owned. *)
Theorem basic_system_sound (p : P) (fx : fixture) (s0 s1 : system) (fuel : nat) :
  open_system p fx = Ok s0 -> forM (imap pair (fx_requests fx)) _validate_request s0 = (Ok tt, s1) ->
  forallb (fits (BasicFabric.cfg (fabric s0)) (hbm s0)) (dvals (records s1)) = true ->
  match run fuel (fx_requests fx) s0 with
  | (Ok rep, _) => sound false (dvals (records s1)) rep
      /\ Forall2 (fun x r => asks x.2 x.1 r) (imap pair (fx_requests fx)) (completions rep)
  | (Raise e, s') => (native_error e \/ protocol e \/ out_of_range e s' \/ e = OutOfFuel) /\
      forall gate_ns, opens_by gate_ns -> (length (fx_requests fx) * (21 + 2 * Z.to_nat gate_ns) < fuel)%nat ->
        native_error e \/ protocol e \/ MAX_HORIZON_NS <= now_ns s'
  end.
Proof.
  intros Ho Hv Hf. pose proof (open_system_opened _ _ _ Ho) as Hop.
  assert (Hw : forall gate Hgate, (forall g, gate = Some g -> (length (fx_requests fx) * (21 + 2 * Z.to_nat g) < fuel)%nat) ->
    wp (sys_fault (any_native gate Hgate)) (run fuel (fx_requests fx)) (fun rep _ => sound false (dvals (records s1)) rep
      /\ Forall2 (fun x r => asks x.2 x.1 r) (imap pair (fx_requests fx)) (completions rep)) s0).
  { intros gate Hgate Hfuel. apply (coordinator_wp (any_native gate Hgate)); try done; [by eapply opened_completions|].
    intros [g ->]%bool_decide_eq_true. eapply Z.le_lt_trans; [by apply (start_weight _ s0 s1 (fx_requests fx))|]. specialize (Hfuel g eq_refl). cbn. lia. }
  pose proof (Hw None ltac:(done) ltac:(done)) as H0. unfold ProgramLogic.wp in H0, Hw. destruct (run fuel (fx_requests fx) s0) as [[rep|e] s']; [done|]. split.
  - destruct H0 as [He|[[_ He]|[[? _]|[[He _]|He]]]]; [by left|by right; left|done|by right; right; right|by right; right; left].
  - intros g Hg Hfuel. destruct (Hw (Some g) ltac:(by intros ? [= <-]) ltac:(by intros ? [= <-])) as [He|[[_ He]|[[? _]|[[_ He]|[_ He]]]]].
    + by left.
    + right. by left.
    + done.
    + right. right. by apply He.
    + right. right. lia.
Qed.

(** *** A native process that answers *)
Section live.
Context {g : MqsimService.geometry} {depth gate_ns : Z} {dlink : P -> Z -> dict Z MqsimService.request -> dict Z MqsimService.completion -> list MqsimService.event -> Prop}.
Context `{!MqsimService.LiveNative g depth gate_ns dlink}.

Definition live_native : contract.
Proof.
  refine {| strict := true; gates := true; ct_fault := fun _ => False; open_ns := gate_ns;
            ct_link := MqsimService.linked (depth := depth) (link := dlink); ct_serves := fun i r => MqsimService.readable g i r = true |}.
  - intros v r Hi Hl Hn Hs Hr. specialize (Hs eq_refl). destruct (MqsimService.live_try v r Hi Hl Hn Hs Hr) as (d & v' & -> & Hl' & Hnow & Hd).
    split; [done|]. destruct (MqsimService.submitted d); [done|]. destruct Hd as (H1 & H2 & H3). split; [intros _ _ _; lia|done].
  - intros v t Hi Hl Hs. destruct (MqsimService.live_until v t Hi Hl (Hs eq_refl)) as [[Hm (e & v' & ->)]|(c & v' & -> & Hl' & Hc)].
    + right. split; [done|]. exact Hm.
    + split; [done|]. intros _. destruct c as [c|]; [|done]. destruct Hc as (H1 & e & H2 & _). eauto.
  - intros v Hi Hl Hk. by destruct (MqsimService.live_finish v Hi Hl Hk) as (rc & v' & ->).
Defined.

Lemma served_live (recs : dict string record) : forallb (served_by g) (dvals recs) = true ->
  zsum (hbf_bytes <$> dvals recs) <= U64_MAX -> served_requests live_native recs.
Proof.
  intros Hall Hsum id r0 pg b t i Hr0 Hk Hp Hb Hi Hle. rewrite forallb_forall in Hall.
  assert (Hs : served_by g r0 = true) by (apply Hall, list_elem_of_In, list_elem_of_fmap; exists (id, r0); split; [done|by apply dget_Some_elem]).
  unfold served_by in Hs. rewrite Hk, Hp in Hs. cbn [ct_serves live_native]. unfold MqsimService.readable in *.
  cbn [MqsimService.request_id MqsimService.bytes MqsimService.where_] in *. rewrite !andb_true_iff in *.
  destruct Hs as [[[[[[[[H1 H2] H3] H4] H5] H6] H7] H8] H9]. split_and!; try done; lia.
Qed.

(** C2: with a flash simulator that answers, the basic system finishes.  Let every
    request be accepted and fit its source, and every HBF read be one that the
    native service serves (a page of the profile, in the stack map, the bytes of
    all reads within 64 bits).  From 21 iterations per request, and two more per
    nanosecond before the gate opens, a run reports soundly, now with the times of
    every request in order -- arrival, submission, delivery by the backend,
    completion by the fabric -- unless the work leaves the 64-bit range of the
    native clock, or the process reports a completion at another time than its
    media callback, which the coordinator refuses as an unsupported composition.
    No request starves and the loop neither deadlocks nor spins. *)
Theorem basic_system_total (p : P) (fx : fixture) (s0 s1 : system) (fuel : nat) :
  open_system p fx = Ok s0 -> MqsimService.linked (depth := depth) (link := dlink) (mqsim s0) ->
  forM (imap pair (fx_requests fx)) _validate_request s0 = (Ok tt, s1) ->
  forallb (fits (BasicFabric.cfg (fabric s0)) (hbm s0)) (dvals (records s1)) = true ->
  forallb (served_by g) (dvals (records s1)) = true -> zsum (hbf_bytes <$> dvals (records s1)) <= U64_MAX ->
  (length (fx_requests fx) * (21 + 2 * Z.to_nat gate_ns) < fuel)%nat ->
  match run fuel (fx_requests fx) s0 with
  | (Ok rep, _) => sound true (dvals (records s1)) rep
      /\ Forall2 (fun x r => asks x.2 x.1 r) (imap pair (fx_requests fx)) (completions rep)
  | (Raise e, s') => overdue s' \/ e = bound_differs /\ bound_active s'
  end.
Proof.
  intros Ho Hl Hv Hf Hs Hsum Hfuel.
  assert (Hw : wp (sys_fault live_native) (run fuel (fx_requests fx)) (fun rep _ => sound true (dvals (records s1)) rep
    /\ Forall2 (fun x r => asks x.2 x.1 r) (imap pair (fx_requests fx)) (completions rep)) s0).
  { apply (coordinator_wp live_native); try done; [by eapply open_system_opened|by eapply opened_completions|by apply served_live|].
    intros _. eapply Z.le_lt_trans; [apply (start_weight gate_ns s0 s1 (fx_requests fx)); [by eapply open_system_opened|done]|]. lia. }
  unfold ProgramLogic.wp in Hw. destruct (run fuel (fx_requests fx) s0) as [[rep|e] s']; [done|].
  destruct Hw as [[]|[[? _]|[[_ Hod]|[[_ Hod]|[_ Hod]]]]]; [done|exact Hod|left; left; by apply Hod|left; left; lia].
Qed.
End live.
End runs.

(** ** The engineering fixtures

    Every topology's fixture, with pages of 512 bytes, on a device of latency 50
    whose gate opens at time 5. *)
Definition demo_native : MqsimService.Native MqsimService.device := MqsimService.device_native 50 5 MqsimService.demo_geometry.

Definition demo_outcome (m : string) : bool :=
  match engineering_fixture m (VInt 512) with
  | Ok fx =>
      match @open_system _ demo_native MqsimService.fresh_device fx with
      | Ok s0 =>
          match forM (imap pair (fx_requests fx)) _validate_request s0, @run _ demo_native 1000 (fx_requests fx) s0 with
          | (Ok tt, s1), (Ok rep, _) => forallb (fits (BasicFabric.cfg (fabric s0)) (hbm s0)) (dvals (records s1))
              && forallb (served_by MqsimService.demo_geometry) (dvals (records s1))
              && (zsum (hbf_bytes <$> dvals (records s1)) <=? U64_MAX)
              && Nat.ltb (length (fx_requests fx) * (21 + 2 * 5)) 1000
          | _, _ => false
          end
      | Raise _ => false
      end
  | Raise _ => false
  end.

Lemma demo_runs m : demo_outcome m = true -> exists fx s0 s1 rep s',
  engineering_fixture m (VInt 512) = Ok fx /\ @open_system _ demo_native MqsimService.fresh_device fx = Ok s0
  /\ forM (imap pair (fx_requests fx)) _validate_request s0 = (Ok tt, s1) /\ @run _ demo_native 1000 (fx_requests fx) s0 = (Ok rep, s')
  /\ forallb (fits (BasicFabric.cfg (fabric s0)) (hbm s0)) (dvals (records s1)) = true
  /\ forallb (served_by MqsimService.demo_geometry) (dvals (records s1)) = true /\ zsum (hbf_bytes <$> dvals (records s1)) <= U64_MAX
  /\ (length (fx_requests fx) * (21 + 2 * 5) < 1000)%nat.
Proof.
  unfold demo_outcome. intros E. destruct (engineering_fixture m (VInt 512)) as [fx|] eqn:E1; [|done].
  destruct (open_system _ fx) as [s0|] eqn:E2; [|done]. destruct (forM _ _ s0) as [[[]|] s1] eqn:E3; [|done].
  destruct (run 1000 _ s0) as [[rep|] s'] eqn:E4; [|done]. apply andb_prop in E as [E E8%Nat.ltb_lt]. apply andb_prop in E as [E E7%Z.leb_le].
  apply andb_prop in E as [E5 E6]. eauto 20.
Qed.

(** The client of a fresh device is linked to it. *)
Lemma demo_linked (q : MqsimService.service MqsimService.device) :
  @MqsimService.init _ demo_native MqsimService.fresh_device = Ok q ->
  MqsimService.linked (depth := 8) (link := MqsimService.device_link 50) q.
Proof.
  intros E. vm_compute in E. injection E as <-. split; [done|]. split; [done|].
  constructor; cbn; try done; try (by constructor).
  - intros id. split; [by intros ?%not_elem_of_nil|]. by intros [?%not_elem_of_nil _].
  - by intros e ?%not_elem_of_nil.
Qed.

Lemma basic_system_sound_witness : exists fx s0 s1 rep s',
  @open_system _ demo_native MqsimService.fresh_device fx = Ok s0
  /\ forM (imap pair (fx_requests fx)) _validate_request s0 = (Ok tt, s1) /\ @run _ demo_native 1000 (fx_requests fx) s0 = (Ok rep, s')
  /\ sound false (dvals (records s1)) rep.
Proof.
  destruct (demo_runs "dash") as (fx & s0 & s1 & rep & s' & _ & H2 & H3 & H4 & H5 & _); [vm_compute; reflexivity|].
  exists fx, s0, s1, rep, s'. split; [exact H2|]. split; [exact H3|]. split; [exact H4|].
  pose proof (@basic_system_sound _ demo_native _ fx s0 s1 1000 H2 H3 H5) as Hs. rewrite H4 in Hs. exact (proj1 Hs).
Defined.

Lemma basic_system_total_witness : exists fx s0 s1 rep s',
  @open_system _ demo_native MqsimService.fresh_device fx = Ok s0
  /\ forM (imap pair (fx_requests fx)) _validate_request s0 = (Ok tt, s1) /\ @run _ demo_native 1000 (fx_requests fx) s0 = (Ok rep, s')
  /\ sound true (dvals (records s1)) rep.
Proof.
  destruct (demo_runs "mixed_direct") as (fx & s0 & s1 & rep & s' & _ & H2 & H3 & H4 & H5 & H6 & H7 & H8); [vm_compute; reflexivity|].
  exists fx, s0, s1, rep, s'. split; [exact H2|]. split; [exact H3|]. split; [exact H4|].
  pose proof (@basic_system_total _ demo_native MqsimService.demo_geometry 8 5 (MqsimService.device_link 50)
    (MqsimService.device_live 50 5 MqsimService.demo_geometry ltac:(lia)) _ fx s0 s1 1000 H2 (demo_linked _ (open_system_client _ _ _ H2)) H3 H5 H6 H7 H8) as Hs.
  rewrite H4 in Hs. exact (proj1 Hs).
Defined.
End SystemInvariant.
