(* ===== verification/MaxMinRates.v ===== *)
(** * MaxMinRates: exact progressive filling

    Models [_rates] of [experiments/eq3_system_thermal/causal_service.py]: the
    active jobs share the bandwidth of the resources they pass.  All rates grow
    together; when a resource is used up the jobs that pass it keep their rate
    and the others go on.  Rates are exact fractions: [Q], kept in lowest terms
    the way Python's [Fraction] is.

    The theorem says that the result is the max-min fair allocation. *)

From Stdlib Require Import QArith Lqa.
From S2P Require Import Prelude.

Module MaxMinRates.
#[local] Open Scope Z_scope.

(** ** The allocation *)

Definition row (coefficients : dict string (dict string Z)) (id : string) : dict string Z := dget_or coefficients id [].
(** [coefficients[job_id].get(resource, 0)]. *)
Definition coefficient (coefficients : dict string (dict string Z)) (id resource : string) : Z :=
  dget_or (row coefficients id) resource 0.

Definition total_coefficient (coefficients : dict string (dict string Z)) (unfrozen : list string) (resource : string) : Z :=
  zsum ((fun id => coefficient coefficients id resource) <$> unfrozen).

(** The increments at which a resource in use would be used up. *)
Definition bounds (coefficients : dict string (dict string Z)) (residual : dict string Q) (unfrozen : list string) : list Q :=
  omap (fun '(resource, capacity) =>
    let total := total_coefficient coefficients unfrozen resource in
    if total =? 0 then None else Some (Qred (capacity / inject_Z total))) residual.

Definition qmin (a b : Q) : Q := if Qle_bool a b then a else b.
Definition qmin_list (l : list Q) : option Q := match l with [] => None | x :: l => Some (foldl qmin x l) end.

Record filling := { rates : dict string Q; residual : dict string Q; unfrozen : list string }.

(** One iteration; [None] when nothing bounds the jobs that are left. *)
Definition fill_round (coefficients : dict string (dict string Z)) (st : filling) : result (option filling) :=
  match qmin_list (bounds coefficients (residual st) (unfrozen st)) with
  | None => Ok None
  | Some increment =>
      let rates' := (fun '(id, rate) => (id, if decide (id ∈ unfrozen st) then Qred (rate + increment) else rate)) <$> rates st in
      let residual' := (fun '(resource, value) =>
        (resource, Qred (value - increment * inject_Z (total_coefficient coefficients (unfrozen st) resource)))) <$> residual st in
      let saturated := dkeys (filter (fun kv => Qeq_bool kv.2 0 = true) residual') in
      let freezes id := bool_decide (Exists (fun resource => resource ∈ saturated) (dkeys (row coefficients id))) in
      let? _ := ensure (existsb freezes (unfrozen st)) (AssertionError "max-min allocation made no progress") in
      Ok (Some {| rates := rates'; residual := residual'; unfrozen := filter (fun id => freezes id = false) (unfrozen st) |})
  end.

Fixpoint fill (fuel : nat) (coefficients : dict string (dict string Z)) (st : filling) : result filling :=
  match unfrozen st with
  | [] => Ok st
  | _ =>
      match fuel with
      | O => Raise OutOfFuel
      | S fuel' =>
          let? next := fill_round coefficients st in
          match next with None => Ok st | Some st' => fill fuel' coefficients st' end
      end
  end.

Definition start (capacity : dict string Q) (ids : list string) : filling :=
  {| rates := (fun id => (id, 0%Q)) <$> ids; residual := capacity; unfrozen := ids |}.

Definition allocate (coefficients : dict string (dict string Z)) (capacity : dict string Q) (ids : list string) :
    result (dict string Q) :=
  let? st := fill (length ids) coefficients (start capacity ids) in Ok (rates st).

(** ** Sums of rationals *)

Definition qsum (l : list Q) : Q := foldr Qplus 0%Q l.

Lemma qsum_ext {A} (f g : A -> Q) l : (forall x, x ∈ l -> (f x == g x)%Q) -> (qsum (f <$> l) == qsum (g <$> l))%Q.
Proof.
  induction l as [|a l IH]; intros H; [done|]. rewrite !fmap_cons. cbn [qsum foldr]. fold (qsum (f <$> l)) (qsum (g <$> l)).
  rewrite (H a), IH; [done| |]; [intros x Hx; apply H|]; set_solver.
Qed.

Lemma qsum_le {A} (f g : A -> Q) l : (forall x, x ∈ l -> (f x <= g x)%Q) -> (qsum (f <$> l) <= qsum (g <$> l))%Q.
Proof.
  induction l as [|a l IH]; intros H; [done|]. rewrite !fmap_cons. cbn [qsum foldr]. fold (qsum (f <$> l)) (qsum (g <$> l)).
  assert (f a <= g a)%Q by (apply H; set_solver). assert (qsum (f <$> l) <= qsum (g <$> l))%Q by (apply IH; intros x Hx; apply H; set_solver).
  lra.
Qed.

Lemma qsum_lt {A} (f g : A -> Q) l x : (forall x, x ∈ l -> (f x <= g x)%Q) -> x ∈ l -> (f x < g x)%Q ->
  (qsum (f <$> l) < qsum (g <$> l))%Q.
Proof.
  induction l as [|a l IH]; intros H Hin Hlt; [by apply not_elem_of_nil in Hin|].
  rewrite !fmap_cons. cbn [qsum foldr]. fold (qsum (f <$> l)) (qsum (g <$> l)).
  assert (Ha : (f a <= g a)%Q) by (apply H; set_solver). apply elem_of_cons in Hin as [->|Hin].
  - assert (qsum (f <$> l) <= qsum (g <$> l))%Q by (apply qsum_le; intros y Hy; apply H; set_solver). lra.
  - assert (qsum (f <$> l) < qsum (g <$> l))%Q by (apply IH; [intros y Hy; apply H; set_solver|done..]). lra.
Qed.

Lemma qsum_add {A} (f g : A -> Q) l : (qsum ((fun x => f x + g x) <$> l) == qsum (f <$> l) + qsum (g <$> l))%Q.
Proof.
  induction l as [|a l IH]; [done|]. rewrite !fmap_cons. cbn [qsum foldr].
  fold (qsum (f <$> l)) (qsum (g <$> l)) (qsum ((fun x => (f x + g x)%Q) <$> l)). lra.
Qed.

Lemma qsum_scale {A} (c : Q) (f : A -> Z) l : (qsum ((fun x => inject_Z (f x) * c) <$> l) == c * inject_Z (zsum (f <$> l)))%Q.
Proof.
  induction l as [|a l IH]; [cbn; ring|]. rewrite !fmap_cons. cbn [qsum foldr zsum].
  fold (zsum (f <$> l)) (qsum ((fun x => (inject_Z (f x) * c)%Q) <$> l)). rewrite IH, inject_Z_plus. ring.
Qed.

Lemma qmin_spec a b : (qmin a b <= a)%Q /\ (qmin a b <= b)%Q /\ (qmin a b = a \/ qmin a b = b).
Proof.
  unfold qmin. destruct (Qle_bool a b) eqn:E.
  - apply Qle_bool_iff in E. split; [lra|]. auto.
  - assert (b < a)%Q by (apply Qnot_le_lt; intros H%Qle_bool_iff; congruence). split; [lra|]. split; [lra|]. auto.
Qed.

Lemma qmin_list_spec l : match qmin_list l with None => l = [] | Some m => m ∈ l /\ forall x, x ∈ l -> (m <= x)%Q end.
Proof.
  destruct l as [|x l]; [done|]. cbn [qmin_list]. revert x. induction l as [|y l IH]; intros x; cbn [foldl].
  - split; [set_solver|]. intros z Hz. apply list_elem_of_singleton in Hz as ->. lra.
  - destruct (IH (qmin x y)) as [Hin Hle]. destruct (qmin_spec x y) as (H1 & H2 & H3). split.
    + apply elem_of_cons in Hin as [->|Hin]; [|set_solver]. destruct H3 as [-> | ->]; set_solver.
    + intros z Hz. assert (Hm : (foldl qmin (qmin x y) l <= qmin x y)%Q) by (apply Hle; set_solver).
      apply elem_of_cons in Hz as [->|Hz]; [lra|]. apply elem_of_cons in Hz as [->|Hz]; [lra|]. apply Hle. set_solver.
Qed.

(** ** Max-min fairness *)

Section fairness.
Context (coefficients : dict string (dict string Z)) (capacity : dict string Q) (ids : list string).

(** Positive coefficients on resources with a positive capacity; every job passes one. *)
Record problem_ok : Prop := {
  po_ids : NoDup ids;
  po_capacity : NoDup (dkeys capacity) /\ forall r v, dget capacity r = Some v -> (0 < v)%Q;
  po_passes : forall id, id ∈ ids -> row coefficients id <> [];
  po_rows : forall id r n, id ∈ ids -> dget (row coefficients id) r = Some n -> 0 < n /\ r ∈ dkeys capacity }.

Definition rate (d : dict string Q) (id : string) : Q := dget_or d id 0%Q.

(** The work per second that rates put on a resource. *)
Definition load (x : string -> Q) (r : string) : Q :=
  qsum ((fun id => (inject_Z (coefficient coefficients id r) * x id)%Q) <$> ids).

Definition feasible (x : string -> Q) : Prop :=
  (forall id, id ∈ ids -> (0 <= x id)%Q) /\ forall r v, dget capacity r = Some v -> (load x r <= v)%Q.

(** A resource that is used up and on which no job is faster than [id]. *)
Definition bottleneck (x : string -> Q) (id r : string) : Prop :=
  0 < coefficient coefficients id r /\ (exists v, dget capacity r = Some v /\ (load x r == v)%Q)
  /\ forall id', id' ∈ ids -> 0 < coefficient coefficients id' r -> (x id' <= x id)%Q.

(** Feasible, positive, and every job has a bottleneck. *)
Record fair (d : dict string Q) : Prop := {
  fr_keys : dkeys d = ids;
  fr_feasible : feasible (rate d);
  fr_positive : forall id, id ∈ ids -> (0 < rate d id)%Q;
  fr_bottleneck : forall id, id ∈ ids -> exists r, bottleneck (rate d) id r }.

(** No feasible allocation gives a job more without giving less to a job that
    has no more than it. *)
Definition max_min (x : string -> Q) : Prop :=
  forall y, feasible y -> forall id, id ∈ ids -> (x id < y id)%Q ->
    exists id', id' ∈ ids /\ (y id' < x id')%Q /\ (x id' <= x id)%Q.

Context (Hok : problem_ok).

Lemma coefficient_nonneg id r : id ∈ ids -> 0 <= coefficient coefficients id r.
Proof using Hok.
  intros Hid. unfold coefficient, dget_or. destruct (dget (row coefficients id) r) as [n|] eqn:E; cbn; [|lia].
  destruct (po_rows Hok _ _ _ Hid E). lia.
Qed.

Lemma coefficient_pos id r : id ∈ ids -> 0 < coefficient coefficients id r <-> r ∈ dkeys (row coefficients id).
Proof using Hok.
  intros Hid. rewrite <- dget_is_Some. unfold coefficient, dget_or. destruct (dget (row coefficients id) r) as [n|] eqn:E; cbn.
  - destruct (po_rows Hok _ _ _ Hid E). split; [by eauto|done].
  - split; [lia|]. by intros [].
Qed.

Lemma inject_nonneg n : 0 <= n -> (0 <= inject_Z n)%Q.
Proof using. intros H. change 0%Q with (inject_Z 0). by rewrite <- Zle_Qle. Qed.
Lemma inject_pos n : 0 < n -> (0 < inject_Z n)%Q.
Proof using. intros H. change 0%Q with (inject_Z 0). by rewrite <- Zlt_Qlt. Qed.

(** A bottleneck for every job makes an allocation max-min fair. *)
Lemma bottlenecks_max_min x : (forall id, id ∈ ids -> exists r, bottleneck x id r) -> max_min x.
Proof using Hok.
  intros Hb y [Hy0 Hy] id Hid Hlt. destruct (Hb id Hid) as (r & Hc & (v & Hv & Hl) & Hmost).
  destruct (decide (Exists (fun id' => 0 < coefficient coefficients id' r /\ Qle_bool (x id') (y id') = false) ids)) as [He|Hn].
  - apply Exists_exists in He as (id' & Hid' & Hc' & Hlt'). exists id'. split; [done|]. split; [|by apply Hmost].
    apply Qnot_le_lt. intros H%Qle_bool_iff. congruence.
  - exfalso. specialize (Hy r v Hv). assert (Hs : (load x r < load y r)%Q); [|lra].
    apply (qsum_lt _ _ ids id).
    + intros id' Hid'. pose proof (coefficient_nonneg id' r Hid') as H0. destruct (Z.eq_dec (coefficient coefficients id' r) 0) as [->|Hne]; [change (inject_Z 0) with 0%Q; lra|].
      assert (Hle : (x id' <= y id')%Q).
      { apply Qle_bool_iff. destruct (Qle_bool (x id') (y id')) eqn:E; [done|]. exfalso. apply Hn, Exists_exists. exists id'.
        split; [done|]. split; [lia|done]. }
      rewrite (Qmult_comm _ (x id')), (Qmult_comm _ (y id')). apply Qmult_le_compat_r; [done|]. by apply inject_nonneg.
    + done.
    + rewrite (Qmult_comm _ (x id)), (Qmult_comm _ (y id)). apply Qmult_lt_compat_r; [|done]. by apply inject_pos.
Qed.

(** ** The loop *)

(** The state of the filling at level [level]. *)
Record filling_inv (level : Q) (st : filling) : Prop := {
  fi_keys : dkeys (rates st) = ids;
  fi_resources : dkeys (residual st) = dkeys capacity;
  fi_unfrozen : NoDup (unfrozen st) /\ forall id, id ∈ unfrozen st -> id ∈ ids;
  fi_level : (0 <= level)%Q /\ forall id, id ∈ unfrozen st -> (rate (rates st) id == level)%Q;
  fi_below : forall id, id ∈ ids -> (0 <= rate (rates st) id <= level)%Q;
  fi_residual : forall r v, dget (residual st) r = Some v ->
    exists c, dget capacity r = Some c /\ (v == c - load (rate (rates st)) r)%Q /\ (0 <= v)%Q;
  fi_open : forall id r v, id ∈ unfrozen st -> 0 < coefficient coefficients id r -> dget (residual st) r = Some v -> (0 < v)%Q;
  fi_frozen : forall id, id ∈ ids -> id ∉ unfrozen st -> (0 < rate (rates st) id)%Q /\ exists r,
    bottleneck (rate (rates st)) id r /\ forall id', id' ∈ unfrozen st -> coefficient coefficients id' r = 0 }.

Lemma rate_start id : (rate (rates (start capacity ids)) id == 0)%Q.
Proof using.
  unfold rate, dget_or. destruct (dget (rates (start capacity ids)) id) as [q|] eqn:E; [|done]. cbn.
  apply dget_Some_elem, list_elem_of_fmap in E as (i & [= -> ->] & _). done.
Qed.

Lemma load_ext x y r : (forall id, id ∈ ids -> (x id == y id)%Q) -> (load x r == load y r)%Q.
Proof using. intros H. apply qsum_ext. intros id Hid. by rewrite (H id Hid). Qed.

Lemma load_zero x r : (forall id, id ∈ ids -> (x id == 0)%Q) -> (load x r == 0)%Q.
Proof using.
  intros H. unfold load. rewrite (qsum_ext _ (fun id => (inject_Z (coefficient coefficients id r) * 0)%Q)).
  - rewrite qsum_scale. ring.
  - intros id Hid. by rewrite (H id Hid).
Qed.

Lemma filling_start : filling_inv 0 (start capacity ids).
Proof using Hok.
  destruct (po_capacity Hok) as [Hnd Hpos]. constructor; cbn [start rates residual unfrozen].
  - unfold dkeys. rewrite <- list_fmap_compose. by apply list_fmap_id.
  - done.
  - split; [apply (po_ids Hok)|done].
  - split; [lra|]. intros id _. apply rate_start.
  - intros id _. pose proof (rate_start id) as E. cbn [start rates] in E. lra.
  - intros r v Hv. exists v. split; [done|]. assert (E : (load (rate (rates (start capacity ids))) r == 0)%Q).
    { apply load_zero. intros id _. apply rate_start. }
    cbn [start rates] in E. specialize (Hpos r v Hv). split; lra.
  - intros id r v _ _ Hv. by apply (Hpos r).
  - done.
Qed.

Lemma dget_fmap_key {V W} (f : string -> V -> W) (d : dict string V) k :
  dget ((fun '(k, v) => (k, f k v)) <$> d) k = f k <$> dget d k.
Proof using.
  induction d as [|[k' v] d IH]; [done|]. rewrite fmap_cons. cbn [dget]. case_decide as E; [by subst|done].
Qed.

(** The coefficients of the jobs that still grow. *)
Lemma total_spec unf r : (forall id, id ∈ unf -> id ∈ ids) ->
  0 <= total_coefficient coefficients unf r /\
  (total_coefficient coefficients unf r = 0 <-> forall id, id ∈ unf -> coefficient coefficients id r = 0).
Proof using Hok.
  intros Hsub. unfold total_coefficient. induction unf as [|a unf IH]; [cbn; split; [lia|]; split; [|done]; intros _ id H; by apply not_elem_of_nil in H|].
  rewrite fmap_cons. cbn [zsum foldr]. fold (zsum ((fun id => coefficient coefficients id r) <$> unf)).
  destruct IH as [H0 Hz]; [intros id Hid; apply Hsub; set_solver|]. pose proof (coefficient_nonneg a r (Hsub a ltac:(set_solver))) as Ha.
  split; [lia|]. split.
  - intros E id Hid. apply elem_of_cons in Hid as [->|Hid]; [lia|]. apply Hz; [lia|done].
  - intros H. rewrite (H a) by set_solver. enough (zsum ((fun id => coefficient coefficients id r) <$> unf) = 0) by lia.
    apply Hz. intros id Hid. apply H. set_solver.
Qed.

Lemma bounds_elem res unf b : b ∈ bounds coefficients res unf <->
  exists r v, (r, v) ∈ res /\ total_coefficient coefficients unf r <> 0
    /\ b = Qred (v / inject_Z (total_coefficient coefficients unf r)).
Proof using.
  unfold bounds. rewrite list_elem_of_omap. split.
  - intros ([r v] & Hin & Hb). cbv zeta in Hb. destruct (Z.eqb_spec (total_coefficient coefficients unf r) 0); [done|].
    injection Hb as <-. eauto.
  - intros (r & v & Hin & Hne & ->). exists (r, v). split; [done|]. cbv zeta. by rewrite (proj2 (Z.eqb_neq _ _) Hne).
Qed.

(** The load after a round. *)
Lemma load_round x y unf inc r : NoDup unf -> (forall id, id ∈ unf -> id ∈ ids) ->
  (forall id, id ∈ ids -> (y id == if decide (id ∈ unf) then x id + inc else x id)%Q) ->
  (load y r == load x r + inc * inject_Z (total_coefficient coefficients unf r))%Q.
Proof using Hok.
  intros Hnd Hsub Hy.
  assert (Hp : filter (fun id => id ∈ unf) ids ≡ₚ unf).
  { apply NoDup_Permutation; [by apply NoDup_filter, (po_ids Hok)|done|]. intros id. rewrite list_elem_of_filter.
    split; [tauto|]. intros H. auto. }
  assert (Ht : forall l, zsum ((fun id => if decide (id ∈ unf) then coefficient coefficients id r else 0) <$> l)
    = zsum ((fun id => coefficient coefficients id r) <$> filter (fun id => id ∈ unf) l)).
  { induction l as [|a l IH]; [done|]. rewrite filter_cons, fmap_cons. unfold zsum in *. cbn [foldr]. case_decide; [|rewrite IH; lia].
    rewrite fmap_cons. cbn [foldr]. by rewrite IH. }
  unfold total_coefficient. rewrite <- (zsum_perm _ _ (fmap_Permutation (fun id => coefficient coefficients id r) _ _ Hp)), <- Ht, <- qsum_scale.
  unfold load. rewrite <- qsum_add. apply qsum_ext. intros id Hid. rewrite (Hy id Hid). case_decide; [ring|].
  change (inject_Z 0) with 0%Q. ring.
Qed.

(** The increment of a round: positive, within every residual, and it uses one
    resource up. *)
Lemma increment_spec level st : filling_inv level st -> unfrozen st <> [] ->
  exists inc, qmin_list (bounds coefficients (residual st) (unfrozen st)) = Some inc /\ (0 < inc)%Q
    /\ (forall r v, dget (residual st) r = Some v ->
          (inc * inject_Z (total_coefficient coefficients (unfrozen st) r) <= v)%Q)
    /\ exists r v id, dget (residual st) r = Some v /\ id ∈ unfrozen st /\ 0 < coefficient coefficients id r
         /\ (inc * inject_Z (total_coefficient coefficients (unfrozen st) r) == v)%Q.
Proof using Hok.
  intros [] Hne. destruct fi_unfrozen0 as [Hnd Hsub]. assert (Hndr : NoDup (dkeys (residual st))) by (rewrite fi_resources0; apply (po_capacity Hok)).
  assert (Hopen : forall r v, (r, v) ∈ residual st -> total_coefficient coefficients (unfrozen st) r <> 0 ->
    (0 < v)%Q /\ (0 < inject_Z (total_coefficient coefficients (unfrozen st) r))%Q
    /\ exists id, id ∈ unfrozen st /\ 0 < coefficient coefficients id r).
  { intros r v Hin Ht. destruct (total_spec (unfrozen st) r Hsub) as [H0 Hz].
    assert (Hex : Exists (fun id => coefficient coefficients id r <> 0) (unfrozen st)).
    { destruct (decide (Exists (fun id => coefficient coefficients id r <> 0) (unfrozen st))) as [|Hn]; [done|]. exfalso. apply Ht, Hz.
      intros id Hid. destruct (Z.eq_dec (coefficient coefficients id r) 0); [done|]. destruct Hn. apply Exists_exists. eauto. }
    apply Exists_exists in Hex as (id & Hid & Hc). pose proof (coefficient_nonneg id r (Hsub id Hid)).
    split; [apply (fi_open0 id r v); [done|lia|by apply dget_elem]|]. split; [apply inject_pos; lia|]. exists id. split; [done|lia]. }
  pose proof (qmin_list_spec (bounds coefficients (residual st) (unfrozen st))) as Hm.
  destruct (qmin_list _) as [inc|].
  - destruct Hm as [Hin Hle]. apply bounds_elem in Hin as (r & v & Hin & Ht & Einc). exists inc.
    assert (Hinc : (inc == v / inject_Z (total_coefficient coefficients (unfrozen st) r))%Q) by (rewrite Einc; apply Qred_correct).
    destruct (Hopen r v Hin Ht) as (Hv & Hn & id & Hid & Hc). split; [done|].
    split; [rewrite Hinc; apply Qlt_shift_div_l; [done|lra]|]. split.
    + intros r' v' Hv'. destruct (Z.eq_dec (total_coefficient coefficients (unfrozen st) r') 0) as [->|Ht'].
      { destruct (fi_residual0 r' v' Hv') as (c & _ & _ & H0). change (inject_Z 0) with 0%Q. lra. }
      apply dget_Some_elem in Hv'. destruct (Hopen r' v' Hv' Ht') as (_ & Hn' & _).
      assert (Hb : (inc <= Qred (v' / inject_Z (total_coefficient coefficients (unfrozen st) r')))%Q) by (apply Hle, bounds_elem; eauto).
      rewrite Qred_correct in Hb. apply (Qmult_le_compat_r _ _ (inject_Z (total_coefficient coefficients (unfrozen st) r'))) in Hb; [|lra].
      rewrite (Qmult_comm (v' / _)), Qmult_div_r in Hb by lra. done.
    + exists r, v, id. split; [by apply dget_elem|]. split; [done|]. split; [done|]. rewrite Hinc, Qmult_comm. apply Qmult_div_r. lra.
  - exfalso. destruct (unfrozen st) as [|id unf] eqn:Eu; [done|]. pose proof (Hsub id ltac:(set_solver)) as Hid.
    destruct (row coefficients id) as [|[r n] l] eqn:Er; [by apply (po_passes Hok id)|].
    assert (Hg : dget (row coefficients id) r = Some n) by (rewrite Er; cbn; by rewrite decide_True).
    destruct (po_rows Hok _ _ _ Hid Hg) as [Hn Hr]. rewrite <- fi_resources0 in Hr. apply dget_is_Some in Hr as [v Hv].
    apply (not_elem_of_nil (Qred (v / inject_Z (total_coefficient coefficients (id :: unf) r)))). rewrite <- Hm. apply bounds_elem.
    exists r, v. split; [by apply dget_Some_elem|]. split; [|done]. intros E. apply (total_spec (id :: unf) r Hsub) with (id := id) in E; [|set_solver].
    unfold coefficient, dget_or in E. rewrite Hg in E. cbn in E. lia.
Qed.

Lemma saturated_elem (res : dict string Q) r : NoDup (dkeys res) ->
  r ∈ dkeys (filter (fun kv => Qeq_bool kv.2 0 = true) res) <-> exists v, dget res r = Some v /\ (v == 0)%Q.
Proof using.
  intros Hnd. unfold dkeys. rewrite list_elem_of_fmap. split.
  - intros ([r' v] & -> & [Hz Hin]%list_elem_of_filter). exists v. split; [by apply dget_elem|]. by apply Qeq_bool_iff.
  - intros (v & Hv & Hz). exists (r, v). split; [done|]. apply list_elem_of_filter. split; [by apply Qeq_bool_iff|]. by apply dget_Some_elem.
Qed.

(** What a round leaves, given its increment. *)
Lemma round_inv level inc st st' (freezes : string -> bool) : filling_inv level st -> (0 < inc)%Q ->
  (forall r v, dget (residual st) r = Some v -> (inc * inject_Z (total_coefficient coefficients (unfrozen st) r) <= v)%Q) ->
  dkeys (rates st') = ids -> dkeys (residual st') = dkeys capacity ->
  (forall id, id ∈ ids -> (rate (rates st') id == if decide (id ∈ unfrozen st) then rate (rates st) id + inc else rate (rates st) id)%Q) ->
  (forall r v', dget (residual st') r = Some v' -> exists v, dget (residual st) r = Some v
     /\ (v' == v - inc * inject_Z (total_coefficient coefficients (unfrozen st) r))%Q) ->
  unfrozen st' = filter (fun id => freezes id = false) (unfrozen st) ->
  (forall id, id ∈ ids -> freezes id = true <-> exists r v, 0 < coefficient coefficients id r /\ dget (residual st') r = Some v /\ (v == 0)%Q) ->
  filling_inv (level + inc) st'.
Proof using Hok.
  intros [] Hinc Hle Hk Hr Hrate Hres Hunf Hfr. destruct fi_unfrozen0 as [Hnd Hsub], fi_level0 as [Hl0 Hlev].
  assert (Hsub' : forall id, id ∈ unfrozen st' -> id ∈ unfrozen st) by (intros id; rewrite Hunf, list_elem_of_filter; tauto).
  assert (Hload : forall r, (load (rate (rates st')) r == load (rate (rates st)) r
    + inc * inject_Z (total_coefficient coefficients (unfrozen st) r))%Q) by (intros r; by apply load_round).
  assert (Hcap : forall r v', dget (residual st') r = Some v' -> exists c, dget capacity r = Some c
    /\ (v' == c - load (rate (rates st')) r)%Q /\ (0 <= v')%Q).
  { intros r v' Hv'. destruct (Hres r v' Hv') as (v & Hv & E). destruct (fi_residual0 r v Hv) as (c & Hc & Ec & H0). exists c.
    split; [done|]. rewrite (Hload r). specialize (Hle r v Hv). split; lra. }
  assert (Hgrown : forall id, id ∈ unfrozen st -> (rate (rates st') id == level + inc)%Q).
  { intros id Hid. rewrite (Hrate id (Hsub id Hid)), decide_True by done. rewrite (Hlev id Hid). lra. }
  assert (Hbelow : forall id, id ∈ ids -> (0 <= rate (rates st') id <= level + inc)%Q).
  { intros id Hid. rewrite (Hrate id Hid). specialize (fi_below0 id Hid). case_decide; lra. }
  constructor; try done.
  - split; [rewrite Hunf; by apply NoDup_filter|auto].
  - split; [lra|auto].
  - intros id r v Hid Hc Hv. destruct (Hcap r v Hv) as (_ & _ & _ & H0). destruct (Qle_lt_or_eq 0 v H0) as [|E]; [done|]. exfalso.
    rewrite Hunf in Hid. apply list_elem_of_filter in Hid as [Hf Hid]. enough (freezes id = true) by congruence.
    apply (Hfr id (Hsub id Hid)). exists r, v. split; [done|]. split; [done|]. by symmetry.
  - intros id Hid Hnu. destruct (decide (id ∈ unfrozen st)) as [Hu|Hu].
    + assert (Hf : freezes id = true).
      { destruct (freezes id) eqn:E; [done|]. destruct Hnu. rewrite Hunf. by apply list_elem_of_filter. }
      apply (Hfr id Hid) in Hf as (r & v & Hc & Hv & Hz). split; [rewrite (Hgrown id Hu); lra|]. exists r. split.
      * split; [done|]. split.
        -- destruct (Hcap r v Hv) as (c & Hc' & E & _). exists c. split; [done|]. lra.
        -- intros id' Hid' _. rewrite (Hgrown id Hu). by apply Hbelow.
      * intros id' Hid'. rewrite Hunf in Hid'. apply list_elem_of_filter in Hid' as [Hf' Hid'].
        pose proof (coefficient_nonneg id' r (Hsub id' Hid')). destruct (Z.eq_dec (coefficient coefficients id' r) 0); [done|].
        enough (freezes id' = true) by congruence. apply (Hfr id' (Hsub id' Hid')). exists r, v. split; [lia|done].
    + destruct (fi_frozen0 id Hid Hu) as (Hpos & r & (Hc & (v & Hv & Hl) & Hmost) & Hnone).
      assert (Ei : (rate (rates st') id == rate (rates st) id)%Q) by (rewrite (Hrate id Hid); by rewrite decide_False).
      split; [lra|]. exists r. split; [|auto]. split; [done|]. split.
      * exists v. split; [done|]. rewrite (Hload r). rewrite (proj2 (proj2 (total_spec (unfrozen st) r Hsub))) by done.
        change (inject_Z 0) with 0%Q. lra.
      * intros id' Hid' Hc'. rewrite Ei, (Hrate id' Hid'). rewrite decide_False; [by apply Hmost|]. intros Hx. rewrite (Hnone id' Hx) in Hc'. lia.
Qed.

Lemma fill_round_ok level st : filling_inv level st -> unfrozen st <> [] ->
  exists inc st', fill_round coefficients st = Ok (Some st') /\ filling_inv (level + inc) st'
    /\ (length (unfrozen st') < length (unfrozen st))%nat.
Proof using Hok.
  intros Hi Hne. destruct (increment_spec level st Hi Hne) as (inc & Hq & Hpos & Hle & r0 & v0 & id0 & Hv0 & Hid0 & Hc0 & Hz0).
  exists inc. unfold fill_round. rewrite Hq. cbv zeta.
  set (rates' := _ <$> rates st). set (residual' := _ <$> residual st).
  set (freezes := fun id => bool_decide (Exists (fun r => r ∈ dkeys (filter (fun kv => Qeq_bool kv.2 0 = true) residual')) (dkeys (row coefficients id)))).
  assert (Hkr : dkeys residual' = dkeys capacity).
  { rewrite <- (fi_resources _ _ Hi). unfold residual', dkeys. rewrite <- list_fmap_compose. apply list_fmap_ext. by intros i [k v] _. }
  assert (Hnd : NoDup (dkeys residual')) by (rewrite Hkr; apply (po_capacity Hok)).
  assert (Hres : forall r v', dget residual' r = Some v' -> exists v, dget (residual st) r = Some v
     /\ (v' == v - inc * inject_Z (total_coefficient coefficients (unfrozen st) r))%Q).
  { intros r v'. unfold residual'. rewrite (dget_fmap_key (fun resource value => Qred (value - inc * inject_Z (total_coefficient coefficients (unfrozen st) resource)))).
    destruct (dget (residual st) r) as [v|]; [|done]. cbn. intros [= <-]. exists v. split; [done|]. apply Qred_correct. }
  assert (Hfr : forall id, id ∈ ids -> freezes id = true <->
    exists r v, 0 < coefficient coefficients id r /\ dget residual' r = Some v /\ (v == 0)%Q).
  { intros id Hid. unfold freezes. rewrite bool_decide_eq_true, Exists_exists. split.
    - intros (r & Hr & (v & Hv & Hz)%saturated_elem); [|done]. exists r, v. split; [by apply coefficient_pos|done].
    - intros (r & v & Hc & Hv & Hz). exists r. split; [by apply coefficient_pos|]. apply saturated_elem; [done|]. eauto. }
  assert (Hhit : freezes id0 = true).
  { apply (Hfr id0). { by apply (fi_unfrozen _ _ Hi). } exists r0. assert (Hin : r0 ∈ dkeys residual').
    { rewrite Hkr, <- (fi_resources _ _ Hi). apply dget_is_Some. eauto. }
    apply dget_is_Some in Hin as [v' Hv']. exists v'. split; [done|]. split; [done|]. destruct (Hres r0 v' Hv') as (v & Hv & E).
    assert (v = v0) as -> by congruence. lra. }
  rewrite (proj2 (existsb_exists freezes (unfrozen st))) by (exists id0; split; [by apply list_elem_of_In|done]). cbn [ensure rbind].
  eexists. split; [reflexivity|]. split.
  - eapply (round_inv level inc st _ freezes Hi Hpos Hle); cbn [rates residual unfrozen]; try done.
    + rewrite <- (fi_keys _ _ Hi). unfold rates', dkeys. rewrite <- list_fmap_compose. apply list_fmap_ext. by intros i [k v] _.
    + intros id Hid. unfold rate, dget_or, rates'.
      rewrite (dget_fmap_key (fun id rate => if decide (id ∈ unfrozen st) then Qred (rate + inc) else rate)).
      rewrite <- (fi_keys _ _ Hi) in Hid. apply dget_is_Some in Hid as [q Hq']. rewrite Hq'. cbn. case_decide; [|done]. apply Qred_correct.
  - cbn [unfrozen]. apply filter_shrinks. intros E. rewrite <- E in Hid0. apply list_elem_of_filter in Hid0 as [Hf _]. fold (freezes id0) in Hf. congruence.
Qed.

Lemma fill_ok fuel level st : filling_inv level st -> (length (unfrozen st) <= fuel)%nat ->
  exists level' st', fill fuel coefficients st = Ok st' /\ filling_inv level' st' /\ unfrozen st' = [].
Proof using Hok.
  revert level st. induction fuel as [|fuel IH]; intros level st Hi Hf.
  - destruct (unfrozen st) as [|id l] eqn:E; [|cbn in Hf; lia]. exists level, st. cbn [fill]. by rewrite E.
  - destruct (unfrozen st) as [|id l] eqn:E; [exists level, st; cbn [fill]; by rewrite E|].
    destruct (fill_round_ok level st Hi ltac:(by rewrite E)) as (inc & st' & Hr & Hi' & Hlt). rewrite E in Hlt.
    destruct (IH _ st' Hi' ltac:(cbn in *; lia)) as (level' & st2 & H2 & Hi2 & Hu2). exists level', st2. split; [|done].
    cbn [fill]. rewrite E, Hr. cbn [rbind]. exact H2.
Qed.

Lemma allocate_fair : exists d, allocate coefficients capacity ids = Ok d /\ fair d.
Proof using Hok.
  destruct (fill_ok (length ids) 0 (start capacity ids) filling_start (Nat.le_refl _)) as (level & st & Hf & Hi & Hu).
  exists (rates st). unfold allocate. rewrite Hf. split; [done|]. pose proof Hi as []. destruct (po_capacity Hok) as [Hnd _].
  assert (Hnone : forall id, id ∉ unfrozen st) by (intros id; rewrite Hu; apply not_elem_of_nil). constructor.
  - done.
  - split; [intros id Hid; apply fi_below0; done|]. intros r v Hv.
    assert (Hr : r ∈ dkeys (residual st)) by (rewrite fi_resources0; apply dget_is_Some; eauto). apply dget_is_Some in Hr as [q Hq].
    destruct (fi_residual0 r q Hq) as (c & Hc & E & H0). assert (c = v) as -> by congruence. lra.
  - intros id Hid. by apply fi_frozen0.
  - intros id Hid. destruct (fi_frozen0 id Hid (Hnone id)) as (_ & r & Hb & _). eauto.
Qed.

(** C12: progressive filling is exact and fair.  When every active job passes a
    resource, with positive coefficients and capacities, the loop ends without its
    assertion failing, and its rates are positive, load no resource beyond its
    capacity, and are max-min fair: any allocation that respects the capacities
    and gives a job more gives less to a job that has no more than it. *)
Theorem causal_rates_max_min : exists d, allocate coefficients capacity ids = Ok d
  /\ dkeys d = ids /\ (forall id, id ∈ ids -> (0 < rate d id)%Q) /\ feasible (rate d) /\ max_min (rate d).
Proof using Hok.
  destruct allocate_fair as (d & Hd & [Hk Hf Hp Hb]). exists d. split_and!; try done. by apply bottlenecks_max_min.
Qed.
End fairness.

(** *** A concrete allocation: two reads share a link, one of them a slower medium. *)
Definition demo_coefficients : dict string (dict string Z) :=
  [("a", [("media:a", 1); ("link", 1)]); ("b", [("media:b", 2); ("link", 1)])].
Definition demo_capacity : dict string Q := [("media:a", 10 # 1); ("link", 9 # 1); ("media:b", 6 # 1)]%Q.

Lemma demo_ok : problem_ok demo_coefficients demo_capacity ["a"; "b"].
Proof.
  constructor.
  - apply (bool_decide_unpack _). vm_compute. done.
  - split; [apply (bool_decide_unpack _); vm_compute; done|]. intros r v H%dget_Some_elem.
    unfold demo_capacity in H. rewrite !elem_of_cons in H. destruct H as [[= -> ->]|[[= -> ->]|[[= -> ->]|H]]]; [lra..|]. by apply not_elem_of_nil in H.
  - intros id H. rewrite !elem_of_cons in H. destruct H as [->|[->|H]]; [done..|]. by apply not_elem_of_nil in H.
  - assert (Ea : row demo_coefficients "a" = [("media:a", 1); ("link", 1)]) by reflexivity.
    assert (Eb : row demo_coefficients "b" = [("media:b", 2); ("link", 1)]) by reflexivity.
    intros id r n H. rewrite !elem_of_cons in H. destruct H as [->|[->|H]]; [rewrite Ea|rewrite Eb|by apply not_elem_of_nil in H];
      intros Hr%dget_Some_elem; rewrite !elem_of_cons in Hr;
      (destruct Hr as [[= -> ->]|[[= -> ->]|Hr]]; [split; [lia|apply (bool_decide_unpack _); vm_compute; done]..|by apply not_elem_of_nil in Hr]).
Qed.

Lemma causal_rates_max_min_witness : exists d, allocate demo_coefficients demo_capacity ["a"; "b"] = Ok d
  /\ d = [("a", 6 # 1); ("b", 3 # 1)]%Q /\ max_min demo_coefficients demo_capacity ["a"; "b"] (rate d).
Proof.
  destruct (causal_rates_max_min demo_coefficients demo_capacity ["a"; "b"] demo_ok) as (d & Hd & _ & _ & _ & Hm).
  exists d. split; [exact Hd|]. split; [|exact Hm]. vm_compute in Hd. injection Hd as <-. reflexivity.
Defined.
End MaxMinRates.
