(* ===== verification/CausalService.v ===== *)
(** * CausalService: the event-driven topology service

    Models [CausalTopologyService] of
    [experiments/eq3_system_thermal/causal_service.py]: jobs are submitted while
    a thermal window is open, admitted in slices against the endpoint quotas that
    the window froze, transferred at exact max-min rates ([MaxMinRates]) and
    drained; time moves from event to event at integer nanoseconds.

    The class reuses the rules of [TopologyService] on its own job objects; the
    rules read only the stack, the channel, the operation and the route of a job
    ([as_topology]).  Jobs are stored once, under their identifier.  The order in
    which Python iterates over the set of active jobs is an argument of the
    operations that depend on it ([set_order]).  Constant labels of the receipts,
    and [immutable_facts], are left out. *)

From Stdlib Require Import QArith.
From S2P Require Import Prelude ProgramLogic.
From S2P Require Import BasicFabric.
From S2P Require Import TopologyConfig.
From S2P Require Import TopologyService.
From S2P Require Import MaxMinRates.

Module CausalService.
Import TopologyConfig ProgramLogic.
#[local] Open Scope Z_scope.

Notation route := BasicFabric.route.
Notation stage := BasicFabric.stage.
Notation endpoint_state := TopologyService.endpoint_state.
Notation key := (prod string string).

Definition NS_PER_SECOND : Z := 1000000000.

Inductive causal_operation := Topology (o : operation) | HbmFill | MigrationProgram.
#[export] Instance causal_operation_eq_dec : EqDecision causal_operation.
Proof. solve_decision. Defined.
Definition causal_name (o : causal_operation) : string :=
  match o with Topology o => operation_name o | HbmFill => "hbm_fill" | MigrationProgram => "migration_program" end.
Definition CAUSAL_OPERATIONS : list causal_operation := (Topology <$> OPERATIONS) ++ [HbmFill; MigrationProgram].

(** [operation in READ_OPERATIONS] or one of the two added operations. *)
Definition has_route (o : causal_operation) : bool :=
  match o with Topology o => is_read_operation o | HbmFill | MigrationProgram => true end.
Definition is_maintenance_op (o : causal_operation) : bool :=
  match o with Topology o => is_maintenance_operation o | HbmFill | MigrationProgram => false end.

(** [_ceil_fraction] and the floor [numerator // denominator]. *)
Definition _ceil_fraction (value : Q) : Z := ceil_div (Qnum value) (QDen value).
Definition floor_fraction (value : Q) : Z := Qnum value / QDen value.

(** ** State *)

Inductive job_state := QUEUED | ACTIVE | DRAINING | DONE.
#[export] Instance job_state_eq_dec : EqDecision job_state.
Proof. solve_decision. Defined.

Record job := {
  job_id : string; stack : string; channel : string; op : causal_operation; job_route : option route; arrival_ns : Z;
  total_bytes : Z; completed_bytes : Z; unadmitted_bytes : Z; sequence : Z; maintenance_id : option string;
  metadata : pyval; state : job_state; slice_total_bytes : Z; slice_transferred_bytes : Z; rate_credit : Q;
  first_service_ns : option Z; last_service_ns : option Z; completion_ns : option Z }.

(** A row of the activity log: of the shared rules, or of the two operations
    that the class adds. *)
Record own_activity := {
  oa_phase : string; oa_resource : string; oa_partner : option string; oa_operation : string; oa_stack : string;
  oa_channel : string; oa_bytes : Z; oa_route : option route; oa_start : Z; oa_end : Z }.
Inductive activity := RuleRow (a : TopologyService.activity) | OwnRow (a : own_activity).

(** Heap entries [(completion, sequence, job, bytes)]. *)
Notation drain := (prod (prod (prod Z Z) string) Z).
Definition drain_le : drain -> drain -> bool := lex (lex (lex zle zle) sle) zle.

Record service := {
  cfg : config; channel_groups : option (dict string (dict string (string * Z))); now : Z; window : option (Z * Z);
  states : dict string endpoint_state; quota_remaining : dict string Z; next_sequence : Z; jobs : gmap string job;
  known_ids : gset string; queues : dict key (list string); active : gset string; draining : list drain;
  window_activities : list activity; window_resource_work : dict string Z; window_completion_ids : list string;
  window_maintenance_ids : list string; completed_since_read : dict string Z;
  activity_offset : nat; completion_offset : nat; maintenance_offset : nat }.

(** ** Construction *)

Definition group_row (raw : pyval) : result (string * Z) :=
  let error := ValueError "invalid causal channel group row" in
  let? d := match raw with VDict d => Ok d | _ => Raise error end in
  let? _ := ensure (same_set (dkeys d) ["resource_id"; "bandwidth_bytes_per_s"]) error in
  match dget_or d "resource_id" VNone, dget_or d "bandwidth_bytes_per_s" VNone with
  | VStr id, VInt rate =>
      let? _ := ensure (negb (String.eqb id "") && (0 <? rate)) (ValueError "invalid causal channel group identity/rate") in
      Ok (id, rate)
  | _, _ => Raise (ValueError "invalid causal channel group identity/rate")
  end.

Definition group_stack (raw_groups : dict string pyval) (item : string * dict string Z) : result (string * dict string (string * Z)) :=
  let '(st, chans) := item in
  let? raw := dindex raw_groups st in
  let? keys := key_set raw in
  let? _ := ensure (same_set keys (Some <$> dkeys chans)) (ValueError "causal_channel_groups must exactly cover channels") in
  match raw with
  | VDict rows => let? checked := mapR (fun '(ch, row) => let? r := group_row row in Ok (ch, r)) rows in Ok (st, checked)
  | _ => Raise (AttributeError "object has no attribute 'items'")
  end.

Definition normalize_groups (c : config) (raw : pyval) : result (option (dict string (dict string (string * Z)))) :=
  match raw with
  | VNone => Ok None
  | _ =>
      let? keys := key_set raw in
      let? _ := ensure (same_set keys (Some <$> dkeys (channels c))) (ValueError "causal_channel_groups must exactly cover stacks") in
      match raw with
      | VDict d => let? rows := mapR (group_stack d) (channels c) in Ok (Some rows)
      | _ => Raise (TypeError "indices must be integers")
      end
  end.

Definition init (config : pyval) : result service :=
  let? d := match config with
            | VDict d => Ok d
            | VList _ => Raise (TypeError "pop expected at most 1 argument, got 2")
            | _ => Raise (AttributeError "object has no attribute 'pop'")
            end in
  let? c := _normalize (VDict (ddel d "causal_channel_groups")) in
  let? groups := normalize_groups c (dget_or d "causal_channel_groups" VNone) in
  Ok {| cfg := c; channel_groups := groups; now := 0; window := None; states := []; quota_remaining := []; next_sequence := 0;
        jobs := ∅; known_ids := ∅; queues := (fun k => (k, [])) <$> TopologyService.channel_keys c; active := ∅; draining := [];
        window_activities := []; window_resource_work := []; window_completion_ids := []; window_maintenance_ids := [];
        completed_since_read := []; activity_offset := 0; completion_offset := 0; maintenance_offset := 0 |}.

(** ** Field updates *)

Definition set_jobs (m : gmap string job) (s : service) : service :=
  {| cfg := cfg s; channel_groups := channel_groups s; now := now s; window := window s; states := states s;
     quota_remaining := quota_remaining s; next_sequence := next_sequence s; jobs := m;
     known_ids := known_ids s; queues := queues s; active := active s; draining := draining s;
     window_activities := window_activities s; window_resource_work := window_resource_work s;
     window_completion_ids := window_completion_ids s; window_maintenance_ids := window_maintenance_ids s;
     completed_since_read := completed_since_read s; activity_offset := activity_offset s;
     completion_offset := completion_offset s; maintenance_offset := maintenance_offset s |}.
Definition set_queues (q : dict key (list string)) (s : service) : service :=
  {| cfg := cfg s; channel_groups := channel_groups s; now := now s; window := window s; states := states s;
     quota_remaining := quota_remaining s; next_sequence := next_sequence s; jobs := jobs s;
     known_ids := known_ids s; queues := q; active := active s; draining := draining s;
     window_activities := window_activities s; window_resource_work := window_resource_work s;
     window_completion_ids := window_completion_ids s; window_maintenance_ids := window_maintenance_ids s;
     completed_since_read := completed_since_read s; activity_offset := activity_offset s;
     completion_offset := completion_offset s; maintenance_offset := maintenance_offset s |}.
Definition set_active (a : gset string) (s : service) : service :=
  {| cfg := cfg s; channel_groups := channel_groups s; now := now s; window := window s; states := states s;
     quota_remaining := quota_remaining s; next_sequence := next_sequence s; jobs := jobs s;
     known_ids := known_ids s; queues := queues s; active := a; draining := draining s;
     window_activities := window_activities s; window_resource_work := window_resource_work s;
     window_completion_ids := window_completion_ids s; window_maintenance_ids := window_maintenance_ids s;
     completed_since_read := completed_since_read s; activity_offset := activity_offset s;
     completion_offset := completion_offset s; maintenance_offset := maintenance_offset s |}.
Definition set_draining (l : list drain) (s : service) : service :=
  {| cfg := cfg s; channel_groups := channel_groups s; now := now s; window := window s; states := states s;
     quota_remaining := quota_remaining s; next_sequence := next_sequence s; jobs := jobs s;
     known_ids := known_ids s; queues := queues s; active := active s; draining := l;
     window_activities := window_activities s; window_resource_work := window_resource_work s;
     window_completion_ids := window_completion_ids s; window_maintenance_ids := window_maintenance_ids s;
     completed_since_read := completed_since_read s; activity_offset := activity_offset s;
     completion_offset := completion_offset s; maintenance_offset := maintenance_offset s |}.
Definition set_quota (d : dict string Z) (s : service) : service :=
  {| cfg := cfg s; channel_groups := channel_groups s; now := now s; window := window s; states := states s;
     quota_remaining := d; next_sequence := next_sequence s; jobs := jobs s; known_ids := known_ids s;
     queues := queues s; active := active s; draining := draining s; window_activities := window_activities s;
     window_resource_work := window_resource_work s; window_completion_ids := window_completion_ids s;
     window_maintenance_ids := window_maintenance_ids s; completed_since_read := completed_since_read s;
     activity_offset := activity_offset s; completion_offset := completion_offset s;
     maintenance_offset := maintenance_offset s |}.
Definition bump_sequence  (s : service) : service :=
  {| cfg := cfg s; channel_groups := channel_groups s; now := now s; window := window s; states := states s;
     quota_remaining := quota_remaining s; next_sequence := next_sequence s + 1; jobs := jobs s;
     known_ids := known_ids s; queues := queues s; active := active s; draining := draining s;
     window_activities := window_activities s; window_resource_work := window_resource_work s;
     window_completion_ids := window_completion_ids s; window_maintenance_ids := window_maintenance_ids s;
     completed_since_read := completed_since_read s; activity_offset := activity_offset s;
     completion_offset := completion_offset s; maintenance_offset := maintenance_offset s |}.
Definition set_now (t : Z) (s : service) : service :=
  {| cfg := cfg s; channel_groups := channel_groups s; now := t; window := window s; states := states s;
     quota_remaining := quota_remaining s; next_sequence := next_sequence s; jobs := jobs s;
     known_ids := known_ids s; queues := queues s; active := active s; draining := draining s;
     window_activities := window_activities s; window_resource_work := window_resource_work s;
     window_completion_ids := window_completion_ids s; window_maintenance_ids := window_maintenance_ids s;
     completed_since_read := completed_since_read s; activity_offset := activity_offset s;
     completion_offset := completion_offset s; maintenance_offset := maintenance_offset s |}.
Definition set_completed (d : dict string Z) (s : service) : service :=
  {| cfg := cfg s; channel_groups := channel_groups s; now := now s; window := window s; states := states s;
     quota_remaining := quota_remaining s; next_sequence := next_sequence s; jobs := jobs s;
     known_ids := known_ids s; queues := queues s; active := active s; draining := draining s;
     window_activities := window_activities s; window_resource_work := window_resource_work s;
     window_completion_ids := window_completion_ids s; window_maintenance_ids := window_maintenance_ids s;
     completed_since_read := d; activity_offset := activity_offset s; completion_offset := completion_offset s;
     maintenance_offset := maintenance_offset s |}.
(** Transferred bytes are logged. *)
Definition log_activity (rows : list activity) (work : dict string Z) (s : service) : service :=
  {| cfg := cfg s; channel_groups := channel_groups s; now := now s; window := window s; states := states s;
     quota_remaining := quota_remaining s; next_sequence := next_sequence s; jobs := jobs s;
     known_ids := known_ids s; queues := queues s; active := active s; draining := draining s;
     window_activities := window_activities s ++ rows; window_resource_work := work;
     window_completion_ids := window_completion_ids s; window_maintenance_ids := window_maintenance_ids s;
     completed_since_read := completed_since_read s; activity_offset := activity_offset s;
     completion_offset := completion_offset s; maintenance_offset := maintenance_offset s |}.
(** A job is done. *)
Definition log_completion (id : string) (m : option string) (s : service) : service :=
  {| cfg := cfg s; channel_groups := channel_groups s; now := now s; window := window s; states := states s;
     quota_remaining := quota_remaining s; next_sequence := next_sequence s; jobs := jobs s;
     known_ids := known_ids s; queues := queues s; active := active s; draining := draining s;
     window_activities := window_activities s; window_resource_work := window_resource_work s;
     window_completion_ids := window_completion_ids s ++ [id];
     window_maintenance_ids := window_maintenance_ids s ++ option_list m;
     completed_since_read := completed_since_read s; activity_offset := activity_offset s;
     completion_offset := completion_offset s; maintenance_offset := maintenance_offset s |}.
(** Everything logged so far has been read. *)
Definition mark_read  (s : service) : service :=
  {| cfg := cfg s; channel_groups := channel_groups s; now := now s; window := window s; states := states s;
     quota_remaining := quota_remaining s; next_sequence := next_sequence s; jobs := jobs s;
     known_ids := known_ids s; queues := queues s; active := active s; draining := draining s;
     window_activities := window_activities s; window_resource_work := window_resource_work s;
     window_completion_ids := window_completion_ids s; window_maintenance_ids := window_maintenance_ids s;
     completed_since_read := completed_since_read s; activity_offset := length (window_activities s);
     completion_offset := length (window_completion_ids s);
     maintenance_offset := length (window_maintenance_ids s) |}.
(** The window and the endpoint states of [begin_window]. *)
Definition open_window (w : Z * Z) (st : dict string endpoint_state) (s : service) : service :=
  {| cfg := cfg s; channel_groups := channel_groups s; now := now s; window := Some w; states := st;
     quota_remaining := quota_remaining s; next_sequence := next_sequence s; jobs := jobs s;
     known_ids := known_ids s; queues := queues s; active := active s; draining := draining s;
     window_activities := window_activities s; window_resource_work := window_resource_work s;
     window_completion_ids := window_completion_ids s; window_maintenance_ids := window_maintenance_ids s;
     completed_since_read := completed_since_read s; activity_offset := activity_offset s;
     completion_offset := completion_offset s; maintenance_offset := maintenance_offset s |}.
(** The fresh quotas and logs of [begin_window]. *)
Definition clear_window (quota : dict string Z) (s : service) : service :=
  {| cfg := cfg s; channel_groups := channel_groups s; now := now s; window := window s; states := states s;
     quota_remaining := quota; next_sequence := next_sequence s; jobs := jobs s; known_ids := known_ids s;
     queues := queues s; active := active s; draining := draining s; window_activities := [];
     window_resource_work := []; window_completion_ids := []; window_maintenance_ids := [];
     completed_since_read := completed_since_read s; activity_offset := 0; completion_offset := 0;
     maintenance_offset := 0 |}.
(** A new job at the end of its queue [q]. *)
Definition add_job (j : job) (q : list string) (s : service) : service :=
  {| cfg := cfg s; channel_groups := channel_groups s; now := now s; window := window s; states := states s;
     quota_remaining := quota_remaining s; next_sequence := next_sequence s + 1;
     jobs := <[job_id j := j]> (jobs s); known_ids := {[job_id j]} ∪ known_ids s;
     queues := dset (queues s) (stack j, channel j) (q ++ [job_id j]); active := active s;
     draining := draining s; window_activities := window_activities s;
     window_resource_work := window_resource_work s; window_completion_ids := window_completion_ids s;
     window_maintenance_ids := window_maintenance_ids s; completed_since_read := completed_since_read s;
     activity_offset := activity_offset s; completion_offset := completion_offset s;
     maintenance_offset := maintenance_offset s |}.

(** A slice of the job is admitted. *)
Definition admitted (t slice : Z) (j : job) : job :=
  {| job_id := job_id j; stack := stack j; channel := channel j; op := op j; job_route := job_route j; arrival_ns := arrival_ns j;
     total_bytes := total_bytes j; completed_bytes := completed_bytes j; unadmitted_bytes := unadmitted_bytes j - slice;
     sequence := sequence j; maintenance_id := maintenance_id j; metadata := metadata j; state := ACTIVE;
     slice_total_bytes := slice; slice_transferred_bytes := 0; rate_credit := 0%Q;
     first_service_ns := Some (default t (first_service_ns j)); last_service_ns := last_service_ns j;
     completion_ns := completion_ns j |}.
(** [bytes] of the slice are transferred at time [t]. *)
Definition transferred (t bytes : Z) (credit : Q) (j : job) : job :=
  {| job_id := job_id j; stack := stack j; channel := channel j; op := op j; job_route := job_route j; arrival_ns := arrival_ns j;
     total_bytes := total_bytes j; completed_bytes := completed_bytes j; unadmitted_bytes := unadmitted_bytes j;
     sequence := sequence j; maintenance_id := maintenance_id j; metadata := metadata j; state := state j;
     slice_total_bytes := slice_total_bytes j;
     slice_transferred_bytes := if bytes <=? 0 then slice_transferred_bytes j else slice_transferred_bytes j + bytes;
     rate_credit := credit; first_service_ns := first_service_ns j;
     last_service_ns := if bytes <=? 0 then last_service_ns j else Some t; completion_ns := completion_ns j |}.
Definition with_state (st : job_state) (j : job) : job :=
  {| job_id := job_id j; stack := stack j; channel := channel j; op := op j; job_route := job_route j; arrival_ns := arrival_ns j;
     total_bytes := total_bytes j; completed_bytes := completed_bytes j; unadmitted_bytes := unadmitted_bytes j;
     sequence := sequence j; maintenance_id := maintenance_id j; metadata := metadata j; state := st;
     slice_total_bytes := slice_total_bytes j; slice_transferred_bytes := slice_transferred_bytes j;
     rate_credit := rate_credit j; first_service_ns := first_service_ns j; last_service_ns := last_service_ns j;
     completion_ns := completion_ns j |}.
(** The slice of [bytes] drained at [t]; the job queues for its next slice or is done. *)
Definition drained (t bytes : Z) (j : job) : job :=
  {| job_id := job_id j; stack := stack j; channel := channel j; op := op j; job_route := job_route j; arrival_ns := arrival_ns j;
     total_bytes := total_bytes j; completed_bytes := completed_bytes j + bytes; unadmitted_bytes := unadmitted_bytes j;
     sequence := sequence j; maintenance_id := maintenance_id j; metadata := metadata j;
     state := if unadmitted_bytes j =? 0 then DONE else QUEUED; slice_total_bytes := 0; slice_transferred_bytes := 0;
     rate_credit := 0%Q; first_service_ns := first_service_ns j; last_service_ns := last_service_ns j;
     completion_ns := if unadmitted_bytes j =? 0 then Some t else completion_ns j |}.

(** ** The rules of the topology service on a job *)

(** The fields that the rules read. *)
Definition as_topology (o : operation) (r : option route) (j : job) : TopologyService.job :=
  {| TopologyService.job_id := job_id j; TopologyService.stack := stack j; TopologyService.channel := channel j;
     TopologyService.op := o; TopologyService.job_route := r; TopologyService.arrival_ns := arrival_ns j;
     TopologyService.total_bytes := total_bytes j; TopologyService.admission_remaining_bytes := unadmitted_bytes j;
     TopologyService.completed_bytes := completed_bytes j; TopologyService.sequence := sequence j;
     TopologyService.foreground := true; TopologyService.external := true;
     TopologyService.maintenance_id := maintenance_id j; TopologyService.metadata := metadata j;
     TopologyService.first_service_ns := first_service_ns j; TopologyService.last_service_ns := last_service_ns j;
     TopologyService.completion_ns := completion_ns j; TopologyService.pending_batches := 0 |}.

(** Rules that do not look at the operation. *)
Definition _endpoints (c : config) (j : job) : result (list string) :=
  TopologyService._endpoints c (as_topology Read (job_route j) j).
Definition _buffer_specs (c : config) (j : job) : result (list (string * Z * Z)) :=
  TopologyService._buffer_specs c (as_topology Read (job_route j) j).

Definition rule_phases (c : config) (j : job) : result (list (string * stage * Z)) :=
  match op j with
  | HbmFill => TopologyService._phase_resources c (as_topology Read (Some BasicFabric.Direct) j)
  | MigrationProgram =>
      let? program := TopologyService._phase_resources c (as_topology Program (job_route j) j) in
      let? media := of_option IndexError (head program) in
      let? read := TopologyService._phase_resources c (as_topology Read (job_route j) j) in
      Ok (media :: tail read)
  | Topology o => TopologyService._phase_resources c (as_topology o (job_route j) j)
  end.

Definition _phase_resources (s : service) (j : job) : result (list (string * stage * Z)) :=
  let? phases := rule_phases (cfg s) j in
  match channel_groups s with
  | None => Ok phases
  | Some groups =>
      let? row := dindex groups (stack j) in
      let? (resource, rate) := dindex row (channel j) in
      match phases with
      | (_, _, coefficient) :: rest => Ok ((resource, TopologyService.media_stage rate, coefficient) :: rest)
      | [] => Raise IndexError
      end
  end.

Definition _buffer_stacks (c : config) (j : job) : result (list string) :=
  if has_route (op j) then let? specs := _buffer_specs c j in Ok ((fun x => x.1.1) <$> specs) else Ok [].

Definition _pipeline_latency_ns (s : service) (j : job) : result Z :=
  let? phases := _phase_resources s j in Ok (zsum ((fun x => BasicFabric.latency_ns x.1.2) <$> phases)).

Definition _slice_drain_latency_ns (s : service) (j : job) : result Z :=
  if unadmitted_bytes j =? 0 then _pipeline_latency_ns s j else Ok 0.

Definition is_maintenance (j : job) : bool :=
  is_maintenance_op (op j) || match maintenance_id j with Some _ => true | None => false end.

(** [_class]: the prefix and the operation or route of its name. *)
Inductive class := MaintenanceClass (o : causal_operation) | ForegroundClass (r : option route).
#[local] Existing Instance BasicFabric.route_eq_dec.
#[export] Instance class_eq_dec : EqDecision class.
Proof. solve_decision. Defined.
Definition _class (j : job) : class := if is_maintenance j then MaintenanceClass (op j) else ForegroundClass (job_route j).

Definition find_job (m : gmap string job) (id : string) : result job := of_option (KeyError id) (m !! id).

(** ** Admission *)

(** [queue] without the jobs that are done. *)
Definition prune_queue (m : gmap string job) (q : list string) : result (list job) :=
  let? js := mapR (find_job m) q in Ok (filter (fun j => state j <> DONE) js).

(** [(arrival, sequence) < (arrival, sequence)]. *)
Definition earlier (a b : job) : bool :=
  (arrival_ns a <? arrival_ns b) || ((arrival_ns a =? arrival_ns b) && (sequence a <? sequence b)).

Definition first_of_class (d : dict class job) (j : job) : dict class job :=
  if bool_decide (state j = QUEUED) then
    match dget d (_class j) with
    | None => dset d (_class j) j
    | Some prior => if earlier j prior then dset d (_class j) j else d
    end
  else d.

Definition heads_of_queue (m : gmap string job) (acc : dict key (list string) * list job) (k : key) :
    result (dict key (list string) * list job) :=
  let '(qs, heads) := acc in
  let? q := dindex qs k in
  let? js := prune_queue m q in
  Ok (dset qs k (job_id <$> js), heads ++ dvals (foldl first_of_class [] js)).

Definition _eligible_heads : M service (list job) :=
  let! s := get in
  let! (qs, heads) := lift (foldM (heads_of_queue (jobs s)) (isort (lex sle sle) (dkeys (queues s))) (queues s, [])) in
  let! _ := put (set_queues qs s) in
  sret (isort (fun a b => sequence a <=? sequence b) heads).

Definition _state_allows (s : service) (j : job) : result bool :=
  let? endpoints := _endpoints (cfg s) j in
  let? sts := mapR (dindex (states s)) endpoints in
  Ok (negb (existsb (TopologyService.stops (is_maintenance j)) sts)).

(** The foreground heads that pass an endpoint. *)
Definition peers (c : config) (heads : list job) (endpoint : string) : result Z :=
  let? rows := mapR (fun other => let? es := _endpoints c other in Ok (bool_decide (endpoint ∈ es) && negb (is_maintenance other))) heads in
  Ok (Z.of_nat (length (filter (fun b => b = true) rows))).

(** The bytes of the next slice of a job. *)
Definition slice_bytes (s : service) (heads : list job) (j : job) (endpoints : list string) : result Z :=
  if is_maintenance j then Ok (unadmitted_bytes j) else
  let? shares := mapR (fun e =>
      let? n := peers (cfg s) heads e in
      let? q := dindex (quota_remaining s) e in
      Ok (q / (work_scale (cfg s) * Z.max 1 n))) endpoints in
  Ok (foldl Z.min (unadmitted_bytes j) shares).

(** [quota[endpoint] -= slice_bytes * scale] for the endpoints of a job. *)
Definition charge (scale slice : Z) (quota : dict string Z) (endpoint : string) : result (dict string Z) :=
  let? q := dindex quota endpoint in Ok (dset quota endpoint (q - slice * scale)).

(** One head of [_activate]. *)
Definition admit_head (heads : list job) (progress : bool) (id : string) : M service bool :=
  let! s := get in
  let! j := lift (find_job (jobs s) id) in
  if bool_decide (state j <> QUEUED) then sret progress else
  let! endpoints := lift (_endpoints (cfg s) j) in
  let! slice := lift (slice_bytes s heads j endpoints) in
  if slice <=? 0 then sret progress else
  let! quota := lift (if is_maintenance j then Ok (quota_remaining s)
                      else foldM (charge (work_scale (cfg s)) slice) endpoints (quota_remaining s)) in
  let! _ := put (set_active ({[id]} ∪ active s) (set_jobs (<[id := admitted (now s) slice j]> (jobs s)) (set_quota quota s))) in
  sret true.

(** One round of the loop of [_activate]; [true] when it goes on. *)
Definition activate_round : M service bool :=
  let! heads := _eligible_heads in
  let! s := get in
  let! rows := lift (mapR (fun j => let? ok := _state_allows s j in Ok (j, (arrival_ns j <=? now s) && ok))
                       (filter (fun j => arrival_ns j <= now s) heads)) in
  let heads := (filter (fun r => r.2 = true) rows).*1 in
  foldS (admit_head heads) (job_id <$> heads) false.

Fixpoint activate_loop (fuel : nat) : M service unit :=
  match fuel with
  | O => raise OutOfFuel
  | S fuel' => let! again := activate_round in if again then activate_loop fuel' else sret tt
  end.

(** A round that goes on makes a queued job active. *)
Definition activate_fuel (s : service) : nat := S (size (jobs s)).

Definition _activate : M service unit :=
  let! s := get in
  match window s with
  | Some (_, stop) => if now s <? stop then activate_loop (activate_fuel s) else sret tt
  | None => sret tt
  end.

(** ** Windows and jobs *)

(** The budget of a stack, checked and scaled, and its state. *)
Definition scaled_budget (s : service) (budgets : dict string pyval) (st : string) : result (string * Z) :=
  let? z := _integer (dget_or budgets st VNone) ("budgets." +:+ st) false in Ok (st, z * work_scale (cfg s)).
Definition checked_state (endpoint_states : dict string pyval) (st : string) : result (string * endpoint_state) :=
  let? o := member TopologyService.state_name TopologyService.STATES (dget_or endpoint_states st VNone) in
  let? e := of_option (ValueError "unknown endpoint state") o in Ok (st, e).

Definition begin_window (start_ns end_ns : pyval) (budgets endpoint_states : dict string pyval) : M service (Z * Z) :=
  let! s := get in
  let! start := lift (_integer start_ns "start_ns" false) in
  let! stop := lift (_integer end_ns "end_ns" false) in
  let! _ := require ((start =? now s) && (start <? stop)) (ValueError "control window must begin at current service time") in
  let! _ := require (match window s with Some (_, e) => now s =? e | None => true end)
              (ValueError "previous control window has not reached its boundary") in
  let stacks := dkeys (channels (cfg s)) in
  let! _ := require (same_set (dkeys budgets) stacks && same_set (dkeys endpoint_states) stacks)
              (ValueError "budgets and endpoint_states must exactly cover stacks") in
  let! sts := lift (mapR (checked_state endpoint_states) stacks) in
  let! _ := put (open_window (start, stop) sts s) in
  let! quota := lift (mapR (scaled_budget s budgets) stacks) in
  let! _ := modify (clear_window quota) in
  let! _ := _activate in
  sret (start, stop).

Definition REQUIRED : list string := ["job_id"; "stack"; "channel"; "operation"; "bytes"; "arrival_ns"].
Definition OPTIONAL : list string := ["route"; "maintenance_id"; "metadata"].

Definition new_id (s : service) (v : pyval) : result string :=
  match v with
  | VStr id =>
      let? _ := ensure (negb (String.eqb id "") && negb (bool_decide (id ∈ known_ids s)))
                  (ValueError "job_id must be globally unique and nonempty") in Ok id
  | _ => Raise (ValueError "job_id must be globally unique and nonempty")
  end.

Definition known_channel (c : config) (raw_stack raw_channel : pyval) : result key :=
  let error := ValueError "job names unknown stack/channel" in
  let? st := TopologyService.as_key raw_stack in
  let? st := of_option error st in
  let? row := of_option error (dget (channels c) st) in
  let? ch := TopologyService.as_key raw_channel in
  let? ch := of_option error ch in
  let? _ := ensure (dmem row ch) error in
  Ok (st, ch).

(** The route of a new job. *)
Definition route_of (c : config) (st ch : string) (o : causal_operation) (raw_route : pyval) : result (option route) :=
  match o with
  | HbmFill =>
      let? _ := ensure (TopologyService.is_hbm c st) (ValueError "hbm_fill requires an HBM destination stack") in Ok None
  | MigrationProgram =>
      let? _ := ensure (TopologyService.is_hbf c st) (ValueError "migration_program requires an HBF destination stack") in
      let? r := TopologyService._validate_route c st ch raw_route in Ok (Some r)
  | Topology _ =>
      let? r := TopologyService._validate_route c st ch raw_route in
      Ok (if has_route o then Some r else None)
  end.

Definition new_job (s : service) (stop : Z) (raw : pyval) : result job :=
  let error := ValueError "job has missing or unknown fields" in
  let? d := match raw with VDict d => Ok d | _ => Raise error end in
  let? _ := ensure (forallb (dmem d) REQUIRED && forallb (fun k => bool_decide (k ∈ REQUIRED ++ OPTIONAL)) (dkeys d)) error in
  let field k := dget_or d k VNone in
  let? id := new_id s (field "job_id") in
  let? (st, ch) := known_channel (cfg s) (field "stack") (field "channel") in
  let? o := member causal_name CAUSAL_OPERATIONS (field "operation") in
  let? o := of_option (ValueError "unsupported operation") o in
  let? arrival := _integer (field "arrival_ns") "arrival_ns" false in
  let? _ := ensure ((now s <=? arrival) && (arrival <? stop))
              (ValueError "job arrival must lie between current time and control-window end") in
  let? default_route := TopologyService._default_route (cfg s) (VStr st) (VStr ch) in
  let? r := route_of (cfg s) st ch o (dget_or d "route" (VStr (route_name default_route))) in
  let? md := match dget_or d "metadata" (VDict []) with
             | VDict m => Ok (VDict m)
             | _ => Raise (ValueError "metadata must be an object")
             end in
  let? m := match field "maintenance_id" with
            | VNone => Ok None
            | VStr m => let? _ := ensure (negb (String.eqb m "")) (ValueError "maintenance_id must be a nonempty string") in Ok (Some m)
            | _ => Raise (ValueError "maintenance_id must be a nonempty string")
            end in
  let? n := _integer (field "bytes") "bytes" true in
  Ok {| job_id := id; stack := st; channel := ch; op := o; job_route := r; arrival_ns := arrival; total_bytes := n;
        completed_bytes := 0; unadmitted_bytes := n; sequence := next_sequence s; maintenance_id := m; metadata := md;
        state := QUEUED; slice_total_bytes := 0; slice_transferred_bytes := 0; rate_credit := 0%Q;
        first_service_ns := None; last_service_ns := None; completion_ns := None |}.

Definition submit_one (raw : pyval) : M service string :=
  let! s := get in
  let! stop := lift (match window s with Some (_, e) => Ok e | None => Raise (TypeError "'>=' not supported") end) in
  let! j := lift (new_job s stop raw) in
  let! q := lift (dindex (queues s) (stack j, channel j)) in
  let! _ := put (add_job j q s) in
  sret (job_id j).

Definition submit_jobs (raws : list pyval) : M service (list string) :=
  let! s := get in
  let! _ := require (match window s with Some _ => true | None => false end) (RuntimeError "begin_window is required before submit_jobs") in
  let! ids := mapS submit_one raws in
  let! _ := _activate in
  sret ids.

(** ** Rates *)

(** [sorted(self._active)]. *)
Definition active_ids (s : service) : list string := isort sle (elements (active s)).

(** The row of a job in [coefficients], and its entries in [resource_rates]. *)
Definition rate_row (s : service) (acc : dict string (dict string Z) * dict string Q) (j : job) :
    result (dict string (dict string Z) * dict string Q) :=
  let '(coefficients, resource_rates) := acc in
  let? phases := _phase_resources s j in
  Ok (dset coefficients (job_id j) (foldl (fun d x => dset d x.1.1 x.2) [] phases),
      foldl (fun d x => dset d x.1.1 (inject_Z (BasicFabric.bandwidth_bytes_per_s x.1.2 * work_scale (cfg s)))) resource_rates phases).

Definition _rates (s : service) : result (dict string Q) :=
  let? js := mapR (find_job (jobs s)) (active_ids s) in
  match js with
  | [] => Ok []
  | _ =>
      let? (coefficients, resource_rates) := foldM (rate_row s) js ([], []) in
      MaxMinRates.allocate coefficients resource_rates (job_id <$> js)
  end.

(** ** Event times *)

Definition remaining (j : job) : Q := (inject_Z (slice_total_bytes j - slice_transferred_bytes j) - rate_credit j)%Q.

Definition finish_time (s : service) (j : job) (rate : Q) : Z :=
  now s + Z.max 1 (_ceil_fraction (Qred (remaining j * inject_Z NS_PER_SECOND / rate))).

(** [rate <= 0]. *)
Definition stalled (rate : Q) : bool := Qle_bool rate 0.

Definition transfer_times (s : service) (rates : dict string Q) : result (list Z) :=
  mapR (fun '(id, rate) => let? j := find_job (jobs s) id in Ok (finish_time s j rate)) (filter (fun x => stalled x.2 = false) rates).

Definition _next_transfer_finish (s : service) (rates : dict string Q) : result (option Z) :=
  let? times := transfer_times s rates in Ok (zmin_list times).

(** The arrivals that are still to come. *)
Definition arrivals (s : service) : list Z :=
  arrival_ns <$> filter (fun j => state j = QUEUED /\ now s < arrival_ns j) ((map_to_list (jobs s)).*2).

(** [min(...)] of a list that may be empty. *)
Definition min_of (l : list Z) : result Z := of_option (ValueError "min() arg is an empty sequence") (zmin_list l).

Definition drain_time (d : drain) : Z := d.1.1.1.

Definition next_completion_ns (s : service) : result (option Z) :=
  let? rates := _rates s in
  let? _ := mapR (fun x => find_job (jobs s) x.1) rates in
  let? transfers := transfer_times s rates in
  match zmin_list ((drain_time <$> draining s) ++ transfers ++ arrivals s) with
  | None => Ok None
  | Some earliest =>
      let? rows := mapR (fun d => let? j := find_job (jobs s) d.1.2 in Ok (drain_time d, unadmitted_bytes j))
                     (filter (fun d => drain_time d = earliest) (draining s)) in
      Ok (zmin_list ((filter (fun r => r.2 = 0) rows).*1))
  end.

Definition next_event_ns (s : service) : result (option Z) :=
  match window s with
  | None => Ok None
  | Some (_, stop) =>
      let? rates := _rates s in
      let? transfer := _next_transfer_finish s rates in
      let values := stop :: option_list (drain_time <$> head (draining s)) ++ option_list transfer ++ option_list (zmin_list (arrivals s)) in
      let? t := min_of (filter (fun v => now s <= v) values) in
      Ok (Some t)
  end.

(** ** Progress *)

(** The rows of the two added operations: phase, resource, partner. *)
Definition own_phases (c : config) (j : job) : result (list (string * string * option string)) :=
  let media := TopologyService.media_name (stack j) (channel j) in
  let base := TopologyService.base_name (stack j) in
  let link := TopologyService.gpu_link_name (stack j) in
  match op j with
  | HbmFill => Ok [("media_fill", media, None); ("hbm_base_fill", base, None); ("gpu_link_fill", link, None)]
  | _ =>
      let common := [("media_program", media, None); ("destination_base", base, None);
                     ("destination_fill", TopologyService.fill_name (stack j), None)] in
      match job_route j with
      | Some BasicFabric.Direct => Ok (common ++ [("reverse_gpu_link", link, None)])
      | _ =>
          let? row := dindex (BasicFabric.cfg_hbf (fabric c)) (stack j) in
          let partner := BasicFabric.pair row in
          let name := default "None" partner in
          Ok (common ++ [("reverse_relay", TopologyService.relay_name (stack j) name, partner);
                         ("partner_gpu_receive", TopologyService.gpu_link_name name, partner)])
      end
  end.

Definition activity_rows (c : config) (j : job) (bytes t0 t1 : Z) : result (list activity) :=
  match op j with
  | Topology o =>
      let? rows := TopologyService._activity_rows c (as_topology o (job_route j) j) bytes t0 t1 in Ok (RuleRow <$> rows)
  | _ =>
      let? rows := own_phases c j in
      Ok ((fun '(phase, resource, partner) => OwnRow {|
            oa_phase := phase; oa_resource := resource; oa_partner := partner; oa_operation := causal_name (op j); oa_stack := stack j;
            oa_channel := channel j; oa_bytes := bytes; oa_route := job_route j; oa_start := t0; oa_end := t1 |}) <$> rows)
  end.

Definition add_work (bytes : Z) (work : dict string Z) (phase : string * stage * Z) : dict string Z :=
  dset work phase.1.1 (dget_or work phase.1.1 0 + bytes * phase.2).

(** The exact amount that a job has transferred after [duration], and the whole
    bytes of it. *)
Definition exact_amount (j : job) (rate : Q) (duration : Z) : Q :=
  Qred (rate_credit j + rate * inject_Z duration / inject_Z NS_PER_SECOND).
Definition integer_bytes (j : job) (exact : Q) : Z :=
  Z.min (slice_total_bytes j - slice_transferred_bytes j) (floor_fraction exact).

Definition progress_job (target : Z) (item : string * Q) : M service unit :=
  let '(id, rate) := item in
  let! s := get in
  let! j := lift (find_job (jobs s) id) in
  let exact := exact_amount j rate (target - now s) in
  let bytes := integer_bytes j exact in
  let j := transferred target bytes (Qred (exact - inject_Z bytes)) j in
  let! _ := put (set_jobs (<[id := j]> (jobs s)) s) in
  if bytes <=? 0 then sret tt else
  let! rows := lift (activity_rows (cfg s) j bytes (now s) target) in
  let! _ := modify (fun s => log_activity rows (window_resource_work s) s) in
  let! phases := lift (_phase_resources s j) in
  modify (fun s => log_activity [] (foldl (add_work bytes) (window_resource_work s) phases) s).

Definition _progress (target : Z) (rates : dict string Q) : M service unit :=
  let! s := get in
  if target - now s <=? 0 then sret tt else forM rates (progress_job target).

(** ** Completion *)

Definition finish_transfer (id : string) : M service unit :=
  let! s := get in
  let! j := lift (find_job (jobs s) id) in
  if negb (slice_transferred_bytes j =? slice_total_bytes j) then sret tt else
  let j := with_state DRAINING j in
  let! _ := put (set_active (active s ∖ {[id]}) (set_jobs (<[id := j]> (jobs s)) s)) in
  let! latency := lift (_slice_drain_latency_ns s j) in
  modify (fun s => bump_sequence (set_draining
    (sinsert drain_le (now s + latency, next_sequence s, id, slice_total_bytes j) (draining s)) s)).

Definition finish_drain (d : drain) : M service unit :=
  let '(t, _, id, bytes) := d in
  let! s := get in
  let! j := lift (find_job (jobs s) id) in
  let! _ := put (set_completed (dset (completed_since_read s) id (dget_or (completed_since_read s) id 0 + bytes))
                  (set_jobs (<[id := drained t bytes j]> (jobs s)) s)) in
  if unadmitted_bytes j =? 0 then modify (log_completion id (maintenance_id j)) else sret tt.

Fixpoint drain_loop (l : list drain) : M service unit :=
  match l with
  | [] => sret tt
  | d :: rest =>
      let! s := get in
      if drain_time d <=? now s then
        let! _ := modify (set_draining rest) in
        let! _ := finish_drain d in
        drain_loop rest
      else sret tt
  end.

Definition _finish_drains : M service unit := let! s := get in drain_loop (draining s).

(** ** Receipts *)

Record bank_bound := { bank_count : Z; bank_capacity_bytes : Z; maximum_occupancy_bytes : Z; active_flow_count : Z }.

(** The bank count and capacity of a stack. *)
Definition banks (f : BasicFabric.config) (st : string) : option (Z * Z) :=
  match dget (BasicFabric.cfg_hbf f) st with
  | Some row => Some (BasicFabric.hbf_bank_count row, BasicFabric.hbf_bank_capacity_bytes row)
  | None => (fun row => (BasicFabric.hbm_bank_count row, BasicFabric.hbm_bank_capacity_bytes row)) <$> dget (BasicFabric.cfg_hbm f) st
  end.

Definition stack_bound (s : service) (st : string) (bank : Z * Z) : result bank_bound :=
  let running := filter (fun j => state j = ACTIVE) ((map_to_list (jobs s)).*2) in
  let? rows := mapR (fun j => let? stacks := _buffer_stacks (cfg s) j in Ok (j, bool_decide (st ∈ stacks))) running in
  let passing := (filter (fun r => r.2 = true) rows).*1 in
  let demand := zsum ((fun j => Z.min (slice_total_bytes j - slice_transferred_bytes j) bank.2) <$> passing) in
  Ok {| bank_count := bank.1; bank_capacity_bytes := bank.2; maximum_occupancy_bytes := Z.min (bank.1 * bank.2) demand;
        active_flow_count := Z.of_nat (length passing) |}.

Definition _buffer_bounds (s : service) : result (dict string bank_bound) :=
  mapR (fun '(st, bank) => let? b := stack_bound s st bank in Ok (st, b))
    (omap (fun st => (fun bank => (st, bank)) <$> banks (fabric (cfg s)) st) (dkeys (channels (cfg s)))).

Record progress_row := {
  pr_job : job; served_since_last_advance_bytes : Z; cumulative_served_bytes : Z; remaining_bytes : Z; inflight_transferred_bytes : Z }.

(** [_progress_rows]; the fields that a row copies from the job are left in it. *)
Definition _progress_rows (s : service) : list progress_row :=
  (fun j => {| pr_job := j; served_since_last_advance_bytes := dget_or (completed_since_read s) (job_id j) 0;
               cumulative_served_bytes := completed_bytes j; remaining_bytes := total_bytes j - completed_bytes j;
               inflight_transferred_bytes :=
                 match state j with ACTIVE | DRAINING => slice_transferred_bytes j | _ => 0 end |})
  <$> isort (fun a b => sequence a <=? sequence b) ((map_to_list (jobs s)).*2).

Definition _retire_completed (ids : list string) (s : service) : service :=
  match ids with
  | [] => s
  | _ => set_jobs (filter (fun x => x.1 ∉ ids) (jobs s))
           (set_queues ((fun '(k, q) => (k, filter (fun id => id ∉ ids) q)) <$> queues s) s)
  end.

Record receipt := {
  start_ns : Z; end_ns : Z; control_window : option (Z * Z); activities : list activity; resource_work_units_scaled : dict string Z;
  endpoint_quota_remaining_scaled : dict string Z; buffer_occupancy_bounds : dict string bank_bound;
  job_progress : list progress_row; completion_ids : list string; maintenance_completion_ids : list string;
  r_next_completion_ns : option Z; r_next_event_ns : option Z; window_complete : bool }.

(** ** Advancing *)

Section advance.
(** The order in which Python iterates over a set of identifiers. *)
Variable set_order : gset string -> list string.

Definition _finish_transfers : M service unit := let! s := get in forM (set_order (active s)) finish_transfer.

(** The times at which the state can change next. *)
Definition candidates (s : service) (horizon : Z) (transfer : option Z) : list Z :=
  horizon :: option_list transfer ++ option_list (drain_time <$> head (draining s)) ++ option_list (zmin_list (arrivals s)).

(** One iteration of the loop of [advance_to]; [Some] when the loop is left. *)
Definition advance_round (horizon : Z) : M service (option unit) :=
  let! s := get in
  if horizon <=? now s then sret (Some tt) else
  let! _ := _finish_drains in
  let! _ := _activate in
  let! s := get in
  let! rates := lift (_rates s) in
  let! transfer := lift (_next_transfer_finish s rates) in
  let times := candidates s horizon transfer in
  let! target := lift (min_of (filter (fun v => now s <= v) times)) in
  let! target :=
    if target =? now s then
      let! _ := _finish_transfers in
      let! _ := _finish_drains in
      let! _ := _activate in
      sret (zmin_list (filter (fun v => now s < v) times))
    else sret (Some target) in
  match target with
  | None => sret (Some tt)
  | Some target =>
      let! _ := _progress target rates in
      let! _ := modify (set_now target) in
      let! _ := _finish_transfers in
      sret None
  end.

(** Every iteration moves the time forward. *)
Definition advance_fuel (s : service) (horizon : Z) : positive := Z.to_pos (horizon - now s + 1).

(** The receipt of an advance that began at [start]. *)
Definition make_receipt (start : Z) : M service receipt :=
  let! s := get in
  let acts := drop (activity_offset s) (window_activities s) in
  let ids := drop (completion_offset s) (window_completion_ids s) in
  let maintenance := drop (maintenance_offset s) (window_maintenance_ids s) in
  let! _ := modify mark_read in
  let! s := get in
  let! bounds := lift (_buffer_bounds s) in
  let! completion := lift (next_completion_ns s) in
  let! event := lift (next_event_ns s) in
  let! _ := modify (_retire_completed ids) in
  sret {| start_ns := start; end_ns := now s; control_window := window s; activities := acts;
          resource_work_units_scaled := window_resource_work s; endpoint_quota_remaining_scaled := quota_remaining s;
          buffer_occupancy_bounds := bounds; job_progress := _progress_rows s; completion_ids := ids;
          maintenance_completion_ids := maintenance; r_next_completion_ns := completion; r_next_event_ns := event;
          window_complete := match window s with Some (_, stop) => now s =? stop | None => false end |}.

Definition advance_to (horizon_ns : pyval) : M service receipt :=
  let! s := get in
  let! stop := lift (match window s with Some (_, e) => Ok e | None => Raise (RuntimeError "begin_window is required before advance_to") end) in
  let! horizon := lift (_integer horizon_ns "horizon_ns" false) in
  let! _ := require ((now s <=? horizon) && (horizon <=? stop)) (ValueError "horizon must lie within the current control window") in
  let! _ := put (set_completed [] s) in
  let! _ := bloop (advance_fuel s horizon) (advance_round horizon) in
  let! _ := _finish_drains in
  let! _ := _activate in
  make_receipt (now s).
End advance.
End CausalService.
