(* ===== verification/CausalInvariant.v ===== *)
(** * CausalInvariant: correctness of the event-driven topology service

    The invariant of [CausalService] and its theorems: advancing always reaches
    its horizon, bytes are accounted for at every event, quotas are never
    overdrawn, completions are reported once, and the integer bytes that are
    emitted follow the exact fluid rates. *)

From Stdlib Require Import QArith Qround Lqa.
From S2P Require Import Prelude ProgramLogic BasicFabric TopologyConfig TopologyService TopologyAllocation TopologyInvariant.
From S2P Require Import MaxMinRates CausalService.

Module CausalInvariant.
Import TopologyConfig ProgramLogic CausalService.
#[local] Open Scope Z_scope.

(** ** Jobs that fit their configuration *)

Record route_ok (c : config) (j : job) : Prop := {
  rk_rules : TopologyAllocation.job_ok c (as_topology Erase (job_route j) j);
  rk_route : match op j with
             | HbmFill => job_route j = None
             | MigrationProgram => is_Some (job_route j)
             | Topology o => is_read_operation o = true -> is_Some (job_route j)
             end }.

Definition groups_ok (c : config) (g : option (dict string (dict string (string * Z)))) : Prop :=
  forall groups, g = Some groups -> forall st row ch rate, dget (channels c) st = Some row -> dget row ch = Some rate ->
    exists rows id bw, dget groups st = Some rows /\ dget rows ch = Some (id, bw) /\ 0 < bw.

Lemma route_ok_as c j o r : route_ok c j -> (is_read_operation o = true -> is_Some r) ->
  (r = Some BasicFabric.Relay -> job_route j = Some BasicFabric.Relay) -> TopologyAllocation.job_ok c (as_topology o r j).
Proof. intros [[H1 _ H3] _] Hr Hrel. constructor; cbn in *; auto. Qed.

(** The phases of every job: positive coefficients and bandwidths. *)
Definition phases_ok (ph : list (string * stage * Z)) : Prop :=
  ph <> [] /\ Forall (fun p => 0 < p.2 /\ 0 <= BasicFabric.latency_ns p.1.2 /\ 0 < BasicFabric.bandwidth_bytes_per_s p.1.2) ph.

Lemma rule_phases_total c j : cfg_ok c -> route_ok c j -> exists ph, rule_phases c j = Ok ph /\ phases_ok ph.
Proof.
  intros Hc Hj. unfold rule_phases. pose proof (rk_route _ _ Hj) as Hr. destruct (op j) as [o| |].
  - destruct (TopologyAllocation.phase_resources_stages c (as_topology o (job_route j) j) Hc) as (m & ph & -> & Hf).
    { by apply route_ok_as. } eexists. split; [done|]. by split.
  - destruct (TopologyAllocation.phase_resources_stages c (as_topology Read (Some BasicFabric.Direct) j) Hc) as (m & ph & -> & Hf).
    { apply route_ok_as; [done|eauto|done]. } eexists. split; [done|]. by split.
  - destruct (TopologyAllocation.phase_resources_stages c (as_topology Program (job_route j) j) Hc) as (m & ph & -> & Hf).
    { by apply route_ok_as. }
    destruct (TopologyAllocation.phase_resources_stages c (as_topology Read (job_route j) j) Hc) as (m' & ph' & -> & Hf').
    { by apply route_ok_as. }
    cbn [rbind head of_option tail]. eexists. split; [reflexivity|]. split; [discriminate|]. apply Forall_cons in Hf as [Hm _], Hf' as [_ Hf']. by apply Forall_cons.
Qed.

Lemma phases_total s j : cfg_ok (cfg s) -> groups_ok (cfg s) (channel_groups s) -> route_ok (cfg s) j ->
  exists ph, _phase_resources s j = Ok ph /\ phases_ok ph.
Proof.
  intros Hc Hg Hj. unfold _phase_resources. destruct (rule_phases_total _ _ Hc Hj) as (ph & -> & Hne & Hph). cbn [rbind].
  destruct (channel_groups s) as [groups|] eqn:Eg; [|by exists ph].
  destruct (TopologyAllocation.jo_channel _ _ (rk_rules _ _ Hj)) as (row & rate & Hrow & Hrate). cbn in Hrow, Hrate.
  destruct (Hg groups eq_refl _ _ _ _ Hrow Hrate) as (rows & id & bw & Hrows & Hid & Hbw).
  rewrite (proj2 (dindex_Ok _ _ _) Hrows). cbn [rbind]. rewrite (proj2 (dindex_Ok _ _ _) Hid). cbn [rbind].
  destruct ph as [|[[r st] n] ph]; [done|]. eexists. split; [done|]. split; [done|]. apply Forall_cons in Hph as [Hx Hph].
  constructor; [|done]. cbn in *. lia.
Qed.

Lemma endpoints_of c j : cfg_ok c -> route_ok c j -> exists es, _endpoints c j = Ok es /\ forall e, e ∈ es -> e ∈ dkeys (channels c).
Proof. intros Hc Hj. exact (TopologyAllocation.endpoints_total c _ Hc (rk_rules _ _ Hj)). Qed.

Lemma buffer_stacks_total c j : cfg_ok c -> route_ok c j -> exists l, _buffer_stacks c j = Ok l.
Proof.
  intros Hc Hj. unfold _buffer_stacks. destruct (has_route (op j)); [|eauto].
  destruct (TopologyInvariant.buffer_specs_total c _ Hc (rk_rules _ _ Hj)) as (specs & E). unfold _buffer_specs.
  change (TopologyService._buffer_specs c (as_topology Read (job_route j) j))
    with (TopologyService._buffer_specs c (as_topology Erase (job_route j) j)). rewrite E. cbn [rbind]. eauto.
Qed.

Lemma activity_rows_ok c j n t0 t1 : cfg_ok c -> route_ok c j -> exists rows, activity_rows c j n t0 t1 = Ok rows.
Proof.
  intros Hc Hj. unfold activity_rows. pose proof (rk_route _ _ Hj) as Hr. destruct (op j) as [o| |] eqn:Eo.
  - destruct (TopologyInvariant.activity_rows_total c (as_topology o (job_route j) j) n t0 t1 Hc) as (rows & ->).
    { by apply route_ok_as. } cbn [rbind]. eauto.
  - unfold own_phases. rewrite Eo. cbn [rbind]. eauto.
  - unfold own_phases. rewrite Eo. destruct Hr as [r Hr]. rewrite Hr. destruct r; [cbn [rbind]; eauto|].
    destruct (TopologyAllocation.jo_relay _ _ (rk_rules _ _ Hj) Hr) as (row & p & Hrow & _). cbn in Hrow.
    rewrite (proj2 (dindex_Ok _ _ _) Hrow). cbn [rbind]. eauto.
Qed.

Lemma drain_latency_total s j : cfg_ok (cfg s) -> groups_ok (cfg s) (channel_groups s) -> route_ok (cfg s) j ->
  exists n, _slice_drain_latency_ns s j = Ok n /\ 0 <= n.
Proof.
  intros Hc Hg Hj. unfold _slice_drain_latency_ns, _pipeline_latency_ns. destruct (unadmitted_bytes j =? 0); [|exists 0; done].
  destruct (phases_total s j Hc Hg Hj) as (ph & -> & _ & Hph). cbn [rbind]. eexists. split; [done|]. apply zsum_nonneg.
  rewrite Forall_fmap. eapply Forall_impl; [exact Hph|]. cbn. tauto.
Qed.

(** ** The invariant *)

Definition drain_ids (s : service) : list string := (fun d => d.1.2) <$> draining s.
(** The completions that no receipt has reported yet. *)
Definition pending (s : service) : list string := drop (completion_offset s) (window_completion_ids s).

(** Where an identifier is registered, and where it should be. *)
Definition marks (s : service) (id : string) : bool * bool * bool :=
  (bool_decide (id ∈ active s), bool_decide (id ∈ drain_ids s), bool_decide (id ∈ pending s)).
Definition expect (o : option job_state) : bool * bool * bool :=
  match o with
  | Some ACTIVE => (true, false, false)
  | Some DRAINING => (false, true, false)
  | Some DONE => (false, false, true)
  | _ => (false, false, false)
  end.

(** The bytes of a job: served, in the current slice, and not admitted yet. *)
Record job_inv (c : config) (id : string) (j : job) : Prop := {
  ji_id : job_id j = id;
  ji_route : route_ok c j;
  ji_bytes : total_bytes j = completed_bytes j + slice_total_bytes j + unadmitted_bytes j;
  ji_nonneg : 0 <= completed_bytes j /\ 0 <= unadmitted_bytes j /\ 0 < total_bytes j;
  ji_slice : 0 <= slice_transferred_bytes j <= slice_total_bytes j;
  ji_state : match state j with
             | QUEUED => 0 < unadmitted_bytes j /\ slice_total_bytes j = 0
             | ACTIVE => 0 < slice_total_bytes j /\ (0 <= rate_credit j)%Q
                         /\ (slice_transferred_bytes j < slice_total_bytes j -> (rate_credit j < 1)%Q)
             | DRAINING => 0 < slice_total_bytes j /\ slice_transferred_bytes j = slice_total_bytes j
             | DONE => unadmitted_bytes j = 0 /\ slice_total_bytes j = 0
             end }.

Definition quota_ok (s : service) : Prop := window s <> None -> forall st, st ∈ dkeys (channels (cfg s)) ->
  is_Some (dget (states s) st) /\ exists q, dget (quota_remaining s) st = Some q /\ 0 <= q.

Record drains_ok (s : service) : Prop := {
  do_sorted : sorted drain_le (draining s);
  do_once : NoDup (drain_ids s);
  do_bytes : forall d j, d ∈ draining s -> jobs s !! d.1.2 = Some j -> slice_total_bytes j = d.2 }.

Record causal_inv (s : service) : Prop := {
  ci_cfg : cfg_ok (cfg s);
  ci_groups : groups_ok (cfg s) (channel_groups s);
  ci_jobs : forall id j, jobs s !! id = Some j -> job_inv (cfg s) id j;
  ci_known : forall id, is_Some (jobs s !! id) -> id ∈ known_ids s;
  ci_marks : forall id, marks s id = expect (state <$> jobs s !! id);
  ci_keys : dkeys (queues s) = TopologyService.channel_keys (cfg s);
  ci_queued : forall k q id, dget (queues s) k = Some q -> id ∈ q -> exists j, jobs s !! id = Some j /\ (stack j, channel j) = k;
  ci_waiting : forall id j, jobs s !! id = Some j -> state j <> DONE ->
    exists q, dget (queues s) (stack j, channel j) = Some q /\ id ∈ q;
  ci_drains : drains_ok s;
  ci_offset : (completion_offset s <= length (window_completion_ids s))%nat;
  ci_pending : NoDup (pending s);
  ci_window : forall w, window s = Some w -> now s <= w.2;
  ci_quota : quota_ok s }.

(** No transferred slice is left among the active ones. *)
Definition settled (s : service) : Prop := forall id j, jobs s !! id = Some j -> state j = ACTIVE ->
  slice_transferred_bytes j < slice_total_bytes j.

(** The bytes of foreground jobs that still have to be charged to an endpoint,
    and what the quota of the endpoint would be after all of them. *)
Definition passes (c : config) (e : string) (j : job) : bool :=
  match _endpoints c j with Ok es => bool_decide (e ∈ es) | Raise _ => false end.
Definition uncharged (c : config) (e : string) (j : job) : Z :=
  if negb (is_maintenance j) && passes c e j then unadmitted_bytes j else 0.
Definition balance (s : service) (e : string) : Z :=
  dget_or (quota_remaining s) e 0 - work_scale (cfg s) * msum (fun _ j => uncharged (cfg s) e j) (jobs s).

(** ** What an operation leaves alone *)

Record evolves (j j' : job) : Prop := {
  ev_static : job_id j' = job_id j /\ stack j' = stack j /\ channel j' = channel j /\ op j' = op j /\ job_route j' = job_route j
    /\ arrival_ns j' = arrival_ns j /\ total_bytes j' = total_bytes j /\ sequence j' = sequence j
    /\ maintenance_id j' = maintenance_id j;
  ev_bytes : completed_bytes j <= completed_bytes j' /\ unadmitted_bytes j' <= unadmitted_bytes j }.

#[export] Instance evolves_preorder : PreOrder evolves.
Proof.
  split; [done|]. intros a b d [(?&?&?&?&?&?&?&?&?) []] [(?&?&?&?&?&?&?&?&?) []].
  constructor; [split_and!; congruence|lia].
Qed.

Record keeps (s s' : service) : Prop := {
  kp_cfg : cfg s' = cfg s; kp_groups : channel_groups s' = channel_groups s; kp_window : window s' = window s;
  kp_states : states s' = states s; kp_known : known_ids s' = known_ids s;
  kp_jobs : forall id, option_Forall2 evolves (jobs s !! id) (jobs s' !! id) }.

#[export] Instance keeps_preorder : PreOrder keeps.
Proof.
  split.
  - intros s. constructor; [done..|]. intros id. reflexivity.
  - intros a b d [] []. constructor; [congruence..|]. intros id. etrans; eauto.
Qed.

(** An operation at one moment: the invariant is kept, the clock stands still. *)
Record steps (s s' : service) : Prop := {
  st_inv : causal_inv s'; st_keeps : keeps s s'; st_now : now s' = now s; st_settled : settled s -> settled s';
  st_balance : forall e, balance s' e = balance s e }.

Lemma steps_refl s : causal_inv s -> steps s s.
Proof. by constructor. Qed.
Lemma steps_trans s1 s2 s3 : steps s1 s2 -> steps s2 s3 -> steps s1 s3.
Proof. intros [] []. constructor; [done|by etrans|congruence|auto|]. intros e. etrans; eauto. Qed.

Lemma evolves_route c j j' : evolves j j' -> route_ok c j -> route_ok c j'.
Proof.
  intros [(_ & Hs & Hc & Ho & Hr & _) _] [[H1 H2 H3] H4]. constructor; [|by rewrite Ho, Hr].
  constructor; cbn in *; rewrite ?Hs, ?Hc, ?Hr; auto.
Qed.

Lemma evolves_endpoints c j j' : evolves j j' -> _endpoints c j' = _endpoints c j.
Proof. intros [(_ & Hs & _ & _ & Hr & _) _]. unfold _endpoints, TopologyService._endpoints. cbn. by rewrite Hs, Hr. Qed.
Lemma evolves_maintenance j j' : evolves j j' -> is_maintenance j' = is_maintenance j.
Proof. intros [(_ & _ & _ & Ho & _ & _ & _ & _ & Hm) _]. unfold is_maintenance. by rewrite Ho, Hm. Qed.
Lemma evolves_uncharged c e j j' : evolves j j' -> uncharged c e j' =
  if negb (is_maintenance j) && passes c e j then unadmitted_bytes j' else 0.
Proof. intros H. unfold uncharged, passes. by rewrite (evolves_endpoints _ _ _ H), (evolves_maintenance _ _ H). Qed.

Lemma keeps_job s s' id j : keeps s s' -> jobs s' !! id = Some j -> exists j0, jobs s !! id = Some j0 /\ evolves j0 j.
Proof. intros Hk Hj. pose proof (kp_jobs _ _ Hk id) as H. rewrite Hj in H. inversion H. eauto. Qed.

Lemma keeps_job_fwd s s' id j : keeps s s' -> jobs s !! id = Some j -> exists j', jobs s' !! id = Some j' /\ evolves j j'.
Proof. intros Hk Hj. pose proof (kp_jobs _ _ Hk id) as H. rewrite Hj in H. inversion H. eauto. Qed.

(** One job changes. *)
Section update.
Context (s s' : service) (id : string) (j j' : job).
Context (Hi : causal_inv s) (Hj : jobs s !! id = Some j) (Hjobs : jobs s' = <[id := j']> (jobs s)).
Context (Hev : evolves j j') (Hji : job_inv (cfg s) id j') (Hlive : state j <> DONE).
Context (Hframe : cfg s' = cfg s /\ channel_groups s' = channel_groups s /\ window s' = window s /\ states s' = states s
                  /\ known_ids s' = known_ids s /\ queues s' = queues s /\ now s' = now s).
Context (Hmark : marks s' id = expect (Some (state j'))) (Hmarks : forall id', id' <> id -> marks s' id' = marks s id').
Context (Hdrains : drains_ok s') (Hoff : (completion_offset s' <= length (window_completion_ids s'))%nat) (Hpend : NoDup (pending s')).
Context (Hquota : quota_ok s').

Lemma update_keeps : keeps s s'.
Proof using Hj Hjobs Hev Hframe.
  destruct Hframe as (? & ? & ? & ? & ? & ? & ?). constructor; try done. intros i. rewrite Hjobs.
  destruct (decide (i = id)) as [->|Hne]; [rewrite Hj, lookup_insert_eq; by constructor|]. by rewrite lookup_insert_ne.
Qed.

Lemma update_balance : quota_remaining s' = quota_remaining s -> unadmitted_bytes j' = unadmitted_bytes j ->
  forall e, balance s' e = balance s e.
Proof using Hj Hjobs Hev Hframe.
  intros Hq Hu e. destruct Hframe as (Hc & _). unfold balance. rewrite Hc, Hq, Hjobs, (msum_insert _ _ _ _ _ Hj).
  rewrite (evolves_uncharged _ _ _ _ Hev), Hu. unfold uncharged at 2. clear Hoff. lia.
Qed.

Lemma job_update_inv : causal_inv s'.
Proof using Hi Hj Hjobs Hev Hji Hlive Hframe Hmark Hmarks Hdrains Hoff Hpend Hquota.
  destruct Hframe as (Hc & Hg & Hw & Hst & Hk & Hq & Hn). destruct Hi. destruct (ev_static _ _ Hev) as (Ej & Es & Ech & _).
  constructor; rewrite ?Hc, ?Hg, ?Hk, ?Hq, ?Hw, ?Hn; try done.
  - intros i k. rewrite Hjobs. intros [[<- <-]|[? ?]]%lookup_insert_Some; auto.
  - intros i. rewrite Hjobs, lookup_insert_is_Some'. intros [<-|?]; [|by auto]. apply ci_known0. eauto.
  - intros i. rewrite Hjobs. destruct (decide (i = id)) as [->|Hne]; [by rewrite lookup_insert_eq|].
    rewrite lookup_insert_ne by done. rewrite (Hmarks i Hne). apply ci_marks0.
  - intros k q i Hkq Hin. destruct (ci_queued0 k q i Hkq Hin) as (x & Hx & <-). rewrite Hjobs.
    destruct (decide (i = id)) as [->|Hne]; [|rewrite lookup_insert_ne by done; eauto].
    rewrite lookup_insert_eq. assert (x = j) as -> by congruence. eexists. split; [done|]. by rewrite Es, Ech.
  - intros i k. rewrite Hjobs. intros [[<- <-]|[? ?]]%lookup_insert_Some Hnd; [|eauto]. rewrite Es, Ech. by apply ci_waiting0.
Qed.
End update.

(** ** Heads of the queues *)

Lemma find_job_ok (m : gmap string job) id j : m !! id = Some j -> find_job m id = Ok j.
Proof. unfold find_job. by intros ->. Qed.

Lemma prune_queue_ok s q : causal_inv s -> (forall id, id ∈ q -> is_Some (jobs s !! id)) ->
  exists js, prune_queue (jobs s) q = Ok js /\ forall j, j ∈ js <-> job_id j ∈ q /\ jobs s !! job_id j = Some j /\ state j <> DONE.
Proof.
  intros Hi Hq. unfold prune_queue. destruct (mapR_total (find_job (jobs s)) q) as [js Hjs].
  { intros id [j Hj]%Hq. exists j. by apply find_job_ok. }
  rewrite Hjs. cbn [rbind]. eexists. split; [done|]. intros j. rewrite list_elem_of_filter. split.
  - intros [Hd Hj]. destruct (mapR_elem _ _ _ _ Hjs Hj) as (id & Hid & Hf). destruct (Hq id Hid) as [j' Hj'].
    rewrite (find_job_ok _ _ _ Hj') in Hf. injection Hf as ->. rewrite (ji_id _ _ _ (ci_jobs _ Hi _ _ Hj')). done.
  - intros (Hid & Hj & Hd). split; [done|]. apply mapR_Ok in Hjs. apply list_elem_of_lookup in Hid as [i Hid].
    destruct (Forall2_lookup_l _ _ _ _ _ Hjs Hid) as (j' & Hj' & Hf). rewrite (find_job_ok _ _ _ Hj) in Hf.
    injection Hf as <-. by eapply list_elem_of_lookup_2.
Qed.

Lemma earlier_iff a b : earlier a b = true <-> arrival_ns a < arrival_ns b \/ arrival_ns a = arrival_ns b /\ sequence a < sequence b.
Proof. unfold earlier. rewrite orb_true_iff, andb_true_iff, Z.ltb_lt, Z.eqb_eq, Z.ltb_lt. done. Qed.

(** The first job of each class among the queued ones. *)
Record firsts (js : list job) (d : dict class job) : Prop := {
  fs_sound : forall k h, dget d k = Some h -> h ∈ js /\ state h = QUEUED /\ _class h = k;
  fs_first : forall j, j ∈ js -> state j = QUEUED -> exists h, dget d (_class j) = Some h /\ earlier j h = false }.

Lemma first_of_class_step js d j : firsts js d -> firsts (js ++ [j]) (first_of_class d j).
Proof.
  intros [Hs Hf]. unfold first_of_class. case_bool_decide as Hq.
  2:{ split; [intros k h Hk; destruct (Hs k h Hk); set_solver|]. intros x [Hx| ->%list_elem_of_singleton]%elem_of_app Hqx; [auto|done]. }
  assert (Hset : forall prior, dget d (_class j) = prior -> (forall p, prior = Some p -> earlier j p = true) ->
    firsts (js ++ [j]) (dset d (_class j) j)).
  { intros prior Hp He. split.
    - intros k h. rewrite dget_dset. case_decide as E; [intros [= <-]; subst; set_solver|]. intros Hk. destruct (Hs k h Hk). set_solver.
    - intros x Hx Hqx. rewrite dget_dset. apply elem_of_app in Hx as [Hx|Hx%list_elem_of_singleton].
      + destruct (Hf x Hx Hqx) as (h & Hh & Hxh). case_decide as E; [|eauto]. exists j. split; [done|].
        rewrite <- E in Hh. rewrite Hh in Hp. subst prior. specialize (He h eq_refl). apply earlier_iff in He.
        apply not_true_iff_false. rewrite earlier_iff. apply not_true_iff_false in Hxh. rewrite earlier_iff in Hxh. lia.
      + subst x. rewrite decide_True by done. exists j. split; [done|]. apply not_true_iff_false. rewrite earlier_iff. lia. }
  destruct (dget d (_class j)) as [p|] eqn:Ep.
  - destruct (earlier j p) eqn:Ee; [by apply (Hset (Some p)); [done|intros ? [= <-]]|]. split.
    + intros k h Hk. destruct (Hs k h Hk). set_solver.
    + intros x [Hx| ->%list_elem_of_singleton]%elem_of_app Hqx; [auto|]. eauto.
  - by apply (Hset None).
Qed.

Lemma firsts_ok js : firsts js (foldl first_of_class [] js).
Proof.
  induction js as [|j js IH] using rev_ind; [split; [done|intros j H; by apply not_elem_of_nil in H]|].
  rewrite foldl_app. by apply first_of_class_step.
Qed.

(** Eligible heads: queued jobs, the first of their class in their queue. *)
Record heads_ok (s : service) (ks : list key) (heads : list job) : Prop := {
  ho_sound : forall h, h ∈ heads -> jobs s !! job_id h = Some h /\ state h = QUEUED;
  ho_first : forall id j, jobs s !! id = Some j -> state j = QUEUED -> (stack j, channel j) ∈ ks ->
    exists h, h ∈ heads /\ stack h = stack j /\ channel h = channel j /\ _class h = _class j /\ earlier j h = false }.

(** Queues lose done jobs only. *)
Definition pruned (s : service) (qs : dict key (list string)) : Prop :=
  dkeys qs = dkeys (queues s) /\ forall k q, dget qs k = Some q -> exists q0, dget (queues s) k = Some q0 /\
    (forall id, id ∈ q -> id ∈ q0) /\ forall id j, id ∈ q0 -> jobs s !! id = Some j -> state j <> DONE -> id ∈ q.

Lemma pruned_steps s qs : causal_inv s -> pruned s qs -> steps s (set_queues qs s).
Proof.
  intros Hi [Hk Hq]. pose proof Hi as []. constructor; [|constructor; try done; intros id; cbn; reflexivity|done..].
  constructor; cbn [set_queues cfg channel_groups now window states quota_remaining next_sequence jobs known_ids queues active
    draining completion_offset window_completion_ids]; try done.
  - congruence.
  - intros k q id Hkq Hin. destruct (Hq k q Hkq) as (q0 & Hq0 & Hsub & _). eauto.
  - intros id j Hj Hnd. destruct (ci_waiting0 id j Hj Hnd) as (q0 & Hq0 & Hin).
    assert (Hin' : (stack j, channel j) ∈ dkeys qs) by (rewrite Hk; apply dget_is_Some; eauto).
    apply dget_is_Some in Hin' as [q Hkq]. exists q. split; [done|]. destruct (Hq _ _ Hkq) as (q1 & Hq1 & _ & Hl).
    assert (q1 = q0) as -> by congruence. eauto.
  - destruct ci_drains0. by constructor.
Qed.

Lemma heads_of_queue_ok s ks k qs heads : causal_inv s -> k ∈ dkeys (queues s) -> pruned s qs -> heads_ok s ks heads ->
  exists qs' heads', heads_of_queue (jobs s) (qs, heads) k = Ok (qs', heads') /\ pruned s qs' /\ heads_ok s (ks ++ [k]) heads'.
Proof.
  intros Hi Hk [Hkeys Hq] [Hs Hf]. unfold heads_of_queue. assert (Hkq : k ∈ dkeys qs) by (by rewrite Hkeys).
  apply dget_is_Some in Hkq as [q Hkq]. rewrite (proj2 (dindex_Ok _ _ _) Hkq). cbn [rbind].
  destruct (Hq k q Hkq) as (q0 & Hq0 & Hsub & Hkept).
  assert (Hin : forall id, id ∈ q -> exists j, jobs s !! id = Some j /\ (stack j, channel j) = k).
  { intros id Hid. apply (ci_queued _ Hi k q0); auto. }
  destruct (prune_queue_ok s q Hi) as (js & Hjs & Hel). { intros id Hid. destruct (Hin id Hid) as (j & Hj & _). eauto. }
  rewrite Hjs. cbn [rbind]. eexists _, _. split; [done|]. split; [split|split].
  - rewrite dkeys_dset_in; [done|]. apply dget_is_Some. eauto.
  - intros k' q' H'. rewrite dget_dset in H'. case_decide as E; [|auto]. injection H' as <-. subst k'. exists q0. split; [done|]. split.
    + intros id (j & -> & Hj)%list_elem_of_fmap. apply Hel in Hj as [Hid _]. auto.
    + intros id j Hid Hj Hd. apply list_elem_of_fmap. exists j. pose proof (ji_id _ _ _ (ci_jobs _ Hi _ _ Hj)) as <-.
      split; [done|]. apply Hel. split_and!; eauto.
  - intros h [Hh|Hh]%elem_of_app; [auto|]. apply list_elem_of_fmap in Hh as ([c h'] & -> & Hh). cbn.
    apply (dget_elem _ c h') in Hh; [|].
    + destruct (fs_sound _ _ (firsts_ok js) _ _ Hh) as (Hin' & Hst & _). apply Hel in Hin'. tauto.
    + clear. induction js as [|j js IH] using rev_ind; [constructor|]. rewrite foldl_app. cbn [foldl]. unfold first_of_class at 1.
      case_bool_decide; [|done]. case_match; [case_match; [|done]|]; by apply NoDup_dkeys_dset.
  - intros id j Hj Hst [Hks|Hks%list_elem_of_singleton]%elem_of_app.
    + destruct (Hf id j Hj Hst Hks) as (h & Hh & ?). exists h. split; [set_solver|done].
    + destruct (ci_waiting _ Hi id j Hj) as (q1 & Hq1 & Hid); [by rewrite Hst|]. rewrite Hks in Hq1. assert (q1 = q0) as -> by congruence.
      pose proof (ji_id _ _ _ (ci_jobs _ Hi _ _ Hj)) as Ej.
      assert (Hjin : j ∈ js). { apply Hel. rewrite Ej. rewrite Hst. split_and!; try done. eapply Hkept; eauto. by rewrite Hst. }
      destruct (fs_first _ _ (firsts_ok js) j Hjin Hst) as (h & Hh & He). exists h.
      destruct (fs_sound _ _ (firsts_ok js) _ _ Hh) as (Hin' & _ & Hc). apply Hel in Hin' as (Hidh & Hjh & _).
      destruct (Hin _ Hidh) as (h' & Hh' & Hkey). assert (h' = h) as -> by congruence. rewrite <- Hkey in Hks. injection Hks as -> ->.
      split_and!; try done. apply elem_of_app. right. apply dget_Some_elem in Hh. apply list_elem_of_fmap. exists (_class j, h). split; [done|exact Hh].
Qed.

Lemma eligible_heads_ok s : causal_inv s -> exists qs heads, _eligible_heads s = (Ok heads, set_queues qs s) /\
  steps s (set_queues qs s) /\ heads_ok s (dkeys (queues s)) heads.
Proof.
  intros Hi. unfold _eligible_heads, get, sbind at 1. cbv beta iota.
  destruct (foldM_inv (fun ks '(qs, heads) => pruned s qs /\ heads_ok s ks heads) (heads_of_queue (jobs s))
    (isort (lex sle sle) (dkeys (queues s))) (queues s, [])) as ([qs heads] & Hf & Hp & Hh).
  - split; [split; [done|]; intros k q Hk; exists q; split_and!; auto|]. split; [intros h H; by apply not_elem_of_nil in H|].
    intros id j _ _ H. by apply not_elem_of_nil in H.
  - intros ks k todo [qs heads] Hl [Hp Hh]. destruct (heads_of_queue_ok s ks k qs heads Hi) as (qs' & heads' & Hr & H1 & H2); try done.
    { rewrite <- (isort_elem (lex sle sle)), Hl. set_solver. } exists (qs', heads'). done.
  - rewrite (sbind_step _ _ _ _ _ (lift_Ok _ _ s Hf)). cbv beta iota. exists qs. eexists. split; [reflexivity|].
    split; [by apply pruned_steps|]. destruct Hh as [H1 H2]. split.
    + intros h. rewrite isort_elem. apply H1.
    + intros id j Hj Hst Hk. destruct (H2 id j Hj Hst) as (h & Hh & ?); [by rewrite isort_elem|]. exists h. by rewrite isort_elem.
Qed.

(** ** Admission *)

Notation total := (wp (fun _ _ => False)).

Lemma endpoints_NoDup c j es : _endpoints c j = Ok es -> NoDup es.
Proof.
  unfold _endpoints, TopologyService._endpoints. cbn. intros H. destruct (job_route j) as [[]|]; inv_ok; try apply NoDup_singleton.
  case_decide; [apply NoDup_singleton|]. apply NoDup_cons. split; [set_solver|apply NoDup_singleton].
Qed.

(** The state of an endpoint lets a job through or not. *)
Lemma state_allows_total s j : causal_inv s -> window s <> None -> route_ok (cfg s) j -> exists b, _state_allows s j = Ok b.
Proof.
  intros Hi Hw Hj. unfold _state_allows. destruct (endpoints_of _ _ (ci_cfg _ Hi) Hj) as (es & -> & Hes). cbn [rbind].
  destruct (mapR_total (dindex (states s)) es) as [l ->]; [|cbn [rbind]; eauto]. intros e He.
  destruct (ci_quota _ Hi Hw e (Hes e He)) as [[x Hx] _]. exists x. by apply dindex_Ok.
Qed.

Lemma peers_total s heads e : causal_inv s -> (forall h, h ∈ heads -> route_ok (cfg s) h) -> exists n, peers (cfg s) heads e = Ok n.
Proof.
  intros Hi Hh. unfold peers. match goal with |- context [mapR ?f heads] => destruct (mapR_total f heads) as [l ->]; [|cbn [rbind]; eauto] end.
  intros h Hin. destruct (endpoints_of _ _ (ci_cfg _ Hi) (Hh h Hin)) as (es & -> & _). cbn [rbind]. eauto.
Qed.

Lemma foldl_min_spec l a : foldl Z.min a l <= a /\ (forall x, x ∈ l -> foldl Z.min a l <= x) /\ (foldl Z.min a l = a \/ foldl Z.min a l ∈ l).
Proof.
  revert a. induction l as [|b l IH]; intros a; cbn [foldl]; [split_and!; [lia|intros x H; by apply not_elem_of_nil in H|by left]|].
  destruct (IH (Z.min a b)) as (H1 & H2 & H3). split_and!; [lia| |].
  - intros x [->|Hx]%elem_of_cons; [lia|auto].
  - destruct H3 as [->|H3]; [|set_solver]. destruct (Z.min_spec a b) as [[_ ->]|[_ ->]]; set_solver.
Qed.

(** The next slice of a job: all that is left of a maintenance job; for another
    job at most its share of every quota, and no less than the smallest. *)
Record slice_spec (s : service) (heads : list job) (j : job) (es : list string) (n : Z) : Prop := {
  sl_most : n <= unadmitted_bytes j;
  sl_maintenance : is_maintenance j = true -> n = unadmitted_bytes j;
  sl_quota : is_maintenance j = false -> forall e q, e ∈ es -> dget (quota_remaining s) e = Some q -> n * work_scale (cfg s) <= q;
  sl_short : 0 < unadmitted_bytes j -> n <= 0 -> is_maintenance j = false /\ exists e q k, e ∈ es /\
    dget (quota_remaining s) e = Some q /\ peers (cfg s) heads e = Ok k /\ q < work_scale (cfg s) * Z.max 1 k }.

Lemma slice_bytes_ok s heads j es : causal_inv s -> window s <> None -> (forall h, h ∈ heads -> route_ok (cfg s) h) ->
  (forall e, e ∈ es -> e ∈ dkeys (channels (cfg s))) -> exists n, slice_bytes s heads j es = Ok n /\ slice_spec s heads j es n.
Proof.
  intros Hi Hw Hh Hes. unfold slice_bytes. destruct (is_maintenance j) eqn:Em.
  { eexists. split; [done|]. constructor; try done; try lia. congruence. }
  pose proof (co_scale _ (ci_cfg _ Hi)) as Hscale.
  assert (Hshare : forall e, e ∈ es -> exists k q, peers (cfg s) heads e = Ok k /\ dget (quota_remaining s) e = Some q /\ 0 <= q).
  { intros e He. destruct (peers_total s heads e Hi Hh) as [k Hk]. destruct (ci_quota _ Hi Hw e (Hes e He)) as (_ & q & Hq & H0). eauto 10. }
  edestruct (mapR_total (fun e => let? n := peers (cfg s) heads e in let? q := dindex (quota_remaining s) e in
    Ok (q / (work_scale (cfg s) * Z.max 1 n))) es) as [shares Hs].
  { intros e He. destruct (Hshare e He) as (k & q & -> & Hq & _). cbn [rbind]. rewrite (proj2 (dindex_Ok _ _ _) Hq). cbn [rbind]. eauto. }
  rewrite Hs. cbn [rbind]. eexists. split; [done|]. destruct (foldl_min_spec shares (unadmitted_bytes j)) as (H1 & H2 & H3).
  constructor; [done|congruence| |].
  - intros _ e q He Hq. destruct (Hshare e He) as (k & q' & Hk & Hq' & H0). assert (q' = q) as -> by congruence.
    apply mapR_Ok in Hs. apply list_elem_of_lookup in He as [i He]. destruct (Forall2_lookup_l _ _ _ _ _ Hs He) as (x & Hx & E).
    rewrite Hk, (proj2 (dindex_Ok _ _ _) Hq) in E. cbn [rbind] in E. injection E as <-.
    apply list_elem_of_lookup_2 in Hx. apply H2 in Hx. set (d := work_scale (cfg s) * Z.max 1 k) in *.
    assert (Hd : work_scale (cfg s) <= d) by (unfold d; nia). pose proof (Z.mul_div_le q d ltac:(lia)).
    assert (0 <= q / d) by (apply Z.div_pos; lia). set (x := q / d) in *. assert (work_scale (cfg s) * x <= d * x) by nia. nia.
  - intros Hu Hn. split; [done|]. destruct H3 as [H3|H3]; [lia|]. destruct (mapR_elem _ _ _ _ Hs H3) as (e & He & E).
    destruct (Hshare e He) as (k & q & Hk & Hq & H0). rewrite Hk, (proj2 (dindex_Ok _ _ _) Hq) in E. cbn [rbind] in E. injection E as E.
    exists e, q, k. split_and!; try done. rewrite <- E in Hn. destruct (Z.lt_ge_cases q (work_scale (cfg s) * Z.max 1 k)) as [|Hge]; [done|].
    pose proof (Z.div_str_pos q (work_scale (cfg s) * Z.max 1 k) ltac:(nia)). lia.
Qed.

(** The charge of a slice. *)
Lemma charge_ok scale n es quota : NoDup es -> (forall e, e ∈ es -> is_Some (dget quota e)) ->
  exists quota', foldM (charge scale n) es quota = Ok quota' /\ forall e, dget quota' e =
    (fun q => if bool_decide (e ∈ es) then q - n * scale else q) <$> dget quota e.
Proof.
  revert quota. induction es as [|a es IH]; intros quota Hnd Hes; cbn [foldM].
  { eexists. split; [done|]. intros e. by destruct (dget quota e). }
  apply NoDup_cons in Hnd as [Ha Hnd]. destruct (Hes a ltac:(set_solver)) as [q Hq]. unfold charge at 1.
  rewrite (proj2 (dindex_Ok _ _ _) Hq). cbn [rbind]. destruct (IH (dset quota a (q - n * scale)) Hnd) as (quota' & Hf & Hget).
  { intros e He. rewrite dget_dset. case_decide; [eauto|]. apply Hes. set_solver. }
  exists quota'. split; [done|]. intros e. rewrite Hget, dget_dset. case_decide as E.
  - subst e. rewrite Hq. cbn. rewrite (bool_decide_eq_false_2 (a ∈ es)), (bool_decide_eq_true_2 (a ∈ a :: es)) by set_solver. done.
  - destruct (dget quota e) as [q'|]; [|done]. cbn. f_equal. case_bool_decide; case_bool_decide; set_solver.
Qed.

(** What an activation may do to a job. *)
Definition admits_job (s : service) (j j' : job) : Prop := j' = j \/
  exists n, 0 < n <= unadmitted_bytes j /\ j' = admitted (now s) n j /\ state j = QUEUED /\ arrival_ns j <= now s
    /\ _state_allows s j = Ok true.

Record activates (s s' : service) : Prop := {
  av_steps : steps s s';
  av_jobs : forall id j, jobs s !! id = Some j -> exists j', jobs s' !! id = Some j' /\ admits_job s j j';
  av_rest : draining s' = draining s /\ completed_since_read s' = completed_since_read s }.

Lemma state_allows_keeps s s' j : keeps s s' -> _state_allows s' j = _state_allows s j.
Proof. intros H. unfold _state_allows. by rewrite (kp_cfg _ _ H), (kp_states _ _ H). Qed.

Lemma activates_refl s : causal_inv s -> activates s s.
Proof. intros Hi. constructor; [by apply steps_refl| |done]. intros id j Hj. exists j. split; [done|by left]. Qed.

Lemma activates_trans s1 s2 s3 : activates s1 s2 -> activates s2 s3 -> activates s1 s3.
Proof.
  intros [H1 J1 [D1 C1]] [H2 J2 [D2 C2]]. constructor; [by eapply steps_trans| |split; congruence]. intros id j Hj.
  destruct (J1 id j Hj) as (j1 & Hj1 & A1), (J2 id j1 Hj1) as (j2 & Hj2 & A2). exists j2. split; [done|].
  destruct A1 as [->|(n & Hn & -> & Hq & Ha & Hs)].
  - destruct A2 as [->|(n & Hn & -> & Hq & Ha & Hs)]; [by left|right]. exists n.
    rewrite (state_allows_keeps _ _ _ (st_keeps _ _ H1)) in Hs. rewrite (st_now _ _ H1) in *. done.
  - destruct A2 as [->|(n' & Hn' & -> & Hq' & _)]; [right; by exists n|]. done.
Qed.

Definition is_queued (x : string * job) : Prop := state x.2 = QUEUED.
#[local] Instance is_queued_dec x : Decision (is_queued x) := ltac:(unfold is_queued; apply _).
Definition queued (s : service) : nat := size (filter is_queued (jobs s)).

(** A head that is declined: the slice would be empty. *)
Definition declined (heads : list job) (s : service) (id : string) : Prop := exists h es n, jobs s !! id = Some h /\ _endpoints (cfg s) h = Ok es /\ n <= 0
  /\ slice_spec s heads h es n.

Lemma admitted_evolves t n j : 0 <= n -> evolves j (admitted t n j).
Proof. intros Hn. constructor; cbn; [split_and!; done|lia]. Qed.

Lemma admitted_steps heads s id j es n quota : causal_inv s -> window s <> None -> jobs s !! id = Some j -> state j = QUEUED -> 0 < n ->
  _endpoints (cfg s) j = Ok es -> slice_spec s heads j es n ->
  (forall e, dget quota e = (fun q => if negb (is_maintenance j) && bool_decide (e ∈ es) then q - n * work_scale (cfg s) else q) <$> dget (quota_remaining s) e) ->
  steps s (set_active ({[id]} ∪ active s) (set_jobs (<[id := admitted (now s) n j]> (jobs s)) (set_quota quota s))).
Proof.
  intros Hi Hw Hj Hq Hn Hes Hsl Hquota. set (s' := set_active _ _). pose proof (ci_jobs _ Hi _ _ Hj) as Hji.
  pose proof (admitted_evolves (now s) n j ltac:(lia)) as Hev. destruct Hji as [Hid Hr Hb Hnn Hs Hst]. rewrite Hq in Hst.
  pose proof (ci_marks _ Hi id) as Hmk. rewrite Hj in Hmk. cbn [fmap option_fmap option_map expect] in Hmk. rewrite Hq in Hmk.
  assert (Hframe : cfg s' = cfg s /\ channel_groups s' = channel_groups s /\ window s' = window s /\ states s' = states s
    /\ known_ids s' = known_ids s /\ queues s' = queues s /\ now s' = now s) by done.
  constructor; [|by eapply (update_keeps s s')|done| |].
  - eapply (job_update_inv s s' id j (admitted (now s) n j)); try done.
    + constructor; cbn; [done|by eapply evolves_route|lia|pose proof (sl_most _ _ _ _ _ Hsl); lia|lia|]. split; [lia|]. split; lra.
    + by rewrite Hq.
    + unfold marks in *. injection Hmk as H1 H2 H3. change (drain_ids s') with (drain_ids s). change (pending s') with (pending s).
      rewrite H2, H3. cbn [expect admitted state]. f_equal. f_equal. apply bool_decide_eq_true. cbn. set_solver.
    + intros i Hne. unfold marks. change (drain_ids s') with (drain_ids s). change (pending s') with (pending s). f_equal. f_equal.
      apply bool_decide_ext. cbn. set_solver.
    + destruct (ci_drains _ Hi) as [D1 D2 D3]. constructor; try done. intros d i Hd. cbn. intros [[E <-]|[? ?]]%lookup_insert_Some; [|eauto].
      exfalso. injection Hmk as _ H2 _. apply bool_decide_eq_false in H2. apply H2, list_elem_of_fmap. by exists d.
    + apply (ci_offset _ Hi).
    + apply (ci_pending _ Hi).
    + intros _ st Hstk. destruct (ci_quota _ Hi Hw st Hstk) as (Hss & q & Hq' & H0). split; [done|]. cbn. rewrite Hquota, Hq'. cbn.
      eexists. split; [done|]. destruct (is_maintenance j) eqn:Em; cbn; [done|]. case_bool_decide as Hin; [|done].
      pose proof (sl_quota _ _ _ _ _ Hsl Em st q Hin Hq'). lia.
  - intros Hset i x. cbn. intros [[<- <-]|[? ?]]%lookup_insert_Some; [cbn; lia|by eapply Hset].
  - intros e. unfold balance. cbn [s' set_active set_jobs set_quota cfg quota_remaining jobs]. rewrite (msum_insert _ _ _ _ _ Hj).
    rewrite (evolves_uncharged _ _ _ _ Hev). unfold uncharged at 2. unfold passes. rewrite Hes. cbn [admitted unadmitted_bytes].
    unfold dget_or. rewrite Hquota. destruct (dget (quota_remaining s) e) as [q|] eqn:Eq; cbn; destruct (negb (is_maintenance j)) eqn:Em; cbn; try lia;
      case_bool_decide as Hin; try lia.
    exfalso. destruct (endpoints_of _ _ (ci_cfg _ Hi) Hr) as (es' & E' & Hes'). assert (es' = es) as -> by congruence.
    destruct (ci_quota _ Hi Hw e (Hes' e Hin)) as (_ & q & Hq' & _). congruence.
Qed.

Lemma admitted_queued s id j n a quota : jobs s !! id = Some j -> state j = QUEUED ->
  (queued (set_active a (set_jobs (<[id := admitted (now s) n j]> (jobs s)) (set_quota quota s))) < queued s)%nat.
Proof.
  intros Hj Hq. unfold queued. cbn [set_active set_jobs set_quota jobs]. rewrite map_filter_insert_False; [|cbn; by intros H].
  rewrite map_filter_delete, map_size_delete_Some by (exists j; by apply map_lookup_filter_Some).
  assert (size (filter is_queued (jobs s)) <> 0)%nat; [|lia].
  intros E. apply map_size_empty_inv in E. assert (H : filter is_queued (jobs s) !! id = Some j) by (by apply map_lookup_filter_Some).
  rewrite E in H. done.
Qed.

(** One head: admitted, or left as it is. *)
Lemma admit_head_ok heads p id s h : causal_inv s -> window s <> None -> (forall h, h ∈ heads -> route_ok (cfg s) h) ->
  jobs s !! id = Some h -> arrival_ns h <= now s -> _state_allows s h = Ok true ->
  total (admit_head heads p id) (fun p' s' => activates s s' /\
    (p' = p /\ s' = s /\ (state h = QUEUED -> declined heads s id) \/ p' = true /\ (queued s' < queued s)%nat)) s.
Proof.
  intros Hi Hw Hh Hj Ha Hs. unfold admit_head. wp_steps. eapply wp_lift; [by apply find_job_ok|]. case_bool_decide as Hst.
  { wp_steps. split; [by apply activates_refl|]. left. by split_and!. }
  assert (Hq : state h = QUEUED) by (destruct (decide (state h = QUEUED)); tauto).
  pose proof (ci_jobs _ Hi _ _ Hj) as Hji. destruct (endpoints_of _ _ (ci_cfg _ Hi) (ji_route _ _ _ Hji)) as (es & Hes & Hsub).
  wp_steps. eapply wp_lift; [done|]. destruct (slice_bytes_ok s heads h es Hi Hw Hh Hsub) as (n & Hn & Hsl).
  wp_steps. eapply wp_lift; [done|]. destruct (Z.leb_spec n 0) as [H0|H0].
  { wp_steps. split; [by apply activates_refl|]. left. split_and!; [done..|]. intros _. by exists h, es, n. }
  assert (Hquota : exists quota, (if is_maintenance h then Ok (quota_remaining s)
      else foldM (charge (work_scale (cfg s)) n) es (quota_remaining s)) = Ok quota /\ forall e, dget quota e =
      (fun q => if negb (is_maintenance h) && bool_decide (e ∈ es) then q - n * work_scale (cfg s) else q) <$> dget (quota_remaining s) e).
  { destruct (is_maintenance h); cbn [negb andb].
    - eexists. split; [done|]. intros e. by destruct (dget (quota_remaining s) e).
    - apply charge_ok; [by eapply endpoints_NoDup|]. intros e He. destruct (ci_quota _ Hi Hw e (Hsub e He)) as (_ & q & ? & _). eauto. }
  destruct Hquota as (quota & Hq1 & Hq2). wp_steps. eapply wp_lift; [done|]. wp_steps.
  split; [|right; split; [done|by apply admitted_queued]]. constructor; [by eapply admitted_steps| |done].
  intros i x Hx. cbn. destruct (decide (i = id)) as [->|Hne].
  - rewrite lookup_insert_eq. eexists. split; [done|]. right. exists n. assert (x = h) as -> by congruence.
    pose proof (sl_most _ _ _ _ _ Hsl). done.
  - rewrite lookup_insert_ne by done. exists x. split; [done|by left].
Qed.

Lemma state_allows_evolves s j j' : evolves j j' -> _state_allows s j' = _state_allows s j.
Proof. intros H. unfold _state_allows. by rewrite (evolves_endpoints _ _ _ H), (evolves_maintenance _ _ H). Qed.

Lemma admits_evolves s j j' : admits_job s j j' -> evolves j j'.
Proof. intros [->|(n & Hn & -> & _)]; [reflexivity|]. apply admitted_evolves. lia. Qed.

(** Nothing more can be admitted: the head of every class waits for its arrival,
    is stopped by the state of an endpoint, or an endpoint that it passes cannot
    give a byte to each of the heads that pass it. *)
Definition blocked (s : service) (h : job) : Prop :=
  now s < arrival_ns h \/ _state_allows s h = Ok false \/
  exists heads, (forall x, x ∈ heads -> jobs s !! job_id x = Some x /\ state x = QUEUED) /\ declined heads s (job_id h).
Definition exhausted (s : service) : Prop := forall id j, jobs s !! id = Some j -> state j = QUEUED ->
  exists h, jobs s !! job_id h = Some h /\ state h = QUEUED /\ stack h = stack j /\ channel h = channel j /\ _class h = _class j
    /\ earlier j h = false /\ blocked s h.

Lemma activate_round_ok s : causal_inv s -> window s <> None -> total activate_round
  (fun again s' => activates s s' /\ if again then (queued s' < queued s)%nat else exhausted s') s.
Proof.
  intros Hi Hw. unfold activate_round. apply wp_bind. destruct (eligible_heads_ok s Hi) as (qs & heads & He & Hst & Hh).
  unfold wp at 1. rewrite He. wp_steps. set (s1 := set_queues qs s). pose proof (st_inv _ _ Hst : causal_inv s1) as Hi1.
  assert (Hheads : forall h, h ∈ heads -> jobs s1 !! job_id h = Some h /\ state h = QUEUED) by (intros h; apply (ho_sound _ _ _ Hh)).
  assert (Hroute : forall h, h ∈ heads -> route_ok (cfg s1) h).
  { intros h [Hj _]%Hheads. exact (ji_route _ _ _ (ci_jobs _ Hi1 _ _ Hj)). }
  set (arrived := filter (fun j => arrival_ns j <= now s1) heads).
  destruct (mapR_total (fun j => let? ok := _state_allows s1 j in Ok (j, (arrival_ns j <=? now s1) && ok)) arrived) as [rows Hrows].
  { intros h Hin. apply list_elem_of_filter in Hin as [_ Hin]. destruct (state_allows_total s1 h Hi1 Hw (Hroute h Hin)) as [b ->].
    cbn [rbind]. eauto. }
  eapply wp_lift; [done|]. set (open := (filter (fun r => r.2 = true) rows).*1).
  assert (Hopen : forall h, h ∈ open <-> h ∈ heads /\ arrival_ns h <= now s1 /\ _state_allows s1 h = Ok true).
  { intros h. unfold open. rewrite list_elem_of_fmap. split.
    - intros ([h' b] & -> & [Hb Hin]%list_elem_of_filter). cbn in Hb. subst b. destruct (mapR_elem _ _ _ _ Hrows Hin) as (x & Hx & E). inv_ok.
      apply list_elem_of_filter in Hx as [Ha Hx]. by subst.
    - intros (Hin & Ha & Hs). exists (h, true). split; [done|]. apply list_elem_of_filter. split; [done|]. apply mapR_Ok in Hrows.
      assert (Hin' : h ∈ arrived) by (by apply list_elem_of_filter). apply list_elem_of_lookup in Hin' as [i Hin'].
      destruct (Forall2_lookup_l _ _ _ _ _ Hrows Hin') as (y & Hy & E). rewrite Hs in E. cbn [rbind] in E.
      rewrite (proj2 (Z.leb_le _ _) Ha) in E. injection E as <-. by eapply list_elem_of_lookup_2. }
  assert (Hact : activates s s1).
  { constructor; [done| |done]. intros i x Hx. exists x. split; [done|by left]. }
  eapply wp_mono. { apply (wp_foldS (fun visited p s' => activates s1 s' /\
      if p : bool then (queued s' < queued s1)%nat else s' = s1 /\ forall id, id ∈ visited -> declined open s1 id)).
    - split; [by apply activates_refl|]. split; [done|]. intros id H. by apply not_elem_of_nil in H.
    - intros visited id todo p s' Hl [Ha Hp]. pose proof (av_steps _ _ Ha) as Hs'.
      assert (Hid : id ∈ job_id <$> open) by (rewrite Hl; set_solver). apply list_elem_of_fmap in Hid as (h & -> & Hin).
      apply Hopen in Hin as (Hin & Harr & Hal). destruct (Hheads h Hin) as [Hj Hq]. destruct (av_jobs _ _ Ha _ _ Hj) as (h' & Hj' & Had).
      pose proof (admits_evolves _ _ _ Had) as Hev. eapply wp_mono.
      { apply (admit_head_ok open p (job_id h) s' h'); [apply (st_inv _ _ Hs')| | |done| |].
        - by rewrite (kp_window _ _ (st_keeps _ _ Hs')).
        - intros x [Hx _]%Hopen. rewrite (kp_cfg _ _ (st_keeps _ _ Hs')). auto.
        - rewrite (st_now _ _ Hs'). destruct (ev_static _ _ Hev) as (_ & _ & _ & _ & _ & -> & _). done.
        - by rewrite (state_allows_evolves _ _ _ Hev), (state_allows_keeps _ _ _ (st_keeps _ _ Hs')). }
      intros p' s2 [Ha2 Hc]. split; [by eapply activates_trans|]. destruct Hc as [(-> & -> & Hd)|[-> Hlt]].
      + destruct p; [done|]. destruct Hp as [-> Hp]. split; [done|]. intros id [Hv| ->%list_elem_of_singleton]%elem_of_app; [auto|].
        apply Hd. assert (h' = h) as -> by congruence. done.
      + destruct p; [lia|]. destruct Hp as [-> _]. done. }
  intros again s' [Ha Hp]. split; [by eapply activates_trans|]. destruct again; [done|]. destruct Hp as [-> Hp].
  intros id j Hj Hq. destruct (ci_waiting _ Hi id j Hj) as (q & Hkq & _); [by rewrite Hq|].
  destruct (ho_first _ _ _ Hh id j Hj Hq) as (h & Hin & H1 & H2 & H3 & H4); [apply dget_is_Some; eauto|].
  destruct (Hheads h Hin) as [Hjh Hqh]. exists h. split_and!; try done. unfold blocked.
  destruct (Z.lt_ge_cases (now s1) (arrival_ns h)) as [|Harr]; [by left|right].
  destruct (state_allows_total s1 h Hi1 Hw (Hroute h Hin)) as [[] Hal]; [right|by left]. exists open. split.
  - intros x [Hx _]%Hopen. by apply Hheads.
  - apply Hp, list_elem_of_fmap. exists h. split; [done|]. by apply Hopen.
Qed.

Lemma activate_loop_ok fuel s : causal_inv s -> window s <> None -> (queued s < fuel)%nat ->
  total (activate_loop fuel) (fun _ s' => activates s s' /\ exhausted s') s.
Proof.
  revert s. induction fuel as [|fuel IH]; intros s Hi Hw Hf; [lia|]. cbn [activate_loop]. apply wp_bind.
  eapply wp_mono; [by apply activate_round_ok|]. intros again s' [Ha Hag]. destruct again; [|by wp_steps].
  pose proof (av_steps _ _ Ha) as Hs. eapply wp_mono; [apply IH; [apply (st_inv _ _ Hs)|by rewrite (kp_window _ _ (st_keeps _ _ Hs))|lia]|].
  intros _ s'' [Ha' Hx]. split; [by eapply activates_trans|done].
Qed.

(** The window is open: time is left in it. *)
Definition window_open (s : service) : Prop := exists w, window s = Some w /\ now s < w.2.

Lemma activate_ok s : causal_inv s ->
  total _activate (fun _ s' => activates s s' /\ (window_open s -> exhausted s')) s.
Proof.
  intros Hi. unfold _activate. wp_steps. destruct (window s) as [[w0 w1]|] eqn:Ew.
  2:{ wp_steps. split; [by apply activates_refl|]. intros (w & Hw & _). congruence. }
  destruct (Z.ltb_spec (now s) w1) as [Hlt|Hge].
  2:{ wp_steps. split; [by apply activates_refl|]. intros (w & Hw & Hlt). assert (w = (w0, w1)) as -> by congruence. cbn in Hlt. lia. }
  eapply wp_mono; [apply activate_loop_ok; [done|by rewrite Ew|]|].
  - unfold queued, activate_fuel. apply Nat.lt_succ_r, map_subseteq_size, map_filter_subseteq.
  - intros _ s' [Ha Hx]. done.
Qed.

(** ** Rates *)

Lemma foldl_dset_keys {A V} (f : A -> string) (g : A -> V) l d k :
  k ∈ dkeys (foldl (fun d x => dset d (f x) (g x)) d l) <-> k ∈ dkeys d \/ exists x, x ∈ l /\ f x = k.
Proof.
  revert d. induction l as [|a l IH]; intros d; cbn [foldl].
  - split; [by left|]. intros [?|(x & H & _)]; [done|by apply not_elem_of_nil in H].
  - rewrite IH, elem_dkeys_dset. setoid_rewrite elem_of_cons. naive_solver.
Qed.

(** The tables of coefficients and capacities describe a sharing problem. *)
Record tables_ok (ids : list string) (coefs : dict string (dict string Z)) (capacity : dict string Q) : Prop := {
  tb_capacity : dall (fun v => (0 < v)%Q) capacity;
  tb_rows : forall id, id ∈ ids -> MaxMinRates.row coefs id <> [] /\ dall (fun n => 0 < n) (MaxMinRates.row coefs id)
    /\ forall r, r ∈ dkeys (MaxMinRates.row coefs id) -> r ∈ dkeys capacity }.

Lemma rate_row_ok s ids coefs capacity j : causal_inv s -> jobs s !! job_id j = Some j -> tables_ok ids coefs capacity ->
  exists coefs' capacity', rate_row s (coefs, capacity) j = Ok (coefs', capacity') /\ tables_ok (ids ++ [job_id j]) coefs' capacity'.
Proof.
  intros Hi Hj [Hpos Hrows]. unfold rate_row. pose proof (ji_route _ _ _ (ci_jobs _ Hi _ _ Hj)) as Hr.
  destruct (phases_total s j (ci_cfg _ Hi) (ci_groups _ Hi) Hr) as (ph & -> & Hne & Hph). cbn [rbind]. rewrite Forall_forall in Hph.
  eexists _, _. split; [done|]. pose proof (co_scale _ (ci_cfg _ Hi)) as Hscale. set (cap := foldl _ capacity ph). set (rw := foldl _ [] ph).
  assert (Hcap : forall k, k ∈ dkeys cap <-> k ∈ dkeys capacity \/ exists x, x ∈ ph /\ x.1.1 = k).
  { intros k. apply (foldl_dset_keys (fun x : string * stage * Z => x.1.1)
      (fun x => inject_Z (BasicFabric.bandwidth_bytes_per_s x.1.2 * work_scale (cfg s)))). }
  assert (Hrw : forall k, k ∈ dkeys rw <-> k ∈ @nil string \/ exists x, x ∈ ph /\ x.1.1 = k).
  { intros k. apply (foldl_dset_keys (fun x : string * stage * Z => x.1.1) (fun x => x.2)). }
  split.
  - apply dall_foldl; [done|]. intros d x Hx Hd. apply dall_dset; [done|]. destruct (Hph x Hx) as (_ & _ & Hb).
    change 0%Q with (inject_Z 0). rewrite <- Zlt_Qlt. nia.
  - intros id Hid. unfold MaxMinRates.row. rewrite dget_or_dset. case_decide as E.
    + split_and!.
      * destruct ph as [|x ph']; [done|]. intros E'. assert (Hx : x.1.1 ∈ dkeys rw) by (apply Hrw; right; exists x; set_solver).
        rewrite E' in Hx. by apply not_elem_of_nil in Hx.
      * apply dall_foldl; [apply dall_nil|]. intros d x Hx Hd. apply dall_dset; [done|]. by destruct (Hph x Hx).
      * intros r Hin. apply Hcap. right. apply Hrw in Hin as [Hin|?]; [by apply not_elem_of_nil in Hin|done].
    + apply elem_of_app in Hid as [Hid|Hid%list_elem_of_singleton]; [|congruence].
      destruct (Hrows id Hid) as (H1 & H2 & H3). split_and!; [done..|]. intros r Hin. apply Hcap. left. by apply H3.
Qed.

Lemma active_job s id : causal_inv s -> id ∈ active_ids s <-> exists j, jobs s !! id = Some j /\ state j = ACTIVE.
Proof.
  intros Hi. unfold active_ids. rewrite isort_elem, elem_of_elements. pose proof (ci_marks _ Hi id) as Hm. unfold marks in Hm. split.
  - intros Hin. rewrite (bool_decide_eq_true_2 _ Hin) in Hm. destruct (jobs s !! id) as [j|]; cbn in Hm; [|discriminate Hm].
    exists j. split; [done|]. by destruct (state j).
  - intros (j & Hj & Hs). rewrite Hj in Hm. cbn in Hm. rewrite Hs in Hm. injection Hm as Hm _ _. by apply bool_decide_eq_true in Hm.
Qed.

Lemma active_ids_NoDup s : NoDup (active_ids s).
Proof. unfold active_ids. rewrite isort_perm. apply NoDup_elements. Qed.

Lemma active_jobs_ok s : causal_inv s -> exists js, mapR (find_job (jobs s)) (active_ids s) = Ok js /\ job_id <$> js = active_ids s /\
  forall j, j ∈ js -> jobs s !! job_id j = Some j /\ state j = ACTIVE.
Proof.
  intros Hi. destruct (mapR_total (find_job (jobs s)) (active_ids s)) as [js Hjs].
  { intros id (j & Hj & _)%active_job; [|done]. exists j. by apply find_job_ok. }
  exists js. split; [done|]. assert (Hf : Forall2 (fun id j => jobs s !! id = Some j /\ state j = ACTIVE) (active_ids s) js).
  { apply mapR_Ok in Hjs. apply Forall2_same_length_lookup. split; [by eapply Forall2_length|]. intros i id j Hid Hj.
    pose proof (Forall2_lookup_lr _ _ _ _ _ _ Hjs Hid Hj) as E. cbn beta in E. apply list_elem_of_lookup_2, active_job in Hid as (j' & Hj' & Hs); [|done].
    rewrite (find_job_ok _ _ _ Hj') in E. injection E as <-. done. }
  clear Hjs. induction Hf as [|id j ids js [Hj Hs] Hf [IH1 IH2]]; [split; [done|intros j H; by apply not_elem_of_nil in H]|].
  pose proof (ji_id _ _ _ (ci_jobs _ Hi _ _ Hj)) as Ej. split; [by rewrite fmap_cons, IH1, Ej|].
  intros x [->|Hx]%elem_of_cons; [by rewrite Ej|auto].
Qed.

(** The tables of [_rates]. *)
Lemma rate_tables_ok s js : causal_inv s -> (forall j, j ∈ js -> jobs s !! job_id j = Some j) ->
  exists coefs capacity, foldM (rate_row s) js ([], []) = Ok (coefs, capacity) /\ tables_ok (job_id <$> js) coefs capacity.
Proof.
  intros Hi Hjs. destruct (foldM_inv (fun visited '(coefs, capacity) => tables_ok (job_id <$> visited) coefs capacity) (rate_row s) js ([], []))
    as ([coefs capacity] & Hf & Ht); [| |by eexists _, _].
  - constructor; [apply dall_nil|]. intros id H. by apply not_elem_of_nil in H.
  - intros visited j todo [coefs capacity] Hl Ht. destruct (rate_row_ok s _ coefs capacity j Hi (Hjs j ltac:(set_solver)) Ht) as (c' & k' & -> & Ht').
    exists (c', k'). split; [done|]. by rewrite fmap_app.
Qed.

Lemma tables_problem ids coefs capacity : NoDup ids -> tables_ok ids coefs capacity -> MaxMinRates.problem_ok coefs capacity ids.
Proof.
  intros Hnd [Hpos Hrows]. constructor; [done|done| |].
  - intros id Hid. by destruct (Hrows id Hid).
  - intros id r n Hid Hn. destruct (Hrows id Hid) as (_ & H2 & H3). split; [by eapply H2|]. apply H3, dget_is_Some. eauto.
Qed.

(** Every active job has a positive rate. *)
Record rates_ok (s : service) (d : dict string Q) : Prop := {
  ro_keys : dkeys d = active_ids s;
  ro_positive : forall id r, (id, r) ∈ d -> (0 < r)%Q;
  ro_fair : exists js coefs capacity, foldM (rate_row s) js ([], []) = Ok (coefs, capacity) /\ job_id <$> js = active_ids s /\
    (forall j, j ∈ js -> jobs s !! job_id j = Some j) /\
    MaxMinRates.problem_ok coefs capacity (active_ids s) /\ MaxMinRates.fair coefs capacity (active_ids s) d }.

Lemma rates_total s : causal_inv s -> exists d, _rates s = Ok d /\ rates_ok s d.
Proof.
  intros Hi. unfold _rates. destruct (active_jobs_ok s Hi) as (js & Hjs & Hids & Hin). rewrite Hjs. cbn [rbind].
  destruct (rate_tables_ok s js Hi) as (coefs & capacity & Hf & Ht); [by intros j []%Hin|]. rewrite Hids in Ht.
  pose proof (tables_problem _ _ _ (active_ids_NoDup s) Ht) as Hp. destruct (MaxMinRates.allocate_fair _ _ _ Hp) as (d & Hd & Hfair).
  assert (Hr : rates_ok s d).
  { constructor; [apply (MaxMinRates.fr_keys _ _ _ _ Hfair)| |exists js, coefs, capacity; split_and!; try done; by intros j []%Hin].
    intros id r Hr. assert (Hid : id ∈ active_ids s) by (rewrite <- (MaxMinRates.fr_keys _ _ _ _ Hfair); apply list_elem_of_fmap; by exists (id, r)).
    pose proof (MaxMinRates.fr_positive _ _ _ _ Hfair id Hid) as H0. unfold MaxMinRates.rate, dget_or in H0.
    rewrite (dget_elem _ id r) in H0; [done| |done]. rewrite (MaxMinRates.fr_keys _ _ _ _ Hfair). apply active_ids_NoDup. }
  destruct js as [|j js].
  - exists []. split; [done|]. assert (d = []) as <-; [|done]. cbn in Hids. pose proof (ro_keys _ _ Hr) as Hk. rewrite <- Hids in Hk.
    destruct d; [done|discriminate Hk].
  - exists d. split; [|done]. rewrite Hf. cbn [rbind]. by rewrite Hids.
Qed.

(** ** Exact amounts *)

Lemma floor_spec q : (inject_Z (floor_fraction q) <= q)%Q /\ (q < inject_Z (floor_fraction q + 1))%Q.
Proof.
  assert (E : floor_fraction q = Qfloor q) by (by destruct q). rewrite E. split; [apply Qfloor_le|apply Qlt_floor].
Qed.

Lemma ceil_spec q : (q <= inject_Z (_ceil_fraction q))%Q /\ (inject_Z (_ceil_fraction q - 1) < q)%Q.
Proof.
  destruct q as [n d]. unfold _ceil_fraction, Qle, Qlt, inject_Z. cbn [Qnum Qden].
  pose proof (ceil_div_spec n (Zpos d) ltac:(lia)). split; lia.
Qed.

Lemma floor_nonneg q : (0 <= q)%Q -> 0 <= floor_fraction q.
Proof.
  intros H. destruct (floor_spec q) as [_ H2]. assert (H3 : (inject_Z 0 < inject_Z (floor_fraction q + 1))%Q) by (change (inject_Z 0) with 0%Q; lra).
  rewrite <- Zlt_Qlt in H3. lia.
Qed.

(** A job after it has been served at [rate] from [t0] to [t1]. *)
Definition served (t0 t1 : Z) (rate : Q) (j : job) : job :=
  let exact := exact_amount j rate (t1 - t0) in
  let bytes := integer_bytes j exact in transferred t1 bytes (Qred (exact - inject_Z bytes)) j.

Lemma exact_nonneg j rate d : (0 <= rate_credit j)%Q -> (0 <= rate)%Q -> 0 <= d -> (0 <= exact_amount j rate d)%Q.
Proof.
  intros Hc Hr Hd. unfold exact_amount. rewrite Qred_correct. assert (0 <= rate * inject_Z d / inject_Z NS_PER_SECOND)%Q; [|lra].
  apply Qmult_le_0_compat; [apply Qmult_le_0_compat; [done|by apply MaxMinRates.inject_nonneg]|done].
Qed.

Lemma served_slice t0 t1 rate j : state j = ACTIVE -> 0 <= slice_transferred_bytes j <= slice_total_bytes j -> (0 <= rate_credit j)%Q ->
  (0 <= rate)%Q -> t0 <= t1 -> let j' := served t0 t1 rate j in
  slice_transferred_bytes j <= slice_transferred_bytes j' <= slice_total_bytes j /\ (0 <= rate_credit j')%Q /\
  (slice_transferred_bytes j' < slice_total_bytes j -> (rate_credit j' < 1)%Q) /\
  (inject_Z (slice_transferred_bytes j') + rate_credit j' == inject_Z (slice_transferred_bytes j) + exact_amount j rate (t1 - t0))%Q.
Proof.
  intros Hs Hb Hc Hr Ht. pose proof (exact_nonneg j rate (t1 - t0) Hc Hr ltac:(lia)) as He. cbv zeta. unfold served.
  set (exact := exact_amount j rate (t1 - t0)) in *. destruct (floor_spec exact) as [Hf1 Hf2]. pose proof (floor_nonneg exact He) as Hf0.
  cbn [transferred slice_transferred_bytes rate_credit]. set (n := integer_bytes j exact).
  assert (Hn : 0 <= n /\ n <= slice_total_bytes j - slice_transferred_bytes j /\ n <= floor_fraction exact
    /\ (n < slice_total_bytes j - slice_transferred_bytes j -> n = floor_fraction exact)) by (unfold n, integer_bytes; lia).
  destruct Hn as (Hn0 & Hn1 & Hn2 & Hn3). rewrite inject_Z_plus in Hf2. change (inject_Z 1) with 1%Q in Hf2.
  assert (Hn2' : (inject_Z n <= inject_Z (floor_fraction exact))%Q) by (by rewrite <- Zle_Qle).
  assert (E : (if n <=? 0 then slice_transferred_bytes j else slice_transferred_bytes j + n) = slice_transferred_bytes j + n)
    by (destruct (Z.leb_spec n 0); lia). rewrite E. split_and!; try lia; rewrite ?Qred_correct.
  - lra.
  - intros Hlt. rewrite Hn3 by lia. lra.
  - rewrite inject_Z_plus. ring.
Qed.

(** ** Progress *)

Record moves (s s' : service) : Prop := {
  mv_inv : causal_inv s'; mv_keeps : keeps s s'; mv_now : now s' = now s; mv_balance : forall e, balance s' e = balance s e }.

Lemma steps_moves s s' : steps s s' -> moves s s'.
Proof. by intros []. Qed.
Lemma moves_trans s1 s2 s3 : moves s1 s2 -> moves s2 s3 -> moves s1 s3.
Proof. intros [] []. constructor; [done|by etrans|congruence|]. intros e. etrans; eauto. Qed.

(** Logs and counters that no invariant mentions. *)
Lemma log_moves s rows work : causal_inv s -> moves s (log_activity rows work s).
Proof.
  intros Hi. pose proof Hi as []. constructor; [|constructor; try done; intros id; cbn; reflexivity|done|done].
  constructor; try done. destruct ci_drains0. by constructor.
Qed.

Definition with_served (t1 : Z) (rate : Q) (id : string) (j : job) (s : service) : service :=
  set_jobs (<[id := served (now s) t1 rate j]> (jobs s)) s.

Lemma served_moves s t1 rate id j : causal_inv s -> jobs s !! id = Some j -> state j = ACTIVE -> (0 <= rate)%Q -> now s <= t1 ->
  moves s (with_served t1 rate id j s).
Proof.
  intros Hi Hj Hs Hr Ht. pose proof (ci_jobs _ Hi _ _ Hj) as Hji. pose proof Hji as [Hid Hro Hb Hnn Hsl Hst]. rewrite Hs in Hst.
  destruct Hst as (Hst & Hc & _). destruct (served_slice (now s) t1 rate j Hs Hsl Hc Hr Ht) as (H1 & H2 & H3 & _).
  set (s' := with_served t1 rate id j s). set (j' := served (now s) t1 rate j) in *.
  assert (Hev : evolves j j') by (constructor; cbn; [split_and!; done|lia]).
  assert (Hframe : cfg s' = cfg s /\ channel_groups s' = channel_groups s /\ window s' = window s /\ states s' = states s
    /\ known_ids s' = known_ids s /\ queues s' = queues s /\ now s' = now s) by done.
  constructor; [|by eapply (update_keeps s s')|done|by eapply (update_balance s s')].
  eapply (job_update_inv s s' id j j'); try done.
  - constructor; try done; [by eapply evolves_route|cbn in *; lia|].
    change (state j') with (state j). change (slice_total_bytes j') with (slice_total_bytes j). rewrite Hs. done.
  - by rewrite Hs.
  - change (state j') with (state j). pose proof (ci_marks _ Hi id) as Hm. by rewrite Hj in Hm.
  - destruct (ci_drains _ Hi) as [D1 D2 D3]. constructor; try done. intros d i Hd. cbn. intros [[E <-]|[? ?]]%lookup_insert_Some; [|eauto].
    apply (D3 d j Hd). by rewrite <- E.
  - apply (ci_offset _ Hi).
  - apply (ci_pending _ Hi).
  - apply (ci_quota _ Hi).
Qed.

Lemma progress_job_ok s target id rate j : causal_inv s -> jobs s !! id = Some j -> state j = ACTIVE -> (0 <= rate)%Q -> now s <= target ->
  total (progress_job target (id, rate)) (fun _ s' => moves s s' /\ jobs s' = <[id := served (now s) target rate j]> (jobs s) /\
    active s' = active s) s.
Proof.
  intros Hi Hj Hs Hr Ht. unfold progress_job. wp_steps. eapply wp_lift; [by apply find_job_ok|]. cbv zeta. wp_steps.
  pose proof (served_moves s target rate id j Hi Hj Hs Hr Ht) as Hm. fold (served (now s) target rate j).
  fold (with_served target rate id j s). set (s1 := with_served target rate id j s) in *.
  destruct (integer_bytes j _ <=? 0); [by wp_steps|]. pose proof (mv_inv _ _ Hm) as Hi1.
  assert (Hro : route_ok (cfg s1) (served (now s) target rate j)).
  { apply (ji_route _ id), (ci_jobs _ Hi1). apply lookup_insert_eq. }
  destruct (activity_rows_ok (cfg s1) (served (now s) target rate j) (integer_bytes j (exact_amount j rate (target - now s)))
    (now s) target (ci_cfg _ Hi1) Hro) as (rows & Hrows). wp_steps. eapply wp_lift; [done|]. wp_steps.
  destruct (phases_total s (served (now s) target rate j) (ci_cfg _ Hi) (ci_groups _ Hi) Hro) as (ph & Hph & _). eapply wp_lift; [done|]. wp_steps.
  pose proof (log_moves s1 rows (window_resource_work s1) Hi1) as Hm2. set (s2 := log_activity rows _ s1) in *.
  split; [|done]. eapply moves_trans; [exact Hm|]. eapply moves_trans; [exact Hm2|]. apply log_moves, (mv_inv _ _ Hm2).
Qed.

(** Every job has been served at its rate. *)
Definition all_served (t1 : Z) (rates : dict string Q) (s s' : service) : Prop := forall id,
  jobs s' !! id = (fun j => match dget rates id with Some r => served (now s) t1 r j | None => j end) <$> jobs s !! id.

Lemma progress_ok s target rates : causal_inv s -> rates_ok s rates -> now s < target ->
  total (_progress target rates) (fun _ s' => moves s s' /\ all_served target rates s s' /\ active s' = active s) s.
Proof.
  intros Hi Hr Ht. unfold _progress. wp_steps. destruct (Z.leb_spec (target - now s) 0) as [|_]; [lia|].
  assert (Hnd : NoDup (dkeys rates)) by (rewrite (ro_keys _ _ Hr); apply active_ids_NoDup).
  eapply wp_mono. { apply (wp_forM (fun visited s' => moves s s' /\ all_served target visited s s' /\ active s' = active s)).
    - split; [by apply steps_moves, steps_refl|]. split; [|done]. intros id. cbn. by destruct (jobs s !! id).
    - intros visited [id r] todo s' Hl (Hm & Hall & Hact). assert (Hin : (id, r) ∈ rates) by (rewrite Hl; set_solver).
      assert (Hid : id ∈ active_ids s) by (rewrite <- (ro_keys _ _ Hr); apply list_elem_of_fmap; by exists (id, r)).
      apply active_job in Hid as (j & Hj & Hs); [|done].
      assert (Hnv : dget visited id = None).
      { apply dget_None. rewrite Hl in Hnd. unfold dkeys in Hnd. rewrite fmap_app, fmap_cons in Hnd. apply NoDup_app in Hnd as (_ & Hx & _).
        intros Hv. apply (Hx id Hv). cbn. set_solver. }
      assert (Hj' : jobs s' !! id = Some j) by (rewrite Hall, Hj; cbn; by rewrite Hnv).
      eapply wp_mono; [apply (progress_job_ok s' target id r j); try done|].
      + apply (mv_inv _ _ Hm).
      + apply Qlt_le_weak. by eapply (ro_positive _ _ Hr).
      + rewrite (mv_now _ _ Hm). lia.
      + intros _ s2 (Hm2 & Hjobs & Ha2). split; [by eapply moves_trans|]. split; [|congruence]. intros i. rewrite Hjobs, (mv_now _ _ Hm).
        rewrite <- (dkeys_dset_notin visited id r) by (by apply dget_None). rewrite dget_dset.
        case_decide as E; [subst i; by rewrite lookup_insert_eq, Hj|]. rewrite lookup_insert_ne by done. apply Hall. }
  done.
Qed.

(** ** Completion of slices *)

Lemma drain_le_time a b : drain_le a b = true -> drain_time a <= drain_time b.
Proof.
  destruct a as [[[t q] i] n], b as [[[t' q'] i'] n']. unfold drain_le, lex, drain_time. cbn.
  repeat case_decide; unfold zle; simplify_eq; try lia; intros H; apply Z.leb_le in H; lia.
Qed.

#[export] Instance drain_order : BoolOrder drain_le.
Proof. unfold drain_le. apply _. Qed.

(** The slice of a job has been transferred. *)
Definition to_drain (t : Z) (id : string) (j : job) (s : service) : service :=
  bump_sequence (set_draining (sinsert drain_le (t, next_sequence s, id, slice_total_bytes j) (draining s))
    (set_active (active s ∖ {[id]}) (set_jobs (<[id := with_state DRAINING j]> (jobs s)) s))).

Lemma to_drain_steps s t id j : causal_inv s -> jobs s !! id = Some j -> state j = ACTIVE ->
  slice_transferred_bytes j = slice_total_bytes j -> steps s (to_drain t id j s).
Proof.
  intros Hi Hj Hs Hdone. pose proof (ci_jobs _ Hi _ _ Hj) as [Hid Hro Hb Hnn Hsl Hst]. rewrite Hs in Hst.
  pose proof (ci_marks _ Hi id) as Hmk. rewrite Hj in Hmk. cbn [fmap option_fmap option_map expect] in Hmk. rewrite Hs in Hmk.
  injection Hmk as M1 M2 M3. apply bool_decide_eq_false in M2.
  set (s' := to_drain t id j s). set (j' := with_state DRAINING j). assert (Hev : evolves j j') by (constructor; cbn; [split_and!; done|lia]).
  assert (Hperm : drain_ids s' ≡ₚ id :: drain_ids s) by (unfold drain_ids; cbn; by rewrite sinsert_perm).
  assert (Hframe : cfg s' = cfg s /\ channel_groups s' = channel_groups s /\ window s' = window s /\ states s' = states s
    /\ known_ids s' = known_ids s /\ queues s' = queues s /\ now s' = now s) by done.
  constructor; [|by eapply (update_keeps s s')|done| |by eapply (update_balance s s')].
  - eapply (job_update_inv s s' id j j'); try done.
    + constructor; try done; [by eapply evolves_route|]. cbn. tauto.
    + by rewrite Hs.
    + unfold marks. change (pending s') with (pending s). rewrite M3. cbn [expect state j' with_state].
      rewrite (bool_decide_eq_false_2 (id ∈ active s')) by (cbn; set_solver). rewrite (bool_decide_eq_true_2 (id ∈ drain_ids s')); [done|].
      rewrite Hperm. set_solver.
    + intros i Hne. unfold marks. change (pending s') with (pending s). f_equal. f_equal; apply bool_decide_ext; [cbn; set_solver|].
      rewrite Hperm. set_solver.
    + destruct (ci_drains _ Hi) as [D1 D2 D3]. constructor.
      * by apply (sinsert_sorted_order drain_le).
      * rewrite Hperm. by apply NoDup_cons.
      * intros d i Hd Hi'. cbn in Hd, Hi'. apply sinsert_elem in Hd as [->|Hd].
        -- cbn in Hi'. rewrite lookup_insert_eq in Hi'. by injection Hi' as <-.
        -- rewrite lookup_insert_ne in Hi'; [eauto|]. intros E. apply M2, list_elem_of_fmap. exists d. done.
    + apply (ci_offset _ Hi).
    + apply (ci_pending _ Hi).
    + apply (ci_quota _ Hi).
  - intros Hset i x. cbn. intros [[<- <-]|[? ?]]%lookup_insert_Some; [done|by eapply Hset].
Qed.

Lemma finish_transfer_ok s id j : causal_inv s -> jobs s !! id = Some j -> state j = ACTIVE ->
  total (finish_transfer id) (fun _ s' => steps s s' /\ (forall i, i <> id -> jobs s' !! i = jobs s !! i) /\
    exists j', jobs s' !! id = Some j' /\ (state j' = ACTIVE -> slice_transferred_bytes j' < slice_total_bytes j')) s.
Proof.
  intros Hi Hj Hs. unfold finish_transfer. wp_steps. eapply wp_lift; [by apply find_job_ok|].
  pose proof (ci_jobs _ Hi _ _ Hj) as Hji. destruct (Z.eqb_spec (slice_transferred_bytes j) (slice_total_bytes j)) as [E|E]; cbn [negb].
  2:{ wp_steps. split; [by apply steps_refl|]. split; [done|]. exists j. split; [done|]. pose proof (ji_slice _ _ _ Hji). lia. }
  wp_steps. assert (Hev : evolves j (with_state DRAINING j)) by (constructor; cbn; [split_and!; done|lia]).
  destruct (drain_latency_total s (with_state DRAINING j) (ci_cfg _ Hi) (ci_groups _ Hi)) as (lat & Hlat & _).
  { eapply evolves_route; [exact Hev|]. apply (ji_route _ _ _ Hji). }
  eapply wp_lift; [done|]. wp_steps. split; [by apply (to_drain_steps s (now s + lat) id j)|]. cbn. split.
  - intros i Hne. by rewrite lookup_insert_ne.
  - rewrite lookup_insert_eq. eexists. split; [done|]. done.
Qed.

Section order.
(** Any order of iteration over the active set. *)
Context (set_order : gset string -> list string) (Hset : forall X, set_order X ≡ₚ elements X).

Lemma finish_transfers_ok s : causal_inv s -> total (_finish_transfers set_order) (fun _ s' => steps s s' /\ settled s') s.
Proof using Hset.
  intros Hi. unfold _finish_transfers. wp_steps. eapply wp_mono.
  { apply (wp_forM (fun visited s' => steps s s' /\ (forall i, i ∉ visited -> jobs s' !! i = jobs s !! i) /\
      forall i j, i ∈ visited -> jobs s' !! i = Some j -> state j = ACTIVE -> slice_transferred_bytes j < slice_total_bytes j)).
    - split; [by apply steps_refl|]. split; [done|]. intros i j H. by apply not_elem_of_nil in H.
    - intros visited id todo s' Hl (Hst & Hrest & Hdone). assert (Hid : id ∈ active_ids s).
      { unfold active_ids. rewrite isort_elem, <- Hset, Hl. set_solver. }
      apply active_job in Hid as (j & Hj & Hs); [|done].
      assert (Hnv : id ∉ visited).
      { assert (Hnd : NoDup (set_order (active s))) by (rewrite Hset; apply NoDup_elements). rewrite Hl in Hnd.
        apply NoDup_app in Hnd as (_ & Hx & _). intros Hv. apply (Hx id Hv). set_solver. }
      eapply wp_mono; [apply (finish_transfer_ok s' id j); [apply (st_inv _ _ Hst)|by rewrite Hrest|done]|].
      intros _ s2 (Hst2 & Hrest2 & j' & Hj' & Hlt). split; [by eapply steps_trans|]. split.
      + intros i Hni. rewrite Hrest2 by set_solver. apply Hrest. set_solver.
      + intros i x [Hv| ->%list_elem_of_singleton]%elem_of_app Hx Hsx; [|by assert (x = j') as -> by congruence; auto].
        destruct (decide (i = id)) as [->|Hne]; [done|]. rewrite Hrest2 in Hx by done. eauto. }
  intros [] s' (Hst & Hrest & Hdone). split; [done|]. intros i j Hj Hs. destruct (decide (i ∈ set_order (active s))) as [Hin|Hnin]; [eauto|].
  exfalso. apply Hnin. rewrite Hset, <- (isort_elem sle). change (i ∈ active_ids s). apply active_job; [done|]. rewrite <- Hrest by done. eauto.
Qed.
End order.

(** ** Drains *)

(** The slice at the head of the heap has drained. *)
Definition after_drain (t : Z) (id : string) (n : Z) (rest : list drain) (j : job) (s : service) : service :=
  let s := set_completed (dset (completed_since_read s) id (dget_or (completed_since_read s) id 0 + n))
             (set_jobs (<[id := drained t n j]> (jobs s)) (set_draining rest s)) in
  if unadmitted_bytes j =? 0 then log_completion id (maintenance_id j) s else s.

Lemma after_drain_steps s t q id n rest j : causal_inv s -> draining s = (t, q, id, n) :: rest -> jobs s !! id = Some j ->
  steps s (after_drain t id n rest j s).
Proof.
  intros Hi Hd Hj. pose proof (ci_jobs _ Hi _ _ Hj) as [Hid Hro Hb Hnn Hsl Hst].
  destruct (ci_drains _ Hi) as [D1 D2 D3]. unfold drain_ids in D2. rewrite Hd in D1, D2. cbn [fmap list_fmap] in D2. apply NoDup_cons in D2 as [D2 D2'].
  assert (Hn : slice_total_bytes j = n) by (apply (D3 (t, q, id, n) j); [rewrite Hd; set_solver|done]).
  pose proof (ci_marks _ Hi id) as Hmk. unfold marks in Hmk. rewrite Hj in Hmk. cbn [fmap option_fmap option_map] in Hmk.
  assert (Hs : state j = DRAINING).
  { rewrite (bool_decide_eq_true_2 (id ∈ drain_ids s)) in Hmk; [by destruct (state j)|]. unfold drain_ids. rewrite Hd. cbn. set_solver. }
  rewrite Hs in Hmk, Hst. cbn [expect] in Hmk. injection Hmk as M1 _ M3. apply bool_decide_eq_false in M1, M3.
  set (s' := after_drain t id n rest j s). set (j' := drained t n j). assert (Hev : evolves j j') by (constructor; cbn; [split_and!; done|lia]).
  assert (Hjobs : jobs s' = <[id := j']> (jobs s)) by (unfold s', after_drain; by destruct (_ =? _)).
  assert (Hact : active s' = active s) by (unfold s', after_drain; by destruct (_ =? _)).
  assert (Hdr : draining s' = rest) by (unfold s', after_drain; by destruct (_ =? _)).
  assert (Hoff : completion_offset s' = completion_offset s) by (unfold s', after_drain; by destruct (_ =? _)).
  assert (Hquota : quota_remaining s' = quota_remaining s) by (unfold s', after_drain; by destruct (_ =? _)).
  assert (Hids : window_completion_ids s' = window_completion_ids s ++ if unadmitted_bytes j =? 0 then [id] else []).
  { unfold s', after_drain. destruct (_ =? _); [done|]. cbn. by rewrite app_nil_r. }
  assert (Hpend : pending s' = pending s ++ if unadmitted_bytes j =? 0 then [id] else []).
  { unfold pending. rewrite Hoff, Hids. apply drop_app_le, (ci_offset _ Hi). }
  assert (Hframe : cfg s' = cfg s /\ channel_groups s' = channel_groups s /\ window s' = window s /\ states s' = states s
    /\ known_ids s' = known_ids s /\ queues s' = queues s /\ now s' = now s) by (unfold s', after_drain; by destruct (_ =? _)).
  assert (Hdids : drain_ids s = id :: drain_ids s') by (unfold drain_ids; by rewrite Hd, Hdr).
  constructor; [|by eapply (update_keeps s s')|apply Hframe| |by eapply (update_balance s s')].
  - eapply (job_update_inv s s' id j j'); try done.
    + constructor; try done; [by eapply evolves_route|cbn; lia|cbn; lia|]. cbn. destruct (Z.eqb_spec (unadmitted_bytes j) 0); lia.
    + by rewrite Hs.
    + unfold marks. rewrite Hact, Hpend. rewrite (bool_decide_eq_false_2 (id ∈ active s)), (bool_decide_eq_false_2 (id ∈ drain_ids s'));
        [|by unfold drain_ids; rewrite Hdr|done]. cbn [expect state j' drained]. destruct (_ =? _).
      * rewrite bool_decide_eq_true_2 by set_solver. done.
      * rewrite app_nil_r, bool_decide_eq_false_2 by done. done.
    + intros i Hne. unfold marks. rewrite Hact, Hpend, Hdids. f_equal; [f_equal|]; apply bool_decide_ext; [set_solver|].
      destruct (_ =? _); set_solver.
    + constructor; [rewrite Hdr; apply D1|unfold drain_ids; by rewrite Hdr|]. intros d i. rewrite Hdr, Hjobs. intros Hin.
      rewrite lookup_insert_ne; [apply D3; rewrite Hd; set_solver|]. intros E. apply D2, list_elem_of_fmap. exists d. done.
    + rewrite Hoff, Hids, length_app. pose proof (ci_offset _ Hi). lia.
    + rewrite Hpend. destruct (_ =? _); [|rewrite app_nil_r; apply (ci_pending _ Hi)].
      apply NoDup_app. split_and!; [apply (ci_pending _ Hi)|set_solver|apply NoDup_singleton].
    + unfold quota_ok. destruct Hframe as (-> & _ & -> & -> & _). rewrite Hquota. apply (ci_quota _ Hi).
  - intros Hset i x. rewrite Hjobs. intros [[<- <-]|[? ?]]%lookup_insert_Some; [|by eapply Hset]. cbn. by destruct (_ =? _).
Qed.

(** All drains that are due are done. *)
Definition no_due (s : service) : Prop := forall d, d ∈ draining s -> now s < drain_time d.

Lemma drain_loop_ok l s : causal_inv s -> draining s = l -> total (drain_loop l) (fun _ s' => steps s s' /\ no_due s') s.
Proof.
  revert s. induction l as [|[[[t q] id] n] rest IH]; intros s Hi Hd; cbn [drain_loop].
  { wp_steps. split; [by apply steps_refl|]. intros d. rewrite Hd. intros H. by apply not_elem_of_nil in H. }
  wp_steps. destruct (Z.leb_spec (drain_time (t, q, id, n)) (now s)) as [Hle|Hgt].
  2:{ wp_steps. split; [by apply steps_refl|]. intros d. rewrite Hd. destruct (ci_drains _ Hi) as [D1 _ _]. rewrite Hd in D1. destruct D1 as [D1 _].
      rewrite Forall_forall in D1. intros [->|H]%elem_of_cons; [done|]. apply D1, drain_le_time in H. lia. }
  assert (Hj : exists j, jobs s !! id = Some j).
  { pose proof (ci_marks _ Hi id) as Hmk. unfold marks in Hmk. rewrite (bool_decide_eq_true_2 (id ∈ drain_ids s)) in Hmk.
    - destruct (jobs s !! id) as [j|]; [eauto|]. discriminate Hmk.
    - unfold drain_ids. rewrite Hd. cbn. set_solver. }
  destruct Hj as [j Hj]. pose proof (after_drain_steps s t q id n rest j Hi Hd Hj) as Hst. wp_steps. unfold finish_drain. wp_steps.
  eapply wp_lift; [by apply find_job_ok|]. wp_steps.
  assert (Hnext : forall s', s' = after_drain t id n rest j s -> total (drain_loop rest) (fun _ s'' => steps s s'' /\ no_due s'') s').
  { intros s' ->. eapply wp_mono; [apply IH; [apply (st_inv _ _ Hst)|unfold after_drain; by destruct (_ =? _)]|].
    intros _ s'' [H1 H2]. split; [by eapply steps_trans|done]. }
  unfold after_drain in Hnext. destruct (unadmitted_bytes j =? 0); wp_steps; by apply Hnext.
Qed.

Lemma finish_drains_ok s : causal_inv s -> total _finish_drains (fun _ s' => steps s s' /\ no_due s') s.
Proof. intros Hi. unfold _finish_drains. wp_steps. by apply drain_loop_ok. Qed.

(** ** Event times *)

Lemma transfer_times_ok s rates : causal_inv s -> rates_ok s rates ->
  exists l, transfer_times s rates = Ok l /\ (forall t, t ∈ l -> now s < t) /\
    forall id r j, (id, r) ∈ rates -> jobs s !! id = Some j -> finish_time s j r ∈ l.
Proof.
  intros Hi Hr. unfold transfer_times.
  assert (Hall : filter (fun x => stalled x.2 = false) rates = rates).
  { apply filter_all. intros [id r] Hin. cbn. unfold stalled. apply not_true_iff_false. rewrite Qle_bool_iff.
    pose proof (ro_positive _ _ Hr id r Hin). lra. }
  rewrite Hall. match goal with |- context [mapR ?g rates] => set (f := g) end. assert (Hf : forall id r, (id, r) ∈ rates -> exists j, jobs s !! id = Some j /\ f (id, r) = Ok (finish_time s j r)).
  { intros id r Hin. assert (Hid : id ∈ active_ids s) by (rewrite <- (ro_keys _ _ Hr); apply list_elem_of_fmap; by exists (id, r)).
    apply active_job in Hid as (j & Hj & _); [|done]. exists j. split; [done|]. unfold f. by rewrite (find_job_ok _ _ _ Hj). }
  destruct (mapR_total f rates) as [l Hl]. { intros [id r] Hin. destruct (Hf id r Hin) as (j & _ & ->). eauto. }
  exists l. split; [done|]. split.
  - intros t Ht. destruct (mapR_elem _ _ _ _ Hl Ht) as ([id r] & Hin & E). destruct (Hf id r Hin) as (j & _ & E'). rewrite E' in E.
    injection E as <-. unfold finish_time. lia.
  - intros id r j Hin Hj. destruct (Hf id r Hin) as (j' & Hj' & E). assert (j' = j) as -> by congruence. apply mapR_Ok in Hl.
    apply list_elem_of_lookup in Hin as [i Hin]. destruct (Forall2_lookup_l _ _ _ _ _ Hl Hin) as (y & Hy & E'). rewrite E in E'. injection E' as <-.
    by eapply list_elem_of_lookup_2.
Qed.

Lemma next_transfer_ok s rates : causal_inv s -> rates_ok s rates ->
  exists o, _next_transfer_finish s rates = Ok o /\ (forall t, o = Some t -> now s < t) /\
    forall id r j, (id, r) ∈ rates -> jobs s !! id = Some j -> exists t, o = Some t /\ t <= finish_time s j r.
Proof.
  intros Hi Hr. unfold _next_transfer_finish. destruct (transfer_times_ok s rates Hi Hr) as (l & -> & H1 & H2). cbn [rbind].
  eexists. split; [done|]. pose proof (zmin_list_spec l) as Hm. split.
  - intros t E. rewrite E in Hm. apply H1. tauto.
  - intros id r j Hin Hj. pose proof (H2 id r j Hin Hj) as Hl. destruct (zmin_list l) as [t|]; [|subst l; by apply not_elem_of_nil in Hl].
    exists t. split; [done|]. by apply Hm.
Qed.

Lemma arrivals_later s t : t ∈ arrivals s -> now s < t.
Proof. unfold arrivals. intros (j & -> & [[_ H] _]%list_elem_of_filter)%list_elem_of_fmap. done. Qed.

Lemma candidates_later s horizon transfer : no_due s -> now s < horizon -> (forall t, transfer = Some t -> now s < t) ->
  forall t, t ∈ candidates s horizon transfer -> now s < t.
Proof.
  intros Hd Hh Ht t. unfold candidates. rewrite elem_of_cons, !elem_of_app. intros [->|[H|[H|H]]]; [done|..].
  - destruct transfer; [|by apply not_elem_of_nil in H]. apply list_elem_of_singleton in H as ->. auto.
  - destruct (draining s) as [|d l] eqn:E; [by apply not_elem_of_nil in H|]. apply list_elem_of_singleton in H as ->. apply Hd. rewrite E. set_solver.
  - pose proof (zmin_list_spec (arrivals s)) as Hm. destruct (zmin_list (arrivals s)); [|by apply not_elem_of_nil in H].
    apply list_elem_of_singleton in H as ->. apply arrivals_later. tauto.
Qed.

(** ** The loop *)

(** From one moment to a later one. *)
Record runs (s s' : service) : Prop := {
  rn_inv : causal_inv s'; rn_keeps : keeps s s'; rn_settled : settled s'; rn_balance : forall e, balance s' e = balance s e }.

Lemma runs_trans s1 s2 s3 : runs s1 s2 -> runs s2 s3 -> runs s1 s3.
Proof. intros [] []. constructor; [done|by etrans|done|]. intros e. etrans; eauto. Qed.
Lemma steps_runs s s' : settled s -> steps s s' -> runs s s'.
Proof. intros Hs []. constructor; auto. Qed.

Lemma clock_inv s t : causal_inv s -> (forall w, window s = Some w -> t <= w.2) -> causal_inv (set_now t s).
Proof. intros Hi Ht. destruct Hi. constructor; try done. destruct ci_drains0. by constructor. Qed.

Lemma activates_no_due s s' : activates s s' -> no_due s -> no_due s'.
Proof. intros [Hs _ [Hd _]] H d. rewrite Hd, (st_now _ _ Hs). auto. Qed.

(** Between an event and the next one, every job is served at its rate. *)
Record event (horizon : Z) (s1 : service) (rates : dict string Q) (target : Z) (s2 : service) : Prop := {
  et_rates : _rates s1 = Ok rates /\ rates_ok s1 rates;
  et_later : now s1 < target <= horizon;
  et_first : forall t, t ∈ candidates s1 horizon None \/ (exists id r j, (id, r) ∈ rates /\ jobs s1 !! id = Some j /\ t = finish_time s1 j r) ->
    target <= t;
  et_served : all_served target rates s1 s2 }.

Section order.
Context (set_order : gset string -> list string) (Hset : forall X, set_order X ≡ₚ elements X).

Lemma advance_round_ok horizon s : causal_inv s -> settled s -> now s <= horizon -> (exists w, window s = Some w /\ horizon <= w.2) ->
  total (advance_round set_order horizon) (fun r s' => runs s s' /\
    match r with
    | Some _ => s' = s /\ now s = horizon
    | None => now s < now s' <= horizon /\ exists s1 rates s2, steps s s1 /\ (window_open s -> exhausted s1) /\
        event horizon s1 rates (now s') s2 /\ steps (set_now (now s') s2) s'
    end) s.
Proof using Hset.
  intros Hi Hse Hn Hwin. unfold advance_round. wp_steps. destruct (Z.leb_spec horizon (now s)) as [Hle|Hlt].
  { wp_steps. split; [by apply steps_runs, steps_refl|]. split; [done|lia]. }
  wp_steps. eapply wp_mono; [by apply finish_drains_ok|]. intros _ s0 [Hst0 Hdue]. wp_steps.
  eapply wp_mono; [apply activate_ok, (st_inv _ _ Hst0)|]. intros _ s1 [Ha Hex]. wp_steps.
  pose proof (activates_no_due _ _ Ha Hdue) as Hdue1. pose proof (steps_trans _ _ _ Hst0 (av_steps _ _ Ha)) as Hst1. clear Ha Hdue.
  pose proof (st_inv _ _ Hst1) as Hi1. pose proof (st_now _ _ Hst1) as Hn1.
  destruct (rates_total s1 Hi1) as (rates & Hr & Hro). eapply wp_lift; [done|]. wp_steps.
  destruct (next_transfer_ok s1 rates Hi1 Hro) as (transfer & Htr & Htr1 & Htr2). eapply wp_lift; [done|]. wp_steps.
  pose proof (candidates_later s1 horizon transfer Hdue1 ltac:(lia) Htr1) as Hlater.
  assert (Hf : filter (fun v => now s1 <= v) (candidates s1 horizon transfer) = candidates s1 horizon transfer).
  { apply filter_all. intros t Ht%Hlater. lia. }
  pose proof (zmin_list_spec (candidates s1 horizon transfer)) as Hmin.
  destruct (zmin_list (candidates s1 horizon transfer)) as [target|] eqn:Emin; [|discriminate Hmin]. destruct Hmin as [Hin Hmin].
  eapply wp_lift. { unfold min_of. by rewrite Hf, Emin. }
  pose proof (Hlater target Hin) as Hlt1. destruct (Z.eqb_spec target (now s1)) as [|_]; [lia|]. wp_steps.
  eapply wp_mono; [apply (progress_ok s1 target rates Hi1 Hro Hlt1)|]. intros _ s2 (Hm & Hserved & _). wp_steps.
  pose proof (mv_keeps _ _ Hm) as Hk2. pose proof (Hmin horizon ltac:(unfold candidates; set_solver)) as Hth.
  assert (Hi2 : causal_inv (set_now target s2)).
  { apply clock_inv; [apply (mv_inv _ _ Hm)|]. intros w Hw. destruct Hwin as (w' & Hw' & Hw2). rewrite (kp_window _ _ Hk2), (kp_window _ _ (st_keeps _ _ Hst1)) in Hw.
    assert (w' = w) as -> by congruence. lia. }
  eapply wp_mono; [by apply (finish_transfers_ok set_order Hset)|]. intros _ s3 [Hst3 Hse3]. wp_steps.
  pose proof (st_now _ _ Hst3) as Hn3. cbn in Hn3. split.
  - constructor; [apply (st_inv _ _ Hst3)| |done|].
    + etrans; [apply (st_keeps _ _ Hst1)|]. etrans; [exact Hk2|]. etrans; [|apply (st_keeps _ _ Hst3)]. by destruct Hk2; constructor.
    + intros e. rewrite (st_balance _ _ Hst3). change (balance (set_now target s2) e) with (balance s2 e).
      rewrite (mv_balance _ _ Hm). apply (st_balance _ _ Hst1).
  - rewrite Hn3. split; [lia|]. exists s1, rates, s2. split; [done|]. split.
    { intros (w & Hw & Hlw). apply Hex. exists w. by rewrite (kp_window _ _ (st_keeps _ _ Hst0)), (st_now _ _ Hst0). }
    split; [|done]. constructor; [done|lia| |done].
    intros t [Ht|(id & r & j & Hir & Hj & ->)].
    + apply Hmin. unfold candidates in *. set_solver.
    + destruct (Htr2 id r j Hir Hj) as (t & -> & Hle). assert (target <= t); [|lia]. apply Hmin. unfold candidates. set_solver.
Qed.

Lemma event_loop_ok horizon s : causal_inv s -> settled s -> now s <= horizon -> (exists w, window s = Some w /\ horizon <= w.2) ->
  total (bloop (advance_fuel s horizon) (advance_round set_order horizon)) (fun _ s' => runs s s' /\ now s' = horizon) s.
Proof using Hset.
  intros Hi Hse Hn (w & Hw & Hwh).
  apply (wp_bloop (fun s' => runs s s' /\ now s' <= horizon) (fun s' => horizon - now s')).
  - intros s' [Hr Hle]. eapply wp_mono.
    { apply advance_round_ok; [apply (rn_inv _ _ Hr)|apply (rn_settled _ _ Hr)|done|]. exists w. by rewrite (kp_window _ _ (rn_keeps _ _ Hr)). }
    intros [[]|] s2 [Hr2 H2].
    + destruct H2 as [-> ?]. done.
    + destruct H2 as [H2 _]. split; [|lia]. split; [by eapply runs_trans|lia].
  - intros s' [_ H]. lia.
  - split; [by apply steps_runs, steps_refl|done].
  - unfold advance_fuel. rewrite Z2Pos.id; lia.
Qed.
End order.
End CausalInvariant.
