(* ===== verification/CausalTheorems.v ===== *)
(** * CausalTheorems: what the event-driven topology service guarantees

    Receipts, histories of operations, and the theorems about them, from the
    invariant of [CausalInvariant]. *)

From Stdlib Require Import QArith Lqa.
From S2P Require Import Prelude ProgramLogic BasicFabric TopologyConfig TopologyService TopologyAllocation TopologyInvariant.
From S2P Require Import MaxMinRates CausalService CausalInvariant.

Module CausalTheorems.
Import TopologyConfig ProgramLogic CausalService CausalInvariant.
#[local] Open Scope Z_scope.

(** ** Receipts *)

Lemma buffer_bounds_total s : causal_inv s -> exists b, _buffer_bounds s = Ok b.
Proof.
  intros Hi. unfold _buffer_bounds. match goal with |- context [mapR ?f ?l] => destruct (mapR_total f l) as [b ->]; [|eauto] end.
  intros [st bank] _. unfold stack_bound. match goal with |- context [mapR ?f ?l] => destruct (mapR_total f l) as [rows ->]; [|cbn [rbind]; eauto] end.
  intros j [_ Hj]%list_elem_of_filter. apply list_elem_of_fmap in Hj as ([id j'] & -> & Hj). apply elem_of_map_to_list in Hj. cbn [snd].
  destruct (buffer_stacks_total (cfg s) j' (ci_cfg _ Hi) (ji_route _ _ _ (ci_jobs _ Hi _ _ Hj))) as (l & ->). cbn [rbind]. eauto.
Qed.

Lemma drain_job s d : causal_inv s -> d ∈ draining s -> exists j, jobs s !! d.1.2 = Some j /\ state j = DRAINING.
Proof.
  intros Hi Hd. pose proof (ci_marks _ Hi d.1.2) as Hm. unfold marks in Hm. rewrite (bool_decide_eq_true_2 (d.1.2 ∈ drain_ids s)) in Hm.
  - destruct (jobs s !! d.1.2) as [j|]; [|discriminate Hm]. exists j. split; [done|]. cbn in Hm. by destruct (state j).
  - apply list_elem_of_fmap. by exists d.
Qed.

Lemma next_completion_total s : causal_inv s -> exists o, next_completion_ns s = Ok o.
Proof.
  intros Hi. unfold next_completion_ns. destruct (rates_total s Hi) as (rates & -> & Hr). cbn [rbind].
  destruct (transfer_times_ok s rates Hi Hr) as (l & Hl & _).
  match goal with |- context [rbind (mapR ?f rates) _] => destruct (mapR_total f rates) as [? ->] end.
  { intros [id r] Hin. assert (Hid : id ∈ active_ids s) by (rewrite <- (ro_keys _ _ Hr); apply list_elem_of_fmap; by exists (id, r)).
    apply active_job in Hid as (j & Hj & _); [|done]. exists j. by apply find_job_ok. }
  cbn [rbind]. rewrite Hl. cbn [rbind]. case_match; [|eauto].
  match goal with |- context [mapR ?f ?l] => destruct (mapR_total f l) as [rows ->]; [|cbn [rbind]; eauto] end.
  intros d [_ Hd]%list_elem_of_filter. destruct (drain_job s d Hi Hd) as (j & Hj & _). rewrite (find_job_ok _ _ _ Hj). cbn [rbind]. eauto.
Qed.

Lemma next_event_total s : causal_inv s -> exists o, next_event_ns s = Ok o.
Proof.
  intros Hi. unfold next_event_ns. destruct (window s) as [[w0 w1]|] eqn:Ew; [|eauto]. destruct (rates_total s Hi) as (rates & -> & Hr). cbn [rbind].
  destruct (next_transfer_ok s rates Hi Hr) as (tr & -> & _). cbn [rbind]. unfold min_of.
  match goal with |- context [zmin_list (filter ?P ?l)] => pose proof (zmin_list_spec (filter P l)) as Hm; set (k := filter P l) in * end.
  destruct (zmin_list k) as [t|]; [cbn; eauto|]. exfalso. assert (Hin : w1 ∈ k).
  { apply list_elem_of_filter. split; [|set_solver]. apply (ci_window _ Hi (w0, w1)). done. }
  rewrite Hm in Hin. by apply not_elem_of_nil in Hin.
Qed.

(** The jobs that a receipt reports are gone, the others stay. *)
Definition retired (s : service) : service := _retire_completed (pending s) (mark_read s).

Lemma retired_jobs s id : jobs (retired s) !! id = if bool_decide (id ∈ pending s) then None else jobs s !! id.
Proof.
  unfold retired, _retire_completed. destruct (pending s) as [|a l] eqn:E; [done|]. rewrite <- E. cbn [set_jobs jobs mark_read].
  case_bool_decide as H.
  - apply map_lookup_filter_None_2. right. intros j _ Hn. by apply Hn.
  - destruct (jobs s !! id) as [j|] eqn:Ej; [by apply map_lookup_filter_Some|]. apply map_lookup_filter_None_2. by left.
Qed.

Lemma retired_queue s k : dget (queues (retired s)) k = filter (fun id => id ∉ pending s) <$> dget (queues s) k.
Proof.
  unfold retired, _retire_completed. destruct (pending s) as [|a l] eqn:E.
  - cbn [mark_read queues]. destruct (dget (queues s) k) as [q|]; [|done]. cbn. f_equal. symmetry. apply filter_all. intros x _. apply not_elem_of_nil.
  - rewrite <- E. cbn [set_jobs set_queues queues mark_read]. induction (queues s) as [|[k' q] d IH]; [done|]. rewrite fmap_cons. cbn [dget].
    case_decide; [done|exact IH].
Qed.

Lemma retired_frame s : cfg (retired s) = cfg s /\ channel_groups (retired s) = channel_groups s /\ window (retired s) = window s /\
  states (retired s) = states s /\ known_ids (retired s) = known_ids s /\ now (retired s) = now s /\ active (retired s) = active s /\
  draining (retired s) = draining s /\ quota_remaining (retired s) = quota_remaining s /\ dkeys (queues (retired s)) = dkeys (queues s) /\
  pending (retired s) = [] /\ (completion_offset (retired s) <= length (window_completion_ids (retired s)))%nat.
Proof.
  assert (Hd : drop (length (window_completion_ids s)) (window_completion_ids s) = []) by apply drop_all.
  unfold retired, _retire_completed. destruct (pending s) as [|a l]; [by split_and!|]. split_and!; try done.
  cbn [set_jobs set_queues queues mark_read]. unfold dkeys. rewrite <- list_fmap_compose. apply list_fmap_ext. by intros i [k q] _.
Qed.

Lemma retired_inv s : causal_inv s -> causal_inv (retired s).
Proof.
  intros Hi. destruct (retired_frame s) as (Hc & Hg & Hw & Hst & Hk & Hn & Ha & Hd & Hq & Hks & Hp & Ho).
  assert (Hj : forall id j, jobs (retired s) !! id = Some j -> jobs s !! id = Some j /\ id ∉ pending s).
  { intros id j. rewrite retired_jobs. by case_bool_decide. }
  assert (Hdone : forall id, id ∈ pending s <-> exists j, jobs s !! id = Some j /\ state j = DONE).
  { intros id. pose proof (ci_marks _ Hi id) as Hm. unfold marks in Hm. split.
    - intros H. rewrite (bool_decide_eq_true_2 (id ∈ pending s) H) in Hm. destruct (jobs s !! id) as [j|]; [|discriminate Hm].
      exists j. split; [done|]. cbn in Hm. by destruct (state j).
    - intros (j & Ej & Es). rewrite Ej in Hm. cbn in Hm. rewrite Es in Hm. injection Hm as _ _ Hm. by apply bool_decide_eq_true in Hm. }
  pose proof Hi as []. constructor; rewrite ?Hc, ?Hg, ?Hk, ?Hw, ?Hn, ?Hks; try done.
  - intros id j [? _]%Hj. auto.
  - intros id [j [? _]%Hj]. eauto.
  - intros id. unfold marks. rewrite Ha, Hp. unfold drain_ids. rewrite Hd. specialize (ci_marks0 id). unfold marks, drain_ids in ci_marks0.
    rewrite retired_jobs. destruct (decide (id ∈ pending s)) as [Hin|Hin];
      [rewrite (bool_decide_eq_true_2 (id ∈ pending s) Hin)|rewrite (bool_decide_eq_false_2 (id ∈ pending s) Hin) in *].
    + pose proof (proj1 (Hdone id) Hin) as (j & Ej & Es). rewrite Ej in ci_marks0. cbn in ci_marks0. rewrite Es in ci_marks0.
      injection ci_marks0 as -> -> _. done.
    + by rewrite <- ci_marks0.
  - intros k q id. rewrite retired_queue. destruct (dget (queues s) k) as [q0|] eqn:Ek; [|done]. intros [= <-] [Hnp Hin]%list_elem_of_filter.
    destruct (ci_queued0 k q0 id Ek Hin) as (j & Ej & E). exists j. split; [|done]. rewrite retired_jobs. by case_bool_decide.
  - intros id j [Ej Hnp]%Hj Hs. destruct (ci_waiting0 id j Ej Hs) as (q & Hkq & Hin). rewrite retired_queue, Hkq. cbn. eexists. split; [done|].
    by apply list_elem_of_filter.
  - destruct ci_drains0 as [D1 D2 D3]. constructor; unfold drain_ids; rewrite ?Hd; try done. intros d j Hin [? _]%Hj. eauto.
  - rewrite Hp. constructor.
  - unfold quota_ok. by rewrite Hw, Hc, Hst, Hq.
Qed.

Lemma retired_balance s e : causal_inv s -> balance (retired s) e = balance s e.
Proof.
  intros Hi. destruct (retired_frame s) as (Hc & _ & _ & _ & _ & _ & _ & _ & Hq & _). unfold balance. rewrite Hc, Hq. do 2 f_equal.
  unfold retired, _retire_completed. destruct (pending s) as [|a l] eqn:E; [done|]. rewrite <- E. cbn [set_jobs set_queues jobs mark_read].
  apply msum_filter. intros id j Hj Hn. cbn in Hn. apply dec_stable in Hn. pose proof (ci_marks _ Hi id) as Hm. unfold marks in Hm.
  rewrite Hj, (bool_decide_eq_true_2 _ Hn) in Hm. pose proof (ji_state _ _ _ (ci_jobs _ Hi _ _ Hj)) as Hs. cbn in Hm.
  destruct (state j); try discriminate Hm. unfold uncharged. destruct Hs as [-> _]. by destruct (_ && _).
Qed.

Lemma make_receipt_ok s start : causal_inv s -> exists r, make_receipt start s = (Ok r, retired s) /\
  start_ns r = start /\ end_ns r = now s /\ control_window r = window s /\ completion_ids r = pending s /\
  endpoint_quota_remaining_scaled r = quota_remaining s /\ job_progress r = _progress_rows s /\
  next_event_ns s = Ok (r_next_event_ns r) /\ next_completion_ns s = Ok (r_next_completion_ns r) /\ _buffer_bounds s = Ok (buffer_occupancy_bounds r).
Proof.
  intros Hi. unfold make_receipt. destruct (buffer_bounds_total s Hi) as (b & Hb), (next_completion_total s Hi) as (o & Ho), (next_event_total s Hi) as (o' & Ho').
  unfold get, modify, sbind at 1 2 3. cbv beta iota. change (_buffer_bounds (mark_read s)) with (_buffer_bounds s). rewrite Hb.
  rewrite (sbind_step _ _ _ _ _ (lift_Ok _ _ (mark_read s) eq_refl)). change (next_completion_ns (mark_read s)) with (next_completion_ns s). rewrite Ho.
  rewrite (sbind_step _ _ _ _ _ (lift_Ok _ _ (mark_read s) eq_refl)). change (next_event_ns (mark_read s)) with (next_event_ns s). rewrite Ho'.
  rewrite (sbind_step _ _ _ _ _ (lift_Ok _ _ (mark_read s) eq_refl)). eexists. split; [reflexivity|]. by split_and!.
Qed.

(** ** Advancing *)

(** Between two operations. *)
Record at_rest (s : service) : Prop := { ar_inv : causal_inv s; ar_settled : settled s; ar_pending : pending s = [] }.

Record advanced (s : service) (h : Z) (r : receipt) (s' : service) : Prop := {
  ad_rest : at_rest s';
  ad_time : now s' = h /\ start_ns r = now s /\ end_ns r = h;
  ad_frame : cfg s' = cfg s /\ channel_groups s' = channel_groups s /\ window s' = window s /\ states s' = states s /\ known_ids s' = known_ids s;
  ad_quota : endpoint_quota_remaining_scaled r = quota_remaining s' /\ forall e, balance s' e = balance s e;
  ad_once : NoDup (completion_ids r);
  ad_reported : forall id, id ∈ completion_ids r -> exists j j', jobs s !! id = Some j /\ evolves j j' /\ state j' = DONE /\
    completed_bytes j' = total_bytes j' /\ j' ∈ pr_job <$> job_progress r /\ jobs s' !! id = None;
  ad_kept : forall id j, jobs s !! id = Some j -> id ∈ completion_ids r \/ exists j', jobs s' !! id = Some j' /\ evolves j j';
  ad_none : forall id, jobs s !! id = None -> jobs s' !! id = None }.

Lemma progress_row_of s id j : jobs s !! id = Some j -> j ∈ pr_job <$> _progress_rows s.
Proof.
  intros Hj. unfold _progress_rows. rewrite <- list_fmap_compose. apply list_elem_of_fmap. exists j. split; [done|].
  rewrite isort_elem. apply list_elem_of_fmap. exists (id, j). split; [done|]. by apply elem_of_map_to_list.
Qed.

Lemma done_pending s id j : causal_inv s -> jobs s !! id = Some j -> state j = DONE <-> id ∈ pending s.
Proof.
  intros Hi Hj. pose proof (ci_marks _ Hi id) as Hm. unfold marks in Hm. rewrite Hj in Hm. cbn in Hm. split.
  - intros Hs. rewrite Hs in Hm. injection Hm as _ _ Hm. by apply bool_decide_eq_true in Hm.
  - intros H. rewrite (bool_decide_eq_true_2 _ H) in Hm. by destruct (state j).
Qed.

Lemma pending_job s id : causal_inv s -> id ∈ pending s -> is_Some (jobs s !! id).
Proof.
  intros Hi H. pose proof (ci_marks _ Hi id) as Hm. unfold marks in Hm. rewrite (bool_decide_eq_true_2 (id ∈ pending s) H) in Hm.
  destruct (jobs s !! id); [eauto|discriminate Hm].
Qed.

Lemma receipt_advanced s s1 r : runs s s1 -> make_receipt (now s) s1 = (Ok r, retired s1) -> advanced s (now s1) r (retired s1).
Proof.
  intros Hr Hm. pose proof (rn_inv _ _ Hr) as Hi1. destruct (make_receipt_ok s1 (now s) Hi1) as (r' & Hm' & Hst & He & _ & Hc & Hq & Hp & _).
  rewrite Hm in Hm'. injection Hm' as <-. destruct (retired_frame s1) as (F1 & F2 & F3 & F4 & F5 & F6 & _ & _ & F9 & _ & F11 & _).
  destruct (rn_keeps _ _ Hr) as [K1 K2 K3 K4 K5 K6]. constructor.
  - constructor; [by apply retired_inv| |done]. intros id j. rewrite retired_jobs. case_bool_decide; [done|]. apply (rn_settled _ _ Hr).
  - by split_and!.
  - split_and!; congruence.
  - split; [congruence|]. intros e. rewrite (retired_balance _ _ Hi1). apply (rn_balance _ _ Hr).
  - rewrite Hc. apply (ci_pending _ Hi1).
  - intros id. rewrite Hc. intros Hin. destruct (pending_job s1 id Hi1 Hin) as [j' Hj']. destruct (keeps_job _ _ _ _ (rn_keeps _ _ Hr) Hj') as (j & Ej & Hev).
    exists j, j'. pose proof (proj2 (done_pending s1 id j' Hi1 Hj') Hin) as Hd.
    pose proof (ci_jobs _ Hi1 _ _ Hj') as [_ _ Hb _ _ Hs]. rewrite Hd in Hs. split_and!; try done; [lia| |].
    + rewrite Hp. by eapply progress_row_of.
    + rewrite retired_jobs. by rewrite bool_decide_eq_true_2.
  - intros id j Hj. destruct (keeps_job_fwd _ _ _ _ (rn_keeps _ _ Hr) Hj) as (j' & Ej & Hev). rewrite Hc.
    destruct (decide (id ∈ pending s1)); [by left|right]. exists j'. rewrite retired_jobs. by rewrite bool_decide_eq_false_2.
  - intros id Hj. rewrite retired_jobs. specialize (K6 id). rewrite Hj in K6. inversion K6. by case_bool_decide.
Qed.

Section order.
Context (set_order : gset string -> list string) (Hset : forall X, set_order X ≡ₚ elements X).

Lemma causal_advance_ok s raw h w : at_rest s -> window s = Some w -> _integer raw "horizon_ns" false = Ok h -> now s <= h <= w.2 ->
  exists r s', advance_to set_order raw s = (Ok r, s') /\ advanced s h r s'.
Proof using Hset.
  intros [Hi Hse Hp] Hw Hraw Hh.
  enough (Ht : total (advance_to set_order raw) (advanced s h) s).
  { unfold wp in Ht. destruct (advance_to set_order raw s) as [[r|e] s']; [eauto|done]. }
  unfold advance_to. wp_steps. rewrite Hw. destruct w as [w0 w1]. cbn in Hh. eapply wp_lift; [done|]. wp_steps. eapply wp_lift; [exact Hraw|]. wp_steps.
  apply wp_require; [intros H; apply andb_false_iff in H as [H|H]; apply Z.leb_gt in H; lia|]. intros _. wp_steps.
  assert (Hs0 : steps s (set_completed [] s)).
  { pose proof Hi as []. constructor; [|constructor; try done; intros id; cbn; reflexivity|done..]. constructor; try done.
    destruct ci_drains0. by constructor. }
  pose proof (steps_runs _ _ Hse Hs0) as Hr0. set (s0 := set_completed [] s) in *.
  eapply wp_mono. { apply (event_loop_ok set_order Hset h s0); [apply (rn_inv _ _ Hr0)|done|cbn; lia|]. exists (w0, w1). cbn. split; [done|lia]. }
  intros _ s1 [Hr1 Hn1]. wp_steps. eapply wp_mono; [apply finish_drains_ok, (rn_inv _ _ Hr1)|]. intros _ s2 [Hs2 _]. wp_steps.
  eapply wp_mono; [apply activate_ok, (st_inv _ _ Hs2)|]. intros _ s3 [Ha3 _]. pose proof (steps_trans _ _ _ Hs2 (av_steps _ _ Ha3)) as Hs3.
  pose proof (steps_runs _ _ (rn_settled _ _ Hr1) Hs3) as Hr3. pose proof (runs_trans _ _ _ Hr0 (runs_trans _ _ _ Hr1 Hr3)) as Hr.
  destruct (make_receipt_ok s3 (now s) (rn_inv _ _ Hr)) as (r & Hm & _). unfold wp. rewrite Hm.
  rewrite <- Hn1, <- (st_now _ _ Hs3). by apply receipt_advanced.
Qed.

Lemma advance_to_rejected s raw e s' : at_rest s -> advance_to set_order raw s = (Raise e, s') -> s' = s.
Proof using Hset.
  intros Hr E. destruct (window s) as [w|] eqn:Ew.
  - destruct (_integer raw "horizon_ns" false) as [h|e'] eqn:Eh.
    + destruct (decide (now s <= h <= w.2)) as [Hh|Hh].
      * destruct (causal_advance_ok s raw h w Hr Ew Eh Hh) as (r & s2 & E2 & _). congruence.
      * unfold advance_to, get, sbind at 1 in E. cbv beta iota in E. rewrite Ew in E. destruct w as [w0 w1]. peel E x Ex. injection Ex as <-.
        peel E y Ey. assert (y = h) as -> by congruence. peel_guard E Eg. apply andb_true_iff in Eg as [E1 E2]. apply Z.leb_le in E1, E2. cbn in Hh. lia.
    + unfold advance_to, get, sbind at 1 in E. cbv beta iota in E. rewrite Ew in E. destruct w as [w0 w1]. peel E x Ex. peel E y Ey. congruence.
  - unfold advance_to, get, sbind at 1 in E. cbv beta iota in E. rewrite Ew in E. by injection E.
Qed.
End order.

(** ** Construction *)

Lemma group_row_ok raw id bw : group_row raw = Ok (id, bw) -> 0 < bw.
Proof.
  unfold group_row. intros H. inv_ok. repeat case_match; try discriminate; inv_ok.
  match goal with H : (0 <? _) = true |- _ => apply Z.ltb_lt in H end. by simplify_eq.
Qed.

Lemma group_stack_ok d st row st' rows : group_stack d (st, row) = Ok (st', rows) -> st' = st /\
  forall ch, ch ∈ dkeys row -> exists id bw, dget rows ch = Some (id, bw) /\ 0 < bw.
Proof.
  unfold group_stack. intros H. apply bind_Ok in H as (raw & _ & H). destruct raw as [| | | | | |groups]; try discriminate H; inv_ok.
  all: try match goal with H : key_set _ = Ok _ |- _ => injection H as <- end.
  split; [done|]. intros ch Hch. match goal with H : same_set _ _ = true |- _ => pose proof (same_set_elem _ _ (Some ch) H) as Hs end.
  assert (Hin : ch ∈ dkeys groups).
  { assert (Hx : Some ch ∈ Some <$> dkeys row) by (apply list_elem_of_fmap; eauto). apply Hs, list_elem_of_fmap in Hx as (y & [= ->] & Hy). done. }
  match goal with H : mapR ?f groups = Ok _ |- _ =>
    pose proof (mapR_keys fst f groups rows) as Hk; rename H into Hm end.
  assert (Hkeys : dkeys rows = fst <$> groups).
  { apply Hk; [|done]. intros [k v] k' v' E. inv_ok. by simplify_eq. }
  assert (Hin' : ch ∈ dkeys rows) by (by rewrite Hkeys). apply dget_is_Some in Hin' as [[id bw] Hid]. exists id, bw. split; [done|].
  apply dget_Some_elem in Hid. destruct (mapR_elem _ _ _ _ Hm Hid) as ([k v] & _ & E). inv_ok. simplify_eq. by eapply group_row_ok.
Qed.

Lemma normalize_groups_ok c raw g : cfg_ok c -> normalize_groups c raw = Ok g -> groups_ok c g.
Proof.
  intros Hc H groups -> st row ch rate Hst Hch. unfold normalize_groups in H.
  destruct raw as [| | | | | |d]; try discriminate H; inv_ok; try discriminate.
  match goal with H : mapR (group_stack d) _ = Ok _ |- _ => rename H into Hm end.
  assert (Hkeys : dkeys groups = fst <$> channels c).
  { apply (mapR_keys fst (group_stack d) (channels c) groups); [|done]. intros [k v] k' v' E. by apply group_stack_ok in E as []. }
  assert (Hnd : NoDup (dkeys groups)) by (rewrite Hkeys; change (NoDup (dkeys (channels c))); rewrite (co_stacks _ Hc); apply all_stacks_NoDup).
  apply dget_Some_elem in Hst. apply mapR_Ok in Hm. apply list_elem_of_lookup in Hst as [i Hst].
  destruct (Forall2_lookup_l _ _ _ _ _ Hm Hst) as ([st' rows] & Hy & E). apply group_stack_ok in E as [-> Hrows].
  destruct (Hrows ch) as (id & bw & Hid & Hbw); [apply dget_is_Some; eauto|]. exists rows, id, bw. split; [|done].
  apply dget_elem; [done|]. by eapply list_elem_of_lookup_2.
Qed.

Lemma init_at_rest v s : init v = Ok s -> at_rest s.
Proof.
  unfold init. intros H. inv_ok. match goal with H : _normalize _ = Ok _ |- _ => apply normalize_spec in H as Hc end.
  match goal with H : normalize_groups _ _ = Ok _ |- _ => pose proof (normalize_groups_ok _ _ _ Hc H) as Hg end.
  constructor; [|intros id j H'; cbn in H'; by rewrite lookup_empty in H'|done].
  constructor; cbn [cfg channel_groups jobs known_ids queues window now completion_offset window_completion_ids]; try done.
  - intros id [j H']. by rewrite lookup_empty in H'.
  - apply dkeys_map.
  - intros k q id Hq Hin. apply dget_Some_elem, list_elem_of_fmap in Hq as (k' & [= -> ->] & _). by apply not_elem_of_nil in Hin.
  - constructor; cbn; [done|constructor|]. intros d j Hd. by apply not_elem_of_nil in Hd.
  - constructor.
Qed.

(** ** Submission *)

Record fresh_job (s : service) (j : job) : Prop := {
  fj_new : job_id j ∉ known_ids s;
  fj_route : route_ok (cfg s) j;
  fj_bytes : 0 < total_bytes j /\ unadmitted_bytes j = total_bytes j /\ completed_bytes j = 0 /\ slice_total_bytes j = 0 /\
    slice_transferred_bytes j = 0;
  fj_state : state j = QUEUED }.

Lemma known_channel_ok c rs rc k : known_channel c rs rc = Ok k ->
  exists row rate, dget (channels c) k.1 = Some row /\ dget row k.2 = Some rate.
Proof.
  unfold known_channel. intros H. inv_ok.
  repeat match goal with H : of_option _ ?o = Ok _ |- _ => destruct o eqn:?; [injection H as <-|discriminate H] end.
  match goal with H : dmem ?row ?ch = true |- _ => unfold dmem in H; destruct (dget row ch) eqn:?; [|discriminate H] end. simpl. eauto.
Qed.

Lemma route_of_ok c st ch o raw r : cfg_ok c -> st ∈ all_stacks (fabric c) -> route_of c st ch o raw = Ok r ->
  (r = Some BasicFabric.Relay -> exists row p, dget (BasicFabric.cfg_hbf (fabric c)) st = Some row /\ BasicFabric.pair row = Some p) /\
  match o with HbmFill => r = None | MigrationProgram => is_Some r | Topology o => is_read_operation o = true -> is_Some r end.
Proof.
  intros Hc Hst H. unfold route_of in H. destruct o as [o| |]; inv_ok.
  - split; [|intros Ho; cbn [has_route]; rewrite Ho; eauto]. cbn [has_route]. destruct (is_read_operation o); [|done]. intros [= ->].
    by eapply TopologyInvariant.validate_route_relay.
  - done.
  - split; [|eauto]. intros [= ->]. by eapply TopologyInvariant.validate_route_relay.
Qed.

Lemma new_job_fresh s stop raw j : cfg_ok (cfg s) -> new_job s stop raw = Ok j -> fresh_job s j.
Proof.
  intros Hc H. unfold new_job in H. inv_ok. match goal with k : key |- _ => destruct k as [st ch] end. inv_ok.
  match goal with H : known_channel _ _ _ = Ok _ |- _ => apply known_channel_ok in H as (row & rate & Hrow & Hrate) end. simpl in Hrow, Hrate.
  match goal with H : new_id _ ?v = Ok _ |- _ => unfold new_id in H; destruct v; try discriminate H; inv_ok end.
  match goal with H : route_of _ _ _ _ _ = Ok _ |- _ => apply route_of_ok in H as [Hrel Hop];
    [|done|rewrite <- (co_stacks _ Hc); apply dget_is_Some; eauto] end.
  match goal with H : _integer _ "bytes" true = Ok _ |- _ => apply BasicFabric.integer_Ok in H as [_ Hn] end.
  constructor; cbn; [|constructor; cbn; [constructor; cbn; eauto; done|done]|split_and!; try done; lia|done].
  match goal with H : negb (bool_decide _) = true |- _ => apply negb_true_iff, bool_decide_eq_false in H end. done.
Qed.

Lemma add_job_rest s j q : at_rest s -> fresh_job s j -> dget (queues s) (stack j, channel j) = Some q -> at_rest (add_job j q s).
Proof.
  intros [Hi Hse Hp] [Hnew Hro Hb Hs] Hq. assert (Hnone : jobs s !! job_id j = None).
  { destruct (jobs s !! job_id j) as [x|] eqn:E; [|done]. destruct Hnew. apply (ci_known _ Hi). eauto. }
  pose proof Hi as []. constructor; [|intros id x; cbn; intros [[<- <-]|[? ?]]%lookup_insert_Some; [congruence|by eapply Hse]|done].
  constructor; cbn [add_job cfg channel_groups now window states quota_remaining next_sequence jobs known_ids queues active
    draining completion_offset window_completion_ids]; try done.
  - intros id x [[<- <-]|[? ?]]%lookup_insert_Some; [|auto]. constructor; [done|done|lia|lia|lia|]. rewrite Hs. lia.
  - intros id. rewrite lookup_insert_is_Some'. intros [<-|H]; [set_solver|]. apply ci_known0 in H. set_solver.
  - intros id. change (marks (add_job j q s) id) with (marks s id). destruct (decide (job_id j = id)) as [<-|Hne].
    + rewrite lookup_insert_eq, ci_marks0, Hnone. cbn. by rewrite Hs.
    + by rewrite lookup_insert_ne.
  - rewrite dkeys_dset_in; [done|]. apply dget_is_Some. eauto.
  - intros k q' id. rewrite dget_dset. case_decide as E.
    + intros [= <-] [Hin| ->%list_elem_of_singleton]%elem_of_app.
      * destruct (ci_queued0 _ _ _ Hq Hin) as (x & Hx & Ex). exists x. rewrite lookup_insert_ne; [by rewrite <- E|congruence].
      * exists j. by rewrite lookup_insert_eq.
    + intros Hk Hin. destruct (ci_queued0 _ _ _ Hk Hin) as (x & Hx & Ex). exists x. rewrite lookup_insert_ne; [done|congruence].
  - intros id x [[<- <-]|[Hne Hx]]%lookup_insert_Some Hd; [exists (q ++ [job_id j]); rewrite dget_dset_eq; set_solver|].
    destruct (ci_waiting0 id x Hx Hd) as (q' & Hq' & Hin). rewrite dget_dset. case_decide as E; [|eauto]. rewrite <- E in Hq'.
    assert (q' = q) as -> by congruence. exists (q ++ [job_id j]). set_solver.
  - destruct ci_drains0 as [D1 D2 D3]. constructor; try done. intros d x Hd. cbn. intros [[E <-]|[? ?]]%lookup_insert_Some; [|eauto].
    destruct (drain_job s d Hi Hd) as (y & Hy & _). congruence.
Qed.

(** What submissions and windows leave alone. *)
Record extends (s s' : service) : Prop := {
  ex_now : now s' = now s; ex_cfg : cfg s' = cfg s;
  ex_jobs : forall id j, jobs s !! id = Some j -> exists j', jobs s' !! id = Some j' /\ evolves j j';
  ex_known : known_ids s ⊆ known_ids s';
  ex_new : forall id, id ∈ known_ids s' -> id ∈ known_ids s \/ is_Some (jobs s' !! id);
  ex_back : forall id, is_Some (jobs s' !! id) -> is_Some (jobs s !! id) \/ id ∉ known_ids s }.

Lemma extends_refl s : extends s s.
Proof. constructor; auto. intros id j Hj. exists j. split; [done|reflexivity]. Qed.

Lemma extends_trans s1 s2 s3 : extends s1 s2 -> extends s2 s3 -> extends s1 s3.
Proof.
  intros [A1 A2 A3 A4 A5 A6] [B1 B2 B3 B4 B5 B6]. constructor; [congruence|congruence| |set_solver| |].
  - intros id j Hj. destruct (A3 id j Hj) as (j1 & H1 & E1), (B3 id j1 H1) as (j2 & H2 & E2). exists j2. split; [done|by etrans].
  - intros id [[H|[j Hj]]%A5|H]%B5; [by left| |by right]. right. destruct (B3 id j Hj) as (j' & ? & _). eauto.
  - intros id [H|H]%B6; [auto|right; set_solver].
Qed.

Lemma activates_rest s s' : at_rest s -> activates s s' -> at_rest s' /\ extends s s' /\ window s' = window s.
Proof.
  intros [Hi Hse Hp] Ha. pose proof (av_steps _ _ Ha) as Hs. pose proof (st_inv _ _ Hs) as Hi'. destruct (st_keeps _ _ Hs) as [K1 K2 K3 K4 K5 K6].
  split; [|split; [|done]].
  - constructor; [done|by apply (st_settled _ _ Hs)|]. destruct (pending s') as [|id l] eqn:E; [done|].
    assert (Hid : id ∈ pending s') by (rewrite E; set_solver). destruct (pending_job _ _ Hi' Hid) as [j' Hj'].
    destruct (keeps_job _ _ _ _ (st_keeps _ _ Hs) Hj') as (j & Hj & _). destruct (av_jobs _ _ Ha id j Hj) as (x & Hx & Had).
    assert (x = j') as -> by congruence. apply (done_pending s' id j' Hi' Hj') in Hid. destruct Had as [->|(n & _ & -> & _)]; [|done].
    apply (done_pending s id j Hi Hj) in Hid. rewrite Hp in Hid. by apply not_elem_of_nil in Hid.
  - constructor; [apply (st_now _ _ Hs)|done| |by rewrite K5| |].
    + intros id j Hj. exact (keeps_job_fwd _ _ _ _ (st_keeps _ _ Hs) Hj).
    + rewrite K5. auto.
    + intros id [j Hj]. left. destruct (keeps_job _ _ _ _ (st_keeps _ _ Hs) Hj) as (j0 & ? & _). eauto.
Qed.

Lemma add_job_extends s j q : fresh_job s j -> at_rest s -> extends s (add_job j q s).
Proof.
  intros [Hnew _ _ _] [Hi _ _]. constructor; cbn; try done.
  - intros id x Hx. exists x. split; [|reflexivity]. rewrite lookup_insert_ne; [done|]. intros <-. destruct Hnew. apply (ci_known _ Hi). eauto.
  - set_solver.
  - intros id [->%elem_of_singleton|H]%elem_of_union; [right; rewrite lookup_insert_eq; eauto|by left].
  - intros id. rewrite lookup_insert_is_Some'. intros [<-|H]; auto.
Qed.

(** Whatever the outcome, a submission leaves a sound service. *)
Definition submitted (s s' : service) : Prop := at_rest s' /\ extends s s' /\ window s' = window s.

Lemma submit_one_ok raw s : at_rest s -> wp (fun _ s' => submitted s s') (submit_one raw) (fun _ s' => submitted s s') s.
Proof.
  intros Hr. assert (Hsame : submitted s s) by (split; [done|]; split; [apply extends_refl|done]).
  unfold submit_one. wp_steps. destruct (window s) as [[w0 stop]|]; [|exact Hsame]. eapply wp_lift; [done|]. wp_steps.
  destruct (new_job s stop raw) as [j|e] eqn:Ej; [|exact Hsame]. eapply wp_lift; [done|]. wp_steps.
  pose proof (new_job_fresh _ _ _ _ (ci_cfg _ (ar_inv _ Hr)) Ej) as Hf.
  destruct (dindex (queues s) (stack j, channel j)) as [q|e] eqn:Eq; [|exact Hsame]. eapply wp_lift; [done|]. wp_steps.
  apply dindex_Ok in Eq. split; [by apply add_job_rest|]. split; [by apply add_job_extends|done].
Qed.

Lemma submitted_trans s1 s2 s3 : submitted s1 s2 -> submitted s2 s3 -> submitted s1 s3.
Proof. intros (_ & E1 & W1) (R2 & E2 & W2). split; [done|]. split; [by eapply extends_trans|congruence]. Qed.

Lemma submit_jobs_ok raws s : at_rest s -> wp (fun _ s' => submitted s s') (submit_jobs raws) (fun _ s' => submitted s s') s.
Proof.
  intros Hr. assert (Hsame : submitted s s) by (split; [done|]; split; [apply extends_refl|done]).
  unfold submit_jobs. wp_steps. apply wp_require; [done|]. intros _. wp_steps. eapply wp_mono.
  { apply (wp_mapS (fun _ _ s' => submitted s s')); [done|]. intros visited x todo outs s' _ Hs'. pose proof (submit_one_ok x s' (proj1 Hs')) as H.
    unfold wp in *. destruct (submit_one x s') as [[a|e] s2]; by eapply submitted_trans. }
  intros ids s1 Hs1. wp_steps. pose proof (activate_ok s1 (ar_inv _ (proj1 Hs1))) as H. unfold wp in *.
  destruct (_activate s1) as [[a|e] s2]; [|done]. destruct H as [Ha _]. eapply submitted_trans; [done|]. by apply activates_rest; [apply Hs1|].
Qed.

(** ** Control windows *)

Lemma open_window_rest s w sts : at_rest s -> now s <= w.2 -> (forall st, st ∈ dkeys (channels (cfg s)) -> is_Some (dget sts st)) ->
  window s <> None -> at_rest (open_window w sts s).
Proof.
  intros [Hi Hse Hp] Hn Hst Hw. pose proof Hi as []. constructor; [|done|done].
  constructor; try done; [destruct ci_drains0; by constructor|intros w' [= <-]; done|].
  intros _ st Hin. split; [by apply Hst|]. by destruct (ci_quota0 Hw st Hin).
Qed.

Lemma clear_window_rest s w sts quota : at_rest s -> now s <= w.2 -> (forall st, st ∈ dkeys (channels (cfg s)) -> is_Some (dget sts st)) ->
  (forall st, st ∈ dkeys (channels (cfg s)) -> exists q, dget quota st = Some q /\ 0 <= q) ->
  at_rest (clear_window quota (open_window w sts s)).
Proof.
  intros [Hi Hse Hp] Hn Hst Hq. pose proof Hi as []. constructor; [|done|done].
  constructor; try done; [|destruct ci_drains0; by constructor|constructor|intros w' [= <-]; done|].
  - intros id. unfold marks. change (pending (clear_window quota (open_window w sts s))) with (@nil string). rewrite <- Hp. apply ci_marks0.
  - intros _ st Hin. split; [by apply Hst|by apply Hq].
Qed.

Lemma mapR_cover {V} (h : string -> result (string * V)) l d : (forall x k v, h x = Ok (k, v) -> k = x) -> mapR h l = Ok d ->
  forall x, x ∈ l -> exists v, dget d x = Some v /\ h x = Ok (x, v).
Proof.
  intros Hk Hm x Hx. assert (Hkeys : dkeys d = l).
  { rewrite (mapR_keys (fun x => x) h l d); [by rewrite list_fmap_id|done|done]. }
  rewrite <- Hkeys in Hx. apply dget_is_Some in Hx as [v Hv]. exists v. split; [done|]. apply dget_Some_elem in Hv as Hin.
  destruct (mapR_elem _ _ _ _ Hm Hin) as (y & _ & E). by rewrite <- (Hk _ _ _ E) in E.
Qed.

Lemma checked_state_key sts x k v : checked_state sts x = Ok (k, v) -> k = x.
Proof. unfold checked_state. intros H. inv_ok. by simplify_eq. Qed.
Lemma scaled_budget_ok s b x k v : cfg_ok (cfg s) -> scaled_budget s b x = Ok (k, v) -> k = x /\ 0 <= v.
Proof.
  intros Hc H. unfold scaled_budget in H. inv_ok. match goal with H : _integer _ _ _ = Ok _ |- _ => apply BasicFabric.integer_Ok in H as [_ Hz] end.
  pose proof (co_scale _ Hc). simplify_eq. split; [done|nia].
Qed.

(** The checks before the window is assigned. *)
Record window_checked (s : service) (t0 t1 : pyval) (budgets sts : dict string pyval) (w : Z * Z) (states : dict string endpoint_state) : Prop := {
  wc_times : _integer t0 "start_ns" false = Ok w.1 /\ _integer t1 "end_ns" false = Ok w.2;
  wc_now : w.1 = now s /\ w.1 < w.2;
  wc_states : mapR (checked_state sts) (dkeys (channels (cfg s))) = Ok states }.

(** Every outcome of [begin_window]. *)
Lemma begin_window_cases s t0 t1 budgets sts : at_rest s ->
  match begin_window t0 t1 budgets sts s with
  | (Ok w, s') => exists states quota, window_checked s t0 t1 budgets sts w states /\
      mapR (scaled_budget s budgets) (dkeys (channels (cfg s))) = Ok quota /\
      activates (clear_window quota (open_window w states s)) s'
  | (Raise e, s') => s' = s \/ exists w states, window_checked s t0 t1 budgets sts w states /\ s' = open_window w states s /\
      mapR (scaled_budget s budgets) (dkeys (channels (cfg s))) = Raise e
  end.
Proof.
  intros Hr. unfold begin_window, get, sbind at 1. cbv beta iota.
  destruct (_integer t0 "start_ns" false) as [start|e] eqn:E0; [|by left]. rewrite (sbind_step _ _ _ _ _ (lift_Ok _ _ s eq_refl)).
  destruct (_integer t1 "end_ns" false) as [stop|e] eqn:E1; [|by left]. rewrite (sbind_step _ _ _ _ _ (lift_Ok _ _ s eq_refl)).
  destruct ((start =? now s) && (start <? stop)) eqn:E2; [|by left]. rewrite (sbind_step _ _ _ _ _ (require_Ok true _ s eq_refl)).
  destruct (match window s with Some (_, e) => now s =? e | None => true end); [|by left]. rewrite (sbind_step _ _ _ _ _ (require_Ok true _ s eq_refl)).
  cbv zeta. destruct (same_set _ _ && same_set _ _); [|by left]. rewrite (sbind_step _ _ _ _ _ (require_Ok true _ s eq_refl)).
  destruct (mapR (checked_state sts) (dkeys (channels (cfg s)))) as [states|e] eqn:E3; [|by left]. rewrite (sbind_step _ _ _ _ _ (lift_Ok _ _ s eq_refl)).
  apply andb_true_iff in E2 as [E2 E2']. apply Z.eqb_eq in E2. apply Z.ltb_lt in E2'.
  assert (Hck : window_checked s t0 t1 budgets sts (start, stop) states) by done.
  unfold put, sbind at 1. cbv beta iota.
  destruct (mapR (scaled_budget s budgets) (dkeys (channels (cfg s)))) as [quota|e] eqn:E4; [|right; by exists (start, stop), states].
  rewrite (sbind_step _ _ _ _ _ (lift_Ok _ _ (open_window (start, stop) states s) eq_refl)). unfold modify, sbind at 1. cbv beta iota.
  set (s1 := clear_window quota (open_window (start, stop) states s)). pose proof (ci_cfg _ (ar_inv _ Hr)) as Hc.
  assert (H1 : at_rest s1).
  { apply clear_window_rest; [done|cbn; lia| |].
    - intros st Hst. destruct (mapR_cover _ _ _ (checked_state_key sts) E3 st Hst) as (v & ? & _). eauto.
    - intros st Hst. destruct (mapR_cover _ _ _ (fun x k v H => proj1 (scaled_budget_ok s budgets x k v Hc H)) E4 st Hst) as (v & ? & Hv).
      exists v. split; [done|]. by apply (scaled_budget_ok s budgets) in Hv as [_ ?]. }
  pose proof (activate_ok s1 (ar_inv _ H1)) as Ha. unfold wp in Ha. unfold sbind. destruct (_activate s1) as [[u|e] s2]; [|done].
  exists states, quota. split; [done|]. split; [done|]. apply Ha.
Qed.

(** ** Histories *)

(** A first [begin_window] that raised after it had assigned the window: there is a
    window without quotas ([causal_begin_window_not_atomic]). *)
Definition assigned {A} (s : service) (r : result A) (s' : service) : Prop := is_ok r = false /\ window s = None /\ window s' <> None.

Lemma begin_window_rest s t0 t1 budgets sts r s' : at_rest s -> begin_window t0 t1 budgets sts s = (r, s') ->
  ~ assigned s r s' -> at_rest s' /\ extends s s'.
Proof.
  intros Hr E Hcase. pose proof (begin_window_cases s t0 t1 budgets sts Hr) as H. rewrite E in H.
  assert (Hopen : forall w states, extends s (open_window w states s)).
  { intros w states. constructor; try done; auto. intros id j Hj. exists j. split; [done|reflexivity]. }
  pose proof (ci_cfg _ (ar_inv _ Hr)) as Hc. destruct r as [w|e].
  - destruct H as (states & quota & Hck & Hq & Ha). assert (H1 : at_rest (clear_window quota (open_window w states s))).
    { apply clear_window_rest; [done|destruct (wc_now _ _ _ _ _ _ _ Hck); lia| |].
      - intros st Hst. destruct (mapR_cover _ _ _ (checked_state_key sts) (wc_states _ _ _ _ _ _ _ Hck) st Hst) as (v & ? & _). eauto.
      - intros st Hst. destruct (mapR_cover _ _ _ (fun x k v H => proj1 (scaled_budget_ok s budgets x k v Hc H)) Hq st Hst) as (v & ? & Hv).
        exists v. split; [done|]. by apply (scaled_budget_ok s budgets) in Hv as [_ ?]. }
    destruct (activates_rest _ _ H1 Ha) as (H2 & H3 & _). split; [done|]. eapply extends_trans; [|exact H3].
    destruct (Hopen w states). by constructor.
  - destruct H as [->|(w & states & Hck & -> & _)]; [split; [done|apply extends_refl]|].
    assert (Hw : window s <> None) by (intros Hw; by apply Hcase).
    split; [|done]. apply open_window_rest; [done|destruct (wc_now _ _ _ _ _ _ _ Hck); lia| |done].
    intros st Hst. destruct (mapR_cover _ _ _ (checked_state_key sts) (wc_states _ _ _ _ _ _ _ Hck) st Hst) as (v & ? & _). eauto.
Qed.

(** The identifiers that were ever accepted: reported, or still stored. *)
Record log_ok (s : service) (log : list string) : Prop := {
  lo_once : NoDup log;
  lo_gone : forall id, id ∈ log -> id ∈ known_ids s /\ jobs s !! id = None;
  lo_all : forall id, id ∈ known_ids s -> id ∈ log \/ is_Some (jobs s !! id) }.

Lemma log_extends s s' log : extends s s' -> log_ok s log -> log_ok s' log.
Proof.
  intros [_ _ X3 X4 X5 X6] [L1 L2 L3]. constructor; [done| |].
  - intros id Hid. destruct (L2 id Hid) as [Hk Hn]. split; [set_solver|]. destruct (jobs s' !! id) as [j|] eqn:E; [|done].
    destruct (X6 id ltac:(eauto)) as [[x Hx]|Hx]; [congruence|done].
  - intros id [H|H]%X5; [|by right]. destruct (L3 id H) as [|[j Hj]]; [by left|]. right. destruct (X3 id j Hj) as (j' & ? & _). eauto.
Qed.

Lemma log_advanced s h r s' log : causal_inv s -> advanced s h r s' -> log_ok s log -> log_ok s' (log ++ completion_ids r).
Proof.
  intros Hi Had [L1 L2 L3]. destruct (ad_frame _ _ _ _ Had) as (_ & _ & _ & _ & Hk). constructor.
  - apply NoDup_app. split_and!; [done| |apply (ad_once _ _ _ _ Had)]. intros id Hid Hc. destruct (ad_reported _ _ _ _ Had id Hc) as (j & _ & Hj & _).
    destruct (L2 id Hid). congruence.
  - intros id [Hid|Hid]%elem_of_app; rewrite Hk.
    + destruct (L2 id Hid) as [? Hn]. split; [done|]. by apply (ad_none _ _ _ _ Had).
    + destruct (ad_reported _ _ _ _ Had id Hid) as (j & _ & Hj & _ & _ & _ & _ & Hn). split; [|done]. apply (ci_known _ Hi). eauto.
  - intros id. rewrite Hk. intros [Hid|[j Hj]]%L3; [left; set_solver|]. destruct (ad_kept _ _ _ _ Had id j Hj) as [|(j' & ? & _)]; [left; set_solver|].
    right. eauto.
Qed.

Section histories.
(** Any order of iteration over the active set. *)
Context (set_order : gset string -> list string) (Hset : forall X, set_order X ≡ₚ elements X).

(** The states of a service and the completions reported so far.  Operations may
    raise; the histories that are left out are those with an [assigned] window. *)
Inductive reachable (config : pyval) : service -> list string -> Prop :=
| reach_init s : init config = Ok s -> reachable config s []
| reach_begin s log t0 t1 budgets sts r s' : reachable config s log -> begin_window t0 t1 budgets sts s = (r, s') ->
    ~ assigned s r s' -> reachable config s' log
| reach_submit s log raws r s' : reachable config s log -> submit_jobs raws s = (r, s') -> reachable config s' log
| reach_advance s log raw r s' : reachable config s log -> advance_to set_order raw s = (Ok r, s') -> reachable config s' (log ++ completion_ids r)
| reach_rejected s log raw e s' : reachable config s log -> advance_to set_order raw s = (Raise e, s') -> reachable config s' log.

(** Successful and rejected calls of [advance_to]. *)
Lemma advance_ok_inv s raw r s' : at_rest s -> advance_to set_order raw s = (Ok r, s') ->
  exists w h, window s = Some w /\ _integer raw "horizon_ns" false = Ok h /\ now s <= h <= w.2 /\ advanced s h r s'.
Proof using Hset.
  intros Hr E. pose proof E as E'. unfold advance_to, get, sbind at 1 in E. cbv beta iota in E. destruct (window s) as [[w0 w1]|] eqn:Ew; [|discriminate E].
  peel_ok E x Ex. injection Ex as <-. peel_ok E h Eh. peel_ok_guard E Eg. apply andb_true_iff in Eg as [E1 E2]. apply Z.leb_le in E1, E2.
  exists (w0, w1), h. assert (Hh : now s <= h <= w1) by lia. split_and!; try done; try lia.
  destruct (causal_advance_ok set_order Hset s raw h (w0, w1) Hr Ew Eh Hh) as (r' & s2 & E3 & Had). rewrite E3 in E'. by injection E' as <- <-.
Qed.

Lemma reachable_rest config s log : reachable config s log -> at_rest s.
Proof using Hset.
  induction 1 as [s H|s log t0 t1 b sts r s' _ IH E Hc|s log raws r s' _ IH E|s log raw r s' _ IH E|s log raw e s' _ IH E].
  - by eapply init_at_rest.
  - by eapply begin_window_rest.
  - pose proof (submit_jobs_ok raws s IH) as H. unfold wp in H. rewrite E in H. destruct r; apply H.
  - destruct (advance_ok_inv _ _ _ _ IH E) as (w & h & _ & _ & _ & Had). apply (ad_rest _ _ _ _ Had).
  - by rewrite (advance_to_rejected set_order Hset _ _ _ _ IH E).
Qed.

Lemma reachable_causal_log config s log : reachable config s log -> log_ok s log.
Proof using Hset.
  intros H. pose proof H as H0. induction H as [s H|s log t0 t1 b sts r s' Hr IH E Hc|s log raws r s' Hr IH E|s log raw r s' Hr IH E|s log raw e s' Hr IH E].
  - unfold init in H. inv_ok. constructor; cbn; [constructor|intros id H'; by apply not_elem_of_nil in H'|set_solver].
  - eapply log_extends; [|by apply IH]. eapply begin_window_rest; [by eapply reachable_rest|done|done].
  - eapply log_extends; [|by apply IH]. pose proof (submit_jobs_ok raws s (reachable_rest _ _ _ Hr)) as H. unfold wp in H. rewrite E in H. destruct r; apply H.
  - pose proof (reachable_rest _ _ _ Hr) as Hs. destruct (advance_ok_inv _ _ _ _ Hs E) as (w & h & _ & _ & _ & Had).
    eapply log_advanced; [apply Hs|done|by apply IH].
  - rewrite (advance_to_rejected set_order Hset _ _ _ _ (reachable_rest _ _ _ Hr) E). by apply IH.
Qed.
End histories.

(** ** The time at which a slice is transferred *)

Lemma Qle_div_iff a b c : (0 < c)%Q -> (a <= b / c <-> a * c <= b)%Q.
Proof.
  intros Hc. split; [|by apply Qle_shift_div_l]. intros H. apply (Qmult_le_compat_r _ _ c) in H; [|by apply Qlt_le_weak].
  rewrite (Qmult_comm (b / c)), Qmult_div_r in H; [done|]. intros E. rewrite E in Hc. by apply Qlt_irrefl in Hc.
Qed.
Lemma Qdiv_le_iff a b c : (0 < b)%Q -> (a / b <= c <-> a <= c * b)%Q.
Proof.
  intros Hb. split; [|by apply Qle_shift_div_r]. intros H. apply (Qmult_le_compat_r _ _ b) in H; [|by apply Qlt_le_weak].
  rewrite (Qmult_comm (a / b)), Qmult_div_r in H; [done|]. intros E. rewrite E in Hb. by apply Qlt_irrefl in Hb.
Qed.

Lemma floor_ge q n : n <= floor_fraction q <-> (inject_Z n <= q)%Q.
Proof.
  destruct (floor_spec q) as [H1 H2]. split.
  - intros H. rewrite Zle_Qle in H. lra.
  - intros H. assert (Hlt : (inject_Z n < inject_Z (floor_fraction q + 1))%Q) by lra. rewrite <- Zlt_Qlt in Hlt. lia.
Qed.
Lemma ceil_le q n : _ceil_fraction q <= n <-> (q <= inject_Z n)%Q.
Proof.
  destruct (ceil_spec q) as [H1 H2]. split.
  - intros H. rewrite Zle_Qle in H. lra.
  - intros H. assert (Hlt : (inject_Z (_ceil_fraction q - 1) < inject_Z n)%Q) by lra. rewrite <- Zlt_Qlt in Hlt. lia.
Qed.

Lemma served_finish s j rate t : 0 <= slice_transferred_bytes j < slice_total_bytes j -> (0 <= rate_credit j)%Q -> (0 < rate)%Q -> now s < t ->
  slice_transferred_bytes (served (now s) t rate j) = slice_total_bytes j <-> finish_time s j rate <= t.
Proof.
  intros Hb Hc Hr Ht. set (left := slice_total_bytes j - slice_transferred_bytes j).
  assert (H1 : slice_transferred_bytes (served (now s) t rate j) = slice_total_bytes j <-> left <= floor_fraction (exact_amount j rate (t - now s))).
  { unfold served. cbn [transferred slice_transferred_bytes]. pose proof (exact_nonneg j rate (t - now s) Hc (Qlt_le_weak _ _ Hr) ltac:(lia)) as He.
    pose proof (floor_nonneg _ He). unfold integer_bytes. fold left. destruct (Z.leb_spec (Z.min left (floor_fraction (exact_amount j rate (t - now s)))) 0); lia. }
  rewrite H1, floor_ge. unfold exact_amount. rewrite Qred_correct.
  assert (H2 : finish_time s j rate <= t <-> _ceil_fraction (Qred (remaining j * inject_Z NS_PER_SECOND / rate)) <= t - now s) by (unfold finish_time; lia).
  rewrite H2, ceil_le, Qred_correct, Qdiv_le_iff by done. unfold remaining. fold left.
  assert (Hns : (0 < inject_Z NS_PER_SECOND)%Q) by done. set (ns := inject_Z NS_PER_SECOND) in *.
  assert (H3 : (inject_Z left <= rate_credit j + rate * inject_Z (t - now s) / ns <-> inject_Z left - rate_credit j <= rate * inject_Z (t - now s) / ns)%Q) by (split; lra).
  rewrite H3, Qle_div_iff by done. by rewrite (Qmult_comm rate).
Qed.

(** ** Demonstration *)

Definition demo_job (id st ch o : string) (n t : Z) : pyval := VDict [
  ("job_id", VStr id); ("stack", VStr st); ("channel", VStr ch); ("operation", VStr o); ("bytes", VInt n); ("arrival_ns", VInt t)].
Definition demo_jobs : list pyval := [
  demo_job "a" "hbf0" "0" "read" 700 0; demo_job "b" "hbf0" "1" "read" 900 0; demo_job "c" "hbm0" "0" "hbm_fill" 200 500;
  demo_job "d" "hbf0" "0" "migration_program" 77 10; demo_job "e" "hbf0" "0" "erase" 16 10].

(** A window with five jobs, before any time has passed. *)
Definition demo_open : option service :=
  match init TopologyInvariant.demo_document with
  | Ok s =>
      match begin_window (VInt 0) (VInt 20000000) TopologyInvariant.demo_budgets TopologyInvariant.demo_states s with
      | (Ok _, s) => match submit_jobs demo_jobs s with (Ok _, s) => Some s | _ => None end
      | _ => None
      end
  | Raise _ => None
  end.

Definition demo_facts (s : service) : Z * option (Z * Z) * list string :=
  (now s, window s, active_ids s).

Lemma demo_open_reached : exists s, demo_open = Some s /\ reachable elements TopologyInvariant.demo_document s [] /\
  demo_facts s = (0, Some (0, 20000000), ["a"; "b"]).
Proof.
  destruct demo_open as [s|] eqn:E; [|vm_compute in E; discriminate E]. exists s. split; [done|].
  assert (Hf : demo_facts <$> demo_open = Some (0, Some (0, 20000000), ["a"; "b"])) by (vm_compute; reflexivity).
  rewrite E in Hf. apply (inj Some) in Hf. split; [|exact Hf]. clear Hf. unfold demo_open in E.
  destruct (init _) as [s0|] eqn:E0; [|discriminate E]. destruct (begin_window _ _ _ _ s0) as [[w|e] s1] eqn:E1; [|discriminate E].
  destruct (submit_jobs demo_jobs s1) as [[ids|e] s2] eqn:E2; [|discriminate E]. injection E as ->.
  eapply reach_submit; [|exact E2]. eapply reach_begin; [by apply reach_init|exact E1|by intros [? _]].
Qed.

(** ** Claims *)

Section claims.
Context (set_order : gset string -> list string) (Hset : forall X, set_order X ≡ₚ elements X).

(** C9: advancing always reaches its horizon, and only a legal one.  Take any state
    that calls of the service lead to, calls that raise included; the one exception
    is a service whose very first [begin_window] raised after it had assigned the
    window, which is left without quotas ([assigned]).  Whatever the order in which
    Python iterates over the set of active jobs, [advance_to] returns exactly when
    there is a control window and its argument is an integer between the current
    time and the end of that window; the receipt then ends at the horizon: the event
    loop leaves within one round per nanosecond, no lookup fails and the max-min
    allocation does not raise.  With any other argument it raises and changes
    nothing. *)
Theorem causal_advance_total config s log raw : reachable set_order config s log ->
  (forall w h, window s = Some w -> _integer raw "horizon_ns" false = Ok h -> now s <= h <= w.2 ->
     exists r s', advance_to set_order raw s = (Ok r, s') /\ now s' = h /\ start_ns r = now s /\ end_ns r = h) /\
  (forall r s', advance_to set_order raw s = (Ok r, s') ->
     exists w h, window s = Some w /\ _integer raw "horizon_ns" false = Ok h /\ now s <= h <= w.2) /\
  (forall e s', advance_to set_order raw s = (Raise e, s') -> s' = s).
Proof using Hset.
  intros Hr%(reachable_rest set_order Hset). split_and!.
  - intros w h Hw Hraw Hh. destruct (causal_advance_ok set_order Hset s raw h w Hr Hw Hraw Hh) as (r & s' & E & Had).
    destruct (ad_time _ _ _ _ Had) as (? & ? & ?). eauto 10.
  - intros r s' E. destruct (advance_ok_inv set_order Hset _ _ _ _ Hr E) as (w & h & ? & ? & ? & _). eauto.
  - intros e s'. by apply advance_to_rejected.
Qed.

(** C37: the state of a reachable service (reached without a first window refused
    after its assignment) is well formed.  The bytes of every job
    are its served bytes, its current slice and the bytes not admitted yet; the
    slice is empty, under way with a credit below one byte, transferred, or gone
    according to the state of the job; the active set and the drain heap hold
    exactly the active and the draining jobs, each with the bytes of its slice;
    every job is in the queue of its channel; and no quota is negative. *)
Theorem causal_well_formed config s log : reachable set_order config s log ->
  (forall id j, jobs s !! id = Some j -> job_id j = id /\ total_bytes j = completed_bytes j + slice_total_bytes j + unadmitted_bytes j /\
     0 <= completed_bytes j /\ 0 <= unadmitted_bytes j /\ 0 <= slice_transferred_bytes j <= slice_total_bytes j /\
     (id ∈ active s <-> state j = ACTIVE) /\ (id ∈ ((fun d => d.1.2) <$> draining s) <-> state j = DRAINING) /\
     (exists q, dget (queues s) (stack j, channel j) = Some q /\ id ∈ q) /\
     match state j with
     | QUEUED => slice_total_bytes j = 0 /\ 0 < unadmitted_bytes j
     | ACTIVE => slice_transferred_bytes j < slice_total_bytes j /\ (0 <= rate_credit j < 1)%Q
     | DRAINING => 0 < slice_total_bytes j /\ slice_transferred_bytes j = slice_total_bytes j
     | DONE => False
     end) /\
  (forall t q id n, (t, q, id, n) ∈ draining s -> exists j, jobs s !! id = Some j /\ slice_total_bytes j = n) /\
  (forall e q, window s <> None -> e ∈ dkeys (channels (cfg s)) -> dget (quota_remaining s) e = Some q -> 0 <= q).
Proof using Hset.
  intros [Hi Hse Hp]%(reachable_rest set_order Hset). split_and!.
  - intros id j Hj. pose proof (ci_jobs _ Hi _ _ Hj) as [H1 _ H3 H4 H5 H6]. pose proof (ci_marks _ Hi id) as Hm. unfold marks in Hm. rewrite Hj in Hm. cbn in Hm.
    assert (Hd : state j <> DONE). { intros E. apply (done_pending s id j Hi Hj) in E. rewrite Hp in E. by apply not_elem_of_nil in E. }
    assert (Hreg : (id ∈ active s <-> state j = ACTIVE) /\ (id ∈ drain_ids s <-> state j = DRAINING)).
    { rewrite <- (bool_decide_eq_true (id ∈ active s)), <- (bool_decide_eq_true (id ∈ drain_ids s)). unfold expect in Hm.
      destruct (state j); injection Hm as -> -> _; by split; split. }
    destruct Hreg as [Ha Hdr].
    split_and!; try done; try lia; [by apply (ci_waiting _ Hi)|]. pose proof (Hse id j Hj) as Hlt. destruct (state j); try done; try lia.
    specialize (Hlt eq_refl). destruct H6 as (_ & ? & Hc). by split_and!; [|done|apply Hc].
  - intros t q id n Hd. destruct (drain_job s _ Hi Hd) as (j & Hj & _). exists j. split; [done|]. exact (do_bytes _ (ci_drains _ Hi) _ j Hd Hj).
  - intros e q Hw He Hq. destruct (ci_quota _ Hi Hw e He) as (_ & q' & Hq' & H0). congruence.
Qed.

(** The bytes of stored foreground jobs that the quota of an endpoint has not been
    charged for yet. *)
Definition unadmitted_foreground (s : service) (e : string) : Z := msum (fun _ j => uncharged (cfg s) e j) (jobs s).

(** C10: receipts are sound, in every reachable state (reached without a first
    window refused after its assignment).  The completions that a receipt reports were never
    reported before, belong to stored jobs that are done with every byte served,
    and leave the service; every other job stays, and every identifier that was
    ever accepted is either reported or stored.  For every endpoint the quota that
    the receipt shows is what was left before, less the scaled bytes of the
    foreground slices that were admitted meanwhile, and it is not negative. *)
Theorem causal_receipt_sound config s log raw r s' : reachable set_order config s log -> advance_to set_order raw s = (Ok r, s') ->
  NoDup (log ++ completion_ids r) /\
  (forall id, id ∈ completion_ids r -> exists j, is_Some (jobs s !! id) /\ jobs s' !! id = None /\
     j ∈ pr_job <$> job_progress r /\ job_id j = id /\ state j = DONE /\ completed_bytes j = total_bytes j) /\
  (forall id j, jobs s !! id = Some j -> id ∉ completion_ids r -> exists j', jobs s' !! id = Some j' /\ total_bytes j' = total_bytes j) /\
  (forall id, id ∈ known_ids s' -> id ∈ log ++ completion_ids r \/ is_Some (jobs s' !! id)) /\
  (forall e, e ∈ dkeys (channels (cfg s)) -> exists q q', dget (quota_remaining s) e = Some q /\
     dget (endpoint_quota_remaining_scaled r) e = Some q' /\ 0 <= q' /\
     q' = q - work_scale (cfg s) * (unadmitted_foreground s e - unadmitted_foreground s' e)).
Proof using Hset.
  intros Hr E. pose proof (reachable_rest set_order Hset _ _ _ Hr) as Hs. destruct (advance_ok_inv set_order Hset _ _ _ _ Hs E) as (w & h & Hw & _ & _ & Had).
  pose proof (reachable_causal_log set_order Hset _ _ _ (reach_advance _ _ _ _ _ _ _ Hr E)) as [L1 L2 L3]. split_and!; [done| | |done|].
  - intros id Hid. destruct (ad_reported _ _ _ _ Had id Hid) as (j & j' & Hj & Hev & Hd & Hb & Hin & Hn). exists j'. split_and!; try done.
    destruct (ev_static _ _ Hev) as [-> _]. exact (ji_id _ _ _ (ci_jobs _ (ar_inv _ Hs) _ _ Hj)).
  - intros id j Hj Hnin. destruct (ad_kept _ _ _ _ Had id j Hj) as [|(j' & Hj' & Hev)]; [done|]. exists j'. split; [done|]. apply (ev_static _ _ Hev).
  - intros e He. destruct (ad_frame _ _ _ _ Had) as (Hc & _ & Hw' & _). destruct (ad_quota _ _ _ _ Had) as [-> Hbal].
    destruct (ci_quota _ (ar_inv _ Hs) ltac:(by rewrite Hw) e He) as (_ & q & Hq & _).
    destruct (ci_quota _ (ar_inv _ (ad_rest _ _ _ _ Had)) ltac:(by rewrite Hw', Hw) e ltac:(by rewrite Hc)) as (_ & q' & Hq' & H0).
    exists q, q'. split_and!; try done. specialize (Hbal e). unfold balance, dget_or in Hbal. rewrite Hq, Hq', Hc in Hbal. cbn in Hbal.
    unfold unadmitted_foreground. rewrite Hc. lia.
Qed.

(** Admission is guarded and exhaustive.  In every reachable state
    [_activate] returns; it changes only queued jobs that have arrived and that the
    frozen states of their endpoints let through, and makes each of them active
    with a slice of at most its unadmitted bytes.  While the window is open, every
    job that is still queued waits behind, or is, the first job of its class in its
    queue, which has not arrived, is stopped by an endpoint state, or is a
    foreground job with an endpoint whose quota is below one scaled byte for each
    of the foreground heads that pass it. *)
Theorem causal_admission_exhaustive config s log : reachable set_order config s log ->
  exists s', _activate s = (Ok tt, s') /\
    (forall id j, jobs s !! id = Some j -> exists j', jobs s' !! id = Some j' /\ (j' = j \/ exists n, 0 < n <= unadmitted_bytes j /\
       j' = admitted (now s) n j /\ state j = QUEUED /\ arrival_ns j <= now s /\ _state_allows s j = Ok true)) /\
    forall w id j, window s = Some w -> now s < w.2 -> jobs s' !! id = Some j -> state j = QUEUED ->
      exists h, jobs s' !! job_id h = Some h /\ state h = QUEUED /\ stack h = stack j /\ channel h = channel j /\ _class h = _class j /\
        earlier j h = false /\ (now s' < arrival_ns h \/ _state_allows s' h = Ok false \/
          is_maintenance h = false /\ exists heads es e q k, (forall x, x ∈ heads -> jobs s' !! job_id x = Some x /\ state x = QUEUED) /\
            _endpoints (cfg s') h = Ok es /\ e ∈ es /\ dget (quota_remaining s') e = Some q /\
            peers (cfg s') heads e = Ok k /\ q < work_scale (cfg s') * Z.max 1 k).
Proof using Hset.
  intros [Hi Hse Hp]%(reachable_rest set_order Hset). pose proof (activate_ok s Hi) as H. unfold wp in H.
  destruct (_activate s) as [[[]|e] s']; [|done]. destruct H as [Ha Hx]. exists s'. split_and!; [done|apply (av_jobs _ _ Ha)|].
  intros w id j Hw Hlt Hj Hq. destruct (Hx ltac:(by exists w) id j Hj Hq) as (h & Hh & Hqh & H1 & H2 & H3 & H4 & Hb). exists h. split_and!; try done.
  destruct Hb as [|[|(heads & Hheads & x & es & n & Hx' & Hes & Hn & Hsl)]]; [by left|by right; left|right; right].
  assert (x = h) as -> by congruence. pose proof (ji_state _ _ _ (ci_jobs _ (st_inv _ _ (av_steps _ _ Ha)) _ _ Hh)) as Hst. rewrite Hqh in Hst.
  destruct (sl_short _ _ _ _ _ Hsl (proj1 Hst) Hn) as [Hm (e & q & k & He & Hq' & Hk & Hlt')]. split; [done|]. by exists heads, es, e, q, k.
Qed.

(** C11: integer bytes follow the exact fluid.  In every reachable state (reached
    without a first window refused after its assignment) every active job has a positive rate, and after [_progress] to any later time [t] its
    slice is completely transferred exactly when [t] has reached the finish time
    that the event loop computes for it; before that, the transferred bytes and the
    credit of less than a byte add up to the amount that the exact rate has moved,
    without any rounding.  Jobs that are not active do not change. *)
Theorem causal_transfer_exact config s log t : reachable set_order config s log -> now s < t ->
  exists rates s', _rates s = Ok rates /\ _progress t rates s = (Ok tt, s') /\
    (forall id j, jobs s !! id = Some j -> state j <> ACTIVE -> jobs s' !! id = Some j) /\
    forall id j, jobs s !! id = Some j -> state j = ACTIVE -> exists rate j', dget rates id = Some rate /\ (0 < rate)%Q /\ jobs s' !! id = Some j' /\
      (slice_transferred_bytes j' = slice_total_bytes j <-> finish_time s j rate <= t) /\
      (t < finish_time s j rate -> (0 <= rate_credit j' < 1)%Q /\
         (inject_Z (slice_transferred_bytes j') + rate_credit j' ==
          inject_Z (slice_transferred_bytes j) + rate_credit j + rate * inject_Z (t - now s) / inject_Z NS_PER_SECOND)%Q).
Proof using Hset.
  intros [Hi Hse Hp]%(reachable_rest set_order Hset) Ht. destruct (rates_total s Hi) as (rates & Hr & Hro). exists rates.
  pose proof (progress_ok s t rates Hi Hro Ht) as H. unfold wp in H. destruct (_progress t rates s) as [[[]|e] s']; [|done].
  destruct H as (_ & Hall & _). exists s'. split_and!; [done..| |]; intros id j Hj Hs; specialize (Hall id); rewrite Hj in Hall; cbn in Hall.
  - assert (Hn : dget rates id = None).
    { apply dget_None. rewrite (ro_keys _ _ Hro). intros (x & Hx & Ex)%active_job; [|done]. congruence. }
    by rewrite Hn in Hall.
  - assert (Hid : id ∈ dkeys rates) by (rewrite (ro_keys _ _ Hro); apply active_job; eauto). apply dget_is_Some in Hid as [rate Hrate].
    rewrite Hrate in Hall. pose proof (ro_positive _ _ Hro id rate (dget_Some_elem _ _ _ Hrate)) as Hpos.
    pose proof (ci_jobs _ Hi _ _ Hj) as [_ _ _ _ Hsl Hst]. rewrite Hs in Hst. destruct Hst as (_ & Hc & _). pose proof (Hse id j Hj Hs) as Hlt.
    destruct (served_slice (now s) t rate j Hs Hsl Hc (Qlt_le_weak _ _ Hpos) ltac:(lia)) as (H1 & H2 & H3 & H4).
    pose proof (served_finish s j rate t ltac:(lia) Hc Hpos Ht) as Hf. eexists rate, _. split_and!; try done. intros Hbefore.
    split; [split; [done|]; apply H3; lia|]. rewrite H4. unfold exact_amount. rewrite Qred_correct. ring.
Qed.
End claims.

(** C38: a control window is not opened atomically.  When the times and the
    endpoint states are accepted but a budget is not a nonnegative integer,
    [begin_window] raises with the window and the states already assigned and the
    quotas of the previous window in force; in the state that this leaves, no call
    of [begin_window] succeeds, before the end of the refused window. *)
Theorem causal_begin_window_not_atomic s stop budgets sts states e : 0 <= now s < stop -> (forall w, window s = Some w -> now s = w.2) ->
  same_set (dkeys budgets) (dkeys (channels (cfg s))) = true -> same_set (dkeys sts) (dkeys (channels (cfg s))) = true ->
  mapR (checked_state sts) (dkeys (channels (cfg s))) = Ok states -> mapR (scaled_budget s budgets) (dkeys (channels (cfg s))) = Raise e ->
  exists s', begin_window (VInt (now s)) (VInt stop) budgets sts s = (Raise e, s') /\ window s' = Some (now s, stop) /\
    quota_remaining s' = quota_remaining s /\ now s' = now s /\
    forall t0 t1 b st, exists e', begin_window t0 t1 b st s' = (Raise e', s').
Proof.
  intros Hn Hw Hb Hs Hst He. exists (open_window (now s, stop) states s).
  assert (Eint : forall z label, 0 <= z -> _integer (VInt z) label false = Ok z).
  { intros z label Hz. unfold _integer, BasicFabric._integer. by rewrite (proj2 (Z.leb_le 0 z) Hz). }
  split_and!; try done.
  - unfold begin_window, get, sbind at 1. cbv beta iota. rewrite !Eint by lia.
    rewrite !(sbind_step _ _ _ _ _ (lift_Ok _ _ s eq_refl)). rewrite (proj2 (Z.eqb_eq (now s) (now s)) eq_refl), (proj2 (Z.ltb_lt (now s) stop)) by lia.
    rewrite (sbind_step _ _ _ _ _ (require_Ok _ _ s eq_refl)).
    assert (Eb : match window s with Some (_, e) => now s =? e | None => true end = true).
    { destruct (window s) as [[w0 w1]|]; [|done]. apply Z.eqb_eq, (Hw (w0, w1) eq_refl). }
    rewrite Eb, (sbind_step _ _ _ _ _ (require_Ok _ _ s eq_refl)). cbv zeta. rewrite Hb, Hs, (sbind_step _ _ _ _ _ (require_Ok _ _ s eq_refl)).
    rewrite Hst, (sbind_step _ _ _ _ _ (lift_Ok _ _ s eq_refl)). unfold put, sbind at 1. cbv beta iota. by rewrite He.
  - intros t0 t1 b st. unfold begin_window, get, sbind at 1. cbv beta iota. set (s' := open_window (now s, stop) states s).
    destruct (_integer t0 "start_ns" false) as [x0|e0]; [|by eexists]. rewrite (sbind_step _ _ _ _ _ (lift_Ok _ _ s' eq_refl)).
    destruct (_integer t1 "end_ns" false) as [x1|e1]; [|by eexists]. rewrite (sbind_step _ _ _ _ _ (lift_Ok _ _ s' eq_refl)).
    destruct ((x0 =? now s') && (x0 <? x1)); [|by eexists]. rewrite (sbind_step _ _ _ _ _ (require_Ok true _ s' eq_refl)).
    cbn [s' open_window window now]. destruct (Z.eqb_spec (now s) stop); [lia|]. by eexists.
Qed.

(** *** Witnesses *)

Lemma elements_order (X : gset string) : elements X ≡ₚ elements X.
Proof. reflexivity. Qed.

Lemma causal_advance_total_witness : exists s r s', demo_open = Some s /\ advance_to elements (VInt 40) s = (Ok r, s') /\ end_ns r = 40.
Proof.
  destruct demo_open_reached as (s & Ho & Hr & Hf). injection Hf as Hn Hw _.
  destruct (proj1 (causal_advance_total elements elements_order _ s [] (VInt 40) Hr) (0, 20000000) 40 Hw eq_refl) as (r & s' & E & _ & _ & He);
    [cbn; lia|]. exists s, r, s'. split; [exact Ho|]. split; [exact E|exact He].
Defined.

Lemma causal_well_formed_witness : exists s j, demo_open = Some s /\ jobs s !! "a" = Some j /\ state j = ACTIVE /\
  total_bytes j = completed_bytes j + slice_total_bytes j + unadmitted_bytes j.
Proof.
  destruct demo_open_reached as (s & Ho & Hr & _). destruct (causal_well_formed elements elements_order _ s [] Hr) as (H & _).
  assert (Hj : (fun s => (fun j => state j) <$> jobs s !! "a") <$> demo_open = Some (Some ACTIVE)) by (vm_compute; reflexivity).
  rewrite Ho in Hj. apply (inj Some) in Hj. destruct (jobs s !! "a") as [j|] eqn:Ej; [|discriminate Hj]. exists s, j.
  destruct (H "a" j Ej) as (_ & Hb & _). apply (inj Some) in Hj.
  split; [exact Ho|]. split; [exact Ej|]. split; [exact Hj|exact Hb].
Defined.

Lemma causal_receipt_sound_witness : exists s r s', demo_open = Some s /\ advance_to elements (VInt 40) s = (Ok r, s') /\
  completion_ids r = ["e"] /\ NoDup ([] ++ completion_ids r) /\ jobs s' !! "e" = None.
Proof.
  destruct demo_open_reached as (s & Ho & Hr & _).
  assert (Hc : (fun s => match advance_to elements (VInt 40) s with (Ok r, _) => completion_ids r | _ => [] end) <$> demo_open = Some ["e"]) by (vm_compute; reflexivity).
  rewrite Ho in Hc. apply (inj Some) in Hc. destruct (advance_to elements (VInt 40) s) as [[r|e] s'] eqn:E; [|discriminate Hc].
  destruct (causal_receipt_sound elements elements_order _ s [] _ r s' Hr E) as (H1 & H2 & _). exists s, r, s'.
  split; [exact Ho|]. split; [exact E|]. split; [exact Hc|]. split; [exact H1|].
  destruct (H2 "e") as (j & _ & Hn & _); [|exact Hn]. rewrite Hc. left.
Defined.

Lemma causal_admission_exhaustive_witness : exists s s', demo_open = Some s /\ _activate s = (Ok tt, s') /\
  forall id j, jobs s' !! id = Some j -> state j = QUEUED -> exists h, jobs s' !! job_id h = Some h /\ _class h = _class j.
Proof.
  destruct demo_open_reached as (s & Ho & Hr & Hf). injection Hf as Hn Hw _.
  destruct (causal_admission_exhaustive elements elements_order _ s [] Hr) as (s' & E & _ & H). exists s, s'.
  split; [exact Ho|]. split; [exact E|]. intros id j Hj Hq. destruct (H (0, 20000000) id j Hw ltac:(rewrite Hn; cbn; lia) Hj Hq) as (h & Hh & _ & _ & _ & Hc & _).
  exists h. split; [exact Hh|exact Hc].
Defined.

Lemma causal_transfer_exact_witness : exists s rates s' j, demo_open = Some s /\ _rates s = Ok rates /\ _progress 3 rates s = (Ok tt, s') /\
  jobs s !! "a" = Some j /\ exists rate, dget rates "a" = Some rate /\ finish_time s j rate = 5 /\ (0 < rate)%Q.
Proof.
  destruct demo_open_reached as (s & Ho & Hr & Hf). injection Hf as Hn _ _.
  destruct (causal_transfer_exact elements elements_order _ s [] 3 Hr ltac:(rewrite Hn; lia)) as (rates & s' & H1 & H2 & _ & H3).
  assert (Hx : (fun s => match jobs s !! "a", _rates s with
    | Some j, Ok rates => Some (state j, (fun r => finish_time s j r) <$> dget rates "a") | _, _ => None end) <$> demo_open = Some (Some (ACTIVE, Some 5)))
    by (vm_compute; reflexivity).
  rewrite Ho in Hx. apply (inj Some) in Hx. rewrite H1 in Hx. destruct (jobs s !! "a") as [j|] eqn:Ej; [|discriminate Hx]. injection Hx as Hs Hfin.
  exists s, rates, s', j.
  split; [exact Ho|]. split; [exact H1|]. split; [exact H2|]. split; [exact Ej|]. destruct (H3 "a" j Ej Hs) as (rate & j' & Hrate & Hpos & _). exists rate. rewrite Hrate in Hfin.
  split; [exact Hrate|]. split; [|exact Hpos]. injection Hfin as Hfin. exact Hfin.
Defined.

Definition bad_budgets : dict string pyval := [("hbf0", VInt 1000); ("hbm0", VInt (-1))].

Lemma causal_begin_window_not_atomic_witness : exists s e s', init TopologyInvariant.demo_document = Ok s /\
  begin_window (VInt 0) (VInt 20000000) bad_budgets TopologyInvariant.demo_states s = (Raise e, s') /\ window s' = Some (0, 20000000) /\
  exists e', begin_window (VInt 0) (VInt 20000000) TopologyInvariant.demo_budgets TopologyInvariant.demo_states s' = (Raise e', s').
Proof.
  destruct (init TopologyInvariant.demo_document) as [s|] eqn:E; [|vm_compute in E; discriminate E].
  destruct (causal_begin_window_not_atomic s 20000000 bad_budgets TopologyInvariant.demo_states [("hbf0", TopologyService.Light); ("hbm0", TopologyService.Normal)]
    (ValueError "budgets.hbm0 must be non-negative")) as (s' & H1 & H2 & _ & _ & H3); vm_compute in E; injection E as <-;
    [by vm_compute|intros w Hw; discriminate Hw|vm_compute; reflexivity..|].
  eexists _, _, s'. split; [reflexivity|]. split; [exact H1|]. split; [exact H2|]. apply H3.
Defined.
End CausalTheorems.
