(* ===== verification/CausalWorkload.v ===== *)
(** * CausalWorkload: the architecture-derived causal workload

    Models the workload part of [experiments/eq3_system_thermal/causal_workload.py]:
    the tensor regions of a model ([_tensor_groups]) and the dependency graph of its
    batches ([build_architecture_trace] in its metadata mode), whose tasks the class
    of [CausalExecutor] executes.

    The catalog of models is a file and its entry is an argument ([metadata]); the
    scenario is an argument after the conversions by [int(...)].  The mode that takes
    its structure from a captured trace file is left out. *)

From S2P Require Import Prelude ProgramLogic.

Module CausalWorkload.
Import ProgramLogic.

(** ** Tensor regions *)

Record metadata := {
  hidden_size : Z; intermediate_size : Z; num_attention_heads : Z; num_key_value_heads : Z; num_hidden_layers : Z; vocab_size : Z;
  bytes_per_tensor_element : Z; tensor_payload_bytes : Z }.

Inductive kind := Embedding | Attention | Mlp | FinalNorm | OutputEmbedding.

Record tensor := {
  tensor_id : string; tensor_kind : kind; bytes : Z; layer : option Z; logical_address_bytes : Z; full_tensor_bytes : option Z }.

Definition MIB : Z := 1048576.
Definition align (address : Z) : Z := (address + 1048575) / MIB * MIB.

Definition region (id : string) (k : kind) (n : Z) (l : option Z) : tensor :=
  {| tensor_id := id; tensor_kind := k; bytes := n; layer := l; logical_address_bytes := 0; full_tensor_bytes := None |}.
Definition at_address (a : Z) (t : tensor) : tensor :=
  {| tensor_id := tensor_id t; tensor_kind := tensor_kind t; bytes := bytes t; layer := layer t; logical_address_bytes := a;
     full_tensor_bytes := full_tensor_bytes t |}.

Definition layer_name (l : Z) : string := "model.layers." +:+ pretty l.
Definition attention_id (l : Z) : string := layer_name l +:+ ".attention_bundle".
Definition mlp_id (l : Z) : string := layer_name l +:+ ".mlp_bundle".

Definition layer_regions (m : metadata) (hd l : Z) : list tensor :=
  let h := hidden_size m in
  let kv := num_key_value_heads m in
  [region (attention_id l) Attention (((2 * h * h + h) + 2 * (h * kv * hd + kv * hd) + h) * bytes_per_tensor_element m) (Some l);
   region (mlp_id l) Mlp ((3 * h * intermediate_size m + h) * bytes_per_tensor_element m) (Some l)].

(** [range(n)]. *)
Definition range (n : Z) : list Z := Z.of_nat <$> seq 0 (Z.to_nat n).

Definition regions (m : metadata) (hd : Z) : list tensor :=
  let h := hidden_size m in
  let scalar := bytes_per_tensor_element m in
  [region "model.embed_tokens" Embedding (vocab_size m * h * scalar) None]
  ++ (l ← range (num_hidden_layers m); layer_regions m hd l)
  ++ [region "model.norm" FinalNorm (h * scalar) None; region "lm_head" OutputEmbedding (vocab_size m * h * scalar) None].

Fixpoint place_regions (address : Z) (l : list tensor) : list tensor :=
  match l with
  | [] => []
  | t :: l' => at_address address t :: place_regions (align (address + bytes t)) l'
  end.

Definition _tensor_groups (m : metadata) : result (list tensor) :=
  let? _ := ensure (negb (num_attention_heads m =? 0)) ZeroDivisionError in
  let? _ := ensure (hidden_size m mod num_attention_heads m =? 0) (ValueError "hidden size is not divisible by attention heads") in
  let groups := regions m (hidden_size m / num_attention_heads m) in
  let? _ := ensure (zsum (bytes <$> groups) =? tensor_payload_bytes m)
              (ValueError "derived tensor groups do not match official payload bytes") in
  Ok (place_regions 0 groups).

(** ** Dependency graph *)

Inductive work :=
| Storage (t : tensor) (issue_after consume_after : list string) (consumer_count : Z)
| Compute (duration_ns : Z) (depends_on : list string) (is_token_terminal : bool).
Record task := { task_id : string; job : work; batch_interval_id : Z }.

Record batch := {
  interval_id : Z; arrival_ns : Z; batch_size : Z; token_ids : list string; tasks : list task; terminal_task_id : string }.

(** The fields that identify a trace, and its batches. *)
Record identity := {
  trace_origin : string; dependency_mode : string; model_id : string; embedding_access : string; prefetch_layers : Z;
  prefetch_mode : string; structure_sha256 : option string }.
Record trace := { ident : identity; batches : list batch }.

Definition TRACE_ORIGIN : string := "SYNTHETIC_ARCHITECTURE_DEPENDENCY_FROM_OFFICIAL_METADATA".
Definition TINY_TRACE_ORIGIN : string := "TRACE_DERIVED_TINY_CPU_FORWARD_TEMPLATE".

Record scenario := {
  s_model_id : string; batch_intervals : Z; s_batch_size : Z; batch_interval_ns : Z; s_prefetch_layers : Z;
  attention_compute_ns_per_token : Z; mlp_compute_ns_per_token : Z; output_compute_ns_per_token : Z; s_embedding_access : string;
  s_prefetch_mode : string; first_interval : Z; embedding_unique_rows_per_interval : option Z }.

Definition prefix (interval : Z) : string := "interval" +:+ pretty interval.
Definition layer_task (interval l : Z) (suffix : string) : string := prefix interval +:+ ":l" +:+ pretty l +:+ ":" +:+ suffix.

(** The embedding read of an interval. *)
Definition embedding_of (m : metadata) (c : scenario) (t : tensor) (interval : Z) : result tensor :=
  if String.eqb (s_embedding_access c) "selected_token_rows" then
    let rows := default (s_batch_size c) (embedding_unique_rows_per_interval c) in
    let? _ := ensure ((1 <=? rows) && (rows <=? s_batch_size c)) (ValueError "embedding unique rows must be within the batch size") in
    Ok {| tensor_id := tensor_id t +:+ ":interval" +:+ pretty interval +:+ ":selected_rows"; tensor_kind := tensor_kind t;
          bytes := hidden_size m * bytes_per_tensor_element m * rows; layer := layer t; logical_address_bytes := logical_address_bytes t;
          full_tensor_bytes := Some (bytes t) |}
  else Ok t.

(** The tasks of one layer: the tasks so far, the last task, and the last compute
    task of every earlier layer. *)
Definition add_layer (c : scenario) (by_id : dict string tensor) (interval : Z) (acc : list task * string * list string) (l : Z) :
    result (list task * string * list string) :=
  let '(ts, previous, layer_compute_ids) := acc in
  let parent_index := l - s_prefetch_layers c - 1 in
  let? issue_parent := if 0 <=? parent_index then let? p := lget layer_compute_ids (Z.to_nat parent_index) in Ok [p] else Ok [] in
  let on_demand := String.eqb (s_prefetch_mode c) "on_demand" in
  let attn_read := layer_task interval l "attn_read" in
  let attn_compute := layer_task interval l "attn_compute" in
  let mlp_read := layer_task interval l "mlp_read" in
  let mlp_compute := layer_task interval l "mlp_compute" in
  let make id w := {| task_id := id; job := w; batch_interval_id := interval |} in
  let? attention := dindex by_id (attention_id l) in
  let? mlp := dindex by_id (mlp_id l) in
  Ok (ts ++ [
    make attn_read (Storage attention (if on_demand then [previous] else issue_parent) [previous] (s_batch_size c));
    make attn_compute (Compute (attention_compute_ns_per_token c * s_batch_size c) [previous; attn_read] false);
    make mlp_read (Storage mlp (if on_demand then [attn_compute] else [previous]) [attn_compute] (s_batch_size c));
    make mlp_compute (Compute (mlp_compute_ns_per_token c * s_batch_size c) [attn_compute; mlp_read] false)],
    mlp_compute, layer_compute_ids ++ [mlp_compute]).

Definition add_final (c : scenario) (by_id : dict string tensor) (interval : Z) (acc : list task * string) (item : string * string) :
    result (list task * string) :=
  let '(ts, previous) := acc in
  let id := prefix interval +:+ ":" +:+ item.1 in
  let? t := dindex by_id item.2 in
  Ok (ts ++ [{| task_id := id; job := Storage t [previous] [previous] (s_batch_size c); batch_interval_id := interval |}], id).

Definition token_name (interval i : Z) : string := prefix interval +:+ ":token" +:+ pretty i.

Definition build_batch (m : metadata) (c : scenario) (by_id : dict string tensor) (interval : Z) : result batch :=
  let? t := dindex by_id "model.embed_tokens" in
  let? embedding := embedding_of m c t interval in
  let embed_read := prefix interval +:+ ":embed_read" in
  let first := {| task_id := embed_read; job := Storage embedding [] [] (s_batch_size c); batch_interval_id := interval |} in
  let? (ts, previous, _) := foldM (add_layer c by_id interval) (range (num_hidden_layers m)) ([first], embed_read, []) in
  let? (ts, previous) := foldM (add_final c by_id interval) [("norm_read", "model.norm"); ("head_read", "lm_head")] (ts, previous) in
  let final := prefix interval +:+ ":token_complete" in
  let last := {| task_id := final; job := Compute (output_compute_ns_per_token c * s_batch_size c) [previous] true; batch_interval_id := interval |} in
  Ok {| interval_id := interval; arrival_ns := interval * batch_interval_ns c; batch_size := s_batch_size c;
        token_ids := token_name interval <$> range (s_batch_size c); tasks := ts ++ [last]; terminal_task_id := final |}.

Definition by_tensor_id (l : list tensor) : dict string tensor := foldl (fun d t => dset d (tensor_id t) t) [] l.

Definition check_scenario (c : scenario) : result unit :=
  let? _ := ensure (String.eqb (s_embedding_access c) "selected_token_rows" || String.eqb (s_embedding_access c) "full_weight_stress")
              (ValueError "embedding_access must be selected_token_rows or full_weight_stress") in
  let? _ := ensure ((0 <? batch_intervals c) && (0 <? s_batch_size c) && (0 <? attention_compute_ns_per_token c)
                    && (0 <? mlp_compute_ns_per_token c) && (0 <? output_compute_ns_per_token c)
                    && (0 <=? batch_interval_ns c) && (0 <=? s_prefetch_layers c))
              (ValueError "trace counts/durations must be positive; interval/prefetch non-negative") in
  let? _ := ensure (String.eqb (s_prefetch_mode c) "on_demand" || String.eqb (s_prefetch_mode c) "layer_lookahead") (ValueError "unknown prefetch_mode") in
  ensure (negb (String.eqb (s_prefetch_mode c) "on_demand") || (s_prefetch_layers c =? 0))
    (ValueError "on-demand weights cannot also request layer lookahead").

Definition build_architecture_trace (m : metadata) (c : scenario) : result trace :=
  let? _ := check_scenario c in
  let? groups := _tensor_groups m in
  let? bs := mapR (build_batch m c (by_tensor_id groups)) ((fun i => first_interval c + i) <$> range (batch_intervals c)) in
  Ok {| ident := {| trace_origin := TRACE_ORIGIN; dependency_mode := "synthetic_metadata_dag"; model_id := s_model_id c;
                    embedding_access := s_embedding_access c; prefetch_layers := s_prefetch_layers c; prefetch_mode := s_prefetch_mode c;
                    structure_sha256 := None |}; batches := bs |}.

(** ** Names *)

(** The tasks of a batch. *)
Inductive step := AttnRead | AttnCompute | MlpRead | MlpCompute.
Definition step_name (k : step) : string :=
  match k with AttnRead => "attn_read" | AttnCompute => "attn_compute" | MlpRead => "mlp_read" | MlpCompute => "mlp_compute" end.
Inductive label := LEmbed | LLayer (l : Z) (k : step) | LNorm | LHead | LToken.
Definition local_name (x : label) : string :=
  match x with
  | LEmbed => "embed_read"
  | LLayer l k => "l" +:+ pretty l +:+ ":" +:+ step_name k
  | LNorm => "norm_read"
  | LHead => "head_read"
  | LToken => "token_complete"
  end.
Definition label_name (interval : Z) (x : label) : string := prefix interval +:+ ":" +:+ local_name x.


Lemma label_name_inj i j x y : label_name i x = label_name j y -> i = j /\ x = y.
Proof.
  unfold label_name, prefix. intros E. assert (E' : pretty i +:+ ":" +:+ local_name x = pretty j +:+ ":" +:+ local_name y) by exact (string_app_inv_head "interval" _ _ E).
  apply colon_inj in E' as [Hij Hxy]; [|apply pretty_colon..]. apply (inj pretty) in Hij as ->. split; [done|].
  destruct x as [|l k| | |], y as [|l' k'| | |]; try done; try discriminate Hxy. cbn in Hxy. injection Hxy as Hxy.
  apply colon_inj in Hxy as [Hl Hk]; [|apply pretty_colon..]. apply (inj pretty) in Hl as ->. f_equal. by destruct k, k'.
Qed.

Lemma layer_task_label i l k : layer_task i l (step_name k) = label_name i (LLayer l k).
Proof. unfold layer_task, label_name, prefix. cbn. by destruct k. Qed.

(** ** Dependencies *)

Definition deps (x : task) : list string := match job x with Storage _ issue consume _ => issue ++ consume | Compute _ d _ => d end.
(** What a task consumes. *)
Definition inputs (x : task) : list string := match job x with Storage _ _ consume _ => consume | Compute _ d _ => d end.

(** Reads of at least one byte and computations of at least one nanosecond. *)
Definition positive_work (x : task) : Prop := match job x with Storage t _ _ _ => 0 < bytes t | Compute d _ _ => 0 < d end.

(** Every dependency names an earlier task. *)
Inductive causal : list task -> Prop :=
| causal_nil : causal []
| causal_snoc ts x : causal ts -> (forall d, d ∈ deps x -> d ∈ task_id <$> ts) -> causal (ts ++ [x]).

Lemma causal_split ts before x after : causal ts -> ts = before ++ x :: after -> forall d, d ∈ deps x -> d ∈ task_id <$> before.
Proof.
  intros Hc. revert before x after. induction Hc as [|ts y Hc IH Hy]; intros before x after E; [by destruct before|].
  destruct (decide (after = [])) as [->|Hne].
  - apply app_inj_tail in E as [<- <-]. done.
  - destruct (exists_last Hne) as (after' & z & ->). change (before ++ x :: after' ++ [z]) with (before ++ (x :: after') ++ [z]) in E.
    rewrite app_assoc in E. apply app_inj_tail in E as [E _]. by eapply IH.
Qed.

(** The last task, and every other task is an input of some task. *)
Definition feeds (ts : list task) (last : string) : Prop :=
  forall x, x ∈ ts -> task_id x = last \/ exists y, y ∈ ts /\ task_id x ∈ inputs y.

Lemma range_elem n l : l ∈ range n <-> 0 <= l < n.
Proof.
  unfold range. rewrite list_elem_of_fmap. setoid_rewrite elem_of_seq. split; [intros (k & -> & H); lia|].
  intros H. exists (Z.to_nat l). lia.
Qed.
Lemma range_NoDup n : NoDup (range n).
Proof. unfold range. apply NoDup_fmap_2; [apply _|apply NoDup_seq]. Qed.

(** ** The graph of a batch *)

Definition layer_labels (l : Z) : list label := LLayer l <$> [AttnRead; AttnCompute; MlpRead; MlpCompute].
Definition batch_labels (layers : list Z) : list label := LEmbed :: (layers ≫= layer_labels).

Lemma batch_labels_NoDup layers : NoDup layers -> NoDup (batch_labels layers ++ [LNorm; LHead; LToken]).
Proof.
  intros Hnd. assert (Hin : forall x, x ∈ layers ≫= layer_labels -> exists l k, x = LLayer l k /\ l ∈ layers).
  { intros x (l & Hx & Hl)%list_elem_of_bind. unfold layer_labels in Hx. apply list_elem_of_fmap in Hx as (k & -> & _). eauto. }
  unfold batch_labels. cbn [app]. apply NoDup_cons. split.
  { rewrite elem_of_app. intros [(l & k & [=] & _)%Hin|H]. set_solver. }
  apply NoDup_app. split_and!.
  - clear Hin. induction Hnd as [|l layers Hl Hnd IH]; [constructor|]. cbn [mbind list_bind]. apply NoDup_app. split_and!.
    + unfold layer_labels. apply NoDup_fmap_2; [by intros ? ? [=]|]. repeat (apply NoDup_cons; split; [set_solver|]). constructor.
    + intros x Hx (l' & Hx' & Hl')%list_elem_of_bind. unfold layer_labels in *. apply list_elem_of_fmap in Hx as (k & -> & _), Hx' as (k' & [= <- _] & _). done.
    + exact IH.
  - intros x (l & k & -> & _)%Hin. set_solver.
  - repeat (apply NoDup_cons; split; [set_solver|]). constructor.
Qed.

Section batch.
Context (m : metadata) (c : scenario) (by_id : dict string tensor) (interval : Z).

Record layers_inv (ls : list Z) (acc : list task * string * list string) : Prop := {
  li_ids : task_id <$> acc.1.1 = label_name interval <$> batch_labels ls;
  li_previous : acc.1.2 ∈ task_id <$> acc.1.1;
  li_computes : acc.2 = (fun l => label_name interval (LLayer l MlpCompute)) <$> ls;
  li_causal : causal acc.1.1;
  li_feeds : feeds acc.1.1 acc.1.2;
  li_work : forall x, x ∈ acc.1.1 -> positive_work x }.

Lemma layer_compute_in ls l : l ∈ ls -> label_name interval (LLayer l MlpCompute) ∈ label_name interval <$> batch_labels ls.
Proof using.
  intros Hl. apply list_elem_of_fmap. eexists. split; [done|]. apply elem_of_cons. right. apply list_elem_of_bind. exists l. split; [|done].
  unfold layer_labels. set_solver.
Qed.

Lemma feeds_snoc ts last x : feeds ts last -> last ∈ inputs x -> feeds (ts ++ [x]) (task_id x).
Proof using.
  intros Hf Hin y [Hy|Hy%list_elem_of_singleton]%elem_of_app; [|by left; subst]. right. destruct (Hf y Hy) as [<-|(z & Hz & Hd)].
  - exists x. set_solver.
  - exists z. set_solver.
Qed.

(** A task that the next one consumes. *)
Lemma feeds_aside ts last x y : feeds ts last -> last ∈ inputs y -> task_id x ∈ inputs y -> feeds (ts ++ [x; y]) (task_id y).
Proof using.
  intros Hf H1 H2 z [Hz|Hz]%elem_of_app.
  - destruct (Hf z Hz) as [<-|(w & Hw & Hd)]; right; [exists y; set_solver|exists w; set_solver].
  - apply elem_of_cons in Hz as [->|Hz%list_elem_of_singleton]; [right; exists y; set_solver|left; by subst].
Qed.

Context (Hprefetch : 0 <= s_prefetch_layers c) (Hbatch : 0 < s_batch_size c) (Hattention : 0 < attention_compute_ns_per_token c)
  (Hmlp : 0 < mlp_compute_ns_per_token c)
  (Hpos : forall k t, dget by_id k = Some t -> 0 < bytes t).

Lemma add_layer_ok ls l acc : layers_inv ls acc -> l = Z.of_nat (length ls) ->
  is_Some (dget by_id (attention_id l)) -> is_Some (dget by_id (mlp_id l)) ->
  exists acc', add_layer c by_id interval acc l = Ok acc' /\ layers_inv (ls ++ [l]) acc'.
Proof using Hprefetch Hbatch Hattention Hmlp Hpos.
  intros [H1 H2 H3 H4 H5 H6] Hl [at_ Hat] [ml Hml]. destruct acc as [[ts previous] computes]. cbn in H1, H2, H3, H4, H5, H6.
  assert (Hparent : exists parents, (if 0 <=? l - s_prefetch_layers c - 1 then let? p := lget computes (Z.to_nat (l - s_prefetch_layers c - 1)) in Ok [p] else Ok [])
      = Ok parents /\ forall p, p ∈ parents -> p ∈ task_id <$> ts).
  { destruct (Z.leb_spec 0 (l - s_prefetch_layers c - 1)) as [Hp|Hp]; [|exists []; set_solver].
    assert (Hlt : (Z.to_nat (l - s_prefetch_layers c - 1) < length computes)%nat) by (rewrite H3, length_fmap; lia).
    destruct (lookup_lt_is_Some_2 _ _ Hlt) as [p Hlook]. rewrite (lget_Ok _ _ _ Hlook). eexists. split; [done|].
    intros q ->%list_elem_of_singleton. rewrite H1. rewrite H3 in Hlook. apply list_elem_of_lookup_2, list_elem_of_fmap in Hlook as (l' & -> & Hin).
    by apply layer_compute_in. }
  destruct Hparent as (parents & Hp & Hpin). unfold add_layer. rewrite Hp. cbn [rbind].
  rewrite (proj2 (dindex_Ok _ _ _) Hat), (proj2 (dindex_Ok _ _ _) Hml). cbn [rbind].
  assert (Hd : forall x ys, causal (ts ++ ys) -> (forall d, d ∈ deps x -> d ∈ task_id <$> ts ++ ys) -> causal (ts ++ ys ++ [x])).
  { intros x ys Hc Hx. rewrite app_assoc. by constructor. }
  eexists. split; [done|]. constructor; cbn [fst snd].
  - rewrite fmap_app, H1. unfold batch_labels. rewrite !fmap_cons, bind_app, fmap_app. cbn [app]. by f_equal.
  - rewrite fmap_app. set_solver.
  - rewrite fmap_app, H3. cbn. by rewrite <- layer_task_label.
  - destruct (String.eqb (s_prefetch_mode c) "on_demand");
      repeat (match goal with |- causal (ts ++ ?l) => let l' := eval cbn in (removelast l) in let x := eval cbn in (List.last l (Build_task "" (Compute 0 [] false) 0)) in
        change (ts ++ l) with (ts ++ l' ++ [x]); apply Hd end; [|rewrite fmap_app; unfold deps; cbn [job]; set_solver]); by rewrite app_nil_r.
  - match goal with |- feeds (ts ++ [?a; ?b; ?d; ?e]) _ => change (ts ++ [a; b; d; e]) with (ts ++ [a; b] ++ [d; e]) end.
    rewrite app_assoc. apply (feeds_aside _ (layer_task interval l "attn_compute")); [|unfold inputs; cbn; set_solver..].
    apply (feeds_aside _ previous); [done|unfold inputs; cbn; set_solver..].
  - intros x [Hx|Hx]%elem_of_app; [by apply H6|]. pose proof (Hpos _ _ Hat). pose proof (Hpos _ _ Hml).
    repeat (apply elem_of_cons in Hx as [->|Hx]; [unfold positive_work; cbn; nia|]). by apply not_elem_of_nil in Hx.
Qed.

Lemma layers_ok n : (forall l, 0 <= l < n -> is_Some (dget by_id (attention_id l)) /\ is_Some (dget by_id (mlp_id l))) ->
  forall first, task_id first = label_name interval LEmbed -> deps first = [] -> positive_work first ->
  exists acc, foldM (add_layer c by_id interval) (range n) ([first], task_id first, []) = Ok acc /\ layers_inv (range n) acc.
Proof using Hprefetch Hbatch Hattention Hmlp Hpos.
  intros Hby first Hid Hdeps Hwork. apply (foldM_inv layers_inv).
  - constructor; cbn.
    + by rewrite Hid.
    + set_solver.
    + done.
    + apply (causal_snoc [] first); [constructor|]. rewrite Hdeps. set_solver.
    + intros x ->%list_elem_of_singleton. by left.
    + by intros x ->%list_elem_of_singleton.
  - intros visited l todo acc Hl Hinv. assert (Hin : l ∈ range n) by (rewrite Hl; set_solver). apply range_elem in Hin as Hrange.
    apply (add_layer_ok visited l acc Hinv); [|by apply Hby..].
    assert (Hlook : range n !! length visited = Some l) by (rewrite Hl; by apply list_lookup_middle).
    unfold range in Hlook. rewrite list_lookup_fmap in Hlook. destruct (seq 0 (Z.to_nat n) !! length visited) as [k|] eqn:E; [|discriminate Hlook].
    apply lookup_seq in E as [-> _]. by injection Hlook as <-.
Qed.
End batch.

(** ** Well-formed batches *)

(** The text after the last colon. *)
Fixpoint last_segment (s : string) : string :=
  match s with
  | EmptyString => EmptyString
  | String c s' => if no_colon s' then (if Ascii.eqb c colon then s' else s) else last_segment s'
  end.

(** Task identifiers that do not look like the identifiers which the executor
    derives for migrations and retries. *)
Definition plain_id (s : string) : bool := negb (String.prefix "migration:" s) && negb (String.prefix "retry" (last_segment s)).

Lemma no_colon_app s t : no_colon (s +:+ t) = no_colon s && no_colon t.
Proof. induction s as [|c s IH]; [done|]. change (negb (Ascii.eqb c colon) && no_colon (s +:+ t) = negb (Ascii.eqb c colon) && no_colon s && no_colon t).
  by rewrite IH, andb_assoc. Qed.

Lemma last_segment_colon a s : no_colon s = true -> last_segment (a +:+ ":" +:+ s) = s.
Proof.
  intros Hs. induction a as [|c a IH].
  - change ((if no_colon s then s else last_segment s) = s). by rewrite Hs.
  - change (last_segment (String c a +:+ ":" +:+ s)) with
      (if no_colon (a +:+ ":" +:+ s) then (if Ascii.eqb c colon then a +:+ ":" +:+ s else String c (a +:+ ":" +:+ s)) else last_segment (a +:+ ":" +:+ s)).
    rewrite no_colon_app. change (no_colon (":" +:+ s)) with false. by rewrite andb_false_r, IH.
Qed.

Lemma label_plain i x : plain_id (label_name i x) = true.
Proof.
  assert (Hseg : exists k, last_segment (label_name i x) = k /\ k ∈ ["embed_read"; "attn_read"; "attn_compute"; "mlp_read"; "mlp_compute"; "norm_read"; "head_read"; "token_complete"]).
  { unfold label_name, prefix. destruct x as [|l k| | |];
      try (eexists; split; [by rewrite last_segment_colon|cbn; set_solver]).
    change (local_name (LLayer l k)) with ("l" +:+ pretty l +:+ ":" +:+ step_name k).
    exists (step_name k). split; [|destruct k; set_solver].
    replace (("interval" +:+ pretty i) +:+ ":" +:+ "l" +:+ pretty l +:+ ":" +:+ step_name k)
      with ((("interval" +:+ pretty i) +:+ ":" +:+ "l" +:+ pretty l) +:+ ":" +:+ step_name k)
      by (by rewrite !string_app_assoc).
    apply last_segment_colon. by destruct k. }
  destruct Hseg as (k & E & Hk). unfold plain_id. rewrite E. apply andb_true_iff. split; [done|].
  repeat (apply elem_of_cons in Hk as [->|Hk]; [done|]). set_solver.
Qed.

Record wf_batch (b : batch) : Prop := {
  wb_ids : NoDup (task_id <$> tasks b);
  wb_causal : causal (tasks b);
  wb_feeds : feeds (tasks b) (terminal_task_id b);
  wb_terminal : last (task_id <$> tasks b) = Some (terminal_task_id b);
  wb_work : forall x, x ∈ tasks b -> positive_work x;
  wb_plain : forall x, x ∈ tasks b -> plain_id (task_id x) = true }.

(** ** Tensor regions *)

Lemma by_tensor_id_snoc l t : by_tensor_id (l ++ [t]) = dset (by_tensor_id l) (tensor_id t) t.
Proof. unfold by_tensor_id. by rewrite foldl_app. Qed.
Lemma by_tensor_id_elem l k t : dget (by_tensor_id l) k = Some t -> t ∈ l.
Proof.
  induction l as [|x l IH] using rev_ind; [done|]. rewrite by_tensor_id_snoc, dget_dset. case_decide; [intros [= ->]; set_solver|]. set_solver.
Qed.
Lemma by_tensor_id_some l k : k ∈ tensor_id <$> l -> is_Some (dget (by_tensor_id l) k).
Proof.
  induction l as [|x l IH] using rev_ind; [set_solver|]. rewrite by_tensor_id_snoc, dget_dset, fmap_app. case_decide; [done|]. set_solver.
Qed.

Lemma place_regions_ids a l : tensor_id <$> place_regions a l = tensor_id <$> l.
Proof. revert a. induction l as [|t l IH]; intros a; [done|]. cbn. by rewrite IH. Qed.
Lemma place_regions_bytes a l : bytes <$> place_regions a l = bytes <$> l.
Proof. revert a. induction l as [|t l IH]; intros a; [done|]. cbn. by rewrite IH. Qed.

Definition region_ids (layers : list Z) : list string :=
  "model.embed_tokens" :: (layers ≫= fun l => [attention_id l; mlp_id l]) ++ ["model.norm"; "lm_head"].
Lemma regions_ids m hd : tensor_id <$> regions m hd = region_ids (range (num_hidden_layers m)).
Proof.
  unfold regions, region_ids. cbn [app fmap list_fmap tensor_id region]. f_equal. rewrite fmap_app. f_equal.
  induction (range (num_hidden_layers m)) as [|l ls IH]; [done|]. cbn. by rewrite <- IH.
Qed.

(** Positive sizes. *)
Definition positive_sizes (m : metadata) : bool :=
  (0 <? hidden_size m) && (0 <=? intermediate_size m) && (0 <? num_attention_heads m) && (0 <=? num_key_value_heads m)
  && (0 <? vocab_size m) && (0 <? bytes_per_tensor_element m).

Lemma regions_positive m hd t : positive_sizes m = true -> 0 <= hd -> t ∈ regions m hd -> 0 < bytes t.
Proof.
  unfold positive_sizes. intros H Hhd Ht. repeat (apply andb_true_iff in H as [H ?]). rewrite ?Z.ltb_lt, ?Z.leb_le in *.
  unfold regions in Ht. rewrite !elem_of_app in Ht. destruct Ht as [Ht|[Ht|Ht]].
  - apply list_elem_of_singleton in Ht as ->. cbn. nia.
  - apply list_elem_of_bind in Ht as (l & Ht & _). unfold layer_regions in Ht.
    apply elem_of_cons in Ht as [->|Ht%list_elem_of_singleton]; [|subst]; cbn; apply Z.mul_pos_pos; nia.
  - apply elem_of_cons in Ht as [->|Ht%list_elem_of_singleton]; [|subst]; cbn; nia.
Qed.

Lemma layer_region_inj l l' (s t : string) : layer_name l +:+ "." +:+ s = layer_name l' +:+ "." +:+ t -> l = l' /\ s = t.
Proof.
  unfold layer_name. rewrite !string_app_assoc. intros E. apply (string_app_inv_head "model.layers.") in E.
  apply (separator_inj dot) in E as [E ->]; [|apply pretty_dot..]. by apply (inj pretty) in E.
Qed.

Lemma region_ids_NoDup layers : NoDup layers -> NoDup (region_ids layers).
Proof.
  assert (Hinj : forall l l' (s t : string), layer_name l +:+ "." +:+ s = layer_name l' +:+ "." +:+ t -> l = l' /\ s = t) by apply layer_region_inj.
  intros Hnd. assert (Hin : forall x, x ∈ (layers ≫= fun l => [attention_id l; mlp_id l]) -> exists l s, x = layer_name l +:+ "." +:+ s /\ l ∈ layers).
  { intros x (l & Hx & Hl)%list_elem_of_bind. apply elem_of_cons in Hx as [->|Hx%list_elem_of_singleton].
    - by exists l, "attention_bundle".
    - by exists l, "mlp_bundle". }
  unfold region_ids. apply NoDup_cons. split.
  { rewrite elem_of_app. intros [(l & s & E & _)%Hin|H]; [discriminate E|set_solver]. }
  apply NoDup_app. split_and!.
  - clear Hin. induction Hnd as [|l layers Hl Hnd IH]; [constructor|]. cbn [mbind list_bind].
    change (NoDup ([attention_id l; mlp_id l] ++ (layers ≫= fun l => [attention_id l; mlp_id l]))). apply NoDup_app. split_and!; [| |exact IH].
    + apply NoDup_cons. split; [|apply NoDup_singleton]. intros E%list_elem_of_singleton. by apply (Hinj l l "attention_bundle" "mlp_bundle") in E as [_ E].
    + intros x Hx (l' & Hx' & Hl')%list_elem_of_bind.
      assert (exists s, x = layer_name l +:+ "." +:+ s) as [s ->]
        by (apply elem_of_cons in Hx as [->|Hx%list_elem_of_singleton]; [by exists "attention_bundle"|subst; by exists "mlp_bundle"]).
      apply elem_of_cons in Hx' as [E|E%list_elem_of_singleton].
      * apply (Hinj l l' s "attention_bundle") in E as [-> _]. done.
      * apply (Hinj l l' s "mlp_bundle") in E as [-> _]. done.
  - intros x (l & s & -> & _)%Hin H. apply elem_of_cons in H as [H|H%list_elem_of_singleton]; discriminate H.
  - apply NoDup_cons. split; [|apply NoDup_singleton]. by intros ?%list_elem_of_singleton.
Qed.

Lemma align_spec a : a <= align a /\ (MIB | align a).
Proof.
  unfold align, MIB. pose proof (Z.div_mod (a + 1048575) 1048576 ltac:(lia)). pose proof (Z.mod_pos_bound (a + 1048575) 1048576 ltac:(lia)).
  split; [lia|]. by exists ((a + 1048575) / 1048576).
Qed.

Lemma place_regions_address a l t : (MIB | a) -> (forall t, t ∈ l -> 0 <= bytes t) -> t ∈ place_regions a l ->
  a <= logical_address_bytes t /\ (MIB | logical_address_bytes t).
Proof.
  revert a. induction l as [|x l IH]; intros a Ha Hl Ht; [by apply not_elem_of_nil in Ht|].
  cbn in Ht. apply elem_of_cons in Ht as [->|Ht]; [cbn; split; [lia|done]|].
  destruct (align_spec (a + bytes x)) as [Hle Hal]. apply IH in Ht as [H1 H2]; [|done|set_solver]. split; [|done].
  pose proof (Hl x ltac:(set_solver)). lia.
Qed.

Lemma place_regions_apart a l i j x y : (MIB | a) -> (forall t, t ∈ l -> 0 <= bytes t) ->
  place_regions a l !! i = Some x -> place_regions a l !! j = Some y -> (i < j)%nat ->
  logical_address_bytes x + bytes x <= logical_address_bytes y.
Proof.
  revert a i j. induction l as [|t l IH]; intros a i j Ha Hl Hi Hj Hij; [cbn in Hi; by rewrite lookup_nil in Hi|].
  destruct (align_spec (a + bytes t)) as [Hle Hal]. destruct j as [|j]; [lia|]. cbn in Hj. destruct i as [|i]; cbn in Hi.
  - injection Hi as <-. apply list_elem_of_lookup_2 in Hj. apply place_regions_address in Hj as [H _]; [|done|set_solver]. cbn. lia.
  - apply (IH (align (a + bytes t)) i j); [done|set_solver|done|done|lia].
Qed.

(** ** The trace of a model *)

(** What a scenario needs besides [check_scenario]. *)
Definition rows_fit (c : scenario) : bool :=
  negb (String.eqb (s_embedding_access c) "selected_token_rows")
  || (let rows := default (s_batch_size c) (embedding_unique_rows_per_interval c) in (1 <=? rows) && (rows <=? s_batch_size c)).

Record scenario_ok (c : scenario) : Prop := {
  so_access : s_embedding_access c = "selected_token_rows" \/ s_embedding_access c = "full_weight_stress";
  so_batch : 0 < s_batch_size c;
  so_attention : 0 < attention_compute_ns_per_token c;
  so_mlp : 0 < mlp_compute_ns_per_token c;
  so_output : 0 < output_compute_ns_per_token c;
  so_interval : 0 <= batch_interval_ns c;
  so_prefetch : 0 <= s_prefetch_layers c }.

Lemma check_scenario_ok c u : check_scenario c = Ok u -> scenario_ok c.
Proof.
  unfold check_scenario. intros H. inv_ok. rewrite ?orb_true_iff, ?String.eqb_eq, ?Z.ltb_lt, ?Z.leb_le in *. by constructor.
Qed.

(** One more task at the end of the graph, which consumes the last one. *)
Record graph_inv (interval : Z) (labels : list label) (ts : list task) (last : string) : Prop := {
  gi_ids : task_id <$> ts = label_name interval <$> labels;
  gi_last : last ∈ task_id <$> ts;
  gi_causal : causal ts;
  gi_feeds : feeds ts last;
  gi_work : forall x, x ∈ ts -> positive_work x }.

Lemma graph_snoc interval labels ts last x lbl : graph_inv interval labels ts last ->
  task_id x = label_name interval lbl -> (forall d, d ∈ deps x -> d = last) -> last ∈ inputs x -> positive_work x ->
  graph_inv interval (labels ++ [lbl]) (ts ++ [x]) (task_id x).
Proof.
  intros [H1 H2 H3 H4 H5] Hid Hd Hin Hw. constructor.
  - rewrite !fmap_app, H1. cbn. by rewrite Hid.
  - rewrite fmap_app. set_solver.
  - constructor; [done|]. intros d ->%Hd. done.
  - by apply (feeds_snoc ts last).
  - intros y [Hy|Hy%list_elem_of_singleton]%elem_of_app; [by apply H5|by subst].
Qed.

Lemma embedding_of_ok m c t interval : positive_sizes m = true -> rows_fit c = true -> 0 < bytes t ->
  exists e, embedding_of m c t interval = Ok e /\ 0 < bytes e.
Proof.
  unfold embedding_of, rows_fit. intros Hm Hr Ht. destruct (String.eqb (s_embedding_access c) "selected_token_rows"); [|by exists t].
  cbn [negb orb] in Hr. rewrite Hr. eexists. split; [done|]. cbn. apply andb_true_iff in Hr as [Hr _]. apply Z.leb_le in Hr.
  unfold positive_sizes in Hm. repeat (apply andb_true_iff in Hm as [Hm ?]). rewrite ?Z.ltb_lt in *.
  apply Z.mul_pos_pos; [apply Z.mul_pos_pos; lia|lia].
Qed.

Lemma wf_batch_intro interval labels b : graph_inv interval labels (tasks b) (terminal_task_id b) -> NoDup labels ->
  last (task_id <$> tasks b) = Some (terminal_task_id b) -> wf_batch b.
Proof.
  intros [H1 H2 H3 H4 H5] Hnd Hlast. constructor; [|done..|].
  - rewrite H1. apply NoDup_fmap_2; [|done]. by intros x y [_ ->]%label_name_inj.
  - intros x Hx. apply (list_elem_of_fmap_2 task_id) in Hx. rewrite H1 in Hx. apply list_elem_of_fmap in Hx as (l & -> & _). apply label_plain.
Qed.

(** The batch of an interval. *)
Lemma build_batch_ok m c by_id interval : scenario_ok c -> positive_sizes m = true -> rows_fit c = true ->
  (forall k t, dget by_id k = Some t -> 0 < bytes t) -> (forall k, k ∈ region_ids (range (num_hidden_layers m)) -> is_Some (dget by_id k)) ->
  exists b, build_batch m c by_id interval = Ok b /\ wf_batch b /\ interval_id b = interval /\ arrival_ns b = interval * batch_interval_ns c /\
    task_id <$> tasks b = label_name interval <$> batch_labels (range (num_hidden_layers m)) ++ [LNorm; LHead; LToken].
Proof.
  intros [_ Hb Ha Hm Ho _ Hpre] Hsizes Hrows Hpos Hids. unfold build_batch.
  destruct (Hids "model.embed_tokens") as [t Ht]; [unfold region_ids; set_solver|]. rewrite (proj2 (dindex_Ok _ _ _) Ht). cbn [rbind].
  destruct (embedding_of_ok m c t interval Hsizes Hrows (Hpos _ _ Ht)) as (e & -> & He). cbn [rbind].
  set (first := {| task_id := prefix interval +:+ ":embed_read"; job := Storage e [] [] (s_batch_size c); batch_interval_id := interval |}).
  destruct (layers_ok c by_id interval Hpre Hb Ha Hm Hpos (num_hidden_layers m)) with (first := first) as ([[ts previous] computes] & Hfold & Hinv); [|done..|].
  { intros l Hl%range_elem. split; apply Hids; unfold region_ids; rewrite elem_of_cons, elem_of_app, list_elem_of_bind; right; left; exists l; set_solver. }
  unfold first in Hfold at 2. cbn [task_id] in Hfold. rewrite Hfold. cbn [rbind]. clear Hfold. destruct Hinv as [H1 H2 H3 H4 H5 H6]. cbn in H1, H2, H3, H4, H5, H6.
  assert (HG : graph_inv interval (batch_labels (range (num_hidden_layers m))) ts previous) by by constructor.
  destruct (Hids "model.norm") as [tn Htn]; [unfold region_ids; set_solver|]. destruct (Hids "lm_head") as [th Hth]; [unfold region_ids; set_solver|].
  cbn [foldM add_final rbind fst snd]. rewrite (proj2 (dindex_Ok _ _ _) Htn). cbn [foldM add_final rbind fst snd]. rewrite (proj2 (dindex_Ok _ _ _) Hth). cbn [foldM add_final rbind fst snd].
  match goal with |- context [((ts ++ [?a]) ++ [?b]) ++ [?d]] =>
    apply (graph_snoc _ _ _ _ a LNorm) in HG; [|done|unfold deps; cbn [job]; set_solver|unfold inputs; cbn [job]; set_solver|exact (Hpos _ _ Htn)];
    apply (graph_snoc _ _ _ _ b LHead) in HG; [|done|unfold deps; cbn [job]; set_solver|unfold inputs; cbn [job]; set_solver|exact (Hpos _ _ Hth)];
    apply (graph_snoc _ _ _ _ d LToken) in HG; [|done|unfold deps; cbn [job]; set_solver|unfold inputs; cbn [job]; set_solver|unfold positive_work; cbn; nia]
  end.
  eexists. split; [reflexivity|]. assert (Hlabels : NoDup (((batch_labels (range (num_hidden_layers m)) ++ [LNorm]) ++ [LHead]) ++ [LToken])).
  { rewrite <- !app_assoc. apply batch_labels_NoDup, range_NoDup. }
  split_and!; [|done..|].
  - eapply wf_batch_intro; [exact HG|exact Hlabels|]. cbn [tasks terminal_task_id]. by rewrite fmap_app; apply last_snoc.
  - cbn. etransitivity; [exact (gi_ids _ _ _ _ HG)|]. by rewrite <- !app_assoc.
Qed.

Definition all_task_ids (bs : list batch) : list string := bs ≫= fun b => task_id <$> tasks b.

Lemma tensor_groups_spec m groups : positive_sizes m = true -> _tensor_groups m = Ok groups ->
  exists hd, 0 <= hd /\ groups = place_regions 0 (regions m hd) /\ zsum (bytes <$> groups) = tensor_payload_bytes m.
Proof.
  unfold _tensor_groups. intros Hm H. apply bind_Ok in H as (? & _ & H). apply bind_Ok in H as (? & _ & H).
  apply bind_Ok in H as (? & Hsum & H). apply ensure_Ok in Hsum.
  assert (groups = place_regions 0 (regions m (hidden_size m / num_attention_heads m))) as -> by congruence. clear H.
  exists (hidden_size m / num_attention_heads m). split_and!; [|done|].
  - unfold positive_sizes in Hm. repeat (apply andb_true_iff in Hm as [Hm ?]). rewrite ?Z.ltb_lt, ?Z.leb_le in *. apply Z.div_pos; lia.
  - rewrite place_regions_bytes. by apply Z.eqb_eq.
Qed.

Lemma place_regions_elem a l t : t ∈ place_regions a l -> bytes t ∈ bytes <$> l.
Proof. intros Ht. rewrite <- (place_regions_bytes a). by apply list_elem_of_fmap_2. Qed.

Lemma groups_positive m hd t : positive_sizes m = true -> 0 <= hd -> t ∈ place_regions 0 (regions m hd) -> 0 < bytes t.
Proof.
  intros Hm Hhd Ht%place_regions_elem. apply list_elem_of_fmap in Ht as (x & -> & Hx). by eapply regions_positive.
Qed.

(** The tensor regions of a model.  When [_tensor_groups] accepts the metadata
    of a model, the regions have distinct identifiers, their sizes add up to the
    official payload, every region starts on a 1 MiB boundary, and each region ends
    before every later one starts, so that no two regions overlap. *)
Theorem tensor_regions_partition m groups : positive_sizes m = true -> _tensor_groups m = Ok groups ->
  NoDup (tensor_id <$> groups) /\ zsum (bytes <$> groups) = tensor_payload_bytes m /\
  (forall t, t ∈ groups -> 0 < bytes t /\ 0 <= logical_address_bytes t /\ (MIB | logical_address_bytes t)) /\
  (forall i j x y, groups !! i = Some x -> groups !! j = Some y -> (i < j)%nat ->
     logical_address_bytes x + bytes x <= logical_address_bytes y).
Proof.
  intros Hm H. destruct (tensor_groups_spec m groups Hm H) as (hd & Hhd & -> & Hsum).
  assert (Hnn : forall t, t ∈ regions m hd -> 0 <= bytes t) by (intros t Ht; pose proof (regions_positive m hd t Hm Hhd Ht); lia).
  split_and!; [|done| |].
  - rewrite place_regions_ids, regions_ids. apply region_ids_NoDup, range_NoDup.
  - intros t Ht. split; [by eapply groups_positive|]. apply place_regions_address in Ht as [? ?]; [done| |done]. apply Z.divide_0_r.
  - intros i j x y. apply place_regions_apart; [apply Z.divide_0_r|done].
Qed.

Definition qwen_like : metadata :=
  {| hidden_size := 896; intermediate_size := 4864; num_attention_heads := 14; num_key_value_heads := 2; num_hidden_layers := 3;
     vocab_size := 151936; bytes_per_tensor_element := 2; tensor_payload_bytes := 634014720 |}.

Lemma tensor_regions_partition_witness : exists groups, _tensor_groups qwen_like = Ok groups /\ NoDup (tensor_id <$> groups).
Proof.
  eexists. split; [vm_compute; reflexivity|].
  exact (proj1 (tensor_regions_partition qwen_like _ eq_refl ltac:(vm_compute; reflexivity))).
Defined.

(** C15: the dependency graph of a model.  When the scenario and the metadata pass
    the checks and every tensor of the catalog has a positive size, the trace is
    built, one batch per interval; no two tasks of the
    trace share an identifier, and every batch is well formed: its dependencies
    name earlier tasks of the batch (so that the graph has no cycle), every task but
    the terminal one is consumed by some task, the terminal task is the last one,
    and every read and every computation is positive. *)
Theorem architecture_trace_well_formed m c groups :
  positive_sizes m = true -> rows_fit c = true -> check_scenario c = Ok tt -> _tensor_groups m = Ok groups ->
  exists tr, build_architecture_trace m c = Ok tr /\ Forall wf_batch (batches tr) /\ NoDup (all_task_ids (batches tr)) /\
    interval_id <$> batches tr = (fun i => first_interval c + i) <$> range (batch_intervals c) /\
    (forall b, b ∈ batches tr -> arrival_ns b = interval_id b * batch_interval_ns c).
Proof.
  intros Hm Hr Hc Hg. unfold build_architecture_trace. rewrite Hc, Hg. cbn [rbind]. apply check_scenario_ok in Hc as Hs.
  destruct (tensor_groups_spec m groups Hm Hg) as (hd & Hhd & -> & _).
  assert (Hok : forall i, exists b, build_batch m c (by_tensor_id (place_regions 0 (regions m hd))) i = Ok b /\ wf_batch b /\ interval_id b = i /\
      arrival_ns b = i * batch_interval_ns c /\
      task_id <$> tasks b = label_name i <$> batch_labels (range (num_hidden_layers m)) ++ [LNorm; LHead; LToken]).
  { intros i. apply build_batch_ok; [done..| |].
    - intros k t Ht%by_tensor_id_elem. by eapply groups_positive.
    - intros k Hk. apply by_tensor_id_some. by rewrite place_regions_ids, regions_ids. }
  set (f := build_batch m c (by_tensor_id (place_regions 0 (regions m hd)))) in *.
  assert (Hf : forall i b, f i = Ok b -> wf_batch b /\ interval_id b = i /\ arrival_ns b = i * batch_interval_ns c /\
      task_id <$> tasks b = label_name i <$> batch_labels (range (num_hidden_layers m)) ++ [LNorm; LHead; LToken]).
  { intros i b E. destruct (Hok i) as (b' & E' & H). rewrite E in E'. by injection E' as ->. }
  match goal with |- context [mapR f ?l] => destruct (mapR_total f l) as [bs Hbs]; [intros i _; destruct (Hok i) as (b & Hb & _); by exists b|]; rewrite Hbs end.
  cbn [rbind]. eexists. split; [done|]. cbn [batches].
  assert (Hids : interval_id <$> bs = (fun i => first_interval c + i) <$> range (batch_intervals c)).
  { apply mapR_Ok in Hbs. symmetry. clear -Hbs Hf. induction Hbs as [|i b l bs Hb _ IH]; [done|]. rewrite fmap_cons, <- IH. by destruct (Hf _ _ Hb) as (_ & -> & _). }
  split_and!; [| |done|].
  - apply Forall_forall. intros b Hb. destruct (mapR_elem _ _ _ _ Hbs Hb) as (i & _ & E). by apply Hf in E as [? _].
  - unfold all_task_ids. apply NoDup_bind.
    + intros b b' x Hb Hb' Hx Hx'. destruct (mapR_elem _ _ _ _ Hbs Hb) as (i & _ & E), (mapR_elem _ _ _ _ Hbs Hb') as (j & _ & E').
      destruct (Hf _ _ E) as (_ & _ & _ & Hl), (Hf _ _ E') as (_ & _ & _ & Hl'). rewrite Hl in Hx. rewrite Hl' in Hx'.
      apply list_elem_of_fmap in Hx as (y & -> & _), Hx' as (y' & Hy & _). apply label_name_inj in Hy as [-> _]. rewrite E in E'. by injection E'.
    + intros b Hb. destruct (mapR_elem _ _ _ _ Hbs Hb) as (i & _ & E). apply Hf in E as [? _]. by apply wb_ids.
    + apply (NoDup_fmap_1 interval_id). rewrite Hids. apply NoDup_fmap_2; [|apply range_NoDup]. intros x y. lia.
  - intros b Hb. destruct (mapR_elem _ _ _ _ Hbs Hb) as (i & _ & E). by destruct (Hf _ _ E) as (_ & -> & -> & _).
Qed.

Definition small_scenario : scenario :=
  {| s_model_id := "model"; batch_intervals := 2; s_batch_size := 4; batch_interval_ns := 1000; s_prefetch_layers := 1;
     attention_compute_ns_per_token := 10; mlp_compute_ns_per_token := 20; output_compute_ns_per_token := 5;
     s_embedding_access := "selected_token_rows"; s_prefetch_mode := "layer_lookahead"; first_interval := 0;
     embedding_unique_rows_per_interval := Some 3 |}.

Lemma architecture_trace_well_formed_witness : exists tr, build_architecture_trace qwen_like small_scenario = Ok tr /\ Forall wf_batch (batches tr).
Proof.
  destruct (_tensor_groups qwen_like) as [g|e] eqn:Hg; [|vm_compute in Hg; discriminate Hg].
  destruct (architecture_trace_well_formed qwen_like small_scenario g eq_refl eq_refl eq_refl Hg) as (tr & H1 & H2 & _). exact (ex_intro _ tr (conj H1 H2)).
Defined.
End CausalWorkload.
