(* ===== verification/CausalExecutor.v ===== *)
(** * CausalExecutor: online execution of a causal trace

    Models the class [CausalExecutor] of
    [experiments/eq3_system_thermal/causal_workload.py]: it connects the dependency
    graph of [CausalWorkload] to an external storage service.  [poll] offers the
    reads whose dependencies are resolved, [complete] takes the completions of the
    service, computation runs on one resource, weights are cached (as metadata, or
    in HBM by fills that the service carries out) and migrated in phases.

    The attributes are grouped by purpose ([sched], [store], [cache_state],
    [moves], [log]).  The attributes [external_ready_ns] and [ready_source] that the
    code adds to a task are kept in the map [external_ready].  [task_ids] and the
    other values of a group are fields, and what only some groups have is in
    [payload].  Settings are those of the constructor after [int(...)]; constant
    labels of jobs, events and results are left out. *)

From S2P Require Import Prelude ProgramLogic.
From S2P Require Import CausalWorkload.

Module CausalExecutor.
Import ProgramLogic.
Notation task := CausalWorkload.task.
Notation tensor := CausalWorkload.tensor.
Notation task_id := CausalWorkload.task_id.

(** ** Data *)

Inductive cache_mode := Disabled | IdealMetadataOnly | ExternalHbm.
Inductive migration_mode := Fixed | Basic.
Inductive prefetch_wait_mode := WaitAtConsumption | StallAtIssue.
Inductive tier := Source | Fast.
Inductive phase := MigrationSource | MigrationDestination | MigrationEraseOld | MigrationEraseDestination.
Inductive operation := Read | Retry | HbmFill | MigrationProgram | Erase.
Inductive ready_source := FromCache | FromService.
#[export] Instance cache_mode_eq_dec : EqDecision cache_mode.
Proof. solve_decision. Defined.
#[export] Instance tier_eq_dec : EqDecision tier.
Proof. solve_decision. Defined.
#[export] Instance phase_eq_dec : EqDecision phase.
Proof. solve_decision. Defined.

Definition phase_name (p : phase) : string :=
  match p with
  | MigrationSource => "migration_source"
  | MigrationDestination => "migration_destination"
  | MigrationEraseOld => "migration_erase_old"
  | MigrationEraseDestination => "migration_erase_destination"
  end.

Record place := { stack : string; channel : string; route : string }.

(** The tensor that a placement is asked for: a whole record, or the identifier
    and the size of a cache fill. *)
Inductive tensor_ref := Spec (t : tensor) | Extent (id : string) (n : Z).

Record settings := {
  cache_capacity : Z; migration : migration_mode; migration_threshold : Z; caching : cache_mode; coalescing_enabled : bool;
  waiting : prefetch_wait_mode; retry_count : Z; migration_capacity_bytes : Z; stripe_unit_bytes : Z; target_count : Z;
  placement_provider : tensor_ref -> tier -> Z -> result place }.

Inductive job_metadata :=
| ReadJob (logical_issue_ns : Z) (tensor parent : string) (partition_index partition_count stripe_unit consumer_count interval : Z)
| FillJob (parent tensor : string)
| RetryJob (parent tensor : string) (sequence : Z)
| MigrationJob (parent tensor : string) (p : phase) (logical_address block_count : Z).
Record job := {
  job_id : string; maintenance_id : option string; op : operation; job_size : Z; job_arrival_ns : Z; job_place : place; meta : job_metadata }.

Inductive event :=
| ComputeStart (id : string) (start_ns scheduled_end_ns : Z)
| ComputeComplete (id : string) (start_ns completion_ns : Z)
| StorageConsumed (id tensor : string) (ready_ns consume_ns : Z) (source : ready_source)
| CacheHit (id tensor : string) (ready_ns : Z) (completion_ns : option Z)
| HbmHit (id tensor : string) (at_ns : Z)
| Coalesced (id group : string) (logical_issue_ns : Z)
| ChildComplete (job group : string) (completion_ns completed_bytes : Z)
| CacheEvict (tensor : string) (at_ns n : Z)
| CacheFillComplete (tensor : string) (completion_ns n : Z)
| StallReleased (group : string) (completion_ns : Z)
| StorageComplete (group tensor : string) (completion_ns completed_bytes retries children : Z) (tasks : list string)
| MigrationPhaseComplete (tensor : string) (p : phase) (completion_ns n : Z)
| MigrationCommit (tensor : string) (at_ns : Z) (committed : bool).

Record transfer := {
  x_tensor : string; x_bytes : Z; allocation_bytes : Z; spec : tensor; expected_version : Z; root_id : string; x_phase : phase }.

Record read_info := {
  child_count : Z; retry_remaining : Z; retry_sequence : Z; retry_parts : list (Z * Z * place); cache_hit : bool; from : tier;
  blocks_compute : bool }.
Inductive payload := ReadGroup (r : read_info) | FillGroup | MigrationGroup (x : transfer).
Record group := {
  task_ids : list string; pending : gset string; completion_ns : Z; g_tensor : string; g_bytes : Z; content : payload }.

(** ** State *)

Record sched := {
  tasks : dict string task; arrival : gmap string Z; done : gmap string Z; offered : gset string;
  external_ready : gmap string (Z * ready_source); compute_running : option (string * Z * Z); compute_available_ns : Z }.
Record store := {
  job_group : gmap string string; groups : gmap string group; job_bytes : gmap string Z; job_arrival : gmap string Z;
  pending_tensor : gmap string string }.
Record cache_state := { cache : dict string Z; cache_bytes : Z; cache_reservations : dict string Z }.
Record moves := {
  tensor_specs : gmap string tensor; access_count : gmap string Z; tensor_tier : gmap string tier; pending_migrations : gmap string string;
  migration_used_bytes : Z; tensor_versions : gmap string Z; deferred_source_erase : list transfer }.
Record fact := { f_interval : Z; f_arrival : Z; f_completion : Z; token_count : Z }.
Record log := { jobs : list job; events : list event; deferred_jobs : list job; completed_batches : list fact }.
Record executor := {
  current : CausalWorkload.trace; known_batch_ids : gset Z; now_ns : Z; plan : sched; flight : store; kept : cache_state; moved : moves; out : log }.

Definition on_plan (f : sched -> sched) (s : executor) : executor :=
  {| current := current s; known_batch_ids := known_batch_ids s; now_ns := now_ns s; plan := f (plan s); flight := flight s; kept := kept s;
     moved := moved s; out := out s |}.
Definition on_flight (f : store -> store) (s : executor) : executor :=
  {| current := current s; known_batch_ids := known_batch_ids s; now_ns := now_ns s; plan := plan s; flight := f (flight s); kept := kept s;
     moved := moved s; out := out s |}.
Definition on_kept (f : cache_state -> cache_state) (s : executor) : executor :=
  {| current := current s; known_batch_ids := known_batch_ids s; now_ns := now_ns s; plan := plan s; flight := flight s; kept := f (kept s);
     moved := moved s; out := out s |}.
Definition on_moved (f : moves -> moves) (s : executor) : executor :=
  {| current := current s; known_batch_ids := known_batch_ids s; now_ns := now_ns s; plan := plan s; flight := flight s; kept := kept s;
     moved := f (moved s); out := out s |}.
Definition on_out (f : log -> log) (s : executor) : executor :=
  {| current := current s; known_batch_ids := known_batch_ids s; now_ns := now_ns s; plan := plan s; flight := flight s; kept := kept s;
     moved := moved s; out := f (out s) |}.
Definition set_now (t : Z) (s : executor) : executor :=
  {| current := current s; known_batch_ids := known_batch_ids s; now_ns := t; plan := plan s; flight := flight s; kept := kept s;
     moved := moved s; out := out s |}.
Definition set_current (tr : CausalWorkload.trace) (s : executor) : executor :=
  {| current := tr; known_batch_ids := known_batch_ids s; now_ns := now_ns s; plan := plan s; flight := flight s; kept := kept s;
     moved := moved s; out := out s |}.
Definition know_batch (i : Z) (s : executor) : executor :=
  {| current := current s; known_batch_ids := {[i]} ∪ known_batch_ids s; now_ns := now_ns s; plan := plan s; flight := flight s; kept := kept s;
     moved := moved s; out := out s |}.

(** Scheduling. *)
Definition set_tasks (d : dict string task) (p : sched) : sched :=
  {| tasks := d; arrival := arrival p; done := done p; offered := offered p; external_ready := external_ready p;
     compute_running := compute_running p; compute_available_ns := compute_available_ns p |}.
Definition set_arrival (m : gmap string Z) (p : sched) : sched :=
  {| tasks := tasks p; arrival := m; done := done p; offered := offered p; external_ready := external_ready p;
     compute_running := compute_running p; compute_available_ns := compute_available_ns p |}.
Definition set_done (m : gmap string Z) (p : sched) : sched :=
  {| tasks := tasks p; arrival := arrival p; done := m; offered := offered p; external_ready := external_ready p;
     compute_running := compute_running p; compute_available_ns := compute_available_ns p |}.
Definition set_offered (o : gset string) (p : sched) : sched :=
  {| tasks := tasks p; arrival := arrival p; done := done p; offered := o; external_ready := external_ready p;
     compute_running := compute_running p; compute_available_ns := compute_available_ns p |}.
Definition set_ready (m : gmap string (Z * ready_source)) (p : sched) : sched :=
  {| tasks := tasks p; arrival := arrival p; done := done p; offered := offered p; external_ready := m;
     compute_running := compute_running p; compute_available_ns := compute_available_ns p |}.
Definition set_running (r : option (string * Z * Z)) (available : Z) (p : sched) : sched :=
  {| tasks := tasks p; arrival := arrival p; done := done p; offered := offered p; external_ready := external_ready p;
     compute_running := r; compute_available_ns := available |}.

(** Groups and jobs in flight. *)
Definition set_groups (m : gmap string group) (f : store) : store :=
  {| job_group := job_group f; groups := m; job_bytes := job_bytes f; job_arrival := job_arrival f; pending_tensor := pending_tensor f |}.
Definition set_pending_tensor (m : gmap string string) (f : store) : store :=
  {| job_group := job_group f; groups := groups f; job_bytes := job_bytes f; job_arrival := job_arrival f; pending_tensor := m |}.
Definition set_pending (p : gset string) (g : group) : group :=
  {| task_ids := task_ids g; pending := p; completion_ns := completion_ns g; g_tensor := g_tensor g; g_bytes := g_bytes g; content := content g |}.
Definition set_completion (t : Z) (g : group) : group :=
  {| task_ids := task_ids g; pending := pending g; completion_ns := t; g_tensor := g_tensor g; g_bytes := g_bytes g; content := content g |}.
Definition set_content (c : payload) (g : group) : group :=
  {| task_ids := task_ids g; pending := pending g; completion_ns := completion_ns g; g_tensor := g_tensor g; g_bytes := g_bytes g; content := c |}.
Definition join_task (id : string) (g : group) : group :=
  {| task_ids := task_ids g ++ [id]; pending := pending g; completion_ns := completion_ns g; g_tensor := g_tensor g; g_bytes := g_bytes g;
     content := content g |}.
Definition drop_job (id : string) (f : store) : store :=
  {| job_group := delete id (job_group f); groups := groups f; job_bytes := delete id (job_bytes f); job_arrival := delete id (job_arrival f);
     pending_tensor := pending_tensor f |}.

(** [group["pending"].add(job_id)] and the three entries of the job. *)
Definition add_job (gid : string) (j : job) (f : store) : store :=
  {| job_group := <[job_id j := gid]> (job_group f); groups := alter (fun g => set_pending ({[job_id j]} ∪ pending g) g) gid (groups f);
     job_bytes := <[job_id j := job_size j]> (job_bytes f); job_arrival := <[job_id j := job_arrival_ns j]> (job_arrival f);
     pending_tensor := pending_tensor f |}.

(** Migrations. *)
Definition set_specs (m : gmap string tensor) (v : moves) : moves :=
  {| tensor_specs := m; access_count := access_count v; tensor_tier := tensor_tier v; pending_migrations := pending_migrations v;
     migration_used_bytes := migration_used_bytes v; tensor_versions := tensor_versions v; deferred_source_erase := deferred_source_erase v |}.
Definition count_access (t : string) (v : moves) : moves :=
  {| tensor_specs := tensor_specs v; access_count := <[t := default 0 (access_count v !! t) + 1]> (access_count v); tensor_tier := tensor_tier v;
     pending_migrations := pending_migrations v; migration_used_bytes := migration_used_bytes v; tensor_versions := tensor_versions v;
     deferred_source_erase := deferred_source_erase v |}.
Definition start_move (t root : string) (n : Z) (v : moves) : moves :=
  {| tensor_specs := tensor_specs v; access_count := access_count v; tensor_tier := tensor_tier v;
     pending_migrations := <[t := root]> (pending_migrations v); migration_used_bytes := migration_used_bytes v + n;
     tensor_versions := tensor_versions v; deferred_source_erase := deferred_source_erase v |}.
Definition commit_move (t : string) (version : Z) (v : moves) : moves :=
  {| tensor_specs := tensor_specs v; access_count := access_count v; tensor_tier := <[t := Fast]> (tensor_tier v);
     pending_migrations := pending_migrations v; migration_used_bytes := migration_used_bytes v;
     tensor_versions := <[t := version]> (tensor_versions v); deferred_source_erase := deferred_source_erase v |}.
Definition end_move (t : string) (freed : Z) (v : moves) : moves :=
  {| tensor_specs := tensor_specs v; access_count := access_count v; tensor_tier := tensor_tier v;
     pending_migrations := delete t (pending_migrations v); migration_used_bytes := migration_used_bytes v - freed;
     tensor_versions := tensor_versions v; deferred_source_erase := deferred_source_erase v |}.
Definition set_deferred (l : list transfer) (v : moves) : moves :=
  {| tensor_specs := tensor_specs v; access_count := access_count v; tensor_tier := tensor_tier v; pending_migrations := pending_migrations v;
     migration_used_bytes := migration_used_bytes v; tensor_versions := tensor_versions v; deferred_source_erase := l |}.
Definition set_phase (p : phase) (x : transfer) : transfer :=
  {| x_tensor := x_tensor x; x_bytes := x_bytes x; allocation_bytes := allocation_bytes x; spec := spec x; expected_version := expected_version x;
     root_id := root_id x; x_phase := p |}.

(** Observations. *)
Definition add_event (e : event) (l : log) : log :=
  {| jobs := jobs l; events := events l ++ [e]; deferred_jobs := deferred_jobs l; completed_batches := completed_batches l |}.
Definition add_submission (j : job) (l : log) : log :=
  {| jobs := jobs l ++ [j]; events := events l; deferred_jobs := deferred_jobs l; completed_batches := completed_batches l |}.
Definition set_deferred_jobs (js : list job) (l : log) : log :=
  {| jobs := jobs l; events := events l; deferred_jobs := js; completed_batches := completed_batches l |}.
Definition add_fact (f : fact) (l : log) : log :=
  {| jobs := jobs l; events := events l; deferred_jobs := deferred_jobs l; completed_batches := completed_batches l ++ [f] |}.
Definition clear_log (l : log) : log :=
  {| jobs := []; events := []; deferred_jobs := deferred_jobs l; completed_batches := completed_batches l |}.

Notation X := (M executor).
Definition emit (e : event) : X unit := modify (on_out (add_event e)).

(** [m[k]] of a missing key raises [KeyError]. *)
Definition gindex {V} (m : gmap string V) (k : string) : result V := of_option (KeyError k) (m !! k).
Definition has {V} (m : gmap string V) (k : string) : bool := bool_decide (is_Some (m !! k)).
Definition group_list (f : store) : list group := (map_to_list (groups f)).*2.

(** The dependency lists of a task: [task["issue_after"]], [task["consume_after"]]. *)
Definition consume_after (x : task) : result (list string) :=
  match CausalWorkload.job x with CausalWorkload.Storage _ _ c _ => Ok c | CausalWorkload.Compute _ _ _ => Raise (KeyError "consume_after") end.

Definition is_hit (g : group) : bool := match content g with ReadGroup r => cache_hit r | _ => false end.
Definition blocking (g : group) : bool := match content g with ReadGroup r => blocks_compute r | _ => false end.
(** A read of the source copy of tensor [t]. *)
Definition reads_source (t : string) (g : group) : bool :=
  match content g with ReadGroup r => bool_decide (from r = Source) && String.eqb (g_tensor g) t | _ => false end.

Definition _deps_time (d : gmap string Z) (ids : list string) : option Z :=
  if forallb (has d) ids then Some (default 0 (zmax_list (omap (fun i => d !! i) ids))) else None.

Section operations.
Context (cfg : settings).

(** ** Striping *)

Definition stripe_child (size index : Z) : Z :=
  let full := size / stripe_unit_bytes cfg in
  let tail := size mod stripe_unit_bytes cfg in
  let base := full / target_count cfg in
  let extra := full mod target_count cfg in
  (base + (if index <? extra then 1 else 0)) * stripe_unit_bytes cfg
  + (if negb (tail =? 0) && (index =? full mod target_count cfg) then tail else 0).

Definition _stripe_parts (size : Z) : result (list (Z * Z)) :=
  let parts := omap (fun i => let child := stripe_child size i in if child =? 0 then None else Some (i, child))
                 (CausalWorkload.range (target_count cfg)) in
  let? _ := ensure (zsum parts.*2 =? size) (AssertionError "stripe partition did not conserve tensor bytes") in
  Ok parts.

(** ** Cache *)

(** The entries that remain, from the oldest on, and their bytes. *)
Fixpoint shed (l : dict string Z) (held size : Z) : dict string Z * Z :=
  match l with
  | [] => ([], held)
  | (_, removed) :: l' => if cache_capacity cfg <? held + size then shed l' (held - removed) size else (l, held)
  end.

Definition insert_entry (t : string) (size : Z) (c : cache_state) : cache_state :=
  if (cache_capacity cfg <? size) || (cache_capacity cfg =? 0) then c
  else
    let '(l, held) := match dget (cache c) t with Some n => (ddel (cache c) t, cache_bytes c - n) | None => (cache c, cache_bytes c) end in
    let '(l, held) := shed l held size in
    {| cache := dset l t size; cache_bytes := held + size; cache_reservations := cache_reservations c |}.
Definition _insert_cache (t : string) (size : Z) : X unit := modify (on_kept (insert_entry t size)).

(** [self.cache.move_to_end(tensor)]. *)
Definition touch (t : string) (c : cache_state) : cache_state :=
  match dget (cache c) t with
  | Some n => {| cache := ddel (cache c) t ++ [(t, n)]; cache_bytes := cache_bytes c; cache_reservations := cache_reservations c |}
  | None => c
  end.
Definition evict (t : string) (n : Z) (c : cache_state) : cache_state :=
  {| cache := ddel (cache c) t; cache_bytes := cache_bytes c - n; cache_reservations := cache_reservations c |}.
Definition reserve (t : string) (n : Z) (c : cache_state) : cache_state :=
  {| cache := cache c; cache_bytes := cache_bytes c; cache_reservations := dset (cache_reservations c) t n |}.
Definition unreserve (t : string) (c : cache_state) : cache_state :=
  {| cache := cache c; cache_bytes := cache_bytes c; cache_reservations := ddel (cache_reservations c) t |}.

(** One round of the eviction loop: [Some true] when there is room, [Some false]
    when every entry is pinned by a hit in flight. *)
Definition evict_round (reserved size now : Z) : X (option bool) :=
  let! s := get in
  let c := kept s in
  if bool_decide (cache c <> []) && (cache_capacity cfg <? cache_bytes c + reserved + size) then
    let pinned := g_tensor <$> List.filter is_hit (group_list (flight s)) in
    match head (filter (fun k => k ∉ pinned) (dkeys (cache c))) with
    | None => sret (Some false)
    | Some evicted =>
        let! removed := lift (dindex (cache c) evicted) in
        let! _ := modify (on_kept (evict evicted removed)) in
        let! _ := emit (CacheEvict evicted now removed) in
        sret None
    end
  else sret (Some true).

(** The part of a group that goes to one target is registered and recorded. *)
Definition open_part (gid : string) (j : job) : X unit :=
  let! _ := modify (on_flight (add_job gid j)) in
  modify (on_out (add_submission j)).
Definition defer (js : list job) : X unit := modify (on_out (fun l => set_deferred_jobs (deferred_jobs l ++ js) l)).
Definition put_group (gid : string) (g : group) : X unit := modify (on_flight (fun f => set_groups (<[gid := g]> (groups f)) f)).

Definition part_id (gid : string) (partition : Z) : string := gid +:+ ":part" +:+ pretty partition.
Definition fill_id (t : string) (now : Z) : string := "cache-fill:" +:+ t +:+ ":" +:+ pretty now.

Definition fill_part (t gid : string) (size now : Z) (part : Z * Z) : X unit :=
  let! p := lift (placement_provider cfg (Extent t size) Fast part.1) in
  let j := {| job_id := part_id gid part.1; maintenance_id := None; op := HbmFill; job_size := part.2; job_arrival_ns := now; job_place := p;
              meta := FillJob gid t |} in
  let! _ := open_part gid j in
  defer [j].

Definition _offer_cache_fill (t : string) (size now : Z) : X unit :=
  let! s := get in
  if bool_decide (caching cfg <> ExternalHbm) || (cache_capacity cfg <? size) then sret tt
  else if dmem (cache (kept s)) t || dmem (cache_reservations (kept s)) t then sret tt
  else
    let reserved := zsum (dvals (cache_reservations (kept s))) in
    let! room := loop (S (length (cache (kept s)))) (evict_round reserved size now) in
    let! s := get in
    if negb room || (cache_capacity cfg <? reserved + cache_bytes (kept s) + size) then sret tt
    else
      let! _ := modify (on_kept (reserve t size)) in
      let gid := fill_id t now in
      let! _ := put_group gid {| task_ids := []; pending := ∅; completion_ns := now; g_tensor := t; g_bytes := size; content := FillGroup |} in
      let! parts := lift (_stripe_parts size) in
      forM parts (fill_part t gid size now).

(** ** Computation and consumption *)

Definition mark_done (id : string) (t : Z) : X unit := modify (on_plan (fun p => set_done (<[id := t]> (done p)) p)).

Definition _settle_compute (now : Z) : X unit :=
  let! s := get in
  match compute_running (plan s) with
  | Some (id, start, finish) =>
      if finish <=? now then
        let! _ := mark_done id finish in
        let! _ := modify (on_plan (set_running None finish)) in
        emit (ComputeComplete id start finish)
      else sret tt
  | None => sret tt
  end.

(** When a task that is not done may start, [max(ready, arrival)]. *)
Definition eligible_at (p : sched) (id : string) (deps : list string) : result (option Z) :=
  match _deps_time (done p) deps with
  | None => Ok None
  | Some ready => let? a := gindex (arrival p) id in Ok (Some (Z.max ready a))
  end.

Definition compute_candidate (p : sched) (now : Z) (item : string * task) : result (list (Z * string)) :=
  let '(id, x) := item in
  match CausalWorkload.job x with
  | CausalWorkload.Compute _ deps _ =>
      if has (done p) id then Ok []
      else let? t := eligible_at p id deps in Ok (match t with Some t => if t <=? now then [(t, id)] else [] | None => [] end)
  | CausalWorkload.Storage _ _ _ _ => Ok []
  end.
Definition duration (x : task) : result Z :=
  match CausalWorkload.job x with CausalWorkload.Compute d _ _ => Ok d | CausalWorkload.Storage _ _ _ _ => Raise (KeyError "duration_ns") end.

Definition _start_compute (now : Z) : X unit :=
  let! s := get in
  match compute_running (plan s) with
  | Some _ => sret tt
  | None =>
      if existsb blocking (group_list (flight s)) then sret tt
      else
        let! candidates := lift (mapR (compute_candidate (plan s) now) (tasks (plan s))) in
        match isort (lex zle sle) (concat candidates) with
        | [] => sret tt
        | (_, id) :: _ =>
            let start := Z.max now (compute_available_ns (plan s)) in
            let! d := lift (let? x := dindex (tasks (plan s)) id in duration x) in
            let! _ := modify (on_plan (set_running (Some (id, start, start + d)) (compute_available_ns (plan s)))) in
            emit (ComputeStart id start (start + d))
        end
  end.

(** A read that the service or the cache delivered is consumed once its
    dependencies are done. *)
Definition resolve_task (changed : bool) (item : string * task) : X bool :=
  let '(id, x) := item in
  let! s := get in
  let p := plan s in
  match done p !! id, external_ready p !! id with
  | None, Some (ready_ns, source) =>
      let! after := lift (consume_after x) in
      match _deps_time (done p) after, CausalWorkload.job x with
      | Some consume_ready, CausalWorkload.Storage t _ _ _ =>
          let at_ns := Z.max ready_ns consume_ready in
          let! _ := modify (on_plan (fun p => set_ready (delete id (external_ready p)) p)) in
          let! _ := mark_done id at_ns in
          let! _ := emit (StorageConsumed id (CausalWorkload.tensor_id t) ready_ns at_ns source) in
          sret true
      | _, _ => sret changed
      end
  | _, _ => sret changed
  end.

Definition resolve_round (now : Z) : X (option unit) :=
  let! _ := _settle_compute now in
  let! s := get in
  let! changed := foldS resolve_task (tasks (plan s)) false in
  sret (if changed then None else Some tt).

Definition _resolve_ready_storage (now : Z) : X unit :=
  let! s := get in
  loop (S (length (tasks (plan s)))) (resolve_round now).

(** ** Migrations *)

Definition mebi_blocks (size : Z) : Z := (size + 1048575) / 1048576.

Definition migration_part (x : transfer) (gid : string) (now : Z) (part : Z * Z) : X job :=
  let ph := x_phase x in
  let from_tier := match ph with MigrationSource | MigrationEraseOld => Source | _ => Fast end in
  let! p := lift (placement_provider cfg (Spec (spec x)) from_tier part.1) in
  let operation := match ph with
                   | MigrationSource => Read
                   | MigrationDestination => if String.prefix "hbm" (stack p) then HbmFill else MigrationProgram
                   | _ => Erase
                   end in
  let block_count := mebi_blocks part.2 in
  let size := match operation with Erase => block_count * 1048576 | _ => part.2 end in
  let id := part_id gid part.1 in
  let j := {| job_id := id; maintenance_id := Some id; op := operation; job_size := size; job_arrival_ns := now; job_place := p;
              meta := MigrationJob gid (x_tensor x) ph (CausalWorkload.logical_address_bytes (spec x)) block_count |} in
  let! _ := open_part gid j in
  sret j.

Definition move_id (x : transfer) : string := root_id x +:+ ":" +:+ phase_name (x_phase x).

Definition _migration_jobs (x : transfer) (now : Z) : X (list job) :=
  let gid := move_id x in
  let! _ := put_group gid {| task_ids := []; pending := ∅; completion_ns := now; g_tensor := x_tensor x; g_bytes := x_bytes x;
                             content := MigrationGroup x |} in
  let! parts := lift (_stripe_parts (x_bytes x)) in
  mapS (migration_part x gid now) parts.

Definition _complete_migration_phase (gid : string) (g : group) (x : transfer) (now : Z) : X unit :=
  let t := g_tensor g in
  let! _ := modify (on_flight (fun f => set_groups (delete gid (groups f)) f)) in
  let! _ := emit (MigrationPhaseComplete t (x_phase x) now (g_bytes g)) in
  match x_phase x with
  | MigrationSource => let! js := _migration_jobs (set_phase MigrationDestination x) now in defer js
  | MigrationDestination =>
      let! s := get in
      let valid := default 0 (tensor_versions (moved s) !! t) =? expected_version x in
      let! _ := if valid then modify (on_moved (commit_move t (expected_version x + 1))) else sret tt in
      let! _ := emit (MigrationCommit t now valid) in
      if valid then modify (on_moved (fun v => set_deferred (deferred_source_erase v ++ [set_phase MigrationEraseOld x]) v))
      else let! js := _migration_jobs (set_phase MigrationEraseDestination x) now in defer js
  | MigrationEraseOld => modify (on_moved (end_move t 0))
  | MigrationEraseDestination => modify (on_moved (end_move t (allocation_bytes x)))
  end.

Definition offer_migration (now : Z) (acc : list job) (item : string * Z) : X (list job) :=
  let '(t, count) := item in
  let! s := get in
  let v := moved s in
  if (count <? migration_threshold cfg) || bool_decide (tensor_tier v !! t = Some Fast) || has (pending_migrations v) t then sret acc
  else
    let! sp := lift (gindex (tensor_specs v) t) in
    let! parts := lift (_stripe_parts (CausalWorkload.bytes sp)) in
    let allocation := zsum ((fun part => mebi_blocks part.2 * 1048576) <$> parts) in
    if migration_capacity_bytes cfg <? migration_used_bytes v + allocation then sret acc
    else
      let root := "causal:migration:" +:+ t in
      let! _ := modify (on_moved (start_move t root allocation)) in
      let x := {| x_tensor := t; x_bytes := CausalWorkload.bytes sp; allocation_bytes := allocation; spec := sp;
                  expected_version := default 0 (tensor_versions v !! t); root_id := root; x_phase := MigrationSource |} in
      let! js := _migration_jobs x now in
      sret (acc ++ js).

Definition offer_migrations (now : Z) : X (list job) :=
  match migration cfg with
  | Fixed => sret []
  | Basic =>
      let! s := get in
      foldS (offer_migration now) (isort (lex sle zle) (map_to_list (access_count (moved s)))) []
  end.

(** ** Offering reads *)

Definition offer (id : string) : X unit := modify (on_plan (fun p => set_offered ({[id]} ∪ offered p) p)).

Definition read_group_id (id : string) : string := "causal:" +:+ id.

Definition read_part (x : task) (t : tensor) (consumers logical_issue now count : Z) (from_tier : tier) (gid : string) (part : Z * Z) : X job :=
  let! p := lift (placement_provider cfg (Spec t) from_tier part.1) in
  let j := {| job_id := part_id gid part.1; maintenance_id := None; op := Read; job_size := part.2; job_arrival_ns := now; job_place := p;
              meta := ReadJob logical_issue (CausalWorkload.tensor_id t) gid part.1 count (stripe_unit_bytes cfg) consumers
                        (CausalWorkload.batch_interval_id x) |} in
  let! _ := open_part gid j in
  let! _ := modify (on_flight (fun f => set_groups (alter (fun g =>
              match content g with
              | ReadGroup r => set_content (ReadGroup {| child_count := child_count r; retry_remaining := retry_remaining r;
                                 retry_sequence := retry_sequence r; retry_parts := retry_parts r ++ [(part.1, part.2, p)];
                                 cache_hit := cache_hit r; from := from r; blocks_compute := blocks_compute r |}) g
              | _ => g
              end) gid (groups f)) f)) in
  sret j.

(** A read group for the task is opened. *)
Definition open_read (x : task) (t : tensor) (consumers logical_issue now : Z) (consume_ready : option Z) (hit : bool) : X (list job) :=
  let id := task_id x in
  let tid := CausalWorkload.tensor_id t in
  let! s := get in
  let from_tier := if hit then Fast else default Source (tensor_tier (moved s) !! tid) in
  let gid := read_group_id id in
  let! parts := lift (_stripe_parts (CausalWorkload.bytes t)) in
  let! _ := offer id in
  let! _ := modify (on_flight (fun f => set_pending_tensor (<[tid := gid]> (pending_tensor f)) f)) in
  let r := {| child_count := Z.of_nat (length parts); retry_remaining := if hit then 0 else retry_count cfg; retry_sequence := 0;
              retry_parts := []; cache_hit := hit; from := from_tier;
              blocks_compute := match waiting cfg, consume_ready with StallAtIssue, None => true | _, _ => false end |} in
  let! _ := put_group gid {| task_ids := [id]; pending := ∅; completion_ns := now; g_tensor := tid; g_bytes := CausalWorkload.bytes t;
                             content := ReadGroup r |} in
  mapS (read_part x t consumers logical_issue now (Z.of_nat (length parts)) from_tier gid) parts.

(** The read is served by the metadata cache. *)
Definition ideal_hit (id tid : string) (now : Z) (consume_ready : option Z) : X unit :=
  let! _ := modify (on_kept (touch tid)) in
  let! _ := offer id in
  let! _ := match consume_ready with
            | None => modify (on_plan (fun p => set_ready (<[id := (now, FromCache)]> (external_ready p)) p))
            | Some ready =>
                let! _ := mark_done id (Z.max now ready) in
                emit (StorageConsumed id tid now (Z.max now ready) FromCache)
            end in
  let! s := get in
  emit (CacheHit id tid now (done (plan s) !! id)).

(** The read joins the group that is already fetching its tensor. *)
Definition coalesce (id gid : string) (now : Z) : X unit :=
  let! s := get in
  let! _ := lift (gindex (groups (flight s)) gid) in
  let! _ := modify (on_flight (fun f => set_groups (alter (join_task id) gid (groups f)) f)) in
  let! _ := offer id in
  emit (Coalesced id gid now).

Definition poll_task (now : Z) (acc : list job) (item : string * task) : X (list job) :=
  let '(id, x) := item in
  let! s := get in
  match CausalWorkload.job x with
  | CausalWorkload.Compute _ _ _ => sret acc
  | CausalWorkload.Storage t issue consume consumers =>
      if has (done (plan s)) id || bool_decide (id ∈ offered (plan s)) then sret acc
      else
        let! logical := lift (eligible_at (plan s) id issue) in
        match logical with
        | None => sret acc
        | Some logical_issue =>
            if now <? logical_issue then sret acc
            else
              let tid := CausalWorkload.tensor_id t in
              let consume_ready := _deps_time (done (plan s)) consume in
              let cached := dmem (cache (kept s)) tid in
              if bool_decide (caching cfg = IdealMetadataOnly) && cached then
                let! _ := ideal_hit id tid now consume_ready in sret acc
              else
                match (if coalescing_enabled cfg then pending_tensor (flight s) !! tid else None) with
                | Some gid => let! _ := coalesce id gid now in sret acc
                | None =>
                    let hit := bool_decide (caching cfg = ExternalHbm) && cached in
                    let! _ := if hit then let! _ := modify (on_kept (touch tid)) in emit (HbmHit id tid now) else sret tt in
                    let! js := open_read x t consumers logical_issue now consume_ready hit in
                    sret (acc ++ js)
                end
        end
  end.

(** A deferred erase of a source copy waits for the reads of that copy. *)
Definition poll_erase (now : Z) (acc : list job * list transfer) (x : transfer) : X (list job * list transfer) :=
  let '(result, waiting_) := acc in
  let! s := get in
  if existsb (reads_source (x_tensor x)) (group_list (flight s)) then sret (result, waiting_ ++ [x])
  else let! js := _migration_jobs x now in sret (result ++ js, waiting_).

Definition poll (now : Z) : X (list job) :=
  let! _ := require (0 <=? now) (ValueError "now_ns must be non-negative integer ns") in
  let! s := get in
  let! _ := require (now_ns s <=? now) (ValueError "causal clock cannot go backward") in
  let! _ := modify (set_now now) in
  let! _ := _resolve_ready_storage now in
  let! s := get in
  let result := deferred_jobs (out s) in
  let! _ := modify (on_out (set_deferred_jobs [])) in
  let! (result, waiting_) := foldS (poll_erase now) (deferred_source_erase (moved s)) (result, []) in
  let! _ := modify (on_moved (set_deferred waiting_)) in
  let! s := get in
  let! result := foldS (poll_task now) (tasks (plan s)) result in
  let! _ := _resolve_ready_storage now in
  let! _ := _start_compute now in
  sret result.

(** ** Completions *)

Definition retry_id (gid : string) (sequence partition : Z) : string := gid +:+ ":retry" +:+ pretty sequence +:+ ":part" +:+ pretty partition.

Definition retry_part (gid tid : string) (sequence now : Z) (part : Z * Z * place) : X unit :=
  let '(partition, size, p) := part in
  let j := {| job_id := retry_id gid sequence partition; maintenance_id := None; op := Retry; job_size := size; job_arrival_ns := now;
              job_place := p; meta := RetryJob gid tid sequence |} in
  let! _ := open_part gid j in
  defer [j].

Definition retry_read (gid : string) (g : group) (r : read_info) (now : Z) : X unit :=
  let r' := {| child_count := child_count r; retry_remaining := retry_remaining r - 1; retry_sequence := retry_sequence r + 1;
               retry_parts := retry_parts r; cache_hit := cache_hit r; from := from r; blocks_compute := blocks_compute r |} in
  let! _ := put_group gid (set_content (ReadGroup r') g) in
  forM (retry_parts r) (retry_part gid (g_tensor g) (retry_sequence r + 1) now).

(** A task whose read was delivered at [at_ns]. *)
Definition deliver (tid : string) (at_ns : Z) (id : string) : X unit :=
  let! s := get in
  let! x := lift (dindex (tasks (plan s)) id) in
  let! after := lift (consume_after x) in
  match _deps_time (done (plan s)) after with
  | None => modify (on_plan (fun p => set_ready (<[id := (at_ns, FromService)]> (external_ready p)) p))
  | Some ready =>
      let! _ := mark_done id (Z.max at_ns ready) in
      emit (StorageConsumed id tid at_ns (Z.max at_ns ready) FromService)
  end.

Definition finish_read (gid : string) (g : group) (r : read_info) : X unit :=
  let t := g_tensor g in
  let at_ns := completion_ns g in
  let! s := get in
  let! _ := if bool_decide (pending_tensor (flight s) !! t = Some gid)
            then modify (on_flight (fun f => set_pending_tensor (delete t (pending_tensor f)) f)) else sret tt in
  let! _ := if blocks_compute r then emit (StallReleased gid at_ns) else sret tt in
  let! _ := match caching cfg with
            | IdealMetadataOnly => _insert_cache t (g_bytes g)
            | _ => if cache_hit r then sret tt else _offer_cache_fill t (g_bytes g) at_ns
            end in
  let! _ := forM (task_ids g) (deliver t at_ns) in
  let! _ := modify (on_moved (count_access t)) in
  let! _ := emit (StorageComplete gid t at_ns (g_bytes g) (retry_sequence r) (child_count r) (task_ids g)) in
  let! _ := modify (on_flight (fun f => set_groups (delete gid (groups f)) f)) in
  _resolve_ready_storage at_ns.

Definition finish_fill (gid : string) (g : group) (now : Z) : X unit :=
  let! s := get in
  let! _ := lift (dindex (cache_reservations (kept s)) (g_tensor g)) in
  let! _ := modify (on_kept (unreserve (g_tensor g))) in
  let! _ := _insert_cache (g_tensor g) (g_bytes g) in
  let! _ := emit (CacheFillComplete (g_tensor g) now (g_bytes g)) in
  modify (on_flight (fun f => set_groups (delete gid (groups f)) f)).

Definition complete (id : string) (at_ns completed : Z) : X unit :=
  let! s := get in
  let f := flight s in
  let! _ := require (bool_decide (job_bytes f !! id = Some completed)) (ValueError "unknown job or byte-incomplete external completion") in
  let! _ := require (0 <=? at_ns) (ValueError "completion_ns must be non-negative integer ns") in
  let! arrived := lift (gindex (job_arrival f) id) in
  let! _ := require (arrived <=? at_ns) (ValueError "external completion precedes causal job arrival") in
  let! _ := modify (on_flight (drop_job id)) in
  let! gid := lift (gindex (job_group f) id) in
  let! g := lift (gindex (groups f) gid) in
  let! _ := require (bool_decide (id ∈ pending g)) (KeyError id) in
  let g := set_completion (Z.max (completion_ns g) at_ns) (set_pending (pending g ∖ {[id]}) g) in
  let! _ := put_group gid g in
  let! _ := emit (ChildComplete id gid at_ns completed) in
  if bool_decide (pending g <> ∅) then sret tt
  else
    match content g with
    | ReadGroup r => if retry_remaining r =? 0 then finish_read gid g r else retry_read gid g r at_ns
    | MigrationGroup x => _complete_migration_phase gid g x at_ns
    | FillGroup => finish_fill gid g at_ns
    end.

(** ** Batches *)

Definition add_task (arrives : Z) (x : task) : X unit :=
  let! s := get in
  let! _ := require (negb (dmem (tasks (plan s)) (task_id x))) (ValueError "duplicate streaming batch/task") in
  let! _ := modify (on_plan (fun p => set_arrival (<[task_id x := arrives]> (arrival p)) (set_tasks (dset (tasks p) (task_id x) x) p))) in
  match CausalWorkload.job x with
  | CausalWorkload.Storage t _ _ _ => modify (on_moved (fun v => set_specs (<[CausalWorkload.tensor_id t := t]> (tensor_specs v)) v))
  | CausalWorkload.Compute _ _ _ => sret tt
  end.

Definition with_batches (bs : list CausalWorkload.batch) (tr : CausalWorkload.trace) : CausalWorkload.trace :=
  {| CausalWorkload.ident := CausalWorkload.ident tr; CausalWorkload.batches := bs |}.

Definition add_batch (b : CausalWorkload.batch) : X unit :=
  let! s := get in
  let! _ := require (bool_decide (CausalWorkload.interval_id b ∉ known_batch_ids s)) (ValueError "duplicate streaming batch") in
  let! _ := modify (know_batch (CausalWorkload.interval_id b)) in
  let! _ := forM (CausalWorkload.tasks b) (add_task (CausalWorkload.arrival_ns b)) in
  modify (fun s => set_current (with_batches (CausalWorkload.batches (current s) ++ [b]) (current s)) s).

Definition same_science (a b : CausalWorkload.identity) : bool :=
  String.eqb (CausalWorkload.trace_origin a) (CausalWorkload.trace_origin b)
  && String.eqb (CausalWorkload.dependency_mode a) (CausalWorkload.dependency_mode b)
  && String.eqb (CausalWorkload.model_id a) (CausalWorkload.model_id b)
  && String.eqb (CausalWorkload.embedding_access a) (CausalWorkload.embedding_access b)
  && (CausalWorkload.prefetch_layers a =? CausalWorkload.prefetch_layers b)
  && String.eqb (CausalWorkload.prefetch_mode a) (CausalWorkload.prefetch_mode b).

Definition append_trace (tr : CausalWorkload.trace) : X unit :=
  let! s := get in
  let mine := CausalWorkload.ident (current s) in
  let theirs := CausalWorkload.ident tr in
  let! _ := require (same_science theirs mine) (ValueError "streaming trace scientific identity changed") in
  let! _ := require (bool_decide (CausalWorkload.structure_sha256 mine = CausalWorkload.structure_sha256 theirs))
              (ValueError "streaming structure provenance changed") in
  forM (CausalWorkload.batches tr) add_batch.

Definition drop_task (id : string) : X unit :=
  let! s := get in
  let! _ := lift (dindex (tasks (plan s)) id) in
  let! _ := lift (gindex (arrival (plan s)) id) in
  modify (on_plan (fun p => {| tasks := ddel (tasks p) id; arrival := delete id (arrival p); done := delete id (done p);
                               offered := offered p ∖ {[id]}; external_ready := delete id (external_ready p);
                               compute_running := compute_running p; compute_available_ns := compute_available_ns p |})).

Definition retire_batch (referenced : list string) (acc : list CausalWorkload.batch * list fact) (b : CausalWorkload.batch) :
    X (list CausalWorkload.batch * list fact) :=
  let '(retained, completed) := acc in
  let ids := remove_dups (task_id <$> CausalWorkload.tasks b) in
  let! s := get in
  match done (plan s) !! CausalWorkload.terminal_task_id b with
  | Some at_ns =>
      if existsb (fun id => bool_decide (id ∈ referenced)) ids then sret (retained ++ [b], completed)
      else
        let f := {| f_interval := CausalWorkload.interval_id b; f_arrival := CausalWorkload.arrival_ns b; f_completion := at_ns;
                    token_count := Z.of_nat (length (CausalWorkload.token_ids b)) |} in
        let! _ := modify (on_out (add_fact f)) in
        let! _ := forM ids drop_task in
        sret (retained, completed ++ [f])
  | None => sret (retained ++ [b], completed)
  end.

Definition retire_completed_batches (now : Z) : X (list fact) :=
  let! _ := _resolve_ready_storage now in
  let! s := get in
  let referenced := group_list (flight s) ≫= task_ids in
  let! (retained, completed) := foldS (retire_batch referenced) (CausalWorkload.batches (current s)) ([], []) in
  let! _ := modify (fun s => set_current (with_batches retained (current s)) s) in
  sret completed.

Definition drain_observations : X (list event * list job) :=
  let! s := get in
  let! _ := modify (on_out clear_log) in
  sret (events (out s), jobs (out s)).

(** ** Times and results *)

Definition storage_event (p : sched) (item : string * task) : result (list Z) :=
  let '(id, x) := item in
  if has (done p) id then Ok []
  else
    match CausalWorkload.job x with
    | CausalWorkload.Storage _ issue _ _ =>
        if bool_decide (id ∈ offered p) then Ok []
        else let? t := eligible_at p id issue in Ok (option_list t)
    | CausalWorkload.Compute _ _ _ => Ok []
    end.
Definition next_internal_event_ns (s : executor) : result (option Z) :=
  let p := plan s in
  let? l := mapR (storage_event p) (tasks p) in
  Ok (zmin_list (option_list (snd <$> compute_running p) ++ concat l)).

Record token_row := { row_id : string; row_completion : option Z; row_complete : bool }.
Record outcome := {
  r_trace_origin : string; r_tokens : list token_row; r_retired : list fact; r_jobs : list job; r_events : list event;
  r_pending : list string }.

Definition result_of (now : Z) : X outcome :=
  let! _ := _resolve_ready_storage now in
  let! s := get in
  let d := done (plan s) in
  let rows := b ← CausalWorkload.batches (current s); 
              (fun id => {| row_id := id; row_completion := d !! CausalWorkload.terminal_task_id b;
                            row_complete := has d (CausalWorkload.terminal_task_id b) |}) <$> CausalWorkload.token_ids b in
  sret {| r_trace_origin := CausalWorkload.TRACE_ORIGIN; r_tokens := rows; r_retired := completed_batches (out s); r_jobs := jobs (out s);
          r_events := events (out s); r_pending := isort sle (map_to_list (job_bytes (flight s))).*1 |}.

End operations.

(** ** Construction *)

Record config := {
  cache_capacity_bytes : Z; c_migration_mode : string; migration_access_threshold : Z; c_cache_mode : option string;
  c_coalescing_enabled : option bool; c_prefetch_wait_mode : option string; retry_count_per_source_read : Z; c_migration_capacity_bytes : Z;
  fast_stripe_targets : option (list place); stripe_targets : option (list place); default_placement : option place; c_stripe_unit_bytes : Z;
  placement_target_count : Z }.

(** [selected[partition % len(selected)]]. *)
Definition provider (targets fast_targets : list place) (_ : tensor_ref) (t : tier) (partition : Z) : result place :=
  let selected := match t with Fast => fast_targets | Source => targets end in
  lget selected (Z.to_nat (partition mod Z.of_nat (length selected))).

Definition _default_placement (c : config) : result ((tensor_ref -> tier -> Z -> result place) * Z) :=
  let targets := match stripe_targets c with Some l => Some l | None => (fun p => [p]) <$> default_placement c end in
  let? targets := match targets with Some (p :: l) => Ok (p :: l) | _ => Raise (ValueError "explicit stripe_targets are required") end in
  let fast_targets := default targets (fast_stripe_targets c) in
  let? _ := ensure (bool_decide (fast_targets <> [])) (ValueError "fast_stripe_targets cannot be empty") in
  let? _ := ensure (length fast_targets =? length targets)%nat (ValueError "source and fast stripe target counts must match") in
  Ok (provider targets fast_targets, Z.of_nat (length targets)).

(** Targets that are given, and all on stacks whose name starts with [kind]. *)
Definition targets_on (kind : string) (c : config) : bool :=
  match fast_stripe_targets c with Some (p :: l) => forallb (fun p => String.prefix kind (stack p)) (p :: l) | _ => false end.

Definition check_config (custom : option (tensor_ref -> tier -> Z -> result place)) (c : config) : result settings :=
  let? _ := ensure (bool_decide (retry_count_per_source_read c ∈ [0; 1; 4]))
              (ValueError "retry count must be explicit conditional scenario 0, 1 or 4") in
  let? mode := if cache_capacity_bytes c <? 0 then Raise (ValueError "invalid cache or migration mode")
               else if String.eqb (c_migration_mode c) "fixed" then Ok Fixed
               else if String.eqb (c_migration_mode c) "basic" then Ok Basic
               else Raise (ValueError "invalid cache or migration mode") in
  let? _ := match mode with
            | Fixed => Ok tt
            | Basic =>
                let? _ := ensure (0 <? c_migration_capacity_bytes c)
                            (ValueError "basic migration requires finite explicit destination capacity") in
                ensure (targets_on "hbf" c) (ValueError "basic placement migration currently requires explicit HBF destinations")
            end in
  let? caching_ := match c_cache_mode c with
                   | Some m => if String.eqb m "disabled" then Ok Disabled
                               else if String.eqb m "ideal_metadata_only" then Ok IdealMetadataOnly
                               else if String.eqb m "external_hbm" then Ok ExternalHbm
                               else Raise (ValueError "unsupported cache_mode")
                   | None => Raise (ValueError "unsupported cache_mode")
                   end in
  let? _ := ensure (negb (bool_decide (caching_ = Disabled)) || (cache_capacity_bytes c =? 0))
              (ValueError "disabled cache requires zero capacity") in
  let? coalescing := of_option (ValueError "coalescing_enabled must be explicit boolean") (c_coalescing_enabled c) in
  let? waiting_ := match c_prefetch_wait_mode c with
                   | Some m => if String.eqb m "wait_at_consumption" then Ok WaitAtConsumption
                               else if String.eqb m "stall_at_issue" then Ok StallAtIssue
                               else Raise (ValueError "explicit prefetch_wait_mode is required")
                   | None => Raise (ValueError "explicit prefetch_wait_mode is required")
                   end in
  let? _ := ensure (0 <? c_stripe_unit_bytes c) (ValueError "stripe_unit_bytes must be an explicit positive value") in
  let? (place_at, count) := match custom with
                            | None => _default_placement c
                            | Some f =>
                                let? _ := ensure (0 <? placement_target_count c)
                                            (ValueError "custom placement_provider requires placement_target_count") in
                                Ok (f, placement_target_count c)
                            end in
  let? _ := ensure (negb (bool_decide (caching_ = ExternalHbm)) || targets_on "hbm" c)
              (ValueError "service-backed cache requires explicit HBM targets") in
  Ok {| cache_capacity := cache_capacity_bytes c; migration := mode; migration_threshold := migration_access_threshold c; caching := caching_;
        coalescing_enabled := coalescing; waiting := waiting_; retry_count := retry_count_per_source_read c;
        migration_capacity_bytes := c_migration_capacity_bytes c; stripe_unit_bytes := c_stripe_unit_bytes c; target_count := count;
        placement_provider := place_at |}.

Definition trace_tasks (tr : CausalWorkload.trace) : list (Z * task) :=
  b ← CausalWorkload.batches tr; (fun x => (CausalWorkload.arrival_ns b, x)) <$> CausalWorkload.tasks b.

Definition initial_plan (tr : CausalWorkload.trace) : sched :=
  {| tasks := foldl (fun d item => dset d (task_id item.2) item.2) [] (trace_tasks tr);
     arrival := foldl (fun m item => <[task_id item.2 := item.1]> m) ∅ (trace_tasks tr);
     done := ∅; offered := ∅; external_ready := ∅; compute_running := None; compute_available_ns := 0 |}.

Definition initial_specs (d : dict string task) : gmap string tensor :=
  foldl (fun m x => match CausalWorkload.job x with
                    | CausalWorkload.Storage t _ _ _ => <[CausalWorkload.tensor_id t := t]> m
                    | CausalWorkload.Compute _ _ _ => m
                    end) ∅ (dvals d).

Definition init (tr : CausalWorkload.trace) (c : config) (custom : option (tensor_ref -> tier -> Z -> result place)) : result (settings * executor) :=
  let origin := CausalWorkload.trace_origin (CausalWorkload.ident tr) in
  let? _ := ensure (String.eqb origin CausalWorkload.TRACE_ORIGIN || String.eqb origin CausalWorkload.TINY_TRACE_ORIGIN)
              (ValueError "unclassified causal trace") in
  let? cfg := check_config custom c in
  let p := initial_plan tr in
  Ok (cfg, {| current := tr; known_batch_ids := list_to_set (CausalWorkload.interval_id <$> CausalWorkload.batches tr); now_ns := 0; plan := p;
              flight := {| job_group := ∅; groups := ∅; job_bytes := ∅; job_arrival := ∅; pending_tensor := ∅ |};
              kept := {| cache := []; cache_bytes := 0; cache_reservations := [] |};
              moved := {| tensor_specs := initial_specs (tasks p); access_count := ∅; tensor_tier := ∅; pending_migrations := ∅;
                          migration_used_bytes := 0; tensor_versions := ∅; deferred_source_erase := [] |};
              out := {| jobs := []; events := []; deferred_jobs := []; completed_batches := [] |} |}).
End CausalExecutor.
