(* ===== verification/ExecutorInvariant.v ===== *)
(** * ExecutorInvariant: the invariant of the causal executor

    Striping, the identifiers of groups and jobs, and the invariant of
    [CausalExecutor] with its preservation by every operation. *)

From S2P Require Import Prelude ProgramLogic.
From S2P Require Import CausalWorkload CausalExecutor.

Module ExecutorInvariant.
Import ProgramLogic CausalExecutor.
Notation range := CausalWorkload.range.
Notation deps := CausalWorkload.deps.
Notation batch := CausalWorkload.batch.
Notation wf_batch := CausalWorkload.wf_batch.
Notation all_task_ids := CausalWorkload.all_task_ids.

(** ** Sums over a range *)

Lemma zsum_cons x l : zsum (x :: l) = x + zsum l.
Proof. done. Qed.

Lemma range_S n : 0 <= n -> range (n + 1) = range n ++ [n].
Proof.
  intros Hn. unfold CausalWorkload.range. replace (Z.to_nat (n + 1)) with (S (Z.to_nat n)) by lia.
  rewrite seq_S, fmap_app. f_equal. cbn. f_equal. lia.
Qed.

Lemma range_ind (P : Z -> Prop) : P 0 -> (forall n, 0 <= n -> P n -> P (n + 1)) -> forall n, 0 <= n -> P n.
Proof. intros H0 HS n Hn. apply (Zlt_0_ind P); [|done]. intros x IH Hx. destruct (decide (x = 0)) as [->|]; [done|]. replace x with (x - 1 + 1) by lia. apply HS; [lia|]. apply IH. lia. Qed.

Lemma zsum_range_S (f : Z -> Z) n : 0 <= n -> zsum (f <$> range (n + 1)) = zsum (f <$> range n) + f n.
Proof. intros Hn. rewrite range_S by done. rewrite fmap_app, zsum_app. cbn. lia. Qed.

Lemma sum_below e n : 0 <= n -> 0 <= e -> zsum ((fun i => if i <? e then 1 else 0) <$> range n) = Z.min e n.
Proof.
  intros Hn He. revert n Hn. apply range_ind; [change (0 = Z.min e 0); lia|]. intros n Hn IH. rewrite zsum_range_S by done. rewrite IH. destruct (Z.ltb_spec n e); lia.
Qed.
Lemma sum_at t j n : 0 <= n -> 0 <= j -> zsum ((fun i => if i =? j then t else 0) <$> range n) = if j <? n then t else 0.
Proof.
  intros Hn Hj. revert n Hn. apply range_ind; [destruct (Z.ltb_spec j 0); [lia|done]|]. intros n Hn IH. rewrite zsum_range_S by done. rewrite IH.
  destruct (Z.ltb_spec j n), (Z.ltb_spec j (n + 1)), (Z.eqb_spec n j); lia.
Qed.

(** ** Striping *)

Section stripes.
Context (cfg : settings) (Hunit : 0 < stripe_unit_bytes cfg) (Htargets : 0 < target_count cfg).

Lemma stripe_child_nonneg size i : 0 <= size -> 0 <= stripe_child cfg size i.
Proof using Hunit Htargets.
  intros Hs. unfold stripe_child. pose proof (Z.div_pos size _ Hs Hunit) as Hf. pose proof (Z.div_pos _ _ Hf Htargets).
  pose proof (Z.mod_pos_bound size _ Hunit). destruct (_ <? _), (negb _ && _); nia.
Qed.

Lemma stripe_child_sum size : 0 <= size -> zsum (stripe_child cfg size <$> range (target_count cfg)) = size.
Proof using Hunit Htargets.
  intros Hs. set (u := stripe_unit_bytes cfg) in *. set (n := target_count cfg) in *. set (full := size / u). set (tail := size mod u).
  assert (Hfull : 0 <= full) by (apply Z.div_pos; lia). pose proof (Z.mod_pos_bound full n Htargets) as Hextra.
  transitivity (zsum ((fun i => full / n * u + (if i <? full mod n then 1 else 0) * u + (if i =? full mod n then tail else 0)) <$> range n)).
  { f_equal. apply list_fmap_ext. intros _ i _. unfold stripe_child. fold u n full tail.
    destruct (Z.eqb_spec tail 0) as [->|]; cbn [negb andb]; destruct (_ =? _); lia. }
  rewrite !zsum_map_add.
  assert (Hscale : zsum ((fun i => (if i <? full mod n then 1 else 0) * u) <$> range n) = zsum ((fun i => if i <? full mod n then 1 else 0) <$> range n) * u).
  { induction (range n) as [|i l IH]; [done|]. cbn [fmap list_fmap zsum foldr] in *. unfold zsum in IH. rewrite IH. lia. }
  rewrite Hscale, sum_below, sum_at, zsum_map_const by lia. destruct (Z.ltb_spec (full mod n) n); [|lia].
  assert (Hlen : Z.of_nat (length (range n)) = n) by (unfold CausalWorkload.range; rewrite length_fmap, length_seq; lia). rewrite Hlen.
  pose proof (Z.div_mod size u ltac:(lia)). pose proof (Z.div_mod full n ltac:(lia)). fold full tail in H0. rewrite Z.min_l by lia. nia.
Qed.

Definition parts_of (size : Z) (l : list Z) : list (Z * Z) :=
  omap (fun i => let child := stripe_child cfg size i in if child =? 0 then None else Some (i, child)) l.

Lemma parts_of_sum size l : zsum (parts_of size l).*2 = zsum (stripe_child cfg size <$> l).
Proof using.
  induction l as [|i l IH]; [done|]. unfold parts_of in *. rewrite fmap_cons. cbn [omap list_omap].
  destruct (Z.eqb_spec (stripe_child cfg size i) 0) as [E|]; rewrite ?fmap_cons, ?zsum_cons, IH; [lia|done].
Qed.

Record parts_ok (size : Z) (parts : list (Z * Z)) : Prop := {
  pp_sum : zsum parts.*2 = size;
  pp_elem : forall i n, (i, n) ∈ parts -> 0 <= i < target_count cfg /\ 0 < n /\ n = stripe_child cfg size i;
  pp_all : forall i, 0 <= i < target_count cfg -> stripe_child cfg size i <> 0 -> (i, stripe_child cfg size i) ∈ parts;
  pp_nodup : NoDup parts.*1 }.

Lemma parts_of_fst_in size l i : i ∈ (parts_of size l).*1 -> i ∈ l.
Proof using.
  intros Hi. apply list_elem_of_fmap in Hi as ([j n] & -> & Hj). unfold parts_of in Hj. apply list_elem_of_omap in Hj as (k & Hk & E).
  destruct (_ =? 0); [done|]. by injection E as <- _.
Qed.

(** Striping succeeds on every size: its children are positive, have distinct
    targets and add up to the size. *)
Lemma stripe_parts_ok size : 0 <= size -> exists parts, _stripe_parts cfg size = Ok parts /\ parts_ok size parts.
Proof using Hunit Htargets.
  intros Hs. unfold _stripe_parts. fold (parts_of size (range (target_count cfg))).
  assert (Hsum : zsum (parts_of size (range (target_count cfg))).*2 = size) by by rewrite parts_of_sum, stripe_child_sum.
  rewrite Hsum, Z.eqb_refl. eexists. split; [done|]. constructor; [done| | |].
  - intros i n Hin. unfold parts_of in Hin. apply list_elem_of_omap in Hin as (k & Hk%CausalWorkload.range_elem & E).
    destruct (Z.eqb_spec (stripe_child cfg size k) 0); [done|]. injection E as <- <-. pose proof (stripe_child_nonneg size k Hs). split_and!; lia.
  - intros i Hi Hne. unfold parts_of. apply list_elem_of_omap. exists i. split; [by apply CausalWorkload.range_elem|]. by destruct (Z.eqb_spec (stripe_child cfg size i) 0).
  - assert (Hnd : NoDup (range (target_count cfg))) by apply CausalWorkload.range_NoDup.
    clear Hsum. induction Hnd as [|i l Hi Hnd IH]; [constructor|]. cbn. destruct (_ =? 0); cbn; [exact IH|].
    apply NoDup_cons. split; [|exact IH]. intros Hin. by apply (parts_of_fst_in size) in Hin.
Qed.

Lemma parts_nonempty size parts : parts_ok size parts -> 0 < size -> parts <> [].
Proof using. intros [Hsum _ _ _] Hs ->. cbn in Hsum. lia. Qed.
End stripes.

(** ** Round robin

    The reference: unit [k] of a tensor holds [unit_length k] bytes and goes to
    target [k mod target_count]. *)

Section round_robin.
Context (cfg : settings) (Hunit : 0 < stripe_unit_bytes cfg) (Htargets : 0 < target_count cfg).

Definition unit_length (size k : Z) : Z := Z.min (stripe_unit_bytes cfg) (size - k * stripe_unit_bytes cfg).
Definition round_robin (size i : Z) : Z :=
  zsum ((fun k => if k mod target_count cfg =? i then unit_length size k else 0) <$> range (ceil_div size (stripe_unit_bytes cfg))).

Lemma count_mod n i : 0 <= i < target_count cfg -> 0 <= n ->
  zsum ((fun k => if k mod target_count cfg =? i then 1 else 0) <$> range n) = n / target_count cfg + (if i <? n mod target_count cfg then 1 else 0).
Proof using Htargets.
  intros Hi. revert n. apply range_ind.
  - rewrite Z.div_0_l, Z.mod_0_l by lia. destruct (Z.ltb_spec i 0); [lia|done].
  - intros n Hn IH. rewrite zsum_range_S, IH by done. set (t := target_count cfg) in *.
    pose proof (Z.div_mod n t ltac:(lia)) as Hd. pose proof (Z.mod_pos_bound n t Htargets) as Hm.
    destruct (decide (n mod t = t - 1)) as [E|E].
    + assert (H1 : (n + 1) / t = n / t + 1) by (symmetry; apply (Z.div_unique _ _ _ 0); lia).
      assert (H2 : (n + 1) mod t = 0) by (symmetry; apply (Z.mod_unique _ _ (n / t + 1)); lia).
      rewrite H1, H2. destruct (Z.ltb_spec i (n mod t)), (Z.ltb_spec i 0), (Z.eqb_spec (n mod t) i); lia.
    + assert (H1 : (n + 1) / t = n / t) by (symmetry; apply (Z.div_unique _ _ _ (n mod t + 1)); lia).
      assert (H2 : (n + 1) mod t = n mod t + 1) by (symmetry; apply (Z.mod_unique _ _ (n / t)); lia).
      rewrite H1, H2. destruct (Z.ltb_spec i (n mod t)), (Z.ltb_spec i (n mod t + 1)), (Z.eqb_spec (n mod t) i); lia.
Qed.

Lemma full_units size i n : 0 <= n -> n * stripe_unit_bytes cfg <= size ->
  zsum ((fun k => if k mod target_count cfg =? i then unit_length size k else 0) <$> range n)
  = zsum ((fun k => if k mod target_count cfg =? i then 1 else 0) <$> range n) * stripe_unit_bytes cfg.
Proof using Hunit.
  intros Hn. revert n Hn. apply (range_ind (fun n => n * stripe_unit_bytes cfg <= size -> _ = _)); [done|].
  intros n Hn IH Hle. rewrite !zsum_range_S by done. rewrite IH by nia. unfold unit_length.
  destruct (_ =? i); [|lia]. rewrite Z.min_l by nia. lia.
Qed.

Lemma stripe_child_round_robin size i : 0 <= size -> 0 <= i < target_count cfg -> stripe_child cfg size i = round_robin size i.
Proof using Hunit Htargets.
  intros Hs Hi. unfold round_robin, stripe_child. set (u := stripe_unit_bytes cfg) in *. set (full := size / u). set (tail := size mod u).
  pose proof (Z.div_mod size u ltac:(lia)) as Hd. pose proof (Z.mod_pos_bound size u Hunit) as Hm. fold full tail in Hd, Hm.
  assert (Hfull : 0 <= full) by (apply Z.div_pos; lia). rewrite <- (count_mod full i Hi Hfull).
  destruct (Z.eqb_spec tail 0) as [E|E]; cbn [negb andb].
  - replace (ceil_div size u) with full by (unfold ceil_div; apply (Z.div_unique _ _ _ (u - 1)); lia).
    rewrite full_units by (fold u; nia). fold u. lia.
  - replace (ceil_div size u) with (full + 1) by (unfold ceil_div; apply (Z.div_unique _ _ _ (tail - 1)); lia).
    rewrite zsum_range_S, full_units by (fold u; nia). fold u. unfold unit_length. fold u. rewrite (Z.eqb_sym i).
    destruct (_ =? i); [|lia]. rewrite Z.min_r by nia. lia.
Qed.
End round_robin.

(** ** Identifiers *)

Lemma string_length_app (s t : string) : String.length (s +:+ t) = (String.length s + String.length t)%nat.
Proof. induction s as [|c s IH]; [done|]. change (S (String.length (s +:+ t)) = S (String.length s + String.length t)). by rewrite IH. Qed.

(** Text before the last colon, and the text after it. *)
Lemma segment_inj a b (s t : string) : no_colon s = true -> no_colon t = true ->
  a +:+ ":" +:+ s = b +:+ ":" +:+ t -> a = b /\ s = t.
Proof.
  intros Hs Ht E. assert (Hst : s = t) by (rewrite <- (CausalWorkload.last_segment_colon a s Hs), E; by apply CausalWorkload.last_segment_colon).
  subst t. split; [|done]. clear Hs Ht. revert b E. induction a as [|c a IH]; intros [|d b] E; [done| | |].
  - exfalso. apply (f_equal String.length) in E. rewrite !string_length_app in E. cbn in E. lia.
  - exfalso. apply (f_equal String.length) in E. rewrite !string_length_app in E. cbn in E. lia.
  - injection E as -> E. f_equal. by apply IH.
Qed.

(** The identifier of a job: of the first attempt ([None]), or of a retry. *)
Definition job_name (gid : string) (attempt : option Z) (partition : Z) : string :=
  match attempt with None => part_id gid partition | Some k => retry_id gid k partition end.

Lemma prefix_app (s t : string) : String.prefix s (s +:+ t) = true.
Proof.
  induction s as [|c s IH]; [by destruct t|]. change (String c s +:+ t) with (String c (s +:+ t)). cbn. by destruct (Ascii.ascii_dec c c).
Qed.

(** Group identifiers, from which job identifiers are derived. *)
Definition group_id_ok (gid : string) : Prop := String.prefix "retry" (CausalWorkload.last_segment gid) = false.

Lemma no_colon_label (s : string) (z : Z) : no_colon s = true -> no_colon (s +:+ pretty z) = true.
Proof. intros Hs. by rewrite CausalWorkload.no_colon_app, Hs, pretty_colon. Qed.

Lemma job_name_inj g g' a a' p p' : group_id_ok g -> group_id_ok g' -> job_name g a p = job_name g' a' p' -> g = g'.
Proof.
  assert (Hret : forall (h : string) (k : Z), group_id_ok (h +:+ ":" +:+ "retry" +:+ pretty k) -> False).
  { intros h k Hh. unfold group_id_ok in Hh. rewrite (CausalWorkload.last_segment_colon h ("retry" +:+ pretty k)) in Hh by by apply no_colon_label.
    by rewrite prefix_app in Hh. }
  assert (Hname : forall h b q, job_name h b q = match b with None => h | Some k => h +:+ ":" +:+ "retry" +:+ pretty k end +:+ ":" +:+ "part" +:+ pretty q).
  { intros h [k|] q; [|done]. cbn [job_name]. unfold retry_id. by rewrite !string_app_assoc. }
  intros Hg Hg' E. rewrite !Hname in E. apply segment_inj in E as [E _]; [|by apply no_colon_label..].
  destruct a as [k|], a' as [k'|]; [|subst; by exfalso; eapply Hret|subst; by exfalso; eapply Hret|done].
  by apply (segment_inj g g' ("retry" +:+ pretty k) ("retry" +:+ pretty k')) in E as [-> _]; [|by apply no_colon_label..].
Qed.

Lemma fill_id_inj t t' n n' : fill_id t n = fill_id t' n' -> t = t'.
Proof.
  unfold fill_id. intros E. apply (string_app_inv_head "cache-fill:") in E.
  by apply (segment_inj t t' (pretty n) (pretty n')) in E as [-> _]; [|apply pretty_colon..].
Qed.

Definition letter_r : Ascii.ascii := Ascii.ascii_of_nat 114.
Lemma pretty_not_retry (z : Z) : String.prefix "retry" (pretty z) = false.
Proof.
  assert (Hf : free letter_r (pretty z) = true).
  { apply pretty_free; [|done]. intros x. unfold pretty_N_char. repeat case_match; done. }
  destruct (pretty z) as [|c s]; [done|]. change (free letter_r (String c s)) with (negb (Ascii.eqb c letter_r) && free letter_r s) in Hf.
  apply andb_true_iff in Hf as [Hc _]. apply negb_true_iff, Ascii.eqb_neq in Hc.
  unfold String.prefix. destruct (Ascii.ascii_dec _ c) as [E|]; [|done]. by rewrite <- E in Hc.
Qed.
Lemma fill_id_ok t n : group_id_ok (fill_id t n).
Proof.
  unfold group_id_ok, fill_id. rewrite <- string_app_assoc, (CausalWorkload.last_segment_colon _ (pretty n)) by apply pretty_colon.
  apply pretty_not_retry.
Qed.

Definition phase_id (t : string) (p : phase) : string := ("causal:migration:" +:+ t) +:+ ":" +:+ phase_name p.
Lemma phase_id_inj t t' p p' : phase_id t p = phase_id t' p' -> t = t'.
Proof.
  unfold phase_id. intros E. apply segment_inj in E as [E _]; [|by destruct p|by destruct p']. by apply string_app_inv_head in E.
Qed.
Lemma phase_id_ok t p : group_id_ok (phase_id t p).
Proof. unfold group_id_ok, phase_id. rewrite CausalWorkload.last_segment_colon by by destruct p. by destruct p. Qed.

Lemma last_segment_prefix (a s : string) : no_colon s = false -> CausalWorkload.last_segment (a +:+ s) = CausalWorkload.last_segment s.
Proof.
  intros Hs. induction a as [|c a IH]; [done|]. change (String c a +:+ s) with (String c (a +:+ s)). cbn [CausalWorkload.last_segment].
  rewrite CausalWorkload.no_colon_app, Hs, andb_false_r. exact IH.
Qed.
Lemma last_segment_free (s : string) : no_colon s = true -> CausalWorkload.last_segment s = s.
Proof.
  destruct s as [|c s]; [done|]. intros H. cbn [CausalWorkload.last_segment free] in *. apply andb_true_iff in H as [H1 H2]. rewrite H2.
  by apply negb_true_iff in H1 as ->.
Qed.

Lemma read_group_id_ok id : CausalWorkload.plain_id id = true -> group_id_ok (read_group_id id).
Proof.
  unfold CausalWorkload.plain_id. rewrite andb_true_iff, !negb_true_iff. intros [_ H]. unfold group_id_ok, read_group_id.
  destruct (no_colon id) eqn:E.
  - change ("causal:" +:+ id) with ("causal" +:+ ":" +:+ id).
    rewrite (CausalWorkload.last_segment_colon "causal" id E). by rewrite (last_segment_free id E) in H.
  - by rewrite last_segment_prefix.
Qed.
Lemma read_group_id_inj id id' : read_group_id id = read_group_id id' -> id = id'.
Proof. apply string_app_inv_head. Qed.
Lemma read_not_fill id t n : read_group_id id <> fill_id t n.
Proof. unfold read_group_id, fill_id. intros E. by injection E. Qed.
Lemma fill_not_phase t n t' p : fill_id t n <> phase_id t' p.
Proof. unfold phase_id, fill_id. intros E. by injection E. Qed.
Lemma read_not_phase id t p : CausalWorkload.plain_id id = true -> read_group_id id <> phase_id t p.
Proof.
  unfold CausalWorkload.plain_id, read_group_id, phase_id. rewrite andb_true_iff, !negb_true_iff. intros [H _] E. rewrite !string_app_assoc in E.
  apply (string_app_inv_head "causal:" id ("migration:" +:+ t +:+ ":" +:+ phase_name p)) in E. subst id. by rewrite prefix_app in H.
Qed.

(** ** Dependency times *)

Lemma zmax_list_some l m : zmax_list l = Some m -> m ∈ l /\ forall x, x ∈ l -> x <= m.
Proof. intros E. pose proof (zmax_list_spec l) as H. by rewrite E in H. Qed.

Lemma has_true {V} (m : gmap string V) k : has m k = true <-> is_Some (m !! k).
Proof. apply bool_decide_eq_true. Qed.
Lemma has_false {V} (m : gmap string V) k : has m k = false <-> m !! k = None.
Proof. unfold has. rewrite bool_decide_eq_false. symmetry. apply eq_None_not_Some. Qed.

Lemma deps_time_Some d ids t : _deps_time d ids = Some t -> forall i, i ∈ ids -> exists v, d !! i = Some v /\ v <= t.
Proof.
  unfold _deps_time. destruct (forallb (has d) ids) eqn:E; [|done]. intros [= <-] i Hi. rewrite forallb_forall in E.
  assert (Hs : is_Some (d !! i)) by (apply has_true, E; by apply list_elem_of_In). destruct Hs as [v Hv]. exists v. split; [done|].
  destruct (zmax_list (omap (fun i => d !! i) ids)) as [m|] eqn:Em; cbn.
  - apply zmax_list_some in Em as [_ Hm]. apply Hm. apply list_elem_of_omap. eauto.
  - exfalso. assert (Hin : v ∈ omap (fun i => d !! i) ids) by (apply list_elem_of_omap; eauto). destruct (omap (fun i => d !! i) ids); [set_solver|done].
Qed.
Lemma deps_time_bound d ids t hi : _deps_time d ids = Some t -> 0 <= hi -> (forall i v, d !! i = Some v -> 0 <= v <= hi) -> 0 <= t <= hi.
Proof.
  unfold _deps_time. destruct (forallb (has d) ids) eqn:E; [|done]. intros [= <-] Hhi Hd.
  destruct (zmax_list (omap (fun i => d !! i) ids)) as [m|] eqn:Em; cbn; [|lia].
  apply zmax_list_some in Em as [Hm _]. apply list_elem_of_omap in Hm as (i & _ & Hi). eauto.
Qed.
Lemma deps_time_None d ids : _deps_time d ids = None -> exists i, i ∈ ids /\ d !! i = None.
Proof.
  unfold _deps_time. destruct (forallb (has d) ids) eqn:E; [done|]. intros _. clear -E. induction ids as [|i ids IH]; [done|]. cbn in E.
  destruct (has d i) eqn:Ei; cbn in E; [|exists i; split; [set_solver|by apply has_false]]. destruct (IH E) as (j & Hj & Hn). exists j. set_solver.
Qed.

(** ** The invariant *)

Record settings_ok (cfg : settings) : Prop := {
  sk_unit : 0 < stripe_unit_bytes cfg;
  sk_targets : 0 < target_count cfg;
  sk_capacity : 0 <= cache_capacity cfg;
  sk_place : forall r t p, 0 <= p < target_count cfg -> exists at_, placement_provider cfg r t p = Ok at_ }.

(** The tasks are those of the active batches. *)
Record graph_ok (bs : list batch) (p : sched) : Prop := {
  go_wf : forall b, b ∈ bs -> wf_batch b;
  go_nodup : NoDup (all_task_ids bs);
  go_keys : NoDup (dkeys (tasks p));
  go_tasks : forall id x, dget (tasks p) id = Some x <-> exists b, b ∈ bs /\ x ∈ CausalWorkload.tasks b /\ task_id x = id;
  go_arrival : forall b x, b ∈ bs -> x ∈ CausalWorkload.tasks b -> arrival p !! task_id x = Some (CausalWorkload.arrival_ns b) }.

(** [id]s are done by [t]. *)
Definition done_by (p : sched) (ids : list string) (t : Z) : Prop := forall d, d ∈ ids -> exists v, done p !! d = Some v /\ v <= t.

(** Scheduling, when the clock shows [now], no time beyond [hi] was reported and
    [held id g] says that the read of task [id] is in flight in group [g]. *)
Record plan_ok (hi now : Z) (p : sched) (held : string -> string -> Prop) : Prop := {
  po_done : forall id t, done p !! id = Some t -> exists x, dget (tasks p) id = Some x /\ done_by p (deps x) t;
  po_time : forall id t, done p !! id = Some t -> 0 <= t <= hi;
  po_offered : forall id, id ∈ offered p -> exists x t issue consume n, dget (tasks p) id = Some x /\
    CausalWorkload.job x = CausalWorkload.Storage t issue consume n /\ done_by p issue now;
  po_status : forall id, id ∈ offered p -> is_Some (done p !! id) \/ is_Some (external_ready p !! id) \/ exists g, held id g;
  po_ready : forall id r src, external_ready p !! id = Some (r, src) -> id ∈ offered p /\ done p !! id = None /\ 0 <= r <= hi /\
    exists x t issue consume n, dget (tasks p) id = Some x /\ CausalWorkload.job x = CausalWorkload.Storage t issue consume n /\ done_by p issue r;
  po_held : forall id g, held id g -> id ∈ offered p /\ done p !! id = None /\ external_ready p !! id = None;
  po_unique : forall id g g', held id g -> held id g' -> g = g';
  po_running : forall id start finish, compute_running p = Some (id, start, finish) -> done p !! id = None /\ 0 <= start /\
    exists x d after terminal, dget (tasks p) id = Some x /\ CausalWorkload.job x = CausalWorkload.Compute d after terminal /\
      0 <= d /\ finish = start + d /\ done_by p after start;
  po_available : 0 <= compute_available_ns p <= hi }.

Lemma done_by_mono p p' ids t t' : done_by p ids t -> (forall i v, done p !! i = Some v -> done p' !! i = Some v) -> t <= t' -> done_by p' ids t'.
Proof. intros H Hd Ht i Hi. destruct (H i Hi) as (v & Hv & Hle). exists v. split; [by apply Hd|lia]. Qed.

Lemma done_by_app p l k t : done_by p (l ++ k) t <-> done_by p l t /\ done_by p k t.
Proof. unfold done_by. setoid_rewrite elem_of_app. naive_solver. Qed.

Section plan.
Context (hi now : Z) (p : sched) (held : string -> string -> Prop) (HP : plan_ok hi now p held).

(** Time passes. *)
Lemma plan_later hi' now' : hi <= hi' -> now <= now' -> plan_ok hi' now' p held.
Proof using HP.
  intros Hhi Hnow. destruct HP as [H1 H2 H3 H4 H5 H6 H7 H8 H9]. constructor; try done.
  - intros id t Ht. specialize (H2 id t Ht). lia.
  - intros id Hid. destruct (H3 id Hid) as (x & t & i & c & n & Hx & Hj & Hd). exists x, t, i, c, n. split_and!; [done..|]. by eapply done_by_mono.
  - intros id r src Hr. destruct (H5 id r src Hr) as (? & ? & ? & ?). split_and!; try done; lia.
  - lia.
Qed.

Lemma plan_held (held' : string -> string -> Prop) : (forall i g, held' i g <-> held i g) -> plan_ok hi now p held'.
Proof using HP.
  intros Hh. destruct HP as [H1 H2 H3 H4 H5 H6 H7 H8 H9]. constructor; try done.
  - intros id Hid. destruct (H4 id Hid) as [?|[?|(g & Hg)]]; [by left|by right; left|]. right. right. exists g. by apply Hh.
  - intros id g Hg%Hh. by eapply H6.
  - intros id g g' Hg%Hh Hg'%Hh. by eapply H7.
Qed.

(** A task is done. *)
Lemma plan_finish p' held' id x t : tasks p' = tasks p -> done p' = <[id := t]> (done p) -> offered p' = offered p ->
  external_ready p' = delete id (external_ready p) -> (compute_running p' = compute_running p \/ compute_running p' = None) ->
  0 <= compute_available_ns p' <= hi -> dget (tasks p) id = Some x -> done_by p (deps x) t -> done p !! id = None -> 0 <= t <= hi ->
  (forall start finish, compute_running p' <> Some (id, start, finish)) -> (forall i g, held' i g <-> held i g /\ i <> id) ->
  plan_ok hi now p' held'.
Proof using HP.
  intros Et Ed Eo Er Erun Ha Hx Hdeps Hnone Ht Hrun Hh. destruct HP as [H1 H2 H3 H4 H5 H6 H7 H8 H9].
  assert (Hmono : forall ids v, done_by p ids v -> done_by p' ids v).
  { intros ids v Hv i Hi. destruct (Hv i Hi) as (w & Hw & Hle). exists w. split; [|done]. rewrite Ed, lookup_insert_ne; [done|]. intros <-. by rewrite Hnone in Hw. }
  constructor.
  - intros i u. rewrite Ed, Et. intros [[<- <-]|[Hne Hu]]%lookup_insert_Some; [exists x; auto|]. destruct (H1 i u Hu) as (y & Hy & Hdy). exists y. auto.
  - intros i u. rewrite Ed. intros [[<- <-]|[Hne Hu]]%lookup_insert_Some; [done|]. by eapply H2.
  - intros i. rewrite Eo, Et. intros Hi. destruct (H3 i Hi) as (y & u & a & b & n & Hy & Hj & Hd). exists y, u, a, b, n. auto.
  - intros i. rewrite Eo, Ed, Er. intros Hi. destruct (decide (i = id)) as [->|Hne]; [left; rewrite lookup_insert_eq; eauto|].
    rewrite lookup_insert_ne, lookup_delete_ne by done. destruct (H4 i Hi) as [?|[?|(g & Hg)]]; [by left|by right; left|]. right. right. exists g. by apply Hh.
  - intros i r src. rewrite Er, Eo, Ed, Et. intros [Hne Hr]%lookup_delete_Some. destruct (H5 i r src Hr) as (Ho & Hn & Hle & y & u & a & b & n & Hy & Hj & Hd).
    rewrite lookup_insert_ne by done. split_and!; try done; try lia. exists y, u, a, b, n. auto.
  - intros i g [Hg Hne]%Hh. rewrite Eo, Ed, Er. rewrite lookup_insert_ne, lookup_delete_ne by done. by eapply H6.
  - intros i g g' [Hg _]%Hh [Hg' _]%Hh. by eapply H7.
  - intros i st fin Hr. destruct (decide (i = id)) as [->|Hne]; [by apply Hrun in Hr|]. destruct Erun as [E|E]; rewrite E in Hr; [|done].
    destruct (H8 i st fin Hr) as (Hn & Hst & y & d & a & b & Hy & Hj & Hd & Hf & Hb). rewrite Ed, Et. rewrite lookup_insert_ne by done. split_and!; [done..|].
    exists y, d, a, b. split_and!; auto.
  - done.
Qed.

(** A read is offered, and is then in flight in group [gid]. *)
Lemma plan_offer p' held' id gid x t issue consume n : tasks p' = tasks p -> done p' = done p -> offered p' = {[id]} ∪ offered p ->
  external_ready p' = external_ready p -> compute_running p' = compute_running p -> compute_available_ns p' = compute_available_ns p ->
  dget (tasks p) id = Some x -> CausalWorkload.job x = CausalWorkload.Storage t issue consume n -> done_by p issue now ->
  done p !! id = None -> id ∉ offered p -> (forall i g, held' i g <-> held i g \/ (i = id /\ g = gid)) -> plan_ok hi now p' held'.
Proof using HP.
  intros Et Ed Eo Er Erun Ha Hx Hj Hdeps Hnone Hnew Hh. destruct HP as [H1 H2 H3 H4 H5 H6 H7 H8 H9].
  assert (Hby : forall ids v, done_by p' ids v <-> done_by p ids v) by (intros ids v; unfold done_by; by rewrite Ed).
  constructor.
  - intros i u. rewrite Ed, Et. setoid_rewrite Hby. apply H1.
  - intros i u. rewrite Ed. apply H2.
  - intros i. rewrite Eo, Et. setoid_rewrite Hby. intros [->%elem_of_singleton|Hi]%elem_of_union; [|by apply H3]. exists x, t, issue, consume, n. auto.
  - intros i. rewrite Eo, Ed, Er. intros [->%elem_of_singleton|Hi]%elem_of_union.
    + right. right. exists gid. apply Hh. auto.
    + destruct (H4 i Hi) as [?|[?|(g & Hg)]]; [by left|by right; left|]. right. right. exists g. apply Hh. auto.
  - intros i r src. rewrite Er, Eo, Ed, Et. setoid_rewrite Hby. intros Hr. destruct (H5 i r src Hr) as (Ho & Hn & Hle & Hrest). split_and!; try done; try lia. set_solver.
  - intros i g Hg. rewrite Eo, Ed, Er. apply Hh in Hg as [Hg|[-> ->]].
    + destruct (H6 i g Hg) as (? & ? & ?). split_and!; [set_solver|done..].
    + split_and!; [set_solver|done|]. destruct (external_ready p !! id) as [[r src]|] eqn:E; [|done]. apply H5 in E as (? & _). done.
  - assert (Hno : forall g, ~ held id g) by (intros g Hg; by apply H6 in Hg as (? & _)).
    intros i g g' [Hg|[-> ->]]%Hh [Hg'|[E ->]]%Hh; [by eapply H7|subst; by apply Hno in Hg|by apply Hno in Hg'|done].
  - intros i st fin. rewrite Erun, Ed, Et. setoid_rewrite Hby. apply H8.
  - by rewrite Ha.
Qed.

(** A read is offered and delivered at [r], but not consumed yet; or a read in
    flight is. *)
Lemma plan_deliver p' held' id x t issue consume n r src : tasks p' = tasks p -> done p' = done p -> offered p' = {[id]} ∪ offered p ->
  external_ready p' = <[id := (r, src)]> (external_ready p) -> compute_running p' = compute_running p ->
  compute_available_ns p' = compute_available_ns p ->
  dget (tasks p) id = Some x -> CausalWorkload.job x = CausalWorkload.Storage t issue consume n -> done_by p issue now -> 0 <= now ->
  done p !! id = None -> now <= r <= hi -> (forall i g, held' i g <-> held i g /\ i <> id) -> plan_ok hi now p' held'.
Proof using HP.
  intros Et Ed Eo Er Erun Ha Hx Hj Hdeps H0 Hnone Hr Hh. destruct HP as [H1 H2 H3 H4 H5 H6 H7 H8 H9].
  assert (Hby : forall ids v, done_by p' ids v <-> done_by p ids v) by (intros ids v; unfold done_by; by rewrite Ed).
  constructor.
  - intros i u. rewrite Ed, Et. setoid_rewrite Hby. apply H1.
  - intros i u. rewrite Ed. apply H2.
  - intros i. rewrite Eo, Et. setoid_rewrite Hby. intros [->%elem_of_singleton|Hi]%elem_of_union; [|by apply H3]. exists x, t, issue, consume, n. auto.
  - intros i. rewrite Eo, Ed, Er. destruct (decide (i = id)) as [->|Hne]; [intros _; right; left; rewrite lookup_insert_eq; eauto|].
    rewrite lookup_insert_ne by done. intros [?%elem_of_singleton|Hi]%elem_of_union; [done|].
    destruct (H4 i Hi) as [?|[?|(g & Hg)]]; [by left|by right; left|]. right. right. exists g. apply Hh. auto.
  - intros i r' src'. rewrite Er, Eo, Ed, Et. setoid_rewrite Hby. intros [[<- [= <- <-]]|[Hne Hr']]%lookup_insert_Some.
    + split_and!; [set_solver|done|lia|lia|]. exists x, t, issue, consume, n. split_and!; [done..|]. eapply done_by_mono; [done|auto|lia].
    + destruct (H5 i r' src' Hr') as (Ho & Hn & Hle & Hrest). split_and!; try done; try lia. set_solver.
  - intros i g [Hg Hne]%Hh. rewrite Eo, Ed, Er. rewrite lookup_insert_ne by done. destruct (H6 i g Hg) as (? & ? & ?). split_and!; [set_solver|done..].
  - intros i g g' [Hg _]%Hh [Hg' _]%Hh. by eapply H7.
  - intros i st fin. rewrite Erun, Ed, Et. setoid_rewrite Hby. apply H8.
  - by rewrite Ha.
Qed.

(** The compute resource starts a task. *)
Lemma plan_start p' id x d after terminal start : tasks p' = tasks p -> done p' = done p -> offered p' = offered p ->
  external_ready p' = external_ready p -> compute_running p' = Some (id, start, start + d) -> compute_available_ns p' = compute_available_ns p ->
  dget (tasks p) id = Some x -> CausalWorkload.job x = CausalWorkload.Compute d after terminal -> 0 <= d -> 0 <= start -> done_by p after start ->
  done p !! id = None -> plan_ok hi now p' held.
Proof using HP.
  intros Et Ed Eo Er Erun Ha Hx Hj Hd Hst Hdeps Hnone. destruct HP as [H1 H2 H3 H4 H5 H6 H7 H8 H9].
  assert (Hby : forall ids v, done_by p' ids v <-> done_by p ids v) by (intros ids v; unfold done_by; by rewrite Ed).
  constructor; rewrite ?Et, ?Ed, ?Eo, ?Er, ?Ha; try (setoid_rewrite Hby); try done.
  intros i st fin. rewrite Erun. intros [= <- <- <-]. split_and!; [done..|]. exists x, d, after, terminal. auto.
Qed.
End plan.

Definition held (f : store) (id gid : string) : Prop := exists g, groups f !! gid = Some g /\ id ∈ task_ids g.

(** The identifier of a group and its fields. *)
Definition named (gid : string) (g : group) : Prop :=
  match content g with
  | ReadGroup _ => (exists id, gid = read_group_id id /\ id ∈ task_ids g /\ CausalWorkload.plain_id id = true)
  | FillGroup => (exists n, gid = fill_id (g_tensor g) n) /\ task_ids g = []
  | MigrationGroup x => gid = phase_id (x_tensor x) (x_phase x) /\ g_tensor g = x_tensor x /\ g_bytes g = x_bytes x /\ task_ids g = []
  end.

(** Jobs and groups in flight. *)
Record flight_ok (f : store) : Prop := {
  fo_job : forall j gid, job_group f !! j = Some gid -> exists g, groups f !! gid = Some g /\ j ∈ pending g;
  fo_pending : forall gid g j, groups f !! gid = Some g -> j ∈ pending g -> job_group f !! j = Some gid /\ exists a p, j = job_name gid a p;
  fo_bytes : forall j, is_Some (job_bytes f !! j) <-> is_Some (job_group f !! j);
  fo_arrival : forall j, is_Some (job_arrival f !! j) <-> is_Some (job_group f !! j);
  fo_tensor : forall t gid, pending_tensor f !! t = Some gid -> exists g r, groups f !! gid = Some g /\ content g = ReadGroup r /\ g_tensor g = t;
  fo_named : forall gid g, groups f !! gid = Some g -> named gid g;
  fo_distinct : forall gid g, groups f !! gid = Some g -> NoDup (task_ids g);
  fo_size : forall gid g, groups f !! gid = Some g -> 0 < g_bytes g }.

(** Every group waits for a job, but possibly the groups [ex]; a read group can
    be retried. *)
Definition busy (ex : list string) (f : store) : Prop := forall gid g, groups f !! gid = Some g -> gid ∉ ex ->
  pending g <> ∅ /\ match content g with ReadGroup r => retry_parts r <> [] | _ => True end.

(** The reads in flight completed no part after [hi]. *)
Definition reads_by (hi : Z) (f : store) : Prop := forall gid g r, groups f !! gid = Some g -> content g = ReadGroup r -> completion_ns g <= hi.

(** Fills that are reserved, and hits that are pinned. *)
Record cache_ok (cfg : settings) (c : cache_state) (f : store) : Prop := {
  ko_sum : cache_bytes c = zsum (dvals (cache c));
  ko_keys : NoDup (dkeys (cache c));
  ko_reserved : NoDup (dkeys (cache_reservations c));
  ko_positive : forall t n, dget (cache c) t = Some n -> 0 < n;
  ko_capacity : cache_bytes c + zsum (dvals (cache_reservations c)) <= cache_capacity cfg;
  ko_mode : caching cfg <> ExternalHbm -> cache_reservations c = [] /\ forall gid g, groups f !! gid = Some g -> is_hit g = false;
  ko_fill : forall t n, dget (cache_reservations c) t = Some n <->
    exists gid g, groups f !! gid = Some g /\ content g = FillGroup /\ g_tensor g = t /\ g_bytes g = n;
  ko_unique : forall gid g gid' g', groups f !! gid = Some g -> groups f !! gid' = Some g' -> content g = FillGroup -> content g' = FillGroup ->
    g_tensor g = g_tensor g' -> gid = gid';
  ko_apart : forall t, is_Some (dget (cache_reservations c) t) -> dget (cache c) t = None;
  ko_hit : forall gid g, groups f !! gid = Some g -> is_hit g = true -> is_Some (dget (cache c) (g_tensor g)) }.

Definition moving (f : store) (gid : string) (x : transfer) : Prop := exists g, groups f !! gid = Some g /\ content g = MigrationGroup x.

Definition phase_ok (v : moves) (x : transfer) : Prop :=
  pending_migrations v !! x_tensor x = Some (root_id x) /\ root_id x = "causal:migration:" +:+ x_tensor x /\ 0 < x_bytes x /\
  match x_phase x with
  | MigrationSource | MigrationDestination => expected_version x = default 0 (tensor_versions v !! x_tensor x)
  | MigrationEraseOld => tensor_tier v !! x_tensor x = Some Fast
  | MigrationEraseDestination => False
  end.

(** Migrations in flight, and the erases that wait. *)
Record moves_ok (cfg : settings) (v : moves) (waiting_ : list transfer) (f : store) : Prop := {
  mo_group : forall gid x, moving f gid x -> phase_ok v x;
  mo_waiting : forall x, x ∈ waiting_ -> phase_ok v x /\ x_phase x = MigrationEraseOld;
  mo_distinct : NoDup (x_tensor <$> waiting_);
  mo_apart : forall gid x, moving f gid x -> x_tensor x ∉ x_tensor <$> waiting_;
  mo_unique : forall gid x gid' x', moving f gid x -> moving f gid' x' -> x_tensor x = x_tensor x' -> gid = gid';
  mo_erase : forall gid x gid' g, moving f gid x -> x_phase x = MigrationEraseOld -> groups f !! gid' = Some g -> reads_source (x_tensor x) g = false;
  mo_counted : forall t, is_Some (access_count v !! t) -> is_Some (tensor_specs v !! t);
  mo_read : forall gid g r, groups f !! gid = Some g -> content g = ReadGroup r -> is_Some (tensor_specs v !! g_tensor g);
  mo_positive : forall t sp, tensor_specs v !! t = Some sp -> 0 < CausalWorkload.bytes sp;
  mo_used : migration_used_bytes v <= Z.max 0 (migration_capacity_bytes cfg) }.

(** Every tensor of an active task has a specification. *)
Definition specs_ok (p : sched) (v : moves) : Prop := forall id x t issue consume n, dget (tasks p) id = Some x ->
  CausalWorkload.job x = CausalWorkload.Storage t issue consume n -> is_Some (tensor_specs v !! CausalWorkload.tensor_id t).

Record exec_inv (cfg : settings) (hi : Z) (s : executor) : Prop := {
  xi_time : 0 <= now_ns s <= hi;
  xi_graph : graph_ok (CausalWorkload.batches (current s)) (plan s);
  xi_plan : plan_ok hi (now_ns s) (plan s) (held (flight s));
  xi_flight : flight_ok (flight s);
  xi_busy : busy [] (flight s);
  xi_reads : reads_by hi (flight s);
  xi_cache : cache_ok cfg (kept s) (flight s);
  xi_moves : moves_ok cfg (moved s) (deferred_source_erase (moved s)) (flight s);
  xi_specs : specs_ok (plan s) (moved s) }.

(** ** Consuming reads and computing *)

(** Only the plan and the log changed, and the tasks stay. *)
Record replanned (s s' : executor) : Prop := {
  rp_current : current s' = current s;
  rp_now : now_ns s' = now_ns s;
  rp_tasks : tasks (plan s') = tasks (plan s);
  rp_arrival : arrival (plan s') = arrival (plan s);
  rp_flight : flight s' = flight s;
  rp_kept : kept s' = kept s;
  rp_moved : moved s' = moved s;
  rp_deferred : deferred_jobs (out s') = deferred_jobs (out s) }.
#[export] Instance replanned_refl : Reflexive replanned.
Proof. by constructor. Qed.
#[export] Instance replanned_trans : Transitive replanned.
Proof. intros s1 s2 s3 [] []. constructor; congruence. Qed.

Definition no_fault : exn -> executor -> Prop := fun _ _ => False.
Notation wp := (wp no_fault).

Lemma replanned_inv cfg hi hi' s s' : exec_inv cfg hi s -> replanned s s' -> hi <= hi' -> plan_ok hi' (now_ns s) (plan s') (held (flight s)) ->
  exec_inv cfg hi' s'.
Proof.
  intros [] [] Hle HP. constructor; rewrite ?rp_current0, ?rp_now0, ?rp_flight0, ?rp_kept0, ?rp_moved0; try done; [lia| | |].
  - destruct xi_graph0. constructor; rewrite ?rp_tasks0, ?rp_arrival0; done.
  - intros gid g r Hg Hr. specialize (xi_reads0 gid g r Hg Hr). lia.
  - unfold specs_ok in *. rewrite rp_tasks0. done.
Qed.

(** Nothing is left to consume: every delivered read waits for a dependency, and
    the running computation ends after [now]. *)
Definition settled (now : Z) (p : sched) : Prop :=
  (forall id r src x, external_ready p !! id = Some (r, src) -> dget (tasks p) id = Some x ->
     exists after, consume_after x = Ok after /\ _deps_time (done p) after = None) /\
  (forall id start finish, compute_running p = Some (id, start, finish) -> now < finish).

Section resolve.
Context (hi now : Z) (s0 : executor).

Definition resolving (s : executor) : Prop :=
  replanned s0 s /\ plan_ok hi (now_ns s0) (plan s) (held (flight s0)) /\ NoDup (dkeys (tasks (plan s0))).

Lemma settle_ok s : now <= hi -> resolving s ->
  wp (_settle_compute now) (fun _ s' => resolving s' /\ external_ready (plan s') = external_ready (plan s) /\
    (forall id start finish, compute_running (plan s') = Some (id, start, finish) -> now < finish)) s.
Proof using.
  intros Hnow (HR & HP & Hnd). unfold _settle_compute. wp_step. wp_step. destruct (compute_running (plan s)) as [[[id start] finish]|] eqn:Erun.
  2:{ wp_step. split_and!; [done..|]. by rewrite Erun. }
  destruct (Z.leb_spec finish now) as [Hle|Hgt].
  2:{ wp_step. split_and!; [done..|]. rewrite Erun. by intros ? ? ? [= <- <- <-]. }
  destruct (po_running _ _ _ _ HP _ _ _ Erun) as (Hn & Hst & x & d & after & term & Hx & Hj & Hd & -> & Hby).
  assert (Hnr : external_ready (plan s) !! id = None).
  { destruct (external_ready (plan s) !! id) as [[r src]|] eqn:E; [|done]. apply (po_ready _ _ _ _ HP) in E as (_ & _ & _ & y & t & i & c & n & Hy & Hjy & _).
    rewrite Hx in Hy. injection Hy as <-. by rewrite Hj in Hjy. }
  assert (Hnh : forall g, ~ held (flight s0) id g).
  { intros g Hg. apply (po_held _ _ _ _ HP) in Hg as (Ho & _). apply (po_offered _ _ _ _ HP) in Ho as (y & t & i & c & n & Hy & Hjy & _).
    rewrite Hx in Hy. injection Hy as <-. by rewrite Hj in Hjy. }
  unfold mark_done, emit. wp_steps. split_and!.
  - split_and!; [|eapply (plan_finish _ _ _ _ HP _ (held (flight s0)) id x (start + d)); cbn; try done|done].
    + etransitivity; [exact HR|]. by constructor.
    + by rewrite delete_id.
    + by right.
    + lia.
    + intros i Hi. unfold CausalWorkload.deps in Hi. rewrite Hj in Hi. destruct (Hby i Hi) as (v & Hv & Hle'). exists v. split; [done|lia].
    + lia.
    + intros i g. split; [|by intros [? _]]. intros Hg. split; [done|]. intros ->. by apply Hnh in Hg.
  - done.
  - done.
Qed.

(** How many tasks of a list were delivered and are not consumed. *)
Definition ready_count (p : sched) (l : dict string task) : nat := length (List.filter (fun item => has (external_ready p) item.1) l).

Lemma ready_count_le p l : (ready_count p l <= length l)%nat.
Proof using. unfold ready_count. apply List.filter_length_le. Qed.

Lemma resolve_task_ok s changed id x : now_ns s0 <= hi -> resolving s -> dget (tasks (plan s0)) id = Some x ->
  wp (resolve_task changed (id, x)) (fun changed' s' => resolving s' /\ compute_running (plan s') = compute_running (plan s) /\
    ((changed' = changed /\ plan s' = plan s /\ (forall r src, external_ready (plan s) !! id = Some (r, src) ->
        exists after, consume_after x = Ok after /\ _deps_time (done (plan s)) after = None)) \/
     (changed' = true /\ is_Some (external_ready (plan s) !! id) /\ external_ready (plan s') = delete id (external_ready (plan s))))) s.
Proof using.
  intros Hhi (HR & HP & Hnd) Hx. rewrite <- (rp_tasks _ _ HR) in Hx. unfold resolve_task. wp_step. wp_step.
  destruct (external_ready (plan s) !! id) as [[r src]|] eqn:Er.
  2:{ destruct (done (plan s) !! id); wp_step; (split; [done|split; [done|]]); left; split_and!; done. }
  destruct (po_ready _ _ _ _ HP _ _ _ Er) as (Ho & Hn & Hr & y & t & issue & consume & n & Hy & Hj & Hby). rewrite Hx in Hy. injection Hy as <-.
  rewrite Hn. unfold consume_after at 1. rewrite Hj. wp_step. eapply wp_lift; [done|]. cbn beta.
  destruct (_deps_time (done (plan s)) consume) as [c|] eqn:Ec.
  2:{ wp_step. split; [done|split; [done|]]. left. split_and!; [done..|]. intros r' src' [= <- <-]. exists consume. unfold consume_after. by rewrite Hj. }
  unfold mark_done, emit. wp_steps. split; [|split; [done|]].
  - pose proof (deps_time_bound _ _ _ hi Ec ltac:(pose proof (po_available _ _ _ _ HP); lia) (po_time _ _ _ _ HP)) as Hc.
    split_and!; [etransitivity; [exact HR|]; by constructor| |done].
    eapply (plan_finish _ _ _ _ HP _ (held (flight s0)) id x (Z.max r c)); cbn; try done.
    + by left.
    + apply (po_available _ _ _ _ HP).
    + unfold CausalWorkload.deps. rewrite Hj. apply done_by_app. split; [eapply done_by_mono; [exact Hby|auto|lia]|].
      intros i Hi. destruct (deps_time_Some _ _ _ Ec i Hi) as (v & Hv & Hle). exists v. split; [done|lia].
    + lia.
    + intros st fin E. destruct (po_running _ _ _ _ HP _ _ _ E) as (_ & _ & y & d & a & b & Hy & Hjy & _). rewrite Hx in Hy. injection Hy as <-. by rewrite Hj in Hjy.
    + intros i g. split; [|by intros [? _]]. intros Hg. split; [done|]. intros ->. apply (po_held _ _ _ _ HP) in Hg as (_ & _ & E). by rewrite Er in E.
  - right. split_and!; [done| |done]. done.
Qed.
End resolve.

Lemma ready_count_mono p p' l : (forall id, is_Some (external_ready p' !! id) -> is_Some (external_ready p !! id)) -> (ready_count p' l <= ready_count p l)%nat.
Proof.
  intros H. unfold ready_count. induction l as [|[id x] l IH]; [done|]. cbn [List.filter fst].
  destruct (has (external_ready p') id) eqn:E'.
  - apply has_true, H, has_true in E' as ->. cbn [length]. lia.
  - destruct (has (external_ready p) id); cbn [length]; lia.
Qed.
Lemma ready_count_delete p p' l id x : external_ready p' = delete id (external_ready p) -> is_Some (external_ready p !! id) -> (id, x) ∈ l ->
  (ready_count p' l < ready_count p l)%nat.
Proof.
  intros E Hs Hin. assert (Hmono : forall k, (ready_count p' k <= ready_count p k)%nat).
  { intros k. apply ready_count_mono. intros i. rewrite E. intros [v Hv]. apply lookup_delete_Some in Hv as [_ Hv]. eauto. }
  apply list_elem_of_split in Hin as (l1 & l2 & ->). unfold ready_count in *. rewrite !List.filter_app, !length_app. cbn.
  assert (H1 : has (external_ready p) id = true) by by apply has_true. assert (H2 : has (external_ready p') id = false) by (apply has_false; rewrite E; apply lookup_delete_eq).
  rewrite H1, H2. cbn. pose proof (Hmono l1). pose proof (Hmono l2). lia.
Qed.

Section resolve_loop.
Context (hi now : Z) (s0 : executor).
Notation resolving := (resolving hi s0).
Notation count s := (ready_count (plan s) (tasks (plan s0))).

Lemma resolve_fold_ok s1 : now_ns s0 <= hi -> resolving s1 ->
  wp (foldS resolve_task (tasks (plan s0)) false) (fun changed s' => resolving s' /\ compute_running (plan s') = compute_running (plan s1) /\
    (if changed then (count s' < count s1)%nat
     else plan s' = plan s1 /\ forall id r src x, external_ready (plan s1) !! id = Some (r, src) -> (id, x) ∈ tasks (plan s0) ->
       exists after, consume_after x = Ok after /\ _deps_time (done (plan s1)) after = None)) s1.
Proof using.
  intros Hhi Hs1.
  apply (wp_foldS (fun visited changed s' => resolving s' /\ compute_running (plan s') = compute_running (plan s1) /\
    (if changed : bool then (count s' < count s1)%nat
     else plan s' = plan s1 /\ forall id r src x, external_ready (plan s1) !! id = Some (r, src) -> (id, x) ∈ visited ->
       exists after, consume_after x = Ok after /\ _deps_time (done (plan s1)) after = None))).
  - split_and!; [done..|]. intros id r src x _ Hin. by apply not_elem_of_nil in Hin.
  - intros visited [id x] todo changed s Hl (HR & Hrun & Hc).
    assert (Hin : (id, x) ∈ tasks (plan s0)) by (rewrite Hl; set_solver).
    assert (Hx : dget (tasks (plan s0)) id = Some x) by (apply dget_elem; [apply HR|done]).
    eapply wp_mono; [by apply (resolve_task_ok hi s0)|]. intros changed' s' (HR' & Hrun' & Hcase). split; [done|]. split; [congruence|].
    destruct Hcase as [(-> & Hp & Hset)|(-> & Hs & Hdel)].
    + destruct changed; [by rewrite Hp|]. destruct Hc as [Hc1 Hc2]. split; [congruence|]. intros i r src y Hr [Hy|Hy]%elem_of_app; [by eapply Hc2|].
      apply list_elem_of_singleton in Hy as [= -> ->]. rewrite <- Hc1. apply (Hset r src). by rewrite Hc1.
    + pose proof (ready_count_delete _ _ _ _ _ Hdel Hs Hin). destruct changed; [lia|]. destruct Hc as [<- _]. done.
Qed.

Lemma resolve_loop_ok s : now_ns s0 <= hi -> now <= hi -> resolving s ->
  wp (loop (S (length (tasks (plan s0)))) (resolve_round now)) (fun _ s' => resolving s' /\ settled now (plan s')) s.
Proof using.
  intros Hhi Hnow Hs. apply (wp_loop resolving (fun s => count s)); [|done|pose proof (ready_count_le (plan s) (tasks (plan s0))); lia].
  clear s Hs. intros s Hs. unfold resolve_round. wp_step. eapply wp_mono; [by apply (settle_ok hi now s0)|]. intros [] s1 (Hs1 & Hr1 & Hrun). wp_steps.
  rewrite (rp_tasks _ _ (proj1 Hs1)). eapply wp_mono; [by apply resolve_fold_ok|]. intros changed s2 (Hs2 & Hrun2 & Hc). wp_step.
  assert (Hcount : count s1 = count s) by (unfold ready_count; by rewrite Hr1).
  destruct changed; [split; [done|lia]|]. destruct Hc as [Hp Hset]. split; [done|]. split.
  - intros id r src x Hr Hx. rewrite Hp in Hr, Hx |- *. apply (Hset id r src x Hr). rewrite (rp_tasks _ _ (proj1 Hs1)) in Hx. by apply dget_Some_elem.
  - intros id start finish E. apply (Hrun id start). congruence.
Qed.
End resolve_loop.

Lemma resolve_ok cfg hi now s : exec_inv cfg hi s -> 0 <= now ->
  wp (_resolve_ready_storage now) (fun _ s' => exec_inv cfg (Z.max hi now) s' /\ replanned s s' /\ settled now (plan s')) s.
Proof.
  intros Hinv H0. pose proof (xi_time _ _ _ Hinv). unfold _resolve_ready_storage. wp_step. wp_step.
  eapply wp_mono; [apply (resolve_loop_ok (Z.max hi now) now s s); [lia|lia|]|].
  - split_and!; [done| |apply (xi_graph _ _ _ Hinv)]. eapply plan_later; [apply (xi_plan _ _ _ Hinv)|lia|lia].
  - intros [] s' [(HR & HP & _) Hset]. split_and!; [|done..]. eapply (replanned_inv cfg hi (Z.max hi now)); [done..|lia|done].
Qed.

(** ** Starting a computation *)

Lemma graph_task bs p id x : graph_ok bs p -> dget (tasks p) id = Some x -> exists b, b ∈ bs /\ x ∈ CausalWorkload.tasks b /\ task_id x = id /\
  arrival p !! id = Some (CausalWorkload.arrival_ns b) /\ CausalWorkload.positive_work x /\ CausalWorkload.plain_id id = true.
Proof.
  intros HG Hx. apply (go_tasks _ _ HG) in Hx as (b & Hb & Hxb & <-). pose proof (go_wf _ _ HG b Hb) as Hw. exists b. split_and!; [done..| | |].
  - by apply (go_arrival _ _ HG).
  - by apply (CausalWorkload.wb_work _ Hw).
  - by apply (CausalWorkload.wb_plain _ Hw).
Qed.

Lemma eligible_ok bs p id x ids : graph_ok bs p -> dget (tasks p) id = Some x ->
  exists a, arrival p !! id = Some a /\ eligible_at p id ids = Ok ((fun ready => Z.max ready a) <$> _deps_time (done p) ids).
Proof.
  intros HG Hx. destruct (graph_task _ _ _ _ HG Hx) as (b & _ & _ & _ & Ha & _). exists (CausalWorkload.arrival_ns b). split; [done|].
  unfold eligible_at. destruct (_deps_time (done p) ids); [|done]. unfold gindex. by rewrite Ha.
Qed.

(** A computation that could start: its dependencies and its batch are there. *)
Definition startable (p : sched) (now : Z) (id : string) : Prop := exists x d after terminal a, dget (tasks p) id = Some x /\
  CausalWorkload.job x = CausalWorkload.Compute d after terminal /\ done p !! id = None /\ done_by p after now /\ arrival p !! id = Some a /\ a <= now.

Lemma compute_candidate_ok bs p now item : graph_ok bs p -> item ∈ tasks p -> (forall i v, done p !! i = Some v -> 0 <= v) -> 0 <= now ->
  exists l, compute_candidate p now item = Ok l /\ forall t id, (t, id) ∈ l <-> id = item.1 /\ startable p now id /\
    exists d after terminal a, CausalWorkload.job item.2 = CausalWorkload.Compute d after terminal /\ arrival p !! id = Some a /\
      exists r, _deps_time (done p) after = Some r /\ t = Z.max r a.
Proof.
  intros HG Hin Hpos H0. destruct item as [id x]. assert (Hx : dget (tasks p) id = Some x) by (apply dget_elem; [apply HG|done]). unfold compute_candidate. cbn.
  destruct (CausalWorkload.job x) as [t issue consume n|d after term] eqn:Hj.
  { exists []. split; [done|]. intros t' i. split; [intros Hi; by apply not_elem_of_nil in Hi|]. intros (_ & _ & d & after & term & a & E & _). done. }
  destruct (has (done p) id) eqn:Hd.
  { exists []. split; [done|]. intros t i. split; [intros Hi; by apply not_elem_of_nil in Hi|]. intros (-> & (y & d' & a' & tm & a & Hy & _ & Hn & _) & _).
    apply has_true in Hd as [v Hv]. by rewrite Hn in Hv. }
  apply has_false in Hd. destruct (eligible_ok bs p id x after HG Hx) as (a & Ha & ->). cbn [rbind].
  eexists. split; [done|]. intros t i. destruct (_deps_time (done p) after) as [r|] eqn:Er; cbn.
  2:{ split; [intros Hi; by apply not_elem_of_nil in Hi|]. intros (-> & _ & d' & a' & tm & b & [= <- <- <-] & _ & r & E & _). by rewrite Er in E. }
  destruct (Z.leb_spec (Z.max r a) now) as [Hle|Hgt].
  - rewrite list_elem_of_singleton. split; [intros [= -> ->]|].
    + split_and!; [done| |].
      * exists x, d, after, term, a. split_and!; [done..| |done|lia]. intros k Hk. destruct (deps_time_Some _ _ _ Er k Hk) as (v & Hv & Hvr). exists v. split; [done|lia].
      * exists d, after, term, a. split_and!; [done..|]. exists r. done.
    + intros (-> & _ & d' & a' & tm & b & [= <- <- <-] & Hb & r' & E & ->). rewrite Er in E. injection E as <-. rewrite Ha in Hb. by injection Hb as <-.
  - split; [intros Hi; by apply not_elem_of_nil in Hi|]. intros (-> & (y & d' & a' & tm & b & Hy & Hj' & Hn & Hby & Hb & Hba) & _). exfalso.
    rewrite Hx in Hy. injection Hy as <-. rewrite Hj in Hj'. injection Hj' as <- <- <-. rewrite Ha in Hb. injection Hb as <-.
    assert (r <= now); [|lia]. unfold _deps_time in Er. destruct (forallb (has (done p)) after); [|done]. injection Er as <-.
    destruct (zmax_list (omap (fun i => done p !! i) after)) as [m|] eqn:Em; cbn; [|lia]. apply zmax_list_some in Em as [Hm _].
    apply list_elem_of_omap in Hm as (k & Hk & Hkm). destruct (Hby k Hk) as (v & Hv & Hle). congruence.
Qed.

Lemma mapR_concat {A B} (f : A -> result (list B)) l ls y : mapR f l = Ok ls -> y ∈ concat ls <-> exists x k, x ∈ l /\ f x = Ok k /\ y ∈ k.
Proof.
  rewrite mapR_Ok. induction 1 as [|x k l ls Hx _ IH]; cbn.
  - split; [intros H; by apply not_elem_of_nil in H|]. intros (x & k & H & _). by apply not_elem_of_nil in H.
  - rewrite elem_of_app, IH. split.
    + intros [Hy|(x' & k' & Hx' & Hk & Hy)]; [exists x, k; set_solver|exists x', k'; set_solver].
    + intros (x' & k' & [->|Hx']%elem_of_cons & Hk & Hy); [|eauto 10]. rewrite Hx in Hk. injection Hk as <-. by left.
Qed.

Lemma start_compute_ok cfg hi now s : exec_inv cfg hi s -> 0 <= now ->
  wp (_start_compute now) (fun _ s' => exec_inv cfg hi s' /\ replanned s s' /\ done (plan s') = done (plan s) /\
    offered (plan s') = offered (plan s) /\ external_ready (plan s') = external_ready (plan s) /\
    (compute_running (plan s') = None -> existsb blocking (group_list (flight s')) = true \/ forall id, ~ startable (plan s') now id)) s.
Proof.
  intros Hinv H0. unfold _start_compute. wp_step. wp_step. destruct (compute_running (plan s)) as [[[rid st] fin]|] eqn:Erun.
  { wp_step. split_and!; [done|reflexivity|done..|]. by rewrite Erun. }
  destruct (existsb blocking (group_list (flight s))) eqn:Eb.
  { wp_step. split_and!; [done|reflexivity|done..|]. by left. }
  pose proof (xi_graph _ _ _ Hinv) as HG. pose proof (xi_plan _ _ _ Hinv) as HP.
  assert (Hcand : forall item, item ∈ tasks (plan s) -> exists l, compute_candidate (plan s) now item = Ok l /\ forall t id, (t, id) ∈ l <->
      id = item.1 /\ startable (plan s) now id /\ exists d after terminal a, CausalWorkload.job item.2 = CausalWorkload.Compute d after terminal /\
        arrival (plan s) !! id = Some a /\ exists r, _deps_time (done (plan s)) after = Some r /\ t = Z.max r a).
  { intros item Hin. apply (compute_candidate_ok _ _ _ _ HG Hin); [|done]. intros i v Hv. apply (po_time _ _ _ _ HP) in Hv. lia. }
  destruct (mapR_total (compute_candidate (plan s) now) (tasks (plan s))) as [ls Hls]; [intros item Hin; destruct (Hcand item Hin) as (l & Hl & _); eauto|].
  wp_step. eapply wp_lift; [exact Hls|]. cbn beta.
  destruct (isort (lex zle sle) (concat ls)) as [|[t id] rest] eqn:Es.
  - wp_step. split_and!; [done|reflexivity|done..|]. intros _. right. intros id Hst. pose proof Hst as (x & d & after & term & a & Hx & Hj & Hn & Hby & Ha & Hle).
    assert (Hr : exists r, _deps_time (done (plan s)) after = Some r).
    { destruct (_deps_time (done (plan s)) after) as [r|] eqn:E; [eauto|]. apply deps_time_None in E as (i & Hi & Hni). destruct (Hby i Hi) as (v & Hv & _). by rewrite Hni in Hv. }
    destruct Hr as [r Hr]. pose proof (dget_Some_elem _ _ _ Hx) as Hin. destruct (Hcand (id, x) Hin) as (l & Hl & Hiff).
    assert (Hmem : (Z.max r a, id) ∈ concat ls).
    { apply (mapR_concat _ _ _ _ Hls). exists (id, x), l. split_and!; [done..|]. apply Hiff. split_and!; [done..|]. exists d, after, term, a. split_and!; [done..|]. eauto. }
    apply (isort_elem (lex zle sle)) in Hmem. rewrite Es in Hmem. by apply not_elem_of_nil in Hmem.
  - assert (Hmem : (t, id) ∈ concat ls) by (apply (isort_elem (lex zle sle)); rewrite Es; set_solver).
    apply (mapR_concat _ _ _ _ Hls) in Hmem as ([id' x'] & l & Hin & Hl & Hmem). destruct (Hcand _ Hin) as (l' & Hl' & Hiff).
    rewrite Hl in Hl'. injection Hl' as <-. apply Hiff in Hmem as (-> & (x & d & after & term & a & Hx & Hj & Hn & Hby & Ha & Hle) & _). cbn [fst] in *.
    assert (Hd : 0 <= d).
    { destruct (graph_task _ _ _ _ HG Hx) as (b & _ & _ & _ & _ & Hw & _). unfold CausalWorkload.positive_work in Hw. rewrite Hj in Hw. lia. }
    wp_step. eapply wp_lift; [rewrite (proj2 (dindex_Ok _ _ _) Hx); cbn [rbind]; unfold duration; by rewrite Hj|]. cbn beta. unfold emit. wp_steps.
    match goal with |- exec_inv _ _ ?s' /\ _ => set (s1 := s') end. assert (HR : replanned s s1) by by constructor. split_and!; [|done..].
    eapply (replanned_inv cfg hi hi s s1); [done..|lia|]. pose proof (po_available _ _ _ _ HP).
    eapply (plan_start _ _ _ _ HP _ id' x d after term (Z.max now (compute_available_ns (plan s)))); try done; [lia|]. eapply done_by_mono; [exact Hby|auto|lia].
Qed.

(** ** Opening the parts of a group *)

(** The content of a group, up to its retries. *)
Definition same_content (c c' : payload) : Prop :=
  match c, c' with
  | ReadGroup r, ReadGroup r' => cache_hit r' = cache_hit r /\ from r' = from r /\ blocks_compute r' = blocks_compute r /\
      (retry_parts r <> [] -> retry_parts r' <> [])
  | _, _ => c' = c
  end.
#[export] Instance same_content_refl : Reflexive same_content.
Proof. by intros [r| |x]. Qed.
#[export] Instance same_content_trans : Transitive same_content.
Proof. intros [r| |x] [r'| |x'] [r''| |x'']; cbn; try congruence. intros (?&?&?&?) (?&?&?&?). split_and!; [congruence..|auto]. Qed.

Definition grown (names : list string) (g g' : group) : Prop :=
  task_ids g' = task_ids g /\ completion_ns g' = completion_ns g /\ g_tensor g' = g_tensor g /\ g_bytes g' = g_bytes g /\
  pending g' = list_to_set names ∪ pending g /\ same_content (content g) (content g').

(** The jobs [names] were registered in group [gid]. *)
Record opened (gid : string) (g : group) (names : list string) (s s' : executor) : Prop := {
  od_current : current s' = current s;
  od_now : now_ns s' = now_ns s;
  od_plan : plan s' = plan s;
  od_kept : kept s' = kept s;
  od_moved : moved s' = moved s;
  od_tensor : pending_tensor (flight s') = pending_tensor (flight s);
  od_group : exists g', groups (flight s') = <[gid := g']> (groups (flight s)) /\ grown names g g';
  od_job : forall j, job_group (flight s') !! j = if decide (j ∈ names) then Some gid else job_group (flight s) !! j;
  od_bytes : forall j, is_Some (job_bytes (flight s') !! j) <-> j ∈ names \/ is_Some (job_bytes (flight s) !! j);
  od_arrival : forall j, is_Some (job_arrival (flight s') !! j) <-> j ∈ names \/ is_Some (job_arrival (flight s) !! j) }.

Lemma opened_nil gid g s : groups (flight s) !! gid = Some g -> opened gid g [] s s.
Proof.
  intros Hg. constructor; try done; try (intros j; set_solver).
  exists g. split; [by rewrite insert_id|]. unfold grown. split_and!; try done. set_solver.
Qed.

(** One more part: registered, and the rest of the step keeps what matters. *)
Lemma opened_snoc gid g names s s1 s2 j (upd : group -> group) : opened gid g names s s1 ->
  current s2 = current s1 -> now_ns s2 = now_ns s1 -> plan s2 = plan s1 -> kept s2 = kept s1 -> moved s2 = moved s1 ->
  (forall g, grown [] g (upd g)) -> flight s2 = set_groups (alter upd gid (groups (add_job gid j (flight s1)))) (add_job gid j (flight s1)) ->
  opened gid g (names ++ [job_id j]) s s2.
Proof.
  intros [H1 H2 H3 H4 H5 H6 (g' & H7 & Hg) H8 H9 H10] E1 E2 E3 E4 E5 Hupd Ef. constructor; rewrite ?E1, ?E2, ?E3, ?E4, ?E5, ?Ef; cbn; try done.
  - exists (upd (set_pending ({[job_id j]} ∪ pending g') g')). split.
    + rewrite H7. rewrite alter_insert_eq, alter_insert_eq. done.
    + destruct Hg as (A1 & A2 & A3 & A4 & A5 & A6). destruct (Hupd (set_pending ({[job_id j]} ∪ pending g') g')) as (B1 & B2 & B3 & B4 & B5 & B6). cbn in *.
      unfold grown. rewrite B1, B2, B3, B4, B5. split_and!; [done..| |by etransitivity]. rewrite A5. set_solver.
  - intros i. destruct (decide (i = job_id j)) as [->|Hne].
    + rewrite lookup_insert_eq, decide_True by set_solver. done.
    + rewrite lookup_insert_ne, H8 by done. destruct (decide (i ∈ names)); [rewrite decide_True by set_solver; done|rewrite decide_False by set_solver; done].
  - intros i. rewrite lookup_insert_is_Some', H9. set_solver.
  - intros i. rewrite lookup_insert_is_Some', H10. set_solver.
Qed.

(** Groups that differ at most in their tasks, pending jobs, completion times and
    the list of their parts. *)
Definition alike (g g' : group) : Prop :=
  g_tensor g' = g_tensor g /\ g_bytes g' = g_bytes g /\ same_content (content g) (content g').
Definition similar (f f' : store) : Prop := forall gid,
  match groups f !! gid, groups f' !! gid with Some g, Some g' => alike g g' | None, None => True | _, _ => False end.

Lemma similar_same f f' : groups f' = groups f -> similar f f'.
Proof. intros E gid. rewrite E. destruct (groups f !! gid); [|done]. by unfold alike. Qed.
Lemma similar_insert f f' gid g g' : groups f !! gid = Some g -> alike g g' -> groups f' = <[gid := g']> (groups f) -> similar f f'.
Proof.
  intros Hg Ha E gid'. rewrite E. destruct (decide (gid' = gid)) as [->|Hne]; [by rewrite Hg, lookup_insert_eq|]. rewrite lookup_insert_ne by done.
  destruct (groups f !! gid'); [|done]. by unfold alike.
Qed.
Lemma similar_l f f' gid g : similar f f' -> groups f !! gid = Some g -> exists g', groups f' !! gid = Some g' /\ alike g g'.
Proof. intros H Hg. specialize (H gid). rewrite Hg in H. destruct (groups f' !! gid); [eauto|done]. Qed.
Lemma similar_r f f' gid g' : similar f f' -> groups f' !! gid = Some g' -> exists g, groups f !! gid = Some g /\ alike g g'.
Proof. intros H Hg. specialize (H gid). rewrite Hg in H. destruct (groups f !! gid); [eauto|done]. Qed.

Lemma alike_hit g g' : alike g g' -> is_hit g' = is_hit g.
Proof. intros (_ & _ & H). unfold is_hit. destruct (content g), (content g'); cbn in H; try done. by destruct H as (-> & _). Qed.
Lemma alike_source t g g' : alike g g' -> reads_source t g' = reads_source t g.
Proof. intros (Ht & _ & H). unfold reads_source. rewrite Ht. destruct (content g), (content g'); cbn in H; try done. by destruct H as (_ & -> & _). Qed.
Lemma alike_fill g g' : alike g g' -> content g' = FillGroup <-> content g = FillGroup.
Proof. intros (_ & _ & H). destruct (content g), (content g'); cbn in H; try done. Qed.
Lemma alike_move g g' x : alike g g' -> content g' = MigrationGroup x <-> content g = MigrationGroup x.
Proof. intros (_ & _ & H). destruct (content g), (content g'); cbn in H; try done. by rewrite H. Qed.
Lemma alike_read g g' r' : alike g g' -> content g' = ReadGroup r' -> exists r, content g = ReadGroup r.
Proof. intros (_ & _ & H) E. rewrite E in H. destruct (content g); [eauto|done..]. Qed.
Lemma alike_named gid g g' : alike g g' -> task_ids g' = task_ids g -> named gid g -> named gid g'.
Proof.
  intros (H2 & H3 & H) H1. unfold named. rewrite H1, H2, H3. destruct (content g), (content g'); cbn in H; try done. by injection H as ->.
Qed.

Lemma held_insert f f' gid0 g g' id gid : groups f !! gid0 = Some g -> task_ids g' = task_ids g -> groups f' = <[gid0 := g']> (groups f) ->
  held f' id gid <-> held f id gid.
Proof.
  intros Hg E HG. unfold held. rewrite HG. destruct (decide (gid = gid0)) as [->|Hne].
  - rewrite Hg, lookup_insert_eq. split; intros (x & [= <-] & Hi); eexists; (split; [done|]); congruence.
  - by rewrite lookup_insert_ne.
Qed.

Lemma cache_similar cfg c f f' : similar f f' -> cache_ok cfg c f -> cache_ok cfg c f'.
Proof.
  intros H []. constructor; try done.
  - intros Hm. destruct (ko_mode0 Hm) as [E Hh]. split; [done|]. intros gid g Hg. destruct (similar_r _ _ _ _ H Hg) as (g0 & Hg0 & Ha).
    rewrite (alike_hit _ _ Ha). by eapply Hh.
  - intros t n. rewrite ko_fill0. split; intros (gid & g & Hg & Hc & Ht & Hn).
    + destruct (similar_l _ _ _ _ H Hg) as (g0 & Hg0 & Ha). exists gid, g0. rewrite (alike_fill _ _ Ha). destruct Ha as (E1 & E2 & _). by rewrite E1, E2.
    + destruct (similar_r _ _ _ _ H Hg) as (g0 & Hg0 & Ha). exists gid, g0. rewrite (alike_fill _ _ Ha) in Hc. destruct Ha as (E1 & E2 & _). by rewrite <- E1, <- E2.
  - intros gid g gid' g' Hg Hg' Hc Hc' Ht. destruct (similar_r _ _ _ _ H Hg) as (g0 & Hg0 & Ha), (similar_r _ _ _ _ H Hg') as (g1 & Hg1 & Ha').
    rewrite (alike_fill _ _ Ha) in Hc. rewrite (alike_fill _ _ Ha') in Hc'. apply (ko_unique0 gid g0 gid' g1 Hg0 Hg1 Hc Hc').
    destruct Ha as (E1 & _), Ha' as (E2 & _). congruence.
  - intros gid g Hg Hh. destruct (similar_r _ _ _ _ H Hg) as (g0 & Hg0 & Ha). rewrite (alike_hit _ _ Ha) in Hh. destruct Ha as (-> & _). by eapply ko_hit0.
Qed.

Lemma moving_similar f f' gid x : similar f f' -> moving f' gid x <-> moving f gid x.
Proof.
  intros H. split; intros (g & Hg & Hc).
  - destruct (similar_r _ _ _ _ H Hg) as (g0 & Hg0 & Ha). exists g0. split; [done|]. by apply (alike_move _ _ _ Ha).
  - destruct (similar_l _ _ _ _ H Hg) as (g0 & Hg0 & Ha). exists g0. split; [done|]. by apply (alike_move _ _ _ Ha).
Qed.
Lemma moves_similar cfg v w f f' : similar f f' -> moves_ok cfg v w f -> moves_ok cfg v w f'.
Proof.
  intros H []. assert (Hm : forall gid x, moving f' gid x <-> moving f gid x) by (intros; by apply moving_similar). constructor; try done.
  - intros gid x Hx%Hm. eauto.
  - intros gid x Hx%Hm. eauto.
  - intros gid x gid' x' Hx%Hm Hx'%Hm. eauto.
  - intros gid x gid' g Hx%Hm Hp Hg. destruct (similar_r _ _ _ _ H Hg) as (g0 & Hg0 & Ha). rewrite (alike_source _ _ _ Ha). eauto.
  - intros gid g r Hg Hc. destruct (similar_r _ _ _ _ H Hg) as (g0 & Hg0 & Ha). destruct (alike_read _ _ _ Ha Hc) as [r0 Hr0]. destruct Ha as (-> & _). eauto.
Qed.

Lemma named_id_ok gid g : named gid g -> group_id_ok gid.
Proof.
  unfold named. destruct (content g); [intros (id & -> & _ & Hp); by apply read_group_id_ok|intros [(n & ->) _]; apply fill_id_ok|intros (-> & _); apply phase_id_ok].
Qed.

(** Registering jobs keeps the flight consistent. *)
Lemma flight_opened gid g names s s' : flight_ok (flight s) -> groups (flight s) !! gid = Some g -> opened gid g names s s' ->
  (forall j, j ∈ names -> exists a p, j = job_name gid a p) -> flight_ok (flight s').
Proof.
  intros HF Hg [_ _ _ _ _ Ht (g' & HG & Hgrown) Hj Hb Ha] Hnames. pose proof HF as [F1 F2 F3 F4 F5 F6 F7 F8].
  assert (Hown : forall j gid', j ∈ names -> job_group (flight s) !! j = Some gid' -> gid' = gid).
  { intros j gid' Hin E. destruct (F1 _ _ E) as (g1 & Hg1 & Hp1). destruct (F2 _ _ _ Hg1 Hp1) as (_ & a & p & Ej). destruct (Hnames j Hin) as (a' & p' & Ej').
    rewrite Ej in Ej'. eapply job_name_inj; [| |exact Ej']; [exact (named_id_ok _ _ (F6 _ _ Hg1))|exact (named_id_ok _ _ (F6 _ _ Hg))]. }
  destruct Hgrown as (G1 & G2 & G3 & G4 & G5 & G6).
  assert (Hlook : forall gid' g1, groups (flight s') !! gid' = Some g1 -> (gid' = gid /\ g1 = g') \/ (gid' <> gid /\ groups (flight s) !! gid' = Some g1)).
  { intros gid' g1. rewrite HG. intros [[<- <-]|[Hne E]]%lookup_insert_Some; auto. }
  constructor.
  - intros j gid'. rewrite Hj, HG. case_decide as Hin; [intros [= <-]; exists g'; split; [by rewrite lookup_insert_eq|]; rewrite G5; set_solver|].
    intros E. destruct (F1 _ _ E) as (g1 & Hg1 & Hp1). destruct (decide (gid' = gid)) as [->|Hne].
    + rewrite Hg in Hg1. injection Hg1 as <-. exists g'. split; [by rewrite lookup_insert_eq|]. rewrite G5. set_solver.
    + exists g1. by rewrite lookup_insert_ne.
  - intros gid' g1 j Hg1 Hin. rewrite Hj. destruct (Hlook _ _ Hg1) as [[-> ->]|[Hne Hold]].
    + rewrite G5 in Hin. case_decide as Hn; [split; [done|by apply Hnames]|]. apply (F2 _ _ _ Hg). set_solver.
    + destruct (F2 _ _ _ Hold Hin) as [E Hname]. split; [|done]. case_decide as Hn; [|done]. by rewrite (Hown j gid' Hn E) in Hne.
  - intros j. rewrite Hb, Hj, F3. case_decide; naive_solver eauto.
  - intros j. rewrite Ha, Hj, F4. case_decide; naive_solver eauto.
  - intros t gid'. rewrite Ht, HG. intros E. destruct (F5 _ _ E) as (g1 & r & Hg1 & Hc & Htn). destruct (decide (gid' = gid)) as [->|Hne].
    + rewrite Hg in Hg1. injection Hg1 as <-. rewrite Hc in G6. destruct (content g') as [r'| |] eqn:Ec; try done. exists g', r'. rewrite lookup_insert_eq. split_and!; congruence.
    + exists g1, r. by rewrite lookup_insert_ne.
  - intros gid' g1 Hg1. destruct (Hlook _ _ Hg1) as [[-> ->]|[Hne Hold]]; [|by apply F6]. apply (alike_named gid g); [by split_and!|done|by apply F6].
  - intros gid' g1 Hg1. destruct (Hlook _ _ Hg1) as [[-> ->]|[Hne Hold]]; [|by eapply F7]. rewrite G1. by eapply F7.
  - intros gid' g1 Hg1. destruct (Hlook _ _ Hg1) as [[-> ->]|[Hne Hold]]; [|by eapply F8]. rewrite G4. by eapply F8.
Qed.

Lemma opened_similar gid g names s s' : groups (flight s) !! gid = Some g -> opened gid g names s s' -> similar (flight s) (flight s').
Proof. intros Hg [_ _ _ _ _ _ (g' & HG & (G1 & G2 & G3 & G4 & G5 & G6)) _ _ _]. by eapply similar_insert; [exact Hg|by split_and!|exact HG]. Qed.

Lemma held_opened gid g names s s' i gid' : groups (flight s) !! gid = Some g -> opened gid g names s s' -> held (flight s') i gid' <-> held (flight s) i gid'.
Proof. intros Hg [_ _ _ _ _ _ (g' & HG & (G1 & _)) _ _ _]. by eapply held_insert. Qed.

Lemma reads_opened gid g names s s' hi : groups (flight s) !! gid = Some g -> opened gid g names s s' -> reads_by hi (flight s) -> reads_by hi (flight s').
Proof.
  intros Hg [_ _ _ _ _ _ (g' & HG & (G1 & G2 & G3 & G4 & G5 & G6)) _ _ _] Hr gid' g1 r Hg1 Hc. rewrite HG in Hg1.
  apply lookup_insert_Some in Hg1 as [[<- <-]|[Hn Hg1]]; [|by eapply Hr]. rewrite G2. rewrite Hc in G6. destruct (content g) as [r0| |] eqn:E; [|done..]. by eapply Hr.
Qed.

Lemma busy_opened ex gid g names s s' : busy (gid :: ex) (flight s) -> opened gid g names s s' -> names <> [] ->
  (forall g' r, groups (flight s') !! gid = Some g' -> content g' = ReadGroup r -> retry_parts r <> []) -> busy ex (flight s').
Proof.
  intros Hb [_ _ _ _ _ _ (g' & HG & (G1 & G2 & G3 & G4 & G5 & G6)) _ _ _] Hne Hparts gid' g1 Hg1 Hex. rewrite HG in Hg1.
  apply lookup_insert_Some in Hg1 as [[<- <-]|[Hn Hg1]]; [|apply (Hb gid' g1 Hg1); set_solver]. split.
  - rewrite G5. destruct names as [|j names]; [done|]. set_solver.
  - destruct (content g') as [r| |] eqn:Ec; [|done..]. apply (Hparts g' r); [|done]. by rewrite HG, lookup_insert_eq.
Qed.

(** ** New and finished groups *)

Section new_group.
Context (f f' : store) (gid : string) (g : group) (Hnew : groups f !! gid = None) (HG : groups f' = <[gid := g]> (groups f)).

Lemma new_lookup gid' g' : groups f' !! gid' = Some g' <-> (gid' = gid /\ g' = g) \/ groups f !! gid' = Some g'.
Proof using Hnew HG.
  rewrite HG, lookup_insert_Some. split; [naive_solver|]. intros [[-> ->]|E]; [by left|]. right. split; [|done]. intros ->. by rewrite Hnew in E.
Qed.

Lemma held_new i gid' : held f' i gid' <-> held f i gid' \/ (gid' = gid /\ i ∈ task_ids g).
Proof using Hnew HG. unfold held. setoid_rewrite new_lookup. naive_solver. Qed.

Lemma flight_new : flight_ok f -> job_group f' = job_group f -> job_bytes f' = job_bytes f -> job_arrival f' = job_arrival f ->
  (pending_tensor f' = pending_tensor f \/ pending_tensor f' = <[g_tensor g := gid]> (pending_tensor f) /\ exists r, content g = ReadGroup r) ->
  named gid g -> pending g = ∅ -> NoDup (task_ids g) -> 0 < g_bytes g -> flight_ok f'.
Proof using Hnew HG.
  intros [F1 F2 F3 F4 F5 F6 F7 F8] E1 E2 E3 Et Hn Hp Hnd Hpos. constructor; rewrite ?E1, ?E2, ?E3; try done.
  - intros j gid' E. destruct (F1 j gid' E) as (g' & Hg' & Hj). exists g'. split; [|done]. apply new_lookup. by right.
  - intros gid' g' j [[-> ->]|Hg']%new_lookup Hj; [set_solver|]. by apply (F2 gid' g').
  - intros t gid' E. destruct Et as [Et|[Et (r & Hr)]]; rewrite Et in E.
    + destruct (F5 t gid' E) as (g' & r & Hg' & Hc & Ht). exists g', r. split; [|done]. apply new_lookup. by right.
    + apply lookup_insert_Some in E as [[<- <-]|[Hne E]]; [exists g, r; split; [|done]; apply new_lookup; by left|].
      destruct (F5 t gid' E) as (g' & r' & Hg' & Hc & Ht). exists g', r'. split; [|done]. apply new_lookup. by right.
  - intros gid' g' [[-> ->]|Hg']%new_lookup; [done|by apply F6].
  - intros gid' g' [[-> ->]|Hg']%new_lookup; [done|by eapply F7].
  - intros gid' g' [[-> ->]|Hg']%new_lookup; [done|by eapply F8].
Qed.

Lemma busy_new ex : busy ex f -> busy (gid :: ex) f'.
Proof using Hnew HG. intros Hb gid' g' [[-> ->]|Hg']%new_lookup Hne; [set_solver|]. apply (Hb gid' g'); [done|set_solver]. Qed.

Lemma reads_new hi : reads_by hi f -> (forall r, content g = ReadGroup r -> completion_ns g <= hi) -> reads_by hi f'.
Proof using Hnew HG. intros Hr Hg gid' g' r [[-> ->]|Hg']%new_lookup Hc; [by eapply Hg|by eapply Hr]. Qed.

Lemma cache_new cfg c : cache_ok cfg c f -> content g <> FillGroup ->
  (is_hit g = true -> caching cfg = ExternalHbm /\ is_Some (dget (cache c) (g_tensor g))) -> cache_ok cfg c f'.
Proof using Hnew HG.
  intros [] Hnf Hh. constructor; try done.
  - intros Hm. destruct (ko_mode0 Hm) as [? Hall]. split; [done|]. intros gid' g' [[-> ->]|Hg']%new_lookup; [|by eapply Hall].
    destruct (is_hit g) eqn:E; [|done]. by destruct (Hh eq_refl).
  - intros t n. rewrite ko_fill0. split; intros (gid' & g' & Hg' & Hc & Ht & Hn).
    + exists gid', g'. split; [|done]. apply new_lookup. by right.
    + apply new_lookup in Hg' as [[-> ->]|Hg']; [done|]. by exists gid', g'.
  - intros g1 x1 g2 x2 [[-> ->]|H1]%new_lookup [[-> ->]|H2]%new_lookup; try done. by apply ko_unique0.
  - intros gid' g' [[-> ->]|Hg']%new_lookup Hi; [by apply Hh|by eapply ko_hit0].
Qed.

Lemma cache_new_fill cfg c t n : cache_ok cfg c f -> content g = FillGroup -> g_tensor g = t -> g_bytes g = n -> caching cfg = ExternalHbm ->
  dget (cache_reservations c) t = None -> dget (cache c) t = None ->
  cache_bytes c + zsum (dvals (cache_reservations c)) + n <= cache_capacity cfg -> cache_ok cfg (reserve t n c) f'.
Proof using Hnew HG.
  intros [] Hc Ht Hn Hm Hr Hcache Hcap. assert (Hk : t ∉ dkeys (cache_reservations c)) by by apply dget_None. constructor; cbn; try done.
  - by apply NoDup_dkeys_dset.
  - rewrite dkeys_dset_notin by done. unfold dvals. rewrite fmap_app, zsum_app. cbn. unfold dvals in Hcap. lia.
  - intros t' n'. rewrite dget_dset. case_decide as E; [subst t'|].
    + split.
      * intros [= <-]. exists gid, g. split; [apply new_lookup; by left|done].
      * intros (gid' & g' & [[-> ->]|Hg']%new_lookup & Hc' & Ht' & Hn'); [congruence|]. exfalso.
        assert (E : dget (cache_reservations c) t = Some n') by (apply ko_fill0; eauto 10). congruence.
    + rewrite ko_fill0. split; intros (gid' & g' & Hg' & Hc' & Ht' & Hn').
      * exists gid', g'. split; [apply new_lookup; by right|done].
      * apply new_lookup in Hg' as [[-> ->]|Hg']; [congruence|]. by exists gid', g'.
  - assert (Hno : forall gid' g', groups f !! gid' = Some g' -> content g' = FillGroup -> g_tensor g' <> t).
    { intros gid' g' Hg' Hc' Ht'. assert (E : dget (cache_reservations c) t = Some (g_bytes g')) by (apply ko_fill0; eauto 10). congruence. }
    intros g1 x1 g2 x2 [[-> ->]|H1]%new_lookup [[-> ->]|H2]%new_lookup Hc1 Hc2 Heq; [done|exfalso; eapply Hno; [exact H2|done|congruence]|exfalso; eapply Hno; [exact H1|done|congruence]|by eapply ko_unique0].
  - intros t'. rewrite dget_dset. case_decide as E; [by subst t'|apply ko_apart0].
  - intros gid' g' [[-> ->]|Hg']%new_lookup Hi; [unfold is_hit in Hi; by rewrite Hc in Hi|by eapply ko_hit0].
Qed.

Lemma moving_new gid' x : moving f' gid' x <-> moving f gid' x \/ (gid' = gid /\ content g = MigrationGroup x).
Proof using Hnew HG. unfold moving. setoid_rewrite new_lookup. naive_solver. Qed.

Lemma moves_new_other cfg v w : moves_ok cfg v w f -> (forall x, content g <> MigrationGroup x) ->
  (forall r, content g = ReadGroup r -> is_Some (tensor_specs v !! g_tensor g) /\ (from r = Source -> tensor_tier v !! g_tensor g <> Some Fast)) ->
  moves_ok cfg v w f'.
Proof using Hnew HG.
  intros [] Hnm Hr. assert (Hm : forall gid' x, moving f' gid' x -> moving f gid' x) by (intros gid' x [?|[_ E]]%moving_new; [done|by apply Hnm in E]).
  constructor; try done; try (intros; eauto; fail).
  - intros gid1 x gid2 g2 Hx%Hm Hp [[-> ->]|Hg2]%new_lookup; [|eauto]. unfold reads_source. destruct (content g) as [r| |] eqn:Ec; [|done..].
    destruct (Hr r eq_refl) as [_ Hs]. destruct (bool_decide (from r = Source)) eqn:Eb; [|done]. apply bool_decide_eq_true in Eb. specialize (Hs Eb). cbn.
    apply String.eqb_neq. intros Et. apply mo_group0 in Hx as (_ & _ & _ & Hph). rewrite Hp in Hph. by rewrite Et in Hs.
  - intros gid' g' r [[-> ->]|Hg']%new_lookup Hc; [by destruct (Hr r Hc)|eauto].
Qed.

Lemma moves_new_move cfg v w x : moves_ok cfg v w f -> content g = MigrationGroup x -> phase_ok v x -> x_tensor x ∉ x_tensor <$> w ->
  (forall gid' x', moving f gid' x' -> x_tensor x' <> x_tensor x) ->
  (x_phase x = MigrationEraseOld -> forall gid' g', groups f !! gid' = Some g' -> reads_source (x_tensor x) g' = false) -> moves_ok cfg v w f'.
Proof using Hnew HG.
  intros [] Hc Hph Hw Hno Hsafe. assert (Hsrc : forall t, reads_source t g = false) by (intros t; unfold reads_source; by rewrite Hc).
  constructor; try done.
  - intros gid' x' [?|[-> E]]%moving_new; [eauto|]. rewrite Hc in E. by injection E as <-.
  - intros gid' x' [?|[-> E]]%moving_new; [eauto|]. rewrite Hc in E. by injection E as <-.
  - intros g1 x1 g2 x2 [H1|[-> E1]]%moving_new [H2|[-> E2]]%moving_new Heq; [eauto|..|done]; rewrite Hc in *; simplify_eq; by exfalso; eapply Hno.
  - intros g1 x1 g2 x2 [H1|[-> E1]]%moving_new Hp [[-> ->]|H2]%new_lookup; [done|eauto|done|]. rewrite Hc in E1. injection E1 as <-. eauto.
  - intros gid' g' r [[-> ->]|Hg']%new_lookup Hr; [congruence|eauto].
Qed.
End new_group.

Section old_group.
Context (f f' : store) (gid : string) (g : group) (Hold : groups f !! gid = Some g) (HG : groups f' = delete gid (groups f)).

Lemma old_lookup gid' g' : groups f' !! gid' = Some g' <-> gid' <> gid /\ groups f !! gid' = Some g'.
Proof using HG. rewrite HG, lookup_delete_Some. naive_solver. Qed.

Lemma flight_old : flight_ok f -> job_group f' = job_group f -> job_bytes f' = job_bytes f -> job_arrival f' = job_arrival f ->
  (forall t gid', pending_tensor f' !! t = Some gid' -> gid' <> gid /\ pending_tensor f !! t = Some gid') -> pending g = ∅ -> flight_ok f'.
Proof using Hold HG.
  intros [F1 F2 F3 F4 F5 F6 F7 F8] E1 E2 E3 Et Hp. constructor; rewrite ?E1, ?E2, ?E3; try done.
  - intros j gid' E. destruct (F1 j gid' E) as (g' & Hg' & Hj). exists g'. split; [|done]. apply old_lookup. split; [|done]. intros ->. rewrite Hold in Hg'. injection Hg' as <-. set_solver.
  - intros gid' g' j [_ Hg']%old_lookup Hj. by apply (F2 gid' g').
  - intros t gid' [Hne E]%Et. destruct (F5 t gid' E) as (g' & r & Hg' & Hc & Ht). exists g', r. split; [|done]. by apply old_lookup.
  - intros gid' g' [_ Hg']%old_lookup. by apply F6.
  - intros gid' g' [_ Hg']%old_lookup. by eapply F7.
  - intros gid' g' [_ Hg']%old_lookup. by eapply F8.
Qed.

Lemma busy_old ex : busy (gid :: ex) f -> busy ex f'.
Proof using HG. intros Hb gid' g' [Hne Hg']%old_lookup Hex. apply (Hb gid' g' Hg'). by rewrite not_elem_of_cons. Qed.

Lemma reads_old hi : reads_by hi f -> reads_by hi f'.
Proof using HG. intros Hr gid' g' r [_ Hg']%old_lookup. exact (Hr gid' g' r Hg'). Qed.

Lemma held_old i gid' : held f' i gid' <-> held f i gid' /\ gid' <> gid.
Proof using HG. unfold held. setoid_rewrite old_lookup. naive_solver. Qed.

Lemma cache_old cfg c : cache_ok cfg c f -> content g <> FillGroup -> cache_ok cfg c f'.
Proof using Hold HG.
  intros [] Hnf. constructor; try done.
  - intros Hm. destruct (ko_mode0 Hm) as [? Hall]. split; [done|]. intros gid' g' [_ Hg']%old_lookup. by eapply Hall.
  - intros t n. rewrite ko_fill0. split; intros (gid' & g' & Hg' & Hc & Ht & Hn).
    + exists gid', g'. split; [|done]. apply old_lookup. split; [|done]. intros ->. congruence.
    + apply old_lookup in Hg' as [_ Hg']. by exists gid', g'.
  - intros g1 x1 g2 x2 [_ H1]%old_lookup [_ H2]%old_lookup. by apply ko_unique0.
  - intros gid' g' [_ Hg']%old_lookup. by eapply ko_hit0.
Qed.

Lemma moving_old gid' x : moving f' gid' x <-> moving f gid' x /\ gid' <> gid.
Proof using HG. unfold moving. setoid_rewrite old_lookup. naive_solver. Qed.

Lemma moves_old cfg v w : moves_ok cfg v w f -> moves_ok cfg v w f'.
Proof using HG.
  intros []. constructor; try done.
  - intros gid' x [? _]%moving_old. eauto.
  - intros gid' x [? _]%moving_old. eauto.
  - intros gid1 x1 gid2 x2 [? _]%moving_old [? _]%moving_old. eauto.
  - intros gid1 x1 gid2 g2 [? _]%moving_old Hp [_ ?]%old_lookup. eauto.
  - intros gid' g' r [_ ?]%old_lookup. eauto.
Qed.
End old_group.

(** ** The cache *)

Lemma dget_ddel_eq {V} (d : dict string V) k : NoDup (dkeys d) -> dget (ddel d k) k = None.
Proof. intros Hnd. rewrite dget_ddel by done. by rewrite decide_True. Qed.
Lemma dget_ddel_ne {V} (d : dict string V) k k' : NoDup (dkeys d) -> k' <> k -> dget (ddel d k) k' = dget d k'.
Proof. intros Hnd Hne. rewrite dget_ddel by done. case_decide; congruence. Qed.
Lemma dvals_ddel (d : dict string Z) k n : dget d k = Some n -> zsum (dvals d) = n + zsum (dvals (ddel d k)).
Proof. intros E. pose proof (ddel_perm d k n E) as Hp. unfold dvals. rewrite (zsum_perm _ _ (fmap_Permutation snd _ _ Hp)). done. Qed.
Lemma dget_app {V} (d e : dict string V) k : dget (d ++ e) k = match dget d k with Some v => Some v | None => dget e k end.
Proof. induction d as [|[k' v] d IH]; [done|]. cbn. by case_decide. Qed.

Section cache.
Context (cfg : settings) (f : store).

Lemma cache_same c c' : cache_ok cfg c f -> cache_bytes c' = cache_bytes c -> cache_reservations c' = cache_reservations c ->
  cache c' ≡ₚ cache c -> (forall t, dget (cache c') t = dget (cache c) t) -> cache_ok cfg c' f.
Proof using.
  intros [] E1 E2 Hp Hd. constructor; rewrite ?E1, ?E2; try done.
  - rewrite ko_sum0. unfold dvals. by rewrite (zsum_perm _ _ (fmap_Permutation snd _ _ Hp)).
  - unfold dkeys. by rewrite (fmap_Permutation fst _ _ Hp).
  - intros t n. rewrite Hd. apply ko_positive0.
  - intros t Ht. rewrite Hd. by apply ko_apart0.
  - intros gid g Hg Hh. rewrite Hd. by eapply ko_hit0.
Qed.

Lemma touch_cache c t : cache_ok cfg c f -> cache_ok cfg (touch t c) f.
Proof using.
  intros Hc. unfold touch. destruct (dget (cache c) t) as [n|] eqn:E; [|done]. pose proof (ko_keys _ _ _ Hc) as Hnd. apply (cache_same c); cbn; try done.
  - by rewrite (ddel_perm _ _ _ E) at 2; rewrite (Permutation_app_comm _ [_]).
  - intros t'. rewrite dget_app. destruct (decide (t' = t)) as [->|Hne].
    + rewrite dget_ddel_eq by done. cbn. by rewrite decide_True.
    + rewrite dget_ddel_ne by done. destruct (dget (cache c) t'); [done|]. cbn. by rewrite decide_False.
Qed.

Lemma evict_cache c t n : cache_ok cfg c f -> dget (cache c) t = Some n ->
  (forall gid g, groups f !! gid = Some g -> is_hit g = true -> g_tensor g <> t) -> cache_ok cfg (evict t n c) f.
Proof using.
  intros [] E Hpin. constructor; unfold evict; cbn [cache cache_bytes cache_reservations]; try done.
  - rewrite ko_sum0, (dvals_ddel _ _ _ E). lia.
  - by apply NoDup_dkeys_ddel.
  - intros t' n'. rewrite dget_ddel by done. case_decide; [done|]. apply ko_positive0.
  - specialize (ko_positive0 t n E). lia.
  - intros t' Ht. rewrite dget_ddel by done. case_decide; [done|]. by apply ko_apart0.
  - intros gid g Hg Hh. rewrite dget_ddel_ne; [by eapply ko_hit0|done|by eapply Hpin].
Qed.

(** Shedding keeps the youngest entries. *)
Lemma shed_spec l base size l' held' : shed cfg l (zsum (dvals l) + base) size = (l', held') ->
  held' = zsum (dvals l') + base /\ (exists old, l = old ++ l') /\ (l' = [] \/ held' + size <= cache_capacity cfg).
Proof using.
  induction l as [|[k n] l IH]; cbn [shed].
  - intros [= <- <-]. split_and!; [done|by exists []|by left].
  - destruct (Z.ltb_spec (cache_capacity cfg) (zsum (dvals ((k, n) :: l)) + base + size)) as [Hlt|Hle].
    + replace (zsum (dvals ((k, n) :: l)) + base - n) with (zsum (dvals l) + base) by (change (dvals ((k, n) :: l)) with (n :: dvals l); rewrite zsum_cons; lia).
      intros E. destruct (IH E) as (H1 & (old & ->) & H3). split_and!; [done|by exists ((k, n) :: old)|done].
    + intros [= <- <-]. split_and!; [done|by exists []|by right].
Qed.
Lemma shed_fits l base size : zsum (dvals l) + base + size <= cache_capacity cfg -> shed cfg l (zsum (dvals l) + base) size = (l, zsum (dvals l) + base).
Proof using. intros H. destruct l as [|[k n] l]; [done|]. cbn [shed]. destruct (Z.ltb_spec (cache_capacity cfg) (zsum (dvals ((k, n) :: l)) + base + size)); [lia|done]. Qed.

(** The metadata cache. *)
Lemma insert_ideal c t n : cache_ok cfg c f -> caching cfg <> ExternalHbm -> 0 < n -> cache_ok cfg (insert_entry cfg t n c) f.
Proof using.
  intros Hc Hm Hn. pose proof (ko_mode _ _ _ Hc Hm) as [Hres Hhit]. unfold insert_entry.
  destruct (Z.ltb_spec (cache_capacity cfg) n) as [|Hfit]; [done|]. destruct (Z.eqb_spec (cache_capacity cfg) 0) as [|Hcap]; [done|]. cbn [orb].
  destruct (match dget (cache c) t with Some n0 => (ddel (cache c) t, cache_bytes c - n0) | None => (cache c, cache_bytes c) end) as [l held_] eqn:El.
  assert (Hl : held_ = zsum (dvals l) /\ NoDup (dkeys l) /\ dget l t = None /\ forall k v, dget l k = Some v -> 0 < v).
  { destruct Hc. destruct (dget (cache c) t) as [n0|] eqn:E; injection El as <- <-.
    - split_and!; [rewrite ko_sum0, (dvals_ddel _ _ _ E); lia|by apply NoDup_dkeys_ddel|by apply dget_ddel_eq|].
      intros k v. rewrite dget_ddel by done. case_decide; [done|]. apply ko_positive0.
    - done. }
  destruct Hl as (-> & Hnd & Hnone & Hpos). destruct (shed cfg l (zsum (dvals l)) n) as [l' held'] eqn:Es.
  rewrite <- (Z.add_0_r (zsum (dvals l))) in Es. apply shed_spec in Es as (-> & (old & ->) & Hroom). unfold dkeys in Hnd. rewrite fmap_app in Hnd. apply NoDup_app in Hnd as (_ & Hdisj & Hnd').
  assert (Hnone' : dget l' t = None) by (rewrite dget_app in Hnone; by destruct (dget old t)).
  assert (Hk : t ∉ dkeys l') by by apply dget_None.
  destruct Hc. constructor; cbn [cache cache_bytes cache_reservations]; rewrite ?Hres; try done.
  - rewrite (dkeys_dset_notin _ _ _ Hk). unfold dvals. rewrite fmap_app, zsum_app. cbn. lia.
  - by apply NoDup_dkeys_dset.
  - constructor.
  - intros k v. rewrite dget_dset. case_decide; [by intros [= <-]|]. intros E. apply (Hpos k v). rewrite dget_app.
    destruct (dget old k) as [v'|] eqn:Eo; [|done]. exfalso.
    assert (Hdk : k ∈ dkeys old) by (apply dget_is_Some; eauto). assert (Hdk' : k ∈ dkeys l') by (apply dget_is_Some; eauto).
    by apply (Hdisj k Hdk).
  - destruct Hroom as [->|Hle]; unfold dvals; cbn; unfold dvals in *; lia.
  - intros t' n'. cbn. split; [done|]. intros Hf. apply ko_fill0 in Hf. by rewrite Hres in Hf.
  - intros t' [? Ht']. done.
  - intros gid g Hg Hh. by rewrite (Hhit gid g Hg) in Hh.
Qed.
End cache.

(** A fill that completes takes the room that was reserved for it: nothing is
    evicted. *)
Lemma fill_fits cfg c f gid g : cache_ok cfg c f -> flight_ok f -> groups f !! gid = Some g -> content g = FillGroup ->
  insert_entry cfg (g_tensor g) (g_bytes g) (unreserve (g_tensor g) c) =
  {| cache := cache c ++ [(g_tensor g, g_bytes g)]; cache_bytes := cache_bytes c + g_bytes g; cache_reservations := ddel (cache_reservations c) (g_tensor g) |}.
Proof.
  intros Hc HF Hg Hf. pose proof (fo_size _ HF _ _ Hg) as Hpos. assert (Hres : dget (cache_reservations c) (g_tensor g) = Some (g_bytes g)) by (apply (ko_fill _ _ _ Hc); eauto 10).
  assert (Hnone : dget (cache c) (g_tensor g) = None) by (apply (ko_apart _ _ _ Hc); eauto).
  assert (Hcap : cache_bytes c + g_bytes g + zsum (dvals (ddel (cache_reservations c) (g_tensor g))) <= cache_capacity cfg).
  { pose proof (ko_capacity _ _ _ Hc) as H. rewrite (dvals_ddel _ _ _ Hres) in H. lia. }
  assert (Hb : 0 <= cache_bytes c).
  { rewrite (ko_sum _ _ _ Hc). apply zsum_nonneg. apply Forall_forall. intros n Hn. apply list_elem_of_fmap in Hn as ([k n'] & -> & Hk).
    apply (dget_elem _ _ _ (ko_keys _ _ _ Hc)), (ko_positive _ _ _ Hc) in Hk. cbn. lia. }
  assert (Hr : 0 <= zsum (dvals (ddel (cache_reservations c) (g_tensor g)))).
  { apply zsum_nonneg. apply Forall_forall. intros n Hn. apply list_elem_of_fmap in Hn as ([k n'] & -> & Hk).
    assert (Hget : dget (ddel (cache_reservations c) (g_tensor g)) k = Some n') by (apply dget_elem; [apply NoDup_dkeys_ddel, (ko_reserved _ _ _ Hc)|done]).
    rewrite dget_ddel in Hget by apply (ko_reserved _ _ _ Hc). case_decide; [done|]. apply (ko_fill _ _ _ Hc) in Hget as (gid' & g' & Hg' & _ & _ & <-).
    apply (fo_size _ HF) in Hg'. cbn. lia. }
  unfold insert_entry, unreserve. cbn [cache cache_bytes cache_reservations]. rewrite Hnone.
  destruct (Z.ltb_spec (cache_capacity cfg) (g_bytes g)); [lia|]. destruct (Z.eqb_spec (cache_capacity cfg) 0); [lia|]. cbn [orb].
  rewrite (ko_sum _ _ _ Hc), <- (Z.add_0_r (zsum (dvals (cache c)))). rewrite shed_fits by (rewrite <- (ko_sum _ _ _ Hc); lia). rewrite Z.add_0_r.
  f_equal. apply dkeys_dset_notin. by apply dget_None.
Qed.

Lemma cache_finish_fill cfg c f f' gid g : cache_ok cfg c f -> flight_ok f -> groups f !! gid = Some g -> content g = FillGroup ->
  groups f' = delete gid (groups f) -> cache_ok cfg (insert_entry cfg (g_tensor g) (g_bytes g) (unreserve (g_tensor g) c)) f'.
Proof.
  intros Hc HF Hg Hf HG. rewrite (fill_fits _ _ _ _ _ Hc HF Hg Hf). pose proof (fo_size _ HF _ _ Hg) as Hpos. destruct Hc.
  assert (Hres : dget (cache_reservations c) (g_tensor g) = Some (g_bytes g)) by (apply ko_fill0; eauto 10).
  assert (Hnone : dget (cache c) (g_tensor g) = None) by (apply ko_apart0; eauto).
  constructor; cbn [cache cache_bytes cache_reservations].
  - rewrite ko_sum0. unfold dvals. rewrite fmap_app, zsum_app. cbn. lia.
  - unfold dkeys. rewrite fmap_app. apply NoDup_app. split_and!; [done| |apply NoDup_singleton].
    intros k Hk ->%list_elem_of_singleton. by apply dget_None in Hnone.
  - by apply NoDup_dkeys_ddel.
  - intros t n. rewrite dget_app. destruct (dget (cache c) t) as [v|] eqn:E; [intros [= <-]; by eapply ko_positive0|]. cbn. case_decide; [by intros [= <-]|done].
  - rewrite (dvals_ddel _ _ _ Hres) in ko_capacity0. lia.
  - intros Hm. destruct (ko_mode0 Hm) as [E _]. by rewrite E in Hres.
  - intros t n. rewrite dget_ddel by done. case_decide as Et; [subst t|].
    + split; [done|]. intros (gid' & g' & [Hne Hg']%(old_lookup f f' gid HG) & Hc' & Ht' & _). exfalso. apply Hne. by eapply ko_unique0.
    + rewrite ko_fill0. split; intros (gid' & g' & Hg' & Hc' & Ht' & Hn').
      * exists gid', g'. split; [|done]. apply (old_lookup f f' gid HG). split; [|done]. intros ->. congruence.
      * apply (old_lookup f f' gid HG) in Hg' as [_ Hg']. by exists gid', g'.
  - intros g1 x1 g2 x2 [_ H1]%(old_lookup f f' gid HG) [_ H2]%(old_lookup f f' gid HG). by apply ko_unique0.
  - intros t. rewrite dget_ddel by done. case_decide as Et; [by intros [? ?]|]. intros Ht. rewrite dget_app, (ko_apart0 t Ht). cbn. by rewrite decide_False.
  - intros gid' g' [_ Hg']%(old_lookup f f' gid HG) Hh. rewrite dget_app. destruct (ko_hit0 gid' g' Hg' Hh) as [v ->]. eauto.
Qed.
End ExecutorInvariant.
