(* ===== verification/ExecutorSteps.v ===== *)
(** * ExecutorSteps: the operations of the causal executor keep its invariant

    Every operation of [CausalExecutor] returns on a state that satisfies
    [exec_inv], and keeps it. *)

From S2P Require Import Prelude ProgramLogic.
From S2P Require Import CausalWorkload CausalExecutor ExecutorInvariant.

Module ExecutorSteps.
Import ProgramLogic CausalExecutor ExecutorInvariant.
Notation wp := (ProgramLogic.wp no_fault).

(** The invariant in the middle of an operation: reads in flight as [H] says,
    groups [ex] without a job, erases [w] waiting. *)
Record mid_inv (cfg : settings) (hi : Z) (H : string -> string -> Prop) (ex : list string) (w : list transfer) (s : executor) : Prop := {
  mi_time : 0 <= now_ns s <= hi;
  mi_graph : graph_ok (CausalWorkload.batches (current s)) (plan s);
  mi_plan : plan_ok hi (now_ns s) (plan s) H;
  mi_flight : flight_ok (flight s);
  mi_busy : busy ex (flight s);
  mi_reads : reads_by hi (flight s);
  mi_cache : cache_ok cfg (kept s) (flight s);
  mi_moves : moves_ok cfg (moved s) w (flight s);
  mi_specs : specs_ok (plan s) (moved s) }.

Lemma inv_mid cfg hi s : exec_inv cfg hi s -> mid_inv cfg hi (held (flight s)) [] (deferred_source_erase (moved s)) s.
Proof. intros []. by constructor. Qed.
Lemma mid_inv_exec cfg hi H s : mid_inv cfg hi H [] (deferred_source_erase (moved s)) s -> (forall i g, held (flight s) i g <-> H i g) -> exec_inv cfg hi s.
Proof. intros [] HH. constructor; try done. by eapply plan_held. Qed.
Lemma mid_held cfg hi H H' ex w s : mid_inv cfg hi H ex w s -> (forall i g, H' i g <-> H i g) -> mid_inv cfg hi H' ex w s.
Proof. intros [] HH. constructor; try done. by eapply plan_held. Qed.

(** Nothing but the log changed. *)
Record logged (s s' : executor) : Prop := {
  lg_current : current s' = current s; lg_now : now_ns s' = now_ns s; lg_plan : plan s' = plan s; lg_flight : flight s' = flight s;
  lg_kept : kept s' = kept s; lg_moved : moved s' = moved s }.
Lemma mid_logged cfg hi H ex w s s' : mid_inv cfg hi H ex w s -> logged s s' -> mid_inv cfg hi H ex w s'.
Proof. intros [] []. constructor; rewrite ?lg_current0, ?lg_now0, ?lg_plan0, ?lg_flight0, ?lg_kept0, ?lg_moved0; done. Qed.

(** ** Registering parts *)

Definition registers {A B} (gid : string) (name : A -> string) (step : A -> X B) (part : A) : Prop := forall s1,
  wp (step part) (fun _ s2 => exists j upd, job_id j = name part /\ (current s2 = current s1 /\ now_ns s2 = now_ns s1 /\ plan s2 = plan s1 /\
    kept s2 = kept s1 /\ moved s2 = moved s1) /\ (forall g, grown [] g (upd g)) /\
    flight s2 = set_groups (alter upd gid (groups (add_job gid j (flight s1)))) (add_job gid j (flight s1))) s1.

Lemma grown_refl g : grown [] g g.
Proof. unfold grown. split_and!; try done. set_solver. Qed.
Lemma set_groups_id f gid : set_groups (alter (fun g => g) gid (groups f)) f = f.
Proof. destruct f. unfold set_groups. cbn. f_equal. by apply alter_id. Qed.

Section loops.
Context {A B : Type} (gid : string) (g : group) (name : A -> string) (s : executor) (Hg : groups (flight s) !! gid = Some g).

Lemma registers_snoc parts (step : A -> X B) part s1 : registers gid name step part -> opened gid g (name <$> parts) s s1 ->
  wp (step part) (fun _ s2 => opened gid g (name <$> parts ++ [part]) s s2) s1.
Proof using.
  intros Hr Ho. eapply wp_mono; [apply Hr|]. intros _ s2 (j & upd & Hj & (E1 & E2 & E3 & E4 & E5) & Hupd & Ef).
  rewrite fmap_app. cbn. rewrite <- Hj. by eapply opened_snoc.
Qed.

Lemma map_parts (step : A -> X B) parts : (forall part, part ∈ parts -> registers gid name step part) ->
  wp (mapS step parts) (fun _ s' => opened gid g (name <$> parts) s s') s.
Proof using Hg.
  intros Hstep. apply (wp_mapS (fun visited _ s' => opened gid g (name <$> visited) s s')); [by apply opened_nil|].
  intros visited part todo outs s' -> Ho. apply registers_snoc; [|done]. apply Hstep. set_solver.
Qed.
Lemma for_parts (step : A -> X unit) parts : (forall part, part ∈ parts -> registers gid name step part) ->
  wp (forM parts step) (fun _ s' => opened gid g (name <$> parts) s s') s.
Proof using Hg.
  intros Hstep. apply (wp_forM (fun visited s' => opened gid g (name <$> visited) s s')); [by apply opened_nil|].
  intros visited part todo s' Hl Ho. specialize (Hstep part). eapply wp_mono; [apply Hstep; set_solver|].
  intros _ s2 (j & upd & Hj & (E1 & E2 & E3 & E4 & E5) & Hupd & Ef). rewrite fmap_app. cbn. rewrite <- Hj. by eapply opened_snoc.
Qed.
End loops.

Lemma retry_registers gid tid k now part : registers gid (fun part => retry_id gid k part.1.1) (retry_part gid tid k now) part.
Proof.
  intros s1. destruct part as [[i n] pl]. unfold retry_part, open_part, defer. wp_steps.
  eexists _, (fun g => g). split; [|split; [|split; [intros g; apply grown_refl|rewrite set_groups_id; reflexivity]]]; [done|]. split_and!; done.
Qed.

(** A read records its parts for the retries. *)
Definition record_part (i n : Z) (pl : place) (g : group) : group :=
  match content g with
  | ReadGroup r => set_content (ReadGroup {| child_count := child_count r; retry_remaining := retry_remaining r;
                     retry_sequence := retry_sequence r; retry_parts := retry_parts r ++ [(i, n, pl)];
                     cache_hit := cache_hit r; from := from r; blocks_compute := blocks_compute r |}) g
  | _ => g
  end.
Lemma record_grown i n pl g : grown [] g (record_part i n pl g).
Proof. unfold record_part. destruct (content g) eqn:E; try apply grown_refl. unfold grown. cbn. rewrite E. split_and!; try done; [set_solver|]. by destruct (retry_parts r). Qed.

(** After the parts of a read group are registered, the group can be retried. *)
Definition retriable (gid : string) (f : store) : Prop := forall g r, groups f !! gid = Some g -> content g = ReadGroup r -> retry_parts r <> [].

Lemma part_names gid (parts : list (Z * Z)) j : j ∈ (fun part : Z * Z => part_id gid part.1) <$> parts -> exists a p, j = job_name gid a p.
Proof. intros ([i n] & -> & _)%list_elem_of_fmap. by exists None, i. Qed.

Section steps.
Context (cfg : settings) (Hcfg : settings_ok cfg).

Lemma fill_registers t gid size now parts part : parts_ok cfg size parts -> part ∈ parts ->
  registers gid (fun part => part_id gid part.1) (fill_part cfg t gid size now) part.
Proof using Hcfg.
  intros Hp Hin s1. destruct part as [i n]. destruct (pp_elem _ _ _ Hp i n Hin) as (Hi & _ & _). destruct (sk_place _ Hcfg (Extent t size) Fast i Hi) as [pl Hpl].
  unfold fill_part. wp_step. eapply wp_lift; [exact Hpl|]. cbn beta. unfold open_part, defer. wp_steps.
  eexists _, (fun g => g). split; [|split; [|split; [intros g; apply grown_refl|rewrite set_groups_id; reflexivity]]]; [done|]. split_and!; done.
Qed.

Lemma migration_registers x gid now parts part : parts_ok cfg (x_bytes x) parts -> part ∈ parts ->
  registers gid (fun part => part_id gid part.1) (migration_part cfg x gid now) part.
Proof using Hcfg.
  intros Hp Hin s1. destruct part as [i n]. destruct (pp_elem _ _ _ Hp i n Hin) as (Hi & _ & _).
  destruct (sk_place _ Hcfg (Spec (spec x)) match x_phase x with MigrationSource | MigrationEraseOld => Source | _ => Fast end i Hi) as [pl Hpl].
  unfold migration_part. wp_step. eapply wp_lift; [exact Hpl|]. cbn beta. unfold open_part. wp_steps.
  eexists _, (fun g => g). split; [|split; [|split; [intros g; apply grown_refl|rewrite set_groups_id; reflexivity]]]; [done|]. split_and!; done.
Qed.

Lemma read_part_ok x t k li now c tr gid i n s1 : 0 <= i < target_count cfg ->
  wp (read_part cfg x t k li now c tr gid (i, n)) (fun _ s2 => exists j pl, job_id j = part_id gid i /\ (current s2 = current s1 /\ now_ns s2 = now_ns s1 /\
    plan s2 = plan s1 /\ kept s2 = kept s1 /\ moved s2 = moved s1) /\
    flight s2 = set_groups (alter (record_part i n pl) gid (groups (add_job gid j (flight s1)))) (add_job gid j (flight s1))) s1.
Proof using Hcfg.
  intros Hi. destruct (sk_place _ Hcfg (Spec t) tr i Hi) as [pl Hpl]. unfold read_part. wp_step. eapply wp_lift; [exact Hpl|]. cbn beta. unfold open_part. wp_steps.
  eexists _, pl. split; [|split; [|reflexivity]]; [done|]. split_and!; done.
Qed.

Lemma read_parts_ok x t k li now c tr gid g size parts s : parts_ok cfg size parts -> groups (flight s) !! gid = Some g ->
  wp (mapS (read_part cfg x t k li now c tr gid) parts) (fun _ s' => opened gid g ((fun part => part_id gid part.1) <$> parts) s s' /\
    (parts <> [] -> retriable gid (flight s'))) s.
Proof using Hcfg.
  intros Hp Hg. apply (wp_mapS (fun visited _ s' => opened gid g ((fun part => part_id gid part.1) <$> visited) s s' /\ (visited <> [] -> retriable gid (flight s')))).
  - split; [by apply opened_nil|done].
  - intros visited [i n] todo outs s1 Hl [Ho _]. destruct (pp_elem _ _ _ Hp i n ltac:(rewrite Hl; set_solver)) as (Hi & _ & _).
    eapply wp_mono; [by apply read_part_ok|]. intros _ s2 (j & pl & Hj & (E1 & E2 & E3 & E4 & E5) & Ef). split.
    + rewrite fmap_app. cbn. rewrite <- Hj. eapply opened_snoc; try done. apply record_grown.
    + intros _ g' r Hg' Hc. rewrite Ef in Hg'. cbn in Hg'. rewrite lookup_alter_eq in Hg'. apply fmap_Some in Hg' as (g1 & _ & ->).
      unfold record_part in Hc. destruct (content g1) as [r1| |] eqn:Ec; [|congruence..]. cbn in Hc. injection Hc as <-. cbn. by destruct (retry_parts r1).
Qed.

(** A new group, with its parts, in a state that satisfies the invariant. *)
Lemma open_mid hi H ex w gid g names s s' : mid_inv cfg hi H (gid :: ex) w s -> groups (flight s) !! gid = Some g -> opened gid g names s s' ->
  (forall j, j ∈ names -> exists a p, j = job_name gid a p) -> names <> [] -> retriable gid (flight s') -> mid_inv cfg hi H ex w s'.
Proof using.
  intros [] Hg Ho Hnames Hne Hret. pose proof (opened_similar _ _ _ _ _ Hg Ho) as Hsim. constructor; rewrite ?(od_current _ _ _ _ _ Ho), ?(od_now _ _ _ _ _ Ho), ?(od_plan _ _ _ _ _ Ho), ?(od_kept _ _ _ _ _ Ho), ?(od_moved _ _ _ _ _ Ho); try done.
  - by eapply flight_opened.
  - by eapply busy_opened.
  - by eapply reads_opened.
  - by eapply cache_similar.
  - by eapply moves_similar.
Qed.

Lemma retriable_other gid g names s s' : opened gid g names s s' -> (forall r, content g <> ReadGroup r) -> retriable gid (flight s').
Proof using.
  intros [_ _ _ _ _ _ (g' & HG & (_ & _ & _ & _ & _ & Hc)) _ _ _] Hn g1 r Hg1 Hr. rewrite HG, lookup_insert_eq in Hg1. injection Hg1 as <-.
  rewrite Hr in Hc. by destruct (content g); [exfalso; eapply Hn|..].
Qed.

(** What the opening of a group without tasks leaves alone. *)
Record beside (s s' : executor) : Prop := {
  bs_current : current s' = current s; bs_now : now_ns s' = now_ns s; bs_plan : plan s' = plan s; bs_moved : moved s' = moved s;
  bs_old : forall gid g, groups (flight s) !! gid = Some g -> groups (flight s') !! gid = Some g;
  bs_tensor : pending_tensor (flight s') = pending_tensor (flight s);
  bs_held : forall i g, held (flight s') i g <-> held (flight s) i g;
  bs_reads : forall gid g r, groups (flight s') !! gid = Some g -> content g = ReadGroup r ->
    exists g0 r0, groups (flight s) !! gid = Some g0 /\ content g0 = ReadGroup r0 /\ from r = from r0 /\ g_tensor g = g_tensor g0 }.

Lemma beside_opened gid g names s s1 s' : groups (flight s) !! gid = None -> groups (flight s1) = <[gid := g]> (groups (flight s)) ->
  current s1 = current s -> now_ns s1 = now_ns s -> plan s1 = plan s -> moved s1 = moved s -> pending_tensor (flight s1) = pending_tensor (flight s) -> task_ids g = [] -> (forall r, content g <> ReadGroup r) ->
  opened gid g names s1 s' -> beside s s'.
Proof using.
  intros Hn HG E1 E2 E3 E4 Ept Ht Hc Ho. assert (Hg1 : groups (flight s1) !! gid = Some g) by (rewrite HG; apply lookup_insert_eq).
  pose proof (opened_similar _ _ _ _ _ Hg1 Ho) as Hsim. pose proof Ho as [O1 O2 O3 O4 O5 O6 (g1 & O7 & _) _ _ _]. constructor; try congruence.
  - intros gid' g' Hg'. rewrite O7, HG. rewrite !lookup_insert_ne; [done|congruence|congruence].
  - intros i gid'. rewrite (held_opened _ _ _ _ _ _ _ Hg1 Ho), (held_new _ _ _ _ Hn HG). rewrite Ht. split; [intros [?|[_ Hin]]; [done|by apply not_elem_of_nil in Hin]|by left].
  - intros gid' g' r Hg' Hr. destruct (similar_r _ _ _ _ Hsim Hg') as (g0 & Hg0 & (Et & _ & Hsc)). rewrite Hr in Hsc.
    destruct (content g0) as [r0| |] eqn:Ec; [|done..]. apply (new_lookup _ _ _ _ Hn HG) in Hg0 as [[-> ->]|Hg0]; [by apply Hc in Ec|].
    exists g0, r0. split_and!; try done. by destruct Hsc as (_ & -> & _).
Qed.

Lemma mid_put hi H ex w gid g s : mid_inv cfg hi H ex w s -> groups (flight s) !! gid = None -> named gid g -> pending g = ∅ -> task_ids g = [] -> 0 < g_bytes g ->
  (forall r, content g <> ReadGroup r) -> forall c', cache_ok cfg c' (set_groups (<[gid := g]> (groups (flight s))) (flight s)) ->
  moves_ok cfg (moved s) w (set_groups (<[gid := g]> (groups (flight s))) (flight s)) ->
  mid_inv cfg hi H (gid :: ex) w (on_flight (fun f => set_groups (<[gid := g]> (groups f)) f) (on_kept (fun _ => c') s)).
Proof using.
  intros [] Hn Hname Hp Ht Hpos Hnr c' Hc Hm. constructor; cbn; try done.
  - eapply (flight_new (flight s) _ gid g Hn); try done; [by left|]. rewrite Ht. constructor.
  - by apply (busy_new (flight s) _ gid g Hn).
  - eapply (reads_new (flight s) _ gid g Hn); [done|done|]. intros r Hr. by apply Hnr in Hr.
Qed.

Lemma phase_fresh f t p : flight_ok f -> (forall gid x, moving f gid x -> x_tensor x <> t) -> groups f !! phase_id t p = None.
Proof using.
  intros HF Hno. destruct (groups f !! phase_id t p) as [g|] eqn:E; [|done]. exfalso. pose proof (fo_named _ HF _ _ E) as Hn. unfold named in Hn.
  destruct (content g) as [r| |x] eqn:Ec.
  - destruct Hn as (id & E' & _ & Hp). symmetry in E'. by apply read_not_phase in E'.
  - destruct Hn as [(n & E') _]. symmetry in E'. by apply fill_not_phase in E'.
  - destruct Hn as (E' & _). apply phase_id_inj in E'. eapply Hno; [by exists g|done].
Qed.

Lemma migration_jobs_ok hi H ex w x now s : mid_inv cfg hi H ex w s -> phase_ok (moved s) x -> x_tensor x ∉ x_tensor <$> w ->
  (forall gid x', moving (flight s) gid x' -> x_tensor x' <> x_tensor x) ->
  (x_phase x = MigrationEraseOld -> forall gid g, groups (flight s) !! gid = Some g -> reads_source (x_tensor x) g = false) ->
  wp (_migration_jobs cfg x now) (fun _ s' => mid_inv cfg hi H ex w s' /\ kept s' = kept s /\ beside s s' /\
    forall gid x', moving (flight s') gid x' -> moving (flight s) gid x' \/ x' = x) s.
Proof using Hcfg.
  intros HM Hph Hw Hno Hsafe. unfold _migration_jobs, put_group. assert (Hid : move_id x = phase_id (x_tensor x) (x_phase x)).
  { unfold move_id, phase_id. by destruct Hph as (_ & -> & _). }
  rewrite Hid. set (gid := phase_id _ _). assert (Hn : groups (flight s) !! gid = None) by (apply phase_fresh; [apply HM|done]).
  set (g := {| task_ids := []; pending := ∅; completion_ns := now; g_tensor := x_tensor x; g_bytes := x_bytes x; content := MigrationGroup x |}).
  assert (Hpos : 0 < x_bytes x) by by destruct Hph as (_ & _ & ? & _).
  destruct (stripe_parts_ok cfg (sk_unit _ Hcfg) (sk_targets _ Hcfg) (x_bytes x)) as (parts & Hparts & Hp); [lia|].
  wp_step. wp_step. wp_step. eapply wp_lift; [exact Hparts|]. cbn beta.
  set (s1 := on_flight _ s). assert (Hg1 : groups (flight s1) !! gid = Some g) by apply lookup_insert_eq.
  assert (HM1 : mid_inv cfg hi H (gid :: ex) w s1).
  { assert (E : s1 = on_flight (fun f => set_groups (<[gid := g]> (groups f)) f) (on_kept (fun _ => kept s) s)) by by destruct s. rewrite E.
    apply mid_put; try done.
    - apply (cache_new (flight s) _ gid g Hn); [done|apply HM|done|done].
    - eapply (moves_new_move (flight s) _ gid g Hn); [done|apply HM|done..]. }
  eapply wp_mono; [eapply (map_parts gid g (fun part => part_id gid part.1) s1 Hg1); intros part Hin; by eapply migration_registers|].
  intros js s' Ho. cbn beta in Ho. split_and!.
  - eapply (open_mid hi H ex w gid g); [done..|apply part_names| |by eapply retriable_other].
    pose proof (parts_nonempty _ _ _ Hp Hpos). by destruct parts.
  - by rewrite (od_kept _ _ _ _ _ Ho).
  - by eapply (beside_opened gid g _ s s1).
  - intros gid' x' Hx'. apply (moving_similar _ _ _ _ (opened_similar _ _ _ _ _ Hg1 Ho)) in Hx'. apply (moving_new (flight s) (flight s1) gid g Hn eq_refl) in Hx' as [?|[-> E]]; [by left|].
    right. by injection E.
Qed.

(** ** Cache fills *)

Lemma beside_refl s s' : current s' = current s -> now_ns s' = now_ns s -> plan s' = plan s -> moved s' = moved s -> flight s' = flight s -> beside s s'.
Proof using. intros E1 E2 E3 E4 E5. constructor; rewrite ?E5; try done. eauto 10. Qed.
Lemma beside_trans s1 s2 s3 : beside s1 s2 -> beside s2 s3 -> beside s1 s3.
Proof using.
  intros [] []. constructor; try congruence.
  - auto.
  - intros i g. by rewrite bs_held1, bs_held0.
  - intros gid g r Hg Hr. destruct (bs_reads1 _ _ _ Hg Hr) as (g1 & r1 & Hg1 & Hr1 & E1 & E2). destruct (bs_reads0 _ _ _ Hg1 Hr1) as (g0 & r0 & Hg0 & Hr0 & E3 & E4).
    exists g0, r0. split_and!; congruence.
Qed.

Lemma mid_kept hi H ex w s c' : mid_inv cfg hi H ex w s -> cache_ok cfg c' (flight s) -> mid_inv cfg hi H ex w (on_kept (fun _ => c') s).
Proof using. intros [] Hc. by constructor. Qed.

Lemma evict_round_ok hi H ex w t reserved size now s0 s : mid_inv cfg hi H ex w s -> beside s0 s -> flight s = flight s0 ->
  cache_reservations (kept s) = cache_reservations (kept s0) -> dget (cache (kept s)) t = None ->
  wp (evict_round cfg reserved size now) (fun r s' => (mid_inv cfg hi H ex w s' /\ beside s0 s' /\ flight s' = flight s0 /\
    cache_reservations (kept s') = cache_reservations (kept s0) /\ dget (cache (kept s')) t = None) /\
    match r with Some _ => True | None => (length (cache (kept s')) < length (cache (kept s)))%nat end) s.
Proof using.
  intros HM HB Hf Hr Hn. unfold evict_round. wp_step. wp_step.
  destruct (bool_decide (cache (kept s) <> []) && (cache_capacity cfg <? cache_bytes (kept s) + reserved + size)); [|by wp_step].
  destruct (head (filter _ (dkeys (cache (kept s))))) as [k|] eqn:Eh; [|by wp_step].
  apply head_Some_elem_of in Eh. apply list_elem_of_filter in Eh as [Hpin Hk]. apply dget_is_Some in Hk as [n Hk].
  wp_step. eapply wp_lift; [by apply dindex_Ok|]. cbn beta. unfold emit. wp_steps. split; [split_and!|].
  - eapply mid_logged; [eapply (mid_kept _ _ _ _ _ (evict k n (kept s)) HM)|by constructor]. eapply evict_cache; [apply HM|done|].
    intros gid g Hg Hh Ht. apply Hpin. rewrite <- Ht. apply list_elem_of_fmap_2. apply list_elem_of_In, List.filter_In. split; [|done].
    apply list_elem_of_In. unfold group_list. apply list_elem_of_fmap. exists (gid, g). split; [done|]. by apply elem_of_map_to_list.
  - eapply beside_trans; [exact HB|]. by apply beside_refl.
  - done.
  - done.
  - cbn. rewrite dget_ddel by apply (ko_keys _ _ _ (mi_cache _ _ _ _ _ _ HM)). by case_decide.
  - cbn. rewrite (Permutation_length (ddel_perm _ _ _ Hk)). cbn. lia.
Qed.

Lemma fill_fresh f c t n : flight_ok f -> cache_ok cfg c f -> dget (cache_reservations c) t = None -> groups f !! fill_id t n = None.
Proof using.
  intros HF Hc Hr. destruct (groups f !! fill_id t n) as [g|] eqn:E; [|done]. exfalso. pose proof (fo_named _ HF _ _ E) as Hn. unfold named in Hn.
  destruct (content g) as [r| |x] eqn:Ec.
  - destruct Hn as (id & E' & _). symmetry in E'. by apply read_not_fill in E'.
  - destruct Hn as [(m & E') _]. apply fill_id_inj in E'. assert (Ef : dget (cache_reservations c) t = Some (g_bytes g)) by (apply (ko_fill _ _ _ Hc); eauto 10). congruence.
  - destruct Hn as (E' & _). by apply fill_not_phase in E'.
Qed.

Lemma offer_fill_ok hi H ex w t size now s : mid_inv cfg hi H ex w s -> 0 < size ->
  wp (_offer_cache_fill cfg t size now) (fun _ s' => mid_inv cfg hi H ex w s' /\ beside s s') s.
Proof using Hcfg.
  intros HM Hsize. assert (HB : beside s s) by by apply beside_refl. unfold _offer_cache_fill. wp_step. wp_step.
  destruct (bool_decide (caching cfg <> ExternalHbm)) eqn:Em; [cbn [orb]; by wp_step|]. apply bool_decide_eq_false in Em. cbn [orb].
  destruct (cache_capacity cfg <? size); [by wp_step|]. destruct (dmem (cache (kept s)) t) eqn:E1; [cbn [orb]; by wp_step|]. cbn [orb].
  destruct (dmem (cache_reservations (kept s)) t) eqn:E2; [by wp_step|]. unfold dmem in E1, E2.
  destruct (dget (cache (kept s)) t) eqn:G1; [done|]. destruct (dget (cache_reservations (kept s)) t) eqn:G2; [done|]. clear E1 E2.
  set (reserved := zsum (dvals (cache_reservations (kept s)))). wp_step.
  eapply (wp_mono _ (fun _ s' => mid_inv cfg hi H ex w s' /\ beside s s' /\ flight s' = flight s /\ cache_reservations (kept s') = cache_reservations (kept s) /\
      dget (cache (kept s')) t = None)).
  { apply (wp_loop (fun s' => mid_inv cfg hi H ex w s' /\ beside s s' /\ flight s' = flight s /\ cache_reservations (kept s') = cache_reservations (kept s) /\
      dget (cache (kept s')) t = None) (fun s' => length (cache (kept s')))); [|by split_and!|lia].
    intros s1 (HM1 & HB1 & Hf1 & Hr1 & Hn1). eapply wp_mono; [by eapply (evict_round_ok hi H ex w t)|]. intros [b|] s2 [HP Hlen]; [done|]. by split. }
  intros room s1 (HM1 & HB1 & Hf1 & Hr1 & Hn1). wp_steps. destruct (negb room); [cbn [orb]; by wp_step|]. cbn [orb].
  destruct (Z.ltb_spec (cache_capacity cfg) (reserved + cache_bytes (kept s1) + size)) as [|Hroom]; [by wp_step|].
  unfold put_group. set (gid := fill_id t now). assert (Hnew : groups (flight s1) !! gid = None).
  { eapply fill_fresh; [apply HM1|apply HM1|]. by rewrite Hr1. }
  set (g := {| task_ids := []; pending := ∅; completion_ns := now; g_tensor := t; g_bytes := size; content := FillGroup |}).
  destruct (stripe_parts_ok cfg (sk_unit _ Hcfg) (sk_targets _ Hcfg) size) as (parts & Hparts & Hp); [lia|].
  wp_steps. eapply wp_lift; [exact Hparts|]. cbn beta.
  set (s2 := on_flight _ _). assert (Hg2 : groups (flight s2) !! gid = Some g) by apply lookup_insert_eq.
  assert (HM2 : mid_inv cfg hi H (gid :: ex) w s2).
  { apply (mid_put hi H ex w gid g s1 HM1 Hnew); [cbn; split; [by exists now|done]|done..| |].
    - eapply (cache_new_fill (flight s1) _ gid g Hnew); [done|apply HM1|done..| |by rewrite Hr1|done|].
      + by destruct (caching cfg); [exfalso; apply Em|exfalso; apply Em|].
      + rewrite Hr1. fold reserved. lia.
    - eapply (moves_new_other (flight s1) _ gid g Hnew); [done|apply HM1|done|done]. }
  eapply wp_mono; [eapply (for_parts gid g (fun part => part_id gid part.1) s2 Hg2); intros part Hin; by eapply fill_registers|].
  intros [] s' Ho. split.
  - eapply (open_mid hi H ex w gid g); [done..|apply part_names| |by eapply retriable_other]. pose proof (parts_nonempty _ _ _ Hp Hsize). by destruct parts.
  - eapply beside_trans; [exact HB1|]. eapply (beside_opened gid g _ s1 s2); done.
Qed.

(** ** Completions of fills and retries *)

Lemma finish_fill_ok hi H w gid g now s : mid_inv cfg hi H [gid] w s -> groups (flight s) !! gid = Some g -> content g = FillGroup -> pending g = ∅ ->
  wp (finish_fill cfg gid g now) (fun _ s' => mid_inv cfg hi H [] w s' /\ (current s' = current s /\ now_ns s' = now_ns s /\ plan s' = plan s /\
    moved s' = moved s) /\ forall i g', held (flight s') i g' <-> held (flight s) i g') s.
Proof using.
  intros HM Hg Hc Hp. unfold finish_fill. wp_step. wp_step.
  assert (Hres : dget (cache_reservations (kept s)) (g_tensor g) = Some (g_bytes g)) by (apply (ko_fill _ _ _ (mi_cache _ _ _ _ _ _ HM)); eauto 10).
  wp_step. eapply wp_lift; [by apply dindex_Ok|]. cbn beta. unfold _insert_cache, emit. wp_steps. set (s' := on_flight _ _).
  assert (HG : groups (flight s') = delete gid (groups (flight s))) by done. destruct HM. split; [constructor; try done|split; [done|]].
  - eapply (flight_old (flight s) (flight s') gid g); try done. intros t gid' E. cbn in E. split; [|done]. intros ->.
    destruct (fo_tensor _ mi_flight0 _ _ E) as (g' & r & Hg' & Hr & _). congruence.
  - by eapply (busy_old (flight s) (flight s') gid).
  - by eapply (reads_old (flight s) (flight s') gid).
  - by eapply (cache_finish_fill cfg (kept s) (flight s) (flight s') gid g).
  - by eapply (moves_old (flight s) (flight s') gid).
  - intros i g'. rewrite (held_old _ _ _ HG). split; [by intros [? _]|]. intros Hh. split; [done|]. intros ->. destruct Hh as (g1 & Hg1 & Hi). rewrite Hg in Hg1. injection Hg1 as <-.
    pose proof (fo_named _ mi_flight0 _ _ Hg) as Hn. unfold named in Hn. rewrite Hc in Hn. destruct Hn as [_ Hn]. rewrite Hn in Hi. by apply not_elem_of_nil in Hi.
Qed.

(** ** Offering reads *)

Notation Inv hi w s := (mid_inv cfg hi (held (flight s)) [] w s).

Record polled (s s' : executor) : Prop := {
  pl_current : current s' = current s; pl_now : now_ns s' = now_ns s; pl_tasks : tasks (plan s') = tasks (plan s);
  pl_arrival : arrival (plan s') = arrival (plan s); pl_moved : moved s' = moved s }.
Lemma polled_refl s : polled s s.
Proof using. done. Qed.
Lemma polled_trans s1 s2 s3 : polled s1 s2 -> polled s2 s3 -> polled s1 s3.
Proof using. intros [] []. constructor; congruence. Qed.

Lemma graph_plan bs p p' : graph_ok bs p -> tasks p' = tasks p -> arrival p' = arrival p -> graph_ok bs p'.
Proof using. intros [] E1 E2. constructor; rewrite ?E1, ?E2; done. Qed.
Lemma specs_plan p p' v : specs_ok p v -> tasks p' = tasks p -> specs_ok p' v.
Proof using. unfold specs_ok. by intros H ->. Qed.

(** A read that is about to be offered. *)
Record offerable (s : executor) (id : string) (x : task) (t : tensor) (issue consume : list string) (n : Z) : Prop := {
  of_task : dget (tasks (plan s)) id = Some x;
  of_job : CausalWorkload.job x = CausalWorkload.Storage t issue consume n;
  of_issue : done_by (plan s) issue (now_ns s);
  of_done : done (plan s) !! id = None;
  of_new : id ∉ offered (plan s) }.

Lemma offerable_not_held hi w s id x t issue consume n g : Inv hi w s -> offerable s id x t issue consume n -> ~ held (flight s) id g.
Proof using. intros HM Ho Hh. apply (po_held _ _ _ _ (mi_plan _ _ _ _ _ _ HM)) in Hh as (Hin & _). by apply (of_new _ _ _ _ _ _ _ Ho). Qed.
Lemma offerable_not_ready hi w s id x t issue consume n : Inv hi w s -> offerable s id x t issue consume n -> external_ready (plan s) !! id = None.
Proof using.
  intros HM Ho. destruct (external_ready (plan s) !! id) as [[r src]|] eqn:E; [|done]. apply (po_ready _ _ _ _ (mi_plan _ _ _ _ _ _ HM)) in E as (Hin & _).
  by apply (of_new _ _ _ _ _ _ _ Ho) in Hin.
Qed.

Lemma ideal_hit_ok hi w s id x t issue consume n : Inv hi w s -> offerable s id x t issue consume n -> 0 <= hi ->
  wp (ideal_hit id (CausalWorkload.tensor_id t) (now_ns s) (_deps_time (done (plan s)) consume)) (fun _ s' => Inv hi w s' /\ polled s s') s.
Proof using.
  intros HM Ho Hhi. pose proof (offerable_not_ready _ _ _ _ _ _ _ _ _ HM Ho) as Hnr. pose proof (fun g => offerable_not_held _ _ _ _ _ _ _ _ _ g HM Ho) as Hnh.
  destruct Ho as [Hx Hj Hby Hd Hnew]. pose proof (mi_time _ _ _ _ _ _ HM) as Htime. pose proof (mi_plan _ _ _ _ _ _ HM) as HP.
  assert (Hkeep : forall i g, held (flight s) i g <-> held (flight s) i g /\ i <> id) by (intros i g; split; [|by intros [? _]]; intros H; split; [done|]; intros ->; by apply Hnh in H).
  set (p1 := set_ready (<[id := (now_ns s, FromCache)]> (external_ready (plan s))) (set_offered ({[id]} ∪ offered (plan s)) (plan s))).
  assert (HP1 : plan_ok hi (now_ns s) p1 (held (flight s))).
  { eapply (plan_deliver _ _ _ _ HP p1 (held (flight s)) id x t issue consume n (now_ns s) FromCache); try done; lia. }
  unfold ideal_hit, offer. wp_steps.
  assert (Hfin : forall p', tasks p' = tasks (plan s) -> arrival p' = arrival (plan s) -> plan_ok hi (now_ns s) p' (held (flight s)) -> forall l,
      Inv hi w (on_out l (on_plan (fun _ => p') (on_kept (touch (CausalWorkload.tensor_id t)) s))) /\
      polled s (on_out l (on_plan (fun _ => p') (on_kept (touch (CausalWorkload.tensor_id t)) s)))).
  { intros p' Et Ea HP' l. split; [|by constructor]. destruct HM. constructor; cbn; try done.
    - by eapply graph_plan.
    - by apply touch_cache.
    - by eapply specs_plan. }
  destruct (_deps_time (done (plan s)) consume) as [c|] eqn:Ec.
  - unfold mark_done, emit. wp_steps. match goal with |- mid_inv _ _ _ _ _ ?s' /\ _ => set (s1 := s') end.
    assert (Hp' : plan_ok hi (now_ns s) (plan s1) (held (flight s))).
    { pose proof (deps_time_bound _ _ _ hi Ec Hhi (po_time _ _ _ _ HP)). eapply (plan_finish _ _ _ _ HP1 (plan s1) (held (flight s)) id x (Z.max (now_ns s) c)); try done.
      - cbn. by rewrite delete_insert_id.
      - by left.
      - apply (po_available _ _ _ _ HP).
      - unfold CausalWorkload.deps. rewrite Hj. apply done_by_app. split; [eapply done_by_mono; [exact Hby|auto|lia]|].
        intros i Hi. destruct (deps_time_Some _ _ _ Ec i Hi) as (v & Hv & Hle). exists v. split; [done|lia].
      - lia.
      - intros st fin E. destruct (po_running _ _ _ _ HP _ _ _ E) as (_ & _ & y & d & a & b & Hy & Hjy & _). rewrite Hx in Hy. injection Hy as <-. by rewrite Hj in Hjy. }
    exact (Hfin (plan s1) eq_refl eq_refl Hp' (fun _ => out s1)).
  - unfold emit. wp_steps. match goal with |- mid_inv _ _ _ _ _ ?s' /\ _ => set (s1 := s') end. exact (Hfin p1 eq_refl eq_refl HP1 (fun _ => out s1)).
Qed.

Lemma coalesce_ok hi w s id x t issue consume n gid : Inv hi w s -> offerable s id x t issue consume n ->
  pending_tensor (flight s) !! CausalWorkload.tensor_id t = Some gid ->
  wp (coalesce id gid (now_ns s)) (fun _ s' => Inv hi w s' /\ polled s s') s.
Proof using Hcfg.
  intros HM Ho Hpt. pose proof (fun g => offerable_not_held _ _ _ _ _ _ _ _ _ g HM Ho) as Hnh. pose proof HM as [Ht HG HP HF HB HR HC HV HS]. destruct Ho as [Hx Hj Hby Hd Hnew].
  destruct (fo_tensor _ HF _ _ Hpt) as (g & r & Hg & Hc & Hgt). unfold coalesce, offer, emit. wp_step. wp_step. wp_step. eapply wp_lift; [unfold gindex; by rewrite Hg|]. cbn beta. wp_steps.
  match goal with |- mid_inv _ _ _ _ _ ?s' /\ _ => set (s1 := s') end. split; [|by constructor].
  assert (Hgs : groups (flight s1) = <[gid := join_task id g]> (groups (flight s))) by (cbn; apply map_eq; intros k; destruct (decide (k = gid)) as [->|]; [rewrite lookup_alter_eq, lookup_insert_eq, Hg; done|by rewrite lookup_alter_ne, lookup_insert_ne]).
  assert (Hlook : forall gid' g', groups (flight s1) !! gid' = Some g' -> (gid' = gid /\ g' = join_task id g) \/ (gid' <> gid /\ groups (flight s) !! gid' = Some g')).
  { intros gid' g'. rewrite Hgs. intros [[<- <-]|[Hne E]]%lookup_insert_Some; auto. }
  assert (Hsim : similar (flight s) (flight s1)) by (apply (similar_insert _ _ gid g (join_task id g) Hg); [by split_and!|exact Hgs]).
  constructor; try done.
  - by eapply graph_plan.
  - eapply (plan_offer _ _ _ _ HP (plan s1) (held (flight s1)) id gid x t issue consume n); try done.
    intros i gid'. unfold held. split.
    + intros (g' & Hg' & Hi). destruct (Hlook _ _ Hg') as [[-> ->]|[Hne Hold]]; [|left; by exists g'].
      cbn in Hi. apply elem_of_app in Hi as [Hi|Hi%list_elem_of_singleton]; [left; by exists g|by right].
    + intros [(g' & Hg' & Hi)|[-> ->]].
      * destruct (decide (gid' = gid)) as [->|Hne].
        -- rewrite Hg in Hg'. injection Hg' as <-. exists (join_task id g). rewrite Hgs, lookup_insert_eq. split; [done|]. cbn. set_solver.
        -- exists g'. rewrite Hgs, lookup_insert_ne by done. done.
      * exists (join_task id g). rewrite Hgs, lookup_insert_eq. split; [done|]. cbn. set_solver.
  - destruct HF as [F1 F2 F3 F4 F5 F6 F7 F8]. constructor; try done.
    + intros j gid' E. destruct (F1 _ _ E) as (g' & Hg' & Hjp). rewrite Hgs. destruct (decide (gid' = gid)) as [->|Hne].
      * rewrite Hg in Hg'. injection Hg' as <-. exists (join_task id g). by rewrite lookup_insert_eq.
      * exists g'. by rewrite lookup_insert_ne.
    + intros gid' g' j Hg' Hjp. destruct (Hlook _ _ Hg') as [[-> ->]|[Hne Hold]]; [by apply (F2 gid g)|by apply (F2 gid' g')].
    + intros t' gid' E. destruct (F5 _ _ E) as (g' & r' & Hg' & Hc' & Ht'). rewrite Hgs. destruct (decide (gid' = gid)) as [->|Hne].
      * rewrite Hg in Hg'. injection Hg' as <-. exists (join_task id g), r'. by rewrite lookup_insert_eq.
      * exists g', r'. by rewrite lookup_insert_ne.
    + intros gid' g' Hg'. destruct (Hlook _ _ Hg') as [[-> ->]|[Hne Hold]]; [|by apply F6]. pose proof (F6 _ _ Hg) as Hnm. unfold named in *. cbn. rewrite Hc in *.
      destruct Hnm as (i & E1 & E2 & E3). exists i. split_and!; try done. set_solver.
    + intros gid' g' Hg'. destruct (Hlook _ _ Hg') as [[-> ->]|[Hne Hold]]; [|by eapply F7]. cbn. apply NoDup_app. split_and!; [by eapply F7| |apply NoDup_singleton].
      intros i Hi ->%list_elem_of_singleton. apply (Hnh gid). by exists g.
    + intros gid' g' Hg'. destruct (Hlook _ _ Hg') as [[-> ->]|[Hne Hold]]; [|by eapply F8]. by eapply (F8 gid g).
  - intros gid' g' Hg' Hex. destruct (Hlook _ _ Hg') as [[-> ->]|[Hne Hold]]; [|by apply (HB gid')]. by apply (HB gid g Hg).
  - intros gid' g' r' Hg' Hr'. destruct (Hlook _ _ Hg') as [[-> ->]|[Hne Hold]]; [by eapply (HR gid g)|by eapply HR].
  - by eapply cache_similar.
  - by eapply moves_similar.
Qed.

Lemma read_fresh hi w s id x t issue consume n : Inv hi w s -> offerable s id x t issue consume n -> groups (flight s) !! read_group_id id = None.
Proof using.
  intros HM Ho. pose proof (fun g => offerable_not_held _ _ _ _ _ _ _ _ _ g HM Ho) as Hnh. pose proof (mi_flight _ _ _ _ _ _ HM) as HF.
  destruct (graph_task _ _ _ _ (mi_graph _ _ _ _ _ _ HM) (of_task _ _ _ _ _ _ _ Ho)) as (b & _ & _ & _ & _ & _ & Hplain).
  destruct (groups (flight s) !! read_group_id id) as [g|] eqn:E; [|done]. exfalso. pose proof (fo_named _ HF _ _ E) as Hn. unfold named in Hn.
  destruct (content g) as [r| |y] eqn:Ec.
  - destruct Hn as (id' & E' & Hin & _). apply read_group_id_inj in E' as <-. apply (Hnh (read_group_id id)). by exists g.
  - destruct Hn as [(k & E') _]. by apply read_not_fill in E'.
  - destruct Hn as (E' & _). by apply read_not_phase in E'.
Qed.

Lemma open_read_ok hi w s x t issue consume n li cr hit : Inv hi w s -> offerable s (task_id x) x t issue consume n ->
  (hit = true -> caching cfg = ExternalHbm /\ is_Some (dget (cache (kept s)) (CausalWorkload.tensor_id t))) ->
  wp (open_read cfg x t n li (now_ns s) cr hit) (fun _ s' => Inv hi w s' /\ polled s s') s.
Proof using Hcfg.
  intros HM Ho Hhit. pose proof (read_fresh _ _ _ _ _ _ _ _ _ HM Ho) as Hnew. pose proof HM as [Ht HG HP HF HB HR HC HV HS].
  destruct (graph_task _ _ _ _ HG (of_task _ _ _ _ _ _ _ Ho)) as (b & _ & _ & _ & _ & Hwork & Hplain). destruct Ho as [Hx Hj Hby Hd Hoff].
  assert (Hpos : 0 < CausalWorkload.bytes t) by (unfold CausalWorkload.positive_work in Hwork; by rewrite Hj in Hwork).
  unfold open_read, offer, put_group. wp_step. wp_step. set (gid := read_group_id (task_id x)). set (tid := CausalWorkload.tensor_id t).
  destruct (stripe_parts_ok cfg (sk_unit _ Hcfg) (sk_targets _ Hcfg) (CausalWorkload.bytes t)) as (parts & Hparts & Hp); [lia|].
  wp_step. eapply wp_lift; [exact Hparts|]. cbn beta. wp_steps.
  match goal with |- wp _ _ (on_flight (fun f => set_groups (<[gid := ?g0]> (groups f)) f) ?s0) => set (g := g0); set (s1 := on_flight (fun f => set_groups (<[gid := g]> (groups f)) f) s0) end.
  assert (Hg1 : groups (flight s1) !! gid = Some g) by apply lookup_insert_eq.
  assert (HGs : groups (flight s1) = <[gid := g]> (groups (flight s))) by done.
  assert (HM1 : mid_inv cfg hi (held (flight s1)) [gid] w s1).
  { constructor; try done.
    - by eapply graph_plan.
    - eapply (plan_offer _ _ _ _ HP (plan s1) (held (flight s1)) (task_id x) gid x t issue consume n); try done.
      intros i gid'. rewrite (held_new _ _ _ _ Hnew HGs). cbn. rewrite list_elem_of_singleton. naive_solver.
    - eapply (flight_new (flight s) _ gid g Hnew HGs HF); try done.
      + right. split; [done|]. eexists. reflexivity.
      + cbn. exists (task_id x). split_and!; [done|set_solver|done].
      + apply NoDup_singleton.
    - by apply (busy_new (flight s) _ gid g Hnew).
    - eapply (reads_new (flight s) _ gid g Hnew HGs); [done|]. intros _ _. cbn. lia.
    - eapply (cache_new (flight s) _ gid g Hnew HGs); [done|done|]. unfold is_hit. cbn. exact Hhit.
    - eapply (moves_new_other (flight s) _ gid g Hnew HGs); [done|done|]. intros r Hr. cbn in Hr. injection Hr as <-. cbn. split.
      + by eapply HS.
      + destruct hit; [done|]. intros E. fold tid. fold tid in E. destruct (tensor_tier (moved s) !! tid) as [[]|]; done. }
  eapply wp_mono; [eapply (read_parts_ok x t n li (now_ns s) _ _ gid g _ parts s1 Hp Hg1)|]. intros js s' [Hop Hret].
  pose proof (parts_nonempty _ _ _ Hp Hpos) as Hne. split.
  - eapply mid_held; [|intros i gid'; by apply (held_opened _ _ _ _ _ _ _ Hg1 Hop)].
    eapply (open_mid hi _ [] w gid g); [done..|apply part_names|by destruct parts|by apply Hret].
  - constructor; by rewrite ?(od_current _ _ _ _ _ Hop), ?(od_now _ _ _ _ _ Hop), ?(od_plan _ _ _ _ _ Hop), ?(od_moved _ _ _ _ _ Hop).
Qed.

Lemma offerable_later s s' id x t issue consume n : plan s' = plan s -> now_ns s' = now_ns s -> offerable s id x t issue consume n -> offerable s' id x t issue consume n.
Proof using. intros E1 E2 []. constructor; rewrite ?E1, ?E2; done. Qed.

Lemma poll_task_ok hi w s acc id x : Inv hi w s -> 0 <= hi -> dget (tasks (plan s)) id = Some x ->
  wp (poll_task cfg (now_ns s) acc (id, x)) (fun _ s' => Inv hi w s' /\ polled s s') s.
Proof using Hcfg.
  intros HM Hhi Hx. pose proof (polled_refl s) as Hrefl. unfold poll_task. wp_step. wp_step.
  destruct (CausalWorkload.job x) as [t issue consume n|d after term] eqn:Hj; [|by wp_step].
  destruct (has (done (plan s)) id) eqn:Hd; [cbn [orb]; by wp_step|]. cbn [orb]. apply has_false in Hd.
  destruct (bool_decide (id ∈ offered (plan s))) eqn:Hoff; [by wp_step|]. apply bool_decide_eq_false in Hoff.
  destruct (eligible_ok _ _ _ _ issue (mi_graph _ _ _ _ _ _ HM) Hx) as (a & Ha & He). wp_step. eapply wp_lift; [exact He|]. cbn beta.
  destruct (_deps_time (done (plan s)) issue) as [r|] eqn:Er; cbn [fmap option_fmap option_map]; [|by wp_step].
  destruct (Z.ltb_spec (now_ns s) (Z.max r a)) as [|Hle]; [by wp_step|].
  assert (Hof : offerable s id x t issue consume n).
  { constructor; try done. intros i Hi. destruct (deps_time_Some _ _ _ Er i Hi) as (v & Hv & Hvr). exists v. split; [done|lia]. }
  destruct (bool_decide (caching cfg = IdealMetadataOnly) && dmem (cache (kept s)) (CausalWorkload.tensor_id t)).
  { wp_step. eapply wp_mono; [by eapply ideal_hit_ok|]. intros u s' H. by wp_step. }
  destruct (if coalescing_enabled cfg then pending_tensor (flight s) !! CausalWorkload.tensor_id t else None) as [gid|] eqn:Ec.
  { destruct (coalescing_enabled cfg); [|done]. wp_step. eapply wp_mono; [by eapply coalesce_ok|]. intros u s' H. by wp_step. }
  assert (Hid : task_id x = id) by (destruct (graph_task _ _ _ _ (mi_graph _ _ _ _ _ _ HM) Hx) as (b & _ & _ & ? & _); done).
  destruct (bool_decide (caching cfg = ExternalHbm) && dmem (cache (kept s)) (CausalWorkload.tensor_id t)) eqn:Eh.
  - apply andb_true_iff in Eh as [Em Eh]. apply bool_decide_eq_true in Em. unfold dmem in Eh. destruct (dget (cache (kept s)) (CausalWorkload.tensor_id t)) as [m|] eqn:Em'; [|done].
    unfold emit. wp_steps. set (s1 := on_out _ _).
    assert (HM1 : Inv hi w s1) by (eapply mid_logged; [apply (mid_kept _ _ _ _ _ (touch (CausalWorkload.tensor_id t) (kept s)) HM); by apply touch_cache, HM|by constructor]).
    eapply (wp_mono _ (fun _ s' => Inv hi w s' /\ polled s1 s')).
    + apply (open_read_ok hi w s1 x t issue consume n); [done|rewrite Hid; by apply (offerable_later s)|]. intros _. split; [done|]. cbn. unfold touch. rewrite Em'. cbn.
      rewrite dget_app, dget_ddel_eq by apply (ko_keys _ _ _ (mi_cache _ _ _ _ _ _ HM)). cbn. rewrite decide_True by done. eauto.
    + intros js s' [H1 H2]. wp_step. split; [done|]. eapply polled_trans; [|exact H2]. done.
  - wp_steps. eapply wp_mono; [eapply (open_read_ok hi w s x t issue consume n); [done|by rewrite Hid|done]|]. intros js s' H. by wp_step.
Qed.

Lemma moves_drop v w1 x w2 f : moves_ok cfg v (w1 ++ x :: w2) f ->
  moves_ok cfg v (w1 ++ w2) f /\ phase_ok v x /\ x_phase x = MigrationEraseOld /\ x_tensor x ∉ x_tensor <$> w1 ++ w2 /\
  forall gid y, moving f gid y -> x_tensor y <> x_tensor x.
Proof using.
  intros []. assert (Hp : w1 ++ x :: w2 ≡ₚ x :: w1 ++ w2) by by rewrite Permutation_middle.
  assert (Hnd : NoDup (x_tensor <$> x :: w1 ++ w2)) by by rewrite <- Hp. rewrite fmap_cons in Hnd. apply NoDup_cons in Hnd as [Hnin Hnd].
  destruct (mo_waiting0 x) as [Hph Hera]; [rewrite Hp; apply elem_of_cons; by left|].
  split; [|split_and!; try done].
  - constructor; try done.
    + intros y Hy. apply mo_waiting0. rewrite Hp. apply elem_of_cons. by right.
    + intros gid y Hy Hin. apply (mo_apart0 gid y Hy). rewrite Hp, fmap_cons. apply elem_of_cons. by right.
  - intros gid y Hy E. apply (mo_apart0 gid y Hy). rewrite Hp, fmap_cons, E. apply elem_of_cons. by left.
Qed.

Lemma no_source_read f t : existsb (reads_source t) (group_list f) = false -> forall gid g, groups f !! gid = Some g -> reads_source t g = false.
Proof using.
  intros E gid g Hg. destruct (reads_source t g) eqn:Er; [|done]. exfalso. enough (H : existsb (reads_source t) (group_list f) = true) by congruence.
  apply existsb_exists. exists g. split; [|done]. apply list_elem_of_In. unfold group_list. apply list_elem_of_fmap. exists (gid, g). split; [done|]. by apply elem_of_map_to_list.
Qed.

Lemma beside_polled s s' : beside s s' -> polled s s'.
Proof using. intros []. constructor; congruence. Qed.

Lemma poll_erases_ok hi w s now : mid_inv cfg hi (held (flight s)) [] w s ->
  forall js, wp (foldS (poll_erase cfg now) w (js, [])) (fun r s' => Inv hi r.2 s' /\ polled s s') s.
Proof using Hcfg.
  intros HM js. eapply (wp_mono _ (fun r s' => exists todo, w = w ++ todo /\ Inv hi (r.2 ++ todo) s' /\ polled s s')).
  2:{ intros r s' (todo & E & H). assert (todo = []) as -> by (apply (app_inv_head w); by rewrite app_nil_r). by rewrite app_nil_r in H. }
  apply (wp_foldS (fun visited r s' => exists todo, w = visited ++ todo /\ Inv hi (r.2 ++ todo) s' /\ polled s s')).
  - exists w. split_and!; [done|done|by apply polled_refl].
  - intros visited x todo [result waiting_] s1 Hw (todo' & Hw' & HM1 & HP1). rewrite Hw in Hw'. apply app_inv_head in Hw' as <-. cbn [snd] in HM1.
    unfold poll_erase. wp_step. wp_step. destruct (existsb (reads_source (x_tensor x)) (group_list (flight s1))) eqn:Es.
    + wp_step. exists todo. cbn [snd]. rewrite <- !app_assoc. done.
    + pose proof (moves_drop _ _ _ _ _ (mi_moves _ _ _ _ _ _ HM1)) as (HV & Hph & Hera & Hnin & Hno). wp_step.
      eapply wp_mono; [eapply (migration_jobs_ok hi (held (flight s1)) [] (waiting_ ++ todo) x now s1)|].
      * destruct HM1. by constructor.
      * done.
      * done.
      * done.
      * intros _. by apply no_source_read.
      * intros js' s2 (HM2 & _ & HB & _). wp_step. exists todo. cbn [snd]. rewrite <- app_assoc. split_and!; [done| |eapply polled_trans; [done|by apply beside_polled]].
        eapply mid_held; [done|]. apply (bs_held _ _ HB).
Qed.

Lemma moves_set_deferred v l w f : moves_ok cfg v w f -> moves_ok cfg (set_deferred l v) w f.
Proof using. intros []. by constructor. Qed.

(** Every delivered read waits for a dependency. *)
Definition consumed (p : sched) : Prop := forall id r src x, external_ready p !! id = Some (r, src) -> dget (tasks p) id = Some x ->
  exists after, consume_after x = Ok after /\ _deps_time (done p) after = None.

(** What [poll] leaves for a task that is not done. *)
Definition awaiting (now : Z) (s : executor) : Prop :=
  consumed (plan s) /\ (compute_running (plan s) = None -> existsb blocking (group_list (flight s)) = true \/ forall id, ~ startable (plan s) now id).

Lemma poll_ok hi now s : exec_inv cfg hi s -> hi <= now ->
  wp (poll cfg now) (fun _ s' => exec_inv cfg now s' /\ now_ns s' = now /\ current s' = current s /\ tasks (plan s') = tasks (plan s) /\ awaiting now s') s.
Proof using Hcfg.
  intros Hinv Hhi. pose proof (xi_time _ _ _ Hinv) as Ht. unfold poll. wp_step. apply wp_require; [intros E; apply Z.leb_gt in E; lia|intros _].
  wp_step. wp_step. wp_step. apply wp_require; [intros E; apply Z.leb_gt in E; lia|intros _]. wp_step. wp_step.
  assert (Hinv1 : exec_inv cfg now (set_now now s)).
  { destruct Hinv. constructor; cbn; try done; [lia| |].
    - eapply plan_later; [done|lia|lia].
    - intros gid g r Hg Hr. specialize (xi_reads0 gid g r Hg Hr). lia. }
  wp_step. eapply wp_mono; [apply (resolve_ok cfg now now); [done|lia]|]. rewrite Z.max_id. intros [] s1 (Hinv2 & HR & _). wp_step. wp_step. wp_step. wp_step.
  wp_step. set (s2 := on_out _ s1). assert (HM2 : Inv now (deferred_source_erase (moved s1)) s2) by (apply (mid_logged _ _ _ _ _ s1); [exact (inv_mid _ _ _ Hinv2)|by constructor]).
  eapply wp_mono; [apply (poll_erases_ok now _ s2 now HM2)|]. intros [result waiting_] s3 [HM3 HP3]. cbn [snd] in HM3. wp_steps. set (s4 := on_moved _ s3).
  assert (HM4 : Inv now (deferred_source_erase (moved s4)) s4) by (destruct HM3; constructor; try done; by apply moves_set_deferred).
  assert (Hs4 : now_ns s4 = now /\ current s4 = current s /\ tasks (plan s4) = tasks (plan s)).
  { change (now_ns s3 = now /\ current s3 = current s /\ tasks (plan s3) = tasks (plan s)). destruct HP3, HR. cbn in *. split_and!; congruence. }
  destruct Hs4 as (N4 & C4 & T4).
  eapply (wp_mono _ (fun _ s' => Inv now (deferred_source_erase (moved s4)) s' /\ polled s4 s')).
  { apply (wp_foldS (fun _ _ s' => Inv now (deferred_source_erase (moved s4)) s' /\ polled s4 s')); [split; [done|by apply polled_refl]|].
    intros visited [id x] todo acc s5 Hl [HM5 HP5]. assert (Hx : dget (tasks (plan s5)) id = Some x).
    { rewrite (pl_tasks _ _ HP5). apply dget_elem; [apply (go_keys _ _ (mi_graph _ _ _ _ _ _ HM4))|rewrite Hl; set_solver]. }
    pose proof (poll_task_ok now _ s5 acc id x HM5 ltac:(lia) Hx) as Hstep. rewrite (pl_now _ _ HP5), N4 in Hstep.
    eapply wp_mono; [exact Hstep|]. intros u s6 [HM6 HP6]. split; [done|by eapply polled_trans]. }
  intros js s5 [HM5 HP5]. assert (Hinv5 : exec_inv cfg now s5).
  { apply (mid_inv_exec _ _ (held (flight s5))); [|done]. by rewrite (pl_moved _ _ HP5). }
  wp_step. eapply wp_mono; [apply (resolve_ok cfg now now); [done|lia]|]. rewrite Z.max_id. intros [] s6 (Hinv6 & HR6 & Hset).
  wp_step. eapply wp_mono; [apply (start_compute_ok cfg now now); [done|lia]|]. intros [] s7 (Hinv7 & HR7 & D7 & O7 & R7 & Hst). wp_step.
  split_and!; [done| | | |].
  - rewrite (rp_now _ _ HR7), (rp_now _ _ HR6), (pl_now _ _ HP5). done.
  - rewrite (rp_current _ _ HR7), (rp_current _ _ HR6), (pl_current _ _ HP5). done.
  - rewrite (rp_tasks _ _ HR7), (rp_tasks _ _ HR6), (pl_tasks _ _ HP5). done.
  - split; [|done]. intros id r src x. rewrite R7, D7, (rp_tasks _ _ HR7). apply (proj1 Hset).
Qed.

(** ** Completions *)

(** One job of a group is reported. *)
Definition reported (gid : string) (g : group) (id : string) (f : store) : store := set_groups (<[gid := g]> (groups f)) (drop_job id f).

Lemma flight_reported f gid g id at_ns : flight_ok f -> job_group f !! id = Some gid -> groups f !! gid = Some g ->
  flight_ok (reported gid (set_completion at_ns (set_pending (pending g ∖ {[id]}) g)) id f).
Proof using.
  intros [F1 F2 F3 F4 F5 F6 F7 F8] Hid Hg. set (g1 := set_completion _ _).
  assert (Hlook : forall gid' g', <[gid := g1]> (groups f) !! gid' = Some g' -> (gid' = gid /\ g' = g1) \/ (gid' <> gid /\ groups f !! gid' = Some g')).
  { intros gid' g' [[<- <-]|[Hne E]]%lookup_insert_Some; auto. }
  constructor; cbn.
  - intros j gid' [Hne E]%lookup_delete_Some. destruct (F1 _ _ E) as (g' & Hg' & Hj). destruct (decide (gid' = gid)) as [->|Hn].
    + rewrite Hg in Hg'. injection Hg' as <-. exists g1. rewrite lookup_insert_eq. split; [done|]. cbn. apply elem_of_difference. split; [done|]. by rewrite elem_of_singleton.
    + exists g'. by rewrite lookup_insert_ne.
  - intros gid' g' j Hg' Hj. destruct (Hlook _ _ Hg') as [[-> ->]|[Hne Hold]].
    + cbn in Hj. apply elem_of_difference in Hj as [Hj Hne]. rewrite elem_of_singleton in Hne. rewrite lookup_delete_ne by done. by apply (F2 gid g).
    + destruct (F2 _ _ _ Hold Hj) as [E Hname]. split; [|done]. rewrite lookup_delete_ne; [done|]. intros ->. congruence.
  - intros j. destruct (decide (j = id)) as [->|Hne]; [rewrite !lookup_delete_eq; by split; intros [? ?]|]. by rewrite !lookup_delete_ne.
  - intros j. destruct (decide (j = id)) as [->|Hne]; [rewrite !lookup_delete_eq; by split; intros [? ?]|]. by rewrite !lookup_delete_ne.
  - intros t gid' E. destruct (F5 _ _ E) as (g' & r & Hg' & Hc & Ht). destruct (decide (gid' = gid)) as [->|Hne].
    + rewrite Hg in Hg'. injection Hg' as <-. exists g1, r. by rewrite lookup_insert_eq.
    + exists g', r. by rewrite lookup_insert_ne.
  - intros gid' g' Hg'. destruct (Hlook _ _ Hg') as [[-> ->]|[Hne Hold]]; [|by apply F6]. exact (F6 _ _ Hg).
  - intros gid' g' Hg'. destruct (Hlook _ _ Hg') as [[-> ->]|[Hne Hold]]; [|by eapply F7]. exact (F7 _ _ Hg).
  - intros gid' g' Hg'. destruct (Hlook _ _ Hg') as [[-> ->]|[Hne Hold]]; [|by eapply F8]. exact (F8 _ _ Hg).
Qed.

(** A job fails and its group reads again. *)
Lemma retry_read_ok hi H w gid g r now s : mid_inv cfg hi H [gid] w s -> groups (flight s) !! gid = Some g -> content g = ReadGroup r -> retry_parts r <> [] ->
  wp (retry_read gid g r now) (fun _ s' => mid_inv cfg hi H [] w s' /\ polled s s' /\ forall i g', held (flight s') i g' <-> held (flight s) i g') s.
Proof using.
  intros HM Hg Hc Hne. unfold retry_read, put_group. wp_steps. match goal with |- wp _ _ (on_flight (fun f => set_groups (<[gid := ?g0]> (groups f)) f) _) => set (g1 := g0) end.
  set (s1 := on_flight _ s). assert (Hg1 : groups (flight s1) !! gid = Some g1) by apply lookup_insert_eq.
  assert (HG1 : groups (flight s1) = <[gid := g1]> (groups (flight s))) by done.
  assert (Hal : alike g g1) by (split_and!; [done..|]; cbn; by rewrite Hc).
  pose proof (similar_insert _ (flight s1) _ _ _ Hg Hal HG1) as Hsim.
  assert (Hlook : forall gid' g', groups (flight s1) !! gid' = Some g' -> (gid' = gid /\ g' = g1) \/ (gid' <> gid /\ groups (flight s) !! gid' = Some g')).
  { intros gid' g'. rewrite HG1. intros [[<- <-]|[Hn E]]%lookup_insert_Some; auto. }
  assert (HM1 : mid_inv cfg hi H [gid] w s1).
  { destruct HM as [M1 M2 M3 M4 M5 M6 M7 M8 M9]. constructor; try done.
    - destruct M4 as [F1 F2 F3 F4 F5 F6 F7 F8]. constructor; try done.
      + intros j gid' E. destruct (F1 _ _ E) as (g' & Hg' & Hj). rewrite HG1. destruct (decide (gid' = gid)) as [->|Hn].
        * rewrite Hg in Hg'. injection Hg' as <-. exists g1. by rewrite lookup_insert_eq.
        * exists g'. by rewrite lookup_insert_ne.
      + intros gid' g' j Hg' Hj. destruct (Hlook _ _ Hg') as [[-> ->]|[Hn Hold]]; [by apply (F2 gid g)|by apply (F2 gid' g')].
      + intros t gid' E. destruct (F5 _ _ E) as (g' & r' & Hg' & Hc' & Ht). rewrite HG1. destruct (decide (gid' = gid)) as [->|Hn].
        * rewrite Hg in Hg'. injection Hg' as <-. exists g1. eexists. rewrite lookup_insert_eq. split_and!; [done|cbn; reflexivity|done].
        * exists g', r'. by rewrite lookup_insert_ne.
      + intros gid' g' Hg'. destruct (Hlook _ _ Hg') as [[-> ->]|[Hn Hold]]; [|by apply F6]. apply (alike_named gid g); [done|done|by apply F6].
      + intros gid' g' Hg'. destruct (Hlook _ _ Hg') as [[-> ->]|[Hn Hold]]; [|by eapply F7]. exact (F7 _ _ Hg).
      + intros gid' g' Hg'. destruct (Hlook _ _ Hg') as [[-> ->]|[Hn Hold]]; [|by eapply F8]. exact (F8 _ _ Hg).
    - intros gid' g' Hg' Hex. destruct (Hlook _ _ Hg') as [[-> ->]|[Hn Hold]]; [by destruct Hex; apply list_elem_of_singleton|by apply (M5 gid')].
    - intros gid' g' r' Hg' Hr'. destruct (Hlook _ _ Hg') as [[-> ->]|[Hn Hold]]; [exact (M6 gid g r Hg Hc)|by eapply M6].
    - by eapply cache_similar.
    - by eapply moves_similar. }
  eapply wp_mono; [eapply (for_parts gid g1 (fun part => retry_id gid (retry_sequence r + 1) part.1.1) s1 Hg1); intros part Hin; apply retry_registers|].
  intros [] s' Ho. split_and!.
  - eapply (open_mid hi H [] w gid g1); [done..| |by destruct (retry_parts r)|].
    + intros j (part & -> & _)%list_elem_of_fmap. by exists (Some (retry_sequence r + 1)), part.1.1.
    + intros g' r' Hg' Hr'. destruct Ho as [_ _ _ _ _ _ (g2 & HG2 & (_ & _ & _ & _ & _ & Hsc)) _ _ _]. rewrite HG2, lookup_insert_eq in Hg'. injection Hg' as <-.
      rewrite Hr' in Hsc. destruct Hsc as (_ & _ & _ & Hsc). by apply Hsc.
  - constructor; by rewrite ?(od_current _ _ _ _ _ Ho), ?(od_now _ _ _ _ _ Ho), ?(od_plan _ _ _ _ _ Ho), ?(od_moved _ _ _ _ _ Ho).
  - intros i g'. rewrite (held_opened _ _ _ _ _ _ _ Hg1 Ho). by apply (held_insert (flight s) (flight s1) gid g g1).
Qed.

Lemma mid_plan hi H H' ex w s p' : mid_inv cfg hi H ex w s -> tasks p' = tasks (plan s) -> arrival p' = arrival (plan s) -> plan_ok hi (now_ns s) p' H' ->
  mid_inv cfg hi H' ex w (on_plan (fun _ => p') s).
Proof using Hcfg. intros [] E1 E2 HP. constructor; cbn; try done; [by eapply graph_plan|by eapply specs_plan]. Qed.

(** A read that is in flight is delivered to one of its tasks. *)
Lemma deliver_ok hi H ex w s gid tid at_ns id : mid_inv cfg hi H ex w s -> H id gid -> now_ns s <= at_ns <= hi ->
  wp (deliver tid at_ns id) (fun _ s' => mid_inv cfg hi (fun i g => H i g /\ i <> id) ex w s' /\ polled s s' /\ flight s' = flight s /\ kept s' = kept s) s.
Proof using Hcfg.
  intros HM Hh Hat. pose proof (mi_plan _ _ _ _ _ _ HM) as HP. pose proof (mi_time _ _ _ _ _ _ HM) as Htime.
  destruct (po_held _ _ _ _ HP _ _ Hh) as (Ho & Hd & Hr). destruct (po_offered _ _ _ _ HP _ Ho) as (x & t & issue & consume & n & Hx & Hj & Hby).
  unfold deliver. wp_step. wp_step. wp_step. eapply wp_lift; [by apply dindex_Ok|]. cbn beta. wp_step. eapply wp_lift; [unfold consume_after; by rewrite Hj|]. cbn beta.
  assert (Hin : {[id]} ∪ offered (plan s) = offered (plan s)) by set_solver.
  destruct (_deps_time (done (plan s)) consume) as [c|] eqn:Ec.
  - pose proof (deps_time_bound _ _ _ hi Ec ltac:(lia) (po_time _ _ _ _ HP)). unfold mark_done, emit. wp_steps.
    match goal with |- mid_inv _ _ _ _ _ ?s' /\ _ => set (s1 := s') end. split; [|split; [by constructor|done]].
    eapply (mid_logged _ _ _ _ _ (on_plan (fun _ => plan s1) s)); [|by constructor]. eapply mid_plan; [done..|].
    eapply (plan_finish _ _ _ _ HP (plan s1) _ id x (Z.max at_ns c)); try done.
    + cbn. by rewrite delete_id.
    + by left.
    + apply (po_available _ _ _ _ HP).
    + unfold CausalWorkload.deps. rewrite Hj. apply done_by_app. split; [eapply done_by_mono; [exact Hby|auto|lia]|].
      intros i Hi. destruct (deps_time_Some _ _ _ Ec i Hi) as (v & Hv & Hle). exists v. split; [done|lia].
    + lia.
    + intros st fin E. destruct (po_running _ _ _ _ HP _ _ _ E) as (_ & _ & y & d & a & b & Hy & Hjy & _). rewrite Hx in Hy. injection Hy as <-. by rewrite Hj in Hjy.
  - wp_steps. match goal with |- mid_inv _ _ _ _ _ ?s' /\ _ => set (s1 := s') end. split; [|split; [by constructor|done]].
    eapply (mid_plan _ _ _ _ _ s (plan s1)); [done..|]. eapply (plan_deliver _ _ _ _ HP (plan s1) _ id x t issue consume n at_ns FromService); try done; lia.
Qed.

Lemma deliver_all_ok hi ex w s gid g tid at_ns : mid_inv cfg hi (held (flight s)) ex w s -> groups (flight s) !! gid = Some g -> now_ns s <= at_ns <= hi ->
  wp (forM (task_ids g) (deliver tid at_ns)) (fun _ s' => mid_inv cfg hi (fun i g' => held (flight s) i g' /\ i ∉ task_ids g) ex w s' /\ polled s s' /\
    flight s' = flight s /\ kept s' = kept s) s.
Proof using Hcfg.
  intros HM Hg Hat. pose proof (fo_distinct _ (mi_flight _ _ _ _ _ _ HM) _ _ Hg) as Hnd.
  apply (wp_forM (fun visited s' => mid_inv cfg hi (fun i g' => held (flight s) i g' /\ i ∉ visited) ex w s' /\ polled s s' /\ flight s' = flight s /\ kept s' = kept s)).
  - split_and!; [|by apply polled_refl|done|done]. eapply mid_held; [done|]. intros i g'. cbn. split; [by intros [? _]|]. intros H. split; [done|]. apply not_elem_of_nil.
  - intros visited id todo s1 Hl (HM1 & HP1 & Hf1 & Hk1). eapply wp_mono; [eapply (deliver_ok _ _ _ _ _ gid)|].
    + exact HM1.
    + cbn. split; [exists g; split; [done|rewrite Hl; set_solver]|]. rewrite Hl in Hnd. apply NoDup_app in Hnd as (_ & Hdisj & _). intros Hv. apply (Hdisj id Hv). apply elem_of_cons. by left.
    + by rewrite (pl_now _ _ HP1).
    + intros [] s2 (HM2 & HP2 & Hf2 & Hk2). split_and!; [|by eapply polled_trans|congruence|congruence].
      eapply mid_held; [exact HM2|]. intros i g'. cbn. rewrite elem_of_app, list_elem_of_singleton. naive_solver.
Qed.

Lemma moves_count v w f t : moves_ok cfg v w f -> is_Some (tensor_specs v !! t) -> moves_ok cfg (count_access t v) w f.
Proof using Hcfg.
  intros [] Ht. constructor; try done. intros t'. cbn. destruct (decide (t' = t)) as [->|Hne]; [done|]. rewrite lookup_insert_ne by done. apply mo_counted0.
Qed.

Lemma mid_unpend hi H ex w s gid g : mid_inv cfg hi H ex w s -> groups (flight s) !! gid = Some g ->
  wp (if bool_decide (pending_tensor (flight s) !! g_tensor g = Some gid)
      then modify (on_flight (fun f => set_pending_tensor (delete (g_tensor g) (pending_tensor f)) f)) else sret tt)
    (fun _ s' => mid_inv cfg hi H ex w s' /\ polled s s' /\ kept s' = kept s /\ groups (flight s') = groups (flight s) /\
      forall t gid', pending_tensor (flight s') !! t = Some gid' -> gid' <> gid) s.
Proof using Hcfg.
  intros HM Hg. pose proof (mi_flight _ _ _ _ _ _ HM) as HF.
  assert (Hown : forall t, pending_tensor (flight s) !! t = Some gid -> t = g_tensor g).
  { intros t E. destruct (fo_tensor _ HF _ _ E) as (g' & r & Hg' & _ & <-). rewrite Hg in Hg'. by injection Hg' as <-. }
  case_bool_decide as Hp.
  - wp_step. split_and!; [|by constructor|done|done|].
    + assert (Hsim : similar (flight s) (set_pending_tensor (delete (g_tensor g) (pending_tensor (flight s))) (flight s))) by by apply similar_same.
      destruct HM. constructor; try done; [|by eapply cache_similar|by eapply moves_similar].
      destruct HF. constructor; try done. intros t gid' E. cbn in E. apply lookup_delete_Some in E as [_ E]. by apply fo_tensor0.
    + intros t gid' E ->. cbn in E. apply lookup_delete_Some in E as [Hne E]. by apply Hown in E.
  - wp_step. split_and!; [done|by apply polled_refl|done|done|]. intros t gid' E ->. apply Hp. by rewrite <- (Hown t E).
Qed.

Lemma finish_read_ok hi w gid g r s : mid_inv cfg hi (held (flight s)) [gid] w s -> groups (flight s) !! gid = Some g -> content g = ReadGroup r -> pending g = ∅ ->
  now_ns s <= completion_ns g <= hi -> w = deferred_source_erase (moved s) ->
  wp (finish_read cfg gid g r) (fun _ s' => exec_inv cfg hi s' /\ now_ns s' = now_ns s /\ current s' = current s /\ tasks (plan s') = tasks (plan s)) s.
Proof using Hcfg.
  intros HM Hg Hc Hp Hat Hw. pose proof (fo_size _ (mi_flight _ _ _ _ _ _ HM) _ _ Hg) as Hpos. unfold finish_read. wp_step. wp_step. wp_step.
  eapply wp_mono; [by apply (mid_unpend hi (held (flight s)) [gid] w s gid g)|]. intros u1 s1 (HM1 & HP1 & Hk1 & HG1 & Hpt1).
  assert (Hh1 : forall i g', held (flight s1) i g' <-> held (flight s) i g') by (intros i g'; unfold held; by rewrite HG1).
  apply wp_bind. eapply (wp_mono _ (fun _ s' => mid_inv cfg hi (held (flight s1)) [gid] w s' /\ polled s1 s' /\ flight s' = flight s1)).
  { destruct (blocks_compute r); [unfold emit|]; wp_steps; (split_and!; [|by constructor|done]); [eapply (mid_logged _ _ _ _ _ s1)|]; try (by eapply mid_held); by constructor. }
  intros u2 s2 (HM2 & HP2 & Hf2). apply wp_bind.
  assert (Hg2 : groups (flight s2) !! gid = Some g) by by rewrite Hf2, HG1.
  eapply (wp_mono _ (fun _ s' => mid_inv cfg hi (held (flight s')) [gid] w s' /\ polled s2 s' /\ groups (flight s') !! gid = Some g /\
      pending_tensor (flight s') = pending_tensor (flight s1))).
  { assert (HM2' : mid_inv cfg hi (held (flight s2)) [gid] w s2) by by rewrite Hf2 at 1.
    destruct (caching cfg) eqn:Em; [|unfold _insert_cache; wp_step; split_and!; [|by constructor|done|by rewrite <- Hf2]|].
    2:{ apply (mid_kept _ _ _ _ s2 (insert_entry cfg (g_tensor g) (g_bytes g) (kept s2)) HM2'). apply insert_ideal; [apply HM2'|by rewrite Em|done]. }
    all: destruct (cache_hit r); [wp_step; split_and!; [done|by apply polled_refl|done|by rewrite <- Hf2]|].
    all: eapply wp_mono; [by apply (offer_fill_ok hi (held (flight s2)) [gid] w)|]; intros u s' [HM' HB]; split_and!;
      [eapply mid_held; [exact HM'|apply (bs_held _ _ HB)]|by apply beside_polled|by apply (bs_old _ _ HB)|by rewrite (bs_tensor _ _ HB), Hf2]. }
  intros u3 s3 (HM3 & HP3 & Hg3 & Hpt3). apply wp_bind.
  assert (Hpoll3 : polled s s3) by (eapply polled_trans; [exact HP1|]; eapply polled_trans; done).
  eapply wp_mono; [eapply (deliver_all_ok hi [gid] w s3 gid g); [done..|by rewrite (pl_now _ _ Hpoll3)]|].
  intros u4 s4 (HM4 & HP4 & Hf4 & Hk4). wp_step. wp_step. wp_step. unfold emit. wp_step. wp_step. wp_step. set (s5 := on_flight _ _).
  assert (HG5 : groups (flight s5) = delete gid (groups (flight s3))) by (cbn; by rewrite Hf4).
  assert (Hinv5 : exec_inv cfg hi s5).
  { apply (mid_inv_exec _ _ (fun i g' => held (flight s3) i g' /\ i ∉ task_ids g)).
    - assert (Hw5 : deferred_source_erase (moved s5) = w) by (cbn; rewrite (pl_moved _ _ HP4), (pl_moved _ _ Hpoll3); done). rewrite Hw5.
      destruct HM4 as [M1 M2 M3 M4 M5 M6 M7 M8 M9]. rewrite Hf4 in *. constructor; try done.
      + eapply (flight_old (flight s3) (flight s5) gid g); try done; try (cbn; by rewrite Hf4). intros t gid' E. cbn in E. rewrite Hf4 in E. split; [|done]. rewrite Hpt3 in E. by eapply Hpt1.
      + by eapply (busy_old (flight s3) (flight s5) gid).
      + by eapply (reads_old (flight s3) (flight s5) gid).
      + eapply (cache_old (flight s3) (flight s5) gid g); [done..|]. by rewrite Hc.
      + eapply (moves_old (flight s3) (flight s5) gid); [done|]. apply moves_count; [done|]. by eapply mo_read.
    - intros i g'. rewrite (held_old _ _ _ HG5). split; intros [Hh Hn]; (split; [done|]).
      + intros Hi. apply Hn. eapply (po_unique _ _ _ _ (mi_plan _ _ _ _ _ _ HM3)); [exact Hh|]. by exists g.
      + intros ->. destruct Hh as (g1 & Hg1 & Hi). rewrite Hg3 in Hg1. by injection Hg1 as <-. }
  eapply wp_mono; [apply (resolve_ok cfg hi (completion_ns g)); [done|]|].
  - pose proof (mi_time _ _ _ _ _ _ HM). lia.
  - rewrite Z.max_l by lia. intros [] s6 (Hinv6 & HR & _). split_and!; [done| | |].
    + rewrite (rp_now _ _ HR). cbn. by rewrite (pl_now _ _ HP4), (pl_now _ _ Hpoll3).
    + rewrite (rp_current _ _ HR). cbn. by rewrite (pl_current _ _ HP4), (pl_current _ _ Hpoll3).
    + rewrite (rp_tasks _ _ HR). cbn. by rewrite (pl_tasks _ _ HP4), (pl_tasks _ _ Hpoll3).
Qed.

(** Only what is recorded for the tensor [t] changed, and [t] does not move. *)
Lemma moves_update v v' w f t : moves_ok cfg v w f ->
  (forall t', t' <> t -> pending_migrations v' !! t' = pending_migrations v !! t' /\ tensor_tier v' !! t' = tensor_tier v !! t' /\ tensor_versions v' !! t' = tensor_versions v !! t') ->
  tensor_specs v' = tensor_specs v -> access_count v' = access_count v -> migration_used_bytes v' <= migration_used_bytes v ->
  (forall gid x, moving f gid x -> x_tensor x <> t) -> t ∉ x_tensor <$> w -> moves_ok cfg v' w f.
Proof using.
  intros [] Hv Es Ea Hu Hno Hw. assert (Hph : forall x, x_tensor x <> t -> phase_ok v x -> phase_ok v' x).
  { intros x Hne. unfold phase_ok. destruct (Hv _ Hne) as (-> & -> & ->). done. }
  constructor; rewrite ?Es, ?Ea; try done.
  - intros gid x Hx. apply Hph; [by eapply Hno|by eapply mo_group0].
  - intros x Hx. destruct (mo_waiting0 x Hx). split; [|done]. apply Hph; [|done]. intros <-. apply Hw. by apply list_elem_of_fmap_2.
  - lia.
Qed.

Lemma moves_wait v w f x : moves_ok cfg v w f -> phase_ok v x -> x_phase x = MigrationEraseOld -> x_tensor x ∉ x_tensor <$> w ->
  (forall gid y, moving f gid y -> x_tensor y <> x_tensor x) -> moves_ok cfg v (w ++ [x]) f.
Proof using.
  intros [] Hph Hp Hw Hno. constructor; try done.
  - intros y [Hy|Hy%list_elem_of_singleton]%elem_of_app; [by apply mo_waiting0|by subst].
  - rewrite fmap_app. apply NoDup_app. split_and!; [done| |apply NoDup_singleton]. intros t Ht ->%list_elem_of_singleton. done.
  - intros gid y Hy. rewrite fmap_app, elem_of_app. intros [Hin|Hin%list_elem_of_singleton]; [by apply (mo_apart0 gid y)|by apply (Hno gid y)].
Qed.

Lemma mid_moved hi H ex w w' s v' : mid_inv cfg hi H ex w s -> moves_ok cfg v' w' (flight s) -> tensor_specs v' = tensor_specs (moved s) ->
  mid_inv cfg hi H ex w' (on_moved (fun _ => v') s).
Proof using. intros [] Hm Es. constructor; try done. unfold specs_ok in *. cbn. by rewrite Es. Qed.

(** The rest of the state, in a step that changes only the flight and the
    migrations. *)
Record stepped (s s' : executor) : Prop := {
  st_current : current s' = current s; st_now : now_ns s' = now_ns s; st_tasks : tasks (plan s') = tasks (plan s) }.

Lemma migration_phase_ok hi w gid g x now s : mid_inv cfg hi (held (flight s)) [gid] w s -> groups (flight s) !! gid = Some g -> content g = MigrationGroup x ->
  pending g = ∅ -> w = deferred_source_erase (moved s) ->
  wp (_complete_migration_phase cfg gid g x now) (fun _ s' => exec_inv cfg hi s' /\ stepped s s') s.
Proof using Hcfg.
  intros HM Hg Hc Hp Hw. pose proof (mi_flight _ _ _ _ _ _ HM) as HF. pose proof (mi_moves _ _ _ _ _ _ HM) as HV.
  assert (Hmov : moving (flight s) gid x) by by exists g. pose proof (mo_group _ _ _ _ HV _ _ Hmov) as Hph. pose proof (mo_apart _ _ _ _ HV _ _ Hmov) as Hapart.
  pose proof (fo_named _ HF _ _ Hg) as Hname. unfold named in Hname. rewrite Hc in Hname. destruct Hname as (_ & Ht & _ & Hids).
  unfold _complete_migration_phase, emit. wp_step. wp_step. wp_step. wp_step. set (s1 := on_out _ _).
  assert (HG1 : groups (flight s1) = delete gid (groups (flight s))) by done.
  assert (Hno : forall gid' y, moving (flight s1) gid' y -> x_tensor y <> x_tensor x).
  { intros gid' y [Hy Hne]%(moving_old _ _ _ HG1) E. apply Hne. by eapply (mo_unique _ _ _ _ HV). }
  assert (HM1 : mid_inv cfg hi (held (flight s1)) [] w s1).
  { eapply (mid_held _ _ (held (flight s))).
    - destruct HM as [M1 M2 M3 M4 M5 M6 M7 M8 M9]. constructor; try done.
      + eapply (flight_old (flight s) (flight s1) gid g); try done. intros t gid' E. cbn in E. split; [|done]. intros ->.
        destruct (fo_tensor _ M4 _ _ E) as (g' & r & Hg' & Hr & _). congruence.
      + by eapply (busy_old (flight s) (flight s1) gid).
      + by eapply (reads_old (flight s) (flight s1) gid).
      + eapply (cache_old (flight s) (flight s1) gid g); [done..|]. by rewrite Hc.
      + by eapply (moves_old (flight s) (flight s1) gid).
    - intros i g'. rewrite (held_old _ _ _ HG1). split; [by intros [? _]|]. intros Hh. split; [done|]. intros ->. destruct Hh as (g1 & Hg1 & Hi). rewrite Hg in Hg1. injection Hg1 as <-.
      rewrite Hids in Hi. by apply not_elem_of_nil in Hi. }
  assert (Hdone : forall s', mid_inv cfg hi (held (flight s')) [] (deferred_source_erase (moved s')) s' -> exec_inv cfg hi s') by (intros s' H'; by apply (mid_inv_exec _ _ _ _ H')).
  rewrite Ht. destruct (x_phase x) eqn:Ephase.
  - wp_step. eapply wp_mono; [eapply (migration_jobs_ok hi _ [] w (set_phase MigrationDestination x) now s1 HM1); [|done..]|].
    + unfold phase_ok in *. rewrite Ephase in Hph. cbn. done.
    + intros js s2 (HM2 & _ & HB & _). unfold defer. wp_step. split; [|destruct HB; constructor; cbn in *; congruence].
      apply Hdone. cbn. rewrite (bs_moved _ _ HB). cbn. rewrite <- Hw. eapply (mid_logged _ _ _ _ _ s2); [|by constructor]. eapply mid_held; [exact HM2|apply (bs_held _ _ HB)].
  - assert (Hver : (default 0 (tensor_versions (moved s1) !! x_tensor x) =? expected_version x) = true).
    { unfold phase_ok in Hph. rewrite Ephase in Hph. destruct Hph as (_ & _ & _ & ->). apply Z.eqb_refl. }
    wp_step. wp_step. rewrite Hver. wp_steps. split; [|by constructor]. set (x' := set_phase MigrationEraseOld x).
    match goal with |- exec_inv _ _ ?s' => set (s2 := s') end. apply Hdone.
    apply (mid_logged _ _ _ _ _ (on_moved (fun _ => moved s2) s1)); [|by constructor].
    apply (mid_moved hi _ [] w _ s1); [done| |done]. change (deferred_source_erase (moved s2)) with (deferred_source_erase (moved s) ++ [x']). rewrite <- Hw.
    apply moves_wait; [|unfold phase_ok; cbn; rewrite lookup_insert_eq; by destruct Hph as (? & ? & ? & _)|done..].
    apply (moves_update (moved s1) _ w _ (x_tensor x)); [apply HM1| |done..]. intros t' Hne. cbn. by rewrite !lookup_insert_ne.
  - wp_step. split; [|by constructor]. apply Hdone. match goal with |- mid_inv _ _ _ _ _ ?s' => set (s2 := s') end. change (deferred_source_erase (moved s2)) with (deferred_source_erase (moved s)). rewrite <- Hw.
    apply (mid_moved hi _ [] w _ s1); [done| |done]. apply (moves_update (moved s1) _ w _ (x_tensor x)); [apply HM1| |done|done|cbn; lia|done|done]. intros t' Hne. cbn. by rewrite lookup_delete_ne.
  - exfalso. unfold phase_ok in Hph. rewrite Ephase in Hph. by destruct Hph as (_ & _ & _ & ?).
Qed.

Lemma complete_job_ok hi id at_ns n arrived s : exec_inv cfg hi s -> now_ns s <= at_ns -> job_bytes (flight s) !! id = Some n -> job_arrival (flight s) !! id = Some arrived ->
  arrived <= at_ns -> wp (complete cfg id at_ns n) (fun _ s' => exec_inv cfg (Z.max hi at_ns) s' /\ stepped s s') s.
Proof using Hcfg.
  intros Hinv Hat Hn Ha Harr. pose proof (xi_time _ _ _ Hinv) as Htime. pose proof (xi_flight _ _ _ Hinv) as HF. unfold complete. wp_step. wp_step.
  wp_step. apply wp_require; [by rewrite bool_decide_eq_true_2 by done|intros _]. wp_step. apply wp_require; [intros E; apply Z.leb_gt in E; lia|intros _].
  wp_step. eapply wp_lift; [unfold gindex; by rewrite Ha|]. cbn beta. wp_step. apply wp_require; [intros E; apply Z.leb_gt in E; lia|intros _].
  assert (Hjg : is_Some (job_group (flight s) !! id)) by (apply (fo_bytes _ HF); eauto). destruct Hjg as [gid Hgid].
  destruct (fo_job _ HF _ _ Hgid) as (g & Hg & Hpend).
  wp_step. wp_step. wp_step. eapply wp_lift; [unfold gindex; by rewrite Hgid|]. cbn beta. wp_step. eapply wp_lift; [unfold gindex; by rewrite Hg|]. cbn beta.
  wp_step. apply wp_require; [by rewrite bool_decide_eq_true_2 by done|intros _]. unfold put_group, emit. wp_step. wp_step. wp_step. wp_step.
  set (g1 := set_completion _ _). set (s1 := on_out _ _). assert (Hg1 : groups (flight s1) !! gid = Some g1) by apply lookup_insert_eq.
  assert (HG1 : groups (flight s1) = <[gid := g1]> (groups (flight s))) by done.
  assert (Hal : alike g g1) by by split_and!. pose proof (similar_insert _ (flight s1) _ _ _ Hg Hal HG1) as Hsim.
  assert (Hbusy : forall gid' g', groups (flight s1) !! gid' = Some g' -> (gid' = gid -> pending g1 <> ∅) ->
      pending g' <> ∅ /\ match content g' with ReadGroup r => retry_parts r <> [] | _ => True end).
  { intros gid' g'. rewrite HG1. intros [[<- <-]|[Hne E]]%lookup_insert_Some Hex; [split; [by apply Hex|]|].
    - apply (xi_busy _ _ _ Hinv gid g Hg). apply not_elem_of_nil.
    - apply (xi_busy _ _ _ Hinv gid' g' E). apply not_elem_of_nil. }
  assert (HM1 : forall ex, (gid ∉ ex -> pending g1 <> ∅) -> mid_inv cfg (Z.max hi at_ns) (held (flight s1)) ex (deferred_source_erase (moved s1)) s1).
  { intros ex Hex. eapply (mid_held _ _ (held (flight s))); [|intros i g'; by apply (held_insert (flight s) (flight s1) gid g g1)].
    destruct Hinv. constructor; try done.
    - cbn. lia.
    - eapply plan_later; [done|lia|cbn; lia].
    - by apply (flight_reported (flight s) gid g id).
    - intros gid' g' Hg' Hin. apply (Hbusy gid' g' Hg'). intros ->. by apply Hex.
    - intros gid' g' r Hg' Hr. rewrite HG1 in Hg'. apply lookup_insert_Some in Hg' as [[<- <-]|[Hne E]].
      + cbn. specialize (xi_reads0 gid g r Hg Hr). lia.
      + specialize (xi_reads0 gid' g' r E Hr). lia.
    - by eapply cache_similar.
    - by eapply moves_similar. }
  destruct (decide (pending g1 = ∅)) as [Hempty|Hp]; [rewrite bool_decide_eq_false_2 by (intros Hne; by apply Hne)|rewrite bool_decide_eq_true_2 by done].
  2:{ wp_step. split; [|by constructor]. apply (mid_inv_exec _ _ (held (flight s1))); [|done]. apply HM1. done. }
  assert (HMx : mid_inv cfg (Z.max hi at_ns) (held (flight s1)) [gid] (deferred_source_erase (moved s1)) s1) by (apply HM1; intros Hin; exfalso; apply Hin; set_solver).
  assert (Hstep : stepped s s1) by by constructor. change (content g1) with (content g). destruct (content g) as [r| |x] eqn:Ec.
  - destruct (retry_remaining r =? 0).
    + eapply wp_mono; [apply (finish_read_ok (Z.max hi at_ns) _ gid g1 r s1 HMx Hg1); [done|done| |done]|].
      * pose proof (xi_reads _ _ _ Hinv gid g r Hg Ec). cbn. lia.
      * intros u s' (H1 & H2 & H3 & H4). split; [done|]. by constructor.
    + eapply wp_mono; [apply (retry_read_ok _ _ _ gid g1 r at_ns s1 HMx Hg1); [done|]|].
      * assert (Hb : pending g <> ∅ /\ match content g with ReadGroup r => retry_parts r <> [] | _ => True end) by (apply (xi_busy _ _ _ Hinv gid g Hg); apply not_elem_of_nil). rewrite Ec in Hb. apply Hb.
      * intros u s' (H1 & H2 & H3). split; [|destruct H2; by constructor]. apply (mid_inv_exec _ _ (held (flight s1))); [|exact H3]. by rewrite (pl_moved _ _ H2).
  - eapply wp_mono; [apply (finish_fill_ok _ _ _ gid g1 at_ns s1 HMx Hg1 Ec Hempty)|]. intros u s' (H1 & (H2 & H3 & H4 & H5) & H6).
    split; [|constructor; [by rewrite H2|by rewrite H3|by rewrite H4]]. apply (mid_inv_exec _ _ (held (flight s1))); [by rewrite H5|exact H6].
  - eapply wp_mono; [by apply (migration_phase_ok (Z.max hi at_ns) _ gid g1 x at_ns s1 HMx Hg1)|]. intros u s' (H1 & H2). split; [done|]. destruct H2. by constructor.
Qed.

(** ** Offering migrations *)

Lemma stepped_trans s1 s2 s3 : stepped s1 s2 -> stepped s2 s3 -> stepped s1 s3.
Proof using. intros [] []. constructor; congruence. Qed.

Lemma moves_start v w f t root n : moves_ok cfg v w f -> pending_migrations v !! t = None -> 0 <= n -> migration_used_bytes v + n <= migration_capacity_bytes cfg ->
  moves_ok cfg (start_move t root n v) w f /\ (forall gid y, moving f gid y -> x_tensor y <> t) /\ t ∉ x_tensor <$> w.
Proof using.
  intros [] Hn H0 Hcap. assert (Hno : forall gid y, moving f gid y -> x_tensor y <> t) by (intros gid y Hy E; apply mo_group0 in Hy as (H & _); congruence).
  assert (Hw : t ∉ x_tensor <$> w) by (intros (y & -> & Hy)%list_elem_of_fmap; apply mo_waiting0 in Hy as [(H & _) _]; congruence).
  assert (Hph : forall y, x_tensor y <> t -> phase_ok v y -> phase_ok (start_move t root n v) y) by (intros y Hne; unfold phase_ok; cbn; by rewrite lookup_insert_ne).
  split_and!; [|done..]. constructor; try done.
  - intros gid y Hy. apply Hph; [by eapply Hno|by eapply mo_group0].
  - intros y Hy. destruct (mo_waiting0 y Hy). split; [|done]. apply Hph; [|done]. intros <-. apply Hw. by apply list_elem_of_fmap_2.
  - cbn. lia.
Qed.

Lemma offer_migration_ok hi now acc t count s : exec_inv cfg hi s -> is_Some (tensor_specs (moved s) !! t) ->
  wp (offer_migration cfg now acc (t, count)) (fun _ s' => exec_inv cfg hi s' /\ stepped s s' /\ tensor_specs (moved s') = tensor_specs (moved s) /\
    access_count (moved s') = access_count (moved s)) s.
Proof using Hcfg.
  intros Hinv [sp Hsp]. assert (Hskip : exec_inv cfg hi s /\ stepped s s /\ tensor_specs (moved s) = tensor_specs (moved s) /\ access_count (moved s) = access_count (moved s)) by done.
  unfold offer_migration. wp_step. wp_step. destruct (count <? migration_threshold cfg); [cbn [orb]; by wp_step|]. cbn [orb].
  destruct (bool_decide (tensor_tier (moved s) !! t = Some Fast)); [cbn [orb]; by wp_step|]. cbn [orb].
  destruct (has (pending_migrations (moved s)) t) eqn:Hp; [by wp_step|]. apply has_false in Hp.
  pose proof (mo_positive _ _ _ _ (xi_moves _ _ _ Hinv) _ _ Hsp) as Hpos.
  destruct (stripe_parts_ok cfg (sk_unit _ Hcfg) (sk_targets _ Hcfg) (CausalWorkload.bytes sp)) as (parts & Hparts & Hpp); [lia|].
  wp_step. eapply wp_lift; [unfold gindex; by rewrite Hsp|]. cbn beta. wp_step. eapply wp_lift; [exact Hparts|]. cbn beta.
  set (allocation := zsum _). assert (Hal : 0 <= allocation).
  { apply zsum_nonneg. apply Forall_forall. intros n ([i k] & -> & Hin)%list_elem_of_fmap. destruct (pp_elem _ _ _ Hpp i k Hin) as (_ & Hk & _). unfold mebi_blocks. cbn.
    assert (0 <= (k + 1048575) / 1048576) by (apply Z.div_pos; lia). lia. }
  destruct (Z.ltb_spec (migration_capacity_bytes cfg) (migration_used_bytes (moved s) + allocation)) as [|Hroom]; [by wp_step|].
  wp_step. wp_step. wp_step. set (root := "causal:migration:" +:+ t). set (x := Build_transfer _ _ _ _ _ _ _).
  set (s1 := on_moved _ s). destruct (moves_start _ _ _ t root allocation (xi_moves _ _ _ Hinv) Hp Hal Hroom) as (HV1 & Hno & Hw).
  eapply wp_mono; [eapply (migration_jobs_ok hi (held (flight s1)) [] (deferred_source_erase (moved s1)) x now s1)|].
  - destruct Hinv. by constructor.
  - unfold phase_ok. cbn. by rewrite lookup_insert_eq.
  - done.
  - done.
  - done.
  - intros js s2 (HM2 & _ & HB & _). wp_step. pose proof (bs_moved _ _ HB) as Em. split_and!; [|destruct HB; constructor; cbn in *; congruence|by rewrite Em|by rewrite Em].
    apply (mid_inv_exec _ _ (held (flight s1))); [by rewrite Em|apply (bs_held _ _ HB)].
Qed.

Lemma offer_migrations_ok hi now s : exec_inv cfg hi s -> wp (offer_migrations cfg now) (fun _ s' => exec_inv cfg hi s' /\ stepped s s') s.
Proof using Hcfg.
  intros Hinv. unfold offer_migrations. destruct (migration cfg); [by wp_step|]. wp_step. wp_step. set (items := isort _ _).
  eapply wp_mono; [apply (wp_foldS (fun _ _ s' => exec_inv cfg hi s' /\ stepped s s' /\ tensor_specs (moved s') = tensor_specs (moved s) /\ access_count (moved s') = access_count (moved s)))|].
  - done.
  - intros visited [t c] todo acc s1 Hl (Hinv1 & Hst & E1 & E2). eapply wp_mono; [apply (offer_migration_ok hi now acc t c s1 Hinv1)|].
    + apply (mo_counted _ _ _ _ (xi_moves _ _ _ Hinv1)). rewrite E2. exists c. apply elem_of_map_to_list. apply (isort_elem (lex sle zle)). fold items. rewrite Hl. set_solver.
    + intros u s2 (H1 & H2 & H3 & H4). split_and!; [done|by eapply stepped_trans|congruence|congruence].
  - intros u s' (H1 & H2 & _). done.
Qed.
End steps.

End ExecutorSteps.
