(* ===== verification/ExecutorBatches.v ===== *)
(** * ExecutorBatches: adding and retiring the batches of the causal executor

    [append_trace], [retire_completed_batches] and the constructor of
    [CausalExecutor] keep the invariant of [ExecutorInvariant]. *)

From S2P Require Import Prelude ProgramLogic.
From S2P Require Import CausalWorkload CausalExecutor ExecutorInvariant ExecutorSteps.

Module ExecutorBatches.
Import ProgramLogic CausalExecutor ExecutorInvariant ExecutorSteps.
Notation wp := (ProgramLogic.wp no_fault).

(** ** Appending batches *)

Definition any_fault : exn -> executor -> Prop := fun _ _ => True.

Lemma plan_extend hi now p p' H : plan_ok hi now p H -> (forall id x, dget (tasks p) id = Some x -> dget (tasks p') id = Some x) -> done p' = done p ->
  offered p' = offered p -> external_ready p' = external_ready p -> compute_running p' = compute_running p -> compute_available_ns p' = compute_available_ns p ->
  plan_ok hi now p' H.
Proof.
  intros [H1 H2 H3 H4 H5 H6 H7 H8 H9] Ht Ed Eo Er Erun Ea.
  assert (Hby : forall ids v, done_by p' ids v <-> done_by p ids v) by (intros ids v; unfold done_by; by rewrite Ed).
  constructor; rewrite ?Ed, ?Eo, ?Er, ?Erun, ?Ea; try done.
  - intros id t Hid. destruct (H1 id t Hid) as (x & Hx & Hd). exists x. rewrite Hby. auto.
  - intros id Hid. destruct (H3 id Hid) as (x & t & a & b & n & Hx & Hj & Hd). exists x, t, a, b, n. rewrite Hby. auto.
  - intros id r src Hid. destruct (H5 id r src Hid) as (A & B & C & x & t & a & b & n & Hx & Hj & Hd). split_and!; try done; try lia. exists x, t, a, b, n. rewrite Hby. auto.
  - intros id st fin Hid. destruct (H8 id st fin Hid) as (A & B & x & d & a & b & Hx & Hj & C & D & E). split_and!; try done. exists x, d, a, b. rewrite Hby. split_and!; auto.
Qed.

(** The state while the tasks [xs] of a batch, which arrives at [a], are added. *)
Record adding (s0 : executor) (a : Z) (xs : list task) (s : executor) : Prop := {
  ad_current : current s = current s0;
  ad_now : now_ns s = now_ns s0;
  ad_flight : flight s = flight s0;
  ad_kept : kept s = kept s0;
  ad_plan : done (plan s) = done (plan s0) /\ offered (plan s) = offered (plan s0) /\ external_ready (plan s) = external_ready (plan s0) /\
    compute_running (plan s) = compute_running (plan s0) /\ compute_available_ns (plan s) = compute_available_ns (plan s0);
  ad_keys : NoDup (dkeys (tasks (plan s)));
  ad_tasks : forall id x, dget (tasks (plan s)) id = Some x <-> dget (tasks (plan s0)) id = Some x \/ (x ∈ xs /\ task_id x = id);
  ad_new : forall x, x ∈ xs -> dget (tasks (plan s0)) (task_id x) = None;
  ad_arrival : forall id, arrival (plan s) !! id = if decide (id ∈ task_id <$> xs) then Some a else arrival (plan s0) !! id;
  ad_moved : moved s = set_specs (tensor_specs (moved s)) (moved s0);
  ad_specs : forall t, is_Some (tensor_specs (moved s0) !! t) -> is_Some (tensor_specs (moved s) !! t);
  ad_covers : specs_ok (plan s) (moved s);
  ad_positive : forall t sp, tensor_specs (moved s) !! t = Some sp -> 0 < CausalWorkload.bytes sp }.

Lemma add_task_ok s0 a xs x s : adding s0 a xs s -> CausalWorkload.positive_work x ->
  ProgramLogic.wp any_fault (add_task a x) (fun _ s' => adding s0 a (xs ++ [x]) s') s.
Proof.
  intros [] Hwork. unfold add_task. wp_step. wp_step. wp_step. apply wp_require; [done|]. intros Hnew. apply negb_true_iff in Hnew. unfold dmem in Hnew.
  destruct (dget (tasks (plan s)) (task_id x)) eqn:Hn; [done|]. clear Hnew. wp_step. wp_step.
  assert (Hget : forall id y, dget (dset (tasks (plan s)) (task_id x) x) id = Some y <-> dget (tasks (plan s0)) id = Some y \/ (y ∈ xs ++ [x] /\ task_id y = id)).
  { intros id y. rewrite dget_dset, elem_of_app, list_elem_of_singleton. case_decide as E; [subst id|].
    - split; [intros [= <-]; auto|]. intros [Hy|[[Hy| ->] E]]; [| |done].
      + assert (Hc : dget (tasks (plan s)) (task_id x) = Some y) by (apply ad_tasks0; auto). congruence.
      + assert (Hc : dget (tasks (plan s)) (task_id x) = Some y) by (apply ad_tasks0; auto). congruence.
    - rewrite ad_tasks0. naive_solver. }
  assert (Harr : forall id, <[task_id x := a]> (arrival (plan s)) !! id = if decide (id ∈ task_id <$> xs ++ [x]) then Some a else arrival (plan s0) !! id).
  { intros id. rewrite fmap_app. destruct (decide (id = task_id x)) as [->|Hne]; [rewrite lookup_insert_eq, decide_True; [done|set_solver]|].
    rewrite lookup_insert_ne, ad_arrival0 by done. destruct (decide (id ∈ task_id <$> xs)); [rewrite decide_True; [done|set_solver]|rewrite decide_False; [done|set_solver]]. }
  assert (Hfresh : forall y, y ∈ xs ++ [x] -> dget (tasks (plan s0)) (task_id y) = None).
  { intros y [Hy|Hy%list_elem_of_singleton]%elem_of_app; [by apply ad_new0|subst y]. destruct (dget (tasks (plan s0)) (task_id x)) as [y|] eqn:E; [|done].
    assert (Hc : dget (tasks (plan s)) (task_id x) = Some y) by (apply ad_tasks0; auto). congruence. }
  destruct (CausalWorkload.job x) as [t issue consume n|d after term] eqn:Hj; wp_step; constructor; cbn; try done; try (by apply NoDup_dkeys_dset).
  - rewrite ad_moved0 at 2. done.
  - intros t' Ht'. destruct (decide (t' = CausalWorkload.tensor_id t)) as [->|Hne]; [rewrite lookup_insert_eq; eauto|]. rewrite lookup_insert_ne by done. by apply ad_specs0.
  - intros id y t' i' c' n' Hy Hjy. cbn in *. destruct (decide (CausalWorkload.tensor_id t' = CausalWorkload.tensor_id t)) as [->|Hne]; [rewrite lookup_insert_eq; eauto|].
    rewrite lookup_insert_ne by done. rewrite dget_dset in Hy. case_decide; [injection Hy as <-; congruence|]. by eapply ad_covers0.
  - intros t' sp [[<- <-]|[_ H]]%lookup_insert_Some; [|by eapply ad_positive0]. unfold CausalWorkload.positive_work in Hwork. by rewrite Hj in Hwork.
  - intros id y t' i' c' n' Hy Hjy. cbn in *. rewrite dget_dset in Hy. case_decide; [injection Hy as <-; congruence|]. by eapply ad_covers0.
Qed.

Lemma add_batch_ok cfg hi b s : exec_inv cfg hi s -> wf_batch b ->
  ProgramLogic.wp any_fault (add_batch b) (fun _ s' => exec_inv cfg hi s' /\ now_ns s' = now_ns s /\
    CausalWorkload.batches (current s') = CausalWorkload.batches (current s) ++ [b]) s.
Proof.
  intros Hinv Hb. unfold add_batch. wp_step. wp_step. wp_step. apply wp_require; [done|intros _]. wp_step. wp_step. set (s1 := know_batch _ s).
  assert (Hinv1 : exec_inv cfg hi s1) by (destruct Hinv; by constructor). wp_step.
  eapply (wp_mono _ (fun _ s' => adding s1 (CausalWorkload.arrival_ns b) (CausalWorkload.tasks b) s')).
  { apply (wp_forM (fun visited s' => adding s1 (CausalWorkload.arrival_ns b) visited s')).
    - destruct Hinv1. constructor; try done.
      + apply (go_keys _ _ xi_graph0).
      + intros id x. split; [by left|]. intros [?|[Hx _]]; [done|by apply not_elem_of_nil in Hx].
      + intros x Hx. by apply not_elem_of_nil in Hx.
      + by destruct (moved s1).
      + intros t sp. by apply (mo_positive _ _ _ _ xi_moves0).
    - intros visited x todo s' Hl Ha. apply add_task_ok; [done|]. apply (CausalWorkload.wb_work _ Hb). rewrite Hl. set_solver. }
  intros u s2 Ha. wp_step. split; [|split; [apply (ad_now _ _ _ _ Ha)|cbn; by rewrite (ad_current _ _ _ _ Ha)]].
  destruct Ha, Hinv1. destruct ad_plan0 as (D1 & D2 & D3 & D4 & D5). constructor; cbn; rewrite ?ad_now0, ?ad_flight0, ?ad_kept0, ?ad_current0; try done.
  - destruct xi_graph0. constructor; cbn; try done.
    + intros b' [Hb'|Hb'%list_elem_of_singleton]%elem_of_app; [by apply go_wf0|by subst].
    + unfold CausalWorkload.all_task_ids. rewrite bind_app. apply NoDup_app. split_and!; [done| |cbn; rewrite app_nil_r; apply (CausalWorkload.wb_ids _ Hb)].
      intros id (b' & Hid & Hb')%list_elem_of_bind. cbn. rewrite app_nil_r. intros (x & -> & Hx)%list_elem_of_fmap. apply list_elem_of_fmap in Hid as (y & E & Hy).
      specialize (ad_new0 x Hx). assert (Hc : dget (tasks (plan s1)) (task_id x) = Some y) by (apply go_tasks0; eauto 10). congruence.
    + intros id x. rewrite ad_tasks0, go_tasks0. split.
      * intros [(b' & Hb' & Hx & Hid)|[Hx Hid]]; [exists b'|exists b]; split_and!; try done; set_solver.
      * intros (b' & [Hb'|Hb'%list_elem_of_singleton]%elem_of_app & Hx & Hid); [left; eauto|right; by subst].
    + intros b' x [Hb'|Hb'%list_elem_of_singleton]%elem_of_app Hx.
      * rewrite ad_arrival0, decide_False; [by apply go_arrival0|]. intros (y & E & Hy)%list_elem_of_fmap. specialize (ad_new0 y Hy).
        assert (Hc : dget (tasks (plan s1)) (task_id y) = Some x) by (apply go_tasks0; eauto 10). congruence.
      * subst b'. rewrite ad_arrival0, decide_True; [done|]. by apply list_elem_of_fmap_2.
  - eapply plan_extend; [done| |done..]. intros id x Hx. apply ad_tasks0. by left.
  - rewrite ad_moved0. destruct xi_moves0. constructor; try done; cbn.
    + intros t Ht. by apply ad_specs0, mo_counted0.
    + intros gid g r Hg Hr. by eapply ad_specs0, mo_read0.
Qed.

Lemma append_ok cfg hi tr s : exec_inv cfg hi s -> Forall wf_batch (CausalWorkload.batches tr) ->
  ProgramLogic.wp any_fault (append_trace tr) (fun _ s' => exec_inv cfg hi s' /\ now_ns s' = now_ns s) s.
Proof.
  intros Hinv Hwf. unfold append_trace. wp_step. wp_step. wp_step. apply wp_require; [done|intros _]. wp_step. apply wp_require; [done|intros _].
  apply (wp_forM (fun _ s' => exec_inv cfg hi s' /\ now_ns s' = now_ns s)); [done|]. intros visited b todo s1 Hl [Hinv1 Hn]. rewrite Hl in Hwf. apply Forall_app in Hwf as [_ Hwf].
  apply Forall_cons in Hwf as [Hb _]. eapply wp_mono; [by apply (add_batch_ok cfg hi b s1)|]. intros u s2 (H1 & H2 & _). split; [done|congruence].
Qed.

(** ** Retiring batches *)

Lemma inputs_deps x d : d ∈ CausalWorkload.inputs x -> d ∈ deps x.
Proof. unfold CausalWorkload.inputs, CausalWorkload.deps. destruct (CausalWorkload.job x); [|done]. intros H. apply elem_of_app. by right. Qed.

(** When the terminal task of a batch is done, every task of the batch is, and not
    later. *)
Lemma batch_all_done hi now bs p H b t : graph_ok bs p -> plan_ok hi now p H -> b ∈ bs -> done p !! CausalWorkload.terminal_task_id b = Some t ->
  forall x, x ∈ CausalWorkload.tasks b -> exists v, done p !! task_id x = Some v /\ v <= t.
Proof.
  intros HG HP Hb Ht. pose proof (go_wf _ _ HG b Hb) as Hw.
  enough (Hn : forall n before x after, CausalWorkload.tasks b = before ++ x :: after -> (length after < n)%nat -> exists v, done p !! task_id x = Some v /\ v <= t).
  { intros x Hx. apply list_elem_of_split in Hx as (before & after & E). by apply (Hn (S (length after)) before x after E); lia. }
  induction n as [|n IH]; intros before x after E Hlen; [lia|].
  assert (Hx : x ∈ CausalWorkload.tasks b) by (rewrite E; set_solver).
  destruct (CausalWorkload.wb_feeds _ Hw x Hx) as [Hterm|(y & Hy & Hin%inputs_deps)]; [exists t; by rewrite Hterm|].
  assert (Hnd := CausalWorkload.wb_ids _ Hw). rewrite E, fmap_app, fmap_cons in Hnd. apply NoDup_app in Hnd as (Hnd1 & Hdisj & Hnd2). apply NoDup_cons in Hnd2 as [Hnx _].
  assert (Hnb : task_id x ∉ task_id <$> before) by (intros Hc; apply (Hdisj _ Hc); apply elem_of_cons; by left).
  assert (Hpos : exists a1 a2, after = a1 ++ y :: a2).
  { pose proof Hy as Hy'. rewrite E in Hy'. apply elem_of_app in Hy' as [Hy'|Hy']; [|apply elem_of_cons in Hy' as [->|Hy']].
    - exfalso. apply list_elem_of_split in Hy' as (b1 & b2 & ->). rewrite <- app_assoc in E. cbn in E. apply Hnb. rewrite fmap_app. apply elem_of_app. left.
      by eapply (CausalWorkload.causal_split _ b1 y _ (CausalWorkload.wb_causal _ Hw)).
    - exfalso. apply Hnb. by eapply (CausalWorkload.causal_split _ before x after (CausalWorkload.wb_causal _ Hw)).
    - by apply list_elem_of_split in Hy'. }
  destruct Hpos as (a1 & a2 & ->). destruct (IH (before ++ x :: a1) y a2) as (v & Hv & Hle).
  - rewrite E, <- app_assoc. done.
  - rewrite length_app in Hlen. cbn in Hlen. lia.
  - destruct (po_done _ _ _ _ HP _ _ Hv) as (y' & Hy' & Hby). assert (Hyt : dget (tasks p) (task_id y) = Some y) by (apply (go_tasks _ _ HG); eauto).
    rewrite Hyt in Hy'. injection Hy' as <-. destruct (Hby _ Hin) as (u & Hu & Hle'). exists u. split; [done|lia].
Qed.

(** The tasks [ids] are gone. *)
Record dropped (ids : list string) (s s' : executor) : Prop := {
  dr_same : current s' = current s /\ now_ns s' = now_ns s /\ flight s' = flight s /\ kept s' = kept s /\ moved s' = moved s;
  dr_running : compute_running (plan s') = compute_running (plan s) /\ compute_available_ns (plan s') = compute_available_ns (plan s);
  dr_keys : NoDup (dkeys (tasks (plan s')));
  dr_tasks : forall id, dget (tasks (plan s')) id = if decide (id ∈ ids) then None else dget (tasks (plan s)) id;
  dr_arrival : forall id, arrival (plan s') !! id = if decide (id ∈ ids) then None else arrival (plan s) !! id;
  dr_done : forall id, done (plan s') !! id = if decide (id ∈ ids) then None else done (plan s) !! id;
  dr_ready : forall id, external_ready (plan s') !! id = if decide (id ∈ ids) then None else external_ready (plan s) !! id;
  dr_offered : forall id, id ∈ offered (plan s') <-> id ∈ offered (plan s) /\ id ∉ ids }.

Lemma delete_ids {V} (m m' : gmap string V) (ids : list string) (id : string) : (forall i, m' !! i = if decide (i ∈ ids) then None else m !! i) ->
  forall i, delete id m' !! i = if decide (i ∈ ids ++ [id]) then None else m !! i.
Proof.
  intros H i. destruct (decide (i = id)) as [->|Hne]; [rewrite lookup_delete_eq, decide_True; [done|set_solver]|].
  rewrite lookup_delete_ne, H by done. destruct (decide (i ∈ ids)); [rewrite decide_True; [done|set_solver]|rewrite decide_False; [done|set_solver]].
Qed.

Lemma drop_tasks_ok ids s : NoDup ids -> NoDup (dkeys (tasks (plan s))) -> (forall id, id ∈ ids -> is_Some (dget (tasks (plan s)) id) /\ is_Some (arrival (plan s) !! id)) ->
  wp (forM ids drop_task) (fun _ s' => dropped ids s s') s.
Proof.
  intros Hnd Hk Hin. apply (wp_forM (fun visited s' => dropped visited s s')).
  - constructor; try done; intros id; try (rewrite decide_False; [done|apply not_elem_of_nil]).
    split; [intros H; split; [done|apply not_elem_of_nil]|by intros [? _]].
  - intros visited id todo s1 Hl []. assert (Hnv : id ∉ visited).
    { rewrite Hl in Hnd. apply NoDup_app in Hnd as (_ & Hd & _). intros Hv. apply (Hd id Hv). apply elem_of_cons. by left. }
    destruct (Hin id ltac:(rewrite Hl; set_solver)) as [[x Hx] [a Ha]]. unfold drop_task. wp_step. wp_step.
    wp_step. eapply wp_lift; [apply dindex_Ok; rewrite dr_tasks0, decide_False by done; exact Hx|]. cbn beta.
    wp_step. eapply wp_lift; [unfold gindex; rewrite dr_arrival0, decide_False by done; by rewrite Ha|]. cbn beta. wp_step. constructor; cbn; try done.
    + by apply NoDup_dkeys_ddel.
    + intros i. rewrite dget_ddel by done. case_decide as E.
      * subst i. rewrite decide_True; [done|set_solver].
      * rewrite dr_tasks0. destruct (decide (i ∈ visited)); [rewrite decide_True; [done|set_solver]|rewrite decide_False; [done|set_solver]].
    + by apply delete_ids.
    + by apply delete_ids.
    + by apply delete_ids.
    + intros i. rewrite elem_of_difference, elem_of_singleton, dr_offered0, elem_of_app, list_elem_of_singleton. naive_solver.
Qed.

(** The tasks of a finished batch that no group refers to can go. *)
Lemma drop_plan hi now bs1 b bs2 s s' : graph_ok (bs1 ++ b :: bs2) (plan s) -> plan_ok hi now (plan s) (held (flight s)) ->
  is_Some (done (plan s) !! CausalWorkload.terminal_task_id b) -> (forall id g, id ∈ task_id <$> CausalWorkload.tasks b -> ~ held (flight s) id g) ->
  dropped (remove_dups (task_id <$> CausalWorkload.tasks b)) s s' ->
  graph_ok (bs1 ++ bs2) (plan s') /\ plan_ok hi now (plan s') (held (flight s)).
Proof.
  intros HG HP [T HT] Hnh []. set (ids := remove_dups _) in *.
  assert (Hids : forall id, id ∈ ids <-> id ∈ task_id <$> CausalWorkload.tasks b) by (intros id; apply elem_of_remove_dups).
  assert (Hall : forall id, id ∈ ids -> is_Some (done (plan s) !! id)).
  { intros id (x & -> & Hx)%Hids%list_elem_of_fmap. destruct (batch_all_done _ _ _ _ _ b T HG HP ltac:(set_solver) HT x Hx) as (v & Hv & _). eauto. }
  assert (Hin : forall b', b' ∈ bs1 ++ bs2 -> b' ∈ bs1 ++ b :: bs2) by (intros b'; rewrite !elem_of_app, elem_of_cons; tauto).
  assert (Hother : forall b' id, b' ∈ bs1 ++ bs2 -> id ∈ task_id <$> CausalWorkload.tasks b' -> id ∉ ids).
  { intros b' id Hb' Hid Hc%Hids. pose proof (go_nodup _ _ HG) as Hnd. unfold CausalWorkload.all_task_ids in Hnd.
    assert (Hp : bs1 ++ b :: bs2 ≡ₚ b :: bs1 ++ bs2) by by rewrite Permutation_middle. rewrite Hp in Hnd. cbn in Hnd. apply NoDup_app in Hnd as (_ & Hd & _).
    apply (Hd id Hc). apply list_elem_of_bind. eauto. }
  assert (Htask : forall id x, dget (tasks (plan s)) id = Some x -> id ∉ ids -> forall d, d ∈ deps x -> d ∉ ids).
  { intros id x (b' & Hb' & Hx & <-)%(go_tasks _ _ HG) Hni d Hd. assert (Hb'' : b' ∈ bs1 ++ bs2).
    { rewrite elem_of_app, elem_of_cons in Hb'. destruct Hb' as [?|[->|?]]; [set_solver| |set_solver]. exfalso. apply Hni, Hids. by apply list_elem_of_fmap_2. }
    apply (Hother b'); [done|]. apply list_elem_of_split in Hx as (l1 & l2 & E). pose proof (CausalWorkload.wb_causal _ (go_wf _ _ HG b' Hb')) as Hcausal.
    pose proof (CausalWorkload.causal_split _ l1 x l2 Hcausal E d Hd) as H. rewrite E, fmap_app. apply elem_of_app. by left. }
  assert (Hby : forall id x v l, dget (tasks (plan s)) id = Some x -> id ∉ ids -> (forall d, d ∈ l -> d ∈ deps x) -> done_by (plan s) l v -> done_by (plan s') l v).
  { intros id x v l Hx Hni Hl Hv d Hd. destruct (Hv d Hd) as (u & Hu & Hle). exists u. rewrite dr_done0, decide_False; [done|]. by eapply Htask; [| |apply Hl]. }
  split.
  - destruct HG. constructor; [by intros b' ?%Hin; apply go_wf0| |done| |].
    + unfold CausalWorkload.all_task_ids in *. assert (Hp : bs1 ++ b :: bs2 ≡ₚ b :: bs1 ++ bs2) by by rewrite Permutation_middle. rewrite Hp in go_nodup0. cbn in go_nodup0.
      by apply NoDup_app in go_nodup0 as (_ & _ & ?).
    + intros id x. rewrite dr_tasks0. case_decide as Hd.
      * split; [done|]. intros (b' & Hb' & Hx & <-). exfalso. apply (Hother b' (task_id x)); [done| |done]. by apply list_elem_of_fmap_2.
      * rewrite go_tasks0. split; intros (b' & Hb' & Hx & Hid); exists b'; (split; [|done]); [|by apply Hin].
        rewrite elem_of_app, elem_of_cons in Hb'. destruct Hb' as [?|[->|?]]; [set_solver| |set_solver]. exfalso. apply Hd, Hids. rewrite <- Hid. by apply list_elem_of_fmap_2.
    + intros b' x Hb' Hx. rewrite dr_arrival0, decide_False; [by apply go_arrival0; [apply Hin|]|]. apply (Hother b'); [done|]. by apply list_elem_of_fmap_2.
  - assert (Hhn : forall id g, held (flight s) id g -> id ∉ ids) by (intros id g Hh Hid%Hids; by eapply Hnh).
    assert (Hissue : forall x t a c n d, CausalWorkload.job x = CausalWorkload.Storage t a c n -> d ∈ a -> d ∈ deps x).
    { intros x t a c n d Hj Hd. unfold CausalWorkload.deps. rewrite Hj. apply elem_of_app. by left. }
    destruct HP as [P1 P2 P3 P4 P5 P6 P7 P8 P9]. destruct dr_running0 as [R1 R2]. constructor.
    + intros id t. rewrite dr_done0, dr_tasks0. case_decide as Hni; [done|]. intros Hd. destruct (P1 id t Hd) as (x & Hx & Hd'). exists x. split; [done|]. by eapply Hby.
    + intros id t. rewrite dr_done0. case_decide; [done|]. apply P2.
    + intros id [Ho Hni]%dr_offered0. destruct (P3 id Ho) as (x & t & a & c & n & Hx & Hj & Hd). exists x, t, a, c, n. rewrite dr_tasks0, decide_False by done. split_and!; [done..|].
      eapply Hby; [done|done| |done]. intros d. by eapply Hissue.
    + intros id [Ho Hni]%dr_offered0. rewrite dr_done0, dr_ready0, !decide_False by done. by apply P4.
    + intros id r src. rewrite dr_ready0. case_decide as Hni; [done|]. intros Hr. destruct (P5 id r src Hr) as (A & B & C & x & t & a & c & n & Hx & Hj & Hd).
      rewrite dr_offered0, dr_done0, dr_tasks0, !decide_False by done. split_and!; try done; try lia. exists x, t, a, c, n. split_and!; [done..|]. eapply Hby; [done|done| |done]. intros d. by eapply Hissue.
    + intros id g Hg. pose proof (Hhn id g Hg) as Hni. rewrite dr_offered0, dr_done0, dr_ready0, !decide_False by done. destruct (P6 id g Hg) as (? & ? & ?). done.
    + done.
    + intros id st fin. rewrite R1. intros Hr. destruct (P8 id st fin Hr) as (A & B & x & d & a & c & Hx & Hj & C & D & E).
      assert (Hni : id ∉ ids) by (intros Hc; destruct (Hall id Hc) as [v Hv]; congruence). rewrite dr_done0, dr_tasks0, !decide_False by done. split_and!; [done..|].
      exists x, d, a, c. split_and!; try done. eapply Hby; [done|done| |done]. intros d'. unfold CausalWorkload.deps. by rewrite Hj.
    + by rewrite R2.
Qed.

(** What a retired batch is reported as: its last task, and so every task of it,
    was done by the reported completion. *)
Definition fact_of (p : sched) (b : batch) (f : fact) : Prop :=
  f_interval f = CausalWorkload.interval_id b /\ f_arrival f = CausalWorkload.arrival_ns b /\
  token_count f = Z.of_nat (length (CausalWorkload.token_ids b)) /\ done p !! CausalWorkload.terminal_task_id b = Some (f_completion f) /\
  forall x, x ∈ CausalWorkload.tasks b -> exists v, done p !! task_id x = Some v /\ v <= f_completion f.

Lemma wp_eq {A} (m : X A) Q s : wp m Q s -> wp m (fun a s' => m s = (Ok a, s') /\ Q a s') s.
Proof. unfold ProgramLogic.wp. by destruct (m s) as [[a|e] s']. Qed.

Section retire.
Context (cfg : settings) (hi : Z) (s0 : executor).

(** The batches [bs] remain, and the facts [fs] are reported. *)
Record retiring (bs : list batch) (fs : list fact) (s : executor) : Prop := {
  rt_current : current s = current s0;
  rt_now : now_ns s = now_ns s0;
  rt_flight : flight s = flight s0;
  rt_kept : kept s = kept s0;
  rt_moved : moved s = moved s0;
  rt_graph : graph_ok bs (plan s);
  rt_plan : plan_ok hi (now_ns s0) (plan s) (held (flight s0));
  rt_tasks : forall id x, dget (tasks (plan s)) id = Some x -> dget (tasks (plan s0)) id = Some x;
  rt_done : forall id v, done (plan s) !! id = Some v -> done (plan s0) !! id = Some v;
  rt_facts : forall f, f ∈ fs -> exists b, b ∈ CausalWorkload.batches (current s0) /\ fact_of (plan s0) b f /\
    forall x, x ∈ CausalWorkload.tasks b -> dget (tasks (plan s)) (task_id x) = None }.

Notation referenced := (group_list (flight s0) ≫= task_ids).

Lemma not_referenced id g : id ∉ referenced -> ~ held (flight s0) id g.
Proof using.
  intros Hn (g' & Hg & Hid). apply Hn. apply list_elem_of_bind. exists g'. split; [done|]. unfold group_list. apply list_elem_of_fmap. exists (g, g').
  split; [done|]. by apply elem_of_map_to_list.
Qed.

Lemma retire_batch_ok bs1 b bs2 fs s : retiring (bs1 ++ b :: bs2) fs s -> b ∈ CausalWorkload.batches (current s0) ->
  wp (retire_batch referenced (bs1, fs) b) (fun r s' => retiring (r.1 ++ bs2) r.2 s') s.
Proof using.
  intros HR Hb. unfold retire_batch. wp_step. wp_step. destruct (done (plan s) !! CausalWorkload.terminal_task_id b) as [t|] eqn:Ht.
  2:{ wp_step. cbn [fst snd]. by rewrite <- app_assoc. }
  destruct (existsb _ _) eqn:Ee; [wp_step; cbn [fst snd]; by rewrite <- app_assoc|].
  set (ids := remove_dups (task_id <$> CausalWorkload.tasks b)) in *.
  assert (Hids : forall id, id ∈ ids <-> id ∈ task_id <$> CausalWorkload.tasks b) by (intros id; apply elem_of_remove_dups).
  assert (Hnr : forall id, id ∈ ids -> id ∉ referenced).
  { intros id Hid Hr. enough (existsb (fun id => bool_decide (id ∈ referenced)) ids = true) by congruence. apply existsb_exists. exists id. split; [by apply list_elem_of_In|by apply bool_decide_eq_true]. }
  wp_step. wp_step. set (s1 := on_out _ s). wp_step. pose proof HR as [E1 E2 E3 E4 E5 HG HP Ht0 Hd0 Hf0].
  assert (Hbin : b ∈ bs1 ++ b :: bs2) by set_solver.
  eapply wp_mono; [apply (drop_tasks_ok ids s1)|].
  - apply NoDup_remove_dups.
  - apply (go_keys _ _ HG).
  - intros id (x & -> & Hx)%Hids%list_elem_of_fmap. split; [exists x; apply (go_tasks _ _ HG); eauto|]. exists (CausalWorkload.arrival_ns b). by apply (go_arrival _ _ HG).
  - intros u s2 Hdrop. wp_step. cbn [fst snd]. assert (HP1 : plan_ok hi (now_ns s0) (plan s1) (held (flight s1))) by by (cbn; rewrite E3).
    destruct (drop_plan hi (now_ns s0) bs1 b bs2 s1 s2 HG HP1 ltac:(cbn; eauto)) as [HG2 HP2]; [|done|].
    { intros id g Hid. cbn. rewrite E3. apply not_referenced, Hnr. by apply Hids. }
    pose proof (batch_all_done _ _ _ _ _ b t HG HP Hbin Ht) as Hall. destruct Hdrop as [(D1 & D2 & D3 & D4 & D5) D6 D7 D8 D9 D10 D11 D12]. constructor; rewrite ?D1, ?D2, ?D3, ?D4, ?D5; try done.
    + change (held (flight s1)) with (held (flight s)) in HP2. by rewrite E3 in HP2.
    + intros id x. rewrite D8. case_decide; [done|]. apply Ht0.
    + intros id v. rewrite D10. case_decide; [done|]. apply Hd0.
    + intros f [Hf|Hf%list_elem_of_singleton]%elem_of_app.
      * destruct (Hf0 f Hf) as (b' & Hb' & Hfact & Hgone). exists b'. split_and!; [done..|]. intros x Hx. rewrite D8. case_decide; [done|]. by apply Hgone.
      * subst f. exists b. split_and!; [done| |].
        -- split_and!; try done; cbn; [by apply Hd0|]. intros x Hx. destruct (Hall x Hx) as (v & Hv & Hle). exists v. split; [by apply Hd0|done].
        -- intros x Hx. rewrite D8, decide_True; [done|]. apply Hids. by apply list_elem_of_fmap_2.
Qed.

Lemma retire_fold_ok : graph_ok (CausalWorkload.batches (current s0)) (plan s0) -> plan_ok hi (now_ns s0) (plan s0) (held (flight s0)) ->
  wp (foldS (retire_batch referenced) (CausalWorkload.batches (current s0)) ([], [])) (fun r s' => retiring r.1 r.2 s') s0.
Proof using.
  intros HG HP. set (bs := CausalWorkload.batches (current s0)) in *.
  eapply (wp_mono _ (fun r s' => exists todo, bs = bs ++ todo /\ retiring (r.1 ++ todo) r.2 s')).
  2:{ intros r s' (todo & E & H). assert (todo = []) as -> by (apply (app_inv_head bs); by rewrite app_nil_r). by rewrite app_nil_r in H. }
  apply (wp_foldS (fun visited r s' => exists todo, bs = visited ++ todo /\ retiring (r.1 ++ todo) r.2 s')).
  - exists bs. split; [done|]. constructor; try done. intros f Hf. by apply not_elem_of_nil in Hf.
  - intros visited b todo [bs1 fs] s1 Hl (todo' & Hl' & HR). rewrite Hl in Hl'. apply app_inv_head in Hl' as <-. cbn [fst snd] in HR.
    eapply wp_mono; [apply (retire_batch_ok bs1 b todo fs s1 HR); fold bs; rewrite Hl; set_solver|]. intros r s2 H2. exists todo. split; [|done]. by rewrite <- app_assoc.
Qed.
End retire.

Lemma retire_ok cfg hi now s : exec_inv cfg hi s -> 0 <= now ->
  wp (retire_completed_batches now) (fun fs s' => exec_inv cfg (Z.max hi now) s' /\ now_ns s' = now_ns s /\ exists s1, _resolve_ready_storage now s = (Ok tt, s1) /\
    forall f, f ∈ fs -> exists b, b ∈ CausalWorkload.batches (current s) /\ fact_of (plan s1) b f /\
      forall x, x ∈ CausalWorkload.tasks b -> dget (tasks (plan s')) (task_id x) = None) s.
Proof.
  intros Hinv H0. unfold retire_completed_batches. wp_step. eapply wp_mono; [by apply wp_eq, (resolve_ok cfg hi now)|]. intros [] s1 (Eres & Hinv1 & HR & _). wp_step. wp_step. wp_step.
  eapply wp_mono; [apply (retire_fold_ok (Z.max hi now) s1); apply Hinv1|]. intros [bs fs] s2 HR2. cbn [fst snd] in HR2. wp_step. wp_step. wp_step.
  destruct HR2 as [E1 E2 E3 E4 E5 HG HP Ht Hd Hf]. split; [|split; [cbn; by rewrite E2, (rp_now _ _ HR)|]].
  - destruct Hinv1. constructor; cbn; rewrite ?E2, ?E3, ?E4, ?E5; try done. unfold specs_ok in *. intros id x t i c n Hx. by apply (xi_specs0 id), Ht.
  - exists s1. split; [done|]. intros f Hin. destruct (Hf f Hin) as (b & Hb & Hfact & Hgone). exists b. rewrite <- (rp_current _ _ HR). done.
Qed.

(** ** Construction *)

Lemma initial_tasks (l : list (Z * task)) : NoDup (task_id <$> l.*2) ->
  let d := foldl (fun d item => dset d (task_id item.2) item.2) [] l in
  NoDup (dkeys d) /\ (forall id x, dget d id = Some x <-> x ∈ l.*2 /\ task_id x = id) /\
  forall a x, (a, x) ∈ l -> foldl (fun m item => <[task_id item.2 := item.1]> m) (∅ : gmap string Z) l !! task_id x = Some a.
Proof.
  induction l as [|[a x] l IH] using rev_ind; cbn zeta.
  { intros _. cbn. split_and!; [constructor| |intros a x Hin; by apply not_elem_of_nil in Hin]. intros id x. split; [done|]. intros [Hin _]. by apply not_elem_of_nil in Hin. }
  rewrite !fmap_app. intros Hnd. apply NoDup_app in Hnd as (Hnd & Hdisj & _). destruct (IH Hnd) as (H1 & H2 & H3). clear IH. cbn zeta in *. rewrite !foldl_app. cbn [foldl fst snd].
  assert (Hnew : forall y, y ∈ l.*2 -> task_id y <> task_id x).
  { intros y Hy E. apply (Hdisj (task_id y)); [by apply list_elem_of_fmap_2|]. rewrite E. cbn. by apply list_elem_of_singleton. }
  split_and!.
  - by apply NoDup_dkeys_dset.
  - intros id y. rewrite dget_dset, elem_of_app. cbn. rewrite list_elem_of_singleton. case_decide as E; [subst id|].
    + split; [intros [= <-]; auto|]. intros [[Hy| ->] E]; [by apply Hnew in Hy|done].
    + rewrite H2. naive_solver.
  - intros b y [Hin|Hin%list_elem_of_singleton]%elem_of_app.
    + rewrite lookup_insert_ne; [by apply H3|]. intros E. apply (Hnew y); [|done]. apply list_elem_of_fmap. by exists (b, y).
    + injection Hin as -> ->. by rewrite lookup_insert_eq.
Qed.

Lemma trace_task_ids tr : task_id <$> (trace_tasks tr).*2 = all_task_ids (CausalWorkload.batches tr).
Proof.
  unfold trace_tasks, CausalWorkload.all_task_ids. induction (CausalWorkload.batches tr) as [|b bs IH]; [done|]. cbn. rewrite !fmap_app. f_equal; [|exact IH].
  rewrite <- !list_fmap_compose. done.
Qed.
Lemma trace_task_elem tr a x : (a, x) ∈ trace_tasks tr <-> exists b, b ∈ CausalWorkload.batches tr /\ x ∈ CausalWorkload.tasks b /\ a = CausalWorkload.arrival_ns b.
Proof.
  unfold trace_tasks. rewrite list_elem_of_bind. split.
  - intros (b & (y & [= -> ->] & Hy)%list_elem_of_fmap & Hb). eauto.
  - intros (b & Hb & Hx & ->). exists b. split; [|done]. apply list_elem_of_fmap. eauto.
Qed.

Lemma initial_specs_ok (d : dict string task) : (forall id x, (id, x) ∈ d -> CausalWorkload.positive_work x) ->
  (forall id x t issue consume n, (id, x) ∈ d -> CausalWorkload.job x = CausalWorkload.Storage t issue consume n -> is_Some (initial_specs d !! CausalWorkload.tensor_id t)) /\
  (forall t sp, initial_specs d !! t = Some sp -> 0 < CausalWorkload.bytes sp).
Proof.
  unfold initial_specs, dvals. induction d as [|[k x] d IH] using rev_ind; [intros _; split; [intros id x t i c n Hin; by apply not_elem_of_nil in Hin|done]|].
  intros Hw. rewrite fmap_app, foldl_app. cbn. destruct IH as [H1 H2]; [intros id y Hy; apply (Hw id y); set_solver|].
  assert (Hx : CausalWorkload.positive_work x) by (apply (Hw k x); set_solver). unfold CausalWorkload.positive_work in Hx.
  destruct (CausalWorkload.job x) as [t0 i0 c0 n0|d0 a0 b0] eqn:Hj0; (split; [intros id y t i c n [Hin|[= -> ->]%list_elem_of_singleton]%elem_of_app Hj|]).
  - destruct (decide (CausalWorkload.tensor_id t = CausalWorkload.tensor_id t0)) as [->|Hne]; [rewrite lookup_insert_eq; eauto|]. rewrite lookup_insert_ne by done. by eapply H1.
  - rewrite Hj0 in Hj. injection Hj as <- _ _ _. rewrite lookup_insert_eq. eauto.
  - intros t sp [[<- <-]|[_ Hsp]]%lookup_insert_Some; [done|by eapply H2].
  - by eapply H1.
  - congruence.
  - done.
Qed.

Lemma provider_total targets fast r t p : targets <> [] -> fast <> [] -> exists at_, provider targets fast r t p = Ok at_.
Proof.
  intros H1 H2. unfold provider. assert (Hs : match t with Source => targets | Fast => fast end <> []) by by destruct t.
  set (l := match t with Fast => fast | Source => targets end). assert (Hl : l <> []) by by destruct t. clearbody l.
  assert (Hlen : (Z.to_nat (p mod Z.of_nat (length l)) < length l)%nat).
  { assert (0 < Z.of_nat (length l)) by (destruct l; [done|cbn; lia]). pose proof (Z.mod_pos_bound p (Z.of_nat (length l))). lia. }
  destruct (lookup_lt_is_Some_2 _ _ Hlen) as [a Ha]. exists a. by apply lget_Ok.
Qed.

Lemma default_placement_ok c f n : _default_placement c = Ok (f, n) -> 0 < n /\ forall r t p, exists at_, f r t p = Ok at_.
Proof.
  unfold _default_placement. destruct (match stripe_targets c with Some l => Some l | None => (fun p => [p]) <$> default_placement c end) as [[|pl l]|]; [done| |done].
  cbn [rbind]. intros H. apply bind_Ok in H as (? & H1 & H). apply bind_Ok in H as (? & H2 & H). apply ensure_Ok in H1, H2. apply bool_decide_eq_true in H1.
  injection H as <- <-. split; [cbn; lia|]. intros r t p. by apply provider_total.
Qed.

Lemma check_config_ok custom c cfg : check_config custom c = Ok cfg ->
  (forall f, custom = Some f -> forall r t p, 0 <= p < placement_target_count c -> exists at_, f r t p = Ok at_) -> settings_ok cfg.
Proof.
  intros H Hcustom. unfold check_config in H. apply bind_Ok in H as (? & _ & H). apply bind_Ok in H as (mode & Hmode & H). apply bind_Ok in H as (? & _ & H).
  apply bind_Ok in H as (caching_ & _ & H). apply bind_Ok in H as (? & _ & H). apply bind_Ok in H as (co & _ & H). apply bind_Ok in H as (wa & _ & H).
  apply bind_Ok in H as (? & Hunit & H). apply bind_Ok in H as ([place_at count] & Hplace & H). apply bind_Ok in H as (? & _ & H). injection H as <-.
  apply ensure_Ok, Z.ltb_lt in Hunit.
  assert (Hp : 0 < count /\ forall r t p, 0 <= p < count -> exists at_, place_at r t p = Ok at_).
  { destruct custom as [f|].
    - apply bind_Ok in Hplace as (? & Hn & E). apply ensure_Ok, Z.ltb_lt in Hn. injection E as <- <-. split; [done|]. by apply Hcustom.
    - apply default_placement_ok in Hplace as [Hn Htot]. split; [done|]. intros. apply Htot. }
  constructor; cbn; try apply Hp; [done|]. destruct (Z.ltb_spec (cache_capacity_bytes c) 0); [done|done].
Qed.

Lemma executor_init_ok tr c custom cfg s : init tr c custom = Ok (cfg, s) -> Forall wf_batch (CausalWorkload.batches tr) -> NoDup (all_task_ids (CausalWorkload.batches tr)) ->
  (forall f, custom = Some f -> forall r t p, 0 <= p < placement_target_count c -> exists at_, f r t p = Ok at_) ->
  settings_ok cfg /\ exec_inv cfg 0 s /\ now_ns s = 0 /\ current s = tr.
Proof.
  intros H Hwf Hnd Hcustom. unfold init in H. apply bind_Ok in H as (u0 & _ & H). apply bind_Ok in H as (cfg' & Hc & H). injection H as -> <-.
  pose proof (check_config_ok _ _ _ Hc Hcustom) as Hcfg. split; [done|]. split; [|done]. rewrite Forall_forall in Hwf.
  destruct (initial_tasks (trace_tasks tr)) as (T1 & T2 & T3); [by rewrite trace_task_ids|]. cbn zeta in *.
  assert (HG : graph_ok (CausalWorkload.batches tr) (initial_plan tr)).
  { constructor; cbn; [done|done|done| |].
    - intros id x. rewrite T2. split.
      + intros [((a & y) & -> & Hin)%list_elem_of_fmap <-]. apply trace_task_elem in Hin as (b & Hb & Hx & _). eauto.
      + intros (b & Hb & Hx & <-). split; [|done]. apply list_elem_of_fmap. exists (CausalWorkload.arrival_ns b, x). split; [done|]. apply trace_task_elem. eauto.
    - intros b x Hb Hx. apply T3. apply trace_task_elem. eauto. }
  destruct (initial_specs_ok (tasks (initial_plan tr))) as [S1 S2].
  { intros id x Hin. apply (dget_elem _ _ _ T1) in Hin. by destruct (graph_task _ _ _ _ HG Hin) as (_ & _ & _ & _ & _ & ? & _). }
  assert (Hnone : forall id (g : group), (∅ : gmap string group) !! id = Some g -> False) by (intros id g E; by rewrite lookup_empty in E).
  constructor; cbn [now_ns current plan flight kept moved deferred_source_erase]; try done.
  - constructor; cbn; try done; try (intros *; rewrite lookup_empty; done).
    + intros id g (g' & Hg & _). by apply Hnone in Hg.
    + intros id g g' (g0 & Hg & _). by apply Hnone in Hg.
  - constructor; cbn; try (intros *; rewrite ?lookup_empty; done).
  - constructor; cbn; try done; try apply NoDup_nil_2.
    + apply (sk_capacity _ Hcfg).
    + intros t n. split; [done|]. intros (gid & g & Hg & _). by apply Hnone in Hg.
  - assert (Hm : forall f gid x, groups f = ∅ -> ~ moving f gid x) by (intros f gid x E (g & Hg & _); rewrite E in Hg; by apply Hnone in Hg).
    constructor; cbn; try done; try apply NoDup_nil_2; try (intros gid x; intros * Hx; by apply Hm in Hx).
    + intros x Hx. by apply not_elem_of_nil in Hx.
    + intros t. rewrite lookup_empty. by intros [? ?].
    + lia.
  - intros id x t i c' n Hx. cbn. apply (S1 id x t i c' n). by apply dget_Some_elem.
Qed.
End ExecutorBatches.
