(* ===== verification/ExecutorTheorems.v ===== *)
(** * ExecutorTheorems: what the causal executor guarantees

    The executions of [CausalExecutor] and the theorems about them.  An execution
    starts from a constructed executor whose trace has well-formed batches (as
    [build_architecture_trace] makes them), and calls the operations with times that
    respect the clock of the driver: a poll is not earlier than any reported time, a
    completion is not earlier than the last poll. *)

From S2P Require Import Prelude ProgramLogic.
From S2P Require Import CausalWorkload CausalExecutor ExecutorInvariant ExecutorSteps ExecutorBatches.

Module ExecutorTheorems.
Import ProgramLogic CausalExecutor ExecutorInvariant ExecutorSteps ExecutorBatches.
Notation trace := CausalWorkload.trace.

(** ** Executions *)

(** The second component is the latest time that was reported. *)
Inductive xstep (cfg : settings) : executor * Z -> executor * Z -> Prop :=
| x_poll s hi now js s' : hi <= now -> poll cfg now s = (Ok js, s') -> xstep cfg (s, hi) (s', now)
| x_complete s hi id at_ns n s' : now_ns s <= at_ns -> complete cfg id at_ns n s = (Ok tt, s') -> xstep cfg (s, hi) (s', Z.max hi at_ns)
| x_migrate s hi now js s' : offer_migrations cfg now s = (Ok js, s') -> xstep cfg (s, hi) (s', hi)
| x_append s hi tr s' : Forall wf_batch (CausalWorkload.batches tr) -> append_trace tr s = (Ok tt, s') -> xstep cfg (s, hi) (s', hi)
| x_retire s hi now fs s' : 0 <= now -> retire_completed_batches now s = (Ok fs, s') -> xstep cfg (s, hi) (s', Z.max hi now)
| x_drain s hi r s' : drain_observations s = (Ok r, s') -> xstep cfg (s, hi) (s', hi).

Record executed (tr : trace) (c : config) (custom : option (tensor_ref -> tier -> Z -> result place)) (cfg : settings) (s : executor) (hi : Z) : Prop := {
  ex_trace : Forall wf_batch (CausalWorkload.batches tr);
  ex_ids : NoDup (all_task_ids (CausalWorkload.batches tr));
  ex_place : forall f, custom = Some f -> forall r t p, 0 <= p < placement_target_count c -> exists at_, f r t p = Ok at_;
  ex_run : exists s0, init tr c custom = Ok (cfg, s0) /\ rtc (xstep cfg) (s0, 0) (s, hi) }.

Lemma wp_returns {A} (m : X A) Q s : wp m Q s -> exists a s', m s = (Ok a, s') /\ Q a s'.
Proof. unfold ProgramLogic.wp. destruct (m s) as [[a|e] s']; [eauto|done]. Qed.
Lemma wp_any {A} (m : X A) Q s a s' : ProgramLogic.wp any_fault m Q s -> m s = (Ok a, s') -> Q a s'.
Proof. unfold ProgramLogic.wp. intros H E. by rewrite E in H. Qed.

(** A completion that is accepted passed the checks. *)
Lemma complete_accepted cfg id at_ns n s s' : complete cfg id at_ns n s = (Ok tt, s') ->
  job_bytes (flight s) !! id = Some n /\ exists a, job_arrival (flight s) !! id = Some a /\ a <= at_ns.
Proof.
  intros H. unfold complete in H. rewrite (sbind_step _ _ _ _ _ (eq_refl : get s = (Ok s, s))) in H.
  peel_ok_guard H E1. apply bool_decide_eq_true in E1. peel_ok_guard H E2. peel_ok H a Ha. peel_ok_guard H E3. apply Z.leb_le in E3. split; [done|].
  exists a. split; [|done]. unfold gindex in Ha. destruct (job_arrival (flight s) !! id); [|done]. by injection Ha as ->.
Qed.

Lemma step_inv cfg s hi s' hi' : settings_ok cfg -> exec_inv cfg hi s -> xstep cfg (s, hi) (s', hi') -> exec_inv cfg hi' s'.
Proof.
  intros Hcfg Hinv Hstep. inversion Hstep as [? ? now js ? Hle E|? ? id at_ns n ? Hle E|? ? now js ? E|? ? tr ? Hwf E|? ? now fs ? H0 E|? ? r ? E]; subst.
  - destruct (wp_returns _ _ _ (poll_ok cfg Hcfg hi _ s Hinv Hle)) as (a & s1 & E1 & H1 & _). rewrite E in E1. by injection E1 as _ <-.
  - destruct (complete_accepted _ _ _ _ _ _ E) as (Hn & a & Ha & Haa).
    destruct (wp_returns _ _ _ (complete_job_ok cfg Hcfg hi id at_ns n a s Hinv Hle Hn Ha Haa)) as (u & s1 & E1 & H1 & _). rewrite E in E1. by injection E1 as _ <-.
  - destruct (wp_returns _ _ _ (offer_migrations_ok cfg Hcfg hi' now s Hinv)) as (a & s1 & E1 & H1 & _). rewrite E in E1. by injection E1 as _ <-.
  - apply (wp_any _ _ _ _ _ (append_ok cfg hi' tr s Hinv Hwf) E).
  - destruct (wp_returns _ _ _ (retire_ok cfg hi now s Hinv H0)) as (a & s1 & E1 & H1 & _). rewrite E in E1. by injection E1 as _ <-.
  - injection E as _ <-. destruct Hinv. by constructor.
Qed.

Lemma executed_inv tr c custom cfg s hi : executed tr c custom cfg s hi -> settings_ok cfg /\ exec_inv cfg hi s.
Proof.
  intros [Hwf Hnd Hp (s0 & Hi & Hrun)]. destruct (executor_init_ok _ _ _ _ _ Hi Hwf Hnd Hp) as (Hcfg & Hinv & _). split; [done|].
  remember (s0, 0) as a eqn:Ea. remember (s, hi) as b eqn:Eb. revert s0 s hi Hi Hinv Ea Eb. clear Hwf Hnd Hp. 
  enough (H : forall a b, rtc (xstep cfg) a b -> exec_inv cfg a.2 a.1 -> exec_inv cfg b.2 b.1) by (intros s0 s hi _ Hinv -> ->; exact (H _ _ Hrun Hinv)).
  clear -Hcfg. induction 1 as [|[s1 h1] [s2 h2] [s3 h3] Hs _ IH]; [done|]. intros Hinv. apply IH. cbn in *. by eapply step_inv.
Qed.

(** A group in flight waits for a job. *)
Lemma group_has_job cfg hi s gid g : exec_inv cfg hi s -> groups (flight s) !! gid = Some g -> exists j, is_Some (job_bytes (flight s) !! j).
Proof.
  intros Hinv Hg. destruct (xi_busy _ _ _ Hinv gid g Hg) as [Hne _]; [apply not_elem_of_nil|]. apply set_choose_L in Hne as [j Hj].
  exists j. apply (fo_bytes _ (xi_flight _ _ _ Hinv)). destruct (fo_pending _ (xi_flight _ _ _ Hinv) gid g j Hg Hj) as [E _]. eauto.
Qed.

(** The first task of a batch that is not done has all its dependencies done. *)
Lemma first_undone (p : sched) b : wf_batch b -> (exists x, x ∈ CausalWorkload.tasks b /\ done p !! task_id x = None) ->
  exists x, x ∈ CausalWorkload.tasks b /\ done p !! task_id x = None /\ forall d, d ∈ deps x -> is_Some (done p !! d).
Proof.
  intros Hw (x & Hx & Hn). enough (H : forall after before, CausalWorkload.tasks b = before ++ after -> (forall y, y ∈ before -> is_Some (done p !! task_id y)) ->
    (exists x, x ∈ after /\ done p !! task_id x = None) -> exists x, x ∈ CausalWorkload.tasks b /\ done p !! task_id x = None /\ forall d, d ∈ deps x -> is_Some (done p !! d)).
  { apply (H (CausalWorkload.tasks b) []); [done| |eauto]. intros y Hy. by apply not_elem_of_nil in Hy. }
  induction after as [|y after IH]; intros before E Hb (z & Hz & Hzn); [by apply not_elem_of_nil in Hz|].
  destruct (done p !! task_id y) as [v|] eqn:Ey.
  - apply (IH (before ++ [y])); [by rewrite <- app_assoc| |].
    + intros w [Hw'|Hw'%list_elem_of_singleton]%elem_of_app; [by apply Hb|subst w; eauto].
    + apply elem_of_cons in Hz as [->|Hz]; [congruence|eauto].
  - exists y. split_and!; [rewrite E; set_solver|done|]. intros d Hd. pose proof (CausalWorkload.causal_split _ before y after (CausalWorkload.wb_causal _ Hw) E d Hd) as H.
    apply list_elem_of_fmap in H as (w & -> & Hw'). by apply Hb.
Qed.

Lemma executor_event_total bs p s : graph_ok bs p -> plan s = p -> exists l, mapR (storage_event p) (tasks p) = Ok l /\
  next_internal_event_ns s = Ok (zmin_list (option_list (snd <$> compute_running p) ++ concat l)).
Proof.
  intros HG <-. destruct (mapR_total (storage_event (plan s)) (tasks (plan s))) as [l Hl].
  - intros [id x] Hin. assert (Hx : dget (tasks (plan s)) id = Some x) by (apply dget_elem; [apply HG|done]). unfold storage_event. destruct (has _ _); [eauto|].
    destruct (CausalWorkload.job x) as [t issue consume n|]; [|eauto]. destruct (bool_decide _); [eauto|]. destruct (eligible_ok _ _ _ _ issue HG Hx) as (a & _ & ->). cbn. eauto.
  - exists l. split; [done|]. unfold next_internal_event_ns. rewrite Hl. done.
Qed.

Lemma zmin_list_nonempty l : l <> [] -> exists t, zmin_list l = Some t.
Proof. destruct l; [done|]. cbn. eauto. Qed.

(** ** A demonstration

    Two batches read one tensor and compute; the tensor is migrated after its first
    access. *)

Definition demo_tensor : tensor :=
  {| CausalWorkload.tensor_id := "weight"; CausalWorkload.tensor_kind := CausalWorkload.Mlp; CausalWorkload.bytes := 4096; CausalWorkload.layer := None;
     CausalWorkload.logical_address_bytes := 0; CausalWorkload.full_tensor_bytes := None |}.
Definition demo_batch (i : Z) (read compute : string) (arrives : Z) : batch :=
  {| CausalWorkload.interval_id := i; CausalWorkload.arrival_ns := arrives; CausalWorkload.batch_size := 1; CausalWorkload.token_ids := ["token"];
     CausalWorkload.tasks := [
       {| CausalWorkload.task_id := read; CausalWorkload.job := CausalWorkload.Storage demo_tensor [] [] 1; CausalWorkload.batch_interval_id := i |};
       {| CausalWorkload.task_id := compute; CausalWorkload.job := CausalWorkload.Compute 5 [read] true; CausalWorkload.batch_interval_id := i |}];
     CausalWorkload.terminal_task_id := compute |}.
Definition demo_trace : trace :=
  {| CausalWorkload.ident := {| CausalWorkload.trace_origin := CausalWorkload.TRACE_ORIGIN; CausalWorkload.dependency_mode := "synthetic_metadata_dag";
       CausalWorkload.model_id := "model"; CausalWorkload.embedding_access := "full_weight_stress"; CausalWorkload.prefetch_layers := 0;
       CausalWorkload.prefetch_mode := "on_demand"; CausalWorkload.structure_sha256 := None |};
     CausalWorkload.batches := [demo_batch 0 "r0" "c0" 0; demo_batch 1 "r1" "c1" 100] |}.
Definition demo_config (mode : string) (cache_name : string) (capacity : Z) (fast : string) : config :=
  {| cache_capacity_bytes := capacity; c_migration_mode := mode; migration_access_threshold := 1; c_cache_mode := Some cache_name;
     c_coalescing_enabled := Some true; c_prefetch_wait_mode := Some "wait_at_consumption"; retry_count_per_source_read := 0;
     c_migration_capacity_bytes := 8388608; fast_stripe_targets := Some [{| stack := fast; channel := "0"; route := "direct" |}];
     stripe_targets := Some [{| stack := "hbf0"; channel := "0"; route := "direct" |}]; default_placement := None; c_stripe_unit_bytes := 4096;
     placement_target_count := 0 |}.
Definition demo_cached : config := demo_config "fixed" "external_hbm" 4096 "hbm0".
Definition demo_migrating : config := demo_config "basic" "disabled" 0 "hbf1".

Lemma demo_wf : Forall wf_batch (CausalWorkload.batches demo_trace).
Proof.
  assert (H : forall i r c a, r <> c -> CausalWorkload.plain_id r = true -> CausalWorkload.plain_id c = true -> wf_batch (demo_batch i r c a)).
  { intros i r c a Hne Hr Hc. set (b := demo_batch i r c a). constructor.
    - cbn. apply NoDup_cons. split; [by rewrite list_elem_of_singleton|apply NoDup_singleton].
    - apply (CausalWorkload.causal_snoc [_]); [apply (CausalWorkload.causal_snoc []); [constructor|]|].
      + intros d Hd. by apply not_elem_of_nil in Hd.
      + intros d Hd. exact Hd.
    - intros x [->|[->|Hx]%elem_of_cons]%elem_of_cons; [|by left|by apply not_elem_of_nil in Hx]. right.
      exists {| CausalWorkload.task_id := c; CausalWorkload.job := CausalWorkload.Compute 5 [r] true; CausalWorkload.batch_interval_id := i |}.
      split; [apply elem_of_cons; right; by apply list_elem_of_singleton|by apply list_elem_of_singleton].
    - done.
    - intros x [->|[->|Hx]%elem_of_cons]%elem_of_cons; [done|done|by apply not_elem_of_nil in Hx].
    - intros x [->|[->|Hx]%elem_of_cons]%elem_of_cons; [done|done|by apply not_elem_of_nil in Hx]. }
  apply Forall_cons. split; [by apply H|]. apply Forall_cons. split; [by apply H|constructor].
Qed.
Lemma demo_ids : NoDup (all_task_ids (CausalWorkload.batches demo_trace)).
Proof. by apply (bool_decide_unpack _). Qed.

Lemma demo_executed c cfg s0 s hi : init demo_trace c None = Ok (cfg, s0) -> rtc (xstep cfg) (s0, 0) (s, hi) -> executed demo_trace c None cfg s hi.
Proof. intros Hi Hr. constructor; [apply demo_wf|apply demo_ids|done|eauto]. Qed.

(** ** Striping *)

(** C39: striping is round robin.  For every size the parts are computed without the
    assertion failing; their targets are distinct and their bytes add up to the
    size; and a target gets a part exactly when round robin over stripe units (unit
    [k] to target [k mod target_count]) gives it bytes, and then exactly these. *)
Theorem stripe_parts_round_robin cfg size : 0 < stripe_unit_bytes cfg -> 0 < target_count cfg -> 0 <= size ->
  exists parts, _stripe_parts cfg size = Ok parts /\ NoDup parts.*1 /\ zsum parts.*2 = size /\
    forall i n, (i, n) ∈ parts <-> 0 <= i < target_count cfg /\ n = round_robin cfg size i /\ n <> 0.
Proof.
  intros Hu Ht Hs. destruct (stripe_parts_ok cfg Hu Ht size Hs) as (parts & Hp & [P1 P2 P3 P4]). exists parts. split_and!; [done..|]. intros i n. split.
  - intros Hin. destruct (P2 i n Hin) as (Hi & Hn & ->). split_and!; [lia|lia| |lia]. by apply stripe_child_round_robin.
  - intros (Hi & -> & Hne). rewrite <- (stripe_child_round_robin cfg Hu Ht size i Hs Hi) in *. by apply P3.
Qed.

Definition demo_stripes : settings :=
  {| cache_capacity := 0; migration := Fixed; migration_threshold := 2; caching := Disabled; coalescing_enabled := true; waiting := WaitAtConsumption;
     retry_count := 0; migration_capacity_bytes := 0; stripe_unit_bytes := 4; target_count := 3;
     placement_provider := fun _ _ _ => Ok {| stack := "hbf0"; channel := "0"; route := "direct" |} |}.
Lemma stripe_parts_round_robin_witness : _stripe_parts demo_stripes 22 = Ok [(0, 8); (1, 8); (2, 6)] /\
  exists parts, _stripe_parts demo_stripes 22 = Ok parts /\ zsum parts.*2 = 22.
Proof.
  split; [vm_compute; reflexivity|].
  destruct (stripe_parts_round_robin demo_stripes 22 ltac:(cbn; lia) ltac:(cbn; lia) ltac:(lia)) as (parts & H1 & _ & H2 & _). exact (ex_intro _ parts (conj H1 H2)).
Defined.

(** Scripts of calls. *)
Inductive call := CPoll (now : Z) | CComplete (id : string) (at_ns n : Z) | CMigrate (now : Z) | CRetire (now : Z).
Definition perform (cfg : settings) (c : call) (st : executor * Z) : option (executor * Z) :=
  let '(s, hi) := st in
  match c with
  | CPoll now => if hi <=? now then match poll cfg now s with (Ok _, s') => Some (s', now) | _ => None end else None
  | CComplete id at_ns n => if now_ns s <=? at_ns then match complete cfg id at_ns n s with (Ok _, s') => Some (s', Z.max hi at_ns) | _ => None end else None
  | CMigrate now => match offer_migrations cfg now s with (Ok _, s') => Some (s', hi) | _ => None end
  | CRetire now => if 0 <=? now then match retire_completed_batches now s with (Ok _, s') => Some (s', Z.max hi now) | _ => None end else None
  end.
Fixpoint play (cfg : settings) (cs : list call) (st : executor * Z) : option (executor * Z) :=
  match cs with [] => Some st | c :: cs' => match perform cfg c st with Some st' => play cfg cs' st' | None => None end end.

Lemma perform_step cfg c st st' : perform cfg c st = Some st' -> xstep cfg st st'.
Proof.
  destruct st as [s hi], c as [now|id at_ns n|now|now]; cbn [perform].
  - destruct (Z.leb_spec hi now) as [Hle|]; [|done]. destruct (poll cfg now s) as [[js|] s'] eqn:E; [|done]. intros [= <-]. by eapply x_poll.
  - destruct (Z.leb_spec (now_ns s) at_ns) as [Hle|]; [|done]. destruct (complete cfg id at_ns n s) as [[[]|] s'] eqn:E; [|done]. intros [= <-]. by eapply x_complete.
  - destruct (offer_migrations cfg now s) as [[js|] s'] eqn:E; [|done]. intros [= <-]. by eapply x_migrate.
  - destruct (Z.leb_spec 0 now) as [Hle|]; [|done]. destruct (retire_completed_batches now s) as [[fs|] s'] eqn:E; [|done]. intros [= <-]. by eapply x_retire.
Qed.
Lemma play_run cfg cs st st' : play cfg cs st = Some st' -> rtc (xstep cfg) st st'.
Proof.
  revert st. induction cs as [|c cs IH]; intros st; cbn [play]; [intros [= ->]; apply rtc_refl|].
  destruct (perform cfg c st) as [st1|] eqn:E; [|done]. intros H. eapply rtc_l; [by eapply perform_step|by apply IH].
Qed.

Definition demo_play (c : config) (cs : list call) : option (settings * executor * executor * Z) :=
  match init demo_trace c None with
  | Ok (cfg, s0) => match play cfg cs (s0, 0) with Some (s, hi) => Some (cfg, s0, s, hi) | None => None end
  | Raise _ => None
  end.
Lemma demo_play_run c cs cfg s0 s hi : demo_play c cs = Some (cfg, s0, s, hi) -> executed demo_trace c None cfg s hi.
Proof.
  unfold demo_play. destruct (init demo_trace c None) as [[cfg' s0']|] eqn:Ei; [|done]. destruct (play cfg' cs (s0', 0)) as [[s' hi']|] eqn:Ep; [|done].
  intros [= -> -> -> ->]. eapply demo_executed; [exact Ei|by eapply play_run].
Qed.

(** ** Order of completion *)

(** C13: completion respects the dependency graph.  In every execution a task is
    recorded as done only when each of its dependencies, for issuing as well as for
    consuming, is done and not later; and no later than the latest reported time.
    The running computation started after its dependencies. *)
Theorem executor_causal tr c custom cfg s hi : executed tr c custom cfg s hi ->
  (forall id t, done (plan s) !! id = Some t -> 0 <= t <= hi /\ exists x, dget (tasks (plan s)) id = Some x /\
     forall d, d ∈ deps x -> exists v, done (plan s) !! d = Some v /\ v <= t) /\
  (forall id start finish, compute_running (plan s) = Some (id, start, finish) -> done (plan s) !! id = None /\
     exists x duration after terminal, dget (tasks (plan s)) id = Some x /\ CausalWorkload.job x = CausalWorkload.Compute duration after terminal /\
       finish = start + duration /\ forall d, d ∈ after -> exists v, done (plan s) !! d = Some v /\ v <= start).
Proof.
  intros Hex. destruct (executed_inv _ _ _ _ _ _ Hex) as [_ Hinv]. pose proof (xi_plan _ _ _ Hinv) as HP. split.
  - intros id t Ht. split; [by eapply (po_time _ _ _ _ HP)|]. by apply (po_done _ _ _ _ HP).
  - intros id st fin Hr. destruct (po_running _ _ _ _ HP _ _ _ Hr) as (Hn & _ & x & d & after & term & Hx & Hj & _ & Hf & Hby). split; [done|].
    exists x, d, after, term. done.
Qed.

Definition served_calls : list call := [CPoll 0; CComplete "causal:r0:part0" 10 4096; CPoll 10; CPoll 15].
Lemma executor_causal_witness : exists cfg s0 s hi, demo_play demo_cached served_calls = Some (cfg, s0, s, hi) /\ done (plan s) !! "c0" = Some 15 /\
  exists x, dget (tasks (plan s)) "c0" = Some x /\ forall d, d ∈ deps x -> exists v, done (plan s) !! d = Some v /\ v <= 15.
Proof.
  assert (Hd : match demo_play demo_cached served_calls with Some (_, _, s, _) => done (plan s) !! "c0" | None => None end = Some 15) by (vm_compute; reflexivity).
  destruct (demo_play demo_cached served_calls) as [[[[cfg s0] s] hi]|] eqn:E; [|discriminate Hd].
  destruct (proj1 (executor_causal _ _ _ _ _ _ (demo_play_run _ _ _ _ _ _ E)) "c0" 15 Hd) as [_ Hx].
  exact (ex_intro _ cfg (ex_intro _ s0 (ex_intro _ s (ex_intro _ hi (conj eq_refl (conj Hd Hx)))))).
Defined.

(** ** Progress *)

Lemma undone_waits cfg now s : exec_inv cfg now s -> awaiting now s -> (exists id x, dget (tasks (plan s)) id = Some x /\ done (plan s) !! id = None) ->
  (exists j, is_Some (job_bytes (flight s) !! j)) \/ (exists t, next_internal_event_ns s = Ok (Some t)) \/
  (exists id a, done (plan s) !! id = None /\ arrival (plan s) !! id = Some a /\ now < a).
Proof.
  intros Hinv [Hcons Hrun] (id & x & Hx & Hn). pose proof (xi_graph _ _ _ Hinv) as HG. pose proof (xi_plan _ _ _ Hinv) as HP.
  apply (go_tasks _ _ HG) in Hx as (b & Hb & Hxb & <-). destruct (first_undone (plan s) b (go_wf _ _ HG b Hb)) as (y & Hy & Hyn & Hdeps); [eauto|].
  assert (Hyt : dget (tasks (plan s)) (task_id y) = Some y) by (apply (go_tasks _ _ HG); eauto).
  destruct (executor_event_total _ _ s HG eq_refl) as (l & Hl & Hev). destruct (CausalWorkload.job y) as [t issue consume n|d after term] eqn:Hj.
  - assert (Hall : forall ids, (forall i, i ∈ ids -> i ∈ issue ++ consume) -> exists r, _deps_time (done (plan s)) ids = Some r).
    { intros ids Hin. destruct (_deps_time (done (plan s)) ids) as [r|] eqn:E; [eauto|]. apply deps_time_None in E as (i & Hi & Hin'). destruct (Hdeps i) as [v Hv]; [|congruence].
      unfold CausalWorkload.deps. rewrite Hj. by apply Hin. }
    destruct (decide (task_id y ∈ offered (plan s))) as [Ho|Ho].
    + left. destruct (po_status _ _ _ _ HP _ Ho) as [[v Hv]|[[[r src] Hr]|(g & g' & Hg & _)]]; [congruence| |by eapply group_has_job].
      exfalso. destruct (Hcons _ _ _ _ Hr Hyt) as (af & Ha & Hd). unfold consume_after in Ha. rewrite Hj in Ha. injection Ha as <-.
      destruct (Hall consume) as [v Hv]; [|congruence]. intros i Hi. apply elem_of_app. by right.
    + right. left. rewrite Hev. destruct (Hall issue) as [r Hr]; [intros i Hi; apply elem_of_app; by left|].
      destruct (eligible_ok _ _ _ _ issue HG Hyt) as (a & Ha & He). destruct (zmin_list_nonempty (option_list (snd <$> compute_running (plan s)) ++ concat l)) as [t' ->]; [|eauto].
      intros Hnil. apply app_eq_nil in Hnil as [_ Hnil]. enough (Hin : Z.max r a ∈ concat l) by (rewrite Hnil in Hin; by apply not_elem_of_nil in Hin).
      apply (mapR_concat _ _ _ _ Hl). exists (task_id y, y), [Z.max r a]. split_and!; [by apply dget_Some_elem| |by apply list_elem_of_singleton].
      unfold storage_event. rewrite (proj2 (has_false _ _) Hyn), Hj, bool_decide_eq_false_2 by done. rewrite He, Hr. done.
  - destruct (compute_running (plan s)) as [[[rid st] fin]|] eqn:Er.
    { right. left. rewrite Hev. cbn. eauto. }
    destruct (Hrun eq_refl) as [Hblock|Hno].
    + left. apply existsb_exists in Hblock as (g & Hg & _). apply list_elem_of_In in Hg. unfold group_list in Hg. apply list_elem_of_fmap in Hg as ([gid g'] & -> & Hg).
      apply elem_of_map_to_list in Hg. by eapply group_has_job.
    + right. right. destruct (graph_task _ _ _ _ HG Hyt) as (b' & _ & _ & _ & Ha & _). exists (task_id y), (CausalWorkload.arrival_ns b'). split_and!; [done..|].
      destruct (Z.lt_ge_cases now (CausalWorkload.arrival_ns b')) as [|Hle]; [done|]. exfalso. apply (Hno (task_id y)). exists y, d, after, term, (CausalWorkload.arrival_ns b').
      split_and!; [done..| |done|done]. intros i Hi. destruct (Hdeps i) as [v Hv]; [unfold CausalWorkload.deps; by rewrite Hj|]. exists v. split; [done|]. apply (po_time _ _ _ _ HP) in Hv. lia.
Qed.

(** C14: the executor does not raise and does not get stuck.  In every execution the
    next poll returns; and while some task is not done after it, a job is
    outstanding at the service, or the executor announces an internal event, or a
    batch has not arrived.  A completion of an outstanding job that is not earlier
    than its arrival and the last poll is taken; migrations can be offered and
    batches retired at any time. *)
Theorem executor_never_stuck tr c custom cfg s hi : executed tr c custom cfg s hi ->
  (forall now, hi <= now -> exists js s', poll cfg now s = (Ok js, s') /\
     ((exists id x, dget (tasks (plan s')) id = Some x /\ done (plan s') !! id = None) ->
      (exists j, is_Some (job_bytes (flight s') !! j)) \/ (exists t, next_internal_event_ns s' = Ok (Some t)) \/
      (exists id a, done (plan s') !! id = None /\ arrival (plan s') !! id = Some a /\ now < a))) /\
  (forall id n a at_ns, job_bytes (flight s) !! id = Some n -> job_arrival (flight s) !! id = Some a -> now_ns s <= at_ns -> a <= at_ns ->
     exists s', complete cfg id at_ns n s = (Ok tt, s')) /\
  (forall now, exists js s', offer_migrations cfg now s = (Ok js, s')) /\
  (forall now, 0 <= now -> exists fs s', retire_completed_batches now s = (Ok fs, s')).
Proof.
  intros Hex. destruct (executed_inv _ _ _ _ _ _ Hex) as [Hcfg Hinv]. split_and!.
  - intros now Hle. destruct (wp_returns _ _ _ (poll_ok cfg Hcfg hi now s Hinv Hle)) as (js & s' & E & Hinv' & Hn & _ & _ & Haw). exists js, s'. split; [done|].
    by apply (undone_waits cfg).
  - intros id n a at_ns Hb Ha Hle Haa. destruct (wp_returns _ _ _ (complete_job_ok cfg Hcfg hi id at_ns n a s Hinv Hle Hb Ha Haa)) as ([] & s' & E & _). eauto.
  - intros now. destruct (wp_returns _ _ _ (offer_migrations_ok cfg Hcfg hi now s Hinv)) as (js & s' & E & _). eauto.
  - intros now H0. destruct (wp_returns _ _ _ (retire_ok cfg hi now s Hinv H0)) as (fs & s' & E & _). eauto.
Qed.

Lemma executor_never_stuck_witness : exists cfg s0 s hi, demo_play demo_cached served_calls = Some (cfg, s0, s, hi) /\
  exists js s', poll cfg hi s = (Ok js, s').
Proof.
  destruct (demo_play demo_cached served_calls) as [[[[cfg s0] s] hi]|] eqn:E; [|vm_compute in E; discriminate E].
  destruct (proj1 (executor_never_stuck _ _ _ _ _ _ (demo_play_run _ _ _ _ _ _ E)) hi (Z.le_refl hi)) as (js & s' & Hp & _).
  exact (ex_intro _ cfg (ex_intro _ s0 (ex_intro _ s (ex_intro _ hi (conj eq_refl (ex_intro _ js (ex_intro _ s' Hp))))))).
Defined.

(** ** Cache *)

(** C16: the cache stays within its capacity and never loses a hit.  In every
    execution the recorded size of the cache is the sum of its entries, and together
    with the fills in flight it fits the capacity; the tensor of a hit whose read is
    in flight is still cached; and a fill that completes is appended to the cache
    without any eviction. *)
Theorem executor_cache_sound tr c custom cfg s hi : executed tr c custom cfg s hi ->
  cache_bytes (kept s) = zsum (dvals (cache (kept s))) /\
  cache_bytes (kept s) + zsum (dvals (cache_reservations (kept s))) <= cache_capacity cfg /\
  (forall gid g, groups (flight s) !! gid = Some g -> is_hit g = true -> is_Some (dget (cache (kept s)) (g_tensor g))) /\
  (forall gid g, groups (flight s) !! gid = Some g -> content g = FillGroup ->
     insert_entry cfg (g_tensor g) (g_bytes g) (unreserve (g_tensor g) (kept s)) =
     {| cache := cache (kept s) ++ [(g_tensor g, g_bytes g)]; cache_bytes := cache_bytes (kept s) + g_bytes g;
        cache_reservations := ddel (cache_reservations (kept s)) (g_tensor g) |}).
Proof.
  intros Hex. destruct (executed_inv _ _ _ _ _ _ Hex) as [Hcfg Hinv]. pose proof (xi_cache _ _ _ Hinv) as Hc. split_and!.
  - apply (ko_sum _ _ _ Hc).
  - apply (ko_capacity _ _ _ Hc).
  - apply (ko_hit _ _ _ Hc).
  - intros gid g Hg Hf. exact (fill_fits _ _ _ _ _ Hc (xi_flight _ _ _ Hinv) Hg Hf).
Qed.

Definition filling_calls : list call := [CPoll 0; CComplete "causal:r0:part0" 10 4096; CPoll 10].
Lemma executor_cache_sound_witness : exists cfg s0 s hi, demo_play demo_cached filling_calls = Some (cfg, s0, s, hi) /\
  zsum (dvals (cache_reservations (kept s))) = 4096 /\ cache_bytes (kept s) + zsum (dvals (cache_reservations (kept s))) <= cache_capacity cfg.
Proof.
  assert (Hd : match demo_play demo_cached filling_calls with Some (_, _, s, _) => zsum (dvals (cache_reservations (kept s))) | None => 0 end = 4096)
    by (vm_compute; reflexivity).
  destruct (demo_play demo_cached filling_calls) as [[[[cfg s0] s] hi]|] eqn:E; [|discriminate Hd].
  pose proof (proj1 (proj2 (executor_cache_sound _ _ _ _ _ _ (demo_play_run _ _ _ _ _ _ E)))) as Hx.
  exact (ex_intro _ cfg (ex_intro _ s0 (ex_intro _ s (ex_intro _ hi (conj eq_refl (conj Hd Hx)))))).
Defined.

(** ** Migration *)

(** C17: a migrated tensor is erased only when nothing reads its old copy.  In every
    execution at most one migration group is in flight for a tensor, and it is never
    rolled back; while the old copy of a tensor is being erased the tensor is served
    from its new place and no read of the old copy is in flight; and the bytes
    allocated at the destination stay within their capacity. *)
Theorem migration_erase_safe tr c custom cfg s hi : executed tr c custom cfg s hi ->
  migration_used_bytes (moved s) <= Z.max 0 (migration_capacity_bytes cfg) /\
  forall gid g x, groups (flight s) !! gid = Some g -> content g = MigrationGroup x ->
    x_phase x <> MigrationEraseDestination /\
    (forall gid' g' x', groups (flight s) !! gid' = Some g' -> content g' = MigrationGroup x' -> x_tensor x' = x_tensor x -> gid' = gid) /\
    (x_phase x = MigrationEraseOld -> tensor_tier (moved s) !! x_tensor x = Some Fast /\
       forall gid' g' r, groups (flight s) !! gid' = Some g' -> content g' = ReadGroup r -> from r = Source -> g_tensor g' <> x_tensor x).
Proof.
  intros Hex. destruct (executed_inv _ _ _ _ _ _ Hex) as [Hcfg Hinv]. pose proof (xi_moves _ _ _ Hinv) as HV. split; [apply (mo_used _ _ _ _ HV)|].
  intros gid g x Hg Hc. assert (Hm : moving (flight s) gid x) by by exists g. pose proof (mo_group _ _ _ _ HV _ _ Hm) as (_ & _ & _ & Hph). split_and!.
  - intros E. by rewrite E in Hph.
  - intros gid' g' x' Hg' Hc' Ht. eapply (mo_unique _ _ _ _ HV); [by exists g'|exact Hm|done].
  - intros E. rewrite E in Hph. split; [done|]. intros gid' g' r Hg' Hr Hs Ht. pose proof (mo_erase _ _ _ _ HV _ _ _ _ Hm E Hg') as Hf.
    unfold reads_source in Hf. rewrite Hr, Hs in Hf. cbn in Hf. by apply String.eqb_neq in Hf.
Qed.

Definition erasing_calls : list call :=
  [CPoll 0; CComplete "causal:r0:part0" 10 4096; CMigrate 10; CComplete "causal:migration:weight:migration_source:part0" 20 4096; CPoll 20;
   CComplete "causal:migration:weight:migration_destination:part0" 30 4096; CPoll 30].
Definition erase_group : string := "causal:migration:weight:migration_erase_old".
Lemma migration_erase_safe_witness : exists cfg s0 s hi g, demo_play demo_migrating erasing_calls = Some (cfg, s0, s, hi) /\
  groups (flight s) !! erase_group = Some g /\ tensor_tier (moved s) !! "weight" = Some Fast.
Proof.
  assert (Hd : match demo_play demo_migrating erasing_calls with
               | Some (_, _, s, _) => match groups (flight s) !! erase_group with
                                      | Some g => match content g with MigrationGroup x => Some (x_tensor x, x_phase x) | _ => None end
                                      | None => None
                                      end
               | None => None
               end = Some ("weight", MigrationEraseOld)) by (vm_compute; reflexivity).
  destruct (demo_play demo_migrating erasing_calls) as [[[[cfg s0] s] hi]|] eqn:E; [|discriminate Hd].
  destruct (groups (flight s) !! erase_group) as [g|] eqn:Eg; [|discriminate Hd]. destruct (content g) as [r| |x] eqn:Ec; [discriminate Hd|discriminate Hd|].
  injection Hd as Ht Hp. pose proof (proj1 (proj2 (proj2 (proj2 (migration_erase_safe _ _ _ _ _ _ (demo_play_run _ _ _ _ _ _ E)) _ _ _ Eg Ec)) Hp)) as Hx.
  rewrite Ht in Hx. exact (ex_intro _ cfg (ex_intro _ s0 (ex_intro _ s (ex_intro _ hi (ex_intro _ g (conj eq_refl (conj Eg Hx))))))).
Defined.

(** ** Retiring *)

(** Only finished batches are retired.  In every execution
    [retire_completed_batches] returns; each batch that it reports was active, its
    facts are those of the batch, the completion is that of its terminal task, every
    task of the batch was done by then (after the pending reads were consumed), and
    none of its tasks is left. *)
Theorem executor_retire_sound tr c custom cfg s hi now : executed tr c custom cfg s hi -> 0 <= now ->
  exists fs s1 s', _resolve_ready_storage now s = (Ok tt, s1) /\ retire_completed_batches now s = (Ok fs, s') /\
    forall f, f ∈ fs -> exists b, b ∈ CausalWorkload.batches (current s) /\ fact_of (plan s1) b f /\
      forall x, x ∈ CausalWorkload.tasks b -> dget (tasks (plan s')) (task_id x) = None.
Proof.
  intros Hex H0. destruct (executed_inv _ _ _ _ _ _ Hex) as [Hcfg Hinv].
  destruct (wp_returns _ _ _ (retire_ok cfg hi now s Hinv H0)) as (fs & s' & E & _ & _ & s1 & E1 & Hf). exists fs, s1, s'. done.
Qed.

Lemma executor_retire_sound_witness : exists cfg s0 s hi, demo_play demo_cached served_calls = Some (cfg, s0, s, hi) /\
  exists fs s1 s', _resolve_ready_storage 15 s = (Ok tt, s1) /\ retire_completed_batches 15 s = (Ok fs, s') /\ f_completion <$> fs = [15].
Proof.
  assert (Hd : match demo_play demo_cached served_calls with
               | Some (_, _, s, _) => match retire_completed_batches 15 s with (Ok fs, _) => f_completion <$> fs | _ => [] end
               | None => []
               end = [15]) by (vm_compute; reflexivity).
  destruct (demo_play demo_cached served_calls) as [[[[cfg s0] s] hi]|] eqn:E; [|discriminate Hd].
  destruct (executor_retire_sound _ _ _ _ _ _ 15 (demo_play_run _ _ _ _ _ _ E) ltac:(lia)) as (fs & s1 & s' & H1 & H2 & _). rewrite H2 in Hd.
  exact (ex_intro _ cfg (ex_intro _ s0 (ex_intro _ s (ex_intro _ hi (conj eq_refl (ex_intro _ fs (ex_intro _ s1 (ex_intro _ s' (conj H1 (conj H2 Hd)))))))))).
Defined.

(** The result of an executor always names the synthetic origin, also for a trace
    with the other accepted origin. *)
Lemma result_origin_constant now s r s' : result_of now s = (Ok r, s') -> r_trace_origin r = CausalWorkload.TRACE_ORIGIN.
Proof.
  unfold result_of, sbind. destruct (_resolve_ready_storage now s) as [[u|] s1]; [|done]. cbn. by intros [= <- _].
Qed.
End ExecutorTheorems.
