(* ===== verification/ReliabilityLedger.v ===== *)
(** * ReliabilityLedger: retention age of blocks

    Models [experiments/eq3_system_thermal/reliability.py]: the Arrhenius
    acceleration and the ledger that integrates the equivalent age of every block
    over contiguous temperature intervals, says when a block is due for refresh and
    keeps the counts of media operations.

    [math.exp] and SHA-256 are arguments.  The settings are those of the constructor
    after [float(...)] and [int(...)]; block identities, times and counts have their
    types, so that only the checks on their values remain.  Constant labels of the
    events are left out. *)

From S2P Require Import Prelude ProgramLogic PyFloat.

Module ReliabilityLedger.
Import ProgramLogic.

(** ** Settings *)

Definition EA_LOW : spec_float := S754_finite false 4548635623644201 (-52).
Definition EA_MID : spec_float := S754_finite false 4683743612465316 (-52).
Definition EA_HIGH : spec_float := S754_finite false 4863887597560136 (-52).
Definition ALLOWED_EA_EV : list spec_float := [EA_LOW; EA_MID; EA_HIGH].
Definition DEFAULT_TREF_K : spec_float := S754_finite false 6300641431807590 (-44).
Definition KB_EV_PER_K : spec_float := S754_finite false 6360437356615053 (-66).
Definition DAY_NS : Z := 86400000000000.

Record settings := {
  ea_ev : spec_float; tref_k : spec_float; period_ns : Z; initial_age_ns : Z; initial_wall_age_ns : Z; epoch_ns : Z; refresh_trigger : string }.

Definition check_settings (c : settings) : result unit :=
  let? _ := ensure (existsb (feq (ea_ev c)) ALLOWED_EA_EV) (ValueError "ea_ev must be one of ALLOWED_EA_EV") in
  let? _ := ensure (feq (tref_k c) DEFAULT_TREF_K) (ValueError "this scenario contract fixes tref_k at 358.15 K") in
  let? _ := ensure (period_ns c =? DAY_NS) (ValueError "this scenario contract fixes maintenance cadence at 24 h") in
  let? _ := ensure (String.eqb (refresh_trigger c) "wall_only" || String.eqb (refresh_trigger c) "equivalent_age_or_wall")
              (ValueError "unsupported refresh_trigger") in
  let? _ := ensure ((0 <=? initial_age_ns c) && (0 <=? initial_wall_age_ns c) && (0 <=? epoch_ns c))
              (ValueError "initial age and epoch must be non-negative") in
  ensure (initial_wall_age_ns c <=? period_ns c) (ValueError "initial wall age cannot exceed the 24 h cadence").

(** ** State *)

Inductive media := MediaProgram | MediaErase.

Record block := {
  equivalent_age_ns : spec_float; last_update_ns : Z; program_phase_started_count : Z; program_completed_count : Z;
  erase_phase_started_count : Z; erase_completed_count : Z; last_refresh_commit_ns : option Z; next_wall_due_ns : Z;
  retry_scenario_count : Z; retry_scenario_latency_ns : Z; retry_scenario_energy_j : spec_float }.

Inductive event :=
| TemperatureAge (id : string) (start_ns end_ns : Z) (temperature_k acceleration delta : spec_float)
| TemperatureAgeCohort (count : Z) (digest first_id last_id : string) (start_ns end_ns : Z) (temperature_k acceleration delta_each : spec_float)
| MediaTerminal (k : media) (id operation_id : string) (completion_ns : Z) (phase_started succeeded : bool)
| RefreshTerminal (id request_id : string) (completion_ns : Z) (committed : bool) (age_before age_after : spec_float)
| RetryScenario (id : string) (at_ns count extra_latency_ns : Z) (extra_energy_j : spec_float) (scenario_id : string).

Definition event_kind (e : event) : string :=
  match e with
  | TemperatureAge _ _ _ _ _ _ => "temperature_age"
  | TemperatureAgeCohort _ _ _ _ _ _ _ _ _ => "temperature_age_cohort"
  | MediaTerminal MediaProgram _ _ _ _ _ => "program"
  | MediaTerminal MediaErase _ _ _ _ _ => "erase"
  | RefreshTerminal _ _ _ _ _ _ => "refresh_terminal"
  | RetryScenario _ _ _ _ _ _ => "retry_scenario"
  end.

Record ledger := { blocks : dict string block; events : list event; drained_event_counts : dict string Z }.
Notation L := (M ledger).

Definition init (c : settings) : result ledger :=
  let? _ := check_settings c in Ok {| blocks := []; events := []; drained_event_counts := [] |}.

Definition set_block (id : string) (b : block) (l : ledger) : ledger :=
  {| blocks := dset (blocks l) id b; events := events l; drained_event_counts := drained_event_counts l |}.
Definition add_event (e : event) (l : ledger) : ledger :=
  {| blocks := blocks l; events := events l ++ [e]; drained_event_counts := drained_event_counts l |}.

Definition aged (delta : spec_float) (at_ns : Z) (b : block) : block :=
  {| equivalent_age_ns := fadd (equivalent_age_ns b) delta; last_update_ns := at_ns;
     program_phase_started_count := program_phase_started_count b; program_completed_count := program_completed_count b;
     erase_phase_started_count := erase_phase_started_count b; erase_completed_count := erase_completed_count b;
     last_refresh_commit_ns := last_refresh_commit_ns b; next_wall_due_ns := next_wall_due_ns b; retry_scenario_count := retry_scenario_count b;
     retry_scenario_latency_ns := retry_scenario_latency_ns b; retry_scenario_energy_j := retry_scenario_energy_j b |}.
Definition counted (k : media) (started completed : Z) (b : block) : block :=
  let p := match k with MediaProgram => true | MediaErase => false end in
  {| equivalent_age_ns := equivalent_age_ns b; last_update_ns := last_update_ns b;
     program_phase_started_count := program_phase_started_count b + (if p then started else 0);
     program_completed_count := program_completed_count b + (if p then completed else 0);
     erase_phase_started_count := erase_phase_started_count b + (if p then 0 else started);
     erase_completed_count := erase_completed_count b + (if p then 0 else completed);
     last_refresh_commit_ns := last_refresh_commit_ns b; next_wall_due_ns := next_wall_due_ns b; retry_scenario_count := retry_scenario_count b;
     retry_scenario_latency_ns := retry_scenario_latency_ns b; retry_scenario_energy_j := retry_scenario_energy_j b |}.
Definition refreshed (at_ns due_ns : Z) (b : block) : block :=
  {| equivalent_age_ns := float_zero; last_update_ns := last_update_ns b;
     program_phase_started_count := program_phase_started_count b; program_completed_count := program_completed_count b;
     erase_phase_started_count := erase_phase_started_count b; erase_completed_count := erase_completed_count b;
     last_refresh_commit_ns := Some at_ns; next_wall_due_ns := due_ns; retry_scenario_count := retry_scenario_count b;
     retry_scenario_latency_ns := retry_scenario_latency_ns b; retry_scenario_energy_j := retry_scenario_energy_j b |}.
Definition retried (count latency : Z) (energy : spec_float) (b : block) : block :=
  {| equivalent_age_ns := equivalent_age_ns b; last_update_ns := last_update_ns b;
     program_phase_started_count := program_phase_started_count b; program_completed_count := program_completed_count b;
     erase_phase_started_count := erase_phase_started_count b; erase_completed_count := erase_completed_count b;
     last_refresh_commit_ns := last_refresh_commit_ns b; next_wall_due_ns := next_wall_due_ns b;
     retry_scenario_count := retry_scenario_count b + count; retry_scenario_latency_ns := retry_scenario_latency_ns b + latency;
     retry_scenario_energy_j := fadd (retry_scenario_energy_j b) energy |}.

(** ** Operations *)

Section operations.
Context (exp : spec_float -> result spec_float) (sha256 : string -> string) (cfg : settings).

(** [f >= z] of a float and an integer. *)
Definition float_ge_int (f : spec_float) (z : Z) : bool :=
  match cmp_int_float z f with Some Lt | Some Eq => true | _ => false end.
Definition positive_float (f : spec_float) : bool := isfinite f && flt float_zero f.

Definition arrhenius_acceleration (temperature ea tref : spec_float) : result spec_float :=
  let? _ := ensure (positive_float temperature) (ValueError "temperature_k must be finite and positive") in
  let? _ := ensure (positive_float ea) (ValueError "ea_ev must be finite and positive") in
  let? _ := ensure (positive_float tref) (ValueError "tref_k must be finite and positive") in
  let? slope := fdiv ea KB_EV_PER_K in
  let? reference := fdiv float_one tref in
  let? actual := fdiv float_one temperature in
  exp (fmul slope (fsub reference actual)).

(** [float(self.initial_age_ns)] is evaluated on every call. *)
Definition fresh_block : result block :=
  let? age := float_of_int (initial_age_ns cfg) in
  Ok {| equivalent_age_ns := age; last_update_ns := epoch_ns cfg; program_phase_started_count := 0; program_completed_count := 0;
        erase_phase_started_count := 0; erase_completed_count := 0; last_refresh_commit_ns := None;
        next_wall_due_ns := epoch_ns cfg + period_ns cfg - initial_wall_age_ns cfg; retry_scenario_count := 0; retry_scenario_latency_ns := 0;
        retry_scenario_energy_j := float_zero |}.

Definition _block (id : string) : L block :=
  let! _ := require (negb (String.eqb id "")) (ValueError "block_id must be a non-empty physical identity") in
  let! fresh := lift fresh_block in
  let! l := get in
  match dget (blocks l) id with
  | Some b => sret b
  | None => let! _ := put (set_block id fresh l) in sret fresh
  end.

Definition due_reasons (id : string) (at_ns : Z) : L (list string) :=
  let! b := _block id in
  let! _ := require (last_update_ns b <=? at_ns) (ValueError "due query precedes accounted block time") in
  sret ((if next_wall_due_ns b <=? at_ns then ["WALL_24H_SCENARIO_CADENCE"] else []) ++
        (if String.eqb (refresh_trigger cfg) "equivalent_age_or_wall" && float_ge_int (equivalent_age_ns b) (period_ns cfg)
         then ["EQUIVALENT_AGE_24H_CONSERVATIVE_POLICY"] else [])).

Definition accounted_through_ns (id : string) : L Z := let! b := _block id in sret (last_update_ns b).

Definition advance_temperature (id : string) (start_ns end_ns : Z) (temperature_k : spec_float) : L spec_float :=
  let! b := _block id in
  let! _ := require ((start_ns =? last_update_ns b) && (start_ns <=? end_ns)) (ValueError "temperature intervals must be contiguous and non-negative") in
  let! rate := lift (arrhenius_acceleration temperature_k (ea_ev cfg) (tref_k cfg)) in
  let! span := lift (float_of_int (end_ns - start_ns)) in
  let delta := fmul span rate in
  let! _ := modify (set_block id (aged delta end_ns b)) in
  let! _ := modify (add_event (TemperatureAge id start_ns end_ns temperature_k rate delta)) in
  sret delta.

Definition advance_member (start_ns end_ns : Z) (delta : spec_float) (id : string) : L unit :=
  let! b := _block id in
  let! _ := require (last_update_ns b =? start_ns) (ValueError "temperature cohort intervals must be contiguous") in
  modify (set_block id (aged delta end_ns b)).

Fixpoint join_lines (l : list string) : string :=
  match l with [] => "" | [x] => x | x :: l' => x +:+ String (Ascii.ascii_of_nat 10) (join_lines l') end.

Definition advance_temperature_many (ids : list string) (start_ns end_ns : Z) (temperature_k : spec_float) : L spec_float :=
  let! _ := require (bool_decide (ids <> []) && bool_decide (NoDup ids)) (ValueError "block_ids must be a nonempty unique list") in
  let! _ := require (forallb (fun id => negb (String.eqb id "")) ids) (ValueError "block IDs must be nonempty strings") in
  let! _ := require (start_ns <=? end_ns) (ValueError "temperature interval must be non-negative") in
  let! rate := lift (arrhenius_acceleration temperature_k (ea_ev cfg) (tref_k cfg)) in
  let! span := lift (float_of_int (end_ns - start_ns)) in
  let delta := fmul span rate in
  let! _ := forM ids (advance_member start_ns end_ns delta) in
  let names := isort sle ids in
  let! _ := modify (add_event (TemperatureAgeCohort (Z.of_nat (length ids)) (sha256 (join_lines names)) (default "" (head names))
                                 (default "" (last names)) start_ns end_ns temperature_k rate delta)) in
  sret delta.

Definition _media_terminal (k : media) (id : string) (completion_ns : Z) (succeeded : bool) (operation_id : string) (phase_started : bool) : L unit :=
  let! b := _block id in
  let! _ := require (last_update_ns b <=? completion_ns) (ValueError "media completion precedes accounted block time") in
  let! _ := require (negb succeeded || phase_started) (ValueError "successful media operation must have started") in
  let! _ := modify (set_block id (counted k (if phase_started then 1 else 0) (if succeeded then 1 else 0) b)) in
  modify (add_event (MediaTerminal k id operation_id completion_ns phase_started succeeded)).
Definition record_program (id : string) (completion_ns : Z) (succeeded : bool) (operation_id : string) (phase_started : bool) : L unit :=
  _media_terminal MediaProgram id completion_ns succeeded operation_id phase_started.
Definition record_erase (id : string) (completion_ns : Z) (succeeded : bool) (operation_id : string) (phase_started : bool) : L unit :=
  _media_terminal MediaErase id completion_ns succeeded operation_id phase_started.

Definition record_refresh_terminal (id : string) (completion_ns : Z) (committed : bool) (request_id : string) : L unit :=
  let! b := _block id in
  let! _ := require (completion_ns =? last_update_ns b) (ValueError "refresh terminal must coincide with accounted block time") in
  let b' := if committed then refreshed completion_ns (completion_ns + period_ns cfg) b else b in
  let! _ := modify (set_block id b') in
  modify (add_event (RefreshTerminal id request_id completion_ns committed (equivalent_age_ns b) (equivalent_age_ns b'))).

Definition record_retry_scenario (id : string) (at_ns count extra_latency_ns : Z) (extra_energy_j : spec_float) (scenario_id : string) : L unit :=
  let! b := _block id in
  let! _ := require ((0 <=? at_ns) && (0 <=? count) && (0 <=? extra_latency_ns))
              (ValueError "retry fact counts/times must be non-negative integer values") in
  let! _ := require ((last_update_ns b <=? at_ns) && isfinite extra_energy_j && negb (flt extra_energy_j float_zero))
              (ValueError "invalid retry scenario fact") in
  let! _ := modify (set_block id (retried count extra_latency_ns extra_energy_j b)) in
  modify (add_event (RetryScenario id at_ns count extra_latency_ns extra_energy_j scenario_id)).

Definition count_event (d : dict string Z) (e : event) : dict string Z := dset d (event_kind e) (dget_or d (event_kind e) 0 + 1).
Definition drain_events : L (list event) :=
  let! l := get in
  let! _ := put {| blocks := blocks l; events := []; drained_event_counts := foldl count_event (drained_event_counts l) (events l) |} in
  sret (events l).
End operations.

(** ** The accounted time of blocks *)

Section frontier.
Context (cfg : settings).

Definition frontier (l : ledger) (id : string) : Z := match dget (blocks l) id with Some b => last_update_ns b | None => epoch_ns cfg end.

(** Identities that the ledger accepts. *)
Definition accountable (id : string) : Prop := id <> "" /\ exists b, fresh_block cfg = Ok b.

(** [l'] accounts the same times as [l], and has the blocks of [l]. *)
Definition extends (l l' : ledger) : Prop :=
  (forall id, frontier l' id = frontier l id) /\ forall id b, dget (blocks l) id = Some b -> dget (blocks l') id = Some b.

Lemma ages_refl l : extends l l.
Proof. done. Qed.
Lemma ages_trans l1 l2 l3 : extends l1 l2 -> extends l2 l3 -> extends l1 l3.
Proof. intros [A1 B1] [A2 B2]. split; [intros id; by rewrite A2, A1|auto]. Qed.

Lemma fresh_frontier b : fresh_block cfg = Ok b -> last_update_ns b = epoch_ns cfg.
Proof. unfold fresh_block. destruct (float_of_int _); [|done]. by intros [= <-]. Qed.

Lemma frontier_set l id b id' : frontier (set_block id b l) id' = if decide (id' = id) then last_update_ns b else frontier l id'.
Proof. unfold frontier, set_block. cbn [blocks]. rewrite dget_dset. case_decide; [by rewrite decide_True by done|]. by rewrite decide_False by done. Qed.

(** A block is found or created; only an identity that is not accepted raises. *)
Lemma block_ok id l : wp (fun _ _ => ~ accountable id) (_block cfg id)
  (fun b l' => last_update_ns b = frontier l id /\ dget (blocks l') id = Some b /\ extends l l' /\ accountable id) l.
Proof.
  unfold _block. wp_step. apply wp_require; intros Hid.
  { apply negb_false_iff, String.eqb_eq in Hid. by intros [? _]. }
  apply negb_true_iff, String.eqb_neq in Hid. wp_step. unfold wp at 1, lift. destruct (fresh_block cfg) as [fresh|e] eqn:Ef.
  2:{ intros [_ [b Hb]]. by rewrite Ef in Hb. }
  assert (Hacc : accountable id) by (split; [done|eauto]). wp_steps. destruct (dget (blocks l) id) as [b|] eqn:Eb.
  { wp_step. split_and!; [unfold frontier; by rewrite Eb|done|done|done]. }
  wp_steps. split_and!; [unfold frontier; rewrite Eb; by apply fresh_frontier|apply dget_dset_eq| |done]. split.
  - intros id'. rewrite frontier_set. case_decide as E; [|done]. subst. unfold frontier. rewrite Eb. by apply fresh_frontier.
  - intros id' b' Hb'. cbn [set_block blocks]. rewrite dget_dset_ne; [done|]. intros <-. by rewrite Eb in Hb'.
Qed.

Lemma accounted_ok id l : wp (fun _ _ => ~ accountable id) (accounted_through_ns cfg id) (fun n l' => n = frontier l id /\ extends l l') l.
Proof. unfold accounted_through_ns. wp_step. eapply wp_mono; [apply block_ok|]. intros b l' (Hb & _ & Hx & _). by wp_step. Qed.

Lemma due_ok id at_ns l : wp (fun _ _ => ~ (accountable id /\ frontier l id <= at_ns)) (due_reasons cfg id at_ns)
  (fun _ l' => extends l l' /\ accountable id) l.
Proof.
  unfold due_reasons. wp_step. pose proof (block_ok id l) as H. unfold wp in *. destruct (_block cfg id l) as [[b|e] l']; [|tauto].
  destruct H as (Hb & _ & Hx & Ha). unfold sbind, require, lift, ensure. rewrite Hb. destruct (Z.leb_spec (frontier l id) at_ns); [done|]. cbn. intros [_ ?]. lia.
Qed.

(** A committed refresh at the accounted time resets the age of its block and
    postpones its wall-clock due time; no other block changes. *)
Lemma refresh_ok id at_ns oid l : wp (fun _ _ => ~ (accountable id /\ frontier l id = at_ns)) (record_refresh_terminal cfg id at_ns true oid)
  (fun _ l' => (forall id', frontier l' id' = frontier l id') /\ accountable id /\ frontier l id = at_ns /\
     (forall id' b, id' <> id -> dget (blocks l) id' = Some b -> dget (blocks l') id' = Some b) /\
     exists b, dget (blocks l') id = Some b /\ equivalent_age_ns b = float_zero /\ last_refresh_commit_ns b = Some at_ns /\
       next_wall_due_ns b = at_ns + period_ns cfg) l.
Proof.
  unfold record_refresh_terminal. wp_step. pose proof (block_ok id l) as H. unfold wp in *. destruct (_block cfg id l) as [[b|e] l1]; [|tauto].
  destruct H as (Hb & Hl & [Hx Hold] & Ha). unfold sbind at 1, require, lift, ensure. rewrite Hb. destruct (Z.eqb_spec at_ns (frontier l id)) as [->|Hne].
  2:{ cbn. intros [_ ?]. by subst. }
  cbn -[dget dset]. split_and!; [|done|done| |].
  - intros id'. change (frontier (set_block id (refreshed (frontier l id) (frontier l id + period_ns cfg) b) l1) id' = frontier l id').
    rewrite frontier_set. case_decide as E; [subst; exact Hb|apply Hx].
  - intros id' b' Hne Hb'. rewrite dget_dset_ne by done. by apply Hold.
  - eexists. rewrite dget_dset_eq. done.
Qed.
End frontier.
End ReliabilityLedger.
