(* ===== verification/MaintenanceDriver.v ===== *)
(** * MaintenanceDriver: refresh of blocks with bounded spares

    Models the class [MaintenanceDriver] of
    [experiments/eq3_system_thermal/maintenance_driver.py]: a state machine that
    moves aged extents to spare blocks of the same channel.  An operation reads its
    source blocks, programs spare blocks, commits the new mapping of every extent
    whose version did not change, erases what became free and returns it to the
    spares.  The work itself is done by a storage service; the driver offers jobs
    ([poll]) and takes the receipts of the service ([consume_receipt]).

    The retention ages are kept by [ReliabilityLedger], whose state is part of the
    state of the driver.  Configuration, rows and receipts have their types, so that
    only the checks on their values remain.  An operation that ends is deleted.
    [snapshot], which only reports, and constant labels are left out. *)

From S2P Require Import Prelude ProgramLogic PyFloat.
From S2P Require Import ReliabilityLedger.

Module MaintenanceDriver.
Import ProgramLogic.

(** ** Data *)

Notation channel_key := (string * string)%type.

Record config := {
  c_block_bytes : Z; c_pages_per_block : Z; max_blocks_per_cohort : Z;
  spare_block_ids_by_stack_channel : dict string (dict string (list string));
  program_energy_j_per_byte : option spec_float; erase_energy_j_per_operation : option spec_float; c_energy_evidence : dict string string }.

Record settings := {
  block_bytes : Z; pages_per_block : Z; max_cohort : Z; program_j_per_byte : option spec_float; erase_j_per_operation : option spec_float;
  energy_evidence : dict string string; age_settings : ReliabilityLedger.settings }.

Inductive phase := RefreshRead | Program | EraseOld | EraseCleanup | Terminal.
#[export] Instance phase_eq_dec : EqDecision phase.
Proof. solve_decision. Defined.
Definition phase_name (p : phase) : string :=
  match p with
  | RefreshRead => "refresh_read"
  | Program => "program"
  | EraseOld => "erase_old"
  | EraseCleanup => "erase_cleanup"
  | Terminal => "terminal"
  end.
Definition is_erase (p : phase) : bool := match p with EraseOld | EraseCleanup => true | _ => false end.

Record extent := { stack : string; channel : string; physical_block_id : string; version : Z; maintenance_attempt_count : Z }.
Record extent_row := { row_extent : string; row_stack : string; row_channel : string; row_source : string; row_version : Z }.
Record item := { extent_id : string; source_block_id : string; destination_block_id : string; expected_version : Z }.
Record erase := { old_blocks : bool; block_ids : list string; erase_extents : list string }.

Record operation := {
  operation_id : string; o_stack : string; o_channel : string; items : list item; o_phase : phase; submitted : bool; erase_queue : list erase;
  current_erase : option erase; committed_extents : list string; conflicted_extents : list string; failures : list string; start_ns : Z }.

Record wear := {
  block_program_work_started : Z; block_program_work_completed : Z; nand_page_programs_started : Z; nand_page_programs_completed : Z;
  erase_phase_started : Z; erase_completed : Z }.
Definition no_wear : wear :=
  {| block_program_work_started := 0; block_program_work_completed := 0; nand_page_programs_started := 0; nand_page_programs_completed := 0;
     erase_phase_started := 0; erase_completed := 0 |}.

(** The job of a phase; [job_operation] is [erase] for both erase phases. *)
Record job := {
  job_id : string; job_stack : string; job_channel : string; job_operation : string; job_bytes : Z; arrival_ns : Z; parent : string;
  job_phase : phase; job_extents : list string; physical_block_ids : list string; expected_versions : list Z; block_count : Z }.

Record terminal_result := {
  t_operation : string; status : string; t_start_ns : Z; t_end_ns : Z; t_extents : list string; t_committed : list string;
  t_conflicted : list string; t_failures : list string }.
Inductive event :=
| ForegroundVersionWrite (extent : string) (at_ns new_version : Z)
| MaintenanceStarted (operation : string) (at_ns : Z) (extents : list string) (due : list (string * list string))
| MaintenanceTerminal (r : terminal_result).
Record energy_fact := {
  f_operation : string; f_phase : phase; f_completion_ns : Z; quantity : Z; unit_name : string; energy_j : option spec_float;
  coefficient : option spec_float; evidence : string; failed_after_service : bool }.

(** What the driver reads of a receipt of the service. *)
Record progress_row := {
  p_job_id : string; remaining_bytes : Z; completion_ns : option Z; p_block_count : Z; p_extent_ids : list string }.
Record receipt := { job_progress : list progress_row; completion_ids : list string; end_ns : Z }.
Record delta := {
  d_end_ns : Z; d_events : list event; d_energy : list energy_fact; terminal_results : list terminal_result; active_operation_count : Z;
  outstanding_job_count : Z; free_spare_count : Z; quarantined_block_count : Z; committed_extent_count : Z; failed_terminal_count : Z }.

Record driver := {
  ages : ReliabilityLedger.ledger; free_spares : dict channel_key (list string); extents : dict string extent; physical_wear : dict string wear;
  operations : dict string operation; outstanding : dict string (string * phase); active_extents : gset string; quarantined_blocks : gset string;
  events : list event; energy_facts : list energy_fact; results : list terminal_result; terminal_status_counts : dict string Z;
  terminal_extent_count : Z; sequence : Z }.
Notation D := (M driver).

(** ** Updates *)

Definition with_ages (l : ReliabilityLedger.ledger) (s : driver) : driver :=
  {| ages := l; free_spares := free_spares s; extents := extents s; physical_wear := physical_wear s; operations := operations s;
     outstanding := outstanding s; active_extents := active_extents s; quarantined_blocks := quarantined_blocks s; events := events s;
     energy_facts := energy_facts s; results := results s; terminal_status_counts := terminal_status_counts s;
     terminal_extent_count := terminal_extent_count s; sequence := sequence s |}.
Definition set_spares (d : dict channel_key (list string)) (s : driver) : driver :=
  {| ages := ages s; free_spares := d; extents := extents s; physical_wear := physical_wear s; operations := operations s;
     outstanding := outstanding s; active_extents := active_extents s; quarantined_blocks := quarantined_blocks s; events := events s;
     energy_facts := energy_facts s; results := results s; terminal_status_counts := terminal_status_counts s;
     terminal_extent_count := terminal_extent_count s; sequence := sequence s |}.
Definition set_extents (d : dict string extent) (s : driver) : driver :=
  {| ages := ages s; free_spares := free_spares s; extents := d; physical_wear := physical_wear s; operations := operations s;
     outstanding := outstanding s; active_extents := active_extents s; quarantined_blocks := quarantined_blocks s; events := events s;
     energy_facts := energy_facts s; results := results s; terminal_status_counts := terminal_status_counts s;
     terminal_extent_count := terminal_extent_count s; sequence := sequence s |}.
Definition set_wear (d : dict string wear) (s : driver) : driver :=
  {| ages := ages s; free_spares := free_spares s; extents := extents s; physical_wear := d; operations := operations s;
     outstanding := outstanding s; active_extents := active_extents s; quarantined_blocks := quarantined_blocks s; events := events s;
     energy_facts := energy_facts s; results := results s; terminal_status_counts := terminal_status_counts s;
     terminal_extent_count := terminal_extent_count s; sequence := sequence s |}.
Definition set_operations (d : dict string operation) (s : driver) : driver :=
  {| ages := ages s; free_spares := free_spares s; extents := extents s; physical_wear := physical_wear s; operations := d;
     outstanding := outstanding s; active_extents := active_extents s; quarantined_blocks := quarantined_blocks s; events := events s;
     energy_facts := energy_facts s; results := results s; terminal_status_counts := terminal_status_counts s;
     terminal_extent_count := terminal_extent_count s; sequence := sequence s |}.
Definition set_outstanding (d : dict string (string * phase)) (s : driver) : driver :=
  {| ages := ages s; free_spares := free_spares s; extents := extents s; physical_wear := physical_wear s; operations := operations s;
     outstanding := d; active_extents := active_extents s; quarantined_blocks := quarantined_blocks s; events := events s;
     energy_facts := energy_facts s; results := results s; terminal_status_counts := terminal_status_counts s;
     terminal_extent_count := terminal_extent_count s; sequence := sequence s |}.
Definition set_active (a : gset string) (s : driver) : driver :=
  {| ages := ages s; free_spares := free_spares s; extents := extents s; physical_wear := physical_wear s; operations := operations s;
     outstanding := outstanding s; active_extents := a; quarantined_blocks := quarantined_blocks s; events := events s;
     energy_facts := energy_facts s; results := results s; terminal_status_counts := terminal_status_counts s;
     terminal_extent_count := terminal_extent_count s; sequence := sequence s |}.
Definition quarantine (b : string) (s : driver) : driver :=
  {| ages := ages s; free_spares := free_spares s; extents := extents s; physical_wear := physical_wear s; operations := operations s;
     outstanding := outstanding s; active_extents := active_extents s; quarantined_blocks := {[b]} ∪ quarantined_blocks s; events := events s;
     energy_facts := energy_facts s; results := results s; terminal_status_counts := terminal_status_counts s;
     terminal_extent_count := terminal_extent_count s; sequence := sequence s |}.
Definition set_log (ev : list event) (en : list energy_fact) (rs : list terminal_result) (s : driver) : driver :=
  {| ages := ages s; free_spares := free_spares s; extents := extents s; physical_wear := physical_wear s; operations := operations s;
     outstanding := outstanding s; active_extents := active_extents s; quarantined_blocks := quarantined_blocks s; events := ev;
     energy_facts := en; results := rs; terminal_status_counts := terminal_status_counts s;
     terminal_extent_count := terminal_extent_count s; sequence := sequence s |}.
Definition count_terminal (st : string) (n : Z) (s : driver) : driver :=
  {| ages := ages s; free_spares := free_spares s; extents := extents s; physical_wear := physical_wear s; operations := operations s;
     outstanding := outstanding s; active_extents := active_extents s; quarantined_blocks := quarantined_blocks s; events := events s;
     energy_facts := energy_facts s; results := results s;
     terminal_status_counts := dset (terminal_status_counts s) st (dget_or (terminal_status_counts s) st 0 + 1);
     terminal_extent_count := terminal_extent_count s + n; sequence := sequence s |}.
Definition bump_sequence (s : driver) : driver :=
  {| ages := ages s; free_spares := free_spares s; extents := extents s; physical_wear := physical_wear s; operations := operations s;
     outstanding := outstanding s; active_extents := active_extents s; quarantined_blocks := quarantined_blocks s; events := events s;
     energy_facts := energy_facts s; results := results s; terminal_status_counts := terminal_status_counts s;
     terminal_extent_count := terminal_extent_count s; sequence := sequence s + 1 |}.

Definition add_event (e : event) (s : driver) : driver := set_log (events s ++ [e]) (energy_facts s) (results s) s.
Definition add_energy (f : energy_fact) (s : driver) : driver := set_log (events s) (energy_facts s ++ [f]) (results s) s.
Definition add_result (r : terminal_result) (s : driver) : driver := set_log (events s) (energy_facts s) (results s ++ [r]) s.
Definition upd_extent (id : string) (f : extent -> extent) (s : driver) : driver := set_extents (dupd (extents s) id f) s.
Definition upd_operation (id : string) (f : operation -> operation) (s : driver) : driver := set_operations (dupd (operations s) id f) s.
(** [physical_wear] is a [defaultdict]. *)
Definition upd_wear (b : string) (f : wear -> wear) (s : driver) : driver :=
  set_wear (dset (physical_wear s) b (f (dget_or (physical_wear s) b no_wear))) s.
(** [self.free_spares[key].append(block)]. *)
Definition free_block (key : channel_key) (b : string) (s : driver) : driver := set_spares (dupd (free_spares s) key (fun l => l ++ [b])) s.

Definition relocate (b : string) (x : extent) : extent :=
  {| stack := stack x; channel := channel x; physical_block_id := b; version := version x + 1;
     maintenance_attempt_count := maintenance_attempt_count x |}.
Definition write_version (x : extent) : extent :=
  {| stack := stack x; channel := channel x; physical_block_id := physical_block_id x; version := version x + 1;
     maintenance_attempt_count := maintenance_attempt_count x |}.
Definition attempt (x : extent) : extent :=
  {| stack := stack x; channel := channel x; physical_block_id := physical_block_id x; version := version x;
     maintenance_attempt_count := maintenance_attempt_count x + 1 |}.

Definition set_submitted (b : bool) (o : operation) : operation :=
  {| operation_id := operation_id o; o_stack := o_stack o; o_channel := o_channel o; items := items o; o_phase := o_phase o; submitted := b;
     erase_queue := erase_queue o; current_erase := current_erase o; committed_extents := committed_extents o;
     conflicted_extents := conflicted_extents o; failures := failures o; start_ns := start_ns o |}.
Definition set_phase (p : phase) (o : operation) : operation :=
  {| operation_id := operation_id o; o_stack := o_stack o; o_channel := o_channel o; items := items o; o_phase := p; submitted := submitted o;
     erase_queue := erase_queue o; current_erase := current_erase o; committed_extents := committed_extents o;
     conflicted_extents := conflicted_extents o; failures := failures o; start_ns := start_ns o |}.
Definition set_erases (q : list erase) (c : option erase) (o : operation) : operation :=
  {| operation_id := operation_id o; o_stack := o_stack o; o_channel := o_channel o; items := items o; o_phase := o_phase o;
     submitted := submitted o; erase_queue := q; current_erase := c; committed_extents := committed_extents o;
     conflicted_extents := conflicted_extents o; failures := failures o; start_ns := start_ns o |}.
Definition add_erase (e : erase) (o : operation) : operation := set_erases (erase_queue o ++ [e]) (current_erase o) o.
Definition add_failure (f : string) (o : operation) : operation :=
  {| operation_id := operation_id o; o_stack := o_stack o; o_channel := o_channel o; items := items o; o_phase := o_phase o;
     submitted := submitted o; erase_queue := erase_queue o; current_erase := current_erase o; committed_extents := committed_extents o;
     conflicted_extents := conflicted_extents o; failures := failures o ++ [f]; start_ns := start_ns o |}.
Definition add_committed (e : string) (o : operation) : operation :=
  {| operation_id := operation_id o; o_stack := o_stack o; o_channel := o_channel o; items := items o; o_phase := o_phase o;
     submitted := submitted o; erase_queue := erase_queue o; current_erase := current_erase o; committed_extents := committed_extents o ++ [e];
     conflicted_extents := conflicted_extents o; failures := failures o; start_ns := start_ns o |}.
Definition add_conflicted (e : string) (o : operation) : operation :=
  {| operation_id := operation_id o; o_stack := o_stack o; o_channel := o_channel o; items := items o; o_phase := o_phase o;
     submitted := submitted o; erase_queue := erase_queue o; current_erase := current_erase o; committed_extents := committed_extents o;
     conflicted_extents := conflicted_extents o ++ [e]; failures := failures o; start_ns := start_ns o |}.

(** ** Construction *)

Definition positive (value : Z) (label : string) : result Z :=
  let? _ := ensure (0 <? value) (ValueError (label +:+ " must be a positive integer")) in Ok value.
Definition optional_nonnegative (value : option spec_float) (label : string) : result (option spec_float) :=
  match value with
  | None => Ok None
  | Some f =>
      let? _ := ensure (isfinite f && negb (flt f float_zero)) (ValueError (label +:+ " must be finite non-negative or null")) in
      Ok (Some f)
  end.

Definition add_pool (stack : string) (acc : dict channel_key (list string) * list string) (pool : string * list string) :
    result (dict channel_key (list string) * list string) :=
  let '(spares, all_spares) := acc in
  let '(channel, values) := pool in
  let? _ := ensure (negb (String.eqb channel "") && bool_decide (values <> []))
              (ValueError "each configured channel needs nonempty spare block IDs") in
  let? _ := ensure (forallb (fun v => negb (String.eqb v "")) values) (ValueError "spare block IDs must be nonempty strings") in
  let? _ := ensure (bool_decide (NoDup values) && negb (existsb (fun v => bool_decide (v ∈ all_spares)) values))
              (ValueError "spare block IDs must be globally unique") in
  Ok (dset spares (stack, channel) values, all_spares ++ values).

Definition add_stack (acc : dict channel_key (list string) * list string) (row : string * dict string (list string)) :
    result (dict channel_key (list string) * list string) :=
  let '(stack, channels) := row in
  let? _ := ensure (negb (String.eqb stack "") && bool_decide (channels <> []))
              (ValueError "each stack needs explicit per-channel spare pools") in
  foldM (add_pool stack) channels acc.

Definition init (l : ReliabilityLedger.ledger) (age : ReliabilityLedger.settings) (c : config) : result (settings * driver) :=
  let? bytes := positive (c_block_bytes c) "block_bytes" in
  let? pages := positive (c_pages_per_block c) "pages_per_block" in
  let? cohort := positive (max_blocks_per_cohort c) "max_blocks_per_cohort" in
  let? _ := ensure (bool_decide (spare_block_ids_by_stack_channel c <> []))
              (ValueError "explicit spare_block_ids_by_stack_channel is required") in
  let? (spares, _) := foldM add_stack (spare_block_ids_by_stack_channel c) ([], []) in
  let? program := optional_nonnegative (program_energy_j_per_byte c) "program_energy_j_per_byte" in
  let? erase_ := optional_nonnegative (erase_energy_j_per_operation c) "erase_energy_j_per_operation" in
  let? _ := ensure (same_set (dkeys (c_energy_evidence c)) ["program"; "erase"])
              (ValueError "energy_evidence must exactly cover program and erase") in
  Ok ({| block_bytes := bytes; pages_per_block := pages; max_cohort := cohort; program_j_per_byte := program; erase_j_per_operation := erase_;
         energy_evidence := c_energy_evidence c; age_settings := age |},
      {| ages := l; free_spares := spares; extents := []; physical_wear := []; operations := []; outstanding := []; active_extents := ∅;
         quarantined_blocks := ∅; events := []; energy_facts := []; results := []; terminal_status_counts := []; terminal_extent_count := 0;
         sequence := 0 |}).

(** ** Operations *)

Section operations.
Context (cfg : settings).

(** A call of the ledger. *)
Definition on_ages {A} (m : M ReliabilityLedger.ledger A) : D A := fun s => let '(r, l) := m (ages s) in (r, with_ages l s).
Definition due_reasons (id : string) (at_ns : Z) : D (list string) := on_ages (ReliabilityLedger.due_reasons (age_settings cfg) id at_ns).
Definition accounted_through_ns (id : string) : D Z := on_ages (ReliabilityLedger.accounted_through_ns (age_settings cfg) id).

Definition register_extent (spare_ids : list string) (mapped_sources : list string) (r : extent_row) : D (list string) :=
  let! _ := require (negb (String.eqb (row_extent r) "" || String.eqb (row_stack r) "" || String.eqb (row_channel r) "" || String.eqb (row_source r) ""))
              (ValueError "extent identities must be nonempty strings") in
  let! s := get in
  let! _ := require (dmem (free_spares s) (row_stack r, row_channel r)) (ValueError "extent stack/channel lacks a same-channel spare pool") in
  let! _ := require (negb (bool_decide (row_source r ∈ spare_ids) || bool_decide (row_source r ∈ mapped_sources) || dmem (extents s) (row_extent r)))
              (ValueError "source overlaps spare pool or extent is duplicated") in
  let! _ := require (0 <=? row_version r) (ValueError "version must be a non-negative integer") in
  let x := {| stack := row_stack r; channel := row_channel r; physical_block_id := row_source r; version := row_version r;
              maintenance_attempt_count := 0 |} in
  let! _ := modify (set_extents (dset (extents s) (row_extent r) x)) in
  let! _ := due_reasons (row_extent r) (ReliabilityLedger.epoch_ns (age_settings cfg)) in
  sret (mapped_sources ++ [row_source r]).
Definition register_extents (rows : list extent_row) : D unit :=
  let! s := get in
  let! _ := foldS (register_extent (concat (dvals (free_spares s)))) rows (physical_block_id <$> dvals (extents s)) in
  sret tt.

Definition VERSION_MAX : Z := 2 ^ 64 - 1.

Definition record_foreground_write (id : string) (at_ns : Z) : D Z :=
  let! s := get in
  let! x := lift (dindex (extents s) id) in
  let! _ := require (0 <=? at_ns) (ValueError "foreground write time must be non-negative integer ns") in
  let! _ := require (negb (version x =? VERSION_MAX)) (OverflowError "mapping generation overflow") in
  let! _ := modify (upd_extent id write_version) in
  let! _ := modify (add_event (ForegroundVersionWrite id at_ns (version x + 1))) in
  sret (version x + 1).

(** *** Beginning of operations *)

Definition extent_due (now : Z) (groups : dict channel_key (list string)) (row : string * extent) : D (dict channel_key (list string)) :=
  let '(id, x) := row in
  let! s := get in
  if bool_decide (id ∈ active_extents s) then sret groups
  else
    let! frontier := accounted_through_ns id in
    let! _ := require (frontier =? now) (ValueError "reliability age must be integrated exactly through poll time") in
    let! reasons := due_reasons id now in
    let key := (stack x, channel x) in
    sret (if bool_decide (reasons <> []) then dset groups key (dget_or groups key [] ++ [id]) else groups).

(** [row] and [pool.popleft()] for one extent of a cohort. *)
Definition begin_item (key : channel_key) (id : string) : D item :=
  let! s := get in
  let! x := lift (dindex (extents s) id) in
  let! pool := lift (dindex (free_spares s) key) in
  match pool with
  | [] => raise IndexError
  | b :: rest =>
      let! _ := modify (set_spares (dset (free_spares s) key rest)) in
      let! _ := modify (upd_extent id attempt) in
      let! _ := modify (fun s => set_active ({[id]} ∪ active_extents s) s) in
      sret {| extent_id := id; source_block_id := physical_block_id x; destination_block_id := b; expected_version := version x |}
  end.

Definition refresh_id (n : Z) : string := "refresh:" +:+ pretty n.

Definition begin_operation (now : Z) (key : channel_key) (selected : list string) : D unit :=
  let! its := mapS (begin_item key) selected in
  let! s := get in
  let oid := refresh_id (sequence s) in
  let! _ := modify bump_sequence in
  let o := {| operation_id := oid; o_stack := key.1; o_channel := key.2; items := its; o_phase := RefreshRead; submitted := false;
              erase_queue := []; current_erase := None; committed_extents := []; conflicted_extents := []; failures := []; start_ns := now |} in
  let! _ := modify (fun s => set_operations (dset (operations s) oid o) s) in
  let! due := mapS (fun id => let! r := due_reasons id now in sret (id, r)) selected in
  modify (add_event (MaintenanceStarted oid now selected due)).

(** One round of the loop over the extents of a channel that are left. *)
Fixpoint begin_cohorts (fuel : nat) (now : Z) (key : channel_key) (ids : list string) : D unit :=
  let! s := get in
  let! pool := lift (dindex (free_spares s) key) in
  if bool_decide (ids <> []) && bool_decide (pool <> []) then
    match fuel with
    | O => raise OutOfFuel
    | S fuel' =>
        let count := Nat.min (Nat.min (length ids) (length pool)) (Z.to_nat (max_cohort cfg)) in
        let! _ := begin_operation now key (take count ids) in
        begin_cohorts fuel' now key (drop count ids)
    end
  else sret tt.

Definition attempts (s : driver) (id : string) : Z := match dget (extents s) id with Some x => maintenance_attempt_count x | None => 0 end.
Definition begin_group (now : Z) (group : channel_key * list string) : D unit :=
  let '(key, ids) := group in
  let! s := get in
  let ids := isort (fun a b => lex zle sle (attempts s a, a) (attempts s b, b)) ids in
  begin_cohorts (length ids) now key ids.

Definition _begin_due (now : Z) : D unit :=
  let! s := get in
  let! groups := foldS (extent_due now) (isort (fun a b => sle a.1 b.1) (extents s)) [] in
  forM (isort (fun a b => lex sle sle a.1 b.1) groups) (begin_group now).

(** *** Polling *)

Definition phase_blocks (o : operation) : result (list string * list string * list Z) :=
  match o_phase o with
  | RefreshRead => Ok (source_block_id <$> items o, extent_id <$> items o, expected_version <$> items o)
  | Program => Ok (destination_block_id <$> items o, extent_id <$> items o, expected_version <$> items o)
  | _ => let? e := of_option (KeyError "current_erase") (current_erase o) in Ok (block_ids e, erase_extents e, [])
  end.

Definition phase_job_id (oid : string) (p : phase) (n : nat) : string := oid +:+ ":" +:+ phase_name p +:+ ":" +:+ pretty (Z.of_nat n).

Definition offer_operation (now : Z) (jobs : list job) (oid : string) : D (list job) :=
  let! s := get in
  let! o := lift (dindex (operations s) oid) in
  if bool_decide (o_phase o = Terminal) || submitted o then sret jobs
  else
    let! (blocks, exts, expected) := lift (phase_blocks o) in
    let id := phase_job_id oid (o_phase o) (length (outstanding s)) in
    let j := {| job_id := id; job_stack := o_stack o; job_channel := o_channel o;
                job_operation := if is_erase (o_phase o) then "erase" else phase_name (o_phase o);
                job_bytes := block_bytes cfg * Z.of_nat (length blocks); arrival_ns := now; parent := oid; job_phase := o_phase o;
                job_extents := exts; physical_block_ids := blocks; expected_versions := expected; block_count := Z.of_nat (length blocks) |} in
    let! _ := modify (upd_operation oid (set_submitted true)) in
    let! _ := modify (fun s => set_outstanding (dset (outstanding s) id (oid, o_phase o)) s) in
    sret (jobs ++ [j]).

Definition poll (now : Z) (discover_due : bool) : D (list job) :=
  let! _ := require (0 <=? now) (ValueError "now_ns must be non-negative integer ns") in
  let! _ := if discover_due then _begin_due now else sret tt in
  let! s := get in
  foldS (offer_operation now) (isort sle (dkeys (operations s))) [].

(** *** Completions *)

Definition _cost_fact (oid : string) (p : phase) (at_ns count : Z) (failed : bool) : D unit :=
  let cost := if bool_decide (p = Program) then Some (block_bytes cfg * count, "bytes", program_j_per_byte cfg, "program")
              else if is_erase p then Some (count, "operations", erase_j_per_operation cfg, "erase") else None in
  match cost with
  | None => sret tt
  | Some (n, unit_, coeff, key) =>
      let! joules := lift (match coeff with None => Ok None | Some f => let? q := float_of_int n in Ok (Some (fmul q f)) end) in
      let! ev := lift (dindex (energy_evidence cfg) key) in
      modify (add_energy {| f_operation := oid; f_phase := p; f_completion_ns := at_ns; quantity := n; unit_name := unit_; energy_j := joules;
                            coefficient := coeff; evidence := ev; failed_after_service := failed |})
  end.

Definition _terminal (oid : string) (at_ns : Z) (st : string) : D unit :=
  let! _ := modify (upd_operation oid (fun o => set_submitted false (set_phase Terminal o))) in
  let! s := get in
  let! o := lift (dindex (operations s) oid) in
  let! _ := modify (fun s => set_active (active_extents s ∖ list_to_set (extent_id <$> items o)) s) in
  let r := {| t_operation := operation_id o; status := st; t_start_ns := start_ns o; t_end_ns := at_ns; t_extents := extent_id <$> items o;
              t_committed := committed_extents o; t_conflicted := conflicted_extents o; t_failures := failures o |} in
  let! _ := modify (add_result r) in
  let! _ := modify (add_event (MaintenanceTerminal r)) in
  let! _ := modify (count_terminal st (Z.of_nat (length (t_extents r)))) in
  modify (fun s => set_operations (ddel (operations s) (operation_id o)) s).

Definition _next_erase_or_terminal (oid : string) (at_ns : Z) : D unit :=
  let! s := get in
  let! o := lift (dindex (operations s) oid) in
  match erase_queue o with
  | e :: q =>
      modify (upd_operation oid (fun o => set_submitted false (set_phase (if old_blocks e then EraseOld else EraseCleanup) (set_erases q (Some e) o))))
  | [] =>
      _terminal oid at_ns
        (if bool_decide (committed_extents o <> []) then
           if bool_decide (failures o = []) && bool_decide (conflicted_extents o = []) then "COMMITTED" else "COMMITTED_WITH_POST_PROGRAM_EXCEPTION"
         else "FAILED_OR_VERSION_CONFLICT")
  end.

Definition programmed (failed : bool) (w : wear) : wear :=
  {| block_program_work_started := block_program_work_started w + 1;
     block_program_work_completed := block_program_work_completed w + (if failed then 0 else 1);
     nand_page_programs_started := nand_page_programs_started w + pages_per_block cfg;
     nand_page_programs_completed := nand_page_programs_completed w + (if failed then 0 else pages_per_block cfg);
     erase_phase_started := erase_phase_started w; erase_completed := erase_completed w |}.
Definition erased (failed : bool) (w : wear) : wear :=
  {| block_program_work_started := block_program_work_started w; block_program_work_completed := block_program_work_completed w;
     nand_page_programs_started := nand_page_programs_started w; nand_page_programs_completed := nand_page_programs_completed w;
     erase_phase_started := erase_phase_started w + 1; erase_completed := erase_completed w + (if failed then 0 else 1) |}.

Definition complete_read (oid : string) (at_ns : Z) (failed : bool) : D unit :=
  if failed then
    let! _ := modify (upd_operation oid (add_failure "refresh_read")) in
    let! s := get in
    let! o := lift (dindex (operations s) oid) in
    let! _ := forM (items o) (fun it => modify (free_block (o_stack o, o_channel o) (destination_block_id it))) in
    _terminal oid at_ns "FAILED_READ"
  else modify (upd_operation oid (set_phase Program)).

(** The accumulators: old and cleanup blocks with their extents. *)
Notation split_blocks := (list string * list string * (list string * list string))%type.
Definition commit_item (oid : string) (at_ns : Z) (acc : split_blocks) (it : item) : D split_blocks :=
  let '(old, old_exts, (cleanup, cleanup_exts)) := acc in
  let! s := get in
  let! x := lift (dindex (extents s) (extent_id it)) in
  if negb (version x =? expected_version it) || (version x =? VERSION_MAX) then
    let! _ := modify (upd_operation oid (add_conflicted (extent_id it))) in
    let! _ := if version x =? VERSION_MAX then modify (upd_operation oid (add_failure "version_overflow")) else sret tt in
    sret (old, old_exts, (cleanup ++ [destination_block_id it], cleanup_exts ++ [extent_id it]))
  else
    let! _ := modify (upd_extent (extent_id it) (relocate (destination_block_id it))) in
    let! _ := modify (upd_operation oid (add_committed (extent_id it))) in
    let! _ := on_ages (ReliabilityLedger.record_refresh_terminal (age_settings cfg) (extent_id it) at_ns true oid) in
    sret (old ++ [source_block_id it], old_exts ++ [extent_id it], (cleanup, cleanup_exts)).

Definition complete_program (oid : string) (at_ns : Z) (failed : bool) : D unit :=
  let! s := get in
  let! o := lift (dindex (operations s) oid) in
  let! _ := forM (items o) (fun it => modify (upd_wear (destination_block_id it) (programmed failed))) in
  let! _ :=
    if failed then
      let! _ := modify (upd_operation oid (add_failure "program")) in
      modify (upd_operation oid (add_erase {| old_blocks := false; block_ids := destination_block_id <$> items o; erase_extents := extent_id <$> items o |}))
    else
      let! (old, old_exts, (cleanup, cleanup_exts)) := foldS (commit_item oid at_ns) (items o) ([], [], ([], [])) in
      let! _ := if bool_decide (old <> []) then
                  modify (upd_operation oid (add_erase {| old_blocks := true; block_ids := old; erase_extents := old_exts |}))
                else sret tt in
      if bool_decide (cleanup <> []) then
        modify (upd_operation oid (add_erase {| old_blocks := false; block_ids := cleanup; erase_extents := cleanup_exts |}))
      else sret tt in
  _next_erase_or_terminal oid at_ns.

Definition erase_block (key : channel_key) (failed : bool) (b : string) : D unit :=
  let! _ := modify (upd_wear b (erased failed)) in
  if failed then modify (quarantine b) else modify (free_block key b).
Definition complete_erase (oid : string) (p : phase) (at_ns : Z) (failed : bool) : D unit :=
  let! s := get in
  let! o := lift (dindex (operations s) oid) in
  let! e := lift (of_option (KeyError "current_erase") (current_erase o)) in
  let! _ := forM (block_ids e) (erase_block (o_stack o, o_channel o) failed) in
  let! _ := if failed then modify (upd_operation oid (add_failure (phase_name p))) else sret tt in
  let! _ := modify (upd_operation oid (fun o => set_erases (erase_queue o) None o)) in
  _next_erase_or_terminal oid at_ns.

Definition consume_completion (progress : dict string progress_row) (failed_ids : list string) (id : string) : D unit :=
  let! s := get in
  match dget (outstanding s) id with
  | None => sret tt
  | Some (oid, p) =>
      let! row := lift (of_option (ValueError "maintenance completion lacks byte-complete progress") (dget progress id)) in
      let! _ := require (remaining_bytes row =? 0) (ValueError "maintenance completion lacks byte-complete progress") in
      let! _ := modify (set_outstanding (ddel (outstanding s) id)) in
      let! _ := lift (dindex (operations s) oid) in
      let! at_ns := lift (of_option (ValueError "maintenance completion timestamp unavailable") (completion_ns row)) in
      let failed := bool_decide (id ∈ failed_ids) in
      let! _ := _cost_fact oid p at_ns (p_block_count row) failed in
      let! _ := modify (upd_operation oid (set_submitted false)) in
      match p with
      | RefreshRead => complete_read oid at_ns failed
      | Program => complete_program oid at_ns failed
      | _ => complete_erase oid p at_ns failed
      end
  end.

Definition drain_delta (at_end : Z) : D delta :=
  let! s := get in
  let! _ := modify (set_log [] [] []) in
  sret {| d_end_ns := at_end; d_events := events s; d_energy := energy_facts s; terminal_results := results s;
          active_operation_count := Z.of_nat (length (filter (fun o => o_phase o <> Terminal) (dvals (operations s))));
          outstanding_job_count := Z.of_nat (length (outstanding s));
          free_spare_count := zsum ((fun l => Z.of_nat (length l)) <$> dvals (free_spares s));
          quarantined_block_count := Z.of_nat (size (quarantined_blocks s));
          committed_extent_count := zsum ((fun r => Z.of_nat (length (t_committed r))) <$> results s);
          failed_terminal_count := Z.of_nat (length (filter (fun r => status r <> "COMMITTED") (results s))) |}.

Definition progress_map (r : receipt) : dict string progress_row := foldl (fun d row => dset d (p_job_id row) row) [] (job_progress r).

Definition consume_receipt (r : receipt) (failed_ids : list string) : D delta :=
  let! _ := forM (completion_ids r) (consume_completion (progress_map r) failed_ids) in
  let! _ := require (forallb (fun id => bool_decide (id ∈ completion_ids r)) failed_ids) (ValueError "failure injection names a non-completed job") in
  drain_delta (end_ns r).
End operations.
End MaintenanceDriver.
