(* ===== verification/MaintenanceInvariant.v ===== *)
(** * MaintenanceInvariant: one owner per block

    The invariant of [MaintenanceDriver].  Every block is counted at the places that
    can own it: the mapping of an extent, a pool of spares, an operation that writes
    or erases it, the quarantine.  The invariant bounds these counts by one, gives
    every operation the shape of its phase, and ties the outstanding jobs to the
    operations that submitted them. *)

From S2P Require Import Prelude ProgramLogic PyFloat.
From S2P Require Import ReliabilityLedger MaintenanceDriver.

Module MaintenanceInvariant.
Import ProgramLogic MaintenanceDriver.

(** ** Counting *)

Definition occ (b : string) (l : list string) : nat := length (filter (b =.) l).

Lemma occ_cons b x l : occ b (x :: l) = ((if decide (b = x) then 1 else 0) + occ b l)%nat.
Proof. unfold occ. rewrite filter_cons. by case_decide. Qed.
Lemma occ_app b l k : occ b (l ++ k) = (occ b l + occ b k)%nat.
Proof. unfold occ. by rewrite filter_app, length_app. Qed.
Lemma occ_elem b l : b ∈ l <-> (0 < occ b l)%nat.
Proof.
  induction l as [|x l IH]; [cbn; split; [by intros ?%elem_of_nil|lia]|]. rewrite elem_of_cons, occ_cons, IH. case_decide; [split; [lia|by left]|].
  split; [intros [?|?]; [done|lia]|intros; right; lia].
Qed.
Lemma occ_NoDup l : (forall b, (occ b l <= 1)%nat) <-> NoDup l.
Proof.
  induction l as [|x l IH]; [split; [constructor|cbn; lia]|]. rewrite NoDup_cons, <- IH. split.
  - intros H. split.
    + rewrite occ_elem. specialize (H x). rewrite occ_cons, decide_True in H by done. lia.
    + intros b. specialize (H b). rewrite occ_cons in H. case_decide; lia.
  - intros [Hx H] b. rewrite occ_cons. case_decide as E; [|apply H]. subst. rewrite occ_elem in Hx. lia.
Qed.
Lemma occ_perm b l k : l ≡ₚ k -> occ b l = occ b k.
Proof. intros H. unfold occ. by rewrite H. Qed.

(** The sum of a count over the values of a dictionary. *)
Definition total {K V} (h : V -> nat) (d : dict K V) : nat := sum_list_with h (dvals d).

Section total.
Context {K V : Type} `{EqDecision K} (h : V -> nat).

Lemma total_cons (k : K) v d : total h ((k, v) :: d) = (h v + total h d)%nat.
Proof. done. Qed.
Lemma total_dset (d : dict K V) k v v' : dget d k = Some v -> (h v + total h (dset d k v') = h v' + total h d)%nat.
Proof.
  induction d as [|[k0 v0] d IH]; [done|]. cbn [dget dset]. case_decide.
  - intros [= ->]. rewrite !total_cons. lia.
  - intros Hv. rewrite !total_cons. specialize (IH Hv). lia.
Qed.
Lemma total_dset_new (d : dict K V) k v : dget d k = None -> (total h (dset d k v) = h v + total h d)%nat.
Proof.
  induction d as [|[k0 v0] d IH]; [done|]. cbn [dget dset]. case_decide; [done|]. intros Hk. rewrite !total_cons, IH by done. lia.
Qed.
Lemma total_ddel (d : dict K V) k v : dget d k = Some v -> (total h d = h v + total h (ddel d k))%nat.
Proof.
  induction d as [|[k0 v0] d IH]; [done|]. cbn [dget ddel]. case_decide.
  - intros [= ->]. by rewrite total_cons.
  - intros Hv. rewrite !total_cons, IH by done. lia.
Qed.
Lemma total_dupd (d : dict K V) k v f : dget d k = Some v -> (h v + total h (dupd d k f) = h (f v) + total h d)%nat.
Proof. intros Hv. unfold dupd. rewrite Hv. by apply total_dset. Qed.
Lemma total_pos (d : dict K V) k v : dget d k = Some v -> (h v <= total h d)%nat.
Proof. intros Hv. rewrite (total_ddel d k v Hv). lia. Qed.
Lemma total_elem (d : dict K V) : (0 < total h d)%nat -> NoDup (dkeys d) -> exists k v, dget d k = Some v /\ (0 < h v)%nat.
Proof.
  induction d as [|[k0 v0] d IH]; [cbn; lia|]. rewrite total_cons. intros Hp [Hk Hd]%NoDup_cons. destruct (decide (h v0 = 0%nat)) as [E|E].
  - destruct IH as (k & v & Hv & Hh); [lia|done|]. exists k, v. split; [|done]. cbn [dget]. rewrite decide_False; [done|]. intros ->.
    apply Hk. apply dget_is_Some. by eexists.
  - exists k0, v0. cbn [dget]. rewrite decide_True by done. split; [done|lia].
Qed.
Lemma total_two (d : dict K V) k v k' v' : dget d k = Some v -> dget d k' = Some v' -> k <> k' -> (h v + h v' <= total h d)%nat.
Proof.
  induction d as [|[k0 v0] d IH]; [done|]. cbn [dget]. rewrite total_cons. intros Hv Hv' Hne.
  destruct (decide (k = k0)) as [E1|E1], (decide (k' = k0)) as [E2|E2]; [by subst| | |].
  - injection Hv as ->. apply total_pos in Hv'. lia.
  - injection Hv' as ->. apply total_pos in Hv. lia.
  - specialize (IH Hv Hv' Hne). lia.
Qed.
End total.

Lemma total_ext {K V} (g h : V -> nat) (d : dict K V) : (forall v, g v = h v) -> total g d = total h d.
Proof. intros H. unfold total. induction (dvals d) as [|v l IH]; [done|]. cbn. by rewrite H, IH. Qed.

(** ** Owners *)

Definition op_extents (o : operation) : list string := extent_id <$> items o.
Definition destinations (o : operation) : list string := destination_block_id <$> items o.
Definition erasing (o : operation) : list string :=
  match current_erase o with Some e => block_ids e | None => [] end ++ concat (block_ids <$> erase_queue o).
(** The blocks that an operation holds: what it writes, later what it erases. *)
Definition held_blocks (o : operation) : list string := match o_phase o with RefreshRead | Program => destinations o | _ => erasing o end.

Definition mapped_at (s : driver) (b : string) : nat := total (fun x => occ b [physical_block_id x]) (extents s).
Definition free_at (s : driver) (b : string) : nat := total (occ b) (free_spares s).
Definition held_at (s : driver) (b : string) : nat := total (fun o => occ b (held_blocks o)) (operations s).
Definition quarantined_at (s : driver) (b : string) : nat := if decide (b ∈ quarantined_blocks s) then 1 else 0.
Definition owners (s : driver) (b : string) : nat := (mapped_at s b + free_at s b + held_at s b + quarantined_at s b)%nat.

(** ** The invariant *)

Definition in_place (p : phase) : bool := match p with RefreshRead | Program => true | _ => false end.

Definition shape (o : operation) : Prop :=
  match o_phase o with
  | RefreshRead | Program => erase_queue o = [] /\ current_erase o = None
  | EraseOld => exists e, current_erase o = Some e /\ old_blocks e = true /\ Forall (fun c => old_blocks c = false) (erase_queue o) /\
                  (length (erase_queue o) <= 1)%nat
  | EraseCleanup => exists e, current_erase o = Some e /\ old_blocks e = false /\ erase_queue o = []
  | Terminal => False
  end.

Record op_ok (exts : dict string extent) (spares : dict channel_key (list string)) (next : Z) (oid : string) (o : operation) : Prop := {
  ok_id : operation_id o = oid;
  ok_name : exists n, 0 <= n < next /\ oid = refresh_id n;
  ok_items : items o <> [];
  ok_shape : shape o;
  ok_pool : is_Some (dget spares (o_stack o, o_channel o));
  ok_extents : forall it, it ∈ items o -> exists x, dget exts (extent_id it) = Some x /\ stack x = o_stack o /\ channel x = o_channel o /\
                 (in_place (o_phase o) = true -> physical_block_id x = source_block_id it) }.

Record inv (cfg : settings) (s : driver) : Prop := {
  i_owners : forall b, (owners s b <= 1)%nat;
  i_extent_keys : NoDup (dkeys (extents s));
  i_spare_keys : NoDup (dkeys (free_spares s));
  i_op_keys : NoDup (dkeys (operations s));
  i_job_keys : NoDup (dkeys (outstanding s));
  i_sequence : 0 <= sequence s;
  i_ops : forall oid o, dget (operations s) oid = Some o -> op_ok (extents s) (free_spares s) (sequence s) oid o;
  i_active : forall e, total (fun o => occ e (op_extents o)) (operations s) = if decide (e ∈ active_extents s) then 1%nat else 0%nat;
  i_extents : forall id x, dget (extents s) id = Some x -> ReliabilityLedger.accountable (age_settings cfg) id /\ is_Some (dget (free_spares s) (stack x, channel x));
  i_jobs : forall j oid p, dget (outstanding s) j = Some (oid, p) ->
             exists o n, dget (operations s) oid = Some o /\ o_phase o = p /\ submitted o = true /\ j = phase_job_id oid p n;
  i_job : forall oid o, dget (operations s) oid = Some o -> submitted o = true -> exists j, dget (outstanding s) j = Some (oid, o_phase o);
  i_one_job : forall j j' oid p p', dget (outstanding s) j = Some (oid, p) -> dget (outstanding s) j' = Some (oid, p') -> j = j' }.

(** ** Beginning of operations *)

Record settings_ok (cfg : settings) : Prop := {
  so_cohort : 0 < max_cohort cfg;
  so_evidence : forall k, k ∈ ["program"; "erase"] -> is_Some (dget (energy_evidence cfg) k) }.

(** What the beginning of operations leaves unchanged. *)
Definition place_of (x : extent) : string * string * string * Z := (stack x, channel x, physical_block_id x, version x).
Record begun (cfg : settings) (ids : list string) (s s' : driver) : Prop := {
  bg_extents : forall id, place_of <$> dget (extents s') id = place_of <$> dget (extents s) id;
  bg_keys : dkeys (free_spares s') = dkeys (free_spares s);
  bg_active : forall id, id ∈ active_extents s' -> id ∈ active_extents s \/ id ∈ ids;
  bg_grows : forall id, id ∈ active_extents s -> id ∈ active_extents s';
  bg_ages : ReliabilityLedger.extends (age_settings cfg) (ages s) (ages s');
  bg_jobs : outstanding s' = outstanding s;
  bg_kept : forall oid o, dget (operations s) oid = Some o -> dget (operations s') oid = Some o;
  bg_owners : forall b, owners s' b = owners s b }.

Lemma begun_refl cfg ids s : begun cfg ids s s.
Proof. constructor; [done|done|by left|done|done|done|done|done]. Qed.
Lemma begun_trans cfg ids1 ids2 ids s1 s2 s3 : begun cfg ids1 s1 s2 -> begun cfg ids2 s2 s3 -> (forall id, id ∈ ids1 \/ id ∈ ids2 -> id ∈ ids) -> begun cfg ids s1 s3.
Proof.
  intros [A1 A2 A3 A4 A5 A6 A7 A8] [B1 B2 B3 B4 B5 B6 B7 B8] Hin. constructor.
  - intros id. by rewrite B1, A1.
  - by rewrite B2.
  - intros id [H|H]%B3; [apply A3 in H as [?|?]; [by left|right; auto]|right; auto].
  - auto.
  - by eapply ReliabilityLedger.ages_trans.
  - by rewrite B6.
  - auto.
  - intros b. by rewrite B8.
Qed.

Lemma dget_dset_self {K V} `{EqDecision K} (d : dict K V) k k' v : dget (dset d k v) k' = if decide (k' = k) then Some v else dget d k'.
Proof. rewrite dget_dset. repeat case_decide; congruence. Qed.

Lemma dset_same {K V} `{EqDecision K} (d : dict K V) k v : dget d k = Some v -> dset d k v = d.
Proof. induction d as [|[k0 v0] d IH]; [done|]. cbn. case_decide; [by intros [= ->]; subst|]. intros Hv. by rewrite IH. Qed.

Lemma occ_take_drop b n l : (occ b (take n l) + occ b (drop n l) = occ b l)%nat.
Proof. rewrite <- occ_app. by rewrite take_drop. Qed.

Lemma mapped_dupd s id f b : (forall x, physical_block_id (f x) = physical_block_id x) ->
  total (fun x => occ b [physical_block_id x]) (dupd (extents s) id f) = mapped_at s b.
Proof.
  intros Hf. unfold mapped_at. destruct (dget (extents s) id) as [x|] eqn:Hx; [|unfold dupd; by rewrite Hx].
  pose proof (total_dupd (fun x => occ b [physical_block_id x]) _ _ _ f Hx) as H. cbn beta in H. rewrite Hf in H. lia.
Qed.

(** The state while the items of an operation are taken. *)
Record taking (key : channel_key) (pool : list string) (s : driver) (taken : list string) (its : list item) (s' : driver) : Prop := {
  tk_frame : exists E F, s' = set_active (list_to_set taken ∪ active_extents s) (set_extents E (set_spares F s));
  tk_extents : forall id, place_of <$> dget (extents s') id = place_of <$> dget (extents s) id;
  tk_ekeys : dkeys (extents s') = dkeys (extents s);
  tk_mapped : forall b, mapped_at s' b = mapped_at s b;
  tk_pool : free_spares s' = dset (free_spares s) key (drop (length taken) pool);
  tk_ids : extent_id <$> its = taken;
  tk_dest : destination_block_id <$> its = take (length taken) pool;
  tk_items : forall it, it ∈ its -> exists x, dget (extents s) (extent_id it) = Some x /\ source_block_id it = physical_block_id x }.

Lemma begin_item_ok F0 key pool s taken its id s' : (length taken < length pool)%nat -> is_Some (dget (extents s) id) -> dget (free_spares s) key = Some pool ->
  taking key pool s taken its s' -> wp F0 (begin_item key id) (fun it => taking key pool s (taken ++ [id]) (its ++ [it])) s'.
Proof.
  intros Hlt [x Hx] Hpool [(E & F & ->) T1 T2 T3 T4 T5 T6 T7]. unfold begin_item. wp_steps.
  pose proof (T1 id) as Hid. rewrite Hx in Hid.
  match type of Hid with _ <$> ?d = _ => destruct d as [x'|] eqn:Hx'; [|done] end. apply (inj Some) in Hid. unfold place_of in Hid. injection Hid as _ _ Hp Hv.
  eapply wp_lift; [unfold dindex; by rewrite Hx'|]. wp_step. cbn [free_spares set_active set_extents set_spares] in T4 |- *. subst F.
  eapply wp_lift; [unfold dindex; by rewrite dget_dset_eq|].
  destruct (drop (length taken) pool) as [|b rest] eqn:Ed.
  { apply (f_equal length) in Ed. rewrite length_drop in Ed. cbn in Ed. lia. }
  assert (Hb : pool !! length taken = Some b) by (rewrite <- (Nat.add_0_r (length taken)), <- lookup_drop, Ed; done).
  assert (Hr : drop (length (taken ++ [id])) pool = rest).
  { rewrite length_app, <- drop_drop, Ed. done. }
  wp_steps. cbn [extents free_spares active_extents set_active set_extents set_spares upd_extent] in *. constructor.
  - cbn [active_extents set_active]. eexists _, _. unfold set_active, set_extents, set_spares. cbn. f_equal. rewrite list_to_set_app_L. set_solver.
  - intros id'. cbn. rewrite dget_dupd. case_decide as Ei; [|apply T1]. subst id'. rewrite <- T1, Hx'. done.
  - etrans; [apply dkeys_dupd|exact T2].
  - intros b'. rewrite <- T3. by apply (mapped_dupd (set_extents E s)).
  - cbn. rewrite Hr. apply dset_dset.
  - rewrite fmap_app. cbn. by rewrite T5.
  - rewrite fmap_app, T6. cbn. rewrite length_app, Nat.add_1_r. symmetry. by apply take_S_r.
  - intros it [Hit|Hit]%elem_of_app; [by apply T7|]. apply list_elem_of_singleton in Hit as ->. cbn. exists x. by split.
Qed.

Lemma on_ages_ok {A} Fl F0 (m : M ReliabilityLedger.ledger A) Q s : (forall e l, Fl e l -> F0 e (with_ages l s)) ->
  wp Fl m (fun a l => Q a (with_ages l s)) (ages s) -> wp F0 (on_ages m) Q s.
Proof. intros HF H. unfold wp, on_ages in *. destruct (m (ages s)) as [[a|e] l]; [exact H|by apply HF]. Qed.

Lemma due_reasons_ok F0 cfg id at_ns s : ReliabilityLedger.accountable (age_settings cfg) id -> ReliabilityLedger.frontier (age_settings cfg) (ages s) id <= at_ns ->
  wp F0 (due_reasons cfg id at_ns) (fun _ s' => exists l, s' = with_ages l s /\ ReliabilityLedger.extends (age_settings cfg) (ages s) l) s.
Proof.
  intros Ha Hle. eapply on_ages_ok; [|eapply wp_mono; [apply ReliabilityLedger.due_ok|]].
  - intros e l H. by destruct H.
  - intros r l [Hx _]. eauto.
Qed.

Lemma with_ages_twice l l' s : with_ages l (with_ages l' s) = with_ages l s.
Proof. done. Qed.

Lemma inv_ages cfg l s : inv cfg s -> inv cfg (with_ages l s).
Proof. intros []. by constructor. Qed.
Lemma inv_log cfg a b c s : inv cfg s -> inv cfg (set_log a b c s).
Proof. intros []. by constructor. Qed.

Lemma refresh_id_inj n m : refresh_id n = refresh_id m -> n = m.
Proof. unfold refresh_id. intros H. apply (inj (String.append "refresh:")) in H. by apply (inj pretty) in H. Qed.

Lemma refresh_id_new cfg s : inv cfg s -> dget (operations s) (refresh_id (sequence s)) = None.
Proof.
  intros H. destruct (dget _ _) as [o|] eqn:Ho; [|done]. destruct (ok_name _ _ _ _ _ (i_ops _ _ H _ _ Ho)) as (n & Hn & E).
  apply refresh_id_inj in E. lia.
Qed.

Lemma op_ok_mono exts exts' spares spares' next next' oid o : op_ok exts spares next oid o ->
  (forall id, place_of <$> dget exts' id = place_of <$> dget exts id) -> (forall k, is_Some (dget spares k) -> is_Some (dget spares' k)) -> next <= next' ->
  op_ok exts' spares' next' oid o.
Proof.
  intros [A1 (n & Hn & A2) A3 A4 A5 A6] He Hs Hle. constructor; [done|exists n; split; [lia|done]|done|done|auto|].
  intros it Hit. destruct (A6 it Hit) as (x & Hx & Hst & Hch & Hp). specialize (He (extent_id it)). rewrite Hx in He.
  destruct (dget exts' (extent_id it)) as [x'|]; [|done]. apply (inj Some) in He. unfold place_of in He. injection He as E1 E2 E3 E4.
  exists x'. rewrite E1, E2, E3. done.
Qed.

Lemma extents_mono cfg s exts (spares : dict channel_key (list string)) id x : inv cfg s -> (forall id, place_of <$> dget exts id = place_of <$> dget (extents s) id) ->
  (forall k, is_Some (dget (free_spares s) k) -> is_Some (dget spares k)) -> dget exts id = Some x ->
  ReliabilityLedger.accountable (age_settings cfg) id /\ is_Some (dget spares (stack x, channel x)).
Proof.
  intros H He Hs Hx. specialize (He id). rewrite Hx in He. destruct (dget (extents s) id) as [y|] eqn:Hy; [|done].
  apply (inj Some) in He. unfold place_of in He. injection He as E1 E2 E3 E4. destruct (i_extents _ _ H id y Hy) as [Ha Hp]. rewrite <- E1, <- E2 in Hp. auto.
Qed.

Lemma is_Some_dset {K V} `{EqDecision K} (d : dict K V) k v k' : is_Some (dget d k') -> is_Some (dget (dset d k v) k').
Proof. intros H. rewrite dget_dset. case_decide; [by eexists|done]. Qed.

Definition opening (now : Z) (key : channel_key) (its : list item) (oid : string) : operation :=
  {| operation_id := oid; o_stack := key.1; o_channel := key.2; items := its; o_phase := RefreshRead; submitted := false; erase_queue := [];
     current_erase := None; committed_extents := []; conflicted_extents := []; failures := []; start_ns := now |}.

Lemma opened_inv cfg now key pool selected its s s1 : inv cfg s -> dget (free_spares s) key = Some pool -> selected <> [] -> NoDup selected ->
  (length selected <= length pool)%nat ->
  (forall id, id ∈ selected -> exists x, dget (extents s) id = Some x /\ (stack x, channel x) = key /\ id ∉ active_extents s) ->
  taking key pool s selected its s1 ->
  let s2 := set_operations (dset (operations s1) (refresh_id (sequence s1)) (opening now key its (refresh_id (sequence s1)))) (bump_sequence s1) in
  inv cfg s2 /\ begun cfg selected s s2.
Proof.
  intros H Hpool Hne Hnd Hlen Hsel [(E & F & ->) T1 T2 T3 T4 T5 T6 T7] s2.
  assert (Hnew := refresh_id_new _ _ H). cbn [free_spares set_active set_extents set_spares] in T4. subst F.
  assert (Hown : forall b, owners s2 b = owners s b).
  { intros b. unfold owners. change (quarantined_at s2 b) with (quarantined_at s b).
    assert (M1 : mapped_at s2 b = mapped_at s b) by exact (T3 b).
    assert (M2 : (free_at s2 b + occ b (take (length selected) pool) = free_at s b)%nat).
    { pose proof (total_dset (occ b) (free_spares s) key pool (drop (length selected) pool) Hpool) as Ht. pose proof (occ_take_drop b (length selected) pool).
      change (total (occ b) (dset (free_spares s) key (drop (length selected) pool)) + occ b (take (length selected) pool) = total (occ b) (free_spares s))%nat. lia. }
    assert (M3 : (held_at s2 b = occ b (take (length selected) pool) + held_at s b)%nat).
    { unfold held_at. cbn [operations s2 set_operations]. rewrite total_dset_new by exact Hnew. cbn. unfold held_blocks, destinations, opening. cbn. by rewrite T6. }
    lia. }
  assert (Hkeys : dkeys (free_spares s2) = dkeys (free_spares s)) by (apply dkeys_dset_in, dget_is_Some; by eexists).
  assert (Hpools : forall k, is_Some (dget (free_spares s) k) -> is_Some (dget (free_spares s2) k)) by (intros k; apply is_Some_dset).
  split; [|constructor].
  - constructor.
    + intros b. rewrite Hown. apply (i_owners _ _ H).
    + change (dkeys E = dkeys (extents s)) in T2. change (NoDup (dkeys E)). rewrite T2. apply (i_extent_keys _ _ H).
    + rewrite Hkeys. apply (i_spare_keys _ _ H).
    + apply NoDup_dkeys_dset, (i_op_keys _ _ H).
    + apply (i_job_keys _ _ H).
    + pose proof (i_sequence _ _ H). cbn. lia.
    + intros oid o Ho. apply dset_cases in Ho as [[-> ->]|[Hn Ho]].
      * constructor; [done| |intros Hi; change (its = []) in Hi; subst its; by subst selected|done|by destruct key; apply Hpools; eexists|].
        { exists (sequence s). pose proof (i_sequence _ _ H). cbn. split; [lia|done]. }
        intros it Hit. destruct (T7 it Hit) as (x & Hx & Hsrc). destruct (Hsel (extent_id it)) as (x0 & Hx0 & <- & _).
        { rewrite <- T5. by apply list_elem_of_fmap_2. }
        rewrite Hx in Hx0. injection Hx0 as <-. specialize (T1 (extent_id it)). rewrite Hx in T1. cbn [extents s2 set_operations bump_sequence].
        match type of T1 with _ <$> ?d = _ => destruct d as [x'|] eqn:Hx'; [|done] end. apply (inj Some) in T1. unfold place_of in T1. injection T1 as E1 E2 E3 E4.
        exists x'. rewrite E1, E2, E3. done.
      * eapply op_ok_mono; [by apply (i_ops _ _ H)|exact T1|exact Hpools|cbn; lia].
    + intros e. cbn [operations s2 set_operations active_extents bump_sequence set_active]. rewrite total_dset_new by exact Hnew.
      unfold opening, op_extents at 1. cbn [items]. rewrite T5. change (operations (bump_sequence _)) with (operations s). rewrite (i_active _ _ H).
      pose proof (proj2 (occ_NoDup selected) Hnd e) as H1. pose proof (occ_elem e selected) as H2.
      destruct (decide (e ∈ selected)) as [Hin|Hout].
      * destruct (Hsel e Hin) as (x & _ & _ & Hna). rewrite decide_False by done. rewrite decide_True by (rewrite elem_of_union, elem_of_list_to_set; by left). apply H2 in Hin. lia.
      * assert (occ e selected = 0%nat) as -> by (destruct (occ e selected) eqn:Eo; [done|]; exfalso; apply Hout, H2; lia).
        cbn [Nat.add]. apply decide_ext. rewrite elem_of_union, elem_of_list_to_set. naive_solver.
    + intros id x Hx. by eapply extents_mono.
    + intros j oid p Hj. destruct (i_jobs _ _ H j oid p Hj) as (o & n & Ho & Hr). exists o, n. split; [|done]. cbn [operations s2 set_operations].
      rewrite dget_dset_ne; [done|]. intros <-. cbn in Ho. by rewrite Hnew in Ho.
    + intros oid o Ho Hs. apply dset_cases in Ho as [[-> ->]|[Hn Ho]]; [done|]. by apply (i_job _ _ H oid o).
    + apply (i_one_job _ _ H).
  - exact T1.
  - exact Hkeys.
  - intros id Hid. cbn in Hid. apply elem_of_union in Hid as [Hid|Hid]; [right; by apply elem_of_list_to_set in Hid|by left].
  - intros id Hid. cbn. apply elem_of_union. by right.
  - apply ReliabilityLedger.ages_refl.
  - done.
  - intros oid o Ho. cbn [operations s2 set_operations]. rewrite dget_dset_ne; [done|]. intros <-. cbn in Ho. by rewrite Hnew in Ho.
  - exact Hown.
Qed.

Notation aligned cfg now s id := (ReliabilityLedger.frontier (age_settings cfg) (ages s) id = now).

(** An extent that may begin: of the channel, not active, accounted up to now. *)
Definition startable (cfg : settings) (now : Z) (key : channel_key) (s : driver) (id : string) : Prop :=
  exists x, dget (extents s) id = Some x /\ (stack x, channel x) = key /\ id ∉ active_extents s /\ aligned cfg now s id.

Lemma startable_begun cfg now key s s' ids id : begun cfg ids s s' -> startable cfg now key s id -> id ∉ ids -> startable cfg now key s' id.
Proof.
  intros Hb (x & Hx & Hk & Ha & Hf) Hid. pose proof (bg_extents _ _ _ _ Hb id) as He. rewrite Hx in He.
  destruct (dget (extents s') id) as [x'|] eqn:Hx'; [|done]. apply (inj Some) in He. unfold place_of in He. injection He as E1 E2 E3 E4.
  exists x'. split_and!; [done|by rewrite E1, E2| |].
  - intros Hin. apply (bg_active _ _ _ _ Hb) in Hin as [?|?]; auto.
  - by rewrite (proj1 (bg_ages _ _ _ _ Hb)).
Qed.

Lemma begun_ages cfg ids s s' l : begun cfg ids s s' -> ReliabilityLedger.extends (age_settings cfg) (ages s') l -> begun cfg ids s (with_ages l s').
Proof. intros [A1 A2 A3 A4 A5 A6 A7 A8] Hx. constructor; [done..|by eapply ReliabilityLedger.ages_trans|done|done|done]. Qed.
Lemma begun_log cfg ids s s' a b c : begun cfg ids s s' -> begun cfg ids s (set_log a b c s').
Proof. intros []. by constructor. Qed.

Lemma begin_operation_ok F0 cfg now key pool selected s : inv cfg s -> dget (free_spares s) key = Some pool -> selected <> [] -> NoDup selected ->
  (length selected <= length pool)%nat -> (forall id, id ∈ selected -> startable cfg now key s id) ->
  wp F0 (begin_operation cfg now key selected) (fun _ s' => inv cfg s' /\ begun cfg selected s s' /\
    dget (free_spares s') key = Some (drop (length selected) pool)) s.
Proof.
  intros H Hpool Hne Hnd Hlen Hsel. unfold begin_operation. wp_step.
  eapply wp_mono; [apply (wp_mapS (taking key pool s))|].
  - constructor; [|done|done|done| |done|done|by intros it ?%elem_of_nil].
    + exists (extents s), (free_spares s). destruct s. unfold set_active, set_extents, set_spares. cbn. f_equal. set_solver.
    + cbn [length drop]. symmetry. by apply dset_same.
  - intros taken x todo its s' -> HT. apply begin_item_ok; [|by destruct (Hsel x) as (y & Hy & _); [set_solver|eexists]|done|done].
    rewrite length_app in Hlen. cbn in Hlen. lia.
  - intros its s1 HT. wp_steps.
    assert (Hpool1 : free_spares s1 = dset (free_spares s) key (drop (length selected) pool)) by apply (tk_pool _ _ _ _ _ _ HT).
    destruct (opened_inv cfg now key pool selected its s s1 H Hpool Hne Hnd Hlen) as [Hi2 Hb2]; [|done|].
    { intros id Hid. destruct (Hsel id Hid) as (x & ? & ? & ? & _). eauto. }
    set (s2 := set_operations _ _) in Hi2, Hb2. change (set_operations _ (bump_sequence s1)) with s2.
    eapply wp_mono; [apply (wp_mapS (fun _ _ s' => exists l, s' = with_ages l s2 /\ ReliabilityLedger.extends (age_settings cfg) (ages s2) l))|].
    + exists (ages s2). split; [by destruct s1|done].
    + intros done_ id todo outs s' -> (l & -> & Hl). wp_step. eapply wp_mono; [apply due_reasons_ok|].
      * destruct (Hsel id) as (x & Hx & _); [set_solver|]. by apply (i_extents _ _ H id x).
      * destruct (Hsel id) as (x & _ & _ & _ & Hf); [set_solver|]. cbn [ages with_ages]. rewrite (proj1 Hl), (proj1 (bg_ages _ _ _ _ Hb2)). lia.
      * intros r s' (l' & -> & Hl'). wp_step. exists l'. split; [done|]. by eapply ReliabilityLedger.ages_trans.
    + intros due s' (l & -> & Hl). wp_step. split_and!; [by apply inv_log, inv_ages|by apply begun_log, begun_ages|].
      change (dget (free_spares s1) key = Some (drop (length selected) pool)). rewrite Hpool1. apply dget_dset_eq.
Qed.

Lemma begin_cohorts_ok F0 cfg now key : settings_ok cfg -> forall fuel ids s, inv cfg s -> is_Some (dget (free_spares s) key) -> NoDup ids ->
  (length ids <= fuel)%nat -> (forall id, id ∈ ids -> startable cfg now key s id) ->
  wp F0 (begin_cohorts cfg fuel now key ids) (fun _ s' => inv cfg s' /\ begun cfg ids s s') s.
Proof.
  intros Hcfg. induction fuel as [|fuel IH]; intros ids s H [pool Hpool] Hnd Hlen Hst; cbn [begin_cohorts]; wp_steps;
    (eapply wp_lift; [unfold dindex; by rewrite Hpool|]).
  { destruct ids; [|cbn in Hlen; lia]. cbn. split; [done|apply begun_refl]. }
  destruct (bool_decide (ids <> []) && bool_decide (pool <> [])) eqn:Eb; [|wp_step; split; [done|apply begun_refl]].
  apply andb_true_iff in Eb as [Ei%bool_decide_eq_true Ep%bool_decide_eq_true]. pose proof (so_cohort _ Hcfg) as Hco.
  set (count := Nat.min (Nat.min (length ids) (length pool)) (Z.to_nat (max_cohort cfg))).
  assert (Hc : (0 < count /\ count <= length ids /\ count <= length pool)%nat).
  { assert (0 < length ids)%nat by (destruct ids; [done|cbn; lia]).
    assert (0 < length pool)%nat by (destruct pool; [done|cbn; lia]). assert (0 < Z.to_nat (max_cohort cfg))%nat by lia. unfold count. lia. }
  assert (Hlt : length (take count ids) = count) by (rewrite length_take; lia).
  pose proof Hnd as Hsplit. rewrite <- (take_drop count ids) in Hsplit. apply NoDup_app in Hsplit as (Hn1 & Hdis & Hn2).
  wp_step. eapply wp_mono; [apply (begin_operation_ok _ cfg now key pool)|]; [done|done| |done|lia| |].
  - intros E. rewrite E in Hlt. cbn in Hlt. lia.
  - intros id Hid. apply Hst. rewrite <- (take_drop count ids). apply elem_of_app. by left.
  - intros [] s1 (Hi1 & Hb1 & Hp1). eapply wp_mono; [apply IH|].
    + done.
    + by eexists.
    + done.
    + rewrite length_drop. lia.
    + intros id Hid. eapply startable_begun; [exact Hb1| |].
      * apply Hst. rewrite <- (take_drop count ids). apply elem_of_app. by right.
      * intros Hin. by apply (Hdis id).
    + intros [] s2 (Hi2 & Hb2). split; [done|]. eapply begun_trans; [exact Hb1|exact Hb2|]. intros id Hid. rewrite <- (take_drop count ids). by apply elem_of_app.
Qed.

Definition grouped (cfg : settings) (now : Z) (s : driver) (seen : list string) (groups : dict channel_key (list string)) : Prop :=
  NoDup (dkeys groups) /\ forall key ids, dget groups key = Some ids -> ids <> [] /\ NoDup ids /\ forall id, id ∈ ids -> id ∈ seen /\ startable cfg now key s id.

Lemma extent_due_ok cfg now s seen groups id x l : inv cfg s -> dget (extents s) id = Some x -> id ∉ seen -> grouped cfg now s seen groups ->
  ReliabilityLedger.extends (age_settings cfg) (ages s) l ->
  wp (fun _ _ => ~ (id ∉ active_extents s -> aligned cfg now s id)) (extent_due cfg now groups (id, x))
    (fun groups' s' => grouped cfg now s (seen ++ [id]) groups' /\ exists l', s' = with_ages l' s /\ ReliabilityLedger.extends (age_settings cfg) (ages s) l')
    (with_ages l s).
Proof.
  intros H Hx Hseen [Hk Hg] Hl. destruct (i_extents _ _ H id x Hx) as [Hacc _].
  assert (Hweak : grouped cfg now s (seen ++ [id]) groups).
  { split; [done|]. intros key ids Hids. destruct (Hg key ids Hids) as (He & Hn & Hin). split_and!; [done..|]. intros i Hi. destruct (Hin i Hi). split; [|done]. apply elem_of_app. by left. }
  unfold extent_due. wp_steps. cbn [active_extents with_ages]. case_bool_decide as Ha; [wp_step; split; [done|eauto]|]. wp_step.
  apply (on_ages_ok (fun _ _ => ~ ReliabilityLedger.accountable (age_settings cfg) id)); [intros e l' Hbad; exfalso; by apply Hbad|]. eapply wp_mono; [apply ReliabilityLedger.accounted_ok|]. intros n l1 [-> Hl1].
  cbn [ages with_ages] in Hl1 |- *. rewrite (proj1 Hl). wp_step. apply wp_require; [intros ?%Z.eqb_neq; tauto|]. intros Hnow%Z.eqb_eq.
  assert (Hl1' := ReliabilityLedger.ages_trans _ _ _ _ Hl Hl1). wp_step. rewrite with_ages_twice.
  eapply wp_mono; [apply due_reasons_ok; [done|]|].
  { cbn [ages with_ages]. rewrite (proj1 Hl1'). lia. }
  intros reasons s' (l2 & -> & Hl2). cbn [ages with_ages] in Hl2. assert (Hl2' := ReliabilityLedger.ages_trans _ _ _ _ Hl1' Hl2). wp_step. rewrite with_ages_twice. split; [|eauto].
  case_bool_decide; [|done]. split; [by apply NoDup_dkeys_dset|]. intros key ids Hids. apply dset_cases in Hids as [[-> ->]|[_ Hids]]; [|by apply Hweak].
  assert (Hold : NoDup (dget_or groups (stack x, channel x) []) /\ forall i, i ∈ dget_or groups (stack x, channel x) [] -> i ∈ seen /\ startable cfg now (stack x, channel x) s i).
  { unfold dget_or. destruct (dget groups (stack x, channel x)) as [ids|] eqn:E; [by apply Hg in E as (_ & ? & ?)|]. split; [constructor|by intros i ?%elem_of_nil]. }
  destruct Hold as [Hn Hin]. split_and!.
  - intros E. by apply app_eq_nil in E as [_ ?].
  - apply NoDup_app. split_and!; [done| |apply NoDup_singleton]. intros i Hi ->%list_elem_of_singleton. by apply Hin in Hi as [? _].
  - intros i [Hi|Hi]%elem_of_app; [destruct (Hin i Hi); split; [apply elem_of_app; by left|done]|]. apply list_elem_of_singleton in Hi as ->.
    split; [apply elem_of_app; right; by apply list_elem_of_singleton|]. exists x. done.
Qed.

Lemma begin_due_ok cfg now s : settings_ok cfg -> inv cfg s ->
  wp (fun _ _ => ~ (forall id x, dget (extents s) id = Some x -> id ∉ active_extents s -> aligned cfg now s id)) (_begin_due cfg now)
    (fun _ s' => inv cfg s' /\ begun cfg (dkeys (extents s)) s s') s.
Proof.
  intros Hcfg H. unfold _begin_due. wp_steps. set (sorted := isort _ (extents s)).
  assert (Hperm : sorted ≡ₚ extents s) by apply isort_perm.
  eapply wp_mono; [apply (wp_foldS (fun seen groups s' => grouped cfg now s (fst <$> seen) groups /\
    exists l, s' = with_ages l s /\ ReliabilityLedger.extends (age_settings cfg) (ages s) l))|].
  - split; [split; [constructor|done]|]. exists (ages s). split; [by destruct s|done].
  - intros seen [id x] todo groups s' Hsplit (Hg & l & -> & Hl).
    assert (Hx : dget (extents s) id = Some x).
    { apply dget_elem; [apply (i_extent_keys _ _ H)|]. rewrite <- Hperm, Hsplit. apply elem_of_app. right. apply elem_of_cons. by left. }
    rewrite fmap_app. pose proof (extent_due_ok cfg now s (fst <$> seen) groups id x l H Hx) as Hw. unfold wp in *.
    assert (Hnew : id ∉ fst <$> seen).
    { pose proof (i_extent_keys _ _ H) as Hn. unfold dkeys in Hn. rewrite <- Hperm, Hsplit, fmap_app in Hn. apply NoDup_app in Hn as (_ & Hn & _).
      intros Hin. apply (Hn id Hin). rewrite fmap_cons. apply elem_of_cons. by left. }
    specialize (Hw Hnew Hg Hl). destruct (extent_due cfg now groups (id, x) (with_ages l s)) as [[g|e] s1]; [done|]. intros Hall. apply Hw. intros Ha. by eapply Hall.
  - intros groups s' ([Hk Hg] & l & -> & Hl). set (order := isort _ groups). assert (Hp : order ≡ₚ groups) by apply isort_perm.
    assert (Hko : NoDup (dkeys order)) by (unfold dkeys; by rewrite Hp).
    assert (Hgo : forall key ids, (key, ids) ∈ order -> ids <> [] /\ NoDup ids /\ forall id, id ∈ ids -> startable cfg now key s id).
    { intros key ids Hin. rewrite Hp in Hin. apply dget_elem in Hin; [|done]. destruct (Hg key ids Hin) as (? & ? & Hs). split_and!; [done..|]. intros id Hid. by apply Hs. }
    eapply wp_mono; [apply (wp_forM (fun seen s' => inv cfg s' /\ begun cfg (concat (snd <$> seen)) s s'))|].
    + split; [by apply inv_ages|]. apply begun_ages; [apply begun_refl|done].
    + intros seen [key ids] todo s1 Hsplit (Hi1 & Hb1). unfold begin_group. wp_steps. set (perm := isort _ ids). assert (Hpi : perm ≡ₚ ids) by apply isort_perm.
      destruct (Hgo key ids) as (Hne & Hn & Hs); [rewrite Hsplit; apply elem_of_app; right; apply elem_of_cons; by left|].
      assert (Hs1 : forall id, id ∈ perm -> startable cfg now key s1 id).
      { intros id Hid. rewrite Hpi in Hid. eapply startable_begun; [exact Hb1|by apply Hs|]. intros Hin. apply list_elem_of_In, in_concat in Hin as (ids' & Hids' & Hin').
        apply list_elem_of_In, list_elem_of_fmap in Hids' as ([key' ids2] & -> & Hin2). apply list_elem_of_In in Hin'. cbn in Hin'.
        destruct (Hgo key' ids2) as (_ & _ & Hs'); [rewrite Hsplit; apply elem_of_app; by left|]. destruct (Hs id Hid) as (x & Hx & <- & _), (Hs' id Hin') as (x' & Hx' & <- & _).
        rewrite Hx in Hx'. injection Hx' as <-. rewrite Hsplit in Hko. unfold dkeys in Hko. rewrite fmap_app in Hko. apply NoDup_app in Hko as (_ & Hd & _).
        apply (Hd (stack x, channel x)); [by apply (list_elem_of_fmap_2 fst) in Hin2|]. rewrite fmap_cons. apply elem_of_cons. by left. }
      eapply wp_mono; [apply begin_cohorts_ok|]; [done|done| |by rewrite Hpi|done|done|].
      * destruct ids as [|id0 ids0]; [done|]. destruct (Hs1 id0) as (x & Hx & <- & _); [rewrite Hpi; apply elem_of_cons; by left|]. by apply (i_extents _ _ Hi1 id0).
      * intros [] s2 (Hi2 & Hb2). split; [done|]. eapply begun_trans; [exact Hb1|exact Hb2|]. intros id Hid. rewrite fmap_app, concat_app. apply elem_of_app.
        destruct Hid as [Hid|Hid]; [by left|right]. cbn. rewrite app_nil_r. by rewrite Hpi in Hid.
    + intros [] s1 (Hi1 & Hb1). split; [done|]. eapply begun_trans; [exact Hb1|apply (begun_refl _ [])|]. intros id [Hid|Hid]; [|by apply elem_of_nil in Hid].
      apply list_elem_of_In, in_concat in Hid as (ids & Hids & Hin). apply list_elem_of_In, list_elem_of_fmap in Hids as ([key ids2] & -> & Hin2). apply list_elem_of_In in Hin.
      destruct (Hgo key ids2 Hin2) as (_ & _ & Hs). destruct (Hs id Hin) as (x & Hx & _). apply dget_is_Some. by eexists.
Qed.

(** ** Polling *)

(** A job that the driver offered for the current phase of its operation. *)
Record job_ok (cfg : settings) (s : driver) (j : job) : Prop := {
  jo_open : dget (outstanding s) (job_id j) = Some (parent j, job_phase j);
  jo_blocks : exists o, dget (operations s) (parent j) = Some o /\ o_phase o = job_phase j /\ job_stack j = o_stack o /\ job_channel j = o_channel o /\
                phase_blocks o = Ok (physical_block_ids j, job_extents j, expected_versions j);
  jo_count : block_count j = Z.of_nat (length (physical_block_ids j));
  jo_bytes : job_bytes j = block_bytes cfg * block_count j }.

Record polled (cfg : settings) (s : driver) (seen : list string) (jobs : list job) (s' : driver) : Prop := {
  pl_frame : exists O J, s' = set_outstanding J (set_operations O s);
  pl_ops : forall oid, dget (operations s') oid = (fun o => if decide (oid ∈ seen) then set_submitted true o else o) <$> dget (operations s) oid;
  pl_jobs : forall j, j ∈ jobs -> job_ok cfg s' j /\ exists o, dget (operations s) (parent j) = Some o /\ submitted o = false;
  pl_all : forall oid o, oid ∈ seen -> dget (operations s) oid = Some o -> submitted o = false -> exists j, j ∈ jobs /\ parent j = oid;
  pl_kept : forall j v, dget (outstanding s) j = Some v -> dget (outstanding s') j = Some v;
  pl_owners : forall b, owners s' b = owners s b }.

Lemma phase_job_id_inj n m p q i k : phase_job_id (refresh_id n) p i = phase_job_id (refresh_id m) q k -> n = m.
Proof.
  unfold phase_job_id, refresh_id. rewrite !string_app_assoc. intros H. apply (string_app_inv_head "refresh:") in H.
  apply colon_inj in H as [H _]; [by apply (inj pretty) in H|apply pretty_colon..].
Qed.

Lemma set_submitted_same o : submitted o = true -> set_submitted true o = o.
Proof. destruct o. cbn. by intros ->. Qed.

Lemma fresh_job cfg s oid o p n : inv cfg s -> dget (operations s) oid = Some o -> submitted o = false -> dget (outstanding s) (phase_job_id oid p n) = None.
Proof.
  intros H Ho Hs. destruct (dget (outstanding s) _) as [[oid' p']|] eqn:Hj; [|done]. exfalso.
  destruct (i_jobs _ _ H _ _ _ Hj) as (o' & n' & Ho' & Hp & Hs' & E). destruct (ok_name _ _ _ _ _ (i_ops _ _ H _ _ Ho)) as (m & _ & Em).
  destruct (ok_name _ _ _ _ _ (i_ops _ _ H _ _ Ho')) as (m' & _ & Em'). subst oid oid'. apply phase_job_id_inj in E as ->. congruence.
Qed.

Lemma op_ok_submitted exts spares next oid o b : op_ok exts spares next oid o -> op_ok exts spares next oid (set_submitted b o).
Proof. intros []. by constructor. Qed.

(** An operation is marked as submitted together with its outstanding job. *)
Definition submit (id oid : string) (p : phase) (s : driver) : driver :=
  set_outstanding (dset (outstanding s) id (oid, p)) (upd_operation oid (set_submitted true) s).

Lemma total_same {K V} `{EqDecision K} (h : V -> nat) (d : dict K V) k f : (forall v, h (f v) = h v) -> total h (dupd d k f) = total h d.
Proof.
  intros Hf. destruct (dget d k) as [v|] eqn:Hv; [|unfold dupd; by rewrite Hv]. pose proof (total_dupd h d k v f Hv) as Ht. rewrite Hf in Ht. lia.
Qed.

Lemma submit_owners id oid p s b : owners (submit id oid p s) b = owners s b.
Proof. unfold owners, held_at. cbn [operations submit set_outstanding upd_operation set_operations]. by rewrite total_same by done. Qed.

Lemma submit_job_inv cfg s oid o n : inv cfg s -> dget (operations s) oid = Some o -> submitted o = false -> inv cfg (submit (phase_job_id oid (o_phase o) n) oid (o_phase o) s).
Proof.
  intros H Ho Hs. assert (Hnew := fresh_job cfg s oid o (o_phase o) n H Ho Hs). set (id := phase_job_id oid (o_phase o) n) in *.
  assert (Hops : forall k, dget (operations (submit id oid (o_phase o) s)) k = if decide (oid = k) then set_submitted true <$> dget (operations s) k else dget (operations s) k)
    by (intros k; apply dget_dupd).
  constructor.
  - intros b. rewrite submit_owners. apply (i_owners _ _ H).
  - apply (i_extent_keys _ _ H).
  - apply (i_spare_keys _ _ H).
  - cbn [operations submit set_outstanding upd_operation set_operations]. rewrite dkeys_dupd. apply (i_op_keys _ _ H).
  - apply NoDup_dkeys_dset, (i_job_keys _ _ H).
  - apply (i_sequence _ _ H).
  - intros k o' Hk. rewrite Hops in Hk. case_decide as E; [|by apply (i_ops _ _ H)]. subst k. rewrite Ho in Hk. injection Hk as <-. apply op_ok_submitted, (i_ops _ _ H _ _ Ho).
  - intros e. cbn [operations submit set_outstanding upd_operation set_operations active_extents]. rewrite total_same by done. apply (i_active _ _ H).
  - apply (i_extents _ _ H).
  - intros j k p Hj. apply dset_cases in Hj as [[-> [= -> ->]]|[Hne Hj]].
    + exists (set_submitted true o), n. rewrite Hops, decide_True by done. by rewrite Ho.
    + destruct (i_jobs _ _ H j k p Hj) as (o' & n' & Ho' & Hp & Hs' & E). exists o', n'. split; [|done]. rewrite Hops. case_decide as Ek; [|done]. subst k. congruence.
  - intros k o' Hk Hs'. rewrite Hops in Hk. cbn [outstanding submit set_outstanding]. case_decide as E.
    + subst k. rewrite Ho in Hk. injection Hk as <-. exists id. by rewrite dget_dset_eq.
    + destruct (i_job _ _ H k o' Hk Hs') as [j Hj]. exists j. rewrite dget_dset_ne; [done|]. intros <-. by rewrite Hnew in Hj.
  - intros j j' k p p' Hj Hj'. apply dset_cases in Hj as [[-> [= -> ->]]|[Hne Hj]], Hj' as [Hj'|Hj'].
    + by destruct Hj' as [-> _].
    + destruct Hj' as [_ Hj']. exfalso. destruct (i_jobs _ _ H _ _ _ Hj') as (o' & n' & Ho' & _ & Hs' & _). congruence.
    + destruct Hj' as [-> [= -> ->]]. exfalso. destruct (i_jobs _ _ H _ _ _ Hj) as (o' & n' & Ho' & _ & Hs' & _). congruence.
    + destruct Hj' as [_ Hj']. by eapply (i_one_job _ _ H).
Qed.

Lemma phase_blocks_ok o : shape o -> exists r, phase_blocks o = Ok r.
Proof. unfold shape, phase_blocks. destruct (o_phase o); [eauto|eauto|intros (e & -> & _); cbn; eauto|intros (e & -> & _); cbn; eauto|done]. Qed.

Lemma phase_blocks_submitted b o : phase_blocks (set_submitted b o) = phase_blocks o.
Proof. done. Qed.

Lemma decide_snoc {A} (seen : list string) oid k (a b : A) :
  (if decide (k ∈ seen ++ [oid]) then a else b) = if decide (oid = k) then a else if decide (k ∈ seen) then a else b.
Proof.
  destruct (decide (oid = k)) as [->|Hne]; [rewrite decide_True; [done|apply elem_of_app; right; by apply list_elem_of_singleton]|].
  apply decide_ext. rewrite elem_of_app, list_elem_of_singleton. naive_solver.
Qed.

Lemma offer_ok F0 cfg now s s' seen jobs oid : inv cfg s' -> polled cfg s seen jobs s' -> oid ∉ seen -> is_Some (dget (operations s) oid) ->
  wp F0 (offer_operation cfg now jobs oid) (fun jobs' s1 => inv cfg s1 /\ polled cfg s (seen ++ [oid]) jobs' s1) s'.
Proof.
  intros H [(O & J & ->) P2 P3 P4 P5 P6] Hseen [o Ho]. unfold offer_operation. wp_steps. pose proof (P2 oid) as Ho'. rewrite Ho in Ho'. cbn [fmap option_fmap option_map] in Ho'.
  rewrite decide_False in Ho' by done. eapply wp_lift; [unfold dindex; by rewrite Ho'|].
  destruct (i_ops _ _ H _ _ Ho') as [Hid _ _ Hshape _ _]. rewrite bool_decide_eq_false_2 by (intros E; unfold shape in Hshape; by rewrite E in Hshape). cbn [orb].
  destruct (submitted o) eqn:Es.
  { wp_step. split; [done|]. constructor; [eauto| | | |done|done].
    - intros k. rewrite P2. destruct (dget (operations s) k) as [o1|] eqn:Hk; [|done]. cbn. f_equal. rewrite decide_snoc.
      destruct (decide (oid = k)) as [<-|]; [|done]. rewrite decide_False by done. rewrite Ho in Hk. injection Hk as <-. by rewrite set_submitted_same.
    - done.
    - intros k o1 [Hk|Hk]%elem_of_app Hk1 Hs1; [by eapply P4|]. apply list_elem_of_singleton in Hk as ->. congruence. }
  destruct (phase_blocks_ok o Hshape) as [[[blocks exts] versions] Hb]. wp_step. eapply wp_lift; [exact Hb|]. cbv beta iota. wp_steps.
  set (s1 := set_outstanding J (set_operations O s)) in *. set (id := phase_job_id oid (o_phase o) (length (outstanding s1))).
  assert (Hinv := submit_job_inv cfg s1 oid o (length (outstanding s1)) H Ho' Es). change (submit _ _ _ _) with (submit id oid (o_phase o) s1) in Hinv.
  assert (Hnew : dget (outstanding s1) id = None) by by apply (fresh_job cfg s1 oid o).
  match goal with |- inv cfg ?t /\ _ => change t with (submit id oid (o_phase o) s1) end. split; [done|].
  assert (Hops : forall k, dget (operations (submit id oid (o_phase o) s1)) k = if decide (oid = k) then set_submitted true <$> dget (operations s1) k else dget (operations s1) k)
    by (intros k; apply dget_dupd).
  constructor.
  - eexists _, _. done.
  - intros k. rewrite Hops, P2. destruct (dget (operations s) k) as [o1|] eqn:Hk; [|by case_decide]. cbn. rewrite decide_snoc. case_decide as Ek; [|done].
    subst k. rewrite (decide_False (P := oid ∈ seen)) by done. done.
  - intros j [Hj|Hj]%elem_of_app.
    + destruct (P3 j Hj) as [[Q1 (o1 & Ho1 & Q2) Q3 Q4] (o2 & Ho2 & Hs2)]. split; [|eauto]. constructor; [| |done|done].
      * cbn [outstanding submit set_outstanding]. rewrite dget_dset_ne; [done|]. intros E. rewrite <- E in Q1. by rewrite Hnew in Q1.
      * rewrite Hops, Ho1. case_decide; [|by exists o1]. exists (set_submitted true o1). done.
    + apply list_elem_of_singleton in Hj as ->. cbn [parent]. split; [|eauto]. constructor; [apply dget_dset_eq| |done|done].
      exists (set_submitted true o). cbn [parent]. rewrite Hops, decide_True by done. by rewrite Ho'.
  - intros k o1 [Hk|Hk]%elem_of_app Hk1 Hs1.
    + destruct (P4 k o1 Hk Hk1 Hs1) as (j & Hj & E). exists j. split; [apply elem_of_app; by left|done].
    + apply list_elem_of_singleton in Hk as ->. eexists. split; [apply elem_of_app; right; by apply list_elem_of_singleton|done].
  - intros j v Hj. apply P5 in Hj. cbn [outstanding submit set_outstanding]. rewrite dget_dset_ne; [done|]. intros <-. by rewrite Hnew in Hj.
  - intros b. rewrite <- P6. apply submit_owners.
Qed.

Lemma driver_polled_refl cfg s : polled cfg s [] [] s.
Proof.
  constructor.
  - exists (operations s), (outstanding s). by destruct s.
  - intros oid. destruct (dget (operations s) oid); done.
  - by intros j ?%elem_of_nil.
  - by intros oid o ?%elem_of_nil.
  - done.
  - done.
Qed.

(** What a poll does: due work begins, then every operation that has not submitted
    its phase is offered. *)
Lemma driver_poll_ok cfg now discover s : settings_ok cfg -> inv cfg s ->
  wp (fun _ _ => ~ (0 <= now /\ (discover = true -> forall id x, dget (extents s) id = Some x -> id ∉ active_extents s -> aligned cfg now s id)))
    (poll cfg now discover)
    (fun jobs s' => 0 <= now /\ inv cfg s' /\ exists s1, inv cfg s1 /\ begun cfg (dkeys (extents s)) s s1 /\ polled cfg s1 (isort sle (dkeys (operations s1))) jobs s') s.
Proof.
  intros Hcfg H. unfold poll. wp_step. apply wp_require; [intros ?%Z.leb_gt ?; lia|]. intros Hnow%Z.leb_le. wp_step.
  assert (Hrest : forall s1, inv cfg s1 -> begun cfg (dkeys (extents s)) s s1 ->
    wp (fun _ _ => ~ (0 <= now /\ (discover = true -> forall id x, dget (extents s) id = Some x -> id ∉ active_extents s -> aligned cfg now s id)))
      (let! s2 := get in foldS (offer_operation cfg now) (isort sle (dkeys (operations s2))) [])
      (fun jobs s' => 0 <= now /\ inv cfg s' /\ exists s1, inv cfg s1 /\ begun cfg (dkeys (extents s)) s s1 /\ polled cfg s1 (isort sle (dkeys (operations s1))) jobs s') s1).
  { intros s1 Hi1 Hb1. wp_steps. eapply wp_mono; [apply (wp_foldS (fun seen jobs s' => inv cfg s' /\ polled cfg s1 seen jobs s'))|].
    - split; [done|apply driver_polled_refl].
    - intros seen oid todo jobs s' Hsplit [Hi' Hp']. assert (Hperm := isort_perm sle (dkeys (operations s1))). apply offer_ok; [done|done| |].
      + pose proof (i_op_keys _ _ Hi1) as Hn. rewrite <- Hperm, Hsplit in Hn. apply NoDup_app in Hn as (_ & Hn & _). intros Hin. apply (Hn oid Hin). apply elem_of_cons. by left.
      + apply dget_is_Some. rewrite <- Hperm, Hsplit. apply elem_of_app. right. apply elem_of_cons. by left.
    - intros jobs s' [Hi' Hp']. split_and!; [done|done|]. by exists s1. }
  destruct discover.
  - pose proof (begin_due_ok cfg now s Hcfg H) as Hw. unfold wp at 1 in Hw. unfold wp at 1. destruct (_begin_due cfg now s) as [[[]|e] s1].
    + destruct Hw as [Hi1 Hb1]. by apply Hrest.
    + intros [_ Hall]. apply Hw. by apply Hall.
  - wp_step. apply Hrest; [done|apply begun_refl].
Qed.

(** In a state of the invariant a block that an operation holds is nowhere else. *)
Lemma held_alone cfg s oid o b : inv cfg s -> dget (operations s) oid = Some o -> b ∈ held_blocks o ->
  mapped_at s b = 0%nat /\ free_at s b = 0%nat /\ b ∉ quarantined_blocks s.
Proof.
  intros H Ho Hb. pose proof (i_owners _ _ H b) as Hle. unfold owners, quarantined_at in Hle. apply occ_elem in Hb.
  pose proof (total_pos (fun o => occ b (held_blocks o)) _ _ _ Ho) as Hp. cbn beta in Hp. change (occ b (held_blocks o) <= held_at s b)%nat in Hp.
  case_decide; [lia|]. split_and!; [lia|lia|done].
Qed.
Lemma mapped_zero s b : mapped_at s b = 0%nat -> forall id x, dget (extents s) id = Some x -> physical_block_id x <> b.
Proof.
  intros H id x Hx E. pose proof (total_pos (fun x => occ b [physical_block_id x]) _ _ _ Hx) as Hp. cbn beta in Hp.
  change (occ b [physical_block_id x] <= mapped_at s b)%nat in Hp. rewrite E, occ_cons, decide_True in Hp by done. lia.
Qed.
Lemma free_zero s b : free_at s b = 0%nat -> forall key pool, dget (free_spares s) key = Some pool -> b ∉ pool.
Proof.
  intros H key pool Hx Hin%occ_elem. pose proof (total_pos (occ b) _ _ _ Hx) as Hp. change (occ b pool <= free_at s b)%nat in Hp. lia.
Qed.
End MaintenanceInvariant.
