(* ===== verification/MaintenanceSteps.v ===== *)
(** * MaintenanceSteps: completions and registration

    The operations of [MaintenanceDriver] that end phases, on the invariant of
    [MaintenanceInvariant].  Every completion moves its operation to a later phase or
    ends it, moves blocks between their owners without losing or duplicating one,
    and touches no other operation. *)

From S2P Require Import Prelude ProgramLogic PyFloat.
From S2P Require Import ReliabilityLedger MaintenanceDriver MaintenanceInvariant.

Module MaintenanceSteps.
Import ProgramLogic MaintenanceDriver MaintenanceInvariant.

(** ** What a completion does *)

Definition rank (o : operation) : nat :=
  match o_phase o with RefreshRead => 4 | Program => 3 | EraseOld => 2 | EraseCleanup => 1 | Terminal => 0 end.

(** The completion of job [j] of operation [o]: [next] is its new value, or [None]
    when it ends. *)
Record completes (cfg : settings) (s : driver) (j oid : string) (o : operation) (next : option operation) (s' : driver) : Prop := {
  cp_keys : dkeys (free_spares s') = dkeys (free_spares s);
  cp_ekeys : dkeys (extents s') = dkeys (extents s);
  cp_extents : forall id, id ∉ op_extents o -> dget (extents s') id = dget (extents s) id;
  cp_channel : forall id x', dget (extents s') id = Some x' -> exists x, dget (extents s) id = Some x /\ stack x' = stack x /\ channel x' = channel x;
  cp_sequence : sequence s' = sequence s;
  cp_owners : forall b, owners s' b = owners s b;
  cp_jobs : outstanding s' = ddel (outstanding s) j;
  cp_ops : operations s' = match next with None => ddel (operations s) oid | Some o' => dset (operations s) oid o' end;
  cp_active : active_extents s' = match next with None => active_extents s ∖ list_to_set (op_extents o) | Some _ => active_extents s end;
  cp_next : forall o', next = Some o' -> items o' = items o /\ submitted o' = false /\ (rank o' < rank o)%nat /\
              operation_id o' = operation_id o /\ o_stack o' = o_stack o /\ o_channel o' = o_channel o /\ shape o' /\
              (in_place (o_phase o') = true -> extents s' = extents s /\ in_place (o_phase o) = true);
  cp_ages : forall id, ReliabilityLedger.frontier (age_settings cfg) (ages s') id = ReliabilityLedger.frontier (age_settings cfg) (ages s) id }.

Lemma is_Some_keys {K V} `{EqDecision K} (d d' : dict K V) k : dkeys d' = dkeys d -> is_Some (dget d k) -> is_Some (dget d' k).
Proof. rewrite !dget_is_Some. by intros ->. Qed.

Lemma ops_apart cfg s oid o oid' o' e : inv cfg s -> dget (operations s) oid = Some o -> dget (operations s) oid' = Some o' -> oid <> oid' ->
  e ∈ op_extents o' -> e ∉ op_extents o.
Proof.
  intros H Ho Ho' Hne He He'. apply occ_elem in He, He'. pose proof (total_two (fun o => occ e (op_extents o)) _ _ _ _ _ Ho Ho' Hne) as Ht. cbn beta in Ht.
  rewrite (i_active _ _ H) in Ht. case_decide; lia.
Qed.
Lemma op_extents_NoDup cfg s oid o : inv cfg s -> dget (operations s) oid = Some o -> NoDup (op_extents o).
Proof.
  intros H Ho. apply occ_NoDup. intros e. pose proof (total_pos (fun o => occ e (op_extents o)) _ _ _ Ho) as Hp. cbn beta in Hp.
  rewrite (i_active _ _ H) in Hp. case_decide; lia.
Qed.

Lemma completes_inv cfg s j oid o next s' : inv cfg s -> dget (operations s) oid = Some o -> dget (outstanding s) j = Some (oid, o_phase o) ->
  completes cfg s j oid o next s' -> inv cfg s'.
Proof.
  intros H Ho Hj [C1 C2 C3 C4 C5 C6 C7 C8 C9 C10 C11].
  assert (Hpools : forall k, is_Some (dget (free_spares s) k) -> is_Some (dget (free_spares s') k)) by (intros k; by apply is_Some_keys).
  assert (Hjobs : forall k v, dget (outstanding s') k = Some v <-> k <> j /\ dget (outstanding s) k = Some v).
  { intros k v. rewrite C7, dget_ddel by apply (i_job_keys _ _ H). case_decide; naive_solver. }
  assert (Hother : forall k o', k <> oid -> dget (operations s') k = Some o' <-> dget (operations s) k = Some o').
  { intros k o' Hne. rewrite C8. destruct next; [by rewrite dget_dset_ne|]. rewrite dget_ddel by apply (i_op_keys _ _ H). by rewrite decide_False. }
  assert (Hself : dget (operations s') oid = next).
  { rewrite C8. destruct next; [apply dget_dset_eq|]. rewrite dget_ddel by apply (i_op_keys _ _ H). by rewrite decide_True. }
  assert (Hnotj : forall k p n, dget (outstanding s') k = Some (n, p) -> n <> oid).
  { intros k p n [Hk Hv]%Hjobs ->. apply Hk. by eapply (i_one_job _ _ H). }
  constructor.
  - intros b. rewrite C6. apply (i_owners _ _ H).
  - rewrite C2. apply (i_extent_keys _ _ H).
  - rewrite C1. apply (i_spare_keys _ _ H).
  - rewrite C8. destruct next; [apply NoDup_dkeys_dset, (i_op_keys _ _ H)|apply NoDup_dkeys_ddel, (i_op_keys _ _ H)].
  - rewrite C7. apply NoDup_dkeys_ddel, (i_job_keys _ _ H).
  - rewrite C5. apply (i_sequence _ _ H).
  - intros k o' Hk. destruct (decide (k = oid)) as [->|Hne].
    + rewrite Hself in Hk. destruct (C10 o' Hk) as (E1 & _ & _ & E2 & E3 & E4 & Hsh & Hp). destruct (i_ops _ _ H _ _ Ho) as [A1 A2 A3 A4 A5 A6].
      constructor; [congruence|by rewrite C5|by rewrite E1|done|rewrite E3, E4; auto|]. intros it Hit. rewrite E1 in Hit. destruct (A6 it Hit) as (x & Hx & Hs1 & Hs2 & Hph).
      assert (Hx' : is_Some (dget (extents s') (extent_id it))) by (eapply is_Some_keys; [exact C2|by eexists]). destruct Hx' as [x' Hx'].
      destruct (C4 _ _ Hx') as (x0 & Hx0 & T1 & T2). rewrite Hx in Hx0. injection Hx0 as <-. exists x'. split_and!; [done|congruence|congruence|].
      intros Hin. destruct (Hp Hin) as [Ee Hin']. rewrite Ee in Hx'. rewrite Hx in Hx'. injection Hx' as <-. auto.
    + rewrite Hother in Hk by done. destruct (i_ops _ _ H _ _ Hk) as [A1 A2 A3 A4 A5 A6]. constructor; [done|by rewrite C5|done|done|auto|].
      intros it Hit. destruct (A6 it Hit) as (x & Hx & Hr). exists x. split; [|done]. rewrite C3; [done|]. eapply ops_apart; [done|exact Ho|exact Hk|done|].
      by apply list_elem_of_fmap_2.
  - intros e. pose proof (total_pos (fun o => occ e (op_extents o)) _ _ _ Ho) as Hp. cbn beta in Hp. rewrite C8, C9. pose proof (i_active _ _ H e) as Ha. destruct next as [o'|].
    + rewrite <- Ha. pose proof (total_dset (fun o => occ e (op_extents o)) _ _ _ o' Ho) as Ht. cbn beta in Ht. destruct (C10 o' eq_refl) as (E1 & _).
      assert (E : op_extents o' = op_extents o) by (unfold op_extents; by rewrite E1). rewrite E in Ht. lia.
    + pose proof (total_ddel (fun o => occ e (op_extents o)) _ _ _ Ho) as Ht. cbn beta in Ht. rewrite Ha in Ht. pose proof (occ_elem e (op_extents o)) as He.
      pose proof (proj2 (occ_NoDup _) (op_extents_NoDup _ _ _ _ H Ho) e) as H1.
      destruct (decide (e ∈ active_extents s)) as [Hin|Hin].
      * destruct (decide (e ∈ op_extents o)) as [Hin'|Hin'].
        -- rewrite decide_False by (rewrite elem_of_difference, elem_of_list_to_set; tauto). apply He in Hin'. lia.
        -- rewrite decide_True by (rewrite elem_of_difference, elem_of_list_to_set; tauto). assert (occ e (op_extents o) = 0%nat) by (destruct (occ e (op_extents o)) eqn:E; [done|exfalso; apply Hin', He; lia]). lia.
      * rewrite decide_False by (rewrite elem_of_difference; tauto). lia.
  - intros id x' Hx'. destruct (C4 id x' Hx') as (x & Hx & -> & ->). destruct (i_extents _ _ H id x Hx) as [Ha Hp]. auto.
  - intros k n p Hk. pose proof (Hnotj _ _ _ Hk) as Hne. apply Hjobs in Hk as [_ Hk]. destruct (i_jobs _ _ H k n p Hk) as (o' & i & Ho' & Hr). exists o', i. split; [|done]. by apply Hother.
  - intros k o' Hk Hs. destruct (decide (k = oid)) as [->|Hne].
    + rewrite Hself in Hk. destruct (C10 o' Hk) as (_ & E & _). congruence.
    + rewrite Hother in Hk by done. destruct (i_job _ _ H k o' Hk Hs) as [i Hi]. exists i. apply Hjobs. split; [|done]. intros ->. rewrite Hj in Hi. by injection Hi.
  - intros k k' n p p' [_ Hk]%Hjobs [_ Hk']%Hjobs. by eapply (i_one_job _ _ H).
Qed.

(** ** Ending an operation or continuing with an erase *)

(** What neither changes. *)
Record same_core (t t' : driver) : Prop := {
  sc_spares : free_spares t' = free_spares t;
  sc_extents : extents t' = extents t;
  sc_quarantine : quarantined_blocks t' = quarantined_blocks t;
  sc_jobs : outstanding t' = outstanding t;
  sc_sequence : sequence t' = sequence t;
  sc_ages : ages t' = ages t }.

Lemma ddel_dset {K V} `{EqDecision K} (d : dict K V) k v : is_Some (dget d k) -> ddel (dset d k v) k = ddel d k.
Proof. induction d as [|[k0 v0] d IH]; [by intros [? ?]|]. cbn. case_decide as E; cbn; [by rewrite decide_True|]. rewrite decide_False by done. intros Hv. by rewrite IH. Qed.
Lemma dupd_Some {K V} `{EqDecision K} (d : dict K V) k v f : dget d k = Some v -> dupd d k f = dset d k (f v).
Proof. unfold dupd. by intros ->. Qed.

Lemma terminal_ok F0 oid at_ns st o t : dget (operations t) oid = Some o -> operation_id o = oid ->
  wp F0 (_terminal oid at_ns st) (fun _ t' => same_core t t' /\ operations t' = ddel (operations t) oid /\
    active_extents t' = active_extents t ∖ list_to_set (op_extents o)) t.
Proof.
  intros Ho Hid. unfold _terminal. wp_steps. cbn [operations upd_operation set_operations]. rewrite (dupd_Some _ _ _ _ Ho).
  eapply wp_lift; [unfold dindex; by rewrite dget_dset_eq|]. wp_steps. split_and!; [done| |done]. cbn. rewrite (dupd_Some _ _ _ _ Ho), Hid. apply ddel_dset. by eexists.
Qed.

Definition next_erase (e : erase) (q : list erase) (o : operation) : operation :=
  set_submitted false (set_phase (if old_blocks e then EraseOld else EraseCleanup) (set_erases q (Some e) o)).

(** The value of an operation after its phase, and the state that goes with it. *)
Record moves_on (oid : string) (o : operation) (t t' : driver) (next : option operation) : Prop := {
  mv_core : same_core t t';
  mv_next : next = match erase_queue o with e :: q => Some (next_erase e q o) | [] => None end;
  mv_ops : operations t' = match next with None => ddel (operations t) oid | Some o' => dset (operations t) oid o' end;
  mv_active : active_extents t' = match next with None => active_extents t ∖ list_to_set (op_extents o) | Some _ => active_extents t end }.

Lemma next_ok F0 oid at_ns o t : dget (operations t) oid = Some o -> operation_id o = oid ->
  wp F0 (_next_erase_or_terminal oid at_ns) (fun _ t' => exists next, moves_on oid o t t' next) t.
Proof.
  intros Ho Hid. unfold _next_erase_or_terminal. wp_steps. eapply wp_lift; [unfold dindex; by rewrite Ho|]. destruct (erase_queue o) as [|e q] eqn:Eq.
  - eapply wp_mono; [by apply (terminal_ok _ _ _ _ o)|]. intros _ t' (Hc & E1 & E2). exists None. constructor; [done|by rewrite Eq|done|done].
  - wp_step. exists (Some (next_erase e q o)). constructor; [done|by rewrite Eq| |done]. cbn. by rewrite (dupd_Some _ _ _ _ Ho).
Qed.

(** ** Blocks freed and quarantined *)

Lemma free_blocks_ok {A} F0 key (g : A -> string) l t pool : dget (free_spares t) key = Some pool ->
  wp F0 (forM l (fun x => modify (free_block key (g x)))) (fun _ t' => t' = set_spares (dset (free_spares t) key (pool ++ (g <$> l))) t) t.
Proof.
  intros Hp. apply (wp_forM (fun done_ t' => t' = set_spares (dset (free_spares t) key (pool ++ (g <$> done_))) t)).
  - cbn. rewrite app_nil_r, dset_same by done. by destruct t.
  - intros done_ x todo t' _ ->. wp_step. unfold free_block. cbn [free_spares set_spares]. erewrite dupd_Some by apply dget_dset_eq.
    unfold set_spares. cbn. f_equal. by rewrite dset_dset, fmap_app, app_assoc.
Qed.

Lemma set_wear_wear d d' t : set_wear d (set_wear d' t) = set_wear d t.
Proof. done. Qed.

Lemma wear_ok {A} F0 (g : A -> string) f l t : wp F0 (forM l (fun x => modify (upd_wear (g x) f))) (fun _ t' => exists w, t' = set_wear w t) t.
Proof.
  apply (wp_forM (fun _ t' => exists w, t' = set_wear w t)).
  - exists (physical_wear t). by destruct t.
  - intros done_ x todo t' _ [w ->]. wp_step. by eexists.
Qed.

(** An erase returns its blocks to the pool, or quarantines them when it fails. *)
Lemma erase_blocks_ok F0 key failed l t pool : dget (free_spares t) key = Some pool ->
  wp F0 (forM l (erase_block key failed)) (fun _ t' => exists w,
    t' = set_wear w (if failed then foldl (fun t b => quarantine b t) t l else set_spares (dset (free_spares t) key (pool ++ l)) t)) t.
Proof.
  intros Hp. apply (wp_forM (fun done_ t' => exists w,
    t' = set_wear w (if failed then foldl (fun t b => quarantine b t) t done_ else set_spares (dset (free_spares t) key (pool ++ done_)) t))).
  - exists (physical_wear t). destruct failed; cbn; [by destruct t|]. rewrite app_nil_r, dset_same by done. by destruct t.
  - intros done_ b todo t' _ [w ->]. unfold erase_block. wp_steps. destruct failed; wp_step.
    + rewrite foldl_app. cbn [foldl]. by eexists.
    + unfold free_block. cbn [free_spares set_spares upd_wear set_wear]. erewrite dupd_Some by apply dget_dset_eq. rewrite dset_dset, <- app_assoc. by eexists.
Qed.

Lemma quarantine_all_spec l t : let t' := foldl (fun t b => quarantine b t) t l in
  quarantined_blocks t' = list_to_set l ∪ quarantined_blocks t /\ set_wear (physical_wear t) t' = t' /\ free_spares t' = free_spares t /\ extents t' = extents t /\
  operations t' = operations t /\ outstanding t' = outstanding t /\ active_extents t' = active_extents t /\ sequence t' = sequence t /\ ages t' = ages t.
Proof.
  revert t. induction l as [|b l IH]; intros t; cbn [foldl]; [split_and!; [set_solver|by destruct t|done..]|].
  destruct (IH (quarantine b t)) as (A1 & A2 & A3 & A4 & A5 & A6 & A7 & A8 & A9). cbn zeta. rewrite A1, A3, A4, A5, A6, A7, A8, A9. split_and!; [set_solver|exact A2|done..].
Qed.

(** ** Completions of reads *)

(** The state when the work of a completion starts. *)
Record entry (s : driver) (j oid : string) (o : operation) (t : driver) : Prop := {
  en_spares : free_spares t = free_spares s;
  en_extents : extents t = extents s;
  en_quarantine : quarantined_blocks t = quarantined_blocks s;
  en_sequence : sequence t = sequence s;
  en_ages : ages t = ages s;
  en_active : active_extents t = active_extents s;
  en_jobs : outstanding t = ddel (outstanding s) j;
  en_ops : operations t = dset (operations s) oid (set_submitted false o) }.

Lemma held_after s oid o next (t' : driver) b : dget (operations s) oid = Some o ->
  operations t' = match next with None => ddel (operations s) oid | Some o' => dset (operations s) oid o' end ->
  (held_at t' b + occ b (held_blocks o) = match next with None => 0 | Some o' => occ b (held_blocks o') end + held_at s b)%nat.
Proof.
  intros Ho E. unfold held_at. rewrite E. destruct next as [o'|].
  - pose proof (total_dset (fun o => occ b (held_blocks o)) _ _ _ o' Ho) as Ht. cbn beta in Ht. lia.
  - pose proof (total_ddel (fun o => occ b (held_blocks o)) _ _ _ Ho) as Ht. cbn beta in Ht. lia.
Qed.

Lemma free_dset s key pool l b : dget (free_spares s) key = Some pool -> (total (occ b) (dset (free_spares s) key (pool ++ l)) = free_at s b + occ b l)%nat.
Proof. intros Hp. pose proof (total_dset (occ b) _ _ _ (pool ++ l) Hp) as Ht. rewrite occ_app in Ht. unfold free_at. lia. Qed.

Lemma channel_refl (d d' : dict string extent) id x' : d' = d -> dget d' id = Some x' -> exists x, dget d id = Some x /\ stack x' = stack x /\ channel x' = channel x.
Proof. intros ->. eauto. Qed.

Lemma entry_update s j oid o t f : entry s j oid o t -> upd_operation oid f t = set_operations (dset (operations s) oid (f (set_submitted false o))) t.
Proof. intros E. unfold upd_operation. by rewrite (en_ops _ _ _ _ _ E), (dupd_Some _ _ _ _ (dget_dset_eq _ _ _)), dset_dset. Qed.

Lemma complete_read_ok F0 cfg s j oid o at_ns failed t : inv cfg s -> dget (operations s) oid = Some o -> o_phase o = RefreshRead -> entry s j oid o t ->
  wp F0 (complete_read oid at_ns failed) (fun _ t' => exists next, completes cfg s j oid o next t') t.
Proof.
  intros H Ho Hph He. assert (Hu := fun f => entry_update s j oid o t f He). destruct He as [E1 E2 E3 E4 E5 E6 E7 E8]. destruct (i_ops _ _ H _ _ Ho) as [A1 _ _ A4 [pool Hpool] _]. unfold complete_read. destruct failed.
  - wp_steps. rewrite Hu. cbn [operations set_operations].
    eapply wp_lift; [unfold dindex; by rewrite dget_dset_eq|]. wp_step. cbn [items o_stack o_channel add_failure set_submitted].
    eapply wp_mono; [apply free_blocks_ok with (pool := pool); cbn; by rewrite E1|]. intros [] t1 ->. cbn [free_spares set_operations].
    eapply wp_mono; [apply (terminal_ok _ _ _ _ (add_failure "refresh_read" (set_submitted false o))); [apply dget_dset_eq|done]|].
    intros [] t' ([C1 C2 C3 C4 C5 C6] & C7 & C8). cbn in C1, C2, C3, C4, C5, C6, C8. cbn [operations set_spares set_operations] in C7. rewrite ddel_dset in C7 by (by eexists). exists None. constructor.
    + rewrite C1, E1. apply dkeys_dset_in, dget_is_Some. by eexists.
    + by rewrite C2, E2.
    + intros id _. by rewrite C2, E2.
    + intros id x'. apply channel_refl. by rewrite C2, E2.
    + by rewrite C5, E4.
    + intros b. pose proof (held_after s oid o None t' b Ho C7) as Hh. cbn in Hh. unfold owners, mapped_at, free_at, quarantined_at. rewrite C1, C2, C3, E1, E2, E3.
      change (destination_block_id <$> items o) with (destinations o). rewrite (free_dset s _ _ _ b Hpool).
      assert (Eh : held_blocks o = destinations o) by (unfold held_blocks; by rewrite Hph). rewrite Eh in Hh. unfold free_at. lia.
    + by rewrite C4, E7.
    + done.
    + by rewrite C8, E6.
    + done.
    + intros id. by rewrite C6, E5.
  - wp_step. rewrite Hu.
    set (o' := set_phase Program (set_submitted false o)). set (t' := set_operations _ t). exists (Some o').
    assert (Eh : held_blocks o' = held_blocks o) by (unfold held_blocks, destinations; cbn; by rewrite Hph).
    constructor; [by cbn; rewrite E1|by cbn; rewrite E2|by cbn; rewrite E2| |done| |done|done|done| |by cbn; rewrite E5].
    + intros id x'. by apply channel_refl.
    + intros b. pose proof (held_after s oid o (Some o') t' b Ho eq_refl) as Hh. cbn beta iota in Hh. rewrite Eh in Hh. unfold owners.
      change (mapped_at t' b) with (mapped_at t b). change (free_at t' b) with (free_at t b). change (quarantined_at t' b) with (quarantined_at t b).
      unfold mapped_at, free_at, quarantined_at. rewrite E1, E2, E3. lia.
    + intros o1 [= <-]. unfold shape, rank in *. rewrite Hph in *. destruct A4. cbn. split_and!; [done|done|lia|done..|]. by intros _.
Qed.

(** ** The end of a phase *)

Definition queued (o : operation) : list string := concat (block_ids <$> erase_queue o).

(** The state before the next erase is taken: the blocks that the operation gave up
    have their new owners, and what it still has to erase is in its queue. *)
Record settled (cfg : settings) (s : driver) (j oid : string) (o : operation) (o2 : operation) (t : driver) : Prop := {
  st_keys : dkeys (free_spares t) = dkeys (free_spares s);
  st_ekeys : dkeys (extents t) = dkeys (extents s);
  st_extents : forall id, id ∉ op_extents o -> dget (extents t) id = dget (extents s) id;
  st_channel : forall id x', dget (extents t) id = Some x' -> exists x, dget (extents s) id = Some x /\ stack x' = stack x /\ channel x' = channel x;
  st_sequence : sequence t = sequence s;
  st_blocks : forall b, (mapped_at t b + free_at t b + quarantined_at t b + occ b (queued o2) =
                         mapped_at s b + free_at s b + quarantined_at s b + occ b (held_blocks o))%nat;
  st_jobs : outstanding t = ddel (outstanding s) j;
  st_ops : operations t = dset (operations s) oid o2;
  st_active : active_extents t = active_extents s;
  st_same : items o2 = items o /\ operation_id o2 = operation_id o /\ o_stack o2 = o_stack o /\ o_channel o2 = o_channel o;
  st_queue : forall e q, erase_queue o2 = e :: q -> (rank (next_erase e q o2) < rank o)%nat /\
               if old_blocks e then Forall (fun c => old_blocks c = false) q /\ (length q <= 1)%nat else q = [];
  st_ages : forall id, ReliabilityLedger.frontier (age_settings cfg) (ages t) id = ReliabilityLedger.frontier (age_settings cfg) (ages s) id }.

Lemma settled_ok F0 cfg s j oid o o2 at_ns t : inv cfg s -> dget (operations s) oid = Some o -> settled cfg s j oid o o2 t ->
  wp F0 (_next_erase_or_terminal oid at_ns) (fun _ t' => (exists next, completes cfg s j oid o next t') /\ extents t' = extents t /\ ages t' = ages t) t.
Proof.
  intros H Ho [S1 S2 S3 S4 S5 S6 S7 S8 S9 (I1 & I2 & I3 & I4) S11 S12]. assert (Hid := ok_id _ _ _ _ _ (i_ops _ _ H _ _ Ho)).
  eapply wp_mono; [apply (next_ok _ _ _ o2); [by rewrite S8, dget_dset_eq|congruence]|]. intros [] t' (next & [[C1 C2 C3 C4 C5 C6] Hnext Hops Hact]).
  assert (Hx : op_extents o2 = op_extents o) by (unfold op_extents; by rewrite I1).
  assert (Hops' : operations t' = match next with None => ddel (operations s) oid | Some o' => dset (operations s) oid o' end).
  { rewrite Hops, S8. destruct next; [apply dset_dset|apply ddel_dset; by eexists]. }
  split; [|done]. exists next. constructor.
  - by rewrite C1.
  - by rewrite C2.
  - intros id Hid'. rewrite C2. by apply S3.
  - intros id x' Hx'. rewrite C2 in Hx'. by apply S4.
  - by rewrite C5.
  - intros b. pose proof (held_after s oid o next t' b Ho Hops') as Hh. specialize (S6 b). unfold owners.
    assert (E1 : mapped_at t' b = mapped_at t b) by (unfold mapped_at; by rewrite C2). assert (E2 : free_at t' b = free_at t b) by (unfold free_at; by rewrite C1).
    assert (E3 : quarantined_at t' b = quarantined_at t b) by (unfold quarantined_at; by rewrite C3).
    assert (E4 : match next with None => 0%nat | Some o' => occ b (held_blocks o') end = occ b (queued o2)).
    { rewrite Hnext. unfold queued. destruct (erase_queue o2) as [|e q]; [done|]. unfold held_blocks, next_erase. cbn. by destruct (old_blocks e). }
    lia.
  - by rewrite C4.
  - done.
  - rewrite Hact, S9, Hx. by destruct next.
  - intros o' ->. destruct (erase_queue o2) as [|e q] eqn:Eq; [done|]. injection Hnext as ->. destruct (S11 e q eq_refl) as [Hr Hq].
    split_and!; [done..| |]; unfold shape, next_erase in *; cbn in *; destruct (old_blocks e) eqn:Eo; [by exists e|exists e; by subst q|done..].
  - intros id. rewrite C6. apply S12.
Qed.

Lemma quarantined_union t t' l b : quarantined_blocks t' = list_to_set l ∪ quarantined_blocks t -> (occ b l <= 1)%nat -> (0 < occ b l -> quarantined_at t b = 0)%nat ->
  quarantined_at t' b = (occ b l + quarantined_at t b)%nat.
Proof.
  intros E Hle Hz. unfold quarantined_at in *. rewrite E. pose proof (occ_elem b l) as He. destruct (decide (b ∈ l)) as [Hin|Hin].
  - rewrite decide_True by (apply elem_of_union; left; by apply elem_of_list_to_set). apply He in Hin. specialize (Hz Hin). lia.
  - assert (occ b l = 0%nat) as -> by (destruct (occ b l) eqn:Eo; [done|exfalso; apply Hin, He; lia]). cbn. apply decide_ext.
    rewrite elem_of_union, elem_of_list_to_set. tauto.
Qed.

Lemma complete_erase_ok F0 cfg s j oid o at_ns failed t : inv cfg s -> dget (operations s) oid = Some o -> is_erase (o_phase o) = true -> entry s j oid o t ->
  wp F0 (complete_erase oid (o_phase o) at_ns failed) (fun _ t' => exists next, completes cfg s j oid o next t') t.
Proof.
  intros H Ho Hph He. destruct He as [E1 E2 E3 E4 E5 E6 E7 E8]. destruct (i_ops _ _ H _ _ Ho) as [A1 _ _ A4 [pool Hpool] _].
  assert (Hcur : exists e, current_erase o = Some e /\ held_blocks o = block_ids e ++ queued o /\
    forall e' q, erase_queue o = e' :: q -> old_blocks e' = false /\ q = [] /\ o_phase o = EraseOld).
  { unfold shape, is_erase, held_blocks, erasing in *. destruct (o_phase o); try done; destruct A4 as (e & -> & Hold & Hq); exists e; (split_and!; [done|done|]).
    - destruct Hq as [Hf Hl]. intros e' q Eq. rewrite Eq in *. apply Forall_cons in Hf as [? _]. destruct q; [done|cbn in Hl; lia].
    - intros e' q Eq. by rewrite Eq in Hq. }
  destruct Hcur as (e & Hcur & Hheld & Hqueue).
  unfold complete_erase. wp_steps. eapply wp_lift; [unfold dindex; by rewrite E8, dget_dset_eq|]. wp_step.
  eapply wp_lift; [cbn [current_erase set_submitted]; by rewrite Hcur|]. wp_step. cbn [o_stack o_channel set_submitted].
  eapply wp_mono; [apply erase_blocks_ok with (pool := pool); by rewrite E1|]. intros [] t1 [w ->].
  set (base := if failed then foldl (fun t b => quarantine b t) t (block_ids e) else set_spares (dset (free_spares t) (o_stack o, o_channel o) (pool ++ block_ids e)) t).
  assert (Hbase : extents base = extents s /\ operations base = dset (operations s) oid (set_submitted false o) /\ outstanding base = ddel (outstanding s) j /\
    active_extents base = active_extents s /\ sequence base = sequence s /\ ages base = ages s /\ dkeys (free_spares base) = dkeys (free_spares s) /\
    forall b, (free_at base b + quarantined_at base b = free_at s b + quarantined_at s b + occ b (block_ids e))%nat).
  { unfold base. destruct failed.
    - destruct (quarantine_all_spec (block_ids e) t) as (B1 & _ & B3 & B4 & B5 & B6 & B7 & B8 & B9). set (u := foldl _ _ _) in *.
      rewrite B3, B4, B5, B6, B7, B8, B9. split_and!; try done; [by rewrite E1|]. intros b.
      pose proof (i_owners _ _ H b) as Hle. unfold owners in Hle. pose proof (total_pos (fun o => occ b (held_blocks o)) _ _ _ Ho) as Hp. cbn beta in Hp.
      change (occ b (held_blocks o) <= held_at s b)%nat in Hp. rewrite Hheld, occ_app in Hp.
      rewrite (quarantined_union t u (block_ids e) b B1); [|lia|].
      + unfold free_at, quarantined_at. rewrite B3, E1, E3. lia.
      + intros Hpos. unfold quarantined_at in *. rewrite E3. destruct (decide (b ∈ quarantined_blocks s)); [lia|done].
    - cbn [extents operations outstanding active_extents sequence ages free_spares set_spares]. rewrite E1. split_and!; try done.
      + apply dkeys_dset_in, dget_is_Some. by eexists.
      + intros b. unfold free_at at 1. cbn [free_spares set_spares]. rewrite (free_dset s _ _ _ b Hpool). unfold quarantined_at. cbn [quarantined_blocks set_spares]. rewrite E3. lia. }
  clearbody base. destruct Hbase as (B1 & B2 & B3 & B4 & B5 & B6 & B7 & B8). wp_step.
  assert (Hrest : forall o1, items o1 = items o -> operation_id o1 = operation_id o -> o_stack o1 = o_stack o -> o_channel o1 = o_channel o -> erase_queue o1 = erase_queue o ->
    wp F0 (let! _ := modify (upd_operation oid (fun o => set_erases (erase_queue o) None o)) in _next_erase_or_terminal oid at_ns)
      (fun _ t' => exists next, completes cfg s j oid o next t') (set_operations (dset (operations s) oid o1) (set_wear w base))).
  { intros o1 I1 I2 I3 I4 I5. wp_steps. unfold upd_operation. cbn [operations set_operations]. rewrite (dupd_Some _ _ _ _ (dget_dset_eq _ _ _)), dset_dset.
    set (o2 := set_erases (erase_queue o1) None o1). match goal with |- wp _ _ _ ?u => set (t2 := u) end.
    eapply wp_mono; [apply (settled_ok _ cfg s j oid o o2); [done|done|]|by intros [] ? [? _]]. constructor; [exact B7| | | |exact B5| |exact B3|done|exact B4|done| |].
    - change (dkeys (extents base) = dkeys (extents s)). by rewrite B1.
    - intros id _. change (dget (extents base) id = dget (extents s) id). by rewrite B1.
    - intros id x'. by apply channel_refl.
    - intros b. specialize (B8 b). rewrite Hheld, occ_app. assert (Eq : queued o2 = queued o) by (unfold queued, o2; cbn; by rewrite I5).
      assert (Em : mapped_at t2 b = mapped_at s b) by (unfold mapped_at; change (extents t2) with (extents base); by rewrite B1).
      rewrite Eq, Em. change (free_at t2 b) with (free_at base b). change (quarantined_at t2 b) with (quarantined_at base b). lia.
    - intros e' q Eq. unfold o2 in Eq. cbn in Eq. rewrite I5 in Eq. destruct (Hqueue e' q Eq) as (Hold & -> & Hp). unfold rank. rewrite Hp. cbn. rewrite Hold. split; [cbn; lia|done].
    - intros id. change (ages t2) with (ages base). by rewrite B6. }
  destruct failed.
  - wp_steps. unfold upd_operation at 2. cbn [operations set_wear]. rewrite B2, (dupd_Some _ _ _ _ (dget_dset_eq _ _ _)), dset_dset. by apply Hrest.
  - wp_step. assert (Es : set_wear w base = set_operations (dset (operations s) oid (set_submitted false o)) (set_wear w base)) by (rewrite <- B2; by destruct base).
    rewrite Es. by apply Hrest.
Qed.

(** ** Completions of programs *)

Definition commits (x : extent) (it : item) : bool := (version x =? expected_version it) && negb (version x =? VERSION_MAX).

(** The operation while its items are committed: only its reports change. *)
Definition same_work (o o' : operation) : Prop :=
  items o' = items o /\ operation_id o' = operation_id o /\ o_stack o' = o_stack o /\ o_channel o' = o_channel o /\ erase_queue o' = erase_queue o /\
  o_phase o' = o_phase o.

(** An extent after the commit of its item, and the age of a committed one. *)
Definition committed_as (cfg : settings) (at_ns : Z) (s t : driver) (it : item) : Prop :=
  exists x, dget (extents s) (extent_id it) = Some x /\
    if commits x it then
      dget (extents t) (extent_id it) = Some (relocate (destination_block_id it) x) /\
      exists b, dget (ReliabilityLedger.blocks (ages t)) (extent_id it) = Some b /\ ReliabilityLedger.equivalent_age_ns b = float_zero /\
        ReliabilityLedger.last_refresh_commit_ns b = Some at_ns /\ ReliabilityLedger.next_wall_due_ns b = at_ns + ReliabilityLedger.period_ns (age_settings cfg)
    else dget (extents t) (extent_id it) = Some x.

Record committing (cfg : settings) (at_ns : Z) (oid : string) (o : operation) (u : driver) (seen : list item)
    (old cleanup : list string) (t : driver) : Prop := {
  cm_spares : free_spares t = free_spares u;
  cm_quarantine : quarantined_blocks t = quarantined_blocks u;
  cm_jobs : outstanding t = outstanding u;
  cm_sequence : sequence t = sequence u;
  cm_active : active_extents t = active_extents u;
  cm_ops : exists o', same_work o o' /\ operations t = dset (operations u) oid o';
  cm_ekeys : dkeys (extents t) = dkeys (extents u);
  cm_extents : forall id, id ∉ extent_id <$> seen -> dget (extents t) id = dget (extents u) id;
  cm_channel : forall id x', dget (extents t) id = Some x' -> exists x, dget (extents u) id = Some x /\ stack x' = stack x /\ channel x' = channel x;
  cm_blocks : forall b, (mapped_at t b + occ b old + occ b cleanup = mapped_at u b + occ b (destination_block_id <$> seen))%nat;
  cm_some : (length old + length cleanup = length seen)%nat;
  cm_ages : forall id, ReliabilityLedger.frontier (age_settings cfg) (ages t) id = ReliabilityLedger.frontier (age_settings cfg) (ages u) id;
  cm_items : forall it, it ∈ seen -> committed_as cfg at_ns u t it }.

Lemma committing_step cfg at_ns oid o s u seen it todo old oe cl ce t : inv cfg s -> dget (operations s) oid = Some o -> extents u = extents s -> in_place (o_phase o) = true ->
  items o = seen ++ it :: todo -> committing cfg at_ns oid o u seen old cl t ->
  wp (fun _ _ => ~ (forall it, it ∈ items o -> aligned cfg at_ns u (extent_id it))) (commit_item cfg oid at_ns (old, oe, (cl, ce)) it)
    (fun acc t' => committing cfg at_ns oid o u (seen ++ [it]) acc.1.1 acc.2.1 t') t.
Proof.
  intros H Ho Hu Hph Hits [C1 C2 C3 C4 C5 (o' & Ho' & C6) C7 C8 C9 C10 C11 C12 C13]. destruct (ok_extents _ _ _ _ _ (i_ops _ _ H _ _ Ho) it) as (x & Hx & _ & _ & Hsrc).
  { rewrite Hits. apply elem_of_app. right. apply elem_of_cons. by left. }
  specialize (Hsrc Hph). pose proof (op_extents_NoDup _ _ _ _ H Ho) as Hn. unfold op_extents in Hn. rewrite Hits, fmap_app, fmap_cons in Hn.
  apply NoDup_app in Hn as (_ & Hnew & _). assert (Hid : extent_id it ∉ extent_id <$> seen) by (intros Hin; apply (Hnew _ Hin); apply elem_of_cons; by left). clear Hnew.
  assert (Hxt : dget (extents t) (extent_id it) = Some x) by (by rewrite C8, Hu).
  assert (Hupd : forall f, upd_operation oid f t = set_operations (dset (operations u) oid (f o')) t).
  { intros f. unfold upd_operation. by rewrite C6, (dupd_Some _ _ _ _ (dget_dset_eq _ _ _)), dset_dset. }
  assert (Hseen : forall i, i ∈ seen -> extent_id i <> extent_id it) by (intros i Hi E; apply Hid; rewrite <- E; by apply list_elem_of_fmap_2).
  unfold commit_item. wp_steps. eapply wp_lift; [unfold dindex; by rewrite Hxt|].
  assert (Hcond : negb (version x =? expected_version it) || (version x =? VERSION_MAX) = negb (commits x it)).
  { unfold commits. by destruct (version x =? expected_version it), (version x =? VERSION_MAX). }
  rewrite Hcond. destruct (commits x it) eqn:Ec; cbn [negb].
  - wp_steps. assert (Hux : upd_extent (extent_id it) (relocate (destination_block_id it)) t = set_extents (dset (extents t) (extent_id it) (relocate (destination_block_id it) x)) t)
      by (unfold upd_extent; by rewrite (dupd_Some _ _ _ _ Hxt)).
    rewrite Hux. unfold upd_operation. change (operations (set_extents _ t)) with (operations t). rewrite C6, (dupd_Some _ _ _ _ (dget_dset_eq _ _ _)), dset_dset.
    match goal with |- wp _ _ _ ?v => set (t1 := v) end.
    apply (on_ages_ok (fun _ _ => ~ (ReliabilityLedger.accountable (age_settings cfg) (extent_id it) /\ ReliabilityLedger.frontier (age_settings cfg) (ages t1) (extent_id it) = at_ns))).
    { intros _ _ Hbad Hall. apply Hbad. split; [by apply (i_extents _ _ H _ x)|]. change (ages t1) with (ages t). rewrite C12. apply Hall. rewrite Hits.
      apply elem_of_app. right. apply elem_of_cons. by left. }
    eapply wp_mono; [apply ReliabilityLedger.refresh_ok|]. intros [] l (L1 & _ & L3 & L4 & L5). change (ages t1) with (ages t) in L1, L3, L4. wp_step. cbn [fst snd]. constructor.
    + exact C1.
    + exact C2.
    + exact C3.
    + exact C4.
    + exact C5.
    + exists (add_committed (extent_id it) o'). split; [exact Ho'|done].
    + etrans; [|exact C7]. cbn. apply dkeys_dset_in, dget_is_Some. by eexists.
    + intros id Hin. rewrite fmap_app in Hin. cbn. rewrite dget_dset_ne; [apply C8; intros ?; apply Hin, elem_of_app; by left|].
      intros <-. apply Hin, elem_of_app. right. by apply list_elem_of_singleton.
    + intros id x' Hx'. cbn in Hx'. apply dset_cases in Hx' as [[-> ->]|[_ Hx']]; [|by apply C9]. exists x. by rewrite Hu.
    + intros b. specialize (C10 b). pose proof (total_dset (fun x => occ b [physical_block_id x]) _ _ _ (relocate (destination_block_id it) x) Hxt) as Ht. cbn beta in Ht.
      cbn [physical_block_id relocate] in Ht. rewrite Hsrc in Ht. rewrite fmap_app, !occ_app. cbn [fmap list_fmap].
      change (mapped_at (with_ages l t1) b) with (total (fun x => occ b [physical_block_id x]) (dset (extents t) (extent_id it) (relocate (destination_block_id it) x))).
      unfold mapped_at in C10 at 1. lia.
    + rewrite !length_app. cbn. lia.
    + intros id. cbn [ages with_ages]. rewrite L1. apply C12.
    + intros i [Hi|Hi]%elem_of_app.
      * destruct (C13 i Hi) as (y & Hy & Hr). exists y. split; [done|]. assert (Hget : dget (extents (with_ages l t1)) (extent_id i) = dget (extents t) (extent_id i)).
        { cbn. apply dget_dset_ne. intros E. by apply (Hseen i Hi). }
        rewrite Hget. destruct (commits y i); [|done]. destruct Hr as (Hr & b & Hb & Hb'). split; [done|]. exists b. split; [|done]. cbn [ages with_ages]. apply L4; [by apply Hseen|done].
      * apply list_elem_of_singleton in Hi as ->. exists x. split; [by rewrite Hu|]. rewrite Ec. split; [cbn; apply dget_dset_eq|]. exact L5.
  - set (t1 := upd_operation oid (add_conflicted (extent_id it)) t).
    assert (Hgoal : forall o2, same_work o o2 -> committing cfg at_ns oid o u (seen ++ [it]) old (cl ++ [destination_block_id it]) (set_operations (dset (operations u) oid o2) t)).
    { intros o2 Ho2. constructor; [exact C1|exact C2|exact C3|exact C4|exact C5|by exists o2|exact C7| |exact C9| | |exact C12|].
      - intros id Hin. rewrite fmap_app in Hin. apply C8. intros ?. apply Hin, elem_of_app. by left.
      - intros b. specialize (C10 b). rewrite fmap_app, !occ_app. cbn [fmap list_fmap]. change (mapped_at (set_operations _ t) b) with (mapped_at t b). lia.
      - rewrite !length_app. cbn. lia.
      - intros i [Hi|Hi]%elem_of_app; [exact (C13 i Hi)|]. apply list_elem_of_singleton in Hi as ->. exists x. split; [by rewrite Hu|]. by rewrite Ec. }
    wp_steps. rewrite Hupd. destruct (version x =? VERSION_MAX); wp_steps; cbn [fst snd].
    + unfold upd_operation. cbn [operations set_operations]. rewrite (dupd_Some _ _ _ _ (dget_dset_eq _ _ _)), dset_dset. by apply Hgoal.
    + by apply Hgoal.
Qed.

Lemma occ_queue b o q : erase_queue o = q -> occ b (queued o) = occ b (concat (block_ids <$> q)).
Proof. unfold queued. by intros ->. Qed.

(** The queue after a successful program: the old blocks, then the destinations of
    the items in conflict, each if there are any. *)
Definition erase_plan (old oe cl ce : list string) : list erase :=
  (if bool_decide (old <> []) then [{| old_blocks := true; block_ids := old; erase_extents := oe |}] else []) ++
  (if bool_decide (cl <> []) then [{| old_blocks := false; block_ids := cl; erase_extents := ce |}] else []).

Lemma occ_erase_plan b old oe cl ce : occ b (concat (block_ids <$> erase_plan old oe cl ce)) = (occ b old + occ b cl)%nat.
Proof.
  unfold erase_plan. rewrite fmap_app, concat_app, occ_app. f_equal; case_bool_decide as E; cbn; rewrite ?app_nil_r; [done| |done|].
  - by subst.
  - by subst.
Qed.

(** The two additions to the queue. *)
Definition plan_erases (oid : string) (old oe cl ce : list string) : D unit :=
  let! _ := if bool_decide (old <> []) then
              modify (upd_operation oid (add_erase {| old_blocks := true; block_ids := old; erase_extents := oe |}))
            else sret tt in
  if bool_decide (cl <> []) then
    modify (upd_operation oid (add_erase {| old_blocks := false; block_ids := cl; erase_extents := ce |}))
  else sret tt.

Lemma plan_erases_ok F0 ops oid o old oe cl ce t : operations t = dset ops oid o -> erase_queue o = [] ->
  wp F0 (plan_erases oid old oe cl ce) (fun _ t' => t' = set_operations (dset ops oid (set_erases (erase_plan old oe cl ce) (current_erase o) o)) t) t.
Proof.
  intros Ho Hq. assert (Hu : forall f u o1, operations u = dset ops oid o1 -> upd_operation oid f u = set_operations (dset ops oid (f o1)) u).
  { intros f u o1 E. unfold upd_operation. by rewrite E, (dupd_Some _ _ _ _ (dget_dset_eq _ _ _)), dset_dset. }
  assert (Hid : t = set_operations (dset ops oid o) t) by (rewrite <- Ho; by destruct t).
  unfold plan_erases, erase_plan. wp_step. case_bool_decide; wp_step; case_bool_decide; wp_step; cbn [app].
  - rewrite (Hu _ t o Ho). erewrite Hu by done. unfold add_erase. cbn [erase_queue current_erase set_erases]. rewrite Hq. done.
  - rewrite (Hu _ t o Ho). unfold add_erase. by rewrite Hq.
  - rewrite (Hu _ t o Ho). unfold add_erase. by rewrite Hq.
  - rewrite Hid at 1. do 2 f_equal. rewrite <- Hq. by destruct o.
Qed.

Lemma complete_program_ok cfg s j oid o at_ns failed t : inv cfg s -> dget (operations s) oid = Some o -> o_phase o = Program -> entry s j oid o t ->
  wp (fun _ _ => ~ (forall it, it ∈ items o -> aligned cfg at_ns s (extent_id it))) (complete_program cfg oid at_ns failed)
    (fun _ t' => (exists next, completes cfg s j oid o next t') /\ (failed = false -> forall it, it ∈ items o -> committed_as cfg at_ns s t' it)) t.
Proof.
  intros H Ho Hph [E1 E2 E3 E4 E5 E6 E7 E8]. destruct (i_ops _ _ H _ _ Ho) as [A1 _ A3 A4 _ A6].
  assert (Hq : erase_queue o = []) by (unfold shape in A4; rewrite Hph in A4; by destruct A4).
  assert (Hheld : held_blocks o = destination_block_id <$> items o) by (unfold held_blocks; by rewrite Hph).
  unfold complete_program. wp_steps. eapply wp_lift; [unfold dindex; by rewrite E8, dget_dset_eq|]. wp_step. cbn [items set_submitted].
  eapply wp_mono; [apply wear_ok|]. intros [] t0 [w ->]. set (u := set_wear w t). wp_step.
  set (o0 := set_submitted false o) in *.
  assert (Hu : forall f v o1, operations v = dset (operations s) oid o1 -> upd_operation oid f v = set_operations (dset (operations s) oid (f o1)) v).
  { intros f v o1 E. unfold upd_operation. by rewrite E, (dupd_Some _ _ _ _ (dget_dset_eq _ _ _)), dset_dset. }
  destruct failed.
  - wp_steps. rewrite (Hu _ u o0) by exact E8. erewrite Hu by done. unfold add_erase. cbn [erase_queue current_erase add_failure set_submitted o0]. rewrite Hq. cbn [app].
    set (e := {| old_blocks := false; block_ids := destination_block_id <$> items o; erase_extents := extent_id <$> items o |}).
    match goal with |- wp _ _ _ (set_operations (dset _ _ ?v) ?x) => set (o2 := v); set (t2 := set_operations (dset (operations s) oid o2) x) end.
    eapply wp_mono; [apply (settled_ok _ cfg s j oid o o2 _ t2 H Ho)|by intros [] t' [? _]].
    constructor; [| | | |exact E4| |exact E7|done|exact E6|done| |].
    + change (dkeys (free_spares t) = dkeys (free_spares s)). by rewrite E1.
    + change (dkeys (extents t) = dkeys (extents s)). by rewrite E2.
    + intros id _. change (dget (extents t) id = dget (extents s) id). by rewrite E2.
    + intros id x'. by apply channel_refl.
    + intros b. assert (Eq : occ b (queued o2) = occ b (held_blocks o)) by (rewrite Hheld; unfold queued; cbn; by rewrite app_nil_r).
      rewrite Eq. change (mapped_at t2 b) with (mapped_at t b). change (free_at t2 b) with (free_at t b). change (quarantined_at t2 b) with (quarantined_at t b).
      unfold mapped_at, free_at, quarantined_at. rewrite E1, E2, E3. lia.
    + intros e' q [= <- <-]. unfold rank at 2. rewrite Hph. split; [cbn; lia|done].
    + intros id. change (ages t2) with (ages t). by rewrite E5.
  - wp_step. eapply wp_mono; [apply (wp_foldS (fun seen acc t' => committing cfg at_ns oid o u seen acc.1.1 acc.2.1 t'))|].
    + constructor; [done|done|done|done|done| |done|done|by eauto|cbn; intros b; lia|done|done|by intros it ?%elem_of_nil].
      exists o0. split; [done|]. symmetry. apply dset_same. change (operations u) with (operations t). by rewrite E8, dget_dset_eq.
    + intros seen it todo [[old oe] [cl ce]] t' Hits Hc. pose proof (committing_step cfg at_ns oid o s u seen it todo old oe cl ce t' H Ho E2) as Hw.
      assert (Hin : in_place (o_phase o) = true) by by rewrite Hph. specialize (Hw Hin Hits Hc). unfold wp in *.
      destruct (commit_item cfg oid at_ns (old, oe, (cl, ce)) it t') as [[acc|e] t'']; [exact Hw|]. intros Hall. apply Hw. intros i Hi. change (ages u) with (ages t). rewrite E5. by apply Hall.
    + intros [[old oe] [cl ce]] t1 [C1 C2 C3 C4 C5 (o' & (I1 & I2 & I3 & I4 & I5 & I6) & C6) C7 C8 C9 C10 C11 C12 C13]. cbn [fst snd] in C10, C11.
      change (operations u) with (operations t) in C6. rewrite E8, dset_dset in C6. cbv beta iota.
      change (wp ?F (let! _ := if bool_decide (old <> []) then _ else _ in if bool_decide (cl <> []) then _ else _) ?Q t1) with (wp F (plan_erases oid old oe cl ce) Q t1).
      eapply wp_mono; [apply (plan_erases_ok _ (operations s) oid o'); [done|by rewrite I5]|]. intros [] t2 ->.
      set (o2 := set_erases (erase_plan old oe cl ce) (current_erase o') o'). set (t2 := set_operations _ t1).
      eapply wp_mono; [apply (settled_ok _ cfg s j oid o o2 _ t2 H Ho)|].
      * constructor; [| | | | | | |done| |done| |].
        -- change (free_spares t2) with (free_spares t1). rewrite C1. change (free_spares u) with (free_spares t). by rewrite E1.
        -- change (extents t2) with (extents t1). rewrite C7. change (extents u) with (extents t). by rewrite E2.
        -- intros id Hid. change (extents t2) with (extents t1). rewrite C8 by exact Hid. change (extents u) with (extents t). by rewrite E2.
        -- intros id x' Hx'. change (extents t2) with (extents t1) in Hx'. apply C9 in Hx'. change (extents u) with (extents t) in Hx'. by rewrite E2 in Hx'.
        -- etrans; [exact C4|exact E4].
        -- intros b. specialize (C10 b). change (queued o2) with (concat (block_ids <$> erase_plan old oe cl ce)). rewrite occ_erase_plan, Hheld.
           change (mapped_at t2 b) with (mapped_at t1 b). assert (F1 : free_at t2 b = free_at s b) by (unfold free_at; change (free_spares t2) with (free_spares t1); rewrite C1; change (free_spares u) with (free_spares t); by rewrite E1).
           assert (F2 : quarantined_at t2 b = quarantined_at s b) by (unfold quarantined_at; change (quarantined_blocks t2) with (quarantined_blocks t1); rewrite C2; change (quarantined_blocks u) with (quarantined_blocks t); by rewrite E3).
           assert (F3 : mapped_at u b = mapped_at s b) by (unfold mapped_at; change (extents u) with (extents t); by rewrite E2). lia.
        -- etrans; [exact C3|exact E7].
        -- etrans; [exact C5|exact E6].
        -- intros e q Eq. change (erase_queue o2) with (erase_plan old oe cl ce) in Eq. unfold erase_plan in Eq. unfold rank at 2. rewrite Hph.
           repeat case_bool_decide; cbn [app] in Eq; try done; injection Eq as <- <-; cbn; (split; [lia|]); [split; [by repeat constructor|lia]|split; [constructor|lia]|done].
        -- intros id. change (ages t2) with (ages t1). rewrite C12. change (ages u) with (ages t). by rewrite E5.
      * intros [] t' (Hc & He' & Ha'). split; [exact Hc|]. intros _ it Hit. destruct (C13 it Hit) as (x & Hx & Hr). exists x. split; [change (extents u) with (extents t) in Hx; by rewrite E2 in Hx|].
        rewrite He', Ha'. exact Hr.
Qed.

(** ** Receipts *)

(** The cost of a phase is a float that does not overflow. *)
Definition cost_ok (cfg : settings) (p : phase) (n : Z) : Prop :=
  (p = Program -> program_j_per_byte cfg <> None -> exists f, float_of_int (block_bytes cfg * n) = Ok f) /\
  (is_erase p = true -> erase_j_per_operation cfg <> None -> exists f, float_of_int n = Ok f).

Lemma cost_fact_ok cfg oid p at_ns n failed s : settings_ok cfg ->
  wp (fun _ _ => ~ cost_ok cfg p n) (_cost_fact cfg oid p at_ns n failed) (fun _ s' => exists en, s' = set_log (events s) en (results s) s) s.
Proof.
  intros Hcfg. pose proof (so_evidence _ Hcfg "program" ltac:(set_solver)) as [ev1 Hev1]. pose proof (so_evidence _ Hcfg "erase" ltac:(set_solver)) as [ev2 Hev2].
  assert (Hsame : exists en, s = set_log (events s) en (results s) s) by (exists (energy_facts s); by destruct s).
  unfold _cost_fact. case_bool_decide as Ep; [|destruct (is_erase p) eqn:Ee; [|by wp_step]]; wp_step.
  - destruct (program_j_per_byte cfg) as [f|] eqn:Ec; [destruct (float_of_int (block_bytes cfg * n)) as [q|e] eqn:Eq|].
    + eapply wp_lift; [done|]. wp_step. eapply wp_lift; [unfold dindex; by rewrite Hev1|]. wp_step. by eexists.
    + intros [H _]. destruct (H Ep) as [g Hg]; [by rewrite Ec|]. congruence.
    + eapply wp_lift; [done|]. wp_step. eapply wp_lift; [unfold dindex; by rewrite Hev1|]. wp_step. by eexists.
  - destruct (erase_j_per_operation cfg) as [f|] eqn:Ec; [destruct (float_of_int n) as [q|e] eqn:Eq|].
    + eapply wp_lift; [done|]. wp_step. eapply wp_lift; [unfold dindex; by rewrite Hev2|]. wp_step. by eexists.
    + intros [_ H]. destruct (H Ee) as [g Hg]; [by rewrite Ec|]. congruence.
    + eapply wp_lift; [done|]. wp_step. eapply wp_lift; [unfold dindex; by rewrite Hev2|]. wp_step. by eexists.
Qed.

(** A completion that the driver can take: the job has all its bytes and a time,
    and the extents of a program are accounted up to that time. *)
Definition ready (cfg : settings) (progress : dict string progress_row) (s : driver) (id : string) : Prop :=
  forall oid p o, dget (outstanding s) id = Some (oid, p) -> dget (operations s) oid = Some o ->
    exists row at_ns, dget progress id = Some row /\ remaining_bytes row = 0 /\ completion_ns row = Some at_ns /\ cost_ok cfg p (p_block_count row) /\
      (p = Program -> forall it, it ∈ items o -> aligned cfg at_ns s (extent_id it)).

(** What a completion did: nothing when the job is not one of the driver. *)
Definition consumed (cfg : settings) (progress : dict string progress_row) (failed_ids : list string) (s : driver) (id : string) (s' : driver) : Prop :=
  match dget (outstanding s) id with
  | None => s' = s
  | Some (oid, p) => exists o next row at_ns, dget (operations s) oid = Some o /\ o_phase o = p /\ completes cfg s id oid o next s' /\
      dget progress id = Some row /\ remaining_bytes row = 0 /\ completion_ns row = Some at_ns /\
      (p = Program -> id ∉ failed_ids -> forall it, it ∈ items o -> committed_as cfg at_ns s s' it)
  end.

Lemma consume_completion_ok cfg progress failed_ids id s : settings_ok cfg -> inv cfg s ->
  wp (fun _ _ => ~ ready cfg progress s id) (consume_completion cfg progress failed_ids id)
    (fun _ s' => inv cfg s' /\ consumed cfg progress failed_ids s id s') s.
Proof.
  intros Hcfg H. unfold consume_completion, consumed. wp_steps. destruct (dget (outstanding s) id) as [[oid p]|] eqn:Hj; [|by wp_step].
  destruct (i_jobs _ _ H _ _ _ Hj) as (o & n & Ho & Hp & Hs & _). wp_step. unfold wp at 1, lift.
  destruct (dget progress id) as [row|] eqn:Hrow; cbn [of_option]; [|intros Hr; destruct (Hr _ _ _ Hj Ho) as (r & a & Er & _); congruence].
  wp_step. apply wp_require; [intros Hb Hr; destruct (Hr _ _ _ Hj Ho) as (r & a & Er & Hz & _); rewrite Hrow in Er; injection Er as <-; by rewrite Hz in Hb|].
  intros Hz%Z.eqb_eq. wp_steps. eapply wp_lift; [unfold dindex; cbn; by rewrite Ho|]. wp_step. unfold wp at 1, lift.
  destruct (completion_ns row) as [at_ns|] eqn:Hat; cbn [of_option].
  2:{ intros Hr. destruct (Hr _ _ _ Hj Ho) as (r & a & Er & _ & Ea & _). rewrite Hrow in Er. injection Er as <-. congruence. }
  wp_step. set (t0 := set_outstanding _ s). pose proof (cost_fact_ok cfg oid p at_ns (p_block_count row) (bool_decide (id ∈ failed_ids)) t0 Hcfg) as Hc. unfold wp at 1 in Hc. unfold wp at 1.
  destruct (_cost_fact cfg oid p at_ns (p_block_count row) (bool_decide (id ∈ failed_ids)) t0) as [[[]|e] t1].
  2:{ intros Hr. apply Hc. destruct (Hr _ _ _ Hj Ho) as (r & a & Er & _ & _ & Hco & _). rewrite Hrow in Er. by injection Er as <-. }
  destruct Hc as [en ->]. wp_steps.
  match goal with |- wp _ _ _ ?v => set (t := v) end.
  assert (Hen : entry s id oid o t).
  { constructor; try done. change (operations t) with (dupd (operations s) oid (set_submitted false)). by apply dupd_Some. }
  assert (Hdone : forall s', (exists next, completes cfg s id oid o next s') -> (p = Program -> id ∉ failed_ids -> forall it, it ∈ items o -> committed_as cfg at_ns s s' it) ->
    inv cfg s' /\ exists o0 next row0 at_ns0, dget (operations s) oid = Some o0 /\ o_phase o0 = p /\ completes cfg s id oid o0 next s' /\ Some row = Some row0 /\
      remaining_bytes row0 = 0 /\ completion_ns row0 = Some at_ns0 /\ (p = Program -> id ∉ failed_ids -> forall it, it ∈ items o0 -> committed_as cfg at_ns0 s s' it)).
  { intros s' [next Hcomp] Hit. split; [eapply completes_inv; [exact H|exact Ho|by rewrite Hp|exact Hcomp]|]. exists o, next, row, at_ns. done. }
  destruct p.
  - eapply wp_mono; [by apply (complete_read_ok _ cfg s id oid o)|]. intros [] s' Hx. by apply Hdone.
  - pose proof (complete_program_ok cfg s id oid o at_ns (bool_decide (id ∈ failed_ids)) t H Ho Hp Hen) as Hw. unfold wp in *.
    destruct (complete_program _ _ _ _ t) as [[[]|e] s'].
    + destruct Hw as [Hx Hit]. apply Hdone; [done|]. intros _ Hnf. apply Hit. by apply bool_decide_eq_false.
    + intros Hr. apply Hw. destruct (Hr _ _ _ Hj Ho) as (r & a & Er & _ & Ea & _ & Hal). rewrite Hrow in Er. injection Er as <-. rewrite Hat in Ea. injection Ea as <-. by apply Hal.
  - rewrite <- Hp. eapply wp_mono; [apply (complete_erase_ok _ cfg s id oid o); [done|done|by rewrite Hp|done]|]. intros [] s' Hx. rewrite Hp. by apply Hdone.
  - rewrite <- Hp. eapply wp_mono; [apply (complete_erase_ok _ cfg s id oid o); [done|done|by rewrite Hp|done]|]. intros [] s' Hx. rewrite Hp. by apply Hdone.
  - exfalso. pose proof (ok_shape _ _ _ _ _ (i_ops _ _ H _ _ Ho)) as Hsh. unfold shape in Hsh. by rewrite Hp in Hsh.
Qed.

Lemma ready_kept cfg progress failed_ids s id s' id' : inv cfg s -> consumed cfg progress failed_ids s id s' -> ready cfg progress s id' -> ready cfg progress s' id'.
Proof.
  intros H Hc Hr. unfold consumed in Hc. destruct (dget (outstanding s) id) as [[oid p]|] eqn:Hj; [|by subst].
  destruct Hc as (o & next & row & at_ns & Ho & Hp & Hcomp & _). intros oid' p' o' Hj' Ho'.
  rewrite (cp_jobs _ _ _ _ _ _ _ Hcomp), dget_ddel in Hj' by apply (i_job_keys _ _ H). case_decide as Ed; [done|].
  assert (Hne : oid' <> oid) by (intros ->; apply Ed; by eapply (i_one_job _ _ H)).
  rewrite (cp_ops _ _ _ _ _ _ _ Hcomp) in Ho'. assert (Hs : dget (operations s) oid' = Some o').
  { destruct next; [by rewrite dget_dset_ne in Ho'|]. rewrite dget_ddel in Ho' by apply (i_op_keys _ _ H). by rewrite decide_False in Ho' by done. }
  destruct (Hr oid' p' o' Hj' Hs) as (r & a & R1 & R2 & R3 & R4 & R5). exists r, a. split_and!; [done..|]. intros Hpr it Hit.
  rewrite (cp_ages _ _ _ _ _ _ _ Hcomp). by apply R5.
Qed.

(** The completions of a receipt, in order. *)
Inductive consumed_all (cfg : settings) (progress : dict string progress_row) (failed_ids : list string) : driver -> list string -> driver -> Prop :=
| consumed_none s : consumed_all cfg progress failed_ids s [] s
| consumed_more s ids s1 id s2 : consumed_all cfg progress failed_ids s ids s1 -> inv cfg s1 -> consumed cfg progress failed_ids s1 id s2 ->
    consumed_all cfg progress failed_ids s (ids ++ [id]) s2.

Lemma consume_receipt_ok cfg r failed_ids s : settings_ok cfg -> inv cfg s ->
  wp (fun _ _ => ~ ((forall id, id ∈ completion_ids r -> ready cfg (progress_map r) s id) /\ forall id, id ∈ failed_ids -> id ∈ completion_ids r))
    (consume_receipt cfg r failed_ids)
    (fun d s' => inv cfg s' /\ exists s1, consumed_all cfg (progress_map r) failed_ids s (completion_ids r) s1 /\ s' = set_log [] [] [] s1 /\ terminal_results d = results s1) s.
Proof.
  intros Hcfg H. unfold consume_receipt. wp_step.
  eapply wp_mono; [apply (wp_forM (fun seen s' => inv cfg s' /\ consumed_all cfg (progress_map r) failed_ids s seen s' /\
    forall id, ready cfg (progress_map r) s id -> ready cfg (progress_map r) s' id))|].
  - split_and!; [done|constructor|done].
  - intros seen id todo s1 Hsplit (Hi1 & Hc1 & Hr1). pose proof (consume_completion_ok cfg (progress_map r) failed_ids id s1 Hcfg Hi1) as Hw. unfold wp in *.
    destruct (consume_completion cfg (progress_map r) failed_ids id s1) as [[[]|e] s2].
    + destruct Hw as [Hi2 Hc2]. split_and!; [done|by econstructor|]. intros id' Hr'. eapply ready_kept; [exact Hi1|exact Hc2|auto].
    + intros [Hall _]. apply Hw, Hr1, Hall. rewrite Hsplit. apply elem_of_app. right. apply elem_of_cons. by left.
  - intros [] s1 (Hi1 & Hc1 & _). wp_step. apply wp_require.
    + intros Hf [_ Hall]. assert (Ht : forallb (fun id => bool_decide (id ∈ completion_ids r)) failed_ids = true).
      { apply forallb_forall. intros id Hid%list_elem_of_In. by apply bool_decide_eq_true, Hall. }
      congruence.
    + intros _. unfold drain_delta. wp_steps. split; [by apply inv_log|]. exists s1. done.
Qed.

(** ** Registration and writes *)

Lemma total_concat b (d : dict channel_key (list string)) : occ b (concat (dvals d)) = total (occ b) d.
Proof. induction d as [|[k v] d IH]; [done|]. change (occ b (v ++ concat (dvals d)) = (occ b v + total (occ b) d)%nat). by rewrite occ_app, IH. Qed.
Lemma total_mapped b (d : dict string extent) : occ b (physical_block_id <$> dvals d) = total (fun x => occ b [physical_block_id x]) d.
Proof.
  induction d as [|[k v] d IH]; [done|]. change (occ b (physical_block_id v :: (physical_block_id <$> dvals d)) = (occ b [physical_block_id v] + total (fun x => occ b [physical_block_id x]) d)%nat).
  rewrite <- IH. rewrite !occ_cons. cbn. lia.
Qed.

(** A source that no operation holds and that is not quarantined. *)
Definition unheld (s : driver) (b : string) : Prop := held_at s b = 0%nat /\ b ∉ quarantined_blocks s.

Definition any_fault : exn -> driver -> Prop := fun _ _ => True.

Lemma register_extent_ok cfg r s : inv cfg s -> unheld s (row_source r) ->
  wp any_fault (register_extent cfg (concat (dvals (free_spares s))) (physical_block_id <$> dvals (extents s)) r)
    (fun acc s' => inv cfg s' /\ free_spares s' = free_spares s /\ acc = physical_block_id <$> dvals (extents s') /\
      (forall b, owners s' b = (owners s b + occ b [row_source r])%nat) /\ operations s' = operations s /\ quarantined_blocks s' = quarantined_blocks s) s.
Proof.
  intros H [Hh Hq]. unfold register_extent. wp_step. apply wp_require; [done|]. intros Hne. wp_steps. apply wp_require; [done|]. intros Hpool. wp_step.
  apply wp_require; [done|]. intros Hnew%negb_true_iff. apply orb_false_iff in Hnew as [[Hsp%bool_decide_eq_false Hmp%bool_decide_eq_false]%orb_false_iff Hex].
  wp_step. apply wp_require; [done|]. intros Hv. wp_steps. set (x := {| stack := row_stack r |}). assert (Hget : dget (extents s) (row_extent r) = None).
  { unfold dmem in Hex. by destruct (dget (extents s) (row_extent r)). }
  match goal with |- wp _ _ _ ?v => set (t := v) end. apply (on_ages_ok (fun _ _ => True)); [done|].
  pose proof (ReliabilityLedger.due_ok (age_settings cfg) (row_extent r) (ReliabilityLedger.epoch_ns (age_settings cfg)) (ages t)) as Hw. unfold wp in *.
  destruct (ReliabilityLedger.due_reasons _ _ _ (ages t)) as [[reasons|e] l]; [|done]. destruct Hw as [_ Hacc]. cbn.
  assert (Hd : dset (extents s) (row_extent r) x = extents s ++ [(row_extent r, x)]) by (apply dkeys_dset_notin; by apply dget_None).
  assert (Hkey : is_Some (dget (free_spares s) (row_stack r, row_channel r))) by (unfold dmem in Hpool; destruct (dget _ _); [by eexists|done]).
  assert (Hown : forall b, owners (with_ages l t) b = (owners s b + occ b [row_source r])%nat).
  { intros b. unfold owners, mapped_at at 1. change (extents (with_ages l t)) with (dset (extents s) (row_extent r) x). rewrite total_dset_new by done. cbn [physical_block_id x].
    change (free_at (with_ages l t) b) with (free_at s b). change (held_at (with_ages l t) b) with (held_at s b). change (quarantined_at (with_ages l t) b) with (quarantined_at s b).
    unfold mapped_at. lia. }
  assert (Hzero : owners s (row_source r) = 0%nat).
  { unfold owners, quarantined_at. rewrite decide_False by done. assert (mapped_at s (row_source r) = 0%nat).
    { unfold mapped_at. rewrite <- total_mapped. destruct (occ _ _) eqn:E; [done|]. exfalso. apply Hmp, occ_elem. lia. }
    assert (free_at s (row_source r) = 0%nat).
    { unfold free_at. rewrite <- total_concat. destruct (occ _ _) eqn:E; [done|]. exfalso. apply Hsp, occ_elem. lia. }
    lia. }
  split_and!; [|done| |exact Hown|done|done].
  - constructor; [|apply NoDup_dkeys_dset, (i_extent_keys _ _ H)|apply (i_spare_keys _ _ H)|apply (i_op_keys _ _ H)|apply (i_job_keys _ _ H)|apply (i_sequence _ _ H)| |apply (i_active _ _ H)| |apply (i_jobs _ _ H)|apply (i_job _ _ H)|apply (i_one_job _ _ H)].
    + intros b. rewrite Hown. pose proof (i_owners _ _ H b). rewrite occ_cons. case_decide as Eb; cbn; [subst b; rewrite Hzero|]; lia.
    + intros oid o Ho. destruct (i_ops _ _ H oid o Ho) as [A1 A2 A3 A4 A5 A6]. constructor; [done..|]. intros it Hit. destruct (A6 it Hit) as (y & Hy & Hr). exists y.
      split; [|done]. change (extents (with_ages l t)) with (dset (extents s) (row_extent r) x). rewrite dget_dset_ne; [done|]. intros E. rewrite <- E in Hy. congruence.
    + intros id y Hy. change (extents (with_ages l t)) with (dset (extents s) (row_extent r) x) in Hy. apply dset_cases in Hy as [[-> ->]|[_ Hy]]; [done|]. by apply (i_extents _ _ H).
  - change (extents (with_ages l t)) with (dset (extents s) (row_extent r) x). rewrite Hd. unfold dvals. by rewrite !fmap_app.
Qed.

Lemma register_ok cfg rows s : inv cfg s -> (forall r, r ∈ rows -> unheld s (row_source r)) ->
  wp any_fault (register_extents cfg rows) (fun _ s' => inv cfg s' /\ forall b, owners s' b = (owners s b + occ b (row_source <$> rows))%nat) s.
Proof.
  intros H Hr. unfold register_extents. wp_steps.
  eapply wp_mono; [apply (wp_foldS (fun seen acc s' => inv cfg s' /\ free_spares s' = free_spares s /\ acc = physical_block_id <$> dvals (extents s') /\
    (forall b, owners s' b = (owners s b + occ b (row_source <$> seen))%nat) /\ operations s' = operations s /\ quarantined_blocks s' = quarantined_blocks s))|].
  - split_and!; [done|done|done|intros b; cbn; lia|done|done].
  - intros seen r todo acc s1 Hsplit (Hi & Hf & -> & Ho & Hops & Hq). rewrite <- Hf. eapply wp_mono; [apply register_extent_ok; [done|]|].
    + destruct (Hr r) as [H1 H2]; [rewrite Hsplit; apply elem_of_app; right; apply elem_of_cons; by left|]. unfold unheld, held_at. rewrite Hops, Hq. done.
    + intros acc s2 (Hi2 & Hf2 & Ha2 & Ho2 & Hops2 & Hq2). split_and!; [done|by rewrite Hf2|done| |by rewrite Hops2|by rewrite Hq2].
      intros b. rewrite Ho2, Ho, fmap_app, occ_app. cbn [fmap list_fmap]. lia.
  - intros acc s1 (Hi & _ & _ & Ho & _). wp_step. done.
Qed.

Lemma write_ok cfg id at_ns s : inv cfg s -> wp any_fault (record_foreground_write id at_ns)
  (fun v s' => inv cfg s' /\ (forall b, owners s' b = owners s b) /\ exists x, dget (extents s) id = Some x /\ v = version x + 1 /\ extents s' = dset (extents s) id (write_version x)) s.
Proof.
  intros H. unfold record_foreground_write. wp_steps. unfold wp at 1, lift. destruct (dget (extents s) id) as [x|] eqn:Hx; unfold dindex; rewrite Hx; cbn [of_option]; [|done].
  wp_step. apply wp_require; [done|]. intros _. wp_step. apply wp_require; [done|]. intros _. wp_steps.
  set (t := upd_extent id write_version s). assert (Hown : forall b, owners t b = owners s b).
  { intros b. unfold owners, mapped_at at 1. change (extents t) with (dupd (extents s) id write_version). by rewrite mapped_dupd. }
  assert (Hext : extents t = dset (extents s) id (write_version x)) by by apply dupd_Some.
  split_and!; [|exact Hown|exists x; done]. apply inv_log. constructor; [| |apply (i_spare_keys _ _ H)|apply (i_op_keys _ _ H)|apply (i_job_keys _ _ H)|apply (i_sequence _ _ H)| |apply (i_active _ _ H)| |apply (i_jobs _ _ H)|apply (i_job _ _ H)|apply (i_one_job _ _ H)].
  - intros b. rewrite Hown. apply (i_owners _ _ H).
  - rewrite Hext. apply NoDup_dkeys_dset, (i_extent_keys _ _ H).
  - intros oid o Ho. destruct (i_ops _ _ H oid o Ho) as [A1 A2 A3 A4 A5 A6]. constructor; [done..|]. intros it Hit. destruct (A6 it Hit) as (y & Hy & Hr). rewrite Hext.
    destruct (decide (extent_id it = id)) as [<-|Hne]; [|exists y; by rewrite dget_dset_ne]. rewrite Hx in Hy. injection Hy as <-. exists (write_version x). by rewrite dget_dset_eq.
  - intros i y Hy. rewrite Hext in Hy. apply dset_cases in Hy as [[-> ->]|[_ Hy]]; [by apply (i_extents _ _ H id x)|by apply (i_extents _ _ H)].
Qed.
End MaintenanceSteps.
