(* ===== verification/MaintenanceTheorems.v ===== *)
(** * MaintenanceTheorems: what the maintenance driver guarantees

    The histories of calls of [MaintenanceDriver] and the theorems about them.  The
    ledger is shared: between two calls its owner may advance it in any way.  Extents
    may be registered at any time, and a history is a sequence of calls that return
    ([calls]) in which no block is given to the driver twice, as a spare or as a
    source; [maintenance_register_alias] shows why that is required. *)

From S2P Require Import Prelude ProgramLogic PyFloat.
From S2P Require Import ReliabilityLedger MaintenanceDriver MaintenanceInvariant MaintenanceSteps.

Module MaintenanceTheorems.
Import ProgramLogic MaintenanceDriver MaintenanceInvariant MaintenanceSteps.

(** ** Histories *)

(** Calls that return: [U] is the list of the spares and of all the sources that were
    given so far.  A call that raises ends the use of the driver: it may leave an
    operation half done. *)
Inductive calls (cfg : settings) : list string -> driver -> Prop :=
| h_init l age c s : init l age c = Ok (cfg, s) -> calls cfg (concat (dvals (free_spares s))) s
| h_register U s rows s' : calls cfg U s -> register_extents cfg rows s = (Ok tt, s') -> calls cfg (U ++ (row_source <$> rows)) s'
| h_write U s id at_ns v s' : calls cfg U s -> record_foreground_write id at_ns s = (Ok v, s') -> calls cfg U s'
| h_poll U s now discover jobs s' : calls cfg U s -> poll cfg now discover s = (Ok jobs, s') -> calls cfg U s'
| h_consume U s r failed d s' : calls cfg U s -> consume_receipt cfg r failed s = (Ok d, s') -> calls cfg U s'
| h_ages U s l : calls cfg U s -> calls cfg U (with_ages l s).

(** No block is given twice. *)
Definition history (cfg : settings) (U : list string) (s : driver) : Prop := calls cfg U s /\ NoDup U.

Lemma history_poll cfg U s now discover jobs s' : history cfg U s -> poll cfg now discover s = (Ok jobs, s') -> history cfg U s'.
Proof. intros [H Hn] E. split; [by eapply h_poll|done]. Qed.
Lemma history_consume cfg U s r failed d s' : history cfg U s -> consume_receipt cfg r failed s = (Ok d, s') -> history cfg U s'.
Proof. intros [H Hn] E. split; [by eapply h_consume|done]. Qed.
Lemma history_ages cfg U s l : history cfg U s -> history cfg U (with_ages l s).
Proof. intros [H Hn]. split; [by apply h_ages|done]. Qed.

Lemma wp_Ok {A} F0 (m : D A) Q s a s' : wp F0 m Q s -> m s = (Ok a, s') -> Q a s'.
Proof. unfold wp. intros H E. by rewrite E in H. Qed.

(** *** Construction *)

Definition pools_ok (acc : dict channel_key (list string) * list string) : Prop :=
  NoDup (dkeys acc.1) /\ NoDup acc.2 /\ forall b, (total (occ b) acc.1 <= occ b acc.2)%nat.

Lemma add_pool_ok st acc pool acc' : add_pool st acc pool = Ok acc' -> pools_ok acc -> pools_ok acc'.
Proof.
  destruct acc as [spares all], pool as [ch values]. intros E (Hk & Hn & Hle). unfold add_pool in E.
  apply bind_Ok in E as ([] & _ & E). apply bind_Ok in E as ([] & _ & E). apply bind_Ok in E as ([] & Hd & E). injection E as <-. apply ensure_Ok, andb_true_iff in Hd as [Hv Hd].
  apply bool_decide_eq_true in Hv. apply negb_true_iff in Hd. cbn [fst snd] in *. split_and!.
  - by apply NoDup_dkeys_dset.
  - apply NoDup_app. split_and!; [done| |done]. intros x Hx Hx'. apply not_true_iff_false in Hd. apply Hd, existsb_exists. exists x. split; [by apply list_elem_of_In|by apply bool_decide_eq_true].
  - intros b. specialize (Hle b). cbn [fst snd] in *. rewrite occ_app. destruct (dget spares (st, ch)) as [v|] eqn:Ev.
    + pose proof (total_dset (occ b) _ _ _ values Ev). lia.
    + rewrite total_dset_new by done. lia.
Qed.

Lemma pools_built rows : forall acc acc', foldM add_stack rows acc = Ok acc' -> pools_ok acc -> pools_ok acc'.
Proof.
  assert (Hstack : forall st channels acc acc', foldM (add_pool st) channels acc = Ok acc' -> pools_ok acc -> pools_ok acc').
  { intros st. induction channels as [|p channels IH]; intros acc acc' E H; cbn [foldM] in E; [by injection E as <-|].
    apply bind_Ok in E as (acc1 & E1 & E). eapply IH; [exact E|]. by eapply add_pool_ok. }
  induction rows as [|[st channels] rows IH]; intros acc acc' E H; cbn [foldM] in E; [by injection E as <-|].
  apply bind_Ok in E as (acc1 & E1 & E). eapply IH; [exact E|]. unfold add_stack in E1. apply bind_Ok in E1 as ([] & _ & E1). by eapply Hstack.
Qed.

Lemma driver_init_ok l age c cfg s : init l age c = Ok (cfg, s) -> settings_ok cfg /\ inv cfg s /\ forall b, owners s b = occ b (concat (dvals (free_spares s))).
Proof.
  unfold init. intros E. apply bind_Ok in E as (bytes & _ & E). apply bind_Ok in E as (pages & _ & E). apply bind_Ok in E as (cohort & Hc & E).
  apply bind_Ok in E as ([] & _ & E). apply bind_Ok in E as ([spares all] & Hs & E). apply bind_Ok in E as (pj & _ & E). apply bind_Ok in E as (ej & _ & E).
  apply bind_Ok in E as ([] & He & E). injection E as <- <-. apply ensure_Ok in He. unfold same_set in He. apply andb_true_iff in He as [_ He%bool_decide_eq_true].
  unfold positive in Hc. apply bind_Ok in Hc as ([] & Hc & [= <-]). apply ensure_Ok, Z.ltb_lt in Hc.
  assert (Hp : pools_ok (spares, all)).
  { eapply pools_built; [exact Hs|]. split_and!; [constructor|constructor|done]. }
  destruct Hp as (Hk & Hn & Hle). cbn [fst snd] in *. match goal with |- _ /\ inv _ ?v /\ _ => set (s := v) end.
  assert (Hown : forall b, owners s b = total (occ b) spares).
  { intros b. unfold owners, quarantined_at. rewrite decide_False by apply not_elem_of_empty. change (mapped_at s b) with 0%nat. change (held_at s b) with 0%nat.
    change (free_at s b) with (total (occ b) spares). lia. }
  split_and!.
  - constructor; [done|]. intros k Hk'. apply dget_is_Some. cbn. rewrite Forall_forall in He. by apply He.
  - constructor; [|constructor|exact Hk|constructor|constructor|done|done| |done|done|done|done].
    2:{ intros e. cbn. by rewrite decide_False by apply not_elem_of_empty. }
    intros b. specialize (Hle b). pose proof (proj2 (occ_NoDup all) Hn b). rewrite Hown. lia.
  - intros b. rewrite total_concat. apply Hown.
Qed.

Lemma owners_consumed cfg progress failed s ids s' b : consumed_all cfg progress failed s ids s' -> owners s' b = owners s b.
Proof.
  induction 1 as [|s ids s1 id s2 _ IH _ Hc]; [done|]. rewrite <- IH. unfold consumed in Hc. destruct (dget (outstanding s1) id) as [[oid p]|]; [|by subst].
  destruct Hc as (o & next & row & at_ns & _ & _ & Hcomp & _). apply (cp_owners _ _ _ _ _ _ _ Hcomp).
Qed.

Lemma history_inv cfg U s : history cfg U s -> settings_ok cfg /\ inv cfg s /\ forall b, owners s b = occ b U.
Proof.
  intros [H Hnd]. induction H as [l age c s E|U s rows s' _ IH E|U s id at_ns v s' _ IH E|U s now discover jobs s' _ IH E|
    U s r failed d s' _ IH E|U s l _ IH]; [by eapply driver_init_ok|..].
  { apply NoDup_app in Hnd as (Hnd & Hnew & _). destruct (IH Hnd) as (Hcfg & Hi & Ho). clear IH.
    assert (Hr : forall r, r ∈ rows -> unheld s (row_source r)).
    { intros r Hr. assert (Hx : row_source r ∉ U) by (intros Hx; by apply (Hnew _ Hx), list_elem_of_fmap_2).
      rewrite occ_elem in Hx. specialize (Ho (row_source r)). unfold owners, quarantined_at in Ho. split; [lia|]. intros Hq. rewrite decide_True in Ho by done. lia. }
    destruct (wp_Ok _ _ _ _ _ _ (register_ok cfg rows s Hi Hr) E) as [Hi' Ho']. split_and!; [done..|]. intros b. by rewrite Ho', Ho, occ_app. }
  all: destruct (IH Hnd) as (Hcfg & Hi & Ho); clear IH.
  - destruct (wp_Ok _ _ _ _ _ _ (write_ok cfg id at_ns s Hi) E) as (Hi' & Ho' & _). split_and!; [done..|]. intros b. by rewrite Ho'.
  - destruct (wp_Ok _ _ _ _ _ _ (driver_poll_ok cfg now discover s Hcfg Hi) E) as (_ & Hi' & s1 & Hi1 & Hb & Hp). split_and!; [done..|]. intros b.
    by rewrite (pl_owners _ _ _ _ _ Hp), (bg_owners _ _ _ _ Hb).
  - destruct (wp_Ok _ _ _ _ _ _ (consume_receipt_ok cfg r failed s Hcfg Hi) E) as (Hi' & s1 & Hc & -> & _). split_and!; [done..|]. intros b.
    change (owners (set_log [] [] [] s1) b) with (owners s1 b). by rewrite (owners_consumed _ _ _ _ _ _ b Hc).
  - split_and!; [done|by apply inv_ages|exact Ho].
Qed.

(** ** An example *)

Definition demo_age : ReliabilityLedger.settings :=
  {| ReliabilityLedger.ea_ev := ReliabilityLedger.EA_MID; ReliabilityLedger.tref_k := ReliabilityLedger.DEFAULT_TREF_K; ReliabilityLedger.period_ns := ReliabilityLedger.DAY_NS;
     ReliabilityLedger.initial_age_ns := ReliabilityLedger.DAY_NS; ReliabilityLedger.initial_wall_age_ns := 0; ReliabilityLedger.epoch_ns := 0;
     ReliabilityLedger.refresh_trigger := "equivalent_age_or_wall" |}.
Definition demo_config : config :=
  {| c_block_bytes := 4096; c_pages_per_block := 256; max_blocks_per_cohort := 8;
     spare_block_ids_by_stack_channel := [("hbf0", [("0", ["spare0"; "spare1"; "spare2"])])];
     program_energy_j_per_byte := None; erase_energy_j_per_operation := Some float_one; c_energy_evidence := [("program", "PROXY"); ("erase", "PROXY")] |}.
Definition demo_row (e b : string) : extent_row := {| row_extent := e; row_stack := "hbf0"; row_channel := "0"; row_source := b; row_version := 0 |}.
Definition fresh_ledger : ReliabilityLedger.ledger :=
  {| ReliabilityLedger.blocks := []; ReliabilityLedger.events := []; ReliabilityLedger.drained_event_counts := [] |}.

(** Calls in sequence. *)
Inductive call :=
| CRegister (rows : list extent_row)
| CWrite (id : string) (at_ns : Z)
| CPoll (now : Z) (discover : bool)
| CConsume (r : receipt) (failed : list string).

Definition run_call (cfg : settings) (c : call) (s : driver) : option driver :=
  match c with
  | CRegister rows => match register_extents cfg rows s with (Ok _, s') => Some s' | _ => None end
  | CWrite id at_ns => match record_foreground_write id at_ns s with (Ok _, s') => Some s' | _ => None end
  | CPoll now d => match poll cfg now d s with (Ok _, s') => Some s' | _ => None end
  | CConsume r f => match consume_receipt cfg r f s with (Ok _, s') => Some s' | _ => None end
  end.
Fixpoint run_calls (cfg : settings) (cs : list call) (s : driver) : option driver :=
  match cs with [] => Some s | c :: cs' => match run_call cfg c s with Some s' => run_calls cfg cs' s' | None => None end end.

(** A freshly built driver with registered extents, then the calls. *)
Definition demo_run (rows : list extent_row) (cs : list call) : option (settings * driver) :=
  match init fresh_ledger demo_age demo_config with
  | Ok (cfg, s0) => match register_extents cfg rows s0 with
                    | (Ok _, s1) => match run_calls cfg cs s1 with Some s => Some (cfg, s) | None => None end
                    | _ => None
                    end
  | Raise _ => None
  end.
Definition quiet (c : call) : bool := match c with CRegister _ => false | _ => true end.

Lemma run_calls_quiet cfg U cs : forall s s', calls cfg U s -> forallb quiet cs = true -> run_calls cfg cs s = Some s' -> calls cfg U s'.
Proof.
  induction cs as [|c cs IH]; intros s s' H Hq; cbn [run_calls]; [intros [= <-]; done|]. cbn [forallb] in Hq. apply andb_true_iff in Hq as [Hc Hq].
  destruct (run_call cfg c s) as [s1|] eqn:E; [|done]. intros Hr. eapply (IH s1); [|done|done]. clear Hr IH. destruct c as [rows|id at_ns|now d|r f]; [done|..]; cbn [run_call] in E.
  - destruct (record_foreground_write id at_ns s) as [[v|] s2] eqn:Ew; [|done]. injection E as <-. by eapply h_write.
  - destruct (poll cfg now d s) as [[v|] s2] eqn:Ew; [|done]. injection E as <-. by eapply h_poll.
  - destruct (consume_receipt cfg r f s) as [[v|] s2] eqn:Ew; [|done]. injection E as <-. by eapply h_consume.
Qed.

Lemma demo_calls rows cs cfg s : demo_run rows cs = Some (cfg, s) -> forallb quiet cs = true -> calls cfg (["spare0"; "spare1"; "spare2"] ++ (row_source <$> rows)) s.
Proof.
  unfold demo_run. destruct (init fresh_ledger demo_age demo_config) as [[cfg0 s0]|e] eqn:Ei; [|done]. destruct (register_extents cfg0 rows s0) as [[[]|e] s1] eqn:Er; [|done].
  destruct (run_calls cfg0 cs s1) as [s2|] eqn:Ec; [|done]. intros [= -> ->] Hq. eapply run_calls_quiet; [|exact Hq|exact Ec].
  pose proof (h_init cfg fresh_ledger demo_age demo_config s0 Ei) as H0. assert (Ef : concat (dvals (free_spares s0)) = ["spare0"; "spare1"; "spare2"]).
  { vm_compute in Ei. injection Ei as _ <-. reflexivity. }
  rewrite Ef in H0. eapply h_register; [exact H0|exact Er].
Qed.

Definition two_rows : list extent_row := [demo_row "e0" "b0"; demo_row "e1" "b1"].

Lemma two_rows_distinct : NoDup (["spare0"; "spare1"; "spare2"] ++ (row_source <$> two_rows)).
Proof. apply (bool_decide_unpack _). reflexivity. Qed.

Lemma demo_history cs cfg s : demo_run two_rows cs = Some (cfg, s) -> forallb quiet cs = true ->
  history cfg (["spare0"; "spare1"; "spare2"] ++ (row_source <$> two_rows)) s.
Proof. intros E Hq. split; [by eapply demo_calls|apply two_rows_distinct]. Qed.

(** ** Blocks *)

(** C18: every block has exactly one owner.  Take any sequence of registrations,
    writes, polls and receipts that return, with any failed jobs, in which no block
    is given to the driver twice, as a spare or as the source of an extent.  Then
    each of these blocks is at exactly one place (mapped by one extent, in one pool
    of spares, held once by one operation that writes or erases it, or quarantined),
    and no other block is anywhere. *)
Theorem maintenance_blocks_owned cfg U s : calls cfg U s -> NoDup U -> forall b, owners s b = if decide (b ∈ U) then 1%nat else 0%nat.
Proof.
  intros H Hn. destruct (history_inv _ _ _ (conj H Hn)) as (_ & Hi & Ho).
  intros b. rewrite Ho. pose proof (proj2 (occ_NoDup U) Hn b). pose proof (occ_elem b U) as He. case_decide as E; [apply He in E; lia|].
  destruct (occ b U) eqn:Eo; [done|]. exfalso. apply E, He. lia.
Qed.

Definition done_row (id : string) (n : Z) (at_ns : Z) (exts : list string) : progress_row :=
  {| p_job_id := id; remaining_bytes := 0; completion_ns := Some at_ns; p_block_count := n; p_extent_ids := exts |}.
Definition done_receipt (id : string) (n at_ns : Z) (exts : list string) : receipt :=
  {| job_progress := [done_row id n at_ns exts]; completion_ids := [id]; end_ns := at_ns |}.
(** Two extents are read and programmed; the second is written meanwhile. *)
Definition conflict_calls : list call :=
  [CPoll 0 true; CConsume (done_receipt "refresh:0:refresh_read:0" 2 0 ["e0"; "e1"]) []; CPoll 0 false; CWrite "e1" 0;
   CConsume (done_receipt "refresh:0:program:0" 2 0 ["e0"; "e1"]) []].

Lemma maintenance_blocks_owned_witness : exists cfg s, demo_run two_rows conflict_calls = Some (cfg, s) /\
  owners s "b0" = 1%nat /\ held_at s "b0" = 1%nat /\ mapped_at s "spare0" = 1%nat /\ held_at s "spare1" = 1%nat.
Proof.
  assert (Hd : match demo_run two_rows conflict_calls with Some (_, s) => Some (held_at s "b0", mapped_at s "spare0", held_at s "spare1") | None => None end = Some (1%nat, 1%nat, 1%nat))
    by (vm_compute; reflexivity).
  destruct (demo_run two_rows conflict_calls) as [[cfg s]|] eqn:E; [|discriminate Hd]. injection Hd as H1 H2 H3.
  pose proof (maintenance_blocks_owned cfg _ s (demo_calls _ _ _ _ E eq_refl) two_rows_distinct "b0") as Ho. rewrite decide_True in Ho by (apply (bool_decide_unpack _); reflexivity).
  exact (ex_intro _ cfg (ex_intro _ s (conj eq_refl (conj Ho (conj H1 (conj H2 H3)))))).
Defined.

(** ** Jobs *)

Definition unowned_elsewhere (s : driver) (b : string) : Prop :=
  (forall id x, dget (extents s) id = Some x -> physical_block_id x <> b) /\ (forall key pool, dget (free_spares s) key = Some pool -> b ∉ pool) /\ b ∉ quarantined_blocks s.

Lemma held_elsewhere cfg s oid o b : inv cfg s -> dget (operations s) oid = Some o -> b ∈ held_blocks o -> unowned_elsewhere s b.
Proof. intros H Ho Hb. destruct (held_alone cfg s oid o b H Ho Hb) as (H1 & H2 & H3). split_and!; [by apply mapped_zero|by apply free_zero|done]. Qed.

(** C19: maintenance never touches live data.  Take any sequence of registrations,
    writes, polls and receipts that return, with any failed jobs, in which no block
    is given to the driver twice, as a spare or as the source of an extent.  A job
    that a poll then offers belongs to an operation and is sized by its blocks; a
    read names, for each of its extents, the block that currently holds it; a
    program or an erase names only blocks that no extent maps, that are in no pool
    of spares and that are not quarantined. *)
Theorem maintenance_jobs_safe cfg U s now discover jobs s' j : calls cfg U s -> NoDup U -> poll cfg now discover s = (Ok jobs, s') -> j ∈ jobs ->
  dget (outstanding s') (job_id j) = Some (parent j, job_phase j) /\ job_bytes j = block_bytes cfg * Z.of_nat (length (physical_block_ids j)) /\
  match job_phase j with
  | RefreshRead => Forall2 (fun e b => exists x, dget (extents s') e = Some x /\ physical_block_id x = b) (job_extents j) (physical_block_ids j)
  | _ => forall b, b ∈ physical_block_ids j -> unowned_elsewhere s' b
  end.
Proof.
  intros H Hn E Hj. destruct (history_inv _ _ _ (conj H Hn)) as (Hcfg & Hi & _). destruct (wp_Ok _ _ _ _ _ _ (driver_poll_ok cfg now discover s Hcfg Hi) E) as (_ & Hi' & s1 & _ & _ & Hp).
  destruct (pl_jobs _ _ _ _ _ Hp j Hj) as [[J1 (o & Ho & Hph & _ & _ & Hb) J3 J4] _]. split_and!; [done|by rewrite J4, J3|].
  pose proof (i_ops _ _ Hi' _ _ Ho) as Hok. rewrite <- Hph. unfold phase_blocks in Hb. destruct (o_phase o) eqn:Eph.
  - injection Hb as <- <- _. apply Forall2_fmap_2, Forall_Forall2_diag, Forall_forall. intros it Hit. destruct (ok_extents _ _ _ _ _ Hok it Hit) as (x & Hx & _ & _ & Hs).
    exists x. split; [done|]. apply Hs. by rewrite Eph.
  - injection Hb as Hb _ _. intros b Hin. rewrite <- Hb in Hin. eapply held_elsewhere; [done|exact Ho|]. unfold held_blocks. by rewrite Eph.
  - intros b Hin. eapply held_elsewhere; [done|exact Ho|]. unfold held_blocks, erasing. rewrite Eph. destruct (current_erase o); [|done]. injection Hb as Hb _ _. rewrite Hb. apply elem_of_app. by left.
  - intros b Hin. eapply held_elsewhere; [done|exact Ho|]. unfold held_blocks, erasing. rewrite Eph. destruct (current_erase o); [|done]. injection Hb as Hb _ _. rewrite Hb. apply elem_of_app. by left.
  - pose proof (ok_shape _ _ _ _ _ Hok) as Hsh. unfold shape in Hsh. by rewrite Eph in Hsh.
Qed.

Lemma maintenance_jobs_safe_witness : exists cfg s j s', demo_run two_rows conflict_calls = Some (cfg, s) /\ poll cfg 0 false s = (Ok [j], s') /\
  job_phase j = EraseOld /\ physical_block_ids j = ["b0"] /\ unowned_elsewhere s' "b0".
Proof.
  assert (Hd : match demo_run two_rows conflict_calls with
               | Some (cfg, s) => match poll cfg 0 false s with (Ok [j], _) => Some (job_phase j, physical_block_ids j) | _ => None end
               | None => None
               end = Some (EraseOld, ["b0"])) by (vm_compute; reflexivity).
  destruct (demo_run two_rows conflict_calls) as [[cfg s]|] eqn:E; [|discriminate Hd]. destruct (poll cfg 0 false s) as [[[|j [|j' js]]|e] s'] eqn:Ep; try discriminate Hd. injection Hd as H1 H2.
  destruct (maintenance_jobs_safe cfg _ s 0 false [j] s' j (demo_calls _ _ _ _ E eq_refl) two_rows_distinct Ep ltac:(apply elem_of_cons; left; reflexivity)) as (_ & _ & Hs).
  rewrite H1, H2 in Hs. pose proof (Hs "b0" ltac:(apply elem_of_cons; left; reflexivity)) as Hb.
  exact (ex_intro _ cfg (ex_intro _ s (ex_intro _ j (ex_intro _ s' (conj eq_refl (conj Ep (conj H1 (conj H2 Hb)))))))).
Defined.

(** ** Progress *)





(** ** Commits *)

(** C22: a commit is a compare-and-swap on the version.  When a program job completes
    without a failure, every extent of its operation whose version is still the
    expected one (and below 2^64 - 1, so that it can grow) is moved to the programmed block, its version grows
    by one, its age is reset at the time of completion and its next due time is one
    period later; an extent that was written meanwhile keeps its block and its
    version.  Extents of other operations and extents at rest do not change, and no
    version ever decreases. *)
Theorem maintenance_commit_cas cfg U s r failed id oid s' : history cfg U s -> dget (outstanding s) id = Some (oid, Program) -> id ∉ failed ->
  consume_completion cfg (progress_map r) failed id s = (Ok tt, s') ->
  exists o at_ns, dget (operations s) oid = Some o /\ (forall it, it ∈ items o -> committed_as cfg at_ns s s' it) /\
    (forall e, e ∉ op_extents o -> dget (extents s') e = dget (extents s) e) /\
    (forall e x, dget (extents s) e = Some x -> exists x', dget (extents s') e = Some x' /\ version x <= version x' <= version x + 1 /\
       (physical_block_id x' <> physical_block_id x -> version x' = version x + 1)).
Proof.
  intros H Hj Hf E. destruct (history_inv _ _ _ H) as (Hcfg & Hi & _). destruct (wp_Ok _ _ _ _ _ _ (consume_completion_ok cfg (progress_map r) failed id s Hcfg Hi) E) as [Hi' Hc].
  unfold consumed in Hc. rewrite Hj in Hc. destruct Hc as (o & next & row & at_ns & Ho & Hp & Hcomp & _ & _ & _ & Hit). exists o, at_ns. specialize (Hit eq_refl Hf).
  split_and!; [done|exact Hit|apply (cp_extents _ _ _ _ _ _ _ Hcomp)|]. intros e x Hx. destruct (decide (e ∈ op_extents o)) as [Hin|Hout].
  - apply list_elem_of_fmap in Hin as (it & -> & Hin). destruct (Hit it Hin) as (x0 & Hx0 & Hr). rewrite Hx in Hx0. injection Hx0 as <-. destruct (commits x it).
    + destruct Hr as [Hr _]. exists (relocate (destination_block_id it) x). cbn. split; [done|]. split; [lia|done].
    + exists x. split; [done|]. split; [lia|done].
  - exists x. rewrite (cp_extents _ _ _ _ _ _ _ Hcomp) by done. split; [done|]. split; [lia|done].
Qed.

Definition before_commit : list call :=
  [CPoll 0 true; CConsume (done_receipt "refresh:0:refresh_read:0" 2 0 ["e0"; "e1"]) []; CPoll 0 false; CWrite "e1" 0].
Definition commit_receipt : receipt := done_receipt "refresh:0:program:0" 2 0 ["e0"; "e1"].

Lemma maintenance_commit_cas_witness : exists cfg s s' x0 x1, demo_run two_rows before_commit = Some (cfg, s) /\
  consume_completion cfg (progress_map commit_receipt) [] "refresh:0:program:0" s = (Ok tt, s') /\
  dget (extents s') "e0" = Some x0 /\ physical_block_id x0 = "spare0" /\ dget (extents s') "e1" = Some x1 /\ physical_block_id x1 = "b1" /\
  exists o, dget (operations s) "refresh:0" = Some o /\ forall e, e ∉ op_extents o -> dget (extents s') e = dget (extents s) e.
Proof.
  assert (Hd : match demo_run two_rows before_commit with
               | Some (cfg, s) => match consume_completion cfg (progress_map commit_receipt) [] "refresh:0:program:0" s with
                                  | (Ok _, s') => (dget (outstanding s) "refresh:0:program:0", physical_block_id <$> dget (extents s') "e0", physical_block_id <$> dget (extents s') "e1")
                                  | _ => (None, None, None)
                                  end
               | None => (None, None, None)
               end = (Some ("refresh:0", Program), Some "spare0", Some "b1")) by (vm_compute; reflexivity).
  destruct (demo_run two_rows before_commit) as [[cfg s]|] eqn:E; [|discriminate Hd].
  destruct (consume_completion cfg (progress_map commit_receipt) [] "refresh:0:program:0" s) as [[[]|e] s'] eqn:Ec; [|discriminate Hd]. injection Hd as Hj H0 H1.
  destruct (dget (extents s') "e0") as [x0|] eqn:E0; [|discriminate H0]. destruct (dget (extents s') "e1") as [x1|] eqn:E1; [|discriminate H1]. injection H0 as H0. injection H1 as H1.
  destruct (maintenance_commit_cas cfg _ s commit_receipt [] _ _ s' (demo_history _ _ _ E eq_refl) Hj ltac:(apply not_elem_of_nil) Ec) as (o & at_ns & Ho & _ & Hx & _).
  exact (ex_intro _ cfg (ex_intro _ s (ex_intro _ s' (ex_intro _ x0 (ex_intro _ x1 (conj eq_refl (conj Ec (conj E0 (conj H0 (conj E1 (conj H1 (ex_intro _ o (conj Ho Hx))))))))))))).
Defined.

(** ** Registration during maintenance *)

(** C40: a defect of [register_extents].  Its check compares a new source with the
    spares that are free now and with the mapped blocks, and misses the blocks that
    operations hold.  Whatever the history, an extent can be registered on a block
    that an operation is writing or erasing; the block then has two owners. *)
Theorem maintenance_register_alias cfg U s oid o b e : history cfg U s -> dget (operations s) oid = Some o -> b ∈ held_blocks o -> b <> "" -> o_stack o <> "" -> o_channel o <> "" ->
  dget (extents s) e = None -> ReliabilityLedger.accountable (age_settings cfg) e ->
  ReliabilityLedger.frontier (age_settings cfg) (ages s) e <= ReliabilityLedger.epoch_ns (age_settings cfg) ->
  exists s', register_extents cfg [{| row_extent := e; row_stack := o_stack o; row_channel := o_channel o; row_source := b; row_version := 0 |}] s = (Ok tt, s') /\ owners s' b = 2%nat.
Proof.
  intros H Ho Hb Hb0 Hs0 Hc0 He Ha Hf. destruct (history_inv _ _ _ H) as (Hcfg & Hi & _). destruct (held_alone _ _ _ _ _ Hi Ho Hb) as (H1 & H2 & H3).
  destruct (i_ops _ _ Hi _ _ Ho) as [_ _ _ _ [pool Hpool] _]. assert (He0 : e <> "") by by destruct Ha.
  assert (Hheld : (0 < held_at s b)%nat).
  { apply occ_elem in Hb. pose proof (total_pos (fun o => occ b (held_blocks o)) _ _ _ Ho) as Hp. cbn beta in Hp. unfold held_at. lia. }
  pose proof (i_owners _ _ Hi b) as Hle. unfold owners in Hle.
  set (x := {| stack := o_stack o; channel := o_channel o; physical_block_id := b; version := 0; maintenance_attempt_count := 0 |}).
  enough (Hw : wp (fun _ _ => False) (register_extents cfg [{| row_extent := e; row_stack := o_stack o; row_channel := o_channel o; row_source := b; row_version := 0 |}])
    (fun _ s' => owners s' b = 2%nat) s).
  { unfold wp in Hw. destruct (register_extents cfg _ s) as [[[]|ex] s'] eqn:Er; [|done]. eauto. }
  unfold register_extents. wp_steps. cbn [foldS]. wp_step. unfold register_extent. cbn [row_extent row_stack row_channel row_source row_version].
  wp_step. rewrite !(proj2 (String.eqb_neq _ _)) by done. cbn [orb negb]. apply wp_require; [done|]. intros _. wp_steps.
  apply wp_require; [unfold dmem; by rewrite Hpool|]. intros _. wp_step.
  assert (Hsp : b ∉ concat (dvals (free_spares s))) by (rewrite occ_elem, total_concat; unfold free_at in H2; lia).
  assert (Hmp : b ∉ physical_block_id <$> dvals (extents s)) by (rewrite occ_elem, total_mapped; unfold mapped_at in H1; lia).
  rewrite !bool_decide_eq_false_2 by done. unfold dmem. rewrite He. cbn [orb negb]. apply wp_require; [done|]. intros _. wp_step. apply wp_require; [done|]. intros _. wp_steps.
  eapply wp_mono; [apply due_reasons_ok; [done|exact Hf]|]. intros reasons s' (l & -> & _). wp_steps.
  match goal with |- owners ?v b = _ => set (t := v) end. unfold owners. change (free_at t b) with (free_at s b). change (held_at t b) with (held_at s b).
  change (quarantined_at t b) with (quarantined_at s b). assert (Hm : mapped_at t b = S (mapped_at s b)).
  { unfold mapped_at. change (extents t) with (dset (extents s) e x). rewrite total_dset_new by done. cbn [physical_block_id x]. rewrite occ_cons, decide_True by done. done. }
  lia.
Qed.

Lemma maintenance_register_alias_witness : exists cfg s s' o, demo_run two_rows [CPoll 0 true] = Some (cfg, s) /\ dget (operations s) "refresh:0" = Some o /\
  register_extents cfg [{| row_extent := "e2"; row_stack := o_stack o; row_channel := o_channel o; row_source := "spare0"; row_version := 0 |}] s = (Ok tt, s') /\ owners s' "spare0" = 2%nat.
Proof.
  assert (Hd : match demo_run two_rows [CPoll 0 true] with
               | Some (cfg, s) => match dget (operations s) "refresh:0" with
                                  | Some o => bool_decide ("spare0" ∈ held_blocks o) && negb (String.eqb (o_stack o) "") && negb (String.eqb (o_channel o) "")
                                              && bool_decide (dget (extents s) "e2" = None) && is_ok (ReliabilityLedger.fresh_block (age_settings cfg))
                                              && (ReliabilityLedger.frontier (age_settings cfg) (ages s) "e2" <=? ReliabilityLedger.epoch_ns (age_settings cfg))
                                  | None => false
                                  end
               | None => false
               end = true) by (vm_compute; reflexivity).
  destruct (demo_run two_rows [CPoll 0 true]) as [[cfg s]|] eqn:E; [|discriminate Hd]. destruct (dget (operations s) "refresh:0") as [o|] eqn:Eo; [|discriminate Hd].
  apply andb_true_iff in Hd as [Hd H6%Z.leb_le]. apply andb_true_iff in Hd as [Hd H5]. apply andb_true_iff in Hd as [Hd H4%bool_decide_eq_true].
  apply andb_true_iff in Hd as [Hd H3%negb_true_iff]. apply andb_true_iff in Hd as [H1%bool_decide_eq_true H2%negb_true_iff]. apply String.eqb_neq in H2, H3.
  assert (Ha : ReliabilityLedger.accountable (age_settings cfg) "e2").
  { split; [discriminate|]. destruct (ReliabilityLedger.fresh_block (age_settings cfg)) as [b|]; [exists b; reflexivity|discriminate H5]. }
  destruct (maintenance_register_alias cfg _ s _ o "spare0" "e2" (demo_history _ _ _ E eq_refl) Eo H1 ltac:(discriminate) H2 H3 H4 Ha H6) as (s' & Hr & Hown).
  exact (ex_intro _ cfg (ex_intro _ s (ex_intro _ s' (ex_intro _ o (conj eq_refl (conj Eo (conj Hr Hown))))))).
Defined.
End MaintenanceTheorems.
