(* ===== verification/MaintenanceAge.v ===== *)
(** * MaintenanceAge: exact ages at maintenance completions

    Models [experiments/eq3_system_thermal/causal_maintenance_age.py], the adapter
    between [ReliabilityLedger], [MaintenanceDriver] and the receipts of the causal
    service, and proves the contract of the three: when a receipt of the service is
    consumed through the adapter, every affected extent is accounted exactly up to
    the completion of its job, which is what the driver requires before it commits.

    The ledger of the adapter is the one of its driver.  Temperatures are floats in
    kelvin; [set] of identities followed by [sorted] is the sorted list without
    duplicates. *)

From S2P Require Import Prelude ProgramLogic PyFloat.
From S2P Require Import ReliabilityLedger MaintenanceDriver MaintenanceInvariant MaintenanceSteps MaintenanceTheorems.

Module MaintenanceAge.
Import ProgramLogic MaintenanceDriver MaintenanceInvariant MaintenanceSteps MaintenanceTheorems.

#[export] Instance spec_float_eq_dec : EqDecision spec_float.
Proof. solve_decision. Defined.

Notation temperatures := (dict channel_key spec_float).

(** ** The adapter *)

Record adapter := { a_driver : driver; a_temperature : temperatures }.
Notation A := (M adapter).
Definition set_driver (s : driver) (a : adapter) : adapter := {| a_driver := s; a_temperature := a_temperature a |}.
Definition set_temperature (t : temperatures) (a : adapter) : adapter := {| a_driver := a_driver a; a_temperature := t |}.

Definition add_temperature (stack : string) (d : temperatures) (row : string * spec_float) : result temperatures :=
  let? _ := ensure (flt float_zero row.2 && flt row.2 (S754_infinity false)) (ValueError "temperature must be finite and positive") in
  Ok (dset d (stack, row.1) row.2).
Definition _normalize_temperatures (raw : dict string (dict string spec_float)) : result temperatures :=
  foldM (fun d row => foldM (add_temperature row.1) row.2 d) raw [].

Definition _validate_coverage (t : temperatures) (s : driver) : result unit :=
  ensure (forallb (fun x => dmem t (stack x, channel x)) (dvals (extents s))) (ValueError "temperature map does not cover every maintenance extent").

Definition init (s : driver) (raw : dict string (dict string spec_float)) : result adapter :=
  let? t := _normalize_temperatures raw in
  let? _ := _validate_coverage t s in
  Ok {| a_driver := s; a_temperature := t |}.

Section operations.
Context (exp : spec_float -> result spec_float) (sha256 : string -> string) (cfg : settings).

Definition on_driver {B} (m : D B) : A B := fun a => let '(r, s) := m (a_driver a) in (r, set_driver s a).

Notation age_groups := (dict (Z * spec_float) (list string)).
Definition age_group (t : temperatures) (until : Z) (groups : age_groups) (id : string) : D age_groups :=
  let! s := get in
  let! x := lift (dindex (extents s) id) in
  let! start := accounted_through_ns cfg id in
  let! _ := require (start <=? until) (ValueError "completion precedes extent age frontier") in
  let! kelvin := lift (dindex t (stack x, channel x)) in
  sret (dset groups (start, kelvin) (dget_or groups (start, kelvin) [] ++ [id])).
Definition advance_group (until : Z) (group : Z * spec_float * list string) : D unit :=
  let! _ := on_ages (ReliabilityLedger.advance_temperature_many exp sha256 (age_settings cfg) group.2 group.1.1 until group.1.2) in
  sret tt.
Definition group_le (a b : Z * spec_float * list string) : bool := lex zle fleb a.1 b.1.
Definition _advance_extents (t : temperatures) (ids : list string) (until : Z) : D unit :=
  let! groups := foldS (age_group t until) (isort sle (remove_dups ids)) [] in
  forM (isort group_le groups) (advance_group until).

Definition check_aligned (start : Z) (id : string) : D unit :=
  let! frontier := accounted_through_ns cfg id in
  require (frontier =? start) (ValueError "all extents must be age-aligned at window start").
Definition start_window (start : Z) : A (list job) :=
  on_driver (let! s := get in
             let! _ := forM (dkeys (extents s)) (check_aligned start) in
             poll cfg start true).

(** The extents of the completed jobs, by completion time. *)
Definition affect (s : driver) (progress : dict string progress_row) (affected : dict Z (list string)) (id : string) : result (dict Z (list string)) :=
  if dmem (outstanding s) id then
    let? (at_ns, exts) := match dget progress id with
                          | Some row => match completion_ns row with Some t => Ok (t, p_extent_ids row) | None => Raise (ValueError "maintenance completion lacks exact progress timestamp") end
                          | None => Raise (ValueError "maintenance completion lacks exact progress timestamp")
                          end in
    Ok (dset affected at_ns (dget_or affected at_ns [] ++ exts))
  else Ok affected.

Definition drain_ages : D (list ReliabilityLedger.event) := on_ages ReliabilityLedger.drain_events.

Definition bridge_receipt (t : temperatures) (r : receipt) (failed_ids : list string) : D (delta * list ReliabilityLedger.event * list job) :=
  let! s := get in
  let! affected := lift (foldM (affect s (progress_map r)) (completion_ids r) []) in
  let! _ := forM (isort (fun a b => zle a.1 b.1) affected) (fun x => _advance_extents t x.2 x.1) in
  let! d := consume_receipt cfg r failed_ids in
  let! ev := drain_ages in
  let! jobs := poll cfg (end_ns r) false in
  sret (d, ev, jobs).
Definition adapter_consume_receipt (r : receipt) (failed_ids : list string) : A (delta * list ReliabilityLedger.event * list job) :=
  let! a := get in on_driver (bridge_receipt (a_temperature a) r failed_ids).

(** The code installs the new map and puts the old one back when it does not cover
    every extent. *)
Definition finish_window (until : Z) (observed : dict string (dict string spec_float)) : A (list ReliabilityLedger.event) :=
  let! a := get in
  let! _ := on_driver (_advance_extents (a_temperature a) (dkeys (extents (a_driver a))) until) in
  let! ev := on_driver drain_ages in
  let! next := lift (_normalize_temperatures observed) in
  let! a1 := get in
  let! _ := lift (_validate_coverage next (a_driver a1)) in
  let! _ := modify (set_temperature next) in
  sret ev.
End operations.

(** ** Ages advance exactly *)

Section proofs.
Context (exp : spec_float -> result spec_float) (sha256 : string -> string) (cfg : settings).
Notation frontier := (ReliabilityLedger.frontier (age_settings cfg)).
Notation accountable := (ReliabilityLedger.accountable (age_settings cfg)).

(** The age of an interval can be computed. *)
Definition computable (kelvin : spec_float) (span : Z) : Prop :=
  (exists rate, ReliabilityLedger.arrhenius_acceleration exp kelvin (ReliabilityLedger.ea_ev (age_settings cfg)) (ReliabilityLedger.tref_k (age_settings cfg)) = Ok rate) /\
  exists f, float_of_int span = Ok f.

Lemma advance_many_ok F0 ids start until kelvin l : ids <> [] -> NoDup ids -> start <= until -> computable kelvin (until - start) ->
  (forall id, id ∈ ids -> accountable id /\ frontier l id = start) ->
  wp F0 (ReliabilityLedger.advance_temperature_many exp sha256 (age_settings cfg) ids start until kelvin)
    (fun _ l' => forall id, frontier l' id = if decide (id ∈ ids) then until else frontier l id) l.
Proof.
  intros Hne Hnd Hle [[rate Hr] [f Hf]] Hids. unfold ReliabilityLedger.advance_temperature_many. wp_step.
  apply wp_require; [rewrite !bool_decide_eq_true_2 by done; done|]. intros _. wp_step. apply wp_require.
  { intros E. apply not_true_iff_false in E. destruct E. apply forallb_forall. intros id Hid%list_elem_of_In. destruct (Hids id Hid) as [[? _] _]. by apply negb_true_iff, String.eqb_neq. }
  intros _. wp_step. apply wp_require; [intros ?%Z.leb_gt; lia|]. intros _. wp_step. eapply wp_lift; [exact Hr|]. wp_step. eapply wp_lift; [exact Hf|]. wp_step.
  eapply wp_mono; [apply (wp_forM (fun seen l' => forall id, frontier l' id = if decide (id ∈ seen) then until else frontier l id))|].
  - intros id. by rewrite decide_False by apply not_elem_of_nil.
  - intros seen id todo l1 Hsplit H1. unfold ReliabilityLedger.advance_member. wp_step. destruct (Hids id) as [Ha Hfr]; [rewrite Hsplit; apply elem_of_app; right; apply elem_of_cons; by left|].
    pose proof (ReliabilityLedger.block_ok (age_settings cfg) id l1) as Hb. unfold wp at 1 in Hb. unfold wp at 1. destruct (ReliabilityLedger._block (age_settings cfg) id l1) as [[b|e] l2]; [|done].
    destruct Hb as (Hb & _ & [Hx _] & _).
    assert (Hid : id ∉ seen).
    { rewrite Hsplit in Hnd. apply NoDup_app in Hnd as (_ & Hnd & _). intros Hin. apply (Hnd id Hin). apply elem_of_cons. by left. }
    wp_step. apply wp_require; [intros Hz%Z.eqb_neq; rewrite Hb, H1, decide_False in Hz by done; done|]. intros _. wp_step. intros i.
    rewrite ReliabilityLedger.frontier_set. cbn [ReliabilityLedger.last_update_ns ReliabilityLedger.aged]. rewrite (decide_snoc seen id i). destruct (decide (i = id)) as [->|Hi].
    + by rewrite decide_True by done.
    + rewrite decide_False by done. by rewrite Hx, H1.
  - intros [] l1 H1. wp_steps. exact H1.
Qed.

(** The extents [ids] of [s] can be aged up to [until]. *)
Definition ageable (t : temperatures) (s : driver) (until : Z) (id : string) : Prop :=
  exists x kelvin, dget (extents s) id = Some x /\ accountable id /\ frontier (ages s) id <= until /\ dget t (stack x, channel x) = Some kelvin /\
    computable kelvin (until - frontier (ages s) id).

Record age_grouped (t : temperatures) (until : Z) (s : driver) (seen : list string) (groups : dict (Z * spec_float) (list string)) : Prop := {
  ag_keys : NoDup (dkeys groups);
  ag_all : forall id, id ∈ seen -> exists k ids, dget groups k = Some ids /\ id ∈ ids;
  ag_group : forall k ids, dget groups k = Some ids -> ids <> [] /\ NoDup ids /\ k.1 <= until /\ computable k.2 (until - k.1) /\
    forall id, id ∈ ids -> id ∈ seen /\ accountable id /\ frontier (ages s) id = k.1 /\
      exists x, dget (extents s) id = Some x /\ dget t (stack x, channel x) = Some k.2 }.

Lemma age_group_ok F0 t until s seen groups id l : ageable t s until id -> id ∉ seen -> age_grouped t until s seen groups ->
  ReliabilityLedger.extends (age_settings cfg) (ages s) l ->
  wp F0 (age_group cfg t until groups id) (fun groups' s' => age_grouped t until s (seen ++ [id]) groups' /\
    exists l', s' = with_ages l' s /\ ReliabilityLedger.extends (age_settings cfg) (ages s) l') (with_ages l s).
Proof.
  intros (x & kelvin & Hx & Ha & Hle & Ht & Hc) Hseen [G1 G2 G3] Hl. unfold age_group. wp_steps. eapply wp_lift; [unfold dindex; cbn; by rewrite Hx|]. wp_step.
  apply (on_ages_ok (fun _ _ => ~ accountable id)); [intros e l' Hbad; exfalso; by apply Hbad|].
  eapply wp_mono; [apply ReliabilityLedger.accounted_ok|]. intros n l1 [-> Hl1]. cbn [ages with_ages] in Hl1 |- *. rewrite (proj1 Hl). wp_step.
  apply wp_require; [intros ?%Z.leb_gt; lia|]. intros _. wp_step. eapply wp_lift; [unfold dindex; by rewrite Ht|]. wp_step.
  assert (Hl1' := ReliabilityLedger.ages_trans _ _ _ _ Hl Hl1). split; [|eauto]. set (k := (frontier (ages s) id, kelvin)).
  assert (Hold : NoDup (dget_or groups k []) /\ forall i, i ∈ dget_or groups k [] -> i ∈ seen /\ accountable i /\ frontier (ages s) i = k.1 /\
    exists x, dget (extents s) i = Some x /\ dget t (stack x, channel x) = Some k.2).
  { unfold dget_or. destruct (dget groups k) as [ids|] eqn:E; [destruct (G3 k ids E) as (_ & ? & _ & _ & ?); done|]. split; [constructor|by intros i ?%elem_of_nil]. }
  destruct Hold as [Hn Hin]. assert (Happ : forall i, i ∈ seen -> i ∈ seen ++ [id]) by (intros i Hi; apply elem_of_app; by left).
  constructor.
  - by apply NoDup_dkeys_dset.
  - intros i [Hi|Hi]%elem_of_app.
    + destruct (G2 i Hi) as (k' & ids & Hk' & Hi'). destruct (decide (k' = k)) as [->|Hne].
      * exists k. eexists. rewrite dget_dset_eq. split; [done|]. apply elem_of_app. left. unfold dget_or. by rewrite Hk'.
      * exists k', ids. by rewrite dget_dset_ne.
    + apply list_elem_of_singleton in Hi as ->. exists k. eexists. rewrite dget_dset_eq. split; [done|]. apply elem_of_app. right. by apply list_elem_of_singleton.
  - intros k' ids Hk'. apply dset_cases in Hk' as [[-> ->]|[_ Hk']].
    + split_and!; [intros E; by apply app_eq_nil in E as [_ ?]| |done|done|].
      * apply NoDup_app. split_and!; [done| |apply NoDup_singleton]. intros i Hi ->%list_elem_of_singleton. by destruct (Hin id Hi).
      * intros i [Hi|Hi]%elem_of_app; [destruct (Hin i Hi) as (? & ?); split; [auto|done]|]. apply list_elem_of_singleton in Hi as ->.
        split_and!; [apply elem_of_app; right; by apply list_elem_of_singleton|done|done|eauto].
    + destruct (G3 k' ids Hk') as (? & ? & ? & ? & Hi). split_and!; [done..|]. intros i Hi'. destruct (Hi i Hi') as (? & ?). split; [auto|done].
Qed.

Lemma advance_extents_ok F0 t ids until s l0 : ReliabilityLedger.extends (age_settings cfg) (ages s) l0 -> (forall id, id ∈ ids -> ageable t s until id) ->
  wp F0 (_advance_extents exp sha256 cfg t ids until) (fun _ s' => exists l, s' = with_ages l s /\
    forall id, frontier l id = if decide (id ∈ ids) then until else frontier (ages s) id) (with_ages l0 s).
Proof.
  intros Hl0 Hids. unfold _advance_extents. wp_step. set (names := isort sle (remove_dups ids)). assert (Hperm : names ≡ₚ remove_dups ids) by apply isort_perm.
  assert (Hnames : forall id, id ∈ names <-> id ∈ ids) by (intros id; by rewrite Hperm, elem_of_remove_dups).
  assert (Hnd : NoDup names) by (rewrite Hperm; apply NoDup_remove_dups).
  eapply wp_mono; [apply (wp_foldS (fun seen groups s' => age_grouped t until s seen groups /\ exists l, s' = with_ages l s /\ ReliabilityLedger.extends (age_settings cfg) (ages s) l))|].
  - split; [|eauto]. constructor; [constructor|by intros id ?%elem_of_nil|done].
  - intros seen id todo groups s' Hsplit (Hg & l & -> & Hl). apply age_group_ok; [|clear Hg|done|done].
    + apply Hids, Hnames. rewrite Hsplit. apply elem_of_app. right. apply elem_of_cons. by left.
    + rewrite Hsplit in Hnd. apply NoDup_app in Hnd as (_ & Hnd & _). intros Hin. apply (Hnd id Hin). apply elem_of_cons. by left.
  - intros groups s' ([G1 G2 G3] & l & -> & Hl). set (order := isort group_le groups). assert (Hp : order ≡ₚ groups) by apply isort_perm.
    assert (Hgo : forall k ids, (k, ids) ∈ order -> dget groups k = Some ids) by (intros k i Hin; rewrite Hp in Hin; by apply dget_elem).
    assert (Hko : NoDup (dkeys order)) by (unfold dkeys; by rewrite Hp).
    eapply wp_mono; [apply (wp_forM (fun seen s' => exists l, s' = with_ages l s /\
      forall id, frontier l id = if decide (id ∈ concat (snd <$> seen)) then until else frontier (ages s) id))|].
    + exists l. split; [done|]. intros id. rewrite decide_False by apply not_elem_of_nil. by apply Hl.
    + intros seen [k gids] todo s1 Hsplit (l1 & -> & Hl1). unfold advance_group. wp_step. cbn [fst snd].
      destruct (G3 k gids) as (N1 & N2 & N3 & N4 & N5); [apply Hgo; rewrite Hsplit; apply elem_of_app; right; apply elem_of_cons; by left|].
      apply (on_ages_ok (fun _ _ => False)); [done|]. cbn [ages with_ages]. eapply wp_mono; [apply advance_many_ok; [done|done|done|done|]|].
      * intros id Hid. destruct (N5 id Hid) as (_ & Ha & Hf & x & Hx & Ht). split; [done|]. rewrite Hl1, decide_False; [done|]. intros Hin.
        apply list_elem_of_In, in_concat in Hin as (ids' & Hids' & Hin'). apply list_elem_of_In, list_elem_of_fmap in Hids' as ([k' ids2] & -> & Hin2). apply list_elem_of_In in Hin'. cbn in Hin'.
        destruct (G3 k' ids2) as (_ & _ & _ & _ & N5'); [apply Hgo; rewrite Hsplit; apply elem_of_app; by left|]. destruct (N5' id Hin') as (_ & _ & Hf' & x' & Hx' & Ht').
        assert (k' = k) as ->. { destruct k, k'. cbn in *. congruence. }
        rewrite Hsplit in Hko. unfold dkeys in Hko. rewrite fmap_app in Hko. apply NoDup_app in Hko as (_ & Hd & _).
        apply (Hd k); [by apply (list_elem_of_fmap_2 fst) in Hin2|]. rewrite fmap_cons. apply elem_of_cons. by left.
      * intros v l2 Hl2. wp_step. exists l2. split; [done|]. intros id. rewrite Hl2, Hl1, fmap_app, concat_app. cbn [fmap list_fmap concat snd]. rewrite app_nil_r.
        destruct (decide (id ∈ gids)) as [H1|H1]; [rewrite decide_True; [done|apply elem_of_app; by right]|]. apply decide_ext. rewrite elem_of_app. tauto.
    + intros [] s1 (l1 & -> & Hl1). exists l1. split; [done|]. intros id. rewrite Hl1. apply decide_ext. split.
      * intros Hin. apply list_elem_of_In, in_concat in Hin as (ids' & Hids' & Hin'). apply list_elem_of_In, list_elem_of_fmap in Hids' as ([k' ids2] & -> & Hin2). apply list_elem_of_In in Hin'.
        destruct (G3 k' ids2 (Hgo _ _ Hin2)) as (_ & _ & _ & _ & N5'). apply Hnames. by destruct (N5' id Hin').
      * intros Hin%Hnames. destruct (G2 id Hin) as (k & gids & Hk & Hi). apply list_elem_of_In, in_concat. exists gids. split; [|by apply list_elem_of_In].
        apply list_elem_of_In. apply (list_elem_of_fmap_2 snd _ (k, gids)). rewrite Hp. by apply dget_Some_elem.
Qed.
End proofs.

(** ** Receipts through the adapter *)

Section bridge.
Context (exp : spec_float -> result spec_float) (sha256 : string -> string) (cfg : settings).
Notation frontier := (ReliabilityLedger.frontier (age_settings cfg)).

(** What the driver and the adapter rely on in a receipt: a completed job has all
    its bytes and a time, its row names the extents of the job, and these extents can
    be aged up to that time. *)
Definition fits (t : temperatures) (s : driver) (r : receipt) : Prop :=
  forall id oid p o, id ∈ completion_ids r -> dget (outstanding s) id = Some (oid, p) -> dget (operations s) oid = Some o ->
    exists row at_ns, dget (progress_map r) id = Some row /\ remaining_bytes row = 0 /\ completion_ns row = Some at_ns /\ cost_ok cfg p (p_block_count row) /\
      (forall e, e ∈ p_extent_ids row -> e ∈ op_extents o) /\ (p = Program -> forall e, e ∈ op_extents o -> e ∈ p_extent_ids row) /\
      forall e, e ∈ p_extent_ids row -> ageable exp cfg t s at_ns e.

(** Extent [e] is affected by a completion at [at_ns]. *)
Definition touched (s : driver) (r : receipt) (ids : list string) (at_ns : Z) (e : string) : Prop :=
  exists id row, id ∈ ids /\ is_Some (dget (outstanding s) id) /\ dget (progress_map r) id = Some row /\ completion_ns row = Some at_ns /\ e ∈ p_extent_ids row.

Lemma affect_ok t s r : inv cfg s -> fits t s r -> exists aff, foldM (affect s (progress_map r)) (completion_ids r) [] = Ok aff /\ NoDup (dkeys aff) /\
  forall at_ns e, (exists l, dget aff at_ns = Some l /\ e ∈ l) <-> touched s r (completion_ids r) at_ns e.
Proof.
  intros Hi Hf. apply (foldM_inv (fun seen aff => NoDup (dkeys aff) /\ forall at_ns e, (exists l, dget aff at_ns = Some l /\ e ∈ l) <-> touched s r seen at_ns e)).
  - split; [constructor|]. intros at_ns e. split; [by intros (l & ? & _)|]. by intros (id & row & ?%elem_of_nil & _).
  - intros seen id todo aff Hsplit [Hk Ha]. unfold affect, dmem.
    assert (Hmore : forall at_ns e, touched s r (seen ++ [id]) at_ns e <-> touched s r seen at_ns e \/ touched s r [id] at_ns e).
    { intros at_ns e. unfold touched. setoid_rewrite elem_of_app. naive_solver. }
    destruct (dget (outstanding s) id) as [[oid p]|] eqn:Hj.
    + destruct (i_jobs _ _ Hi _ _ _ Hj) as (o & n & Ho & _). destruct (Hf id oid p o) as (row & at_ns & Hrow & _ & Hat & _); [rewrite Hsplit; apply elem_of_app; right; apply elem_of_cons; by left|done|done|].
      rewrite Hrow, Hat. cbn [rbind]. eexists. split; [done|]. split; [by apply NoDup_dkeys_dset|]. intros at' e. rewrite Hmore, <- Ha.
      assert (Hone : touched s r [id] at' e <-> at' = at_ns /\ e ∈ p_extent_ids row).
      { split; [intros (i & row' & ->%list_elem_of_singleton & _ & Hr' & Ha' & He); rewrite Hrow in Hr'; injection Hr' as <-; split; [congruence|done]|].
        intros [-> He]. exists id, row. split_and!; [by apply list_elem_of_singleton|by eexists|done..]. }
      rewrite Hone. destruct (decide (at' = at_ns)) as [->|Hne].
      * rewrite dget_dset_eq. unfold dget_or. split.
        -- intros (l & [= <-] & He). apply elem_of_app in He as [He|He]; [|by right]. left. destruct (dget aff at_ns) as [l|]; [by exists l|by apply elem_of_nil in He].
        -- intros [(l & Hl & He)|[_ He]]; eexists; (split; [done|]); apply elem_of_app; [left; by rewrite Hl|by right].
      * rewrite dget_dset_ne by done. split; [by left|]. intros [?|[? _]]; done.
    + eexists. split; [done|]. split; [done|]. intros at' e. rewrite Ha, Hmore. split; [by left|]. intros [?|(i & row & ->%list_elem_of_singleton & Hs & _)]; [done|].
      rewrite Hj in Hs. by destruct Hs.
Qed.

(** An extent is touched at one time only, and can be aged up to it. *)
Lemma touched_once t s r at1 at2 e : inv cfg s -> fits t s r -> touched s r (completion_ids r) at1 e -> touched s r (completion_ids r) at2 e -> at1 = at2.
Proof.
  intros Hi Hf (i & row & Hin & [[oid p] Hj] & Hrow & Hat & He) (i' & row' & Hin' & [[oid' p'] Hj'] & Hrow' & Hat' & He').
  destruct (i_jobs _ _ Hi _ _ _ Hj) as (o & n & Ho & _), (i_jobs _ _ Hi _ _ _ Hj') as (o' & n' & Ho' & _).
  destruct (Hf _ _ _ _ Hin Hj Ho) as (ro & a & R1 & _ & _ & _ & R2 & _), (Hf _ _ _ _ Hin' Hj' Ho') as (ro' & a' & R1' & _ & _ & _ & R2' & _).
  rewrite Hrow in R1. injection R1 as <-. rewrite Hrow' in R1'. injection R1' as <-. destruct (decide (oid = oid')) as [<-|Hne].
  - assert (i = i') as <- by by eapply (i_one_job _ _ Hi). congruence.
  - destruct (ops_apart cfg s oid o oid' o' e Hi Ho Ho' Hne (R2' e He') (R2 e He)).
Qed.

Lemma advance_affected_ok F0 t s r aff : inv cfg s -> fits t s r -> NoDup (dkeys aff) ->
  (forall at_ns e, (exists l, dget aff at_ns = Some l /\ e ∈ l) <-> touched s r (completion_ids r) at_ns e) ->
  wp F0 (forM (isort (fun a b => zle a.1 b.1) aff) (fun x => _advance_extents exp sha256 cfg t x.2 x.1))
    (fun _ s' => exists l, s' = with_ages l s /\ forall at_ns e, touched s r (completion_ids r) at_ns e -> frontier l e = at_ns) s.
Proof.
  intros Hi Hf Hk Haff. set (order := isort _ aff). assert (Hp : order ≡ₚ aff) by apply isort_perm. assert (Hko : NoDup (dkeys order)) by (unfold dkeys; by rewrite Hp).
  assert (Hin : forall at_ns l e, (at_ns, l) ∈ order -> e ∈ l -> touched s r (completion_ids r) at_ns e).
  { intros at_ns l e Ho He. apply Haff. exists l. split; [|done]. apply dget_elem; [done|]. by rewrite <- Hp. }
  eapply wp_mono; [apply (wp_forM (fun seen s' => exists l, s' = with_ages l s /\
    (forall at_ns (le : list string) e, (at_ns, le) ∈ seen -> e ∈ le -> frontier l e = at_ns) /\
    (forall e, (forall at_ns (le : list string), (at_ns, le) ∈ seen -> e ∉ le) -> frontier l e = frontier (ages s) e)))|].
  - exists (ages s). split_and!; [by destruct s|by intros at_ns le e ?%elem_of_nil|done].
  - intros seen [at_ns le] todo s1 Hsplit (l & -> & L1 & L2). cbn [fst snd].
    assert (Hcur : (at_ns, le) ∈ order) by (rewrite Hsplit; apply elem_of_app; right; apply elem_of_cons; by left).
    assert (Hapart : forall e, e ∈ le -> forall at' le', (at', le') ∈ seen -> e ∉ le').
    { intros e He at' le' Hs He'. assert (at_ns = at') as <-.
      { eapply touched_once; [done|done|by apply (Hin _ le)|]. apply (Hin _ le'); [rewrite Hsplit; apply elem_of_app; by left|done]. }
      rewrite Hsplit in Hko. unfold dkeys in Hko. rewrite fmap_app in Hko. apply NoDup_app in Hko as (_ & Hd & _).
      apply (Hd at_ns); [by apply (list_elem_of_fmap_2 fst) in Hs|]. rewrite fmap_cons. apply elem_of_cons. by left. }
    eapply wp_mono; [apply (advance_extents_ok exp sha256 cfg F0 t le at_ns (with_ages l s) l); [apply ReliabilityLedger.ages_refl|]|].
    + intros e He. destruct (Hin _ _ _ Hcur He) as (i & row & Hi1 & [[oid p] Hj] & Hrow & Hat & Hex). destruct (i_jobs _ _ Hi _ _ _ Hj) as (o & n & Ho & _).
      destruct (Hf _ _ _ _ Hi1 Hj Ho) as (row' & a' & R1 & _ & R3 & _ & _ & _ & R5). rewrite Hrow in R1. injection R1 as <-. rewrite Hat in R3. injection R3 as <-.
      destruct (R5 e Hex) as (x & k & X1 & X2 & X3 & X4 & X5). exists x, k. cbn [ages with_ages extents]. rewrite (L2 e (Hapart e He)). done.
    + intros [] s2 (l2 & -> & Hl2). exists l2. cbn [ages with_ages] in Hl2. split_and!; [done| |].
      * intros a' le' e [Hs|Hs]%elem_of_app He.
        -- rewrite Hl2, decide_False; [by eapply L1|]. intros Hle. by apply (Hapart e Hle a' le').
        -- apply list_elem_of_singleton in Hs. injection Hs as -> ->. rewrite Hl2. by rewrite decide_True.
      * intros e Hno. rewrite Hl2, decide_False; [|apply (Hno at_ns); apply elem_of_app; right; by apply list_elem_of_singleton]. apply L2. intros a' le' Hs. apply (Hno a'). apply elem_of_app. by left.
  - intros [] s1 (l & -> & L1 & _). exists l. split; [done|]. intros at_ns e Ht. apply Haff in Ht as (le & Hle & He). apply (L1 at_ns le e); [|done]. rewrite Hp. by apply dget_Some_elem.
Qed.

(** C21: ages are exact at completion.  Take any history of the driver and a receipt
    of a storage service that reports complete jobs with times and extents that can be
    aged.  Consuming it through the adapter succeeds, whatever jobs are reported as
    failed: every affected extent is accounted up to exactly the completion of its
    job, so that no commit is refused, and the next phases are offered.  The result
    is again a history of the driver. *)
Theorem maintenance_age_exact U a r failed : history cfg U (a_driver a) -> fits (a_temperature a) (a_driver a) r ->
  (forall id, id ∈ failed -> id ∈ completion_ids r) -> 0 <= end_ns r ->
  exists d ev jobs a', adapter_consume_receipt exp sha256 cfg r failed a = (Ok (d, ev, jobs), a') /\ history cfg U (a_driver a') /\
    (forall at_ns e, touched (a_driver a) r (completion_ids r) at_ns e -> frontier (ages (a_driver a')) e = at_ns) /\
    (forall oid o, dget (operations (a_driver a')) oid = Some o -> exists j, dget (outstanding (a_driver a')) j = Some (oid, o_phase o)).
Proof.
  intros H Hf Hfail Hend. destruct (history_inv _ _ _ H) as (Hcfg & Hi & _). set (s := a_driver a) in *. set (t := a_temperature a) in *.
  destruct (affect_ok t s r Hi Hf) as (aff & Haff & Hk & Hspec).
  enough (Hw : wp (fun _ _ => False) (bridge_receipt exp sha256 cfg t r failed) (fun res s' => history cfg U s' /\
    (forall at_ns e, touched s r (completion_ids r) at_ns e -> frontier (ages s') e = at_ns) /\
    (forall oid o, dget (operations s') oid = Some o -> exists j, dget (outstanding s') j = Some (oid, o_phase o))) s).
  { unfold wp in Hw. destruct (bridge_receipt exp sha256 cfg t r failed s) as [[[[d ev] jobs]|e] s'] eqn:E; [|done]. exists d, ev, jobs, (set_driver s' a). split; [|done].
    unfold adapter_consume_receipt, sbind, get, on_driver. fold s t. by rewrite E. }
  unfold bridge_receipt. wp_steps. eapply wp_lift; [exact Haff|]. wp_step.
  eapply wp_mono; [by apply (advance_affected_ok _ t s r aff)|]. intros [] s1 (l & -> & Hl). wp_step.
  assert (Hh1 : history cfg U (with_ages l s)) by by apply history_ages. assert (Hi1 : inv cfg (with_ages l s)) by by apply inv_ages.
  pose proof (consume_receipt_ok cfg r failed (with_ages l s) Hcfg Hi1) as Hc. unfold wp at 1 in Hc. unfold wp at 1.
  destruct (consume_receipt cfg r failed (with_ages l s)) as [[d|e] s2] eqn:Ec.
  2:{ apply Hc. split; [|done]. intros id Hid oid p o Hj Ho. destruct (Hf id oid p o Hid Hj Ho) as (row & at_ns & R1 & R2 & R3 & R4 & _ & R6 & _). exists row, at_ns. split_and!; [done..|].
      intros Hp it Hit. apply Hl. exists id, row. split_and!; [done|by eexists|done|done|]. apply R6; [done|]. by apply list_elem_of_fmap_2. }
  destruct Hc as (Hi2 & s3 & Hall & -> & _). assert (Hh2 := history_consume _ _ _ _ _ _ _ Hh1 Ec).
  assert (Hfr : forall e, frontier (ages s3) e = frontier l e).
  { intros e. clear -Hall. change l with (ages (with_ages l s)). induction Hall as [|u ids u1 id u2 _ IH _ Hcons]; [done|]. rewrite <- IH. unfold consumed in Hcons.
    destruct (dget (outstanding u1) id) as [[oid p]|]; [|by subst]. destruct Hcons as (o & next & row & at_ns & _ & _ & Hcomp & _). apply (cp_ages _ _ _ _ _ _ _ Hcomp). }
  wp_step. unfold drain_ages. apply (on_ages_ok (fun _ _ => False)); [done|]. unfold ReliabilityLedger.drain_events. wp_steps.
  match goal with |- wp _ _ _ (with_ages ?v _) => set (l4 := v) end. set (s4 := with_ages l4 _).
  assert (Hh4 : history cfg U s4) by by apply history_ages. destruct (history_inv _ _ _ Hh4) as (_ & Hi4 & _).
  pose proof (driver_poll_ok cfg (end_ns r) false s4 Hcfg Hi4) as Hp. unfold wp at 1 in Hp. unfold wp at 1. destruct (poll cfg (end_ns r) false s4) as [[jobs|e] s5] eqn:Ep.
  2:{ by apply Hp. }
  destruct Hp as (_ & Hi5 & s6 & Hi6 & Hb & Hpl). wp_step. split_and!; [by eapply history_poll| |].
  - intros at_ns e Ht. rewrite <- (Hl at_ns e Ht), <- Hfr. destruct (pl_frame _ _ _ _ _ Hpl) as (O & J & ->). change (ages (set_outstanding J (set_operations O s6))) with (ages s6).
    rewrite (proj1 (bg_ages _ _ _ _ Hb)). done.
  - intros oid o Ho. apply (i_job _ _ Hi5); [done|]. rewrite (pl_ops _ _ _ _ _ Hpl) in Ho. destruct (dget (operations s6) oid) as [o1|] eqn:Ho1; [|done].
    cbn in Ho. rewrite decide_True in Ho by (apply isort_elem, dget_is_Some; by eexists). by injection Ho as <-.
Qed.
End bridge.


(** ** Deciding the conditions on a receipt *)

Section check.
Context (exp : spec_float -> result spec_float) (cfg : settings).

Lemma is_ok_spec {B} (r : result B) : is_ok r = true -> exists b, r = Ok b.
Proof. destruct r; [eauto|done]. Qed.

Definition ageable_b (t : temperatures) (s : driver) (until : Z) (id : string) : bool :=
  match dget (extents s) id with
  | Some x => match dget t (stack x, channel x) with
              | Some kelvin => negb (String.eqb id "") && is_ok (ReliabilityLedger.fresh_block (age_settings cfg)) &&
                  (ReliabilityLedger.frontier (age_settings cfg) (ages s) id <=? until) &&
                  is_ok (ReliabilityLedger.arrhenius_acceleration exp kelvin (ReliabilityLedger.ea_ev (age_settings cfg)) (ReliabilityLedger.tref_k (age_settings cfg))) &&
                  is_ok (float_of_int (until - ReliabilityLedger.frontier (age_settings cfg) (ages s) id))
              | None => false
              end
  | None => false
  end.
Lemma ageable_b_spec t s until id : ageable_b t s until id = true -> ageable exp cfg t s until id.
Proof.
  unfold ageable_b. destruct (dget (extents s) id) as [x|] eqn:Hx; [|done]. destruct (dget t (stack x, channel x)) as [kelvin|] eqn:Ht; [|done].
  rewrite !andb_true_iff. intros [[[[H1%negb_true_iff%String.eqb_neq H2] H3%Z.leb_le] H4] H5]. exists x, kelvin. apply is_ok_spec in H2, H4, H5. split_and!; [done|by split|done|done|by split].
Qed.

Definition cost_b (p : phase) (n : Z) : bool :=
  (negb (bool_decide (p = Program)) || is_ok (float_of_int (block_bytes cfg * n))) && (negb (is_erase p) || is_ok (float_of_int n)).
Lemma cost_b_spec p n : cost_b p n = true -> cost_ok cfg p n.
Proof.
  unfold cost_b. rewrite andb_true_iff, !orb_true_iff, !negb_true_iff. intros [H1 H2]. split.
  - intros Hp _. destruct H1 as [H1|H1]; [by apply bool_decide_eq_false in H1|by apply is_ok_spec].
  - intros Hp _. destruct H2 as [H2|H2]; [congruence|by apply is_ok_spec].
Qed.

Definition fits_b (t : temperatures) (s : driver) (r : receipt) : bool :=
  forallb (fun id => match dget (outstanding s) id with
                     | Some (oid, p) =>
                         match dget (operations s) oid, dget (progress_map r) id with
                         | Some o, Some row =>
                             match completion_ns row with
                             | Some at_ns => (remaining_bytes row =? 0) && cost_b p (p_block_count row) && same_set (p_extent_ids row) (op_extents o) &&
                                 forallb (ageable_b t s at_ns) (p_extent_ids row)
                             | None => false
                             end
                         | _, _ => false
                         end
                     | None => true
                     end) (completion_ids r).
Lemma fits_b_spec t s r : fits_b t s r = true -> fits exp cfg t s r.
Proof.
  unfold fits_b. rewrite forallb_forall. intros H id oid p o Hin Hj Ho. apply list_elem_of_In in Hin. specialize (H id Hin). rewrite Hj, Ho in H.
  destruct (dget (progress_map r) id) as [row|] eqn:Hrow; [|done]. destruct (completion_ns row) as [at_ns|] eqn:Hat; [|done].
  rewrite !andb_true_iff in H. destruct H as [[[H1%Z.eqb_eq H2] H3] H4]. unfold same_set in H3. apply andb_true_iff in H3 as [H3%bool_decide_eq_true H5%bool_decide_eq_true].
  rewrite Forall_forall in H3, H5. rewrite forallb_forall in H4. exists row, at_ns. split_and!; [done|done|done|by apply cost_b_spec|done|auto|].
  intros e He. apply ageable_b_spec, H4. by apply list_elem_of_In.
Qed.
End check.

(** ** An example *)

Definition flat_exp (_ : spec_float) : result spec_float := Ok float_one.
Definition no_digest (_ : string) : string := "".
Definition demo_temperatures : temperatures := [(("hbf0", "0"), ReliabilityLedger.DEFAULT_TREF_K)].
Definition programming_calls : list call :=
  [CPoll 0 true; CConsume (done_receipt "refresh:0:refresh_read:0" 2 0 ["e0"; "e1"]) []; CPoll 0 false].
Definition late_receipt : receipt := done_receipt "refresh:0:program:0" 2 7 ["e0"; "e1"].

Lemma maintenance_age_exact_witness : exists cfg s d ev jobs a', demo_run two_rows programming_calls = Some (cfg, s) /\
  adapter_consume_receipt flat_exp no_digest cfg late_receipt [] {| a_driver := s; a_temperature := demo_temperatures |} = (Ok (d, ev, jobs), a') /\
  ReliabilityLedger.frontier (age_settings cfg) (ages (a_driver a')) "e0" = 7.
Proof.
  assert (Hd : match demo_run two_rows programming_calls with
               | Some (cfg, s) => fits_b flat_exp cfg demo_temperatures s late_receipt && dmem (outstanding s) "refresh:0:program:0"
               | None => false
               end = true) by (vm_compute; reflexivity).
  destruct (demo_run two_rows programming_calls) as [[cfg s]|] eqn:E; [|discriminate Hd]. apply andb_true_iff in Hd as [Hfit Hj].
  destruct (maintenance_age_exact flat_exp no_digest cfg _ {| a_driver := s; a_temperature := demo_temperatures |} late_receipt [] (demo_history _ _ _ E eq_refl)
    (fits_b_spec _ _ _ _ _ Hfit) ltac:(intros id Hid; destruct (not_elem_of_nil id Hid)) ltac:(cbn; lia)) as (d & ev & jobs & a' & Hr & _ & Hfr & _).
  assert (Ht : touched s late_receipt (completion_ids late_receipt) 7 "e0").
  { exists "refresh:0:program:0", (done_row "refresh:0:program:0" 2 7 ["e0"; "e1"]). split_and!; [apply elem_of_cons; left; reflexivity| |reflexivity|reflexivity|apply elem_of_cons; left; reflexivity].
    unfold dmem in Hj. destruct (dget (outstanding s) "refresh:0:program:0") as [v|]; [exists v; reflexivity|discriminate Hj]. }
  pose proof (Hfr 7 "e0" Ht) as Hf. exact (ex_intro _ cfg (ex_intro _ s (ex_intro _ d (ex_intro _ ev (ex_intro _ jobs (ex_intro _ a' (conj eq_refl (conj Hr Hf)))))))).
Defined.
End MaintenanceAge.
